(* ===== verification/_CoqProject ===== *)
-Q . S2P
Prelude.v
Layout.v
Crc32c.v
Bf16.v
Frame.v
FrameProofs.v
FrameTheorems.v
Ladder.v
LadderProofs.v
AsyncApi.v
KvPool.v
Scheduler.v
Paging.v
PagingProofs.v
CopyIndex.v
Floats.v
FloatRound.v
E4m3.v
Fp8Kv.v
Fp8KvProofs.v
KvCache.v
KvCacheProofs.v
PagedProofs.v
RingProofs.v
HostCache.v
HostPool.v
HostCapture.v
HostRestore.v
HostReach.v
HostCacheProofs.v
HostInstance.v
RepackGeom.v
RepackSlice.v
RepackProofs.v
Utf8.v
Scan.v
Loader.v
Json.v
JsonProofs.v
ApiJson.v
ApiParser.v
ChatTemplate.v
MarkupProofs.v
StreamSplit.v
StreamProofs.v
Tokenizer.v
TokenizerProofs.v
Streaming.v
Base64.v
Inflate.v
HuffmanProofs.v
InflateProofs.v
InflateBlocks.v
Exif.v
Png.v
Buffers.v
PngTotal.v
PngRoundtrip.v
JpegIdct.v
JpegBits.v
JpegScan.v
Jpeg.v
JpegFrames.v
JpegMarkers.v
JpegFinish.v
Resize.v
Vision.v
VisionProofs.v
Sha256.v
Sha256Proofs.v
RepackJson.v
RepackJsonProofs.v
Manifest.v
ManifestProofs.v
Identity.v
Safetensors.v
Expert.v
Spark.v
SparkRoute.v
SparkServe.v
