(* ===== verification/Prelude.v ===== *)
(** * mimo26f-afd: a verification library

    The repository serves a mixture-of-experts language model whose attention and expert
    layers run on different machines.  A coordinator (crates/mimo26-coordinator) holds
    the requests, the KV caches and the dense layers; expert servers, the sparks, hold
    the experts' weights, four quarter slices to an expert; binary frames
    (crates/mimo26-wire) carry hidden rows to the sparks and partial rows back.  An HTTP
    front door (crates/mimo26-api) parses and streams what the model writes.  Checkpoints
    are loaded (crates/mimo26-load) or cut into slices (crates/mimo26-repack) beforehand.
    The crates' sources are under src/crates/.

    ** Conventions

    This file holds what the others share: the type [outcome] of Rust results ([Ok],
    [Err], and [Panic] for an unwinding), its monad and loops, indexing and slicing with
    their panics, little-endian integers, and a class of fixed-size codecs.  An integer
    is a [Z] with the bounds of its type written where the source can leave them; a
    vector is a list; a method that takes [&mut self] returns the new state next to its
    result, on errors too.  Plain arithmetic that overflows is a [Panic], as in a build
    with overflow checks; a release build wraps.  A theorem rules the overflow out from
    bounds, names it, or supposes that the call returned; in Safetensors.v, where the
    file chooses the numbers, the build is an argument.  A [String] is a list of bytes in
    the wire files, and a list of scalar values in the JSON and markup files, with its
    UTF-8 where bytes matter. IEEE floats are [spec_float]s, except where the source only
    parses and prints them: every NaN is one quiet NaN, without its sign and payload.

    ** Parts

    - The wire.  Layout.v (naive.rs, error.rs, layout.rs), Crc32c.v (crc32c.rs), Bf16.v
      (bf16.rs), Frame.v (frame.rs: both encoders, [decode_frame], [RequestView]), with
      FrameProofs.v and FrameTheorems.v: round trips (of a return, what the encoder
      accepts and what the decoder makes of it), detection of corruption, what decoding
      does on arbitrary bytes, the agreement of the checksum paths and of the in-place
      view with the decoder, and BF16 rounding.
    - The ladder above the frames.  Ladder.v (l4.rs: sequence numbers, bounded retry, the
      coordinator's sum of partial rows) with LadderProofs.v: in-order exactly-once
      delivery, bounded retry, a sum in rank order whatever the arrival order. AsyncApi.v
      (async_api.rs): the client over the trait [Transport], which never waits and keeps
      tickets apart.
    - Requests.  KvPool.v (kv_pool.rs: the byte ledger), Scheduler.v (scheduler.rs),
      Paging.v (phase.rs, paging.rs) with PagingProofs.v, CopyIndex.v (copy.rs):
      accounting of the pool by both of its clients, chunks of a prefill, the stall of an
      empty head, pages served only to their phase and epoch, drafts that are copies of
      the context.
    - Floats.  Floats.v (binary32 and binary64, their casts and roundings) with
      FloatRound.v, over the real numbers: each operation is the nearest float of the
      exact result, comparison is that of the reals, casts truncate and saturate.
    - Attention caches.  E4m3.v (E4M3 codec of the loader), Fp8Kv.v (lib.rs, geom.rs,
      fp8kv.rs) with Fp8KvProofs.v, KvCache.v (cache.rs) with KvCacheProofs.v,
      PagedProofs.v and RingProofs.v: nearest rounding, what a stored row reads as, the
      paged cache as a refinement of one row store, the sliding ring's eviction.
    - The host snapshot cache.  HostCache.v (hostcache.rs) over the interface [KvDevice];
      HostPool.v, which also states the device's contract as a class, HostCapture.v,
      HostRestore.v and HostReach.v carry the invariant over every history,
      HostCacheProofs.v has the theorems (exact reuse, slot and reference accounts, order
      of eviction, the leak of a failed export), HostInstance.v an instance of the
      contract and the concrete histories.
    - Repacking.  RepackGeom.v (geom.rs, error.rs), RepackSlice.v (mxfp4.rs, repack.rs)
      with RepackProofs.v: four slices are a permutation of the expert, and dequantizing
      commutes with slicing.  Safetensors.v (safetensors.rs): the header parser returns,
      and the ranges it lets through are inside the file, unless their end wraps around
      in a release build.  Sha256.v (sha256.rs) with Sha256Proofs.v: the streaming hash
      is that of FIPS 180-4 however the message is cut.  RepackJson.v (json.rs),
      Manifest.v (manifest.rs) and Identity.v (identity.rs) with RepackJsonProofs.v and
      ManifestProofs.v: a manifest comes back from its text, a slice is loaded only when
      its identity, length and digest are the manifest's, and a directory is served only
      when all of it is.
    - Text.  Utf8.v and Scan.v (characters, number text, the scanning and searching the
      parsers share, and a [BTreeMap] with string keys); Json.v (the coordinator's
      json.rs) with JsonProofs.v: the parser returns on every text and inverts the
      serialiser; ApiJson.v (the API's json.rs); ChatTemplate.v (chat.rs of the
      coordinator); ApiParser.v (parser.rs) with MarkupProofs.v: the parser inverts the
      template's rendering of tool calls, keeps no nameless call and no more than the
      cap, and does not return on a stray tag; StreamSplit.v (chat.rs of the API) with
      StreamProofs.v: the streamed deltas refine a character-level specification whatever
      the pieces they come in, and say what the response that is not streamed says.
      Tokenizer.v (tokenizer.rs) with TokenizerProofs.v: decoding inverts encoding;
      Streaming.v (stop.rs, streaming.rs, the decode loop of api.rs): no stop sequence is
      emitted and nothing else is lost, wherever the tokens cut it.
    - Loading.  Loader.v (lib.rs, fused.rs, names.rs and the block codec of e4m3.rs in
      the loader): which scale row a fused projection's rows take, why the naive reading
      is right for one shard only, the audit of tensor names, the block round trip.
    - Experts.  Expert.v (the expert crate's lib.rs, mxfp4.rs, slice.rs, grouped.rs,
      rank_sum.rs and split.rs): the grouped GEMMs of an expert layer compute each row as
      its expert would alone.  Spark.v (route.rs, wire.rs, serve.rs, server.rs,
      transport.rs and [cpu_reduce_bf16] of the spark crate) with SparkRoute.v and
      SparkServe.v: the plan of a request is valid and loses no route, the two orders of
      reduction agree bit for bit, a request's return is the weighted sums of its
      experts, requests are answered in order over the ladder, a corrupted frame is
      survived by sending it again, and frames come out of a TCP stream whole.
    - Images.  Base64.v (base64.rs, and the errors of lib.rs); Inflate.v (inflate.rs, and
      a bit-by-bit reading of RFC 1951) with HuffmanProofs.v, InflateProofs.v and
      InflateBlocks.v: the buffered, table-driven inflater refines it; Exif.v (exif.rs):
      transposes can be undone; Png.v (png.rs) with PngTotal.v and PngRoundtrip.v: no
      file makes the decoder panic, and an encoded image comes back.  JpegIdct.v,
      JpegBits.v, JpegScan.v and Jpeg.v (jpeg.rs) with JpegFrames.v, JpegMarkers.v and
      JpegFinish.v: the shortcuts of the inverse DCT are exact, and no file makes the
      decoder panic.  Resize.v (resize.rs): the bicubic filter is the separable sum it
      optimises.  Vision.v (lib.rs, preprocess.rs: data URLs, dispatch, the target size,
      the patches) with VisionProofs.v: the target size is within its bounds, each patch
      value comes from the pixel of its place, and no image URL makes the path from text
      to patches panic.  Buffers.v has the rules the proofs of totality share.

    ** Interactions

    [ExpertClient] sends what Frame.v encodes and feeds [CoordinatorSum]; Scheduler.v and
    Paging.v both reserve in KvPool.v through its lemmas; Fp8Kv.v is the codec of the
    stores of KvCache.v; the host cache copies pages and states through [KvDevice]; the
    stream and the plain response both go through [parse_markup], whose arguments go
    through the API's JSON parser.  The server of Spark.v accepts and stamps with the
    ladder's receiver and sender, decodes rows with E4m3.v, and runs Expert.v.

    ** Fuel

    Loops whose end is not structural take fuel.  The JSON parsers give themselves twice
    the number of bytes and one, the string loop one more than the bytes left, the
    splitter two more than the text it holds: JsonProofs.v, ApiJson.v and StreamProofs.v
    prove these enough.  The markup parser takes its fuel as an argument: one more than
    the text's length is enough for what the template renders, and none is enough for a
    stray tag.  The inflater has one step for each of its input's bits and 72 more (the
    zeros it may look ahead to), which InflateBlocks.v proves enough; the repacker's JSON
    parsers give themselves as much as the others (RepackJsonProofs.v, Safetensors.v);
    the walks over PNG chunks run on the length of the file (PngTotal.v), those over JPEG
    markers and restarts too (JpegMarkers.v, JpegBits.v); nine passes fill the JPEG bit
    accumulator, and a block's loops run on its 64 coefficients.  [drain] ends when what
    has arrived is read; [chunks] ends unless the chunk is zero; eviction loops run on
    the number of snapshots; [tile_m] runs on the rows it tiles (SparkRoute.v).

    ** Assumed of the outside

    The device behind the host cache ([KvDevice] and its laws), the transport under the
    client ([QueueTransport]), the Unicode tables of letters and numbers, the SipHash of
    page ids, the files and directories the repacker reads, the exponential of the
    expert's activation, and, for JSON floats, that a finite [f64] is displayed as
    digits, a point and digits that parse back to it ([Float64Laws]).  Each has a
    concrete instance.

    ** Not modelled

    CUDA kernels and FFI, the forward passes and the attention twin (transcendental
    floating point on the device's data), sockets, RDMA and threads, files and the
    environment, sampling, the coordinator's own tool-call parser and HTTP server, the
    repacker's command line, the expert's fixtures, AOT manifests and benches, and the
    lane simulator (a test harness over the wire).  In the streamed response: failing
    socket writes and the JSON text of the events.  The depth of recursion (a stack
    overflow on deeply nested JSON) is outside the model. *)
From Stdlib Require Import ZArith Lia Bool.
From stdpp Require Import base list gmap strings.

#[global] Open Scope Z_scope.

(** * Outcomes of Rust functions

    [Ok]/[Err] are the constructors of Rust's [Result]; [Panic] is the unwinding
    a failed index, slice, [assert!] or checked arithmetic operation causes.
    Functions that return [Option] or a plain value and may panic use
    [outcome] with an empty or unit error type. *)
Inductive outcome (E A : Type) : Type :=
| Ok (a : A)
| Err (e : E)
| Panic.
Arguments Ok {E A} a.
Arguments Err {E A} e.
Arguments Panic {E A}.

#[export] Instance outcome_ret E : MRet (outcome E) := fun _ a => Ok a.
#[export] Instance outcome_bind E : MBind (outcome E) := fun _ _ f m =>
  match m with Ok a => f a | Err e => Err e | Panic => Panic end.
#[export] Instance outcome_fmap E : FMap (outcome E) := fun _ _ f m =>
  match m with Ok a => Ok (f a) | Err e => Err e | Panic => Panic end.

(** [Result::map_err] / [?] with a [From] conversion. *)
Definition map_err {E F A} (f : E -> F) (m : outcome E A) : outcome F A :=
  match m with Ok a => Ok a | Err e => Err (f e) | Panic => Panic end.

(** [Option::ok_or]. *)
Definition ok_or {E A} (o : option A) (e : E) : outcome E A :=
  match o with Some a => Ok a | None => Err e end.

Definition is_ok {E A} (m : outcome E A) : bool :=
  match m with Ok _ => true | _ => false end.

Definition no_panic {E A} (m : outcome E A) : Prop :=
  match m with Panic => False | _ => True end.

(** [for x in l { f(x)?; }] and the same loop threading an accumulator. *)
Fixpoint for_each {E A} (f : A -> outcome E unit) (l : list A) : outcome E unit :=
  match l with
  | [] => Ok tt
  | x :: l => f x ≫= fun _ => for_each f l
  end.

Fixpoint fold_try {E A B} (f : B -> A -> outcome E B) (acc : B) (l : list A) : outcome E B :=
  match l with
  | [] => Ok acc
  | x :: l => f acc x ≫= fun acc => fold_try f acc l
  end.

(** [usize] addition, multiplication and division in a build with overflow checks. *)
Definition usize_add {E} (a b : Z) : outcome E Z :=
  if a + b <? 2 ^ 64 then Ok (a + b) else Panic.
Definition usize_mul {E} (a b : Z) : outcome E Z := if a * b <? 2 ^ 64 then Ok (a * b) else Panic.
Definition usize_div {E} (a b : Z) : outcome E Z := if b =? 0 then Panic else Ok (a / b).

(** [v[i]] and [v[i] = x] on a vector. *)
Definition idx {E A} (l : list A) (i : Z) : outcome E A :=
  if i <? 0 then Panic else match l !! Z.to_nat i with Some x => Ok x | None => Panic end.

Definition idx_set {E A} (l : list A) (i : Z) (x : A) : outcome E (list A) :=
  if (0 <=? i) && (i <? Z.of_nat (length l)) then Ok (<[Z.to_nat i := x]> l) else Panic.

Section outcome_lemmas.
Context {E : Type}.

Lemma bind_Ok {A B} (m : outcome E A) (f : A -> outcome E B) b :
  (m ≫= f) = Ok b <-> exists a, m = Ok a /\ f a = Ok b.
Proof.
  destruct m as [a|e|]; cbn; split.
  - eauto.
  - intros (a' & [= <-] & H). exact H.
  - discriminate.
  - intros (a' & [=] & _).
  - discriminate.
  - intros (a' & [=] & _).
Qed.

Lemma ok_bind {A B} (a : A) (f : A -> outcome E B) : (Ok a ≫= f) = f a.
Proof. done. Qed.

Lemma mapM_cons {A B} (f : A -> outcome E B) x l k :
  mapM f (x :: l) = Ok k <->
  exists y ys, f x = Ok y /\ mapM f l = Ok ys /\ k = y :: ys.
Proof.
  cbn. rewrite bind_Ok. split.
  - intros (y & Hy & (ys & Hys & [= <-])%bind_Ok). eauto 6.
  - intros (y & ys & Hy & Hys & ->). exists y. split; [done|].
    apply bind_Ok. eauto.
Qed.

Lemma bind_ext {A B} (m m' : outcome E A) (f g : A -> outcome E B) :
  m = m' -> (forall a, f a = g a) -> (m ≫= f) = (m' ≫= g).
Proof. intros -> H. destruct m'; cbn; auto. Qed.

Lemma bind_no_panic {A B} (m : outcome E A) (f : A -> outcome E B) :
  no_panic m -> (forall a, m = Ok a -> no_panic (f a)) -> no_panic (m ≫= f).
Proof. destruct m; cbn; auto. Qed.

Lemma for_each_Ok {A} (f : A -> outcome E unit) l :
  for_each f l = Ok tt <-> Forall (fun x => f x = Ok tt) l.
Proof.
  induction l as [|x l IH]; [done|]. cbn [for_each]. rewrite bind_Ok, Forall_cons. split.
  - intros ([] & H1 & H2). split; [done|]. by apply IH.
  - intros [H1 H2]. exists tt. split; [done|]. by apply IH.
Qed.

Lemma for_each_no_panic {A} (f : A -> outcome E unit) l :
  (forall x, x ∈ l -> no_panic (f x)) -> no_panic (for_each f l).
Proof.
  induction l as [|x l IH]; intros H; [exact I|]. cbn [for_each].
  apply bind_no_panic; [apply H; set_solver|]. intros _ _. apply IH. set_solver.
Qed.

Lemma fold_try_app {A B} (f : B -> A -> outcome E B) acc l k :
  fold_try f acc (l ++ k) = (fold_try f acc l ≫= fun acc => fold_try f acc k).
Proof.
  revert acc; induction l as [|x l IH]; intros acc; [done|].
  cbn. destruct (f acc x); cbn; [apply IH|done..].
Qed.

Lemma fold_try_ext {A B} (f g : B -> A -> outcome E B) acc l :
  (forall acc x, x ∈ l -> f acc x = g acc x) -> fold_try f acc l = fold_try g acc l.
Proof.
  revert acc; induction l as [|x l IH]; intros acc H; [done|]. cbn [fold_try].
  rewrite H by set_solver. destruct (g acc x); cbn; [|done..].
  apply IH. intros. apply H. set_solver.
Qed.

Lemma fold_try_foldl {A B} (f : B -> A -> B) acc l :
  fold_try (E:=E) (fun acc x => Ok (f acc x)) acc l = Ok (foldl f acc l).
Proof. revert acc; induction l as [|x l IH]; intros acc; [done|]. apply IH. Qed.

(** Two nested counting loops are one over the flat index. *)
Lemma fold_try_nested {B} (f : B -> Z -> outcome E B) acc m n :
  0 <= m -> 0 <= n ->
  fold_try (fun acc t => fold_try (fun acc h => f acc (t * n + h)) acc (seqZ 0 n)) acc (seqZ 0 m)
  = fold_try f acc (seqZ 0 (m * n)).
Proof.
  intros Hm Hn. revert m Hm acc. apply (natlike_ind (fun m => forall acc, _)); [done|].
  intros m Hm IH acc. unfold Z.succ.
  replace ((m + 1) * n) with (m * n + n) by lia.
  rewrite !seqZ_app, !fold_try_app, IH by nia. rewrite !Z.add_0_l.
  destruct (fold_try f acc (seqZ 0 (m * n))) as [a|e|]; [cbn [mbind outcome_bind]|done..].
  change (seqZ m 1) with [m]. cbn [fold_try].
  assert (forall l acc, fold_try (fun acc h => f acc (m * n + h)) acc l
    = fold_try f acc (Z.add (m * n) <$> l)) as Hshift.
  { induction l as [|x l IHl]; intros b; [done|]. cbn [fold_try fmap list_fmap].
    destruct (f b (m * n + x)); cbn; [apply IHl|done..]. }
  rewrite Hshift, fmap_add_seqZ, Z.add_0_r. by destruct (fold_try f a _).
Qed.

Lemma idx_Some {A} (l : list A) i x :
  0 <= i -> l !! Z.to_nat i = Some x -> idx (E:=E) l i = Ok x.
Proof. intros Hi Hl. unfold idx. by rewrite (proj2 (Z.ltb_ge _ _)), Hl by lia. Qed.

Lemma idx_set_app {A} (pre suf : list A) i x y :
  i = Z.of_nat (length pre) ->
  idx_set (E:=E) (pre ++ x :: suf) i y = Ok (pre ++ y :: suf).
Proof.
  intros ->. unfold idx_set. rewrite Nat2Z.id, length_app. cbn [length].
  rewrite !(proj2 (Z.leb_le _ _)), (proj2 (Z.ltb_lt _ _)) by lia. cbn [andb].
  by rewrite insert_app_r_alt, Nat.sub_diag by lia.
Qed.

(** The invariant rule of a counting loop, with totality. *)
Lemma fold_try_inv {B} (P : Z -> B -> Prop) (f : B -> Z -> outcome E B) acc n :
  0 <= n -> P 0 acc ->
  (forall i acc, 0 <= i < n -> P i acc -> exists acc', f acc i = Ok acc' /\ P (i + 1) acc') ->
  exists acc', fold_try f acc (seqZ 0 n) = Ok acc' /\ P n acc'.
Proof.
  intros Hn H0 Hstep.
  assert (forall m, 0 <= m -> m <= n -> exists acc', fold_try f acc (seqZ 0 m) = Ok acc' /\ P m acc')
    as H; [|by apply (H n)].
  apply (natlike_ind (fun m => m <= n -> exists acc', _ /\ P m acc')); [eauto|].
  intros m Hm IH Hlt. destruct IH as (a & Ha & HP); [lia|].
  destruct (Hstep m a) as (a' & Ha' & HP'); [lia|done|].
  exists a'. split; [|by replace (Z.succ m) with (m + 1) by lia].
  unfold Z.succ. rewrite seqZ_app, fold_try_app, Ha by lia. cbn [mbind outcome_bind].
  rewrite Z.add_0_l. change (seqZ m 1) with [m]. cbn [fold_try]. by rewrite Ha'.
Qed.

(** A loop that overwrites consecutive cells. *)
Lemma fill_loop {A} (f : Z -> outcome E A) xs pre zs suf base :
  base = Z.of_nat (length pre) -> length zs = length xs ->
  (forall i x, xs !! i = Some x -> f (Z.of_nat i) = Ok x) ->
  fold_try (fun l i => x ← f i; idx_set l (base + i) x)
    (pre ++ zs ++ suf) (seqZ 0 (Z.of_nat (length xs)))
  = Ok (pre ++ xs ++ suf).
Proof.
  intros ->. revert zs suf. induction xs as [|x xs IH] using rev_ind; intros zs suf Hz Hf.
  { by destruct zs. }
  rewrite length_app in *. cbn [length] in *.
  destruct (exists_last (l:=zs)) as (zs' & z & ->); [by destruct zs; cbn in *; [lia|]|].
  rewrite length_app in Hz. cbn in Hz.
  rewrite Nat2Z.inj_add, seqZ_app, fold_try_app by lia.
  rewrite <-!app_assoc, IH; [|lia|].
  2:{ intros i y Hi. apply Hf. by apply lookup_app_l_Some. }
  cbn [mbind outcome_bind]. rewrite Z.add_0_l. change (seqZ ?a (Z.of_nat 1)) with [a].
  cbn [fold_try]. rewrite (Hf (length xs) x).
  2:{ rewrite lookup_app_r, Nat.sub_diag by lia. done. }
  cbn [mbind outcome_bind app].
  rewrite app_assoc, idx_set_app by (rewrite length_app; lia).
  cbn [mbind outcome_bind]. by rewrite <-!app_assoc.
Qed.

(** The same loop also adding up a count. *)
Lemma fill_loop_count {A} (f : Z -> outcome E (A * Z)) xs pre zs suf base c :
  base = Z.of_nat (length pre) -> length zs = length xs ->
  (forall i x, xs !! i = Some x -> f (Z.of_nat i) = Ok x) ->
  fold_try (fun '(l, c) i => '(x, w) ← f i; l ← idx_set l (base + i) x; Ok (l, c + w))
    (pre ++ zs ++ suf, c) (seqZ 0 (Z.of_nat (length xs)))
  = Ok (pre ++ xs.*1 ++ suf, foldl Z.add c xs.*2).
Proof.
  intros ->. revert zs suf. induction xs as [|[x w] xs IH] using rev_ind; intros zs suf Hz Hf.
  { by destruct zs. }
  rewrite length_app in *. cbn [length] in *.
  destruct (exists_last (l:=zs)) as (zs' & z & ->); [by destruct zs; cbn in *; [lia|]|].
  rewrite length_app in Hz. cbn in Hz.
  rewrite Nat2Z.inj_add, seqZ_app, fold_try_app by lia.
  rewrite <-!app_assoc, IH; [|lia|].
  2:{ intros i y Hi. apply Hf. by apply lookup_app_l_Some. }
  cbn [mbind outcome_bind]. rewrite Z.add_0_l. change (seqZ ?a (Z.of_nat 1)) with [a].
  cbn [fold_try]. rewrite (Hf (length xs) (x, w)).
  2:{ rewrite lookup_app_r, Nat.sub_diag by lia. done. }
  cbn [mbind outcome_bind app].
  rewrite app_assoc, idx_set_app by (rewrite length_app, length_fmap; lia).
  cbn [mbind outcome_bind]. rewrite !fmap_app, foldl_app. cbn. by rewrite <-!app_assoc.
Qed.

(** Decoding every item and checking it on the way is decoding them all and
    checking the results. *)
Lemma for_each_mapM {A B} (f : A -> outcome E B) (chk : A -> B -> outcome E unit) l :
  for_each (fun x => f x ≫= chk x) l = Ok tt <->
  exists ys, mapM f l = Ok ys /\ Forall2 (fun x y => chk x y = Ok tt) l ys.
Proof.
  induction l as [|x l IH].
  - split; [intros _; by exists []|done].
  - cbn [for_each]. rewrite bind_Ok. split.
    + intros ([] & (y & Hy & Hchk)%bind_Ok & (ys & Hys & H2)%IH).
      exists (y :: ys). rewrite mapM_cons. eauto 8.
    + intros (ys & (y & ys' & Hy & Hys & ->)%mapM_cons & [Hc H2]%Forall2_cons_1).
      exists tt. split; [apply bind_Ok; eauto|]. apply IH. eauto.
Qed.

(** A loop that collects the results of a fallible body. *)
Lemma mapM_Ok_fmap {A B} (f : A -> outcome E B) (g : A -> B) (l : list A) :
  (forall x, x ∈ l -> f x = Ok (g x)) -> mapM f l = Ok (g <$> l).
Proof.
  induction l as [|x l IH]; intros H; [reflexivity|].
  cbn. rewrite (H x) by set_solver. cbn.
  rewrite IH by set_solver. reflexivity.
Qed.

Lemma mapM_ext_elem {A B} (f g : A -> outcome E B) (l : list A) :
  (forall x, x ∈ l -> f x = g x) -> mapM f l = mapM g l.
Proof.
  induction l as [|x l IH]; intros H; [done|]. cbn. rewrite (H x) by set_solver.
  rewrite IH by set_solver. done.
Qed.

Lemma mapM_no_panic {A B} (f : A -> outcome E B) (l : list A) :
  (forall x, x ∈ l -> no_panic (f x)) -> no_panic (mapM f l).
Proof.
  induction l as [|x l IH]; intros H; [exact I|].
  cbn. apply bind_no_panic; [apply H; set_solver|].
  intros y _. apply bind_no_panic; [apply IH; set_solver|].
  intros ys _. exact I.
Qed.

Lemma mapM_Ok_length {A B} (f : A -> outcome E B) (l : list A) k :
  mapM f l = Ok k -> length k = length l.
Proof.
  revert k; induction l as [|x l IH]; intros k; [by intros [= <-]|].
  intros (y & ys & _ & Hys & ->)%mapM_cons. cbn. f_equal. by apply IH.
Qed.

Lemma mapM_Ok_lookup {A B} (f : A -> outcome E B) (l : list A) k i y :
  mapM f l = Ok k -> k !! i = Some y ->
  exists x, l !! i = Some x /\ f x = Ok y.
Proof.
  revert k i; induction l as [|x l IH]; intros k i; [by intros [= <-]|].
  intros (z & zs & Hz & Hzs & ->)%mapM_cons.
  destruct i as [|i]; cbn; [intros [= <-]; eauto|]. by apply IH.
Qed.

(** The collected results, position by position. *)
Lemma mapM_Ok_iff {A B} (f : A -> outcome E B) (l : list A) k :
  mapM f l = Ok k <-> Forall2 (fun x y => f x = Ok y) l k.
Proof.
  revert k; induction l as [|x l IH]; intros k.
  - split; [by intros [= <-]|]. by intros ->%Forall2_nil_inv_l.
  - rewrite mapM_cons. split.
    + intros (y & ys & Hy & Hys & ->). constructor; [done|]. by apply IH.
    + intros (y & ys & Hy & Hys & ->)%Forall2_cons_inv_l.
      exists y, ys. split_and!; [done| |done]. by apply IH.
Qed.
End outcome_lemmas.

(** * Integers at their width *)

Definition u16_range (x : Z) : Prop := 0 <= x < 2 ^ 16.
Definition u32_range (x : Z) : Prop := 0 <= x < 2 ^ 32.
Definition u64_range (x : Z) : Prop := 0 <= x < 2 ^ 64.
Definition is_byte (x : Z) : Prop := 0 <= x < 256.
Definition bytes_ok (l : list Z) : Prop := Forall is_byte l.

(** Masking keeps the low bits; or-ing low bits under high ones adds them. *)
Lemma land_ones_mod x n : 0 <= n -> Z.land x (Z.ones n) = x mod 2 ^ n.
Proof. intros. by apply Z.land_ones. Qed.

Lemma lor_disjoint n k x : 0 <= n -> 0 <= x < 2 ^ n -> Z.lor (2 ^ n * k) x = 2 ^ n * k + x.
Proof.
  intros Hn Hx. rewrite <-Z.lxor_lor, <-Z.add_nocarry_lxor; [done|..];
  apply Z.bits_inj'; intros i Hi; rewrite Z.land_spec, Z.testbit_0_l.
  all: destruct (Z.lt_ge_cases i n).
  all: rewrite ?(Z.mul_comm (2 ^ n)), ?Z.mul_pow2_bits_low by lia; try done.
  all: rewrite (Z.testbit_eqb x) by lia.
  all: rewrite (Z.div_small x); [by rewrite andb_false_r|].
  all: split; [lia|]; apply Z.lt_le_trans with (2 ^ n); [lia|].
  all: apply Z.pow_le_mono_r; lia.
Qed.

(** Lengths are compared with [usize] values, so they are read in [Z]. *)
Abbreviation Zlen l := (Z.of_nat (length l)).

Lemma is_byte_mod z : is_byte (z mod 256).
Proof. apply Z.mod_pos_bound. lia. Qed.

Ltac width := unfold u16_range, u32_range, u64_range, is_byte in *; lia.

(** * Filters that keep all or nothing *)

Lemma filter_all {A} (P : A -> Prop) `{!forall x, Decision (P x)} (l : list A) :
  (forall x, x ∈ l -> P x) -> filter P l = l.
Proof.
  induction l as [|x l IH]; intros Hl; [done|]. rewrite filter_cons_True by (apply Hl; left).
  f_equal. apply IH. intros. apply Hl. by right.
Qed.

Lemma filter_none {A} (P : A -> Prop) `{!forall x, Decision (P x)} (l : list A) :
  (forall x, x ∈ l -> ~ P x) -> filter P l = [].
Proof.
  induction l as [|x l IH]; intros Hl; [done|]. rewrite filter_cons_False by (apply Hl; left).
  apply IH. intros. apply Hl. by right.
Qed.

(** * Slices of byte strings and vectors *)
Section slices.
Context {A : Type}.
Implicit Types l k : list A.

(** [l[a..b]] when it is in range; the in-range test is [index_range]. *)
Definition slice l (a b : Z) : list A :=
  take (Z.to_nat (b - a)) (drop (Z.to_nat a) l).

(** [&l[a..b]]: panics out of range. *)
Definition index_range {E} l (a b : Z) : outcome E (list A) :=
  if (0 <=? a) && (a <=? b) && (b <=? Zlen l) then Ok (slice l a b) else Panic.

(** [l.get(a..b)]. *)
Definition get_range l (a b : Z) : option (list A) :=
  if (0 <=? a) && (a <=? b) && (b <=? Zlen l) then Some (slice l a b) else None.

(** Overwrite [l[at..at + k.len()]] with [k] ([copy_from_slice]). *)
Definition splice l (at_ : Z) k : list A :=
  take (Z.to_nat at_) l ++ k ++ drop (Z.to_nat at_ + length k) l.

Lemma slice_length l a b :
  0 <= a -> a <= b -> b <= Zlen l -> Zlen (slice l a b) = b - a.
Proof. intros. unfold slice. rewrite length_take, length_drop. lia. Qed.

Lemma slice_app_l l k a b :
  0 <= a -> a <= b -> b <= Zlen l -> slice (l ++ k) a b = slice l a b.
Proof.
  intros. unfold slice. rewrite drop_app_le by lia.
  rewrite take_app_le; [done|]. rewrite length_drop. lia.
Qed.

Lemma slice_app_r l k a b :
  Zlen l <= a -> slice (l ++ k) a b = slice k (a - Zlen l) (b - Zlen l).
Proof.
  intros. unfold slice. rewrite drop_app_ge by lia.
  f_equal; [lia|]. f_equal; lia.
Qed.

Lemma slice_all l : slice l 0 (Zlen l) = l.
Proof. unfold slice. cbn. rewrite drop_0, take_ge; [done|lia]. Qed.

Lemma slice_whole l b : b = Zlen l -> slice l 0 b = l.
Proof. intros ->. apply slice_all. Qed.

Lemma slice_from_start l b : slice l 0 b = take (Z.to_nat b) l.
Proof. unfold slice. by rewrite Z.sub_0_r, drop_0. Qed.

Lemma slice_to_end l a : 0 <= a -> slice l a (Zlen l) = drop (Z.to_nat a) l.
Proof. intros. unfold slice. rewrite take_ge; [done|]. rewrite length_drop. lia. Qed.

Lemma slice_slice l a b c d :
  0 <= a -> 0 <= c -> c <= d -> d <= b - a ->
  slice (slice l a b) c d = slice l (a + c) (a + d).
Proof.
  intros. unfold slice. rewrite skipn_firstn_comm, take_take, drop_drop.
  f_equal; [lia|]. f_equal; lia.
Qed.

Lemma splice_length l at_ k :
  0 <= at_ -> at_ + Zlen k <= Zlen l -> length (splice l at_ k) = length l.
Proof.
  intros. unfold splice. rewrite !length_app, length_take, length_drop. lia.
Qed.

Lemma slice_splice_same l at_ k b :
  0 <= at_ -> at_ + Zlen k <= Zlen l -> b = at_ + Zlen k ->
  slice (splice l at_ k) at_ b = k.
Proof.
  intros ? ? ->. unfold splice.
  rewrite slice_app_r by (rewrite length_take; lia).
  rewrite slice_app_l; rewrite ?length_take; [|lia..].
  replace (at_ - _) with 0 by lia. apply slice_whole. lia.
Qed.

Lemma slice_splice_before l at_ k a b :
  0 <= a -> a <= b -> b <= at_ -> at_ + Zlen k <= Zlen l ->
  slice (splice l at_ k) a b = slice l a b.
Proof.
  intros. unfold splice. rewrite slice_app_l by (rewrite ?length_take; lia).
  unfold slice. rewrite skipn_firstn_comm, take_take. f_equal. lia.
Qed.

Lemma slice_splice_after l at_ k a b :
  0 <= at_ -> a <= b -> at_ + Zlen k <= a -> at_ + Zlen k <= Zlen l ->
  slice (splice l at_ k) a b = slice l a b.
Proof.
  intros. unfold splice. rewrite app_assoc.
  rewrite slice_app_r by (rewrite length_app, length_take; lia).
  rewrite length_app, length_take. unfold slice. rewrite drop_drop.
  f_equal; [lia|]. f_equal; lia.
Qed.

Lemma index_range_Ok {E} l a b :
  0 <= a -> a <= b -> b <= Zlen l ->
  index_range (E:=E) l a b = Ok (slice l a b).
Proof.
  intros. unfold index_range. by rewrite !(proj2 (Z.leb_le _ _)) by lia.
Qed.

Lemma splice_app_l l k at_ m :
  0 <= at_ -> at_ + Zlen m <= Zlen l ->
  splice (l ++ k) at_ m = splice l at_ m ++ k.
Proof.
  intros. unfold splice. rewrite take_app_le, drop_app_le by lia.
  by rewrite <-!app_assoc.
Qed.
Lemma splice_app_r l k at_ m :
  Zlen l <= at_ -> splice (l ++ k) at_ m = l ++ splice k (at_ - Zlen l) m.
Proof.
  intros. unfold splice. rewrite take_app_ge, drop_app_ge by lia.
  rewrite <-app_assoc. do 2 f_equal; [f_equal; lia|]. do 2 f_equal; lia.
Qed.

Lemma slice_split l a b c :
  0 <= a -> a <= b -> b <= c -> slice l a c = slice l a b ++ slice l b c.
Proof.
  intros. unfold slice.
  replace (Z.to_nat (c - a)) with (Z.to_nat (b - a) + Z.to_nat (c - b))%nat by lia.
  rewrite <-take_take_drop, drop_drop. do 3 f_equal. lia.
Qed.

(** Reading a vector row by row reads all of it. *)
Lemma concat_slices l base s n :
  0 <= base -> 0 <= s -> 0 <= n ->
  concat ((fun i => slice l (base + i * s) (base + i * s + s)) <$> seqZ 0 n)
  = slice l base (base + n * s).
Proof.
  intros Hb Hs. revert n. apply natlike_ind.
  - unfold slice. replace (Z.to_nat (base + 0 * s - base)) with O by lia. done.
  - intros n Hn IH. rewrite <-Z.add_1_r, seqZ_app, fmap_app, concat_app, IH by lia.
    rewrite Z.add_0_l. change (seqZ n 1) with [n]. cbn [fmap list_fmap concat].
    rewrite app_nil_r, (slice_split l base (base + n * s) (base + (n + 1) * s)) by nia.
    do 2 f_equal; lia.
Qed.
End slices.

Lemma bytes_ok_slice l a b : bytes_ok l -> bytes_ok (slice l a b).
Proof. intros. apply Forall_take, Forall_drop. done. Qed.

Lemma bytes_ok_splice l a k : bytes_ok l -> bytes_ok k -> bytes_ok (splice l a k).
Proof.
  intros. apply Forall_app; split; [by apply Forall_take|].
  apply Forall_app; split; [done|by apply Forall_drop].
Qed.

(** * Little- and big-endian integers ([to_le_bytes], [from_le_bytes], ...) *)

Fixpoint le_bytes (n : nat) (v : Z) : list Z :=
  match n with
  | O => []
  | S n => v mod 256 :: le_bytes n (v / 256)
  end.

Fixpoint le_val (l : list Z) : Z :=
  match l with
  | [] => 0
  | b :: l => b + 256 * le_val l
  end.

Definition be_val (l : list Z) : Z := le_val (reverse l).

Lemma le_bytes_length n v : length (le_bytes n v) = n.
Proof. revert v; induction n; intros; cbn; congruence. Qed.

Lemma le_bytes_ok n v : bytes_ok (le_bytes n v).
Proof.
  revert v; induction n as [|n IH]; intros; cbn; constructor; [|apply IH].
  apply is_byte_mod.
Qed.

Lemma le_val_bytes n v : 0 <= v < 256 ^ Z.of_nat n -> le_val (le_bytes n v) = v.
Proof.
  revert v; induction n as [|n IH]; intros v Hv.
  - cbn in *. lia.
  - rewrite Nat2Z.inj_succ, Z.pow_succ_r in Hv by lia. cbn.
    rewrite IH.
    + pose proof (Z.div_mod v 256). lia.
    + split; [apply Z.div_pos; lia|]. apply Z.div_lt_upper_bound; lia.
Qed.

Lemma le_val_range l : bytes_ok l -> 0 <= le_val l < 256 ^ Zlen l.
Proof.
  induction 1 as [|b l Hb Hl IH]; [cbn; lia|].
  cbn [length le_val]. rewrite Nat2Z.inj_succ, Z.pow_succ_r by lia.
  unfold is_byte in Hb. nia.
Qed.

Lemma le_bytes_val l : bytes_ok l -> le_bytes (length l) (le_val l) = l.
Proof.
  induction 1 as [|b l Hb Hl IH]; [done|]. cbn. unfold is_byte in Hb. f_equal.
  - symmetry. apply (Z.mod_unique _ _ (le_val l)); lia.
  - rewrite <-(Z.div_unique (b + 256 * le_val l) 256 (le_val l) b) by lia. done.
Qed.

(** ** Rows of one width, laid end to end *)

Lemma concat_uniform_length {A} (ls : list (list A)) w :
  Forall (fun l => Zlen l = w) ls -> Zlen (concat ls) = Zlen ls * w.
Proof.
  induction 1 as [|l ls Hl _ IH]; [done|].
  cbn [concat length]. rewrite length_app, Nat2Z.inj_add, IH. lia.
Qed.

Lemma slice_concat_uniform {A} (ls : list (list A)) w pre suf i l a b :
  Forall (fun l => Zlen l = w) ls -> ls !! i = Some l ->
  a = Zlen pre + Z.of_nat i * w -> b = a + w ->
  slice (pre ++ concat ls ++ suf) a b = l /\ b <= Zlen (pre ++ concat ls ++ suf).
Proof.
  intros Hw Hi -> ->. rewrite <-(take_drop_middle ls i l Hi) in Hw |- *.
  apply Forall_app in Hw as [Hpre [Hl Hsuf]%Forall_cons].
  rewrite concat_app. cbn [concat]. rewrite <-!app_assoc, app_assoc.
  apply concat_uniform_length in Hpre. apply lookup_lt_Some in Hi.
  rewrite length_take_le in Hpre by lia.
  split; [|rewrite !length_app; lia].
  rewrite slice_app_r by (rewrite length_app; lia).
  rewrite slice_app_l; rewrite ?length_app; [|lia..].
  replace (_ - _) with 0 by lia. apply slice_whole. lia.
Qed.

(** * Records at a fixed width inside a byte string

    A fixed-width wire record: an encoder, a decoder that reads it at an
    offset, and the round trip between them.  Frames are concatenations of such
    records, and [chunks_decode] is the one lemma their decoders need. *)
Class FixedCodec (E T : Type) := {
  fc_width : Z;
  fc_wf : T -> Prop;
  fc_encode : T -> list Z;
  fc_decode : list Z -> Z -> outcome E T;
  fc_width_pos : 0 < fc_width;
  fc_length : forall x, Zlen (fc_encode x) = fc_width;
  fc_roundtrip : forall x pre suf, fc_wf x ->
    fc_decode (pre ++ fc_encode x ++ suf) (Zlen pre) = Ok x;
}.

Section fixed_codec.
Context {E T : Type} `{!FixedCodec E T}.

Lemma concat_fixed_length (xs : list T) :
  Zlen (concat (fc_encode <$> xs)) = Zlen xs * fc_width.
Proof.
  induction xs as [|x xs IH]; [cbn; lia|].
  cbn [fmap list_fmap concat]. rewrite length_app, Nat2Z.inj_add, IH, fc_length.
  cbn [length]. lia.
Qed.

Lemma fc_decode_nth (xs : list T) (pre suf : list Z) i x :
  fc_wf x -> xs !! i = Some x ->
  fc_decode (pre ++ concat (fc_encode <$> xs) ++ suf)
            (Zlen pre + Z.of_nat i * fc_width) = Ok x.
Proof.
  intros Hwf Hi. rewrite <-(take_drop_middle xs i x Hi).
  rewrite fmap_app, concat_app. cbn [fmap list_fmap concat].
  replace (pre ++ _) with
    ((pre ++ concat (fc_encode <$> take i xs)) ++ fc_encode x
      ++ (concat (fc_encode <$> drop (S i) xs) ++ suf)) by (by rewrite <-!app_assoc).
  replace (Zlen pre + Z.of_nat i * fc_width)
    with (Zlen (pre ++ concat (fc_encode <$> take i xs))).
  - by apply fc_roundtrip.
  - rewrite length_app, Nat2Z.inj_add, concat_fixed_length, length_take.
    apply lookup_lt_Some in Hi. nia.
Qed.

(** [for i in 0..n { v.push(decode(bytes, base + i * width)?) }] *)
Lemma chunks_decode (xs : list T) (pre suf : list Z) (f : Z -> outcome E T) :
  Forall fc_wf xs ->
  (forall i, f i = fc_decode (pre ++ concat (fc_encode <$> xs) ++ suf)
                             (Zlen pre + i * fc_width)) ->
  mapM f (seqZ 0 (Zlen xs)) = Ok xs.
Proof.
  intros Hwf Hf.
  apply mapM_Ok_iff, Forall2_same_length_lookup_2.
  { rewrite length_seqZ. lia. }
  intros i z x Hz Hx. apply lookup_seqZ in Hz as [-> _].
  rewrite Hf. apply fc_decode_nth; [|done].
  by eapply Forall_lookup_1.
Qed.
End fixed_codec.
