(* ===== verification/Layout.v ===== *)
(** The wire contract of [crates/mimo26-wire]: the trap flags of [naive.rs], the
    error taxonomy of [error.rs], and the field offsets, wire codes and row
    sizes of [layout.rs].

    A [WireNaive] is the [u32] it wraps; the flags are its bits.  The empty set
    [NONE] is the contract, and most theorems of the codec hold for every flag
    set, since both ends of a stream run with the same one. *)
From Stdlib Require Import ZArith Lia Bool.
From stdpp Require Import base list gmap strings.
From S2P Require Import Prelude.

(** * [naive.rs] *)

Definition WireNaive : Type := Z.
Definition NONE : WireNaive := 0.
Definition ALL : WireNaive := 2 ^ 32 - 1.
Definition K16_SCALES : Z := Z.shiftl 1 0.
Definition ROW_SCALED_DTYPE : Z := Z.shiftl 1 1.
Definition FP32_RETURN : Z := Z.shiftl 1 2.
Definition PER_ROUTE_RETURN : Z := Z.shiftl 1 3.
Definition ROUTE_FIELD_SWAP : Z := Z.shiftl 1 4.
Definition DESC_FIELD_DRIFT : Z := Z.shiftl 1 5.
Definition DTYPE_RECODE : Z := Z.shiftl 1 6.
Definition CRC32_IEEE : Z := Z.shiftl 1 7.
Definition CRC_HEADER_EXEMPT : Z := Z.shiftl 1 8.
Definition CRC_UNCHECKED : Z := Z.shiftl 1 9.
Definition SEQ_IGNORED : Z := Z.shiftl 1 10.
Definition DUP_DOUBLE_COUNT : Z := Z.shiftl 1 11.
Definition ACCUM_BY_ARRIVAL : Z := Z.shiftl 1 12.
Definition BF16_TRUNCATE : Z := Z.shiftl 1 13.
Definition RANK_SUM_BY_ARRIVAL : Z := Z.shiftl 1 14.

Definition has (naive : WireNaive) (bit : Z) : bool :=
  negb (Z.land naive bit =? 0).

(** * [error.rs] *)

(** [l4::SlotKey]: identity of one Spark partial row in a sum window. *)
Record SlotKey := mkSlotKey {
  sk_request_id : Z;
  sk_layer_id : Z;
  sk_token_position : Z;
  sk_executor_id : Z;
}.

Inductive Disposition := Retry | DropIdempotent | FailLoud.

Inductive WireError :=
| TooShort (need got : Z)
| Truncated (declared got : Z)
| TrailingBytes (declared got : Z)
| BadMagic (m : list Z)
| BadVersion (v : Z)
| BadKind (k : Z)
| BadHeaderLen (h : Z)
| DimMismatch (field : string) (want got : Z)
| BadCode (field : string) (code : Z)
| Corrupt (seq want got : Z)
| Duplicate (seq expected : Z)
| OutOfOrder (expected got : Z)
| RouteRowMismatch (entry row_index rows : Z)
| RouteRangeBad (row : Z)
| UnpresummedReturn (flags : Z)
| SlotFilled (slot : SlotKey)
| SparkReportedError (executor_id : Z)
| Incomplete (filled need : Z)
| RetryExhausted (attempts : Z) (cause : WireError)
| UnknownRequest (request_id : Z).

Definition disposition (e : WireError) : Disposition :=
  match e with
  | TooShort _ _ | Truncated _ _ | Corrupt _ _ _ | OutOfOrder _ _ => Retry
  | Duplicate _ _ | SlotFilled _ => DropIdempotent
  | TrailingBytes _ _ | BadMagic _ | BadVersion _ | BadKind _ | BadHeaderLen _
  | DimMismatch _ _ _ | BadCode _ _ | RouteRowMismatch _ _ _ | RouteRangeBad _
  | UnpresummedReturn _ | SparkReportedError _ | Incomplete _ _
  | RetryExhausted _ _ | UnknownRequest _ => FailLoud
  end.

(** * [layout.rs] *)

Definition MAGIC : list Z := [68; 83; 52; 49; 82; 84; 69; 51]. (* b"DS41RTE3" *)
Definition VERSION : Z := 3.
Definition KIND_REQUEST : Z := 1.
Definition KIND_RETURN : Z := 2.
Definition HEADER_LEN : Z := 128.
Definition ROW_DESCRIPTOR_LEN : Z := 40.
Definition ROUTE_ENTRY_LEN : Z := 12.
Definition HIDDEN : Z := 4096.
Definition TOPK : Z := 8.
Definition SPARKS : Z := 4.
Definition K32 : Z := 32.
Definition K16 : Z := 16.
Definition HIDDEN_ROW_BYTES : Z := HIDDEN + HIDDEN / K32.
Definition REQUEST_ROW_BYTES : Z :=
  ROW_DESCRIPTOR_LEN + HIDDEN_ROW_BYTES + TOPK * ROUTE_ENTRY_LEN.
Definition RETURN_ROW_BYTES : Z := HIDDEN * 2.

(** [layout::hdr], [layout::desc], [layout::route]: field offsets. *)
Definition hdr_MAGIC : Z := 0.
Definition hdr_VERSION : Z := 8.
Definition hdr_KIND : Z := 10.
Definition hdr_HEADER_LEN : Z := 12.
Definition hdr_REQUEST_ID : Z := 16.
Definition hdr_PLACEMENT_VERSION : Z := 24.
Definition hdr_LAYER_ID : Z := 32.
Definition hdr_ROW_COUNT : Z := 36.
Definition hdr_DIM : Z := 40.
Definition hdr_PAYLOAD_DTYPE : Z := 44.
Definition hdr_SOURCE_KIND : Z := 46.
Definition hdr_ROUTE_COUNT : Z := 48.
Definition hdr_ROW_DESCRIPTOR_BYTES : Z := 52.
Definition hdr_ROUTE_BYTES : Z := 56.
Definition hdr_PAYLOAD_BYTES : Z := 60.
Definition hdr_LOGICAL_PAYLOAD_BYTES : Z := 68.
Definition hdr_WIRE_BYTES : Z := 76.
Definition hdr_FLAGS : Z := 84.
Definition hdr_ROW_STRIDE_BYTES : Z := 88.
Definition hdr_STATUS : Z := 92.
Definition hdr_EXECUTOR_ID : Z := 96.
Definition hdr_TOKEN_POSITION : Z := 104.
Definition hdr_SEQ : Z := 112.
Definition hdr_CRC32C : Z := 120.

Definition desc_ROW_ID : Z := 0.
Definition desc_SOURCE_KIND : Z := 8.
Definition desc_SOURCE_REQUEST_ID : Z := 12.
Definition desc_TOKEN_POSITION : Z := 20.
Definition desc_ROUTE_OFFSET : Z := 28.
Definition desc_ROUTE_COUNT : Z := 32.

Definition route_ROW_INDEX : Z := 0.
Definition route_EXPERT_ID : Z := 4.
Definition route_GATE_WEIGHT : Z := 8.

(** Payload dtype wire codes. *)
Inductive Dtype :=
| Bf16 | F16 | Fp8Debug | Nvfp4E2m1Fp8E4m3 | Fp8E4m3RowScaled | F32
| Fp8E4m3Ue8m0K32.

(** [self as u16] of the [repr(u16)] enum. *)
Definition Dtype_repr (d : Dtype) : Z :=
  match d with
  | Bf16 => 1 | F16 => 2 | Fp8Debug => 3 | Nvfp4E2m1Fp8E4m3 => 4
  | Fp8E4m3RowScaled => 5 | F32 => 6 | Fp8E4m3Ue8m0K32 => 7
  end.

Definition Dtype_code (d : Dtype) (naive : WireNaive) : Z :=
  let raw := Dtype_repr d in
  if has naive DTYPE_RECODE then (raw + 100) mod 2 ^ 16 else raw.

Definition Dtype_from_code (code : Z) (naive : WireNaive) : outcome WireError Dtype :=
  let raw := if has naive DTYPE_RECODE then (code - 100) mod 2 ^ 16 else code in
  match raw with
  | 1 => Ok Bf16
  | 2 => Ok F16
  | 3 => Ok Fp8Debug
  | 4 => Ok Nvfp4E2m1Fp8E4m3
  | 5 => Ok Fp8E4m3RowScaled
  | 6 => Ok F32
  | 7 => Ok Fp8E4m3Ue8m0K32
  | _ => Err (BadCode "payload_dtype" code)
  end.

(** Row/traffic source class. *)
Inductive SourceKind := Decode | Prefill | MtpVerify | Benchmark.

Definition SourceKind_code (k : SourceKind) : Z :=
  match k with Decode => 1 | Prefill => 2 | MtpVerify => 3 | Benchmark => 4 end.

Definition SourceKind_from_code (code : Z) : outcome WireError SourceKind :=
  match code with
  | 1 => Ok Decode
  | 2 => Ok Prefill
  | 3 => Ok MtpVerify
  | 4 => Ok Benchmark
  | _ => Err (BadCode "source_kind" code)
  end.

(** Frame status ([layout::Status]; [Ok] is a constructor of [outcome]). *)
Inductive Status := StatusOk | StatusError.

Definition Status_code (s : Status) : Z :=
  match s with StatusOk => 0 | StatusError => 1 end.

Definition Status_from_code (code : Z) : outcome WireError Status :=
  match code with
  | 0 => Ok StatusOk
  | 1 => Ok StatusError
  | _ => Err (BadCode "status" code)
  end.

Definition ue8m0_k32_row_bytes (elements : Z) : outcome WireError Z :=
  if (elements =? 0) || negb (elements mod K32 =? 0)
  then Err (DimMismatch "ue8m0_k32_row_width" K32 elements)
  else Ok (elements + elements / K32).

Definition scale_k (naive : WireNaive) : Z :=
  if has naive K16_SCALES then K16 else K32.

Definition hidden_row_bytes (naive : WireNaive) : Z :=
  if has naive ROW_SCALED_DTYPE then HIDDEN + 4
  else HIDDEN + HIDDEN / scale_k naive.

Definition request_row_bytes (naive : WireNaive) : Z :=
  ROW_DESCRIPTOR_LEN + hidden_row_bytes naive + TOPK * ROUTE_ENTRY_LEN.

Definition return_row_bytes (route_count : Z) (naive : WireNaive) : Z :=
  if has naive PER_ROUTE_RETURN then route_count * HIDDEN * 2
  else if has naive FP32_RETURN then HIDDEN * 4
  else RETURN_ROW_BYTES.

#[global] Arguments has : simpl never.
#[global] Arguments hidden_row_bytes : simpl never.
#[global] Arguments request_row_bytes : simpl never.
#[global] Arguments return_row_bytes : simpl never.

(** * Deciding equality *)

#[export] Instance SlotKey_eq_dec : EqDecision SlotKey.
Proof. solve_decision. Defined.
#[export] Instance Dtype_eq_dec : EqDecision Dtype.
Proof. solve_decision. Defined.
#[export] Instance SourceKind_eq_dec : EqDecision SourceKind.
Proof. solve_decision. Defined.
#[export] Instance Status_eq_dec : EqDecision Status.
Proof. solve_decision. Defined.
#[export] Instance Disposition_eq_dec : EqDecision Disposition.
Proof. solve_decision. Defined.

(** * Lemmas *)

Lemma Dtype_from_to_code d naive : Dtype_from_code (Dtype_code d naive) naive = Ok d.
Proof.
  unfold Dtype_from_code, Dtype_code.
  destruct (has naive DTYPE_RECODE); by destruct d.
Qed.

Lemma SourceKind_from_to_code k : SourceKind_from_code (SourceKind_code k) = Ok k.
Proof. by destruct k. Qed.

Lemma Status_from_to_code s : Status_from_code (Status_code s) = Ok s.
Proof. by destruct s. Qed.

Lemma Dtype_code_range d naive : u16_range (Dtype_code d naive).
Proof.
  unfold Dtype_code, u16_range.
  destruct (has naive DTYPE_RECODE); destruct d; split; vm_compute; congruence.
Qed.

Lemma SourceKind_code_range k : u16_range (SourceKind_code k).
Proof. unfold u16_range. destruct k; cbn [SourceKind_code]; lia. Qed.

Lemma Status_code_range s : u32_range (Status_code s).
Proof. unfold u32_range. destruct s; cbn [Status_code]; lia. Qed.

Lemma Dtype_from_code_no_panic c naive : no_panic (Dtype_from_code c naive).
Proof.
  unfold Dtype_from_code. generalize (if has naive DTYPE_RECODE then (c - 100) mod 2 ^ 16 else c).
  intros raw. by repeat case_match.
Qed.

Lemma SourceKind_from_code_no_panic c : no_panic (SourceKind_from_code c).
Proof. unfold SourceKind_from_code. by repeat case_match. Qed.

Lemma Status_from_code_no_panic c : no_panic (Status_from_code c).
Proof. unfold Status_from_code. by repeat case_match. Qed.

(** Every hidden row holds its payload and at least one scale byte. *)
Lemma hidden_row_bytes_cases naive :
  hidden_row_bytes naive = 4100 \/ hidden_row_bytes naive = 4352 \/
  hidden_row_bytes naive = 4224.
Proof.
  unfold hidden_row_bytes, scale_k.
  destruct (has naive ROW_SCALED_DTYPE), (has naive K16_SCALES); cbv; auto.
Qed.

Create HintDb wire.
#[export] Hint Resolve Dtype_code_range SourceKind_code_range Status_code_range
  Dtype_from_code_no_panic SourceKind_from_code_no_panic
  Status_from_code_no_panic : wire.
