(* ===== verification/Crc32c.v ===== *)
(** CRC32C, the per-frame checksum of [crates/mimo26-wire/src/crc32c.rs]: the
    table walk, the two hardware paths, the bit-serial reference, and the
    streamed checksum that treats a 4-byte field as zero.  Theorems: every path
    computes the reference, and a checksum of equal-length inputs that differ
    only inside a window of four consecutive bytes never collides. *)
From Stdlib Require Import ZArith Lia Bool.
From stdpp Require Import base list gmap strings.
From S2P Require Import Prelude Layout.

(** * Definitions *)

Inductive CrcFamily := Castagnoli | Ieee.

(** One bit of the reflected division:
    [if c & 1 != 0 { poly ^ (c >> 1) } else { c >> 1 }]. *)
Definition crc_step (poly c : Z) : Z :=
  if Z.odd c then Z.lxor poly (Z.shiftr c 1) else Z.shiftr c 1.

(** [k] rounds of it (the [while k < 8] and [for _ in 0..8] loops). *)
Fixpoint crc_steps (poly : Z) (k : nat) (c : Z) : Z :=
  match k with O => c | S k => crc_steps poly k (crc_step poly c) end.

#[global] Arguments crc_steps : simpl never.

Definition build_table (poly : Z) : list Z :=
  (fun i : nat => crc_steps poly 8 (Z.of_nat i)) <$> seq 0 256.

Definition POLY_CASTAGNOLI : Z := 0x82F63B78.
Definition POLY_IEEE : Z := 0xEDB88320.
Definition CRC32C_TABLE : list Z := build_table POLY_CASTAGNOLI.
Definition CRC32_IEEE_TABLE : list Z := build_table POLY_IEEE.

(** [table[((crc ^ b) & 0xFF)]] cannot miss: the table has 256 entries. *)
Definition update_table (table : list Z) (crc : Z) (bytes : list Z) : Z :=
  foldl (fun crc b =>
    Z.lxor (default 0 (table !! Z.to_nat (Z.land (Z.lxor crc b) 0xFF)))
           (Z.shiftr crc 8)) crc bytes.

(** The CRC32C instructions as [core::arch] documents them: the remainder of
    the running CRC extended by the operand (8 or 64 bits, least significant
    byte first). *)
Definition mm_crc32_u8 (crc v : Z) : Z := crc_steps POLY_CASTAGNOLI 8 (Z.lxor crc v).
Definition mm_crc32_u64 (crc v : Z) : Z := crc_steps POLY_CASTAGNOLI 64 (Z.lxor crc v).

(** [chunks_exact(8)]: whole 8-byte words, then the remainder. *)
Fixpoint crc_words (step64 step8 : Z -> Z -> Z) (fuel : nat) (crc : Z) (bytes : list Z) : Z :=
  match fuel with
  | O => foldl step8 crc bytes
  | S fuel => crc_words step64 step8 fuel (step64 crc (le_val (take 8 bytes))) (drop 8 bytes)
  end.

Definition update_sse42 (crc : Z) (bytes : list Z) : Z :=
  crc_words mm_crc32_u64 mm_crc32_u8 (length bytes / 8) crc bytes.

(** [__crc32cd] / [__crc32cb] compute the same two functions on aarch64. *)
Definition update_arm_crc (crc : Z) (bytes : list Z) : Z :=
  crc_words mm_crc32_u64 mm_crc32_u8 (length bytes / 8) crc bytes.

(** What the feature detection of the running CPU returns. *)
Inductive CpuCrc := Sse42 | ArmCrc | NoCrcHardware.

Section with_cpu.
Context (cpu : CpuCrc).

Definition update_castagnoli (crc : Z) (bytes : list Z) : Z :=
  match cpu with
  | Sse42 => update_sse42 crc bytes
  | ArmCrc => update_arm_crc crc bytes
  | NoCrcHardware => update_table CRC32C_TABLE crc bytes
  end.

Definition update_family (family : CrcFamily) (crc : Z) (bytes : list Z) : Z :=
  match family with
  | Castagnoli => update_castagnoli crc bytes
  | Ieee => update_table CRC32_IEEE_TABLE crc bytes
  end.

Definition u32_not (x : Z) : Z := Z.lxor x 0xFFFFFFFF.

Definition family_for (naive : WireNaive) : CrcFamily :=
  if has naive CRC32_IEEE then Ieee else Castagnoli.

Definition crc32c_with (family : CrcFamily) (bytes : list Z) : Z :=
  u32_not (update_family family 0xFFFFFFFF bytes).

Definition crc32c_zeroed (family : CrcFamily) (bytes : list Z) (crc_off : Z) : Z :=
  let crc := 0xFFFFFFFF in
  let crc := update_family family crc (slice bytes 0 crc_off) in
  let crc := update_family family crc [0; 0; 0; 0] in
  let crc := update_family family crc (slice bytes (crc_off + 4) (Zlen bytes)) in
  u32_not crc.

Definition crc32c (bytes : list Z) : Z := crc32c_with Castagnoli bytes.
End with_cpu.

Definition crc32c_table (bytes : list Z) : Z :=
  u32_not (update_table CRC32C_TABLE 0xFFFFFFFF bytes).

Definition crc32c_bitwise (bytes : list Z) : Z :=
  u32_not (foldl (fun crc b => crc_steps 0x82F63B78 8 (Z.lxor crc b)) 0xFFFFFFFF bytes).

(** The polynomial of a family. *)
Definition family_poly (f : CrcFamily) : Z :=
  match f with Castagnoli => POLY_CASTAGNOLI | Ieee => POLY_IEEE end.

(** * The division step is linear and invertible *)

Example crc32c_rfc3720 : crc32c_table [49;50;51;52;53;54;55;56;57] = 0xE3069283.
Proof. reflexivity. Qed.

Lemma lxor_u32 x y : u32_range x -> u32_range y -> u32_range (Z.lxor x y).
Proof.
  unfold u32_range. intros Hx Hy. split; [apply Z.lxor_nonneg; lia|].
  destruct (Z.eq_dec (Z.lxor x y) 0) as [->|Hne]; [lia|].
  apply Z.log2_lt_pow2.
  { assert (0 <= Z.lxor x y) by (apply Z.lxor_nonneg; lia). lia. }
  eapply Z.le_lt_trans; [apply Z.log2_lxor; lia|].
  apply Z.max_lub_lt; (destruct (Z.eq_dec x 0), (Z.eq_dec y 0); subst; cbn; try lia;
    apply Z.log2_lt_pow2; lia).
Qed.

Lemma lxor_assoc4 a b c d :
  Z.lxor (Z.lxor a b) (Z.lxor c d) = Z.lxor (Z.lxor a c) (Z.lxor b d).
Proof. rewrite !Z.lxor_assoc. f_equal. rewrite <-!Z.lxor_assoc. f_equal. apply Z.lxor_comm. Qed.

Lemma odd_lxor x y : Z.odd (Z.lxor x y) = xorb (Z.odd x) (Z.odd y).
Proof. by rewrite <-!Z.bit0_odd, Z.lxor_spec. Qed.

Lemma crc_step_linear poly x y :
  crc_step poly (Z.lxor x y) = Z.lxor (crc_step poly x) (crc_step poly y).
Proof.
  unfold crc_step. rewrite odd_lxor, Z.shiftr_lxor.
  destruct (Z.odd x), (Z.odd y); cbn.
  - rewrite lxor_assoc4, Z.lxor_nilpotent. by rewrite Z.lxor_0_l.
  - by rewrite Z.lxor_assoc.
  - rewrite <-!Z.lxor_assoc. f_equal. apply Z.lxor_comm.
  - done.
Qed.

Lemma crc_steps_S poly k x : crc_steps poly (S k) x = crc_steps poly k (crc_step poly x).
Proof. done. Qed.

Lemma crc_steps_linear poly k x y :
  crc_steps poly k (Z.lxor x y) = Z.lxor (crc_steps poly k x) (crc_steps poly k y).
Proof.
  revert x y; induction k as [|k IH]; intros x y; [done|].
  by rewrite !crc_steps_S, crc_step_linear, IH.
Qed.

Lemma crc_step_double poly y : crc_step poly (2 * y) = y.
Proof.
  unfold crc_step. rewrite Z.odd_mul. cbn [Z.odd andb].
  rewrite Z.shiftr_div_pow2 by lia. change (2 ^ 1) with 2.
  rewrite Z.mul_comm. by apply Z.div_mul.
Qed.

Lemma crc_steps_add poly j k x :
  crc_steps poly (j + k) x = crc_steps poly k (crc_steps poly j x).
Proof. revert x; induction j as [|j IH]; intros x; [done|]. apply (IH (crc_step poly x)). Qed.

Lemma crc_steps_shiftl poly k y :
  crc_steps poly k (Z.shiftl y (Z.of_nat k)) = y.
Proof.
  induction k as [|k IH]; [apply Z.shiftl_0_r|].
  rewrite crc_steps_S. rewrite <-IH at 2. f_equal.
  rewrite Nat2Z.inj_succ, Z.shiftl_mul_pow2, Z.pow_succ_r by lia.
  replace (y * (2 * 2 ^ Z.of_nat k)) with (2 * (y * 2 ^ Z.of_nat k)) by ring.
  rewrite crc_step_double. by rewrite Z.shiftl_mul_pow2 by lia.
Qed.

(** Both polynomials have their top bit set, which makes a step invertible. *)
Definition poly_ok (poly : Z) : Prop := u32_range poly /\ Z.testbit poly 31 = true.

Lemma family_poly_ok f : poly_ok (family_poly f).
Proof. destruct f; split; try done; split; vm_compute; congruence. Qed.

Lemma shiftr_u32 c k : u32_range c -> 0 <= k -> u32_range (Z.shiftr c k).
Proof.
  unfold u32_range. intros Hc Hk. rewrite Z.shiftr_div_pow2 by done.
  split; [apply Z.div_pos; lia|].
  apply Z.le_lt_trans with c; [|lia]. apply Z.div_le_upper_bound; nia.
Qed.

Section invertible.
Context (poly : Z) (Hpoly : poly_ok poly).

Lemma crc_step_range c : u32_range c -> u32_range (crc_step poly c).
Proof.
  intros Hc. unfold crc_step. destruct (Z.odd c).
  - apply lxor_u32; [apply Hpoly|]. by apply shiftr_u32.
  - by apply shiftr_u32.
Qed.

Lemma crc_steps_range k c : u32_range c -> u32_range (crc_steps poly k c).
Proof. revert c; induction k; intros c Hc; [done|].
  rewrite crc_steps_S. auto using crc_step_range.
Qed.

Lemma crc_step_top c : u32_range c -> Z.testbit (crc_step poly c) 31 = Z.odd c.
Proof.
  intros Hc. unfold crc_step.
  assert (Z.testbit (Z.shiftr c 1) 31 = false) as Hs.
  { rewrite Z.shiftr_spec by lia. apply Z.testbit_false; [lia|].
    unfold u32_range in Hc. cbn [Z.add]. rewrite Z.div_small by lia. done. }
  destruct (Z.odd c); [|done].
  destruct Hpoly as [_ Hp]. by rewrite Z.lxor_spec, Hp, Hs.
Qed.

Lemma crc_step_inj c d :
  u32_range c -> u32_range d -> crc_step poly c = crc_step poly d -> c = d.
Proof.
  intros Hc Hd Heq.
  assert (Z.odd c = Z.odd d) as Hodd.
  { rewrite <-(crc_step_top c), <-(crc_step_top d) by done. by rewrite Heq. }
  assert (Z.shiftr c 1 = Z.shiftr d 1) as Hshift.
  { unfold crc_step in Heq. rewrite Hodd in Heq. destruct (Z.odd d); [|done].
    apply (f_equal (Z.lxor poly)) in Heq.
    by rewrite <-!Z.lxor_assoc, Z.lxor_nilpotent, !Z.lxor_0_l in Heq. }
  rewrite !Z.shiftr_div_pow2 in Hshift by lia. change (2 ^ 1) with 2 in Hshift.
  rewrite (Z.div_mod c 2), (Z.div_mod d 2) by lia.
  rewrite Hshift, !Zmod_odd, Hodd. done.
Qed.

Lemma crc_steps_inj k c d :
  u32_range c -> u32_range d -> crc_steps poly k c = crc_steps poly k d -> c = d.
Proof.
  revert c d; induction k as [|k IH]; intros c d Hc Hd Heq; [done|].
  apply crc_step_inj; [done..|].
  apply IH; [by apply crc_step_range..|done].
Qed.
End invertible.

(** * Every path computes the bit-serial reference *)

(** The reference update: eight division steps per byte. *)
Definition update_ref (poly crc : Z) (bytes : list Z) : Z :=
  foldl (fun crc b => crc_steps poly 8 (Z.lxor crc b)) crc bytes.

Lemma build_table_lookup poly i :
  0 <= i < 256 -> build_table poly !! Z.to_nat i = Some (crc_steps poly 8 i).
Proof.
  intros Hi. unfold build_table. rewrite list_lookup_fmap, lookup_seq_lt by lia.
  cbn [fmap option_fmap option_map]. f_equal. f_equal. lia.
Qed.

(** Splitting off the low byte. *)
Lemma split_low_byte x :
  0 <= x -> x = Z.lxor (Z.land x 255) (Z.shiftl (Z.shiftr x 8) 8).
Proof.
  intros Hx. apply Z.bits_inj'. intros n Hn.
  rewrite Z.lxor_spec, Z.land_spec, Z.shiftl_spec by done.
  change 255 with (Z.ones 8).
  destruct (Z.lt_ge_cases n 8).
  - rewrite Z.ones_spec_low, (Z.testbit_neg_r _ (n - 8)) by lia.
    by rewrite andb_true_r, xorb_false_r.
  - rewrite Z.ones_spec_high, Z.shiftr_spec by lia.
    rewrite andb_false_r, xorb_false_l. f_equal. lia.
Qed.

Lemma land_255_range x : 0 <= Z.land x 255 < 256.
Proof. change 255 with (Z.ones 8). rewrite Z.land_ones by lia. apply Z.mod_pos_bound. lia. Qed.

Lemma table_step poly crc b :
  u32_range crc -> is_byte b ->
  Z.lxor (default 0 (build_table poly !! Z.to_nat (Z.land (Z.lxor crc b) 0xFF)))
         (Z.shiftr crc 8)
  = crc_steps poly 8 (Z.lxor crc b).
Proof.
  intros Hc Hb.
  rewrite build_table_lookup by apply land_255_range. cbn [default].
  rewrite (split_low_byte (Z.lxor crc b)) at 2
    by (apply Z.lxor_nonneg; unfold u32_range, is_byte in *; lia).
  rewrite crc_steps_linear. f_equal.
  rewrite (crc_steps_shiftl poly 8). rewrite Z.shiftr_lxor.
  replace (Z.shiftr b 8) with 0; [by rewrite Z.lxor_0_r|].
  symmetry. rewrite Z.shiftr_div_pow2 by lia. apply Z.div_small.
  unfold is_byte in Hb. cbn. lia.
Qed.

Lemma update_ref_range poly crc bytes :
  poly_ok poly -> u32_range crc -> bytes_ok bytes -> u32_range (update_ref poly crc bytes).
Proof.
  intros Hp Hc Hb. revert crc Hc. induction Hb as [|b l Hb Hl IH]; intros crc Hc; [done|].
  cbn [update_ref foldl]. apply IH. apply crc_steps_range; [done|]. apply lxor_u32; [done|].
  unfold is_byte, u32_range in *. lia.
Qed.

Lemma update_table_ref poly crc bytes :
  poly_ok poly -> u32_range crc -> bytes_ok bytes ->
  update_table (build_table poly) crc bytes = update_ref poly crc bytes.
Proof.
  intros Hp Hc Hb. revert crc Hc. induction Hb as [|b l Hb Hl IH]; intros crc Hc; [done|].
  cbn [update_table update_ref foldl]. rewrite table_step by done. apply IH.
  apply crc_steps_range; [done|]. apply lxor_u32; [done|].
  unfold is_byte, u32_range in *. lia.
Qed.

(** A little-endian word is divided byte by byte. *)
Lemma crc_steps_word poly crc bs :
  bytes_ok bs ->
  crc_steps poly (8 * length bs) (Z.lxor crc (le_val bs)) = update_ref poly crc bs.
Proof.
  intros Hb. revert crc. induction Hb as [|b l Hb Hl IH]; intros crc.
  { cbn. by rewrite Z.lxor_0_r. }
  replace (8 * length (b :: l))%nat with (8 + 8 * length l)%nat by (cbn; lia).
  rewrite crc_steps_add. cbn [update_ref foldl]. unfold update_ref in IH. rewrite <-IH.
  f_equal.
  assert (le_val (b :: l) = Z.lxor b (Z.shiftl (le_val l) 8)) as ->.
  { cbn [le_val]. rewrite (split_low_byte (b + 256 * le_val l)).
    - change 255 with (Z.ones 8).
      rewrite Z.land_ones, Z.shiftr_div_pow2 by lia. change (2 ^ 8) with 256.
      unfold is_byte in Hb. f_equal.
      + symmetry. apply (Z.mod_unique _ _ (le_val l)); lia.
      + f_equal. symmetry. apply (Z.div_unique _ _ _ b); lia.
    - apply le_val_range in Hl. unfold is_byte in Hb. lia. }
  rewrite <-Z.lxor_assoc, crc_steps_linear. f_equal.
  apply (crc_steps_shiftl poly 8).
Qed.

Lemma update_ref_app poly crc l k :
  update_ref poly crc (l ++ k) = update_ref poly (update_ref poly crc l) k.
Proof. unfold update_ref. by rewrite foldl_app. Qed.

Lemma crc_words_ref fuel crc bytes :
  bytes_ok bytes -> (8 * fuel <= length bytes)%nat ->
  crc_words mm_crc32_u64 mm_crc32_u8 fuel crc bytes = update_ref POLY_CASTAGNOLI crc bytes.
Proof.
  revert crc bytes; induction fuel as [|fuel IH]; intros crc bytes Hb Hlen; [done|].
  cbn [crc_words]. rewrite IH by first [by apply Forall_drop | rewrite length_drop; lia].
  rewrite <-(take_drop 8 bytes) at 3. rewrite update_ref_app. f_equal.
  unfold mm_crc32_u64. rewrite <-crc_steps_word by by apply Forall_take.
  do 2 f_equal. rewrite length_take. lia.
Qed.

Lemma update_family_ref cpu f crc bytes :
  u32_range crc -> bytes_ok bytes ->
  update_family cpu f crc bytes = update_ref (family_poly f) crc bytes.
Proof.
  intros Hc Hb. assert (8 * (length bytes / 8) <= length bytes)%nat as Hlen
    by (apply Nat.Div0.mul_div_le).
  destruct f; [|by apply update_table_ref; [apply (family_poly_ok Ieee)|..]].
  destruct cpu; cbn.
  - by apply crc_words_ref.
  - by apply crc_words_ref.
  - by apply update_table_ref; [apply (family_poly_ok Castagnoli)|..].
Qed.

Lemma ones32_range : u32_range 0xFFFFFFFF.
Proof. unfold u32_range. lia. Qed.

Lemma update_family_range cpu f crc bytes :
  u32_range crc -> bytes_ok bytes -> u32_range (update_family cpu f crc bytes).
Proof.
  intros. rewrite update_family_ref by done.
  by apply update_ref_range; [apply family_poly_ok|..].
Qed.

Lemma crc32c_with_ref cpu f bytes :
  bytes_ok bytes ->
  crc32c_with cpu f bytes = u32_not (update_ref (family_poly f) 0xFFFFFFFF bytes).
Proof. intros. unfold crc32c_with. by rewrite update_family_ref by (done || apply ones32_range). Qed.

(** The streamed checksum is the checksum of the input with the field zeroed. *)
Lemma crc32c_zeroed_splice cpu f bytes off :
  bytes_ok bytes -> 0 <= off -> off + 4 <= Zlen bytes ->
  crc32c_zeroed cpu f bytes off = crc32c_with cpu f (splice bytes off [0; 0; 0; 0]).
Proof.
  intros Hb Hoff Hlen.
  assert (bytes_ok [0; 0; 0; 0]) as H0 by (repeat constructor; unfold is_byte; lia).
  unfold crc32c_zeroed. rewrite crc32c_with_ref by by apply bytes_ok_splice.
  rewrite !update_family_ref by
    (repeat apply update_family_range; first
      [ done | apply ones32_range | by apply bytes_ok_slice ]).
  unfold splice. rewrite !update_ref_app, slice_from_start, slice_to_end by lia.
  replace (Z.to_nat (off + 4)) with (Z.to_nat off + 4)%nat by lia. done.
Qed.

(** * Error detection *)

Lemma update_ref_inj poly c d suf :
  poly_ok poly -> u32_range c -> u32_range d -> bytes_ok suf ->
  update_ref poly c suf = update_ref poly d suf -> c = d.
Proof.
  intros Hp Hc Hd Hs. revert c d Hc Hd.
  induction Hs as [|b l Hb Hl IH]; intros c d Hc Hd Heq; [done|].
  assert (u32_range b) by (unfold u32_range, is_byte in *; lia).
  assert (Z.lxor c b = Z.lxor d b) as Hx.
  { apply (crc_steps_inj poly Hp 8); [by apply lxor_u32..|].
    apply IH; [by apply crc_steps_range, lxor_u32..|]. exact Heq. }
  apply (f_equal (Z.lxor b)) in Hx. rewrite !(Z.lxor_comm b) in Hx.
  by rewrite !Z.lxor_assoc, Z.lxor_nilpotent, !Z.lxor_0_r in Hx.
Qed.

Lemma le_val_inj l k :
  length l = length k -> bytes_ok l -> bytes_ok k -> le_val l = le_val k -> l = k.
Proof.
  intros Hlen Hl Hk Heq. rewrite <-(le_bytes_val l), <-(le_bytes_val k) by done.
  by rewrite Hlen, Heq.
Qed.

(** Two equal-length inputs that differ only in a window of at most four
    consecutive bytes have different running CRCs. *)
Lemma update_ref_burst poly c pre m1 m2 suf :
  poly_ok poly -> u32_range c -> bytes_ok pre -> bytes_ok m1 -> bytes_ok m2 ->
  bytes_ok suf -> length m1 = length m2 -> (length m1 <= 4)%nat ->
  update_ref poly c (pre ++ m1 ++ suf) = update_ref poly c (pre ++ m2 ++ suf) -> m1 = m2.
Proof.
  intros Hp Hc Hpre Hm1 Hm2 Hsuf Hlen H4 Heq.
  rewrite !update_ref_app in Heq.
  assert (forall m, bytes_ok m -> (length m <= 4)%nat -> u32_range (le_val m)) as Hval.
  { intros m Hm Hl. apply le_val_range in Hm. unfold u32_range.
    assert (256 ^ Zlen m <= 256 ^ 4) by (apply Z.pow_le_mono_r; lia).
    change (2 ^ 32) with (256 ^ 4). lia. }
  apply update_ref_inj in Heq; [|repeat apply update_ref_range; done..].
  rewrite <-(crc_steps_word poly _ m1), <-(crc_steps_word poly _ m2), Hlen in Heq by done.
  apply crc_steps_inj in Heq; [|done|apply lxor_u32; [by apply update_ref_range|apply Hval; auto; lia]..].
  apply (f_equal (Z.lxor (update_ref poly c pre))) in Heq.
  rewrite <-!Z.lxor_assoc, Z.lxor_nilpotent, !Z.lxor_0_l in Heq.
  by apply le_val_inj.
Qed.

Lemma u32_not_inj x y : u32_not x = u32_not y -> x = y.
Proof.
  unfold u32_not. intros H. apply (f_equal (fun z => Z.lxor z 0xFFFFFFFF)) in H.
  by rewrite !Z.lxor_assoc, Z.lxor_nilpotent, !Z.lxor_0_r in H.
Qed.

Lemma u32_not_range x : u32_range x -> u32_range (u32_not x).
Proof. intros. apply lxor_u32; [done|apply ones32_range]. Qed.

Lemma crc32c_with_range cpu f bytes : bytes_ok bytes -> u32_range (crc32c_with cpu f bytes).
Proof.
  intros. rewrite crc32c_with_ref by done. apply u32_not_range, update_ref_range;
    [apply family_poly_ok|apply ones32_range|done].
Qed.

Lemma crc32c_with_burst cpu f pre m1 m2 suf :
  bytes_ok pre -> bytes_ok m1 -> bytes_ok m2 -> bytes_ok suf ->
  length m1 = length m2 -> (length m1 <= 4)%nat -> m1 <> m2 ->
  crc32c_with cpu f (pre ++ m1 ++ suf) <> crc32c_with cpu f (pre ++ m2 ++ suf).
Proof.
  intros Hpre Hm1 Hm2 Hsuf Hlen H4 Hne Heq. apply Hne.
  rewrite !crc32c_with_ref in Heq by (repeat apply Forall_app_2; done).
  apply u32_not_inj in Heq.
  by apply (update_ref_burst (family_poly f) 0xFFFFFFFF pre m1 m2 suf
    (family_poly_ok f) ones32_range).
Qed.
