(* ===== verification/Bf16.v ===== *)
(** [crates/mimo26-wire/src/bf16.rs]: the BF16 conversions of the compact
    return.  An [f32] is its bit pattern ([to_bits]/[from_bits]), a [u32]; where it
    is computed with, it is a [spec_float] of the binary32 format. *)
From Stdlib Require Import ZArith Lia Bool SpecFloat.
From stdpp Require Import base list gmap strings.
From S2P Require Import Prelude Layout.

(** * Definitions *)

Definition bf16_to_f32 (bits : Z) : Z := Z.shiftl bits 16.

Definition f32_to_bf16_rne (bits : Z) : Z :=
  let sign := Z.land (Z.shiftr bits 16) 0x8000 in
  let mag := Z.land bits 0x7FFFFFFF in
  if mag >? 0x7F800000 then Z.lor sign 0x7FFF
  else
    let rounded := (mag + (0x7FFF + Z.land (Z.shiftr mag 16) 1)) mod 2 ^ 32 in
    let rounded := if rounded >=? 0x7F800000 then 0x7F800000 else rounded in
    Z.lor sign (Z.shiftr rounded 16).

Definition f32_to_bf16 (bits : Z) (naive : WireNaive) : Z :=
  if has naive BF16_TRUNCATE then Z.shiftr bits 16 else f32_to_bf16_rne bits.

(** [f32::from_bits]; every NaN pattern is the one [S754_nan]. *)
Definition f32_from_bits (bits : Z) : spec_float :=
  let s := Z.testbit bits 31 in
  let e := Z.land (Z.shiftr bits 23) 0xFF in
  let m := Z.land bits 0x7FFFFF in
  if e =? 255 then (if m =? 0 then S754_infinity s else S754_nan)
  else if e =? 0 then match m with Zpos p => S754_finite s p (-149) | _ => S754_zero s end
  else match m + 0x800000 with Zpos p => S754_finite s p (e - 150) | _ => S754_nan end.

Definition f32_zero : spec_float := S754_zero false.
Definition f32_add : spec_float -> spec_float -> spec_float := SFadd 24 128.
Definition f32_lt : spec_float -> spec_float -> bool := SFltb.

(** A BF16 code that is not a NaN: exponent not all ones, or zero mantissa. *)
Definition bf16_not_nan (code : Z) : Prop :=
  u16_range code /\ code mod 2 ^ 15 <= 0x7F80.

(** * Lemmas *)

Lemma land_1 x : Z.land x 1 = x mod 2.
Proof. apply (land_ones_mod x 1). lia. Qed.

(** Sign and magnitude of a 16- or 32-bit pattern, as arithmetic. *)
Lemma sign16 bits : u32_range bits -> Z.land (Z.shiftr bits 16) 0x8000 = 2 ^ 15 * (bits / 2 ^ 31).
Proof.
  unfold u32_range. intros H.
  assert (bits / 2 ^ 31 = 0 \/ bits / 2 ^ 31 = 1) as Hs.
  { assert (0 <= bits / 2 ^ 31 < 2); [|lia]. split; [apply Z.div_pos; lia|].
    apply Z.div_lt_upper_bound; lia. }
  apply Z.bits_inj'. intros n Hn.
  rewrite Z.land_spec, Z.shiftr_spec by done.
  change 0x8000 with (2 ^ 15). rewrite Z.pow2_bits_eqb by lia.
  destruct (Z.eqb_spec 15 n) as [<-|Hne].
  - rewrite andb_true_r. change (15 + 16) with 31.
    rewrite Z.testbit_eqb by lia. destruct Hs as [-> | ->]; done.
  - rewrite andb_false_r. destruct Hs as [-> | ->]; [by rewrite Z.mul_0_r, Z.testbit_0_l|].
    rewrite Z.mul_1_r, Z.pow2_bits_eqb by lia. by apply Z.eqb_neq in Hne as ->.
Qed.

Lemma lor_sign s m : 0 <= m < 2 ^ 15 -> Z.lor (2 ^ 15 * s) m = 2 ^ 15 * s + m.
Proof. intros. by apply lor_disjoint. Qed.

(** The conversion on a pattern split into sign and magnitude. *)
Lemma f32_to_bf16_rne_split bits :
  u32_range bits -> bits mod 2 ^ 31 <= 0x7F800000 ->
  exists r, f32_to_bf16_rne bits = 2 ^ 15 * (bits / 2 ^ 31) + r /\ 0 <= r <= 0x7F80 /\
    let m := bits mod 2 ^ 31 in
    let rounded := m + (0x7FFF + (m / 2 ^ 16) mod 2) in
    r = if rounded >=? 0x7F800000 then 0x7F80 else rounded / 2 ^ 16.
Proof.
  intros Hb Hm. unfold f32_to_bf16_rne. rewrite sign16 by done.
  change 0x7FFFFFFF with (Z.ones 31). rewrite land_ones_mod by lia.
  rewrite !land_1, !(Z.shiftr_div_pow2 _ 16) by lia. set (m := bits mod 2 ^ 31) in *.
  assert (0 <= m < 2 ^ 31) by (apply Z.mod_pos_bound; lia).
  pose proof (Z.mod_pos_bound (m / 2 ^ 16) 2).
  destruct (Z.gtb_spec m 0x7F800000) as [?|_]; [lia|].
  rewrite (Z.mod_small (m + _)) by lia.
  set (rounded := m + _). assert (0 <= rounded) by (unfold rounded; lia).
  exists (if rounded >=? 0x7F800000 then 0x7F80 else rounded / 2 ^ 16).
  destruct (Z.geb_spec rounded 0x7F800000) as [Hge|Hlt].
  - split_and!; [|lia..|done]. apply lor_sign. lia.
  - assert (0 <= rounded / 2 ^ 16 < 0x7F80).
    { split; [apply Z.div_pos; lia|]. apply Z.div_lt_upper_bound; lia. }
    split_and!; [|lia..|done]. apply lor_sign. lia.
Qed.

(** * Theorems *)

(** BF16 codes survive the trip through f32, NaNs excepted. *)
Lemma bf16_roundtrip_lemma code :
  bf16_not_nan code -> f32_to_bf16_rne (bf16_to_f32 code) = code.
Proof.
  intros [Hc Hnan]. unfold u16_range in Hc. unfold bf16_to_f32.
  rewrite Z.shiftl_mul_pow2 by lia.
  pose proof (Z.div_mod code (2 ^ 15)). pose proof (Z.mod_pos_bound code (2 ^ 15)).
  set (s := code / 2 ^ 15) in *. set (m := code mod 2 ^ 15) in *.
  assert (code * 2 ^ 16 / 2 ^ 31 = s) as Hs by (symmetry; apply (Z.div_unique _ _ _ (m * 2 ^ 16)); lia).
  assert (code * 2 ^ 16 mod 2 ^ 31 = m * 2 ^ 16) as Hm
    by (symmetry; apply (Z.mod_unique _ _ s); lia).
  destruct (f32_to_bf16_rne_split (code * 2 ^ 16)) as (r & -> & Hr & Hdef).
  { unfold u32_range. lia. }
  { lia. }
  cbv zeta in Hdef. rewrite Hm in Hdef. rewrite Hs. rewrite Z.div_mul in Hdef by lia.
  pose proof (Z.mod_pos_bound m 2).
  destruct (Z.geb_spec (m * 2 ^ 16 + (32767 + m mod 2)) 2139095040) as [Hge|Hlt].
  - lia.
  - rewrite <-(Z.div_unique _ (2 ^ 16) m (32767 + m mod 2)) in Hdef by lia. lia.
Qed.

(** Rounding is to the nearest code, ties to even, and saturates at infinity. *)
Lemma bf16_rne_nearest_lemma bits :
  u32_range bits -> bits mod 2 ^ 31 <= 0x7F800000 ->
  exists r, f32_to_bf16_rne bits = 2 ^ 15 * (bits / 2 ^ 31) + r /\ 0 <= r <= 0x7F80 /\
    Z.abs (bits mod 2 ^ 31 - r * 2 ^ 16) <= 2 ^ 15 /\
    (Z.abs (bits mod 2 ^ 31 - r * 2 ^ 16) = 2 ^ 15 -> r mod 2 = 0).
Proof.
  intros Hb Hm. destruct (f32_to_bf16_rne_split bits Hb Hm) as (r & Heq & Hr & Hdef).
  exists r. do 2 (split; [done|]). cbv zeta in Hdef.
  pose proof (Z.mod_pos_bound bits (2 ^ 31) ltac:(lia)).
  set (m := bits mod 2 ^ 31) in *. clearbody m.
  pose proof (Z.div_mod m (2 ^ 16) ltac:(lia)).
  pose proof (Z.mod_pos_bound m (2 ^ 16) ltac:(lia)).
  set (q := m / 2 ^ 16) in *. set (f := m mod 2 ^ 16) in *.
  pose proof (Z.div_mod q 2 ltac:(lia)). pose proof (Z.mod_pos_bound q 2 ltac:(lia)).
  destruct (Z.geb_spec (m + (32767 + q mod 2)) 2139095040) as [Hge|Hlt].
  - subst r. split; [lia|done].
  - assert (f + (32767 + q mod 2) < 2 ^ 16 /\ r = q \/
            2 ^ 16 <= f + (32767 + q mod 2) /\ r = q + 1) as [[? ->]|[? ->]].
    { subst r. destruct (Z.lt_ge_cases (f + (32767 + q mod 2)) (2 ^ 16)).
      - left. split; [done|]. symmetry. apply (Z.div_unique _ _ _ (f + (32767 + q mod 2))); lia.
      - right. split; [done|]. symmetry.
        apply (Z.div_unique _ _ _ (f + (32767 + q mod 2) - 2 ^ 16)); lia. }
    + split; [lia|]. intros. assert (q mod 2 = 0) by lia. done.
    + split; [lia|]. intros. assert (q mod 2 = 1) by lia.
      symmetry. apply (Z.mod_unique _ _ (q / 2 + 1)); lia.
Qed.
