(* ===== verification/Frame.v ===== *)
(** [crates/mimo26-wire/src/frame.rs]: the DS41RTE3 v3 frame codec.  Definitions
    only; [FrameProofs.v] holds the theorems.

    Byte strings are lists of [Z] bytes.  An [f32] gate weight is its bit pattern,
    which is what [to_le_bytes]/[from_le_bytes] carry.  Two process-wide facts are
    arguments: [cpu], what the CRC feature detection returns, and [nocrc], the
    value of [crc_disabled()] ([MIMO26_WIRE_NOCRC=1]).  [usize] is 64 bits. *)
From Stdlib Require Import ZArith Lia Bool.
From stdpp Require Import base list gmap strings.
From S2P Require Import Prelude Layout Crc32c Bf16.

(** * Data *)

Definition FLAG_SPARK_REDUCTION : Z := Z.shiftl 1 9.
Definition FLAG_V41_COMPACT_BF16 : Z := Z.shiftl 1 16.
Definition FLAG_RETURN_REQUIRED : Z := Z.lor FLAG_SPARK_REDUCTION FLAG_V41_COMPACT_BF16.

Record RowDescriptor := mkRowDescriptor {
  rd_row_id : Z;
  rd_source_kind : SourceKind;
  rd_source_request_id : Z;
  rd_token_position : Z;
  rd_route_offset : Z;
  rd_route_count : Z;
}.

Record RouteEntry := mkRouteEntry {
  re_row_index : Z;
  re_expert_id : Z;
  re_gate_weight : Z;
}.

Record HiddenRow := mkHiddenRow {
  hr_payload : list Z;
  hr_scales : list Z;
}.

Record RequestFrame := mkRequestFrame {
  rq_request_id : Z;
  rq_placement_version : Z;
  rq_layer_id : Z;
  rq_executor_id : Z;
  rq_source_kind : SourceKind;
  rq_token_position : Z;
  rq_flags : Z;
  rq_seq : Z;
  rq_rows : list RowDescriptor;
  rq_routes : list RouteEntry;
  rq_hidden_rows : list HiddenRow;
}.

Record ReturnRow := mkReturnRow { rr_codes : list Z }.

Record ReturnFrame := mkReturnFrame {
  rt_request_id : Z;
  rt_placement_version : Z;
  rt_layer_id : Z;
  rt_executor_id : Z;
  rt_token_position : Z;
  rt_status : Status;
  rt_flags : Z;
  rt_route_count : Z;
  rt_seq : Z;
  rt_rows : list ReturnRow;
}.

Inductive Frame :=
| FrameRequest (r : RequestFrame)
| FrameReturn (r : ReturnFrame).

Definition Frame_seq (f : Frame) : Z :=
  match f with FrameRequest r => rq_seq r | FrameReturn r => rt_seq r end.

Record HeaderFields := mkHeaderFields {
  hf_kind : Z;
  hf_request_id : Z;
  hf_placement_version : Z;
  hf_layer_id : Z;
  hf_row_count : Z;
  hf_dim : Z;
  hf_dtype : Dtype;
  hf_source_kind : SourceKind;
  hf_route_count : Z;
  hf_row_descriptor_bytes : Z;
  hf_route_bytes : Z;
  hf_payload_bytes : Z;
  hf_logical_payload_bytes : Z;
  hf_wire_bytes : Z;
  hf_flags : Z;
  hf_row_stride_bytes : Z;
  hf_status : Status;
  hf_executor_id : Z;
  hf_token_position : Z;
  hf_seq : Z;
}.

(** * Primitive little-endian codec helpers *)

(** The writers index fixed-size arrays at constant offsets inside them. *)
Definition put_u16 (out : list Z) (at_ v : Z) : list Z := splice out at_ (le_bytes 2 v).
Definition put_u32 (out : list Z) (at_ v : Z) : list Z := splice out at_ (le_bytes 4 v).
Definition put_u64 (out : list Z) (at_ v : Z) : list Z := splice out at_ (le_bytes 8 v).

Definition get_le (n : Z) (bytes : list Z) (at_ : Z) : outcome WireError Z :=
  if at_ + n <=? Zlen bytes then Ok (le_val (slice bytes at_ (at_ + n)))
  else Err (TooShort (at_ + n) (Zlen bytes)).

Definition get_u16 := get_le 2.
Definition get_u32 := get_le 4.
Definition get_u64 := get_le 8.
Definition get_f32 := get_le 4.

Definition checked_mul (a b : Z) (field : string) : outcome WireError Z :=
  if a * b <? 2 ^ 64 then Ok (a * b) else Err (DimMismatch field 0 (2 ^ 64 - 1)).

Definition as_u32 (v : Z) (field : string) : outcome WireError Z :=
  if v <? 2 ^ 32 then Ok v else Err (DimMismatch field (2 ^ 32 - 1) v).

(** * Row descriptors and route entries *)

Definition row_descriptor_wire (row : RowDescriptor) (naive : WireNaive) : list Z :=
  let b := replicate (Z.to_nat ROW_DESCRIPTOR_LEN) 0 in
  let b := put_u64 b desc_ROW_ID (rd_row_id row) in
  let b := put_u16 b desc_SOURCE_KIND (SourceKind_code (rd_source_kind row)) in
  let '(id_at, pos_at) :=
    if has naive DESC_FIELD_DRIFT then (desc_TOKEN_POSITION, desc_SOURCE_REQUEST_ID)
    else (desc_SOURCE_REQUEST_ID, desc_TOKEN_POSITION) in
  let b := put_u64 b id_at (rd_source_request_id row) in
  let b := put_u64 b pos_at (rd_token_position row) in
  let b := put_u32 b desc_ROUTE_OFFSET (rd_route_offset row) in
  put_u32 b desc_ROUTE_COUNT (rd_route_count row).

Definition row_descriptor_from_wire (bytes : list Z) (offset : Z) (naive : WireNaive)
    : outcome WireError RowDescriptor :=
  match get_range bytes offset (offset + ROW_DESCRIPTOR_LEN) with
  | None => Err (TooShort (offset + ROW_DESCRIPTOR_LEN) (Zlen bytes))
  | Some b =>
    let '(id_at, pos_at) :=
      if has naive DESC_FIELD_DRIFT then (desc_TOKEN_POSITION, desc_SOURCE_REQUEST_ID)
      else (desc_SOURCE_REQUEST_ID, desc_TOKEN_POSITION) in
    row_id ← get_u64 b desc_ROW_ID;
    kind_code ← get_u16 b desc_SOURCE_KIND;
    source_kind ← SourceKind_from_code kind_code;
    source_request_id ← get_u64 b id_at;
    token_position ← get_u64 b pos_at;
    route_offset ← get_u32 b desc_ROUTE_OFFSET;
    route_count ← get_u32 b desc_ROUTE_COUNT;
    Ok (mkRowDescriptor row_id source_kind source_request_id token_position
                        route_offset route_count)
  end.

Definition route_entry_wire (r : RouteEntry) (naive : WireNaive) : list Z :=
  let b := replicate (Z.to_nat ROUTE_ENTRY_LEN) 0 in
  let b := put_u32 b route_ROW_INDEX (re_row_index r) in
  let '(id_at, w_at) :=
    if has naive ROUTE_FIELD_SWAP then (route_GATE_WEIGHT, route_EXPERT_ID)
    else (route_EXPERT_ID, route_GATE_WEIGHT) in
  let b := put_u32 b id_at (re_expert_id r) in
  splice b w_at (le_bytes 4 (re_gate_weight r)).

Definition route_entry_from_wire (bytes : list Z) (offset : Z) (naive : WireNaive)
    : outcome WireError RouteEntry :=
  match get_range bytes offset (offset + ROUTE_ENTRY_LEN) with
  | None => Err (TooShort (offset + ROUTE_ENTRY_LEN) (Zlen bytes))
  | Some b =>
    let '(id_at, w_at) :=
      if has naive ROUTE_FIELD_SWAP then (route_GATE_WEIGHT, route_EXPERT_ID)
      else (route_EXPERT_ID, route_GATE_WEIGHT) in
    row_index ← get_u32 b route_ROW_INDEX;
    expert_id ← get_u32 b id_at;
    gate_weight ← get_f32 b w_at;
    Ok (mkRouteEntry row_index expert_id gate_weight)
  end.

(** [for (i, row) in rows.iter().enumerate()] *)
Fixpoint validate_rows (i : Z) (rows : list RowDescriptor) (routes_len : Z)
    : outcome WireError unit :=
  match rows with
  | [] => Ok tt
  | row :: rows =>
    if rd_route_offset row + rd_route_count row >? routes_len
    then Err (RouteRangeBad i)
    else validate_rows (i + 1) rows routes_len
  end.

Fixpoint validate_routes (j : Z) (routes : list RouteEntry) (rows_len : Z)
    : outcome WireError unit :=
  match routes with
  | [] => Ok tt
  | r :: routes =>
    if re_row_index r >=? rows_len
    then Err (RouteRowMismatch j (re_row_index r) (rows_len mod 2 ^ 32))
    else validate_routes (j + 1) routes rows_len
  end.

Definition validate_rows_routes (rows : list RowDescriptor) (routes : list RouteEntry)
    : outcome WireError unit :=
  validate_rows 0 rows (Zlen routes) ≫= fun _ =>
  validate_routes 0 routes (Zlen rows).

(** * Header codec *)

Definition write_header (h : HeaderFields) (naive : WireNaive) : list Z :=
  let b := replicate (Z.to_nat HEADER_LEN) 0 in
  let b := splice b hdr_MAGIC MAGIC in
  let b := put_u16 b hdr_VERSION VERSION in
  let b := put_u16 b hdr_KIND (hf_kind h) in
  let b := put_u32 b hdr_HEADER_LEN HEADER_LEN in
  let b := put_u64 b hdr_REQUEST_ID (hf_request_id h) in
  let b := put_u64 b hdr_PLACEMENT_VERSION (hf_placement_version h) in
  let b := put_u32 b hdr_LAYER_ID (hf_layer_id h) in
  let b := put_u32 b hdr_ROW_COUNT (hf_row_count h) in
  let b := put_u32 b hdr_DIM (hf_dim h) in
  let b := put_u16 b hdr_PAYLOAD_DTYPE (Dtype_code (hf_dtype h) naive) in
  let b := put_u16 b hdr_SOURCE_KIND (SourceKind_code (hf_source_kind h)) in
  let b := put_u32 b hdr_ROUTE_COUNT (hf_route_count h) in
  let b := put_u32 b hdr_ROW_DESCRIPTOR_BYTES (hf_row_descriptor_bytes h) in
  let b := put_u32 b hdr_ROUTE_BYTES (hf_route_bytes h) in
  let b := put_u64 b hdr_PAYLOAD_BYTES (hf_payload_bytes h) in
  let b := put_u64 b hdr_LOGICAL_PAYLOAD_BYTES (hf_logical_payload_bytes h) in
  let b := put_u64 b hdr_WIRE_BYTES (hf_wire_bytes h) in
  let b := put_u32 b hdr_FLAGS (hf_flags h) in
  let b := put_u32 b hdr_ROW_STRIDE_BYTES (hf_row_stride_bytes h) in
  let b := put_u32 b hdr_STATUS (Status_code (hf_status h)) in
  let b := put_u64 b hdr_EXECUTOR_ID (hf_executor_id h) in
  let b := put_u64 b hdr_TOKEN_POSITION (hf_token_position h) in
  put_u64 b hdr_SEQ (hf_seq h).

(** The checks before any field is read: magic, version, kind, length. *)
Definition parse_header (bytes : list Z) (naive : WireNaive)
    : outcome WireError HeaderFields :=
  if Zlen bytes <? HEADER_LEN then Err (TooShort HEADER_LEN (Zlen bytes))
  else if negb (bool_decide (slice bytes hdr_MAGIC (hdr_MAGIC + 8) = MAGIC))
  then Err (BadMagic (slice bytes hdr_MAGIC (hdr_MAGIC + 8)))
  else
    version ← get_u16 bytes hdr_VERSION;
    if negb (version =? VERSION) then Err (BadVersion version) else
    kind ← get_u16 bytes hdr_KIND;
    if negb (kind =? KIND_REQUEST) && negb (kind =? KIND_RETURN)
    then Err (BadKind kind) else
    header_len ← get_u32 bytes hdr_HEADER_LEN;
    if negb (header_len =? HEADER_LEN) then Err (BadHeaderLen header_len) else
    wire_bytes ← get_u64 bytes hdr_WIRE_BYTES;
    let declared := wire_bytes in
    if Zlen bytes <? declared then Err (Truncated declared (Zlen bytes))
    else if Zlen bytes >? declared then Err (TrailingBytes declared (Zlen bytes))
    else
    request_id ← get_u64 bytes hdr_REQUEST_ID;
    placement_version ← get_u64 bytes hdr_PLACEMENT_VERSION;
    layer_id ← get_u32 bytes hdr_LAYER_ID;
    row_count ← get_u32 bytes hdr_ROW_COUNT;
    dim ← get_u32 bytes hdr_DIM;
    dtype_code ← get_u16 bytes hdr_PAYLOAD_DTYPE;
    dtype ← Dtype_from_code dtype_code naive;
    kind_code ← get_u16 bytes hdr_SOURCE_KIND;
    source_kind ← SourceKind_from_code kind_code;
    route_count ← get_u32 bytes hdr_ROUTE_COUNT;
    row_descriptor_bytes ← get_u32 bytes hdr_ROW_DESCRIPTOR_BYTES;
    route_bytes ← get_u32 bytes hdr_ROUTE_BYTES;
    payload_bytes ← get_u64 bytes hdr_PAYLOAD_BYTES;
    logical_payload_bytes ← get_u64 bytes hdr_LOGICAL_PAYLOAD_BYTES;
    flags ← get_u32 bytes hdr_FLAGS;
    row_stride_bytes ← get_u32 bytes hdr_ROW_STRIDE_BYTES;
    status_code ← get_u32 bytes hdr_STATUS;
    status ← Status_from_code status_code;
    executor_id ← get_u64 bytes hdr_EXECUTOR_ID;
    token_position ← get_u64 bytes hdr_TOKEN_POSITION;
    seq ← get_u64 bytes hdr_SEQ;
    Ok (mkHeaderFields kind request_id placement_version layer_id row_count dim
          dtype source_kind route_count row_descriptor_bytes route_bytes
          payload_bytes logical_payload_bytes wire_bytes flags row_stride_bytes
          status executor_id token_position seq).

Definition frame_seq (bytes : list Z) : option Z :=
  if Zlen bytes <? hdr_SEQ + 8 then None
  else match get_u64 bytes hdr_SEQ with Ok s => Some s | _ => None end.

(** * Checksum seal and verify *)
Section with_process.
Context (cpu : CpuCrc) (nocrc : bool).

Definition compute_crc (bytes : list Z) (naive : WireNaive) : Z :=
  let family := family_for naive in
  if has naive CRC_HEADER_EXEMPT
  then crc32c_with cpu family (slice bytes HEADER_LEN (Zlen bytes))
  else crc32c_zeroed cpu family bytes hdr_CRC32C.

Definition seal (frame : list Z) (naive : WireNaive) : list Z :=
  if nocrc then frame
  else splice frame hdr_CRC32C (le_bytes 4 (compute_crc frame naive)).

Definition seal_in_place (buf : list Z) (naive : WireNaive) : list Z :=
  if nocrc then buf
  else splice buf hdr_CRC32C (le_bytes 4 (compute_crc buf naive)).

Definition verify_crc (bytes : list Z) (naive : WireNaive) (seq : Z)
    : outcome WireError unit :=
  if has naive CRC_UNCHECKED then Ok tt
  else if nocrc then Ok tt
  else
    let want := compute_crc bytes naive in
    got ← get_u32 bytes hdr_CRC32C;
    if negb (want =? got) then Err (Corrupt seq want got) else Ok tt.

(** * Request frames *)

Fixpoint check_hidden_rows (rows : list HiddenRow) (scales_len : Z)
    : outcome WireError unit :=
  match rows with
  | [] => Ok tt
  | h :: rows =>
    if negb (Zlen (hr_payload h) =? HIDDEN)
    then Err (DimMismatch "hidden.payload" HIDDEN (Zlen (hr_payload h)))
    else if negb (Zlen (hr_scales h) =? scales_len)
    then Err (DimMismatch "hidden.scales" scales_len (Zlen (hr_scales h)))
    else check_hidden_rows rows scales_len
  end.

Definition request_dtype (naive : WireNaive) : Dtype :=
  if has naive ROW_SCALED_DTYPE then Fp8E4m3RowScaled else Fp8E4m3Ue8m0K32.

Definition encode_request_seq (frame : RequestFrame) (seq : Z) (naive : WireNaive)
    : outcome WireError (list Z) :=
  if bool_decide (rq_rows frame = []) then Err (DimMismatch "rows" 1 0)
  else if negb (Zlen (rq_hidden_rows frame) =? Zlen (rq_rows frame))
  then Err (DimMismatch "hidden_rows" (Zlen (rq_rows frame)) (Zlen (rq_hidden_rows frame)))
  else
    validate_rows_routes (rq_rows frame) (rq_routes frame) ≫= fun _ =>
    let hidden_row := hidden_row_bytes naive in
    let scales_len := hidden_row - HIDDEN in
    check_hidden_rows (rq_hidden_rows frame) scales_len ≫= fun _ =>
    let rows := Zlen (rq_rows frame) in
    let routes := Zlen (rq_routes frame) in
    let row_bytes := request_row_bytes naive in
    row_descriptor_bytes ← checked_mul rows ROW_DESCRIPTOR_LEN "row_descriptor_bytes";
    route_bytes ← checked_mul routes ROUTE_ENTRY_LEN "route_bytes";
    payload_bytes ← checked_mul rows hidden_row "payload_bytes";
    logical_bytes ← checked_mul rows row_bytes "logical_payload_bytes";
    partial ← usize_add row_descriptor_bytes route_bytes;
    total ← usize_add partial payload_bytes;
    if HEADER_LEN + total >=? 2 ^ 64 then Err (DimMismatch "wire_bytes" 0 (2 ^ 64 - 1)) else
    let wire_len := HEADER_LEN + total in
    row_count ← as_u32 rows "row_count";
    route_count ← as_u32 routes "route_count";
    row_descriptor_bytes32 ← as_u32 row_descriptor_bytes "row_descriptor_bytes";
    route_bytes32 ← as_u32 route_bytes "route_bytes";
    row_stride ← as_u32 hidden_row "row_stride_bytes";
    let header := write_header
      (mkHeaderFields KIND_REQUEST (rq_request_id frame) (rq_placement_version frame)
         (rq_layer_id frame) row_count HIDDEN (request_dtype naive)
         (rq_source_kind frame) route_count row_descriptor_bytes32 route_bytes32
         payload_bytes logical_bytes wire_len (rq_flags frame) row_stride StatusOk
         (rq_executor_id frame) (rq_token_position frame) seq) naive in
    Ok (seal (header
      ++ concat ((fun row => row_descriptor_wire row naive) <$> rq_rows frame)
      ++ concat ((fun r => route_entry_wire r naive) <$> rq_routes frame)
      ++ concat ((fun h => hr_payload h ++ hr_scales h) <$> rq_hidden_rows frame)) naive).

Definition encode_request (frame : RequestFrame) (naive : WireNaive)
    : outcome WireError (list Z) := encode_request_seq frame (rq_seq frame) naive.

(** [body[a..a + bs.len()].copy_from_slice(&bs)] *)
Definition put_slice {E} (body : list Z) (a : Z) (bs : list Z) : outcome E (list Z) :=
  if (0 <=? a) && (a + Zlen bs <=? Zlen body) then Ok (splice body a bs) else Panic.

(** The row descriptor of decode row [t] in the in-place encoders. *)
Definition meta_row (request_id topk t : Z) : RowDescriptor :=
  mkRowDescriptor t Decode request_id t ((t * topk) mod 2 ^ 32) (topk mod 2 ^ 32).

(** The header of the in-place encoders. *)
Definition meta_header (request_id layer_id executor_id seq rows routes
    row_descriptor_bytes route_bytes payload_bytes logical_bytes body_len : Z)
    (naive : WireNaive) : outcome WireError (list Z) :=
  row_count ← as_u32 rows "row_count";
  route_count ← as_u32 routes "route_count";
  row_descriptor_bytes32 ← as_u32 row_descriptor_bytes "row_descriptor_bytes";
  route_bytes32 ← as_u32 route_bytes "route_bytes";
  row_stride ← as_u32 (hidden_row_bytes naive) "row_stride_bytes";
  Ok (write_header
    (mkHeaderFields KIND_REQUEST request_id 1 layer_id row_count HIDDEN
       (request_dtype naive) Decode route_count row_descriptor_bytes32 route_bytes32
       payload_bytes logical_bytes (HEADER_LEN + body_len) 0 row_stride StatusOk
       executor_id 0 seq) naive).

(** One pass of [for k in 0..topk]: write route [k] of row [t]. *)
Definition meta_route (routes : list (Z * Z)) (topk row_descriptor_bytes t : Z)
    (naive : WireNaive) (st : list Z * list RouteEntry) (k : Z)
    : outcome WireError (list Z * list RouteEntry) :=
  let '(body, route_list) := st in
  match routes !! Z.to_nat (t * topk + k) with
  | None => Panic
  | Some (expert_id, gate_weight) =>
    let r := mkRouteEntry (t mod 2 ^ 32) expert_id gate_weight in
    let o := row_descriptor_bytes + (t * topk + k) * ROUTE_ENTRY_LEN in
    body ← put_slice body o (route_entry_wire r naive);
    Ok (body, route_list ++ [r])
  end.

(** One pass of [for t in 0..rows]. *)
Definition meta_rows (request_id : Z) (routes : list (Z * Z)) (topk row_descriptor_bytes : Z)
    (naive : WireNaive) (st : list Z * list RowDescriptor * list RouteEntry) (t : Z)
    : outcome WireError (list Z * list RowDescriptor * list RouteEntry) :=
  let '(body, row_list, route_list) := st in
  let row := meta_row request_id topk t in
  body ← put_slice body (t * ROW_DESCRIPTOR_LEN) (row_descriptor_wire row naive);
  '(body, route_list) ← fold_try (meta_route routes topk row_descriptor_bytes t naive)
    (body, route_list) (seqZ 0 topk);
  Ok (body, row_list ++ [row], route_list).

(** Returns [((header, hidden_offset, body_len), body)]: [body] is the caller's
    buffer after the call. *)
Definition encode_request_meta_into (body : list Z) (request_id layer_id executor_id seq : Z)
    (routes : list (Z * Z)) (topk : Z) (naive : WireNaive)
    : outcome WireError (list Z * Z * Z * list Z) :=
  if (topk =? 0) || bool_decide (routes = []) || negb (Zlen routes mod topk =? 0)
  then Err (DimMismatch "routes" topk (Zlen routes))
  else
    let rows := Zlen routes / topk in
    let hidden_row := hidden_row_bytes naive in
    let row_bytes := request_row_bytes naive in
    row_descriptor_bytes ← checked_mul rows ROW_DESCRIPTOR_LEN "row_descriptor_bytes";
    route_bytes ← checked_mul (Zlen routes) ROUTE_ENTRY_LEN "route_bytes";
    payload_bytes ← checked_mul rows hidden_row "payload_bytes";
    logical_bytes ← checked_mul rows row_bytes "logical_payload_bytes";
    partial ← usize_add row_descriptor_bytes route_bytes;
    body_len ← usize_add partial payload_bytes;
    if Zlen body <? body_len then Err (TooShort body_len (Zlen body)) else
    '(body, row_list, route_list) ←
      fold_try (meta_rows request_id routes topk row_descriptor_bytes naive)
        (body, [], []) (seqZ 0 rows);
    validate_rows_routes row_list route_list ≫= fun _ =>
    header ← meta_header request_id layer_id executor_id seq rows (Zlen routes)
      row_descriptor_bytes route_bytes payload_bytes logical_bytes body_len naive;
    Ok (header, row_descriptor_bytes + route_bytes, body_len, body).

(** Returns [((header, routes_offset, hidden_offset, body_len), body)]. *)
Definition encode_request_desc_into (body : list Z) (request_id layer_id executor_id seq
    rows topk : Z) (naive : WireNaive)
    : outcome WireError (list Z * Z * Z * Z * list Z) :=
  if (rows =? 0) || (topk =? 0) || (topk >? TOPK)
  then Err (DimMismatch "rows/topk" TOPK topk)
  else
    let hidden_row := hidden_row_bytes naive in
    let row_bytes := request_row_bytes naive in
    routes ← checked_mul rows topk "route_count";
    row_descriptor_bytes ← checked_mul rows ROW_DESCRIPTOR_LEN "row_descriptor_bytes";
    route_bytes ← checked_mul routes ROUTE_ENTRY_LEN "route_bytes";
    payload_bytes ← checked_mul rows hidden_row "payload_bytes";
    logical_bytes ← checked_mul rows row_bytes "logical_payload_bytes";
    partial ← usize_add row_descriptor_bytes route_bytes;
    body_len ← usize_add partial payload_bytes;
    if Zlen body <? body_len then Err (TooShort body_len (Zlen body)) else
    body ← fold_try (fun body t =>
        put_slice body (t * ROW_DESCRIPTOR_LEN)
          (row_descriptor_wire (meta_row request_id topk t) naive))
      body (seqZ 0 rows);
    header ← meta_header request_id layer_id executor_id seq rows routes
      row_descriptor_bytes route_bytes payload_bytes logical_bytes body_len naive;
    Ok (header, row_descriptor_bytes, row_descriptor_bytes + route_bytes, body_len, body).

(** The geometry checks shared, in the same order and with the same errors, by
    [decode_request] and [RequestView::parse]; returns
    [(row_descriptor_bytes, route_bytes, body)]. *)
Definition request_geometry (h : HeaderFields) (bytes : list Z) (naive : WireNaive)
    : outcome WireError (Z * Z * list Z) :=
  if hf_row_count h =? 0 then Err (DimMismatch "row_count" 1 0) else
  let rows := hf_row_count h in
  let routes := hf_route_count h in
  row_descriptor_bytes ← checked_mul rows ROW_DESCRIPTOR_LEN "row_descriptor_bytes";
  route_bytes ← checked_mul routes ROUTE_ENTRY_LEN "route_bytes";
  if negb (hf_row_descriptor_bytes h =? row_descriptor_bytes)
  then Err (DimMismatch "row_descriptor_bytes" row_descriptor_bytes (hf_row_descriptor_bytes h))
  else if negb (hf_route_bytes h =? route_bytes)
  then Err (DimMismatch "route_bytes" route_bytes (hf_route_bytes h))
  else if negb (hf_dim h =? HIDDEN)
  then Err (DimMismatch "hidden_dim" HIDDEN (hf_dim h))
  else if negb (bool_decide (hf_dtype h = Fp8E4m3Ue8m0K32)
                || bool_decide (hf_dtype h = Fp8E4m3RowScaled))
  then Err (DimMismatch "request_payload_dtype" (Dtype_repr Fp8E4m3Ue8m0K32)
                        (Dtype_code (hf_dtype h) naive))
  else
  let stride := hf_row_stride_bytes h in
  if stride <? HIDDEN then Err (DimMismatch "row_stride_bytes" HIDDEN stride) else
  payload_bytes ← checked_mul rows stride "payload_bytes";
  if negb (hf_payload_bytes h =? payload_bytes)
  then Err (DimMismatch "payload_bytes" payload_bytes (hf_payload_bytes h))
  else
  body ← index_range bytes HEADER_LEN (Zlen bytes);
  partial ← usize_add row_descriptor_bytes route_bytes;
  total ← usize_add partial payload_bytes;
  if negb (Zlen body =? total) then Err (DimMismatch "body_len" total (Zlen body))
  else Ok (row_descriptor_bytes, route_bytes, body).

Definition decode_request (h : HeaderFields) (bytes : list Z) (naive : WireNaive)
    : outcome WireError RequestFrame :=
  '(row_descriptor_bytes, route_bytes, body) ← request_geometry h bytes naive;
  let rows := hf_row_count h in
  let routes := hf_route_count h in
  let stride := hf_row_stride_bytes h in
  rows_vec ← mapM (fun i =>
    row_descriptor_from_wire body (i * ROW_DESCRIPTOR_LEN) naive) (seqZ 0 rows);
  routes_vec ← mapM (fun j =>
    route_entry_from_wire body (row_descriptor_bytes + j * ROUTE_ENTRY_LEN) naive)
    (seqZ 0 routes);
  validate_rows_routes rows_vec routes_vec ≫= fun _ =>
  let hidden_base := row_descriptor_bytes + route_bytes in
  hidden_rows ← mapM (fun i =>
    let base := hidden_base + i * stride in
    payload ← index_range body base (base + HIDDEN);
    scales ← index_range body (base + HIDDEN) (base + stride);
    Ok (mkHiddenRow payload scales)) (seqZ 0 rows);
  Ok (mkRequestFrame (hf_request_id h) (hf_placement_version h) (hf_layer_id h)
        (hf_executor_id h) (hf_source_kind h) (hf_token_position h) (hf_flags h)
        (hf_seq h) rows_vec routes_vec hidden_rows).

(** ** [RequestView]: the request validated where it lies *)

Record RequestView := mkRequestView {
  rv_request_id : Z;
  rv_placement_version : Z;
  rv_layer_id : Z;
  rv_executor_id : Z;
  rv_source_kind : SourceKind;
  rv_token_position : Z;
  rv_flags : Z;
  rv_seq : Z;
  rv_rows : Z;
  rv_routes : Z;
  rv_row_stride : Z;
  rv_naive : WireNaive;
  rv_body : list Z;
  rv_route_base : Z;
  rv_hidden_base : Z;
}.

Definition RequestView_row (v : RequestView) (i : Z) : outcome WireError RowDescriptor :=
  row_descriptor_from_wire (rv_body v) (i * ROW_DESCRIPTOR_LEN) (rv_naive v).

Definition RequestView_route (v : RequestView) (j : Z) : outcome WireError RouteEntry :=
  route_entry_from_wire (rv_body v) (rv_route_base v + j * ROUTE_ENTRY_LEN) (rv_naive v).

Definition RequestView_hidden (v : RequestView) : outcome WireError (list Z) :=
  index_range (rv_body v) (rv_hidden_base v) (Zlen (rv_body v)).

Definition RequestView_parse (bytes : list Z) (naive : WireNaive)
    : outcome WireError RequestView :=
  h ← parse_header bytes naive;
  verify_crc bytes naive (hf_seq h) ≫= fun _ =>
  if negb (hf_kind h =? KIND_REQUEST) then Err (BadKind (hf_kind h)) else
  '(row_descriptor_bytes, route_bytes, body) ← request_geometry h bytes naive;
  let rows := hf_row_count h in
  let routes := hf_route_count h in
  let view := mkRequestView (hf_request_id h) (hf_placement_version h) (hf_layer_id h)
    (hf_executor_id h) (hf_source_kind h) (hf_token_position h) (hf_flags h) (hf_seq h)
    rows routes (hf_row_stride_bytes h) naive body
    row_descriptor_bytes (row_descriptor_bytes + route_bytes) in
  for_each (fun i =>
    row ← RequestView_row view i;
    if rd_route_offset row + rd_route_count row >? routes then Err (RouteRangeBad i)
    else Ok tt) (seqZ 0 rows) ≫= fun _ =>
  for_each (fun j =>
    r ← RequestView_route view j;
    if re_row_index r >=? rows
    then Err (RouteRowMismatch j (re_row_index r) (rows mod 2 ^ 32))
    else Ok tt) (seqZ 0 routes) ≫= fun _ =>
  Ok view.

(** * Return frames *)

Definition return_header (frame : ReturnFrame) (dtype : Dtype) (rows block payload_bytes
    wire_len seq : Z) (naive : WireNaive) : outcome WireError (list Z) :=
  row_count ← as_u32 rows "row_count";
  route_count ← as_u32 (rt_route_count frame) "route_count";
  row_stride ← as_u32 block "row_stride_bytes";
  Ok (write_header
    (mkHeaderFields KIND_RETURN (rt_request_id frame) (rt_placement_version frame)
       (rt_layer_id frame) row_count HIDDEN dtype Decode route_count 0 0
       payload_bytes payload_bytes wire_len (rt_flags frame) row_stride
       (rt_status frame) (rt_executor_id frame) (rt_token_position frame) seq) naive).

Definition return_header_seq (frame : ReturnFrame) (rows seq : Z) (naive : WireNaive)
    : outcome WireError (list Z) :=
  if rows =? 0 then Err (DimMismatch "rows" 1 0)
  else if rt_route_count frame =? 0 then Err (DimMismatch "route_count" 1 0)
  else if has naive PER_ROUTE_RETURN || has naive FP32_RETURN
  then Err (DimMismatch "in_place_return_dtype" 0 1)
  else
    let block := return_row_bytes (rt_route_count frame) naive in
    payload_bytes ← checked_mul rows block "payload_bytes";
    if HEADER_LEN + payload_bytes >=? 2 ^ 64
    then Err (DimMismatch "wire_bytes" 0 (2 ^ 64 - 1)) else
    return_header frame Bf16 rows block payload_bytes (HEADER_LEN + payload_bytes) seq naive.

Fixpoint check_return_rows (rows : list ReturnRow) : outcome WireError unit :=
  match rows with
  | [] => Ok tt
  | row :: rows =>
    if negb (Zlen (rr_codes row) =? HIDDEN)
    then Err (DimMismatch "return_row_codes" HIDDEN (Zlen (rr_codes row)))
    else check_return_rows rows
  end.

Definition codes_le (codes : list Z) : list Z := concat (le_bytes 2 <$> codes).

(** The body of one row: FP32 codes, per-route copies, or the BF16 codes. *)
Definition return_row_wire (fp32 per_route : bool) (route_count : Z) (row : ReturnRow)
    : list Z :=
  if fp32 then concat ((fun code => le_bytes 4 (bf16_to_f32 code)) <$> rr_codes row)
  else if per_route
  then concat (replicate (Z.to_nat route_count) (codes_le (rr_codes row)))
  else codes_le (rr_codes row).

Definition encode_return_seq (frame : ReturnFrame) (seq : Z) (naive : WireNaive)
    : outcome WireError (list Z) :=
  if bool_decide (rt_rows frame = []) then Err (DimMismatch "rows" 1 0)
  else if rt_route_count frame =? 0 then Err (DimMismatch "route_count" 1 0)
  else
    check_return_rows (rt_rows frame) ≫= fun _ =>
    let per_route := has naive PER_ROUTE_RETURN in
    let fp32 := negb per_route && has naive FP32_RETURN in
    let dtype := if fp32 then F32 else Bf16 in
    let block := return_row_bytes (rt_route_count frame) naive in
    let rows := Zlen (rt_rows frame) in
    payload_bytes ← checked_mul rows block "payload_bytes";
    if HEADER_LEN + payload_bytes >=? 2 ^ 64
    then Err (DimMismatch "wire_bytes" 0 (2 ^ 64 - 1)) else
    header ← return_header frame dtype rows block payload_bytes
      (HEADER_LEN + payload_bytes) seq naive;
    Ok (seal (header ++ concat (return_row_wire fp32 per_route (rt_route_count frame)
                                  <$> rt_rows frame)) naive).

Definition encode_return (frame : ReturnFrame) (naive : WireNaive)
    : outcome WireError (list Z) := encode_return_seq frame (rt_seq frame) naive.

(** [chunks_exact(2)] / [chunks_exact(4)] read as integers. *)
Fixpoint u16_chunks (l : list Z) : list Z :=
  match l with
  | a :: b :: l => le_val [a; b] :: u16_chunks l
  | _ => []
  end.

Fixpoint u32_chunks (l : list Z) : list Z :=
  match l with
  | a :: b :: c :: d :: l => le_val [a; b; c; d] :: u32_chunks l
  | _ => []
  end.

Definition decode_return_row (h : HeaderFields) (naive : WireNaive) (body : list Z) (i : Z)
    : outcome WireError ReturnRow :=
  let stride := hf_row_stride_bytes h in
  block ← index_range body (i * stride) ((i + 1) * stride);
  match hf_dtype h with
  | F32 =>
    if negb (stride =? HIDDEN * 4)
    then Err (DimMismatch "f32_row_stride" (HIDDEN * 4) stride)
    else Ok (mkReturnRow ((fun v => f32_to_bf16 v naive) <$> u32_chunks block))
  | Bf16 =>
    let unit_ := HIDDEN * 2 in
    if negb (stride mod unit_ =? 0)
    then Err (DimMismatch "bf16_row_stride" unit_ stride)
    else
      let copies := stride / unit_ in
      if negb (copies =? 1) && negb (copies =? hf_route_count h)
      then Err (DimMismatch "bf16_row_copies" 1 copies)
      else
        head ← index_range block 0 unit_;
        Ok (mkReturnRow (u16_chunks head))
  | other =>
    Err (DimMismatch "return_payload_dtype" (Dtype_repr Bf16) (Dtype_code other naive))
  end.

Definition decode_return (h : HeaderFields) (bytes : list Z) (naive : WireNaive)
    : outcome WireError ReturnFrame :=
  if bool_decide (hf_status h = StatusOk)
     && negb (Z.land (hf_flags h) FLAG_RETURN_REQUIRED =? FLAG_RETURN_REQUIRED)
  then Err (UnpresummedReturn (hf_flags h))
  else if hf_row_count h =? 0 then Err (DimMismatch "row_count" 1 0)
  else if negb (hf_dim h =? HIDDEN) then Err (DimMismatch "output_dim" HIDDEN (hf_dim h))
  else
    let rows := hf_row_count h in
    let stride := hf_row_stride_bytes h in
    payload_bytes ← checked_mul rows stride "payload_bytes";
    if negb (hf_payload_bytes h =? payload_bytes)
    then Err (DimMismatch "payload_bytes" payload_bytes (hf_payload_bytes h))
    else if negb (hf_row_descriptor_bytes h =? 0) || negb (hf_route_bytes h =? 0)
    then
      (* [(h.row_descriptor_bytes + h.route_bytes) as usize] is a u32 addition *)
      if hf_row_descriptor_bytes h + hf_route_bytes h <? 2 ^ 32
      then Err (DimMismatch "return_row_descriptor_bytes" 0
                  (hf_row_descriptor_bytes h + hf_route_bytes h))
      else Panic
    else
    body ← index_range bytes HEADER_LEN (Zlen bytes);
    if negb (Zlen body =? payload_bytes)
    then Err (DimMismatch "body_len" payload_bytes (Zlen body))
    else if hf_route_count h =? 0 then Err (DimMismatch "route_count" 1 0)
    else
    rows_vec ← mapM (decode_return_row h naive body) (seqZ 0 rows);
    Ok (mkReturnFrame (hf_request_id h) (hf_placement_version h) (hf_layer_id h)
          (hf_executor_id h) (hf_token_position h) (hf_status h) (hf_flags h)
          (hf_route_count h) (hf_seq h) rows_vec).

(** * Frame dispatch *)

Definition decode_frame (bytes : list Z) (naive : WireNaive) : outcome WireError Frame :=
  h ← parse_header bytes naive;
  verify_crc bytes naive (hf_seq h) ≫= fun _ =>
  if hf_kind h =? KIND_REQUEST then FrameRequest <$> decode_request h bytes naive
  else if hf_kind h =? KIND_RETURN then FrameReturn <$> decode_return h bytes naive
  else Err (BadKind (hf_kind h)).
End with_process.

#[export] Instance RowDescriptor_eq_dec : EqDecision RowDescriptor.
Proof. solve_decision. Defined.
#[export] Instance RouteEntry_eq_dec : EqDecision RouteEntry.
Proof. solve_decision. Defined.
#[export] Instance HiddenRow_eq_dec : EqDecision HiddenRow.
Proof. solve_decision. Defined.
#[export] Instance ReturnRow_eq_dec : EqDecision ReturnRow.
Proof. solve_decision. Defined.
