(* ===== verification/FrameProofs.v ===== *)
(** Theorems about the frame codec of [Frame.v]. *)
From Stdlib Require Import ZArith Lia Bool.
From stdpp Require Import base list gmap strings.
From S2P Require Import Prelude Layout Crc32c Bf16 Frame.

(** * Reading a header back *)

(** The ranges the Rust field types enforce. *)
Record wf_header (h : HeaderFields) : Prop := {
  wfh_kind : hf_kind h = KIND_REQUEST \/ hf_kind h = KIND_RETURN;
  wfh_request_id : u64_range (hf_request_id h);
  wfh_placement_version : u64_range (hf_placement_version h);
  wfh_layer_id : u32_range (hf_layer_id h);
  wfh_row_count : u32_range (hf_row_count h);
  wfh_dim : u32_range (hf_dim h);
  wfh_route_count : u32_range (hf_route_count h);
  wfh_row_descriptor_bytes : u32_range (hf_row_descriptor_bytes h);
  wfh_route_bytes : u32_range (hf_route_bytes h);
  wfh_payload_bytes : u64_range (hf_payload_bytes h);
  wfh_logical_payload_bytes : u64_range (hf_logical_payload_bytes h);
  wfh_wire_bytes : u64_range (hf_wire_bytes h);
  wfh_flags : u32_range (hf_flags h);
  wfh_row_stride_bytes : u32_range (hf_row_stride_bytes h);
  wfh_executor_id : u64_range (hf_executor_id h);
  wfh_token_position : u64_range (hf_token_position h);
  wfh_seq : u64_range (hf_seq h);
}.

(** The header as it goes on the wire, with [crc] in its checksum field. *)
Definition sealed_header (h : HeaderFields) (naive : WireNaive) (crc : Z) : list Z :=
  splice (write_header h naive) hdr_CRC32C (le_bytes 4 crc).

Lemma write_header_length h naive : Zlen (write_header h naive) = HEADER_LEN.
Proof. reflexivity. Qed.

Lemma sealed_header_length h naive crc : Zlen (sealed_header h naive crc) = HEADER_LEN.
Proof. reflexivity. Qed.

(** The same 128 bytes, field after field. *)
Definition header_layout (h : HeaderFields) (naive : WireNaive) (crc : Z) : list Z :=
  MAGIC ++ le_bytes 2 VERSION ++ le_bytes 2 (hf_kind h) ++ le_bytes 4 HEADER_LEN
  ++ le_bytes 8 (hf_request_id h) ++ le_bytes 8 (hf_placement_version h)
  ++ le_bytes 4 (hf_layer_id h) ++ le_bytes 4 (hf_row_count h) ++ le_bytes 4 (hf_dim h)
  ++ le_bytes 2 (Dtype_code (hf_dtype h) naive)
  ++ le_bytes 2 (SourceKind_code (hf_source_kind h))
  ++ le_bytes 4 (hf_route_count h) ++ le_bytes 4 (hf_row_descriptor_bytes h)
  ++ le_bytes 4 (hf_route_bytes h) ++ le_bytes 8 (hf_payload_bytes h)
  ++ le_bytes 8 (hf_logical_payload_bytes h) ++ le_bytes 8 (hf_wire_bytes h)
  ++ le_bytes 4 (hf_flags h) ++ le_bytes 4 (hf_row_stride_bytes h)
  ++ le_bytes 4 (Status_code (hf_status h)) ++ le_bytes 8 (hf_executor_id h)
  ++ le_bytes 8 (hf_token_position h) ++ le_bytes 8 (hf_seq h)
  ++ le_bytes 4 crc ++ [0; 0; 0; 0].

Lemma sealed_header_layout h naive crc : sealed_header h naive crc = header_layout h naive crc.
Proof. reflexivity. Qed.

Lemma get_le_app n hd rest at_ v :
  0 <= at_ -> 0 <= n -> at_ + n <= Zlen hd -> 
  slice hd at_ (at_ + n) = le_bytes (Z.to_nat n) v -> 0 <= v < 256 ^ n ->
  get_le n (hd ++ rest) at_ = Ok v.
Proof.
  intros Hat Hn Hlen Hslice Hv. unfold get_le.
  rewrite (proj2 (Z.leb_le _ _)) by (rewrite length_app; lia).
  rewrite slice_app_l by lia. rewrite Hslice, le_val_bytes by (rewrite Z2Nat.id; lia).
  done.
Qed.

(** Reads the field the goal is about to bind; [v] is what was written there. *)
Ltac read_field v :=
  lazymatch goal with
  | |- mbind _ (get_le ?n (header_layout ?h ?naive ?crc ++ ?rest) ?at_) = _ =>
    rewrite (get_le_app n (header_layout h naive crc) rest at_ v);
    [ cbn [mbind outcome_bind]
    | done | done | done | reflexivity
    | first [ done | match goal with H : wf_header h |- _ => apply H end | idtac ] ]
  end.

Lemma parse_header_sealed h naive crc rest :
  wf_header h -> hf_wire_bytes h = HEADER_LEN + Zlen rest ->
  parse_header (sealed_header h naive crc ++ rest) naive = Ok h.
Proof.
  intros Hwf Hwire.
  assert (Zlen (sealed_header h naive crc ++ rest) = HEADER_LEN + Zlen rest) as Hlen.
  { rewrite length_app, Nat2Z.inj_add, sealed_header_length. done. }
  rewrite sealed_header_layout in *. unfold parse_header. rewrite Hlen.
  destruct (Z.ltb_spec (HEADER_LEN + Zlen rest) HEADER_LEN) as [?|_]; [lia|].
  rewrite bool_decide_eq_true_2 by
    (rewrite slice_app_l by done; reflexivity).
  cbn [negb]. unfold get_u16, get_u32, get_u64.
  read_field VERSION. cbn [Z.eqb VERSION Pos.eqb negb].
  read_field (hf_kind h); [|destruct (wfh_kind h Hwf) as [-> | ->]; done].
  replace (negb (hf_kind h =? KIND_REQUEST) && negb (hf_kind h =? KIND_RETURN)) with false
    by (destruct (wfh_kind h Hwf) as [-> | ->]; done).
  read_field HEADER_LEN. cbn [HEADER_LEN Z.eqb Pos.eqb negb].
  read_field (hf_wire_bytes h). rewrite Hwire, Z.ltb_irrefl, Z.gtb_ltb, Z.ltb_irrefl.
  read_field (hf_request_id h). read_field (hf_placement_version h).
  read_field (hf_layer_id h). read_field (hf_row_count h). read_field (hf_dim h).
  read_field (Dtype_code (hf_dtype h) naive); [|apply Dtype_code_range].
  rewrite Dtype_from_to_code. cbn [mbind outcome_bind].
  read_field (SourceKind_code (hf_source_kind h)); [|apply SourceKind_code_range].
  rewrite SourceKind_from_to_code. cbn [mbind outcome_bind].
  read_field (hf_route_count h). read_field (hf_row_descriptor_bytes h).
  read_field (hf_route_bytes h). read_field (hf_payload_bytes h).
  read_field (hf_logical_payload_bytes h). read_field (hf_flags h).
  read_field (hf_row_stride_bytes h).
  read_field (Status_code (hf_status h)); [|apply Status_code_range].
  rewrite Status_from_to_code. cbn [mbind outcome_bind].
  read_field (hf_executor_id h). read_field (hf_token_position h). read_field (hf_seq h).
  rewrite <-Hwire. by destruct h.
Qed.

(** * Row descriptors and route entries *)

Definition wf_row (r : RowDescriptor) : Prop :=
  u64_range (rd_row_id r) /\ u64_range (rd_source_request_id r) /\
  u64_range (rd_token_position r) /\ u32_range (rd_route_offset r) /\
  u32_range (rd_route_count r).

Definition wf_route (r : RouteEntry) : Prop :=
  u32_range (re_row_index r) /\ u32_range (re_expert_id r) /\ u32_range (re_gate_weight r).

Lemma get_le_exact n l at_ v :
  0 <= at_ -> 0 <= n -> at_ + n <= Zlen l ->
  slice l at_ (at_ + n) = le_bytes (Z.to_nat n) v -> 0 <= v < 256 ^ n ->
  get_le n l at_ = Ok v.
Proof. intros. rewrite <-(app_nil_r l). by apply get_le_app. Qed.

Lemma get_range_middle {A} (pre m suf : list A) :
  get_range (pre ++ m ++ suf) (Zlen pre) (Zlen pre + Zlen m) = Some m.
Proof.
  unfold get_range. rewrite !(proj2 (Z.leb_le _ _)) by (rewrite ?length_app; lia).
  cbn [andb]. f_equal. rewrite slice_app_r, slice_app_l by lia.
  rewrite Z.sub_diag. apply slice_whole. lia.
Qed.

Lemma row_descriptor_length r naive : Zlen (row_descriptor_wire r naive) = ROW_DESCRIPTOR_LEN.
Proof. unfold row_descriptor_wire. by destruct (has naive DESC_FIELD_DRIFT). Qed.

Lemma route_entry_length r naive : Zlen (route_entry_wire r naive) = ROUTE_ENTRY_LEN.
Proof. unfold route_entry_wire. by destruct (has naive ROUTE_FIELD_SWAP). Qed.

(** Reads a field of a fixed-size record [l] written by the encoder. *)
Ltac read_exact v :=
  lazymatch goal with
  | |- mbind _ (get_le ?n ?l ?at_) = _ =>
    rewrite (get_le_exact n l at_ v);
    [ cbn [mbind outcome_bind] | done | done | done | reflexivity
    | first [ assumption | idtac ] ]
  end.

Lemma row_descriptor_roundtrip r naive pre suf :
  wf_row r ->
  row_descriptor_from_wire (pre ++ row_descriptor_wire r naive ++ suf) (Zlen pre) naive = Ok r.
Proof.
  intros (Hid & Hreq & Hpos & Hoff & Hcnt). unfold row_descriptor_from_wire.
  rewrite <-(row_descriptor_length r naive), get_range_middle.
  unfold row_descriptor_wire, get_u16, get_u32, get_u64.
  destruct (has naive DESC_FIELD_DRIFT).
  all: read_exact (rd_row_id r).
  all: read_exact (SourceKind_code (rd_source_kind r)); [|apply SourceKind_code_range].
  all: rewrite SourceKind_from_to_code; cbn [mbind outcome_bind].
  all: read_exact (rd_source_request_id r); read_exact (rd_token_position r).
  all: read_exact (rd_route_offset r); read_exact (rd_route_count r).
  all: by destruct r.
Qed.

Lemma route_entry_roundtrip r naive pre suf :
  wf_route r ->
  route_entry_from_wire (pre ++ route_entry_wire r naive ++ suf) (Zlen pre) naive = Ok r.
Proof.
  intros (Hi & He & Hg). unfold route_entry_from_wire.
  rewrite <-(route_entry_length r naive), get_range_middle.
  unfold route_entry_wire, get_u32, get_f32.
  destruct (has naive ROUTE_FIELD_SWAP).
  all: read_exact (re_row_index r); read_exact (re_expert_id r).
  all: read_exact (re_gate_weight r); by destruct r.
Qed.

#[export] Instance row_codec naive : FixedCodec WireError RowDescriptor := {
  fc_width := ROW_DESCRIPTOR_LEN;
  fc_wf := wf_row;
  fc_encode r := row_descriptor_wire r naive;
  fc_decode bytes at_ := row_descriptor_from_wire bytes at_ naive;
  fc_width_pos := eq_refl;
  fc_length r := row_descriptor_length r naive;
  fc_roundtrip r pre suf := row_descriptor_roundtrip r naive pre suf;
}.

#[export] Instance route_codec naive : FixedCodec WireError RouteEntry := {
  fc_width := ROUTE_ENTRY_LEN;
  fc_wf := wf_route;
  fc_encode r := route_entry_wire r naive;
  fc_decode bytes at_ := route_entry_from_wire bytes at_ naive;
  fc_width_pos := eq_refl;
  fc_length r := route_entry_length r naive;
  fc_roundtrip r pre suf := route_entry_roundtrip r naive pre suf;
}.

(** * What the encoder checks *)

Lemma validate_rows_Ok i rows n :
  validate_rows i rows n = Ok tt <->
  Forall (fun r => rd_route_offset r + rd_route_count r <= n) rows.
Proof.
  revert i; induction rows as [|r rows IH]; intros i; [done|].
  cbn [validate_rows]. rewrite Forall_cons, <-(IH (i + 1)).
  destruct (Z.gtb_spec (rd_route_offset r + rd_route_count r) n); intuition (lia || congruence).
Qed.

Lemma validate_routes_Ok j routes n :
  validate_routes j routes n = Ok tt <-> Forall (fun r => re_row_index r < n) routes.
Proof.
  revert j; induction routes as [|r routes IH]; intros j; [done|].
  cbn [validate_routes]. rewrite Forall_cons, <-(IH (j + 1)).
  destruct (Z.geb_spec (re_row_index r) n); intuition (lia || congruence).
Qed.

Lemma validate_rows_routes_Ok rows routes :
  validate_rows_routes rows routes = Ok tt <->
  Forall (fun r => rd_route_offset r + rd_route_count r <= Zlen routes) rows /\
  Forall (fun r => re_row_index r < Zlen rows) routes.
Proof.
  unfold validate_rows_routes. rewrite bind_Ok, <-(validate_rows_Ok 0), <-(validate_routes_Ok 0).
  split; [intros ([] & ? & ?); done|]. intros [? ?]. by exists tt.
Qed.

Lemma check_hidden_rows_Ok hs n :
  check_hidden_rows hs n = Ok tt <->
  Forall (fun h => Zlen (hr_payload h) = HIDDEN /\ Zlen (hr_scales h) = n) hs.
Proof.
  induction hs as [|h hs IH]; [done|]. cbn [check_hidden_rows]. rewrite Forall_cons, <-IH.
  destruct (Z.eqb_spec (Zlen (hr_payload h)) HIDDEN), (Z.eqb_spec (Zlen (hr_scales h)) n);
    cbn [negb]; intuition congruence.
Qed.

(** * Sealing *)

Lemma replicate_ok n : bytes_ok (replicate n 0).
Proof. apply Forall_replicate. unfold is_byte. lia. Qed.

Lemma write_header_ok h naive : bytes_ok (write_header h naive).
Proof.
  unfold write_header, put_u16, put_u32, put_u64.
  repeat (apply bytes_ok_splice; [|apply le_bytes_ok]).
  apply bytes_ok_splice; [apply replicate_ok|].
  repeat constructor; unfold is_byte; lia.
Qed.

Lemma row_descriptor_ok r naive : bytes_ok (row_descriptor_wire r naive).
Proof.
  unfold row_descriptor_wire, put_u16, put_u32, put_u64.
  destruct (has naive DESC_FIELD_DRIFT);
    repeat (apply bytes_ok_splice; [|apply le_bytes_ok]); apply replicate_ok.
Qed.

Lemma route_entry_ok r naive : bytes_ok (route_entry_wire r naive).
Proof.
  unfold route_entry_wire, put_u32.
  destruct (has naive ROUTE_FIELD_SWAP);
    repeat (apply bytes_ok_splice; [|apply le_bytes_ok]); apply replicate_ok.
Qed.

Lemma bytes_ok_concat {A} (f : A -> list Z) l :
  Forall (fun x => bytes_ok (f x)) l -> bytes_ok (concat (f <$> l)).
Proof. induction 1; [constructor|]. cbn. by apply Forall_app_2. Qed.

#[export] Hint Resolve write_header_ok row_descriptor_ok route_entry_ok bytes_ok_slice
  bytes_ok_splice le_bytes_ok Forall_app_2 : wire.

Lemma compute_crc_range cpu bytes naive :
  bytes_ok bytes -> HEADER_LEN <= Zlen bytes -> u32_range (compute_crc cpu bytes naive).
Proof.
  intros Hb Hlen. unfold compute_crc. destruct (has naive CRC_HEADER_EXEMPT).
  - apply crc32c_with_range. auto with wire.
  - unfold HEADER_LEN in Hlen. rewrite crc32c_zeroed_splice by (unfold hdr_CRC32C; done || lia).
    apply crc32c_with_range, bytes_ok_splice; [done|].
    repeat constructor; unfold is_byte; lia.
Qed.

(** The checksum does not read the checksum field. *)
Lemma compute_crc_splice cpu bytes naive k :
  HEADER_LEN <= Zlen bytes -> length k = 4%nat ->
  compute_crc cpu (splice bytes hdr_CRC32C k) naive = compute_crc cpu bytes naive.
Proof.
  unfold HEADER_LEN. intros Hlen Hk.
  assert (Zlen (splice bytes hdr_CRC32C k) = Zlen bytes) as Hl
    by (rewrite splice_length; unfold hdr_CRC32C; lia).
  unfold compute_crc, crc32c_zeroed, HEADER_LEN. rewrite Hl.
  unfold hdr_CRC32C in *. destruct (has naive CRC_HEADER_EXEMPT).
  - by rewrite slice_splice_after by lia.
  - by rewrite slice_splice_before, slice_splice_after by lia.
Qed.

Lemma verify_crc_seal cpu nocrc bytes naive seq :
  bytes_ok bytes -> HEADER_LEN <= Zlen bytes ->
  verify_crc cpu nocrc (seal cpu nocrc bytes naive) naive seq = Ok tt.
Proof.
  intros Hb Hlen. unfold verify_crc, seal.
  destruct (has naive CRC_UNCHECKED); [done|]. destruct nocrc; [done|].
  assert (u32_range (compute_crc cpu bytes naive)) as Hr by by apply compute_crc_range.
  rewrite compute_crc_splice by (done || apply le_bytes_length).
  unfold HEADER_LEN in Hlen. unfold get_u32.
  rewrite (get_le_exact 4 _ _ (compute_crc cpu bytes naive)); [|done|done| | |done].
  - cbn [mbind outcome_bind]. by rewrite Z.eqb_refl.
  - rewrite splice_length; rewrite ?le_bytes_length; unfold hdr_CRC32C; lia.
  - rewrite slice_splice_same; rewrite ?le_bytes_length; unfold hdr_CRC32C; lia || done.
Qed.

Lemma seal_length cpu nocrc bytes naive :
  HEADER_LEN <= Zlen bytes -> Zlen (seal cpu nocrc bytes naive) = Zlen bytes.
Proof.
  intros Hlen. unfold seal. destruct nocrc; [done|].
  rewrite splice_length; rewrite ?le_bytes_length; unfold hdr_CRC32C, HEADER_LEN in *; lia.
Qed.

Lemma seal_ok cpu nocrc bytes naive : bytes_ok bytes -> bytes_ok (seal cpu nocrc bytes naive).
Proof. intros. unfold seal. destruct nocrc; auto with wire. Qed.

(** A sealed frame is its header with some checksum, then its body. *)
Lemma seal_header cpu nocrc h naive rest :
  bytes_ok rest ->
  exists crc, u32_range crc /\
    seal cpu nocrc (write_header h naive ++ rest) naive = sealed_header h naive crc ++ rest.
Proof.
  intros Hb. unfold seal. destruct nocrc.
  - exists 0. split; [by unfold u32_range|]. reflexivity.
  - exists (compute_crc cpu (write_header h naive ++ rest) naive). split.
    + apply compute_crc_range; [apply Forall_app_2; [apply write_header_ok|done]|].
      rewrite length_app, Nat2Z.inj_add, write_header_length. lia.
    + unfold sealed_header. rewrite splice_app_l; [done|done|].
      rewrite write_header_length, le_bytes_length. unfold hdr_CRC32C, HEADER_LEN. lia.
Qed.

(** A request frame the encoder accepts. *)
Record wf_request (f : RequestFrame) (naive : WireNaive) : Prop := {
  wfq_request_id : u64_range (rq_request_id f);
  wfq_placement_version : u64_range (rq_placement_version f);
  wfq_layer_id : u32_range (rq_layer_id f);
  wfq_executor_id : u64_range (rq_executor_id f);
  wfq_token_position : u64_range (rq_token_position f);
  wfq_flags : u32_range (rq_flags f);
  wfq_seq : u64_range (rq_seq f);
  wfq_rows : Forall wf_row (rq_rows f);
  wfq_routes : Forall wf_route (rq_routes f);
  wfq_hidden : Forall (fun h => Zlen (hr_payload h) = HIDDEN /\
      Zlen (hr_scales h) = hidden_row_bytes naive - HIDDEN) (rq_hidden_rows f);
  wfq_hidden_bytes : Forall (fun h => bytes_ok (hr_payload h) /\ bytes_ok (hr_scales h))
      (rq_hidden_rows f);
  wfq_hidden_len : length (rq_hidden_rows f) = length (rq_rows f);
  wfq_nonempty : rq_rows f <> [];
  wfq_row_routes : Forall (fun r => rd_route_offset r + rd_route_count r
      <= Zlen (rq_routes f)) (rq_rows f);
  wfq_route_rows : Forall (fun r => re_row_index r < Zlen (rq_rows f)) (rq_routes f);
  wfq_rows_fit : Zlen (rq_rows f) * ROW_DESCRIPTOR_LEN < 2 ^ 32;
  wfq_routes_fit : Zlen (rq_routes f) * ROUTE_ENTRY_LEN < 2 ^ 32;
}.

(** The header and body [encode_request_seq] seals. *)
Definition request_header (f : RequestFrame) (naive : WireNaive) : HeaderFields :=
  let rows := Zlen (rq_rows f) in
  let routes := Zlen (rq_routes f) in
  mkHeaderFields KIND_REQUEST (rq_request_id f) (rq_placement_version f) (rq_layer_id f)
    rows HIDDEN (request_dtype naive) (rq_source_kind f) routes
    (rows * ROW_DESCRIPTOR_LEN) (routes * ROUTE_ENTRY_LEN)
    (rows * hidden_row_bytes naive) (rows * request_row_bytes naive)
    (HEADER_LEN + (rows * ROW_DESCRIPTOR_LEN + routes * ROUTE_ENTRY_LEN
                   + rows * hidden_row_bytes naive))
    (rq_flags f) (hidden_row_bytes naive) StatusOk (rq_executor_id f)
    (rq_token_position f) (rq_seq f).

Definition hidden_wire (h : HiddenRow) : list Z := hr_payload h ++ hr_scales h.

Definition request_body (f : RequestFrame) (naive : WireNaive) : list Z :=
  concat ((fun row => row_descriptor_wire row naive) <$> rq_rows f)
  ++ concat ((fun r => route_entry_wire r naive) <$> rq_routes f)
  ++ concat (hidden_wire <$> rq_hidden_rows f).

(** Lengths of the constants, as [lia] needs them. *)
Ltac layout_consts :=
  unfold request_row_bytes, HEADER_LEN, ROW_DESCRIPTOR_LEN, ROUTE_ENTRY_LEN, HIDDEN, TOPK in *.

Section request_proofs.
Context (naive : WireNaive) (f : RequestFrame) (Hwf : wf_request f naive).

Lemma request_sizes :
  0 < Zlen (rq_rows f) < 2 ^ 27 /\ 0 <= Zlen (rq_routes f) < 2 ^ 29 /\
  0 < hidden_row_bytes naive < 2 ^ 13 /\ HIDDEN < hidden_row_bytes naive.
Proof.
  pose proof (wfq_rows_fit _ _ Hwf). pose proof (wfq_routes_fit _ _ Hwf).
  pose proof (wfq_nonempty _ _ Hwf).
  assert (length (rq_rows f) <> O) by (by intros ?%length_zero_iff_nil).
  layout_consts. destruct (hidden_row_bytes_cases naive) as [-> | [-> | ->]]; lia.
Qed.

Lemma request_header_wf : wf_header (request_header f naive).
Proof.
  pose proof request_sizes as (H1 & H2 & H3 & H4). destruct Hwf.
  assert (0 <= Zlen (rq_rows f) * hidden_row_bytes naive < 2 ^ 27 * 2 ^ 13) by nia.
  constructor; cbn; first [by left | assumption | unfold u32_range, u64_range].
  all: layout_consts; lia.
Qed.

Lemma hidden_concat_length hs n :
  Forall (fun h => Zlen (hr_payload h) = HIDDEN /\ Zlen (hr_scales h) = n) hs ->
  Zlen (concat (hidden_wire <$> hs)) = Zlen hs * (HIDDEN + n).
Proof.
  induction 1 as [|h hs [Hp Hs] _ IH]; [done|].
  cbn [fmap list_fmap concat]. unfold hidden_wire at 1.
  rewrite !length_app, !Nat2Z.inj_add, IH, Hp, Hs. cbn [length]. lia.
Qed.

Lemma request_body_length :
  Zlen (request_body f naive) =
  Zlen (rq_rows f) * ROW_DESCRIPTOR_LEN + Zlen (rq_routes f) * ROUTE_ENTRY_LEN
  + Zlen (rq_rows f) * hidden_row_bytes naive.
Proof.
  unfold request_body. rewrite !length_app, !Nat2Z.inj_add.
  pose proof (concat_fixed_length (FixedCodec0 := row_codec naive) (rq_rows f)) as Hr.
  pose proof (concat_fixed_length (FixedCodec0 := route_codec naive) (rq_routes f)) as He.
  cbn [fc_encode fc_width row_codec route_codec] in Hr, He. rewrite Hr, He.
  rewrite (hidden_concat_length _ _ (wfq_hidden _ _ Hwf)), (wfq_hidden_len _ _ Hwf).
  lia.
Qed.

Lemma encode_request_wire cpu nocrc :
  encode_request cpu nocrc f naive =
  Ok (seal cpu nocrc (write_header (request_header f naive) naive ++ request_body f naive) naive).
Proof.
  pose proof request_sizes as (H1 & H2 & H3 & H4).
  unfold encode_request, encode_request_seq.
  rewrite bool_decide_eq_false_2 by apply (wfq_nonempty _ _ Hwf).
  rewrite (wfq_hidden_len _ _ Hwf), Z.eqb_refl. cbn [negb].
  rewrite (proj2 (validate_rows_routes_Ok _ _))
    by (split; [apply (wfq_row_routes _ _ Hwf)|apply (wfq_route_rows _ _ Hwf)]).
  cbn [mbind outcome_bind].
  rewrite (proj2 (check_hidden_rows_Ok _ _)) by apply (wfq_hidden _ _ Hwf).
  cbn [mbind outcome_bind].
  assert (0 <= Zlen (rq_rows f) * hidden_row_bytes naive < 2 ^ 40) by nia.
  pose proof (wfq_rows_fit _ _ Hwf). pose proof (wfq_routes_fit _ _ Hwf).
  unfold checked_mul, usize_add, as_u32.
  repeat (match goal with
    | |- context [?a <? ?b] => rewrite (proj2 (Z.ltb_lt a b)) by (layout_consts; lia)
    | |- context [?a >=? ?b] => rewrite (Z.geb_leb a b), (proj2 (Z.leb_gt b a)) by (layout_consts; lia)
    end; cbn [mbind outcome_bind]).
  unfold request_header, request_body. do 5 f_equal.
Qed.

Lemma request_geometry_sealed hdr :
  Zlen hdr = HEADER_LEN ->
  request_geometry (request_header f naive) (hdr ++ request_body f naive) naive =
  Ok (Zlen (rq_rows f) * ROW_DESCRIPTOR_LEN, Zlen (rq_routes f) * ROUTE_ENTRY_LEN,
      request_body f naive).
Proof.
  intros Hhdr. pose proof request_sizes as (H1 & H2 & H3 & H4).
  pose proof request_body_length as Hbody.
  assert (0 <= Zlen (rq_rows f) * hidden_row_bytes naive < 2 ^ 40) by nia.
  pose proof (wfq_rows_fit _ _ Hwf). pose proof (wfq_routes_fit _ _ Hwf).
  unfold request_geometry, checked_mul, usize_add. cbn [request_header hf_row_count
    hf_route_count hf_row_descriptor_bytes hf_route_bytes hf_dim hf_dtype hf_row_stride_bytes
    hf_payload_bytes].
  rewrite (proj2 (Z.eqb_neq (Zlen (rq_rows f)) 0)) by lia.
  rewrite index_range_Ok by (rewrite ?length_app; layout_consts; lia).
  rewrite slice_app_r, Hhdr, length_app, Nat2Z.inj_add, Hhdr by (rewrite Hhdr; lia).
  rewrite slice_whole by lia.
  repeat (match goal with
    | |- context [?a <? ?b] => rewrite (proj2 (Z.ltb_lt a b)) by (layout_consts; lia)
    | |- context [?a <? ?b] => rewrite (proj2 (Z.ltb_ge a b)) by (layout_consts; lia)
    | |- context [?a =? ?a] => rewrite (Z.eqb_refl a)
    end; cbn [mbind outcome_bind negb]).
  replace (negb _) with false by (unfold request_dtype; by destruct (has naive ROW_SCALED_DTYPE)).
  repeat (match goal with
    | |- context [?a <? ?b] => rewrite (proj2 (Z.ltb_lt a b)) by (layout_consts; lia)
    | |- context [?a <? ?b] => rewrite (proj2 (Z.ltb_ge a b)) by (layout_consts; lia)
    | |- context [?a =? ?a] => rewrite (Z.eqb_refl a)
    end; cbn [mbind outcome_bind negb]).
  by rewrite Hbody, Z.eqb_refl.
Qed.

Lemma hidden_rows_decode pre :
  let base := Zlen pre in
  let stride := hidden_row_bytes naive in
  let body := pre ++ concat (hidden_wire <$> rq_hidden_rows f) in
  mapM (fun i =>
      payload ← index_range body (base + i * stride) (base + i * stride + HIDDEN);
      scales ← index_range body (base + i * stride + HIDDEN) (base + i * stride + stride);
      Ok (E := WireError) (mkHiddenRow payload scales)) (seqZ 0 (Zlen (rq_rows f)))
  = Ok (rq_hidden_rows f).
Proof.
  intros base stride body. pose proof request_sizes as (H1 & H2 & H3 & H4).
  rewrite <-(wfq_hidden_len _ _ Hwf).
  apply mapM_Ok_iff, Forall2_same_length_lookup_2; [rewrite length_seqZ; lia|].
  intros i z h Hz Hh. apply lookup_seqZ in Hz as [-> _]. rewrite Z.add_0_l.
  pose proof (Forall_lookup_1 _ _ _ _ (wfq_hidden _ _ Hwf) Hh) as [Hp Hs]. cbn beta in Hp, Hs.
  destruct (slice_concat_uniform (hidden_wire <$> rq_hidden_rows f) stride pre [] i
    (hidden_wire h) (base + Z.of_nat i * stride) (base + Z.of_nat i * stride + stride))
    as [Hrow Hin]; [| |done|done|].
  { apply Forall_fmap. eapply Forall_impl; [apply (wfq_hidden _ _ Hwf)|].
    intros x [Hx1 Hx2]. unfold hidden_wire. cbn. rewrite length_app. lia. }
  { by rewrite list_lookup_fmap, Hh. }
  rewrite app_nil_r in Hrow, Hin. fold body in Hrow, Hin.
  set (a := base + Z.of_nat i * stride) in *.
  assert (0 <= a) by (unfold a, base; nia).
  rewrite !index_range_Ok by (unfold stride, HIDDEN in *; lia). cbn [mbind outcome_bind].
  pose proof (slice_slice body a (a + stride) 0 HIDDEN) as E1.
  pose proof (slice_slice body a (a + stride) HIDDEN stride) as E2.
  rewrite Hrow, Z.add_0_r in *. rewrite <-E1, <-E2 by (unfold stride, HIDDEN in *; lia).
  unfold hidden_wire. rewrite slice_app_l, slice_whole by (unfold HIDDEN in *; lia).
  rewrite slice_app_r by lia. rewrite Hp, Z.sub_diag, slice_whole by (unfold stride; lia).
  by destruct h.
Qed.

Lemma decode_request_sealed hdr :
  Zlen hdr = HEADER_LEN ->
  decode_request (request_header f naive) (hdr ++ request_body f naive) naive = Ok f.
Proof.
  intros Hhdr. unfold decode_request. rewrite (request_geometry_sealed hdr Hhdr).
  cbn [mbind outcome_bind request_header hf_row_count hf_route_count hf_row_stride_bytes].
  rewrite (chunks_decode (FixedCodec0 := row_codec naive) (rq_rows f) []
    (concat ((fun r => route_entry_wire r naive) <$> rq_routes f)
      ++ concat (hidden_wire <$> rq_hidden_rows f)));
    [|apply (wfq_rows _ _ Hwf)|done].
  cbn [mbind outcome_bind].
  pose proof (concat_fixed_length (FixedCodec0 := row_codec naive) (rq_rows f)) as Hr.
  pose proof (concat_fixed_length (FixedCodec0 := route_codec naive) (rq_routes f)) as He.
  cbn [fc_encode fc_width row_codec route_codec] in Hr, He.
  rewrite (chunks_decode (FixedCodec0 := route_codec naive) (rq_routes f)
    (concat ((fun row => row_descriptor_wire row naive) <$> rq_rows f))
    (concat (hidden_wire <$> rq_hidden_rows f)));
    [|apply (wfq_routes _ _ Hwf)|intros i; by rewrite <-Hr].
  cbn [mbind outcome_bind].
  rewrite (proj2 (validate_rows_routes_Ok _ _))
    by (split; [apply (wfq_row_routes _ _ Hwf)|apply (wfq_route_rows _ _ Hwf)]).
  cbn [mbind outcome_bind].
  pose proof (hidden_rows_decode (concat ((fun row => row_descriptor_wire row naive) <$> rq_rows f)
    ++ concat ((fun r => route_entry_wire r naive) <$> rq_routes f))) as Hh.
  cbn zeta in Hh. rewrite length_app, Nat2Z.inj_add, Hr, He, <-app_assoc in Hh.
  unfold request_body in *. rewrite Hh. cbn [mbind outcome_bind]. by destruct f.
Qed.

Lemma request_body_ok : bytes_ok (request_body f naive).
Proof.
  unfold request_body. repeat apply Forall_app_2.
  - apply bytes_ok_concat, Forall_forall. intros ? _. apply row_descriptor_ok.
  - apply bytes_ok_concat, Forall_forall. intros ? _. apply route_entry_ok.
  - apply bytes_ok_concat. eapply Forall_impl; [apply (wfq_hidden_bytes _ _ Hwf)|].
    intros h []. by apply Forall_app_2.
Qed.

(** Everything the round trip needs, for any sealing outcome. *)
Lemma decode_encoded_request cpu nocrc :
  decode_frame cpu nocrc
    (seal cpu nocrc (write_header (request_header f naive) naive ++ request_body f naive) naive)
    naive = Ok (FrameRequest f).
Proof.
  pose proof request_body_ok as Hok. pose proof request_body_length as Hlen.
  pose proof request_header_wf as Hh.
  unfold decode_frame.
  destruct (seal_header cpu nocrc (request_header f naive) naive _ Hok) as (crc & _ & Hseal).
  rewrite Hseal at 1. rewrite (parse_header_sealed _ _ _ _ Hh).
  2:{ rewrite Hlen. cbn. lia. }
  cbn [mbind outcome_bind].
  rewrite verify_crc_seal; [|by apply Forall_app_2; [apply write_header_ok|]|].
  2:{ rewrite length_app, Nat2Z.inj_add, write_header_length. lia. }
  cbn [mbind outcome_bind]. rewrite Hseal.
  cbn [request_header hf_kind Z.eqb KIND_REQUEST Pos.eqb].
  rewrite decode_request_sealed; [done|]. apply sealed_header_length.
Qed.
End request_proofs.

(** * Return frames *)

(** A return frame a process can hold: its fields are of their machine types, and the frame
    it asks for is no longer than a [Vec] can be. *)
Record machine_return (f : ReturnFrame) (naive : WireNaive) : Prop := {
  mr_request_id : u64_range (rt_request_id f);
  mr_placement_version : u64_range (rt_placement_version f);
  mr_layer_id : u32_range (rt_layer_id f);
  mr_executor_id : u64_range (rt_executor_id f);
  mr_token_position : u64_range (rt_token_position f);
  mr_flags : u32_range (rt_flags f);
  mr_route_count : u64_range (rt_route_count f);
  mr_seq : u64_range (rt_seq f);
  mr_codes : Forall (fun r => Forall u16_range (rr_codes r)) (rt_rows f);
  mr_frame_fits :
    HEADER_LEN + Zlen (rt_rows f) * return_row_bytes (rt_route_count f) naive < 2 ^ 63;
}.

(** What [encode_return] checks, and nothing else. *)
Record encodable (f : ReturnFrame) (naive : WireNaive) : Prop := {
  en_nonempty : rt_rows f <> [];
  en_route_count : 0 < rt_route_count f < 2 ^ 32;
  en_codes : Forall (fun r => Zlen (rr_codes r) = HIDDEN) (rt_rows f);
  en_rows : Zlen (rt_rows f) < 2 ^ 32;
  en_block : return_row_bytes (rt_route_count f) naive < 2 ^ 32;
}.

Definition return_is_fp32 (naive : WireNaive) : bool :=
  negb (has naive PER_ROUTE_RETURN) && has naive FP32_RETURN.

(** What a code is after the trip: an FP32 return rounds it back, which collapses the payload
    of a NaN, unless it truncates. *)
Definition kept_code (naive : WireNaive) (code : Z) : Z :=
  if return_is_fp32 naive && negb (has naive BF16_TRUNCATE) && (0x7F80 <? code mod 2 ^ 15)
  then Z.lor (Z.land code 0x8000) 0x7FFF
  else code.

Definition kept_row (naive : WireNaive) (row : ReturnRow) : ReturnRow :=
  mkReturnRow (kept_code naive <$> rr_codes row).

Definition kept_return (f : ReturnFrame) (naive : WireNaive) : ReturnFrame :=
  mkReturnFrame (rt_request_id f) (rt_placement_version f) (rt_layer_id f) (rt_executor_id f)
    (rt_token_position f) (rt_status f) (rt_flags f) (rt_route_count f) (rt_seq f)
    (kept_row naive <$> rt_rows f).

(** The flags of a return are those of a compact sum, or its status is an error. *)
Definition presummed (f : ReturnFrame) : bool :=
  negb (bool_decide (rt_status f = StatusOk))
  || (Z.land (rt_flags f) FLAG_RETURN_REQUIRED =? FLAG_RETURN_REQUIRED).

(** What the decoder makes of an encoded return. *)
Definition decoded_return (f : ReturnFrame) (naive : WireNaive) : outcome WireError Frame :=
  if presummed f then Ok (FrameReturn (kept_return f naive))
  else Err (UnpresummedReturn (rt_flags f)).

(** A return that comes back as it was: presummed, and with no NaN that the trip rewrites. *)
Record wf_return (f : ReturnFrame) (naive : WireNaive) : Prop := {
  wfr_machine : machine_return f naive;
  wfr_encodable : encodable f naive;
  wfr_presummed : presummed f = true;
  wfr_kept : Forall (fun r => Forall (fun c => kept_code naive c = c) (rr_codes r)) (rt_rows f);
}.

Lemma wf_return_decoded f naive : wf_return f naive -> decoded_return f naive = Ok (FrameReturn f).
Proof.
  intros [_ _ Hp Hk]. unfold decoded_return, kept_return. rewrite Hp. do 2 f_equal.
  assert (kept_row naive <$> rt_rows f = rt_rows f) as ->; [|by destruct f].
  rewrite <-(list_fmap_id (rt_rows f)) at 2. apply list_fmap_ext. intros i r Hr.
  pose proof (Forall_lookup_1 _ _ _ _ Hk Hr) as Hc. destruct r as [codes]. unfold kept_row. cbn in *. f_equal.
  rewrite <-(list_fmap_id codes) at 2. apply list_fmap_ext. intros j c Hj. cbn.
  exact (Forall_lookup_1 _ _ _ _ Hc Hj).
Qed.

(** The ordinary wire rewrites no code. *)
Lemma kept_compact naive code : return_is_fp32 naive = false -> kept_code naive code = code.
Proof. intros H. unfold kept_code. by rewrite H. Qed.

Lemma codes_le_length cs : Zlen (codes_le cs) = 2 * Zlen cs.
Proof.
  unfold codes_le. rewrite (concat_uniform_length _ 2); [rewrite length_fmap; lia|].
  apply Forall_fmap, Forall_forall. intros c _. unfold compose. by rewrite le_bytes_length.
Qed.

Lemma u16_chunks_codes cs : Forall u16_range cs -> u16_chunks (codes_le cs) = cs.
Proof.
  induction 1 as [|c cs Hc _ IH]; [done|].
  change (codes_le (c :: cs)) with (le_bytes 2 c ++ codes_le cs).
  cbn [le_bytes app u16_chunks]. rewrite IH. f_equal. by apply (le_val_bytes 2).
Qed.

Lemma u32_chunks_codes (vs : list Z) :
  Forall u32_range vs -> u32_chunks (concat (le_bytes 4 <$> vs)) = vs.
Proof.
  induction 1 as [|c cs Hc _ IH]; [done|].
  change (concat (le_bytes 4 <$> c :: cs)) with (le_bytes 4 c ++ concat (le_bytes 4 <$> cs)).
  set (tail := concat _) in *. cbn [le_bytes app u32_chunks]. rewrite IH. f_equal.
  by apply (le_val_bytes 4).
Qed.

Lemma bf16_to_f32_range c : u16_range c -> u32_range (bf16_to_f32 c).
Proof. unfold bf16_to_f32. rewrite Z.shiftl_mul_pow2 by lia. width. Qed.

Lemma f32_to_bf16_back c naive :
  u16_range c -> return_is_fp32 naive = true ->
  f32_to_bf16 (bf16_to_f32 c) naive = kept_code naive c.
Proof.
  intros Hc Hfp. unfold f32_to_bf16, kept_code. rewrite Hfp. cbn [andb].
  assert (Z.shiftr (bf16_to_f32 c) 16 = c) as Hback.
  { unfold bf16_to_f32. rewrite Z.shiftr_shiftl_l by lia. by rewrite Z.sub_diag, Z.shiftl_0_r. }
  destruct (has naive BF16_TRUNCATE); [done|]. cbn [negb andb].
  destruct (Z.ltb_spec 0x7F80 (c mod 2 ^ 15)) as [Hnan|Hle]; [|by apply bf16_roundtrip_lemma].
  unfold f32_to_bf16_rne. rewrite Hback.
  change 0x7FFFFFFF with (Z.ones 31). rewrite land_ones_mod by lia.
  assert (bf16_to_f32 c mod 2 ^ 31 = (c mod 2 ^ 15) * 2 ^ 16) as ->.
  { unfold bf16_to_f32. rewrite Z.shiftl_mul_pow2 by lia.
    change (2 ^ 31) with (2 ^ 15 * 2 ^ 16). by rewrite Z.mul_mod_distr_r. }
  by destruct (Z.gtb_spec (c mod 2 ^ 15 * 2 ^ 16) 0x7F800000); [|lia].
Qed.

Definition return_dtype (naive : WireNaive) : Dtype :=
  if return_is_fp32 naive then F32 else Bf16.

Definition return_fields (f : ReturnFrame) (naive : WireNaive) : HeaderFields :=
  let rows := Zlen (rt_rows f) in
  let block := return_row_bytes (rt_route_count f) naive in
  mkHeaderFields KIND_RETURN (rt_request_id f) (rt_placement_version f) (rt_layer_id f)
    rows HIDDEN (return_dtype naive) Decode (rt_route_count f) 0 0
    (rows * block) (rows * block) (HEADER_LEN + rows * block) (rt_flags f) block
    (rt_status f) (rt_executor_id f) (rt_token_position f) (rt_seq f).

Definition return_body (f : ReturnFrame) (naive : WireNaive) : list Z :=
  concat (return_row_wire (return_is_fp32 naive) (has naive PER_ROUTE_RETURN)
            (rt_route_count f) <$> rt_rows f).

Section return_proofs.
Context (naive : WireNaive) (f : ReturnFrame).
Context (Hm : machine_return f naive) (Hen : encodable f naive).

Lemma return_block_bounds :
  0 < return_row_bytes (rt_route_count f) naive < 2 ^ 32.
Proof.
  pose proof (en_route_count _ _ Hen). pose proof (en_block _ _ Hen).
  unfold return_row_bytes, RETURN_ROW_BYTES, HIDDEN in *.
  destruct (has naive PER_ROUTE_RETURN), (has naive FP32_RETURN); lia.
Qed.

Lemma return_row_wire_length row :
  Zlen (rr_codes row) = HIDDEN ->
  Zlen (return_row_wire (return_is_fp32 naive) (has naive PER_ROUTE_RETURN)
          (rt_route_count f) row) = return_row_bytes (rt_route_count f) naive.
Proof.
  intros Hlen. pose proof (en_route_count _ _ Hen).
  unfold return_row_wire, return_is_fp32, return_row_bytes, RETURN_ROW_BYTES.
  destruct (has naive PER_ROUTE_RETURN); cbn [negb andb].
  - rewrite (concat_uniform_length _ (HIDDEN * 2)); [rewrite length_replicate; lia|].
    apply Forall_replicate. rewrite codes_le_length. lia.
  - destruct (has naive FP32_RETURN); [|rewrite codes_le_length; lia].
    rewrite (concat_uniform_length _ 4); [rewrite length_fmap; lia|].
    apply Forall_fmap, Forall_forall. intros c _. unfold compose. by rewrite le_bytes_length.
Qed.

Lemma return_body_rows :
  Forall (fun l => Zlen l = return_row_bytes (rt_route_count f) naive)
    (return_row_wire (return_is_fp32 naive) (has naive PER_ROUTE_RETURN)
       (rt_route_count f) <$> rt_rows f).
Proof.
  apply Forall_fmap. eapply Forall_impl; [apply (en_codes _ _ Hen)|].
  intros row Hlen. by apply return_row_wire_length.
Qed.

Lemma return_body_length :
  Zlen (return_body f naive) = Zlen (rt_rows f) * return_row_bytes (rt_route_count f) naive.
Proof.
  unfold return_body. rewrite (concat_uniform_length _ _ return_body_rows).
  by rewrite length_fmap.
Qed.

Lemma return_body_ok : bytes_ok (return_body f naive).
Proof.
  apply bytes_ok_concat, Forall_forall. intros row _. unfold return_row_wire.
  assert (forall (g : Z -> list Z) l, (forall x, bytes_ok (g x)) -> bytes_ok (concat (g <$> l)))
    as Hg by (intros; by apply bytes_ok_concat, Forall_forall).
  assert (bytes_ok (codes_le (rr_codes row))) by (apply Hg; intros; apply le_bytes_ok).
  destruct (return_is_fp32 naive); [apply Hg; intros; apply le_bytes_ok|].
  destruct (has naive PER_ROUTE_RETURN); [|done].
  induction (Z.to_nat (rt_route_count f)); [constructor|]. by apply Forall_app_2.
Qed.

Lemma return_header_wf : wf_header (return_fields f naive).
Proof.
  pose proof return_block_bounds. pose proof (mr_frame_fits _ _ Hm).
  pose proof (en_rows _ _ Hen). pose proof (en_route_count _ _ Hen).
  assert (0 <= Zlen (rt_rows f) * return_row_bytes (rt_route_count f) naive) by nia.
  clear Hen. destruct Hm. constructor; cbn; first [by right | assumption | layout_consts; width].
Qed.

Lemma check_return_rows_Ok rows :
  Forall (fun r => Zlen (rr_codes r) = HIDDEN) rows -> check_return_rows rows = Ok tt.
Proof.
  induction 1 as [|r rows Hr _ IH]; [done|]. cbn. by rewrite Hr, Z.eqb_refl.
Qed.

Lemma encode_return_wire cpu nocrc :
  encode_return cpu nocrc f naive =
  Ok (seal cpu nocrc (write_header (return_fields f naive) naive ++ return_body f naive) naive).
Proof.
  pose proof return_block_bounds as Hblock. pose proof (mr_frame_fits _ _ Hm) as Hpay.
  pose proof (en_rows _ _ Hen) as Hrows. pose proof (en_route_count _ _ Hen) as Hrc.
  unfold encode_return, encode_return_seq, return_header.
  rewrite bool_decide_eq_false_2 by apply (en_nonempty _ _ Hen).
  rewrite (proj2 (Z.eqb_neq _ _)) by lia.
  rewrite check_return_rows_Ok by apply (en_codes _ _ Hen). cbn [mbind outcome_bind].
  unfold checked_mul, as_u32. unfold u32_range, HIDDEN, HEADER_LEN in *.
  set (block := return_row_bytes _ _) in *.
  repeat (match goal with
    | |- context [?a <? ?b] => rewrite (proj2 (Z.ltb_lt a b)) by lia
    | |- context [?a >=? ?b] => rewrite (Z.geb_leb a b), (proj2 (Z.leb_gt b a)) by lia
    end; cbn [mbind outcome_bind]).
  done.
Qed.

Lemma decode_return_row_sealed i row :
  rt_rows f !! i = Some row ->
  decode_return_row (return_fields f naive) naive (return_body f naive) (Z.of_nat i)
  = Ok (kept_row naive row).
Proof.
  intros Hi. pose proof return_block_bounds as Hblock.
  pose proof (en_route_count _ _ Hen) as Hrc.
  pose proof (Forall_lookup_1 _ _ _ _ (en_codes _ _ Hen) Hi) as Hlen.
  pose proof (Forall_lookup_1 _ _ _ _ (mr_codes _ _ Hm) Hi) as Hcodes. cbn beta in Hlen, Hcodes.
  unfold decode_return_row. cbn [return_fields hf_row_stride_bytes hf_dtype hf_route_count].
  set (block := return_row_bytes _ _) in *.
  destruct (slice_concat_uniform _ block [] [] i _ (Z.of_nat i * block)
    ((Z.of_nat i + 1) * block) return_body_rows
    ltac:(by rewrite list_lookup_fmap, Hi)) as [Hrow Hin]; [cbn; lia|lia|].
  rewrite app_nil_r in Hrow, Hin. cbn [app] in Hrow, Hin.
  fold (return_body f naive) in Hrow, Hin.
  rewrite index_range_Ok by nia. rewrite Hrow. cbn [mbind outcome_bind].
  unfold return_dtype, return_row_wire, kept_row.
  assert (return_is_fp32 naive = false -> kept_code naive <$> rr_codes row = rr_codes row) as Hkeep.
  { intros Hfp. rewrite <-(list_fmap_id (rr_codes row)) at 2. apply list_fmap_ext. intros. by apply kept_compact. }
  pose proof (fun c Hc => f32_to_bf16_back c naive Hc) as Hback. revert Hkeep Hback. unfold return_is_fp32.
  assert (block = return_row_bytes (rt_route_count f) naive) as Hb by done.
  unfold return_row_bytes in Hb. clearbody block.
  destruct (has naive PER_ROUTE_RETURN); [|destruct (has naive FP32_RETURN)]; cbn [negb andb];
    intros Hkeep Hback; [rewrite Hkeep by done| |rewrite Hkeep by done].
  - rewrite Hb. replace (_ * HIDDEN * 2) with (rt_route_count f * (HIDDEN * 2)) by lia.
    rewrite Z.mod_mul, Z.div_mul by done. rewrite Z.eqb_refl. cbn [Z.eqb negb].
    rewrite Z.eqb_refl, andb_false_r. cbn [negb].
    replace (Z.to_nat (rt_route_count f)) with (S (Z.to_nat (rt_route_count f - 1))) by lia.
    cbn [replicate concat]. pose proof (codes_le_length (rr_codes row)) as Hcl.
    rewrite Hlen in Hcl. rewrite index_range_Ok; rewrite ?length_app; [|unfold HIDDEN in *; lia..].
    rewrite slice_app_l, slice_whole by (unfold HIDDEN in *; lia). cbn [mbind outcome_bind].
    by rewrite u16_chunks_codes.
  - rewrite Hb, Z.eqb_refl. cbn [negb]. do 2 f_equal.
    change (fun code => le_bytes 4 (bf16_to_f32 code)) with (le_bytes 4 ∘ bf16_to_f32).
    rewrite list_fmap_compose, u32_chunks_codes.
    2:{ apply Forall_fmap. eapply Forall_impl; [apply Hcodes|]. apply bf16_to_f32_range. }
    rewrite <-list_fmap_compose. apply list_fmap_ext. intros j c Hc. cbn.
    apply Hback; [|done]. by eapply (Forall_lookup_1 _ _ _ _ Hcodes).
  - rewrite Hb. unfold RETURN_ROW_BYTES. rewrite Z.mod_same, Z.div_same by done.
    cbn [Z.eqb negb andb Pos.eqb].
    pose proof (codes_le_length (rr_codes row)) as Hcl. rewrite Hlen in Hcl.
    rewrite index_range_Ok, slice_whole by (unfold HIDDEN in *; lia). cbn [mbind outcome_bind].
    by rewrite u16_chunks_codes.
Qed.

Lemma decode_return_sealed hdr :
  Zlen hdr = HEADER_LEN ->
  decode_return (return_fields f naive) (hdr ++ return_body f naive) naive
  = if presummed f then Ok (kept_return f naive) else Err (UnpresummedReturn (rt_flags f)).
Proof.
  intros Hhdr. pose proof return_block_bounds as Hblock.
  pose proof (mr_frame_fits _ _ Hm) as Hpay. pose proof return_body_length as Hbody.
  pose proof (en_route_count _ _ Hen) as Hrc.
  assert (length (rt_rows f) <> O)
    by (intros ?%length_zero_iff_nil; by apply (en_nonempty _ _ Hen)).
  unfold decode_return, checked_mul. cbn [return_fields hf_status hf_flags hf_row_count hf_dim
    hf_row_stride_bytes hf_payload_bytes hf_row_descriptor_bytes hf_route_bytes hf_route_count].
  replace (bool_decide _ && _) with (negb (presummed f))
    by (unfold presummed; by rewrite negb_orb, negb_involutive).
  destruct (presummed f); [|done]. cbn [negb].
  rewrite (proj2 (Z.eqb_neq (Zlen _) 0)) by lia.
  rewrite index_range_Ok by (rewrite ?length_app; layout_consts; lia).
  rewrite slice_app_r, Hhdr, length_app, Nat2Z.inj_add, Hhdr by (rewrite Hhdr; lia).
  rewrite slice_whole by lia.
  rewrite (proj2 (Z.ltb_lt (Zlen _ * _) _)) by lia. cbn [negb mbind outcome_bind].
  rewrite !Z.eqb_refl. cbn [negb orb mbind outcome_bind]. rewrite Hbody, Z.eqb_refl. cbn [negb].
  rewrite (proj2 (Z.eqb_neq (rt_route_count f) 0)) by lia.
  rewrite (proj2 (mapM_Ok_iff _ _ (kept_row naive <$> rt_rows f))); [done|].
  apply Forall2_same_length_lookup_2; [rewrite length_seqZ, length_fmap; lia|].
  intros i z row Hz Hi. apply lookup_seqZ in Hz as [-> _]. rewrite Z.add_0_l.
  apply list_lookup_fmap_Some in Hi as (row0 & -> & Hi).
  by apply decode_return_row_sealed.
Qed.

Lemma decode_encoded_return cpu nocrc :
  decode_frame cpu nocrc
    (seal cpu nocrc (write_header (return_fields f naive) naive ++ return_body f naive) naive)
    naive = decoded_return f naive.
Proof.
  pose proof return_body_ok as Hok. pose proof return_body_length as Hlen.
  pose proof return_header_wf as Hh.
  unfold decode_frame.
  destruct (seal_header cpu nocrc (return_fields f naive) naive _ Hok) as (crc & _ & Hseal).
  rewrite Hseal at 1. rewrite (parse_header_sealed _ _ _ _ Hh) by (rewrite Hlen; cbn; lia).
  cbn [mbind outcome_bind].
  rewrite verify_crc_seal; [|by apply Forall_app_2; [apply write_header_ok|]|].
  2:{ rewrite length_app, Nat2Z.inj_add, write_header_length. lia. }
  cbn [mbind outcome_bind]. rewrite Hseal.
  cbn [return_fields hf_kind Z.eqb KIND_RETURN KIND_REQUEST Pos.eqb].
  rewrite decode_return_sealed by apply sealed_header_length. unfold decoded_return. by destruct (presummed f).
Qed.
End return_proofs.

Lemma check_return_rows_no_panic rows :
  match check_return_rows rows with
  | Ok _ => Forall (fun r => Zlen (rr_codes r) = HIDDEN) rows
  | Err _ => ~ Forall (fun r => Zlen (rr_codes r) = HIDDEN) rows
  | Panic => False
  end.
Proof.
  induction rows as [|r rows IH]; [constructor|]. cbn [check_return_rows].
  destruct (Z.eqb_spec (Zlen (rr_codes r)) HIDDEN) as [Hr|Hr]; cbn [negb].
  - destruct (check_return_rows rows); [by constructor|by intros [_ ?]%Forall_cons|done].
  - by intros [? _]%Forall_cons.
Qed.

(** The encoder refuses exactly what is not encodable, and never panics. *)
Lemma encode_return_checks cpu nocrc f naive : machine_return f naive ->
  match encode_return cpu nocrc f naive with
  | Ok _ => encodable f naive
  | Err _ => ~ encodable f naive
  | Panic => False
  end.
Proof.
  intros Hm. pose proof (mr_frame_fits _ _ Hm) as Hfit. pose proof (mr_route_count _ _ Hm) as Hrc.
  unfold encode_return, encode_return_seq, return_header, checked_mul, as_u32.
  case_bool_decide as Hne; [by intros []|].
  destruct (Z.eqb_spec (rt_route_count f) 0) as [H0|H0]; [intros [_ ? _ _ _]; lia|].
  pose proof (check_return_rows_no_panic (rt_rows f)) as Hrows.
  destruct (check_return_rows (rt_rows f)) as [[]|e|]; [|by intros []|done]. rewrite ok_bind.
  unfold u64_range in *. rewrite (proj2 (Z.ltb_lt (Zlen _ * _) _)) by (layout_consts; lia). rewrite ok_bind.
  destruct (Z.geb_spec (HEADER_LEN + Zlen (rt_rows f) * return_row_bytes (rt_route_count f) naive) (2 ^ 64)) as [?|_]; [lia|].
  destruct (Z.ltb_spec (Zlen (rt_rows f)) (2 ^ 32)); [|intros [? ? ? ? ?]; lia]. rewrite ok_bind.
  destruct (Z.ltb_spec (rt_route_count f) (2 ^ 32)); [|intros [? ? ? ? ?]; lia]. rewrite ok_bind.
  destruct (Z.ltb_spec (return_row_bytes (rt_route_count f) naive) (2 ^ 32)); [|intros [? ? ? ? ?]; lia].
  rewrite !ok_bind. constructor; try done. lia.
Qed.
