(* ===== verification/FrameTheorems.v ===== *)
(** Robustness of the frame decoder of [Frame.v] against arbitrary bytes: what a
    parsed header guarantees, that decoding cannot panic, that the in-place
    [RequestView] accepts exactly the frames [decode_frame] accepts, and that a
    corrupted frame is rejected.

    The properties of the wire codec: checksums, BF16, frames. *)
From Stdlib Require Import ZArith Lia Bool.
From stdpp Require Import base list gmap strings.
From S2P Require Import Prelude Layout Crc32c Bf16 Frame FrameProofs.

(** * A parsed header *)

Lemma get_le_range n l at_ v :
  bytes_ok l -> 0 <= at_ -> 0 <= n -> get_le n l at_ = Ok v -> 0 <= v < 256 ^ n.
Proof.
  unfold get_le. intros Hb Hat Hn. destruct (Z.leb_spec (at_ + n) (Zlen l)); [|done].
  intros [= <-]. pose proof (le_val_range (slice l at_ (at_ + n)) (bytes_ok_slice _ _ _ Hb)) as Hr.
  rewrite slice_length in Hr by lia. by replace (at_ + n - at_) with n in Hr by lia.
Qed.

Lemma get_le_no_panic n l at_ : no_panic (get_le n l at_).
Proof. unfold get_le. by destruct (_ <=? _). Qed.

Lemma get_u16_no_panic l at_ : no_panic (get_u16 l at_).
Proof. apply get_le_no_panic. Qed.

Lemma get_u32_no_panic l at_ : no_panic (get_u32 l at_).
Proof. apply get_le_no_panic. Qed.

Lemma get_u64_no_panic l at_ : no_panic (get_u64 l at_).
Proof. apply get_le_no_panic. Qed.

Lemma get_f32_no_panic l at_ : no_panic (get_f32 l at_).
Proof. apply get_le_no_panic. Qed.

Lemma checked_mul_no_panic a b f : no_panic (checked_mul a b f).
Proof. unfold checked_mul. by destruct (_ <? _). Qed.

Lemma as_u32_no_panic v f : no_panic (as_u32 v f).
Proof. unfold as_u32. by destruct (_ <? _). Qed.

#[export] Hint Resolve get_u16_no_panic get_u32_no_panic get_u64_no_panic get_f32_no_panic
  checked_mul_no_panic as_u32_no_panic : wire.

(** Walks a fallible computation: every bind, test and match on the way. *)
Ltac walk_no_panic :=
  repeat lazymatch goal with
    | |- no_panic (mbind _ _) => apply bind_no_panic; [auto with wire|intros ? ?]
    | |- no_panic (Ok _) => exact I
    | |- no_panic (Err _) => exact I
    | |- no_panic (if ?b then _ else _) => destruct b eqn:?
    | |- no_panic (match ?x with _ => _ end) => destruct x eqn:?
    end.

(** Inverts [H : computation = Ok v] into the results of its steps. *)
Ltac walk_ok H :=
  repeat (first
    [ apply bind_Ok in H as (? & ? & H)
    | match type of H with
      | (if ?b then _ else _) = Ok _ => destruct b eqn:?; [discriminate H|]
      end ]; cbn beta in H).

Lemma parse_header_no_panic bytes naive : no_panic (parse_header bytes naive).
Proof. unfold parse_header. walk_no_panic. Qed.

Lemma parse_header_wf bytes naive h :
  bytes_ok bytes -> parse_header bytes naive = Ok h ->
  wf_header h /\ HEADER_LEN <= Zlen bytes /\ hf_wire_bytes h = Zlen bytes.
Proof.
  intros Hb H. unfold parse_header in H. walk_ok H. injection H as <-.
  unfold get_u16, get_u32, get_u64 in *.
  repeat match goal with
    | G : get_le ?n bytes ?a = Ok ?v |- _ =>
      apply (get_le_range n bytes a v Hb) in G; [|done|done]
    end.
  split_and!; cbn.
  - constructor; cbn; unfold u32_range, u64_range; try lia.
  - lia.
  - lia.
Qed.

(** The checksum field is always readable once the header has parsed. *)
Lemma verify_crc_no_panic cpu nocrc bytes naive seq :
  no_panic (verify_crc cpu nocrc bytes naive seq).
Proof. unfold verify_crc. walk_no_panic. Qed.

(** * The decoders do not panic *)

Lemma row_descriptor_from_wire_no_panic b o naive :
  no_panic (row_descriptor_from_wire b o naive).
Proof. unfold row_descriptor_from_wire. walk_no_panic. Qed.

Lemma route_entry_from_wire_no_panic b o naive : no_panic (route_entry_from_wire b o naive).
Proof. unfold route_entry_from_wire. walk_no_panic. Qed.

Lemma validate_rows_no_panic i rows n : no_panic (validate_rows i rows n).
Proof. revert i; induction rows; intros; cbn; [done|]. by destruct (_ >? _). Qed.

Lemma validate_routes_no_panic i routes n : no_panic (validate_routes i routes n).
Proof. revert i; induction routes; intros; cbn; [done|]. by destruct (_ >=? _). Qed.

Lemma validate_rows_routes_no_panic rows routes : no_panic (validate_rows_routes rows routes).
Proof.
  unfold validate_rows_routes. apply bind_no_panic; [apply validate_rows_no_panic|].
  intros. apply validate_routes_no_panic.
Qed.

#[export] Hint Resolve parse_header_no_panic verify_crc_no_panic
  row_descriptor_from_wire_no_panic route_entry_from_wire_no_panic
  validate_rows_routes_no_panic : wire.

(** What the shared geometry checks establish. *)
Lemma request_geometry_facts h bytes naive rdb rb body :
  wf_header h -> HEADER_LEN <= Zlen bytes ->
  request_geometry h bytes naive = Ok (rdb, rb, body) ->
  rdb = hf_row_count h * ROW_DESCRIPTOR_LEN /\ rb = hf_route_count h * ROUTE_ENTRY_LEN /\
  0 < hf_row_count h /\ HIDDEN <= hf_row_stride_bytes h /\
  Zlen body = rdb + rb + hf_row_count h * hf_row_stride_bytes h /\
  body = slice bytes HEADER_LEN (Zlen bytes).
Proof.
  intros Hwf Hlen H. pose proof (wfh_row_count _ Hwf). pose proof (wfh_route_count _ Hwf).
  unfold request_geometry, checked_mul, usize_add in H.
  rewrite index_range_Ok in H by (unfold HEADER_LEN in *; lia).
  repeat (match type of H with
    | (if ?b then _ else _) = Ok _ => destruct b eqn:?; [discriminate H|]
    | mbind _ (if ?b then _ else _) = Ok _ => destruct b eqn:?; [|discriminate H]
    | _ => idtac
    end; cbn [mbind outcome_bind] in H).
  injection H as <- <- <-. split_and!; first [done | layout_consts; width].
Qed.

Lemma request_geometry_no_panic h bytes naive :
  wf_header h -> HEADER_LEN <= Zlen bytes -> no_panic (request_geometry h bytes naive).
Proof.
  intros Hwf Hlen. pose proof (wfh_row_count _ Hwf). pose proof (wfh_route_count _ Hwf).
  pose proof (wfh_row_stride_bytes _ Hwf). pose proof (wfh_row_descriptor_bytes _ Hwf).
  pose proof (wfh_route_bytes _ Hwf).
  unfold request_geometry, checked_mul, usize_add.
  rewrite index_range_Ok by (unfold HEADER_LEN in *; lia).
  repeat (match goal with
    | |- no_panic (if ?b then _ else _) => destruct b eqn:?; [exact I|]
    | |- no_panic (mbind _ (if ?a <? ?b then _ else _)) =>
      let E := fresh in destruct (a <? b) eqn:E; [|try exact I]
    | _ => idtac
    end; cbn [mbind outcome_bind]).
  all: try exact I.
  all: unfold u32_range, ROW_DESCRIPTOR_LEN, ROUTE_ENTRY_LEN in *; nia.
Qed.

Lemma decode_request_no_panic h bytes naive :
  wf_header h -> HEADER_LEN <= Zlen bytes -> no_panic (decode_request h bytes naive).
Proof.
  intros Hwf Hlen. unfold decode_request.
  apply bind_no_panic; [by apply request_geometry_no_panic|]. intros [[rdb rb] body] Hg.
  apply request_geometry_facts in Hg as (-> & -> & Hrows & Hstride & Hbody & _); [|done..].
  pose proof (wfh_route_count _ Hwf) as Hroutes.
  repeat (apply bind_no_panic;
    [first [apply mapM_no_panic; intros i Hi|auto with wire]|intros ? _]);
    auto with wire; try exact I.
  all: apply elem_of_seqZ in Hi.
  all: unfold u32_range, HIDDEN, ROW_DESCRIPTOR_LEN, ROUTE_ENTRY_LEN in *.
  all: assert (i * hf_row_stride_bytes h + hf_row_stride_bytes h
    <= hf_row_count h * hf_row_stride_bytes h) by nia.
  all: assert (0 <= i * hf_row_stride_bytes h) by nia.
  all: rewrite !index_range_Ok by lia; exact I.
Qed.

Lemma decode_return_row_no_panic h naive body i :
  wf_header h -> 0 <= i < hf_row_count h ->
  Zlen body = hf_row_count h * hf_row_stride_bytes h ->
  0 < hf_route_count h ->
  no_panic (decode_return_row h naive body i).
Proof.
  intros Hwf Hi Hbody Hroutes. pose proof (wfh_row_stride_bytes _ Hwf) as Hs.
  unfold u32_range in Hs. unfold decode_return_row.
  assert (0 <= i * hf_row_stride_bytes h) by nia.
  assert ((i + 1) * hf_row_stride_bytes h <= hf_row_count h * hf_row_stride_bytes h) by nia.
  rewrite index_range_Ok by lia. cbn [mbind outcome_bind].
  destruct (hf_dtype h); try exact I; walk_no_panic.
  unfold HIDDEN in *.
  pose proof (slice_length body (i * hf_row_stride_bytes h) ((i + 1) * hf_row_stride_bytes h)) as Hl.
  pose proof (Z.div_mod (hf_row_stride_bytes h) (4096 * 2) ltac:(lia)) as Hdm.
  rewrite index_range_Ok; [exact I|lia|lia|].
  rewrite Hl by lia.
  assert (0 < hf_row_stride_bytes h / (4096 * 2)) by lia. nia.
Qed.

Lemma decode_return_panic h bytes naive :
  wf_header h -> HEADER_LEN <= Zlen bytes -> decode_return h bytes naive = Panic ->
  2 ^ 32 <= hf_row_descriptor_bytes h + hf_route_bytes h.
Proof.
  intros Hwf Hlen H.
  destruct (Z.le_gt_cases (2 ^ 32) (hf_row_descriptor_bytes h + hf_route_bytes h)) as [|Hlt];
    [done|exfalso].
  enough (no_panic (decode_return h bytes naive)) as Hn by by rewrite H in Hn.
  clear H. pose proof (wfh_route_count _ Hwf) as Hroutes. unfold u32_range in Hroutes.
  unfold decode_return. rewrite index_range_Ok by (unfold HEADER_LEN in *; lia).
  unfold checked_mul. walk_no_panic; try lia; try done.
  destruct (_ <? _) in *; simplify_eq.
  apply mapM_no_panic. intros i Hi%elem_of_seqZ. apply decode_return_row_no_panic; try done; lia.
Qed.

(** * The in-place view *)

(** A view that describes frame [f]. *)
Definition view_matches (v : RequestView) (f : RequestFrame) : Prop :=
  rv_request_id v = rq_request_id f /\ rv_placement_version v = rq_placement_version f /\
  rv_layer_id v = rq_layer_id f /\ rv_executor_id v = rq_executor_id f /\
  rv_source_kind v = rq_source_kind f /\ rv_token_position v = rq_token_position f /\
  rv_flags v = rq_flags f /\ rv_seq v = rq_seq f /\
  rv_rows v = Zlen (rq_rows f) /\ rv_routes v = Zlen (rq_routes f) /\
  mapM (RequestView_row v) (seqZ 0 (rv_rows v)) = Ok (rq_rows f) /\
  mapM (RequestView_route v) (seqZ 0 (rv_routes v)) = Ok (rq_routes f) /\
  RequestView_hidden v = Ok (concat (hidden_wire <$> rq_hidden_rows f)).

Lemma check_rows_forall (l : list Z) (ys : list RowDescriptor) n :
  length ys = length l ->
  Forall2 (fun i row => (if rd_route_offset row + rd_route_count row >? n
                         then Err (RouteRangeBad i) else Ok tt) = Ok tt) l ys <->
  Forall (fun r => rd_route_offset r + rd_route_count r <= n) ys.
Proof.
  revert l; induction ys as [|y ys IH]; intros [|x l] Hlen; try discriminate.
  { split; constructor. }
  rewrite Forall2_cons, Forall_cons, IH by (cbn in Hlen; congruence).
  destruct (Z.gtb_spec (rd_route_offset y + rd_route_count y) n); intuition (lia || congruence).
Qed.

Lemma check_routes_forall (l : list Z) (ys : list RouteEntry) n :
  length ys = length l ->
  Forall2 (fun j r => (if re_row_index r >=? n
                       then Err (RouteRowMismatch j (re_row_index r) (n mod 2 ^ 32))
                       else Ok tt) = Ok tt) l ys <->
  Forall (fun r => re_row_index r < n) ys.
Proof.
  revert l; induction ys as [|y ys IH]; intros [|x l] Hlen; try discriminate.
  { split; constructor. }
  rewrite Forall2_cons, Forall_cons, IH by (cbn in Hlen; congruence).
  destruct (Z.geb_spec (re_row_index y) n); intuition (lia || congruence).
Qed.

(** The hidden rows [decode_request] copies out. *)
Definition hidden_at (body : list Z) (base stride i : Z) : HiddenRow :=
  mkHiddenRow (slice body (base + i * stride) (base + i * stride + HIDDEN))
    (slice body (base + i * stride + HIDDEN) (base + i * stride + stride)).

Lemma hidden_rows_read body base stride n :
  0 <= base -> HIDDEN <= stride -> 0 <= n -> base + n * stride = Zlen body ->
  mapM (fun i =>
      payload ← index_range body (base + i * stride) (base + i * stride + HIDDEN);
      scales ← index_range body (base + i * stride + HIDDEN) (base + i * stride + stride);
      Ok (E := WireError) (mkHiddenRow payload scales)) (seqZ 0 n)
  = Ok (hidden_at body base stride <$> seqZ 0 n)
  /\ concat (hidden_wire <$> (hidden_at body base stride <$> seqZ 0 n))
     = slice body base (Zlen body).
Proof.
  unfold HIDDEN. intros Hb Hs Hn Hlen.
  assert (forall i, i ∈ seqZ 0 n -> 0 <= i * stride /\ i * stride + stride <= n * stride) as Hi.
  { intros i ?%elem_of_seqZ. nia. }
  split.
  - apply mapM_Ok_fmap. intros i [? ?]%Hi. by rewrite !index_range_Ok by (unfold HIDDEN; lia).
  - rewrite <-Hlen, <-concat_slices, <-list_fmap_compose by lia. f_equal.
    apply list_fmap_ext. intros k i Hk%list_elem_of_lookup_2%Hi. unfold compose, hidden_wire.
    cbn [hidden_at hr_payload hr_scales]. symmetry. apply slice_split; unfold HIDDEN; lia.
Qed.

Section view.
Context (cpu : CpuCrc) (nocrc : bool) (bytes : list Z) (naive : WireNaive).
Context (Hb : bytes_ok bytes).

Lemma view_of_frame f :
  decode_frame cpu nocrc bytes naive = Ok (FrameRequest f) <->
  exists v, RequestView_parse cpu nocrc bytes naive = Ok v /\ view_matches v f /\
    rq_hidden_rows f = hidden_at (rv_body v) (rv_hidden_base v) (rv_row_stride v)
                         <$> seqZ 0 (rv_rows v).
Proof.
  unfold decode_frame, RequestView_parse.
  destruct (parse_header bytes naive) as [h|e|] eqn:Hh;
    [|split; [done|intros (v & [=] & _)]..].
  destruct (parse_header_wf bytes naive h Hb Hh) as (Hwf & Hlen & _).
  cbn [mbind outcome_bind].
  destruct (verify_crc cpu nocrc bytes naive (hf_seq h)) as [[]|e|];
    [|split; [done|intros (v & [=] & _)]..].
  cbn [mbind outcome_bind].
  destruct (wfh_kind h Hwf) as [-> | ->];
    [cbn [Z.eqb KIND_REQUEST Pos.eqb negb]|].
  2:{ cbn [Z.eqb KIND_REQUEST KIND_RETURN Pos.eqb negb].
      split; [|intros (v & [=] & _)]. by destruct (decode_return h bytes naive). }
  unfold decode_request.
  destruct (request_geometry h bytes naive) as [[[rdb rb] body]|e|] eqn:Hg;
    [|split; [done|intros (v & [=] & _)]..].
  destruct (request_geometry_facts _ _ _ _ _ _ Hwf Hlen Hg)
    as (Hrdb & Hrb & Hrows & Hstride & Hbody & _).
  pose proof (wfh_route_count _ Hwf) as Hroutes. unfold u32_range in Hroutes.
  destruct (hidden_rows_read body (rdb + rb) (hf_row_stride_bytes h) (hf_row_count h))
    as [Hhid Hwire]; [unfold ROW_DESCRIPTOR_LEN, ROUTE_ENTRY_LEN in *; lia|done|lia|lia|].
  cbn [mbind outcome_bind] in *. set (view := mkRequestView _ _ _ _ _ _ _ _ _ _ _ _ _ _ _).
  assert (RequestView_hidden view = Ok (slice body (rdb + rb) (Zlen body))) as Hvh.
  { unfold RequestView_hidden, view. cbn [rv_body rv_hidden_base].
    apply index_range_Ok; unfold ROW_DESCRIPTOR_LEN, ROUTE_ENTRY_LEN, HIDDEN in *; nia. }
  split.
  - intros H. unfold fmap, outcome_fmap in H. case_match eqn:Hd; simplify_eq.
    apply bind_Ok in Hd as (rows & Hr & Hd). apply bind_Ok in Hd as (routes & Ht & Hd).
    apply bind_Ok in Hd as ([] & Hv%validate_rows_routes_Ok & Hd).
    rewrite Hhid in Hd. cbn [mbind outcome_bind] in Hd. injection Hd as <-.
    pose proof (mapM_Ok_length _ _ _ Hr) as Hlr. pose proof (mapM_Ok_length _ _ _ Ht) as Hlt.
    exists view. split; [|split].
    + rewrite (proj2 (for_each_mapM (RequestView_row view) _ _)).
      2:{ exists rows. split; [exact Hr|]. apply check_rows_forall; [done|].
          rewrite length_seqZ in Hlt. replace (hf_route_count h) with (Zlen routes) by lia.
          apply Hv. }
      cbn [mbind outcome_bind].
      rewrite (proj2 (for_each_mapM (RequestView_route view) _ _)); [done|].
      exists routes. split; [exact Ht|]. apply check_routes_forall; [done|].
      rewrite length_seqZ in Hlr. replace (hf_row_count h) with (Zlen rows) by lia. apply Hv.
    + rewrite length_seqZ in Hlr, Hlt. unfold view_matches. cbn.
      split_and!; try done; try lia. by rewrite Hwire.
    + done.
  - intros (v & Hp & Hm & Hhr).
    apply bind_Ok in Hp as ([] & Hp1 & Hp). apply bind_Ok in Hp as ([] & Hp2 & [= <-]).
    apply (for_each_mapM (RequestView_row view)) in Hp1 as (rows & Hr & Hc).
    apply (for_each_mapM (RequestView_route view)) in Hp2 as (routes & Ht & Hd).
    pose proof (mapM_Ok_length _ _ _ Hr) as Hlr. pose proof (mapM_Ok_length _ _ _ Ht) as Hlt.
    apply check_rows_forall in Hc; [|done]. apply check_routes_forall in Hd; [|done].
    rewrite length_seqZ in Hlr, Hlt.
    unfold view_matches in Hm. cbn in Hm. destruct_and! Hm.
    change (mapM _ _ ≫= _) with
      (rows_vec ← mapM (RequestView_row view) (seqZ 0 (hf_row_count h));
       routes_vec ← mapM (RequestView_route view) (seqZ 0 (hf_route_count h));
       validate_rows_routes rows_vec routes_vec ≫= fun _ =>
       hidden_rows ← mapM (fun i =>
           payload ← index_range body (rdb + rb + i * hf_row_stride_bytes h)
                       (rdb + rb + i * hf_row_stride_bytes h + HIDDEN);
           scales ← index_range body (rdb + rb + i * hf_row_stride_bytes h + HIDDEN)
                      (rdb + rb + i * hf_row_stride_bytes h + hf_row_stride_bytes h);
           Ok (mkHiddenRow payload scales)) (seqZ 0 (hf_row_count h));
       Ok (mkRequestFrame (hf_request_id h) (hf_placement_version h) (hf_layer_id h)
         (hf_executor_id h) (hf_source_kind h) (hf_token_position h) (hf_flags h)
         (hf_seq h) rows_vec routes_vec hidden_rows) : outcome WireError RequestFrame).
    rewrite Hr, Ht. cbn [mbind outcome_bind].
    rewrite (proj2 (validate_rows_routes_Ok rows routes)).
    2:{ replace (Zlen routes) with (hf_route_count h) by lia.
        replace (Zlen rows) with (hf_row_count h) by lia. done. }
    cbn [mbind outcome_bind]. rewrite Hhid. cbn [mbind outcome_bind].
    destruct f. cbn in *. simplify_eq. congruence.
Qed.

(** Every accepted view describes some frame. *)
Lemma view_describes v :
  RequestView_parse cpu nocrc bytes naive = Ok v ->
  exists f, view_matches v f /\
    rq_hidden_rows f = hidden_at (rv_body v) (rv_hidden_base v) (rv_row_stride v)
                         <$> seqZ 0 (rv_rows v).
Proof.
  unfold RequestView_parse. intros Hp.
  apply bind_Ok in Hp as (h & Hh & Hp).
  destruct (parse_header_wf bytes naive h Hb Hh) as (Hwf & Hlen & _).
  apply bind_Ok in Hp as (? & _ & Hp).
  destruct (negb _); [done|].
  apply bind_Ok in Hp as ([[rdb rb] body] & Hg & Hp).
  destruct (request_geometry_facts _ _ _ _ _ _ Hwf Hlen Hg)
    as (Hrdb & Hrb & Hrows & Hstride & Hbody & _).
  pose proof (wfh_route_count _ Hwf) as Hroutes. unfold u32_range in Hroutes.
  destruct (hidden_rows_read body (rdb + rb) (hf_row_stride_bytes h) (hf_row_count h))
    as [_ Hwire]; [unfold ROW_DESCRIPTOR_LEN, ROUTE_ENTRY_LEN in *; lia|done|lia|lia|].
  cbn zeta in Hp. set (view := mkRequestView _ _ _ _ _ _ _ _ _ _ _ _ _ _ _) in *.
  apply bind_Ok in Hp as ([] & Hp1 & Hp). apply bind_Ok in Hp as ([] & Hp2 & [= <-]).
  apply (for_each_mapM (RequestView_row view)) in Hp1 as (rows & Hr & _).
  apply (for_each_mapM (RequestView_route view)) in Hp2 as (routes & Ht & _).
  pose proof (mapM_Ok_length _ _ _ Hr) as Hlr. pose proof (mapM_Ok_length _ _ _ Ht) as Hlt.
  rewrite length_seqZ in Hlr, Hlt.
  exists (mkRequestFrame (hf_request_id h) (hf_placement_version h) (hf_layer_id h)
    (hf_executor_id h) (hf_source_kind h) (hf_token_position h) (hf_flags h) (hf_seq h)
    rows routes (hidden_at body (rdb + rb) (hf_row_stride_bytes h) <$> seqZ 0 (hf_row_count h))).
  split; [|done]. unfold view_matches. cbn. split_and!; try done; [lia..|].
  rewrite Hwire. unfold RequestView_hidden. cbn [view rv_body rv_hidden_base].
  apply index_range_Ok; unfold ROW_DESCRIPTOR_LEN, ROUTE_ENTRY_LEN, HIDDEN in *; nia.
Qed.
End view.

(** * Corrupted frames *)

Section corruption.
Context (cpu : CpuCrc) (naive : WireNaive).
Context (Hchecked : has naive CRC_UNCHECKED = false).
Context (Hwhole : has naive CRC_HEADER_EXEMPT = false).

(** The decoder only accepts a frame whose stored checksum is the computed one. *)
Lemma decode_frame_checksum bytes f :
  bytes_ok bytes -> decode_frame cpu false bytes naive = Ok f ->
  HEADER_LEN <= Zlen bytes /\
  compute_crc cpu bytes naive = le_val (slice bytes hdr_CRC32C (hdr_CRC32C + 4)).
Proof.
  intros Hb H. unfold decode_frame in H. apply bind_Ok in H as (h & Hh & H).
  apply bind_Ok in H as ([] & Hv & _).
  destruct (parse_header_wf bytes naive h Hb Hh) as (_ & Hlen & _).
  split; [done|]. unfold verify_crc in Hv. rewrite Hchecked in Hv.
  unfold get_u32, get_le, hdr_CRC32C, HEADER_LEN in *.
  rewrite (proj2 (Z.leb_le _ _)) in Hv by lia. cbn [mbind outcome_bind] in Hv.
  destruct (Z.eqb_spec (compute_crc cpu bytes naive) (le_val (slice bytes 120 (120 + 4))));
    done.
Qed.

Lemma compute_crc_spliced bytes :
  bytes_ok bytes -> HEADER_LEN <= Zlen bytes ->
  compute_crc cpu bytes naive =
  crc32c_with cpu (family_for naive) (splice bytes hdr_CRC32C [0; 0; 0; 0]).
Proof.
  intros Hb Hlen. unfold compute_crc. rewrite Hwhole.
  apply crc32c_zeroed_splice; [done|done|]. unfold hdr_CRC32C, HEADER_LEN in *. lia.
Qed.

(** A window of at most four bytes that does not straddle an end of the checksum
    field. *)
Definition clean_window (start len : Z) : Prop :=
  start + len <= hdr_CRC32C \/ (hdr_CRC32C <= start /\ start + len <= hdr_CRC32C + 4)
  \/ hdr_CRC32C + 4 <= start.

Lemma crc_field_fixed pre m suf :
  Zlen pre + Zlen m <= hdr_CRC32C \/ hdr_CRC32C + 4 <= Zlen pre ->
  HEADER_LEN <= Zlen (pre ++ m ++ suf) ->
  splice (pre ++ m ++ suf) hdr_CRC32C [0; 0; 0; 0] =
    (if Zlen pre + Zlen m <=? hdr_CRC32C
     then pre ++ m ++ splice suf (hdr_CRC32C - Zlen pre - Zlen m) [0; 0; 0; 0]
     else splice pre hdr_CRC32C [0; 0; 0; 0] ++ m ++ suf) /\
  slice (pre ++ m ++ suf) hdr_CRC32C (hdr_CRC32C + 4) =
    (if Zlen pre + Zlen m <=? hdr_CRC32C
     then slice suf (hdr_CRC32C - Zlen pre - Zlen m) (hdr_CRC32C + 4 - Zlen pre - Zlen m)
     else slice pre hdr_CRC32C (hdr_CRC32C + 4)).
Proof.
  intros Hw Hlen. rewrite !length_app in Hlen. unfold hdr_CRC32C, HEADER_LEN in *.
  destruct (Z.leb_spec (Zlen pre + Zlen m) 120) as [Hle|Hgt].
  - rewrite !splice_app_r, !slice_app_r by lia. done.
  - rewrite splice_app_l, slice_app_l by (cbn; lia). done.
Qed.

Lemma corruption_rejected pre m1 m2 suf f1 f2 :
  bytes_ok (pre ++ m1 ++ suf) -> bytes_ok m2 -> length m1 = length m2 ->
  (length m1 <= 4)%nat -> m1 <> m2 -> clean_window (Zlen pre) (Zlen m1) ->
  decode_frame cpu false (pre ++ m1 ++ suf) naive = Ok f1 ->
  decode_frame cpu false (pre ++ m2 ++ suf) naive <> Ok f2.
Proof.
  intros Hb1 Hm2 Hlen H4 Hne Hw H1 H2.
  apply Forall_app in Hb1 as Hs. destruct Hs as [Hpre [Hm1 Hsuf]%Forall_app].
  assert (bytes_ok (pre ++ m2 ++ suf)) as Hb2 by (repeat apply Forall_app_2; done).
  apply (decode_frame_checksum _ _ Hb1) in H1 as [Hl1 Hc1].
  apply (decode_frame_checksum _ _ Hb2) in H2 as [Hl2 Hc2].
  assert (bytes_ok [0; 0; 0; 0]) as Hz by (repeat constructor; unfold is_byte; lia).
  destruct (Z.le_gt_cases hdr_CRC32C (Zlen pre)) as [Hge|Hlt];
    [destruct (Z.le_gt_cases (hdr_CRC32C + 4) (Zlen pre)) as [Hafter|Hin]|].
  2:{ (* inside the checksum field: the computed checksum is the same *)
      unfold clean_window in Hw.
      destruct (Z.eq_dec (Zlen m1) 0) as [Hz1|Hz1].
      { apply Hne. destruct m1, m2; cbn in *; congruence || lia. }
      destruct Hw as [Hw|[[_ Hw]|Hw]]; [lia| |lia].
      unfold hdr_CRC32C, HEADER_LEN in *. rewrite !length_app in Hl1, Hl2.
      assert (forall m, Zlen m = Zlen m1 ->
        compute_crc cpu (pre ++ m ++ suf) naive = compute_crc cpu (pre ++ m1 ++ suf) naive) as Hsame.
      { intros m Hm. unfold compute_crc. rewrite Hwhole. unfold crc32c_zeroed, hdr_CRC32C.
        assert (length m = length m1) as Hm' by lia. rewrite !length_app, Hm'.
        rewrite !(slice_app_l pre _ 0 120), !(slice_app_r pre _ (120 + 4)) by lia.
        rewrite !slice_app_r by lia. by rewrite Hm'. }
      rewrite (Hsame m2), Hc1 in Hc2 by lia. apply le_val_inj in Hc2;
        [|apply Nat2Z.inj; rewrite !slice_length by (rewrite ?length_app; lia); done
         |by apply bytes_ok_slice..].
      apply Hne. apply (f_equal (fun l => slice l (Zlen pre - 120) (Zlen pre - 120 + Zlen m1))) in Hc2.
      rewrite !slice_slice in Hc2 by lia.
      replace (120 + (Zlen pre - 120)) with (Zlen pre) in Hc2 by lia.
      replace (120 + (Zlen pre - 120 + Zlen m1)) with (Zlen pre + Zlen m1) in Hc2 by lia.
      rewrite !(slice_app_r pre), !Z.sub_diag, !slice_app_l, !slice_whole in Hc2 by lia. done. }
  1: assert (Zlen pre + Zlen m1 <= hdr_CRC32C \/ hdr_CRC32C + 4 <= Zlen pre) as Hout by lia.
  2: assert (Zlen pre + Zlen m1 <= hdr_CRC32C \/ hdr_CRC32C + 4 <= Zlen pre) as Hout
       by (unfold clean_window in Hw; lia).
  all: rewrite (compute_crc_spliced _ Hb1 Hl1) in Hc1; rewrite (compute_crc_spliced _ Hb2 Hl2) in Hc2.
  all: destruct (crc_field_fixed pre m1 suf Hout Hl1) as [E1 G1].
  all: destruct (crc_field_fixed pre m2 suf ltac:(rewrite <-Hlen; done) Hl2) as [E2 G2].
  all: rewrite E1, G1 in Hc1; rewrite E2, G2, <-Hlen in Hc2; rewrite <-Hc2 in Hc1; clear E1 E2 G1 G2.
  all: destruct (_ <=? _); apply crc32c_with_burst in Hc1; auto using bytes_ok_splice.
Qed.
End corruption.

(** * Sample frames for the witnesses *)

Definition sample_row : RowDescriptor := mkRowDescriptor 7 Decode 11 3 0 2.
Definition sample_routes : list RouteEntry :=
  [mkRouteEntry 0 5 0x3F800000; mkRouteEntry 0 383 0x3E000000].
Definition sample_hidden : HiddenRow :=
  mkHiddenRow (replicate (Z.to_nat 4096) 17) (replicate (Z.to_nat 128) 127).
Definition sample_request : RequestFrame :=
  mkRequestFrame 11 1 4 2 Decode 3 0 99 [sample_row] sample_routes [sample_hidden].
Definition sample_return : ReturnFrame :=
  mkReturnFrame 11 1 4 2 3 StatusOk FLAG_RETURN_REQUIRED 2 99
    [mkReturnRow (replicate (Z.to_nat 4096) 0x3F80)].

Definition with_flags (f : ReturnFrame) (flags : Z) : ReturnFrame :=
  mkReturnFrame (rt_request_id f) (rt_placement_version f) (rt_layer_id f) (rt_executor_id f)
    (rt_token_position f) (rt_status f) flags (rt_route_count f) (rt_seq f) (rt_rows f).

(** The sample request as it travels, and a return header whose section lengths
    overflow: every field is in range, so no other check fires first. *)
Definition sample_bytes : list Z :=
  seal Sse42 false (write_header (request_header sample_request NONE) NONE
                    ++ request_body sample_request NONE) NONE.
Definition overflow_bytes : list Z :=
  write_header (mkHeaderFields KIND_RETURN 1 1 0 1 HIDDEN Bf16 Decode 0 (2 ^ 31) (2 ^ 31)
    0 0 HEADER_LEN 0 0 StatusError 1 0 0) NONE.

Lemma sample_request_like routes :
  2 <= Zlen routes -> Zlen routes * ROUTE_ENTRY_LEN < 2 ^ 32 ->
  Forall (fun r => wf_route r /\ re_row_index r < 1) routes ->
  wf_request (mkRequestFrame 11 1 4 2 Decode 3 0 99 [sample_row] routes [sample_hidden]) NONE.
Proof.
  intros Hlen Hfit Hr. apply Forall_and in Hr as [Hwf Hidx].
  constructor; cbn [rq_request_id rq_placement_version rq_layer_id rq_executor_id
    rq_token_position rq_flags rq_seq rq_rows rq_routes rq_hidden_rows];
    try width; try done.
  all: constructor; [|constructor].
  - unfold wf_row, sample_row. cbn. split_and!; width.
  - unfold sample_hidden. cbn [hr_payload hr_scales]. by rewrite !length_replicate.
  - split; apply Forall_replicate; unfold is_byte; lia.
  - done.
Qed.

Lemma sample_request_wf : wf_request sample_request NONE.
Proof.
  apply sample_request_like; [done|done|].
  repeat constructor; cbn; width.
Qed.

Lemma sample_bytes_ok : bytes_ok sample_bytes.
Proof.
  apply seal_ok, Forall_app_2; [apply write_header_ok|].
  apply request_body_ok, sample_request_wf.
Qed.

Lemma sample_bytes_length : Zlen sample_bytes = 4416.
Proof.
  unfold sample_bytes.
  rewrite seal_length by (rewrite length_app, Nat2Z.inj_add, write_header_length; lia).
  rewrite length_app, Nat2Z.inj_add, write_header_length.
  by rewrite (request_body_length _ _ sample_request_wf).
Qed.

Lemma sample_decodes :
  decode_frame Sse42 false sample_bytes NONE = Ok (FrameRequest sample_request).
Proof. unfold sample_bytes. apply decode_encoded_request, sample_request_wf. Qed.

Lemma sample_return_machine naive flags :
  has naive PER_ROUTE_RETURN = false -> u32_range flags ->
  machine_return (with_flags sample_return flags) naive.
Proof.
  intros Hn Hf. constructor; try width; try done.
  - constructor; [|constructor]. apply Forall_replicate. width.
  - unfold return_row_bytes. rewrite Hn. by destruct (has naive FP32_RETURN).
Qed.

Lemma sample_return_encodable naive flags :
  has naive PER_ROUTE_RETURN = false -> encodable (with_flags sample_return flags) naive.
Proof.
  intros Hn. constructor; try done.
  - constructor; [|constructor]. cbn [with_flags sample_return rr_codes]. by rewrite length_replicate.
  - unfold return_row_bytes. rewrite Hn. by destruct (has naive FP32_RETURN).
Qed.

Lemma sample_return_wf naive :
  has naive PER_ROUTE_RETURN = false -> wf_return sample_return naive.
Proof.
  intros Hn. constructor; [by apply sample_return_machine|by apply sample_return_encodable|done|].
  constructor; [|constructor]. apply Forall_replicate. unfold kept_code.
  change (0x7F80 <? _) with false. by rewrite andb_false_r.
Qed.

(** * Round trips *)

(** C1: a request frame the encoder accepts decodes to itself, under every
    combination of the naive-baseline switches, with or without checksums. *)
Theorem request_roundtrip cpu nocrc f naive :
  wf_request f naive ->
  exists bytes, encode_request cpu nocrc f naive = Ok bytes /\
    decode_frame cpu nocrc bytes naive = Ok (FrameRequest f).
Proof.
  intros Hwf. eexists. split; [by apply encode_request_wire|].
  by apply decode_encoded_request.
Qed.

Lemma request_roundtrip_witness :
  wf_request sample_request NONE /\
  exists bytes, encode_request Sse42 false sample_request NONE = Ok bytes /\
    decode_frame Sse42 false bytes NONE = Ok (FrameRequest sample_request).
Proof.
  split; [apply sample_request_wf|].
  apply (request_roundtrip Sse42 false sample_request NONE), sample_request_wf.
Defined.

(** C2: encoding a return whose frame fits a vector succeeds exactly when it has rows and
    routes, rows of HIDDEN codes, and counts and a row size of 32 bits; decoding the bytes then
    gives the frame back, NaN codes rewritten by a rounding FP32 return excepted, or
    [UnpresummedReturn] for an Ok return without the compact flags; no path panics. *)
Theorem return_roundtrip cpu nocrc f naive :
  machine_return f naive ->
  match encode_return cpu nocrc f naive with
  | Ok bytes => encodable f naive /\
      decode_frame cpu nocrc bytes naive = decoded_return f naive
  | Err _ => ~ encodable f naive
  | Panic => False
  end /\
  (wf_return f naive ->
   exists bytes, encode_return cpu nocrc f naive = Ok bytes /\
     decode_frame cpu nocrc bytes naive = Ok (FrameReturn f)).
Proof.
  intros Hm. assert (encodable f naive -> exists bytes, encode_return cpu nocrc f naive = Ok bytes /\
    decode_frame cpu nocrc bytes naive = decoded_return f naive) as Hok.
  { intros Hen. eexists. split; [by apply encode_return_wire|]. by apply decode_encoded_return. }
  split.
  - pose proof (encode_return_checks cpu nocrc f naive Hm) as Hchecks.
    destruct (encode_return cpu nocrc f naive); [|done..]. destruct (Hok Hchecks) as (? & [= <-] & ?). done.
  - intros Hwf. rewrite <-(wf_return_decoded f naive Hwf). apply Hok, Hwf.
Qed.

Lemma return_roundtrip_witness :
  (wf_return sample_return FP32_RETURN /\
   exists bytes, encode_return NoCrcHardware false sample_return FP32_RETURN = Ok bytes /\
     decode_frame NoCrcHardware false bytes FP32_RETURN = Ok (FrameReturn sample_return)) /\
  (exists bytes, encode_return Sse42 false (with_flags sample_return 0) NONE = Ok bytes /\
     decode_frame Sse42 false bytes NONE = Err (UnpresummedReturn 0)).
Proof.
  split.
  - split; [by apply sample_return_wf|]. apply (return_roundtrip NoCrcHardware false sample_return FP32_RETURN).
    + by apply sample_return_machine.
    + by apply sample_return_wf.
  - pose proof (sample_return_encodable NONE 0 eq_refl) as Hen.
    destruct (return_roundtrip Sse42 false (with_flags sample_return 0) NONE) as [H _];
      [by apply sample_return_machine|].
    destruct (encode_return Sse42 false _ NONE) as [bytes|e|]; [|by destruct (H Hen)|done].
    exists bytes. by split; [|apply H].
Defined.

(** What an FP32 return does to a NaN code: the payload goes, the sign stays; a return that
    truncates keeps it. *)
Example kept_nan : kept_code FP32_RETURN 0xFFC1 = 0xFFFF /\
  kept_code (Z.lor FP32_RETURN BF16_TRUNCATE) 0xFFC1 = 0xFFC1 /\ kept_code NONE 0xFFC1 = 0xFFC1.
Proof. done. Qed.

(** C3: a checksummed frame with at most four consecutive bytes replaced, the
    window not straddling an end of the checksum field, is never accepted. *)
Theorem corruption_detected cpu naive pre m1 m2 suf f1 f2 :
  has naive CRC_UNCHECKED = false -> has naive CRC_HEADER_EXEMPT = false ->
  bytes_ok (pre ++ m1 ++ suf) -> bytes_ok m2 -> length m1 = length m2 ->
  (length m1 <= 4)%nat -> m1 <> m2 -> clean_window (Zlen pre) (Zlen m1) ->
  decode_frame cpu false (pre ++ m1 ++ suf) naive = Ok f1 ->
  decode_frame cpu false (pre ++ m2 ++ suf) naive <> Ok f2.
Proof. intros. by eapply corruption_rejected. Qed.

Lemma corruption_detected_witness :
  exists pre b suf, sample_bytes = pre ++ [b] ++ suf /\
    decode_frame Sse42 false (pre ++ [b] ++ suf) NONE = Ok (FrameRequest sample_request) /\
    decode_frame Sse42 false (pre ++ [(b + 1) mod 256] ++ suf) NONE
      <> Ok (FrameRequest sample_request).
Proof.
  generalize sample_decodes, sample_bytes_ok, sample_bytes_length.
  generalize sample_bytes. generalize (FrameRequest sample_request). intros fr bytes Hd Hok Hlen.
  destruct (lookup_lt_is_Some_2 bytes 200) as [b Hb]; [lia|].
  pose proof (take_drop_middle _ _ _ Hb) as Heq.
  exists (take 200 bytes), b, (drop 201 bytes). split; [by symmetry|].
  change (take 200 bytes ++ b :: drop 201 bytes = bytes)
    with (take 200 bytes ++ [b] ++ drop 201 bytes = bytes) in Heq.
  split; [by rewrite Heq|].
  pose proof (Forall_lookup_1 _ _ _ _ Hok Hb) as Hbyte. unfold is_byte in Hbyte.
  apply (corruption_detected Sse42 NONE _ [b] [(b + 1) mod 256] _ fr fr).
  - done.
  - done.
  - by rewrite Heq.
  - constructor; [apply is_byte_mod|constructor].
  - done.
  - cbn. lia.
  - intros [= Hbad]. destruct (Z.eq_dec b 255) as [-> |]; [done|].
    rewrite Z.mod_small in Hbad by lia. lia.
  - right; right. rewrite length_take_le by lia. unfold hdr_CRC32C. lia.
  - by rewrite Heq.
Defined.

(** C4: the decoder never panics on any bytes, except on a return frame whose
    two zero-required section lengths are nonzero and overflow 32 bits (a panic in a build
    with overflow checks). *)
Theorem decode_frame_panics_only_on_overflow cpu nocrc bytes naive :
  bytes_ok bytes -> decode_frame cpu nocrc bytes naive = Panic ->
  exists h, parse_header bytes naive = Ok h /\ hf_kind h = KIND_RETURN /\
    2 ^ 32 <= hf_row_descriptor_bytes h + hf_route_bytes h.
Proof.
  intros Hb H. unfold decode_frame in H.
  destruct (parse_header bytes naive) as [h|e|] eqn:Hh; [|done|].
  2:{ pose proof (parse_header_no_panic bytes naive) as Hn. by rewrite Hh in Hn. }
  destruct (parse_header_wf _ _ _ Hb Hh) as (Hwf & Hlen & _). cbn [mbind outcome_bind] in H.
  destruct (verify_crc cpu nocrc bytes naive (hf_seq h)) as [[]|e|] eqn:Hv; [|done|].
  2:{ pose proof (verify_crc_no_panic cpu nocrc bytes naive (hf_seq h)) as Hn. by rewrite Hv in Hn. }
  cbn [mbind outcome_bind] in H. exists h. split; [done|].
  destruct (wfh_kind h Hwf) as [Hk|Hk]; rewrite Hk in *; cbn in H.
  - pose proof (decode_request_no_panic h bytes naive Hwf Hlen) as Hn.
    by destruct (decode_request h bytes naive).
  - split; [done|]. apply (decode_return_panic h bytes naive Hwf Hlen).
    by destruct (decode_return h bytes naive).
Qed.

Lemma decode_frame_panics_only_on_overflow_witness :
  decode_frame Sse42 true overflow_bytes NONE = Panic /\
  exists h, parse_header overflow_bytes NONE = Ok h /\ hf_kind h = KIND_RETURN /\
    2 ^ 32 <= hf_row_descriptor_bytes h + hf_route_bytes h.
Proof.
  split; [reflexivity|].
  apply (decode_frame_panics_only_on_overflow Sse42 true overflow_bytes NONE).
  - apply write_header_ok.
  - reflexivity.
Defined.

(** C5: [RequestView::parse] accepts exactly the byte strings [decode_frame]
    decodes to a request, and the view's rows, routes and hidden bytes are the
    frame's. *)
Theorem request_view_agrees cpu nocrc bytes naive :
  bytes_ok bytes ->
  (forall f, decode_frame cpu nocrc bytes naive = Ok (FrameRequest f) ->
     exists v, RequestView_parse cpu nocrc bytes naive = Ok v /\ view_matches v f) /\
  (forall v, RequestView_parse cpu nocrc bytes naive = Ok v ->
     exists f, decode_frame cpu nocrc bytes naive = Ok (FrameRequest f) /\ view_matches v f).
Proof.
  intros Hb. split.
  - intros f Hf. apply (view_of_frame _ _ _ _ Hb) in Hf as (v & Hv & Hm & _). eauto.
  - intros v Hv. destruct (view_describes _ _ _ _ Hb v Hv) as (f & Hm & Hhid).
    exists f. split; [|done]. apply (view_of_frame _ _ _ _ Hb). eauto.
Qed.

Lemma request_view_agrees_witness :
  bytes_ok sample_bytes /\
  exists v, RequestView_parse Sse42 false sample_bytes NONE = Ok v /\
    view_matches v sample_request.
Proof.
  split; [apply sample_bytes_ok|].
  apply (proj1 (request_view_agrees Sse42 false sample_bytes NONE sample_bytes_ok)
    sample_request).
  apply sample_decodes.
Defined.

(** * Sizes and checksums *)

(** The measured contract: on the ordinary wire a request is the 128-byte
    header plus 4,360 bytes per row of eight routes, and a return is the header
    plus 8,192 bytes per row. *)
Theorem wire_sizes cpu nocrc rq rt :
  wf_request rq NONE -> Zlen (rq_routes rq) = Zlen (rq_rows rq) * TOPK ->
  wf_return rt NONE ->
  (exists bytes, encode_request cpu nocrc rq NONE = Ok bytes /\
     Zlen bytes = 128 + Zlen (rq_rows rq) * 4360) /\
  (exists bytes, encode_return cpu nocrc rt NONE = Ok bytes /\
     Zlen bytes = 128 + Zlen (rt_rows rt) * 8192).
Proof.
  intros Hq Htopk [Hm Hen _ _]. split; eexists; (split; [by first
    [apply encode_request_wire | apply encode_return_wire]|]).
  - rewrite seal_length by (rewrite length_app, Nat2Z.inj_add, write_header_length; lia).
    rewrite length_app, Nat2Z.inj_add, write_header_length, (request_body_length _ _ Hq), Htopk.
    change (hidden_row_bytes NONE) with 4224. layout_consts. lia.
  - rewrite seal_length by (rewrite length_app, Nat2Z.inj_add, write_header_length; lia).
    rewrite length_app, Nat2Z.inj_add, write_header_length, (return_body_length _ _ Hen).
    change (return_row_bytes _ NONE) with 8192. layout_consts. lia.
Qed.

Lemma wire_sizes_witness :
  let rq := mkRequestFrame 11 1 4 2 Decode 3 0 99 [sample_row]
              (replicate 8 (mkRouteEntry 0 5 0x3F800000)) [sample_hidden] in
  (exists bytes, encode_request NoCrcHardware true rq NONE = Ok bytes /\
     Zlen bytes = 128 + 1 * 4360) /\
  (exists bytes, encode_return NoCrcHardware true sample_return NONE = Ok bytes /\
     Zlen bytes = 128 + 1 * 8192).
Proof.
  apply (wire_sizes NoCrcHardware true).
  - apply sample_request_like; [done|done|]. apply Forall_replicate. repeat constructor; cbn; width.
  - done.
  - by apply sample_return_wf.
Defined.

(** The CRC of the two hardware paths, of the table and of the bit-by-bit
    reference is the same function; the field-zeroing variant is the CRC of the
    frame with its checksum field zeroed; and it is a 32-bit value. *)
Theorem crc32c_paths_agree cpu bytes off :
  bytes_ok bytes -> 0 <= off -> off + 4 <= Zlen bytes ->
  crc32c cpu bytes = crc32c_bitwise bytes /\ crc32c_table bytes = crc32c_bitwise bytes /\
  crc32c_zeroed cpu Castagnoli bytes off = crc32c_bitwise (splice bytes off [0; 0; 0; 0]) /\
  u32_range (crc32c cpu bytes).
Proof.
  intros Hb Hoff Hlen.
  assert (forall l, bytes_ok l -> crc32c cpu l = crc32c_bitwise l) as Hc.
  { intros l Hl. unfold crc32c. by rewrite crc32c_with_ref. }
  split_and!.
  - by apply Hc.
  - unfold crc32c_table, CRC32C_TABLE.
    by rewrite update_table_ref by first [done | apply ones32_range | apply (family_poly_ok Castagnoli)].
  - rewrite crc32c_zeroed_splice by done. apply Hc, bytes_ok_splice; [done|].
    repeat constructor; unfold is_byte; lia.
  - by apply crc32c_with_range.
Qed.

Lemma crc32c_paths_agree_witness :
  let bytes := [49; 50; 51; 52; 53; 54; 55; 56; 57] in
  crc32c Sse42 bytes = crc32c_bitwise bytes /\ crc32c_table bytes = crc32c_bitwise bytes /\
  crc32c_zeroed Sse42 Castagnoli bytes 2 = crc32c_bitwise (splice bytes 2 [0; 0; 0; 0]) /\
  u32_range (crc32c Sse42 bytes).
Proof.
  apply crc32c_paths_agree; [|lia|cbn; lia]. repeat constructor; unfold is_byte; lia.
Defined.

(** Converting an FP32 value that is not a NaN to BF16 keeps its sign and
    gives the nearest BF16 magnitude, ties to even, saturating at infinity;
    BF16 codes survive the trip to FP32 and back. *)
Theorem bf16_rounds_to_nearest bits :
  u32_range bits -> bits mod 2 ^ 31 <= 0x7F800000 ->
  (exists r, f32_to_bf16 bits NONE = 2 ^ 15 * (bits / 2 ^ 31) + r /\ 0 <= r <= 0x7F80 /\
    Z.abs (bits mod 2 ^ 31 - r * 2 ^ 16) <= 2 ^ 15 /\
    (Z.abs (bits mod 2 ^ 31 - r * 2 ^ 16) = 2 ^ 15 -> r mod 2 = 0)) /\
  (forall code, bf16_not_nan code -> f32_to_bf16 (bf16_to_f32 code) NONE = code).
Proof.
  intros Hb Hm. split; [by apply bf16_rne_nearest_lemma|]. apply bf16_roundtrip_lemma.
Qed.

Lemma bf16_rounds_to_nearest_witness :
  (exists r, f32_to_bf16 0xBF818000 NONE = 2 ^ 15 * (0xBF818000 / 2 ^ 31) + r /\
    0 <= r <= 0x7F80 /\
    Z.abs (0xBF818000 mod 2 ^ 31 - r * 2 ^ 16) <= 2 ^ 15 /\
    (Z.abs (0xBF818000 mod 2 ^ 31 - r * 2 ^ 16) = 2 ^ 15 -> r mod 2 = 0)).
Proof.
  apply (bf16_rounds_to_nearest 0xBF818000); [width|]. vm_compute. discriminate.
Defined.
