(* ===== verification/Ladder.v ===== *)
(** [crates/mimo26-wire/src/l4.rs]: the integrity ladder above the frame codec.
    A sender stamps consecutive sequence numbers, a receiver accepts exactly the
    next one, a retry driver bounds retransmission, and the coordinator adds the
    four partial rows of a token in rank order.

    Methods that take [&mut self] return the new state next to their result, so
    that the state they leave behind on an error is part of the model.  An [f32]
    the coordinator adds is a [spec_float] of the binary32 format. *)
From Stdlib Require Import ZArith Lia Bool SpecFloat.
From stdpp Require Import base list gmap strings.
From S2P Require Import Prelude Layout Crc32c Bf16 Frame.

(** * Sequence numbers *)

Record StreamSender := mkStreamSender {
  ss_naive : WireNaive;
  ss_next_seq : Z;
}.

Definition StreamSender_new (naive : WireNaive) : StreamSender := mkStreamSender naive 0.

Section with_process.
Context (cpu : CpuCrc) (nocrc : bool).

(** [let seq = self.next_seq; self.next_seq += 1;] then [k seq]. *)
Definition take_seq_then {A} (s : StreamSender) (k : Z -> outcome WireError A)
    : StreamSender * outcome WireError A :=
  let seq := ss_next_seq s in
  if seq + 1 <? 2 ^ 64 then (mkStreamSender (ss_naive s) (seq + 1), k seq) else (s, Panic).

Definition take_seq (s : StreamSender) : StreamSender * outcome WireError Z :=
  take_seq_then s Ok.

Definition StreamSender_encode_request (s : StreamSender) (f : RequestFrame)
    : StreamSender * outcome WireError (list Z) :=
  take_seq_then s (fun seq => encode_request_seq cpu nocrc f seq (ss_naive s)).

Definition StreamSender_encode_return (s : StreamSender) (f : ReturnFrame)
    : StreamSender * outcome WireError (list Z) :=
  take_seq_then s (fun seq => encode_return_seq cpu nocrc f seq (ss_naive s)).

Record StreamReceiver := mkStreamReceiver {
  sr_naive : WireNaive;
  sr_expected : Z;
}.

Definition StreamReceiver_new (naive : WireNaive) : StreamReceiver := mkStreamReceiver naive 0.

Definition accept_seq (r : StreamReceiver) (seq : Z)
    : StreamReceiver * outcome WireError unit :=
  if has (sr_naive r) SEQ_IGNORED then (r, Ok tt)
  else if seq =? sr_expected r then
    if sr_expected r + 1 <? 2 ^ 64
    then (mkStreamReceiver (sr_naive r) (sr_expected r + 1), Ok tt) else (r, Panic)
  else if seq <? sr_expected r then (r, Err (Duplicate seq (sr_expected r)))
  else (r, Err (OutOfOrder (sr_expected r) seq)).

Definition accept (r : StreamReceiver) (bytes : list Z)
    : StreamReceiver * outcome WireError Frame :=
  match decode_frame cpu nocrc bytes (sr_naive r) with
  | Err e => (r, Err e)
  | Panic => (r, Panic)
  | Ok f =>
    let seq := Frame_seq f in
    if has (sr_naive r) SEQ_IGNORED then (r, Ok f)
    else if seq =? sr_expected r then
      if sr_expected r + 1 <? 2 ^ 64
      then (mkStreamReceiver (sr_naive r) (sr_expected r + 1), Ok f) else (r, Panic)
    else if seq <? sr_expected r then (r, Err (Duplicate seq (sr_expected r)))
    else (r, Err (OutOfOrder (sr_expected r) seq))
  end.

(** A receiver fed a list of byte strings; the frames it accepted, in order. *)
Fixpoint accept_all (r : StreamReceiver) (l : list (list Z)) : StreamReceiver * list Frame :=
  match l with
  | [] => (r, [])
  | bytes :: l =>
    let '(r, res) := accept r bytes in
    let '(r', fs) := accept_all r l in
    (r', match res with Ok f => f :: fs | _ => fs end)
  end.

(** A sender given a list of requests; the byte strings it produced. *)
Fixpoint send_all (s : StreamSender) (fs : list RequestFrame)
    : StreamSender * list (outcome WireError (list Z)) :=
  match fs with
  | [] => (s, [])
  | f :: fs =>
    let '(s, res) := StreamSender_encode_request s f in
    let '(s, rest) := send_all s fs in (s, res :: rest)
  end.
End with_process.

(** * Bounded retry

    [op] is the [FnMut] closure: it acts on the state [S] it captures.  The loop
    runs on fuel; the driver is correct for any fuel of at least
    [max 1 max_attempts]. *)
Section retry.
Context {S T : Type} (op : S -> S * outcome WireError T).

Fixpoint retry_loop (fuel : nat) (max_attempts attempts : Z) (s : S)
    : S * option (outcome WireError T) :=
  match fuel with
  | O => (s, None)
  | Datatypes.S fuel =>
    match op s with
    | (s, Ok v) => (s, Some (Ok v))
    | (s, Panic) => (s, Some Panic)
    | (s, Err e) =>
      match disposition e with
      | Retry =>
        if attempts + 1 <? max_attempts then retry_loop fuel max_attempts (attempts + 1) s
        else (s, Some (Err (RetryExhausted attempts e)))
      | _ => (s, Some (Err e))
      end
    end
  end.

Definition retry_until (fuel : nat) (max_attempts : Z) (s : S)
    : S * option (outcome WireError T) := retry_loop fuel max_attempts 0 s.

(** The state after [n] calls of [op] and the result of the last one. *)
Fixpoint call_n (n : nat) (s : S) : S :=
  match n with O => s | Datatypes.S n => call_n n (fst (op s)) end.
End retry.

(** * The coordinator's sum *)

Record CoordinatorSum := mkCoordinatorSum {
  cs_naive : WireNaive;
  cs_rows : Z;
  cs_hidden : Z;
  cs_seen : list SlotKey;
  cs_distinct : Z;
  cs_acc : list spec_float;
  cs_arrivals : Z;
  cs_rank_buf : list spec_float;
  cs_slot_rank_count : list Z;
}.

Definition CoordinatorSum_new (rows hidden : Z) (naive : WireNaive) : CoordinatorSum :=
  mkCoordinatorSum naive rows hidden [] 0
    (replicate (Z.to_nat (rows * hidden)) f32_zero) 0
    (replicate (Z.to_nat (SPARKS * rows * hidden)) f32_zero)
    (replicate (Z.to_nat rows) 0).

Definition CoordinatorSum_filled (s : CoordinatorSum) : Z := cs_distinct s.

Definition CoordinatorSum_is_complete (s : CoordinatorSum) : bool :=
  cs_distinct s =? cs_rows s * SPARKS.

(** [v[i]], [v[i] = x] and [v[i] += x]. *)
Definition vec_get {E A} (v : list A) (i : Z) : outcome E A :=
  match v !! Z.to_nat i with Some x => Ok x | None => Panic end.

Definition vec_set {E A} (v : list A) (i : Z) (x : A) : outcome E (list A) :=
  if i <? Zlen v then Ok (<[Z.to_nat i := x]> v) else Panic.

Definition vec_add {E} (v : list spec_float) (i : Z) (x : spec_float)
    : outcome E (list spec_float) :=
  old ← vec_get v i; vec_set v i (f32_add old x).

(** [for (i, &code) in codes.iter().enumerate() { v[at + i] += bf16_to_f32(code) }] *)
Definition add_codes {E} (v : list spec_float) (at_ : Z) (codes : list Z)
    : outcome E (list spec_float) :=
  fold_try (fun v '(i, code) => vec_add v (at_ + i) (f32_from_bits (bf16_to_f32 code)))
    v (zip (seqZ 0 (Zlen codes)) codes).

(** [let mut s = 0.0f32; for rr in 0..SPARKS { s += rank_buf[..] }] *)
Definition rank_sum_at {E} (rank_buf : list spec_float) (stride at_ : Z)
    : outcome E spec_float :=
  fold_try (fun s rr => x ← vec_get rank_buf (rr * stride + at_); Ok (f32_add s x))
    f32_zero (seqZ 0 SPARKS).

(** One pass of the loop over [f.rows]. *)
Definition accumulate_row (s : CoordinatorSum) (f : ReturnFrame) (r : Z) (row : ReturnRow)
    : outcome WireError CoordinatorSum :=
  let rank := rt_executor_id f in
  if rt_token_position f + r >=? 2 ^ 64
  then Err (DimMismatch "token_position" (cs_rows s) (2 ^ 64 - 1)) else
  let token := rt_token_position f + r in
  if token >=? cs_rows s then Err (DimMismatch "token_position" (cs_rows s) token)
  else if negb (Zlen (rr_codes row) =? cs_hidden s)
  then Err (DimMismatch "return_row_codes" (cs_hidden s) (Zlen (rr_codes row)))
  else
  let key := mkSlotKey (rt_request_id f) (rt_layer_id f) token (rt_executor_id f) in
  let is_dup := bool_decide (key ∈ cs_seen s) in
  if is_dup && negb (has (cs_naive s) DUP_DOUBLE_COUNT) then Err (SlotFilled key) else
  let slot_row := if has (cs_naive s) ACCUM_BY_ARRIVAL
                  then (cs_arrivals s / SPARKS) mod cs_rows s else token in
  arrivals ← usize_add (cs_arrivals s) 1;
  let seen := cs_seen s ++ [key] in
  '(distinct, counts) ←
    (if is_dup then Ok (cs_distinct s, cs_slot_rank_count s) else
     distinct ← usize_add (cs_distinct s) 1;
     c ← vec_get (cs_slot_rank_count s) slot_row;
     if c + 1 <? 256 then
       counts ← vec_set (cs_slot_rank_count s) slot_row (c + 1); Ok (distinct, counts)
     else Panic);
  let base := slot_row * cs_hidden s in
  if has (cs_naive s) RANK_SUM_BY_ARRIVAL then
    acc ← add_codes (cs_acc s) base (rr_codes row);
    Ok (mkCoordinatorSum (cs_naive s) (cs_rows s) (cs_hidden s) seen distinct acc arrivals
          (cs_rank_buf s) counts)
  else
    let stride := cs_rows s * cs_hidden s in
    rank_buf ← add_codes (cs_rank_buf s) (rank * stride + base) (rr_codes row);
    c ← vec_get counts slot_row;
    acc ← (if c =? SPARKS
           then fold_try (fun acc i =>
                  x ← rank_sum_at rank_buf stride (base + i); vec_set acc (base + i) x)
                  (cs_acc s) (seqZ 0 (cs_hidden s))
           else Ok (cs_acc s));
    Ok (mkCoordinatorSum (cs_naive s) (cs_rows s) (cs_hidden s) seen distinct acc arrivals
          rank_buf counts).

(** The row loop: an error leaves the rows before it accumulated. *)
Fixpoint accumulate_rows (s : CoordinatorSum) (f : ReturnFrame) (r : Z) (rows : list ReturnRow)
    : CoordinatorSum * outcome WireError unit :=
  match rows with
  | [] => (s, Ok tt)
  | row :: rows =>
    match accumulate_row s f r row with
    | Ok s => accumulate_rows s f (r + 1) rows
    | Err e => (s, Err e)
    | Panic => (s, Panic)
    end
  end.

Definition accumulate (s : CoordinatorSum) (f : ReturnFrame)
    : CoordinatorSum * outcome WireError unit :=
  if negb (bool_decide (rt_status f = StatusOk))
  then (s, Err (SparkReportedError (rt_executor_id f)))
  else if rt_executor_id f >=? SPARKS
  then (s, Err (DimMismatch "executor_id" SPARKS (rt_executor_id f)))
  else accumulate_rows s f 0 (rt_rows f).

Definition CoordinatorSum_result (s : CoordinatorSum) : outcome WireError (list spec_float) :=
  let need := cs_rows s * SPARKS in
  if negb (cs_distinct s =? need) then Err (Incomplete (cs_distinct s) need)
  else Ok (cs_acc s).

(** A sum fed a list of frames, all of which it must accept. *)
Fixpoint accumulate_all (s : CoordinatorSum) (fs : list ReturnFrame)
    : outcome WireError CoordinatorSum :=
  match fs with
  | [] => Ok s
  | f :: fs =>
    match accumulate s f with
    | (s, Ok _) => accumulate_all s fs
    | (_, Err e) => Err e
    | (_, Panic) => Panic
    end
  end.

(** The four partials 2^24, 1, -2^24, 1 of one element, in two delivery orders. *)
Definition r8_partial (rank code : Z) : ReturnFrame :=
  mkReturnFrame 1 1 0 rank 0 StatusOk FLAG_RETURN_REQUIRED 1 0 [mkReturnRow [code]].

Example r8_rank_order :
  (s ← accumulate_all (CoordinatorSum_new 1 1 NONE)
         [r8_partial 0 0x4B80; r8_partial 1 0x3F80; r8_partial 2 0xCB80; r8_partial 3 0x3F80];
   CoordinatorSum_result s) = Ok [f32_from_bits 0x3F800000].
Proof. vm_compute. reflexivity. Qed.

Example r8_other_order :
  (s ← accumulate_all (CoordinatorSum_new 1 1 NONE)
         [r8_partial 3 0x3F80; r8_partial 1 0x3F80; r8_partial 2 0xCB80; r8_partial 0 0x4B80];
   CoordinatorSum_result s) = Ok [f32_from_bits 0x3F800000].
Proof. vm_compute. reflexivity. Qed.
