(* ===== verification/LadderProofs.v ===== *)
(** The ladder of [Ladder.v]: in-order exactly-once delivery, bounded retry, and a
    coordinator sum that does not depend on the delivery order.

    [CoordinatorSum] of [Ladder.v]: whatever order the partials arrive in, the
    accumulator holds the rank-ordered sum of each complete token.

    The properties of the integrity ladder and of the coordinator's sum. *)
From Stdlib Require Import ZArith Lia Bool SpecFloat.
From stdpp Require Import base list gmap strings sorting.
From S2P Require Import Prelude Layout Crc32c Bf16 Frame FrameProofs FrameTheorems Ladder.

(** * Definitions used by the statements *)

(** The frame as it leaves the sender. *)
Definition with_seq (f : RequestFrame) (seq : Z) : RequestFrame :=
  mkRequestFrame (rq_request_id f) (rq_placement_version f) (rq_layer_id f)
    (rq_executor_id f) (rq_source_kind f) (rq_token_position f) (rq_flags f) seq
    (rq_rows f) (rq_routes f) (rq_hidden_rows f).

Fixpoint stamped (seq : Z) (fs : list RequestFrame) : list RequestFrame :=
  match fs with
  | [] => []
  | f :: fs => with_seq f seq :: stamped (seq + 1) fs
  end.

(** One accepted row of a return frame: token, rank and BF16 codes. *)
Record Partial := mkPartial { pt_token : Z; pt_rank : Z; pt_codes : list Z }.

Fixpoint partials_from (f : ReturnFrame) (r : Z) (rows : list ReturnRow) : list Partial :=
  match rows with
  | [] => []
  | row :: rows =>
    mkPartial (rt_token_position f + r) (rt_executor_id f) (rr_codes row)
    :: partials_from f (r + 1) rows
  end.

Definition frame_partials (f : ReturnFrame) : list Partial := partials_from f 0 (rt_rows f).

(** The value a partial contributes to element [i] of its rank's buffer. *)
Definition partial_value (p : Partial) (i : Z) : spec_float :=
  f32_add f32_zero (f32_from_bits (bf16_to_f32 (default 0 (pt_codes p !! Z.to_nat i)))).

Definition slot_value (ps : list Partial) (t rank i : Z) : spec_float :=
  match list_find (fun p => pt_token p = t /\ pt_rank p = rank) ps with
  | Some (_, p) => partial_value p i
  | None => f32_zero
  end.

(** The specification of the sum: ranks 0, 1, 2, 3 added in that order. *)
Definition rank_ordered_sum (ps : list Partial) (t i : Z) : spec_float :=
  foldl (fun s rank => f32_add s (slot_value ps t rank i)) f32_zero (seqZ 0 SPARKS).

(** * Sequence discipline *)

Lemma accept_Ok cpu nocrc r bytes r' f :
  has (sr_naive r) SEQ_IGNORED = false ->
  accept cpu nocrc r bytes = (r', Ok f) ->
  decode_frame cpu nocrc bytes (sr_naive r) = Ok f /\ Frame_seq f = sr_expected r /\
  r' = mkStreamReceiver (sr_naive r) (sr_expected r + 1).
Proof.
  intros Hn H. unfold accept in H. rewrite Hn in H.
  destruct (decode_frame _ _ _ _) as [f'|e|]; simplify_eq.
  destruct (Z.eqb_spec (Frame_seq f') (sr_expected r)); [|by destruct (_ <? _)].
  destruct (_ <? _); by simplify_eq.
Qed.

Lemma accept_not_Ok cpu nocrc r bytes r' res :
  accept cpu nocrc r bytes = (r', res) -> is_ok res = false -> r' = r.
Proof.
  unfold accept. intros H Hres. repeat case_match; simplify_eq; try done.
Qed.

Lemma accept_all_seqs cpu nocrc r l :
  has (sr_naive r) SEQ_IGNORED = false ->
  let '(r', fs) := accept_all cpu nocrc r l in
  Frame_seq <$> fs = seqZ (sr_expected r) (Zlen fs) /\ sr_naive r' = sr_naive r /\
  sr_expected r' = sr_expected r + Zlen fs.
Proof.
  revert r; induction l as [|bytes l IH]; intros r Hn; cbn [accept_all].
  { cbn. split_and!; [done..|lia]. }
  destruct (accept cpu nocrc r bytes) as [r1 res] eqn:Ha.
  destruct (is_ok res) eqn:Hres.
  - destruct res as [f| |]; try discriminate.
    apply accept_Ok in Ha as (_ & Hseq & ->); [|done].
    specialize (IH (mkStreamReceiver (sr_naive r) (sr_expected r + 1)) Hn).
    destruct (accept_all _ _ _ l) as [r' fs]. cbn in IH |- *. destruct IH as (Hs & Hn' & He).
    split_and!; [|done|rewrite He; lia].
    rewrite seqZ_cons by lia. rewrite Hseq. f_equal.
    replace (Z.pred (Z.of_nat (S (length fs)))) with (Zlen fs) by lia.
    by replace (Z.succ (sr_expected r)) with (sr_expected r + 1) by lia.
  - pose proof (accept_not_Ok _ _ _ _ _ _ Ha Hres) as ->. specialize (IH r Hn).
    destruct (accept_all _ _ _ l) as [r' fs]. by destruct res.
Qed.

(** * Sending *)

Lemma with_seq_wf f naive seq :
  wf_request f naive -> u64_range seq -> wf_request (with_seq f seq) naive.
Proof. intros [] ?. by constructor. Qed.

Definition wire_of (cpu : CpuCrc) (nocrc : bool) (naive : WireNaive) (f : RequestFrame)
    : list Z :=
  seal cpu nocrc (write_header (request_header f naive) naive ++ request_body f naive) naive.

Lemma encode_request_seq_wire cpu nocrc f naive seq :
  wf_request f naive -> u64_range seq ->
  encode_request_seq cpu nocrc f seq naive = Ok (wire_of cpu nocrc naive (with_seq f seq)).
Proof.
  intros Hwf Hseq. unfold wire_of. rewrite <-(encode_request_wire naive (with_seq f seq))
    by by apply with_seq_wf. done.
Qed.

Lemma send_all_wire cpu nocrc naive fs seq :
  Forall (fun f => wf_request f naive) fs -> 0 <= seq -> seq + Zlen fs < 2 ^ 64 ->
  send_all cpu nocrc (mkStreamSender naive seq) fs =
  (mkStreamSender naive (seq + Zlen fs), (Ok ∘ wire_of cpu nocrc naive) <$> stamped seq fs).
Proof.
  intros Hwf. revert seq; induction Hwf as [|f fs Hf _ IH]; intros seq Hs Hlen.
  { cbn. by rewrite Z.add_0_r. }
  cbn [send_all length] in *. unfold StreamSender_encode_request, take_seq_then.
  cbn [ss_next_seq ss_naive]. rewrite (proj2 (Z.ltb_lt _ _)) by lia.
  rewrite encode_request_seq_wire by (done || width).
  rewrite IH by lia. cbn. f_equal. f_equal. lia.
Qed.

Lemma stamped_lookup seq fs i f :
  stamped seq fs !! i = Some f <->
  exists g, fs !! i = Some g /\ f = with_seq g (seq + Z.of_nat i).
Proof.
  revert seq i; induction fs as [|g fs IH]; intros seq i.
  { cbn. split; [done|]. by intros (? & ? & _). }
  destruct i as [|i]; cbn.
  - split.
    + intros [= <-]. exists g. split; [done|]. f_equal. lia.
    + intros (? & [= <-] & ->). do 2 f_equal. lia.
  - rewrite IH. split; intros (h & ? & ->); exists h; (split; [done|f_equal; lia]).
Qed.

Lemma stamped_wf naive seq fs :
  Forall (fun f => wf_request f naive) fs -> 0 <= seq -> seq + Zlen fs < 2 ^ 64 ->
  Forall (fun f => wf_request f naive) (stamped seq fs).
Proof.
  intros Hwf Hs Hlen. apply Forall_lookup. intros i f (g & Hg & ->)%stamped_lookup.
  apply with_seq_wf; [exact (Forall_lookup_1 _ _ _ _ Hwf Hg)|].
  apply lookup_lt_Some in Hg. width.
Qed.

(** The frames a receiver takes from what a sender sent are a prefix of it. *)
Lemma accept_all_prefix cpu nocrc naive fs l n :
  has naive SEQ_IGNORED = false ->
  Forall (fun f => wf_request f naive) fs -> Zlen fs < 2 ^ 64 ->
  Forall (fun b => b ∈ wire_of cpu nocrc naive <$> stamped 0 fs \/
                   is_ok (decode_frame cpu nocrc b naive) = false) l ->
  (n <= length fs)%nat ->
  exists m, (n <= m <= length fs)%nat /\
    accept_all cpu nocrc (mkStreamReceiver naive (Z.of_nat n)) l =
    (mkStreamReceiver naive (Z.of_nat m),
     FrameRequest <$> take (m - n) (drop n (stamped 0 fs))).
Proof.
  intros Hn Hwf Hlen Hl. revert n; induction Hl as [|b l Hb _ IH]; intros n Hle.
  { exists n. split; [lia|]. by rewrite Nat.sub_diag. }
  cbn [accept_all]. destruct (accept _ _ _ b) as [r1 res] eqn:Ha.
  destruct (is_ok res) eqn:Hres.
  2:{ pose proof (accept_not_Ok _ _ _ _ _ _ Ha Hres) as ->.
      destruct (IH n Hle) as (m & Hm & ->). exists m. split; [done|]. by destruct res. }
  destruct res as [f| |]; try discriminate.
  apply accept_Ok in Ha as (Hd & Hseq & ->); [|done]. cbn in Hd, Hseq |- *.
  destruct Hb as [Hb|Hb]; [|by rewrite Hd in Hb].
  apply list_elem_of_fmap in Hb as (g & -> & [i Hi]%list_elem_of_lookup).
  assert (wf_request g naive) as Hg
    by exact (Forall_lookup_1 _ _ _ _ (stamped_wf _ 0 _ Hwf ltac:(lia) ltac:(lia)) Hi).
  unfold wire_of in Hd. rewrite (decode_encoded_request naive g Hg) in Hd. injection Hd as <-.
  pose proof Hi as Hi'. apply stamped_lookup in Hi' as (g' & Hg' & ->). cbn in Hseq.
  apply lookup_lt_Some in Hg'. assert (i = n) as -> by lia.
  replace (Z.of_nat n + 1) with (Z.of_nat (S n)) by lia.
  destruct (IH (S n) ltac:(lia)) as (m & Hm & ->). exists m. split; [lia|]. f_equal.
  rewrite (drop_S _ _ _ Hi). replace (m - n)%nat with (S (m - S n)) by lia. done.
Qed.

Lemma accept_all_complete cpu nocrc naive fs n :
  has naive SEQ_IGNORED = false ->
  Forall (fun f => wf_request f naive) fs -> 0 <= n -> n + Zlen fs < 2 ^ 64 ->
  accept_all cpu nocrc (mkStreamReceiver naive n) (wire_of cpu nocrc naive <$> stamped n fs)
  = (mkStreamReceiver naive (n + Zlen fs), FrameRequest <$> stamped n fs).
Proof.
  intros Hn Hwf. revert n; induction Hwf as [|f fs Hf _ IH]; intros n H0 Hlen.
  { cbn. by rewrite Z.add_0_r. }
  cbn [stamped length] in *. rewrite !fmap_cons. cbn [accept_all]. unfold accept.
  cbn [sr_naive sr_expected]. unfold wire_of at 1.
  rewrite decode_encoded_request by (apply with_seq_wf; [done|width]).
  cbn [Frame_seq with_seq rq_seq]. rewrite Hn, Z.eqb_refl, (proj2 (Z.ltb_lt _ _)) by lia.
  rewrite (IH (n + 1)) by lia. f_equal. f_equal. lia.
Qed.

(** * Bounded retry *)

Section retry_proofs.
Context {S T : Type} (op : S -> S * outcome WireError T).

Definition retry_result (attempts : Z) (res : outcome WireError T) : outcome WireError T :=
  match res with
  | Err e => match disposition e with Retry => Err (RetryExhausted attempts e) | _ => Err e end
  | res => res
  end.

Lemma retry_loop_spec fuel max a s :
  (Z.to_nat (Z.max 1 (max - a)) <= fuel)%nat ->
  exists k, Z.of_nat k < Z.max 1 (max - a) /\
    (forall j, (j < k)%nat -> exists e, snd (op (call_n op j s)) = Err e /\ disposition e = Retry) /\
    (forall e, snd (op (call_n op k s)) = Err e -> disposition e = Retry ->
       Z.of_nat k = Z.max 1 (max - a) - 1) /\
    retry_loop op fuel max a s =
      (call_n op (Datatypes.S k) s, Some (retry_result (a + Z.of_nat k) (snd (op (call_n op k s))))).
Proof.
  revert a s; induction fuel as [|fuel IH]; intros a s Hfuel; [lia|].
  cbn [retry_loop call_n]. destruct (op s) as [s' res] eqn:Hop.
  assert (is_ok res = true \/ res = Panic \/ (exists e, res = Err e /\ disposition e <> Retry)
    \/ (exists e, res = Err e /\ disposition e = Retry)) as Hcases.
  { destruct res as [v|e|]; [by left| |by right; left]. right; right.
    destruct (decide (disposition e = Retry)); [right|left]; eauto. }
  assert (forall r, (forall e, res = Err e -> disposition e <> Retry) -> r = retry_result a res ->
    exists k, Z.of_nat k < Z.max 1 (max - a) /\
    (forall j, (j < k)%nat -> exists e, snd (op (call_n op j s)) = Err e /\ disposition e = Retry) /\
    (forall e, snd (op (call_n op k s)) = Err e -> disposition e = Retry ->
       Z.of_nat k = Z.max 1 (max - a) - 1) /\
    (s', Some r) = (call_n op k (fst (s', res)),
      Some (retry_result (a + Z.of_nat k) (snd (op (call_n op k s)))))) as Hstop.
  { intros r Hr ->. exists O. cbn. rewrite Hop, Z.add_0_r. cbn. split_and!; [lia| |intros e He Hd|done].
    - intros. lia.
    - by apply Hr in He. }
  destruct Hcases as [Hok|[->|[(e & -> & Hd)|(e & -> & Hd)]]].
  - destruct res; try discriminate. by apply Hstop.
  - by apply Hstop.
  - replace (match disposition e with Retry => _ | DropIdempotent => _ | FailLoud => _ end)
      with (s', Some (Err e : outcome WireError T)) by by destruct (disposition e).
    apply Hstop; [by intros ? [= <-]|]. cbn. by destruct (disposition e).
  - rewrite Hd. destruct (Z.ltb_spec (a + 1) max) as [Hlt|Hge].
    + destruct (IH (a + 1) s') as (k & Hk & Hpre & Hlast & ->); [lia|].
      exists (Datatypes.S k). split_and!.
      * lia.
      * intros [|j] Hj; cbn; rewrite Hop; [by exists e|]. apply Hpre. lia.
      * cbn. rewrite Hop. cbn. intros e' He' Hd'. specialize (Hlast e' He' Hd'). lia.
      * cbn [call_n]. rewrite Hop. cbn [fst]. do 3 f_equal. lia.
    + exists O. cbn. rewrite Hop. cbn. rewrite Hd, Z.add_0_r. split_and!; [lia| |lia|done].
      intros. lia.
Qed.
End retry_proofs.

(** * Vectors *)

Lemma vec_get_Ok {E A} (v : list A) i x :
  v !! Z.to_nat i = Some x -> vec_get (E := E) v i = Ok x.
Proof. unfold vec_get. by intros ->. Qed.

Lemma vec_set_Ok {E A} (v : list A) i x :
  0 <= i -> i < Zlen v -> vec_set (E := E) v i x = Ok (<[Z.to_nat i := x]> v).
Proof. intros. unfold vec_set. by rewrite (proj2 (Z.ltb_lt _ _)). Qed.

Lemma vec_lookup_lt {A} (v : list A) i : 0 <= i < Zlen v -> exists x, v !! Z.to_nat i = Some x.
Proof. intros. apply lookup_lt_is_Some. lia. Qed.

Lemma foldl_pointwise {A B} (f g : A -> B -> A) (l : list B) a :
  (forall a b, f a b = g a b) -> foldl f a l = foldl g a l.
Proof. intros H. revert a; induction l as [|b l IH]; intros a; cbn; [done|]. by rewrite H, IH. Qed.

(** [n] updates at consecutive indices from [a]: [g i old] goes to [a + i]. *)
Definition updated {A} (v v' : list A) (a n : Z) (g : Z -> A -> A) : Prop :=
  length v' = length v /\
  forall j x, v !! j = Some x ->
    v' !! j = Some (if decide (a <= Z.of_nat j < a + n) then g (Z.of_nat j - a) x else x).

Lemma updated_insert {A} (v v' : list A) a n g x :
  updated v v' a n g -> 0 <= a -> 0 <= n -> a + n < Zlen v ->
  v !! Z.to_nat (a + n) = Some x ->
  updated v (<[Z.to_nat (a + n) := g n x]> v') a (n + 1) g.
Proof.
  intros [Hl Hu] Ha Hn Hlt Hx. split; [by rewrite length_insert|]. intros j y Hj.
  destruct (decide (j = Z.to_nat (a + n))) as [->|Hne].
  - rewrite list_lookup_insert_eq by lia. rewrite decide_True by lia.
    rewrite Hx in Hj. injection Hj as ->. do 2 f_equal. lia.
  - rewrite list_lookup_insert_ne by done. rewrite (Hu j y Hj).
    by rewrite !(decide_ext (a <= Z.of_nat j < a + (n + 1)) (a <= Z.of_nat j < a + n)) by lia.
Qed.

(** A loop that writes [a + i] on its [i]-th pass. *)
Lemma fold_updates {E A B} (f : list A -> B -> outcome E (list A)) (l : list B) v a g :
  0 <= a -> a + Zlen l <= Zlen v ->
  (forall i b v' x, l !! i = Some b -> updated v v' a (Z.of_nat i) g ->
     v !! Z.to_nat (a + Z.of_nat i) = Some x ->
     f v' b = Ok (<[Z.to_nat (a + Z.of_nat i) := g (Z.of_nat i) x]> v')) ->
  exists v', fold_try f v l = Ok v' /\ updated v v' a (Zlen l) g.
Proof.
  intros Ha Hlen. induction l as [|b l IH] using rev_ind; intros Hf.
  { exists v. split; [done|]. split; [done|]. intros. by rewrite decide_False by (cbn; lia). }
  rewrite length_app in Hlen |- *. cbn in Hlen |- *.
  destruct IH as (v' & Hfold & Hu).
  { lia. }
  { intros i c v' x Hi. apply Hf. by apply lookup_app_l_Some. }
  destruct (vec_lookup_lt v (a + Zlen l)) as [x Hx]; [lia|].
  exists (<[Z.to_nat (a + Zlen l) := g (Zlen l) x]> v'). split.
  - rewrite fold_try_app, Hfold. cbn [mbind outcome_bind fold_try].
    rewrite (Hf (length l) b v' x); [done| |done|done].
    rewrite lookup_app_r by lia. by rewrite Nat.sub_diag.
  - replace (Z.of_nat (length l + 1)) with (Zlen l + 1) by lia.
    apply updated_insert; (done || lia).
Qed.

Lemma add_codes_updates {E} (v : list spec_float) at_ codes :
  0 <= at_ -> at_ + Zlen codes <= Zlen v ->
  exists v', add_codes (E := E) v at_ codes = Ok v' /\
    updated v v' at_ (Zlen codes) (fun i x =>
      f32_add x (f32_from_bits (bf16_to_f32 (default 0 (codes !! Z.to_nat i))))).
Proof.
  intros Ha Hlen. unfold add_codes.
  assert (Zlen (zip (seqZ 0 (Zlen codes)) codes) = Zlen codes) as Hz.
  { rewrite length_zip_with, length_seqZ. lia. }
  set (g := fun (i : Z) (x : spec_float) =>
    f32_add x (f32_from_bits (bf16_to_f32 (default 0 (codes !! Z.to_nat i))))).
  set (body := fun (v : list spec_float) '(i, code) =>
    vec_add (E := E) v (at_ + i) (f32_from_bits (bf16_to_f32 code))).
  destruct (fold_updates body (zip (seqZ 0 (Zlen codes)) codes) v at_ g)
    as (v' & Hv' & Hu); [done|lia| |exists v'; by rewrite Hz in Hu].
  intros i [k c] v' x Hi [Hl Hu] Hx. unfold body, g.
  apply lookup_zip_with_Some in Hi as (k' & c' & [= -> ->] & [-> Hk]%lookup_seqZ & Hc).
  rewrite Z.add_0_l. unfold vec_add. assert (v' !! Z.to_nat (at_ + Z.of_nat i) = Some x) as Hx'.
  { rewrite (Hu _ _ Hx). rewrite decide_False by lia. done. }
  rewrite (vec_get_Ok _ _ _ Hx'). cbn [mbind outcome_bind].
  rewrite vec_set_Ok by lia. by rewrite Nat2Z.id, Hc.
Qed.

(** * Partials *)

Definition partial_key (p : Partial) : Z * Z := (pt_token p, pt_rank p).

Definition token_partials (ps : list Partial) (t : Z) : list Partial :=
  filter (fun p => pt_token p = t) ps.

Lemma slot_value_elem ps p i :
  NoDup (partial_key <$> ps) -> p ∈ ps -> slot_value ps (pt_token p) (pt_rank p) i = partial_value p i.
Proof.
  intros Hnd Hp. unfold slot_value.
  destruct (list_find _ ps) as [[k q]|] eqn:Hf.
  - apply list_find_Some in Hf as (Hq & [Ht Hr] & _). f_equal.
    apply list_elem_of_lookup in Hp as [j Hj].
    assert (k = j) as ->.
    { eapply (NoDup_lookup (partial_key <$> ps)); [done|..]; rewrite list_lookup_fmap.
      - rewrite Hq. cbn. reflexivity.
      - rewrite Hj. cbn. unfold partial_key. congruence. }
    congruence.
  - apply list_find_None in Hf. rewrite Forall_forall in Hf. exfalso. by eapply Hf.
Qed.

Lemma slot_value_none ps t rank i :
  (t, rank) ∉ partial_key <$> ps -> slot_value ps t rank i = f32_zero.
Proof.
  intros Hn. unfold slot_value. destruct (list_find _ ps) as [[k q]|] eqn:Hf; [|done].
  apply list_find_Some in Hf as (Hq & [Ht Hr] & _). exfalso. apply Hn, list_elem_of_fmap.
  exists q. split; [unfold partial_key; congruence|]. by eapply list_elem_of_lookup_2.
Qed.

(** The slot of a set of partials with distinct keys, as a relation. *)
Lemma slot_value_cases (ps : list Partial) t rank :
  (exists p, p ∈ ps /\ partial_key p = (t, rank)) \/ (t, rank) ∉ partial_key <$> ps.
Proof.
  destruct (decide ((t, rank) ∈ partial_key <$> ps)) as [(p & Hk & Hp)%list_elem_of_fmap|];
    [left; exists p; done|by right].
Qed.

Lemma slot_value_ext ps ps' t rank i :
  NoDup (partial_key <$> ps) -> NoDup (partial_key <$> ps') ->
  (forall p, partial_key p = (t, rank) -> p ∈ ps <-> p ∈ ps') ->
  slot_value ps t rank i = slot_value ps' t rank i.
Proof.
  intros Hnd Hnd' Heq.
  destruct (slot_value_cases ps t rank) as [(p & Hp & Hk)|Hn].
  - assert (p ∈ ps') as Hp' by by apply (Heq p).
    unfold partial_key in Hk. injection Hk as <- <-. by rewrite !slot_value_elem.
  - rewrite !slot_value_none; [done| |done]. intros (p & Hk & Hp)%list_elem_of_fmap.
    apply Hn, list_elem_of_fmap. exists p. split; [done|]. by apply (Heq p).
Qed.

Lemma slot_value_snoc ps p t rank i :
  NoDup (partial_key <$> (ps ++ [p])) ->
  slot_value (ps ++ [p]) t rank i =
  if decide (partial_key p = (t, rank)) then f32_add (slot_value ps t rank i)
    (f32_from_bits (bf16_to_f32 (default 0 (pt_codes p !! Z.to_nat i))))
  else slot_value ps t rank i.
Proof.
  intros Hnd. pose proof Hnd as Hnd'. rewrite fmap_app in Hnd'.
  apply NoDup_app in Hnd' as (Hps & Hdis & _).
  destruct (decide (partial_key p = (t, rank))) as [Hk|Hk].
  - rewrite (slot_value_none ps).
    2:{ intros Hin. apply (Hdis _ Hin). rewrite <-Hk. by apply list_elem_of_singleton. }
    unfold partial_key in Hk. injection Hk as <- <-. rewrite slot_value_elem; [done|done|set_solver].
  - apply slot_value_ext; [done|done|]. intros q Hq. rewrite elem_of_app, list_elem_of_singleton.
    split; [|by left]. intros [?| ->]; [done|congruence].
Qed.

Lemma token_partials_snoc ps p t :
  Zlen (token_partials (ps ++ [p]) t) =
  Zlen (token_partials ps t) + (if decide (pt_token p = t) then 1 else 0).
Proof.
  unfold token_partials. rewrite filter_app, length_app. cbn. unfold filter, list_filter.
  destruct (decide (pt_token p = t)); cbn; lia.
Qed.

(** At most one partial per rank. *)
Lemma token_ranks_nodup ps t :
  NoDup (partial_key <$> ps) -> NoDup (pt_rank <$> token_partials ps t).
Proof.
  unfold token_partials. induction ps as [|p ps IH]; [by intros; constructor|].
  rewrite fmap_cons, NoDup_cons. intros [Hn Hnd]. rewrite filter_cons.
  destruct (decide (pt_token p = t)) as [Ht|]; [|by apply IH].
  rewrite fmap_cons, NoDup_cons. split; [|by apply IH].
  intros (q & Hr & [Hqt Hq]%list_elem_of_filter)%list_elem_of_fmap.
  apply Hn, list_elem_of_fmap. exists q. split; [|done]. unfold partial_key. congruence.
Qed.

Lemma token_partials_le ps t :
  NoDup (partial_key <$> ps) -> Forall (fun p => 0 <= pt_rank p < SPARKS) ps ->
  Zlen (token_partials ps t) <= SPARKS.
Proof.
  intros Hnd Hr. pose proof (token_ranks_nodup ps t Hnd) as Hn.
  apply (NoDup_submseteq _ (seqZ 0 SPARKS)) in Hn.
  - apply submseteq_length in Hn. rewrite length_fmap, length_seqZ in Hn. unfold SPARKS in *. lia.
  - intros r (p & -> & [_ Hp]%list_elem_of_filter)%list_elem_of_fmap.
    rewrite Forall_forall in Hr. apply elem_of_seqZ. specialize (Hr p Hp). lia.
Qed.

(** * The accumulator's invariant *)

(** The ordinary wire's switches. *)
Definition sum_canonical (naive : WireNaive) : Prop :=
  has naive DUP_DOUBLE_COUNT = false /\ has naive ACCUM_BY_ARRIVAL = false /\
  has naive RANK_SUM_BY_ARRIVAL = false.

Section invariant.
Context (naive : WireNaive) (R H req layer : Z).
Context (Hcanon : sum_canonical naive) (HR : 0 <= R < 2 ^ 60) (HH : 0 <= H).

Definition slot_key (p : Partial) : SlotKey := mkSlotKey req layer (pt_token p) (pt_rank p).

Definition partial_ok (p : Partial) : Prop :=
  0 <= pt_token p < R /\ 0 <= pt_rank p < SPARKS /\ Zlen (pt_codes p) = H.

Definition acc_value (ps : list Partial) (t i : Z) : spec_float :=
  if Zlen (token_partials ps t) =? SPARKS then rank_ordered_sum ps t i else f32_zero.

Record sum_inv (s : CoordinatorSum) (ps : list Partial) : Prop := {
  si_naive : cs_naive s = naive;
  si_rows : cs_rows s = R;
  si_hidden : cs_hidden s = H;
  si_seen : cs_seen s = slot_key <$> ps;
  si_nodup : NoDup (partial_key <$> ps);
  si_ok : Forall partial_ok ps;
  si_arrivals : cs_arrivals s = Zlen ps;
  si_distinct : cs_distinct s = Zlen ps;
  si_acc_len : Zlen (cs_acc s) = R * H;
  si_buf_len : Zlen (cs_rank_buf s) = SPARKS * R * H;
  si_count_len : Zlen (cs_slot_rank_count s) = R;
  si_count : forall t, 0 <= t < R ->
    cs_slot_rank_count s !! Z.to_nat t = Some (Zlen (token_partials ps t));
  si_buf : forall rank t i, 0 <= rank < SPARKS -> 0 <= t < R -> 0 <= i < H ->
    cs_rank_buf s !! Z.to_nat (rank * (R * H) + (t * H + i)) = Some (slot_value ps t rank i);
  si_acc : forall t i, 0 <= t < R -> 0 <= i < H ->
    cs_acc s !! Z.to_nat (t * H + i) = Some (acc_value ps t i);
}.

Lemma sum_inv_new : sum_inv (CoordinatorSum_new R H naive) [].
Proof.
  unfold CoordinatorSum_new. constructor; cbn -[Z.mul]; try done.
  - constructor.
  - rewrite length_replicate. nia.
  - rewrite length_replicate. unfold SPARKS. nia.
  - rewrite length_replicate. lia.
  - intros t Ht. apply lookup_replicate. split; [done|lia].
  - intros rank t i Hr Ht Hi. apply lookup_replicate. unfold SPARKS in *. split; [done|].
    apply Z2Nat.inj_lt; [nia..|]. nia.
  - intros t i Ht Hi. apply lookup_replicate. split; [done|]. apply Z2Nat.inj_lt; nia.
Qed.

(** [(t, i)] and [(rank, t, i)] are read back from their flat index. *)
Lemma flat_inj a b c d n : 0 <= b < n -> 0 <= d < n -> a * n + b = c * n + d -> a = c /\ b = d.
Proof.
  intros Hb Hd Heq. enough (a = c) as -> by lia.
  destruct (Z.lt_trichotomy a c) as [Hlt|[Hac|Hlt]]; [|done|]; exfalso.
  - assert ((a + 1) * n <= c * n) by (apply Z.mul_le_mono_nonneg_r; lia). lia.
  - assert ((c + 1) * n <= a * n) by (apply Z.mul_le_mono_nonneg_r; lia). lia.
Qed.

Lemma partials_bound ps :
  NoDup (partial_key <$> ps) -> Forall partial_ok ps -> Zlen ps <= R * SPARKS.
Proof.
  intros Hnd Hok.
  set (all := seqZ 0 R ≫= fun t => (fun r => (t, r)) <$> seqZ 0 SPARKS).
  assert (forall (n : nat) a, length (seqZ a (Z.of_nat n) ≫= fun t => (fun r => (t, r)) <$> seqZ 0 SPARKS)
    = (n * 4)%nat) as Hall.
  { induction n as [|n IH]; intros a; [done|].
    rewrite (seqZ_cons a), bind_cons, length_app by lia.
    replace (Z.pred (Z.of_nat (S n))) with (Z.of_nat n) by lia. by rewrite IH. }
  specialize (Hall (Z.to_nat R) 0). rewrite Z2Nat.id in Hall by lia.
  apply (NoDup_submseteq _ all) in Hnd.
  - apply submseteq_length in Hnd. rewrite length_fmap in Hnd. unfold all, SPARKS in *. lia.
  - intros k (p & -> & Hp)%list_elem_of_fmap. rewrite Forall_forall in Hok.
    destruct (Hok p Hp) as (Ht & Hr & _). apply list_elem_of_bind.
    exists (pt_token p). split; [|apply elem_of_seqZ; lia]. apply list_elem_of_fmap.
    exists (pt_rank p). split; [done|]. apply elem_of_seqZ. lia.
Qed.

(** All ranks of all tokens have arrived exactly when the count says so. *)
Lemma partials_full ps t :
  NoDup (partial_key <$> ps) -> Forall partial_ok ps -> Zlen ps = R * SPARKS -> 0 <= t < R ->
  Zlen (token_partials ps t) = SPARKS.
Proof.
  intros Hnd Hok Hlen Ht.
  assert (forall ts, NoDup ts -> Zlen (filter (fun p => pt_token p ∈ ts) ps) <= Zlen ts * SPARKS) as Hle.
  { clear Hlen. induction ts as [|u ts IH]; intros Hts.
    - clear. induction ps as [|p ps IH]; [done|].
      by rewrite filter_cons_False by apply not_elem_of_nil.
    - apply NoDup_cons in Hts as [Hu Hts]. specialize (IH Hts).
      pose proof (token_partials_le ps u Hnd) as Hu4.
      assert (Zlen (filter (fun p => pt_token p ∈ u :: ts) ps) <=
        Zlen (token_partials ps u) + Zlen (filter (fun p => pt_token p ∈ ts) ps)).
      { unfold token_partials. clear. induction ps as [|p ps IH]; [done|].
        rewrite !filter_cons.
        destruct (decide (pt_token p = u)), (decide (pt_token p ∈ ts)), (decide (pt_token p ∈ u :: ts))
          as [Hin|]; cbn [length] in *; try lia.
        by apply elem_of_cons in Hin as [?|?]. }
      assert (Zlen (token_partials ps u) <= SPARKS).
      { apply Hu4. eapply Forall_impl; [done|]. by intros p (_ & ? & _). }
      cbn [length]. lia. }
  assert (Zlen (token_partials ps t) <= SPARKS).
  { apply token_partials_le; [done|]. eapply Forall_impl; [done|]. by intros p (_ & ? & _). }
  set (others := filter (fun u => u <> t) (seqZ 0 R)).
  assert (Zlen others = R - 1) as Hothers.
  { assert (seqZ 0 R ≡ₚ t :: others) as Hp.
    { apply NoDup_Permutation; [apply NoDup_seqZ| |].
      - apply NoDup_cons. split; [|apply NoDup_filter, NoDup_seqZ].
        intros [? _]%list_elem_of_filter. done.
      - intros u. unfold others. rewrite elem_of_cons, list_elem_of_filter, elem_of_seqZ.
        destruct (decide (u = t)); intuition lia. }
    apply Permutation_length in Hp. rewrite length_seqZ in Hp. cbn in Hp. lia. }
  pose proof (Hle others ltac:(apply NoDup_filter, NoDup_seqZ)) as Ho.
  assert (Zlen ps <= Zlen (token_partials ps t) + Zlen (filter (fun p => pt_token p ∈ others) ps)).
  { unfold token_partials, others. clear -Hok.
    induction Hok as [|p ps Hp _ IH]; [done|].
    rewrite !filter_cons.
    destruct (decide (pt_token p = t)), (decide (pt_token p ∈ filter (fun u => u <> t) (seqZ 0 R)))
      as [|Hn]; cbn [length] in *; try lia.
    exfalso. apply Hn, list_elem_of_filter. split; [done|]. apply elem_of_seqZ.
    destruct Hp as (? & _). lia. }
  lia.
Qed.

Lemma rank_sum_at_Ok {E} buf stride at_ (v : Z -> spec_float) :
  (forall rank, 0 <= rank < SPARKS -> buf !! Z.to_nat (rank * stride + at_) = Some (v rank)) ->
  rank_sum_at (E := E) buf stride at_ =
  Ok (foldl (fun s rank => f32_add s (v rank)) f32_zero (seqZ 0 SPARKS)).
Proof.
  intros Hv. unfold rank_sum_at, SPARKS in *. change (seqZ 0 4) with [0; 1; 2; 3].
  cbn [fold_try foldl].
  rewrite (vec_get_Ok _ _ _ (Hv 0 ltac:(lia))). cbn [mbind outcome_bind].
  rewrite (vec_get_Ok _ _ _ (Hv 1 ltac:(lia))). cbn [mbind outcome_bind].
  rewrite (vec_get_Ok _ _ _ (Hv 2 ltac:(lia))). cbn [mbind outcome_bind].
  by rewrite (vec_get_Ok _ _ _ (Hv 3 ltac:(lia))).
Qed.

Section step.
Context (s : CoordinatorSum) (ps : list Partial) (p : Partial).
Context (Hinv : sum_inv s ps) (Hp : partial_ok p) (Hnew : partial_key p ∉ partial_key <$> ps).

Lemma step_nodup : NoDup (partial_key <$> (ps ++ [p])).
Proof.
  rewrite fmap_app. apply NoDup_app. split; [apply (si_nodup _ _ Hinv)|]. split.
  - intros k Hk ->%list_elem_of_singleton. done.
  - apply NoDup_singleton.
Qed.

Lemma step_ok : Forall partial_ok (ps ++ [p]).
Proof. apply Forall_app_2; [apply (si_ok _ _ Hinv)|by constructor]. Qed.

Lemma step_ranks : Forall (fun p => 0 <= pt_rank p < SPARKS) (ps ++ [p]).
Proof. eapply Forall_impl; [apply step_ok|]. by intros q (_ & ? & _). Qed.

Lemma step_index_bounds :
  0 <= pt_token p * H /\ pt_token p * H + H <= R * H /\
  0 <= pt_rank p * (R * H) /\ pt_rank p * (R * H) + R * H <= SPARKS * R * H.
Proof.
  destruct Hp as (Ht & Hr & _). unfold SPARKS in *.
  assert (0 <= R * H) by nia. split_and!; nia.
Qed.

Lemma step_buf :
  exists buf, add_codes (E := WireError) (cs_rank_buf s)
      (pt_rank p * (R * H) + pt_token p * H) (pt_codes p) = Ok buf /\
    Zlen buf = SPARKS * R * H /\
    forall rank t i, 0 <= rank < SPARKS -> 0 <= t < R -> 0 <= i < H ->
      buf !! Z.to_nat (rank * (R * H) + (t * H + i)) = Some (slot_value (ps ++ [p]) t rank i).
Proof.
  pose proof step_index_bounds. destruct Hp as (Ht & Hr & Hc).
  destruct (add_codes_updates (E := WireError) (cs_rank_buf s)
    (pt_rank p * (R * H) + pt_token p * H) (pt_codes p)) as (buf & Hbuf & Hlen & Hu);
    [lia|rewrite (si_buf_len _ _ Hinv), Hc; lia|].
  exists buf. split; [done|]. split; [rewrite Hlen; apply (si_buf_len _ _ Hinv)|].
  intros rank t i Hrank Ht' Hi.
  assert (0 <= t * H + i < R * H) by nia.
  assert (0 <= rank * (R * H)) by nia.
  rewrite (Hu _ _ (si_buf _ _ Hinv rank t i Hrank Ht' Hi)), slot_value_snoc by apply step_nodup.
  rewrite Z2Nat.id, Hc by lia. f_equal. unfold partial_key.
  destruct (decide (pt_token p = t)) as [<-|Hnt], (decide (pt_rank p = rank)) as [<-|Hnr].
  - rewrite !decide_True by (congruence || lia). do 4 f_equal. f_equal. f_equal. lia.
  - rewrite !decide_False; [done|congruence|]. intros Hj. apply Hnr.
    destruct (Z.lt_trichotomy rank (pt_rank p)) as [Hlt|[Hac|Hlt]]; [|lia|]; nia.
  - rewrite !decide_False; [done|congruence|]. intros Hj. apply Hnt.
    destruct (Z.lt_trichotomy t (pt_token p)) as [Hlt|[Hac|Hlt]]; [|lia|]; nia.
  - rewrite !decide_False; [done|congruence|]. intros Hj.
    assert (pt_rank p * (R * H) + (pt_token p * H + (rank * (R * H) + (t * H + i) -
      (pt_rank p * (R * H) + pt_token p * H))) = rank * (R * H) + (t * H + i)) as Heq by lia.
    apply flat_inj in Heq as [? _]; [done|nia|lia].
Qed.

(** The re-sum of the token once its four ranks are in. *)
Lemma step_acc buf :
  (forall rank t i, 0 <= rank < SPARKS -> 0 <= t < R -> 0 <= i < H ->
      buf !! Z.to_nat (rank * (R * H) + (t * H + i)) = Some (slot_value (ps ++ [p]) t rank i)) ->
  let c := Zlen (token_partials ps (pt_token p)) + 1 in
  exists acc, (if c =? SPARKS
      then fold_try (fun acc i =>
             x ← rank_sum_at buf (R * H) (pt_token p * H + i);
             vec_set acc (pt_token p * H + i) x) (cs_acc s) (seqZ 0 H)
      else Ok (E := WireError) (cs_acc s)) = Ok acc /\
    Zlen acc = R * H /\
    forall t i, 0 <= t < R -> 0 <= i < H ->
      acc !! Z.to_nat (t * H + i) = Some (acc_value (ps ++ [p]) t i).
Proof.
  intros Hbuf c. pose proof step_index_bounds as Hb. destruct Hp as (Ht & Hr & Hc).
  pose proof (si_acc_len _ _ Hinv) as Hlen.
  pose proof (token_partials_le (ps ++ [p]) (pt_token p) step_nodup step_ranks) as H4.
  rewrite token_partials_snoc, decide_True in H4 by done. fold c in H4.
  assert (forall t i, t <> pt_token p -> acc_value (ps ++ [p]) t i = acc_value ps t i) as Hother.
  { intros t i Hne. unfold acc_value. rewrite token_partials_snoc, decide_False, Z.add_0_r by done.
    destruct (_ =? _); [|done]. unfold rank_ordered_sum. apply foldl_pointwise.
    intros v rank. rewrite slot_value_snoc by apply step_nodup.
    rewrite decide_False; [done|]. unfold partial_key. congruence. }
  destruct (Z.eqb_spec c SPARKS) as [Hfull|Hpart].
  - set (g := fun (i : Z) (_ : spec_float) => rank_ordered_sum (ps ++ [p]) (pt_token p) i).
    set (body := fun (acc : list spec_float) (i : Z) =>
      x ← rank_sum_at (E := WireError) buf (R * H) (pt_token p * H + i);
      vec_set acc (pt_token p * H + i) x).
    assert (Zlen (seqZ 0 H) = H) as HlenH by (rewrite length_seqZ; lia).
    destruct (fold_updates body (seqZ 0 H) (cs_acc s) (pt_token p * H) g)
      as (acc & Hacc & Hla & Hu); [lia|lia| |].
    { intros i z v' x [-> Hi]%lookup_seqZ [Hl _] Hx. rewrite Z.add_0_l. unfold body.
      rewrite (rank_sum_at_Ok _ _ _ (fun rank => slot_value (ps ++ [p]) (pt_token p) rank (Z.of_nat i)))
        by (intros; apply Hbuf; lia).
      cbn [mbind outcome_bind]. by rewrite vec_set_Ok by lia. }
    exists acc. split; [done|]. split; [lia|]. intros t i Ht' Hi.
    rewrite (Hu _ _ (si_acc _ _ Hinv t i Ht' Hi)). rewrite Z2Nat.id, HlenH by nia.
    destruct (decide (t = pt_token p)) as [->|Hne].
    + rewrite decide_True by lia. unfold g, acc_value.
      rewrite token_partials_snoc, decide_True by done. fold c.
      rewrite Hfull, Z.eqb_refl. do 2 f_equal. lia.
    + rewrite decide_False, Hother; [done..|]. intros ?.
      destruct (Z.lt_trichotomy t (pt_token p)) as [Hlt|[Hac|Hlt]]; [|lia|]; nia.
  - exists (cs_acc s). split; [done|]. split; [done|]. intros t i Ht' Hi.
    rewrite (si_acc _ _ Hinv t i Ht' Hi). f_equal.
    destruct (decide (t = pt_token p)) as [->|Hne]; [|by rewrite Hother].
    unfold acc_value. rewrite token_partials_snoc, decide_True by done. fold c.
    rewrite (proj2 (Z.eqb_neq c SPARKS)), (proj2 (Z.eqb_neq (Zlen _) SPARKS)) by lia. done.
Qed.

Lemma slot_key_inj q q' : slot_key q = slot_key q' -> partial_key q = partial_key q'.
Proof. unfold slot_key, partial_key. by intros [= -> ->]. Qed.

Lemma accumulate_row_step f r row :
  rt_request_id f = req -> rt_layer_id f = layer ->
  p = mkPartial (rt_token_position f + r) (rt_executor_id f) (rr_codes row) ->
  exists s', accumulate_row s f r row = Ok s' /\ sum_inv s' (ps ++ [p]).
Proof.
  intros Hreq Hlayer Heq. unfold accumulate_row.
  pose proof step_index_bounds as Hb. pose proof Hp as (Ht & Hr & Hc).
  replace (mkSlotKey _ _ _ _) with (slot_key p) by (rewrite Heq; unfold slot_key; cbn; congruence).
  replace (rt_token_position f + r) with (pt_token p) by by rewrite Heq.
  replace (rt_executor_id f) with (pt_rank p) by by rewrite Heq.
  replace (rr_codes row) with (pt_codes p) by by rewrite Heq.
  clear Heq. destruct Hcanon as (Hdup & Harr & Hrank).
  rewrite (si_naive _ _ Hinv), (si_rows _ _ Hinv), (si_hidden _ _ Hinv), Hdup, Harr, Hrank.
  rewrite (Z.geb_leb (pt_token p) (2 ^ 64)), (proj2 (Z.leb_gt _ _)) by lia.
  rewrite (Z.geb_leb (pt_token p) R), (proj2 (Z.leb_gt _ _)) by lia.
  rewrite Hc, Z.eqb_refl. cbn [negb].
  rewrite bool_decide_eq_false_2.
  2:{ rewrite (si_seen _ _ Hinv). intros (q & Hq%slot_key_inj & Hin)%list_elem_of_fmap.
      apply Hnew, list_elem_of_fmap. eauto. }
  cbn [andb].
  pose proof (partials_bound (ps ++ [p]) step_nodup step_ok) as Hbound.
  rewrite length_app in Hbound. cbn in Hbound. unfold SPARKS in Hbound.
  unfold usize_add. rewrite (si_arrivals _ _ Hinv), (si_distinct _ _ Hinv).
  rewrite (proj2 (Z.ltb_lt _ _)) by lia. cbn [mbind outcome_bind].
  rewrite (vec_get_Ok _ _ _ (si_count _ _ Hinv _ Ht)). cbn [mbind outcome_bind].
  pose proof (token_partials_le (ps ++ [p]) (pt_token p) step_nodup step_ranks) as H4.
  rewrite token_partials_snoc, decide_True in H4 by done. unfold SPARKS in H4.
  rewrite (proj2 (Z.ltb_lt _ _)) by lia.
  rewrite vec_set_Ok by (rewrite ?(si_count_len _ _ Hinv); lia). cbn [mbind outcome_bind].
  destruct step_buf as (buf & Hbuf & Hblen & Hbval). rewrite Hbuf. cbn [mbind outcome_bind].
  pose proof (si_count_len _ _ Hinv) as Hcl.
  rewrite (vec_get_Ok _ _ (Zlen (token_partials ps (pt_token p)) + 1))
    by (apply list_lookup_insert_eq; lia).
  cbn [mbind outcome_bind].
  destruct (step_acc buf Hbval) as (acc & Hacc & Halen & Haval). rewrite Hacc.
  cbn [mbind outcome_bind]. eexists. split; [done|].
  constructor; cbn [cs_naive cs_rows cs_hidden cs_seen cs_distinct cs_acc cs_arrivals cs_rank_buf
    cs_slot_rank_count]; try done.
  - by rewrite (si_seen _ _ Hinv), fmap_app.
  - apply step_nodup.
  - apply step_ok.
  - rewrite length_app. cbn. lia.
  - rewrite length_app. cbn. lia.
  - by rewrite length_insert.
  - intros t Ht'. rewrite token_partials_snoc. destruct (decide (pt_token p = t)) as [<-|Hne].
    + apply list_lookup_insert_eq. lia.
    + rewrite list_lookup_insert_ne by lia. rewrite Z.add_0_r. by apply (si_count _ _ Hinv).
Qed.
End step.

(** ** Whole frames *)

(** A frame of the request and layer being summed, its unsigned fields in range. *)
Definition frame_for (f : ReturnFrame) : Prop :=
  rt_request_id f = req /\ rt_layer_id f = layer /\ 0 <= rt_executor_id f /\
  0 <= rt_token_position f.

Lemma accumulate_row_Ok_inv s ps f r row s' :
  sum_inv s ps -> frame_for f -> 0 <= r -> rt_executor_id f < SPARKS ->
  accumulate_row s f r row = Ok s' ->
  partial_ok (mkPartial (rt_token_position f + r) (rt_executor_id f) (rr_codes row)) /\
  partial_key (mkPartial (rt_token_position f + r) (rt_executor_id f) (rr_codes row))
    ∉ partial_key <$> ps.
Proof.
  intros Hinv (Hreq & Hlayer & Hexec & Hpos) Hr Hlt Hacc. unfold accumulate_row in Hacc.
  rewrite (si_naive _ _ Hinv), (si_rows _ _ Hinv), (si_hidden _ _ Hinv), (si_seen _ _ Hinv) in Hacc.
  destruct Hcanon as (Hdup & _ & _). rewrite Hdup in Hacc.
  destruct (_ >=? 2 ^ 64); [done|].
  destruct (Z.geb_spec (rt_token_position f + r) R) as [|HtR]; [done|].
  destruct (Z.eqb_spec (Zlen (rr_codes row)) H) as [Hc|]; [|done]. cbn [negb andb] in Hacc.
  rewrite andb_true_r in Hacc. case_bool_decide as Hin; [done|].
  split; [split_and!; cbn; lia|]. intros (q & Hk & Hq)%list_elem_of_fmap.
  apply Hin, list_elem_of_fmap. exists q. split; [|done].
  unfold partial_key in Hk. cbn in Hk. unfold slot_key. congruence.
Qed.

Lemma accumulate_rows_spec s ps f r rows :
  sum_inv s ps -> frame_for f -> 0 <= r -> rt_executor_id f < SPARKS ->
  (snd (accumulate_rows s f r rows) = Ok tt <->
     Forall partial_ok (partials_from f r rows) /\
     NoDup (partial_key <$> (ps ++ partials_from f r rows))) /\
  (snd (accumulate_rows s f r rows) = Ok tt ->
     sum_inv (fst (accumulate_rows s f r rows)) (ps ++ partials_from f r rows)).
Proof.
  intros Hinv Hf Hr He. revert s ps r Hinv Hr.
  induction rows as [|row rows IH]; intros s ps r Hinv Hr; cbn [accumulate_rows partials_from].
  { rewrite app_nil_r. split; [|done]. split; [|done]. intros _. split; [constructor|].
    apply (si_nodup _ _ Hinv). }
  set (p := mkPartial _ _ _).
  destruct (accumulate_row s f r row) as [s'|e|] eqn:Hrow.
  - destruct (accumulate_row_Ok_inv _ _ _ _ _ _ Hinv Hf Hr He Hrow) as [Hp Hnew]. fold p in Hp, Hnew.
    destruct (accumulate_row_step s ps p Hinv Hp Hnew f r row) as (s'' & Hs & Hinv');
      [apply Hf|apply Hf|done|].
    rewrite Hrow in Hs. injection Hs as <-.
    destruct (IH s' (ps ++ [p]) (r + 1) Hinv' ltac:(lia)) as [Hiff Himp].
    rewrite <-app_assoc in Hiff, Himp. cbn [app] in Hiff, Himp. split; [|done].
    rewrite Hiff, Forall_cons. tauto.
  - cbn [snd]. split; [|done]. split; [done|]. intros [Hok Hnd]. exfalso.
    apply Forall_cons in Hok as [Hp _].
    rewrite cons_middle, app_assoc, fmap_app in Hnd. apply NoDup_app in Hnd as [Hnd _].
    destruct (accumulate_row_step s ps p Hinv Hp) with (f := f) (r := r) (row := row)
      as (? & Hs & _); [|apply Hf|apply Hf|done|congruence].
    rewrite fmap_app in Hnd. apply NoDup_app in Hnd as (_ & Hd & _).
    intros Hin. apply (Hd _ Hin). by apply list_elem_of_singleton.
  - cbn [snd]. split; [|done]. split; [done|]. intros [Hok Hnd]. exfalso.
    apply Forall_cons in Hok as [Hp _].
    rewrite cons_middle, app_assoc, fmap_app in Hnd. apply NoDup_app in Hnd as [Hnd _].
    destruct (accumulate_row_step s ps p Hinv Hp) with (f := f) (r := r) (row := row)
      as (? & Hs & _); [|apply Hf|apply Hf|done|congruence].
    rewrite fmap_app in Hnd. apply NoDup_app in Hnd as (_ & Hd & _).
    intros Hin. apply (Hd _ Hin). by apply list_elem_of_singleton.
Qed.

Definition frame_accepted (f : ReturnFrame) : Prop :=
  rt_status f = StatusOk /\ rt_executor_id f < SPARKS /\ Forall partial_ok (frame_partials f).

Lemma accumulate_spec s ps f :
  sum_inv s ps -> frame_for f ->
  (snd (accumulate s f) = Ok tt <->
     frame_accepted f /\ NoDup (partial_key <$> (ps ++ frame_partials f))) /\
  (snd (accumulate s f) = Ok tt -> sum_inv (fst (accumulate s f)) (ps ++ frame_partials f)).
Proof.
  intros Hinv Hf. unfold accumulate, frame_accepted.
  case_bool_decide as Hst; cbn [negb].
  2:{ split; [|done]. split; [done|]. intros [(? & _) _]. done. }
  destruct (Z.geb_spec (rt_executor_id f) SPARKS) as [Hge|Hlt].
  { split; [|done]. split; [done|]. intros [(_ & ? & _) _]. lia. }
  destruct (accumulate_rows_spec s ps f 0 (rt_rows f) Hinv Hf ltac:(lia) Hlt) as [Hiff Himp].
  split; [|done]. rewrite Hiff. unfold frame_partials. tauto.
Qed.

Lemma accumulate_all_spec s ps fs :
  sum_inv s ps -> Forall frame_for fs ->
  (forall s', accumulate_all s fs = Ok s' ->
     Forall frame_accepted fs /\ NoDup (partial_key <$> (ps ++ concat (frame_partials <$> fs))) /\
     sum_inv s' (ps ++ concat (frame_partials <$> fs))) /\
  (Forall frame_accepted fs -> NoDup (partial_key <$> (ps ++ concat (frame_partials <$> fs))) ->
     is_ok (accumulate_all s fs) = true).
Proof.
  intros Hinv Hfs. revert s ps Hinv. induction Hfs as [|f fs Hf _ IH]; intros s ps Hinv.
  { cbn. rewrite app_nil_r. split; [|done]. intros s' [= <-]. split_and!; [constructor|..|done].
    apply (si_nodup _ _ Hinv). }
  rewrite fmap_cons. cbn [accumulate_all concat]. rewrite app_assoc.
  destruct (accumulate_spec s ps f Hinv Hf) as [Hiff Himp].
  destruct (accumulate s f) as [s1 [[]|e|]]; cbn [fst snd] in *.
  - destruct (IH s1 (ps ++ frame_partials f) (Himp eq_refl)) as [IH1 IH2].
    destruct (proj1 Hiff eq_refl) as [Hacc _]. split.
    + intros s' Hs. destruct (IH1 s' Hs) as (? & ? & ?). split_and!; [by constructor|done..].
    + intros Hall Hnd. apply IH2; [by apply Forall_cons in Hall as [_ ?]|done].
  - split; [done|]. intros Hall Hnd. apply Forall_cons in Hall as [Hacc _].
    rewrite fmap_app in Hnd. apply NoDup_app in Hnd as [Hnd _].
    by discriminate (proj2 Hiff (conj Hacc Hnd)).
  - split; [done|]. intros Hall Hnd. apply Forall_cons in Hall as [Hacc _].
    rewrite fmap_app in Hnd. apply NoDup_app in Hnd as [Hnd _].
    by discriminate (proj2 Hiff (conj Hacc Hnd)).
Qed.

(** Two sums that accepted the same partials hold the same vector. *)
Lemma sum_inv_same s s' ps ps' :
  sum_inv s ps -> sum_inv s' ps' -> ps ≡ₚ ps' -> CoordinatorSum_result s = CoordinatorSum_result s'.
Proof.
  intros Hi Hi' Hp. unfold CoordinatorSum_result.
  rewrite (si_distinct _ _ Hi), (si_distinct _ _ Hi'), (si_rows _ _ Hi), (si_rows _ _ Hi').
  rewrite (Permutation_length Hp). destruct (negb _); [done|]. f_equal.
  pose proof (si_acc_len _ _ Hi) as Hl. pose proof (si_acc_len _ _ Hi') as Hl'.
  apply list_eq_same_length with (Z.to_nat (R * H)); [lia|lia|]. intros j x y Hj Hx Hy.
  assert (0 < H) by nia.
  pose proof (Z.div_mod (Z.of_nat j) H ltac:(lia)) as Hdm.
  pose proof (Z.mod_pos_bound (Z.of_nat j) H ltac:(lia)).
  set (t := Z.of_nat j / H) in *. set (i := Z.of_nat j mod H) in *.
  assert (0 <= t < R) by (split; [apply Z.div_pos; lia|apply Z.div_lt_upper_bound; lia]).
  replace j with (Z.to_nat (t * H + i)) in Hx, Hy by lia.
  rewrite (si_acc _ _ Hi) in Hx by done. rewrite (si_acc _ _ Hi') in Hy by done.
  injection Hx as <-. injection Hy as <-. unfold acc_value.
  replace (Zlen (token_partials ps' t)) with (Zlen (token_partials ps t))
    by (f_equal; apply Permutation_length; unfold token_partials; by rewrite Hp).
  destruct (_ =? _); [|done]. unfold rank_ordered_sum. apply foldl_pointwise. intros v rank. f_equal.
  apply slot_value_ext; [apply (si_nodup _ _ Hi)|apply (si_nodup _ _ Hi')|].
  intros p _. by rewrite Hp.
Qed.

Lemma sum_result_complete s ps acc :
  sum_inv s ps -> CoordinatorSum_result s = Ok acc ->
  Zlen ps = R * SPARKS /\ Zlen acc = R * H /\
  forall t i, 0 <= t < R -> 0 <= i < H ->
    acc !! Z.to_nat (t * H + i) = Some (rank_ordered_sum ps t i).
Proof.
  intros Hi Hres. unfold CoordinatorSum_result in Hres.
  rewrite (si_distinct _ _ Hi), (si_rows _ _ Hi) in Hres.
  destruct (Z.eqb_spec (Zlen ps) (R * SPARKS)) as [Hfull|]; [|done]. injection Hres as <-.
  split; [done|]. split; [apply (si_acc_len _ _ Hi)|]. intros t i Ht Hi'.
  rewrite (si_acc _ _ Hi) by done. unfold acc_value.
  rewrite (partials_full ps t (si_nodup _ _ Hi) (si_ok _ _ Hi) Hfull Ht). done.
Qed.
End invariant.

(** C6: in-order, exactly-once delivery.  Of whatever arrives - the sent frames
    duplicated, dropped and reordered, mixed with bytes that do not decode - the
    receiver accepts a prefix of the sent requests, in order and once each; and
    it accepts all of them when they arrive in order. *)
Theorem ladder_in_order cpu nocrc naive fs delivered :
  has naive SEQ_IGNORED = false -> Forall (fun f => wf_request f naive) fs ->
  Zlen fs < 2 ^ 64 ->
  exists sent, snd (send_all cpu nocrc (StreamSender_new naive) fs) = Ok <$> sent /\
    (Forall (fun b => b ∈ sent \/ is_ok (decode_frame cpu nocrc b naive) = false) delivered ->
     exists n, snd (accept_all cpu nocrc (StreamReceiver_new naive) delivered) =
               FrameRequest <$> take n (stamped 0 fs)) /\
    snd (accept_all cpu nocrc (StreamReceiver_new naive) sent) = FrameRequest <$> stamped 0 fs.
Proof.
  intros Hn Hwf Hlen. exists (wire_of cpu nocrc naive <$> stamped 0 fs). split_and!.
  - unfold StreamSender_new. rewrite send_all_wire by (done || lia). cbn.
    by rewrite list_fmap_compose.
  - intros Hd. destruct (accept_all_prefix cpu nocrc naive fs delivered 0 Hn Hwf Hlen Hd)
      as (m & _ & Heq); [lia|]. exists m. unfold StreamReceiver_new.
    change 0 with (Z.of_nat 0) at 1. rewrite Heq. cbn. by rewrite Nat.sub_0_r, drop_0.
  - unfold StreamReceiver_new. by rewrite accept_all_complete by (done || lia).
Qed.

Lemma ladder_in_order_witness :
  exists sent, snd (send_all Sse42 false (StreamSender_new NONE) [sample_request; sample_request])
      = Ok <$> sent /\
    (Forall (fun b => b ∈ sent \/ is_ok (decode_frame Sse42 false b NONE) = false) [[]] ->
     exists n, snd (accept_all Sse42 false (StreamReceiver_new NONE) [[]]) =
               FrameRequest <$> take n (stamped 0 [sample_request; sample_request])) /\
    snd (accept_all Sse42 false (StreamReceiver_new NONE) sent) =
      FrameRequest <$> stamped 0 [sample_request; sample_request].
Proof.
  apply (ladder_in_order Sse42 false NONE [sample_request; sample_request] [[]]).
  - reflexivity.
  - constructor; [apply sample_request_wf|]. constructor; [apply sample_request_wf|constructor].
  - cbn. lia.
Defined.

(** C7: the retry driver always returns, after at most [max 1 max_attempts] calls:
    every call before the last failed with a retryable error, and the result is
    the last call's, a retryable failure becoming [RetryExhausted]. *)
Theorem retry_until_bounded {S T} (op : S -> S * outcome WireError T) fuel max_attempts s :
  (Z.to_nat (Z.max 1 max_attempts) <= fuel)%nat ->
  exists k, Z.of_nat k < Z.max 1 max_attempts /\
    (forall j, (j < k)%nat -> exists e, snd (op (call_n op j s)) = Err e /\ disposition e = Retry) /\
    (forall e, snd (op (call_n op k s)) = Err e -> disposition e = Retry ->
       Z.of_nat k = Z.max 1 max_attempts - 1) /\
    retry_until op fuel max_attempts s =
      (call_n op (Datatypes.S k) s,
       Some (retry_result (Z.of_nat k) (snd (op (call_n op k s))))).
Proof.
  intros Hfuel. destruct (retry_loop_spec op fuel max_attempts 0 s) as (k & H).
  { by rewrite Z.sub_0_r. }
  rewrite Z.sub_0_r, Z.add_0_l in H. by exists k.
Qed.

(** A link that fails twice, then delivers. *)
Definition flaky (n : Z) : Z * outcome WireError Z :=
  (n + 1, if n <? 2 then Err (Corrupt 0 1 2) else Ok n).

Lemma retry_until_bounded_witness :
  retry_until flaky 3 3 0 = (3, Some (Ok 2)) /\
  exists k, Z.of_nat k < 3 /\
    (forall j, (j < k)%nat -> exists e, snd (flaky (call_n flaky j 0)) = Err e /\ disposition e = Retry) /\
    (forall e, snd (flaky (call_n flaky k 0)) = Err e -> disposition e = Retry ->
       Z.of_nat k = 3 - 1) /\
    retry_until flaky 3 3 0 =
      (call_n flaky (S k) 0, Some (retry_result (Z.of_nat k) (snd (flaky (call_n flaky k 0))))).
Proof. split; [reflexivity|]. apply (retry_until_bounded flaky 3 3 0). cbn. lia. Defined.

(** C8: a complete sum holds, for every token and element, the four ranks'
    partials added in rank order from zero, whichever frames carried them. *)
Theorem sum_is_rank_ordered naive R H req layer fs s acc :
  sum_canonical naive -> 0 <= R < 2 ^ 60 -> 0 <= H -> Forall (frame_for req layer) fs ->
  accumulate_all (CoordinatorSum_new R H naive) fs = Ok s ->
  CoordinatorSum_result s = Ok acc ->
  Zlen acc = R * H /\
  forall t i, 0 <= t < R -> 0 <= i < H ->
    acc !! Z.to_nat (t * H + i) =
      Some (rank_ordered_sum (concat (frame_partials <$> fs)) t i).
Proof.
  intros Hc HR HH Hf Hs Hres.
  destruct (accumulate_all_spec naive R H req layer Hc HR HH _ [] fs
    (sum_inv_new naive R H req layer HR HH) Hf) as [Hinv _].
  destruct (Hinv s Hs) as (_ & _ & Hi).
  by eapply sum_result_complete in Hi as (_ & ? & ?).
Qed.

Definition sum_sample (order : list Z) : list ReturnFrame :=
  (fun rank => r8_partial rank (nth (Z.to_nat rank) [0x4B80; 0x3F80; 0xCB80; 0x3F80] 0)) <$> order.

Lemma sum_is_rank_ordered_witness :
  exists s acc, accumulate_all (CoordinatorSum_new 1 1 NONE) (sum_sample [2; 0; 3; 1]) = Ok s /\
    CoordinatorSum_result s = Ok acc /\
    acc !! 0%nat = Some (rank_ordered_sum (concat (frame_partials <$> sum_sample [2; 0; 3; 1])) 0 0).
Proof.
  eexists _, _. split; [vm_compute; reflexivity|]. split; [vm_compute; reflexivity|].
  refine (proj2 (sum_is_rank_ordered NONE 1 1 1 0 (sum_sample [2; 0; 3; 1]) _ _ _ _ _ _ _ _) 0 0 _ _).
  - done.
  - lia.
  - lia.
  - repeat constructor; cbn; lia.
  - vm_compute. reflexivity.
  - vm_compute. reflexivity.
  - lia.
  - lia.
Defined.

(** The sum does not depend on the delivery order: if a list of frames is
    accepted, so is every permutation of it, with the same result, complete or
    not. *)
Theorem sum_order_independent naive R H req layer fs fs' s :
  sum_canonical naive -> 0 <= R < 2 ^ 60 -> 0 <= H -> Forall (frame_for req layer) fs ->
  fs ≡ₚ fs' -> accumulate_all (CoordinatorSum_new R H naive) fs = Ok s ->
  exists s', accumulate_all (CoordinatorSum_new R H naive) fs' = Ok s' /\
    CoordinatorSum_result s' = CoordinatorSum_result s.
Proof.
  intros Hc HR HH Hf Hp Hs.
  pose proof (sum_inv_new naive R H req layer HR HH) as H0.
  destruct (accumulate_all_spec naive R H req layer Hc HR HH _ [] fs H0 Hf) as [Hinv _].
  destruct (Hinv s Hs) as (Hacc & Hnd & Hi). cbn [app] in Hnd, Hi.
  assert (Forall (frame_for req layer) fs') as Hf' by by rewrite <-Hp.
  assert (concat (frame_partials <$> fs) ≡ₚ concat (frame_partials <$> fs')) as Hps by by rewrite Hp.
  destruct (accumulate_all_spec naive R H req layer Hc HR HH _ [] fs' H0 Hf') as [Hinv' Hok].
  assert (is_ok (accumulate_all (CoordinatorSum_new R H naive) fs') = true) as Ht.
  { apply Hok; [by rewrite <-Hp|]. cbn [app]. by rewrite <-Hps. }
  destruct (accumulate_all _ fs') as [s'| |]; try discriminate. exists s'. split; [done|].
  destruct (Hinv' s' eq_refl) as (_ & _ & Hi'). symmetry. by eapply sum_inv_same.
Qed.

Lemma sum_order_independent_witness :
  exists s', accumulate_all (CoordinatorSum_new 1 1 NONE) (sum_sample [3; 2; 1; 0]) = Ok s' /\
    CoordinatorSum_result s' = Ok [f32_from_bits 0x3F800000].
Proof.
  destruct (accumulate_all (CoordinatorSum_new 1 1 NONE) (sum_sample [0; 1; 2; 3])) as [s| |] eqn:Hs;
    [|discriminate Hs|discriminate Hs].
  replace (Ok [f32_from_bits 0x3F800000]) with (CoordinatorSum_result s).
  2:{ vm_compute in Hs. injection Hs as <-. reflexivity. }
  apply (sum_order_independent NONE 1 1 1 0 (sum_sample [0; 1; 2; 3]) (sum_sample [3; 2; 1; 0]) s).
  - done.
  - lia.
  - lia.
  - repeat constructor; cbn; lia.
  - apply (Permutation_rev (sum_sample [0; 1; 2; 3])).
  - exact Hs.
Defined.
