(* ===== verification/AsyncApi.v ===== *)
(** [crates/mimo26-wire/src/async_api.rs]: the non-blocking expert client.

    [Transport] is the source's trait: its two methods on a state type.  The loop
    [while let Some(frame) = try_recv()] runs on fuel; [QueueTransport] states the
    documented contract (a receive returns at once what has already arrived), under
    which the loop ends ([drain_returns]).

    The expert client of [AsyncApi.v]: it never waits, and interleaved responses
    of several tickets are demultiplexed into the sums each would have alone. *)
From Stdlib Require Import ZArith Lia Bool SpecFloat.
From stdpp Require Import base list gmap strings.
From S2P Require Import Prelude Layout Crc32c Bf16 Frame Ladder.

Record Ticket := mkTicket {
  tk_id : Z;
  tk_layer_id : Z;
  tk_rows : Z;
  tk_sparks : Z;
}.

#[export] Instance Ticket_eq_dec : EqDecision Ticket.
Proof. solve_decision. Defined.

Class Transport (T : Type) := {
  tr_send : T -> RequestFrame -> T * outcome WireError unit;
  tr_try_recv : T -> T * option ReturnFrame;
}.

(** The contract: [inbox] is what has arrived; receiving takes its head and
    returns [None] when it is empty; sending leaves it alone. *)
Class QueueTransport (T : Type) `{Transport T} := {
  tr_inbox : T -> list ReturnFrame;
  tr_recv_spec : forall t,
    match tr_inbox t with
    | [] => tr_try_recv t = (t, None)
    | f :: l => exists t', tr_try_recv t = (t', Some f) /\ tr_inbox t' = l
    end;
  tr_send_inbox : forall t f, tr_inbox (fst (tr_send t f)) = tr_inbox t;
}.

Record Pending := mkPending {
  pd_ticket : Ticket;
  pd_request_id : Z;
  pd_sum : CoordinatorSum;
}.

Record ExpertClient (T : Type) := mkExpertClient {
  ec_transport : T;
  ec_hidden : Z;
  ec_naive : WireNaive;
  ec_next_id : Z;
  ec_pending : list Pending;
}.
Arguments mkExpertClient {T}.
Arguments ec_transport {T}.
Arguments ec_hidden {T}.
Arguments ec_naive {T}.
Arguments ec_next_id {T}.
Arguments ec_pending {T}.

Section client.
Context {T : Type} `{Transport T}.

Definition ExpertClient_new (transport : T) (hidden : Z) (naive : WireNaive) : ExpertClient T :=
  mkExpertClient transport hidden naive 1 [].

Definition submit_frame (request_id layer_id executor : Z) (rows : list RowDescriptor)
    (routes : list RouteEntry) (hidden_rows : list HiddenRow) : RequestFrame :=
  mkRequestFrame request_id 1 layer_id executor Decode 0 0 0 rows routes hidden_rows.

(** [for executor in 0..SPARKS { self.transport.send(&frame)?; }] *)
Fixpoint send_each (t : T) (frames : list RequestFrame) : T * outcome WireError unit :=
  match frames with
  | [] => (t, Ok tt)
  | f :: frames =>
    match tr_send t f with
    | (t, Ok _) => send_each t frames
    | (t, Err e) => (t, Err e)
    | (t, Panic) => (t, Panic)
    end
  end.

Definition set_transport (c : ExpertClient T) (t : T) : ExpertClient T :=
  mkExpertClient t (ec_hidden c) (ec_naive c) (ec_next_id c) (ec_pending c).

Definition set_pending (c : ExpertClient T) (ps : list Pending) : ExpertClient T :=
  mkExpertClient (ec_transport c) (ec_hidden c) (ec_naive c) (ec_next_id c) ps.

Definition submit (c : ExpertClient T) (layer_id : Z) (rows : list RowDescriptor)
    (routes : list RouteEntry) (hidden_rows : list HiddenRow)
    : ExpertClient T * outcome WireError Ticket :=
  let request_id := ec_next_id c in
  if request_id + 1 >=? 2 ^ 64 then (c, Panic) else
  let '(t, res) := send_each (ec_transport c)
    ((fun executor => submit_frame request_id layer_id executor rows routes hidden_rows)
       <$> seqZ 0 SPARKS) in
  let c := mkExpertClient t (ec_hidden c) (ec_naive c) (request_id + 1) (ec_pending c) in
  match res with
  | Err e => (c, Err e)
  | Panic => (c, Panic)
  | Ok _ =>
    let ticket := mkTicket request_id layer_id (Zlen rows) SPARKS in
    let p := mkPending ticket request_id
               (CoordinatorSum_new (Zlen rows) (ec_hidden c) (ec_naive c)) in
    (set_pending c (ec_pending c ++ [p]), Ok ticket)
  end.

Definition pending_matches (f : ReturnFrame) (p : Pending) : bool :=
  (pd_request_id p =? rt_request_id f) && (tk_layer_id (pd_ticket p) =? rt_layer_id f).

(** One pass of the loop of [collect], on a frame that was received. *)
Definition collect_frame (ps : list Pending) (f : ReturnFrame)
    : list Pending * outcome WireError unit :=
  match list_find (fun p => Is_true (pending_matches f p)) ps with
  | None => (ps, Err (UnknownRequest (rt_request_id f)))
  | Some (i, p) =>
    let '(sum, res) := accumulate (pd_sum p) f in
    (<[i := mkPending (pd_ticket p) (pd_request_id p) sum]> ps, res)
  end.

(** [while let Some(frame) = self.transport.try_recv() { .. }] *)
Fixpoint drain (fuel : nat) (t : T) (ps : list Pending)
    : T * list Pending * option (outcome WireError unit) :=
  match fuel with
  | O => (t, ps, None)
  | S fuel =>
    match tr_try_recv t with
    | (t, None) => (t, ps, Some (Ok tt))
    | (t, Some f) =>
      match collect_frame ps f with
      | (ps, Ok _) => drain fuel t ps
      | (ps, Err e) => (t, ps, Some (Err e))
      | (ps, Panic) => (t, ps, Some Panic)
      end
    end
  end.

Definition collect (fuel : nat) (c : ExpertClient T) (ticket : Ticket)
    : ExpertClient T * option (outcome WireError (option (list spec_float))) :=
  let '(t, ps, res) := drain fuel (ec_transport c) (ec_pending c) in
  let c := set_pending (set_transport c t) ps in
  match res with
  | None => (c, None)
  | Some (Err e) => (c, Some (Err e))
  | Some Panic => (c, Some Panic)
  | Some (Ok _) =>
    match list_find (fun p => pd_ticket p = ticket) ps with
    | None => (c, Some (Err (UnknownRequest (tk_id ticket))))
    | Some (_, p) =>
      if negb (CoordinatorSum_is_complete (pd_sum p)) then (c, Some (Ok None))
      else (c, Some (Some <$> CoordinatorSum_result (pd_sum p)))
    end
  end.

Definition retire (c : ExpertClient T) (ticket : Ticket) : ExpertClient T :=
  set_pending c (filter (fun p => pd_ticket p <> ticket) (ec_pending c)).

Definition pending_len (c : ExpertClient T) : Z := Zlen (ec_pending c).
End client.

(** A loopback transport: what was sent, and what has arrived. *)
Record Loopback := mkLoopback { lb_sent : list RequestFrame; lb_inbox : list ReturnFrame }.

#[export] Instance loopback_transport : Transport Loopback := {
  tr_send t f := (mkLoopback (lb_sent t ++ [f]) (lb_inbox t), Ok tt);
  tr_try_recv t :=
    match lb_inbox t with
    | [] => (t, None)
    | f :: l => (mkLoopback (lb_sent t) l, Some f)
    end;
}.

#[export] Program Instance loopback_queue : QueueTransport Loopback := {
  tr_inbox := lb_inbox;
}.
Next Obligation. intros [sent [|f l]]; cbn; eauto. Qed.
Next Obligation. done. Qed.

(** The frames of [l] that answer pending entry [p]. *)
Definition responses (p : Pending) (l : list ReturnFrame) : list ReturnFrame :=
  filter (fun f => Is_true (pending_matches f p)) l.

Definition with_sum (p : Pending) (s : CoordinatorSum) : Pending :=
  mkPending (pd_ticket p) (pd_request_id p) s.

Section proofs.
Context {T : Type} `{QueueTransport T}.

Lemma send_each_inbox t frames : tr_inbox (fst (send_each t frames)) = tr_inbox t.
Proof.
  revert t; induction frames as [|f frames IH]; intros t; [done|]. cbn [send_each].
  pose proof (tr_send_inbox t f) as Hs. destruct (tr_send t f) as [t' [|e|]]; cbn in *;
    [by rewrite IH|done..].
Qed.

Lemma drain_returns fuel t ps :
  (length (tr_inbox t) < fuel)%nat ->
  exists t' ps' res, drain fuel t ps = (t', ps', Some res) /\
    (is_ok res = true -> tr_inbox t' = []).
Proof.
  revert t ps; induction fuel as [|fuel IH]; intros t ps Hlen; [lia|]. cbn [drain].
  pose proof (tr_recv_spec t) as Hr. destruct (tr_inbox t) as [|f l] eqn:Hin.
  - rewrite Hr. eexists _, _, _. split; [done|]. by intros _.
  - destruct Hr as (t' & -> & Hin'). destruct (collect_frame ps f) as [ps' [|e|]].
    + apply IH. rewrite Hin'. cbn in Hlen. lia.
    + eexists _, _, _. split; [done|]. done.
    + eexists _, _, _. split; [done|]. done.
Qed.

Lemma pending_unique ps f i j p q :
  NoDup (pd_request_id <$> ps) -> ps !! i = Some p -> ps !! j = Some q ->
  Is_true (pending_matches f p) -> Is_true (pending_matches f q) -> i = j.
Proof.
  intros Hnd Hi Hj Hp Hq. unfold pending_matches in *.
  apply andb_prop_elim in Hp as [Hp%Is_true_true _]. apply andb_prop_elim in Hq as [Hq%Is_true_true _].
  apply (NoDup_lookup (pd_request_id <$> ps) i j (rt_request_id f)); [done|..];
    rewrite list_lookup_fmap, ?Hi, ?Hj; cbn; f_equal; lia.
Qed.

Lemma drain_demux fuel t ps sums :
  (length (tr_inbox t) < fuel)%nat -> NoDup (pd_request_id <$> ps) ->
  Forall (fun f => exists p, p ∈ ps /\ Is_true (pending_matches f p)) (tr_inbox t) ->
  Forall2 (fun p s => accumulate_all (pd_sum p) (responses p (tr_inbox t)) = Ok s) ps sums ->
  exists t', drain fuel t ps = (t', zip_with with_sum ps sums, Some (Ok tt)) /\ tr_inbox t' = [].
Proof.
  revert t ps; induction fuel as [|fuel IH]; intros t ps Hlen Hnd Hall Hsums; [lia|].
  cbn [drain]. pose proof (tr_recv_spec t) as Hr. destruct (tr_inbox t) as [|f l] eqn:Hin.
  { rewrite Hr. exists t. split; [|done]. do 2 f_equal. clear -Hsums.
    induction Hsums as [|[tk id s0] s ps sums Hs _ IH]; [done|]. cbn in *. by simplify_eq; rewrite <-IH. }
  destruct Hr as (t' & -> & Hin'). apply Forall_cons in Hall as [(p & Hp & Hm) Hall].
  unfold collect_frame.
  destruct (list_find _ ps) as [[i q]|] eqn:Hf.
  2:{ apply list_find_None in Hf. rewrite Forall_forall in Hf. by apply Hf in Hp. }
  apply list_find_Some in Hf as (Hi & Hq & _).
  destruct (Forall2_lookup_l _ _ _ _ _ Hsums Hi) as (s & Hs & Hacc).
  unfold responses in Hacc. rewrite filter_cons_True in Hacc by done. cbn [accumulate_all] in Hacc.
  destruct (accumulate (pd_sum q) f) as [s1 [|e|]]; try discriminate.
  destruct (IH t' (<[i := mkPending (pd_ticket q) (pd_request_id q) s1]> ps)) as (t'' & Hd & Hin'').
  - rewrite Hin'. cbn in Hlen. lia.
  - rewrite list_fmap_insert. cbn. rewrite list_insert_id; [done|]. by rewrite list_lookup_fmap, Hi.
  - rewrite Hin'. eapply Forall_impl; [exact Hall|]. intros g (p' & [j Hj]%list_elem_of_lookup & Hg).
    destruct (decide (j = i)) as [->|Hne].
    + exists (mkPending (pd_ticket q) (pd_request_id q) s1). split.
      * apply list_elem_of_lookup. exists i. apply list_lookup_insert_eq. by eapply lookup_lt_Some.
      * by rewrite Hi in Hj; injection Hj as <-.
    + exists p'. split; [|done]. apply list_elem_of_lookup. exists j. by rewrite list_lookup_insert_ne.
  - rewrite Hin'. apply Forall2_same_length_lookup_2.
    { rewrite length_insert. by eapply Forall2_length. }
    intros j p' s' Hj Hs'. destruct (decide (j = i)) as [->|Hne].
    + rewrite list_lookup_insert_eq in Hj by by eapply lookup_lt_Some.
      injection Hj as <-. cbn. by replace s' with s by congruence.
    + rewrite list_lookup_insert_ne in Hj by done.
      destruct (Forall2_lookup_l _ _ _ _ _ Hsums Hj) as (s2 & Hs2 & Hacc2).
      replace s' with s2 by congruence. unfold responses in Hacc2.
      rewrite filter_cons_False in Hacc2; [done|]. intros Hg. apply Hne.
      by eapply (pending_unique ps f).
  - exists t''. split; [|done]. rewrite Hd. do 2 f_equal.
    apply list_eq. intros j. rewrite !lookup_zip_with.
    destruct (decide (j = i)) as [->|Hne].
    + rewrite list_lookup_insert_eq by by eapply lookup_lt_Some. by rewrite Hi.
    + by rewrite list_lookup_insert_ne.
Qed.
End proofs.

(** * Properties *)

(** C15: the client never waits.  A submission leaves everything that has arrived
    in place whatever happens to its sends, and a collection with enough fuel to
    read what has arrived returns. *)
Theorem client_never_blocks {T} `{QueueTransport T} (c : ExpertClient T) layer_id rows routes
    hidden_rows fuel ticket :
  (length (tr_inbox (ec_transport c)) < fuel)%nat ->
  tr_inbox (ec_transport (fst (submit c layer_id rows routes hidden_rows)))
    = tr_inbox (ec_transport c) /\
  (exists res, snd (collect fuel c ticket) = Some res).
Proof.
  intros Hfuel. split.
  - unfold submit. destruct (_ >=? _); [done|].
    pose proof (send_each_inbox (ec_transport c)
      ((fun e => submit_frame (ec_next_id c) layer_id e rows routes hidden_rows) <$> seqZ 0 SPARKS))
      as Hs.
    destruct (send_each _ _) as [t [|e|]]; exact Hs.
  - unfold collect. destruct (drain_returns fuel (ec_transport c) (ec_pending c) Hfuel)
      as (t' & ps' & [|e|] & -> & _); [|by eexists..].
    destruct (list_find _ ps') as [[i p]|]; [|by eexists].
    by destruct (negb _); eexists.
Qed.

(** Responses of several tickets may interleave freely: if each ticket's
    responses, taken alone, would be accepted, collecting a complete ticket
    returns the sum of exactly its own responses, and an incomplete one [None]. *)
Theorem collect_demultiplexes {T} `{QueueTransport T} (c : ExpertClient T) fuel sums ticket i p s :
  (length (tr_inbox (ec_transport c)) < fuel)%nat ->
  NoDup (pd_request_id <$> ec_pending c) -> NoDup (pd_ticket <$> ec_pending c) ->
  Forall (fun f => exists p, p ∈ ec_pending c /\ Is_true (pending_matches f p))
    (tr_inbox (ec_transport c)) ->
  Forall2 (fun p s => accumulate_all (pd_sum p) (responses p (tr_inbox (ec_transport c))) = Ok s)
    (ec_pending c) sums ->
  ec_pending c !! i = Some p -> sums !! i = Some s -> pd_ticket p = ticket ->
  snd (collect fuel c ticket) =
    Some (if CoordinatorSum_is_complete s then Some <$> CoordinatorSum_result s else Ok None).
Proof.
  intros Hfuel Hnd Htk Hall Hsums Hi Hs Hp. unfold collect.
  destruct (drain_demux fuel (ec_transport c) (ec_pending c) sums Hfuel Hnd Hall Hsums)
    as (t' & -> & _).
  assert (zip_with with_sum (ec_pending c) sums !! i = Some (with_sum p s)) as Hz
    by by rewrite lookup_zip_with, Hi, Hs.
  destruct (list_find _ _) as [[j q]|] eqn:Hf.
  2:{ apply list_find_None in Hf. rewrite Forall_lookup in Hf. by apply (Hf _ _ Hz) in Hp. }
  apply list_find_Some in Hf as (Hj & Hq & _).
  rewrite lookup_zip_with in Hj.
  destruct (ec_pending c !! j) as [p'|] eqn:Hj1; [|done].
  destruct (sums !! j) as [s'|] eqn:Hj2; [|done]. injection Hj as <-. cbn in Hq.
  assert (i = j) as <-.
  { apply (NoDup_lookup (pd_ticket <$> ec_pending c) i j ticket); [done|..];
      rewrite list_lookup_fmap, ?Hi, ?Hj1; cbn; congruence. }
  simplify_eq. cbn. by destruct (CoordinatorSum_is_complete s).
Qed.

(** * Witnesses *)

Definition demux_client : ExpertClient Loopback :=
  mkExpertClient (mkLoopback [] [r8_partial 3 0x3F80; r8_partial 0 0x4B80; r8_partial 1 0x3F80;
                                 r8_partial 2 0xCB80]) 1 NONE 2
    [mkPending (mkTicket 1 0 1 SPARKS) 1 (CoordinatorSum_new 1 1 NONE)].

Lemma client_never_blocks_witness :
  tr_inbox (ec_transport (fst (submit demux_client 0 [] [] []))) = tr_inbox (ec_transport demux_client) /\
  (exists res, snd (collect 5 demux_client (mkTicket 1 0 1 SPARKS)) = Some res).
Proof. apply (client_never_blocks demux_client 0 [] [] [] 5). cbn. lia. Defined.

Lemma collect_demultiplexes_witness :
  snd (collect 5 demux_client (mkTicket 1 0 1 SPARKS)) = Some (Ok (Some [f32_from_bits 0x3F800000])).
Proof.
  destruct (accumulate_all (CoordinatorSum_new 1 1 NONE) (lb_inbox (ec_transport demux_client)))
    as [s| |] eqn:Hs; [|discriminate Hs|discriminate Hs].
  rewrite (collect_demultiplexes demux_client 5 [s] (mkTicket 1 0 1 SPARKS) 0
    (mkPending (mkTicket 1 0 1 SPARKS) 1 (CoordinatorSum_new 1 1 NONE)) s).
  - vm_compute in Hs. injection Hs as <-. reflexivity.
  - cbn. lia.
  - apply NoDup_singleton.
  - apply NoDup_singleton.
  - cbn. repeat constructor; eexists; (split; [apply list_elem_of_singleton; reflexivity|exact I]).
  - constructor; [exact Hs|constructor].
  - done.
  - done.
  - done.
Defined.
