(* ===== verification/KvPool.v ===== *)
(** [crates/mimo26-coordinator/src/kv_pool.rs]: byte accounting of the KV pool.
    Integers are [u64]; a product or sum that overflows panics.  Pool operations
    return the new pool next to their result.

    [ledger] is the contract the scheduler and the pager build on: the bytes in
    use are the sum of the outstanding reservations, and fit in the pool. *)
From Stdlib Require Import ZArith Lia Bool.
From stdpp Require Import base list gmap strings.
From S2P Require Import Prelude.

(** * Definitions *)

Definition GA_KV_BYTES_PER_TOKEN : Z := 9 * 4 * (192 + 128).
Definition SWA_RING_BYTES_PER_SEQ : Z := 39 * 8 * (192 + 128) * 128.
Definition DEFAULT_ADMIT_RESERVE : Z := 8192.
Definition MAX_OUTPUT_TOKENS : Z := 65536.

(** Checked [u64] arithmetic; these functions have no error value. *)
Definition u64_add (a b : Z) : outcome Empty_set Z :=
  if a + b <? 2 ^ 64 then Ok (a + b) else Panic.

Definition u64_mul (a b : Z) : outcome Empty_set Z :=
  if a * b <? 2 ^ 64 then Ok (a * b) else Panic.

Definition request_reservation (prompt_tokens max_tokens admit_reserve : Z)
    : outcome Empty_set Z :=
  let output_reserve := Z.min max_tokens admit_reserve in
  p ← u64_mul prompt_tokens GA_KV_BYTES_PER_TOKEN;
  ps ← u64_add p SWA_RING_BYTES_PER_SEQ;
  o ← u64_mul output_reserve GA_KV_BYTES_PER_TOKEN;
  u64_add ps o.

Definition full_lifetime_reservation (prompt_tokens max_tokens : Z) : outcome Empty_set Z :=
  p ← u64_mul prompt_tokens GA_KV_BYTES_PER_TOKEN;
  ps ← u64_add p SWA_RING_BYTES_PER_SEQ;
  o ← u64_mul max_tokens GA_KV_BYTES_PER_TOKEN;
  u64_add ps o.

Inductive Admission :=
| GrantAdmitted (reservation : Z)
| GrantRejected.

Record KvPool := mkKvPool { kp_total : Z; kp_used : Z }.

Definition KvPool_new (measured_bytes : Z) : KvPool := mkKvPool measured_bytes 0.

Definition KvPool_free (p : KvPool) : Z := Z.max 0 (kp_total p - kp_used p).

Definition KvPool_admit (p : KvPool) (prompt_tokens max_tokens admit_reserve : Z)
    : outcome Empty_set (KvPool * Admission) :=
  reservation ← request_reservation prompt_tokens max_tokens admit_reserve;
  want ← u64_add (kp_used p) reservation;
  if want >? kp_total p then Ok (p, GrantRejected)
  else Ok (mkKvPool (kp_total p) want, GrantAdmitted reservation).

Definition KvPool_grow (p : KvPool) (extra_tokens : Z) : outcome Empty_set (KvPool * Z) :=
  extra ← u64_mul extra_tokens GA_KV_BYTES_PER_TOKEN;
  used ← u64_add (kp_used p) extra;
  Ok (mkKvPool (kp_total p) used, extra).

Definition KvPool_reserve_bytes (p : KvPool) (bytes : Z) : outcome Empty_set (KvPool * bool) :=
  want ← u64_add (kp_used p) bytes;
  if want >? kp_total p then Ok (p, false) else Ok (mkKvPool (kp_total p) want, true).

Definition KvPool_release (p : KvPool) (reservation : Z) : KvPool :=
  mkKvPool (kp_total p) (Z.max 0 (kp_used p - reservation)).

#[export] Instance Admission_eq_dec : EqDecision Admission.
Proof. solve_decision. Defined.

(** The sum of a list of reservations. *)
Definition total_reserved (rs : list Z) : Z := foldr Z.add 0 rs.

Record ledger (p : KvPool) (rs : list Z) : Prop := {
  lg_total : u64_range (kp_total p);
  lg_nonneg : Forall (Z.le 0) rs;
  lg_used : kp_used p = total_reserved rs;
  lg_fits : kp_used p <= kp_total p;
}.

(** * The ledger *)

Lemma u64_add_Ok a b c : u64_add a b = Ok c <-> a + b < 2 ^ 64 /\ c = a + b.
Proof. unfold u64_add. destruct (Z.ltb_spec (a + b) (2 ^ 64)); split; intros; simplify_eq; intuition (lia || congruence). Qed.

Lemma u64_mul_Ok a b c : u64_mul a b = Ok c <-> a * b < 2 ^ 64 /\ c = a * b.
Proof. unfold u64_mul. destruct (Z.ltb_spec (a * b) (2 ^ 64)); split; intros; simplify_eq; intuition (lia || congruence). Qed.

Lemma total_reserved_app rs rs' : total_reserved (rs ++ rs') = total_reserved rs + total_reserved rs'.
Proof. induction rs as [|r rs IH]; cbn; [done|]. unfold total_reserved in *. lia. Qed.

Lemma total_reserved_nonneg rs : Forall (Z.le 0) rs -> 0 <= total_reserved rs.
Proof. induction 1; cbn; [lia|]. unfold total_reserved in *. lia. Qed.

Lemma total_reserved_perm rs rs' : rs ≡ₚ rs' -> total_reserved rs = total_reserved rs'.
Proof. induction 1; cbn; unfold total_reserved in *; lia. Qed.

Lemma request_reservation_Ok p m a r :
  request_reservation p m a = Ok r ->
  r = p * GA_KV_BYTES_PER_TOKEN + SWA_RING_BYTES_PER_SEQ + Z.min m a * GA_KV_BYTES_PER_TOKEN.
Proof.
  unfold request_reservation. intros H.
  apply bind_Ok in H as (x & [_ ->]%u64_mul_Ok & H).
  apply bind_Ok in H as (y & [_ ->]%u64_add_Ok & H).
  by apply bind_Ok in H as (z & [_ ->]%u64_mul_Ok & [_ ->]%u64_add_Ok).
Qed.

Lemma ledger_new n : u64_range n -> ledger (KvPool_new n) [].
Proof. intros. constructor; cbn; [done|constructor|done|width]. Qed.

Lemma ledger_perm p rs rs' : ledger p rs -> rs ≡ₚ rs' -> ledger p rs'.
Proof.
  intros [] Hp. constructor; [done| |by rewrite <-(total_reserved_perm _ _ Hp)|done].
  by rewrite <-Hp.
Qed.

(** Taking [r] more bytes, when they fit. *)
Lemma ledger_take p rs r :
  ledger p rs -> 0 <= r -> kp_used p + r <= kp_total p ->
  ledger (mkKvPool (kp_total p) (kp_used p + r)) (rs ++ [r]).
Proof.
  intros [] Hr Hfit. constructor; cbn; [done| | |done].
  - apply Forall_app_2; [done|]. by constructor.
  - rewrite total_reserved_app. cbn. lia.
Qed.

Lemma ledger_admit p rs pt mt ar p' res :
  ledger p rs -> 0 <= pt -> 0 <= mt -> 0 <= ar ->
  KvPool_admit p pt mt ar = Ok (p', res) ->
  match res with
  | GrantAdmitted r => request_reservation pt mt ar = Ok r /\ ledger p' (rs ++ [r])
  | GrantRejected => p' = p
  end.
Proof.
  intros Hl Hpt Hmt Har H. unfold KvPool_admit in H.
  apply bind_Ok in H as (r & Hr & H). apply bind_Ok in H as (w & [_ ->]%u64_add_Ok & H).
  destruct (Z.gtb_spec (kp_used p + r) (kp_total p)); simplify_eq; [done|].
  split; [done|]. apply ledger_take; [done| |done].
  apply request_reservation_Ok in Hr as ->.
  unfold GA_KV_BYTES_PER_TOKEN, SWA_RING_BYTES_PER_SEQ. lia.
Qed.

Lemma ledger_reserve p rs bytes p' ok :
  ledger p rs -> 0 <= bytes -> KvPool_reserve_bytes p bytes = Ok (p', ok) ->
  if ok then ledger p' (rs ++ [bytes]) else p' = p.
Proof.
  intros Hl Hb H. unfold KvPool_reserve_bytes in H.
  apply bind_Ok in H as (w & [_ ->]%u64_add_Ok & H).
  destruct (Z.gtb_spec (kp_used p + bytes) (kp_total p)); simplify_eq; [done|].
  by apply ledger_take.
Qed.

Lemma ledger_release p rs r rs' :
  ledger p rs -> rs ≡ₚ r :: rs' -> ledger (KvPool_release p r) rs' /\
  kp_used (KvPool_release p r) = kp_used p - r.
Proof.
  intros Hl Hp. pose proof (ledger_perm _ _ _ Hl Hp) as [Ht Hn Hu Hf].
  apply Forall_cons in Hn as [Hr Hn]. pose proof (total_reserved_nonneg _ Hn) as Hpos.
  unfold KvPool_release. cbn [total_reserved foldr] in Hu. fold (total_reserved rs') in Hu.
  split; [|cbn; lia]. constructor; cbn; [done|done|lia|lia].
Qed.

Create HintDb kv.
#[export] Hint Resolve ledger_new total_reserved_nonneg : kv.
