(* ===== verification/Scheduler.v ===== *)
(** [crates/mimo26-coordinator/src/scheduler.rs]: the request scheduler.  Admitted
    requests wait in a queue, the head is prefilled in chunks, then joins the
    decode lanes.  Methods return the new scheduler next to their result.

    The [while] of [chunks] runs on fuel and answers [None] when it runs out; it
    does so for every fuel exactly when the configured chunk is zero and there is
    something to prefill, where the source's loop does not end.

    The scheduler of [Scheduler.v]: the pool is accounted exactly, a prefill is
    the chunk list of its request, and what stalls the queue. *)
From Stdlib Require Import ZArith Lia Bool SpecFloat.
From stdpp Require Import base list gmap strings relations.
From S2P Require Import Prelude Layout Bf16 KvPool.

Inductive RequestState := Pending | Prefilling | Decoding | Done.

Record Request := mkRequest {
  sq_id : Z;
  sq_prompt_tokens : Z;
  sq_max_tokens : Z;
  sq_state : RequestState;
  sq_prefill_pos : Z;
  sq_reservation : Z;
}.

Definition Request_new (id prompt_tokens max_tokens : Z) : Request :=
  mkRequest id prompt_tokens max_tokens Pending 0 0.

Definition set_state (r : Request) (st : RequestState) : Request :=
  mkRequest (sq_id r) (sq_prompt_tokens r) (sq_max_tokens r) st (sq_prefill_pos r)
    (sq_reservation r).

Definition set_prefill_pos (r : Request) (pos : Z) : Request :=
  mkRequest (sq_id r) (sq_prompt_tokens r) (sq_max_tokens r) (sq_state r) pos
    (sq_reservation r).

Definition set_reservation (r : Request) (bytes : Z) : Request :=
  mkRequest (sq_id r) (sq_prompt_tokens r) (sq_max_tokens r) (sq_state r) (sq_prefill_pos r)
    bytes.

Record SchedulerConfig := mkSchedulerConfig {
  sc_prefill_chunk : Z;
  sc_long_context_threshold : Z;
  sc_max_concurrency : Z;
}.

Definition SchedulerConfig_default : SchedulerConfig := mkSchedulerConfig 2048 524288 8.

Inductive Step :=
| PrefillChunk (request_id start len : Z)
| DecodeRound (request_ids : list Z)
| Idle.

Inductive SubmitOutcome := SubmitAccepted | SubmitRejected.

Record Scheduler := mkScheduler {
  sd_config : SchedulerConfig;
  sd_pool : KvPool;
  sd_pending : list Request;
  sd_decoding : list Request;
}.

Definition Scheduler_new (config : SchedulerConfig) (pool : KvPool) : Scheduler :=
  mkScheduler config pool [] [].

Definition used_bytes (s : Scheduler) : Z := kp_used (sd_pool s).

Definition is_long_context (s : Scheduler) (prompt_tokens : Z) : bool :=
  prompt_tokens >? sc_long_context_threshold (sd_config s).

Definition concurrency_for (s : Scheduler) (prompt_tokens : Z) : Z :=
  if is_long_context s prompt_tokens then 1 else sc_max_concurrency (sd_config s).

(** [while pos < prompt_tokens { .. }] *)
Fixpoint chunks_from (fuel : nat) (chunk prompt_tokens pos : Z) : option (list (Z * Z)) :=
  match fuel with
  | O => None
  | S fuel =>
    if pos <? prompt_tokens then
      let len := Z.min (prompt_tokens - pos) chunk in
      cons (pos, len) <$> chunks_from fuel chunk prompt_tokens (pos + len)
    else Some []
  end.

Definition chunks (fuel : nat) (s : Scheduler) (prompt_tokens : Z) : option (list (Z * Z)) :=
  chunks_from fuel (sc_prefill_chunk (sd_config s)) prompt_tokens 0.

Definition Scheduler_submit (s : Scheduler) (req : Request)
    : outcome Empty_set (Scheduler * SubmitOutcome) :=
  '(pool, admission) ← KvPool_admit (sd_pool s) (sq_prompt_tokens req) (sq_max_tokens req)
      DEFAULT_ADMIT_RESERVE;
  match admission with
  | GrantAdmitted reservation =>
    let req := set_state (set_reservation req reservation) Pending in
    Ok (mkScheduler (sd_config s) pool (sd_pending s ++ [req]) (sd_decoding s), SubmitAccepted)
  | GrantRejected => Ok (mkScheduler (sd_config s) pool (sd_pending s) (sd_decoding s), SubmitRejected)
  end.

(** The decode round, or idle: what [next_step] falls through to. *)
Definition decode_or_idle (s : Scheduler) : Step :=
  match sd_decoding s with
  | [] => Idle
  | _ => DecodeRound (sq_id <$> sd_decoding s)
  end.

Definition next_step (s : Scheduler) : Scheduler * Step :=
  match sd_pending s with
  | [] => (s, decode_or_idle s)
  | req :: rest =>
    let req := match sq_state req with Pending => set_state req Prefilling | _ => req end in
    let start := sq_prefill_pos req in
    let remaining := Z.max 0 (sq_prompt_tokens req - start) in
    if remaining >? 0 then
      let len := Z.min remaining (sc_prefill_chunk (sd_config s)) in
      let req := set_prefill_pos req (start + len) in
      if start + len >=? sq_prompt_tokens req then
        let req := set_state req Decoding in
        (mkScheduler (sd_config s) (sd_pool s) rest (sd_decoding s ++ [req]),
         PrefillChunk (sq_id req) start len)
      else
        (mkScheduler (sd_config s) (sd_pool s) (req :: rest) (sd_decoding s),
         PrefillChunk (sq_id req) start len)
    else
      let s := mkScheduler (sd_config s) (sd_pool s) (req :: rest) (sd_decoding s) in
      (s, decode_or_idle s)
  end.

Definition release_reservation (s : Scheduler) (req : Request) : Scheduler :=
  mkScheduler (sd_config s) (KvPool_release (sd_pool s) (sq_reservation req)) (sd_pending s)
    (sd_decoding s).

Definition set_decoding (s : Scheduler) (l : list Request) : Scheduler :=
  mkScheduler (sd_config s) (sd_pool s) (sd_pending s) l.

Definition preempt_lowest_priority (s : Scheduler) : Scheduler * option Request :=
  match last (sd_decoding s) with
  | None => (s, None)
  | Some req =>
    let s := set_decoding s (take (length (sd_decoding s) - 1) (sd_decoding s)) in
    (release_reservation s req, Some req)
  end.

Definition Scheduler_finish (s : Scheduler) (id : Z) : Scheduler * option Request :=
  match list_find (fun r => sq_id r = id) (sd_decoding s) with
  | None => (s, None)
  | Some (idx, req) =>
    let s := set_decoding s (delete idx (sd_decoding s)) in
    let req := set_state req Done in
    (release_reservation s req, Some req)
  end.

Definition should_time_slice (expert_touch_fraction : Z) : bool :=
  f32_lt (f32_from_bits expert_touch_fraction) (f32_from_bits 0x3F000000).

(** * Runs *)

(** One call of a scheduler method by the serving loop, which submits the requests of a set. *)
Inductive sched_step (submits : Request -> Prop) : Scheduler -> Scheduler -> Prop :=
| step_submit s req s' o :
    submits req -> 0 <= sq_prompt_tokens req -> 0 <= sq_max_tokens req ->
    Scheduler_submit s req = Ok (s', o) -> sched_step submits s s'
| step_next s : sched_step submits s (fst (next_step s))
| step_preempt s : sched_step submits s (fst (preempt_lowest_priority s))
| step_finish s id : sched_step submits s (fst (Scheduler_finish s id)).

(** A request with something left to prefill, as a new one with a nonempty prompt. *)
Definition unfilled (r : Request) : Prop := sq_prefill_pos r < sq_prompt_tokens r.

(** [n] calls of [next_step] and what they returned. *)
Fixpoint run_steps (n : nat) (s : Scheduler) : Scheduler * list Step :=
  match n with
  | O => (s, [])
  | S n =>
    let '(s, o) := next_step s in
    let '(s, os) := run_steps n s in (s, o :: os)
  end.

#[export] Instance RequestState_eq_dec : EqDecision RequestState.
Proof. solve_decision. Defined.
#[export] Instance Request_eq_dec : EqDecision Request.
Proof. solve_decision. Defined.
#[export] Instance Step_eq_dec : EqDecision Step.
Proof. solve_decision. Defined.

(** * Definitions *)

Definition reservations (s : Scheduler) : list Z :=
  sq_reservation <$> (sd_pending s ++ sd_decoding s).

(** [cs] cuts [\[pos, stop)] into consecutive nonempty pieces of at most [chunk]. *)
Fixpoint cuts (chunk pos stop : Z) (cs : list (Z * Z)) : Prop :=
  match cs with
  | [] => pos = stop
  | (start, len) :: cs => start = pos /\ 0 < len <= chunk /\ cuts chunk (pos + len) stop cs
  end.

Record sched_inv (s : Scheduler) : Prop := {
  iv_ledger : ledger (sd_pool s) (reservations s);
  iv_decoding : Forall (fun r => sq_state r = Decoding /\ sq_prompt_tokens r <= sq_prefill_pos r)
                  (sd_decoding s);
  iv_pending : Forall (fun r => sq_state r = Pending \/ sq_state r = Prefilling) (sd_pending s);
}.

(** * Chunks *)

Lemma chunks_from_cuts fuel chunk prompt pos :
  0 < chunk -> 0 <= pos <= prompt -> (Z.to_nat (prompt - pos) < fuel)%nat ->
  exists cs, chunks_from fuel chunk prompt pos = Some cs /\ cuts chunk pos prompt cs.
Proof.
  intros Hc. revert pos; induction fuel as [|fuel IH]; intros pos Hpos Hfuel; [lia|].
  cbn [chunks_from]. destruct (Z.ltb_spec pos prompt) as [Hlt|Hge].
  - destruct (IH (pos + Z.min (prompt - pos) chunk)) as (cs & -> & Hcs); [lia|lia|].
    eexists. split; [reflexivity|]. cbn. split_and!; [done|lia|lia|done].
  - exists []. split; [done|]. cbn. lia.
Qed.

Lemma chunks_from_zero fuel prompt pos : pos < prompt -> chunks_from fuel 0 prompt pos = None.
Proof.
  intros Hlt. revert pos Hlt; induction fuel as [|fuel IH]; intros pos Hlt; [done|].
  cbn [chunks_from]. rewrite (proj2 (Z.ltb_lt _ _)), Z.min_r, Z.add_0_r, IH by lia. done.
Qed.

(** * Prefill *)

(** The scheduler after [cs] have been emitted for the head request. *)
Lemma prefill_run s req rest cs :
  sd_pending s = req :: rest -> 0 < sc_prefill_chunk (sd_config s) ->
  0 <= sq_prefill_pos req < sq_prompt_tokens req ->
  (exists fuel, chunks_from fuel (sc_prefill_chunk (sd_config s)) (sq_prompt_tokens req)
                  (sq_prefill_pos req) = Some cs) ->
  run_steps (length cs) s =
  (mkScheduler (sd_config s) (sd_pool s) rest
     (sd_decoding s ++ [set_state (set_prefill_pos req (sq_prompt_tokens req)) Decoding]),
   (fun '(start, len) => PrefillChunk (sq_id req) start len) <$> cs).
Proof.
  revert s req. induction cs as [|[start len] cs IH]; intros s req Hp Hc Hpos [fuel Hcs].
  { destruct fuel as [|fuel]; [done|]. cbn in Hcs. rewrite (proj2 (Z.ltb_lt _ _)) in Hcs by lia.
    by destruct (chunks_from _ _ _ _). }
  destruct fuel as [|fuel]; [done|]. cbn [chunks_from] in Hcs.
  rewrite (proj2 (Z.ltb_lt _ _)) in Hcs by lia.
  destruct (chunks_from fuel _ _ _) as [cs'|] eqn:Hrest; [|done].
  injection Hcs as <- <- ->. cbn [length run_steps].
  set (len := Z.min _ _) in *. set (start := sq_prefill_pos req) in *.
  unfold next_step. rewrite Hp.
  set (req' := match sq_state req with Pending => _ | _ => _ end).
  assert (sq_prefill_pos req' = start /\ sq_prompt_tokens req' = sq_prompt_tokens req /\
    sq_id req' = sq_id req /\ (forall pos st, set_state (set_prefill_pos req' pos) st =
      set_state (set_prefill_pos req pos) st)) as (Hs & Ht & Hi & Heq)
    by (unfold req'; by destruct (sq_state req)).
  cbn [set_prefill_pos sq_prompt_tokens sq_id]. rewrite Hs, Ht, Hi.
  rewrite Z.max_r by lia. rewrite (Z.gtb_ltb _ 0), (proj2 (Z.ltb_lt _ _)) by lia.
  fold len. destruct (Z.geb_spec (start + len) (sq_prompt_tokens req)) as [Hge|Hlt].
  - assert (start + len = sq_prompt_tokens req) as Hend by lia.
    assert (cs = []) as ->.
    { destruct fuel; [done|]. cbn in Hrest. rewrite Hend, Z.ltb_irrefl in Hrest. by simplify_eq. }
    cbn. rewrite Hend, Hi. f_equal. f_equal. f_equal. f_equal. apply Heq.
  - rewrite (IH _ (set_prefill_pos req' (start + len))); cbn.
    + rewrite Ht, Hi. f_equal. f_equal. f_equal. f_equal.
      transitivity (set_state (set_prefill_pos req' (sq_prompt_tokens req)) Decoding); [done|apply Heq].
    + done.
    + done.
    + rewrite Ht. lia.
    + exists fuel. by rewrite Ht.
Qed.

(** A head with nothing left to prefill stays where it is. *)
Lemma stalled_run n s req rest :
  sd_pending s = req :: rest -> sq_prompt_tokens req <= sq_prefill_pos req ->
  exists req', snd (run_steps n s) = replicate n (decode_or_idle s) /\
    sd_pending (fst (run_steps n s)) = req' :: rest /\ sq_id req' = sq_id req /\
    sd_decoding (fst (run_steps n s)) = sd_decoding s.
Proof.
  revert s req; induction n as [|n IH]; intros s req Hp Hpos; [by exists req|].
  cbn [run_steps]. unfold next_step. rewrite Hp.
  set (req1 := match sq_state req with Pending => _ | _ => _ end).
  assert (sq_prefill_pos req1 = sq_prefill_pos req /\ sq_prompt_tokens req1 = sq_prompt_tokens req
    /\ sq_id req1 = sq_id req) as (Hs & Ht & Hi) by (unfold req1; by destruct (sq_state req)).
  rewrite Hs, Ht, Z.max_l by lia. cbn [Z.gtb Z.compare].
  set (s1 := mkScheduler _ _ _ _).
  destruct (IH s1 req1) as (req' & Ho & Hpend & Hid & Hdec); [done|lia|].
  destruct (run_steps n s1) as [s2 os]. cbn in *. exists req'. split_and!; [|done|congruence|done].
  by rewrite Ho.
Qed.

(** * Accounting *)

Lemma sched_inv_new cfg n : u64_range n -> sched_inv (Scheduler_new cfg (KvPool_new n)).
Proof. intros. constructor; cbn; [by apply ledger_new|constructor..]. Qed.

Lemma submit_inv s req s' o :
  0 <= sq_prompt_tokens req -> 0 <= sq_max_tokens req -> sched_inv s ->
  Scheduler_submit s req = Ok (s', o) -> sched_inv s'.
Proof.
  intros Hp Hm [Hl Hd Hq] H. unfold Scheduler_submit in H.
  apply bind_Ok in H as ([pool adm] & Hadm & H).
  assert (0 <= DEFAULT_ADMIT_RESERVE) as H0 by (unfold DEFAULT_ADMIT_RESERVE; lia).
  pose proof (ledger_admit _ _ _ _ _ _ _ Hl Hp Hm H0 Hadm) as Ha.
  destruct adm as [r|]; simplify_eq; [|constructor; done].
  destruct Ha as [_ Ha]. constructor; cbn; [|done|].
  - eapply ledger_perm; [exact Ha|]. unfold reservations. cbn.
    rewrite !fmap_app. cbn. by rewrite <-app_assoc, (Permutation_app_comm (sq_reservation <$> sd_decoding s)), app_assoc.
  - apply Forall_app_2; [done|]. constructor; [by left|constructor].
Qed.

Lemma next_step_inv s : sched_inv s -> sched_inv (fst (next_step s)).
Proof.
  intros [Hl Hd Hq]. unfold next_step. destruct (sd_pending s) as [|req rest] eqn:Hp.
  { constructor; cbn; [done|done|]. by rewrite Hp. }
  set (req1 := match sq_state req with Pending => _ | _ => _ end).
  assert (sq_prefill_pos req1 = sq_prefill_pos req /\ sq_prompt_tokens req1 = sq_prompt_tokens req
    /\ sq_reservation req1 = sq_reservation req /\ sq_state req1 = Prefilling) as (Hs & Ht & Hr & Hst).
  { apply Forall_cons in Hq as [[Hq|Hq] _]; unfold req1; rewrite Hq; done. }
  apply Forall_cons in Hq as [_ Hq].
  unfold reservations in Hl. rewrite Hp in Hl. cbn in Hl.
  destruct (_ >? 0); [destruct (_ >=? _) eqn:Hge|]; constructor; cbn; try done.
  - eapply ledger_perm; [exact Hl|]. unfold reservations. cbn. rewrite !fmap_app. cbn.
    rewrite Hr. by rewrite app_assoc, <-Permutation_cons_append.
  - apply Forall_app_2; [done|]. constructor; [|constructor]. cbn.
    split; [done|]. cbn in Hge. apply Z.geb_le in Hge. lia.
  - unfold reservations. cbn. by rewrite Hr.
  - constructor; [|done]. by right.
  - unfold reservations. cbn. by rewrite Hr.
  - constructor; [|done]. by right.
Qed.

Lemma release_inv s req l :
  sched_inv s -> sd_decoding s ≡ₚ req :: l ->
  sched_inv (release_reservation (set_decoding s l) req) /\
  used_bytes (release_reservation (set_decoding s l) req) = used_bytes s - sq_reservation req.
Proof.
  intros [Hl Hd Hq] Hp.
  destruct (ledger_release _ _ (sq_reservation req) (sq_reservation <$> (sd_pending s ++ l)) Hl)
    as [Hl' Hu].
  { unfold reservations. rewrite Hp. rewrite !fmap_app. cbn. by rewrite Permutation_middle. }
  split; [|done]. constructor; [exact Hl'| |exact Hq].
  cbn. rewrite Hp in Hd. by apply Forall_cons in Hd as [_ Hd].
Qed.

Lemma last_split {A} (l : list A) x :
  last l = Some x -> l = take (length l - 1) l ++ [x].
Proof.
  intros H. apply last_Some in H as [l' ->]. rewrite length_app. cbn.
  replace (length l' + 1 - 1)%nat with (length l') by lia. by rewrite take_app_length.
Qed.

Lemma preempt_inv s : sched_inv s -> sched_inv (fst (preempt_lowest_priority s)).
Proof.
  intros Hi. unfold preempt_lowest_priority. destruct (last _) as [req|] eqn:Hl; [|done].
  apply (release_inv s req); [done|]. rewrite (last_split _ _ Hl) at 1.
  by rewrite <-Permutation_cons_append.
Qed.

Lemma finish_inv s id : sched_inv s -> sched_inv (fst (Scheduler_finish s id)).
Proof.
  intros Hi. unfold Scheduler_finish. destruct (list_find _ _) as [[i req]|] eqn:Hf; [|done].
  apply list_find_Some in Hf as (Hr & _ & _). cbn [fst].
  change (release_reservation ?s' (set_state req Done)) with (release_reservation s' req).
  apply (release_inv s req); [done|]. by apply delete_Permutation.
Qed.

Lemma sched_step_inv submits s s' : sched_step submits s s' -> sched_inv s -> sched_inv s'.
Proof.
  intros [s1 req s2 o _ Hp Hm H|s1|s1|s1 id] Hi.
  - by eapply submit_inv.
  - by apply next_step_inv.
  - by apply preempt_inv.
  - by apply finish_inv.
Qed.

Lemma sched_reachable_inv submits s s' : rtc (sched_step submits) s s' -> sched_inv s -> sched_inv s'.
Proof. induction 1; [done|]. intros. by eauto using sched_step_inv. Qed.

(** When only unfilled requests are submitted, only those wait. *)
Lemma sched_step_unfilled (submits : Request -> Prop) s s' : (forall r, submits r -> unfilled r) ->
  sched_step submits s s' -> Forall unfilled (sd_pending s) -> Forall unfilled (sd_pending s').
Proof.
  intros Hfresh [s1 req s2 o Hreq Hp Hm H|s1|s1|s1 id] Hu.
  - unfold Scheduler_submit in H. apply bind_Ok in H as ([pool adm] & _ & H).
    destruct adm; simplify_eq; cbn; [|done]. apply Forall_app_2; [done|].
    constructor; [exact (Hfresh req Hreq)|constructor].
  - unfold next_step. destruct (sd_pending s1) as [|req rest] eqn:Hp; [cbn; by rewrite Hp|].
    apply Forall_cons in Hu as [Hreq Hu]. unfold unfilled in *.
    assert (sq_prefill_pos (match sq_state req with Pending => set_state req Prefilling | _ => req end)
        = sq_prefill_pos req
      /\ sq_prompt_tokens (match sq_state req with Pending => set_state req Prefilling | _ => req end)
        = sq_prompt_tokens req) as [Hs Ht] by by destruct (sq_state req).
    destruct (_ >? 0); [destruct (_ >=? _) eqn:Hge|];
      cbn [fst sd_pending]; [done|constructor; [|done]..].
    + cbn. cbn in Hge. rewrite Z.geb_leb in Hge. by apply Z.leb_gt.
    + by rewrite Hs, Ht.
  - unfold preempt_lowest_priority. by case_match.
  - unfold Scheduler_finish. by case_match; [case_match|].
Qed.

Lemma sched_reachable_unfilled (submits : Request -> Prop) s s' : (forall r, submits r -> unfilled r) ->
  rtc (sched_step submits) s s' -> Forall unfilled (sd_pending s) -> Forall unfilled (sd_pending s').
Proof. intros Hfresh. induction 1; [done|]. eauto using sched_step_unfilled. Qed.

Lemma sched_step_config submits s s' :
  sched_step submits s s' -> sd_config s' = sd_config s /\ kp_total (sd_pool s') = kp_total (sd_pool s).
Proof.
  intros [s1 req s2 o _ Hp Hm H|s1|s1|s1 id].
  - unfold Scheduler_submit, KvPool_admit in H. apply bind_Ok in H as ([pool adm] & Ha & H).
    apply bind_Ok in Ha as (? & _ & Ha). apply bind_Ok in Ha as (? & _ & Ha).
    destruct (_ >? _); simplify_eq; done.
  - unfold next_step. by repeat case_match.
  - unfold preempt_lowest_priority. by repeat case_match.
  - unfold Scheduler_finish. by repeat case_match.
Qed.

(** * Properties *)

(** C36: the scheduler accounts the pool exactly.  After any sequence of submissions, steps,
    preemptions and completions, the bytes in use are the sum of the reservations of the queued
    and decoding requests and fit in the measured pool, and every decoding request is fully
    prefilled.  When each submitted request has something to prefill, every queued one still
    has (an empty prompt, or a resubmitted request, waits with nothing left). *)
Theorem scheduler_accounting (submits : Request -> Prop) cfg measured s :
  u64_range measured -> rtc (sched_step submits) (Scheduler_new cfg (KvPool_new measured)) s ->
  used_bytes s = total_reserved (reservations s) /\ used_bytes s <= measured /\
  Forall (fun r => sq_state r = Decoding /\ sq_prompt_tokens r <= sq_prefill_pos r) (sd_decoding s) /\
  Forall (fun r => sq_state r = Pending \/ sq_state r = Prefilling) (sd_pending s) /\
  ((forall r, submits r -> sq_prefill_pos r < sq_prompt_tokens r) ->
   Forall (fun r => sq_prefill_pos r < sq_prompt_tokens r) (sd_pending s)).
Proof.
  intros Hm Hr. destruct (sched_reachable_inv _ _ _ Hr (sched_inv_new cfg measured Hm)) as [[] ? ?].
  assert (kp_total (sd_pool s) = measured) as Ht.
  { clear -Hr. change measured with (kp_total (sd_pool (Scheduler_new cfg (KvPool_new measured)))).
    induction Hr as [|s1 s2 s3 H12 _ IH]; [done|]. rewrite IH.
    by apply sched_step_config in H12 as [_ ->]. }
  unfold used_bytes. split_and!; [done|lia|done..|].
  intros Hfresh. by eapply sched_reachable_unfilled; [exact Hfresh|exact Hr|constructor].
Qed.

Definition small_chunks : Scheduler :=
  Scheduler_new (mkSchedulerConfig 4 100 8) (KvPool_new 0).

(** One request of each kind: one that decodes and one that waits. *)
Lemma scheduler_accounting_witness :
  exists s, rtc (sched_step unfilled) (Scheduler_new SchedulerConfig_default (KvPool_new 30000000)) s /\
    (used_bytes s = total_reserved (reservations s) /\ used_bytes s <= 30000000) /\
    sq_id <$> sd_decoding s = [1] /\ sq_id <$> sd_pending s = [2] /\
    Forall (fun r => sq_prefill_pos r < sq_prompt_tokens r) (sd_pending s).
Proof.
  set (s0 := Scheduler_new SchedulerConfig_default (KvPool_new 30000000)).
  pose (s1 := mkScheduler SchedulerConfig_default (mkKvPool 30000000 12814080)
    [mkRequest 1 1 2 Pending 0 12814080] []).
  pose (s2 := mkScheduler SchedulerConfig_default (mkKvPool 30000000 12814080) []
    [mkRequest 1 1 2 Decoding 1 12814080]).
  pose (s3 := mkScheduler SchedulerConfig_default (mkKvPool 30000000 25628160)
    [mkRequest 2 1 2 Pending 0 12814080] [mkRequest 1 1 2 Decoding 1 12814080]).
  assert (rtc (sched_step unfilled) s0 s3) as Hr.
  { apply rtc_l with s1.
    { apply (step_submit _ s0 (Request_new 1 1 2) s1 SubmitAccepted); [done|done|done|reflexivity]. }
    apply rtc_l with s2; [exact (step_next _ s1)|].
    apply rtc_l with s3; [|apply rtc_refl].
    apply (step_submit _ s2 (Request_new 2 1 2) s3 SubmitAccepted); [done|done|done|reflexivity]. }
  exists s3. split; [exact Hr|].
  destruct (scheduler_accounting unfilled SchedulerConfig_default 30000000 s3 ltac:(width) Hr)
    as (H1 & H2 & _ & _ & H3).
  split; [exact (conj H1 H2)|]. split; [reflexivity|]. split; [reflexivity|]. apply H3. by intros r.
Defined.

(** Chunking terminates and cuts the prompt exactly: consecutive nonempty
    pieces of at most the configured size, from 0 to the prompt length; with a
    zero chunk size and a nonempty prompt no number of iterations is enough. *)
Theorem chunks_cut_the_prompt s prompt fuel :
  0 <= prompt -> (Z.to_nat prompt < fuel)%nat ->
  (0 < sc_prefill_chunk (sd_config s) ->
   exists cs, chunks fuel s prompt = Some cs /\
     cuts (sc_prefill_chunk (sd_config s)) 0 prompt cs) /\
  (sc_prefill_chunk (sd_config s) = 0 -> 0 < prompt -> forall n, chunks n s prompt = None).
Proof.
  intros Hp Hf. unfold chunks. split.
  - intros Hc. apply chunks_from_cuts; [done|lia|lia].
  - intros -> Hpos n. by apply chunks_from_zero.
Qed.

Lemma chunks_cut_the_prompt_witness :
  exists cs, chunks 11 small_chunks 10 = Some cs /\ cuts 4 0 10 cs.
Proof.
  apply (chunks_cut_the_prompt small_chunks 10 11); [lia|cbn; lia|reflexivity].
Defined.

(** Prefilling is the chunk list.  From a queue whose head is untouched,
    [next_step] emits exactly the chunks of its prompt, one per call, then has
    moved it to the end of the decode lanes, fully prefilled. *)
Theorem prefill_emits_the_chunks s req rest fuel :
  sd_pending s = req :: rest -> 0 < sc_prefill_chunk (sd_config s) ->
  sq_prefill_pos req = 0 -> 0 < sq_prompt_tokens req ->
  (Z.to_nat (sq_prompt_tokens req) < fuel)%nat ->
  exists cs, chunks fuel s (sq_prompt_tokens req) = Some cs /\
    run_steps (length cs) s =
    (mkScheduler (sd_config s) (sd_pool s) rest
       (sd_decoding s ++ [set_state (set_prefill_pos req (sq_prompt_tokens req)) Decoding]),
     (fun '(start, len) => PrefillChunk (sq_id req) start len) <$> cs).
Proof.
  intros Hp Hc H0 Hpos Hf. unfold chunks.
  destruct (chunks_from_cuts fuel _ (sq_prompt_tokens req) 0 Hc ltac:(lia) ltac:(lia))
    as (cs & Hcs & _).
  exists cs. split; [done|]. apply prefill_run; [done|done|lia|].
  exists fuel. by rewrite H0.
Qed.

Lemma prefill_emits_the_chunks_witness :
  let s := mkScheduler (mkSchedulerConfig 4 100 8) (mkKvPool 100 0) [Request_new 1 10 2] [] in
  exists cs, chunks 11 s 10 = Some cs /\
    snd (run_steps (length cs) s) = [PrefillChunk 1 0 4; PrefillChunk 1 4 4; PrefillChunk 1 8 2].
Proof.
  intros s. destruct (prefill_emits_the_chunks s (Request_new 1 10 2) [] 11) as (cs & Hc & Hr).
  - reflexivity.
  - reflexivity.
  - reflexivity.
  - reflexivity.
  - cbn. lia.
  - exists cs. split; [exact Hc|]. rewrite Hr. vm_compute in Hc. by injection Hc as <-.
Defined.

(** A queue head with nothing left to prefill is never removed: [next_step]
    keeps it, and every request behind it, queued forever, whatever the number
    of calls.  A request of zero prompt tokens is in this position from its
    submission, and so is a preempted request that is submitted again. *)
Theorem empty_head_stalls_the_queue n s req rest :
  sd_pending s = req :: rest -> sq_prompt_tokens req <= sq_prefill_pos req ->
  exists req', snd (run_steps n s) = replicate n (decode_or_idle s) /\
    sd_pending (fst (run_steps n s)) = req' :: rest /\ sq_id req' = sq_id req /\
    sd_decoding (fst (run_steps n s)) = sd_decoding s.
Proof. apply stalled_run. Qed.

Lemma empty_head_stalls_the_queue_witness :
  let s := mkScheduler SchedulerConfig_default (mkKvPool 100 0)
             [Request_new 1 0 5; Request_new 2 7 5] [] in
  exists req', snd (run_steps 50 s) = replicate 50 Idle /\
    sd_pending (fst (run_steps 50 s)) = req' :: [Request_new 2 7 5] /\ sq_id req' = 1 /\
    sd_decoding (fst (run_steps 50 s)) = [].
Proof.
  apply (empty_head_stalls_the_queue 50 (mkScheduler SchedulerConfig_default (mkKvPool 100 0)
    [Request_new 1 0 5; Request_new 2 7 5] []) (Request_new 1 0 5) [Request_new 2 7 5]).
  - reflexivity.
  - cbn. lia.
Defined.
