(* ===== verification/Paging.v ===== *)
(** [crates/mimo26-coordinator/src/phase.rs]: the phase contract.  A KV page carries
    the phase of its positions, the arm that computed it and the epoch of the
    phase-to-arm plan; a cache hit is validated against the current plan.

    The plan's hash maps are [gmap]s, its set of legal quadruples a [gset].

    [crates/mimo26-coordinator/src/paging.rs]: the page table that ties the phase
    contract to the pool's byte accounting. *)
From Stdlib Require Import ZArith Lia Bool.
From stdpp Require Import base list gmap strings countable.
From S2P Require Import Prelude KvPool.

Inductive Phase := PhContext | PhGenerated.
Inductive Role := RoleUser | RoleSystem | RoleAssistant | RoleTool.

Definition phase_for_role (role : Role) : Phase :=
  match role with
  | RoleUser | RoleSystem | RoleTool => PhContext
  | RoleAssistant => PhGenerated
  end.

Inductive LayerKind := KindGa | KindSwa.

Inductive DerivationPath :=
| InitialPrefill | ChunkedPrefillContinuation | PrefixCacheHit | EvictionRebuild
| PrefixResend | PreemptionResume | ContinueRequest | RejectedDraftRederivation
| HistoryDivergence.

Inductive Lattice := EFp32 | EBf16 | EW4A8V1.

Definition ArmId : Type := string.
Definition SINGLE_ARM : ArmId := "e-fp32-v1".
Definition ATTENTION_ARM : ArmId := "a-f32q-v1".

Record Arm := mkArm { arm_id : ArmId; arm_version : Z; arm_lattice : Lattice }.

Inductive EquivClass := Bitwise | Tolerance | NoClass.

Inductive PageState := PageValid | PageInvalid | PageStale.

#[export] Instance Phase_eq_dec : EqDecision Phase.
Proof. solve_decision. Defined.
#[export] Instance Lattice_eq_dec : EqDecision Lattice.
Proof. solve_decision. Defined.
#[export] Instance DerivationPath_eq_dec : EqDecision DerivationPath.
Proof. solve_decision. Defined.
#[export] Instance ArmId_eq_dec : EqDecision ArmId.
Proof. unfold ArmId. apply _. Defined.
#[export] Instance ArmId_countable : Countable ArmId.
Proof. unfold ArmId. apply _. Defined.

#[export] Program Instance Phase_countable : Countable Phase :=
  inj_countable' (fun p => match p with PhContext => true | PhGenerated => false end)
    (fun b => if b then PhContext else PhGenerated) _.
Next Obligation. by intros []. Qed.

Definition DerivationPath_code (p : DerivationPath) : nat :=
  match p with
  | InitialPrefill => 0 | ChunkedPrefillContinuation => 1 | PrefixCacheHit => 2
  | EvictionRebuild => 3 | PrefixResend => 4 | PreemptionResume => 5 | ContinueRequest => 6
  | RejectedDraftRederivation => 7 | HistoryDivergence => 8
  end.

Definition DerivationPath_of (n : nat) : DerivationPath :=
  nth n [InitialPrefill; ChunkedPrefillContinuation; PrefixCacheHit; EvictionRebuild;
    PrefixResend; PreemptionResume; ContinueRequest; RejectedDraftRederivation] HistoryDivergence.

#[export] Program Instance DerivationPath_countable : Countable DerivationPath :=
  inj_countable' DerivationPath_code DerivationPath_of _.
Next Obligation. by intros []. Qed.

Definition class_for (a b : Arm) : EquivClass :=
  if bool_decide (arm_id a = arm_id b) then Bitwise
  else if bool_decide (arm_lattice a = arm_lattice b) then Tolerance
  else NoClass.

Definition Digest : Type := list Z.

Record KvPage := mkKvPage {
  pg_prefix_key : Z;
  pg_position_range : Z * Z;
  pg_layer_kind : LayerKind;
  pg_phase_tag : Phase;
  pg_arm_id : ArmId;
  pg_arm_version : Z;
  pg_phi_version : Z;
  pg_derivation_path : DerivationPath;
  pg_payload_digest : Digest;
  pg_state : PageState;
}.

Record PageKey := mkPageKey {
  pk_prefix_key : Z;
  pk_position_range : Z * Z;
  pk_phase_tag : Phase;
}.

#[export] Instance PageKey_eq_dec : EqDecision PageKey.
Proof. solve_decision. Defined.

#[export] Program Instance PageKey_countable : Countable PageKey :=
  inj_countable' (fun k => (pk_prefix_key k, pk_position_range k, pk_phase_tag k))
    (fun '(p, r, t) => mkPageKey p r t) _.
Next Obligation. by intros []. Qed.

Definition KvPage_key (p : KvPage) : PageKey :=
  mkPageKey (pg_prefix_key p) (pg_position_range p) (pg_phase_tag p).

Inductive PhaseError :=
| UnregisteredPhase (phase : Phase)
| UnregisteredArm (arm : ArmId)
| UnregisteredQuad (phi_version : Z) (phase : Phase) (arm : ArmId) (path : DerivationPath)
| PhaseTagMismatch (stored requested : Phase)
| ArmMismatch (stored expected : ArmId)
| MissingSpan (position : Z).

Inductive HitVerdict := HitValid | HitStale.

Record ArmRegistry := mkArmRegistry {
  ar_phi_version : Z;
  ar_phi : gmap Phase ArmId;
  ar_arms : gmap ArmId Arm;
  ar_legal : gset (Z * Phase * ArmId * DerivationPath);
}.

Definition ArmRegistry_default : ArmRegistry := mkArmRegistry 1 ∅ ∅ ∅.

(** [self.phi_version += 1] on a [u32]. *)
Definition bump_phi_version (r : ArmRegistry) : outcome PhaseError (ArmRegistry * Z) :=
  let v := ar_phi_version r + 1 in
  if v <? 2 ^ 32 then Ok (mkArmRegistry v (ar_phi r) (ar_arms r) (ar_legal r), v) else Panic.

Definition register (r : ArmRegistry) (arm : Arm) : ArmRegistry :=
  mkArmRegistry (ar_phi_version r) (ar_phi r) (<[arm_id arm := arm]> (ar_arms r)) (ar_legal r).

Definition set_phi (r : ArmRegistry) (phase : Phase) (arm : ArmId) : ArmRegistry :=
  mkArmRegistry (ar_phi_version r) (<[phase := arm]> (ar_phi r)) (ar_arms r) (ar_legal r).

Definition allow_path (r : ArmRegistry) (phase : Phase) (arm : ArmId) (path : DerivationPath)
    : ArmRegistry :=
  mkArmRegistry (ar_phi_version r) (ar_phi r) (ar_arms r)
    ({[ (ar_phi_version r, phase, arm, path) ]} ∪ ar_legal r).

Definition arm_for (r : ArmRegistry) (phase : Phase) : outcome PhaseError Arm :=
  id ← ok_or (ar_phi r !! phase) (UnregisteredPhase phase);
  ok_or (ar_arms r !! id) (UnregisteredArm id).

Definition resolve (r : ArmRegistry) (phase : Phase) (path : DerivationPath)
    : outcome PhaseError Arm :=
  id ← ok_or (ar_phi r !! phase) (UnregisteredPhase phase);
  arm ← ok_or (ar_arms r !! id) (UnregisteredArm id);
  if negb (bool_decide ((ar_phi_version r, phase, id, path) ∈ ar_legal r))
  then Err (UnregisteredQuad (ar_phi_version r) phase id path)
  else Ok arm.

Definition validate_cache_hit (stored : KvPage) (requested_phase : Phase) (registry : ArmRegistry)
    : outcome PhaseError HitVerdict :=
  if negb (pg_phi_version stored =? ar_phi_version registry) then Ok HitStale
  else if negb (bool_decide (pg_phase_tag stored = requested_phase))
  then Err (PhaseTagMismatch (pg_phase_tag stored) requested_phase)
  else
    arm ← arm_for registry (pg_phase_tag stored);
    if negb (bool_decide (pg_arm_id stored = arm_id arm))
    then Err (ArmMismatch (pg_arm_id stored) (arm_id arm))
    else Ok HitValid.

(** The loop of [run_length_encode]: [i] counts the tail's elements. *)
Fixpoint rle_loop (rest : list Phase) (i : Z) (out : list (Phase * Z * Z)) (start : Z)
    (cur : Phase) : list (Phase * Z * Z) * Z * Phase :=
  match rest with
  | [] => (out, start, cur)
  | p :: rest =>
    if negb (bool_decide (p = cur))
    then rle_loop rest (i + 1) (out ++ [(cur, start, i + 1)]) (i + 1) p
    else rle_loop rest (i + 1) out start cur
  end.

Definition run_length_encode (phases : list Phase) : list (Phase * Z * Z) :=
  match phases with
  | [] => []
  | first :: rest =>
    let '(out, start, cur) := rle_loop rest 0 [] 0 first in
    out ++ [(cur, start, Zlen phases)]
  end.

Inductive PagerError :=
| PoolRejected
| NotFound
| PagerPhase (e : PhaseError).

Record Pager := mkPager {
  pa_pool : KvPool;
  pa_pages : gmap PageKey (KvPage * Z);
}.

Definition Pager_new (pool : KvPool) : Pager := mkPager pool ∅.

Definition Pager_used_bytes (p : Pager) : Z := kp_used (pa_pool p).
Definition Pager_total_bytes (p : Pager) : Z := kp_total (pa_pool p).
Definition Pager_len (p : Pager) : Z := Z.of_nat (size (pa_pages p)).

(** [reserve_bytes] has no error value; here it is used where one exists. *)
Definition lift_pool {A} (m : outcome Empty_set A) : outcome PagerError A :=
  map_err (fun e : Empty_set => match e with end) m.

Definition allocate (p : Pager) (page : KvPage) (bytes : Z)
    : outcome PagerError unit * Pager :=
  let key := KvPage_key page in
  match lift_pool (KvPool_reserve_bytes (pa_pool p) bytes) with
  | Ok (pool, true) => (Ok tt, mkPager pool (<[key := (page, bytes)]> (pa_pages p)))
  | Ok (pool, false) => (Err PoolRejected, mkPager pool (pa_pages p))
  | Err e => (Err e, p)
  | Panic => (Panic, p)
  end.

Definition Pager_lookup (p : Pager) (key : PageKey) (requested_phase : Phase)
    (registry : ArmRegistry) : outcome PagerError HitVerdict :=
  '(page, _) ← ok_or (pa_pages p !! key) NotFound;
  map_err PagerPhase (validate_cache_hit page requested_phase registry).

Definition Pager_get (p : Pager) (key : PageKey) : option KvPage := fst <$> pa_pages p !! key.

Definition cleared_digest : Digest := replicate 32 0.

Definition evict (p : Pager) (key : PageKey) : Pager * option KvPage :=
  match pa_pages p !! key with
  | None => (p, None)
  | Some (page, bytes) =>
    let page := mkKvPage (pg_prefix_key page) (pg_position_range page) (pg_layer_kind page)
      (pg_phase_tag page) (pg_arm_id page) (pg_arm_version page) (pg_phi_version page)
      (pg_derivation_path page) (replicate 32 0) PageInvalid in
    (mkPager (KvPool_release (pa_pool p) bytes) (delete key (pa_pages p)), Some page)
  end.

(** The bytes reserved by the pages in the table. *)
Definition page_bytes (p : Pager) : list Z := (fun e => snd (snd e)) <$> map_to_list (pa_pages p).

(** The pager's methods as the serving path calls them. *)
Inductive pager_step : Pager -> Pager -> Prop :=
| pager_allocate p page bytes : 0 <= bytes ->
    pager_step p (snd (allocate p page bytes))
| pager_evict p key : pager_step p (fst (evict p key)).

(** The same, allocating only keys the table does not hold. *)
Inductive pager_step_fresh : Pager -> Pager -> Prop :=
| pager_allocate_fresh p page bytes : 0 <= bytes -> pa_pages p !! KvPage_key page = None ->
    pager_step_fresh p (snd (allocate p page bytes))
| pager_evict_fresh p key : pager_step_fresh p (fst (evict p key)).
