(* ===== verification/PagingProofs.v ===== *)
(** The phase contract and the pager: pages are served only to the phase and epoch
    they were computed for, runs are maximal, and what the page table accounts. *)
From Stdlib Require Import ZArith Lia Bool.
From stdpp Require Import base list gmap strings countable relations.
From S2P Require Import Prelude KvPool Paging.

(** * Definitions *)

(** The plan of record's operations. *)
Inductive registry_step : ArmRegistry -> ArmRegistry -> Prop :=
| reg_bump r r' v : bump_phi_version r = Ok (r', v) -> registry_step r r'
| reg_register r arm : registry_step r (register r arm)
| reg_set_phi r phase arm : registry_step r (set_phi r phase arm)
| reg_allow r phase arm path : registry_step r (allow_path r phase arm path).

(** The positions a list of runs describes. *)
Definition expand_runs (runs : list (Phase * Z * Z)) : list Phase :=
  concat ((fun '(p, a, b) => replicate (Z.to_nat (b - a)) p) <$> runs).

(** Nonempty runs, each starting where the one before it ended, [pos] first. *)
Fixpoint runs_from (pos : Z) (runs : list (Phase * Z * Z)) (stop : Z) : Prop :=
  match runs with
  | [] => pos = stop
  | (_, a, b) :: runs => a = pos /\ a < b /\ runs_from b runs stop
  end.

(** Neighbouring runs have different phases. *)
Fixpoint runs_alternate (runs : list (Phase * Z * Z)) : Prop :=
  match runs with
  | (p, _, _) :: ((q, _, _) :: _) as rest => p <> q /\ runs_alternate rest
  | _ => True
  end.

(** * Runs *)

Lemma runs_from_app pos l k stop :
  runs_from pos (l ++ k) stop <-> exists mid, runs_from pos l mid /\ runs_from mid k stop.
Proof.
  revert pos; induction l as [|[[p a] b] l IH]; intros pos; cbn.
  - split; [by exists pos|]. by intros (? & <- & ?).
  - rewrite IH. split.
    + intros (? & ? & mid & ? & ?). by exists mid.
    + intros (mid & (? & ? & ?) & ?). split_and!; [done..|by exists mid].
Qed.

Lemma runs_alternate_snoc l p a b q c d :
  runs_alternate (l ++ [(p, a, b)]) -> p <> q -> runs_alternate ((l ++ [(p, a, b)]) ++ [(q, c, d)]).
Proof.
  induction l as [|[[r x] y] l IH]; intros Hl Hne; [done|].
  destruct l as [|[[r' x'] y'] l]; cbn in *; [tauto|]. split; [tauto|]. apply IH; tauto.
Qed.

Lemma expand_runs_app l k : expand_runs (l ++ k) = expand_runs l ++ expand_runs k.
Proof. unfold expand_runs. by rewrite fmap_app, concat_app. Qed.

(** The loop's invariant: the closed runs [out] end at [start], and the open run
    of [cur] reaches position [i]. *)
Lemma rle_loop_spec rest i out start cur :
  0 <= start <= i -> runs_from 0 out start -> runs_alternate (out ++ [(cur, start, i + 1)]) ->
  let '(out', start', cur') := rle_loop rest i out start cur in
  let runs := out' ++ [(cur', start', i + 1 + Zlen rest)] in
  expand_runs runs = expand_runs out ++ replicate (Z.to_nat (i + 1 - start)) cur ++ rest /\
  runs_from 0 runs (i + 1 + Zlen rest) /\ runs_alternate runs.
Proof.
  revert i out start cur; induction rest as [|p rest IH]; intros i out start cur Hs Hr Ha.
  - cbn [rle_loop]. rewrite Z.add_0_r, expand_runs_app. split_and!; [| |done].
    + cbn. by rewrite !app_nil_r.
    + apply runs_from_app. exists start. split; [done|]. cbn. lia.
  - cbn [rle_loop]. destruct (decide (p = cur)) as [->|Hne].
    + rewrite bool_decide_eq_true_2 by done. cbn [negb].
      specialize (IH (i + 1) out start cur ltac:(lia) Hr).
      destruct (rle_loop rest (i + 1) out start cur) as [[out' start'] cur'].
      cbn [length]. replace (i + 1 + Z.of_nat (S (length rest))) with (i + 1 + 1 + Zlen rest) by lia.
      destruct IH as (He & Hf & Hal).
      { clear -Ha. destruct out as [|[[q a] b] out] using rev_ind; [done|].
        clear IHout. induction out as [|[[r x] y] out IH]; cbn in *; [done|].
        destruct out as [|[[r' x'] y'] out]; cbn in *; tauto. }
      split_and!; [|done..]. rewrite He.
      replace (Z.to_nat (i + 1 + 1 - start)) with (Z.to_nat (i + 1 - start) + 1)%nat by lia.
      rewrite replicate_add, <-app_assoc. done.
    + rewrite bool_decide_eq_false_2 by done. cbn [negb].
      specialize (IH (i + 1) (out ++ [(cur, start, i + 1)]) (i + 1) p ltac:(lia)).
      destruct (rle_loop rest (i + 1) (out ++ [(cur, start, i + 1)]) (i + 1) p) as [[out' start'] cur'].
      cbn [length]. replace (i + 1 + Z.of_nat (S (length rest))) with (i + 1 + 1 + Zlen rest) by lia.
      destruct IH as (He & Hf & Hal).
      { apply runs_from_app. exists start. split; [done|]. cbn. lia. }
      { apply runs_alternate_snoc; [done|congruence]. }
      split_and!; [|done..]. rewrite He, expand_runs_app.
      replace (Z.to_nat (i + 1 + 1 - (i + 1))) with 1%nat by lia.
      cbn. rewrite app_nil_r, <-app_assoc. done.
Qed.

(** * The registry *)

Lemma registry_legal_versions r r' :
  rtc registry_step r r' ->
  (forall q, q ∈ ar_legal r -> fst (fst (fst q)) <= ar_phi_version r) ->
  forall q, q ∈ ar_legal r' -> fst (fst (fst q)) <= ar_phi_version r'.
Proof.
  induction 1 as [|r1 r2 r3 H12 _ IH]; [done|]. intros Hr. apply IH. intros q Hq.
  destruct H12 as [r1 r2 v Hb|r1 arm|r1 ph arm|r1 ph arm path]; cbn in *; try by apply Hr.
  - unfold bump_phi_version in Hb. destruct (_ <? _); simplify_eq. cbn in *.
    specialize (Hr q Hq). lia.
  - apply elem_of_union in Hq as [->%elem_of_singleton|Hq]; [cbn; lia|by apply Hr].
Qed.

(** * The page table *)

Definition keys_match (p : Pager) : Prop :=
  forall key page bytes, pa_pages p !! key = Some (page, bytes) -> KvPage_key page = key.

Lemma allocate_cases p page bytes :
  snd (allocate p page bytes) = p \/
  exists pool, KvPool_reserve_bytes (pa_pool p) bytes = Ok (pool, true) /\
    allocate p page bytes =
      (Ok tt, mkPager pool (<[KvPage_key page := (page, bytes)]> (pa_pages p))).
Proof.
  unfold allocate. destruct (KvPool_reserve_bytes (pa_pool p) bytes) as [[pool []]|[]|] eqn:Hr;
    cbn; [right; by exists pool| |by left].
  left. unfold KvPool_reserve_bytes in Hr. apply bind_Ok in Hr as (w & _ & Hr).
  destruct (_ >? _); simplify_eq. by destruct p.
Qed.

Lemma pager_step_keys p p' : pager_step p p' -> keys_match p -> keys_match p'.
Proof.
  intros [p0 page bytes _|p0 key] Hk.
  - destruct (allocate_cases p0 page bytes) as [->|(pool & _ & ->)]; [done|].
    intros key page' b'. cbn. intros [[<- [= <- <-]]|[_ H]]%lookup_insert_Some; [done|by eapply Hk].
  - unfold evict. destruct (pa_pages p0 !! key) as [[page bytes]|] eqn:He; [|done]. cbn.
    intros key' page' b'. cbn. intros [_ H]%lookup_delete_Some. by eapply Hk.
Qed.

Lemma page_bytes_insert pool pages key page bytes :
  pages !! key = None ->
  page_bytes (mkPager pool (<[key := (page, bytes)]> pages)) ≡ₚ page_bytes (mkPager pool pages) ++ [bytes].
Proof.
  intros Hn. unfold page_bytes. cbn. rewrite map_to_list_insert by done. cbn.
  by rewrite Permutation_cons_append.
Qed.

Lemma page_bytes_delete pool pages key page bytes :
  pages !! key = Some (page, bytes) ->
  page_bytes (mkPager pool pages) ≡ₚ bytes :: page_bytes (mkPager pool (delete key pages)).
Proof. intros Hs. unfold page_bytes. cbn. by rewrite <-(map_to_list_delete _ _ _ Hs). Qed.

Lemma pager_step_ledger p p' :
  pager_step_fresh p p' -> ledger (pa_pool p) (page_bytes p) -> ledger (pa_pool p') (page_bytes p').
Proof.
  intros [p0 page bytes Hb Hn|p0 key] Hl.
  - destruct (allocate_cases p0 page bytes) as [->|(pool & Hr & ->)]; [done|]. cbn.
    eapply ledger_perm; [exact (ledger_reserve _ _ _ _ _ Hl Hb Hr)|].
    by rewrite page_bytes_insert.
  - unfold evict. destruct (pa_pages p0 !! key) as [[page bytes]|] eqn:He; [|done]. cbn.
    destruct p0 as [pool pages]. cbn in *.
    exact (proj1 (ledger_release _ _ bytes _ Hl (page_bytes_delete _ _ _ _ _ He))).
Qed.

(** * Properties *)

(** C16: the pager never serves a page across phases.  Whatever was allocated and
    evicted, a valid hit is a page of the requested key, phase and current epoch,
    computed by the arm the plan maps that phase to; and a page from an older
    epoch is a stale hit for every phase. *)
Theorem pager_never_cross_serves pool p key phase registry :
  rtc pager_step (Pager_new pool) p ->
  (Pager_lookup p key phase registry = Ok HitValid ->
   exists page bytes arm, pa_pages p !! key = Some (page, bytes) /\ KvPage_key page = key /\
     pk_phase_tag key = phase /\ pg_phase_tag page = phase /\
     pg_phi_version page = ar_phi_version registry /\
     arm_for registry phase = Ok arm /\ pg_arm_id page = arm_id arm) /\
  (forall page bytes, pa_pages p !! key = Some (page, bytes) ->
     pg_phi_version page <> ar_phi_version registry ->
     Pager_lookup p key phase registry = Ok HitStale).
Proof.
  intros Hr. assert (keys_match p) as Hk.
  { assert (keys_match (Pager_new pool)) as H0 by (intros k pg b; cbn; by rewrite lookup_empty).
    revert H0. induction Hr as [|p1 p2 p3 H12 _ IH]; [done|]. intros. by eauto using pager_step_keys. }
  unfold Pager_lookup, validate_cache_hit. split.
  - destruct (pa_pages p !! key) as [[page bytes]|] eqn:He; [|done]. cbn.
    destruct (Z.eqb_spec (pg_phi_version page) (ar_phi_version registry)); [|done]. cbn.
    case_bool_decide as Hph; [|done]. cbn. subst phase.
    destruct (arm_for registry (pg_phase_tag page)) as [arm|err|] eqn:Ha; [|done..]. cbn.
    case_bool_decide as Harm; [|done]. intros _. exists page, bytes, arm.
    pose proof (Hk _ _ _ He) as Hkey. by rewrite <-Hkey.
  - intros page bytes He Hv. rewrite He. cbn. by rewrite (proj2 (Z.eqb_neq _ _) Hv).
Qed.

Definition sample_page : KvPage :=
  mkKvPage 9 (0, 256) KindGa PhContext SINGLE_ARM 1 1 InitialPrefill (replicate 32 7) PageValid.

Definition sample_registry : ArmRegistry :=
  allow_path (set_phi (register ArmRegistry_default (mkArm SINGLE_ARM 1 EFp32)) PhContext SINGLE_ARM)
    PhContext SINGLE_ARM InitialPrefill.

Lemma pager_never_cross_serves_witness :
  let p := snd (allocate (Pager_new (KvPool_new 1000)) sample_page 300) in
  Pager_lookup p (KvPage_key sample_page) PhContext sample_registry = Ok HitValid /\
  exists page bytes arm, pa_pages p !! KvPage_key sample_page = Some (page, bytes) /\
    KvPage_key page = KvPage_key sample_page /\
    pk_phase_tag (KvPage_key sample_page) = PhContext /\ pg_phase_tag page = PhContext /\
    pg_phi_version page = ar_phi_version sample_registry /\
    arm_for sample_registry PhContext = Ok arm /\ pg_arm_id page = arm_id arm.
Proof.
  split; [reflexivity|].
  refine (proj1 (pager_never_cross_serves (KvPool_new 1000)
    (snd (allocate (Pager_new (KvPool_new 1000)) sample_page 300))
    (KvPage_key sample_page) PhContext sample_registry _) _).
  - eapply rtc_l; [apply (pager_allocate _ sample_page 300); lia|apply rtc_refl].
  - reflexivity.
Defined.

(** Nothing outside the plan executes.  An arm resolves exactly when the plan
    maps the phase to a registered arm and declares the quadruple legal in the
    current epoch; and after an epoch bump nothing resolves until it is declared
    again, while every page of the older epochs is stale. *)
Theorem plan_of_record registry :
  rtc registry_step ArmRegistry_default registry ->
  (forall phase path arm, resolve registry phase path = Ok arm <->
     exists id, ar_phi registry !! phase = Some id /\ ar_arms registry !! id = Some arm /\
       (ar_phi_version registry, phase, id, path) ∈ ar_legal registry) /\
  (forall registry' v, bump_phi_version registry = Ok (registry', v) ->
     (forall phase path, is_ok (resolve registry' phase path) = false) /\
     (forall page phase, pg_phi_version page <= ar_phi_version registry ->
        validate_cache_hit page phase registry' = Ok HitStale)).
Proof.
  intros Hr. split.
  - intros phase path arm. unfold resolve. rewrite bind_Ok. split.
    + intros (id & Hid & H). destruct (ar_phi registry !! phase) as [id'|]; [|done].
      injection Hid as ->. apply bind_Ok in H as (arm' & Harm & H).
      destruct (ar_arms registry !! id) as [a|] eqn:Ha; [|done]. injection Harm as ->.
      case_bool_decide; cbn in H; [|done]. injection H as ->. by exists id.
    + intros (id & Hid & Harm & Hl). exists id. rewrite Hid. split; [done|].
      rewrite Harm. cbn. by rewrite bool_decide_eq_true_2.
  - intros r' v Hb. pose proof (registry_legal_versions _ _ Hr ltac:(intros q Hq; set_solver)) as Hv.
    unfold bump_phi_version in Hb. destruct (_ <? _); simplify_eq. split.
    + intros phase path. unfold resolve. cbn.
      destruct (ar_phi registry !! phase) as [id|]; [|done]. cbn.
      destruct (ar_arms registry !! id) as [arm|]; [|done]. cbn.
      case_bool_decide as Hin; [|done]. apply Hv in Hin. cbn in Hin. lia.
    + intros page phase Hp. unfold validate_cache_hit. cbn.
      by rewrite (proj2 (Z.eqb_neq _ _)) by lia.
Qed.

Lemma plan_of_record_witness :
  resolve sample_registry PhContext InitialPrefill = Ok (mkArm SINGLE_ARM 1 EFp32).
Proof.
  apply (plan_of_record sample_registry).
  - unfold sample_registry. eapply rtc_l; [apply (reg_register _ (mkArm SINGLE_ARM 1 EFp32))|].
    eapply rtc_l; [apply (reg_set_phi _ PhContext SINGLE_ARM)|].
    eapply rtc_l; [apply (reg_allow _ PhContext SINGLE_ARM InitialPrefill)|]. apply rtc_refl.
  - exists SINGLE_ARM. split_and!; [reflexivity|reflexivity|].
    apply elem_of_union. left. by apply elem_of_singleton.
Defined.

(** Run-length encoding is exact: the runs are nonempty, tile the positions
    from 0 to the length, give the phases back, and neighbours differ, so they are
    the longest single-phase runs. *)
Theorem run_length_encode_exact phases :
  expand_runs (run_length_encode phases) = phases /\
  runs_from 0 (run_length_encode phases) (Zlen phases) /\
  runs_alternate (run_length_encode phases).
Proof.
  destruct phases as [|first rest]; [done|]. cbn [run_length_encode].
  pose proof (rle_loop_spec rest 0 [] 0 first ltac:(lia) eq_refl I) as H.
  destruct (rle_loop rest 0 [] 0 first) as [[out start] cur].
  replace (0 + 1 + Zlen rest) with (Zlen (first :: rest)) in H by (cbn; lia).
  by destruct H as (-> & ? & ?).
Qed.

(** As long as no key is allocated twice, the pool's bytes in use are the sum
    of the bytes of the pages in the table, and fit in it. *)
Theorem pager_accounting measured p :
  u64_range measured -> rtc pager_step_fresh (Pager_new (KvPool_new measured)) p ->
  Pager_used_bytes p = total_reserved (page_bytes p) /\ Pager_used_bytes p <= Pager_total_bytes p.
Proof.
  intros Hm Hr. enough (ledger (pa_pool p) (page_bytes p)) as [] by done.
  assert (ledger (pa_pool (Pager_new (KvPool_new measured)))
    (page_bytes (Pager_new (KvPool_new measured)))) as H0 by by apply ledger_new.
  revert H0. induction Hr as [|p1 p2 p3 H12 _ IH]; [done|]. intros. by eauto using pager_step_ledger.
Qed.

Lemma pager_accounting_witness :
  let p := snd (allocate (Pager_new (KvPool_new 1000)) sample_page 300) in
  Pager_used_bytes p = 300 /\ Pager_used_bytes p = total_reserved (page_bytes p) /\
  Pager_used_bytes p <= Pager_total_bytes p.
Proof.
  split; [reflexivity|].
  apply (pager_accounting 1000); [width|].
  eapply rtc_l; [apply (pager_allocate_fresh _ sample_page 300); [lia|reflexivity]|apply rtc_refl].
Defined.

(** Allocating a key the table already holds replaces the page without
    releasing its bytes: they stay in use with no page to evict. *)
Theorem pager_overwrite_leaks p page bytes old old_bytes pool :
  ledger (pa_pool p) (page_bytes p) -> 0 <= bytes ->
  pa_pages p !! KvPage_key page = Some (old, old_bytes) ->
  KvPool_reserve_bytes (pa_pool p) bytes = Ok (pool, true) ->
  let p' := snd (allocate p page bytes) in
  Pager_used_bytes p' = total_reserved (page_bytes p') + old_bytes.
Proof.
  intros Hl Hb He Hr p'. unfold p', allocate, Pager_used_bytes. rewrite Hr. cbn.
  destruct (ledger_reserve _ _ _ _ _ Hl Hb Hr) as [_ _ Hu _]. rewrite Hu, total_reserved_app.
  destruct p as [pool0 pages]. cbn [pa_pages pa_pool] in *.
  pose proof (page_bytes_delete pool pages _ _ _ He) as H1.
  pose proof (page_bytes_insert pool (delete (KvPage_key page) pages) (KvPage_key page) page bytes
    (lookup_delete_eq _ _)) as H2.
  rewrite insert_delete_eq in H2. apply total_reserved_perm in H1, H2.
  rewrite total_reserved_app in H2. cbn in H1, H2 |- *.
  change (page_bytes (mkPager pool0 pages)) with (page_bytes (mkPager pool pages)).
  unfold total_reserved in *. lia.
Qed.

Lemma pager_overwrite_leaks_witness :
  let p := snd (allocate (Pager_new (KvPool_new 1000)) sample_page 300) in
  let p' := snd (allocate p sample_page 200) in
  Pager_used_bytes p' = 500 /\ Pager_used_bytes p' = total_reserved (page_bytes p') + 300.
Proof.
  split; [reflexivity|].
  refine (pager_overwrite_leaks (snd (allocate (Pager_new (KvPool_new 1000)) sample_page 300))
    sample_page 200 sample_page 300 (mkKvPool 1000 500) _ _ _ _).
  - constructor.
    + split; [vm_compute; discriminate|reflexivity].
    + vm_compute. repeat constructor. discriminate.
    + reflexivity.
    + vm_compute. discriminate.
  - lia.
  - reflexivity.
  - reflexivity.
Defined.
