(* ===== verification/CopyIndex.v ===== *)
(** [crates/mimo26-coordinator/src/copy.rs]: drafts copied from a request's own
    context.  A hash map from 8-grams to their last position and a chain of
    previous positions, extended as the context grows.

    Token ids are [usize], grams [u32]; positions are stored as [u32].  Each
    bounded [while] runs on its own bound. *)
From Stdlib Require Import ZArith Lia Bool.
From stdpp Require Import base list gmap strings.
From S2P Require Import Prelude.

Definition MATCH : Z := 8.
Definition EXTEND : Z := 64.
Definition CANDIDATES : Z := 64.
Definition NO_POS : Z := 2 ^ 32 - 1.

Record CopyIndex := mkCopyIndex {
  ci_head : gmap (list Z) Z;
  ci_prev : list Z;
}.

Definition CopyIndex_default : CopyIndex := mkCopyIndex ∅ [].

Definition gram (t : list Z) : list Z := (fun x => x mod 2 ^ 32) <$> t.

(** The gram ending at position [p]. *)
Definition gram_at (ctx : list Z) (p : Z) : list Z := gram (slice ctx (p + 1 - MATCH) (p + 1)).

(** One pass of [for p in self.prev.len()..n - 1]. *)
Definition index_pos (ctx : list Z) (ix : CopyIndex) (p : Z) : CopyIndex :=
  if p + 1 <? MATCH then mkCopyIndex (ci_head ix) (ci_prev ix ++ [NO_POS])
  else
    let g := gram_at ctx p in
    mkCopyIndex (<[g := p mod 2 ^ 32]> (ci_head ix))
      (ci_prev ix ++ [default NO_POS (ci_head ix !! g)]).

Definition index_upto (ctx : list Z) (ix : CopyIndex) (n : Z) : CopyIndex :=
  foldl (index_pos ctx) ix (seqZ (Zlen (ci_prev ix)) (n - Zlen (ci_prev ix))).

Definition ctx_get (ctx : list Z) (i : Z) : outcome Empty_set Z :=
  if i <? 0 then Panic else match ctx !! Z.to_nat i with Some t => Ok t | None => Panic end.

(** [while len < EXTEND && len <= q && ctx[q - len] == ctx[n - 1 - len] { len += 1; }] *)
Fixpoint extend_match (fuel : nat) (ctx : list Z) (n q len : Z) : outcome Empty_set Z :=
  match fuel with
  | O => Ok len
  | S fuel =>
    if (len <? EXTEND) && (len <=? q) then
      a ← ctx_get ctx (q - len);
      b ← ctx_get ctx (n - 1 - len);
      if a =? b then extend_match fuel ctx n q (len + 1) else Ok len
    else Ok len
  end.

(** [while p != NONE && tried < CANDIDATES { .. }]: [fuel] is [CANDIDATES - tried]. *)
Fixpoint best_match (fuel : nat) (ctx prev : list Z) (n p best best_len : Z)
    : outcome Empty_set Z :=
  match fuel with
  | O => Ok best
  | S fuel =>
    if p =? NO_POS then Ok best else
    let q := p in
    len ← extend_match (Z.to_nat EXTEND) ctx n q MATCH;
    if (len >? best_len) && (len =? EXTEND) then Ok p else
    let best' := if len >? best_len then p else best in
    let best_len' := if len >? best_len then len else best_len in
    p ← ctx_get prev q;
    best_match fuel ctx prev n p best' best_len'
  end.

(** One pass of [for j in 0..k]. *)
Definition copy_token (ctx : list Z) (n from : Z) (out : list Z) (j : Z)
    : outcome Empty_set (list Z) :=
  t ← (if from + j <? n then ctx_get ctx (from + j) else ctx_get out (from + j - n));
  Ok (out ++ [t]).

Definition propose (ix : CopyIndex) (ctx : list Z) (k : Z)
    : CopyIndex * outcome Empty_set (list Z) :=
  let n := Zlen ctx in
  if (k <? 2) || (n <=? MATCH) then (ix, Ok [])
  else
    let ix := index_upto ctx ix (n - 1) in
    (ix, match ci_head ix !! gram (slice ctx (n - MATCH) n) with
         | None => Ok []
         | Some newest =>
           best ← best_match (Z.to_nat CANDIDATES) ctx (ci_prev ix) n newest NO_POS 0;
           let from := best + 1 in
           fold_try (copy_token ctx n from) [] (seqZ 0 k)
         end).

(** The index of the first [m] positions of [ctx], built from scratch. *)
Definition index_all (ctx : list Z) (m : nat) : CopyIndex :=
  foldl (index_pos ctx) CopyIndex_default (seqZ 0 (Z.of_nat m)).

(** [ix] is what calls on prefixes of [ctx] leave behind. *)
Definition indexed (ix : CopyIndex) (ctx : list Z) : Prop :=
  exists m, (m <= length ctx - 1)%nat /\ ix = index_all ctx m.

(** * Lemmas *)

Lemma index_all_S ctx m : index_all ctx (S m) = index_pos ctx (index_all ctx m) (Z.of_nat m).
Proof.
  unfold index_all. replace (Z.of_nat (S m)) with (Z.of_nat m + 1) by lia.
  rewrite seqZ_app, foldl_app by lia. by rewrite Z.add_0_l.
Qed.

Lemma index_all_prev_length ctx m : length (ci_prev (index_all ctx m)) = m.
Proof.
  induction m as [|m IH]; [done|]. rewrite index_all_S. unfold index_pos.
  destruct (_ <? _); cbn; rewrite length_app, IH; cbn; lia.
Qed.

Lemma index_pos_prefix ctx ctx' ix p :
  ctx `prefix_of` ctx' -> 0 <= p -> p + 1 <= Zlen ctx -> index_pos ctx' ix p = index_pos ctx ix p.
Proof.
  intros [k ->] Hp Hlen. unfold index_pos. destruct (Z.ltb_spec (p + 1) MATCH); [done|].
  unfold gram_at. rewrite slice_app_l by (unfold MATCH in *; lia). done.
Qed.

Lemma index_all_prefix ctx ctx' m :
  ctx `prefix_of` ctx' -> (m <= length ctx)%nat -> index_all ctx' m = index_all ctx m.
Proof.
  intros Hpre. induction m as [|m IH]; intros Hm; [done|].
  rewrite !index_all_S, IH by lia. apply index_pos_prefix; [done|lia|lia].
Qed.

Lemma index_upto_all ctx m n :
  (m <= n)%nat -> index_upto ctx (index_all ctx m) (Z.of_nat n) = index_all ctx n.
Proof.
  intros Hmn. unfold index_upto. rewrite index_all_prev_length.
  unfold index_all at 1 2. rewrite <-foldl_app. f_equal.
  rewrite <-(Z.add_0_l (Z.of_nat m)) at 2. rewrite <-seqZ_app by lia. f_equal. lia.
Qed.

Lemma propose_state ix ctx k :
  indexed ix ctx -> indexed (fst (propose ix ctx k)) ctx /\
  snd (propose ix ctx k) = snd (propose CopyIndex_default ctx k).
Proof.
  intros (m & Hm & ->). unfold propose. destruct (_ || _) eqn:Hg; [split; [by exists m|done]|].
  apply orb_false_iff in Hg as [_ Hg%Z.leb_gt]. unfold MATCH in Hg.
  replace (Zlen ctx - 1) with (Z.of_nat (length ctx - 1)) by lia.
  rewrite index_upto_all by done. change CopyIndex_default with (index_all ctx 0).
  rewrite index_upto_all by lia. split; [by exists (length ctx - 1)%nat|done].
Qed.

Lemma indexed_grow ix ctx ctx' : ctx `prefix_of` ctx' -> indexed ix ctx -> indexed ix ctx'.
Proof.
  intros Hpre (m & Hm & ->). pose proof (prefix_length _ _ Hpre).
  exists m. split; [lia|]. symmetry. apply index_all_prefix; [done|lia].
Qed.

(** ** What the index records *)

Record index_inv (ctx : list Z) (m : nat) (ix : CopyIndex) : Prop := {
  ii_len : length (ci_prev ix) = m;
  ii_head : forall g p, ci_head ix !! g = Some p ->
    MATCH <= p + 1 /\ p < Z.of_nat m /\ gram_at ctx p = g;
  ii_prev : forall q p, ci_prev ix !! q = Some p -> p <> NO_POS ->
    MATCH <= p + 1 /\ p < Z.of_nat q /\ gram_at ctx p = gram_at ctx (Z.of_nat q);
  ii_complete : forall p, MATCH <= p + 1 -> p < Z.of_nat m ->
    is_Some (ci_head ix !! gram_at ctx p);
}.

Lemma index_all_inv ctx m : Z.of_nat m < 2 ^ 32 -> index_inv ctx m (index_all ctx m).
Proof.
  induction m as [|m IH]; intros Hm.
  { change (index_all ctx 0) with CopyIndex_default. constructor; cbn; [done| | |].
    - intros g p H. by apply lookup_empty_Some in H.
    - intros q p H. by rewrite lookup_nil in H.
    - intros p H1 H2. unfold MATCH in H1. lia. }
  rewrite index_all_S. destruct (IH ltac:(lia)) as [Hl Hh Hp Hc]. unfold index_pos.
  destruct (Z.ltb_spec (Z.of_nat m + 1) MATCH) as [Hlt|Hge].
  - constructor; cbn [ci_head ci_prev].
    + rewrite length_app, Hl. cbn. lia.
    + intros g p H. destruct (Hh g p H) as (? & ? & ?). split_and!; [done|lia|done].
    + intros q p [H|[_ H]]%lookup_app_Some Hne; [by apply Hp|].
      apply list_lookup_singleton_Some in H as [_ <-]. done.
    + intros p H1 H2. apply Hc; lia.
  - rewrite Z.mod_small by lia. constructor; cbn [ci_head ci_prev].
    + rewrite length_app, Hl. cbn. lia.
    + intros g p [[<- <-]|[_ H]]%lookup_insert_Some; [split_and!; [done|lia|done]|].
      destruct (Hh g p H) as (? & ? & ?). split_and!; [done|lia|done].
    + intros q p [H|[Hq H]]%lookup_app_Some Hne; [by apply Hp|].
      apply list_lookup_singleton_Some in H as [Hq' <-].
      assert (q = m) as -> by lia.
      destruct (ci_head _ !! _) as [p|] eqn:He; [|done]. cbn. by apply Hh.
    + intros p H1 H2. destruct (decide (gram_at ctx p = gram_at ctx (Z.of_nat m))) as [->|Hne].
      * rewrite lookup_insert_eq. by eexists.
      * rewrite lookup_insert_ne by done. apply Hc; [done|].
        destruct (Z.eq_dec p (Z.of_nat m)) as [->|]; [done|lia].
Qed.

(** ** The search *)

Lemma ctx_get_Ok ctx i : 0 <= i < Zlen ctx -> exists t, ctx_get ctx i = Ok t /\ ctx !! Z.to_nat i = Some t.
Proof.
  intros Hi. unfold ctx_get. rewrite (proj2 (Z.ltb_ge _ _)) by lia.
  destruct (lookup_lt_is_Some_2 ctx (Z.to_nat i)) as [t Ht]; [lia|]. rewrite Ht. eauto.
Qed.

Lemma extend_match_Ok fuel ctx n q len :
  n = Zlen ctx -> 0 <= len -> q < n - 1 -> exists l, extend_match fuel ctx n q len = Ok l /\ len <= l.
Proof.
  intros Hn. revert len; induction fuel as [|fuel IH]; intros len Hlen Hq; [exists len; split; [done|lia]|].
  cbn [extend_match]. destruct (Z.ltb_spec len EXTEND), (Z.leb_spec len q); cbn [andb];
    try (exists len; split; [done|lia]).
  destruct (ctx_get_Ok ctx (q - len)) as (a & -> & _); [lia|]. cbn [mbind outcome_bind].
  destruct (ctx_get_Ok ctx (n - 1 - len)) as (b & -> & _); [lia|]. cbn [mbind outcome_bind].
  destruct (_ =? _); [|exists len; split; [done|lia]].
  destruct (IH (len + 1)) as (l & -> & ?); [lia|lia|]. exists l. split; [done|lia].
Qed.

(** Every position the search visits holds the gram [g]; so does its answer. *)
Lemma best_match_Ok fuel ctx ix n g p best best_len :
  n = Zlen ctx -> n < 2 ^ 32 -> index_inv ctx (Z.to_nat (n - 1)) ix -> 0 < n ->
  (0 < fuel)%nat -> (best_len < MATCH \/ (MATCH <= best + 1 /\ best < n - 1 /\ gram_at ctx best = g)) ->
  MATCH <= p + 1 /\ p < n - 1 /\ gram_at ctx p = g ->
  exists b, best_match fuel ctx (ci_prev ix) n p best best_len = Ok b /\
    MATCH <= b + 1 /\ b < n - 1 /\ gram_at ctx b = g.
Proof.
  intros Hn Hn32 Hinv Hpos. revert p best best_len.
  induction fuel as [|fuel IH]; intros p best best_len Hf Hbest (Hp1 & Hp2 & Hg); [lia|].
  cbn [best_match]. rewrite (proj2 (Z.eqb_neq _ _)) by (unfold NO_POS; lia).
  destruct (extend_match_Ok (Z.to_nat EXTEND) ctx n p MATCH Hn) as (l & -> & Hl);
    [unfold MATCH; lia|lia|]. cbn [mbind outcome_bind].
  assert ((l >? best_len) = true \/ (l >? best_len) = false /\ MATCH <= best + 1 /\ best < n - 1 /\
    gram_at ctx best = g) as Hb.
  { destruct (Z.gtb_spec l best_len); [by left|right]. split; [done|]. destruct Hbest; [lia|done]. }
  destruct ((l >? best_len) && (l =? EXTEND)); [by exists p|].
  destruct (ctx_get_Ok (ci_prev ix) p) as (p' & Hp' & Hlook).
  { rewrite (ii_len _ _ _ Hinv). unfold MATCH in *. lia. }
  rewrite Hp'. cbn [mbind outcome_bind].
  assert (exists b bl, (if l >? best_len then p else best) = b /\
    (if l >? best_len then l else best_len) = bl /\ MATCH <= b + 1 /\ b < n - 1 /\ gram_at ctx b = g)
    as (b & bl & -> & -> & Hb').
  { destruct Hb as [-> | (-> & ?)]; [by exists p, l|by exists best, best_len]. }
  destruct fuel as [|fuel]; [by exists b|].
  destruct (Z.eq_dec p' NO_POS) as [->|Hne]; [exists b; split; [done|done]|].
  destruct (ii_prev _ _ _ Hinv _ _ Hlook Hne) as (Hq1 & Hq2 & Hq3).
  rewrite Z2Nat.id in Hq2, Hq3 by (unfold MATCH in *; lia).
  apply IH; [lia|by right|]. split_and!; [done|lia|congruence].
Qed.

(** ** The copy *)

Lemma copy_tokens ctx n from k :
  n = Zlen ctx -> 0 <= from < n -> 0 <= k ->
  exists out, fold_try (copy_token ctx n from) [] (seqZ 0 k) = Ok out /\ Zlen out = k /\
    forall j, 0 <= j < k -> (ctx ++ out) !! Z.to_nat (n + j) = (ctx ++ out) !! Z.to_nat (from + j).
Proof.
  intros Hn Hf. revert k. apply natlike_ind.
  - exists []. split_and!; [done|done|]. intros. lia.
  - intros k Hk (out & Hout & Hlen & Hcopy). rewrite <-Z.add_1_r, seqZ_app, fold_try_app, Hout by lia.
    rewrite Z.add_0_l. change (seqZ k 1) with [k]. cbn [mbind outcome_bind fold_try].
    assert (exists t, (if from + k <? n then ctx_get ctx (from + k) else ctx_get out (from + k - n))
      = Ok t /\ (ctx ++ out) !! Z.to_nat (from + k) = Some t) as (t & Ht & Hl).
    { destruct (Z.ltb_spec (from + k) n).
      - destruct (ctx_get_Ok ctx (from + k)) as (t & ? & ?); [lia|]. exists t. split; [done|].
        rewrite lookup_app_l by lia. done.
      - destruct (ctx_get_Ok out (from + k - n)) as (t & ? & Ht); [lia|]. exists t. split; [done|].
        rewrite lookup_app_r by lia. rewrite <-Ht. f_equal. lia. }
    unfold copy_token. rewrite Ht. cbn [mbind outcome_bind].
    exists (out ++ [t]). split; [done|]. split; [rewrite length_app; cbn; lia|].
    intros j Hj. rewrite !app_assoc. destruct (Z.eq_dec j k) as [->|].
    + rewrite (lookup_app_l _ _ (Z.to_nat (from + k))) by (rewrite length_app; lia).
      rewrite Hl, lookup_app_r by (rewrite length_app; lia). rewrite length_app.
      replace (Z.to_nat (n + k) - (length ctx + length out))%nat with O by lia. done.
    + rewrite !(lookup_app_l (ctx ++ out)) by (rewrite length_app; lia). apply Hcopy. lia.
Qed.

(** * Properties *)

(** A proposal is a copy.  For a context that only grew between calls, the
    answer is what a fresh index would give, never panics, and is empty exactly
    when the last eight tokens did not occur earlier; otherwise it has [k] tokens
    that repeat, position by position, what followed an earlier occurrence of
    those eight tokens - running into its own continuation when it is periodic. *)
Theorem proposals_are_copies ix ctx k :
  indexed ix ctx -> Forall u32_range ctx -> 2 <= k -> MATCH < Zlen ctx < 2 ^ 32 ->
  snd (propose ix ctx k) = snd (propose CopyIndex_default ctx k) /\
  indexed (fst (propose ix ctx k)) ctx /\
  exists out, snd (propose ix ctx k) = Ok out /\
    ((forall p, MATCH <= p + 1 -> p < Zlen ctx - 1 ->
        slice ctx (p + 1 - MATCH) (p + 1) <> slice ctx (Zlen ctx - MATCH) (Zlen ctx)) /\ out = [] \/
     exists from, MATCH <= from < Zlen ctx /\
       slice ctx (from - MATCH) from = slice ctx (Zlen ctx - MATCH) (Zlen ctx) /\ Zlen out = k /\
       forall j, 0 <= j < k ->
         (ctx ++ out) !! Z.to_nat (Zlen ctx + j) = (ctx ++ out) !! Z.to_nat (from + j)).
Proof.
  intros Hix Hu Hk Hn. assert (8 < Zlen ctx) as H8 by (unfold MATCH in Hn; lia).
  destruct (propose_state ix ctx k Hix) as [Hstate Hres].
  split; [done|]. split; [done|]. rewrite Hres. unfold propose.
  rewrite (proj2 (Z.ltb_ge k 2)), (proj2 (Z.leb_gt _ _)) by lia. cbn [orb snd].
  change CopyIndex_default with (index_all ctx 0).
  replace (Zlen ctx - 1) with (Z.of_nat (length ctx - 1)) by lia.
  rewrite index_upto_all by lia.
  pose proof (index_all_inv ctx (length ctx - 1) ltac:(lia)) as Hinv.
  assert (forall a b, gram (slice ctx a b) = slice ctx a b) as Hgram.
  { intros a b. unfold gram. rewrite <-(list_fmap_id (slice ctx a b)) at 2.
    apply list_fmap_ext. intros i x Hx. apply Z.mod_small.
    apply (Forall_lookup_1 u32_range (slice ctx a b) i x); [|done]. by apply Forall_take, Forall_drop. }
  destruct (ci_head _ !! _) as [newest|] eqn:Hh.
  - apply (ii_head _ _ _ Hinv) in Hh as (H1 & H2 & Hg).
    destruct (best_match_Ok (Z.to_nat CANDIDATES) ctx (index_all ctx (length ctx - 1)) (Zlen ctx)
      (gram (slice ctx (Zlen ctx - MATCH) (Zlen ctx))) newest NO_POS 0)
      as (b & -> & Hb1 & Hb2 & Hbg); [done|lia| |unfold MATCH in *; lia|unfold CANDIDATES; lia
      |left; unfold MATCH; lia|split_and!; [done|lia|done]|].
    { by replace (Z.to_nat (Zlen ctx - 1)) with (length ctx - 1)%nat by lia. }
    cbn [mbind outcome_bind].
    destruct (copy_tokens ctx (Zlen ctx) (b + 1) k) as (out & -> & Hlen & Hcopy);
      [done|unfold MATCH in *; lia|lia|].
    exists out. split; [done|]. right. exists (b + 1). split_and!; [done|lia| |done|done].
    unfold gram_at in Hbg. by rewrite !Hgram in Hbg.
  - exists []. split; [done|]. left. split; [|done]. intros p Hp1 Hp2 Heq.
    destruct (ii_complete _ _ _ Hinv p Hp1 ltac:(lia)) as [x Hx].
    unfold gram_at in Hx. rewrite Heq in Hx. by rewrite Hx in Hh.
Qed.

Lemma proposals_are_copies_witness :
  let ctx := [1;2;3;4;5;6;7;8;20;21;1;2;3;4;5;6;7;8] in
  snd (propose CopyIndex_default ctx 3) = Ok [20; 21; 1] /\
  snd (propose CopyIndex_default ctx 3) = snd (propose CopyIndex_default ctx 3).
Proof.
  split; [reflexivity|].
  refine (proj1 (proposals_are_copies CopyIndex_default
    [1;2;3;4;5;6;7;8;20;21;1;2;3;4;5;6;7;8] 3 _ _ _ _)).
  - exists O. split; [lia|reflexivity].
  - repeat constructor; width.
  - lia.
  - unfold MATCH. cbn. lia.
Defined.
