(* ===== verification/Floats.v ===== *)
(** IEEE arithmetic of the attention and loader crates: [f32] and [f64] values as
    [spec_float]s (binary32 and binary64), rounded to nearest even, with every NaN
    the one [S754_nan].  The conversions are the source's [as] and [from].

    Exact cases of the rounded operations: a result whose value is representable
    is not rounded.  Scaling by a power of two, multiplying or dividing by one and
    widening [f32] to [f64] are such cases. *)
From Stdlib Require Import ZArith Lia Bool SpecFloat.
From stdpp Require Import base list gmap strings.
From S2P Require Import Prelude.

(** * Definitions *)

Definition f64_normalize (m e : Z) : spec_float := binary_normalize 53 1024 m e false.
Definition f32_normalize (m e : Z) : spec_float := binary_normalize 24 128 m e false.

Definition f64_add : spec_float -> spec_float -> spec_float := SFadd 53 1024.
Definition f64_mul : spec_float -> spec_float -> spec_float := SFmul 53 1024.
Definition f64_div : spec_float -> spec_float -> spec_float := SFdiv 53 1024.
Definition f32_mul : spec_float -> spec_float -> spec_float := SFmul 24 128.
Definition f32_div : spec_float -> spec_float -> spec_float := SFdiv 24 128.

(** [f64::from(n)] for a small integer, and [2f64.powi(k)]. *)
Definition f64_of_Z (n : Z) : spec_float := f64_normalize n 0.
Definition f64_powi2 (k : Z) : spec_float := f64_normalize 1 k.

(** [f64::from(x)] for an [f32]: exact. *)
Definition f64_of_f32 (x : spec_float) : spec_float :=
  match x with
  | S754_finite s m e => f64_normalize (cond_Zopp s (Zpos m)) e
  | _ => x
  end.

(** [x as f32] for an [f64]: rounded. *)
Definition f32_of_f64 (x : spec_float) : spec_float :=
  match x with
  | S754_finite s m e =>
    match f32_normalize (cond_Zopp s (Zpos m)) e with
    | S754_zero _ => S754_zero s
    | y => y
    end
  | _ => x
  end.

Definition is_nan (x : spec_float) : bool := match x with S754_nan => true | _ => false end.

(** [f64::min] and [f64::max]: the other operand when one is a NaN. *)
Definition f64_min (x y : spec_float) : spec_float :=
  if is_nan x then y else if is_nan y then x else if SFltb y x then y else x.

Definition f64_max (x y : spec_float) : spec_float :=
  if is_nan x then y else if is_nan y then x else if SFltb x y then y else x.

(** [f64::to_bits] of a non-negative finite value in canonical form. *)
Definition f64_magnitude_bits (m : positive) (e : Z) : Z :=
  if Z.pos m <? 2 ^ 52 then Z.pos m else (e + 1074) * 2 ^ 52 + Z.pos m.

Definition f64_to_bits (x : spec_float) : Z :=
  match x with
  | S754_zero s => if s then 2 ^ 63 else 0
  | S754_infinity s => (if s then 2 ^ 63 else 0) + 0x7FF * 2 ^ 52
  | S754_nan => 0x7FF8 * 2 ^ 48
  | S754_finite s m e => (if s then 2 ^ 63 else 0) + f64_magnitude_bits m e
  end.

(** The integer [x.round()] is, half away from zero, for a finite [x] ([0] else). *)
Definition f64_round_Z (x : spec_float) : Z :=
  match x with
  | S754_finite s m e =>
    cond_Zopp s (if 0 <=? e then Z.pos m * 2 ^ e
                 else (Z.pos m + 2 ^ (- e - 1)) / 2 ^ (- e))
  | _ => 0
  end.

(** [f64 - f64], [f32 - f32], [f64::sqrt]. *)
Definition f64_sub : spec_float -> spec_float -> spec_float := SFsub 53 1024.
Definition f32_sub : spec_float -> spec_float -> spec_float := SFsub 24 128.
Definition f64_sqrt : spec_float -> spec_float := SFsqrt 53 1024.

(** A rounding to an integer, from what it does to a fraction [n / d]. *)
Definition f64_integral (g : Z -> Z -> Z) (x : spec_float) : spec_float :=
  match x with
  | S754_finite s m e =>
    if 0 <=? e then x else binary_normalize 53 1024 (g (cond_Zopp s (Zpos m)) (2 ^ (- e))) 0 s
  | _ => x
  end.

Definition ceil_div (n d : Z) : Z := - (- n / d).
Definition round_even_div (n d : Z) : Z :=
  let '(q, r) := (n / d, n mod d) in
  if (2 * r <? d) || ((2 * r =? d) && Z.even q) then q else q + 1.

(** [f64::floor], [f64::ceil], [f64::round_ties_even]. *)
Definition f64_floor : spec_float -> spec_float := f64_integral Z.div.
Definition f64_ceil : spec_float -> spec_float := f64_integral ceil_div.
Definition f64_round_ties_even : spec_float -> spec_float := f64_integral round_even_div.

(** [x as iN] and [x as uN]: toward zero, saturating, [0] for a NaN. *)
Definition f64_as (lo hi : Z) (x : spec_float) : Z :=
  match x with
  | S754_zero _ | S754_nan => 0
  | S754_infinity s => if s then lo else hi
  | S754_finite s m e =>
    Z.max lo (Z.min hi (cond_Zopp s (if 0 <=? e then Z.pos m * 2 ^ e else Z.pos m / 2 ^ (- e))))
  end.
Definition f64_as_i32 : spec_float -> Z := f64_as (- 2 ^ 31) (2 ^ 31 - 1).
Definition f64_as_i64 : spec_float -> Z := f64_as (- 2 ^ 63) (2 ^ 63 - 1).
Definition f64_as_u64 : spec_float -> Z := f64_as 0 (2 ^ 64 - 1).

(** [n as f32]. *)
Definition f32_of_Z (n : Z) : spec_float := f32_normalize n 0.

(** The literal [n / 10 ^ k]: both are exact, so the quotient is the nearest [f64]. *)
Definition f64_decimal (n k : Z) : spec_float := f64_div (f64_of_Z n) (f64_of_Z (10 ^ k)).

Definition f32_one : spec_float := f32_normalize 1 0.
Definition f64_one : spec_float := f64_normalize 1 0.

(** Canonical (storable) binary32 and binary64 values. *)
Definition f64_valid (x : spec_float) : Prop := valid_binary 53 1024 x = true.
Definition f32_valid (x : spec_float) : Prop := valid_binary 24 128 x = true.

(** The value of a non-negative float, in units of [2 ^ -1074]. *)
Definition f64_units (x : spec_float) : Z :=
  match x with S754_finite s m e => cond_Zopp s (Z.pos m * 2 ^ (e + 1074)) | _ => 0 end.

(** * Digits *)

Lemma digits2_pos_bounds m :
  2 ^ (Z.pos (digits2_pos m) - 1) <= Z.pos m < 2 ^ Z.pos (digits2_pos m).
Proof.
  induction m as [m IH|m IH|]; cbn [digits2_pos]; [..|done].
  all: rewrite Pos2Z.inj_succ, Z.pow_succ_r by lia.
  all: replace (Z.succ (Z.pos (digits2_pos m)) - 1)
         with (Z.succ (Z.pos (digits2_pos m) - 1)) by lia.
  all: rewrite Z.pow_succ_r by lia; lia.
Qed.

Lemma digits2_pos_unique m d :
  0 < d -> 2 ^ (d - 1) <= Z.pos m < 2 ^ d -> Z.pos (digits2_pos m) = d.
Proof.
  intros Hd Hm. pose proof (digits2_pos_bounds m) as Hb.
  assert (Z.pos (digits2_pos m) - 1 < d) by (apply (Z.pow_lt_mono_r_iff 2); lia).
  assert (d - 1 < Z.pos (digits2_pos m)) by (apply (Z.pow_lt_mono_r_iff 2); lia).
  lia.
Qed.

Lemma digits2_pos_shift m m' k :
  0 <= k -> Z.pos m' = Z.pos m * 2 ^ k ->
  Z.pos (digits2_pos m') = Z.pos (digits2_pos m) + k.
Proof.
  intros Hk Hm. pose proof (digits2_pos_bounds m) as Hb.
  apply digits2_pos_unique; [lia|]. rewrite Hm.
  replace (Z.pos (digits2_pos m) + k - 1) with (Z.pos (digits2_pos m) - 1 + k) by lia.
  rewrite !Z.pow_add_r by lia.
  assert (0 < 2 ^ k) by (apply Z.pow_pos_nonneg; lia). nia.
Qed.

(** * Rounding an exact value *)

Lemma shr_1_exact m : shr_1 (Build_shr_record (2 * m) false false) = Build_shr_record m false false.
Proof. by destruct m. Qed.

Lemma shr_1_iter_exact p m :
  SpecFloat.iter_pos shr_1 p (Build_shr_record (m * 2 ^ Z.pos p) false false)
  = Build_shr_record m false false.
Proof.
  revert m; induction p as [p IH|p IH|]; intros m; cbn [SpecFloat.iter_pos].
  - replace (m * 2 ^ Z.pos p~1) with (2 * (m * 2 ^ Z.pos p * 2 ^ Z.pos p)).
    + by rewrite shr_1_exact, !IH.
    + replace (Z.pos p~1) with (Z.pos p + Z.pos p + 1) by lia.
      rewrite !Z.pow_add_r by lia. lia.
  - replace (m * 2 ^ Z.pos p~0) with (m * 2 ^ Z.pos p * 2 ^ Z.pos p).
    + by rewrite !IH.
    + replace (Z.pos p~0) with (Z.pos p + Z.pos p) by lia.
      rewrite !Z.pow_add_r by lia. lia.
  - rewrite <-(shr_1_exact m). f_equal. f_equal. lia.
Qed.

Section exact.
Context (prec emax : Z).

(** A representable mantissa and exponent. *)
Definition canonical (m : positive) (e : Z) : Prop :=
  fexp prec emax (Z.pos (digits2_pos m) + e) = e /\ e <= emax - prec.

Lemma canonical_bounded m e : bounded prec emax m e = true <-> canonical m e.
Proof.
  unfold bounded, canonical_mantissa, canonical.
  rewrite andb_true_iff, Z.eqb_eq, Z.leb_le. done.
Qed.

Lemma binary_round_aux_exact s M E m e :
  canonical m e -> E <= e -> Z.pos M = Z.pos m * 2 ^ (e - E) ->
  binary_round_aux prec emax s (Z.pos M) E loc_Exact = S754_finite s m e.
Proof.
  intros [Hc He] HE HM. unfold binary_round_aux.
  assert (shr_fexp prec emax (Z.pos M) E loc_Exact = (Build_shr_record (Z.pos m) false false, e)) as ->.
  { unfold shr_fexp. cbn [Zdigits2 shr_record_of_loc].
    rewrite (digits2_pos_shift m M (e - E)) by (done || lia).
    replace (_ + (e - E) + E) with (Z.pos (digits2_pos m) + e) by lia. rewrite Hc.
    unfold shr. rewrite HM. destruct (e - E) as [|k|k] eqn:Hk.
    - rewrite Z.pow_0_r, Z.mul_1_r. f_equal. lia.
    - rewrite shr_1_iter_exact. f_equal. lia.
    - lia. }
  cbn [shr_m loc_of_shr_record round_nearest_even].
  unfold shr_fexp. cbn [Zdigits2 shr_record_of_loc]. rewrite Hc, Z.sub_diag. cbn.
  by rewrite (proj2 (Z.leb_le _ _)) by done.
Qed.

(** Multiplying by a power of two, when the product is representable. *)
Lemma SFmul_pow2 s m e p q m' e' :
  canonical m' e' -> e + q <= e' -> Z.pos m * Z.pos p = Z.pos m' * 2 ^ (e' - (e + q)) ->
  SFmul prec emax (S754_finite s m e) (S754_finite false p q) = S754_finite s m' e'.
Proof.
  intros Hc He Hm. cbn [SFmul]. rewrite xorb_false_r. by apply binary_round_aux_exact.
Qed.
End exact.

(** * The exact operations of the codecs *)

Lemma canonical_digits prec emax m e :
  0 < prec -> canonical prec emax m e ->
  Z.pos (digits2_pos m) <= prec /\ 3 - emax - prec <= e /\
  (e = 3 - emax - prec \/ Z.pos (digits2_pos m) = prec).
Proof. unfold canonical, fexp, emin. lia. Qed.

Lemma f64_valid_finite s m e : f64_valid (S754_finite s m e) <-> canonical 53 1024 m e.
Proof. unfold f64_valid, valid_binary. apply canonical_bounded. Qed.

Lemma f32_valid_finite s m e : f32_valid (S754_finite s m e) <-> canonical 24 128 m e.
Proof. unfold f32_valid, valid_binary. apply canonical_bounded. Qed.

Lemma div_eucl_eq a b : Z.div_eucl a b = (a / b, a mod b).
Proof. unfold Z.div, Z.modulo. by destruct (Z.div_eucl a b). Qed.

(** [x * 1.0] and [x / 1.0]. *)
Lemma f32_mul_one x : f32_valid x -> f32_mul x f32_one = x.
Proof.
  destruct x as [s|s| |s m e]; intros Hx; [by destruct s|by destruct s|done|].
  apply f32_valid_finite in Hx.
  apply (SFmul_pow2 24 128 s m e 8388608 (-23) m e); [done|lia|].
  replace (e - (e + -23)) with 23 by lia. lia.
Qed.

Lemma f32_div_one x : f32_valid x -> f32_div x f32_one = x.
Proof.
  destruct x as [s|s| |s m e]; intros Hx; [by destruct s|by destruct s|done|].
  apply f32_valid_finite in Hx. unfold f32_div, f32_one.
  replace (f32_normalize 1 0) with (S754_finite false 8388608 (-23)) by reflexivity.
  cbn [SFdiv]. rewrite xorb_false_r.
  assert (exists q k, SFdiv_core_binary 24 128 (Z.pos m) e 8388608 (-23)
    = (Z.pos q, e - k, loc_Exact) /\ 0 <= k /\ Z.pos q = Z.pos m * 2 ^ k) as (q & k & -> & Hk & Hq).
  2:{ apply binary_round_aux_exact; [done|lia|]. by replace (e - (e - k)) with k by lia. }
  unfold SFdiv_core_binary. cbn [Zdigits2].
  set (e' := Z.min _ _). assert (e' <= e) as He'.
  { destruct Hx as [Hx _]. unfold e', fexp, emin in *. cbn [digits2_pos Pos.succ]. lia. }
  assert (e - -23 - e' = (e - e') + 23) as Hs by lia.
  destruct (e - -23 - e') as [|n|n] eqn:Hn; [lia| |lia].
  rewrite Z.shiftl_mul_pow2, Hs, Z.pow_add_r by lia.
  assert (Z.div_eucl (Z.pos m * (2 ^ (e - e') * 2 ^ 23)) 8388608
          = (Z.pos m * 2 ^ (e - e'), 0)) as ->.
  { rewrite div_eucl_eq, Z.mul_assoc. change 8388608 with (2 ^ 23).
    rewrite Z.div_mul, Z.mod_mul by lia. done. }
  assert (0 < 2 ^ (e - e')) by (apply Z.pow_pos_nonneg; lia).
  destruct (Z.pos m * 2 ^ (e - e')) as [|q|] eqn:Hq; [lia| |lia].
  exists q, (e - e'). split_and!; [|lia|lia].
  f_equal. f_equal. lia.
Qed.

(** Widening keeps the value. *)
Lemma f64_of_f32_finite s m e :
  f32_valid (S754_finite s m e) ->
  exists m' e', f64_of_f32 (S754_finite s m e) = S754_finite s m' e' /\
    canonical 53 1024 m' e' /\ e' <= e /\ Z.pos m' = Z.pos m * 2 ^ (e - e').
Proof.
  intros Hx%f32_valid_finite. pose proof (canonical_digits 24 128 m e eq_refl Hx) as Hd.
  destruct Hx as [_ He].
  set (e' := Z.pos (digits2_pos m) + e - 53).
  assert (e' < e /\ -1074 <= e') as [Hlt Hmin] by lia.
  assert (exists m', Z.pos m' = Z.pos m * 2 ^ (e - e')) as [m' Hm'].
  { assert (0 < 2 ^ (e - e')) by (apply Z.pow_pos_nonneg; lia).
    exists (Z.to_pos (Z.pos m * 2 ^ (e - e'))). rewrite Z2Pos.id; lia. }
  assert (canonical 53 1024 m' e') as Hc.
  { split; [|lia]. rewrite (digits2_pos_shift m m' (e - e')) by (done || lia).
    unfold fexp, emin. lia. }
  exists m', e'. split_and!; [|done|lia|done].
  assert (forall b, binary_round 53 1024 b m e = S754_finite b m' e') as Hr.
  { intros b. unfold binary_round.
    replace (fexp 53 1024 (Z.pos (digits2_pos m) + e)) with e' by (unfold fexp, emin; lia).
    unfold shl_align. destruct (e' - e) as [|d|d] eqn:Hd'; [lia..|].
    assert (Pos.iter xO m d = m') as ->.
    { apply Pos2Z.inj. rewrite Hm'. replace (e - e') with (Z.pos d) by lia.
      rewrite <-Z.shiftl_mul_pow2 by lia. cbn [Z.shiftl].
      by apply (Pos.iter_swap_gen _ _ Z.pos xO (Z.mul 2)). }
    apply binary_round_aux_exact; [done|lia|]. rewrite Z.sub_diag. lia. }
  destruct s; cbn; apply Hr.
Qed.

(** Scaling a magnitude by [512 = 2 ^ 9]. *)
Lemma f64_mul_512 m e :
  canonical 53 1024 m e -> e <= 900 ->
  exists m' e', f64_mul (S754_finite false m e) (f64_of_Z 512) = S754_finite false m' e' /\
    e' <= e + 9 /\ e <= e' /\ Z.pos m * 2 ^ (e + 9 - e') = Z.pos m'.
Proof.
  intros Hx He. pose proof (canonical_digits 53 1024 m e eq_refl Hx) as Hd.
  set (j := Z.min 9 (53 - Z.pos (digits2_pos m))).
  assert (0 <= j <= 9) as Hj by lia.
  assert (exists m', Z.pos m' = Z.pos m * 2 ^ j) as [m' Hm'].
  { assert (0 < 2 ^ j) by (apply Z.pow_pos_nonneg; lia).
    exists (Z.to_pos (Z.pos m * 2 ^ j)). rewrite Z2Pos.id; lia. }
  exists m', (e + 9 - j). split_and!; [|lia|lia|by replace (e + 9 - (e + 9 - j)) with j by lia].
  change (f64_of_Z 512) with (S754_finite false 4503599627370496 (-43)).
  apply SFmul_pow2; [|lia|].
  - split; [|lia]. rewrite (digits2_pos_shift m m' j) by (done || lia).
    destruct Hx as [Hx _]. unfold fexp, emin in *. lia.
  - rewrite Hm'. replace (e + 9 - j - (e + -43)) with (52 - j) by lia.
    rewrite <-Z.mul_assoc, <-Z.pow_add_r by lia. by replace (j + (52 - j)) with 52 by lia.
Qed.
