(* ===== verification/FloatRound.v ===== *)
(** What the rounded operations of [spec_float] mean: a finite result is a nearest
    representable number to the exact real one.  The operations are the kernel's
    specification of IEEE 754; nothing in the Standard Library says what they round to,
    so the bracketing argument is made here, over the reals. *)
From Stdlib Require Import ZArith Lia Bool SpecFloat Rbase R_Ifp Rbasic_fun Rfunctions R_sqrt Lra.
From stdpp Require Import base list gmap strings.
From S2P Require Import Prelude Floats.

(** * Definitions *)

(** [2 ^ e] for any [e]. *)
Definition bpow (e : Z) : R := powerRZ 2 e.

(** The real number a finite float is ([0] for an infinity or a NaN). *)
Definition fval (x : spec_float) : R :=
  match x with S754_finite s m e => IZR (cond_Zopp s (Zpos m)) * bpow e | _ => 0 end.

Definition is_finite (x : spec_float) : bool :=
  match x with S754_finite _ _ _ | S754_zero _ => true | _ => false end.

(** Where a real is between two consecutive integers. *)
Definition inb (m : Z) (l : location) (x : R) : Prop :=
  match l with
  | loc_Exact => x = IZR m
  | loc_Inexact Lt => IZR m < x < IZR m + 1 / 2
  | loc_Inexact Eq => x = IZR m + 1 / 2
  | loc_Inexact Gt => IZR m + 1 / 2 < x < IZR m + 1
  end%R.

(** The numbers of a format of [prec] bits with exponents from [emin], unbounded above. *)
Definition representable (prec emin : Z) (z : R) : Prop :=
  exists k f, Z.abs k < 2 ^ prec /\ emin <= f /\ z = (IZR k * bpow f)%R.

Definition nearest (prec emin : Z) (x y : R) : Prop :=
  representable prec emin y /\ forall z, representable prec emin z -> (Rabs (y - x) <= Rabs (z - x))%R.

(** The finite float [x] of a format is the real [r]. *)
Definition Fl (prec emax : Z) (x : spec_float) (r : R) : Prop :=
  is_finite x = true /\ valid_binary prec emax x = true /\ fval x = r.

(** An operation's result [x] is finite and nearest to the exact real [r]. *)
Definition Rounds (prec emax : Z) (x : spec_float) (r : R) : Prop :=
  exists y, Fl prec emax x y /\ nearest prec (3 - emax - prec) r y.

(** * Powers of two *)

Lemma bpow_pos e : (0 < bpow e)%R.
Proof. apply powerRZ_lt. lra. Qed.

Lemma bpow_add a b : bpow (a + b) = (bpow a * bpow b)%R.
Proof. apply powerRZ_add. lra. Qed.

Lemma bpow_0 : bpow 0 = 1%R.
Proof. done. Qed.

Lemma bpow_1 : bpow 1 = 2%R.
Proof. unfold bpow, powerRZ. change (Pos.to_nat 1) with 1%nat. lra. Qed.

Lemma bpow_half : bpow (-1) = (/ 2)%R.
Proof. unfold bpow, powerRZ. change (Pos.to_nat 1) with 1%nat. by rewrite pow_1. Qed.

Lemma bpow_Z n : 0 <= n -> bpow n = IZR (2 ^ n).
Proof.
  intros Hn. rewrite <- (Z2Nat.id n) by done. generalize (Z.to_nat n) as k. clear.
  induction k as [|k IH]; [done|]. rewrite Nat2Z.inj_succ, <- Z.add_1_r, bpow_add, IH, Z.pow_add_r by lia.
  by rewrite mult_IZR, bpow_1.
Qed.

Lemma bpow_le a b : a <= b -> (bpow a <= bpow b)%R.
Proof.
  intros H. replace b with (a + (b - a)) by lia. rewrite bpow_add, (bpow_Z (b - a)) by lia.
  assert (1 <= 2 ^ (b - a)) as H1 by (assert (0 < 2 ^ (b - a)) by (apply Z.pow_pos_nonneg; lia); lia).
  apply IZR_le in H1. pose proof (bpow_pos a). nra.
Qed.

(** A number of the format over a finer power. *)
Lemma bpow_shift k f e : e <= f -> (IZR k * bpow f = IZR (k * 2 ^ (f - e)) * bpow e)%R.
Proof. intros H. replace f with (f - e + e) at 1 by lia. rewrite bpow_add, (bpow_Z (f - e)), mult_IZR by lia. ring. Qed.

(** * Bracketing *)

Lemma inb_loc mrs x : inb (shr_m mrs) (loc_of_shr_record mrs) x -> (IZR (shr_m mrs) <= x < IZR (shr_m mrs) + 1)%R.
Proof. destruct mrs as [m [] []]; cbn; lra. Qed.

Lemma shr_1_inb mrs x : 0 <= shr_m mrs -> inb (shr_m mrs) (loc_of_shr_record mrs) x ->
  0 <= shr_m (shr_1 mrs) /\ inb (shr_m (shr_1 mrs)) (loc_of_shr_record (shr_1 mrs)) (x / 2)%R.
Proof.
  destruct mrs as [m r s]; cbn [shr_m]. intros Hm H. destruct m as [|[p|p|]|p]; [| | | |lia]; (split; [cbn; lia|]).
  2: pose proof (f_equal IZR (Pos2Z.inj_xI p)) as E; rewrite plus_IZR, mult_IZR in E.
  3: pose proof (f_equal IZR (Pos2Z.inj_xO p)) as E; rewrite mult_IZR in E.
  all: destruct r, s; cbn [loc_of_shr_record shr_1 shr_m orb inb] in *; lra.
Qed.

Lemma shr_1_iter_inb p : forall mrs x, 0 <= shr_m mrs -> inb (shr_m mrs) (loc_of_shr_record mrs) x ->
  let mrs' := SpecFloat.iter_pos shr_1 p mrs in
  0 <= shr_m mrs' /\ inb (shr_m mrs') (loc_of_shr_record mrs') (x * bpow (- Z.pos p))%R.
Proof.
  induction p as [p IH|p IH|]; intros mrs x Hm Hx; cbv zeta; cbn [SpecFloat.iter_pos].
  - destruct (shr_1_inb mrs x Hm Hx) as [H1 H2]. destruct (IH _ _ H1 H2) as [H3 H4]. destruct (IH _ _ H3 H4) as [H5 H6].
    split; [done|]. replace (- Z.pos p~1) with (-1 + - Z.pos p + - Z.pos p) by lia. rewrite !bpow_add.
    rewrite bpow_half. unfold Rdiv in H6. by rewrite <- !Rmult_assoc.
  - destruct (IH _ _ Hm Hx) as [H3 H4]. destruct (IH _ _ H3 H4) as [H5 H6].
    split; [done|]. replace (- Z.pos p~0) with (- Z.pos p + - Z.pos p) by lia. rewrite !bpow_add. by rewrite <- Rmult_assoc.
  - destruct (shr_1_inb mrs x Hm Hx) as [H1 H2]. split; [done|]. change (- Z.pos 1) with (-1). by rewrite bpow_half.
Qed.

Lemma shr_record_loc m l : loc_of_shr_record (shr_record_of_loc m l) = l /\ shr_m (shr_record_of_loc m l) = m.
Proof. by destruct l as [|[]]. Qed.

Lemma round_nearest_even_near m l x : inb m l x ->
  let n := round_nearest_even m l in (m <= n <= m + 1) /\ (Rabs (IZR n - x) <= 1 / 2)%R.
Proof.
  intros H. assert (IZR (m + 1) = (IZR m + 1)%R) as Hp by (by rewrite plus_IZR).
  destruct l as [|[]]; cbn in *; [| destruct (Z.even m) | |];
    (split; [lia|]); try rewrite Hp; unfold Rabs; destruct (Rcase_abs _); lra.
Qed.

(** An integer at most half away is a nearest integer. *)
Lemma integer_nearest (n k : Z) x : (Rabs (IZR n - x) <= 1 / 2)%R -> (Rabs (IZR n - x) <= Rabs (IZR k - x))%R.
Proof.
  intros H. destruct (Z.eq_dec n k) as [->|Hne]; [lra|].
  assert (n + 1 <= k \/ k + 1 <= n) as [Hk|Hk] by lia; apply IZR_le in Hk; rewrite plus_IZR in Hk;
    revert H; unfold Rabs; destruct (Rcase_abs _), (Rcase_abs _); lra.
Qed.

(** * Rounding *)

Lemma representable_opp p e z : representable p e z -> representable p e (- z).
Proof. intros (k & f & Hk & Hf & ->). exists (- k), f. rewrite Z.abs_opp, opp_IZR. repeat split; [done|done|ring]. Qed.

Lemma nearest_opp p e x y : nearest p e x y -> nearest p e (- x) (- y).
Proof.
  intros [H1 H2]. split; [by apply representable_opp|]. intros z Hz.
  specialize (H2 (- z)%R (representable_opp _ _ _ Hz)).
  replace (- y - - x)%R with (- (y - x))%R by ring. replace (z - - x)%R with (- (- z - x))%R by ring.
  by rewrite !Rabs_Ropp.
Qed.

Lemma representable_le prec emin n e : 1 < prec -> Z.abs n <= 2 ^ prec -> emin <= e -> representable prec emin (IZR n * bpow e).
Proof.
  intros Hprec Hmax He. destruct (Z.eq_dec (Z.abs n) (2 ^ prec)) as [E|E]; [|exists n, e; repeat split; [lia|done]].
  assert (2 ^ prec = 2 * 2 ^ (prec - 1)) as E2 by (rewrite <- Z.pow_succ_r by lia; f_equal; lia).
  assert (0 < 2 ^ (prec - 1)) by (apply Z.pow_pos_nonneg; lia).
  exists (Z.sgn n * 2 ^ (prec - 1)), (e + 1). split; [destruct n; cbn [Z.sgn] in *; lia|split; [lia|]].
  rewrite (bpow_shift _ (e + 1) e) by lia. replace (e + 1 - e) with 1 by lia. do 2 f_equal. destruct n; cbn [Z.sgn Z.abs] in *; lia.
Qed.

Definition cond_Ropp (s : bool) (x : R) : R := if s then (- x)%R else x.

Section round.
Context (prec emax : Z) (Hprec : 1 < prec) (Hemax : prec < emax).
Let emin := 3 - emax - prec.

(** The integer [n] of the final exponent is nearest to the scaled real [x]. *)
Lemma scaled_nearest n x e : emin <= e -> (0 <= x)%R -> (Rabs (IZR n - x) <= 1 / 2)%R -> Z.abs n <= 2 ^ prec ->
  (emin < e -> (IZR (2 ^ (prec - 1)) <= x)%R) -> nearest prec emin (x * bpow e)%R (IZR n * bpow e)%R.
Proof.
  intros He Hx Hn Hmax Hnorm. split; [apply representable_le; lia|].
  intros z (k & f & Hk & Hf & ->). replace (IZR n * bpow e - x * bpow e)%R with ((IZR n - x) * bpow e)%R by ring.
  pose proof (bpow_pos e) as Hpe. rewrite Rabs_mult, (Rabs_right (bpow e)) by lra.
  destruct (Z.le_gt_cases e f) as [Hef|Hef].
  - rewrite (bpow_shift k f e) by done. set (j := k * 2 ^ (f - e)). replace (IZR j * bpow e - x * bpow e)%R with ((IZR j - x) * bpow e)%R by ring.
    rewrite Rabs_mult, (Rabs_right (bpow e)) by lra. apply Rmult_le_compat_r; [lra|]. by apply integer_nearest.
  - assert (IZR (2 ^ (prec - 1)) <= x)%R as Hbig by (apply Hnorm; lia).
    pose proof (integer_nearest n (2 ^ (prec - 1)) x Hn) as Hi. rewrite (Rabs_left1 (IZR (2 ^ (prec - 1)) - x)) in Hi by lra.
    assert (IZR k * bpow f <= IZR (2 ^ (prec - 1)) * bpow e)%R as Hz.
    { replace e with (f + 1 + (e - f - 1)) by lia. rewrite !bpow_add, bpow_1. pose proof (bpow_pos f) as Hpf.
      assert (1 <= bpow (e - f - 1))%R as H1 by (rewrite <- bpow_0; apply bpow_le; lia).
      assert (IZR k <= 2 * IZR (2 ^ (prec - 1)))%R as H2.
      { rewrite <- mult_IZR. apply IZR_le. rewrite <- Z.pow_succ_r by lia. replace (Z.succ (prec - 1)) with prec by lia. lia. }
      assert (0 < IZR (2 ^ (prec - 1)))%R as H3 by (apply IZR_lt, Z.pow_pos_nonneg; lia).
      assert (IZR (2 ^ (prec - 1)) * 1 <= IZR (2 ^ (prec - 1)) * bpow (e - f - 1))%R as H4 by (apply Rmult_le_compat_l; lra).
      replace (IZR (2 ^ (prec - 1)) * (bpow f * 2 * bpow (e - f - 1)))%R with (2 * (IZR (2 ^ (prec - 1)) * bpow (e - f - 1)) * bpow f)%R by ring.
      apply Rmult_le_compat_r; lra. }
    assert ((IZR (2 ^ (prec - 1)) - x) * bpow e <= 0)%R as Hneg.
    { replace 0%R with (0 * bpow e)%R by ring. apply Rmult_le_compat_r; lra. }
    rewrite (Rabs_left1 (IZR k * bpow f - x * bpow e)) by lra.
    replace (- (IZR k * bpow f - x * bpow e))%R with (x * bpow e - IZR k * bpow f)%R by ring.
    apply Rle_trans with ((x - IZR (2 ^ (prec - 1))) * bpow e)%R; [apply Rmult_le_compat_r; lra|]. lra.
Qed.

Lemma shr_fexp_inb m e l x : 0 <= m -> inb m l x -> e <= fexp prec emax (Zdigits2 m + e) ->
  exists mrs, shr_fexp prec emax m e l = (mrs, fexp prec emax (Zdigits2 m + e)) /\ 0 <= shr_m mrs /\
    inb (shr_m mrs) (loc_of_shr_record mrs) (x * bpow (e - fexp prec emax (Zdigits2 m + e)))%R.
Proof.
  intros Hm Hx He. unfold shr_fexp, shr. set (e' := fexp prec emax (Zdigits2 m + e)) in *.
  destruct (shr_record_loc m l) as [H1 H2].
  assert (inb (shr_m (shr_record_of_loc m l)) (loc_of_shr_record (shr_record_of_loc m l)) x) as Hr by (by rewrite H1, H2).
  destruct (e' - e) as [|p|p] eqn:E; [| |lia].
  - exists (shr_record_of_loc m l). replace (e - e') with 0 by lia. rewrite bpow_0, Rmult_1_r. split; [f_equal; lia|]. split; [lia|done].
  - exists (SpecFloat.iter_pos shr_1 p (shr_record_of_loc m l)). split; [f_equal; lia|]. replace (e - e') with (- Z.pos p) by lia.
    apply shr_1_iter_inb; [lia|done].
Qed.

(** Rounding to [n] of exponent [e] needs at most one more shift. *)
Lemma second_shift n e : 0 <= n <= 2 ^ prec -> emin <= e -> (emin < e -> 2 ^ (prec - 1) <= n) -> e <= emax - 1 - prec -> forall s,
  let y := (let '(mrs, e'') := shr_fexp prec emax n e loc_Exact in
            match shr_m mrs with
            | Z0 => S754_zero s
            | Zpos m => if Z.leb e'' (emax - prec) then S754_finite s m e'' else S754_infinity s
            | _ => S754_nan
            end) in
  is_finite y = true /\ valid_binary prec emax y = true /\ fval y = cond_Ropp s (IZR n * bpow e)%R.
Proof.
  intros Hn He Hnorm Hmax s. cbv zeta. destruct n as [|n|n]; [| |lia].
  { unfold shr_fexp, shr. cbn [Zdigits2]. replace (fexp prec emax (0 + e) - e) with (- (e - fexp prec emax (0 + e))) by lia.
    assert (0 <= e - fexp prec emax (0 + e)) as H0 by (unfold fexp; change (SpecFloat.emin prec emax) with emin; lia).
    destruct (e - _) eqn:E; [..|lia]; (split; [done|split; [done|]]); change (0 = cond_Ropp s (0 * bpow e))%R; destruct s; cbn [cond_Ropp]; ring. }
  assert (forall m e', 0 < Z.pos m -> Z.pos m < 2 ^ prec -> emin <= e' -> (emin < e' -> 2 ^ (prec - 1) <= Z.pos m) -> canonical_mantissa prec emax m e' = true) as Hcan.
  { intros m e' _ Hm He' Hnm. pose proof (digits2_pos_bounds m) as Hd. unfold canonical_mantissa. apply Z.eqb_eq.
    assert (Z.pos (digits2_pos m) - 1 < prec) as Hp by (apply (Z.pow_lt_mono_r_iff 2); lia).
    unfold fexp. change (SpecFloat.emin prec emax) with emin. destruct (Z.eq_dec emin e') as [->|Hlt]; [lia|].
    assert (prec - 1 < Z.pos (digits2_pos m)) by (apply (Z.pow_lt_mono_r_iff 2); lia). lia. }
  assert (2 ^ prec = 2 * 2 ^ (prec - 1)) as E2 by (rewrite <- Z.pow_succ_r by lia; f_equal; lia).
  assert (0 < 2 ^ (prec - 1)) as Hpos by (apply Z.pow_pos_nonneg; lia).
  destruct (Z.eq_dec (Z.pos n) (2 ^ prec)) as [E|E].
  - assert (exists m, 2 ^ (prec - 1) = Z.pos m) as [m Hm] by (destruct (2 ^ (prec - 1)); try lia; eauto).
    assert (n = m~0)%positive as -> by lia.
    assert (Z.pos (digits2_pos m~0) = prec + 1) as Hd by (apply digits2_pos_unique; [lia|]; replace (prec + 1 - 1) with prec by lia;
      rewrite E, Z.pow_add_r by lia; lia).
    unfold shr_fexp, shr. cbn [Zdigits2]. rewrite Hd. replace (fexp prec emax (prec + 1 + e) - e) with 1
      by (unfold fexp; change (SpecFloat.emin prec emax) with emin; lia).
    cbn [SpecFloat.iter_pos shr_record_of_loc shr_1 shr_m orb]. rewrite (proj2 (Z.leb_le _ _)) by lia. split; [done|].
    split; [unfold valid_binary, SpecFloat.bounded; rewrite Hcan by lia; apply Z.leb_le; lia|].
    cbn [fval]. rewrite bpow_add, bpow_1. replace (IZR (Z.pos m~0)) with (2 * IZR (Z.pos m))%R by (rewrite <- mult_IZR; f_equal; lia).
    destruct s; cbn [cond_Zopp cond_Ropp]; rewrite ?opp_IZR; ring.
  - pose proof (Hcan n e ltac:(lia) ltac:(lia) He Hnorm) as Hc. unfold canonical_mantissa in Hc. apply Z.eqb_eq in Hc.
    unfold shr_fexp, shr. cbn [Zdigits2]. rewrite Hc, Z.sub_diag. cbn [shr_m shr_record_of_loc]. rewrite (proj2 (Z.leb_le _ _)) by lia.
    split; [done|]. split; [unfold valid_binary, SpecFloat.bounded; rewrite Hcan by lia; apply Z.leb_le; lia|].
    cbn [fval]. destruct s; cbn [cond_Zopp cond_Ropp]; rewrite ?opp_IZR; ring.
Qed.
(** The mantissa's digits bound the real after the first shift. *)
Lemma scaled_bounds m e l x : 0 <= m -> inb m l x -> e <= fexp prec emax (Zdigits2 m + e) -> (x * bpow e < bpow (emax - 1))%R ->
  let e' := fexp prec emax (Zdigits2 m + e) in let x' := (x * bpow (e - e'))%R in
  emin <= e' <= emax - 1 - prec /\ (0 <= x' < IZR (2 ^ prec))%R /\ (emin < e' -> (IZR (2 ^ (prec - 1)) <= x')%R).
Proof.
  intros Hm Hx He Hlt. set (e' := fexp prec emax (Zdigits2 m + e)) in *. intros e'' x'. subst e''.
  assert (e' = Z.max (Zdigits2 m + e - prec) emin) as Ee by (unfold e', fexp; done).
  pose proof (bpow_pos e) as Hpe. pose proof (bpow_pos (e - e')) as Hpd.
  assert (IZR m <= x < IZR m + 1)%R as [Hx1 Hx2] by (destruct l as [|[]]; cbn [inb] in Hx; lra).
  assert (0 <= IZR m)%R as Hm0 by (by apply IZR_le).
  assert (0 <= x')%R as H0 by (apply Rmult_le_pos; lra).
  destruct m as [|m|m]; [| |lia]; cbn [Zdigits2] in *.
  { assert (x' < 1)%R as H1.
    { unfold x'. assert (bpow (e - e') <= 1)%R by (rewrite <- bpow_0; apply bpow_le; lia). nra. }
    assert (1 <= 2 ^ prec) as H2%IZR_le by (assert (0 < 2 ^ prec) by (apply Z.pow_pos_nonneg; lia); lia).
    split; [lia|split; [lra|lia]]. }
  pose proof (digits2_pos_bounds m) as Hd.
  assert (bpow (Z.pos (digits2_pos m) - 1) <= x)%R as Hlow.
  { rewrite bpow_Z by lia. apply Rle_trans with (IZR (Z.pos m)); [apply IZR_le; lia|done]. }
  assert (x < bpow (Z.pos (digits2_pos m)))%R as Hhigh.
  { rewrite bpow_Z by lia. apply Rlt_le_trans with (IZR (Z.pos m) + 1)%R; [done|]. rewrite <- plus_IZR. apply IZR_le. lia. }
  assert (Z.pos (digits2_pos m) - 1 + e < emax - 1) as Hde.
  { destruct (Z.lt_ge_cases (Z.pos (digits2_pos m) - 1 + e) (emax - 1)) as [|Hge]; [done|]. exfalso.
    apply bpow_le in Hge. rewrite bpow_add in Hge. assert (bpow (Z.pos (digits2_pos m) - 1) * bpow e <= x * bpow e)%R by (apply Rmult_le_compat_r; lra). lra. }
  split; [lia|]. split; [split; [done|]|].
  - rewrite <- bpow_Z by lia. apply Rlt_le_trans with (bpow (Z.pos (digits2_pos m)) * bpow (e - e'))%R.
    + apply Rmult_lt_compat_r; lra.
    + rewrite <- bpow_add. apply bpow_le. lia.
  - intros Hlt'. rewrite <- bpow_Z by lia. replace (prec - 1) with (Z.pos (digits2_pos m) - 1 + (e - e')) by lia.
    rewrite bpow_add. apply Rmult_le_compat_r; lra.
Qed.

Lemma round_aux_near s m e l x : 0 <= m -> inb m l x -> e <= fexp prec emax (Zdigits2 m + e) -> (x * bpow e < bpow (emax - 1))%R ->
  Rounds prec emax (binary_round_aux prec emax s m e l) (cond_Ropp s (x * bpow e)).
Proof.
  intros Hm Hx He Hlt. unfold binary_round_aux.
  destruct (shr_fexp_inb m e l x Hm Hx He) as (mrs & -> & Hmrs & Hin).
  destruct (scaled_bounds m e l x Hm Hx He Hlt) as (He' & Hx' & Hnorm).
  set (e' := fexp prec emax (Zdigits2 m + e)) in *. set (x' := (x * bpow (e - e'))%R) in *.
  pose proof (inb_loc _ _ Hin) as [Hb1 Hb2].
  destruct (round_nearest_even_near _ _ _ Hin) as [Hn Hnear]. set (n := round_nearest_even _ _) in *.
  assert (shr_m mrs < 2 ^ prec) as Hm' by (apply lt_IZR; lra).
  destruct (second_shift n e' ltac:(lia) ltac:(lia)) with (s := s) as (H1 & H2 & H3); [|lia|].
  { intros H%Hnorm. assert (2 ^ (prec - 1) < shr_m mrs + 1); [|lia]. apply lt_IZR. rewrite plus_IZR. lra. }
  eexists. split; [split; [exact H1|split; [exact H2|exact H3]]|]. fold emin.
  replace (x * bpow e)%R with (x' * bpow e')%R by (unfold x'; rewrite Rmult_assoc, <- bpow_add; do 2 f_equal; lia).
  assert (nearest prec emin (x' * bpow e') (IZR n * bpow e')) as Hne by (apply scaled_nearest; [lia|lra|done|lia|done]).
  destruct s; cbn [cond_Ropp]; [by apply nearest_opp|done].
Qed.

(** * The operations *)

Lemma binary_round_near s m e : (IZR (Z.pos m) * bpow e < bpow (emax - 1))%R ->
  Rounds prec emax (binary_round prec emax s m e) (cond_Ropp s (IZR (Z.pos m) * bpow e)).
Proof.
  intros Hlt. unfold binary_round, shl_align. set (f := fexp prec emax (Z.pos (digits2_pos m) + e)).
  destruct (f - e) as [|d|d] eqn:E.
  - apply round_aux_near; [done|done|cbn [Zdigits2]; fold f; lia|done].
  - apply round_aux_near; [done|done|cbn [Zdigits2]; fold f; lia|done].
  - assert (Z.pos (Pos.iter xO m d) = Z.pos m * 2 ^ Z.pos d) as Em.
    { rewrite <- Z.shiftl_mul_pow2 by lia. cbn [Z.shiftl]. by apply (Pos.iter_swap_gen _ _ Z.pos xO (Z.mul 2)). }
    assert (IZR (Z.pos m) * bpow e = IZR (Z.pos (Pos.iter xO m d)) * bpow f)%R as Ev.
    { rewrite Em, (bpow_shift _ e f) by lia. do 4 f_equal. lia. }
    rewrite Ev in *. apply round_aux_near; [done|done| |done]. cbn [Zdigits2].
    rewrite (digits2_pos_shift m _ (Z.pos d)) by (done || lia). replace (Z.pos (digits2_pos m) + Z.pos d + f) with (Z.pos (digits2_pos m) + e) by lia.
    fold f. lia.
Qed.

Lemma Rounds_zero s : Rounds prec emax (S754_zero s) 0.
Proof.
  exists 0%R. split; [by split|]. assert (representable prec (3 - emax - prec) 0) as Hr.
  { exists 0, (3 - emax - prec). split; [|split; [lia|ring]]. assert (0 < 2 ^ prec) by (apply Z.pow_pos_nonneg; lia). lia. }
  split; [done|]. intros z _. replace (0 - 0)%R with 0%R by ring. rewrite Rabs_R0. apply Rabs_pos.
Qed.

Lemma normalize_near m e s : (Rabs (IZR m * bpow e) < bpow (emax - 1))%R ->
  Rounds prec emax (binary_normalize prec emax m e s) (IZR m * bpow e).
Proof.
  intros Hlt. pose proof (bpow_pos e) as Hp. destruct m as [|m|m]; cbn [binary_normalize].
  - rewrite Rmult_0_l. apply Rounds_zero.
  - rewrite Rabs_mult, !Rabs_right in Hlt by (try apply IZR_ge; lra || lia). exact (binary_round_near false m e Hlt).
  - replace (IZR (Z.neg m) * bpow e)%R with (- (IZR (Z.pos m) * bpow e))%R in * by (rewrite <- Pos2Z.opp_pos, opp_IZR; ring).
    rewrite Rabs_Ropp, Rabs_mult, !Rabs_right in Hlt by (try apply IZR_ge; lra || lia). exact (binary_round_near true m e Hlt).
Qed.

(** A finite nonzero float: its mantissa is canonical. *)
Lemma valid_digits s m e : valid_binary prec emax (S754_finite s m e) = true ->
  emin <= e /\ Z.pos (digits2_pos m) <= prec /\ (emin < e -> Z.pos (digits2_pos m) = prec).
Proof.
  intros Hv. apply canonical_bounded in Hv. pose proof (canonical_digits prec emax m e ltac:(lia) Hv) as H. fold emin in H. lia.
Qed.

Lemma fval_sign s m e : fval (S754_finite s m e) = cond_Ropp s (IZR (Z.pos m) * bpow e)%R.
Proof. cbn [fval]. destruct s; cbn [cond_Zopp cond_Ropp]; [rewrite opp_IZR; ring|done]. Qed.

Lemma cond_Ropp_abs s x : Rabs (cond_Ropp s x) = Rabs x.
Proof. destruct s; [apply Rabs_Ropp|done]. Qed.

Lemma pos_abs m e : Rabs (IZR (Z.pos m) * bpow e) = (IZR (Z.pos m) * bpow e)%R.
Proof. apply Rabs_right. pose proof (bpow_pos e). assert (0 < IZR (Z.pos m))%R by (apply IZR_lt; lia). apply Rle_ge, Rmult_le_pos; lra. Qed.

Lemma SFmul_near x y a b : Fl prec emax x a -> Fl prec emax y b -> (Rabs (a * b) < bpow (emax - 1))%R ->
  Rounds prec emax (SFmul prec emax x y) (a * b).
Proof.
  intros (Hfx & Hvx & <-) (Hfy & Hvy & <-) Hlt. destruct x as [sx| | |sx mx ex], y as [sy| | |sy my ey]; try done.
  1-3: cbn [SFmul fval]; rewrite ?Rmult_0_l, ?Rmult_0_r; apply Rounds_zero.
  cbn [SFmul]. pose proof (valid_digits _ _ _ Hvx) as (Hx1 & Hx2 & Hx3). pose proof (valid_digits _ _ _ Hvy) as (Hy1 & Hy2 & Hy3).
  rewrite !fval_sign in *.
  replace (cond_Ropp sx (IZR (Z.pos mx) * bpow ex) * cond_Ropp sy (IZR (Z.pos my) * bpow ey))%R
    with (cond_Ropp (xorb sx sy) (IZR (Z.pos (mx * my)) * bpow (ex + ey)))%R in *
    by (rewrite Pos2Z.inj_mul, mult_IZR, bpow_add; destruct sx, sy; cbn [cond_Ropp xorb]; ring).
  rewrite cond_Ropp_abs, pos_abs in Hlt. apply round_aux_near; [done|done| |done].
  pose proof (digits2_pos_bounds mx) as Hdx. pose proof (digits2_pos_bounds my) as Hdy. pose proof (digits2_pos_bounds (mx * my)) as Hd.
  assert (Z.pos (digits2_pos mx) + Z.pos (digits2_pos my) - 2 < Z.pos (digits2_pos (mx * my))) as Hmul.
  { apply (Z.pow_lt_mono_r_iff 2); [lia|lia|]. replace (_ + _ - 2) with ((Z.pos (digits2_pos mx) - 1) + (Z.pos (digits2_pos my) - 1)) by lia.
    rewrite Z.pow_add_r by lia. rewrite Pos2Z.inj_mul in Hd. nia. }
  cbn [Zdigits2]. unfold fexp. change (SpecFloat.emin prec emax) with emin. lia.
Qed.

Lemma new_location_inb q r n : 0 < n -> 0 <= r < n -> inb q (new_location n r) (IZR q + IZR r / IZR n)%R.
Proof.
  intros Hn Hr. assert (0 < IZR n)%R as Hn' by (by apply IZR_lt). set (u := (IZR r / IZR n)%R).
  assert (u * IZR n = IZR r)%R as Hu by (unfold u; field; lra).
  assert (0 <= IZR r /\ IZR r < IZR n)%R as [Hr1 Hr2] by (split; [apply IZR_le|apply IZR_lt]; lia).
  destruct (Z.eq_dec r 0) as [->|Hr0].
  { assert (u = 0)%R as -> by (unfold u, Rdiv; ring). unfold new_location. destruct (Z.even n); cbn; ring. }
  assert (0 < IZR r)%R as Hr0' by (apply IZR_lt; lia).
  assert (2 * r < n -> inb q (loc_Inexact Lt) (IZR q + u)%R) as Hlt by (intros E%IZR_lt; rewrite mult_IZR in E; cbn; nra).
  assert (n < 2 * r -> inb q (loc_Inexact Gt) (IZR q + u)%R) as Hgt by (intros E%IZR_lt; rewrite mult_IZR in E; cbn; nra).
  unfold new_location, new_location_even, new_location_odd. destruct (Z.even n) eqn:Ev; rewrite (proj2 (Z.eqb_neq _ _) Hr0).
  - destruct (Z.compare_spec (2 * r) n) as [E|E|E]; [|by apply Hlt|by apply Hgt].
    cbn [inb]. apply (f_equal IZR) in E. rewrite mult_IZR in E. nra.
  - assert (2 * r <> n) as Hodd by (intros <-; by rewrite Z.even_mul in Ev).
    destruct (Z.compare_spec (2 * r + 1) n); [apply Hlt|apply Hlt|apply Hgt]; lia.
Qed.

Lemma shl_nonneg m k : 0 <= k -> match k with 0 => m | Z.pos _ => Z.shiftl m k | Z.neg _ => 0 end = m * 2 ^ k.
Proof. intros Hk. destruct k as [|k|k]; [by rewrite Z.mul_1_r|by rewrite Z.shiftl_mul_pow2|lia]. Qed.

Lemma SFdiv_near x y a b : Fl prec emax x a -> Fl prec emax y b -> b <> 0%R -> (Rabs (a / b) < bpow (emax - 1))%R ->
  Rounds prec emax (SFdiv prec emax x y) (a / b).
Proof.
  intros (Hfx & Hvx & <-) (Hfy & Hvy & <-) Hb Hlt. destruct x as [sx| | |sx mx ex], y as [sy| | |sy my ey]; try done.
  { cbn [SFdiv]. unfold Rdiv. cbn [fval]. rewrite Rmult_0_l. apply Rounds_zero. }
  cbn [SFdiv]. unfold SFdiv_core_binary. cbn [Zdigits2]. set (dx := Z.pos (digits2_pos mx)). set (dy := Z.pos (digits2_pos my)).
  set (e' := Z.min (fexp prec emax (dx + ex - (dy + ey))) (ex - ey)).
  assert (0 < IZR (Z.pos my))%R as Hmy by (apply IZR_lt; lia). assert (0 < IZR (Z.pos mx))%R as Hmx by (apply IZR_lt; lia).
  set (k := ex - ey - e'). assert (0 <= k) as Hk by lia.
  rewrite shl_nonneg by done.
  rewrite div_eucl_eq. set (q := Z.pos mx * 2 ^ k / Z.pos my). set (r := (Z.pos mx * 2 ^ k) mod Z.pos my).
  set (t := (IZR (Z.pos mx * 2 ^ k) / IZR (Z.pos my))%R).
  assert (Z.pos mx * 2 ^ k = Z.pos my * q + r /\ 0 <= r < Z.pos my) as [Hqr Hr] by (split; [apply Z.div_mod; lia|apply Z.mod_pos_bound; lia]).
  assert (t = IZR q + IZR r / IZR (Z.pos my))%R as Ht by (unfold t; rewrite Hqr, plus_IZR, mult_IZR; field; lra).
  assert (fval (S754_finite sx mx ex) / fval (S754_finite sy my ey) = cond_Ropp (xorb sx sy) (t * bpow e'))%R as Ev.
  { rewrite !fval_sign. assert (bpow ex = bpow k * bpow e' * bpow ey)%R as Ee by (rewrite <- !bpow_add; f_equal; lia).
    unfold t. rewrite mult_IZR, <- bpow_Z, Ee by lia. pose proof (bpow_pos ey).
    destruct sx, sy; cbn [cond_Ropp xorb]; field; lra. }
  rewrite Ev in *. rewrite cond_Ropp_abs in Hlt.
  apply round_aux_near; [apply Z.div_pos; lia|rewrite Ht; apply new_location_inb; [lia|done]| |eapply Rle_lt_trans; [apply Rle_abs|exact Hlt]].
  assert (dx - 1 + k - dy < 0 \/ 2 ^ (dx - 1 + k - dy) <= q) as Hq.
  { destruct (Z.lt_ge_cases (dx - 1 + k - dy) 0) as [|H0]; [by left|right]. unfold q. apply Z.div_le_lower_bound; [lia|].
    pose proof (digits2_pos_bounds mx) as Hdx. pose proof (digits2_pos_bounds my) as Hdy. fold dx in Hdx. fold dy in Hdy.
    apply Z.le_trans with (2 ^ dy * 2 ^ (dx - 1 + k - dy)); [apply Z.mul_le_mono_nonneg_r; [apply Z.pow_nonneg|]; lia|].
    rewrite <- Z.pow_add_r by lia. replace (dy + (dx - 1 + k - dy)) with (dx - 1 + k) by lia. rewrite Z.pow_add_r by lia.
    apply Z.mul_le_mono_nonneg_r; [apply Z.pow_nonneg|]; lia. }
  assert (0 <= q) as Hq0 by (apply Z.div_pos; lia).
  assert (dx + k - dy <= Zdigits2 q) as Hdq.
  { destruct Hq as [Hq|Hq].
    - destruct q; cbn [Zdigits2]; lia.
    - destruct (Z.lt_ge_cases (dx - 1 + k - dy) 0) as [H0|H0]; [destruct q; cbn [Zdigits2]; lia|].
      assert (0 < 2 ^ (dx - 1 + k - dy)) by (by apply Z.pow_pos_nonneg). destruct q as [|q'|q']; [lia|cbn [Zdigits2]|lia].
      pose proof (digits2_pos_bounds q') as Hdq'.
      assert (dx - 1 + k - dy < Z.pos (digits2_pos q')); [|lia]. apply (Z.pow_lt_mono_r_iff 2); lia. }
  unfold k in Hdq. clearbody q. fold dx dy. unfold e', fexp in *. change (SpecFloat.emin prec emax) with emin in *. lia.
Qed.

Lemma fval_representable x : is_finite x = true -> valid_binary prec emax x = true -> representable prec emin (fval x).
Proof.
  intros Hf Hv. destruct x as [s| | |s m e]; try done.
  - exists 0, emin. cbn [fval]. split; [|split; [lia|ring]]. assert (0 < 2 ^ prec) by (apply Z.pow_pos_nonneg; lia). lia.
  - pose proof (valid_digits _ _ _ Hv) as (H1 & H2 & _). exists (cond_Zopp s (Z.pos m)), e. split; [|split; [done|done]].
    pose proof (digits2_pos_bounds m) as Hd. assert (2 ^ Z.pos (digits2_pos m) <= 2 ^ prec) by (apply Z.pow_le_mono_r; lia).
    destruct s; cbn [cond_Zopp]; lia.
Qed.

Lemma nearest_refl x : representable prec emin x -> nearest prec emin x x.
Proof. intros Hx. split; [done|]. intros z _. rewrite Rminus_diag, Rabs_R0. apply Rabs_pos. Qed.

Lemma Rounds_exact x a : Fl prec emax x a -> Rounds prec emax x a.
Proof. intros (Hf & Hv & <-). exists (fval x). split; [by split|]. by apply nearest_refl, fval_representable. Qed.

Lemma align_scaled s m e ez : ez <= e ->
  (IZR (cond_Zopp s (Z.pos (fst (shl_align m e ez)))) * bpow ez)%R = fval (S754_finite s m e).
Proof.
  intros He. cbn [fval]. rewrite (bpow_shift _ e ez) by done. do 2 f_equal. unfold shl_align.
  destruct (ez - e) as [|d|d] eqn:E; [|lia|]; cbn [fst].
  - replace (e - ez) with 0 by lia. by rewrite Z.mul_1_r.
  - replace (e - ez) with (Z.pos d) by lia. assert (Z.pos (Pos.iter xO m d) = Z.pos m * 2 ^ Z.pos d) as ->.
    { rewrite <- Z.shiftl_mul_pow2 by lia. cbn [Z.shiftl]. by apply (Pos.iter_swap_gen _ _ Z.pos xO (Z.mul 2)). }
    destruct s; cbn [cond_Zopp]; lia.
Qed.

Lemma SFopp_Fl x a : Fl prec emax x a -> Fl prec emax (SFopp x) (- a).
Proof.
  intros (Hf & Hv & <-). destruct x as [s| | |s m e]; try done; (split; [done|split; [done|]]).
  - cbn. lra.
  - cbn [SFopp]. rewrite !fval_sign. destruct s; cbn [negb cond_Ropp]; ring.
Qed.

Lemma SFadd_near x y a b : Fl prec emax x a -> Fl prec emax y b -> (Rabs (a + b) < bpow (emax - 1))%R ->
  Rounds prec emax (SFadd prec emax x y) (a + b).
Proof.
  intros Hx Hy Hlt. pose proof Hx as (Hfx & Hvx & Ea). pose proof Hy as (Hfy & Hvy & Eb).
  destruct x as [sx| | |sx mx ex], y as [sy| | |sy my ey]; try done.
  - cbn in Ea, Eb. subst a b. rewrite Rplus_0_l. destruct sx, sy; apply Rounds_zero.
  - cbn in Ea. subst a. rewrite Rplus_0_l. by apply Rounds_exact.
  - cbn in Eb. subst b. rewrite Rplus_0_r. by apply Rounds_exact.
  - cbn [SFadd]. rewrite <- Ea, <- Eb, <- (align_scaled sx mx ex (Z.min ex ey)), <- (align_scaled sy my ey (Z.min ex ey)), <- Rmult_plus_distr_r, <- plus_IZR in * by lia.
    by apply normalize_near.
Qed.

Lemma SFsub_opp x y : is_nan y = false -> SFsub prec emax x y = SFadd prec emax x (SFopp y).
Proof.
  destruct x as [sx|sx| |sx mx ex], y as [sy|sy| |sy my ey]; try done; intros _; by destruct sx, sy.
Qed.

Lemma SFsub_near x y a b : Fl prec emax x a -> Fl prec emax y b -> (Rabs (a - b) < bpow (emax - 1))%R ->
  Rounds prec emax (SFsub prec emax x y) (a - b).
Proof.
  intros Hx Hy Hlt. pose proof Hy as (Hfy & _). rewrite SFsub_opp by (by destruct y). apply SFadd_near; [done|by apply SFopp_Fl|done].
Qed.

(** * Square roots *)

Lemma sqrt_inb m q r : 0 <= q -> m = q * q + r -> 0 <= r <= 2 * q ->
  inb q (if Z.eqb r 0 then loc_Exact else loc_Inexact (if Z.leb r q then Lt else Gt)) (sqrt (IZR m)).
Proof.
  intros Hq -> Hr. assert (0 <= IZR q)%R as Hq' by (by apply IZR_le).
  assert (0 <= IZR r <= 2 * IZR q)%R as Hr' by (rewrite <- mult_IZR; split; apply IZR_le; lia).
  rewrite plus_IZR, mult_IZR. set (t := sqrt _). assert (0 <= t)%R as Ht by apply sqrt_pos.
  assert (t * t = IZR q * IZR q + IZR r)%R as Htt by (apply sqrt_sqrt; nra).
  destruct (Z.eqb_spec r 0) as [->|H0]; cbn [inb]; [nra|]. assert (1 <= r) as H1%IZR_le by lia.
  destruct (Z.leb_spec r q) as [H2|H2]; cbn [inb].
  - apply IZR_le in H2. nra.
  - assert (q + 1 <= r) as H3%IZR_le by lia. rewrite plus_IZR in H3. nra.
Qed.

Lemma SFsqrt_near x a : Fl prec emax x a -> (0 <= a)%R -> (sqrt a < bpow (emax - 1))%R -> Rounds prec emax (SFsqrt prec emax x) (sqrt a).
Proof.
  intros (Hf & Hv & <-) Hpos Hlt. destruct x as [s| | |s m e]; try done.
  { cbn [fval SFsqrt]. rewrite sqrt_0. apply Rounds_zero. }
  pose proof (bpow_pos e) as Hpe. assert (0 < IZR (Z.pos m))%R as Hm by (apply IZR_lt; lia).
  destruct s; [exfalso; rewrite fval_sign in Hpos; cbn [cond_Ropp] in Hpos; nra|]. cbn [fval cond_Zopp] in *.
  cbn [SFsqrt]. unfold SFsqrt_core_binary. cbn [Zdigits2]. set (d := Z.pos (digits2_pos m)).
  set (e' := Z.min (fexp prec emax (Z.div2 (d + e + 1))) (Z.div2 e)).
  set (k := e - 2 * e').
  assert (0 <= k) as Hk by (pose proof (Z.div2_div e); pose proof (Z.div_mod e 2); pose proof (Z.mod_pos_bound e 2); lia).
  rewrite shl_nonneg by done. set (m' := Z.pos m * 2 ^ k). assert (0 < m') as Hm' by (apply Z.mul_pos_pos; [lia|by apply Z.pow_pos_nonneg]).
  pose proof (Z.sqrtrem_spec m' ltac:(lia)) as Hs. destruct (Z.sqrtrem m') as [q r]. destruct Hs as [Hqr Hr].
  assert (0 <= q) as Hq by nia.
  assert (sqrt (IZR (Z.pos m) * bpow e) = sqrt (IZR m') * bpow e')%R as Ev.
  { unfold m'. replace e with (k + (e' + e')) at 1 by lia. rewrite !bpow_add, mult_IZR, <- bpow_Z, <- Rmult_assoc by done.
    pose proof (bpow_pos e') as Hpe'. pose proof (bpow_pos k). rewrite sqrt_mult_alt, sqrt_square by nra. done. }
  rewrite Ev in *. apply (round_aux_near false); [done|by apply sqrt_inb| |done].
  assert ((d + k + 1) / 2 <= Zdigits2 q) as Hdq.
  { set (j := (d + k + 1) / 2). pose proof (Z.div_mod (d + k + 1) 2 ltac:(lia)) as Hj. pose proof (Z.mod_pos_bound (d + k + 1) 2 ltac:(lia)) as Hj'. fold j in Hj.
    pose proof (digits2_pos_bounds m) as Hd. fold d in Hd.
    assert (2 ^ (j - 1) <= q) as Hlow.
    { assert (2 ^ (j - 1) * 2 ^ (j - 1) <= m') as H2.
      { rewrite <- Z.pow_add_r by lia. apply Z.le_trans with (2 ^ (d - 1 + k)); [apply Z.pow_le_mono_r; lia|].
        rewrite Z.pow_add_r by lia. apply Z.mul_le_mono_nonneg_r; [apply Z.pow_nonneg|]; lia. }
      assert (0 <= 2 ^ (j - 1)) by (apply Z.pow_nonneg; lia). nia. }
    destruct q as [|q|q]; [assert (0 < 2 ^ (j - 1)) by (apply Z.pow_pos_nonneg; lia); lia| |lia].
    cbn [Zdigits2]. pose proof (digits2_pos_bounds q) as Hdq.
    assert (j - 1 < Z.pos (digits2_pos q)); [|lia]. apply (Z.pow_lt_mono_r_iff 2); lia. }
  assert ((d + k + 1) / 2 + e' = (d + e + 1) / 2) as Hk2.
  { replace (d + e + 1) with (d + k + 1 + e' * 2) by lia. rewrite Z.div_add by lia. done. }
  assert (e' <= fexp prec emax (Z.div2 (d + e + 1))) as Hle by lia. rewrite Z.div2_div, <- Hk2 in Hle.
  unfold fexp in *. change (SpecFloat.emin prec emax) with emin in *. lia.
Qed.

(** * Comparison *)

Lemma pos_compare m1 e1 m2 e2 s1 s2 : valid_binary prec emax (S754_finite s1 m1 e1) = true -> valid_binary prec emax (S754_finite s2 m2 e2) = true ->
  e1 < e2 -> (IZR (Z.pos m1) * bpow e1 < IZR (Z.pos m2) * bpow e2)%R.
Proof.
  intros H1 H2 Hlt. pose proof (valid_digits _ _ _ H1) as (Ha1 & Ha2 & _). pose proof (valid_digits _ _ _ H2) as (Hb1 & Hb2 & Hb3).
  pose proof (digits2_pos_bounds m1) as Hd1. pose proof (digits2_pos_bounds m2) as Hd2. specialize (Hb3 ltac:(lia)). rewrite Hb3 in Hd2.
  rewrite (bpow_shift (Z.pos m2) e2 e1) by lia. apply Rmult_lt_compat_r; [apply bpow_pos|]. apply IZR_lt.
  assert (2 ^ Z.pos (digits2_pos m1) <= 2 ^ prec) by (apply Z.pow_le_mono_r; lia).
  assert (2 ^ prec = 2 ^ (prec - 1) * 2) by (rewrite Z.mul_comm, <- Z.pow_succ_r by lia; f_equal; lia).
  assert (2 <= 2 ^ (e2 - e1)) by (replace (e2 - e1) with (1 + (e2 - e1 - 1)) by lia; rewrite Z.pow_add_r by lia;
    assert (0 < 2 ^ (e2 - e1 - 1)) by (apply Z.pow_pos_nonneg; lia); lia).
  nia.
Qed.

Lemma SFcompare_spec x y a b : Fl prec emax x a -> Fl prec emax y b ->
  SFcompare x y = Some (if Rlt_dec a b then Lt else if Rlt_dec b a then Gt else Eq).
Proof.
  intros (Hfx & Hvx & <-) (Hfy & Hvy & <-).
  assert (forall c, c = Lt /\ (fval x < fval y)%R \/ c = Gt /\ (fval y < fval x)%R \/ c = Eq /\ fval x = fval y ->
    Some c = Some (if Rlt_dec (fval x) (fval y) then Lt else if Rlt_dec (fval y) (fval x) then Gt else Eq)) as Hc.
  { intros c H. destruct (Rlt_dec (fval x) (fval y)), (Rlt_dec (fval y) (fval x)); destruct H as [[-> H]|[[-> H]|[-> H]]]; try done; lra. }
  assert (forall m e, 0 < IZR (Z.pos m) * bpow e)%R as Hpos.
  { intros m e. pose proof (bpow_pos e). apply Rmult_lt_0_compat; [|done]. apply IZR_lt. lia. }
  destruct x as [sx| | |sx mx ex], y as [sy| | |sy my ey]; try done; cbn [SFcompare]; apply Hc; rewrite ?fval_sign.
  - cbn. auto.
  - pose proof (Hpos my ey). destruct sy; cbn [cond_Ropp fval]; [right; left|left]; (split; [done|lra]).
  - pose proof (Hpos mx ex). destruct sx; cbn [cond_Ropp fval]; [left|right; left]; (split; [done|lra]).
  - pose proof (Hpos mx ex) as P1. pose proof (Hpos my ey) as P2.
    pose proof (fun H => pos_compare mx ex my ey sx sy Hvx Hvy H) as C1. pose proof (fun H => pos_compare my ey mx ex sy sx Hvy Hvx H) as C2.
    assert (ex = ey -> Pos.compare_cont Eq mx my = Lt /\ (IZR (Z.pos mx) * bpow ex < IZR (Z.pos my) * bpow ey)%R \/
      Pos.compare_cont Eq mx my = Gt /\ (IZR (Z.pos my) * bpow ey < IZR (Z.pos mx) * bpow ex)%R \/
      Pos.compare_cont Eq mx my = Eq /\ (IZR (Z.pos mx) * bpow ex = IZR (Z.pos my) * bpow ey)%R) as Ceq.
    { intros <-. change (Pos.compare_cont Eq mx my) with (Pos.compare mx my). destruct (Pos.compare_spec mx my) as [->|H|H]; [auto| |].
      - left. split; [done|]. apply Rmult_lt_compat_r; [apply bpow_pos|]. apply IZR_lt. lia.
      - right; left. split; [done|]. apply Rmult_lt_compat_r; [apply bpow_pos|]. apply IZR_lt. lia. }
    destruct sx, sy; cbn [cond_Ropp]; [|left; split; [done|lra]|right; left; split; [done|lra]|].
    all: destruct (Z.compare_spec ex ey) as [E|E|E]; [specialize (Ceq E) as [[-> H]|[[-> H]|[-> H]]]|specialize (C1 E)|specialize (C2 E)]; cbn [CompOpp].
    all: first [left; split; [done|lra] | right; left; split; [done|lra] | right; right; split; [done|lra]].
Qed.

Lemma SFltb_spec x y a b : Fl prec emax x a -> Fl prec emax y b -> SFltb x y = if Rlt_dec a b then true else false.
Proof. intros Hx Hy. unfold SFltb. rewrite (SFcompare_spec x y a b) by done. by destruct (Rlt_dec a b), (Rlt_dec b a). Qed.
End round.

(** * What nearest gives *)

Section nearest.
Context (prec emin : Z) (Hprec : 1 < prec).
#[local] Abbreviation nearest := (nearest prec emin).
#[local] Abbreviation representable := (representable prec emin).

Lemma nearest_le x y z : nearest x y -> representable z -> (x <= z -> y <= z)%R.
Proof. intros [_ H] Hz Hxz. specialize (H z Hz). revert H. unfold Rabs. destruct (Rcase_abs _), (Rcase_abs _); lra. Qed.

Lemma nearest_ge x y z : nearest x y -> representable z -> (z <= x -> z <= y)%R.
Proof. intros [_ H] Hz Hxz. specialize (H z Hz). revert H. unfold Rabs. destruct (Rcase_abs _), (Rcase_abs _); lra. Qed.

Lemma nearest_exact x y : nearest x y -> representable x -> y = x.
Proof. intros H Hx. pose proof (nearest_le x y x H Hx). pose proof (nearest_ge x y x H Hx). lra. Qed.

(** Rounding is monotone. *)
Lemma nearest_lt x1 x2 y1 y2 : nearest x1 y1 -> nearest x2 y2 -> (x1 < x2 -> y1 <= y2)%R.
Proof.
  intros [R1 H1] [R2 H2] Hx. specialize (H1 y2 R2). specialize (H2 y1 R1). revert H1 H2.
  unfold Rabs. destruct (Rcase_abs _), (Rcase_abs _), (Rcase_abs _), (Rcase_abs _); lra.
Qed.

(** The error is at most the spacing of the numbers below a bound. *)
Lemma nearest_error x y k : nearest x y -> emin + prec <= k -> (Rabs x <= bpow k)%R -> (Rabs (y - x) <= bpow (k - prec))%R.
Proof.
  intros [_ H] Hk Hx. pose proof (bpow_pos (k - prec)) as Hp. set (u := bpow (k - prec)) in *.
  set (n := Int_part (x / u)). assert (IZR n <= x / u < IZR n + 1)%R as Hn by (pose proof (base_Int_part (x / u)); unfold n; lra).
  assert (x = x / u * u)%R as Ex by (field; lra).
  assert (bpow k = IZR (2 ^ prec) * u)%R as Eb by (unfold u; rewrite <- bpow_Z, <- bpow_add by lia; f_equal; lia).
  assert (- bpow k <= x <= bpow k)%R as Hx' by (revert Hx; unfold Rabs; destruct (Rcase_abs x); lra).
  assert (- IZR (2 ^ prec) <= x / u <= IZR (2 ^ prec))%R as Hr by (split; apply (Rmult_le_reg_r u); lra).
  assert (Z.abs n <= 2 ^ prec) as Hmax.
  { assert (n <= 2 ^ prec) by (apply le_IZR; lra). assert (- 2 ^ prec < n + 1) by (apply lt_IZR; rewrite opp_IZR, plus_IZR; lra). lia. }
  specialize (H (IZR n * u)%R (representable_le prec emin n (k - prec) Hprec Hmax ltac:(lia))).
  apply Rle_trans with (1 := H). replace (IZR n * u - x)%R with ((IZR n - x / u) * u)%R by (rewrite Rmult_minus_distr_r, <- Ex; done).
  rewrite Rabs_mult, (Rabs_right u) by lra. apply Rle_trans with (1 * u)%R; [apply Rmult_le_compat_r; [lra|]|lra].
  unfold Rabs. destruct (Rcase_abs _); lra.
Qed.

Lemma representable_Z n : emin <= 0 -> Z.abs n <= 2 ^ prec -> representable (IZR n).
Proof. intros He Hn. rewrite <- (Rmult_1_r (IZR n)), <- bpow_0. by apply representable_le. Qed.
End nearest.

(** * Integers in [f64], and casts *)

Abbreviation F64 := (Fl 53 1024).
Abbreviation near64 := (nearest 53 (-1074)).

Lemma Rounds_F64 x r : Rounds 53 1024 x r -> exists y, F64 x y /\ near64 r y.
Proof. done. Qed.

(** An operation whose exact result is representable is exact. *)
Lemma Rounds_repr x r : Rounds 53 1024 x r -> representable 53 (-1074) r -> F64 x r.
Proof. intros (y & Hy & Hn) Hr. by rewrite <- (nearest_exact 53 (-1074) r y). Qed.

Lemma abs_lt_bpow (z : Z) (r : R) : 0 <= z -> z < 1023 -> (Rabs r <= bpow z)%R -> (Rabs r < bpow (1024 - 1))%R.
Proof.
  intros H0 Hz Hr. apply Rle_lt_trans with (1 := Hr). assert (bpow (z + 1) <= bpow (1024 - 1))%R as H by (apply bpow_le; lia).
  rewrite bpow_add, bpow_1 in H. pose proof (bpow_pos z). lra.
Qed.

Lemma IZR_le_bpow n z : 0 <= z -> Z.abs n <= 2 ^ z -> (Rabs (IZR n) <= bpow z)%R.
Proof. intros Hz Hn. rewrite <- abs_IZR, bpow_Z by done. by apply IZR_le. Qed.

Lemma normalize_exact n s : Z.abs n <= 2 ^ 53 -> F64 (binary_normalize 53 1024 n 0 s) (IZR n).
Proof.
  intros Hn. rewrite <- (Rmult_1_r (IZR n)), <- bpow_0. apply Rounds_repr.
  - apply normalize_near; [lia|lia|]. rewrite bpow_0, Rmult_1_r. apply (abs_lt_bpow 53); [lia|lia|]. apply IZR_le_bpow; [lia|done].
  - rewrite bpow_0, Rmult_1_r. apply representable_Z; [lia|lia|done].
Qed.

Lemma f64_of_Z_exact n : Z.abs n <= 2 ^ 53 -> F64 (f64_of_Z n) (IZR n).
Proof. apply normalize_exact. Qed.

(** The integer part of a finite float's magnitude. *)
Lemma magnitude_floor (m : positive) e : let q := if 0 <=? e then Z.pos m * 2 ^ e else Z.pos m / 2 ^ (- e) in
  0 <= q /\ (IZR q <= IZR (Z.pos m) * bpow e < IZR q + 1)%R.
Proof.
  cbv zeta. destruct (Z.leb_spec 0 e) as [He|He].
  - rewrite mult_IZR, <- bpow_Z by done. assert (0 < 2 ^ e) by (by apply Z.pow_pos_nonneg). split; [lia|lra].
  - assert (0 < 2 ^ (- e)) as Hd by (apply Z.pow_pos_nonneg; lia). split; [apply Z.div_pos; lia|].
    pose proof (Z.div_mod (Z.pos m) (2 ^ (- e)) ltac:(lia)) as Hq. pose proof (Z.mod_pos_bound (Z.pos m) (2 ^ (- e)) Hd) as Hr.
    set (q := Z.pos m / 2 ^ (- e)) in *. set (r := Z.pos m mod 2 ^ (- e)) in *.
    assert (bpow (- e) * bpow e = 1)%R as Hinv by (rewrite <- bpow_add, <- bpow_0; f_equal; lia).
    rewrite Hq, plus_IZR, mult_IZR, <- bpow_Z by lia. pose proof (bpow_pos e) as Hp.
    assert (0 <= IZR r)%R as H0 by (apply IZR_le; lia). assert (IZR r < bpow (- e))%R as H1 by (rewrite bpow_Z by lia; apply IZR_lt; lia).
    assert (IZR r * bpow e < 1)%R as H2 by (rewrite <- Hinv; by apply Rmult_lt_compat_r).
    replace ((bpow (- e) * IZR q + IZR r) * bpow e)%R with (IZR q * (bpow (- e) * bpow e) + IZR r * bpow e)%R by ring.
    rewrite Hinv. assert (0 <= IZR r * bpow e)%R by (apply Rmult_le_pos; lra). lra.
Qed.

(** [as] on a value in range is the integer part. *)
Lemma f64_as_floor lo hi x a : lo <= 0 -> F64 x a -> (0 <= a < IZR hi + 1)%R ->
  0 <= f64_as lo hi x /\ (IZR (f64_as lo hi x) <= a < IZR (f64_as lo hi x) + 1)%R.
Proof.
  intros Hlo (Hf & Hv & <-) Ha. destruct x as [s| | |s m e]; try done.
  { cbn. split; [lia|lra]. }
  destruct (magnitude_floor m e) as [Hq0 Hq]. rewrite fval_sign in *. unfold f64_as.
  set (q := if 0 <=? e then _ else _) in *. clearbody q.
  assert (0 <= IZR q)%R as Hq1 by (by apply IZR_le).
  assert (0 < IZR (Z.pos m) * bpow e)%R as Hp by (apply Rmult_lt_0_compat; [by apply IZR_lt|apply bpow_pos]).
  destruct s; cbn [cond_Ropp cond_Zopp] in *; [lra|].
  assert (q < hi + 1) as Hhi by (apply lt_IZR; rewrite plus_IZR; lra).
  replace (Z.max lo (Z.min hi q)) with q by lia. done.
Qed.

Lemma f64_as_neg lo hi x a : lo <= 0 -> 0 <= hi -> F64 x a -> (a < 0)%R -> f64_as lo hi x <= 0.
Proof.
  intros Hlo Hhi (Hf & Hv & <-) Ha. destruct x as [s| | |s m e]; try done.
  destruct (magnitude_floor m e) as [Hq0 Hq]. rewrite fval_sign in *. unfold f64_as.
  set (q := if 0 <=? e then _ else _) in *. clearbody q.
  assert (0 < IZR (Z.pos m) * bpow e)%R as Hp by (apply Rmult_lt_0_compat; [by apply IZR_lt|apply bpow_pos]).
  destruct s; cbn [cond_Ropp cond_Zopp] in *; [lia|lra].
Qed.

Lemma f64_as_integer lo hi x n : lo <= 0 -> F64 x (IZR n) -> 0 <= n <= hi -> f64_as lo hi x = n.
Proof.
  intros Hlo Hx Hn. destruct (f64_as_floor lo hi x (IZR n) Hlo Hx) as [_ [H1 H2]].
  { rewrite <- plus_IZR. split; [apply IZR_le|apply IZR_lt]; lia. }
  apply le_IZR in H1. rewrite <- plus_IZR in H2. apply lt_IZR in H2. lia.
Qed.

(** ** Rounding to an integer *)

(** What a division [g] does to a fraction, as a relation on the real [n / d]. *)
Definition divides_as (g : Z -> Z -> Z) (P : R -> Z -> Prop) : Prop :=
  (forall n d t, 0 < d -> (t * IZR d = IZR n)%R -> P t (g n d)) /\ (forall n, P (IZR n) n) /\
  (forall t n, P t n -> (IZR n - 1 <= t <= IZR n + 1)%R).

Lemma f64_integral_spec g P x a : divides_as g P -> F64 x a -> (Rabs a <= bpow 52)%R ->
  exists n, F64 (f64_integral g x) (IZR n) /\ P a n.
Proof.
  intros (Hg & HP & Hc) (Hf & Hv & <-) Ha. destruct x as [s| | |s m e]; try done.
  { exists 0. split; [by split|apply (HP 0)]. }
  cbn [f64_integral]. destruct (Z.leb_spec 0 e) as [He|He].
  - exists (cond_Zopp s (Z.pos m) * 2 ^ e). cbn [fval]. rewrite mult_IZR, <- bpow_Z by done.
    split; [by split|]. rewrite bpow_Z, <- mult_IZR by done. apply HP.
  - pose proof (bpow_pos e) as Hp. assert (bpow e * bpow (- e) = 1)%R as Hinv by (rewrite <- bpow_add, <- bpow_0; f_equal; lia).
    assert (P (fval (S754_finite s m e)) (g (cond_Zopp s (Z.pos m)) (2 ^ (- e)))) as HP'.
    { apply Hg; [apply Z.pow_pos_nonneg; lia|]. rewrite <- bpow_Z by lia. cbn [fval]. rewrite Rmult_assoc, Hinv. ring. }
    eexists. split; [|exact HP']. apply normalize_exact.
    apply Hc in HP'. set (n := g _ _) in *. assert (- bpow 52 <= fval (S754_finite s m e) <= bpow 52)%R as Hr.
    { revert Ha. unfold Rabs. destruct (Rcase_abs _); lra. }
    rewrite bpow_Z in Hr by lia. assert (IZR n <= IZR (2 ^ 52) + 1)%R as H1 by lra. assert (- IZR (2 ^ 52) - 1 <= IZR n)%R as H2 by lra.
    rewrite <- plus_IZR in H1. apply le_IZR in H1. rewrite <- opp_IZR, <- minus_IZR in H2. apply le_IZR in H2. lia.
Qed.

Lemma floor_divides : divides_as Z.div (fun t n => (IZR n <= t < IZR n + 1)%R).
Proof.
  split; [|split]; [|intros; lra|intros; lra]. intros n d t Hd Ht.
  pose proof (Z.div_mod n d ltac:(lia)) as Hq. pose proof (Z.mod_pos_bound n d Hd) as Hr.
  set (q := n / d) in *. set (r := n mod d) in *. rewrite Hq, plus_IZR, mult_IZR in Ht.
  assert (0 < IZR d)%R as Hd' by (by apply IZR_lt). assert (0 <= IZR r < IZR d)%R as Hr' by (split; [apply IZR_le|apply IZR_lt]; lia).
  split; [apply (Rmult_le_reg_r (IZR d))|apply (Rmult_lt_reg_r (IZR d))]; nra.
Qed.

Lemma ceil_divides : divides_as ceil_div (fun t n => (IZR n - 1 < t <= IZR n)%R).
Proof.
  split; [|split]; [|intros; lra|intros; lra]. intros n d t Hd Ht. unfold ceil_div. rewrite opp_IZR.
  assert (- t * IZR d = IZR (- n))%R as Ht' by (rewrite opp_IZR; lra).
  pose proof (proj1 floor_divides (- n) d (- t)%R Hd Ht') as H. cbv beta in H. lra.
Qed.

Lemma round_even_divides : divides_as round_even_div (fun t n => (Rabs (IZR n - t) <= 1 / 2)%R).
Proof.
  split; [|split].
  - intros n d t Hd Ht. unfold round_even_div.
    pose proof (Z.div_mod n d ltac:(lia)) as Hq. pose proof (Z.mod_pos_bound n d Hd) as Hr.
    set (q := n / d) in *. set (r := n mod d) in *. rewrite Hq, plus_IZR, mult_IZR in Ht.
    assert (0 < IZR d)%R as Hd' by (by apply IZR_lt). assert (0 <= IZR r < IZR d)%R as Hr' by (split; [apply IZR_le|apply IZR_lt]; lia).
    assert ((t - IZR q) * IZR d = IZR r)%R as Ht' by lra. set (u := (t - IZR q)%R) in *.
    assert (2 * r <= d -> (u <= 1 / 2)%R) as Hlo by (intros H%IZR_le; rewrite mult_IZR in H; nra).
    assert (d <= 2 * r -> (1 / 2 <= u)%R) as Hhi by (intros H%IZR_le; rewrite mult_IZR in H; nra).
    assert (0 <= u < 1)%R as Hu by nra.
    destruct (_ || _) eqn:Hc.
    + assert (2 * r <= d) as H by (destruct (Z.even q); lia). specialize (Hlo H). unfold u in *. rewrite Rabs_left1; lra.
    + assert (d <= 2 * r) as H by (destruct (Z.even q); lia). specialize (Hhi H). unfold u in *. rewrite plus_IZR, Rabs_right; lra.
  - intros n. rewrite Rminus_diag, Rabs_R0. lra.
  - intros t n. unfold Rabs. destruct (Rcase_abs _); lra.
Qed.

(** [2f64.powi(e)], and an integer times it. *)
Lemma f64_powi2_exact e : -1074 <= e <= 1022 -> F64 (f64_powi2 e) (bpow e).
Proof.
  intros He. pose proof (bpow_pos e) as Hp. rewrite <- (Rmult_1_l (bpow e)). apply Rounds_repr; [|apply representable_le; lia].
  apply normalize_near; [lia|lia|]. rewrite Rmult_1_l, Rabs_right by lra.
  apply Rlt_le_trans with (bpow (e + 1)); [rewrite bpow_add, bpow_1; lra|apply bpow_le; lia].
Qed.

Lemma f64_scaled_exact m e : Z.abs m <= 2 ^ 53 -> -1074 <= e <= 900 -> F64 (f64_mul (f64_of_Z m) (f64_powi2 e)) (IZR m * bpow e).
Proof.
  intros Hm He. pose proof (bpow_pos e) as Hp. apply Rounds_repr; [|apply representable_le; lia].
  apply SFmul_near; [lia|lia|by apply f64_of_Z_exact|apply f64_powi2_exact; lia|].
  apply (abs_lt_bpow (53 + 900)); [lia|lia|]. rewrite Rabs_mult, (Rabs_right (bpow e)), bpow_add by lra.
  apply Rmult_le_compat; [apply Rabs_pos|lra|apply IZR_le_bpow; lia|apply bpow_le; lia].
Qed.

(** * Relative errors *)

(** [y] is [x] up to a relative error [d]. *)
Definition close (d x y : R) : Prop := ((1 - d) * x <= y <= (1 + d) * x)%R.

Section close.
Local Open Scope R_scope.

Lemma close_refl x : 0 <= x -> close 0 x x.
Proof. unfold close. lra. Qed.

Lemma close_weaken d d' x y : 0 <= x -> d <= d' -> close d x y -> close d' x y.
Proof. unfold close. intros. nra. Qed.

Lemma close_pos d x y : 0 < x -> d < 1 -> close d x y -> 0 < y.
Proof. unfold close. intros. nra. Qed.

Lemma close_trans d e x y z : 0 <= x -> 0 <= d <= 1 -> 0 <= e <= 1 -> close d x y -> close e y z -> close (d + e + d * e) x z.
Proof.
  unfold close. intros Hx Hd He Hy Hz. assert (0 <= (1 - d) * x) by (apply Rmult_le_pos; lra). split.
  - apply Rle_trans with ((1 - e) * ((1 - d) * x)); [nra|]. apply Rle_trans with ((1 - e) * y); [apply Rmult_le_compat_l; lra|lra].
  - apply Rle_trans with ((1 + e) * y); [lra|]. apply Rle_trans with ((1 + e) * ((1 + d) * x)); [apply Rmult_le_compat_l; lra|lra].
Qed.

Lemma close_mul d e x y u v : 0 <= x -> 0 <= u -> 0 <= d <= 1 -> 0 <= e <= 1 -> close d x y -> close e u v -> close (d + e + d * e) (x * u) (y * v).
Proof.
  unfold close. intros Hx Hu Hd He Hy Hv.
  assert (0 <= (1 - d) * x) by (apply Rmult_le_pos; lra). assert (0 <= (1 - e) * u) by (apply Rmult_le_pos; lra).
  assert (0 <= x * u) by (by apply Rmult_le_pos). assert (0 <= d * e) by (apply Rmult_le_pos; lra). split.
  - apply Rle_trans with ((1 - d) * x * ((1 - e) * u)); [nra|]. apply Rmult_le_compat; lra.
  - apply Rle_trans with ((1 + d) * x * ((1 + e) * u)); [apply Rmult_le_compat; lra|nra].
Qed.

Lemma close_div d x y c : 0 < c -> 0 < x -> 0 <= d <= 1 / 4 -> 0 < y -> close d x y -> close (2 * d) (c / x) (c / y).
Proof.
  unfold close. intros Hc Hx Hd Hy [H1 H2]. assert (c / y = c / x * (x / y)) as -> by (field; lra).
  assert (0 < c / x) by (apply Rmult_lt_0_compat; [done|by apply Rinv_0_lt_compat]).
  assert (x / y * y = x) as Hxy by (field; lra). set (k := x / y) in *.
  assert (1 - 2 * d <= k <= 1 + 2 * d) as Hk; [|nra].
  assert (0 < k) by (apply Rmult_lt_0_compat; [done|by apply Rinv_0_lt_compat]).
  split; [assert (x <= k * ((1 + d) * x)) by nra|assert (k * ((1 - d) * x) <= x) by nra].
  - assert (1 <= k * (1 + d)) by (apply (Rmult_le_reg_r x); lra). nra.
  - assert (k * (1 - d) <= 1) by (apply (Rmult_le_reg_r x); lra). nra.
Qed.

Lemma close_sqrt d x y : 0 <= x -> 0 <= d <= 1 -> close d x y -> close d (sqrt x) (sqrt y).
Proof.
  unfold close. intros Hx Hd Hy. assert (0 <= y) by nra. pose proof (sqrt_pos x). pose proof (sqrt_pos y).
  pose proof (sqrt_sqrt x Hx) as Ex. pose proof (sqrt_sqrt y ltac:(done)) as Ey. split.
  - apply Rnot_lt_le. intros Hlt. assert (0 <= (1 - d) * sqrt x) by (apply Rmult_le_pos; lra).
    assert (sqrt y * sqrt y < (1 - d) * sqrt x * ((1 - d) * sqrt x)) by nra.
    assert ((1 - d) * sqrt x * ((1 - d) * sqrt x) = (1 - d) * (1 - d) * x) by (rewrite <- Ex at 3; ring). nra.
  - apply Rnot_lt_le. intros Hlt. assert (0 <= (1 + d) * sqrt x) by (apply Rmult_le_pos; lra).
    assert ((1 + d) * sqrt x * ((1 + d) * sqrt x) < sqrt y * sqrt y) by nra.
    assert ((1 + d) * sqrt x * ((1 + d) * sqrt x) = (1 + d) * (1 + d) * x) by (rewrite <- Ex at 3; ring). nra.
Qed.
End close.

(** A binade around a real. *)
Lemma binade lo n x : (bpow lo <= x <= bpow (lo + Z.of_nat n))%R -> n <> O -> exists k, lo <= k /\ (bpow k <= x <= bpow (k + 1))%R.
Proof.
  intros [H1 H2] Hn. induction n as [|n IH]; [done|].
  destruct (Rle_dec x (bpow (lo + Z.of_nat n))) as [Hle|Hgt].
  - destruct n as [|n]; [|by apply IH]. exists lo. split; [lia|]. rewrite Z.add_0_r in Hle. assert (bpow lo <= bpow (lo + 1))%R by (apply bpow_le; lia). lra.
  - exists (lo + Z.of_nat n). split; [lia|]. replace (lo + Z.of_nat n + 1) with (lo + Z.of_nat (S n)) by lia. lra.
Qed.

(** The values the image code computes with: far from underflow and overflow. *)
Definition moderate (x : R) : Prop := (/ IZR (2 ^ 90) <= x <= IZR (2 ^ 90))%R.
Definition tiny : R := (/ 1000000000000)%R.

Lemma moderate_bpow x : moderate x -> (bpow (-90) <= x <= bpow 90)%R.
Proof.
  unfold moderate. rewrite <- bpow_Z by lia. replace (/ bpow 90)%R with (bpow (-90)); [done|].
  apply (Rmult_eq_reg_r (bpow 90)); [|pose proof (bpow_pos 90); lra]. rewrite <- bpow_add, Rinv_l; [done|pose proof (bpow_pos 90); lra].
Qed.

Lemma nearest_close x y : moderate x -> near64 x y -> close tiny x y.
Proof.
  intros Hx%moderate_bpow Hn. destruct (binade (-90) 180 x) as (k & Hk & Hlo & Hhi); [done|done|].
  pose proof (bpow_pos k) as Hp. pose proof (nearest_error 53 (-1074) ltac:(lia) x y (k + 1) Hn ltac:(lia)) as He.
  rewrite Rabs_right in He by lra. specialize (He Hhi). replace (k + 1 - 53) with (k + -52) in He by lia. rewrite bpow_add in He.
  assert (bpow (-52) <= tiny)%R as Ht.
  { unfold tiny. apply (Rmult_le_reg_r (bpow 52)); [apply bpow_pos|]. rewrite <- bpow_add. change (bpow (-52 + 52)) with 1%R. rewrite bpow_Z by lia. lra. }
  assert (Rabs (y - x) <= x * tiny)%R as Ha.
  { apply Rle_trans with (1 := He). pose proof (bpow_pos (-52)). apply Rmult_le_compat; lra. }
  unfold close. revert Ha. unfold Rabs. destruct (Rcase_abs _); lra.
Qed.

Lemma moderate_lt x : moderate x -> (Rabs x < bpow (1024 - 1))%R.
Proof.
  intros Hx%moderate_bpow. pose proof (bpow_pos (-90)). apply (abs_lt_bpow 90); [lia|lia|]. rewrite Rabs_right; lra.
Qed.

Lemma Rounds_close x r : moderate r -> Rounds 53 1024 x r -> exists y, F64 x y /\ close tiny r y.
Proof. intros Hr (y & Hy & Hn). exists y. split; [done|]. by apply nearest_close. Qed.

Lemma f64_div_close x y a b : moderate (a / b) -> b <> 0%R -> F64 x a -> F64 y b -> exists z, F64 (f64_div x y) z /\ close tiny (a / b) z.
Proof. intros Hm Hb Hx Hy. apply Rounds_close; [done|]. apply SFdiv_near; [lia|lia|done|done|done|by apply moderate_lt]. Qed.

Lemma f64_mul_close x y a b : moderate (a * b) -> F64 x a -> F64 y b -> exists z, F64 (f64_mul x y) z /\ close tiny (a * b) z.
Proof. intros Hm Hx Hy. apply Rounds_close; [done|]. apply SFmul_near; [lia|lia|done|done|by apply moderate_lt]. Qed.

Lemma f64_sqrt_close x a : moderate (sqrt a) -> (0 <= a)%R -> F64 x a -> exists z, F64 (f64_sqrt x) z /\ close tiny (sqrt a) z.
Proof.
  intros Hm Ha Hx. apply Rounds_close; [done|]. apply SFsqrt_near; [lia|lia|done|done|].
  pose proof (moderate_lt _ Hm) as H. rewrite Rabs_right in H; [done|]. pose proof (sqrt_pos a). lra.
Qed.

(** * Monotone computations *)

(** Equal values are the same float, or zeros of either sign. *)
Lemma Fl_inj prec emax x y a : 1 < prec -> Fl prec emax x a -> Fl prec emax y a -> x = y \/ exists s s', x = S754_zero s /\ y = S754_zero s'.
Proof.
  intros Hp Hx Hy. pose proof (SFcompare_spec prec emax Hp x y a a Hx Hy) as Hc.
  destruct (Rlt_dec a a); [lra|]. destruct Hx as (Hfx & Hvx & _), Hy as (Hfy & Hvy & _).
  destruct x as [sx| | |sx mx ex], y as [sy| | |sy my ey]; try done; [by right; exists sx, sy|by destruct sy|by destruct sx|].
  cbn [SFcompare] in Hc. change (Pos.compare_cont Eq mx my) with (Pos.compare mx my) in Hc. left.
  destruct sx, sy; try done; destruct (Z.compare_spec ex ey) as [->|?|?]; try done; destruct (Pos.compare_spec mx my) as [->|?|?]; done.
Qed.

(** A rounded operation keeps the order of values: [f] rounds the increasing [g]. *)
Lemma rounded_mono (f : spec_float -> spec_float) (g : R -> R) x y a b ra rb :
  (forall s s', f (S754_zero s) = f (S754_zero s')) -> (a < b -> g a < g b)%R ->
  F64 x a -> F64 y b -> (a <= b)%R -> F64 (f x) ra -> near64 (g a) ra -> F64 (f y) rb -> near64 (g b) rb -> (ra <= rb)%R.
Proof.
  intros Hz Hg Hx Hy Hab Hfx Hna Hfy Hnb. destruct (Rle_lt_or_eq_dec a b Hab) as [Hlt|<-].
  - by apply (nearest_lt 53 (-1074) (g a) (g b)); auto.
  - assert (f x = f y) as E by (destruct (Fl_inj 53 1024 x y a ltac:(lia) Hx Hy) as [->|(s & s' & -> & ->)]; auto).
    rewrite E in Hfx. destruct Hfx as (_ & _ & <-), Hfy as (_ & _ & <-). lra.
Qed.

(** [as] keeps it too. *)
Lemma f64_as_mono lo hi x y a b : lo <= 0 <= hi -> F64 x a -> F64 y b -> (a <= b)%R -> (b < IZR hi + 1)%R ->
  Z.max (f64_as lo hi x) 0 <= Z.max (f64_as lo hi y) 0.
Proof.
  intros Hr Hx Hy Hab Hb. destruct (Rlt_dec a 0) as [Ha|Ha].
  - pose proof (f64_as_neg lo hi x a ltac:(lia) ltac:(lia) Hx Ha). lia.
  - destruct (f64_as_floor lo hi x a ltac:(lia) Hx ltac:(lra)) as [H1 H2]. destruct (f64_as_floor lo hi y b ltac:(lia) Hy ltac:(lra)) as [H3 H4].
    assert (f64_as lo hi x < f64_as lo hi y + 1); [|lia]. apply lt_IZR. rewrite plus_IZR. lra.
Qed.

(** ** [f32] sizes *)

Lemma f32_of_Z_exact n : 0 <= n <= 2 ^ 24 -> Fl 24 128 (f32_of_Z n) (IZR n).
Proof.
  intros Hn. assert (representable 24 (3 - 128 - 24) (IZR n)) as Hrep by (apply representable_Z; lia).
  assert (Rounds 24 128 (f32_of_Z n) (IZR n)) as (y & Hy & Hnear).
  { rewrite <- (Rmult_1_r (IZR n)), <- bpow_0. apply normalize_near; [lia|lia|]. rewrite bpow_0, Rmult_1_r.
    apply Rle_lt_trans with (bpow 24); [apply IZR_le_bpow; lia|]. assert (bpow 25 <= bpow (128 - 1))%R as H by (apply bpow_le; lia).
    change 25 with (24 + 1) in H. rewrite bpow_add, bpow_1 in H. pose proof (bpow_pos 24). lra. }
  by rewrite <- (nearest_exact 24 (3 - 128 - 24) (IZR n) y Hnear Hrep).
Qed.

Lemma f64_of_f32_value x a : Fl 24 128 x a -> F64 (f64_of_f32 x) a.
Proof.
  intros (Hf & Hv & <-). destruct x as [s| | |s m e]; try done.
  destruct (f64_of_f32_finite s m e Hv) as (m' & e' & -> & Hc & He & Hm). split; [done|]. split; [by apply f64_valid_finite|].
  cbn [fval]. rewrite (bpow_shift _ e e') by done. do 2 f_equal. destruct s; cbn [cond_Zopp]; lia.
Qed.
