(* ===== verification/E4m3.v ===== *)
(** [crates/mimo26-load/src/e4m3.rs]: the FP8 E4M3 codec.  A code is a byte
    [s eeee mmm] with bias 7 and no infinities; [f64] values are binary64
    [spec_float]s, and the encoder works on their bit patterns as the source does.

    The E4M3 codec rounds to the nearest code.  Magnitudes are compared in units
    of [2 ^ -1074], where every binary64 and every E4M3 value is an integer. *)
From Stdlib Require Import ZArith Lia Bool SpecFloat.
From stdpp Require Import base list gmap strings.
From S2P Require Import Prelude Floats.

(** * Definitions *)

Definition E4M3_MAX : spec_float := f64_of_Z 448.

Definition decode_e4m3 (code : Z) : spec_float :=
  if (code =? 0x7F) || (code =? 0xFF) then S754_nan
  else
    let s := if Z.land code 0x80 =? 0 then f64_of_Z 1 else f64_of_Z (-1) in
    let e := Z.land (Z.shiftr code 3) 0x0F in
    let m := f64_of_Z (Z.land code 0x07) in
    let val :=
      if e =? 0 then f64_mul (f64_div m (f64_of_Z 8)) (f64_powi2 (-6))
      else f64_mul (f64_add (f64_of_Z 1) (f64_div m (f64_of_Z 8))) (f64_powi2 (e - 7)) in
    f64_mul s val.

Definition decode_table : list spec_float := decode_e4m3 <$> seqZ 0 256.

(** [x as u8] of a rounded [f64]: saturating. *)
Definition as_u8 (z : Z) : Z := Z.max 0 (Z.min 255 z).

Definition clamp (z lo hi : Z) : Z := Z.max lo (Z.min hi z).

Definition encode_e4m3 (value : spec_float) : Z :=
  let v := if is_nan value then S754_zero false else value in
  let mag := f64_min (SFabs v) E4M3_MAX in
  let sign := if SFltb v (S754_zero false) then 0x80 else 0 in
  if SFeqb mag (S754_zero false) then sign
  else
    let bits := f64_to_bits mag in
    let exp := Z.land (Z.shiftr bits 52) 0x7FF in
    let mant := Z.land bits 0x000FFFFFFFFFFFFF in
    if exp <? 1017 then
      let m := as_u8 (f64_round_Z (f64_mul mag (f64_of_Z 512))) in
      if m >=? 8 then Z.lor sign 0x08 else Z.lor sign m
    else
      let e := exp - 1016 in
      let m := Z.shiftr (mant + 0x0001000000000000) 49 in
      let '(e, m) := if m >=? 8 then (e + 1, 0) else (e, m) in
      let e := clamp e 1 15 in
      let m := clamp m 0 7 in
      Z.lor (Z.lor sign (Z.shiftl e 3)) m.

(** The value of magnitude code [c]. *)
Definition e4m3_units (c : Z) : Z :=
  if c / 8 =? 0 then c * 2 ^ 1065 else (8 + c mod 8) * 2 ^ (c / 8 + 1064).

Definition MAX_UNITS : Z := 448 * 2 ^ 1074.

Lemma e4m3_units_split e k :
  1 <= e -> 0 <= k <= 8 -> e4m3_units (8 * e + k) = (8 + k) * 2 ^ (e + 1064).
Proof.
  intros He Hk. unfold e4m3_units. destruct (Z.eq_dec k 8) as [->|Hne].
  - replace ((8 * e + 8) / 8) with (e + 1) by (apply (Z.div_unique _ _ _ 0); lia).
    replace ((8 * e + 8) mod 8) with 0 by (apply (Z.mod_unique _ _ (e + 1)); lia).
    rewrite (proj2 (Z.eqb_neq _ _)) by lia.
    replace (e + 1 + 1064) with (1 + (e + 1064)) by lia. rewrite Z.pow_add_r by lia. lia.
  - replace ((8 * e + k) / 8) with e by (apply (Z.div_unique _ _ _ k); lia).
    replace ((8 * e + k) mod 8) with k by (apply (Z.mod_unique _ _ e); lia).
    by rewrite (proj2 (Z.eqb_neq _ _)) by lia.
Qed.

Lemma e4m3_units_small c : 0 <= c <= 8 -> e4m3_units c = c * 2 ^ 1065.
Proof.
  intros Hc. destruct (Z.eq_dec c 8) as [->|Hne]; [done|].
  unfold e4m3_units. by rewrite Z.div_small by lia.
Qed.

(** Consecutive codes. *)
Lemma e4m3_units_step c : 0 <= c -> e4m3_units c < e4m3_units (c + 1).
Proof.
  intros Hc. destruct (Z.lt_ge_cases c 8).
  { rewrite !e4m3_units_small by lia. apply Z.mul_lt_mono_pos_r; [|lia].
    apply Z.pow_pos_nonneg; lia. }
  pose proof (Z.div_mod c 8 ltac:(lia)) as Hdm. pose proof (Z.mod_pos_bound c 8 ltac:(lia)).
  assert (1 <= c / 8) by (apply Z.div_le_lower_bound; lia).
  rewrite Hdm, e4m3_units_split by lia.
  replace (8 * (c / 8) + c mod 8 + 1) with (8 * (c / 8) + (c mod 8 + 1)) by lia.
  rewrite e4m3_units_split by lia.
  apply Z.mul_lt_mono_pos_r; [|lia]. apply Z.pow_pos_nonneg; lia.
Qed.

Lemma e4m3_units_mono c d : 0 <= c -> c <= d -> e4m3_units c <= e4m3_units d.
Proof.
  intros Hc Hd. replace d with (c + (d - c)) by lia.
  assert (0 <= d - c) as Hn by lia. revert Hn. generalize (d - c).
  apply natlike_ind; [rewrite Z.add_0_r; lia|].
  intros x Hx IH. pose proof (e4m3_units_step (c + x)).
  replace (c + Z.succ x) with (c + x + 1) by lia. lia.
Qed.

(** Nearest among all magnitude codes up to [top], ties to the larger code. *)
Definition nearest (u c top : Z) : Prop :=
  0 <= c <= top /\
  forall d, 0 <= d <= top ->
    Z.abs (u - e4m3_units c) < Z.abs (u - e4m3_units d) \/
    Z.abs (u - e4m3_units c) = Z.abs (u - e4m3_units d) /\ d <= c.

(** It is enough to be nearer than both neighbours. *)
Lemma nearest_neighbours u c top :
  0 <= c <= top ->
  (0 < c -> Z.abs (u - e4m3_units c) <= u - e4m3_units (c - 1)) ->
  (c < top -> Z.abs (u - e4m3_units c) < e4m3_units (c + 1) - u) ->
  nearest u c top.
Proof.
  intros Hc Hlo Hhi. split; [done|]. intros d Hd.
  destruct (Z.lt_trichotomy d c) as [Hlt|[->|Hgt]].
  - specialize (Hlo ltac:(lia)). pose proof (e4m3_units_mono d (c - 1)). lia.
  - lia.
  - specialize (Hhi ltac:(lia)). pose proof (e4m3_units_mono (c + 1) d). lia.
Qed.

(** Rounding a normal magnitude: exponent [e >= 1], mantissa [mant] of 52 bits. *)
Lemma nearest_normal e mant top :
  1 <= e -> 0 <= mant < 2 ^ 52 ->
  8 * e + (mant + 2 ^ 48) / 2 ^ 49 <= top ->
  nearest ((2 ^ 52 + mant) * 2 ^ (e + 1015)) (8 * e + (mant + 2 ^ 48) / 2 ^ 49) top.
Proof.
  intros He Hm Htop. set (k := (mant + 2 ^ 48) / 2 ^ 49) in *.
  pose proof (Z.div_mod (mant + 2 ^ 48) (2 ^ 49) ltac:(lia)) as Hdm.
  pose proof (Z.mod_pos_bound (mant + 2 ^ 48) (2 ^ 49) ltac:(lia)) as Hr.
  fold k in Hdm. assert (0 <= k <= 8) as Hk by lia.
  set (S := 2 ^ (e + 1015)). assert (0 < S) as HS by (apply Z.pow_pos_nonneg; lia).
  assert (2 ^ (e + 1064) = 2 ^ 49 * S) as HT.
  { unfold S. rewrite <-Z.pow_add_r by lia. f_equal. lia. }
  assert (e = 1 -> 2 ^ 1065 = 2 ^ 49 * S) as HT1 by (intros He1; unfold S; by rewrite He1).
  clearbody S. assert (e4m3_units (8 * e + k) = (8 + k) * (2 ^ 49 * S)) as Hc.
  { by rewrite e4m3_units_split, HT by lia. }
  apply nearest_neighbours; [lia|intros Hpos|intros Hlt]; rewrite Hc.
  - destruct (Z.eq_dec k 0) as [Hk0|Hk0].
    + assert (e4m3_units (8 * e + k - 1) <= 8 * (2 ^ 49 * S) - 2 ^ 48 * S) as Hp.
      { rewrite Hk0. destruct (Z.eq_dec e 1) as [->|He1].
        - change (8 * 1 + 0 - 1) with 7. rewrite e4m3_units_small by lia.
          rewrite HT1 by done. lia.
        - replace (8 * e + 0 - 1) with (8 * (e - 1) + 7) by lia.
          rewrite e4m3_units_split by lia.
          assert (2 ^ (e + 1064) = 2 * 2 ^ (e - 1 + 1064)) as H2.
          { rewrite <-Z.pow_succ_r by lia. f_equal. lia. }
          lia. }
      assert (0 <= mant * S < 2 ^ 48 * S) by nia. replace (8 + k) with 8 by lia. lia.
    + replace (8 * e + k - 1) with (8 * e + (k - 1)) by lia.
      rewrite e4m3_units_split, HT by lia. nia.
  - assert (8 * e + k + 1 = 8 * e + (k + 1)) as -> by lia.
    assert ((8 + k + 1) * (2 ^ 49 * S) <= e4m3_units (8 * e + (k + 1))) as Hn.
    { destruct (Z.eq_dec k 8) as [->|Hk8].
      - replace (8 * e + (8 + 1)) with (8 * (e + 1) + 1) by lia.
        rewrite e4m3_units_split by lia.
        replace (e + 1 + 1064) with (1 + (e + 1064)) by lia. rewrite Z.pow_add_r, HT by lia. lia.
      - rewrite e4m3_units_split, HT by lia. lia. }
    nia.
Qed.

(** Rounding below the smallest normal magnitude. *)
Lemma nearest_subnormal u top :
  0 <= u < 8 * 2 ^ 1065 -> 8 <= top ->
  nearest u ((u + 2 ^ 1064) / 2 ^ 1065) top.
Proof.
  intros Hu Htop. set (k := (u + 2 ^ 1064) / 2 ^ 1065).
  pose proof (Z.div_mod (u + 2 ^ 1064) (2 ^ 1065) ltac:(lia)) as Hdm.
  pose proof (Z.mod_pos_bound (u + 2 ^ 1064) (2 ^ 1065) ltac:(lia)) as Hr.
  fold k in Hdm. change (2 ^ 1065) with (2 * 2 ^ 1064) in *.
  assert (0 < 2 ^ 1064) as HT by (by vm_compute). set (T := 2 ^ 1064) in *.
  assert (0 <= k <= 8) as Hk by nia.
  assert (e4m3_units k = k * (2 * T)) as Hc by (by rewrite e4m3_units_small).
  apply nearest_neighbours; [lia|intros Hpos|intros Hlt]; rewrite Hc.
  - rewrite e4m3_units_small by lia. change (2 ^ 1065) with (2 * T). nia.
  - assert ((k + 1) * (2 * T) <= e4m3_units (k + 1)) as Hn.
    { destruct (Z.eq_dec k 8) as [->|Hk8].
      - change (8 + 1) with (8 * 1 + 1). rewrite e4m3_units_split by lia.
        change (2 ^ (1 + 1064)) with (2 * T). lia.
      - rewrite e4m3_units_small by lia. by change (2 ^ 1065) with (2 * T). }
    nia.
Qed.

(** * The encoder *)

Definition finite_units (m : positive) (e : Z) : Z := Z.pos m * 2 ^ (e + 1074).

Lemma E4M3_MAX_eq : E4M3_MAX = S754_finite false 7881299347898368 (-44).
Proof. reflexivity. Qed.

Lemma canonical_f64 m e :
  canonical 53 1024 m e ->
  -1074 <= e <= 971 /\ Z.pos m < 2 ^ 53 /\ (Z.pos m < 2 ^ 52 -> e = -1074).
Proof.
  intros Hx. pose proof (canonical_digits 53 1024 m e eq_refl Hx) as Hd.
  pose proof (digits2_pos_bounds m) as Hb. destruct Hx as [_ He].
  assert (2 ^ Z.pos (digits2_pos m) <= 2 ^ 53) by (apply Z.pow_le_mono_r; lia).
  split_and!; [lia|lia|lia|]. intros Hm. destruct Hd as (_ & _ & [?|Hd]); [lia|].
  rewrite Hd in Hb. lia.
Qed.

(** The clamp at 448 compares the values. *)
Lemma f64_min_max448 m e :
  canonical 53 1024 m e ->
  f64_min (S754_finite false m e) E4M3_MAX
  = if finite_units m e <=? MAX_UNITS then S754_finite false m e else E4M3_MAX.
Proof.
  intros (He & Hm & Hn)%canonical_f64. rewrite E4M3_MAX_eq.
  unfold f64_min, finite_units, MAX_UNITS. cbn [is_nan]. unfold SFltb. cbn [SFcompare].
  change (448 * 2 ^ 1074) with (7881299347898368 * 2 ^ 1030).
  assert (0 < 2 ^ 1030) as HT by (by vm_compute).
  destruct (Z.compare_spec (-44) e) as [<-|Hgt|Hlt].
  - change (-44 + 1074) with 1030.
    change (PosDef.Pos.compare_cont Eq 7881299347898368 m) with (Z.compare (Z.pos 7881299347898368) (Z.pos m)).
    destruct (Z.compare_spec (Z.pos 7881299347898368) (Z.pos m));
      destruct (Z.leb_spec (Z.pos m * 2 ^ 1030) (7881299347898368 * 2 ^ 1030)); try done; nia.
  - destruct (Z.leb_spec (Z.pos m * 2 ^ (e + 1074)) (7881299347898368 * 2 ^ 1030)); [|done].
    assert (2 ^ 1031 <= 2 ^ (e + 1074)) by (apply Z.pow_le_mono_r; lia).
    change (2 ^ 1031) with (2 * 2 ^ 1030) in *. nia.
  - destruct (Z.leb_spec (Z.pos m * 2 ^ (e + 1074)) (7881299347898368 * 2 ^ 1030)); [done|].
    assert (2 ^ (e + 1074) <= 2 ^ 1029) by (apply Z.pow_le_mono_r; lia).
    assert (0 < 2 ^ (e + 1074)) by (apply Z.pow_pos_nonneg; lia).
    change (2 ^ 1030) with (2 * 2 ^ 1029) in *. nia.
Qed.

(** The exponent and mantissa fields of a normal magnitude. *)
Lemma f64_bits_fields m e :
  canonical 53 1024 m e -> 2 ^ 52 <= Z.pos m ->
  let bits := f64_to_bits (S754_finite false m e) in
  Z.land (Z.shiftr bits 52) 0x7FF = e + 1075 /\
  Z.land bits 0x000FFFFFFFFFFFFF = Z.pos m - 2 ^ 52.
Proof.
  intros (He & Hm & _)%canonical_f64 Hn. cbn [f64_to_bits]. unfold f64_magnitude_bits.
  rewrite (proj2 (Z.ltb_ge _ _)) by lia.
  assert (0 + ((e + 1074) * 2 ^ 52 + Z.pos m) = (e + 1075) * 2 ^ 52 + (Z.pos m - 2 ^ 52)) as -> by lia.
  rewrite Z.shiftr_div_pow2 by lia.
  change 0x7FF with (Z.ones 11). change 0x000FFFFFFFFFFFFF with (Z.ones 52).
  rewrite !land_ones_mod by lia. split.
  - rewrite Z.div_add_l, (Z.div_small (Z.pos m - 2 ^ 52)), Z.add_0_r by lia.
    apply Z.mod_small. lia.
  - rewrite Z.add_comm, Z.mod_add by lia. apply Z.mod_small. lia.
Qed.

Lemma f64_bits_subnormal m e :
  canonical 53 1024 m e -> Z.pos m < 2 ^ 52 ->
  Z.land (Z.shiftr (f64_to_bits (S754_finite false m e)) 52) 0x7FF = 0.
Proof.
  intros _ Hm. cbn [f64_to_bits]. unfold f64_magnitude_bits.
  rewrite (proj2 (Z.ltb_lt _ _)), Z.add_0_l, Z.shiftr_div_pow2, Z.div_small by lia. done.
Qed.

(** [(mag * 512.0).round()] *)
Lemma round_512 m e :
  canonical 53 1024 m e -> e < -58 ->
  f64_round_Z (f64_mul (S754_finite false m e) (f64_of_Z 512))
  = (finite_units m e + 2 ^ 1064) / 2 ^ 1065.
Proof.
  intros Hc He. destruct (f64_mul_512 m e Hc ltac:(lia)) as (m' & e' & -> & H1 & H2 & Hm).
  apply canonical_f64 in Hc as (Hmin & _ & _).
  cbn [f64_round_Z cond_Zopp]. rewrite (proj2 (Z.leb_gt _ _)) by lia.
  unfold finite_units. set (a := 2 ^ (e' + 1074)).
  assert (0 < a) as Ha by (apply Z.pow_pos_nonneg; lia).
  rewrite <-(Z.div_mul_cancel_r (Z.pos m' + 2 ^ (- e' - 1)) (2 ^ (- e')) a)
    by (try lia; apply Z.pow_nonzero; lia).
  rewrite <-(Z.div_mul_cancel_r (Z.pos m * 2 ^ (e + 1074) + 2 ^ 1064) (2 ^ 1065) (2 ^ 9)) by lia.
  f_equal.
  - rewrite !Z.mul_add_distr_r, <-Hm. f_equal.
    + unfold a. rewrite <-!Z.mul_assoc, <-!Z.pow_add_r by lia. do 2 f_equal. lia.
    + unfold a. rewrite <-!Z.pow_add_r by lia. f_equal. lia.
  - unfold a. rewrite <-!Z.pow_add_r by lia. f_equal. lia.
Qed.

(** The code the encoder computes for a magnitude within range, sign aside. *)
Definition magnitude_code (m : positive) (e : Z) : Z :=
  if e <? -58 then (finite_units m e + 2 ^ 1064) / 2 ^ 1065
  else 8 * (e + 59) + (Z.pos m - 2 ^ 52 + 2 ^ 48) / 2 ^ 49.

Lemma finite_units_small m e :
  canonical 53 1024 m e -> e < -58 -> 0 <= finite_units m e < 8 * 2 ^ 1065.
Proof.
  intros (He & Hm & _)%canonical_f64 Hlt. unfold finite_units.
  assert (2 ^ (e + 1074) <= 2 ^ 1015) by (apply Z.pow_le_mono_r; lia).
  assert (0 < 2 ^ (e + 1074)) by (apply Z.pow_pos_nonneg; lia).
  change (8 * 2 ^ 1065) with (2 ^ 53 * 2 ^ 1015). nia.
Qed.

Lemma finite_units_top m e :
  canonical 53 1024 m e -> finite_units m e <= MAX_UNITS -> -58 <= e ->
  e <= -44 /\ (e = -44 -> Z.pos m <= 7881299347898368).
Proof.
  intros (He & Hm & Hn)%canonical_f64. unfold finite_units, MAX_UNITS. intros Hu Hlo.
  change (448 * 2 ^ 1074) with (7881299347898368 * 2 ^ 1030) in Hu.
  assert (0 < 2 ^ 1030) as HT by (by vm_compute).
  split; [|intros ->; change (-44 + 1074) with 1030 in Hu; nia].
  apply Z.nlt_ge. intros Hgt.
  assert (2 ^ 1031 <= 2 ^ (e + 1074)) by (apply Z.pow_le_mono_r; lia).
  change (2 ^ 1031) with (2 * 2 ^ 1030) in *. nia.
Qed.

Lemma magnitude_code_nearest m e :
  canonical 53 1024 m e -> finite_units m e <= MAX_UNITS ->
  nearest (finite_units m e) (magnitude_code m e) 126.
Proof.
  intros Hc Hu. unfold magnitude_code. destruct (Z.ltb_spec e (-58)).
  { apply nearest_subnormal; [by apply finite_units_small|lia]. }
  destruct (finite_units_top m e Hc Hu) as [Htop Hmax]; [lia|].
  apply canonical_f64 in Hc as (He & Hm & Hn).
  pose proof (Z.div_mod (Z.pos m - 2 ^ 52 + 2 ^ 48) (2 ^ 49) ltac:(lia)) as Hdm.
  pose proof (Z.mod_pos_bound (Z.pos m - 2 ^ 52 + 2 ^ 48) (2 ^ 49) ltac:(lia)) as Hr.
  replace (finite_units m e) with ((2 ^ 52 + (Z.pos m - 2 ^ 52)) * 2 ^ (e + 59 + 1015)).
  - apply nearest_normal; [lia|lia|]. destruct (Z.eq_dec e (-44)) as [->|]; [|lia].
    specialize (Hmax eq_refl). lia.
  - unfold finite_units. f_equal; [lia|]. f_equal. lia.
Qed.

Lemma exponent_field m e :
  canonical 53 1024 m e ->
  (Z.land (Z.shiftr (f64_to_bits (S754_finite false m e)) 52) 0x7FF <? 1017) = (e <? -58).
Proof.
  intros Hc. destruct (Z.lt_ge_cases (Z.pos m) (2 ^ 52)) as [Hsub|Hnorm].
  - rewrite f64_bits_subnormal by done.
    assert (e = -1074) as -> by (apply canonical_f64 in Hc; tauto). done.
  - destruct (f64_bits_fields m e Hc Hnorm) as [-> _].
    destruct (Z.ltb_spec e (-58)), (Z.ltb_spec (e + 1075) 1017); lia.
Qed.

Lemma encode_code m e sign :
  canonical 53 1024 m e -> finite_units m e <= MAX_UNITS -> sign = 0 \/ sign = 0x80 ->
  (let mag := S754_finite false m e in
   let bits := f64_to_bits mag in
   let exp := Z.land (Z.shiftr bits 52) 0x7FF in
   let mant := Z.land bits 0x000FFFFFFFFFFFFF in
   if exp <? 1017 then
     let m := as_u8 (f64_round_Z (f64_mul mag (f64_of_Z 512))) in
     if m >=? 8 then Z.lor sign 0x08 else Z.lor sign m
   else
     let e := exp - 1016 in
     let m := Z.shiftr (mant + 0x0001000000000000) 49 in
     let '(e, m) := if m >=? 8 then (e + 1, 0) else (e, m) in
     let e := clamp e 1 15 in
     let m := clamp m 0 7 in
     Z.lor (Z.lor sign (Z.shiftl e 3)) m) = sign + magnitude_code m e.
Proof.
  intros Hc Hu Hs. cbv zeta.
  assert (exists k, sign = 2 ^ 7 * k) as [k Hk].
  { destruct Hs as [-> | ->]; [by exists 0|by exists 1]. }
  pose proof (magnitude_code_nearest m e Hc Hu) as [Hrange _].
  rewrite exponent_field by done. unfold magnitude_code in *.
  destruct (Z.ltb_spec e (-58)).
  - rewrite round_512 by (done || lia).
    pose proof (finite_units_small m e Hc ltac:(lia)) as Hb.
    assert (0 <= (finite_units m e + 2 ^ 1064) / 2 ^ 1065 < 9) as Hq.
    { split; [apply Z.div_pos; lia|apply Z.div_lt_upper_bound; lia]. }
    set (q := (_ + 2 ^ 1064) / 2 ^ 1065) in *. clearbody q.
    assert (as_u8 q = q) as -> by (unfold as_u8; lia).
    destruct (Z.geb_spec q 8) as [|Hlt]; [assert (q = 8) as -> by lia|];
      rewrite Hk, lor_disjoint by lia; lia.
  - destruct (f64_bits_fields m e Hc) as [-> ->]; [apply canonical_f64 in Hc; lia|].
    rewrite Z.shiftr_div_pow2 by lia. change 0x0001000000000000 with (2 ^ 48).
    apply canonical_f64 in Hc as (_ & Hm & Hn).
    assert (0 <= (Z.pos m - 2 ^ 52 + 2 ^ 48) / 2 ^ 49 < 9) as Hq.
    { split; [apply Z.div_pos; lia|apply Z.div_lt_upper_bound; lia]. }
    set (q := (_ + 2 ^ 48) / 2 ^ 49) in *. clearbody q.
    assert (forall e' m', 1 <= e' <= 15 -> 0 <= m' < 8 ->
      Z.lor (Z.lor sign (Z.shiftl (clamp e' 1 15) 3)) (clamp m' 0 7) = sign + (8 * e' + m')) as Hlor.
    { intros e' m' He' Hm'. unfold clamp. rewrite Z.shiftl_mul_pow2 by lia.
      replace (Z.max 1 (Z.min 15 e')) with e' by lia.
      replace (Z.max 0 (Z.min 7 m')) with m' by lia.
      rewrite Hk, lor_disjoint by lia.
      replace (2 ^ 7 * k + e' * 2 ^ 3) with (2 ^ 3 * (2 ^ 4 * k + e')) by lia.
      rewrite lor_disjoint by lia. lia. }
    replace (e + 1075 - 1016) with (e + 59) by lia.
    destruct (Z.geb_spec q 8) as [|Hlt]; rewrite Hlor by lia; lia.
Qed.

(** * What the codec does *)

(** The encoder on a finite value: the sign, and the nearest code of the clamped
    magnitude. *)
Lemma encode_e4m3_finite s m e :
  f64_valid (S754_finite s m e) ->
  exists c, encode_e4m3 (S754_finite s m e) = (if s then 0x80 else 0) + c /\
    nearest (Z.min (finite_units m e) MAX_UNITS) c 126 /\
    (MAX_UNITS < finite_units m e -> c = 126).
Proof.
  intros Hc%f64_valid_finite. unfold encode_e4m3. cbn [is_nan SFabs].
  rewrite f64_min_max448 by done.
  assert (SFltb (S754_finite s m e) (S754_zero false) = s) as -> by (by destruct s).
  set (sign := if s then 0x80 else 0).
  assert (sign = 0 \/ sign = 0x80) as Hsign by (destruct s; [by right|by left]).
  destruct (Z.leb_spec (finite_units m e) MAX_UNITS) as [Hle|Hgt].
  - exists (magnitude_code m e). replace (Z.min _ _) with (finite_units m e) by lia.
    split_and!; [by apply encode_code|by apply magnitude_code_nearest|lia].
  - exists 126. split_and!; [|replace (Z.min _ _) with MAX_UNITS by lia|done].
    + rewrite E4M3_MAX_eq. by apply (encode_code 7881299347898368 (-44) sign).
    + apply (magnitude_code_nearest 7881299347898368 (-44)); [by split|done].
Qed.

Lemma seqZ_forallb (P : Z -> bool) n x :
  forallb P (seqZ 0 n) = true -> 0 <= x < n -> P x = true.
Proof.
  intros H Hx. rewrite forallb_forall in H. apply H, list_elem_of_In, elem_of_seqZ. lia.
Qed.

(** The value of every code. *)
Lemma decode_units c :
  0 <= c < 127 ->
  f64_units (decode_e4m3 c) = e4m3_units c /\ f64_units (decode_e4m3 (128 + c)) = - e4m3_units c.
Proof.
  intros Hc.
  assert ((f64_units (decode_e4m3 c) =? e4m3_units c)
    && (f64_units (decode_e4m3 (128 + c)) =? - e4m3_units c) = true) as H.
  { apply (seqZ_forallb (fun c => (f64_units (decode_e4m3 c) =? e4m3_units c)
      && (f64_units (decode_e4m3 (128 + c)) =? - e4m3_units c)) 127); [by vm_compute|lia]. }
  apply andb_true_iff in H as [H1%Z.eqb_eq H2%Z.eqb_eq]. done.
Qed.

Definition is_code (c : Z) : Prop := is_byte c /\ c <> 0x7F /\ c <> 0xFF.

(** The E4M3 encoder is exact on what the decoder produces: encoding a decoded
    code gives the code back, except that negative zero and the two NaN codes
    become code 0, and the table holds the decoded value of every code. *)
Theorem e4m3_roundtrip c :
  is_byte c ->
  encode_e4m3 (decode_e4m3 c)
  = (if (c =? 0x7F) || (c =? 0xFF) || (c =? 0x80) then 0 else c) /\
  decode_table !! Z.to_nat c = Some (decode_e4m3 c).
Proof.
  intros Hc. split.
  - apply Z.eqb_eq. apply (seqZ_forallb (fun c => encode_e4m3 (decode_e4m3 c)
      =? (if (c =? 0x7F) || (c =? 0xFF) || (c =? 0x80) then 0 else c)) 256);
      [by vm_compute|done].
  - unfold decode_table. rewrite list_lookup_fmap, lookup_seqZ_lt by width.
    cbn. do 2 f_equal. width.
Qed.

Example e4m3_roundtrip_witness :
  is_byte 0x35 /\ encode_e4m3 (decode_e4m3 0x35) = 0x35 /\
  decode_table !! Z.to_nat 0x35 = Some (decode_e4m3 0x35).
Proof. split; [width|]. apply (e4m3_roundtrip 0x35). width. Defined.

(** C40: The encoder rounds a finite [f64] to the nearest E4M3 value: among all 254
    number codes none is closer to the input clamped to [+-448] than the code it
    returns, and a tie goes to the code of larger magnitude; the magnitude is
    saturated at 448 and the result is never a NaN code. *)
Theorem e4m3_rounds_to_nearest s m e :
  f64_valid (S754_finite s m e) ->
  let c := encode_e4m3 (S754_finite s m e) in
  let x := cond_Zopp s (Z.min (Z.pos m * 2 ^ (e + 1074)) (448 * 2 ^ 1074)) in
  let dist d := Z.abs (x - f64_units (decode_e4m3 d)) in
  is_code c /\
  (forall d, is_code d ->
    dist c < dist d \/
    dist c = dist d /\ Z.abs (f64_units (decode_e4m3 d)) <= Z.abs (f64_units (decode_e4m3 c))).
Proof.
  intros Hv. cbv zeta. destruct (encode_e4m3_finite s m e Hv) as (c & -> & [Hc Hnear] & _).
  fold (finite_units m e). fold MAX_UNITS. set (u := Z.min _ _) in *.
  assert (0 <= u) as Hu.
  { unfold u, finite_units, MAX_UNITS. apply Z.min_glb; [|by vm_compute].
    apply Z.mul_nonneg_nonneg; [lia|apply Z.pow_nonneg; lia]. }
  assert (forall c, 0 <= c -> 0 <= e4m3_units c) as Hpos.
  { intros d Hd. apply (e4m3_units_mono 0 d); [lia|done]. }
  assert (f64_units (decode_e4m3 ((if s then 0x80 else 0) + c)) = cond_Zopp s (e4m3_units c)) as Hcu.
  { destruct (decode_units c) as [H1 H2]; [lia|]. destruct s; [by rewrite H2|by rewrite Z.add_0_l]. }
  split. { unfold is_code, is_byte. destruct s; lia. }
  intros d [Hd [Hd1 Hd2]]. rewrite Hcu. clear Hcu.
  assert (exists t d', 0 <= d' <= 126 /\ f64_units (decode_e4m3 d) = cond_Zopp t (e4m3_units d'))
    as (t & d' & Hd' & ->).
  { unfold is_byte in Hd. destruct (Z.lt_ge_cases d 128).
    - exists false, d. split; [lia|]. apply decode_units. lia.
    - exists true, (d - 128). split; [lia|].
      replace d with (128 + (d - 128)) at 1 by lia. apply decode_units. lia. }
  pose proof (Hpos c ltac:(lia)) as Hpc. pose proof (Hpos d' ltac:(lia)) as Hpd.
  pose proof (Hnear d' Hd') as Hn. pose proof (Hnear 0 ltac:(lia)) as H0.
  assert (e4m3_units 0 = 0) as Hz by done. rewrite Hz in H0.
  pose proof (fun H => e4m3_units_mono d' c (proj1 Hd') H) as Hm.
  destruct (Z.eq_dec (e4m3_units d') 0) as [Hd0|Hd0].
  - rewrite Hd0. destruct s, t; cbn; lia.
  - destruct s, t; cbn [cond_Zopp].
    1, 4: destruct Hn as [Hn|[Hn Hle]]; [left; lia|right; specialize (Hm Hle); lia].
    all: left; lia.
Qed.

Example e4m3_rounds_to_nearest_witness :
  let v := f64_normalize (-33) (-4) in
  f64_valid v /\ encode_e4m3 v = 0xC0 /\
  let dist d := Z.abs (cond_Zopp true (Z.min (Z.pos 4644337115725824 * 2 ^ (-51 + 1074))
                         (448 * 2 ^ 1074)) - f64_units (decode_e4m3 d)) in
  is_code (encode_e4m3 v) /\
  (forall d, is_code d -> dist (encode_e4m3 v) < dist d \/
     dist (encode_e4m3 v) = dist d /\
     Z.abs (f64_units (decode_e4m3 d)) <= Z.abs (f64_units (decode_e4m3 (encode_e4m3 v)))).
Proof.
  split; [by vm_compute|]. split; [by vm_compute|].
  apply (e4m3_rounds_to_nearest true 4644337115725824 (-51)). by vm_compute.
Defined.
