(* ===== verification/Fp8Kv.v ===== *)
(** [crates/mimo26-attn/src/fp8kv.rs]: the FP8 layout of cached keys and values and
    its encoder and decoder.  Planes are flat vectors indexed as the source does,
    so an index out of range panics; values are binary32 floats, codes bytes.

    Before it, what the attention caches share ([lib.rs] and [geom.rs] of the same crate): the
    family, the naive switches, the errors, the dimensions and the byte arithmetic. *)
From Stdlib Require Import ZArith Lia Bool SpecFloat.
From stdpp Require Import base list gmap strings.
From S2P Require Import Prelude KvPool Floats E4m3.

(** * Definitions *)

Inductive Family := Ga | Swa.

Definition NaiveBits : Type := Z.
Definition nb_NONE : NaiveBits := 0.
Definition ROPE_TRUNC_TABLE : NaiveBits := Z.shiftl 1 0.
Definition ROPE_FULL_WIDTH : NaiveBits := Z.shiftl 1 1.
Definition ROPE_SINGLE_THETA : NaiveBits := Z.shiftl 1 2.
Definition SCALE_BY_DV : NaiveBits := Z.shiftl 1 3.
Definition SINK_ON_GA : NaiveBits := Z.shiftl 1 4.
Definition GA_WINDOWED : NaiveBits := Z.shiftl 1 5.
Definition SINK_PER_KV : NaiveBits := Z.shiftl 1 6.
Definition V_BROADCAST : NaiveBits := Z.shiftl 1 7.
Definition VSCALE_AFTER_STORE : NaiveBits := Z.shiftl 1 8.
Definition VSCALE_ON_READ : NaiveBits := Z.shiftl 1 9.
Definition EVICT_KEEP_LAST : NaiveBits := Z.shiftl 1 10.
Definition POS_ZEROED : NaiveBits := Z.shiftl 1 11.
Definition BLOCK128_SHARED_SCALES : NaiveBits := Z.shiftl 1 12.
Definition SILENT_CLAMP : NaiveBits := Z.shiftl 1 13.
Definition SINK_PER_SPLIT : NaiveBits := Z.shiftl 1 14.
Definition NO_RUNNING_RESCALE : NaiveBits := Z.shiftl 1 15.
Definition AOT_MIXED_GATE : NaiveBits := Z.shiftl 1 16.
Definition PAGED_KPOS_ZERO_BASED : NaiveBits := Z.shiftl 1 17.
Definition nb_ALL : NaiveBits := 2 ^ 32 - 1.

(** [NaiveBits::has]. *)
Definition nb_has (self other : NaiveBits) : bool := negb (Z.land self other =? 0).

Inductive AttnError :=
| ShapeMismatch
| SinkNotSupported (family : string)
| SinkLength (got expected : Z)
| KvLayout.

Definition D_QK : Z := 192.
Definition D_V : Z := 128.
Definition N_Q : Z := 64.
Definition GA_KV_HEADS : Z := 4.
Definition SWA_KV_HEADS : Z := 8.
Definition WINDOW : Z := 128.
Definition ROT_DIM : Z := 64.
Definition MAX_POSITION : Z := 1048576.
Definition N_GA : Z := 9.
Definition N_SWA : Z := 39.
Definition PAGE_TOKENS : Z := 256.

Inductive ScaleMode := ScaleUnit | ScalePerTokenHead.

Definition layer_kv_code_bytes (n_kv : Z) : Z := n_kv * (D_QK + D_V).

Definition layer_scale_bytes (n_kv : Z) : Z := n_kv * 2 * 4.

Definition per_token (n_layers n_kv : Z) (mode : ScaleMode) : Z :=
  let codes := n_layers * layer_kv_code_bytes n_kv in
  match mode with
  | ScaleUnit => codes
  | ScalePerTokenHead => codes + n_layers * layer_scale_bytes n_kv
  end.

Definition ga_kv_bytes_per_token (mode : ScaleMode) : Z := per_token N_GA GA_KV_HEADS mode.

Definition swa_ring_bytes_per_seq (mode : ScaleMode) : Z :=
  per_token N_SWA SWA_KV_HEADS mode * WINDOW.

Definition ga_page_bytes (mode : ScaleMode) : Z := ga_kv_bytes_per_token mode * PAGE_TOKENS.

#[export] Instance ScaleMode_eq_dec : EqDecision ScaleMode.
Proof. solve_decision. Defined.
#[export] Instance AttnError_eq_dec : EqDecision AttnError.
Proof. solve_decision. Defined.

Definition SCALE_BYTES : Z := 4.

Inductive Layout := LayoutUnit | LayoutPerTokenHead | LayoutBlock128Shared.

Definition Layout_of (mode : ScaleMode) (naive : NaiveBits) : Layout :=
  if nb_has naive BLOCK128_SHARED_SCALES then LayoutBlock128Shared
  else match mode with ScaleUnit => LayoutUnit | ScalePerTokenHead => LayoutPerTokenHead end.

#[export] Instance Layout_eq_dec : EqDecision Layout.
Proof. solve_decision. Defined.

Record EncodedKv := mkEncodedKv {
  ek_layout : Layout;
  ek_n_tok : Z;
  ek_n_kv : Z;
  ek_d_qk : Z;
  ek_d_v : Z;
  ek_k_codes : list Z;
  ek_v_codes : list Z;
  ek_k_scales : list spec_float;
  ek_v_scales : list spec_float;
  ek_shared_scales : list spec_float;
  ek_clip_count : Z;
}.

(** * Offsets *)

Definition k_code_off (t h i n_kv d_qk : Z) : Z := (t * n_kv + h) * d_qk + i.
Definition v_code_off (t h j n_kv d_v : Z) : Z := (t * n_kv + h) * d_v + j.
Definition k_scale_off (t h n_kv : Z) : Z := t * n_kv + h.
Definition v_scale_off (t h n_kv : Z) : Z := t * n_kv + h.
Definition shared_block128_off (flat_in_row : Z) : Z := flat_in_row / 128.
Definition shared_blocks_per_row (n_kv d_qk d_v : Z) : Z := (n_kv * (d_qk + d_v) + 127) / 128.

Definition kv_bytes_per_token (layout : Layout) (n_kv d_qk d_v : Z) : Z :=
  let codes := n_kv * (d_qk + d_v) in
  match layout with
  | LayoutUnit => codes
  | LayoutPerTokenHead => codes + n_kv * 2 * SCALE_BYTES
  | LayoutBlock128Shared => codes + shared_blocks_per_row n_kv d_qk d_v * SCALE_BYTES
  end.

(** * Encoding *)

(** The code of a quotient, and whether it was clamped. *)
Definition clips_of (q : spec_float) : Z := if SFltb E4M3_MAX (SFabs q) then 1 else 0.
Definition code_of (q : spec_float) : Z * Z := (encode_e4m3 q, clips_of q).

(** One pass of the innermost loop of [encode_rows]. *)
Definition encode_cell (values : list spec_float) (s : spec_float) (base : Z)
    : list Z * Z -> Z -> outcome AttnError (list Z * Z) :=
  fun '(codes, clips) i =>
    '(code, clip) ← (x ← idx values (base + i); Ok (code_of (f64_of_f32 (f32_div x s))));
    codes ← idx_set codes (base + i) code;
    Ok (codes, clips + clip).

Definition encode_rows (values : list spec_float) (n_tok n_kv d : Z)
    (scale_of : Z -> Z -> outcome AttnError spec_float) (naive : NaiveBits)
    : outcome AttnError (list Z * Z) :=
  if Zlen values =? n_tok * n_kv * d then
    '(codes, clips) ← fold_try (fun acc t =>
        fold_try (fun acc h =>
          s ← scale_of t h;
          let base := (t * n_kv + h) * d in
          fold_try (encode_cell values s base) acc (seqZ 0 d))
        acc (seqZ 0 n_kv))
      (replicate (length values) 0, 0) (seqZ 0 n_tok);
    Ok (codes, if nb_has naive SILENT_CLAMP then 0 else clips)
  else Panic.

(** [(amax / E4M3_MAX) as f32], or one for an all-zero row. *)
Definition amax_scale (amax : spec_float) : spec_float :=
  if SFltb (S754_zero false) amax then f32_of_f64 (f64_div amax E4M3_MAX) else f32_one.

Definition row_amax (row : list spec_float) : spec_float :=
  foldl (fun amax v => f64_max amax (SFabs (f64_of_f32 v))) (S754_zero false) row.

Definition plane_scale (row : list spec_float) : spec_float := amax_scale (row_amax row).

Definition flat_lookup (k_rows v_rows : list spec_float) (t n_kv d_qk d_v flat : Z)
    : outcome AttnError (spec_float * bool) :=
  let per_head := d_qk + d_v in
  let h := flat / per_head in
  let within := flat mod per_head in
  if within <? d_qk then
    x ← idx k_rows (k_code_off t h within n_kv d_qk); Ok (x, true)
  else
    x ← idx v_rows (v_code_off t h (within - d_qk) n_kv d_v); Ok (x, false).

(** The scale planes of [Layout::PerTokenHead]: one pass of the loop over heads. *)
Definition scale_cell (rows : list spec_float) (d : Z) (scales : list spec_float) (g : Z)
    : outcome AttnError (list spec_float) :=
  s ← (row ← index_range rows (g * d) (g * d + d); Ok (plane_scale row));
  idx_set scales g s.

Definition encode_scales (k_rows v_rows : list spec_float) (n_tok n_kv d_qk d_v : Z)
    : outcome AttnError (list spec_float * list spec_float) :=
  fold_try (fun acc t =>
    fold_try (fun '(k_scales, v_scales) h =>
      k_scales ← scale_cell k_rows d_qk k_scales (k_scale_off t h n_kv);
      v_scales ← scale_cell v_rows d_v v_scales (v_scale_off t h n_kv);
      Ok (k_scales, v_scales))
    acc (seqZ 0 n_kv))
  (replicate (Z.to_nat (n_tok * n_kv)) (S754_zero false),
   replicate (Z.to_nat (n_tok * n_kv)) (S754_zero false)) (seqZ 0 n_tok).

(** The shared block scales of [Layout::Block128Shared]. *)
Definition encode_shared (k_rows v_rows : list spec_float) (n_tok n_kv d_qk d_v : Z)
    : outcome AttnError (list spec_float) :=
  let blocks := shared_blocks_per_row n_kv d_qk d_v in
  fold_try (fun shared t =>
    fold_try (fun shared b =>
      amax ← fold_try (fun amax flat =>
          '(val, _) ← flat_lookup k_rows v_rows t n_kv d_qk d_v flat;
          Ok (f64_max amax (SFabs (f64_of_f32 val))))
        (S754_zero false)
        (seqZ (b * 128) (Z.min ((b + 1) * 128) (n_kv * (d_qk + d_v)) - b * 128));
      idx_set shared (t * blocks + b) (amax_scale amax))
    shared (seqZ 0 blocks))
  (replicate (Z.to_nat (n_tok * blocks)) (S754_zero false)) (seqZ 0 n_tok).

(** One coded cell of [Layout::Block128Shared]: the quotient is in [f64]. *)
Definition shared_cell (rows : list spec_float) (shared : list spec_float)
    (off block : Z) (acc : list Z * Z) : outcome AttnError (list Z * Z) :=
  let '(codes, clips) := acc in
  s ← idx shared block;
  x ← idx rows off;
  let '(code, clip) := code_of (f64_div (f64_of_f32 x) (f64_of_f32 s)) in
  codes ← idx_set codes off code;
  Ok (codes, clips + clip).

Definition encode_shared_codes (k_rows v_rows shared : list spec_float) (n_tok n_kv d_qk d_v : Z)
    : outcome AttnError (list Z * list Z * Z) :=
  let blocks := shared_blocks_per_row n_kv d_qk d_v in
  fold_try (fun acc t =>
    fold_try (fun '(k_codes, v_codes, clips) h =>
      '(k_codes, clips) ← fold_try (fun acc i =>
          let flat := h * (d_qk + d_v) + i in
          shared_cell k_rows shared (k_code_off t h i n_kv d_qk)
            (t * blocks + shared_block128_off flat) acc)
        (k_codes, clips) (seqZ 0 d_qk);
      '(v_codes, clips) ← fold_try (fun acc j =>
          let flat := h * (d_qk + d_v) + d_qk + j in
          shared_cell v_rows shared (v_code_off t h j n_kv d_v)
            (t * blocks + shared_block128_off flat) acc)
        (v_codes, clips) (seqZ 0 d_v);
      Ok (k_codes, v_codes, clips))
    acc (seqZ 0 n_kv))
  (replicate (Z.to_nat (n_tok * n_kv * d_qk)) 0, replicate (Z.to_nat (n_tok * n_kv * d_v)) 0, 0)
  (seqZ 0 n_tok).

Definition encode_kv (k_rows v_rows : list spec_float) (n_tok n_kv d_qk d_v : Z)
    (mode : ScaleMode) (naive : NaiveBits) : outcome AttnError EncodedKv :=
  if n_tok =? 0 then Err KvLayout
  else
    let layout := Layout_of mode naive in
    match layout with
    | LayoutUnit =>
      '(k_codes, kc) ← encode_rows k_rows n_tok n_kv d_qk (fun _ _ => Ok f32_one) naive;
      '(v_codes, vc) ← encode_rows v_rows n_tok n_kv d_v (fun _ _ => Ok f32_one) naive;
      Ok (mkEncodedKv layout n_tok n_kv d_qk d_v k_codes v_codes [] [] [] (kc + vc))
    | LayoutPerTokenHead =>
      '(k_scales, v_scales) ← encode_scales k_rows v_rows n_tok n_kv d_qk d_v;
      '(k_codes, kc) ← encode_rows k_rows n_tok n_kv d_qk
          (fun t h => idx k_scales (k_scale_off t h n_kv)) naive;
      '(v_codes, vc) ← encode_rows v_rows n_tok n_kv d_v
          (fun t h => idx v_scales (v_scale_off t h n_kv)) naive;
      Ok (mkEncodedKv layout n_tok n_kv d_qk d_v k_codes v_codes k_scales v_scales [] (kc + vc))
    | LayoutBlock128Shared =>
      shared ← encode_shared k_rows v_rows n_tok n_kv d_qk d_v;
      '(k_codes, v_codes, clips) ← encode_shared_codes k_rows v_rows shared n_tok n_kv d_qk d_v;
      let clips := if nb_has naive SILENT_CLAMP then 0 else clips in
      Ok (mkEncodedKv layout n_tok n_kv d_qk d_v k_codes v_codes [] [] shared clips)
    end.

(** * Decoding *)

Definition k_scale_at (enc : EncodedKv) (t h i : Z) : outcome AttnError spec_float :=
  match ek_layout enc with
  | LayoutUnit => Ok f32_one
  | LayoutPerTokenHead => idx (ek_k_scales enc) (k_scale_off t h (ek_n_kv enc))
  | LayoutBlock128Shared =>
    let flat := h * (ek_d_qk enc + ek_d_v enc) + i in
    idx (ek_shared_scales enc) (shared_block128_off flat)
  end.

Definition v_scale_at (enc : EncodedKv) (t h j : Z) : outcome AttnError spec_float :=
  match ek_layout enc with
  | LayoutUnit => Ok f32_one
  | LayoutPerTokenHead => idx (ek_v_scales enc) (v_scale_off t h (ek_n_kv enc))
  | LayoutBlock128Shared =>
    let flat := h * (ek_d_qk enc + ek_d_v enc) + ek_d_qk enc + j in
    idx (ek_shared_scales enc) (shared_block128_off flat)
  end.

(** [decode_e4m3(code) as f32 * s] *)
Definition decode_cell (code : Z) (s : spec_float) : spec_float :=
  f32_mul (f32_of_f64 (decode_e4m3 code)) s.

Definition decode_kv (enc : EncodedKv) (read_scale : spec_float)
    : outcome AttnError (list spec_float * list spec_float) :=
  let n_tok := ek_n_tok enc in
  let n_kv := ek_n_kv enc in
  let d_qk := ek_d_qk enc in
  let d_v := ek_d_v enc in
  fold_try (fun acc t =>
    fold_try (fun '(k, v) h =>
      k ← fold_try (fun k i =>
          let off := k_code_off t h i n_kv d_qk in
          x ← (s ← k_scale_at enc t h i; c ← idx (ek_k_codes enc) off; Ok (decode_cell c s));
          idx_set k off x)
        k (seqZ 0 d_qk);
      v ← fold_try (fun v j =>
          let off := v_code_off t h j n_kv d_v in
          x ← (s ← v_scale_at enc t h j; c ← idx (ek_v_codes enc) off;
               Ok (f32_mul (decode_cell c s) read_scale));
          idx_set v off x)
        v (seqZ 0 d_v);
      Ok (k, v))
    acc (seqZ 0 n_kv))
  (replicate (Z.to_nat (n_tok * n_kv * d_qk)) (S754_zero false),
   replicate (Z.to_nat (n_tok * n_kv * d_v)) (S754_zero false)) (seqZ 0 n_tok).
