(* ===== verification/Fp8KvProofs.v ===== *)
(** The FP8 cache codec by rows: a plane is the concatenation of its head rows, the
    encoder codes each row with its own scale, and the decoder undoes it row by
    row.  The loops of the source never index out of range. *)
From Stdlib Require Import ZArith Lia Bool SpecFloat.
From stdpp Require Import base list gmap strings.
From S2P Require Import Prelude KvPool Floats E4m3 Fp8Kv.

(** * Rows *)

(** [values] is a plane of [g] rows of width [d]. *)
Record plane {A} (d g : Z) (rows : list (list A)) (values : list A) : Prop := {
  pl_values : values = concat rows;
  pl_width : Forall (fun r => Zlen r = d) rows;
  pl_count : Zlen rows = g;
}.

Lemma plane_length {A} d g (rows : list (list A)) values :
  plane d g rows values -> Zlen values = g * d.
Proof. intros [-> Hw <-]. by apply concat_uniform_length. Qed.

Lemma plane_row {A} d g (rows : list (list A)) values i r :
  plane d g rows values -> rows !! i = Some r ->
  slice values (Z.of_nat i * d) (Z.of_nat i * d + d) = r /\
  Z.of_nat i * d + d <= Zlen values /\ Zlen r = d.
Proof.
  intros [-> Hw _] Hi.
  destruct (slice_concat_uniform rows d [] [] i r (Z.of_nat i * d) (Z.of_nat i * d + d)) as [Hs Hl];
    [done|done|cbn; lia|lia|].
  rewrite app_nil_l, app_nil_r in *. split_and!; [done|done|].
  by apply (Forall_lookup_1 _ _ _ _ Hw Hi).
Qed.

Lemma plane_cell {A E} d g (rows : list (list A)) values i r j x :
  plane d g rows values -> rows !! i = Some r -> r !! j = Some x ->
  idx (E:=E) values (Z.of_nat i * d + Z.of_nat j) = Ok x.
Proof.
  intros Hp Hi Hj. destruct (plane_row _ _ _ _ _ _ Hp Hi) as (Hs & _ & Hl).
  assert (0 <= d) by lia. assert (Z.of_nat j < d) by (apply lookup_lt_Some in Hj; lia).
  apply idx_Some; [lia|]. rewrite <-Hs in Hj. unfold slice in Hj.
  rewrite lookup_take, lookup_drop in Hj. destruct decide; [|done].
  rewrite <-Hj. f_equal. lia.
Qed.

(** Filling a plane row by row. *)
Lemma plane_fill {A E} (body : list A -> Z -> outcome E (list A)) d g (outs : list (list A)) z :
  Forall (fun r => Zlen r = d) outs -> Zlen outs = g -> 0 <= d ->
  (forall i out pre zs suf, 0 <= i -> outs !! Z.to_nat i = Some out ->
     Zlen pre = i * d -> length zs = length out ->
     body (pre ++ zs ++ suf) i = Ok (pre ++ out ++ suf)) ->
  fold_try body (replicate (Z.to_nat (g * d)) z) (seqZ 0 g) = Ok (concat outs).
Proof.
  intros Hw Hg Hd Hbody.
  destruct (fold_try_inv (fun i l => l = concat (take (Z.to_nat i) outs)
      ++ replicate (Z.to_nat ((g - i) * d)) z) body (replicate (Z.to_nat (g * d)) z) g)
    as (l & -> & ->); [lia| |..].
  - rewrite take_0. cbn. do 2 f_equal. lia.
  - intros i l Hi ->. destruct (lookup_lt_is_Some_2 outs (Z.to_nat i)) as [out Hout]; [lia|].
    pose proof (Forall_lookup_1 _ _ _ _ Hw Hout) as Hlen. cbn in Hlen.
    eexists. split; [|done].
    replace (Z.to_nat ((g - i) * d)) with (Z.to_nat d + Z.to_nat ((g - (i + 1)) * d))%nat by nia.
    rewrite replicate_add.
    rewrite (Hbody i out); [|lia|done| |rewrite length_replicate; lia].
    + replace (Z.to_nat (i + 1)) with (S (Z.to_nat i)) by lia.
      rewrite (take_S_r _ _ _ Hout), concat_app. cbn [concat].
      by rewrite app_nil_r, <-!app_assoc.
    + rewrite (concat_uniform_length _ d) by (by apply Forall_take).
      rewrite length_take. lia.
  - rewrite take_ge by lia. replace (Z.to_nat ((g - g) * d)) with O by lia. cbn. by rewrite app_nil_r.
Qed.

Lemma plane_fill_count {A E} (body : list A * Z -> Z -> outcome E (list A * Z)) d g
    (outs : list (list A * Z)) z :
  Forall (fun r => Zlen (fst r) = d) outs -> Zlen outs = g -> 0 <= d ->
  (forall i out pre zs suf c, 0 <= i -> outs !! Z.to_nat i = Some out ->
     Zlen pre = i * d -> length zs = length (fst out) ->
     body (pre ++ zs ++ suf, c) i = Ok (pre ++ fst out ++ suf, c + snd out)) ->
  fold_try body (replicate (Z.to_nat (g * d)) z, 0) (seqZ 0 g)
  = Ok (concat outs.*1, foldr Z.add 0 outs.*2).
Proof.
  intros Hw Hg Hd Hbody.
  destruct (fold_try_inv (fun i '(l, c) => l = concat (take (Z.to_nat i) outs).*1
      ++ replicate (Z.to_nat ((g - i) * d)) z /\ c = foldr Z.add 0 (take (Z.to_nat i) outs).*2)
      body (replicate (Z.to_nat (g * d)) z, 0) g) as ([l c] & -> & -> & ->); [lia| |..].
  - rewrite take_0. cbn. split; [|done]. do 2 f_equal. lia.
  - intros i [l c] Hi [-> ->].
    destruct (lookup_lt_is_Some_2 outs (Z.to_nat i)) as [out Hout]; [lia|].
    pose proof (Forall_lookup_1 _ _ _ _ Hw Hout) as Hlen. cbn in Hlen.
    replace (Z.to_nat ((g - i) * d)) with (Z.to_nat d + Z.to_nat ((g - (i + 1)) * d))%nat by nia.
    rewrite replicate_add. exists (concat (take (Z.to_nat (i + 1)) outs).*1
      ++ replicate (Z.to_nat ((g - (i + 1)) * d)) z, foldr Z.add 0 (take (Z.to_nat (i + 1)) outs).*2).
    split; [|done].
    rewrite (Hbody i out); [|lia|done| |rewrite length_replicate; lia].
    + replace (Z.to_nat (i + 1)) with (S (Z.to_nat i)) by lia.
      rewrite (take_S_r _ _ _ Hout), !fmap_app, concat_app, foldr_app. cbn [fmap list_fmap concat foldr].
      rewrite app_nil_r, <-!app_assoc. do 2 f_equal.
      generalize (snd out). clear. induction (take (Z.to_nat i) outs).*2; cbn; intros; [lia|].
      rewrite <-IHl. lia.
    + rewrite (concat_uniform_length _ d), length_fmap, length_take; [lia|].
      apply Forall_fmap. by apply Forall_take.
  - rewrite take_ge by lia. replace (Z.to_nat ((g - g) * d)) with O by lia. by rewrite app_nil_r.
Qed.

(** * Encoding *)

Definition total (l : list Z) : Z := foldr Z.add 0 l.

Lemma foldl_add c l : foldl Z.add c l = c + total l.
Proof.
  unfold total. revert c; induction l as [|x l IH]; intros c; cbn; [lia|]. rewrite IH. lia.
Qed.

Lemma total_app l k : total (l ++ k) = total l + total k.
Proof. unfold total. induction l as [|x l IH]; cbn; [lia|]. rewrite IH. lia. Qed.

(** One head row under its scale: the codes, and how many values were clamped. *)
Definition encode_head (s : spec_float) (row : list spec_float) : list Z * Z :=
  ((fun x => encode_e4m3 (f64_of_f32 (f32_div x s))) <$> row,
   total ((fun x => clips_of (f64_of_f32 (f32_div x s))) <$> row)).

Lemma encode_head_length s row : length (fst (encode_head s row)) = length row.
Proof. apply length_fmap. Qed.

(** The innermost loop of [encode_rows] codes one row. *)
Lemma encode_head_loop values s row pre zs suf c base :
  base = Zlen pre -> length zs = length row ->
  (forall j x, row !! j = Some x -> idx (E:=AttnError) values (base + Z.of_nat j) = Ok x) ->
  fold_try (encode_cell values s base) (pre ++ zs ++ suf, c) (seqZ 0 (Zlen row))
  = Ok (pre ++ fst (encode_head s row) ++ suf, c + snd (encode_head s row)).
Proof.
  intros Hbase Hz Hidx. unfold encode_cell.
  pose proof (fill_loop_count (fun i => x ← idx (E:=AttnError) values (base + i);
      Ok (code_of (f64_of_f32 (f32_div x s))))
    ((fun x => code_of (f64_of_f32 (f32_div x s))) <$> row) pre zs suf base c Hbase) as H.
  rewrite length_fmap in H. rewrite H; [|done|].
  - rewrite foldl_add, <-!list_fmap_compose. done.
  - intros i p Hi. rewrite list_lookup_fmap in Hi.
    destruct (row !! i) as [x|] eqn:Hx; [|done]. injection Hi as <-.
    by rewrite (Hidx _ _ Hx).
Qed.

Definition clip_total (naive : NaiveBits) (clips : Z) : Z :=
  if nb_has naive SILENT_CLAMP then 0 else clips.

Lemma encode_rows_spec values n_tok n_kv d scale_of naive rows scs :
  0 <= n_tok -> 0 <= n_kv -> 0 <= d ->
  plane d (n_tok * n_kv) rows values -> length scs = length rows ->
  (forall t h, 0 <= t < n_tok -> 0 <= h < n_kv -> scale_of t h = idx scs (t * n_kv + h)) ->
  encode_rows values n_tok n_kv d scale_of naive
  = Ok (concat (zip_with encode_head scs rows).*1,
        clip_total naive (total (zip_with encode_head scs rows).*2)).
Proof.
  intros Ht Hh Hd Hp Hs Hscale. unfold encode_rows.
  pose proof (plane_length _ _ _ _ Hp) as Hlen. rewrite Hlen, Z.eqb_refl.
  replace (length values) with (Z.to_nat (n_tok * n_kv * d)) by lia.
  pose (body := fun acc g => (s ← idx scs g; fold_try (encode_cell values s (g * d)) acc (seqZ 0 d))).
  rewrite (fold_try_ext _ (fun acc t => fold_try (fun acc h => body acc (t * n_kv + h))
    acc (seqZ 0 n_kv))).
  2:{ intros acc t [Ht1 Ht2]%elem_of_seqZ. apply fold_try_ext. intros acc' h Hh'%elem_of_seqZ.
      unfold body. by rewrite Hscale by lia. }
  rewrite fold_try_nested by lia. unfold body.
  rewrite (plane_fill_count _ d (n_tok * n_kv) (zip_with encode_head scs rows)); [done|..].
  - apply Forall_lookup_2. intros i out (s & r & -> & _ & Hr)%lookup_zip_with_Some.
    rewrite encode_head_length. by apply (plane_row _ _ _ _ _ _ Hp Hr).
  - rewrite length_zip_with. destruct Hp as [_ _ Hc]. lia.
  - lia.
  - intros i out pre zs suf c Hi (s & r & -> & Hsc & Hr)%lookup_zip_with_Some Hpre Hz.
    rewrite (idx_Some _ _ _ Hi Hsc). cbn [mbind outcome_bind].
    destruct (plane_row _ _ _ _ _ _ Hp Hr) as (_ & _ & Hw). rewrite <-Hw at 2.
    apply encode_head_loop; [lia|by rewrite encode_head_length in Hz|].
    intros j x Hx. pose proof (plane_cell (E:=AttnError) _ _ _ _ _ _ _ _ Hp Hr Hx) as Hj.
    by rewrite Z2Nat.id in Hj by lia.
Qed.

(** The scale planes hold the scale of every row. *)
Lemma scale_cell_spec values d n rows i scales :
  plane d n rows values -> 0 <= i < n ->
  scales = (plane_scale <$> take (Z.to_nat i) rows)
             ++ replicate (Z.to_nat (n - i)) (S754_zero false) ->
  scale_cell values d scales i
  = Ok ((plane_scale <$> take (Z.to_nat (i + 1)) rows)
          ++ replicate (Z.to_nat (n - (i + 1))) (S754_zero false)).
Proof.
  intros Hp Hi ->. assert (Zlen rows = n) as Hc by apply Hp.
  destruct (lookup_lt_is_Some_2 rows (Z.to_nat i)) as [r Hr]; [lia|].
  destruct (plane_row _ _ _ _ _ _ Hp Hr) as (Hs & Hle & Hlen). rewrite Z2Nat.id in * by lia.
  unfold scale_cell. rewrite index_range_Ok by nia. cbn [mbind outcome_bind]. rewrite Hs.
  replace (Z.to_nat (n - i)) with (S (Z.to_nat (n - (i + 1)))) by lia. cbn [replicate].
  rewrite idx_set_app by (rewrite length_fmap, length_take; lia).
  replace (Z.to_nat (i + 1)) with (S (Z.to_nat i)) by lia.
  rewrite (take_S_r _ _ _ Hr), fmap_app. by rewrite <-app_assoc.
Qed.

Lemma encode_scales_spec k_values v_values n_tok n_kv d_qk d_v krows vrows :
  0 <= n_tok -> 0 <= n_kv ->
  plane d_qk (n_tok * n_kv) krows k_values -> plane d_v (n_tok * n_kv) vrows v_values ->
  encode_scales k_values v_values n_tok n_kv d_qk d_v
  = Ok (plane_scale <$> krows, plane_scale <$> vrows).
Proof.
  intros Ht Hh Hk Hv. unfold encode_scales, k_scale_off, v_scale_off.
  set (n := n_tok * n_kv) in *.
  pose (body := fun (acc : list spec_float * list spec_float) g =>
    let '(k_scales, v_scales) := acc in
    k_scales ← scale_cell k_values d_qk k_scales g;
    v_scales ← scale_cell v_values d_v v_scales g; Ok (k_scales, v_scales)).
  rewrite (fold_try_ext _ (fun acc t => fold_try (fun acc h => body acc (t * n_kv + h))
    acc (seqZ 0 n_kv))) by (by intros; apply fold_try_ext; intros [??] ? _).
  rewrite fold_try_nested by lia. fold n.
  destruct (fold_try_inv (fun i '(ks, vs) =>
      ks = (plane_scale <$> take (Z.to_nat i) krows) ++ replicate (Z.to_nat (n - i)) (S754_zero false) /\
      vs = (plane_scale <$> take (Z.to_nat i) vrows) ++ replicate (Z.to_nat (n - i)) (S754_zero false))
    body (replicate (Z.to_nat n) (S754_zero false), replicate (Z.to_nat n) (S754_zero false)) n)
    as ([ks vs] & -> & -> & ->).
  - nia.
  - rewrite !take_0, Z.sub_0_r. done.
  - intros i [ks vs] Hi [Hks Hvs]. unfold body.
    rewrite (scale_cell_spec _ _ _ _ _ _ Hk Hi Hks), (scale_cell_spec _ _ _ _ _ _ Hv Hi Hvs).
    eexists. split; [done|]. done.
  - assert (Zlen krows = n /\ Zlen vrows = n) as [Hck Hcv] by (split; [apply Hk|apply Hv]).
    rewrite !take_ge by lia. replace (Z.to_nat (n - n)) with O by lia. cbn. by rewrite !app_nil_r.
Qed.

(** The scale a layout gives a row. *)
Definition row_scale (layout : Layout) (row : list spec_float) : spec_float :=
  match layout with LayoutPerTokenHead => plane_scale row | _ => f32_one end.

Definition head_codes (layout : Layout) (row : list spec_float) : list Z :=
  fst (encode_head (row_scale layout row) row).
Definition head_clips (layout : Layout) (row : list spec_float) : Z :=
  snd (encode_head (row_scale layout row) row).

Definition scale_plane (layout : Layout) (rows : list (list spec_float)) : list spec_float :=
  match layout with LayoutPerTokenHead => plane_scale <$> rows | _ => [] end.

(** What is stored for rows [krows] and [vrows]. *)
Definition encoded (layout : Layout) (n_tok n_kv d_qk d_v : Z)
    (krows vrows : list (list spec_float)) (clips : Z) : EncodedKv :=
  mkEncodedKv layout n_tok n_kv d_qk d_v (concat (head_codes layout <$> krows))
    (concat (head_codes layout <$> vrows)) (scale_plane layout krows) (scale_plane layout vrows)
    [] clips.

Definition rows_clips (naive : NaiveBits) (layout : Layout) (krows vrows : list (list spec_float)) : Z :=
  clip_total naive (total (head_clips layout <$> krows))
  + clip_total naive (total (head_clips layout <$> vrows)).

Lemma zip_with_scales layout rows :
  zip_with encode_head (row_scale layout <$> rows) rows
  = (fun r => encode_head (row_scale layout r) r) <$> rows.
Proof. induction rows as [|r rows IH]; [done|]. cbn. by f_equal. Qed.

Lemma encode_rows_layout values n_tok n_kv d scale_of naive rows layout :
  0 <= n_tok -> 0 <= n_kv -> 0 <= d -> plane d (n_tok * n_kv) rows values ->
  (forall t h, 0 <= t < n_tok -> 0 <= h < n_kv ->
     scale_of t h = idx (row_scale layout <$> rows) (t * n_kv + h)) ->
  encode_rows values n_tok n_kv d scale_of naive
  = Ok (concat (head_codes layout <$> rows), clip_total naive (total (head_clips layout <$> rows))).
Proof.
  intros Ht Hh Hd Hp Hs.
  rewrite (encode_rows_spec _ _ _ _ _ _ rows (row_scale layout <$> rows)); try done.
  - rewrite zip_with_scales, <-!list_fmap_compose. done.
  - by rewrite length_fmap.
Qed.

Lemma encode_kv_spec k_values v_values n_tok n_kv d_qk d_v mode naive krows vrows :
  0 < n_tok -> 0 <= n_kv -> 0 <= d_qk -> 0 <= d_v ->
  nb_has naive BLOCK128_SHARED_SCALES = false ->
  plane d_qk (n_tok * n_kv) krows k_values -> plane d_v (n_tok * n_kv) vrows v_values ->
  let layout := Layout_of mode naive in
  encode_kv k_values v_values n_tok n_kv d_qk d_v mode naive
  = Ok (encoded layout n_tok n_kv d_qk d_v krows vrows (rows_clips naive layout krows vrows)).
Proof.
  intros Ht Hh Hdk Hdv Hnaive Hk Hv. cbv zeta. unfold encode_kv.
  rewrite (proj2 (Z.eqb_neq _ _)) by lia. unfold Layout_of. rewrite Hnaive.
  assert (Hone : forall rows n t h, Zlen rows = n_tok * n_kv -> 0 <= t < n_tok -> 0 <= h < n ->
    n = n_kv -> Ok f32_one
    = idx (E:=AttnError) (row_scale LayoutUnit <$> (rows : list (list spec_float))) (t * n_kv + h)).
  { intros rows n t h Hl Ht' Hh' ->. symmetry. apply idx_Some; [nia|].
    rewrite list_lookup_fmap.
    destruct (lookup_lt_is_Some_2 rows (Z.to_nat (t * n_kv + h))) as [r ->]; [nia|done]. }
  destruct mode.
  - rewrite (encode_rows_layout k_values n_tok n_kv d_qk _ naive krows LayoutUnit);
      [|lia..|done|intros; by eapply Hone; [apply Hk| | |]].
    rewrite (encode_rows_layout v_values n_tok n_kv d_v _ naive vrows LayoutUnit);
      [|lia..|done|intros; by eapply Hone; [apply Hv| | |]].
    done.
  - rewrite (encode_scales_spec _ _ _ _ _ _ krows vrows) by (done || lia).
    cbn [mbind outcome_bind]. unfold k_scale_off, v_scale_off.
    rewrite (encode_rows_layout k_values n_tok n_kv d_qk _ naive krows LayoutPerTokenHead);
      [|lia..|done|done].
    rewrite (encode_rows_layout v_values n_tok n_kv d_v _ naive vrows LayoutPerTokenHead);
      [|lia..|done|done].
    done.
Qed.

(** * Decoding *)

(** A row as it is read back: through its codes, under its own scale. *)
Definition cached_head (layout : Layout) (row : list spec_float) : list spec_float :=
  (fun c => decode_cell c (row_scale layout row)) <$> head_codes layout row.

Lemma cached_head_length layout row : length (cached_head layout row) = length row.
Proof. unfold cached_head, head_codes. by rewrite length_fmap, encode_head_length. Qed.

Lemma plane_fmap {A B} (f : list A -> list B) d n rows values :
  (forall r, length (f r) = length r) -> plane d n rows values ->
  plane d n (f <$> rows) (concat (f <$> rows)).
Proof.
  intros Hf [_ Hw Hc]. split; [done| |by rewrite length_fmap].
  apply Forall_fmap. eapply Forall_impl; [apply Hw|]. cbn. intros r Hr. by rewrite Hf.
Qed.

(** One plane of the decoder: row [i] under the scale of row [i]. *)
Lemma decode_plane_step codes n d rows layout i pre zs suf (scale : Z -> outcome AttnError spec_float)
    (post : spec_float -> spec_float) row :
  plane d n (head_codes layout <$> rows) codes -> rows !! Z.to_nat i = Some row -> 0 <= i ->
  (forall j, scale j = Ok (row_scale layout row)) ->
  Zlen pre = i * d -> length zs = length row ->
  fold_try (fun k j =>
      x ← (s ← scale j; c ← idx codes (i * d + j); Ok (post (decode_cell c s)));
      idx_set k (i * d + j) x) (pre ++ zs ++ suf) (seqZ 0 d)
  = Ok (pre ++ (post <$> cached_head layout row) ++ suf).
Proof.
  intros Hp Hr Hi Hs Hpre Hz.
  assert ((head_codes layout <$> rows) !! Z.to_nat i = Some (head_codes layout row)) as Hrow.
  { by rewrite list_lookup_fmap, Hr. }
  destruct (plane_row _ _ _ _ _ _ Hp Hrow) as (_ & _ & Hw).
  replace (seqZ 0 d) with (seqZ 0 (Zlen (head_codes layout row))) by (by rewrite Hw).
  assert (length (head_codes layout row) = length row) as Hlen by apply encode_head_length.
  pose proof (fill_loop (fun j => s ← scale j; c ← idx codes (i * d + j); Ok (post (decode_cell c s)))
    (post <$> cached_head layout row) pre zs suf (i * d)) as H.
  unfold cached_head in *. rewrite !length_fmap, Hlen in H. rewrite Hlen.
  apply H; [lia|done|]. intros j x Hj. rewrite Hs. cbn [mbind outcome_bind].
  rewrite !list_lookup_fmap in Hj.
  destruct (head_codes layout row !! j) as [c|] eqn:Hc; [|done]. injection Hj as <-.
  pose proof (plane_cell (E:=AttnError) _ _ _ _ _ _ _ _ Hp Hrow Hc) as Hidx.
  rewrite Z2Nat.id in Hidx by lia. by rewrite Hidx.
Qed.

Lemma concat_fmap_fmap {A B} (f : A -> B) (ls : list (list A)) :
  concat (list_fmap _ _ (fun l => f <$> l) ls) = (f <$> concat ls : list B).
Proof. induction ls as [|l ls IH]; [done|]. cbn. by rewrite fmap_app, <-IH. Qed.

Lemma encoded_scale_at layout n_tok n_kv d_qk d_v krows vrows clips t h j krow vrow :
  layout <> LayoutBlock128Shared -> 0 <= t * n_kv + h ->
  krows !! Z.to_nat (t * n_kv + h) = Some krow -> vrows !! Z.to_nat (t * n_kv + h) = Some vrow ->
  k_scale_at (encoded layout n_tok n_kv d_qk d_v krows vrows clips) t h j = Ok (row_scale layout krow) /\
  v_scale_at (encoded layout n_tok n_kv d_qk d_v krows vrows clips) t h j = Ok (row_scale layout vrow).
Proof.
  intros Hl Hi Hk Hv. unfold k_scale_at, v_scale_at, k_scale_off, v_scale_off. cbn.
  destruct layout; [done| |done]. cbn.
  split; apply idx_Some; try done; rewrite list_lookup_fmap, ?Hk, ?Hv; done.
Qed.

(** One head of the decoder, by its flat index. *)
Definition decode_step (enc : EncodedKv) (layout : Layout) (krows vrows : list (list spec_float))
    (post : spec_float -> spec_float) (acc : list spec_float * list spec_float) (g : Z)
    : outcome AttnError (list spec_float * list spec_float) :=
  let '(k, v) := acc in
  k ← fold_try (fun k i =>
        x ← (s ← idx (row_scale layout <$> krows) g;
             c ← idx (ek_k_codes enc) (g * ek_d_qk enc + i); Ok (decode_cell c s));
        idx_set k (g * ek_d_qk enc + i) x)
      k (seqZ 0 (ek_d_qk enc));
  v ← fold_try (fun v j =>
        x ← (s ← idx (row_scale layout <$> vrows) g;
             c ← idx (ek_v_codes enc) (g * ek_d_v enc + j); Ok (post (decode_cell c s)));
        idx_set v (g * ek_d_v enc + j) x)
      v (seqZ 0 (ek_d_v enc));
  Ok (k, v).

Lemma decode_kv_flat layout n_tok n_kv d_qk d_v krows vrows clips read_scale :
  layout <> LayoutBlock128Shared -> 0 <= n_tok -> 0 <= n_kv ->
  Zlen krows = n_tok * n_kv -> Zlen vrows = n_tok * n_kv ->
  let enc := encoded layout n_tok n_kv d_qk d_v krows vrows clips in
  decode_kv enc read_scale
  = fold_try (decode_step enc layout krows vrows (fun x => f32_mul x read_scale))
      (replicate (Z.to_nat (n_tok * n_kv * d_qk)) (S754_zero false),
       replicate (Z.to_nat (n_tok * n_kv * d_v)) (S754_zero false)) (seqZ 0 (n_tok * n_kv)).
Proof.
  intros Hl Ht Hh Hk Hv enc. rewrite <-fold_try_nested by lia. unfold decode_kv.
  cbn [ek_n_tok ek_n_kv ek_d_qk ek_d_v enc encoded].
  apply fold_try_ext. intros acc t Htr%elem_of_seqZ. apply fold_try_ext.
  intros [k v] h Hhr%elem_of_seqZ. unfold decode_step, k_code_off, v_code_off.
  cbn [ek_d_qk ek_d_v enc encoded]. assert (0 <= t * n_kv + h < n_tok * n_kv) as Hg by nia.
  destruct (lookup_lt_is_Some_2 krows (Z.to_nat (t * n_kv + h))) as [krow Hkr]; [lia|].
  destruct (lookup_lt_is_Some_2 vrows (Z.to_nat (t * n_kv + h))) as [vrow Hvr]; [lia|].
  assert (forall rows row, rows !! Z.to_nat (t * n_kv + h) = Some row ->
    idx (E:=AttnError) (row_scale layout <$> rows) (t * n_kv + h) = Ok (row_scale layout row)) as Hidx.
  { intros rows row Hr. apply idx_Some; [lia|]. by rewrite list_lookup_fmap, Hr. }
  rewrite (Hidx _ _ Hkr), (Hidx _ _ Hvr).
  assert (forall j, k_scale_at enc t h j = Ok (row_scale layout krow) /\
    v_scale_at enc t h j = Ok (row_scale layout vrow)) as Hs.
  { intros j. by apply encoded_scale_at; [done|lia|..]. }
  apply bind_ext; [apply fold_try_ext; intros a j _; by rewrite (proj1 (Hs j))|intros k'].
  apply bind_ext; [apply fold_try_ext; intros a j _; by rewrite (proj2 (Hs j))|done].
Qed.

Lemma decode_kv_spec layout n_tok n_kv d_qk d_v krows vrows clips read_scale kv vv :
  layout <> LayoutBlock128Shared -> 0 <= n_tok -> 0 <= n_kv -> 0 <= d_qk -> 0 <= d_v ->
  plane d_qk (n_tok * n_kv) krows kv -> plane d_v (n_tok * n_kv) vrows vv ->
  decode_kv (encoded layout n_tok n_kv d_qk d_v krows vrows clips) read_scale
  = Ok (concat (cached_head layout <$> krows),
        (fun x => f32_mul x read_scale) <$> concat (cached_head layout <$> vrows)).
Proof.
  intros Hl Ht Hh Hdk Hdv Hk Hv.
  assert (Zlen krows = n_tok * n_kv /\ Zlen vrows = n_tok * n_kv) as [Hnk Hnv]
    by (split; [apply Hk|apply Hv]).
  rewrite decode_kv_flat by done. set (post := fun x => f32_mul x read_scale).
  set (enc := encoded _ _ _ _ _ _ _ _). set (n := n_tok * n_kv) in *.
  assert (forall r, length (head_codes layout r) = length r) as Hcl by (intros; apply encode_head_length).
  pose proof (plane_fmap _ _ _ _ _ Hcl Hk) as Hkc. pose proof (plane_fmap _ _ _ _ _ Hcl Hv) as Hvc.
  destruct (fold_try_inv (fun g '(k, v) =>
      k = concat (cached_head layout <$> take (Z.to_nat g) krows)
            ++ replicate (Z.to_nat ((n - g) * d_qk)) (S754_zero false) /\
      v = concat ((fun r => post <$> cached_head layout r) <$> take (Z.to_nat g) vrows)
            ++ replicate (Z.to_nat ((n - g) * d_v)) (S754_zero false))
    (decode_step enc layout krows vrows post)
    (replicate (Z.to_nat (n * d_qk)) (S754_zero false),
     replicate (Z.to_nat (n * d_v)) (S754_zero false)) n) as ([k v] & -> & -> & ->).
  - nia.
  - rewrite !Z.sub_0_r. change (Z.to_nat 0) with O. by rewrite !take_0.
  - intros g [k v] Hg [-> ->].
    destruct (lookup_lt_is_Some_2 krows (Z.to_nat g)) as [krow Hkr]; [lia|].
    destruct (lookup_lt_is_Some_2 vrows (Z.to_nat g)) as [vrow Hvr]; [lia|].
    assert (forall rows row, rows !! Z.to_nat g = Some row ->
      idx (E:=AttnError) (row_scale layout <$> rows) g = Ok (row_scale layout row)) as Hidx.
    { intros rows row Hr. apply idx_Some; [lia|]. by rewrite list_lookup_fmap, Hr. }
    assert (forall (rows : list (list spec_float)) (f : list spec_float -> list spec_float) d,
      Forall (fun r => Zlen r = d) rows -> (forall r, length (f r) = length r) -> Zlen rows = n ->
      Zlen (concat (f <$> take (Z.to_nat g) rows)) = g * d) as Hpre.
    { intros rows f d Hw Hf Hn. rewrite (concat_uniform_length _ d), length_fmap, length_take; [f_equal; lia|].
      apply Forall_fmap, Forall_take. eapply Forall_impl; [done|]. cbn. intros r <-. by rewrite Hf. }
    assert (forall d, 0 <= d -> replicate (Z.to_nat ((n - g) * d)) (S754_zero false)
      = replicate (Z.to_nat d) (S754_zero false)
          ++ replicate (Z.to_nat ((n - (g + 1)) * d)) (S754_zero false)) as Hrep.
    { intros d Hd. rewrite <-replicate_add. f_equal. nia. }
    rewrite !Hrep by lia. unfold decode_step. cbn [ek_d_qk ek_d_v enc encoded].
    rewrite (decode_plane_step _ n d_qk krows layout g _ _ _ _ (fun x => x) krow);
      [|done|done|lia|intros; by apply Hidx|apply Hpre; [apply Hk|apply cached_head_length|done]|].
    2:{ destruct (plane_row _ _ _ _ _ _ Hk Hkr) as (_ & _ & Hw). rewrite length_replicate. lia. }
    cbn [mbind outcome_bind].
    rewrite (decode_plane_step _ n d_v vrows layout g _ _ _ _ post vrow);
      [|done|done|lia|intros; by apply Hidx| |].
    2:{ apply (Hpre vrows (fun r => post <$> cached_head layout r)); [apply Hv| |done].
        intros r. by rewrite length_fmap, cached_head_length. }
    2:{ destruct (plane_row _ _ _ _ _ _ Hv Hvr) as (_ & _ & Hw). rewrite length_replicate. lia. }
    eexists. split; [done|]. replace (Z.to_nat (g + 1)) with (S (Z.to_nat g)) by lia.
    rewrite (take_S_r _ _ _ Hkr), (take_S_r _ _ _ Hvr), !fmap_app, !concat_app.
    cbn [fmap list_fmap concat]. rewrite !app_nil_r, <-!app_assoc, list_fmap_id. done.
  - rewrite !take_ge by lia. replace (n - n) with 0 by lia. cbn [Z.mul Z.to_nat replicate].
    rewrite !app_nil_r, <-concat_fmap_fmap, <-list_fmap_compose. done.
Qed.

(** * What the cache codec does *)

Definition rows_of (d g : Z) (values : list spec_float) : list (list spec_float) :=
  (fun i => slice values (i * d) (i * d + d)) <$> seqZ 0 g.

Lemma plane_rows_of d g values :
  0 <= d -> 0 <= g -> Zlen values = g * d -> plane d g (rows_of d g values) values.
Proof.
  intros Hd Hg Hl. split.
  - pose proof (concat_slices values 0 d g ltac:(lia) Hd Hg) as H.
    unfold rows_of. rewrite (slice_whole values (0 + g * d)) in H by lia. by rewrite <-H at 1.
  - apply Forall_fmap, Forall_forall. intros i Hi%elem_of_seqZ. cbn. rewrite slice_length; nia.
  - unfold rows_of. rewrite length_fmap, length_seqZ. lia.
Qed.

Lemma rows_of_lookup d g values i :
  0 <= i < g -> rows_of d g values !! Z.to_nat i = Some (slice values (i * d) (i * d + d)).
Proof.
  intros Hi. unfold rows_of. rewrite list_lookup_fmap, lookup_seqZ_lt by lia. cbn.
  by rewrite Z.add_0_l, Z2Nat.id by lia.
Qed.

(** The stored code of [x] under scale [s], and what it reads back as. *)
Definition stored_code (s x : spec_float) : Z := encode_e4m3 (f64_of_f32 (f32_div x s)).
Definition read_back (s x : spec_float) : spec_float := decode_cell (stored_code s x) s.

Lemma cached_head_eq layout row :
  cached_head layout row = read_back (row_scale layout row) <$> row.
Proof.
  unfold cached_head, head_codes, encode_head. cbn [fst]. rewrite <-list_fmap_compose. done.
Qed.

Lemma concat_plane_cell {A B} (f : list A -> list B) d g rows values i j y :
  plane d g rows values -> (forall r, length (f r) = length r) ->
  0 <= i < g -> 0 <= j < d -> (f <$> rows) !! Z.to_nat i = Some y ->
  concat (f <$> rows) !! Z.to_nat (i * d + j) = y !! Z.to_nat j.
Proof.
  intros Hp Hf Hi Hj Hy.
  destruct (plane_row _ _ _ _ _ _ (plane_fmap _ _ _ _ _ Hf Hp) Hy) as (Hs & _ & Hl).
  rewrite <-Hs. unfold slice. rewrite lookup_take, lookup_drop, Z2Nat.id by lia.
  rewrite decide_True by lia. f_equal. nia.
Qed.

(** Cell [off = (t * n_kv + h) * d + i] of a decoded plane. *)
Lemma decoded_cell layout values d n_kv n_tok t h i x :
  0 <= n_tok -> 0 <= n_kv -> Zlen values = n_tok * n_kv * d ->
  0 <= t < n_tok -> 0 <= h < n_kv -> 0 <= i < d ->
  let g := t * n_kv + h in
  values !! Z.to_nat (g * d + i) = Some x ->
  concat (cached_head layout <$> rows_of d (n_tok * n_kv) values) !! Z.to_nat (g * d + i)
  = Some (read_back (row_scale layout (slice values (g * d) (g * d + d))) x).
Proof.
  intros Hn Hh Hl Ht Hhr Hi g Hx. assert (0 <= g < n_tok * n_kv) as Hg by (unfold g; nia).
  pose proof (plane_rows_of d (n_tok * n_kv) values ltac:(lia) ltac:(nia) Hl) as Hp.
  pose proof (rows_of_lookup d (n_tok * n_kv) values g Hg) as Hrow.
  rewrite (concat_plane_cell _ d _ _ _ g i _ Hp (cached_head_length layout) Hg Hi)
    by (by rewrite list_lookup_fmap, Hrow).
  rewrite cached_head_eq, list_lookup_fmap.
  assert (slice values (g * d) (g * d + d) !! Z.to_nat i = Some x) as ->; [|done].
  unfold slice. rewrite lookup_take, lookup_drop, decide_True by lia.
  rewrite <-Hx. f_equal. nia.
Qed.

Lemma head_codes_eq layout row : head_codes layout row = stored_code (row_scale layout row) <$> row.
Proof. done. Qed.

Lemma coded_cell layout values d n_kv n_tok t h i x :
  0 <= n_tok -> 0 <= n_kv -> Zlen values = n_tok * n_kv * d ->
  0 <= t < n_tok -> 0 <= h < n_kv -> 0 <= i < d ->
  let g := t * n_kv + h in
  values !! Z.to_nat (g * d + i) = Some x ->
  concat (head_codes layout <$> rows_of d (n_tok * n_kv) values) !! Z.to_nat (g * d + i)
  = Some (stored_code (row_scale layout (slice values (g * d) (g * d + d))) x).
Proof.
  intros Hn Hh Hl Ht Hhr Hi g Hx. assert (0 <= g < n_tok * n_kv) as Hg by (unfold g; nia).
  pose proof (plane_rows_of d (n_tok * n_kv) values ltac:(lia) ltac:(nia) Hl) as Hp.
  destruct (plane_row d _ _ _ (Z.to_nat g) (head_codes layout (slice values (g * d) (g * d + d)))
    (plane_fmap (head_codes layout) d _ _ _ (fun r => encode_head_length _ r) Hp)) as (Hs & _ & _).
  { by rewrite list_lookup_fmap, rows_of_lookup by done. }
  assert (slice values (g * d) (g * d + d) !! Z.to_nat i = Some x) as Hrow.
  { unfold slice. rewrite lookup_take, lookup_drop, decide_True by lia. rewrite <-Hx. f_equal. nia. }
  rewrite Z2Nat.id in Hs by lia.
  assert (head_codes layout (slice values (g * d) (g * d + d)) !! Z.to_nat i
    = Some (stored_code (row_scale layout (slice values (g * d) (g * d + d))) x)) as Hc
    by (by rewrite head_codes_eq, list_lookup_fmap, Hrow).
  rewrite <-Hs in Hc. unfold slice at 1 in Hc.
  rewrite lookup_take, lookup_drop, decide_True in Hc by lia.
  rewrite <-Hc. f_equal. nia.
Qed.

Lemma concat_length_eq {A B} (f : list A -> list B) d g rows values :
  (forall r, length (f r) = length r) -> plane d g rows values ->
  Zlen (concat (f <$> rows)) = Zlen values.
Proof.
  intros Hf Hp. by rewrite (plane_length _ _ _ _ Hp), (plane_length _ _ _ _ (plane_fmap f _ _ _ _ Hf Hp)).
Qed.

Definition mode_scale (mode : ScaleMode) (row : list spec_float) : spec_float :=
  match mode with ScaleUnit => f32_one | ScalePerTokenHead => plane_scale row end.

Lemma row_scale_of mode naive row :
  nb_has naive BLOCK128_SHARED_SCALES = false ->
  row_scale (Layout_of mode naive) row = mode_scale mode row /\
  Layout_of mode naive <> LayoutBlock128Shared.
Proof. intros H. unfold Layout_of. rewrite H. by destruct mode. Qed.

(** Storing keys and values in the FP8 cache and reading them back succeeds for
    planes of the declared shape, and each cell reads back as its own value
    quantised under the scale of its own token and head -- one, or its row's
    amax/448 in the per-token-head layout -- independently of every other row,
    with the code byte stored at the offset the layout declares. *)
Theorem fp8_store_then_load k v n_tok n_kv d_qk d_v mode naive read_scale :
  0 < n_tok -> 0 <= n_kv -> 0 <= d_qk -> 0 <= d_v ->
  nb_has naive BLOCK128_SHARED_SCALES = false ->
  Zlen k = n_tok * n_kv * d_qk -> Zlen v = n_tok * n_kv * d_v ->
  exists enc k' v',
    encode_kv k v n_tok n_kv d_qk d_v mode naive = Ok enc /\
    decode_kv enc read_scale = Ok (k', v') /\
    Zlen k' = Zlen k /\ Zlen v' = Zlen v /\
    (forall t h i x, 0 <= t < n_tok -> 0 <= h < n_kv -> 0 <= i < d_qk ->
       let off := k_code_off t h i n_kv d_qk in
       let row := slice k (k_code_off t h 0 n_kv d_qk) (k_code_off t h 0 n_kv d_qk + d_qk) in
       k !! Z.to_nat off = Some x ->
       ek_k_codes enc !! Z.to_nat off = Some (stored_code (mode_scale mode row) x) /\
       k' !! Z.to_nat off = Some (read_back (mode_scale mode row) x)) /\
    (forall t h j x, 0 <= t < n_tok -> 0 <= h < n_kv -> 0 <= j < d_v ->
       let off := v_code_off t h j n_kv d_v in
       let row := slice v (v_code_off t h 0 n_kv d_v) (v_code_off t h 0 n_kv d_v + d_v) in
       v !! Z.to_nat off = Some x ->
       ek_v_codes enc !! Z.to_nat off = Some (stored_code (mode_scale mode row) x) /\
       v' !! Z.to_nat off = Some (f32_mul (read_back (mode_scale mode row) x) read_scale)).
Proof.
  intros Ht Hh Hdk Hdv Hnaive Hk Hv. assert (0 <= n_tok * n_kv) as Hg by nia.
  pose proof (plane_rows_of d_qk _ k Hdk Hg Hk) as Hpk.
  pose proof (plane_rows_of d_v _ v Hdv Hg Hv) as Hpv.
  destruct (row_scale_of mode naive [] Hnaive) as [_ Hl].
  rewrite (encode_kv_spec _ _ _ _ _ _ mode naive _ _ Ht Hh Hdk Hdv Hnaive Hpk Hpv).
  eexists _, _, _. split; [done|].
  rewrite (decode_kv_spec _ _ _ _ _ _ _ _ _ k v) by (done || lia). split; [done|].
  rewrite length_fmap. split_and!.
  - apply (concat_length_eq _ d_qk (n_tok * n_kv)); [apply cached_head_length|done].
  - apply (concat_length_eq _ d_v (n_tok * n_kv)); [apply cached_head_length|done].
  - intros t h i x Htr Hhr Hir off row Hx. unfold off, row, k_code_off in *. rewrite Z.add_0_r.
    rewrite <-(proj1 (row_scale_of mode naive _ Hnaive)). cbn [ek_k_codes encoded].
    split; [apply coded_cell|apply decoded_cell]; (done || lia).
  - intros t h i x Htr Hhr Hir off row Hx. unfold off, row, v_code_off in *. rewrite Z.add_0_r.
    rewrite <-(proj1 (row_scale_of mode naive _ Hnaive)). cbn [ek_v_codes encoded].
    split; [apply coded_cell; (done || lia)|].
    rewrite list_lookup_fmap, (decoded_cell _ _ _ _ n_tok t h i x) by (done || lia). done.
Qed.

Example fp8_store_then_load_witness :
  let k := [f64_of_Z 3; f32_one; f32_normalize 5 (-1); f32_normalize 7 0] in
  let v := [f32_one; f32_normalize (-9) (-2)] in
  exists enc k' v',
    encode_kv k v 1 2 2 1 ScalePerTokenHead nb_NONE = Ok enc /\
    decode_kv enc f32_one = Ok (k', v') /\ Zlen k' = 4 /\ Zlen v' = 2.
Proof.
  intros k v.
  destruct (fp8_store_then_load k v 1 2 2 1 ScalePerTokenHead nb_NONE f32_one)
    as (enc & k' & v' & H1 & H2 & H3 & H4 & _); [done..|].
  exists enc, k', v'. done.
Defined.

(** A value whose [f32] is exactly an E4M3 value ([-0.0] aside). *)
Definition representable (x : spec_float) : Prop :=
  exists c, is_byte c /\ c <> 0x7F /\ c <> 0xFF /\ c <> 0x80 /\ x = f32_of_f64 (decode_e4m3 c).

Lemma representable_exact x :
  representable x ->
  read_back f32_one x = x /\ f32_mul x f32_one = x /\ clips_of (f64_of_f32 (f32_div x f32_one)) = 0.
Proof.
  intros (c & Hc & H1 & H2 & H3 & ->).
  pose (sf_eqb := fun a b => match a, b with
    | S754_zero s, S754_zero t => Bool.eqb s t
    | S754_finite s m e, S754_finite t n f => Bool.eqb s t && (m =? n)%positive && (e =? f)
    | _, _ => false end).
  assert (Heq : forall a b, sf_eqb a b = true -> a = b).
  { intros [s|s| |s m e] [t|t| |t n f]; cbn; try done.
    - by intros ->%Bool.eqb_prop.
    - intros [[->%Bool.eqb_prop ->%Pos.eqb_eq]%andb_true_iff ->%Z.eqb_eq]%andb_true_iff. done. }
  pose (P := fun c => let x := f32_of_f64 (decode_e4m3 c) in
    (c =? 0x7F) || (c =? 0xFF) || (c =? 0x80) ||
    (sf_eqb (read_back f32_one x) x && sf_eqb (f32_mul x f32_one) x
     && (clips_of (f64_of_f32 (f32_div x f32_one)) =? 0))).
  assert (P c = true) as HP.
  { assert (forallb P (seqZ 0 256) = true) as Hall by (by vm_compute).
    rewrite forallb_forall in Hall. apply Hall, list_elem_of_In, elem_of_seqZ. width. }
  unfold P in HP. rewrite !(proj2 (Z.eqb_neq _ _)) in HP by done. cbn [orb] in HP.
  apply andb_true_iff in HP as [[Ha%Heq Hb%Heq]%andb_true_iff Hd%Z.eqb_eq]. done.
Qed.

Lemma total_zero l : Forall (Z.le 0) l -> total l = 0 <-> Forall (fun x => x = 0) l.
Proof.
  induction 1 as [|x l Hx Hl IH]; [done|]. rewrite Forall_cons. unfold total in *. cbn.
  assert (0 <= foldr Z.add 0 l) by (clear -Hl; induction Hl; cbn; lia).
  rewrite <-IH. lia.
Qed.

Lemma clips_of_nonneg q : 0 <= clips_of q.
Proof. unfold clips_of. destruct SFltb; lia. Qed.

Lemma unit_clips_total rows :
  total (head_clips LayoutUnit <$> rows)
  = total ((fun x => clips_of (f64_of_f32 (f32_div x f32_one))) <$> concat rows).
Proof.
  induction rows as [|r rows IH]; [done|]. cbn [fmap list_fmap concat].
  rewrite fmap_app, total_app, <-IH. done.
Qed.

Lemma unit_clips_zero l :
  total ((fun x => clips_of (f64_of_f32 (f32_div x f32_one))) <$> l) = 0
  <-> Forall (fun x => clips_of (f64_of_f32 (f32_div x f32_one)) = 0) l.
Proof.
  rewrite total_zero by (apply Forall_fmap, Forall_forall; intros; apply clips_of_nonneg).
  by rewrite Forall_fmap.
Qed.

(** In the unit-scale layout the cache is exact on values that are E4M3 values:
    they read back unchanged.  The clip count is the amax gate: unless the naive
    switch silences it, it is zero exactly when no key and no value exceeds 448 in
    magnitude, so clamping is never hidden. *)
Theorem fp8_unit_gate k v n_tok n_kv d_qk d_v naive :
  0 < n_tok -> 0 <= n_kv -> 0 <= d_qk -> 0 <= d_v ->
  nb_has naive BLOCK128_SHARED_SCALES = false ->
  Zlen k = n_tok * n_kv * d_qk -> Zlen v = n_tok * n_kv * d_v ->
  Forall f32_valid (k ++ v) ->
  exists enc,
    encode_kv k v n_tok n_kv d_qk d_v ScaleUnit naive = Ok enc /\
    (Forall representable (k ++ v) -> decode_kv enc f32_one = Ok (k, v)) /\
    (if nb_has naive SILENT_CLAMP then ek_clip_count enc = 0
     else ek_clip_count enc = 0 <->
          Forall (fun x => SFltb E4M3_MAX (SFabs (f64_of_f32 x)) = false) (k ++ v)).
Proof.
  intros Ht Hh Hdk Hdv Hnaive Hk Hv Hvalid. assert (0 <= n_tok * n_kv) as Hg by nia.
  pose proof (plane_rows_of d_qk _ k Hdk Hg Hk) as Hpk.
  pose proof (plane_rows_of d_v _ v Hdv Hg Hv) as Hpv.
  rewrite (encode_kv_spec _ _ _ _ _ _ ScaleUnit naive _ _ Ht Hh Hdk Hdv Hnaive Hpk Hpv).
  eexists. split; [done|]. unfold Layout_of. rewrite Hnaive. split.
  - intros Hrep. rewrite (decode_kv_spec _ _ _ _ _ _ _ _ _ k v) by (done || lia).
    assert (forall rows values, rows = concat values -> Forall representable rows ->
      concat (cached_head LayoutUnit <$> values) = rows) as Hid.
    { intros rows values -> Hr. transitivity (concat ((fun l => l) <$> values)).
      - f_equal. apply list_fmap_ext. intros i row Hi. rewrite cached_head_eq. cbn [row_scale].
        rewrite <-(list_fmap_id row) at 2. apply list_fmap_ext. intros j x Hx.
        apply representable_exact. rewrite Forall_concat in Hr.
        apply (Forall_lookup_1 _ _ _ _ (Forall_lookup_1 _ _ _ _ Hr Hi) Hx).
      - by rewrite list_fmap_id. }
    apply Forall_app in Hrep as [Hrk Hrv].
    rewrite (Hid k), (Hid v) by (done || apply pl_values in Hpk, Hpv; done).
    do 2 f_equal. rewrite <-(list_fmap_id v) at 2. apply list_fmap_ext. intros j x Hx.
    apply representable_exact. apply (Forall_lookup_1 _ _ _ _ Hrv Hx).
  - unfold rows_clips, clip_total. cbn [ek_clip_count encoded].
    destruct (nb_has naive SILENT_CLAMP); [done|].
    rewrite !unit_clips_total, <-(pl_values _ _ _ _ Hpk), <-(pl_values _ _ _ _ Hpv).
    rewrite <-total_app, <-fmap_app, unit_clips_zero.
    split; intros H; apply Forall_forall; intros x Hx;
      apply (proj1 (Forall_forall _ _) H) in Hx as Hc;
      pose proof (proj1 (Forall_forall _ _) Hvalid x Hx) as Hxv;
      rewrite f32_div_one in * by done; unfold clips_of in *; by destruct SFltb.
Qed.

Example fp8_unit_gate_witness :
  let k := [f32_one; f32_normalize 3 (-1)] in
  let v := [f32_normalize (-7) 0] in
  exists enc, encode_kv k v 1 1 2 1 ScaleUnit nb_NONE = Ok enc /\
    (Forall representable (k ++ v) -> decode_kv enc f32_one = Ok (k, v)) /\
    (ek_clip_count enc = 0 <->
     Forall (fun x => SFltb E4M3_MAX (SFabs (f64_of_f32 x)) = false) (k ++ v)).
Proof.
  intros k v. apply (fp8_unit_gate k v 1 1 2 1 nb_NONE); try done.
  repeat constructor.
Defined.

(** The bytes the encoder stores are the bytes the accounting charges: codes
    plus scale planes come to [kv_bytes_per_token] per token, the nine global
    layers' charge per token is that figure at the model's dimensions, and the
    totals are the pinned 11,520 bytes per token, 12,779,520 per sliding ring and
    2,949,120 per page, which are the constants the coordinator's pool uses. *)
Theorem kv_byte_accounting k v n_tok n_kv d_qk d_v mode naive :
  0 < n_tok -> 0 <= n_kv -> 0 <= d_qk -> 0 <= d_v ->
  nb_has naive BLOCK128_SHARED_SCALES = false ->
  Zlen k = n_tok * n_kv * d_qk -> Zlen v = n_tok * n_kv * d_v ->
  (exists enc, encode_kv k v n_tok n_kv d_qk d_v mode naive = Ok enc /\
     Zlen (ek_k_codes enc) + Zlen (ek_v_codes enc)
       + SCALE_BYTES * (Zlen (ek_k_scales enc) + Zlen (ek_v_scales enc) + Zlen (ek_shared_scales enc))
     = n_tok * kv_bytes_per_token (Layout_of mode naive) n_kv d_qk d_v) /\
  ga_kv_bytes_per_token mode
    = N_GA * kv_bytes_per_token (Layout_of mode naive) GA_KV_HEADS D_QK D_V /\
  swa_ring_bytes_per_seq mode
    = WINDOW * (N_SWA * kv_bytes_per_token (Layout_of mode naive) SWA_KV_HEADS D_QK D_V) /\
  ga_kv_bytes_per_token ScaleUnit = 11520 /\ ga_kv_bytes_per_token ScalePerTokenHead = 11808 /\
  swa_ring_bytes_per_seq ScaleUnit = 12779520 /\ ga_page_bytes ScaleUnit = 2949120 /\
  KvPool.GA_KV_BYTES_PER_TOKEN = ga_kv_bytes_per_token ScaleUnit /\
  KvPool.SWA_RING_BYTES_PER_SEQ = swa_ring_bytes_per_seq ScaleUnit.
Proof.
  intros Ht Hh Hdk Hdv Hnaive Hk Hv. assert (0 <= n_tok * n_kv) as Hg by nia.
  pose proof (plane_rows_of d_qk _ k Hdk Hg Hk) as Hpk.
  pose proof (plane_rows_of d_v _ v Hdv Hg Hv) as Hpv.
  split; [|unfold Layout_of; rewrite Hnaive; split_and!; by destruct mode].
  rewrite (encode_kv_spec _ _ _ _ _ _ mode naive _ _ Ht Hh Hdk Hdv Hnaive Hpk Hpv).
  eexists. split; [done|].
  cbn [ek_k_codes ek_v_codes ek_k_scales ek_v_scales ek_shared_scales encoded].
  pose proof (concat_length_eq (head_codes (Layout_of mode naive)) _ _ _ _
    (fun r => encode_head_length _ r) Hpk) as ->.
  pose proof (concat_length_eq (head_codes (Layout_of mode naive)) _ _ _ _
    (fun r => encode_head_length _ r) Hpv) as ->.
  pose proof (pl_count _ _ _ _ Hpk) as Hck. pose proof (pl_count _ _ _ _ Hpv) as Hcv.
  unfold Layout_of. rewrite Hnaive, Hk, Hv.
  destruct mode; unfold kv_bytes_per_token, SCALE_BYTES; cbn [scale_plane];
    rewrite ?length_fmap, ?Hck, ?Hcv; cbn [length]; lia.
Qed.

Example kv_byte_accounting_witness :
  exists enc, encode_kv [f32_one; f32_one; f32_one; f32_one] [f32_one; f32_one] 2 1 2 1
      ScalePerTokenHead nb_NONE = Ok enc /\
    Zlen (ek_k_codes enc) + Zlen (ek_v_codes enc)
      + SCALE_BYTES * (Zlen (ek_k_scales enc) + Zlen (ek_v_scales enc) + Zlen (ek_shared_scales enc))
    = 2 * kv_bytes_per_token (Layout_of ScalePerTokenHead nb_NONE) 1 2 1.
Proof.
  apply (kv_byte_accounting [f32_one; f32_one; f32_one; f32_one] [f32_one; f32_one] 2 1 2 1
    ScalePerTokenHead nb_NONE); done.
Defined.
