(* ===== verification/KvCache.v ===== *)
(** [crates/mimo26-attn/src/cache.rs]: the row store of one layer, the sliding
    ring and the paged global-attention cache.  Methods return the new object next
    to their result; row arguments are flat vectors of binary32 values. *)
From Stdlib Require Import ZArith Lia Bool SpecFloat.
From stdpp Require Import base list gmap strings.
From S2P Require Import Prelude Floats E4m3 Fp8Kv.

(** * Row store *)

Inductive StoreMode := SmF32 | SmFp8Unit | SmFp8PerTokenHead.

Definition scale_mode (m : StoreMode) : option ScaleMode :=
  match m with
  | SmF32 => None
  | SmFp8Unit => Some ScaleUnit
  | SmFp8PerTokenHead => Some ScalePerTokenHead
  end.

Record RowStore := mkRowStore {
  rs_mode : StoreMode;
  rs_n_kv : Z;
  rs_d_qk : Z;
  rs_d_v : Z;
  rs_value_scale : spec_float;
  rs_f32_k : list spec_float;
  rs_f32_v : list spec_float;
  rs_enc : option EncodedKv;
  rs_n_rows : Z;
}.

Definition RowStore_new (mode : StoreMode) (n_kv d_qk d_v : Z) (value_scale : spec_float)
    : RowStore := mkRowStore mode n_kv d_qk d_v value_scale [] [] None 0.

(** [assert_eq!] on the layout and head count, then one plane after another. *)
Definition merge_encoded (dst src : EncodedKv) : outcome AttnError EncodedKv :=
  if decide (ek_layout dst = ek_layout src) then
    if ek_n_kv dst =? ek_n_kv src then
      Ok (mkEncodedKv (ek_layout dst) (ek_n_tok dst + ek_n_tok src) (ek_n_kv dst) (ek_d_qk dst)
            (ek_d_v dst) (ek_k_codes dst ++ ek_k_codes src) (ek_v_codes dst ++ ek_v_codes src)
            (ek_k_scales dst ++ ek_k_scales src) (ek_v_scales dst ++ ek_v_scales src)
            (ek_shared_scales dst ++ ek_shared_scales src)
            (ek_clip_count dst + ek_clip_count src))
    else Panic
  else Panic.

Definition RowStore_append (s : RowStore) (k_raw v_raw : list spec_float) (n : Z)
    (naive : NaiveBits) : outcome AttnError RowStore :=
  if negb (Zlen k_raw =? n * rs_n_kv s * rs_d_qk s) || negb (Zlen v_raw =? n * rs_n_kv s * rs_d_v s)
  then Err ShapeMismatch
  else if n =? 0 then Ok s
  else
    let sc := if nb_has naive VSCALE_AFTER_STORE then f32_one else rs_value_scale s in
    let v_stored := (fun x => f32_mul x sc) <$> v_raw in
    '(f32_k, f32_v, enc) ←
      match scale_mode (rs_mode s) with
      | None => Ok (rs_f32_k s ++ k_raw, rs_f32_v s ++ v_stored, rs_enc s)
      | Some mode =>
        chunk ← encode_kv k_raw v_stored n (rs_n_kv s) (rs_d_qk s) (rs_d_v s) mode naive;
        enc ← match rs_enc s with
              | None => Ok chunk
              | Some dst => merge_encoded dst chunk
              end;
        Ok (rs_f32_k s, rs_f32_v s, Some enc)
      end;
    Ok (mkRowStore (rs_mode s) (rs_n_kv s) (rs_d_qk s) (rs_d_v s) (rs_value_scale s) f32_k f32_v
          enc (rs_n_rows s + n)).

Definition RowStore_rows (s : RowStore) (naive : NaiveBits)
    : outcome AttnError (list spec_float * list spec_float) :=
  let read_scale := if nb_has naive VSCALE_ON_READ then rs_value_scale s else f32_one in
  match rs_mode s with
  | SmF32 =>
    let v := if SFeqb read_scale f32_one then rs_f32_v s
             else (fun x => f32_mul x read_scale) <$> rs_f32_v s in
    Ok (rs_f32_k s, v)
  | _ =>
    match rs_enc s with
    | None => Panic
    | Some enc => decode_kv enc read_scale
    end
  end.

Definition RowStore_rows_range (s : RowStore) (lo hi : Z) (naive : NaiveBits)
    : outcome AttnError (list spec_float * list spec_float) :=
  if (hi <=? rs_n_rows s) && (lo <=? hi) then
    '(k, v) ← RowStore_rows s naive;
    let klen := rs_n_kv s * rs_d_qk s in
    let vlen := rs_n_kv s * rs_d_v s in
    k ← index_range k (lo * klen) (hi * klen);
    v ← index_range v (lo * vlen) (hi * vlen);
    Ok (k, v)
  else Panic.

(** [v.drain(..n)]. *)
Definition drain_front {A} (v : list A) (n : Z) : outcome AttnError (list A) :=
  if n <=? Zlen v then Ok (drop (Z.to_nat n) v) else Panic.

Definition RowStore_drop_front (s : RowStore) (n : Z) : outcome AttnError RowStore :=
  if n <=? rs_n_rows s then
    if n =? 0 then Ok s
    else
      let klen := rs_n_kv s * rs_d_qk s in
      let vlen := rs_n_kv s * rs_d_v s in
      '(f32_k, f32_v, enc) ←
        match rs_mode s with
        | SmF32 =>
          f32_k ← drain_front (rs_f32_k s) (n * klen);
          f32_v ← drain_front (rs_f32_v s) (n * vlen);
          Ok (f32_k, f32_v, rs_enc s)
        | _ =>
          match rs_enc s with
          | None => Panic
          | Some enc =>
            k_codes ← drain_front (ek_k_codes enc) (n * klen);
            v_codes ← drain_front (ek_v_codes enc) (n * vlen);
            '(k_scales, v_scales, shared) ←
              match ek_layout enc with
              | LayoutPerTokenHead =>
                ks ← drain_front (ek_k_scales enc) (n * rs_n_kv s);
                vs ← drain_front (ek_v_scales enc) (n * rs_n_kv s);
                Ok (ks, vs, ek_shared_scales enc)
              | LayoutBlock128Shared =>
                let blocks := shared_blocks_per_row (rs_n_kv s) (rs_d_qk s) (rs_d_v s) in
                sh ← drain_front (ek_shared_scales enc) (n * blocks);
                Ok (ek_k_scales enc, ek_v_scales enc, sh)
              | LayoutUnit => Ok (ek_k_scales enc, ek_v_scales enc, ek_shared_scales enc)
              end;
            Ok (rs_f32_k s, rs_f32_v s,
                Some (mkEncodedKv (ek_layout enc) (Z.max 0 (ek_n_tok enc - n)) (ek_n_kv enc)
                        (ek_d_qk enc) (ek_d_v enc) k_codes v_codes k_scales v_scales shared
                        (ek_clip_count enc)))
          end
        end;
      Ok (mkRowStore (rs_mode s) (rs_n_kv s) (rs_d_qk s) (rs_d_v s) (rs_value_scale s) f32_k f32_v
            enc (rs_n_rows s - n))
  else Panic.

(** * Sliding ring *)

Record SwaRing := mkSwaRing { sw_store : RowStore; sw_pos : list Z; sw_window : Z }.

Definition SwaRing_new (mode : StoreMode) (n_kv d_qk d_v window : Z) (value_scale : spec_float)
    : SwaRing := mkSwaRing (RowStore_new mode n_kv d_qk d_v value_scale) [] window.

Definition i64_check (z : Z) : outcome AttnError Z :=
  if (- 2 ^ 63 <=? z) && (z <? 2 ^ 63) then Ok z else Panic.

(** [window as i64]. *)
Definition as_i64 (n : Z) : Z := (n + 2 ^ 63) mod 2 ^ 64 - 2 ^ 63.

(** [while lo < hi { .. }] *)
Fixpoint lower_bound_loop (fuel : nat) (v : list Z) (x lo hi : Z) : outcome AttnError Z :=
  match fuel with
  | O => Ok lo
  | S fuel =>
    if lo <? hi then
      let mid := (lo + hi) / 2 in
      y ← idx v mid;
      if y <? x then lower_bound_loop fuel v x (mid + 1) hi else lower_bound_loop fuel v x lo mid
    else Ok lo
  end.

Definition lower_bound_i64 (v : list Z) (x : Z) : outcome AttnError Z :=
  lower_bound_loop (length v) v x 0 (Zlen v).

(** [iter().copied().min()] *)
Definition list_min (l : list Z) : option Z :=
  match l with [] => None | x :: l => Some (foldl Z.min x l) end.

Definition evict_count (r : SwaRing) (batch_rows : Z) (naive : NaiveBits) : outcome AttnError Z :=
  let n := Zlen (sw_pos r) in
  if nb_has naive EVICT_KEEP_LAST then Ok (Z.max 0 (n - sw_window r))
  else
    batch ← index_range (sw_pos r) (n - batch_rows) n;
    let batch_min := default 0 (list_min batch) in
    keep_from ← i64_check (batch_min - as_i64 (sw_window r));
    keep_from ← i64_check (keep_from + 1);
    drop_keep ← lower_bound_i64 (sw_pos r) keep_from;
    trim_to ← usize_add (sw_window r) batch_rows;
    let drop_trim := Z.max 0 (n - trim_to) in
    Ok (Z.min n (Z.max drop_keep drop_trim)).

Definition SwaRing_append (r : SwaRing) (k_raw v_raw : list spec_float) (positions : list Z)
    (naive : NaiveBits) : outcome AttnError SwaRing :=
  let n := Zlen positions in
  match positions with
  | [] => Ok r
  | first :: _ =>
    if match last (sw_pos r) with Some l => first <? l | None => false end then Err KvLayout
    else
      store ← RowStore_append (sw_store r) k_raw v_raw n naive;
      let r := mkSwaRing store (sw_pos r ++ positions) (sw_window r) in
      drop ← evict_count r n naive;
      if drop >? 0 then
        store ← RowStore_drop_front (sw_store r) drop;
        pos ← drain_front (sw_pos r) drop;
        Ok (mkSwaRing store pos (sw_window r))
      else Ok r
  end.

Definition SwaRing_get (r : SwaRing) (naive : NaiveBits)
    : outcome AttnError (list spec_float * list spec_float * list Z) :=
  '(k, v) ← RowStore_rows (sw_store r) naive;
  Ok (k, v, sw_pos r).

(** * Paged global-attention cache *)

Record GaPaged := mkGaPaged {
  gp_template : RowStore;
  gp_page_tokens : Z;
  gp_page_table : list Z;
  gp_slots : list RowStore;
  gp_n_rows : Z;
}.

Definition GaPaged_new (mode : StoreMode) (n_kv d_qk d_v : Z) (value_scale : spec_float) : GaPaged :=
  mkGaPaged (RowStore_new mode n_kv d_qk d_v value_scale) PAGE_TOKENS [] [] 0.

Definition with_page_tokens (g : GaPaged) (page_tokens : Z) : outcome AttnError GaPaged :=
  if page_tokens >=? 1 then
    Ok (mkGaPaged (gp_template g) page_tokens (gp_page_table g) (gp_slots g) (gp_n_rows g))
  else Panic.

Definition page_of (g : GaPaged) (token : Z) : Z * Z :=
  (token / gp_page_tokens g, token mod gp_page_tokens g).

Definition slot_of (g : GaPaged) (logical_page : Z) : outcome AttnError Z :=
  idx (gp_page_table g) logical_page.

Definition allocated_pages (g : GaPaged) : Z := Zlen (gp_slots g).

Definition kv_dims (g : GaPaged) : Z * Z * Z :=
  (rs_n_kv (gp_template g), rs_d_qk (gp_template g), rs_d_v (gp_template g)).

Definition pool_bytes (g : GaPaged) (naive : NaiveBits) : Z :=
  let '(n_kv, d_qk, d_v) := kv_dims g in
  match scale_mode (rs_mode (gp_template g)) with
  | None => allocated_pages g * gp_page_tokens g * n_kv * (d_qk + d_v) * 4
  | Some m =>
    allocated_pages g * gp_page_tokens g * kv_bytes_per_token (Layout_of m naive) n_kv d_qk d_v
  end.

(** [if logical_page == self.page_table.len() { .. }] *)
Definition allocate_page (g : GaPaged) (logical_page : Z) : GaPaged :=
  if logical_page =? Zlen (gp_page_table g) then
    let '(n_kv, d_qk, d_v) := kv_dims g in
    let fresh := RowStore_new (rs_mode (gp_template g)) n_kv d_qk d_v
                   (rs_value_scale (gp_template g)) in
    mkGaPaged (gp_template g) (gp_page_tokens g) (gp_page_table g ++ [Zlen (gp_slots g)])
      (gp_slots g ++ [fresh]) (gp_n_rows g)
  else g.

(** One pass of [while done < n]: the pages and rows it leaves, and how far it got. *)
Definition append_page (g : GaPaged) (k_raw v_raw : list spec_float) (n done_ : Z)
    (naive : NaiveBits) : outcome AttnError (GaPaged * Z) :=
  let '(n_kv, d_qk, d_v) := kv_dims g in
  let klen := n_kv * d_qk in
  let vlen := n_kv * d_v in
  let '(logical_page, off) := page_of g (gp_n_rows g) in
  let take := Z.min (gp_page_tokens g - off) (n - done_) in
  let g := allocate_page g logical_page in
  slot ← slot_of g logical_page;
  k ← index_range k_raw (done_ * klen) ((done_ + take) * klen);
  v ← index_range v_raw (done_ * vlen) ((done_ + take) * vlen);
  store ← idx (gp_slots g) slot;
  store ← RowStore_append store k v take naive;
  slots ← idx_set (gp_slots g) slot store;
  Ok (mkGaPaged (gp_template g) (gp_page_tokens g) (gp_page_table g) slots (gp_n_rows g + take),
      done_ + take).

(** [fuel] is at least [n - done_]; an [Err] carries no state because no pass can
    return one on planes of the declared width. *)
Fixpoint append_loop (fuel : nat) (g : GaPaged) (k_raw v_raw : list spec_float) (n done_ : Z)
    (naive : NaiveBits) : outcome AttnError GaPaged :=
  match fuel with
  | O => Ok g
  | S fuel =>
    if done_ <? n then
      '(g, done_) ← append_page g k_raw v_raw n done_ naive;
      append_loop fuel g k_raw v_raw n done_ naive
    else Ok g
  end.

Definition GaPaged_append (g : GaPaged) (k_raw v_raw : list spec_float) (n : Z)
    (naive : NaiveBits) : outcome AttnError GaPaged :=
  append_loop (Z.to_nat n) g k_raw v_raw n 0 naive.

(** [while t < hi { .. }]: [fuel] is at least [hi - t]. *)
Fixpoint rows_range_loop (fuel : nat) (g : GaPaged) (t hi : Z) (naive : NaiveBits)
    (k v : list spec_float) : outcome AttnError (list spec_float * list spec_float) :=
  match fuel with
  | O => Ok (k, v)
  | S fuel =>
    if t <? hi then
      let '(page, off) := page_of g t in
      let take := Z.min (gp_page_tokens g - off) (hi - t) in
      slot ← slot_of g page;
      store ← idx (gp_slots g) slot;
      '(pk, pv) ← RowStore_rows_range store off (off + take) naive;
      rows_range_loop fuel g (t + take) hi naive (k ++ pk) (v ++ pv)
    else Ok (k, v)
  end.

Definition GaPaged_rows_range (g : GaPaged) (lo hi : Z) (naive : NaiveBits)
    : outcome AttnError (list spec_float * list spec_float) :=
  if (hi <=? gp_n_rows g) && (lo <=? hi) then
    rows_range_loop (Z.to_nat (hi - lo)) g lo hi naive [] []
  else Panic.

Definition page_rows (g : GaPaged) (logical_page : Z) (naive : NaiveBits)
    : outcome AttnError (list spec_float * list spec_float) :=
  slot ← slot_of g logical_page;
  let lo := logical_page * gp_page_tokens g in
  let hi := Z.min (lo + gp_page_tokens g) (gp_n_rows g) in
  if hi >? lo then
    store ← idx (gp_slots g) slot;
    RowStore_rows_range store 0 (hi - lo) naive
  else Panic.

#[export] Instance StoreMode_eq_dec : EqDecision StoreMode.
Proof. solve_decision. Defined.
