(* ===== verification/KvCacheProofs.v ===== *)
(** The row store by head rows, and the paged cache as a refinement of one row
    store: whatever the pages are, a range reads as the same range of a single
    store that was given the same rows. *)
From Stdlib Require Import ZArith Lia Bool SpecFloat.
From stdpp Require Import base list gmap strings.
From S2P Require Import Prelude Floats E4m3 Fp8Kv Fp8KvProofs KvCache.

(** * Row stores *)

(** Naive switches that change what a store holds or returns are off. *)
Record clean (naive : NaiveBits) : Prop := {
  cl_block : nb_has naive BLOCK128_SHARED_SCALES = false;
  cl_store : nb_has naive VSCALE_AFTER_STORE = false;
  cl_read : nb_has naive VSCALE_ON_READ = false;
  cl_evict : nb_has naive EVICT_KEEP_LAST = false;
}.

Lemma clean_none : clean nb_NONE.
Proof. by split. Qed.

(** The layout of a mode; [F32] has none and the choice does not matter. *)
Definition store_layout (m : StoreMode) : Layout :=
  match m with SmFp8PerTokenHead => LayoutPerTokenHead | _ => LayoutUnit end.

Lemma layout_of_mode m mode naive :
  scale_mode m = Some mode -> clean naive -> Layout_of mode naive = store_layout m.
Proof. intros Hm [Hb _ _ _]. unfold Layout_of. rewrite Hb. destruct m; by simplify_eq/=. Qed.

(** How a row reads back. *)
Definition view_head (m : StoreMode) (row : list spec_float) : list spec_float :=
  match m with SmF32 => row | _ => cached_head (store_layout m) row end.
Definition view_v_head (m : StoreMode) (row : list spec_float) : list spec_float :=
  match m with SmF32 => row | _ => (fun x => f32_mul x f32_one) <$> cached_head (store_layout m) row end.

Lemma view_head_length m row : length (view_head m row) = length row.
Proof. destruct m; [done|apply cached_head_length..]. Qed.
Lemma view_v_head_length m row : length (view_v_head m row) = length row.
Proof. destruct m; [done|unfold view_v_head; by rewrite length_fmap, cached_head_length..]. Qed.

Record dims := mkDims { dm_mode : StoreMode; dm_kv : Z; dm_qk : Z; dm_v : Z; dm_scale : spec_float }.

Definition store_dims (s : RowStore) : dims :=
  mkDims (rs_mode s) (rs_n_kv s) (rs_d_qk s) (rs_d_v s) (rs_value_scale s).

Definition dims_ok (d : dims) : Prop := 0 <= dm_kv d /\ 0 <= dm_qk d /\ 0 <= dm_v d.

(** [n] tokens of head rows, in the shape [d]. *)
Record token_rows (d : dims) (n : Z) (kr vr : list (list spec_float)) : Prop := {
  tr_n : 0 <= n;
  tr_k : plane (dm_qk d) (n * dm_kv d) kr (concat kr);
  tr_v : plane (dm_v d) (n * dm_kv d) vr (concat vr);
}.

(** The encoded planes of an FP8 store; there are none before the first row. *)
Definition enc_is (d : dims) (n : Z) (kr vr : list (list spec_float)) (o : option EncodedKv) : Prop :=
  o = None /\ n = 0 \/
  exists clips, o = Some (encoded (store_layout (dm_mode d)) n (dm_kv d) (dm_qk d) (dm_v d) kr vr clips).

(** [s] holds [n] tokens whose stored head rows are [kr] and [vr]. *)
Record holds (d : dims) (s : RowStore) (n : Z) (kr vr : list (list spec_float)) : Prop := {
  hd_dims : store_dims s = d;
  hd_ok : dims_ok d;
  hd_n : rs_n_rows s = n;
  hd_rows : token_rows d n kr vr;
  hd_data :
    match dm_mode d with
    | SmF32 => rs_f32_k s = concat kr /\ rs_f32_v s = concat vr
    | _ => enc_is d n kr vr (rs_enc s)
    end;
}.

Lemma holds_new mode n_kv d_qk d_v vs :
  0 <= n_kv -> 0 <= d_qk -> 0 <= d_v ->
  holds (mkDims mode n_kv d_qk d_v vs) (RowStore_new mode n_kv d_qk d_v vs) 0 [] [].
Proof.
  intros. split; [done|done|done| |].
  - split; [done|split; done..].
  - destruct mode; cbn; [done|by left..].
Qed.

Lemma plane_app {A} d g g' (rows rows' : list (list A)) values values' :
  plane d g rows values -> plane d g' rows' values' ->
  plane d (g + g') (rows ++ rows') (values ++ values').
Proof.
  intros [-> Hw Hc] [-> Hw' Hc']. split.
  - by rewrite concat_app.
  - by apply Forall_app.
  - rewrite length_app. lia.
Qed.

Lemma token_rows_app d n n' kr vr kr' vr' :
  token_rows d n kr vr -> token_rows d n' kr' vr' ->
  token_rows d (n + n') (kr ++ kr') (vr ++ vr').
Proof.
  intros [Hn Hk Hv] [Hn' Hk' Hv']. split; [lia|..]; rewrite concat_app, Z.mul_add_distr_r;
    by apply plane_app.
Qed.

Definition scale_row (vs : spec_float) (row : list spec_float) : list spec_float :=
  (fun x => f32_mul x vs) <$> row.

Lemma scale_row_length vs row : length (scale_row vs row) = length row.
Proof. apply length_fmap. Qed.

Lemma token_rows_scale d n kr vr vs :
  token_rows d n kr vr -> token_rows d n kr (scale_row vs <$> vr).
Proof.
  intros [Hn Hk Hv]. split; [done|done|]. eapply plane_fmap; [apply scale_row_length|done].
Qed.

Lemma merge_encoded_spec layout n n' n_kv d_qk d_v kr vr kr' vr' c c' :
  merge_encoded (encoded layout n n_kv d_qk d_v kr vr c) (encoded layout n' n_kv d_qk d_v kr' vr' c')
  = Ok (encoded layout (n + n') n_kv d_qk d_v (kr ++ kr') (vr ++ vr') (c + c')).
Proof.
  unfold merge_encoded. cbn. rewrite decide_True, Z.eqb_refl by done.
  unfold encoded. rewrite !fmap_app, !concat_app. by destruct layout; cbn; rewrite ?fmap_app.
Qed.

Lemma token_rows_empty d kr vr : token_rows d 0 kr vr -> kr = [] /\ vr = [].
Proof.
  intros [_ Hk Hv]. apply pl_count in Hk, Hv. split; apply nil_length_inv; lia.
Qed.

Lemma enc_is_append d n kr vr n' kr' vr' o c :
  enc_is d n kr vr o -> token_rows d n kr vr ->
  let chunk := encoded (store_layout (dm_mode d)) n' (dm_kv d) (dm_qk d) (dm_v d) kr' vr' c in
  exists enc, match o with None => Ok chunk | Some dst => merge_encoded dst chunk end = Ok enc /\
    enc_is d (n + n') (kr ++ kr') (vr ++ vr') (Some enc).
Proof.
  intros [[-> ->]|[c0 ->]] Hr chunk.
  - apply token_rows_empty in Hr as [-> ->]. eexists. split; [done|]. right. by exists c.
  - unfold chunk. rewrite merge_encoded_spec. eexists. split; [done|]. right. by eexists.
Qed.

Lemma scale_row_concat vs vr : scale_row vs (concat vr) = concat (scale_row vs <$> vr).
Proof. unfold scale_row. symmetry. apply concat_fmap_fmap. Qed.

(** Appending rows to a store. *)
Lemma append_holds d s n kr vr k_raw v_raw n' kr' vr' naive :
  clean naive -> holds d s n kr vr -> token_rows d n' kr' vr' ->
  k_raw = concat kr' -> v_raw = concat vr' ->
  exists s', RowStore_append s k_raw v_raw n' naive = Ok s' /\
    holds d s' (n + n') (kr ++ kr') (vr ++ (scale_row (dm_scale d) <$> vr')).
Proof.
  intros Hcl [Hd Hok Hn Hr Hdata] Ht -> ->. pose proof Hok as (Hkv & Hqk & Hdv).
  pose proof (token_rows_scale _ _ _ _ (dm_scale d) Ht) as Hts.
  pose proof (token_rows_app _ _ _ _ _ _ _ Hr Hts) as Hall.
  destruct Ht as [Hn' Hpk Hpv]. unfold RowStore_append.
  assert (rs_n_kv s = dm_kv d /\ rs_d_qk s = dm_qk d /\ rs_d_v s = dm_v d /\ rs_mode s = dm_mode d
    /\ rs_value_scale s = dm_scale d) as (-> & -> & -> & -> & ->) by (by subst d).
  rewrite (plane_length _ _ _ _ Hpk), (plane_length _ _ _ _ Hpv), !Z.eqb_refl. cbn [negb orb].
  destruct (Z.eqb_spec n' 0) as [->|Hpos].
  { exists s. split; [done|]. apply token_rows_empty in Hts as [-> ->].
    rewrite Z.add_0_r, !app_nil_r. by split. }
  assert (0 < n') as Hpos' by lia.
  rewrite (cl_store _ Hcl). fold (scale_row (dm_scale d) (concat vr')). rewrite scale_row_concat.
  destruct (scale_mode (dm_mode d)) as [mode|] eqn:Hmode.
  - rewrite (encode_kv_spec _ _ _ _ _ _ mode naive _ _ Hpos' Hkv Hqk Hdv (cl_block _ Hcl) Hpk
      (tr_v _ _ _ _ Hts)).
    rewrite (layout_of_mode _ _ _ Hmode Hcl). cbn [mbind outcome_bind].
    assert (enc_is d n kr vr (rs_enc s)) as Henc by (by destruct (dm_mode d)).
    destruct (enc_is_append d n kr vr n' kr' (scale_row (dm_scale d) <$> vr') _
      (rows_clips naive (store_layout (dm_mode d)) kr' (scale_row (dm_scale d) <$> vr')) Henc Hr)
      as (enc & -> & Henc').
    cbn [mbind outcome_bind]. eexists. split; [done|].
    split; [by subst d|done|cbn; lia|done|by destruct (dm_mode d)].
  - cbn [mbind outcome_bind]. eexists. split; [done|].
    split; [by subst d|done|cbn; lia|done|]. cbn [rs_f32_k rs_f32_v].
    destruct (dm_mode d); [|done..]. destruct Hdata as [-> ->]. by rewrite !concat_app.
Qed.

(** Reading all rows. *)
Lemma rows_holds d s n kr vr naive :
  clean naive -> holds d s n kr vr -> dm_mode d = SmF32 \/ rs_enc s <> None ->
  RowStore_rows s naive
  = Ok (concat (view_head (dm_mode d) <$> kr), concat (view_v_head (dm_mode d) <$> vr)).
Proof.
  intros Hcl [Hd (Hkv & Hqk & Hdv) Hn [Hn0 Hpk Hpv] Hdata] Hsome. unfold RowStore_rows.
  rewrite (cl_read _ Hcl). replace (rs_mode s) with (dm_mode d) by (by subst d).
  assert (forall m, m = dm_mode d -> m <> SmF32 -> enc_is d n kr vr (rs_enc s) ->
    match rs_enc s with None => Panic | Some enc => decode_kv enc f32_one end
    = Ok (concat (view_head m <$> kr), concat (view_v_head m <$> vr))) as Hfp8.
  { intros m -> Hm [[Henc _]|[c ->]]; [by destruct Hsome|].
    rewrite (decode_kv_spec _ _ _ _ _ _ _ _ _ (concat kr) (concat vr)) by (done || by destruct (dm_mode d)).
    rewrite <-concat_fmap_fmap, <-list_fmap_compose. by destruct (dm_mode d). }
  destruct (dm_mode d) eqn:Hm; [|by apply Hfp8..].
  destruct Hdata as [-> ->]. cbn -[view_head view_v_head].
  by rewrite (list_fmap_id kr : view_head SmF32 <$> kr = kr),
    (list_fmap_id vr : view_v_head SmF32 <$> vr = vr).
Qed.

(** Slices of planes are planes of slices. *)
Lemma slice_concat {A} d g (rows : list (list A)) values a b :
  plane d g rows values -> 0 <= a -> a <= b -> b <= g ->
  slice values (a * d) (b * d) = concat (slice rows a b).
Proof.
  intros [-> Hw Hc] Ha Hab Hb. subst g.
  assert (0 <= d \/ rows = []) as [Hd| ->].
  { destruct rows as [|r rows]; [by right|]. left. apply Forall_cons in Hw as [Hw _]. lia. }
  2:{ unfold slice. cbn [concat]. by rewrite !drop_nil, !take_nil. }
  pose proof (concat_uniform_length _ d (Forall_take _ (Z.to_nat a) _ Hw)) as Hl.
  rewrite length_take in Hl. unfold slice at 2.
  pose proof (Forall_drop _ (Z.to_nat a) _ Hw) as Hwd.
  rewrite <-(take_drop (Z.to_nat a) rows) at 1. rewrite concat_app.
  rewrite slice_app_r by nia.
  assert (Zlen (drop (Z.to_nat a) rows) = Zlen rows - a) as Hld by (rewrite length_drop; lia).
  clear Hw. revert Hwd Hld. generalize (drop (Z.to_nat a) rows). intros R Hw Hld.
  pose proof (concat_uniform_length _ d (Forall_take _ (Z.to_nat (b - a)) _ Hw)) as Hl2.
  rewrite length_take in Hl2.
  rewrite <-(take_drop (Z.to_nat (b - a)) R) at 1. rewrite concat_app.
  rewrite slice_app_l by nia.
  replace (a * d - _) with 0 by nia. apply slice_whole. nia.
Qed.

Lemma slice_fmap {A B} (f : A -> B) l a b : slice (f <$> l) a b = f <$> slice l a b.
Proof. unfold slice. by rewrite fmap_take, fmap_drop. Qed.

(** What tokens [lo, hi) read as. *)
Definition view_range (d : dims) (kr vr : list (list spec_float)) (lo hi : Z)
    : list spec_float * list spec_float :=
  (concat (view_head (dm_mode d) <$> slice kr (lo * dm_kv d) (hi * dm_kv d)),
   concat (view_v_head (dm_mode d) <$> slice vr (lo * dm_kv d) (hi * dm_kv d))).

Lemma rows_range_holds d s n kr vr lo hi naive :
  clean naive -> holds d s n kr vr -> 0 <= lo -> lo <= hi -> hi <= n ->
  dm_mode d = SmF32 \/ 0 < n ->
  RowStore_rows_range s lo hi naive = Ok (view_range d kr vr lo hi).
Proof.
  intros Hcl Hs Hlo Hlh Hhi Hne. unfold RowStore_rows_range.
  pose proof Hs as [Hd (Hkv & Hqk & Hdv) Hn [Hn0 Hpk Hpv] Hdata].
  rewrite Hn, !(proj2 (Z.leb_le _ _)) by done. cbn [andb].
  rewrite (rows_holds d s n kr vr); [|done|done|].
  2:{ destruct Hne as [?|Hpos]; [by left|]. destruct (dm_mode d); [by left|right..];
      destruct Hdata as [[_ ?]|[c ->]]; (done || lia). }
  cbn [mbind outcome_bind].
  assert (rs_n_kv s = dm_kv d /\ rs_d_qk s = dm_qk d /\ rs_d_v s = dm_v d) as (-> & -> & ->)
    by (by subst d).
  pose proof (plane_fmap (view_head (dm_mode d)) _ _ _ _ (view_head_length _) Hpk) as Hpk'.
  pose proof (plane_fmap (view_v_head (dm_mode d)) _ _ _ _ (view_v_head_length _) Hpv) as Hpv'.
  assert (0 <= lo * dm_kv d /\ lo * dm_kv d <= hi * dm_kv d /\ hi * dm_kv d <= n * dm_kv d)
    as (H1 & H2 & H3) by (split_and!; nia).
  rewrite !Z.mul_assoc.
  rewrite !index_range_Ok
    by (rewrite ?(plane_length _ _ _ _ Hpk'), ?(plane_length _ _ _ _ Hpv'); nia).
  cbn [mbind outcome_bind].
  rewrite (slice_concat _ _ _ _ (lo * dm_kv d) (hi * dm_kv d) Hpk') by done.
  rewrite (slice_concat _ _ _ _ (lo * dm_kv d) (hi * dm_kv d) Hpv') by done.
  by rewrite !slice_fmap.
Qed.

Lemma drain_front_plane {A} d g (rows : list (list A)) m :
  plane d g rows (concat rows) -> 0 <= d -> 0 <= m <= g ->
  drain_front (concat rows) (m * d) = Ok (concat (drop (Z.to_nat m) rows)).
Proof.
  intros Hp Hd Hm. unfold drain_front. rewrite (plane_length _ _ _ _ Hp).
  rewrite (proj2 (Z.leb_le _ _)) by nia. f_equal.
  pose proof (slice_concat _ _ _ _ m g Hp ltac:(lia) ltac:(lia) ltac:(lia)) as Hs.
  rewrite <-(plane_length _ _ _ _ Hp), slice_to_end in Hs by nia. rewrite Hs.
  pose proof (pl_count _ _ _ _ Hp) as <-. by rewrite slice_to_end by lia.
Qed.

Lemma token_rows_drop d n m kr vr :
  dims_ok d -> token_rows d n kr vr -> 0 <= m <= n ->
  token_rows d (n - m) (drop (Z.to_nat (m * dm_kv d)) kr) (drop (Z.to_nat (m * dm_kv d)) vr).
Proof.
  intros (Hkv & Hqk & Hdv) [Hn [_ Hwk Hck] [_ Hwv Hcv]] Hm.
  split; [lia|..]; (split; [done|by apply Forall_drop|rewrite length_drop; nia]).
Qed.

Lemma drain_front_length {A} (l : list A) m :
  m <= Zlen l -> drain_front l m = Ok (drop (Z.to_nat m) l).
Proof. intros Hm. unfold drain_front. by rewrite (proj2 (Z.leb_le _ _)) by done. Qed.

(** The FP8 planes of a shortened store. *)
Lemma drop_front_fp8 d s n kr vr m :
  holds d s n kr vr -> 0 < m <= n -> dm_mode d <> SmF32 ->
  exists s', RowStore_drop_front s m = Ok s' /\
    store_dims s' = d /\ rs_n_rows s' = n - m /\
    enc_is d (n - m) (drop (Z.to_nat (m * dm_kv d)) kr) (drop (Z.to_nat (m * dm_kv d)) vr) (rs_enc s').
Proof.
  intros [Hd (Hkv & Hqk & Hdv) Hn [_ Hpk Hpv] Hdata] Hm Hmode.
  assert (enc_is d n kr vr (rs_enc s)) as [[_ ?]|[c Henc]] by (by destruct (dm_mode d)); [lia|].
  unfold RowStore_drop_front. rewrite Hn, Henc, (proj2 (Z.leb_le _ _)), (proj2 (Z.eqb_neq _ _)) by lia.
  assert (rs_n_kv s = dm_kv d /\ rs_d_qk s = dm_qk d /\ rs_d_v s = dm_v d /\ rs_mode s = dm_mode d)
    as (-> & -> & -> & ->) by (by subst d).
  assert (0 <= m * dm_kv d <= n * dm_kv d) as Hmk by nia.
  cbn [ek_k_codes ek_v_codes ek_k_scales ek_v_scales ek_shared_scales ek_layout ek_n_tok ek_n_kv
       ek_d_qk ek_d_v ek_clip_count encoded].
  set (L := store_layout (dm_mode d)).
  assert (forall r, length (head_codes L r) = length r) as Hcl by (intros; apply encode_head_length).
  rewrite !Z.mul_assoc.
  rewrite (drain_front_plane _ _ _ _ (plane_fmap _ _ _ _ _ Hcl Hpk) Hqk Hmk).
  rewrite (drain_front_plane _ _ _ _ (plane_fmap _ _ _ _ _ Hcl Hpv) Hdv Hmk).
  rewrite <-!fmap_drop. apply pl_count in Hpk, Hpv.
  replace (Z.max 0 (n - m)) with (n - m) by lia.
  destruct (dm_mode d) eqn:Hmd; [done| |]; unfold L; cbn [store_layout scale_plane mbind outcome_bind].
  - eexists. split; [done|]. split_and!; [rewrite <-Hmd; by subst d|done|].
    right. exists c. by rewrite Hmd.
  - rewrite !drain_front_length by (rewrite length_fmap; lia). cbn [mbind outcome_bind].
    rewrite <-!fmap_drop. eexists. split; [done|]. split_and!; [rewrite <-Hmd; by subst d|done|].
    right. exists c. by rewrite Hmd.
Qed.

(** Dropping rows from the front. *)
Lemma drop_front_holds d s n kr vr m :
  holds d s n kr vr -> 0 <= m <= n ->
  exists s', RowStore_drop_front s m = Ok s' /\
    holds d s' (n - m) (drop (Z.to_nat (m * dm_kv d)) kr) (drop (Z.to_nat (m * dm_kv d)) vr).
Proof.
  intros Hs Hm. pose proof Hs as [Hd Hok Hn Hr Hdata]. pose proof Hok as (Hkv & Hqk & Hdv).
  pose proof (token_rows_drop d n m kr vr Hok Hr Hm) as Hr'.
  destruct (Z.eq_dec m 0) as [->|Hm0].
  { exists s. unfold RowStore_drop_front. rewrite Hn, (proj2 (Z.leb_le _ _)) by lia.
    split; [done|]. rewrite Z.sub_0_r in *. by split. }
  destruct (decide (dm_mode d = SmF32)) as [Hf|Hf].
  - unfold RowStore_drop_front. rewrite Hn, (proj2 (Z.leb_le _ _)), (proj2 (Z.eqb_neq _ _)) by lia.
    assert (rs_n_kv s = dm_kv d /\ rs_d_qk s = dm_qk d /\ rs_d_v s = dm_v d /\ rs_mode s = dm_mode d)
      as (-> & -> & -> & ->) by (by subst d).
    destruct Hr as [_ Hpk Hpv]. rewrite Hf in Hdata |- *. destruct Hdata as [-> ->].
    assert (0 <= m * dm_kv d <= n * dm_kv d) as Hmk by nia. rewrite !Z.mul_assoc.
    rewrite (drain_front_plane _ _ _ _ Hpk Hqk Hmk), (drain_front_plane _ _ _ _ Hpv Hdv Hmk).
    cbn [mbind outcome_bind]. eexists. split; [done|].
    split; [by rewrite <-Hf; subst d|done|done|done|]. by rewrite Hf.
  - destruct (drop_front_fp8 d s n kr vr m Hs ltac:(lia) Hf) as (s' & Hs' & Hd' & Hn' & Henc).
    exists s'. split; [done|]. split; try done. by destruct (dm_mode d).
Qed.
