(* ===== verification/PagedProofs.v ===== *)
(** The paged cache holds the same rows as one row store: appending fills pages in
    order, and reads through the page table see the rows in append order. *)
From Stdlib Require Import ZArith Lia Bool SpecFloat.
From stdpp Require Import base list gmap strings.
From S2P Require Import Prelude Floats E4m3 Fp8Kv Fp8KvProofs KvCache KvCacheProofs.

(** Pages needed for [n] tokens. *)
Definition pages_for (n pt : Z) : Z := (n + pt - 1) / pt.

(** Page [p] holds tokens [p * pt .. min n (p * pt + pt)] of [KR] and [VR]. *)
Record paged (d : dims) (g : GaPaged) (n : Z) (KR VR : list (list spec_float)) : Prop := {
  pg_dims : store_dims (gp_template g) = d;
  pg_ok : dims_ok d;
  pg_pt : 1 <= gp_page_tokens g;
  pg_n : gp_n_rows g = n;
  pg_rows : token_rows d n KR VR;
  pg_table : gp_page_table g = seqZ 0 (pages_for n (gp_page_tokens g));
  pg_count : Zlen (gp_slots g) = pages_for n (gp_page_tokens g);
  pg_slots : forall p st, 0 <= p -> gp_slots g !! Z.to_nat p = Some st ->
    let lo := p * gp_page_tokens g in
    let hi := Z.min n (lo + gp_page_tokens g) in
    holds d st (hi - lo) (slice KR (lo * dm_kv d) (hi * dm_kv d))
      (slice VR (lo * dm_kv d) (hi * dm_kv d));
}.

Lemma pages_for_bounds n pt : 1 <= pt -> 0 <= n ->
  (pages_for n pt - 1) * pt < n <= pages_for n pt * pt \/ n = 0 /\ pages_for n pt = 0.
Proof.
  intros Hpt Hn. unfold pages_for.
  pose proof (Z.div_mod (n + pt - 1) pt ltac:(lia)) as Hdm.
  pose proof (Z.mod_pos_bound (n + pt - 1) pt ltac:(lia)) as Hr.
  destruct (Z.eq_dec n 0) as [->|]; [right|left; lia].
  split; [done|]. rewrite Z.div_small; lia.
Qed.

(** The page the next token goes to is the last one, or one past it. *)
Lemma pages_for_next n pt : 1 <= pt -> 0 <= n ->
  pages_for n pt = (if n mod pt =? 0 then n / pt else n / pt + 1).
Proof.
  intros Hpt Hn. unfold pages_for.
  pose proof (Z.div_mod n pt ltac:(lia)) as Hdm. pose proof (Z.mod_pos_bound n pt ltac:(lia)) as Hr.
  destruct (Z.eqb_spec (n mod pt) 0) as [H0|H0].
  - symmetry. apply (Z.div_unique _ _ _ (pt - 1)); lia.
  - symmetry. apply (Z.div_unique _ _ _ (n mod pt - 1)); lia.
Qed.

Lemma pages_for_add n pt take : 1 <= pt -> 0 <= n -> 1 <= take -> take <= pt - n mod pt ->
  pages_for (n + take) pt = n / pt + 1.
Proof.
  intros Hpt Hn Ht Hle. unfold pages_for.
  pose proof (Z.div_mod n pt ltac:(lia)) as Hdm. pose proof (Z.mod_pos_bound n pt ltac:(lia)) as Hr.
  symmetry. apply (Z.div_unique _ _ _ (n mod pt + take - 1)); lia.
Qed.

(** After [allocate_page] the page of the next token is there, with the tokens it
    already holds. *)
Lemma allocate_page_paged d g n KR VR :
  paged d g n KR VR ->
  let pt := gp_page_tokens g in
  let lp := n / pt in
  let g1 := allocate_page g lp in
  gp_template g1 = gp_template g /\ gp_page_tokens g1 = pt /\ gp_n_rows g1 = n /\
  gp_page_table g1 = seqZ 0 (lp + 1) /\ Zlen (gp_slots g1) = lp + 1 /\
  (exists st, gp_slots g1 !! Z.to_nat lp = Some st /\
     holds d st (n mod pt) (slice KR (lp * pt * dm_kv d) (n * dm_kv d))
       (slice VR (lp * pt * dm_kv d) (n * dm_kv d))) /\
  (forall p, 0 <= p < lp -> gp_slots g1 !! Z.to_nat p = gp_slots g !! Z.to_nat p).
Proof.
  intros [Hd Hok Hpt Hn [Hn0 Hk Hv] Htab Hcnt Hslots] pt lp g1.
  pose proof (Z.div_mod n pt ltac:(lia)) as Hdm. pose proof (Z.mod_pos_bound n pt ltac:(lia)) as Hr.
  fold lp in Hdm. assert (0 <= lp) as Hlp by (apply Z.div_pos; lia).
  fold pt in Htab, Hcnt, Hslots. rewrite (pages_for_next n pt) in Htab, Hcnt by lia. fold lp in Htab, Hcnt.
  unfold g1, allocate_page. rewrite Htab, length_seqZ.
  destruct (Z.eqb_spec (n mod pt) 0) as [H0|H0].
  - rewrite Z2Nat.id, Z.eqb_refl by lia. unfold kv_dims. cbn [gp_template gp_page_tokens gp_n_rows
      gp_page_table gp_slots].
    split_and!; [done|done|done| |rewrite length_app; cbn; lia| |].
    + rewrite seqZ_app by lia. rewrite Hcnt. by change (seqZ (0 + lp) 1) with [lp].
    + eexists. split; [rewrite lookup_app_r, list_lookup_singleton_Some by lia; split; [lia|done]|].
      replace (lp * pt) with n by lia. rewrite H0.
      unfold slice. rewrite Z.sub_diag. cbn [Z.to_nat take].
      subst d. destruct Hok as (? & ? & ?). by apply holds_new.
    + intros p Hp. apply lookup_app_l. lia.
  - rewrite (proj2 (Z.eqb_neq _ _)) by lia.
    split_and!; [done|done|done|done|lia| |done].
    destruct (lookup_lt_is_Some_2 (gp_slots g) (Z.to_nat lp)) as [st Hst]; [lia|].
    exists st. split; [done|]. pose proof (Hslots lp st Hlp Hst) as Hh. cbv zeta in Hh.
    replace (Z.min n (lp * pt + pt)) with n in Hh by lia.
    by replace (n - lp * pt) with (n mod pt) in Hh by lia.
Qed.

Lemma token_rows_slice d n kr vr lo hi :
  dims_ok d -> token_rows d n kr vr -> 0 <= lo -> lo <= hi -> hi <= n ->
  token_rows d (hi - lo) (slice kr (lo * dm_kv d) (hi * dm_kv d))
    (slice vr (lo * dm_kv d) (hi * dm_kv d)).
Proof.
  intros (Hkv & _ & _) [Hn [_ Hwk Hck] [_ Hwv Hcv]] Hlo Hlh Hhi.
  assert (0 <= lo * dm_kv d /\ lo * dm_kv d <= hi * dm_kv d /\ hi * dm_kv d <= n * dm_kv d)
    as (H1 & H2 & H3) by (split_and!; nia).
  split; [lia|..]; (split; [done|by apply Forall_take, Forall_drop|rewrite slice_length; lia]).
Qed.

(** The part of the argument one pass copies. *)
Lemma index_rows d n kr vr lo hi :
  dims_ok d -> token_rows d n kr vr -> 0 <= lo -> lo <= hi -> hi <= n ->
  index_range (E:=AttnError) (concat kr) (lo * (dm_kv d * dm_qk d)) (hi * (dm_kv d * dm_qk d))
    = Ok (concat (slice kr (lo * dm_kv d) (hi * dm_kv d))) /\
  index_range (E:=AttnError) (concat vr) (lo * (dm_kv d * dm_v d)) (hi * (dm_kv d * dm_v d))
    = Ok (concat (slice vr (lo * dm_kv d) (hi * dm_kv d))).
Proof.
  intros (Hkv & Hqk & Hdv) [Hn Hk Hv] Hlo Hlh Hhi.
  assert (0 <= lo * dm_kv d /\ lo * dm_kv d <= hi * dm_kv d /\ hi * dm_kv d <= n * dm_kv d)
    as (H1 & H2 & H3) by (split_and!; nia).
  rewrite !Z.mul_assoc.
  split; rewrite index_range_Ok by (rewrite ?(plane_length _ _ _ _ Hk), ?(plane_length _ _ _ _ Hv); nia);
    f_equal; by eapply slice_concat.
Qed.

Lemma slice_app_end {A} (l k : list A) a b :
  0 <= a <= Zlen l -> b = Zlen l + Zlen k -> slice (l ++ k) a b = slice l a (Zlen l) ++ k.
Proof.
  intros Ha ->. rewrite (slice_split _ a (Zlen l)) by lia. f_equal.
  - apply slice_app_l; lia.
  - rewrite slice_app_r, Z.sub_diag by lia. apply slice_whole. lia.
Qed.

(** The rows stored after a pass: page [lp] has grown, the others are as before. *)
Lemma slots_grown d g n KR VR kr vr take slots st :
  paged d g n KR VR -> token_rows d take kr vr ->
  let pt := gp_page_tokens g in
  let lp := n / pt in
  1 <= take -> take <= pt - n mod pt ->
  Zlen slots = lp + 1 ->
  (forall p, 0 <= p < lp -> slots !! Z.to_nat p = gp_slots g !! Z.to_nat p) ->
  slots !! Z.to_nat lp = Some st ->
  holds d st (n mod pt + take) (slice KR (lp * pt * dm_kv d) (n * dm_kv d) ++ kr)
    (slice VR (lp * pt * dm_kv d) (n * dm_kv d) ++ vr) ->
  forall p st', 0 <= p -> slots !! Z.to_nat p = Some st' ->
    let lo := p * pt in
    let hi := Z.min (n + take) (lo + pt) in
    holds d st' (hi - lo) (slice (KR ++ kr) (lo * dm_kv d) (hi * dm_kv d))
      (slice (VR ++ vr) (lo * dm_kv d) (hi * dm_kv d)).
Proof.
  intros [Hd (Hkv & Hqk & Hdv) Hpt Hn [Hn0 Hk Hv] _ _ Hslots] Ht pt lp Ht1 Htk Hlen Hothers Hlp Hst
    p st' Hp Hst' lo hi.
  pose proof (Z.div_mod n pt ltac:(lia)) as Hdm. pose proof (Z.mod_pos_bound n pt ltac:(lia)) as Hr.
  fold lp in Hdm. assert (p <= lp) as Hple by (apply lookup_lt_Some in Hst'; lia).
  apply pl_count in Hk, Hv. pose proof (pl_count _ _ _ _ (tr_k _ _ _ _ Ht)) as Hck.
  pose proof (pl_count _ _ _ _ (tr_v _ _ _ _ Ht)) as Hcv.
  destruct (Z.eq_dec p lp) as [->|Hne].
  - rewrite Hlp in Hst'. injection Hst' as <-.
    assert (hi = n + take) as -> by (unfold hi, lo; lia).
    replace (n + take - lo) with (n mod pt + take) by (unfold lo; lia).
    assert (0 <= lo * dm_kv d <= n * dm_kv d) by (unfold lo; nia).
    rewrite !slice_app_end by nia. by rewrite Hk, Hv.
  - assert (p < lp) as Hplt by lia. rewrite Hothers in Hst' by lia.
    pose proof (Hslots p st' Hp Hst') as Hh. cbv zeta in Hh. fold pt lo in Hh.
    assert (lo + pt <= n) by (unfold lo; nia).
    assert (hi = lo + pt) as -> by (unfold hi; lia).
    replace (Z.min n (lo + pt)) with (lo + pt) in Hh by lia.
    assert (0 <= lo * dm_kv d /\ lo * dm_kv d <= (lo + pt) * dm_kv d
      /\ (lo + pt) * dm_kv d <= n * dm_kv d) as (H1 & H2 & H3) by (unfold lo in *; split_and!; nia).
    rewrite !slice_app_l by lia. done.
Qed.

Lemma append_page_paged d g n KR VR kr vr n' done_ naive :
  clean naive -> paged d g n KR VR -> token_rows d n' kr vr -> 0 <= done_ -> done_ < n' ->
  exists g' take, 1 <= take /\ done_ + take <= n' /\
    append_page g (concat kr) (concat vr) n' done_ naive = Ok (g', done_ + take) /\
    gp_page_tokens g' = gp_page_tokens g /\
    paged d g' (n + take) (KR ++ slice kr (done_ * dm_kv d) ((done_ + take) * dm_kv d))
      (VR ++ (scale_row (dm_scale d) <$> slice vr (done_ * dm_kv d) ((done_ + take) * dm_kv d))).
Proof.
  intros Hcl Hp Ht Hd0 Hd1. set (pt := gp_page_tokens g).
  pose proof (allocate_page_paged d g n KR VR Hp) as Ha. cbv zeta in Ha. fold pt in Ha.
  destruct Ha as (Ht1 & Ht2 & Ht3 & Ht4 & Ht5 & (st & Hst & Hhst) & Hothers).
  pose proof Hp as [Hd Hok Hpt Hn [Hn0 Hk Hv] _ _ _]. fold pt in Hpt.
  pose proof (Z.div_mod n pt ltac:(lia)) as Hdm. pose proof (Z.mod_pos_bound n pt ltac:(lia)) as Hr.
  assert (0 <= n / pt) as Hlp by (apply Z.div_pos; lia).
  set (take := Z.min (pt - n mod pt) (n' - done_)). exists (mkGaPaged (gp_template g) pt
    (seqZ 0 (n / pt + 1)) (<[Z.to_nat (n / pt) := default st (match RowStore_append st
      (concat (slice kr (done_ * dm_kv d) ((done_ + take) * dm_kv d)))
      (concat (slice vr (done_ * dm_kv d) ((done_ + take) * dm_kv d))) take naive
      with Ok s => Some s | _ => None end)]> (gp_slots (allocate_page g (n / pt)))) (n + take)), take.
  assert (1 <= take /\ take <= pt - n mod pt /\ done_ + take <= n') as (Hta & Htb & Htc) by lia.
  split; [done|]. split; [done|].
  pose proof (token_rows_slice d n' kr vr done_ (done_ + take) Hok Ht Hd0 ltac:(lia) Htc) as Hpart.
  replace (done_ + take - done_) with take in Hpart by lia.
  destruct (append_holds d st _ _ _ _ _ take _ _ naive Hcl Hhst Hpart eq_refl eq_refl)
    as (st' & Happ & Hst').
  rewrite Happ. cbn [default]. split; [|split; [done|]].
  - unfold append_page, kv_dims, page_of. rewrite Hn. fold pt. fold take.
    assert (rs_n_kv (gp_template g) = dm_kv d /\ rs_d_qk (gp_template g) = dm_qk d
      /\ rs_d_v (gp_template g) = dm_v d) as (-> & -> & ->) by (by rewrite <-Hd).
    unfold slot_of. rewrite Ht4.
    rewrite (idx_Some (seqZ 0 (n / pt + 1)) (n / pt) (n / pt))
      by (try lia; rewrite lookup_seqZ_lt by lia; f_equal; lia).
    cbn [mbind outcome_bind].
    destruct (index_rows d n' kr vr done_ (done_ + take) Hok Ht Hd0 ltac:(lia) Htc) as [-> ->].
    cbn [mbind outcome_bind]. rewrite (idx_Some _ _ _ Hlp Hst). cbn [mbind outcome_bind].
    rewrite Happ. cbn [mbind outcome_bind].
    unfold idx_set. rewrite (proj2 (Z.leb_le _ _)), (proj2 (Z.ltb_lt _ _)) by lia.
    cbn [andb mbind outcome_bind]. by rewrite Ht1, Ht2, Ht3.
  - pose proof (token_rows_scale _ _ _ _ (dm_scale d) Hpart) as Hparts.
    assert (pages_for (n + take) pt = n / pt + 1) as Hpf by (by apply pages_for_add).
    split; cbn [gp_template gp_page_tokens gp_n_rows gp_page_table gp_slots];
      [done|done|done|done|by apply token_rows_app|fold pt; by rewrite Hpf|fold pt; by rewrite length_insert, Hpf|].
    eapply (slots_grown d g n KR VR); [done|done|done|done|by rewrite length_insert| | |done].
    + fold pt. intros p Hpr. rewrite list_lookup_insert_ne by lia. by apply Hothers.
    + fold pt. rewrite list_lookup_insert_eq; [done|]. by apply lookup_lt_Some in Hst.
Qed.

Lemma append_loop_paged d g n KR VR kr vr n' done_ naive fuel :
  clean naive -> paged d g n KR VR -> token_rows d n' kr vr -> 0 <= done_ <= n' ->
  n' - done_ <= Z.of_nat fuel ->
  exists g', append_loop fuel g (concat kr) (concat vr) n' done_ naive = Ok g' /\
    gp_page_tokens g' = gp_page_tokens g /\
    paged d g' (n + (n' - done_)) (KR ++ slice kr (done_ * dm_kv d) (n' * dm_kv d))
      (VR ++ (scale_row (dm_scale d) <$> slice vr (done_ * dm_kv d) (n' * dm_kv d))).
Proof.
  intros Hcl. revert g n KR VR done_. induction fuel as [|fuel IH]; intros g n KR VR done_ Hp Ht Hd Hf.
  all: assert (forall (l : list (list spec_float)), done_ = n' ->
    slice l (done_ * dm_kv d) (n' * dm_kv d) = []) as Hnil
    by (intros l ->; unfold slice; by rewrite Z.sub_diag).
  { assert (done_ = n') as He by lia. exists g. rewrite !Hnil by done. cbn [append_loop].
    replace (n + (n' - done_)) with n by lia. by rewrite !app_nil_r. }
  cbn [append_loop]. destruct (Z.ltb_spec done_ n') as [Hlt|Hge].
  2:{ assert (done_ = n') as He by lia. exists g. rewrite !Hnil by done.
      replace (n + (n' - done_)) with n by lia. by rewrite !app_nil_r. }
  destruct (append_page_paged d g n KR VR kr vr n' done_ naive Hcl Hp Ht ltac:(lia) Hlt)
    as (g' & take & Ht1 & Ht2 & -> & Hpt & Hp'). cbn [mbind outcome_bind].
  destruct (IH g' _ _ _ (done_ + take) Hp' Ht) as (g2 & -> & Hpt2 & Hp2); [lia|lia|].
  exists g2. split; [done|]. split; [congruence|].
  replace (n + take + (n' - (done_ + take))) with (n + (n' - done_)) in Hp2 by lia.
  destruct (pg_ok _ _ _ _ _ Hp) as (Hkv & _ & _).
  rewrite (slice_split kr (done_ * dm_kv d) ((done_ + take) * dm_kv d) (n' * dm_kv d)) by nia.
  rewrite (slice_split vr (done_ * dm_kv d) ((done_ + take) * dm_kv d) (n' * dm_kv d)) by nia.
  by rewrite fmap_app, !app_assoc.
Qed.

(** Appending [n'] tokens. *)
Lemma append_paged d g n KR VR kr vr n' naive :
  clean naive -> paged d g n KR VR -> token_rows d n' kr vr ->
  exists g', GaPaged_append g (concat kr) (concat vr) n' naive = Ok g' /\
    gp_page_tokens g' = gp_page_tokens g /\
    paged d g' (n + n') (KR ++ kr) (VR ++ (scale_row (dm_scale d) <$> vr)).
Proof.
  intros Hcl Hp Ht. pose proof Ht as [Hn' Hk Hv].
  destruct (append_loop_paged d g n KR VR kr vr n' 0 naive (Z.to_nat n') Hcl Hp Ht)
    as (g' & Happ & Hpt & Hp'); [lia|lia|].
  exists g'. split; [done|]. split; [done|].
  rewrite Z.sub_0_r, Z.mul_0_l in Hp'. apply pl_count in Hk, Hv.
  by rewrite !slice_whole in Hp' by lia.
Qed.

(** One page's worth of a read. *)
Lemma read_page d g n KR VR t hi naive :
  clean naive -> paged d g n KR VR -> 0 <= t -> t < hi -> hi <= n ->
  let pt := gp_page_tokens g in
  let take := Z.min (pt - t mod pt) (hi - t) in
  exists st, slot_of g (t / pt) = Ok (t / pt) /\ idx (E:=AttnError) (gp_slots g) (t / pt) = Ok st /\
    1 <= take /\ t + take <= hi /\
    RowStore_rows_range st (t mod pt) (t mod pt + take) naive = Ok (view_range d KR VR t (t + take)).
Proof.
  intros Hcl Hp Ht Hlt Hhi pt take.
  pose proof Hp as [Hd Hok Hpt Hn [Hn0 Hk Hv] Htab Hcnt Hslots]. fold pt in Hpt, Htab, Hcnt, Hslots.
  pose proof Hok as (Hkv & _ & _).
  pose proof (Z.div_mod t pt ltac:(lia)) as Hdm. pose proof (Z.mod_pos_bound t pt ltac:(lia)) as Hr.
  assert (0 <= t / pt) as Hq by (apply Z.div_pos; lia).
  assert (t / pt < pages_for n pt) as Hpg.
  { destruct (pages_for_bounds n pt Hpt Hn0) as [[_ Hb]|[? _]]; [nia|lia]. }
  destruct (lookup_lt_is_Some_2 (gp_slots g) (Z.to_nat (t / pt))) as [st Hst]; [lia|].
  exists st. unfold slot_of. rewrite Htab.
  split_and!; [apply idx_Some; [done|]; rewrite lookup_seqZ_lt by lia; f_equal; lia
              |by apply idx_Some|lia|lia|].
  pose proof (Hslots (t / pt) st Hq Hst) as Hh. cbv zeta in Hh.
  set (lo := t / pt * pt) in *. set (top := Z.min n (lo + pt)) in *.
  assert (t mod pt + take <= top - lo) as Hle by (unfold top, take; lia).
  rewrite (rows_range_holds d st (top - lo) _ _ _ _ naive Hcl Hh) by lia.
  unfold view_range. assert (lo + t mod pt = t) as Hlo by (unfold lo; lia).
  assert (0 <= lo) as Hlo0 by (unfold lo; nia).
  assert (0 <= lo * dm_kv d /\ 0 <= t mod pt * dm_kv d /\ 0 <= take * dm_kv d /\
    (t mod pt + take) * dm_kv d <= (top - lo) * dm_kv d) as (H1 & H2 & H3 & H4) by (split_and!; nia).
  rewrite !slice_slice by lia.
  replace (lo * dm_kv d + t mod pt * dm_kv d) with (t * dm_kv d) by lia.
  by replace (lo * dm_kv d + (t mod pt + take) * dm_kv d) with ((t + take) * dm_kv d) by lia.
Qed.

Lemma view_range_split d KR VR a b c :
  0 <= dm_kv d -> 0 <= a -> a <= b -> b <= c ->
  view_range d KR VR a c
  = (fst (view_range d KR VR a b) ++ fst (view_range d KR VR b c),
     snd (view_range d KR VR a b) ++ snd (view_range d KR VR b c)).
Proof.
  intros. unfold view_range. cbn [fst snd].
  rewrite (slice_split KR (a * dm_kv d) (b * dm_kv d) (c * dm_kv d)) by nia.
  rewrite (slice_split VR (a * dm_kv d) (b * dm_kv d) (c * dm_kv d)) by nia.
  by rewrite !fmap_app, !concat_app.
Qed.

Lemma rows_range_loop_paged d g n KR VR t hi naive k v fuel :
  clean naive -> paged d g n KR VR -> 0 <= t <= hi -> hi <= n -> hi - t <= Z.of_nat fuel ->
  rows_range_loop fuel g t hi naive k v
  = Ok (k ++ fst (view_range d KR VR t hi), v ++ snd (view_range d KR VR t hi)).
Proof.
  intros Hcl Hp. destruct (pg_ok _ _ _ _ _ Hp) as (Hkv & _ & _).
  revert t k v. induction fuel as [|fuel IH]; intros t k v Ht Hhi Hf; cbn [rows_range_loop].
  { assert (t = hi) as -> by lia. unfold view_range, slice. rewrite Z.sub_diag. cbn.
    by rewrite !app_nil_r. }
  destruct (Z.ltb_spec t hi) as [Hlt|Hge].
  2:{ assert (t = hi) as -> by lia. unfold view_range, slice. rewrite Z.sub_diag. cbn.
      by rewrite !app_nil_r. }
  destruct (read_page d g n KR VR t hi naive Hcl Hp ltac:(lia) Hlt Hhi)
    as (st & Hslot & Hst & Ht1 & Ht2 & Hread).
  unfold page_of. rewrite Hslot. cbn [mbind outcome_bind]. rewrite Hst. cbn [mbind outcome_bind].
  rewrite Hread. unfold view_range at 1. cbn [mbind outcome_bind].
  rewrite IH by lia. set (take := Z.min _ _) in *.
  rewrite (view_range_split d KR VR t (t + take) hi) by lia. cbn [fst snd]. by rewrite <-!app_assoc.
Qed.

(** Reading a range sees the rows in append order. *)
Lemma read_paged d g n KR VR lo hi naive :
  clean naive -> paged d g n KR VR -> 0 <= lo -> lo <= hi -> hi <= n ->
  GaPaged_rows_range g lo hi naive = Ok (view_range d KR VR lo hi).
Proof.
  intros Hcl Hp Hlo Hlh Hhi. unfold GaPaged_rows_range. rewrite (pg_n _ _ _ _ _ Hp).
  rewrite !(proj2 (Z.leb_le _ _)) by done. cbn [andb].
  rewrite (rows_range_loop_paged d g n KR VR) by (done || lia). by destruct view_range.
Qed.

Lemma paged_new mode n_kv d_qk d_v vs pt :
  0 <= n_kv -> 0 <= d_qk -> 0 <= d_v -> 1 <= pt ->
  exists g, with_page_tokens (GaPaged_new mode n_kv d_qk d_v vs) pt = Ok g /\
    gp_page_tokens g = pt /\ paged (mkDims mode n_kv d_qk d_v vs) g 0 [] [].
Proof.
  intros Hkv Hqk Hdv Hpt. unfold with_page_tokens. rewrite Z.geb_leb, (proj2 (Z.leb_le _ _)) by done.
  eexists. split; [done|]. split; [done|].
  assert (pages_for 0 pt = 0) as Hz by (unfold pages_for; rewrite Z.div_small; lia).
  split; cbn [gp_template gp_page_tokens gp_n_rows gp_page_table gp_slots GaPaged_new];
    [done|done|done|done| |by rewrite Hz|by rewrite Hz|done].
  apply (hd_rows _ _ _ _ _ (holds_new mode n_kv d_qk d_v vs Hkv Hqk Hdv)).
Qed.

(** One whole page. *)
Lemma page_rows_paged d g n KR VR p pt naive :
  clean naive -> paged d g n KR VR -> gp_page_tokens g = pt -> 0 <= p -> p * pt < n ->
  page_rows g p naive = Ok (view_range d KR VR (p * pt) (Z.min (p * pt + pt) n)).
Proof.
  intros Hcl Hp <- Hp0 Hpn. set (pt := gp_page_tokens g) in *.
  pose proof (pg_pt _ _ _ _ _ Hp) as Hpt. fold pt in Hpt.
  set (hi := Z.min (p * pt + pt) n).
  destruct (read_page d g n KR VR (p * pt) hi naive Hcl Hp)
    as (st & Hslot & Hst & _ & _ & Hread); [nia|unfold hi; lia|unfold hi; lia|].
  fold pt in Hslot, Hst, Hread.
  rewrite Z.div_mul, Z.mod_mul in * by lia. rewrite !Z.sub_0_r, Z.add_0_l in Hread.
  unfold page_rows. rewrite Hslot. cbn [mbind outcome_bind].
  rewrite (pg_n _ _ _ _ _ Hp). fold pt hi.
  rewrite Z.gtb_ltb, (proj2 (Z.ltb_lt _ _)) by (unfold hi; lia).
  rewrite Hst. cbn [mbind outcome_bind].
  replace (Z.min pt (hi - p * pt)) with (hi - p * pt) in Hread by (unfold hi; lia).
  rewrite Hread. by replace (p * pt + (hi - p * pt)) with hi by lia.
Qed.

(** * Caches built by a sequence of appends *)

(** One call: raw keys, raw values, tokens. *)
Definition call : Type := list spec_float * list spec_float * Z.

Definition shaped (d : dims) (c : call) : Prop :=
  let '(k, v, n) := c in
  0 <= n /\ Zlen k = n * dm_kv d * dm_qk d /\ Zlen v = n * dm_kv d * dm_v d.

Definition fill_store (naive : NaiveBits) (s : RowStore) (cs : list call) : outcome AttnError RowStore :=
  fold_try (fun s '(k, v, n) => RowStore_append s k v n naive) s cs.

Definition fill_paged (naive : NaiveBits) (g : GaPaged) (cs : list call) : outcome AttnError GaPaged :=
  fold_try (fun g '(k, v, n) => GaPaged_append g k v n naive) g cs.

Definition call_tokens (cs : list call) : Z := total (snd <$> cs).
Definition call_keys (cs : list call) : list spec_float := concat ((fun c => fst (fst c)) <$> cs).
Definition call_values (cs : list call) : list spec_float := concat ((fun c => snd (fst c)) <$> cs).

Lemma shaped_rows d c :
  dims_ok d -> shaped d c ->
  exists kr vr, token_rows d (snd c) kr vr /\ fst (fst c) = concat kr /\ snd (fst c) = concat vr.
Proof.
  destruct c as [[k v] n]. intros (Hkv & Hqk & Hdv) (Hn & Hk & Hv). cbn.
  exists (rows_of (dm_qk d) (n * dm_kv d) k), (rows_of (dm_v d) (n * dm_kv d) v).
  assert (0 <= n * dm_kv d) as Hg by nia.
  pose proof (plane_rows_of (dm_qk d) (n * dm_kv d) k Hqk Hg Hk) as Hpk.
  pose proof (plane_rows_of (dm_v d) (n * dm_kv d) v Hdv Hg Hv) as Hpv.
  split_and!; [|apply Hpk|apply Hpv].
  split; [done|rewrite <-(pl_values _ _ _ _ Hpk); done|rewrite <-(pl_values _ _ _ _ Hpv); done].
Qed.

(** Both caches after the same calls hold the same rows. *)
Lemma fill_both d naive cs : clean naive -> dims_ok d -> Forall (shaped d) cs ->
  forall s g n KR VR, holds d s n KR VR -> paged d g n KR VR ->
  exists s' g' kr vr, fill_store naive s cs = Ok s' /\ fill_paged naive g cs = Ok g' /\
    gp_page_tokens g' = gp_page_tokens g /\ token_rows d (call_tokens cs) kr vr /\
    concat kr = call_keys cs /\ concat vr = call_values cs /\
    holds d s' (n + call_tokens cs) (KR ++ kr) (VR ++ (scale_row (dm_scale d) <$> vr)) /\
    paged d g' (n + call_tokens cs) (KR ++ kr) (VR ++ (scale_row (dm_scale d) <$> vr)).
Proof.
  intros Hcl Hok. induction cs as [|c cs IH]; intros Hsh s g n KR VR Hs Hg.
  { exists s, g, [], []. cbn. rewrite Z.add_0_r, !app_nil_r.
    by split_and!. }
  apply Forall_cons in Hsh as [Hc Hsh].
  destruct (shaped_rows d c Hok Hc) as (kr & vr & Hr & Hk & Hv).
  destruct c as [[k v] m]. cbn in Hk, Hv, Hr. subst k v.
  destruct (append_holds d s n KR VR _ _ m kr vr naive Hcl Hs Hr eq_refl eq_refl) as (s1 & Hs1 & Hh1).
  destruct (append_paged d g n KR VR kr vr m naive Hcl Hg Hr) as (g1 & Hg1 & Hpt1 & Hp1).
  destruct (IH Hsh s1 g1 _ _ _ Hh1 Hp1) as (s' & g' & kr' & vr' & Hs' & Hg' & Hpt' & Hr' & Hk' & Hv' & Hh & Hp).
  exists s', g', (kr ++ kr'), (vr ++ vr').
  unfold fill_store, fill_paged in *. cbn [fold_try]. rewrite Hs1, Hg1. cbn [mbind outcome_bind].
  change (call_tokens (_ :: cs)) with (m + call_tokens cs).
  split_and!; [done|done|congruence|by apply token_rows_app| | | |].
  - unfold call_keys in *. cbn. by rewrite concat_app, Hk'.
  - unfold call_values in *. cbn. by rewrite concat_app, Hv'.
  - by rewrite fmap_app, !app_assoc, Z.add_assoc.
  - by rewrite fmap_app, !app_assoc, Z.add_assoc.
Qed.

Lemma plane_unique {A} d g (rows rows' : list (list A)) values values' :
  plane d g rows values -> plane d g rows' values' -> values = values' -> rows = rows'.
Proof.
  intros Hp Hp' <-. pose proof (pl_count _ _ _ _ Hp). pose proof (pl_count _ _ _ _ Hp').
  apply (list_eq_same_length rows rows' (length rows)); [lia|done|].
  intros i r r' _ Hr Hr'.
  destruct (plane_row _ _ _ _ _ _ Hp Hr) as (<- & _). by destruct (plane_row _ _ _ _ _ _ Hp' Hr') as (<- & _).
Qed.

Lemma holds_some d s n kr vr : holds d s n kr vr -> 0 < n -> dm_mode d = SmF32 \/ rs_enc s <> None.
Proof.
  intros [_ _ _ _ Hdata] Hn. destruct (dm_mode d); [by left|right..];
    destruct Hdata as [[_ ?]|[c ->]]; (done || lia).
Qed.

(** C37: The paged cache refines a single row store: after the same sequence of appends, of
    any sizes and with any page length, every range read through the page table returns what
    the same range of the row store returns, so does every page, both succeed (an FP8 store
    that was never filled is not read), and the pages allocated are exactly those the tokens
    need. *)
Theorem paged_refines_store mode n_kv d_qk d_v vs pt cs naive :
  0 <= n_kv -> 0 <= d_qk -> 0 <= d_v -> 1 <= pt -> clean naive ->
  Forall (shaped (mkDims mode n_kv d_qk d_v vs)) cs ->
  exists g0 g s, with_page_tokens (GaPaged_new mode n_kv d_qk d_v vs) pt = Ok g0 /\
    fill_paged naive g0 cs = Ok g /\
    fill_store naive (RowStore_new mode n_kv d_qk d_v vs) cs = Ok s /\
    gp_n_rows g = call_tokens cs /\ rs_n_rows s = call_tokens cs /\
    (allocated_pages g - 1) * pt < Z.max 1 (call_tokens cs) <= Z.max 1 (allocated_pages g * pt) /\
    (mode = SmF32 \/ 0 < call_tokens cs ->
     (forall lo hi, 0 <= lo -> lo <= hi -> hi <= call_tokens cs ->
        exists kv, GaPaged_rows_range g lo hi naive = Ok kv /\
                   RowStore_rows_range s lo hi naive = Ok kv) /\
     (forall p, 0 <= p < allocated_pages g ->
        exists kv, page_rows g p naive = Ok kv /\
          RowStore_rows_range s (p * pt) (Z.min (p * pt + pt) (call_tokens cs)) naive = Ok kv)).
Proof.
  intros Hkv Hqk Hdv Hpt Hcl Hsh. set (d := mkDims mode n_kv d_qk d_v vs) in *.
  assert (dims_ok d) as Hok by done.
  destruct (paged_new mode n_kv d_qk d_v vs pt Hkv Hqk Hdv Hpt) as (g0 & Hg0 & Hpt0 & Hp0).
  pose proof (holds_new mode n_kv d_qk d_v vs Hkv Hqk Hdv) as Hh0.
  destruct (fill_both d naive cs Hcl Hok Hsh _ _ _ _ _ Hh0 Hp0)
    as (s & g & kr & vr & Hs & Hg & Hptg & Hr & _ & _ & Hh & Hp).
  rewrite Z.add_0_l, !app_nil_l in *. set (n := call_tokens cs) in *.
  exists g0, g, s. split_and!; [done|done|done|apply Hp|apply Hh| | |].
  all: unfold allocated_pages; rewrite (pg_count _ _ _ _ _ Hp), Hptg, Hpt0.
  { destruct (pages_for_bounds n pt Hpt (tr_n _ _ _ _ Hr)) as [?|[-> ->]]; nia. }
  { destruct (pages_for_bounds n pt Hpt (tr_n _ _ _ _ Hr)) as [?|[-> ->]]; nia. }
  intros Hne. split.
  - intros lo hi Hlo Hlh Hhi. exists (view_range d kr (scale_row vs <$> vr) lo hi).
    split; [by eapply read_paged|]. by apply (rows_range_holds d s n).
  - intros p Hpr.
    assert (p * pt < n) as Hpn.
    { destruct (pages_for_bounds n pt Hpt (tr_n _ _ _ _ Hr)) as [[Hb _]|[_ Hb]]; nia. }
    set (hi := Z.min (p * pt + pt) n). exists (view_range d kr (scale_row vs <$> vr) (p * pt) hi).
    split; [|apply (rows_range_holds d s n); try done; unfold hi; lia || nia].
    apply page_rows_paged; [done|done|congruence|lia|done].
Qed.

Ltac shaped_calls := repeat (apply Forall_cons_2; [by split_and!|]); apply Forall_nil_2.

Example paged_refines_store_witness :
  let cs := [([f32_one; f32_one; f32_one; f32_one], [f32_one; f32_one], 2);
             ([f32_normalize 3 0; f32_one], [f32_normalize 5 0], 1)] in
  exists g0 g s, with_page_tokens (GaPaged_new SmFp8PerTokenHead 1 2 1 f32_one) 2 = Ok g0 /\
    fill_paged nb_NONE g0 cs = Ok g /\
    fill_store nb_NONE (RowStore_new SmFp8PerTokenHead 1 2 1 f32_one) cs = Ok s /\
    exists kv, GaPaged_rows_range g 1 3 nb_NONE = Ok kv /\ RowStore_rows_range s 1 3 nb_NONE = Ok kv.
Proof.
  intros cs.
  destruct (paged_refines_store SmFp8PerTokenHead 1 2 1 f32_one 2 cs nb_NONE)
    as (g0 & g & s & H0 & Hg & Hs & _ & _ & _ & H); [done|done|done|done|apply clean_none|shaped_calls|].
  exists g0, g, s. split_and!; [done|done|done|].
  destruct H as [H _]; [by right|]. by apply (H 1 3).
Defined.

(** The rows a store holds do not depend on how they were split into calls: two
    sequences of appends with the same keys, the same values and as many tokens
    read back the same, in every storage mode. *)
Theorem appends_are_chunking_independent mode n_kv d_qk d_v vs cs cs' naive :
  0 <= n_kv -> 0 <= d_qk -> 0 <= d_v -> clean naive ->
  Forall (shaped (mkDims mode n_kv d_qk d_v vs)) cs ->
  Forall (shaped (mkDims mode n_kv d_qk d_v vs)) cs' ->
  call_tokens cs = call_tokens cs' -> call_keys cs = call_keys cs' ->
  call_values cs = call_values cs' -> 0 < call_tokens cs ->
  exists s s' kv, fill_store naive (RowStore_new mode n_kv d_qk d_v vs) cs = Ok s /\
    fill_store naive (RowStore_new mode n_kv d_qk d_v vs) cs' = Ok s' /\
    RowStore_rows s naive = Ok kv /\ RowStore_rows s' naive = Ok kv /\
    (mode = SmF32 -> kv = (call_keys cs, (fun x => f32_mul x vs) <$> call_values cs)).
Proof.
  intros Hkv Hqk Hdv Hcl Hsh Hsh' Htok Hkeys Hvals Hpos. set (d := mkDims mode n_kv d_qk d_v vs) in *.
  assert (dims_ok d) as Hok by done.
  destruct (paged_new mode n_kv d_qk d_v vs 1 Hkv Hqk Hdv ltac:(lia)) as (g0 & _ & _ & Hp0).
  pose proof (holds_new mode n_kv d_qk d_v vs Hkv Hqk Hdv) as Hh0.
  destruct (fill_both d naive cs Hcl Hok Hsh _ _ _ _ _ Hh0 Hp0)
    as (s & _ & kr & vr & Hs & _ & _ & Hr & Hk & Hv & Hh & _).
  destruct (fill_both d naive cs' Hcl Hok Hsh' _ _ _ _ _ Hh0 Hp0)
    as (s' & _ & kr' & vr' & Hs' & _ & _ & Hr' & Hk' & Hv' & Hh' & _).
  rewrite Z.add_0_l, !app_nil_l in *.
  assert (kr' = kr /\ vr' = vr) as [-> ->].
  { rewrite <-Htok in Hr'. split.
    - eapply plane_unique; [apply (tr_k _ _ _ _ Hr')|apply (tr_k _ _ _ _ Hr)|congruence].
    - eapply plane_unique; [apply (tr_v _ _ _ _ Hr')|apply (tr_v _ _ _ _ Hr)|congruence]. }
  exists s, s'. eexists. split; [done|]. split; [done|].
  rewrite (rows_holds d s _ _ _ naive Hcl Hh), (rows_holds d s' _ _ _ naive Hcl Hh')
    by (eapply holds_some; [done|lia]).
  split; [done|]. split; [done|]. cbn [dm_mode d]. intros ->.
  rewrite (list_fmap_id kr : view_head SmF32 <$> kr = kr),
    (list_fmap_id _ : view_v_head SmF32 <$> (scale_row vs <$> vr) = scale_row vs <$> vr).
  by rewrite <-scale_row_concat, Hk, Hv.
Qed.

Example appends_are_chunking_independent_witness :
  let k := [f32_one; f32_normalize 3 0] in
  let v := [f32_normalize 5 0; f32_normalize 7 0] in
  let cs := [(k, v, 2)] in
  let cs' := [([f32_one], [f32_normalize 5 0], 1); ([f32_normalize 3 0], [f32_normalize 7 0], 1)] in
  exists s s' kv, fill_store nb_NONE (RowStore_new SmFp8Unit 1 1 1 f32_one) cs = Ok s /\
    fill_store nb_NONE (RowStore_new SmFp8Unit 1 1 1 f32_one) cs' = Ok s' /\
    RowStore_rows s nb_NONE = Ok kv /\ RowStore_rows s' nb_NONE = Ok kv /\
    (SmFp8Unit = SmF32 -> kv = (call_keys cs, (fun x => f32_mul x f32_one) <$> call_values cs)).
Proof.
  intros k v cs cs'.
  apply (appends_are_chunking_independent SmFp8Unit 1 1 1 f32_one cs cs' nb_NONE);
    [done|done|done|apply clean_none|shaped_calls|shaped_calls|done..].
Defined.
