(* ===== verification/RingProofs.v ===== *)
(** The sliding ring: eviction keeps exactly the rows some query of the current or a
    later batch can see, and what the ring returns is the tail of a store that was
    given every row and evicted none. *)
From Stdlib Require Import ZArith Lia Bool SpecFloat Sorted.
From stdpp Require Import base list gmap strings sorting.
From S2P Require Import Prelude Floats E4m3 Fp8Kv Fp8KvProofs KvCache KvCacheProofs PagedProofs.

(** Strictly increasing positions. *)
Abbreviation increasing := (StronglySorted Z.lt).

(** * Binary search *)

Lemma increasing_lookup l i j x y :
  increasing l -> l !! i = Some x -> l !! j = Some y -> (i < j)%nat -> x < y.
Proof.
  intros Hs. revert i j. induction Hs as [|z l Hl IH Hz]; intros i j Hi Hj Hij; [done|].
  destruct j as [|j]; [lia|]. destruct i as [|i]; cbn in Hi, Hj.
  - injection Hi as ->. apply (Forall_lookup_1 _ _ _ _ Hz Hj).
  - by apply (IH i j); [| |lia].
Qed.

Definition lower_bound_at (v : list Z) (x r : Z) : Prop :=
  0 <= r <= Zlen v /\
  (forall i y, v !! i = Some y -> Z.of_nat i < r -> y < x) /\
  (forall i y, v !! i = Some y -> r <= Z.of_nat i -> x <= y).

Lemma lower_bound_loop_spec v x fuel lo hi :
  increasing v -> 0 <= lo -> lo <= hi -> hi <= Zlen v -> hi - lo <= Z.of_nat fuel ->
  (forall i y, v !! i = Some y -> Z.of_nat i < lo -> y < x) ->
  (forall i y, v !! i = Some y -> hi <= Z.of_nat i -> x <= y) ->
  exists r, lower_bound_loop fuel v x lo hi = Ok r /\ lower_bound_at v x r.
Proof.
  intros Hs. revert lo hi. induction fuel as [|fuel IH]; intros lo hi H0 Hlh Hhi Hf Hlo Hup.
  { assert (hi = lo) as -> by lia. exists lo. done. }
  cbn [lower_bound_loop]. destruct (Z.ltb_spec lo hi) as [Hlt|Hge].
  2:{ assert (hi = lo) as -> by lia. exists lo. done. }
  pose proof (Z.div_mod (lo + hi) 2 ltac:(lia)). pose proof (Z.mod_pos_bound (lo + hi) 2 ltac:(lia)).
  set (mid := (lo + hi) / 2) in *. assert (lo <= mid < hi) as Hmid by lia.
  destruct (lookup_lt_is_Some_2 v (Z.to_nat mid)) as [y Hy]; [lia|].
  rewrite (idx_Some v mid y) by (done || lia). cbn [mbind outcome_bind].
  destruct (Z.ltb_spec y x).
  - apply IH; [lia..| |done]. intros i z Hz Hi.
    destruct (Z.eq_dec (Z.of_nat i) mid) as [He|Hne].
    + replace i with (Z.to_nat mid) in Hz by lia. congruence.
    + pose proof (increasing_lookup v i (Z.to_nat mid) z y Hs Hz Hy ltac:(lia)). lia.
  - apply IH; [lia..|done|]. intros i z Hz Hi.
    destruct (Z.eq_dec (Z.of_nat i) mid) as [He|Hne].
    + replace i with (Z.to_nat mid) in Hz by lia. congruence.
    + pose proof (increasing_lookup v (Z.to_nat mid) i y z Hs Hy Hz ltac:(lia)). lia.
Qed.

(** The rows left after dropping up to the lower bound are those not below it. *)
Lemma drop_lower_bound v x r :
  lower_bound_at v x r -> drop (Z.to_nat r) v = filter (fun p => x <= p) v.
Proof.
  intros ((Hr0 & Hr1) & Hlo & Hup).
  rewrite <-(take_drop (Z.to_nat r) v) at 2. rewrite filter_app.
  rewrite filter_none, filter_all; [done|..].
  - intros y [i Hi]%list_elem_of_lookup. rewrite lookup_drop in Hi. apply (Hup _ _ Hi). lia.
  - intros y [i Hi]%list_elem_of_lookup. apply lookup_take_Some in Hi as [Hi Hlt].
    pose proof (Hlo i y Hi ltac:(lia)). lia.
Qed.

Lemma lower_bound_spec v x :
  increasing v -> exists r, lower_bound_i64 v x = Ok r /\ lower_bound_at v x r.
Proof.
  intros Hs. apply (lower_bound_loop_spec v x (length v) 0 (Zlen v) Hs); [lia..| |].
  - lia.
  - intros i y Hi. apply lookup_lt_Some in Hi. lia.
Qed.

(** Strictly increasing integers in an interval are no more than its length. *)
Lemma increasing_count l a b :
  increasing l -> (forall x, x ∈ l -> a <= x < b) -> Zlen l <= Z.max 0 (b - a).
Proof.
  intros Hs. revert a. induction Hs as [|x l Hl IH Hx]; intros a Hab; [cbn; lia|].
  pose proof (Hab x (list_elem_of_here _ _)) as H.
  specialize (IH (x + 1)). cbn [length]. rewrite Forall_forall in Hx.
  assert (Zlen l <= Z.max 0 (b - (x + 1))); [|lia]. apply IH.
  intros y Hy. pose proof (Hx y Hy). pose proof (Hab y (list_elem_of_further _ _ _ Hy)). lia.
Qed.

Lemma increasing_filter (P : Z -> Prop) `{!forall x, Decision (P x)} l :
  increasing l -> increasing (filter P l).
Proof.
  induction 1 as [|x l Hl IH Hx]; [constructor|]. rewrite filter_cons. destruct decide; [|done].
  constructor; [done|]. rewrite Forall_forall in *. intros y [_ Hy]%list_elem_of_filter. auto.
Qed.

(** The least of an increasing batch is its first. *)
Lemma list_min_increasing x l : increasing (x :: l) -> list_min (x :: l) = Some x.
Proof.
  intros [_ Hx]%StronglySorted_inv. cbn. f_equal.
  induction Hx as [|y l Hxy Hl IH]; [done|]. cbn. by replace (x `min` y) with x by lia.
Qed.

(** * One append *)

(** Positions and batches within the machine's integers. *)
Definition batch_ok (positions : list Z) : Prop :=
  positions <> [] /\ Zlen positions < 2 ^ 62 /\ Forall (fun p => 0 <= p < 2 ^ 62) positions.

Lemma evict_count_spec r first rest old naive :
  clean naive -> sw_pos r = old ++ first :: rest -> increasing (sw_pos r) ->
  1 <= sw_window r < 2 ^ 62 -> batch_ok (first :: rest) ->
  let keep := first - sw_window r + 1 in
  exists drop_, evict_count r (Zlen (first :: rest)) naive = Ok drop_ /\
    0 <= drop_ <= Zlen (sw_pos r) /\
    drop (Z.to_nat drop_) (sw_pos r) = filter (fun p => keep <= p) (sw_pos r).
Proof.
  intros Hcl Hpos Hs Hw (_ & Hlen & [Hf _]%Forall_cons) keep.
  unfold evict_count. rewrite (cl_evict _ Hcl).
  destruct (lower_bound_spec (sw_pos r) keep Hs) as (dk & Hdk & Hlb).
  pose proof (drop_lower_bound _ _ _ Hlb) as Hdrop. destruct Hlb as ((Hd0 & Hd1) & _).
  assert (Zlen (sw_pos r) = Zlen old + Zlen (first :: rest)) as Hn by (rewrite Hpos, length_app; lia).
  rewrite index_range_Ok by lia. cbn [mbind outcome_bind].
  assert (slice (sw_pos r) (Zlen (sw_pos r) - Zlen (first :: rest)) (Zlen (sw_pos r)) = first :: rest) as ->.
  { rewrite slice_to_end by lia.
    replace (Z.to_nat (Zlen (sw_pos r) - Zlen (first :: rest))) with (length old) by lia.
    by rewrite Hpos, drop_app_length. }
  rewrite list_min_increasing; [|rewrite Hpos in Hs; by apply StronglySorted_app_1_r in Hs].
  cbn [default id].
  assert (as_i64 (sw_window r) = sw_window r) as ->.
  { unfold as_i64. rewrite Z.mod_small; lia. }
  unfold i64_check. rewrite (proj2 (Z.leb_le _ _)), (proj2 (Z.ltb_lt _ _)) by lia.
  cbn [andb mbind outcome_bind].
  rewrite (proj2 (Z.leb_le _ _)), (proj2 (Z.ltb_lt _ _)) by lia. cbn [andb mbind outcome_bind].
  fold keep. rewrite Hdk. cbn [mbind outcome_bind]. unfold usize_add.
  rewrite (proj2 (Z.ltb_lt _ _)) by lia. cbn [mbind outcome_bind].
  exists dk. split; [|done]. f_equal.
  assert (Zlen (sw_pos r) - dk <= sw_window r + Zlen (first :: rest)); [|lia].
  assert (Zlen (drop (Z.to_nat dk) (sw_pos r)) = Zlen (sw_pos r) - dk) as <- by (rewrite length_drop; lia).
  rewrite Hdrop, Hpos, filter_app, length_app.
  assert (Zlen (filter (fun p => keep <= p) old) <= Z.max 0 (first - keep)) as Ho.
  { rewrite Hpos in Hs. apply increasing_count.
    - apply increasing_filter. by apply StronglySorted_app_1_l in Hs.
    - intros x [Hk Hx]%list_elem_of_filter. split; [done|].
      apply (StronglySorted_app_1_elem_of Z.lt old (first :: rest)); [done|done|left]. }
  pose proof (length_filter (fun p => keep <= p) (first :: rest)). lia.
Qed.

(** * A ring next to a store that evicts nothing *)

(** [r] is the tail of [s], which holds the rows of every position in [all]. *)
Record tail_of (d : dims) (r : SwaRing) (s : RowStore) (all : list Z)
    (KR VR : list (list spec_float)) (keep : Z) : Prop := {
  to_all : holds d s (Zlen all) KR VR;
  to_sorted : increasing all;
  to_window : 1 <= sw_window r < 2 ^ 62;
  to_pos : sw_pos r = filter (fun p => keep <= p) all;
  to_keep : all = [] \/ exists b, b ∈ all /\ keep = b - sw_window r + 1;
  to_store : let lo := Zlen all - Zlen (sw_pos r) in
    holds d (sw_store r) (Zlen (sw_pos r)) (drop (Z.to_nat (lo * dm_kv d)) KR)
      (drop (Z.to_nat (lo * dm_kv d)) VR);
}.

Lemma increasing_positions all first rest :
  increasing (all ++ first :: rest) ->
  (forall x, x ∈ all -> x < first) /\ increasing all /\ increasing (first :: rest).
Proof.
  intros Hs. split_and!; [|by apply StronglySorted_app_1_l in Hs|by apply StronglySorted_app_1_r in Hs].
  intros x Hx. apply (StronglySorted_app_1_elem_of Z.lt all (first :: rest)); [done|done|left].
Qed.

Lemma filter_filter_mono (l : list Z) a b :
  a <= b -> filter (fun p => b <= p) (filter (fun p => a <= p) l) = filter (fun p => b <= p) l.
Proof.
  intros Hab. rewrite list_filter_filter. apply list_filter_iff. intros x. lia.
Qed.

(** The eviction itself, whether or not it drops anything. *)
Lemma evict_spec d st pos w kr vr m :
  holds d st (Zlen pos) kr vr -> 0 <= m <= Zlen pos ->
  exists st', (if m >? 0 then
      store ← RowStore_drop_front st m; pos ← drain_front pos m; Ok (mkSwaRing store pos w)
    else Ok (mkSwaRing st pos w)) = Ok (mkSwaRing st' (drop (Z.to_nat m) pos) w) /\
    holds d st' (Zlen pos - m) (drop (Z.to_nat (m * dm_kv d)) kr) (drop (Z.to_nat (m * dm_kv d)) vr).
Proof.
  intros Hh Hm. destruct (drop_front_holds d st _ kr vr m Hh Hm) as (st' & Hst' & Hh').
  destruct (Z.gtb_spec m 0).
  - exists st'. split; [|done]. rewrite Hst'. cbn [mbind outcome_bind].
    by rewrite drain_front_length by lia.
  - assert (m = 0) as -> by lia. exists st. split; [done|].
    rewrite Z.sub_0_r, Z.mul_0_l. by rewrite !drop_0.
Qed.

Lemma drop_tail {A} (l k : list A) lo m n w :
  0 <= w -> 0 <= lo <= n -> 0 <= m -> Zlen l = n * w ->
  drop (Z.to_nat ((lo + m) * w)) (l ++ k) = drop (Z.to_nat (m * w)) (drop (Z.to_nat (lo * w)) l ++ k).
Proof.
  intros Hw Hlo Hm Hl. assert (0 <= lo * w <= n * w /\ 0 <= m * w) as [H1 H2] by nia.
  rewrite <-drop_app_le by lia. rewrite drop_drop. f_equal. lia.
Qed.

Lemma ring_append d r s all KR VR keep first rest kr vr naive :
  clean naive -> tail_of d r s all KR VR keep ->
  increasing (all ++ first :: rest) -> batch_ok (first :: rest) ->
  token_rows d (Zlen (first :: rest)) kr vr ->
  exists r' s', SwaRing_append r (concat kr) (concat vr) (first :: rest) naive = Ok r' /\
    RowStore_append s (concat kr) (concat vr) (Zlen (first :: rest)) naive = Ok s' /\
    sw_window r' = sw_window r /\
    tail_of d r' s' (all ++ first :: rest) (KR ++ kr) (VR ++ (scale_row (dm_scale d) <$> vr))
      (first - sw_window r + 1).
Proof.
  intros Hcl [Hall Hsort Hw Hpos Hkeep Hst] Hinc Hb Ht.
  destruct (increasing_positions _ _ _ Hinc) as (Hlt & _ & Hib).
  set (B := first :: rest) in *. set (keep' := first - sw_window r + 1).
  assert (Hguard : match last (sw_pos r) with Some l => first <? l | None => false end = false).
  { destruct (last (sw_pos r)) as [l|] eqn:Hl; [|done]. apply Z.ltb_ge.
    apply last_Some in Hl as [l' Hl']. assert (l ∈ sw_pos r) as Hin
      by (rewrite Hl'; apply elem_of_app; right; apply list_elem_of_here).
    rewrite Hpos in Hin. apply list_elem_of_filter in Hin as [_ Hin]. pose proof (Hlt l Hin). lia. }
  destruct (append_holds d s _ _ _ _ _ (Zlen B) kr vr naive Hcl Hall Ht eq_refl eq_refl) as (s' & Hs' & Hh').
  destruct (append_holds d (sw_store r) _ _ _ _ _ (Zlen B) kr vr naive Hcl Hst Ht eq_refl eq_refl)
    as (st1 & Hst1 & Hh1).
  set (r1 := mkSwaRing st1 (sw_pos r ++ B) (sw_window r)).
  assert (increasing (sw_pos r1)) as Hinc1.
  { cbn. rewrite Hpos. apply StronglySorted_app. split_and!; [|by apply increasing_filter|done].
    intros x y [_ Hx]%list_elem_of_filter Hy.
    by apply (StronglySorted_app_1_elem_of Z.lt all B). }
  destruct (evict_count_spec r1 first rest (sw_pos r) naive Hcl eq_refl Hinc1 Hw Hb)
    as (m & Hm & Hmr & Hdrop).
  change (sw_window r1) with (sw_window r) in Hdrop. fold keep' in Hdrop. fold B in Hm.
  rewrite <-Nat2Z.inj_add, <-length_app in Hh1.
  destruct (evict_spec d st1 (sw_pos r1) (sw_window r) _ _ m Hh1 Hmr) as (st2 & Hev & Hh2).
  assert (drop (Z.to_nat m) (sw_pos r1) = filter (fun p => keep' <= p) (all ++ B)) as Hpos'.
  { rewrite Hdrop. cbn [sw_pos r1]. rewrite Hpos, !filter_app. f_equal.
    destruct Hkeep as [->|(b & Hb' & ->)]; [done|]. apply filter_filter_mono.
    pose proof (Hlt b Hb'). unfold keep'. lia. }
  exists (mkSwaRing st2 (drop (Z.to_nat m) (sw_pos r1)) (sw_window r)), s'.
  split_and!; [|done|done|].
  - unfold SwaRing_append, B. cbv beta iota zeta. fold B. rewrite Hguard, Hst1.
    cbn [mbind outcome_bind]. fold r1. rewrite Hm. cbn [mbind outcome_bind]. apply Hev.
  - split; cbn [sw_pos sw_store sw_window];
      [by rewrite length_app, Nat2Z.inj_add|done|done|done| |].
    { right. exists first. split; [apply elem_of_app; right; apply list_elem_of_here|done]. }
    assert (Zlen (drop (Z.to_nat m) (sw_pos r1)) = Zlen (sw_pos r1) - m) as ->
      by (rewrite length_drop; lia).
    destruct (hd_ok _ _ _ _ _ Hall) as (Hkv & _ & _).
    pose proof (pl_count _ _ _ _ (tr_k _ _ _ _ (hd_rows _ _ _ _ _ Hall))) as Hck.
    pose proof (pl_count _ _ _ _ (tr_v _ _ _ _ (hd_rows _ _ _ _ _ Hall))) as Hcv.
    assert (Zlen (sw_pos r) <= Zlen all) as Hle.
    { rewrite Hpos. pose proof (length_filter (fun p => keep <= p) all). lia. }
    cbn [sw_pos r1] in Hmr |- *. rewrite length_app in Hmr |- *.
    set (lo := Zlen all - Zlen (sw_pos r)) in *.
    replace (Z.of_nat (length (all ++ B)) - (Z.of_nat (length (sw_pos r) + length B) - m))
      with (lo + m) by (rewrite length_app; unfold lo; lia).
    assert (0 <= lo <= Zlen all) as Hlo by (unfold lo; lia).
    rewrite (drop_tail KR kr lo m (Zlen all)), (drop_tail VR _ lo m (Zlen all)) by (done || lia).
    cbn [sw_pos r1] in Hh2. rewrite length_app in Hh2. exact Hh2.
Qed.

(** * Rings built by a sequence of appends *)

(** One call: raw keys, raw values, positions. *)
Definition ring_call : Type := list spec_float * list spec_float * list Z.

Definition ring_shaped (d : dims) (c : ring_call) : Prop :=
  let '(k, v, positions) := c in
  batch_ok positions /\ shaped d (k, v, Zlen positions).

Definition fill_ring (naive : NaiveBits) (r : SwaRing) (cs : list ring_call) : outcome AttnError SwaRing :=
  fold_try (fun r '(k, v, positions) => SwaRing_append r k v positions naive) r cs.

Definition as_calls (cs : list ring_call) : list call :=
  (fun c => (fst (fst c), snd (fst c), Zlen (snd c))) <$> cs.

Definition all_positions (cs : list ring_call) : list Z := concat (snd <$> cs).

Lemma fill_ring_tail d naive cs : clean naive -> dims_ok d -> Forall (ring_shaped d) cs ->
  forall r s all KR VR keep, tail_of d r s all KR VR keep -> increasing (all ++ all_positions cs) ->
  exists r' s' KR' VR' keep', fill_ring naive r cs = Ok r' /\
    fill_store naive s (as_calls cs) = Ok s' /\ sw_window r' = sw_window r /\
    tail_of d r' s' (all ++ all_positions cs) KR' VR' keep' /\
    (match last cs with
     | None => keep' = keep
     | Some c => exists first, head (snd c) = Some first /\ keep' = first - sw_window r + 1
     end).
Proof.
  intros Hcl Hok. induction cs as [|c cs IH]; intros Hsh r s all KR VR keep Ht Hinc.
  { exists r, s, KR, VR, keep. by rewrite app_nil_r. }
  apply Forall_cons in Hsh as [Hc Hsh]. destruct c as [[k v] positions]. destruct Hc as [Hb Hshape].
  unfold all_positions in Hinc |- *. cbn [fmap list_fmap concat snd] in *.
  fold (all_positions cs) in *. rewrite app_assoc in *.
  destruct (shaped_rows d _ Hok Hshape) as (kr & vr & Hrows & Hk & Hv). cbn in Hk, Hv, Hrows. subst k v.
  destruct positions as [|first rest]; [by destruct Hb|].
  destruct (ring_append d r s all KR VR keep first rest kr vr naive Hcl Ht)
    as (r1 & s1 & Hr1 & Hs1 & Hw1 & Ht1); [by apply StronglySorted_app_1_l in Hinc|done|done|].
  destruct (IH Hsh r1 s1 _ _ _ _ Ht1 Hinc) as (r' & s' & KR' & VR' & keep' & Hr' & Hs' & Hw' & Ht' & Hlast).
  exists r', s', KR', VR', keep'. unfold fill_ring, fill_store in *. cbn [fold_try as_calls fmap list_fmap].
  cbn [fst snd]. rewrite Hr1, Hs1. cbn [mbind outcome_bind].
  split_and!; [done|done|congruence|done|].
  destruct cs as [|c cs]; cbn [last] in *.
  - exists first. by subst keep'.
  - destruct (last (c :: cs)) as [c'|] eqn:Hl; [|by apply last_None in Hl].
    rewrite <-Hw1. destruct cs; cbn in *; by rewrite ?Hl in *.
Qed.

Lemma tail_of_new mode n_kv d_qk d_v window vs keep :
  0 <= n_kv -> 0 <= d_qk -> 0 <= d_v -> 1 <= window < 2 ^ 62 ->
  tail_of (mkDims mode n_kv d_qk d_v vs) (SwaRing_new mode n_kv d_qk d_v window vs)
    (RowStore_new mode n_kv d_qk d_v vs) [] [] [] keep.
Proof.
  intros Hkv Hqk Hdv Hw. pose proof (holds_new mode n_kv d_qk d_v vs Hkv Hqk Hdv) as Hh.
  split; [done|constructor|done|done|by left|]. done.
Qed.

Lemma view_range_tail d n kr vr lo :
  dims_ok d -> token_rows d n kr vr -> 0 <= lo <= n ->
  view_range d kr vr lo n
  = (concat (view_head (dm_mode d) <$> drop (Z.to_nat (lo * dm_kv d)) kr),
     concat (view_v_head (dm_mode d) <$> drop (Z.to_nat (lo * dm_kv d)) vr)).
Proof.
  intros (Hkv & _ & _) [Hn Hk Hv] Hlo. apply pl_count in Hk, Hv. unfold view_range.
  rewrite <-Hk at 1. rewrite <-Hv. by rewrite !slice_to_end by nia.
Qed.

(** What the ring returns is the tail of the store. *)
Lemma ring_get d r s all KR VR keep naive :
  clean naive -> tail_of d r s all KR VR keep -> 0 < Zlen (sw_pos r) ->
  exists k v, SwaRing_get r naive = Ok (k, v, sw_pos r) /\
    RowStore_rows_range s (Zlen all - Zlen (sw_pos r)) (Zlen all) naive = Ok (k, v).
Proof.
  intros Hcl [Hall Hsort Hw Hpos Hkeep Hst] Hne.
  assert (Zlen (sw_pos r) <= Zlen all) as Hle.
  { rewrite Hpos. pose proof (length_filter (fun p => keep <= p) all). lia. }
  cbv zeta in Hst. set (lo := Zlen all - Zlen (sw_pos r)) in *.
  unfold SwaRing_get. rewrite (rows_holds d _ _ _ _ naive Hcl Hst) by (by eapply holds_some).
  cbn [mbind outcome_bind]. eexists _, _. split; [done|].
  rewrite (rows_range_holds d s (Zlen all) KR VR) by (done || lia).
  f_equal. apply (view_range_tail d (Zlen all)); [apply Hall|apply Hall|lia].
Qed.

(** C38: The sliding ring never loses a row a query can see (T8).  After any sequence of
    appends at increasing positions the ring holds exactly the positions from
    [first - window + 1] on, [first] being the first of the last batch: every earlier
    position within the window of any query of that batch, or of a later one, is
    still there, no more than [window - 1] rows precede the batch, and the rows
    returned are those the same tail of a store without eviction returns. *)
Theorem ring_keeps_the_visible mode n_kv d_qk d_v window vs cs k v positions naive :
  0 <= n_kv -> 0 <= d_qk -> 0 <= d_v -> 1 <= window < 2 ^ 62 -> clean naive ->
  let calls := cs ++ [(k, v, positions)] in
  let all := all_positions calls in
  Forall (ring_shaped (mkDims mode n_kv d_qk d_v vs)) calls -> increasing all ->
  exists r s ks vs', fill_ring naive (SwaRing_new mode n_kv d_qk d_v window vs) calls = Ok r /\
    fill_store naive (RowStore_new mode n_kv d_qk d_v vs) (as_calls calls) = Ok s /\
    (forall q p, q ∈ positions -> p ∈ all -> q - window < p -> p ∈ sw_pos r) /\
    (exists first, head positions = Some first /\
       sw_pos r = filter (fun p => first - window + 1 <= p) all) /\
    Zlen (sw_pos r) <= window - 1 + Zlen positions /\
    SwaRing_get r naive = Ok (ks, vs', sw_pos r) /\
    RowStore_rows_range s (Zlen all - Zlen (sw_pos r)) (Zlen all) naive = Ok (ks, vs').
Proof.
  intros Hkv Hqk Hdv Hw Hcl calls all Hsh Hinc. set (d := mkDims mode n_kv d_qk d_v vs) in *.
  assert (dims_ok d) as Hok by done.
  destruct (fill_ring_tail d naive calls Hcl Hok Hsh _ _ _ _ _ 0
    (tail_of_new mode n_kv d_qk d_v window vs 0 Hkv Hqk Hdv Hw) Hinc)
    as (r & s & KR & VR & keep & Hr & Hs & Hwin & Ht & Hlast).
  unfold calls in Hlast. rewrite last_snoc in Hlast. destruct Hlast as (first & Hfirst & ->).
  cbn [snd sw_window SwaRing_new] in *. rewrite app_nil_l in Ht. fold all in Ht.
  pose proof (to_pos _ _ _ _ _ _ _ Ht) as Hpos.
  destruct positions as [|f rest]; [done|]. injection Hfirst as ->.
  assert (exists old, all = old ++ first :: rest) as [old Hold].
  { exists (all_positions cs). unfold all, calls, all_positions. rewrite fmap_app, concat_app.
    cbn. by rewrite app_nil_r. }
  pose proof Hinc as Hinc'. fold all in Hinc'. rewrite Hold in Hinc'.
  destruct (increasing_positions _ _ _ Hinc') as (Hlt & Hio & Hib).
  assert (first ∈ sw_pos r) as Hin.
  { rewrite Hpos. apply list_elem_of_filter. split; [lia|]. rewrite Hold.
    apply elem_of_app. right. apply list_elem_of_here. }
  destruct (ring_get d r s all KR VR _ naive Hcl Ht) as (ks & vs' & Hget & Hrange).
  { destruct (sw_pos r); [by apply not_elem_of_nil in Hin|cbn; lia]. }
  exists r, s, ks, vs'. split_and!; [done|done| | | |done|done].
  - intros q p Hq Hp Hqp. rewrite Hpos. apply list_elem_of_filter. split; [|done].
    assert (first <= q); [|lia]. apply elem_of_cons in Hq as [->|Hq]; [done|].
    apply StronglySorted_inv in Hib as [_ Hf]. rewrite Forall_forall in Hf. pose proof (Hf q Hq). lia.
  - by exists first.
  - rewrite Hpos, Hold, filter_app, length_app.
    pose proof (length_filter (fun p => first - window + 1 <= p) (first :: rest)).
    assert (Zlen (filter (fun p => first - window + 1 <= p) old) <= Z.max 0 (first - (first - window + 1))).
    { apply increasing_count; [by apply increasing_filter|].
      intros x [Hk Hx]%list_elem_of_filter. split; [done|by apply Hlt]. }
    lia.
Qed.

Example ring_keeps_the_visible_witness :
  let calls := [([f32_one; f32_one; f32_one], [f32_one; f32_one; f32_one], [0; 1; 2]);
                ([f32_normalize 5 0], [f32_normalize 7 0], [3])] in
  exists r s ks vs', fill_ring nb_NONE (SwaRing_new SmF32 1 1 1 2 f32_one) calls = Ok r /\
    fill_store nb_NONE (RowStore_new SmF32 1 1 1 f32_one) (as_calls calls) = Ok s /\
    (forall q p, q ∈ [3] -> p ∈ [0; 1; 2; 3] -> q - 2 < p -> p ∈ sw_pos r) /\
    SwaRing_get r nb_NONE = Ok (ks, vs', sw_pos r).
Proof.
  intros calls.
  destruct (ring_keeps_the_visible SmF32 1 1 1 2 f32_one
    [([f32_one; f32_one; f32_one], [f32_one; f32_one; f32_one], [0; 1; 2])]
    [f32_normalize 5 0] [f32_normalize 7 0] [3] nb_NONE)
    as (r & s & ks & vs' & Hr & Hs & Hvis & _ & _ & Hget & _);
    [done|done|done|done|apply clean_none| | |by exists r, s, ks, vs'].
  - cbn [app]. repeat (apply Forall_cons_2; [split; [split_and!; [done|done|]|by split_and!];
      repeat (apply Forall_cons_2; [by split|]); apply Forall_nil_2|]). apply Forall_nil_2.
  - repeat constructor.
Defined.

(** Only the first position of a batch is compared with the ring's last, so a batch
    that goes back in itself is accepted. *)
Example unsorted_batch_accepted :
  exists r, SwaRing_append (SwaRing_new SmF32 1 1 1 4 f32_one) [f32_one; f32_one] [f32_one; f32_one]
    [5; 3] nb_NONE = Ok r /\ sw_pos r = [5; 3].
Proof. eexists. split; vm_compute; reflexivity. Qed.
