(* ===== verification/HostCache.v ===== *)
(** [crates/mimo26-coordinator/src/hostcache.rs]: the host snapshot cache.  Pages and
    position states live in slots carved from slabs; pages are shared between
    snapshots by a hash chain over the token prefix and counted.

    Method bodies run in [flow], which threads the cache and keeps the source's
    exits apart: going on, [return], [?] with the cache as it is then, and a panic.
    The device cache is the interface [KvDevice]; the SipHash lanes, page locking
    and the device-to-host copy are parameters. *)
From Stdlib Require Import ZArith Lia Bool SpecFloat.
From stdpp Require Import base list gmap strings.
From S2P Require Import Prelude.

(** * Control flow of a method body *)

Inductive flow (S E R A : Type) : Type :=
| Next (s : S) (a : A)
| Return (s : S) (r : R)
| Throw (s : S) (e : E)
| Unwind.
Arguments Next {S E R A} s a.
Arguments Return {S E R A} s r.
Arguments Throw {S E R A} s e.
Arguments Unwind {S E R A}.

Definition fbind {S E R A B} (m : flow S E R A) (f : S -> A -> flow S E R B) : flow S E R B :=
  match m with
  | Next s a => f s a
  | Return s r => Return s r
  | Throw s e => Throw s e
  | Unwind => Unwind
  end.

Notation "'let!' ( s , x ) := m 'in' k" := (fbind m (fun s x => k))
  (at level 10, s binder, x pattern, k at level 200).

(** Lifting: [m?] on a [Result], a plain value that may panic. *)
Definition lift_try {S E R A} (s : S) (m : outcome E A) : flow S E R A :=
  match m with Ok a => Next s a | Err e => Throw s e | Panic => Unwind end.
Definition lift_panic {S E R A} (s : S) (m : outcome Empty_set A) : flow S E R A :=
  match m with Ok a => Next s a | Err e => match e with end | Panic => Unwind end.

Fixpoint flow_fold {S E R A B} (f : S -> B -> A -> flow S E R B) (s : S) (acc : B) (l : list A)
    : flow S E R B :=
  match l with
  | [] => Next s acc
  | x :: l => fbind (f s acc x) (fun s acc => flow_fold f s acc l)
  end.

(** * Data *)

Inductive HostError := HeRegister | HeStateCopy | HePageMissing | HeDevice (code : Z).

Definition MIN_TOKENS : Z := 512.
Definition KV_PAGE_ROWS : Z := 256.
Definition SLAB_BYTES : Z := Z.shiftl 1 30.

Inductive Kind := KindPrompt | KindTurn.

Definition Slot : Type := Z * Z.

Record Arena := mkArena { ar_slabs : list (list Z); ar_slot_bytes : Z; ar_free : list Slot }.

Record Page := mkPage { pg_slot : Slot; pg_refs : Z }.

Record After := mkAfter { af_greedy : option Z; af_logits : option (list spec_float) }.

Definition serves (a : After) (sampled : bool) : bool :=
  if sampled then bool_decide (is_Some (af_logits a)) else bool_decide (is_Some (af_greedy a)).

Record Snapshot := mkSnapshot {
  sn_tokens : list Z;
  sn_pages : list Z;
  sn_tail : option Slot;
  sn_state : Slot;
  sn_swa_rows : Z;
  sn_has_draft : bool;
  sn_after : After;
  sn_kind : Kind;
  sn_last_use : Z;
}.

Record Stats := mkStats {
  st_captures : Z; st_restores : Z; st_restored_tokens : Z; st_evicted : Z; st_pages_written : Z }.

Record HostCache := mkHostCache {
  hc_pages : Arena;
  hc_states : Arena;
  hc_page_map : gmap Z Page;
  hc_snaps : list Snapshot;
  hc_clock : Z;
  hc_swa_bytes : Z;
  hc_stats : Stats;
}.

#[export] Instance Kind_eq_dec : EqDecision Kind.
Proof. solve_decision. Defined.

(** Field updates. *)
Definition set_pages (c : HostCache) (a : Arena) : HostCache :=
  mkHostCache a (hc_states c) (hc_page_map c) (hc_snaps c) (hc_clock c) (hc_swa_bytes c) (hc_stats c).
Definition set_states (c : HostCache) (a : Arena) : HostCache :=
  mkHostCache (hc_pages c) a (hc_page_map c) (hc_snaps c) (hc_clock c) (hc_swa_bytes c) (hc_stats c).
Definition set_page_map (c : HostCache) (m : gmap Z Page) : HostCache :=
  mkHostCache (hc_pages c) (hc_states c) m (hc_snaps c) (hc_clock c) (hc_swa_bytes c) (hc_stats c).
Definition set_snaps (c : HostCache) (l : list Snapshot) : HostCache :=
  mkHostCache (hc_pages c) (hc_states c) (hc_page_map c) l (hc_clock c) (hc_swa_bytes c) (hc_stats c).
Definition set_clock (c : HostCache) (t : Z) : HostCache :=
  mkHostCache (hc_pages c) (hc_states c) (hc_page_map c) (hc_snaps c) t (hc_swa_bytes c) (hc_stats c).
Definition set_stats (c : HostCache) (st : Stats) : HostCache :=
  mkHostCache (hc_pages c) (hc_states c) (hc_page_map c) (hc_snaps c) (hc_clock c) (hc_swa_bytes c) st.

Definition set_free (a : Arena) (l : list Slot) : Arena := mkArena (ar_slabs a) (ar_slot_bytes a) l.

(** [free.push(slot)] and [free.pop()]: the top is the last element. *)
Definition push_free (a : Arena) (s : Slot) : Arena := set_free a (ar_free a ++ [s]).
Definition pop_free (a : Arena) : option (Slot * Arena) :=
  match last (ar_free a) with
  | None => None
  | Some s => Some (s, set_free a (take (length (ar_free a) - 1) (ar_free a)))
  end.

Definition Arena_get (a : Arena) (s : Slot) : outcome Empty_set (list Z) :=
  slab ← idx (ar_slabs a) (fst s);
  index_range slab (snd s) (snd s + ar_slot_bytes a).

(** Writing through [get_mut]: the slot's bytes become [bytes]. *)
Definition Arena_put (a : Arena) (s : Slot) (bytes : list Z) : outcome Empty_set Arena :=
  slab ← idx (ar_slabs a) (fst s);
  _ ← index_range slab (snd s) (snd s + ar_slot_bytes a);
  slabs ← idx_set (ar_slabs a) (fst s) (splice slab (snd s) bytes);
  Ok (mkArena slabs (ar_slot_bytes a) (ar_free a)).

(** [(0..n).rev().map(|i| (s, i * slot_bytes))] *)
Definition slab_slots (s n slot_bytes : Z) : list Slot :=
  (fun i => (s, i * slot_bytes)) <$> reverse (seqZ 0 n).

(** [while left > 0 { .. }]; a slab holds at least one slot, so [slots] passes are
    enough. *)
Fixpoint arena_loop (register : Z -> bool) (fuel : nat) (slot_bytes per_slab left : Z)
    (slabs : list (list Z)) (free : list Slot) : outcome HostError Arena :=
  match fuel with
  | O => Ok (mkArena slabs slot_bytes free)
  | S fuel =>
    if left >? 0 then
      let n := Z.min left per_slab in
      let slab := replicate (Z.to_nat (n * slot_bytes)) 0 in
      if register (Zlen slab) then
        let s := Zlen slabs in
        arena_loop register fuel slot_bytes per_slab (left - n) (slabs ++ [slab])
          (free ++ slab_slots s n slot_bytes)
      else Err HeRegister
    else Ok (mkArena slabs slot_bytes free)
  end.

Definition Arena_new (register : Z -> bool) (slot_bytes slots : Z) : outcome HostError Arena :=
  if slot_bytes =? 0 then Panic
  else
    let per_slab := Z.max 1 (SLAB_BYTES / slot_bytes) in
    arena_loop register (Z.to_nat slots) slot_bytes per_slab slots [] [].

(** * Eviction *)

(** [min_by_key] on [(last_use, kind == Turn)]: the first of the least. *)
Definition key_lt (a b : Kind * Z) : bool :=
  (snd a <? snd b) || ((snd a =? snd b) && bool_decide (fst a = KindPrompt) && bool_decide (fst b = KindTurn)).

Fixpoint victim_from (i : nat) (best : nat * (Kind * Z)) (l : list (Kind * Z)) : nat :=
  match l with
  | [] => fst best
  | k :: l => victim_from (S i) (if key_lt k (snd best) then (i, k) else best) l
  end.

Definition victim (l : list (Kind * Z)) : option nat :=
  match l with [] => None | k :: l => Some (victim_from 1 (0%nat, k) l) end.

(** [Vec::swap_remove(i)]: the last element takes the place of the removed one. *)
Definition swap_remove {A} (l : list A) (i : nat) : option (A * list A) :=
  match l !! i, last l with
  | Some x, Some y => Some (x, take (length l - 1) (<[i := y]> l))
  | _, _ => None
  end.

(** Dropping one reference to a page; the last one frees its slot. *)
Definition drop_page (c : HostCache) (id : Z) : outcome Empty_set HostCache :=
  match hc_page_map c !! id with
  | None => Ok c
  | Some p =>
    if pg_refs p =? 0 then Panic
    else
      let refs := pg_refs p - 1 in
      if refs =? 0 then
        let c := set_page_map c (delete id (hc_page_map c)) in
        Ok (set_pages c (push_free (hc_pages c) (pg_slot p)))
      else Ok (set_page_map c (<[id := mkPage (pg_slot p) refs]> (hc_page_map c)))
  end.

Definition free_tail (c : HostCache) (tail_ : option Slot) : HostCache :=
  match tail_ with None => c | Some t => set_pages c (push_free (hc_pages c) t) end.

Definition HostCache_release (c : HostCache) (s : Snapshot) : outcome Empty_set HostCache :=
  let c := set_states c (push_free (hc_states c) (sn_state s)) in
  let c := free_tail c (sn_tail s) in
  fold_try drop_page c (sn_pages s).

Definition evict_one (c : HostCache) : outcome Empty_set (HostCache * bool) :=
  match victim ((fun s => (sn_kind s, sn_last_use s)) <$> hc_snaps c) with
  | None => Ok (c, false)
  | Some i =>
    match swap_remove (hc_snaps c) i with
    | None => Panic
    | Some (s, snaps) =>
      c ← HostCache_release (set_snaps c snaps) s;
      let st := hc_stats c in
      Ok (set_stats c (mkStats (st_captures st) (st_restores st) (st_restored_tokens st)
            (st_evicted st + 1) (st_pages_written st)), true)
    end
  end.

(** The allocation loops; each pass that goes on has evicted a snapshot, so one more
    pass than there are snapshots is enough. *)
Fixpoint alloc_page_loop (fuel : nat) (c : HostCache) : outcome Empty_set (HostCache * option Slot) :=
  match fuel with
  | O => Ok (c, None)
  | S fuel =>
    match pop_free (hc_pages c) with
    | Some (s, a) => Ok (set_pages c a, Some s)
    | None =>
      '(c, evicted) ← evict_one c;
      if evicted : bool then alloc_page_loop fuel c else Ok (c, None)
    end
  end.

Definition alloc_page (c : HostCache) : outcome Empty_set (HostCache * option Slot) :=
  alloc_page_loop (S (length (hc_snaps c))) c.

Fixpoint alloc_state_loop (fuel : nat) (c : HostCache) : outcome Empty_set (HostCache * option Slot) :=
  match fuel with
  | O => Ok (c, None)
  | S fuel =>
    match pop_free (hc_states c) with
    | Some (s, a) => Ok (set_states c a, Some s)
    | None =>
      '(c, evicted) ← evict_one c;
      if evicted : bool then alloc_state_loop fuel c else Ok (c, None)
    end
  end.

Definition alloc_state (c : HostCache) : outcome Empty_set (HostCache * option Slot) :=
  alloc_state_loop (S (length (hc_snaps c))) c.

(** The [abort] closure of [capture]: drop the references it took. *)
Definition abort (c : HostCache) (held : list Z) : outcome Empty_set HostCache :=
  fold_try drop_page c held.

(** * The device cache, as the host cache uses it *)

Class KvDevice (D B : Type) := {
  kv_tokens : D -> Z;
  ga_page_bytes : D -> Z;
  swa_state_bytes : D -> Z;
  draft_state_bytes : D -> Z;
  state_bytes : D -> Z;
  export_ga_page : D -> Z -> Z -> list Z -> outcome HostError (list Z);
  sync_export : D -> outcome HostError unit;
  kv_reset : D -> D;
  reserve_ga : D -> Z -> outcome HostError D;
  import_ga_page : D -> Z -> list Z -> outcome HostError D;
  finish_ga_import : D -> outcome HostError D;
  import_swa : D -> Z -> list Z -> outcome HostError D;
  import_draft : D -> list Z -> outcome HostError D;
  kv_set_tokens : D -> Z -> D;
  buffer_bytes : B -> Z;
  (** [cudaMemcpy(dst, src, len, D2H)]: the destination afterwards, or a failure. *)
  memcpy_d2h : list Z -> B -> Z -> option (list Z);
}.

Section host_cache.
Context {D B : Type} `{!KvDevice D B}.
(** [lane(seed, prev, block)]: one SipHash lane of the page chain. *)
Context (lane : Z -> Z -> list Z -> Z).

Definition LANE_HIGH : Z := 0x6d696d6f.
Definition LANE_LOW : Z := 0x32366b76.

(** [tokens.chunks_exact(KV_PAGE_ROWS)] *)
Definition token_blocks (tokens : list Z) : list (list Z) :=
  (fun j => slice tokens (j * KV_PAGE_ROWS) (j * KV_PAGE_ROWS + KV_PAGE_ROWS))
    <$> seqZ 0 (Zlen tokens / KV_PAGE_ROWS).

Fixpoint chain_from (prev : Z) (blocks : list (list Z)) : list Z :=
  match blocks with
  | [] => []
  | block :: blocks =>
    let id := Z.lor (Z.shiftl (lane LANE_HIGH prev block) 64) (lane LANE_LOW prev block) in
    id :: chain_from id blocks
  end.

Definition page_chain (tokens : list Z) : list Z := chain_from 0 (token_blocks tokens).

(** The arenas [from_env] makes of a budget of [budget] bytes. *)
Definition from_budget (register : Z -> bool) (budget : Z) (kv : D) : outcome HostError HostCache :=
  let page_bytes := ga_page_bytes kv in
  let swa_bytes := swa_state_bytes kv in
  let state_bytes := swa_bytes + draft_state_bytes kv in
  if (state_bytes =? 0) || (page_bytes =? 0) then Panic
  else
    let n_states := Z.min 256 (Z.max 4 (budget / 10 / state_bytes)) in
    let n_pages := Z.max (Z.max 0 (budget - n_states * state_bytes) / page_bytes) 16 in
    pages ← Arena_new register page_bytes n_pages;
    states ← Arena_new register state_bytes n_states;
    Ok (mkHostCache pages states ∅ [] 0 swa_bytes (mkStats 0 0 0 0 0)).

(** * Capture *)

Definition Body (A : Type) : Type := flow HostCache HostError unit A.

(** One pass of [for (i, &id) in chain.iter().enumerate()]. *)
Definition hold_page (kv : D) (c : HostCache) (acc : list Z * Z) (entry : Z * Z) : Body (list Z * Z) :=
  let '(held, written) := acc in
  let '(i, id) := entry in
  match hc_page_map c !! id with
  | Some p =>
    if pg_refs p + 1 <? 2 ^ 32 then
      Next (set_page_map c (<[id := mkPage (pg_slot p) (pg_refs p + 1)]> (hc_page_map c)))
        (held ++ [id], written)
    else Unwind
  | None =>
    let! (c, r) := lift_panic c (alloc_page c) in
    let '(c, slot) := r in
    match slot with
    | None => let! (_, c) := lift_panic c (abort c held) in Return c tt
    | Some slot =>
      let! (c, page) := lift_panic c (Arena_get (hc_pages c) slot) in
      let! (c, page) := lift_try c (export_ga_page kv (i * KV_PAGE_ROWS) KV_PAGE_ROWS page) in
      let! (c, pages) := lift_panic c (Arena_put (hc_pages c) slot page) in
      let c := set_pages c pages in
      Next (set_page_map c (<[id := mkPage slot 1]> (hc_page_map c))) (held ++ [id], written + 1)
    end
  end.

(** The rows past the last full page. *)
Definition hold_tail (kv : D) (n : Z) (held : list Z) (c : HostCache) : Body (option Slot) :=
  let rem := n mod KV_PAGE_ROWS in
  if rem >? 0 then
    let! (c, r) := lift_panic c (alloc_page c) in
    let '(c, slot) := r in
    match slot with
    | None => let! (_, c) := lift_panic c (abort c held) in Return c tt
    | Some slot =>
      let! (c, page) := lift_panic c (Arena_get (hc_pages c) slot) in
      let! (c, page) := lift_try c (export_ga_page kv (n - rem) rem page) in
      let! (c, pages) := lift_panic c (Arena_put (hc_pages c) slot page) in
      Next (set_pages c pages) (Some slot)
    end
  else Next c None.

(** The position state, copied from the device buffer. *)
Definition hold_state (kv : D) (state : B) (held : list Z) (tail_ : option Slot) (c : HostCache)
    : Body Slot :=
  let! (c, r) := lift_panic c (alloc_state c) in
  let '(c, slot) := r in
  match slot with
  | None =>
    let c := free_tail c tail_ in
    let! (_, c) := lift_panic c (abort c held) in Return c tt
  | Some slot =>
    let! (c, buf) := lift_panic c (Arena_get (hc_states c) slot) in
    let len := Z.min (Z.min (state_bytes kv) (Zlen buf)) (buffer_bytes state) in
    match memcpy_d2h buf state len with
    | None =>
      let c := set_states c (push_free (hc_states c) slot) in
      let c := free_tail c tail_ in
      let! (_, c) := lift_panic c (abort c held) in Throw c HeStateCopy
    | Some buf =>
      let! (c, states) := lift_panic c (Arena_put (hc_states c) slot buf) in
      Next (set_states c states) slot
    end
  end.

(** What a repeated capture adds to the snapshot it finds. *)
Definition refresh (clock : Z) (after : After) (s : Snapshot) : Snapshot :=
  let greedy := match af_greedy (sn_after s) with Some g => Some g | None => af_greedy after end in
  let logits := match af_logits (sn_after s) with Some l => Some l | None => af_logits after end in
  mkSnapshot (sn_tokens s) (sn_pages s) (sn_tail s) (sn_state s) (sn_swa_rows s) (sn_has_draft s)
    (mkAfter greedy logits) (sn_kind s) clock.

Definition capture_new (c : HostCache) (kv : D) (tokens : list Z) (after : After) (kind : Kind)
    (state : B) (swa_rows : Z) : Body unit :=
  let n := Zlen tokens in
  let chain := page_chain tokens in
  let! (c, acc) := flow_fold (hold_page kv) c ([], 0) (zip (seqZ 0 (Zlen chain)) chain) in
  let '(held, written) := acc in
  let! (c, tail_) := hold_tail kv n held c in
  let! (c, _) := lift_try c (sync_export kv) in
  let! (c, slot) := hold_state kv state held tail_ c in
  let has_draft := draft_state_bytes kv >? 0 in
  let c := set_snaps c (hc_snaps c ++ [mkSnapshot tokens held tail_ slot swa_rows has_draft after kind
                                        (hc_clock c)]) in
  let st := hc_stats c in
  Next (set_stats c (mkStats (st_captures st + 1) (st_restores st) (st_restored_tokens st)
          (st_evicted st) (st_pages_written st + written))) tt.

Definition capture (c : HostCache) (kv : D) (tokens : list Z) (after : After) (kind : Kind)
    (state : B) (swa_rows : Z) : Body unit :=
  let n := Zlen tokens in
  if (n <? MIN_TOKENS) || (kv_tokens kv <? n) then Return c tt
  else
    let c := set_clock c (hc_clock c + 1) in
    match list_find (fun s => sn_tokens s = tokens) (hc_snaps c) with
    | Some (i, s) => Return (set_snaps c (<[i := refresh (hc_clock c) after s]> (hc_snaps c))) tt
    | None => capture_new c kv tokens after kind state swa_rows
    end.

(** * Lookup and restore *)

(** One pass of the loop of [lookup]; [best] is an index and its token count. *)
Definition lookup_step (prompt chain : list Z) (best : option (nat * Z)) (entry : nat * Snapshot)
    : outcome Empty_set (option (nat * Z)) :=
  let '(i, s) := entry in
  let n := Zlen (sn_tokens s) in
  if (n >? Zlen prompt) || match best with Some (_, b) => b >=? n | None => false end then Ok best
  else
    let full := n / KV_PAGE_ROWS in
    ids ← index_range chain 0 full;
    if negb (bool_decide (sn_pages s = ids)) then Ok best
    else
      rest ← index_range (sn_tokens s) (full * KV_PAGE_ROWS) n;
      rest' ← index_range prompt (full * KV_PAGE_ROWS) n;
      if bool_decide (rest = rest') then Ok (Some (i, n)) else Ok best.

Definition HostCache_lookup (c : HostCache) (prompt : list Z) : outcome Empty_set (option (nat * Z)) :=
  fold_try (lookup_step prompt (page_chain prompt)) None (imap pair (hc_snaps c)).

Definition lookup_for (c : HostCache) (prompt : list Z) (sampled : bool)
    : outcome Empty_set (option (nat * Z)) :=
  hit ← HostCache_lookup c prompt;
  match hit with
  | Some (i, n) =>
    match hc_snaps c !! i with
    | None => Panic
    | Some s =>
      if (n =? Zlen prompt) && negb (serves (sn_after s) sampled) then
        shorter ← index_range prompt 0 (Zlen prompt - 1);
        HostCache_lookup c shorter
      else Ok hit
    end
  | None => Ok hit
  end.

(** The body of [restore] after the snapshot is found; the device cache is what the
    [?] exits leave behind. *)
Definition load_pages (c : HostCache) (kv : D) (s : Snapshot) : flow D HostError unit unit :=
  flow_fold (fun kv _ id =>
    match hc_page_map c !! id with
    | None => Throw kv HePageMissing
    | Some p =>
      let! (kv, bytes) := lift_panic kv (Arena_get (hc_pages c) (pg_slot p)) in
      let! (_, kv) := lift_try kv (import_ga_page kv KV_PAGE_ROWS bytes) in
      Next kv tt
    end) kv tt (sn_pages s).

Definition load_snapshot (c : HostCache) (kv : D) (s : Snapshot) : flow D HostError unit unit :=
  let n := Zlen (sn_tokens s) in
  let kv := kv_reset kv in
  let! (_, kv) := lift_try kv (reserve_ga kv n) in
  let! (kv, _) := load_pages c kv s in
  let! (kv, _) :=
    match sn_tail s with
    | None => Next kv tt
    | Some t =>
      let! (kv, bytes) := lift_panic kv (Arena_get (hc_pages c) t) in
      let! (_, kv) := lift_try kv (import_ga_page kv (n mod KV_PAGE_ROWS) bytes) in
      Next kv tt
    end in
  let! (_, kv) := lift_try kv (finish_ga_import kv) in
  let! (kv, buf) := lift_panic kv (Arena_get (hc_states c) (sn_state s)) in
  let! (kv, swa) := lift_panic kv (index_range buf 0 (hc_swa_bytes c)) in
  let! (_, kv) := lift_try kv (import_swa kv (sn_swa_rows s) swa) in
  let! (kv, _) :=
    if sn_has_draft s then
      let! (kv, draft) := lift_panic kv (index_range buf (hc_swa_bytes c) (Zlen buf)) in
      let! (_, kv) := lift_try kv (import_draft kv draft) in
      Next kv tt
    else Next kv tt in
  Next (kv_set_tokens kv n) tt.

Definition HostCache_restore (c : HostCache) (i : nat) (kv : D)
    : flow (HostCache * D) HostError unit (Z * After * Kind) :=
  let c := set_clock c (hc_clock c + 1) in
  match hc_snaps c !! i with
  | None => Unwind
  | Some s =>
    let s := mkSnapshot (sn_tokens s) (sn_pages s) (sn_tail s) (sn_state s) (sn_swa_rows s)
               (sn_has_draft s) (sn_after s) (sn_kind s) (hc_clock c) in
    let c := set_snaps c (<[i := s]> (hc_snaps c)) in
    let n := Zlen (sn_tokens s) in
    match load_snapshot c kv s with
    | Next kv _ =>
      let st := hc_stats c in
      Next (set_stats c (mkStats (st_captures st) (st_restores st + 1) (st_restored_tokens st + n)
              (st_evicted st) (st_pages_written st)), kv) (n, sn_after s, sn_kind s)
    | Return kv r => Return (c, kv) r
    | Throw kv e => Throw (c, kv) e
    | Unwind => Unwind
    end
  end.
End host_cache.
