(* ===== verification/HostPool.v ===== *)
(** Slots and page references of the host cache: every page slot is free, mapped or
    a tail, exactly once; every page's count is the number of snapshots that name
    it; and writing one slot leaves the bytes of the others alone.

    After it, what the host cache relies on: the device's side of the contract ([KvDeviceLaws]),
    triples for method bodies, the rows a token list stands for, and the page chain. *)
From Stdlib Require Import ZArith Lia Bool SpecFloat.
From stdpp Require Import base list gmap strings.
From S2P Require Import Prelude HostCache.

(** * Arenas *)

Record arena_ok (a : Arena) (all : list Slot) : Prop := {
  ao_bytes : 0 < ar_slot_bytes a;
  ao_nodup : NoDup all;
  ao_slots : Forall (fun s => 0 <= fst s /\ exists slab i, ar_slabs a !! Z.to_nat (fst s) = Some slab /\
      0 <= i /\ snd s = i * ar_slot_bytes a /\ (i + 1) * ar_slot_bytes a <= Zlen slab) all;
}.

Lemma arena_get_ok a all s :
  arena_ok a all -> s ∈ all ->
  exists bytes, Arena_get a s = Ok bytes /\ Zlen bytes = ar_slot_bytes a.
Proof.
  intros [Hb _ Hs] Hin. rewrite Forall_forall in Hs.
  destruct (Hs s Hin) as (H0 & slab & i & Hslab & Hi & Hoff & Hle).
  unfold Arena_get. rewrite (idx_Some _ _ _ H0 Hslab). cbn [mbind outcome_bind].
  rewrite Hoff, index_range_Ok by lia. eexists. split; [done|]. rewrite slice_length; lia.
Qed.

(** What a write changes. *)
Lemma arena_put_ok a all s bytes :
  arena_ok a all -> s ∈ all -> Zlen bytes = ar_slot_bytes a ->
  exists a', Arena_put a s bytes = Ok a' /\ arena_ok a' all /\ ar_free a' = ar_free a /\
    ar_slot_bytes a' = ar_slot_bytes a /\ Arena_get a' s = Ok bytes /\
    (forall s', s' ∈ all -> s' <> s -> Arena_get a' s' = Arena_get a s').
Proof.
  intros [Hb Hnd Hs] Hin Hlen. pose proof Hs as Hall. rewrite Forall_forall in Hs.
  destruct (Hs s Hin) as (H0 & slab & i & Hslab & Hi & Hoff & Hle).
  assert (Zlen (splice slab (snd s) bytes) = Zlen slab) as Hsl by (rewrite splice_length; lia).
  assert (Hlt : fst s < Zlen (ar_slabs a)) by (apply lookup_lt_Some in Hslab; lia).
  assert (forall A E (l : list A) j x, 0 <= j -> j < Zlen l ->
    idx_set (E:=E) l j x = Ok (<[Z.to_nat j := x]> l)) as Hset.
  { intros. unfold idx_set. by rewrite (proj2 (Z.leb_le _ _)), (proj2 (Z.ltb_lt _ _)) by lia. }
  unfold Arena_put. rewrite (idx_Some _ _ _ H0 Hslab). cbn [mbind outcome_bind].
  rewrite index_range_Ok by lia. cbn [mbind outcome_bind]. rewrite Hset by done.
  cbn [mbind outcome_bind]. eexists. split; [done|].
  split; [|split; [done|split; [done|split]]].
  - split; [done|done|]. cbn [ar_slabs ar_slot_bytes].
    eapply Forall_impl; [exact Hall|]. intros t (Ht0 & slab' & j & Hj & Hrest). split; [done|].
    destruct (decide (Z.to_nat (fst s) = Z.to_nat (fst t))) as [He|He].
    + rewrite <-He in Hj |- *. rewrite Hslab in Hj. injection Hj as <-.
      exists (splice slab (snd s) bytes), j. rewrite list_lookup_insert_eq by lia. by rewrite Hsl.
    + exists slab', j. by rewrite list_lookup_insert_ne.
  - unfold Arena_get. cbn [ar_slabs ar_slot_bytes].
    rewrite (idx_Some _ _ (splice slab (snd s) bytes) H0) by (rewrite list_lookup_insert_eq by lia; done).
    cbn [mbind outcome_bind]. rewrite index_range_Ok by lia. f_equal. apply slice_splice_same; lia.
  - intros t Ht Hne. destruct (Hs t Ht) as (Ht0 & slab' & j & Hj & Hj0 & Htoff & Htle).
    unfold Arena_get. cbn [ar_slabs ar_slot_bytes].
    destruct (decide (Z.to_nat (fst s) = Z.to_nat (fst t))) as [He|He].
    2:{ by rewrite (idx_Some _ _ slab' Ht0), (idx_Some _ _ slab' Ht0) by (rewrite ?list_lookup_insert_ne by done; done). }
    rewrite <-He, Hslab in Hj. injection Hj as <-.
    rewrite (idx_Some _ _ (splice slab (snd s) bytes) Ht0), (idx_Some _ _ slab Ht0)
      by (rewrite <-He, ?list_lookup_insert_eq by lia; done).
    cbn [mbind outcome_bind]. rewrite !index_range_Ok by lia. f_equal.
    assert (i <> j) as Hij.
    { intros ->. apply Hne. destruct s, t; cbn in *. f_equal; lia. }
    destruct (Z.lt_ge_cases j i).
    + apply slice_splice_before; nia.
    + apply slice_splice_after; nia.
Qed.

Lemma arena_ok_free a l all : arena_ok a all -> arena_ok (set_free a l) all.
Proof. by intros []; split. Qed.

Lemma pop_free_Some a s a' :
  pop_free a = Some (s, a') -> ar_free a ≡ₚ s :: ar_free a' /\ a' = set_free a (ar_free a').
Proof.
  unfold pop_free. destruct (last (ar_free a)) as [t|] eqn:Hl; [|done]. intros [= <- <-].
  split; [|done]. cbn. apply last_Some in Hl as [l Hl]. rewrite Hl, length_app. cbn.
  rewrite take_app_le by lia. rewrite take_ge by lia. by rewrite Permutation_app_comm.
Qed.

Lemma pop_free_same a s a' :
  pop_free a = Some (s, a') -> ar_slabs a' = ar_slabs a /\ ar_slot_bytes a' = ar_slot_bytes a.
Proof. unfold pop_free. destruct (last (ar_free a)); [|done]. by intros [= <- <-]. Qed.

Lemma pop_free_None a : pop_free a = None -> ar_free a = [].
Proof. unfold pop_free. destruct (last (ar_free a)) eqn:Hl; [done|]. intros _. by apply last_None. Qed.

(** A new arena hands out every slot it was asked for, each once. *)
Lemma slab_slots_elem s n sb t :
  t ∈ slab_slots s n sb <-> exists i, 0 <= i < n /\ t = (s, i * sb).
Proof.
  unfold slab_slots. rewrite list_elem_of_fmap. split.
  - intros (i & -> & Hi). exists i. rewrite elem_of_reverse in Hi. apply elem_of_seqZ in Hi. split; [lia|done].
  - intros (i & Hi & ->). exists i. split; [done|]. apply elem_of_reverse, elem_of_seqZ. lia.
Qed.

Lemma arena_loop_ok register fuel sb per_slab left slabs free :
  0 < sb -> 1 <= per_slab -> 0 <= left <= Z.of_nat fuel ->
  arena_ok (mkArena slabs sb free) free -> Forall (fun t => fst t < Zlen slabs) free ->
  match arena_loop register fuel sb per_slab left slabs free with
  | Ok a => arena_ok a (ar_free a) /\ Zlen (ar_free a) = Zlen free + left /\ ar_slot_bytes a = sb
  | Err e => e = HeRegister
  | Panic => False
  end.
Proof.
  intros Hsb Hper. revert left slabs free. induction fuel as [|fuel IH]; intros left slabs free Hl Ha Hlt;
    cbn [arena_loop ar_free ar_slot_bytes].
  { cbn in Hl. split_and!; [done|lia|done]. }
  destruct (Z.gtb_spec left 0) as [Hgt|Hle]; [|split_and!; [done|cbn [ar_free]; lia|done]].
  destruct (register _); [|done]. cbv zeta.
  assert (0 < Z.min left per_slab <= left) as Hm0 by lia.
  set (m := Z.min left per_slab) in *. clearbody m. set (slab := replicate (Z.to_nat (m * sb)) 0).
  assert (Zlen slab = m * sb) as Hslab by (unfold slab; rewrite length_replicate, Z2Nat.id; nia).
  assert (Zlen (slab_slots (Zlen slabs) m sb) = m) as Hm.
  { unfold slab_slots. rewrite length_fmap, length_reverse, length_seqZ. lia. }
  assert (Forall (fun t => fst t < Zlen (slabs ++ [slab])) (free ++ slab_slots (Zlen slabs) m sb)) as Hlt'.
  { rewrite length_app. cbn [length]. apply Forall_app. split.
    - eapply Forall_impl; [exact Hlt|]. cbn. lia.
    - apply Forall_forall. intros t (i & Hi & ->)%slab_slots_elem. cbn. lia. }
  assert (arena_ok (mkArena (slabs ++ [slab]) sb (free ++ slab_slots (Zlen slabs) m sb))
            (free ++ slab_slots (Zlen slabs) m sb)) as Ha'.
  { destruct Ha as [_ Hnd Hs]. split; [done| |]; cbn [ar_slabs ar_slot_bytes] in *.
    - apply NoDup_app. split; [done|]. split.
      + intros t Ht (i & Hi & ->)%slab_slots_elem. rewrite Forall_forall in Hlt. apply Hlt in Ht. cbn in Ht. lia.
      + unfold slab_slots. apply NoDup_fmap_2_strong; [|rewrite reverse_Permutation; apply NoDup_seqZ].
        intros x y _ _ [= He]. nia.
    - apply Forall_app. split.
      + eapply Forall_impl; [exact Hs|]. intros t (H0 & sl & i & Hi & Hr). split; [done|].
        exists sl, i. split; [by apply lookup_app_l_Some|done].
      + apply Forall_forall. intros t (i & Hi & ->)%slab_slots_elem. cbn [fst snd]. split; [lia|].
        exists slab, i. rewrite lookup_app_r, Nat2Z.id, Nat.sub_diag by lia. split_and!; [done|lia|done|nia]. }
  specialize (IH (left - m) (slabs ++ [slab]) (free ++ slab_slots (Zlen slabs) m sb)).
  destruct (arena_loop _ fuel _ _ _ _ _) as [a|e|].
  - destruct IH as (H1 & H2 & H3); [lia|done..|]. rewrite length_app in H2. split_and!; [done|lia|done].
  - by apply IH; [lia|..].
  - apply IH; [lia|done..].
Qed.

Lemma Arena_new_ok register sb slots a :
  0 < sb -> 0 <= slots -> Arena_new register sb slots = Ok a ->
  arena_ok a (ar_free a) /\ Zlen (ar_free a) = slots /\ ar_slot_bytes a = sb.
Proof.
  intros Hsb Hs. unfold Arena_new. rewrite (proj2 (Z.eqb_neq _ _)) by lia. cbv zeta.
  pose proof (arena_loop_ok register (Z.to_nat slots) sb (Z.max 1 (SLAB_BYTES / sb)) slots [] []) as H.
  destruct (arena_loop _ _ _ _ _ _ _); [|done..]. intros [= ->]. apply H; [done|lia|lia| |done].
  split; [done|constructor|constructor].
Qed.

(** * Shared pages *)

Definition map_slots (m : gmap Z Page) : list Slot := (fun e => pg_slot (snd e)) <$> map_to_list m.

Lemma map_slots_insert m id p :
  m !! id = None -> map_slots (<[id := p]> m) ≡ₚ pg_slot p :: map_slots m.
Proof. intros Hn. unfold map_slots. by rewrite map_to_list_insert. Qed.

Lemma map_slots_delete m id p :
  m !! id = Some p -> map_slots m ≡ₚ pg_slot p :: map_slots (delete id m).
Proof. intros Hs. unfold map_slots. by rewrite <-(map_to_list_delete m id p). Qed.

(** Changing only a count leaves the slots in place. *)
Lemma map_slots_recount m id p r :
  m !! id = Some p -> map_slots (<[id := mkPage (pg_slot p) r]> m) ≡ₚ map_slots m.
Proof.
  intros Hs. rewrite (map_slots_delete m id p) by done.
  rewrite <-insert_delete_eq. by rewrite map_slots_insert by apply lookup_delete_eq.
Qed.

Definition occurs (id : Z) (ids : list Z) : Z := Zlen (filter (eq id) ids).

Lemma occurs_cons id x ids : occurs id (x :: ids) = (if decide (id = x) then 1 else 0) + occurs id ids.
Proof. unfold occurs. rewrite filter_cons. destruct decide; cbn [length]; lia. Qed.

Lemma occurs_app id l k : occurs id (l ++ k) = occurs id l + occurs id k.
Proof. unfold occurs. rewrite filter_app, length_app. lia. Qed.

Lemma occurs_perm id l k : l ≡ₚ k -> occurs id l = occurs id k.
Proof. unfold occurs. by intros ->. Qed.

Lemma occurs_nonneg id l : 0 <= occurs id l.
Proof. unfold occurs. lia. Qed.

Lemma occurs_pos id l : 0 < occurs id l <-> id ∈ l.
Proof.
  unfold occurs. split.
  - intros H. destruct (filter (eq id) l) as [|x k] eqn:Hf; [cbn in H; lia|].
    assert (x ∈ filter (eq id) l) as Hx by (rewrite Hf; apply list_elem_of_here).
    apply list_elem_of_filter in Hx as [<- Hx]. done.
  - intros Hl. assert (id ∈ filter (eq id) l) as H by (by apply list_elem_of_filter).
    destruct (filter (eq id) l); [by apply not_elem_of_nil in H|cbn; lia].
Qed.

(** [ids] lists every reference to a page, [others] the slots used otherwise. *)
Record pool_ok (a : Arena) (m : gmap Z Page) (ids : list Z) (others all : list Slot) : Prop := {
  po_arena : arena_ok a all;
  po_slots : ar_free a ++ map_slots m ++ others ≡ₚ all;
  po_refs : forall id p, m !! id = Some p -> pg_refs p = occurs id ids /\ 0 < pg_refs p;
  po_held : forall id, id ∈ ids -> is_Some (m !! id);
}.

Lemma pool_perm a m ids ids' others others' all :
  ids ≡ₚ ids' -> others ≡ₚ others' -> pool_ok a m ids others all -> pool_ok a m ids' others' all.
Proof.
  intros Hi Ho [Ha Hs Hr Hh]. split; [done|by rewrite <-Ho| |].
  - intros id p Hp. rewrite <-(occurs_perm _ _ _ Hi). by apply Hr.
  - intros id Hin. apply Hh. by rewrite Hi.
Qed.

Lemma pool_slot_in a m ids others all s :
  pool_ok a m ids others all -> s ∈ map_slots m ++ others -> s ∈ all.
Proof. intros [_ Hs _ _] Hin. rewrite <-Hs. apply elem_of_app. by right. Qed.

Lemma pool_push a m ids s others all :
  pool_ok a m ids (s :: others) all -> pool_ok (push_free a s) m ids others all.
Proof.
  intros [Ha Hs Hr Hh]. split; [by apply arena_ok_free| |done|done]. cbn.
  rewrite <-Hs, <-!app_assoc. apply Permutation_app_head. cbn.
  rewrite (Permutation_middle (map_slots m) others s). done.
Qed.

Lemma pool_pop a a' s m ids others all :
  pool_ok a m ids others all -> pop_free a = Some (s, a') -> pool_ok a' m ids (s :: others) all.
Proof.
  intros [Ha Hs Hr Hh] [Hp ->]%pop_free_Some. split; [by apply arena_ok_free| |done|done]. cbn.
  rewrite <-Hs, Hp. cbn. rewrite !app_assoc. by rewrite <-Permutation_middle.
Qed.

(** Dropping one reference. *)
Lemma drop_page_pool c id ids others all :
  pool_ok (hc_pages c) (hc_page_map c) (id :: ids) others all ->
  exists c', drop_page c id = Ok c' /\
    pool_ok (hc_pages c') (hc_page_map c') ids others all /\
    ar_slabs (hc_pages c') = ar_slabs (hc_pages c) /\
    ar_slot_bytes (hc_pages c') = ar_slot_bytes (hc_pages c) /\
    (forall i p, hc_page_map c' !! i = Some p ->
       exists p0, hc_page_map c !! i = Some p0 /\ pg_slot p = pg_slot p0) /\
    hc_states c' = hc_states c /\ hc_snaps c' = hc_snaps c /\ hc_clock c' = hc_clock c /\
    hc_swa_bytes c' = hc_swa_bytes c /\ hc_stats c' = hc_stats c.
Proof.
  intros [Ha Hs Hr Hh]. unfold drop_page.
  destruct (Hh id) as [p Hp]; [apply list_elem_of_here|]. rewrite Hp.
  destruct (Hr id p Hp) as [Hcnt Hpos]. rewrite occurs_cons, decide_True in Hcnt by done.
  rewrite (proj2 (Z.eqb_neq _ _)) by lia.
  assert (forall j, j <> id -> occurs j (id :: ids) = occurs j ids) as Hother.
  { intros j Hj. rewrite occurs_cons, decide_False by done. lia. }
  destruct (Z.eqb_spec (pg_refs p - 1) 0) as [H0|H0]; eexists; (split; [done|]); cbn.
  - assert (~ id ∈ ids) as Hnot by (rewrite <-occurs_pos; lia).
    split_and!; try done.
    + split; [by apply arena_ok_free| | |].
      * cbn. rewrite <-Hs, (map_slots_delete _ _ _ Hp), <-!app_assoc. done.
      * intros j q Hq. destruct (decide (j = id)) as [->|Hj]; [by rewrite lookup_delete_eq in Hq|].
        rewrite lookup_delete_ne in Hq by done. rewrite <-Hother by done. by apply Hr.
      * intros j Hj. rewrite lookup_delete_ne; [apply Hh; by apply list_elem_of_further|].
        by intros ->.
    + intros j q [_ Hq]%lookup_delete_Some. by exists q.
  - split_and!; try done.
    + split; [done| | |].
      * by rewrite (map_slots_recount _ _ _ _ Hp).
      * intros j q Hq. destruct (decide (j = id)) as [->|Hj].
        -- rewrite lookup_insert_eq in Hq. injection Hq as <-. cbn. lia.
        -- rewrite lookup_insert_ne in Hq by done. rewrite <-Hother by done. by apply Hr.
      * intros j Hj. destruct (decide (j = id)) as [->|Hne]; [by rewrite lookup_insert_eq|].
        rewrite lookup_insert_ne by done. apply Hh. by apply list_elem_of_further.
    + intros j q Hq. destruct (decide (j = id)) as [->|Hj].
      * rewrite lookup_insert_eq in Hq. injection Hq as <-. by exists p.
      * rewrite lookup_insert_ne in Hq by done. by exists q.
Qed.

(** * The cache's accounts *)

Definition ids_of (snaps : list Snapshot) : list Z := concat (sn_pages <$> snaps).
Definition tails_of (snaps : list Snapshot) : list Slot := omap sn_tail snaps.

(** [held], [xp] and [xs]: references, page slots and state slots that a capture in
    progress has taken. *)
Record inv (allP allS : list Slot) (held : list Z) (xp xs : list Slot) (c : HostCache) : Prop := {
  iv_pool : pool_ok (hc_pages c) (hc_page_map c) (ids_of (hc_snaps c) ++ held)
              (tails_of (hc_snaps c) ++ xp) allP;
  iv_states : arena_ok (hc_states c) allS;
  iv_slots : ar_free (hc_states c) ++ (sn_state <$> hc_snaps c) ++ xs ≡ₚ allS;
}.

(** [c'] holds no more than [c]: nothing was written, pages and snapshots only went. *)
Record shrunk (c c' : HostCache) : Prop := {
  sh_pages : ar_slabs (hc_pages c') = ar_slabs (hc_pages c) /\
             ar_slot_bytes (hc_pages c') = ar_slot_bytes (hc_pages c);
  sh_states : ar_slabs (hc_states c') = ar_slabs (hc_states c) /\
              ar_slot_bytes (hc_states c') = ar_slot_bytes (hc_states c);
  sh_map : forall i p, hc_page_map c' !! i = Some p ->
             exists p0, hc_page_map c !! i = Some p0 /\ pg_slot p = pg_slot p0;
  sh_snaps : hc_snaps c' ⊆+ hc_snaps c;
  sh_rest : hc_clock c' = hc_clock c /\ hc_swa_bytes c' = hc_swa_bytes c;
}.

#[export] Instance shrunk_preorder : PreOrder shrunk.
Proof.
  split.
  - intros c. split; eauto.
  - intros c1 c2 c3 [[Ha1 Ha2] [Hb1 Hb2] Hm Hsn [Hr1 Hr2]]
      [[Ha3 Ha4] [Hb3 Hb4] Hm' Hsn' [Hr3 Hr4]].
    split; [split; congruence..| | |split; congruence].
    + intros i p Hp. destruct (Hm' i p Hp) as (q & Hq & Hs). destruct (Hm i q Hq) as (r & Hr & Hs').
      exists r. split; [done|congruence].
    + by transitivity (hc_snaps c2).
Qed.

Lemma shrunk_elem c c' s : shrunk c c' -> s ∈ hc_snaps c' -> s ∈ hc_snaps c.
Proof. intros Hs Hin. eapply elem_of_submseteq; [exact Hin|]. by apply sh_snaps. Qed.

(** Fewer snapshots name fewer pages. *)
Lemma ids_of_submseteq l k : l ⊆+ k -> Zlen (ids_of l) <= Zlen (ids_of k).
Proof.
  intros Hs. apply (fmap_submseteq sn_pages) in Hs. unfold ids_of. generalize dependent (sn_pages <$> l).
  generalize (sn_pages <$> k). clear. intros ls ks Hs.
  apply submseteq_Permutation in Hs as [r Hr]. rewrite Hr, concat_app, length_app. lia.
Qed.

Lemma inv_perm allP allS held held' xp xp' xs xs' c :
  held ≡ₚ held' -> xp ≡ₚ xp' -> xs ≡ₚ xs' -> inv allP allS held xp xs c -> inv allP allS held' xp' xs' c.
Proof.
  intros Hh Hp Hx [Hpool Hst Hsl]. split; [|done|by rewrite <-Hx].
  eapply pool_perm; [..|done]; by apply Permutation_app_head.
Qed.

Lemma drop_pages_inv allP allS l held xp xs c :
  inv allP allS (l ++ held) xp xs c ->
  exists c', fold_try drop_page c l = Ok c' /\ inv allP allS held xp xs c' /\ shrunk c c' /\
    hc_snaps c' = hc_snaps c /\ hc_stats c' = hc_stats c.
Proof.
  revert c. induction l as [|id l IH]; intros c Hi.
  { exists c. split_and!; done. }
  destruct Hi as [Hpool Hst Hsl].
  destruct (drop_page_pool c id (ids_of (hc_snaps c) ++ l ++ held) (tails_of (hc_snaps c) ++ xp) allP)
    as (c1 & Hc1 & Hp1 & Hs1 & Hb1 & Hm1 & Hst1 & Hsn1 & Hck1 & Hsw1 & Hstat1).
  { eapply pool_perm; [..|exact Hpool]; [|done]. cbn [app]. by rewrite <-Permutation_middle. }
  destruct (IH c1) as (c' & Hc' & Hi' & Hsh & Hsn & Hstat).
  { split; [by rewrite Hsn1|by rewrite Hst1|by rewrite Hst1, Hsn1]. }
  exists c'. cbn [fold_try]. rewrite Hc1. cbn [mbind outcome_bind].
  split_and!; [done|done| |congruence|congruence].
  transitivity c1; [|done]. split; [done|by rewrite Hst1|done|by rewrite Hsn1|done].
Qed.

Lemma free_tail_inv allP allS t held xp xs c :
  inv allP allS held (option_list t ++ xp) xs c ->
  inv allP allS held xp xs (free_tail c t) /\ shrunk c (free_tail c t).
Proof.
  destruct t as [t|]; cbn [option_list app free_tail]; [|by split].
  intros [Hpool Hst Hsl]. split.
  - split; [|done|done]. apply pool_push. change (option_list (Some t) ++ xp) with (t :: xp) in Hpool.
    eapply pool_perm; [..|exact Hpool]; [done|]. by rewrite <-Permutation_middle.
  - split; try done; cbn; eauto.
Qed.

Lemma push_state_inv allP allS s held xp xs c :
  inv allP allS held xp (s :: xs) c ->
  let c' := set_states c (push_free (hc_states c) s) in
  inv allP allS held xp xs c' /\ shrunk c c'.
Proof.
  intros [Hpool Hst Hsl]. split.
  - split; [done|by apply arena_ok_free|]. cbn.
    rewrite <-Hsl, <-!app_assoc. apply Permutation_app_head. cbn. by rewrite <-Permutation_middle.
  - split; try done; cbn; eauto.
Qed.

(** * Eviction *)

Lemma swap_remove_perm {A} (l l' : list A) i x :
  swap_remove l i = Some (x, l') -> l ≡ₚ x :: l' /\ l !! i = Some x.
Proof.
  unfold swap_remove. destruct (l !! i) as [y|] eqn:Hi; [|done].
  destruct (last l) as [z|] eqn:Hl; [|done]. intros [= <- <-]. split; [|done].
  apply last_Some in Hl as [k ->]. rewrite length_app. cbn [length].
  replace (length k + 1 - 1)%nat with (length k) by lia.
  destruct (decide (i < length k)%nat) as [Hlt|Hge].
  - rewrite insert_app_l by done. rewrite take_app_le, take_ge by (rewrite length_insert; lia).
    rewrite lookup_app_l in Hi by done.
    rewrite (Permutation_app_comm k [z]). cbn.
    rewrite insert_take_drop by done.
    rewrite <-(take_drop_middle k i y Hi) at 1.
    rewrite <-!Permutation_middle. apply perm_swap.
  - assert (i = length k) as ->.
    { apply lookup_lt_Some in Hi. rewrite length_app in Hi. cbn in Hi. lia. }
    rewrite lookup_app_r, Nat.sub_diag in Hi by lia. injection Hi as ->.
    rewrite insert_app_r_alt, Nat.sub_diag by lia. rewrite take_app_le, take_ge by lia.
    by rewrite Permutation_app_comm.
Qed.

Lemma victim_from_bound i best l : (fst best < i)%nat -> (victim_from i best l < i + length l)%nat.
Proof.
  revert i best. induction l as [|k l IH]; intros i best Hb; cbn [victim_from length]; [lia|].
  assert (fst (if key_lt k (snd best) then (i, k) else best) < S i)%nat by (destruct key_lt; cbn; lia).
  specialize (IH (S i) _ H). lia.
Qed.

Lemma victim_bound l i : victim l = Some i -> (i < length l)%nat.
Proof.
  destruct l as [|k l]; [done|]. intros [= <-]. apply (victim_from_bound 1 (0%nat, k) l). cbn. lia.
Qed.

Lemma victim_None l : victim l = None -> l = [].
Proof. by destruct l. Qed.

Lemma inv_snaps_perm allP allS held xp xs c l s :
  hc_snaps c ≡ₚ s :: l -> inv allP allS held xp xs c ->
  inv allP allS (sn_pages s ++ held) (option_list (sn_tail s) ++ xp) (sn_state s :: xs) (set_snaps c l).
Proof.
  intros Hl [Hpool Hst Hsl]. split; cbn; [|done|].
  - eapply pool_perm; [..|exact Hpool].
    + unfold ids_of. rewrite Hl. cbn. rewrite (app_assoc (concat _)).
      rewrite (Permutation_app_comm (concat (sn_pages <$> l)) (sn_pages s)). by rewrite <-app_assoc.
    + unfold tails_of. rewrite Hl. cbn. destruct (sn_tail s); cbn; [|done]. by rewrite <-Permutation_middle.
  - rewrite <-Hsl, Hl. cbn. by rewrite <-Permutation_middle.
Qed.

Lemma evict_one_inv allP allS held xp xs c :
  inv allP allS held xp xs c ->
  exists c' b, evict_one c = Ok (c', b) /\ inv allP allS held xp xs c' /\ shrunk c c' /\
    if b then S (length (hc_snaps c')) = length (hc_snaps c) else c' = c /\ hc_snaps c = [].
Proof.
  intros Hi. unfold evict_one. destruct (victim _) as [i|] eqn:Hv.
  2:{ exists c, false. apply victim_None, fmap_nil_inv in Hv. split_and!; done. }
  apply victim_bound in Hv. rewrite length_fmap in Hv.
  destruct (swap_remove (hc_snaps c) i) as [[s l]|] eqn:Hr.
  2:{ exfalso. unfold swap_remove in Hr.
      destruct (lookup_lt_is_Some_2 (hc_snaps c) i Hv) as [x Hx]. rewrite Hx in Hr.
      destruct (last (hc_snaps c)) eqn:Hl; [done|]. apply last_None in Hl. by rewrite Hl in Hx. }
  apply swap_remove_perm in Hr as [Hp _].
  pose proof (inv_snaps_perm _ _ _ _ _ _ _ _ Hp Hi) as H1.
  destruct (push_state_inv _ _ _ _ _ _ _ H1) as [H2 Hs2]. cbv zeta in H2, Hs2.
  destruct (free_tail_inv _ _ _ _ _ _ _ H2) as [H3 Hs3].
  destruct (drop_pages_inv _ _ _ _ _ _ _ H3) as (c' & Hc' & H4 & Hs4 & Hsn & _).
  unfold HostCache_release. cbv zeta. rewrite Hc'. cbn [mbind outcome_bind].
  eexists _, true. split; [done|].
  assert (shrunk c (set_snaps c l)) as Hs1.
  { split; try done; cbn; [eauto|]. rewrite Hp. by apply submseteq_cons. }
  assert (shrunk c c') as Hsh by (etransitivity; [exact Hs1|]; etransitivity; [exact Hs2|]; by etransitivity).
  split_and!.
  - destruct H4. by split.
  - destruct Hsh. by split.
  - cbn. rewrite Hsn. destruct (sn_tail s); cbn; by rewrite Hp.
Qed.

(** Allocation ends, and fails only when every snapshot is gone and no slot is
    free. *)
Lemma alloc_page_inv allP allS held xp xs c :
  inv allP allS held xp xs c ->
  exists c' r, alloc_page c = Ok (c', r) /\ shrunk c c' /\
    match r with
    | Some s => inv allP allS held (s :: xp) xs c'
    | None => inv allP allS held xp xs c' /\ hc_snaps c' = [] /\ ar_free (hc_pages c') = []
    end.
Proof.
  unfold alloc_page. generalize (Nat.lt_succ_diag_r (length (hc_snaps c))).
  generalize (S (length (hc_snaps c))). intros fuel. revert c.
  induction fuel as [|fuel IH]; intros c Hf Hi; [lia|]. cbn [alloc_page_loop].
  destruct (pop_free (hc_pages c)) as [[s a]|] eqn:Hpop.
  - eexists _, (Some s). split; [done|]. destruct Hi as [Hpool Hst Hsl].
    pose proof (pool_pop _ _ _ _ _ _ _ Hpool Hpop) as Hpool'.
    pose proof (pop_free_same _ _ _ Hpop) as Hsame. split.
    + split; try done; cbn; eauto.
    + split; [|done|done]. eapply pool_perm; [..|exact Hpool']; [done|].
      by rewrite <-Permutation_middle.
  - destruct (evict_one_inv _ _ _ _ _ _ Hi) as (c1 & b & Hc1 & Hi1 & Hs1 & Hb).
    rewrite Hc1. cbn [mbind outcome_bind]. destruct b.
    + destruct (IH c1) as (c' & r & Hc' & Hs' & Hr); [lia|done|].
      exists c', r. split; [done|]. split; [by transitivity c1|done].
    + destruct Hb as [-> Hsn]. exists c, None. split_and!; try done. by apply pop_free_None.
Qed.

Lemma alloc_state_inv allP allS held xp xs c :
  inv allP allS held xp xs c ->
  exists c' r, alloc_state c = Ok (c', r) /\ shrunk c c' /\
    match r with
    | Some s => inv allP allS held xp (s :: xs) c'
    | None => inv allP allS held xp xs c' /\ hc_snaps c' = [] /\ ar_free (hc_states c') = []
    end.
Proof.
  unfold alloc_state. generalize (Nat.lt_succ_diag_r (length (hc_snaps c))).
  generalize (S (length (hc_snaps c))). intros fuel. revert c.
  induction fuel as [|fuel IH]; intros c Hf Hi; [lia|]. cbn [alloc_state_loop].
  destruct (pop_free (hc_states c)) as [[s a]|] eqn:Hpop.
  - eexists _, (Some s). split; [done|]. destruct Hi as [Hpool Hst Hsl].
    pose proof (pop_free_same _ _ _ Hpop) as Hsame.
    apply pop_free_Some in Hpop as [Hp Ha]. split.
    + split; try done; cbn; eauto.
    + split; [done|rewrite Ha; by apply arena_ok_free|].
      cbn [hc_states set_states hc_snaps]. rewrite <-Hsl, Hp. cbn [app].
      rewrite !app_assoc. by rewrite <-Permutation_middle.
  - destruct (evict_one_inv _ _ _ _ _ _ Hi) as (c1 & b & Hc1 & Hi1 & Hs1 & Hb).
    rewrite Hc1. cbn [mbind outcome_bind]. destruct b.
    + destruct (IH c1) as (c' & r & Hc' & Hs' & Hr); [lia|done|].
      exists c', r. split; [done|]. split; [by transitivity c1|done].
    + destruct Hb as [-> Hsn]. exists c, None. split_and!; try done. by apply pop_free_None.
Qed.

(** * Writing a slot that a capture has taken *)

(** [c'] is [c] with the bytes of page slot [s] replaced. *)
Record wrote_page (all : list Slot) (s : Slot) (bytes : list Z) (c c' : HostCache) : Prop := {
  wp_same : hc_states c' = hc_states c /\ hc_page_map c' = hc_page_map c /\ hc_snaps c' = hc_snaps c /\
    hc_clock c' = hc_clock c /\ hc_swa_bytes c' = hc_swa_bytes c /\ hc_stats c' = hc_stats c;
  wp_slot : Arena_get (hc_pages c') s = Ok bytes;
  wp_other : forall s', s' ∈ all -> s' <> s -> Arena_get (hc_pages c') s' = Arena_get (hc_pages c) s';
}.

Lemma write_page_inv allP allS held xp xs c s bytes :
  inv allP allS held (s :: xp) xs c -> Zlen bytes = ar_slot_bytes (hc_pages c) ->
  exists a, Arena_put (hc_pages c) s bytes = Ok a /\
    inv allP allS held (s :: xp) xs (set_pages c a) /\ wrote_page allP s bytes c (set_pages c a) /\
    ar_slot_bytes a = ar_slot_bytes (hc_pages c).
Proof.
  intros [Hpool Hst Hsl] Hlen. pose proof Hpool as [Ha Hs Hr Hh].
  assert (s ∈ allP) as Hin.
  { apply (pool_slot_in _ _ _ _ _ s Hpool). rewrite !elem_of_app. right; right. apply list_elem_of_here. }
  destruct (arena_put_ok _ _ s bytes Ha Hin Hlen) as (a & Hput & Ha' & Hfree & Hsb & Hget & Hother).
  exists a. split; [done|]. split; [|split; [|done]].
  - split; [|done|done]. split; cbn; [done|by rewrite Hfree|done|done].
  - split; [done|done|done].
Qed.

(** A slot just taken is none of those in use. *)
Lemma taken_slot_fresh allP allS held s xp xs c :
  inv allP allS held (s :: xp) xs c ->
  (forall id p, hc_page_map c !! id = Some p -> pg_slot p <> s /\ pg_slot p ∈ allP) /\
  (forall t, t ∈ tails_of (hc_snaps c) -> t <> s /\ t ∈ allP).
Proof.
  intros [Hpool _ _]. pose proof (ao_nodup _ _ (po_arena _ _ _ _ _ Hpool)) as Hnd.
  rewrite <-(po_slots _ _ _ _ _ Hpool) in Hnd. apply NoDup_app in Hnd as (_ & _ & Hnd).
  assert (NoDup (s :: map_slots (hc_page_map c) ++ tails_of (hc_snaps c) ++ xp)) as Hnd'.
  { rewrite !app_assoc in Hnd |- *. by rewrite <-Permutation_middle in Hnd. }
  apply NoDup_cons in Hnd' as [Hnot _]. split.
  - intros id p Hp. assert (pg_slot p ∈ map_slots (hc_page_map c)) as Hin.
    { apply list_elem_of_fmap. exists (id, p). split; [done|]. by apply elem_of_map_to_list. }
    split; [intros He; apply Hnot; rewrite <-He, elem_of_app; by left|].
    apply (pool_slot_in _ _ _ _ _ _ Hpool). rewrite elem_of_app. by left.
  - intros t Ht. split; [intros He; apply Hnot; rewrite <-He, !elem_of_app; by right; left|].
    apply (pool_slot_in _ _ _ _ _ _ Hpool). rewrite !elem_of_app. by right; left.
Qed.

(** * The device's side of the contract *)

Class KvDeviceLaws (D B Row : Type) `{!KvDevice D B} := {
  kv_rows : D -> list Row;
  kv_swa : D -> Z * list Z;
  page_holds : list Z -> list Row -> Prop;
  buffer_data : B -> list Z;
  law_sizes : forall kv, 0 <= ga_page_bytes kv /\ 0 <= swa_state_bytes kv /\ 0 <= draft_state_bytes kv;
  law_export_total : forall kv r0 n page, export_ga_page kv r0 n page <> Panic;
  law_export : forall kv r0 n page page', export_ga_page kv r0 n page = Ok page' ->
    0 <= r0 -> 0 <= n <= KV_PAGE_ROWS -> r0 + n <= Zlen (kv_rows kv) ->
    Zlen page' = Zlen page /\ page_holds page' (slice (kv_rows kv) r0 (r0 + n));
  law_sync : forall kv, sync_export kv <> Panic;
  law_buffer : forall b, buffer_bytes b = Zlen (buffer_data b);
  law_memcpy : forall buf b len buf', memcpy_d2h buf b len = Some buf' ->
    0 <= len <= Zlen buf -> len <= buffer_bytes b ->
    buf' = take (Z.to_nat len) (buffer_data b) ++ drop (Z.to_nat len) buf;
  law_reset : forall kv, kv_rows (kv_reset kv) = [];
  law_reserve : forall kv n kv', reserve_ga kv n = Ok kv' -> kv_rows kv' = kv_rows kv;
  law_import : forall kv n page rows kv', import_ga_page kv n page = Ok kv' ->
    page_holds page rows -> Zlen rows = n -> kv_rows kv' = kv_rows kv ++ rows;
  law_finish : forall kv kv', finish_ga_import kv = Ok kv' -> kv_rows kv' = kv_rows kv;
  law_swa : forall kv rows src kv', import_swa kv rows src = Ok kv' ->
    kv_rows kv' = kv_rows kv /\ kv_swa kv' = (rows, src);
  law_draft : forall kv src kv', import_draft kv src = Ok kv' ->
    kv_rows kv' = kv_rows kv /\ kv_swa kv' = kv_swa kv;
  law_load_total : forall kv n page,
    reserve_ga kv n <> Panic /\ import_ga_page kv n page <> Panic /\ finish_ga_import kv <> Panic /\
    import_swa kv n page <> Panic /\ import_draft kv page <> Panic;
  law_set_tokens : forall kv n, kv_rows (kv_set_tokens kv n) = kv_rows kv /\
    kv_swa (kv_set_tokens kv n) = kv_swa kv /\
    (0 <= n <= Zlen (kv_rows kv) -> kv_tokens (kv_set_tokens kv n) = n);
}.

(** * Hoare triples for method bodies *)

(** [P] where the body goes on, [Q] where it returns early, [X] where it leaves by
    [?]; it panics only if [U]. *)
Definition flow_spec {S E R A} (m : flow S E R A) (P : S -> A -> Prop) (Q X : S -> Prop) (U : Prop) : Prop :=
  match m with Next s a => P s a | Return s _ => Q s | Throw s _ => X s | Unwind => U end.

Lemma flow_bind {S E R A B} (m : flow S E R A) (f : S -> A -> flow S E R B) P P' Q X U :
  flow_spec m P Q X U -> (forall s a, P s a -> flow_spec (f s a) P' Q X U) ->
  flow_spec (fbind m f) P' Q X U.
Proof. destruct m; cbn; auto. Qed.

Lemma flow_weaken {S E R A} (m : flow S E R A) (P P' : S -> A -> Prop) (Q Q' X X' : S -> Prop) (U : Prop) :
  flow_spec m P Q X U -> (forall s a, P s a -> P' s a) -> (forall s, Q s -> Q' s) ->
  (forall s, X s -> X' s) -> flow_spec m P' Q' X' U.
Proof. destruct m; cbn; auto. Qed.

Lemma flow_fold_spec {S E R A B} (f : S -> B -> A -> flow S E R B) (P : nat -> S -> B -> Prop) Q X U l s acc :
  P 0%nat s acc ->
  (forall i x s acc, l !! i = Some x -> P i s acc -> flow_spec (f s acc x) (P (Datatypes.S i)) Q X U) ->
  flow_spec (flow_fold f s acc l) (P (length l)) Q X U.
Proof.
  revert P s acc. induction l as [|x l IH]; intros P s acc H0 Hstep; [done|]. cbn [flow_fold].
  eapply flow_bind; [by apply (Hstep 0%nat x)|]. intros s' acc' H1.
  apply (IH (fun i => P (Datatypes.S i))); [done|]. intros i y s2 acc2 Hy. by apply Hstep.
Qed.

Section host_cache_proofs.
Context {D B Row : Type} `{!KvDevice D B} `{!KvDeviceLaws D B Row}.
Context (lane : Z -> Z -> list Z -> Z).
(** A device row depends only on the tokens up to its position. *)
Context (row_of : list Z -> Row).

Abbreviation page_chain := (page_chain lane).

Definition rows_for (tokens : list Z) : list Row :=
  (fun i => row_of (take (S i) tokens)) <$> seq 0 (length tokens).

Lemma rows_for_length tokens : length (rows_for tokens) = length tokens.
Proof. unfold rows_for. by rewrite length_fmap, length_seq. Qed.

Lemma rows_for_lookup tokens i :
  rows_for tokens !! i = if decide (i < length tokens)%nat then Some (row_of (take (S i) tokens)) else None.
Proof.
  unfold rows_for. rewrite list_lookup_fmap. destruct decide.
  - by rewrite lookup_seq_lt.
  - by rewrite lookup_seq_ge by lia.
Qed.

Lemma rows_for_take tokens n : take n (rows_for tokens) = rows_for (take n tokens).
Proof.
  apply list_eq. intros i. rewrite lookup_take, !rows_for_lookup, length_take.
  repeat destruct decide; try lia; [|done..].
  do 2 f_equal. rewrite take_take. f_equal. lia.
Qed.

(** Prompts with a common prefix have their rows up to there in common. *)
Lemma rows_for_slice tokens tokens' a b :
  0 <= a -> take (Z.to_nat b) tokens = take (Z.to_nat b) tokens' ->
  slice (rows_for tokens) a b = slice (rows_for tokens') a b.
Proof.
  intros Ha Ht. destruct (Z.lt_ge_cases b a) as [Hlt|Hle].
  { unfold slice. by replace (Z.to_nat (b - a)) with O by lia. }
  assert (forall l : list Row, slice l a b = drop (Z.to_nat a) (take (Z.to_nat b) l)) as Hs.
  { intros l. unfold slice. rewrite take_drop_commute. do 2 f_equal. lia. }
  by rewrite !Hs, !rows_for_take, Ht.
Qed.

(** * The page chain *)

Lemma chain_from_length prev bs : length (chain_from lane prev bs) = length bs.
Proof. revert prev. induction bs; intros; cbn; [done|]. by rewrite IHbs. Qed.

Lemma page_chain_length tokens : Zlen (page_chain tokens) = Zlen tokens / KV_PAGE_ROWS.
Proof.
  unfold HostCache.page_chain. rewrite chain_from_length. unfold token_blocks.
  rewrite length_fmap, length_seqZ. apply Z2Nat.id. apply Z.div_pos; [lia|done].
Qed.

Lemma chain_from_take prev bs n : take n (chain_from lane prev bs) = chain_from lane prev (take n bs).
Proof. revert prev n. induction bs; intros prev [|n]; cbn; [done..|]. by rewrite IHbs. Qed.

(** The chain of a prefix is a prefix of the chain. *)
Lemma page_chain_take tokens n :
  0 <= n <= Zlen tokens ->
  page_chain (take (Z.to_nat n) tokens) = take (Z.to_nat (n / KV_PAGE_ROWS)) (page_chain tokens).
Proof.
  intros Hn. unfold HostCache.page_chain. rewrite chain_from_take. f_equal. unfold token_blocks.
  rewrite length_take. replace (Z.of_nat (Z.to_nat n `min` length tokens)) with n by lia.
  assert (0 <= n / KV_PAGE_ROWS <= Zlen tokens / KV_PAGE_ROWS) as [Hq0 Hq].
  { split; [apply Z.div_pos; [lia|done]|]. apply Z.div_le_mono; [done|lia]. }
  rewrite <-fmap_take.
  assert (forall a b, 0 <= a <= b -> take (Z.to_nat a) (seqZ 0 b) = seqZ 0 a) as ->; [| |done].
  { intros a b Hab. replace b with (a + (b - a)) by lia.
    rewrite seqZ_app; [|lia..]. rewrite take_app_le, take_ge by (rewrite length_seqZ; lia). done. }
  apply list_fmap_ext. intros i j Hj. apply lookup_seqZ in Hj as [-> Hj].
  pose proof (Z.mul_div_le n KV_PAGE_ROWS eq_refl). unfold KV_PAGE_ROWS in *.
  unfold slice. rewrite skipn_firstn_comm, take_take. f_equal. lia.
Qed.
End host_cache_proofs.
