(* ===== verification/HostCapture.v ===== *)
(** Capturing into the host cache: every page slot holds the rows its chain id stands
    for, every snapshot's tail and state are those of its tokens, and [capture] keeps
    this and the slot accounts on each of its exits. *)
From Stdlib Require Import ZArith Lia Bool SpecFloat.
From stdpp Require Import base list gmap strings.
From S2P Require Import Prelude HostCache HostPool.

(** What a capture was given: the history the contents are described against. *)
Record taken := mkTaken {
  tk_tokens : list Z;
  tk_rows : Z;
  tk_data : list Z;
  tk_draft : bool;
}.

(** What a capture never changes, and what it may only lose. *)
Record later (c c' : HostCache) : Prop := {
  la_bytes : ar_slot_bytes (hc_pages c') = ar_slot_bytes (hc_pages c) /\
             ar_slot_bytes (hc_states c') = ar_slot_bytes (hc_states c);
  la_snaps : hc_snaps c' ⊆+ hc_snaps c;
  la_rest : hc_clock c' = hc_clock c /\ hc_swa_bytes c' = hc_swa_bytes c;
}.

#[export] Instance later_preorder : PreOrder later.
Proof.
  split; [intros c; by split|].
  intros c1 c2 c3 [[? ?] ? [? ?]] [[? ?] ? [? ?]].
  split; [split; congruence|by transitivity (hc_snaps c2)|split; congruence].
Qed.

Lemma later_ids c c' : later c c' -> Zlen (ids_of (hc_snaps c')) <= Zlen (ids_of (hc_snaps c)).
Proof. intros [_ Hs _]. by apply ids_of_submseteq. Qed.

Lemma shrunk_later c c' : shrunk c c' -> later c c'.
Proof. intros [[] [] _ Hs Hr]. by split. Qed.

Lemma later_page_map c m : later c (set_page_map c m).
Proof. by split. Qed.

Lemma wrote_later all s bytes c c' :
  wrote_page all s bytes c c' -> ar_slot_bytes (hc_pages c') = ar_slot_bytes (hc_pages c) -> later c c'.
Proof.
  intros [(Hst & _ & Hsn & Hck & Hsw & _) _ _] Hb.
  split; rewrite ?Hst, ?Hsn; auto.
Qed.

Lemma Arena_get_ext a a' s :
  ar_slabs a' = ar_slabs a -> ar_slot_bytes a' = ar_slot_bytes a -> Arena_get a' s = Arena_get a s.
Proof. unfold Arena_get. by intros -> ->. Qed.

(** * Accounts of a page that a capture takes *)

Lemma occurs_le id l : occurs id l <= Zlen l.
Proof. unfold occurs. pose proof (length_filter (eq id) l). lia. Qed.

Lemma share_page_inv allP allS held xp xs c id p :
  inv allP allS held xp xs c -> hc_page_map c !! id = Some p ->
  inv allP allS (id :: held) xp xs
    (set_page_map c (<[id := mkPage (pg_slot p) (pg_refs p + 1)]> (hc_page_map c))).
Proof.
  intros [[Ha Hs Hr Hh] Hst Hsl] Hp. split; [|done|done]. cbn.
  assert (forall j, occurs j (ids_of (hc_snaps c) ++ id :: held)
    = (if decide (j = id) then 1 else 0) + occurs j (ids_of (hc_snaps c) ++ held)) as Hocc.
  { intros j. rewrite !occurs_app, occurs_cons. lia. }
  split; [done|by rewrite (map_slots_recount _ _ _ _ Hp)| |].
  - intros j q Hq. rewrite Hocc. destruct (decide (j = id)) as [->|Hne].
    + rewrite lookup_insert_eq in Hq. injection Hq as <-. cbn.
      destruct (Hr id p Hp). lia.
    + rewrite lookup_insert_ne in Hq by done. destruct (Hr j q Hq). lia.
  - intros j Hj. destruct (decide (j = id)) as [->|Hne]; [by rewrite lookup_insert_eq|].
    rewrite lookup_insert_ne by done. apply Hh. set_solver.
Qed.

Lemma add_page_inv allP allS held xp xs c id slot :
  inv allP allS held (slot :: xp) xs c -> hc_page_map c !! id = None ->
  inv allP allS (id :: held) xp xs (set_page_map c (<[id := mkPage slot 1]> (hc_page_map c))).
Proof.
  intros [[Ha Hs Hr Hh] Hst Hsl] Hn. split; [|done|done]. cbn.
  assert (~ id ∈ ids_of (hc_snaps c) ++ held) as Hnot.
  { intros Hin. apply Hh in Hin as [? Hin]. congruence. }
  assert (occurs id (ids_of (hc_snaps c) ++ held) = 0) as H0.
  { pose proof (occurs_nonneg id (ids_of (hc_snaps c) ++ held)). rewrite <-occurs_pos in Hnot. lia. }
  assert (forall j, occurs j (ids_of (hc_snaps c) ++ id :: held)
    = (if decide (j = id) then 1 else 0) + occurs j (ids_of (hc_snaps c) ++ held)) as Hocc.
  { intros j. rewrite !occurs_app, occurs_cons. lia. }
  split; [done| | |].
  - rewrite map_slots_insert by done. rewrite <-Hs. apply Permutation_app_head. cbn.
    by rewrite !app_assoc, <-Permutation_middle.
  - intros j q Hq. rewrite Hocc. destruct (decide (j = id)) as [->|Hne].
    + rewrite lookup_insert_eq in Hq. injection Hq as <-. cbn. lia.
    + rewrite lookup_insert_ne in Hq by done. destruct (Hr j q Hq). lia.
  - intros j Hj. destruct (decide (j = id)) as [->|Hne]; [by rewrite lookup_insert_eq|].
    rewrite lookup_insert_ne by done. apply Hh. set_solver.
Qed.

(** Writing a state slot that a capture has taken. *)
Lemma write_state_inv allP allS held xp xs c s bytes :
  inv allP allS held xp (s :: xs) c -> Zlen bytes = ar_slot_bytes (hc_states c) ->
  exists a, Arena_put (hc_states c) s bytes = Ok a /\
    inv allP allS held xp (s :: xs) (set_states c a) /\ Arena_get a s = Ok bytes /\
    ar_slot_bytes a = ar_slot_bytes (hc_states c) /\
    (forall x, x ∈ hc_snaps c -> Arena_get a (sn_state x) = Arena_get (hc_states c) (sn_state x)).
Proof.
  intros [Hpool Hst Hsl] Hlen.
  pose proof (ao_nodup _ _ Hst) as Hnd. rewrite <-Hsl in Hnd.
  apply NoDup_app in Hnd as (_ & _ & (_ & Hdis & _)%NoDup_app).
  assert (s ∈ allS) as Hin by (rewrite <-Hsl; set_solver).
  destruct (arena_put_ok _ _ s bytes Hst Hin Hlen) as (a & Hput & Ha & Hfree & Hsb & Hget & Hother).
  exists a. split_and!; try done.
  - split; [done|done|]. cbn. by rewrite Hfree.
  - intros x Hx. assert (sn_state x ∈ sn_state <$> hc_snaps c) as Hm by (by apply list_elem_of_fmap_2).
    apply Hother; [rewrite <-Hsl; set_solver|]. intros He. apply (Hdis _ Hm). rewrite He. set_solver.
Qed.

Lemma taken_state_in allP allS held xp s xs c :
  inv allP allS held xp (s :: xs) c -> s ∈ allS.
Proof. intros [_ _ Hsl]. rewrite <-Hsl. set_solver. Qed.

Lemma taken_page_in allP allS held s xp xs c :
  inv allP allS held (s :: xp) xs c -> s ∈ allP.
Proof.
  intros [Hpool _ _]. apply (pool_slot_in _ _ _ _ _ _ Hpool). set_solver.
Qed.

Section capture_proofs.
Context {D B Row : Type} `{!KvDevice D B} `{!KvDeviceLaws D B Row}.
Context (lane : Z -> Z -> list Z -> Z) (row_of : list Z -> Row).

Abbreviation page_chain := (page_chain lane).
Abbreviation rows_for := (rows_for row_of).

(** * Contents *)

Definition page_good (log : list taken) (c : HostCache) (id : Z) (slot : Slot) : Prop :=
  exists e i bytes, e ∈ log /\ page_chain (tk_tokens e) !! i = Some id /\
    Arena_get (hc_pages c) slot = Ok bytes /\
    page_holds bytes (slice (rows_for (tk_tokens e)) (Z.of_nat i * KV_PAGE_ROWS)
                        (Z.of_nat i * KV_PAGE_ROWS + KV_PAGE_ROWS)).

Definition tail_good (c : HostCache) (tokens : list Z) (tail_ : option Slot) : Prop :=
  let n := Zlen tokens in
  if n mod KV_PAGE_ROWS >? 0 then
    exists slot bytes, tail_ = Some slot /\ Arena_get (hc_pages c) slot = Ok bytes /\
      page_holds bytes (slice (rows_for tokens) (n - n mod KV_PAGE_ROWS) n)
  else tail_ = None.

Definition state_good (log : list taken) (c : HostCache) (tokens : list Z) (rows : Z) (draft : bool)
    (slot : Slot) : Prop :=
  exists e, e ∈ log /\ tk_tokens e = tokens /\ tk_rows e = rows /\ tk_draft e = draft /\
    ar_slot_bytes (hc_states c) <= Zlen (tk_data e) /\
    Arena_get (hc_states c) slot = Ok (take (Z.to_nat (ar_slot_bytes (hc_states c))) (tk_data e)).

Record snap_good (log : list taken) (c : HostCache) (s : Snapshot) : Prop := {
  sg_pages : sn_pages s = page_chain (sn_tokens s);
  sg_long : MIN_TOKENS <= Zlen (sn_tokens s);
  sg_tail : tail_good c (sn_tokens s) (sn_tail s);
  sg_state : state_good log c (sn_tokens s) (sn_swa_rows s) (sn_has_draft s) (sn_state s);
}.

Record contents (log : list taken) (c : HostCache) : Prop := {
  ct_pages : forall id p, hc_page_map c !! id = Some p -> page_good log c id (pg_slot p);
  ct_snaps : forall s, s ∈ hc_snaps c -> snap_good log c s;
}.

(** What is read where nothing was written. *)
Record same_bytes (c c' : HostCache) : Prop := {
  sb_pages : forall id p, hc_page_map c !! id = Some p ->
    Arena_get (hc_pages c') (pg_slot p) = Arena_get (hc_pages c) (pg_slot p);
  sb_tails : forall t, t ∈ tails_of (hc_snaps c) -> Arena_get (hc_pages c') t = Arena_get (hc_pages c) t;
  sb_states : forall s, s ∈ hc_snaps c ->
    Arena_get (hc_states c') (sn_state s) = Arena_get (hc_states c) (sn_state s);
  sb_bytes : ar_slot_bytes (hc_states c') = ar_slot_bytes (hc_states c);
}.

Lemma tail_good_ext c c' tokens t :
  (forall s, t = Some s -> Arena_get (hc_pages c') s = Arena_get (hc_pages c) s) ->
  tail_good c tokens t -> tail_good c' tokens t.
Proof.
  intros He. unfold tail_good. cbv zeta. destruct (_ >? 0); [|done].
  intros (slot & bytes & Ht & Hg & Hp). exists slot, bytes. by rewrite He.
Qed.

Lemma snap_good_ext log c c' s :
  same_bytes c c' -> s ∈ hc_snaps c -> snap_good log c s -> snap_good log c' s.
Proof.
  intros [_ Ht Hst Hb] Hs [Hp Hl Htl (e & He & H1 & H2 & H3 & H4 & H5)].
  split; [done|done| |].
  - eapply tail_good_ext; [|done]. intros t E. apply Ht. apply list_elem_of_omap. by exists s.
  - exists e. rewrite Hb, Hst by done. by split_and!.
Qed.

Lemma contents_frame log c c' :
  (forall id p, hc_page_map c' !! id = Some p ->
     exists p0, hc_page_map c !! id = Some p0 /\ pg_slot p = pg_slot p0) ->
  (forall s, s ∈ hc_snaps c' -> s ∈ hc_snaps c) ->
  same_bytes c c' -> contents log c -> contents log c'.
Proof.
  intros Hm Hs Hsb [Hp Hsn]. split.
  - intros id p Hid. destruct (Hm id p Hid) as (p0 & Hp0 & ->).
    destruct (Hp id p0 Hp0) as (e & i & bytes & He & Hi & Hg & Hh).
    exists e, i, bytes. split_and!; try done. by rewrite (sb_pages _ _ Hsb id).
  - intros s Hin. apply (snap_good_ext _ c); auto.
Qed.

Lemma shrunk_same_bytes c c' : shrunk c c' -> same_bytes c c'.
Proof.
  intros [[Hp1 Hp2] [Hs1 Hs2] _ _ _]. split; [..|done]; intros; by apply Arena_get_ext.
Qed.

Lemma contents_shrunk log c c' : shrunk c c' -> contents log c -> contents log c'.
Proof.
  intros Hs. pose proof (shrunk_same_bytes _ _ Hs). apply contents_frame; [apply (sh_map _ _ Hs)| |done].
  intros s. by apply shrunk_elem.
Qed.

Lemma page_good_mono log log' c id slot :
  (forall e, e ∈ log -> e ∈ log') -> page_good log c id slot -> page_good log' c id slot.
Proof. intros Hl (e & i & bytes & He & Hr). exists e, i, bytes. auto. Qed.

Lemma contents_mono log log' c :
  (forall e, e ∈ log -> e ∈ log') -> contents log c -> contents log' c.
Proof.
  intros Hl [Hp Hs]. split.
  - intros id p Hid. eapply page_good_mono; [done|by apply Hp].
  - intros s Hin. destruct (Hs s Hin) as [H1 H2 H3 (e & He & H4)]. split; [done..|].
    exists e. auto.
Qed.

(** Writing a page slot nobody uses yet. *)
Lemma contents_write log allP allS held s xp xs bytes c c' :
  inv allP allS held (s :: xp) xs c -> wrote_page allP s bytes c c' ->
  contents log c -> contents log c' /\ same_bytes c c'.
Proof.
  intros Hi [(Hst & Hm & Hsn & _ & _ & _) Hget Hother] Hc.
  destruct (taken_slot_fresh _ _ _ _ _ _ _ Hi) as [Hpg Htl].
  assert (same_bytes c c') as Hsb.
  { split; [| | |by rewrite Hst].
    - intros id p Hp. destruct (Hpg id p Hp). by apply Hother.
    - intros t Ht. destruct (Htl t Ht). by apply Hother.
    - intros x _. by rewrite Hst. }
  split; [|done]. apply (contents_frame log c); [| |done|done].
  - rewrite Hm. eauto.
  - by rewrite Hsn.
Qed.

(** Mapping a written page under its id. *)
Lemma contents_insert log c id p :
  page_good log c id (pg_slot p) -> contents log c ->
  contents log (set_page_map c (<[id := p]> (hc_page_map c))).
Proof.
  intros Hg [Hp Hs]. split; [|intros s Hin; destruct (Hs s Hin); by split].
  cbn. intros j q Hq. destruct (decide (j = id)) as [->|Hne].
  - rewrite lookup_insert_eq in Hq. by injection Hq as <-.
  - rewrite lookup_insert_ne in Hq by done. by apply (Hp j).
Qed.
End capture_proofs.
