(* ===== verification/HostRestore.v ===== *)
(** The stages of [capture]: what each leaves behind on going on, on an early return
    and on a failure.

    Looking up and restoring: [lookup] finds the longest stored prefix, and [restore]
    loads exactly its rows and its position state. *)
From Stdlib Require Import ZArith Lia Bool SpecFloat.
From stdpp Require Import base list gmap strings.
From S2P Require Import Prelude HostCache HostPool HostCapture.

Section stages.
Context {D B Row : Type} `{!KvDevice D B} `{!KvDeviceLaws D B Row}.
Context (lane : Z -> Z -> list Z -> Z) (row_of : list Z -> Row).
Context (allP allS : list Slot) (log : list taken).
(** What earlier failed captures have leaked. *)
Context (lk : list Z) (lx : list Slot).
(** The arguments of the capture, and the cache it starts from. *)
Context (kv : D) (state : B) (tokens : list Z) (swa_rows : Z) (c0 : HostCache).

Abbreviation chain := (page_chain lane tokens).
Abbreviation rows := (rows_for row_of tokens).
Abbreviation n := (Zlen tokens).
Abbreviation contents := (contents lane row_of log).

(** The device holds the rows of [tokens], and the state buffer a whole state. *)
Hypothesis kv_holds : take (length tokens) (kv_rows kv) = rows.
Hypothesis in_log : mkTaken tokens swa_rows (buffer_data state) (draft_state_bytes kv >? 0) ∈ log.
Hypothesis state_fits : state_bytes kv = ar_slot_bytes (hc_states c0) /\
  ar_slot_bytes (hc_states c0) <= buffer_bytes state.

Definition mid (held : list Z) (xp xs : list Slot) (c : HostCache) : Prop :=
  inv allP allS (held ++ lk) (xp ++ lx) xs c /\ contents c /\ later c0 c.
Definition dropped (c : HostCache) : Prop := mid [] [] [] c.
Definition failed (c : HostCache) : Prop :=
  exists lk' lx', inv allP allS lk' lx' [] c /\ contents c /\ later c0 c.
(** The only panic left: a page's [u32] count would overflow. *)
Definition overflow : Prop := 2 ^ 32 <= Zlen (ids_of (hc_snaps c0)) + Zlen lk + Zlen chain.

Lemma mid_failed held xp c : mid held xp [] c -> failed c.
Proof. intros (Hi & Hc & Hl). by exists (held ++ lk), (xp ++ lx). Qed.

Lemma kv_slice a b : 0 <= a -> a <= b -> b <= n ->
  slice (kv_rows kv) a b = slice rows a b /\ b <= Zlen (kv_rows kv).
Proof.
  intros Ha Hab Hb. assert (length tokens <= length (kv_rows kv))%nat as Hlen.
  { rewrite <-(rows_for_length row_of tokens), <-kv_holds, length_take. lia. }
  split; [|lia]. rewrite <-(take_drop (length tokens) (kv_rows kv)), kv_holds.
  apply slice_app_l; rewrite ?(rows_for_length row_of); lia.
Qed.

Lemma mid_shrunk held xp xs c c' :
  inv allP allS (held ++ lk) (xp ++ lx) xs c' -> shrunk c c' -> contents c -> later c0 c ->
  mid held xp xs c'.
Proof.
  intros Hi Hs Hc Hl. split; [done|]. split; [by apply (contents_shrunk _ _ _ c)|].
  transitivity c; [done|by apply shrunk_later].
Qed.

(** The two allocations and [abort] inside a capture. *)
Lemma alloc_page_mid held xp c :
  mid held xp [] c ->
  exists c' r, alloc_page c = Ok (c', r) /\ shrunk c c' /\
    mid held (option_list r ++ xp) [] c' /\ (r = None -> hc_snaps c' = []).
Proof.
  intros (Hi & Hc & Hl). destruct (alloc_page_inv _ _ _ _ _ _ Hi) as (c' & r & Ha & Hs & Hr).
  exists c', r. split; [done|]. split; [done|]. split; [|destruct r; [done|by destruct Hr as (_ & ? & _)]].
  eapply mid_shrunk; [|done..]. destruct r; [done|by destruct Hr as [? _]].
Qed.

Lemma alloc_state_mid held xp c :
  mid held xp [] c ->
  exists c' r, alloc_state c = Ok (c', r) /\ shrunk c c' /\ mid held xp (option_list r) c'.
Proof.
  intros (Hi & Hc & Hl). destruct (alloc_state_inv _ _ _ _ _ _ Hi) as (c' & r & Ha & Hs & Hr).
  exists c', r. split; [done|]. split; [done|].
  eapply mid_shrunk; [|done..]. destruct r; [done|by destruct Hr as [? _]].
Qed.

Lemma abort_mid held c : mid held [] [] c -> exists c', abort c held = Ok c' /\ dropped c'.
Proof.
  intros (Hi & Hc & Hl). destruct (drop_pages_inv _ _ _ _ _ _ _ Hi) as (c' & Ha & Hi' & Hs & _).
  exists c'. split; [done|]. by apply (mid_shrunk _ _ _ c).
Qed.

Lemma drop_tail_mid held t xs c :
  mid held (option_list t) xs c -> mid held [] xs (free_tail c t).
Proof.
  intros (Hi & Hc & Hl). destruct (free_tail_inv _ _ _ _ _ _ _ Hi) as [Hi' Hs].
  by apply (mid_shrunk _ _ _ c).
Qed.

(** Exporting rows into a slot just taken. *)
Lemma export_mid held xp slot c r0 m :
  mid held (slot :: xp) [] c -> 0 <= r0 -> 0 <= m <= KV_PAGE_ROWS -> r0 + m <= n ->
  exists page, Arena_get (hc_pages c) slot = Ok page /\
  match export_ga_page kv r0 m page with
  | Ok page' => exists pages, Arena_put (hc_pages c) slot page' = Ok pages /\
      mid held (slot :: xp) [] (set_pages c pages) /\
      same_bytes c (set_pages c pages) /\
      (forall t, t ∈ xp -> Arena_get pages t = Arena_get (hc_pages c) t) /\
      Arena_get pages slot = Ok page' /\ page_holds page' (slice rows r0 (r0 + m))
  | Err _ => True
  | Panic => False
  end.
Proof.
  intros (Hi & Hc & Hl) Hr0 Hm Hn.
  pose proof (taken_page_in _ _ _ _ _ _ _ Hi) as Hin.
  destruct (arena_get_ok _ _ _ (po_arena _ _ _ _ _ (iv_pool _ _ _ _ _ _ Hi)) Hin) as (page & Hg & Hlen).
  exists page. split; [done|]. destruct (export_ga_page kv r0 m page) as [page'|e|] eqn:He; [|done|].
  2:{ by apply law_export_total in He. }
  destruct (kv_slice r0 (r0 + m)) as [Hsl Hle]; [lia..|].
  destruct (law_export _ _ _ _ _ He Hr0 Hm Hle) as [Hplen Hholds].
  destruct (write_page_inv _ _ _ _ _ _ _ page' Hi) as (pages & Hput & Hi' & Hw & Hsb); [congruence|].
  destruct (contents_write lane row_of log _ _ _ _ _ _ _ _ _ Hi Hw Hc) as [Hc' Hsame].
  exists pages. split; [done|]. split.
  { split; [done|]. split; [done|]. transitivity c; [done|]. by eapply wrote_later. }
  split; [done|]. split; [|split; [by apply (wp_slot _ _ _ _ _ Hw)|by rewrite <-Hsl]].
  intros t Ht. apply (wp_other _ _ _ _ _ Hw).
  - apply (pool_slot_in _ _ _ _ _ _ (iv_pool _ _ _ _ _ _ Hi)). set_solver.
  - intros ->. pose proof (ao_nodup _ _ (po_arena _ _ _ _ _ (iv_pool _ _ _ _ _ _ Hi))) as Hnd.
    rewrite <-(po_slots _ _ _ _ _ (iv_pool _ _ _ _ _ _ Hi)) in Hnd.
    apply NoDup_app in Hnd as (_ & _ & Hnd). apply NoDup_app in Hnd as (_ & _ & Hnd).
    apply NoDup_app in Hnd as (_ & _ & Hnd). cbn in Hnd. apply NoDup_cons in Hnd as [Hnd _].
    set_solver.
Qed.

(** * The page loop *)

Lemma hold_page_spec i id written c :
  chain !! i = Some id -> mid (take i chain) [] [] c ->
  flow_spec (hold_page kv c (take i chain, written) (Z.of_nat i, id))
    (fun c' acc => fst acc = take (S i) chain /\ mid (take (S i) chain) [] [] c')
    dropped failed overflow.
Proof.
  intros Hid Hmid. pose proof (take_S_r _ _ _ Hid) as Hsucc.
  assert (0 <= Z.of_nat i * KV_PAGE_ROWS /\ 0 <= KV_PAGE_ROWS <= KV_PAGE_ROWS /\
    Z.of_nat i * KV_PAGE_ROWS + KV_PAGE_ROWS <= n) as (Hi0 & HK & Hfull).
  { apply lookup_lt_Some in Hid. pose proof (page_chain_length lane tokens).
    pose proof (Z.mul_div_le n KV_PAGE_ROWS eq_refl). unfold KV_PAGE_ROWS in *. lia. }
  unfold hold_page. destruct (hc_page_map c !! id) as [p|] eqn:Hp.
  - destruct Hmid as (Hi & Hc & Hl). destruct (Z.ltb_spec (pg_refs p + 1) (2 ^ 32)) as [Hlt|Hge]; cbn [flow_spec].
    + split; [done|]. rewrite Hsucc. split; [|split].
      * eapply inv_perm; [..|exact (share_page_inv _ _ _ _ _ _ _ _ Hi Hp)]; [|done..].
        rewrite <-app_assoc. cbn. by rewrite <-Permutation_middle.
      * apply contents_insert; [|done]. exact (ct_pages _ _ _ _ Hc _ _ Hp).
      * transitivity c; [done|]. apply later_page_map.
    + destruct (po_refs _ _ _ _ _ (iv_pool _ _ _ _ _ _ Hi) id p Hp) as [Href _].
      pose proof (occurs_le id (ids_of (hc_snaps c) ++ take i chain ++ lk)) as Hle.
      rewrite !length_app, length_take in Hle. pose proof (later_ids _ _ Hl).
      apply lookup_lt_Some in Hid. unfold overflow. lia.
  - destruct (alloc_page_mid _ _ _ Hmid) as (c1 & r & Hr & Hs & Hm1 & _). rewrite Hr.
    cbn [lift_panic fbind]. destruct r as [slot|].
    2:{ destruct (abort_mid _ _ Hm1) as (c2 & Hc2 & Hd). rewrite Hc2. exact Hd. }
    destruct (export_mid _ _ _ _ (Z.of_nat i * KV_PAGE_ROWS) KV_PAGE_ROWS Hm1 Hi0 HK Hfull)
      as (page & Hg & Hex).
    rewrite Hg. cbn [lift_panic fbind].
    destruct (export_ga_page _ _ _ _) as [page'|e|]; cbn [lift_try fbind]; [|by eapply mid_failed|done].
    destruct Hex as (pages & Hput & (Hi2 & Hc2 & Hl2) & _ & _ & Hget & Hholds). rewrite Hput.
    cbn [lift_panic fbind flow_spec]. split; [done|]. rewrite Hsucc.
    assert (hc_page_map c1 !! id = None) as Hnone.
    { destruct (hc_page_map c1 !! id) as [q|] eqn:Hq; [|done].
      destruct (sh_map _ _ Hs _ _ Hq) as (? & ? & _). congruence. }
    split; [|split].
    + eapply inv_perm; [..|exact (add_page_inv _ _ _ _ _ _ _ _ Hi2 Hnone)]; [|done..].
      rewrite <-app_assoc. cbn. by rewrite <-Permutation_middle.
    + apply contents_insert; [|done]. eexists _, i, page'. split_and!; [exact in_log|done|done|done].
    + etransitivity; [exact Hl2|]. apply later_page_map.
Qed.

Lemma hold_pages_spec c :
  mid [] [] [] c ->
  flow_spec (flow_fold (hold_page kv) c ([], 0) (zip (seqZ 0 (Zlen chain)) chain))
    (fun c' acc => fst acc = chain /\ mid chain [] [] c') dropped failed overflow.
Proof.
  intros Hm. eapply flow_weaken.
  - apply (flow_fold_spec _ (fun i c acc => fst acc = take i chain /\ mid (take i chain) [] [] c)).
    + done.
    + intros i [z id] c' [held written] Hz [Hh Hm']. cbn in Hh. subst held.
      apply lookup_zip_Some in Hz as [Hz Hid]. apply lookup_seqZ in Hz as [-> _].
      by apply hold_page_spec.
  - intros c' acc. rewrite length_zip_with, length_seqZ, take_ge by lia. done.
  - done.
  - done.
Qed.

(** * The tail and the state *)

Lemma rem_bounds : 0 <= n mod KV_PAGE_ROWS <= KV_PAGE_ROWS /\ n mod KV_PAGE_ROWS <= n.
Proof.
  pose proof (Z.mod_pos_bound n KV_PAGE_ROWS eq_refl).
  split; [lia|]. apply Z.mod_le; [lia|done].
Qed.

Lemma hold_tail_spec c :
  mid chain [] [] c ->
  flow_spec (hold_tail kv n chain c)
    (fun c' t => mid chain (option_list t) [] c' /\ tail_good row_of c' tokens t)
    dropped failed overflow.
Proof.
  intros Hm. pose proof rem_bounds. unfold hold_tail, tail_good. cbv zeta.
  destruct (Z.gtb_spec (n mod KV_PAGE_ROWS) 0) as [Hgt|Hle]; [|done].
  destruct (alloc_page_mid _ _ _ Hm) as (c1 & r & Hr & Hs & Hm1 & _). rewrite Hr.
  cbn [lift_panic fbind]. destruct r as [slot|].
  2:{ destruct (abort_mid _ _ Hm1) as (c2 & Hc2 & Hd). rewrite Hc2. exact Hd. }
  destruct (export_mid _ _ _ _ (n - n mod KV_PAGE_ROWS) (n mod KV_PAGE_ROWS) Hm1)
    as (page & Hg & Hex); [lia..|].
  rewrite Hg. cbn [lift_panic fbind].
  destruct (export_ga_page _ _ _ _) as [page'|e|]; cbn [lift_try fbind]; [|by eapply mid_failed|done].
  destruct Hex as (pages & Hput & Hm2 & _ & _ & Hget & Hholds). rewrite Hput.
  cbn [lift_panic fbind flow_spec]. split; [done|].
  exists slot, page'. split_and!; [done|done|]. by rewrite Z.sub_add in Hholds.
Qed.

Lemma hold_state_spec t c :
  mid chain (option_list t) [] c -> tail_good row_of c tokens t ->
  flow_spec (hold_state kv state chain t c)
    (fun c' slot => mid chain (option_list t) [slot] c' /\ tail_good row_of c' tokens t /\
       state_good log c' tokens swa_rows (draft_state_bytes kv >? 0) slot)
    dropped failed overflow.
Proof.
  intros Hm Ht. unfold hold_state.
  destruct (alloc_state_mid _ _ _ Hm) as (c1 & r & Hr & Hs & Hm1). rewrite Hr.
  assert (tail_good row_of c1 tokens t) as Ht1.
  { eapply tail_good_ext; [|exact Ht]. intros s _. destruct Hs as [[] _ _ _ _]. by apply Arena_get_ext. }
  cbn [lift_panic fbind]. destruct r as [slot|].
  2:{ destruct (abort_mid chain (free_tail c1 t)) as (c2 & Hc2 & Hd); [by apply drop_tail_mid|].
      cbv zeta. rewrite Hc2. exact Hd. }
  pose proof Hm1 as (Hi1 & Hc1 & Hl1).
  pose proof (taken_state_in _ _ _ _ _ _ _ Hi1) as Hin.
  destruct (arena_get_ok _ _ _ (iv_states _ _ _ _ _ _ Hi1) Hin) as (buf & Hg & Hlen).
  rewrite Hg. cbn [lift_panic fbind].
  destruct state_fits as [Hsb Hbuf]. destruct (la_bytes _ _ Hl1) as [_ Hbytes].
  replace (Z.min _ _) with (ar_slot_bytes (hc_states c1)) by lia.
  destruct (memcpy_d2h buf state _) as [buf'|] eqn:Hcp.
  2:{ destruct (push_state_inv _ _ _ _ _ _ _ Hi1) as [Hi2 Hs2]. cbv zeta in Hi2, Hs2 |- *.
      destruct (abort_mid chain (free_tail (set_states c1 (push_free (hc_states c1) slot)) t)) as (c3 & Hc3 & Hd).
      - apply drop_tail_mid. by apply (mid_shrunk _ _ _ c1).
      - rewrite Hc3. by eapply mid_failed. }
  pose proof (ao_bytes _ _ (iv_states _ _ _ _ _ _ Hi1)) as Hpos.
  apply law_memcpy in Hcp; [|lia..]. rewrite (drop_ge buf), app_nil_r in Hcp by lia.
  pose proof (law_buffer state) as Hdata.
  destruct (write_state_inv _ _ _ _ _ _ _ buf' Hi1) as (states & Hput & Hi2 & Hget & Hsb2 & Hother).
  { rewrite Hcp, length_take. lia. }
  rewrite Hput. cbn [lift_panic fbind flow_spec].
  assert (same_bytes c1 (set_states c1 states)) as Hsame by (split; auto).
  split; [|split].
  - split; [done|]. split.
    + apply (contents_frame _ _ _ c1); [|done|done|done]. cbn. eauto.
    + etransitivity; [exact Hl1|]. by split.
  - eapply tail_good_ext; [|exact Ht1]. done.
  - eexists. split; [exact in_log|]. cbn [tk_tokens tk_rows tk_draft tk_data hc_states set_states].
    split_and!; [done|done|done|lia|]. by rewrite Hget, Hcp, Hsb2.
Qed.

(** * The whole capture of new tokens *)

Record stored (after : After) (kind : Kind) (c : HostCache) : Prop := {
  so_snap : exists l s, hc_snaps c = l ++ [s] /\ sn_tokens s = tokens /\ sn_after s = after /\
    sn_kind s = kind /\ sn_last_use s = hc_clock c0 /\ l ⊆+ hc_snaps c0;
  so_inv : inv allP allS lk lx [] c;
  so_contents : contents c;
  so_layout : ar_slot_bytes (hc_pages c) = ar_slot_bytes (hc_pages c0) /\
    ar_slot_bytes (hc_states c) = ar_slot_bytes (hc_states c0) /\ hc_swa_bytes c = hc_swa_bytes c0;
}.

(** The snapshot takes over what the capture held. *)
Lemma push_snap_inv s held xp xs c :
  inv allP allS (sn_pages s ++ held) (option_list (sn_tail s) ++ xp) (sn_state s :: xs) c ->
  inv allP allS held xp xs (set_snaps c (hc_snaps c ++ [s])).
Proof.
  intros [Hpool Hst Hsl]. split; cbn; [|done|].
  - eapply pool_perm; [..|exact Hpool].
    + unfold ids_of. rewrite fmap_app, concat_app. cbn. by rewrite app_nil_r, <-app_assoc.
    + unfold tails_of. rewrite omap_app. cbn. destruct (sn_tail s); cbn; by rewrite <-app_assoc.
  - rewrite <-Hsl, fmap_app. cbn. by rewrite <-app_assoc.
Qed.

Lemma capture_new_spec after kind :
  MIN_TOKENS <= n -> dropped c0 ->
  flow_spec (capture_new lane c0 kv tokens after kind state swa_rows)
    (fun c _ => stored after kind c) dropped failed overflow.
Proof.
  intros Hlong Hd. unfold capture_new. cbv zeta.
  eapply flow_bind; [by apply hold_pages_spec|]. intros c1 [held written] [Hh Hm1]. cbn in Hh. subst held.
  eapply flow_bind; [by apply hold_tail_spec|]. intros c2 t [Hm2 Ht2].
  pose proof (law_sync kv) as Hsync. destruct (sync_export kv) as [u|e|]; [|by eapply mid_failed|done].
  cbn [lift_try fbind].
  eapply flow_bind; [by apply hold_state_spec|]. intros c3 slot ((Hi & Hc & Hl) & Ht & Hst).
  cbn [flow_spec]. destruct (la_rest _ _ Hl) as [Hck Hsw]. destruct (la_bytes _ _ Hl) as [Hb1 Hb2].
  rewrite Hck.
  set (s := mkSnapshot _ _ _ _ _ _ _ _ _).
  assert (inv allP allS lk lx [] (set_snaps c3 (hc_snaps c3 ++ [s]))) as Hi' by exact (push_snap_inv s _ _ _ _ Hi).
  split.
  - exists (hc_snaps c3), s. split_and!; try done. exact (la_snaps _ _ Hl).
  - destruct Hi'. by split.
  - destruct Hc as [Hcp Hcs]. split; [exact Hcp|]. cbn [hc_snaps set_snaps set_stats].
    intros x [Hx|Hx%list_elem_of_singleton]%elem_of_app.
    + destruct (Hcs x Hx). by split.
    + subst x. by split.
  - done.
Qed.
End stages.

Section restore_proofs.
Context {D B Row : Type} `{!KvDevice D B} `{!KvDeviceLaws D B Row}.
Context (lane : Z -> Z -> list Z -> Z) (row_of : list Z -> Row).

Abbreviation page_chain := (page_chain lane).
Abbreviation rows_for := (rows_for row_of).
Abbreviation contents := (contents lane row_of).

(** Equal chain ids stand for equal prefixes, over the token lists the cache has seen:
    what 128 bits of SipHash are relied on for. *)
Definition collision_free (seen : list Z -> Prop) : Prop :=
  forall t t' i j id, seen t -> seen t' ->
    page_chain t !! i = Some id -> page_chain t' !! j = Some id ->
    i = j /\ take (Z.to_nat ((Z.of_nat i + 1) * KV_PAGE_ROWS)) t
             = take (Z.to_nat ((Z.of_nat i + 1) * KV_PAGE_ROWS)) t'.

Lemma token_blocks_length t : Zlen (token_blocks t) = Zlen t / KV_PAGE_ROWS.
Proof. rewrite <-(chain_from_length lane 0). apply (page_chain_length lane). Qed.

(** Under it, comparing chains compares the full pages. *)
Lemma chain_eq_prefix seen t prompt :
  collision_free seen -> seen t -> seen prompt -> Zlen t <= Zlen prompt ->
  page_chain t = take (Z.to_nat (Zlen t / KV_PAGE_ROWS)) (page_chain prompt) <->
  take (Z.to_nat (Zlen t / KV_PAGE_ROWS * KV_PAGE_ROWS)) t
  = take (Z.to_nat (Zlen t / KV_PAGE_ROWS * KV_PAGE_ROWS)) prompt.
Proof.
  intros Hcf Ht Hp Hle. pose proof (page_chain_length lane t) as Hlen.
  pose proof (Z.mul_div_le (Zlen t) KV_PAGE_ROWS eq_refl) as Hdiv.
  assert (0 <= Zlen t / KV_PAGE_ROWS) as H0 by (apply Z.div_pos; [lia|done]).
  assert (Zlen t / KV_PAGE_ROWS * KV_PAGE_ROWS / KV_PAGE_ROWS = Zlen t / KV_PAGE_ROWS) as Hq
    by by apply Z.div_mul.
  split.
  - intros He. destruct (decide (Zlen t / KV_PAGE_ROWS = 0)) as [->|Hne]; [done|].
    set (i := Z.to_nat (Zlen t / KV_PAGE_ROWS - 1)).
    destruct (lookup_lt_is_Some_2 (page_chain t) i) as [id Hid]; [lia|].
    assert (page_chain prompt !! i = Some id) as Hid'.
    { rewrite He in Hid. apply lookup_take_Some in Hid. tauto. }
    destruct (Hcf t prompt i i id Ht Hp Hid Hid') as [_ Hpre].
    replace ((Z.of_nat i + 1) * KV_PAGE_ROWS) with (Zlen t / KV_PAGE_ROWS * KV_PAGE_ROWS) in Hpre
      by (f_equal; lia). done.
  - intros He. apply (f_equal page_chain) in He. unfold KV_PAGE_ROWS in *.
    rewrite !(page_chain_take lane) in He by (unfold KV_PAGE_ROWS; lia).
    unfold KV_PAGE_ROWS in He. rewrite Hq, take_ge in He by lia. done.
Qed.

(** * Lookup *)

(** What the loop has found among the first [i] snapshots. *)
Definition best_of (prompt : list Z) (snaps : list Snapshot) (best : option (nat * Z)) : Prop :=
  match best with
  | Some (i, n) => exists s, snaps !! i = Some s /\ n = Zlen (sn_tokens s) /\ sn_tokens s `prefix_of` prompt /\
      forall s', s' ∈ snaps -> sn_tokens s' `prefix_of` prompt -> Zlen (sn_tokens s') <= n
  | None => forall s', s' ∈ snaps -> ~ sn_tokens s' `prefix_of` prompt
  end.

Lemma prefix_take_iff {A} (l k : list A) : l `prefix_of` k <-> (length l <= length k)%nat /\ take (length l) k = l.
Proof.
  split.
  - intros [r ->]. rewrite length_app. split; [lia|]. by rewrite take_app_length.
  - intros [_ He]. rewrite <-He. apply prefix_take.
Qed.

Lemma index_range_prefix {E A} (l : list A) a :
  0 <= a <= Zlen l -> index_range (E:=E) l a (Zlen l) = Ok (drop (Z.to_nat a) l).
Proof. intros. rewrite index_range_Ok by lia. by rewrite slice_to_end by lia. Qed.

(** Past a common part, comparing what is left compares the whole. *)
Lemma drop_prefix_iff {A} (l k : list A) f :
  (f <= length l <= length k)%nat -> take f l = take f k ->
  drop f l = take (length l - f) (drop f k) <-> take (length l) k = l.
Proof.
  intros Hf He.
  assert (take (length l) k = take f l ++ take (length l - f) (drop f k)) as ->.
  { rewrite He, take_take_drop. f_equal. lia. }
  split; [intros <-; apply take_drop|]. rewrite <-(take_drop f l) at 3. by intros ->%app_inv_head.
Qed.

(** The test of one pass is the prefix test. *)
Lemma lookup_step_prefix seen prompt i s best :
  collision_free seen -> seen (sn_tokens s) -> seen prompt -> sn_pages s = page_chain (sn_tokens s) ->
  lookup_step prompt (page_chain prompt) best (i, s) =
  Ok (if bool_decide (sn_tokens s `prefix_of` prompt) &&
        negb match best with Some (_, b) => b >=? Zlen (sn_tokens s) | None => false end
      then Some (i, Zlen (sn_tokens s)) else best).
Proof.
  intros Hcf Hs Hp Hpages. unfold lookup_step. cbv zeta.
  set (t := sn_tokens s) in *.
  destruct (match best with Some (_, b) => b >=? Zlen t | None => false end) eqn:Hbest;
    [by rewrite orb_true_r, andb_false_r|]. rewrite orb_false_r, andb_true_r.
  destruct (Z.gtb_spec (Zlen t) (Zlen prompt)) as [Hgt|Hle].
  { rewrite bool_decide_eq_false_2; [done|]. intros Hpre%prefix_length. lia. }
  pose proof (Z.mul_div_le (Zlen t) KV_PAGE_ROWS eq_refl) as Hdiv. rewrite Z.mul_comm in Hdiv.
  assert (0 <= Zlen t / KV_PAGE_ROWS) as H0 by (apply Z.div_pos; [lia|done]).
  assert (Zlen t / KV_PAGE_ROWS <= Zlen prompt / KV_PAGE_ROWS) as Hq by (apply Z.div_le_mono; [done|lia]).
  assert (0 <= Zlen t / KV_PAGE_ROWS * KV_PAGE_ROWS) as Hfull0 by (unfold KV_PAGE_ROWS in *; lia).
  pose proof (chain_eq_prefix seen t prompt Hcf Hs Hp Hle) as Hchain.
  pose proof (page_chain_length lane prompt) as Hlen.
  set (q := Zlen t / KV_PAGE_ROWS) in *. set (full := q * KV_PAGE_ROWS) in *.
  rewrite (index_range_Ok (page_chain prompt)) by lia. cbn [mbind outcome_bind]. rewrite (slice_from_start (page_chain prompt)), Hpages.
  case_bool_decide as He; cbn [negb].
  2:{ rewrite bool_decide_eq_false_2; [done|]. intros Hpre. apply He, Hchain.
      apply prefix_take_iff in Hpre as [_ Hpre]. rewrite <-Hpre, take_take. f_equal. lia. }
  rewrite (index_range_prefix t), (index_range_Ok prompt) by lia.
  cbn [mbind outcome_bind].
  assert (bool_decide (drop (Z.to_nat full) t = slice prompt full (Zlen t))
    = bool_decide (t `prefix_of` prompt)) as ->; [|by destruct (bool_decide (t `prefix_of` prompt))].
  apply bool_decide_ext. apply Hchain in He. rewrite prefix_take_iff. unfold slice.
  replace (Z.to_nat (Zlen t - full)) with (length t - Z.to_nat full)%nat by lia.
  rewrite (drop_prefix_iff t prompt (Z.to_nat full)) by (done || lia).
  split; [intros ->; split; [lia|done]|by intros [_ ->]].
Qed.

Lemma lookup_best seen prompt snaps :
  collision_free seen -> seen prompt ->
  (forall s, s ∈ snaps -> seen (sn_tokens s) /\ sn_pages s = page_chain (sn_tokens s)) ->
  exists best, fold_try (lookup_step prompt (page_chain prompt)) None (imap pair snaps) = Ok best /\
    best_of prompt snaps best.
Proof.
  intros Hcf Hp. induction snaps as [|s snaps IH] using rev_ind; intros Hs.
  { exists None. split; [done|]. intros s' []%not_elem_of_nil. }
  destruct IH as (best & Hf & Hb); [intros; apply Hs; set_solver|].
  destruct (Hs s) as [Hseen Hpages]; [set_solver|].
  rewrite imap_app, fold_try_app, Hf. cbn [imap mbind outcome_bind fold_try]. rewrite Nat.add_0_r.
  rewrite (lookup_step_prefix seen) by done. cbn [mbind outcome_bind].
  eexists. split; [reflexivity|].
  case_bool_decide as Hpre; cbn [andb].
  - destruct best as [[i b]|]; cbn [negb].
    + destruct Hb as (s0 & Hi & -> & Hp0 & Hmax).
      destruct (Z.geb_spec (Zlen (sn_tokens s0)) (Zlen (sn_tokens s))) as [Hge|Hlt]; cbn [negb best_of].
      * exists s0. split_and!; [by apply lookup_app_l_Some|done|done|].
        intros s' [Hin|Hin%list_elem_of_singleton]%elem_of_app Hps; [by apply Hmax|subst; lia].
      * exists s. split_and!; [|done|done|].
        -- rewrite lookup_app_r by lia. by replace (_ - _)%nat with O by lia.
        -- intros s' [Hin|Hin%list_elem_of_singleton]%elem_of_app Hps; [|subst; lia].
           specialize (Hmax s' Hin Hps). lia.
    + exists s. split_and!; [|done|done|].
      * rewrite lookup_app_r by lia. by replace (_ - _)%nat with O by lia.
      * intros s' [Hin|Hin%list_elem_of_singleton]%elem_of_app Hps; [by apply Hb in Hps|subst; lia].
  - destruct best as [[i b]|].
    + destruct Hb as (s0 & Hi & -> & Hp0 & Hmax). exists s0.
      split_and!; [by apply lookup_app_l_Some|done|done|].
      intros s' [Hin|Hin%list_elem_of_singleton]%elem_of_app Hps; [by apply Hmax|by subst].
    + intros s' [Hin|Hin%list_elem_of_singleton]%elem_of_app; [by apply Hb|by subst].
Qed.

(** * Restore *)

Section load.
Context (log : list taken) (c : HostCache) (s : Snapshot).
Hypothesis no_collision : collision_free (fun t => exists e, e ∈ log /\ tk_tokens e = t).
Hypothesis pages_good : forall id p, hc_page_map c !! id = Some p -> page_good lane row_of log c id (pg_slot p).
Hypothesis pages_held : forall id, id ∈ sn_pages s -> is_Some (hc_page_map c !! id).
Hypothesis snap_ok : snap_good lane row_of log c s.
Hypothesis swa_fits : 0 <= hc_swa_bytes c <= ar_slot_bytes (hc_states c).

Abbreviation tokens := (sn_tokens s).
Abbreviation n := (Zlen (sn_tokens s)).
Abbreviation rows := (rows_for tokens).

Lemma seen_snapshot : exists e, e ∈ log /\ tk_tokens e = tokens.
Proof. destruct (sg_state _ _ _ _ _ snap_ok) as (e & He & Ht & _). eauto. Qed.

(** A page of the snapshot holds the snapshot's rows, whoever wrote it. *)
Lemma snapshot_page i id p :
  sn_pages s !! i = Some id -> hc_page_map c !! id = Some p ->
  exists bytes, Arena_get (hc_pages c) (pg_slot p) = Ok bytes /\
    page_holds bytes (slice rows (Z.of_nat i * KV_PAGE_ROWS) (Z.of_nat i * KV_PAGE_ROWS + KV_PAGE_ROWS)).
Proof.
  intros Hi Hp. rewrite (sg_pages _ _ _ _ _ snap_ok) in Hi.
  destruct (pages_good id p Hp) as (e & j & bytes & He & Hj & Hg & Hh).
  destruct (no_collision tokens (tk_tokens e) i j id seen_snapshot) as [<- Hpre]; [by exists e|done..|].
  exists bytes. split; [done|]. rewrite (rows_for_slice row_of _ (tk_tokens e)); [done|unfold KV_PAGE_ROWS; lia|].
  by replace (Z.of_nat i * KV_PAGE_ROWS + KV_PAGE_ROWS) with ((Z.of_nat i + 1) * KV_PAGE_ROWS) by lia.
Qed.

Lemma load_pages_spec kv :
  kv_rows kv = [] ->
  flow_spec (load_pages c kv s)
    (fun kv' _ => kv_rows kv' = take (Z.to_nat (n / KV_PAGE_ROWS * KV_PAGE_ROWS)) rows)
    (fun _ => False) (fun _ => True) False.
Proof.
  intros H0. unfold load_pages.
  eapply (flow_weaken _ _ _ (fun _ => False) _ (fun _ => True)).
  - apply (flow_fold_spec _ (fun i kv _ => kv_rows kv = take (Z.to_nat (Z.of_nat i * KV_PAGE_ROWS)) rows)).
    { by rewrite H0. }
    intros i id kv' [] Hid Hkv.
    destruct (pages_held id) as [p Hp]; [by apply list_elem_of_lookup_2 in Hid|]. rewrite Hp.
    destruct (snapshot_page i id p Hid Hp) as (bytes & Hg & Hh). rewrite Hg. cbn [lift_panic fbind].
    pose proof (law_load_total kv' KV_PAGE_ROWS bytes) as (_ & Htot & _).
    destruct (import_ga_page kv' KV_PAGE_ROWS bytes) as [kv2|e|] eqn:Him; cbn [lift_try fbind flow_spec];
      [|done|by destruct Htot].
    assert (Z.of_nat i * KV_PAGE_ROWS + KV_PAGE_ROWS <= n) as Hle.
    { apply lookup_lt_Some in Hid. rewrite (sg_pages _ _ _ _ _ snap_ok) in Hid.
      pose proof (page_chain_length lane tokens). pose proof (Z.mul_div_le n KV_PAGE_ROWS eq_refl).
      unfold KV_PAGE_ROWS in *. lia. }
    assert (0 <= Z.of_nat i * KV_PAGE_ROWS) as Hi0 by (unfold KV_PAGE_ROWS; lia).
    assert (0 <= KV_PAGE_ROWS) as HK by done.
    rewrite (law_import _ _ _ _ _ Him Hh), Hkv by (rewrite slice_length; rewrite ?(rows_for_length row_of); lia).
    rewrite <-!slice_from_start, <-slice_split by lia. f_equal. lia.
  - intros kv' u Hkv. cbv beta in Hkv. rewrite Hkv. do 2 f_equal.
    rewrite (sg_pages _ _ _ _ _ snap_ok). f_equal. apply (page_chain_length lane).
  - done.
  - done.
Qed.

Lemma load_snapshot_spec kv :
  flow_spec (load_snapshot c kv s)
    (fun kv' _ => kv_rows kv' = rows /\ kv_tokens kv' = n /\
       exists e, e ∈ log /\ tk_tokens e = tokens /\
         kv_swa kv' = (tk_rows e, take (Z.to_nat (hc_swa_bytes c)) (tk_data e)))
    (fun _ => False) (fun _ => True) False.
Proof.
  unfold load_snapshot. cbv zeta.
  pose proof law_load_total as Htot.
  destruct (reserve_ga (kv_reset kv) n) as [kv1|e|] eqn:Hres; cbn [lift_try fbind flow_spec];
    [|done|by apply (Htot _ n []) in Hres].
  eapply flow_bind.
  { apply load_pages_spec. by rewrite (law_reserve _ _ _ Hres), law_reset. }
  intros kv2 u Hkv2. cbv beta in Hkv2. eapply (flow_bind _ _ (fun kv3 _ => kv_rows kv3 = rows)).
  { pose proof (sg_tail _ _ _ _ _ snap_ok) as Ht. unfold tail_good in Ht. cbv zeta in Ht.
    pose proof (Z.div_mod n KV_PAGE_ROWS) as Hdm.
    pose proof (Z.mod_pos_bound n KV_PAGE_ROWS eq_refl) as Hmod.
    assert (n / KV_PAGE_ROWS * KV_PAGE_ROWS = n - n mod KV_PAGE_ROWS) as Hfull
      by (rewrite Z.mul_comm; specialize (Hdm ltac:(done)); lia).
    rewrite Hfull in Hkv2. clear Hdm Hfull.
    destruct (Z.gtb_spec (n mod KV_PAGE_ROWS) 0) as [Hgt|Hle].
    - destruct Ht as (slot & bytes & -> & Hg & Hh). rewrite Hg. cbn [lift_panic fbind].
      destruct (import_ga_page kv2 _ bytes) as [kv3|e|] eqn:Him; cbn [lift_try fbind flow_spec];
        [|done|by apply (Htot _ (n mod KV_PAGE_ROWS) bytes) in Him].
      assert (n mod KV_PAGE_ROWS <= n) by (apply Z.mod_le; [lia|done]).
      rewrite (law_import _ _ _ _ _ Him Hh), Hkv2
        by (rewrite slice_length; rewrite ?(rows_for_length row_of); lia).
      rewrite <-slice_from_start, <-slice_split by lia.
      rewrite slice_from_start, take_ge; [done|]. rewrite (rows_for_length row_of). lia.
    - rewrite Ht. cbn [flow_spec]. rewrite Hkv2, take_ge; [done|]. rewrite (rows_for_length row_of). lia. }
  intros kv3 u3 Hkv3. cbv beta in Hkv3. destruct (finish_ga_import kv3) as [kv4|e|] eqn:Hfin; cbn [lift_try fbind flow_spec];
    [|done|by apply (Htot _ 0 []) in Hfin].
  apply law_finish in Hfin. destruct (sg_state _ _ _ _ _ snap_ok) as (e & He & Htok & Hrows & Hd & Hlen & Hg).
  rewrite Hg. cbn [lift_panic fbind].
  rewrite index_range_Ok by (rewrite ?length_take; lia). cbn [lift_panic fbind].
  rewrite slice_from_start, take_take. replace (_ `min` _)%nat with (Z.to_nat (hc_swa_bytes c)) by lia.
  destruct (import_swa kv4 _ _) as [kv5|e0|] eqn:Hswa; cbn [lift_try fbind flow_spec];
    [|done|by apply (Htot _ (sn_swa_rows s) (take (Z.to_nat (hc_swa_bytes c)) (tk_data e))) in Hswa].
  apply law_swa in Hswa as [Hr5 Hs5].
  eapply (flow_bind _ _ (fun kv6 _ => kv_rows kv6 = rows /\
    kv_swa kv6 = (tk_rows e, take (Z.to_nat (hc_swa_bytes c)) (tk_data e)))).
  { assert (kv_rows kv5 = rows) as Hr by congruence. rewrite <-Hrows in Hs5.
    destruct (sn_has_draft s); [|done].
    rewrite index_range_Ok by (rewrite ?length_take; lia). cbn [lift_panic fbind].
    destruct (import_draft kv5 _) as [kv6|e0|] eqn:Hdr; cbn [lift_try fbind flow_spec]; [|done|].
    - apply law_draft in Hdr as [-> ->]. done.
    - by apply (Htot _ 0) in Hdr. }
  intros kv6 u6 [Hr6 Hs6]. cbn [flow_spec].
  destruct (law_set_tokens kv6 n) as (Hr7 & Hs7 & Ht7). rewrite Hr7, Hs7. split; [done|]. split; [|by exists e].
  apply Ht7. rewrite Hr6, (rows_for_length row_of). lia.
Qed.
End load.
End restore_proofs.
