(* ===== verification/HostReach.v ===== *)
(** The order of eviction: an allocation frees snapshots oldest first, a prompt's
    before a turn's of the same age, and only while no slot is free.

    The states of a host cache in use: everything a sequence of captures, failed
    captures and restores can lead to, and what holds in all of them. *)
From Stdlib Require Import ZArith Lia Bool SpecFloat.
From stdpp Require Import base list gmap strings.
From S2P Require Import Prelude HostCache HostPool HostCapture HostRestore.

Definition age (s : Snapshot) : Kind * Z := (sn_kind s, sn_last_use s).

(** [a] goes no later than [b]. *)
Definition older (a b : Snapshot) : Prop := key_lt (age b) (age a) = false.

(** The pair's order as one number. *)
Definition key_code (k : Kind * Z) : Z := 2 * snd k + match fst k with KindPrompt => 0 | KindTurn => 1 end.

Lemma key_lt_code a b : key_lt a b = (key_code a <? key_code b).
Proof.
  unfold key_lt, key_code. destruct a as [[] x], b as [[] y]; cbn [fst snd];
    repeat case_bool_decide; try done; rewrite ?andb_true_r, ?andb_false_r, ?orb_false_r;
    repeat (destruct (Z.ltb_spec _ _) || destruct (Z.eqb_spec _ _)); cbn; lia || done.
Qed.

Lemma key_ge a b : key_lt a b = false <-> key_code b <= key_code a.
Proof. rewrite key_lt_code. apply Z.ltb_ge. Qed.

Lemma older_code a b : older a b <-> key_code (age a) <= key_code (age b).
Proof. apply key_ge. Qed.

#[export] Instance older_preorder : PreOrder older.
Proof.
  split; [intros a|intros a b c]; rewrite !older_code; [lia|apply Z.le_trans].
Qed.

(** [min_by_key]: the chosen key is least. *)
Lemma victim_from_least i best l :
  exists k, (victim_from i best l, k) ∈ best :: imap (fun j x => ((i + j)%nat, x)) l /\
    key_lt (snd best) k = false /\ forall x, x ∈ l -> key_lt x k = false.
Proof.
  revert i best. induction l as [|x l IH]; intros i best; cbn [victim_from].
  { exists (snd best). split; [destruct best; apply list_elem_of_here|]. split; [by apply key_ge|].
    intros x []%not_elem_of_nil. }
  set (best' := if key_lt x (snd best) then (i, x) else best).
  destruct (IH (S i) best') as (k & Hin & Hb & Hl). exists k.
  assert (key_lt (snd best) k = false /\ key_lt x k = false) as [Hbest Hx].
  { subst best'. rewrite !key_ge in *. destruct (key_lt x (snd best)) eqn:Hlt; cbn [snd] in Hb.
    - rewrite key_lt_code in Hlt. apply Z.ltb_lt in Hlt. lia.
    - apply key_ge in Hlt. lia. }
  split; [|split; [done|]].
  - cbn [imap]. apply elem_of_cons in Hin as [Hin|Hin].
    + subst best'. destruct (key_lt x (snd best)); [|rewrite Hin; apply list_elem_of_here].
      rewrite Hin. rewrite Nat.add_0_r. apply list_elem_of_further, list_elem_of_here.
    + do 2 apply list_elem_of_further. apply elem_of_lookup_imap in Hin as (j & y & He & Hj).
      apply elem_of_lookup_imap. exists j, y. split; [|done]. rewrite He. unfold compose. f_equal. lia.
  - intros y [->|Hy]%elem_of_cons; [done|by apply Hl].
Qed.

Lemma victim_least l i :
  victim l = Some i -> exists k, l !! i = Some k /\ forall x, x ∈ l -> key_lt x k = false.
Proof.
  destruct l as [|k0 l]; [done|]. intros [= <-].
  destruct (victim_from_least 1 (0%nat, k0) l) as (k & Hin & Hb & Hl). exists k. split.
  - apply elem_of_cons in Hin as [[= -> <-]|Hin]; [done|].
    apply elem_of_lookup_imap in Hin as (j & y & [= -> ->] & Hj). done.
  - intros x [->|Hx]%elem_of_cons; [done|by apply Hl].
Qed.

(** Releasing a snapshot's slots touches no other snapshot. *)
Lemma drop_page_snaps c id c' : drop_page c id = Ok c' -> hc_snaps c' = hc_snaps c.
Proof.
  unfold drop_page. destruct (hc_page_map c !! id); [|by intros [= <-]].
  destruct (_ =? 0); [done|]. cbv zeta. destruct (_ =? 0); by intros [= <-].
Qed.

Lemma drop_pages_snaps l c c' : fold_try drop_page c l = Ok c' -> hc_snaps c' = hc_snaps c.
Proof.
  revert c. induction l as [|id l IH]; intros c; cbn [fold_try]; [by intros [= <-]|].
  intros (c1 & H1 & H2)%bind_Ok. rewrite (IH _ H2). by apply drop_page_snaps in H1.
Qed.

Lemma release_snaps c s c' : HostCache_release c s = Ok c' -> hc_snaps c' = hc_snaps c.
Proof. unfold HostCache_release. intros ->%drop_pages_snaps. by destruct (sn_tail s). Qed.

Lemma evict_one_order c c' :
  evict_one c = Ok (c', true) ->
  exists s, hc_snaps c ≡ₚ s :: hc_snaps c' /\ forall x, x ∈ hc_snaps c -> older s x.
Proof.
  unfold evict_one. destruct (victim _) as [i|] eqn:Hv; [|done].
  destruct (swap_remove (hc_snaps c) i) as [[s l]|] eqn:Hr; [|done].
  intros (c1 & Hc1 & [= <-])%bind_Ok. apply release_snaps in Hc1. cbn in Hc1.
  apply swap_remove_perm in Hr as [Hp Hi]. exists s. cbn. rewrite Hc1. split; [done|].
  apply victim_least in Hv as (k & Hk & Hl). rewrite list_lookup_fmap, Hi in Hk. injection Hk as <-.
  intros x Hx. apply (Hl (age x)). by apply (list_elem_of_fmap_2 (fun s => (sn_kind s, sn_last_use s))).
Qed.

Lemma evict_one_same c c' : evict_one c = Ok (c', false) -> c' = c /\ hc_snaps c = [].
Proof.
  unfold evict_one. destruct (victim _) as [i|] eqn:Hv.
  - destruct (swap_remove _ _) as [[s l]|]; [|done]. by intros (c1 & _ & [=])%bind_Ok.
  - intros [= <-]. split; [done|]. by apply victim_None, fmap_nil_inv in Hv.
Qed.

(** What an allocation has thrown out. *)
Lemma alloc_page_evicts fuel c c' r :
  alloc_page_loop fuel c = Ok (c', r) ->
  exists gone, hc_snaps c ≡ₚ gone ++ hc_snaps c' /\
    (forall g s, g ∈ gone -> s ∈ hc_snaps c' -> older g s) /\
    (gone <> [] -> ar_free (hc_pages c) = []).
Proof.
  revert c. induction fuel as [|fuel IH]; intros c; cbn [alloc_page_loop].
  { intros [= <- <-]. exists []. split_and!; [done|intros g s []%not_elem_of_nil|done]. }
  destruct (pop_free (hc_pages c)) as [[s a]|] eqn:Hpop.
  { intros [= <- <-]. exists []. split_and!; [done|intros g x []%not_elem_of_nil|done]. }
  intros ([c1 b] & He & Hl)%bind_Ok. destruct b.
  - destruct (evict_one_order _ _ He) as (v & Hp & Hv).
    destruct (IH _ Hl) as (gone & Hg & Ho & _). exists (v :: gone). split_and!.
    + by rewrite Hp, Hg.
    + intros g s [->|Hin]%elem_of_cons Hs; [|by apply Ho].
      apply Hv. rewrite Hp, Hg. set_solver.
    + intros _. by apply pop_free_None.
  - apply evict_one_same in He as [-> _]. injection Hl as <- <-.
    exists []. split_and!; [done|intros g x []%not_elem_of_nil|done].
Qed.

Section reach.
Context {D B Row : Type} `{!KvDevice D B} `{!KvDeviceLaws D B Row}.
Context (lane : Z -> Z -> list Z -> Z) (row_of : list Z -> Row).

Abbreviation capture := (capture lane).
Abbreviation contents := (contents lane row_of).
Abbreviation rows_for := (rows_for row_of).

(** What the caller of [capture] provides: a device cache that holds the rows of
    [tokens], and a buffer with a whole position state. *)
Record contract (c : HostCache) (kv : D) (tokens : list Z) (state : B) : Prop := {
  co_rows : take (length tokens) (kv_rows kv) = rows_for tokens;
  co_state : state_bytes kv = ar_slot_bytes (hc_states c) /\
             ar_slot_bytes (hc_states c) <= buffer_bytes state;
}.

Definition entry (kv : D) (tokens : list Z) (state : B) (swa_rows : Z) : taken :=
  mkTaken tokens swa_rows (buffer_data state) (draft_state_bytes kv >? 0).

(** [clean]: no capture so far left by [?].  [log]: what the captures were given. *)
Inductive reach (c0 : HostCache) : bool -> list taken -> HostCache -> Prop :=
| reach_start : reach c0 true [] c0
| reach_capture clean log c kv tokens after kind state swa_rows c' :
    reach c0 clean log c -> contract c kv tokens state ->
    capture c kv tokens after kind state swa_rows = Next c' tt \/
    capture c kv tokens after kind state swa_rows = Return c' tt ->
    reach c0 clean (entry kv tokens state swa_rows :: log) c'
| reach_failed clean log c kv tokens after kind state swa_rows c' e :
    reach c0 clean log c -> contract c kv tokens state ->
    capture c kv tokens after kind state swa_rows = Throw c' e ->
    reach c0 false (entry kv tokens state swa_rows :: log) c'
| reach_restore clean log c i kv c' kv' r :
    reach c0 clean log c -> HostCache_restore c i kv = Next (c', kv') r -> reach c0 clean log c'
| reach_restore_failed clean log c i kv c' kv' e :
    reach c0 clean log c -> HostCache_restore c i kv = Throw (c', kv') e -> reach c0 clean log c'.

(** * Changing a snapshot without moving it *)

Record same_snap (s s' : Snapshot) : Prop := {
  ss_tokens : sn_tokens s' = sn_tokens s;
  ss_slots : sn_pages s' = sn_pages s /\ sn_tail s' = sn_tail s /\ sn_state s' = sn_state s;
  ss_state : sn_swa_rows s' = sn_swa_rows s /\ sn_has_draft s' = sn_has_draft s;
}.

Definition touched (i : nat) (s' : Snapshot) (clock : Z) (c : HostCache) : HostCache :=
  set_snaps (set_clock c clock) (<[i := s']> (hc_snaps c)).

Lemma insert_same {A C} (f : A -> C) (l : list A) i x y :
  l !! i = Some x -> f y = f x -> f <$> <[i := y]> l = f <$> l.
Proof. intros Hi Hf. rewrite list_fmap_insert, Hf, <-list_fmap_insert. by rewrite list_insert_id. Qed.

Lemma insert_same_omap {A C} (f : A -> option C) (l : list A) i x y :
  l !! i = Some x -> f y = f x -> omap f (<[i := y]> l) = omap f l.
Proof.
  intros Hi Hf. rewrite insert_take_drop by (by eapply lookup_lt_Some).
  rewrite <-(take_drop_middle l i x Hi) at 3. rewrite !omap_app. cbn. by rewrite Hf.
Qed.

Lemma touched_inv allP allS held xp xs c i s s' clock :
  hc_snaps c !! i = Some s -> same_snap s s' -> inv allP allS held xp xs c ->
  inv allP allS held xp xs (touched i s' clock c).
Proof.
  intros Hi [_ (Hp & Ht & Hst) _] [Hpool Hs Hsl]. split; cbn; [|done|].
  - unfold ids_of, tails_of in *. rewrite (insert_same sn_pages _ _ s) by done.
    by rewrite (insert_same_omap sn_tail _ _ s).
  - by rewrite (insert_same sn_state _ _ s).
Qed.

Lemma touched_contents log c i s s' clock :
  hc_snaps c !! i = Some s -> same_snap s s' -> contents log c -> contents log (touched i s' clock c).
Proof.
  intros Hi [Ht (Hp & Htl & Hst) (Hr & Hd)] [Hpg Hsn]. split; [done|].
  cbn. intros x Hx. apply list_elem_of_lookup in Hx as [j Hj].
  destruct (decide (i = j)) as [<-|Hne].
  - rewrite list_lookup_insert_eq in Hj by (by eapply lookup_lt_Some). injection Hj as <-.
    destruct (Hsn s) as [H1 H2 H3 H4]; [by eapply list_elem_of_lookup_2|].
    split; rewrite ?Ht, ?Hp, ?Htl, ?Hst, ?Hr, ?Hd; done.
  - rewrite list_lookup_insert_ne in Hj by done. apply list_elem_of_lookup_2 in Hj.
    destruct (Hsn x Hj). by split.
Qed.

(** * The invariant *)

Record layout_kept (c c' : HostCache) : Prop := {
  lk_pages : ar_slot_bytes (hc_pages c') = ar_slot_bytes (hc_pages c);
  lk_states : ar_slot_bytes (hc_states c') = ar_slot_bytes (hc_states c);
  lk_swa : hc_swa_bytes c' = hc_swa_bytes c;
}.

Record good (c0 : HostCache) (clean : bool) (log : list taken) (lk : list Z) (lx : list Slot)
    (c : HostCache) : Prop := {
  gd_inv : inv (ar_free (hc_pages c0)) (ar_free (hc_states c0)) lk lx [] c;
  gd_contents : contents log c;
  gd_layout : layout_kept c0 c;
  gd_once : NoDup (sn_tokens <$> hc_snaps c);
  gd_clean : clean = true -> lk = [] /\ lx = [];
}.

Definition capture_overflow (c : HostCache) (lk : list Z) (tokens : list Z) : Prop :=
  2 ^ 32 <= Zlen (ids_of (hc_snaps c)) + Zlen lk + Zlen (page_chain lane tokens).

(** No token list is stored that was not. *)
Definition fewer (c c' : HostCache) : Prop := (sn_tokens <$> hc_snaps c') ⊆+ (sn_tokens <$> hc_snaps c).

Lemma later_layout c c' : later c c' -> layout_kept c c'.
Proof. intros [[] _ []]. by split. Qed.

#[local] Instance layout_kept_trans : Transitive layout_kept.
Proof. intros c1 c2 c3 [] []. split; congruence. Qed.

Lemma once_submseteq (l k : list Snapshot) :
  l ⊆+ k -> NoDup (sn_tokens <$> k) -> NoDup (sn_tokens <$> l).
Proof.
  intros Hs Hk. apply (fmap_submseteq sn_tokens) in Hs.
  apply submseteq_Permutation in Hs as [r Hr]. rewrite Hr in Hk. by apply NoDup_app in Hk as [? _].
Qed.

Lemma capture_spec c0 clean log lk lx c kv tokens after kind state swa_rows :
  good c0 clean log lk lx c -> contract c kv tokens state ->
  let log' := entry kv tokens state swa_rows :: log in
  flow_spec (capture c kv tokens after kind state swa_rows)
    (fun c' _ => good c0 clean log' lk lx c' /\
       exists l s, hc_snaps c' = l ++ [s] /\ sn_tokens s = tokens /\ sn_after s = after /\
         sn_kind s = kind /\ l ⊆+ hc_snaps c)
    (fun c' => good c0 clean log' lk lx c' /\ fewer c c')
    (fun c' => (exists lk' lx', good c0 false log' lk' lx' c') /\ fewer c c')
    (capture_overflow c lk tokens).
Proof.
  intros [Hi Hc Hl Ho Hcl] [Hrows Hstate]. cbv zeta. unfold HostCache.capture. cbv zeta.
  set (log' := entry _ _ _ _ :: log).
  assert (contents log' c) as Hc' by (apply (contents_mono _ _ log); [set_solver|done]).
  destruct ((Zlen tokens <? MIN_TOKENS) || (kv_tokens kv <? Zlen tokens)) eqn:Hguard; [by split; [split|unfold fewer]|].
  apply orb_false_iff in Hguard as [Hlong%Z.ltb_ge _]. cbn [hc_snaps set_clock hc_clock].
  destruct (list_find _ (hc_snaps c)) as [[i s]|] eqn:Hfind.
  - apply list_find_Some in Hfind as (Hs & Htok & _). cbn [flow_spec].
    assert (same_snap s (refresh (hc_clock c + 1) after s)) as Hsame by by split.
    assert ((sn_tokens <$> <[i := refresh (hc_clock c + 1) after s]> (hc_snaps c)) = sn_tokens <$> hc_snaps c)
      as Htoks by by apply (insert_same sn_tokens _ _ s).
    split; [|unfold fewer; cbn [hc_snaps set_snaps]; by rewrite Htoks].
    split; [by apply (touched_inv _ _ _ _ _ _ i s)|by apply (touched_contents _ _ i s)|by destruct Hl; split| |done].
    cbn [hc_snaps set_snaps]. by rewrite Htoks.
  - apply list_find_None in Hfind. set (c1 := set_clock c (hc_clock c + 1)).
    assert (dropped lane row_of (ar_free (hc_pages c0)) (ar_free (hc_states c0)) log' lk lx c1 c1) as Hd.
    { split; [by destruct Hi; split|]. split; [|reflexivity].
      destruct Hc' as [H1 H2]. split; [done|]. intros x Hx. destruct (H2 x Hx). by split. }
    assert (mkTaken tokens swa_rows (buffer_data state) (draft_state_bytes kv >? 0) ∈ log') as Hin
      by apply list_elem_of_here.
    eapply flow_weaken.
    + exact (capture_new_spec lane row_of _ _ log' lk lx kv state tokens swa_rows c1 Hrows Hin Hstate
               after kind Hlong Hd).
    + intros c2 u [(l & s & Hsn & Htok & Haf & Hk & _ & Hsub) Hi2 Hc2 (Hb1 & Hb2 & Hsw)]. split.
      * split; [done|done| | |done].
        -- etransitivity; [exact Hl|]. by split.
        -- rewrite Hsn, fmap_app. apply NoDup_app. split; [by eapply once_submseteq|]. split; [|apply NoDup_singleton].
           intros t (x & -> & Hx)%list_elem_of_fmap Heq%list_elem_of_singleton.
           rewrite Htok in Heq. rewrite Forall_forall in Hfind. apply (Hfind x); [|done].
           by eapply elem_of_submseteq.
      * exists l, s. by split_and!.
    + intros c2 (Hi2 & Hc2 & Hl2). split; [|apply fmap_submseteq, (la_snaps _ _ Hl2)].
      split; [done|done| | |done].
      * etransitivity; [exact Hl|]. destruct (later_layout _ _ Hl2). by split.
      * eapply once_submseteq; [exact (la_snaps _ _ Hl2)|done].
    + intros c2 (lk' & lx' & Hi2 & Hc2 & Hl2). split; [|apply fmap_submseteq, (la_snaps _ _ Hl2)].
      exists lk', lx'. split; [done|done| | |done].
      * etransitivity; [exact Hl|]. destruct (later_layout _ _ Hl2). by split.
      * eapply once_submseteq; [exact (la_snaps _ _ Hl2)|done].
Qed.

Lemma from_budget_good register budget kv0 c0 :
  from_budget register budget kv0 = Ok c0 ->
  good c0 true [] [] [] c0 /\ 0 <= hc_swa_bytes c0 <= ar_slot_bytes (hc_states c0).
Proof.
  intros H. pose proof (law_sizes kv0) as (Hp & Hs & Hd). revert H. unfold from_budget. cbv zeta.
  destruct (_ || _) eqn:Hz; [done|]. apply orb_false_iff in Hz as [Hz1%Z.eqb_neq Hz2%Z.eqb_neq].
  intros (pages & Hpages & (states & Hstates & [= <-])%bind_Ok)%bind_Ok.
  apply Arena_new_ok in Hpages as (Hp1 & _ & _); [|lia..].
  apply Arena_new_ok in Hstates as (Hs1 & _ & Hs3); [|lia..].
  split; [|cbn; lia]. split; [|split|by split|constructor|done]; cbn.
  - split; cbn; [|done|by rewrite app_nil_r].
    split; [done|by rewrite app_nil_r| |]; intros id; [by rewrite lookup_empty|by intros []%not_elem_of_nil].
  - intros id p. by rewrite lookup_empty.
  - intros s []%not_elem_of_nil.
Qed.

(** What [restore] does to the cache itself. *)
Lemma restore_touches c i kv c' kv' :
  (exists r, HostCache_restore c i kv = Next (c', kv') r) \/
  (exists e, HostCache_restore c i kv = Throw (c', kv') e) ->
  exists s s', hc_snaps c !! i = Some s /\ same_snap s s' /\ exists st,
    c' = set_stats (touched i s' (hc_clock c + 1) c) st.
Proof.
  unfold HostCache_restore. cbv zeta. cbn [hc_snaps set_clock hc_clock].
  destruct (hc_snaps c !! i) as [s|] eqn:Hi; [|by intros [[? [=]]|[? [=]]]].
  set (s' := mkSnapshot _ _ _ _ _ _ _ _ _). set (c1 := set_snaps _ _).
  assert (same_snap s s') as Hsame by by split.
  destruct (load_snapshot c1 kv s'); intros [[r0 Hr]|[e0 He]]; try discriminate.
  - injection Hr as <- <- <-. exists s, s'. split; [done|]. split; [done|]. eexists. reflexivity.
  - injection He as <- <- <-. exists s, s'. split; [done|]. split; [done|].
    exists (hc_stats c). reflexivity.
Qed.

Lemma touched_good c0 clean log lk lx c i s s' clock st :
  hc_snaps c !! i = Some s -> same_snap s s' -> good c0 clean log lk lx c ->
  good c0 clean log lk lx (set_stats (touched i s' clock c) st).
Proof.
  intros Hi Hs [Hin Hc [] Ho Hcl].
  pose proof (touched_inv _ _ _ _ _ _ _ _ _ clock Hi Hs Hin) as [].
  pose proof (touched_contents _ _ _ _ _ clock Hi Hs Hc) as [H1 H2].
  split; [by split| |by split| |done].
  - split; [done|]. intros x Hx. destruct (H2 x Hx). by split.
  - cbn [hc_snaps set_stats touched set_snaps]. by rewrite (insert_same sn_tokens _ _ s) by (done || apply Hs).
Qed.

(** Every reachable cache is good, with what failed captures have leaked. *)
Lemma reach_good c0 clean log c :
  good c0 true [] [] [] c0 -> reach c0 clean log c -> exists lk lx, good c0 clean log lk lx c.
Proof.
  intros H0. induction 1 as [|clean log c kv tokens after kind state rows c' _ IH Hco Hcap
    |clean log c kv tokens after kind state rows c' e _ IH Hco Hcap
    |clean log c i kv c' kv' r _ IH Hre|clean log c i kv c' kv' e _ IH Hre].
  - by exists [], [].
  - destruct IH as (lk & lx & Hg). exists lk, lx.
    pose proof (capture_spec _ _ _ _ _ _ _ _ after kind _ rows Hg Hco) as Hs. cbv zeta in Hs.
    destruct Hcap as [Hcap|Hcap]; rewrite Hcap in Hs; by destruct Hs.
  - destruct IH as (lk & lx & Hg).
    pose proof (capture_spec _ _ _ _ _ _ _ _ after kind _ rows Hg Hco) as Hs. cbv zeta in Hs.
    rewrite Hcap in Hs. by destruct Hs.
  - destruct IH as (lk & lx & Hg). exists lk, lx.
    destruct (restore_touches c i kv c' kv') as (s & s' & Hi & Hsame & st & ->); [by left; exists r|].
    by eapply touched_good.
  - destruct IH as (lk & lx & Hg). exists lk, lx.
    destruct (restore_touches c i kv c' kv') as (s & s' & Hi & Hsame & st & ->); [by right; exists e|].
    by eapply touched_good.
Qed.
End reach.
