(* ===== verification/HostCacheProofs.v ===== *)
(** What the host cache promises its client, the serving loop, over every history of
    captures, failed captures, evictions and restores. *)
From Stdlib Require Import ZArith Lia Bool SpecFloat.
From stdpp Require Import base list gmap strings.
From S2P Require Import Prelude HostCache HostPool HostCapture HostRestore HostReach.

Section theorems.
Context {D B Row : Type} `{!KvDevice D B} `{!KvDeviceLaws D B Row}.
Context (lane : Z -> Z -> list Z -> Z) (row_of : list Z -> Row).

Abbreviation reach := (reach lane row_of).

(** Collision freedom reaches to the prefixes of what was seen. *)
Lemma collision_free_prefix (seen seen' : list Z -> Prop) :
  collision_free lane seen ->
  (forall t, seen' t -> exists u k, seen u /\ 0 <= k <= Zlen u /\ t = take (Z.to_nat k) u) ->
  collision_free lane seen'.
Proof.
  intros Hcf Hsub. assert (forall t i id, seen' t -> page_chain lane t !! i = Some id ->
    exists u, seen u /\ page_chain lane u !! i = Some id /\
      take (Z.to_nat ((Z.of_nat i + 1) * KV_PAGE_ROWS)) t = take (Z.to_nat ((Z.of_nat i + 1) * KV_PAGE_ROWS)) u)
    as Hup.
  { intros t i id Ht Hi. destruct (Hsub t Ht) as (u & k & Hu & Hk & ->). exists u.
    rewrite (page_chain_take lane) in Hi by done. apply lookup_take_Some in Hi as [Hi Hlt].
    split_and!; [done..|]. rewrite take_take. f_equal.
    pose proof (Z.mul_div_le k KV_PAGE_ROWS eq_refl). unfold KV_PAGE_ROWS in *. lia. }
  intros t t' i j id Ht Ht' Hi Hj.
  destruct (Hup t i id Ht Hi) as (u & Hu & Hui & Het). destruct (Hup t' j id Ht' Hj) as (u' & Hu' & Huj & Het').
  destruct (Hcf u u' i j id Hu Hu' Hui Huj) as [<- He]. split; [done|congruence].
Qed.

(** * Accounts *)

(** C18: Accounting.  Take any cache [from_env] can make and anything that captures,
    evictions, failed captures and restores can turn it into.  No page slot and no
    state slot ever has two uses, and every page a snapshot names is mapped.  While no
    capture has failed, nothing is lost either: the free, mapped and tail slots are
    together exactly the slots of the arena, the free and the snapshots' states exactly
    the state slots, and each page's count is the number of times snapshots name it. *)
Theorem host_cache_accounts register budget kv0 c0 clean log c :
  from_budget register budget kv0 = Ok c0 -> reach c0 clean log c ->
  NoDup (ar_free (hc_pages c) ++ map_slots (hc_page_map c) ++ tails_of (hc_snaps c)) /\
  NoDup (ar_free (hc_states c) ++ (sn_state <$> hc_snaps c)) /\
  (forall s id, s ∈ hc_snaps c -> id ∈ sn_pages s -> is_Some (hc_page_map c !! id)) /\
  (clean = true ->
    ar_free (hc_pages c) ++ map_slots (hc_page_map c) ++ tails_of (hc_snaps c) ≡ₚ ar_free (hc_pages c0) /\
    ar_free (hc_states c) ++ (sn_state <$> hc_snaps c) ≡ₚ ar_free (hc_states c0) /\
    forall id p, hc_page_map c !! id = Some p ->
      pg_refs p = occurs id (ids_of (hc_snaps c)) /\ 0 < pg_refs p).
Proof.
  intros Hb Hr. destruct (from_budget_good lane row_of _ _ _ _ Hb) as [H0 _].
  destruct (reach_good _ _ _ _ _ _ H0 Hr) as (lk & lx & [[[Ha Hs Href Hh] Hst Hsl] _ _ _ Hcl]).
  pose proof (ao_nodup _ _ Ha) as Hnd. rewrite <-Hs in Hnd. rewrite !app_assoc in Hnd.
  pose proof (ao_nodup _ _ Hst) as Hnds. rewrite <-Hsl, app_nil_r in Hnds.
  apply NoDup_app in Hnd as [Hnd _]. rewrite <-app_assoc in Hnd.
  split_and!; [done|done| |].
  - intros s id Hin Hid. apply Hh, elem_of_app. left. unfold ids_of.
    apply list_elem_of_In, in_concat. exists (sn_pages s).
    split; apply list_elem_of_In; [by apply list_elem_of_fmap_2|done].
  - intros Hc. destruct (Hcl Hc) as [-> ->]. rewrite !app_nil_r in *. by split_and!.
Qed.

(** * Reuse *)

Lemma best_of_prefix prompt snaps best k :
  0 <= k <= Zlen prompt ->
  best_of (take (Z.to_nat k) prompt) snaps best ->
  match best with
  | Some (i, n) => exists s, snaps !! i = Some s /\ n = Zlen (sn_tokens s) /\ sn_tokens s `prefix_of` prompt /\ n <= k /\
      forall s', s' ∈ snaps -> sn_tokens s' `prefix_of` prompt -> Zlen (sn_tokens s') <= k ->
        Zlen (sn_tokens s') <= n
  | None => forall s', s' ∈ snaps -> sn_tokens s' `prefix_of` prompt -> k < Zlen (sn_tokens s')
  end.
Proof.
  intros Hk Hb.
  assert (forall t : list Z, Zlen t <= k -> t `prefix_of` prompt -> t `prefix_of` take (Z.to_nat k) prompt) as Hin.
  { intros t Hlt [r ->]. exists (take (Z.to_nat k - length t) r). by rewrite take_app_ge by lia. }
  destruct best as [[i n]|].
  - destruct Hb as (s & Hi & Hn & Hp & Hmax). exists s. split_and!; [done..| | |].
    + transitivity (take (Z.to_nat k) prompt); [done|apply prefix_take].
    + apply prefix_length in Hp. rewrite length_take in Hp. lia.
    + intros s' Hs' Hp' Hle. apply Hmax; auto.
  - intros s' Hs' Hp'. destruct (Z.lt_ge_cases k (Zlen (sn_tokens s'))) as [|Hge]; [done|].
    destruct (Hb s' Hs'). by apply Hin.
Qed.

Lemma best_of_usable c0 clean log lk lx c prompt :
  good lane row_of c0 clean log lk lx c ->
  collision_free lane (fun t => t = prompt \/ exists e, e ∈ log /\ tk_tokens e = t) ->
  forall k, 0 <= k <= Zlen prompt ->
  exists best, HostCache_lookup lane c (take (Z.to_nat k) prompt) = Ok best /\
    best_of (take (Z.to_nat k) prompt) (hc_snaps c) best.
Proof.
  intros [_ [_ Hsn] _ _ _] Hcf k Hk. unfold HostCache_lookup.
  pose (seen t := t = take (Z.to_nat k) prompt \/ exists e, e ∈ log /\ tk_tokens e = t).
  apply (lookup_best lane row_of seen); [|by left|].
  - eapply collision_free_prefix; [exact Hcf|]. intros t [->|(e & He & Ht)].
    + exists prompt, k. auto.
    + exists t, (Zlen t). split; [right; by exists e|]. split; [lia|]. by rewrite take_ge by lia.
  - intros s Hs. destruct (Hsn s Hs) as [Hp _ _ (e & He & Ht & _)]. split; [right; by exists e|done].
Qed.

(** The two lookups of [lookup_for] together. *)
Lemma lookup_for_best c0 clean log lk lx c prompt sampled :
  good lane row_of c0 clean log lk lx c ->
  collision_free lane (fun t => t = prompt \/ exists e, e ∈ log /\ tk_tokens e = t) ->
  let usable s := sn_tokens s `prefix_of` prompt /\
    (sn_tokens s = prompt -> serves (sn_after s) sampled = true) in
  exists hit, lookup_for lane c prompt sampled = Ok hit /\
  match hit with
  | None => forall s, s ∈ hc_snaps c -> ~ usable s
  | Some (i, n) => exists s, hc_snaps c !! i = Some s /\ usable s /\ n = Zlen (sn_tokens s) /\ MIN_TOKENS <= n /\
      forall s', s' ∈ hc_snaps c -> usable s' -> Zlen (sn_tokens s') <= n
  end.
Proof.
  intros Hg Hcf usable. unfold lookup_for.
  pose proof (best_of_usable _ _ _ _ _ _ _ Hg Hcf) as Hlook.
  destruct (Hlook (Zlen prompt)) as (best & Hl & Hb); [lia|].
  rewrite take_ge in Hl by lia. rewrite Hl. cbn [mbind outcome_bind].
  apply best_of_prefix in Hb; [|lia].
  assert (forall (s : Snapshot), sn_tokens s `prefix_of` prompt -> Zlen prompt <= Zlen (sn_tokens s) -> sn_tokens s = prompt)
    as Hfull.
  { intros s [r Hr] Hle. rewrite Hr, length_app in Hle. destruct r; [by rewrite app_nil_r in Hr|cbn in Hle; lia]. }
  assert (forall s, s ∈ hc_snaps c -> MIN_TOKENS <= Zlen (sn_tokens s)) as Hlong.
  { intros s Hs. destruct Hg as [_ [_ Hsn] _ _ _]. by destruct (Hsn s Hs). }
  destruct best as [[i n]|].
  2:{ exists None. split; [done|]. intros s Hs [Hp _]. specialize (Hb s Hs Hp). apply prefix_length in Hp. lia. }
  destruct Hb as (s & Hi & -> & Hp & Hle & Hmax). rewrite Hi.
  assert (s ∈ hc_snaps c) as Hsin by (by eapply list_elem_of_lookup_2).
  destruct ((Zlen (sn_tokens s) =? Zlen prompt) && negb (serves (sn_after s) sampled)) eqn:Htest.
  - apply andb_true_iff in Htest as [Heq%Z.eqb_eq Hno%negb_true_iff]. pose proof Hlong as Hall.
    assert (sn_tokens s = prompt) as Hsp by (apply Hfull; [done|lia]).
    specialize (Hlong s Hsin). unfold MIN_TOKENS in *.
    rewrite index_range_Ok by lia. cbn [mbind outcome_bind]. rewrite slice_from_start.
    destruct (Hlook (Zlen prompt - 1)) as (best & Hl2 & Hb2); [lia|]. rewrite Hl2. exists best. split; [done|].
    assert (forall s', s' ∈ hc_snaps c -> usable s' -> Zlen (sn_tokens s') <= Zlen prompt - 1) as Hshort.
    { intros s' Hs' [Hp' Hserve]. pose proof (prefix_length _ _ Hp').
      destruct (Z.lt_ge_cases (Zlen (sn_tokens s')) (Zlen prompt)) as [|Hge]; [lia|].
      apply Hfull in Hp'; [|done]. apply list_elem_of_lookup in Hs' as [j Hj].
      assert (i = j) as ->.
      { apply (NoDup_lookup _ _ _ prompt (gd_once _ _ _ _ _ _ _ _ Hg)); rewrite list_lookup_fmap.
        - rewrite Hi. cbn. by rewrite Hsp.
        - rewrite Hj. cbn. by rewrite Hp'. }
      rewrite Hi in Hj. injection Hj as <-. rewrite Hserve in Hno by done. done. }
    apply best_of_prefix in Hb2; [|lia]. destruct best as [[j n]|].
    + destruct Hb2 as (s2 & Hj & -> & Hp2 & Hle2 & Hmax2). exists s2. split_and!; [done| |done| |].
      * split; [done|]. intros He. rewrite He in Hle2. lia.
      * apply Hall. by eapply list_elem_of_lookup_2.
      * intros s' Hs' Hu. apply Hmax2; [done|apply Hu|by apply Hshort].
    + intros s' Hs' Hu. specialize (Hb2 s' Hs' (proj1 Hu)). specialize (Hshort s' Hs' Hu). lia.
  - exists (Some (i, Zlen (sn_tokens s))). split; [done|]. exists s. split_and!; [done| |done|by apply Hlong|].
    + split; [done|]. intros He. rewrite He, Z.eqb_refl in Htest. by apply negb_false_iff in Htest.
    + intros s' Hs' [Hp' _]. apply Hmax; [done..|]. apply prefix_length in Hp'. lia.
Qed.

(** Restoring a snapshot of a good cache. *)
Lemma restore_exact c0 clean log lk lx c i s kv :
  good lane row_of c0 clean log lk lx c ->
  0 <= hc_swa_bytes c0 <= ar_slot_bytes (hc_states c0) ->
  hc_snaps c !! i = Some s ->
  collision_free lane (fun t => exists e, e ∈ log /\ tk_tokens e = t) ->
  match HostCache_restore c i kv with
  | Next (_, kv') r =>
      r = (Zlen (sn_tokens s), sn_after s, sn_kind s) /\ kv_tokens kv' = Zlen (sn_tokens s) /\
      kv_rows kv' = rows_for row_of (sn_tokens s) /\
      exists e, e ∈ log /\ tk_tokens e = sn_tokens s /\
        kv_swa kv' = (tk_rows e, take (Z.to_nat (hc_swa_bytes c)) (tk_data e))
  | Throw _ _ => True
  | Return _ _ | Unwind => False
  end.
Proof.
  intros Hg Hswa Hi Hcf. unfold HostCache_restore. cbv zeta. cbn [hc_snaps set_clock hc_clock]. rewrite Hi.
  set (s' := mkSnapshot _ _ _ _ _ _ _ _ _).
  assert (same_snap s s') as Hsame by by split.
  pose proof (touched_good _ _ _ _ _ _ _ _ _ _ _ (hc_clock c + 1) (hc_stats c) Hi Hsame Hg) as Hg'.
  set (c1 := set_stats (touched i s' (hc_clock c + 1) c) (hc_stats c)) in Hg'.
  change (set_snaps (set_clock c (hc_clock c + 1)) (<[i:=s']> (hc_snaps c))) with c1.
  destruct Hg' as [[[_ _ _ Hheld] _ _] [Hpg Hsn] [_ Hst Hsw] _ _].
  assert (s' ∈ hc_snaps c1) as Hin.
  { apply (list_elem_of_lookup_2 _ i). apply list_lookup_insert_eq. by eapply lookup_lt_Some. }
  pose proof (load_snapshot_spec lane row_of log c1 s' Hcf Hpg) as Hload.
  assert (forall id, id ∈ sn_pages s' -> is_Some (hc_page_map c1 !! id)) as Hpages.
  { intros id Hid. apply Hheld, elem_of_app. left. unfold ids_of.
    apply list_elem_of_In, in_concat. exists (sn_pages s').
    split; apply list_elem_of_In; [by apply list_elem_of_fmap_2|done]. }
  specialize (Hload Hpages (Hsn s' Hin)). specialize (Hload ltac:(rewrite Hst, Hsw; exact Hswa) kv).
  destruct (load_snapshot c1 kv s') as [kv' u| | |]; cbn [flow_spec] in Hload |- *; [|done..].
  destruct Hload as (Hrows & Htok & Hstate). by split_and!.
Qed.
(** C17: Reuse is exact.  Whatever the cache has been through, [lookup_for] returns the
    longest stored snapshot that is a prefix of the prompt and, where it is the whole
    prompt, has what the request needs for its first token; and restoring that snapshot
    into any device cache, unless the device fails, leaves exactly the rows of that many
    prompt tokens and a position state that was captured at exactly these tokens.
    Neither call panics.  [collision_free]: the page ids of the token lists the cache
    has seen do not collide. *)
Theorem host_reuse_is_exact register budget kv0 c0 clean log c prompt sampled :
  from_budget register budget kv0 = Ok c0 -> reach c0 clean log c ->
  collision_free lane (fun t => t = prompt \/ exists e, e ∈ log /\ tk_tokens e = t) ->
  let usable s := sn_tokens s `prefix_of` prompt /\
    (sn_tokens s = prompt -> serves (sn_after s) sampled = true) in
  exists hit, lookup_for lane c prompt sampled = Ok hit /\
  match hit with
  | None => forall s, s ∈ hc_snaps c -> ~ usable s
  | Some (i, n) => exists s, hc_snaps c !! i = Some s /\ usable s /\ n = Zlen (sn_tokens s) /\ MIN_TOKENS <= n /\
      (forall s', s' ∈ hc_snaps c -> usable s' -> Zlen (sn_tokens s') <= n) /\
      forall kv, match HostCache_restore c i kv with
      | Next (_, kv') r =>
          r = (n, sn_after s, sn_kind s) /\ kv_tokens kv' = n /\
          kv_rows kv' = rows_for row_of (take (Z.to_nat n) prompt) /\
          exists e, e ∈ log /\ tk_tokens e = take (Z.to_nat n) prompt /\
            kv_swa kv' = (tk_rows e, take (Z.to_nat (hc_swa_bytes c)) (tk_data e))
      | Throw _ _ => True
      | Return _ _ | Unwind => False
      end
  end.
Proof.
  intros Hb Hr Hcf usable. destruct (from_budget_good lane row_of _ _ _ _ Hb) as [H0 Hswa].
  destruct (reach_good _ _ _ _ _ _ H0 Hr) as (lk & lx & Hg).
  destruct (lookup_for_best _ _ _ _ _ _ _ sampled Hg Hcf) as (hit & Hhit & Hspec).
  exists hit. split; [done|]. destruct hit as [[i n]|]; [|done].
  destruct Hspec as (s & Hi & Hu & -> & Hlong & Hmax). exists s. split_and!; [done..|].
  intros kv. assert (take (Z.to_nat (Zlen (sn_tokens s))) prompt = sn_tokens s) as ->.
  { destruct Hu as [[k ->] _]. by rewrite Nat2Z.id, take_app_length. }
  assert (collision_free lane (fun t => exists e, e ∈ log /\ tk_tokens e = t)) as Hcf'.
  { eapply collision_free_prefix; [exact Hcf|]. intros t (e & He & Ht).
    exists t, (Zlen t). split; [right; by exists e|]. split; [lia|]. by rewrite take_ge by lia. }
  pose proof (restore_exact _ _ _ _ _ _ _ _ kv Hg Hswa Hi Hcf') as Hre.
  by destruct (HostCache_restore c i kv) as [[c' kv'] r| | |].
Qed.

(** Capturing is safe and finds its way back.  On any reachable cache where no
    capture has failed and the page counts cannot overflow their 32 bits, [capture]
    never panics; when it stores the snapshot, [lookup] of these tokens finds it at
    full length; and when it gives up or fails, every token list still stored was
    stored before. *)
Theorem capture_is_safe register budget kv0 c0 log c kv tokens after kind state swa_rows :
  from_budget register budget kv0 = Ok c0 -> reach c0 true log c ->
  contract row_of c kv tokens state ->
  Zlen (ids_of (hc_snaps c)) + Zlen tokens / KV_PAGE_ROWS < 2 ^ 32 ->
  collision_free lane (fun t => t = tokens \/ exists e, e ∈ log /\ tk_tokens e = t) ->
  match capture lane c kv tokens after kind state swa_rows with
  | Next c' _ => exists i, HostCache_lookup lane c' tokens = Ok (Some (i, Zlen tokens))
  | Return c' _ | Throw c' _ => (sn_tokens <$> hc_snaps c') ⊆+ (sn_tokens <$> hc_snaps c)
  | Unwind => False
  end.
Proof.
  intros Hb Hr Hco Hroom Hcf. destruct (from_budget_good lane row_of _ _ _ _ Hb) as [H0 _].
  destruct (reach_good _ _ _ _ _ _ H0 Hr) as (lk & lx & Hg).
  destruct (gd_clean _ _ _ _ _ _ _ _ Hg eq_refl) as [-> ->].
  pose proof (capture_spec _ _ _ _ _ _ _ _ _ _ after kind _ swa_rows Hg Hco) as Hs. cbv zeta in Hs.
  destruct (capture _ _ _ _ _ _ _ _) as [c' u|c' u|c' e|]; cbn [flow_spec] in Hs; [|apply Hs..|].
  - destruct Hs as [Hg' (l & s & Hsn & Htok & _)].
    destruct (best_of_usable _ _ _ _ _ _ tokens Hg') with (k := Zlen tokens) as (best & Hl & Hbest); [|lia|].
    { eapply collision_free_prefix; [exact Hcf|].
      intros t Ht. exists t, (Zlen t). split; [|split; [lia|by rewrite take_ge by lia]].
      destruct Ht as [->|(e & [->|He]%elem_of_cons & <-)]; [by left|by left|right; by exists e]. }
    rewrite take_ge in Hl, Hbest by lia. rewrite Hl.
    assert (s ∈ hc_snaps c') as Hin by (rewrite Hsn; set_solver).
    destruct best as [[i n]|]; [|by destruct (Hbest s Hin); rewrite Htok].
    destruct Hbest as (s2 & _ & -> & Hp & Hmax). exists i. do 3 f_equal. apply prefix_length in Hp.
    specialize (Hmax s Hin). rewrite Htok in Hmax. specialize (Hmax ltac:(done)). lia.
  - unfold capture_overflow in Hs. rewrite (page_chain_length lane) in Hs. cbn in Hs. lia.
Qed.

(** Eviction is oldest first, and only for want of a slot.  On any reachable cache
    an allocation of a page returns; whatever it evicts is no newer than what it leaves
    (by last use, a prompt's snapshot before a turn's), it evicts nothing while a slot
    is free, and it fails only when no snapshot and no free slot is left. *)
Theorem allocation_evicts_oldest register budget kv0 c0 clean log c :
  from_budget register budget kv0 = Ok c0 -> reach c0 clean log c ->
  exists c' r gone, alloc_page c = Ok (c', r) /\ hc_snaps c ≡ₚ gone ++ hc_snaps c' /\
    (forall g s, g ∈ gone -> s ∈ hc_snaps c' ->
       sn_last_use g < sn_last_use s \/
       sn_last_use g = sn_last_use s /\ (sn_kind s = KindPrompt -> sn_kind g = KindPrompt)) /\
    (gone <> [] -> ar_free (hc_pages c) = []) /\
    (r = None -> hc_snaps c' = [] /\ ar_free (hc_pages c') = []).
Proof.
  intros Hb Hr. destruct (from_budget_good lane row_of _ _ _ _ Hb) as [H0 _].
  destruct (reach_good _ _ _ _ _ _ H0 Hr) as (lk & lx & [Hi _ _ _ _]).
  destruct (alloc_page_inv _ _ _ _ _ _ Hi) as (c' & r & Ha & _ & Hr').
  destruct (alloc_page_evicts _ _ _ _ Ha) as (gone & Hg & Ho & Hf).
  exists c', r, gone. split_and!; [done..| |done|].
  - intros g s Hgin Hs. specialize (Ho g s Hgin Hs). apply older_code in Ho. unfold key_code, age in Ho.
    destruct (sn_kind g), (sn_kind s); cbn in Ho; lia || (destruct (Z.lt_ge_cases (sn_last_use g) (sn_last_use s)); [by left|right; split; [lia|done]]).
  - intros ->. by destruct Hr' as (_ & ? & ?).
Qed.

(** A failed export leaks its slot.  When the first new page of a capture cannot be
    exported, the page slot taken for it is in no list any more: the cache the error
    leaves differs from the one before by the clock and by that slot missing from the
    free list. *)
Theorem failed_export_leaks c kv tokens after kind state swa_rows id ids slot arena page e :
  MIN_TOKENS <= Zlen tokens -> Zlen tokens <= kv_tokens kv ->
  (forall s, s ∈ hc_snaps c -> sn_tokens s <> tokens) ->
  page_chain lane tokens = id :: ids -> hc_page_map c !! id = None ->
  pop_free (hc_pages c) = Some (slot, arena) -> Arena_get arena slot = Ok page ->
  export_ga_page kv 0 KV_PAGE_ROWS page = Err e ->
  exists c', capture lane c kv tokens after kind state swa_rows = Throw c' e /\
    hc_snaps c' = hc_snaps c /\ hc_page_map c' = hc_page_map c /\ hc_states c' = hc_states c /\
    ar_free (hc_pages c) ≡ₚ slot :: ar_free (hc_pages c').
Proof.
  intros Hlong Hkv Hnew Hchain Hmap Hpop Hget Hex.
  exists (set_pages (set_clock c (hc_clock c + 1)) arena). split; [|by split_and!; apply pop_free_Some in Hpop as [? _]].
  unfold capture. cbv zeta.
  rewrite (proj2 (Z.ltb_ge _ _)), (proj2 (Z.ltb_ge _ _)) by lia. cbn [orb hc_snaps set_clock].
  destruct (list_find _ (hc_snaps c)) as [[i s]|] eqn:Hfind.
  { apply list_find_Some in Hfind as (Hs & Htok & _). apply list_elem_of_lookup_2 in Hs. by apply Hnew in Hs. }
  unfold capture_new. cbv zeta. rewrite Hchain.
  assert (zip (seqZ 0 (Zlen (id :: ids))) (id :: ids) = (0, id) :: zip (seqZ 1 (Zlen ids)) ids) as ->.
  { cbn [length]. rewrite Nat2Z.inj_succ, <-Z.add_1_l, seqZ_app by lia. done. }
  cbn [flow_fold]. unfold hold_page at 1. cbn [hc_page_map set_clock]. rewrite Hmap.
  unfold alloc_page. cbn [alloc_page_loop hc_pages set_clock]. rewrite Hpop.
  cbn [lift_panic fbind hc_pages set_pages]. rewrite Hget. cbn [lift_panic fbind].
  rewrite Z.mul_0_l, Hex. done.
Qed.
End theorems.
