(* ===== verification/HostInstance.v ===== *)
(** A device cache that keeps one number per row, as an instance of the contract the
    host cache relies on, and a short history on it. *)
From Stdlib Require Import ZArith Lia Bool SpecFloat.
From stdpp Require Import base list gmap strings.
From S2P Require Import Prelude HostCache HostPool HostCapture HostRestore HostReach HostCacheProofs.

Record dev := mkDev { dv_rows : list Z; dv_tokens : Z; dv_swa : Z * list Z }.

#[export] Instance dev_ops : KvDevice dev (list Z) := {
  kv_tokens := dv_tokens;
  ga_page_bytes _ := KV_PAGE_ROWS;
  swa_state_bytes _ := 4;
  draft_state_bytes _ := 0;
  state_bytes _ := 4;
  export_ga_page kv r0 n page :=
    if (0 <=? n) && (n <=? Zlen page) && (0 <=? r0) && (r0 + n <=? Zlen (dv_rows kv))
    then Ok (splice page 0 (slice (dv_rows kv) r0 (r0 + n))) else Err (HeDevice 1);
  sync_export _ := Ok tt;
  kv_reset kv := mkDev [] 0 (dv_swa kv);
  reserve_ga kv _ := Ok kv;
  import_ga_page kv n page := Ok (mkDev (dv_rows kv ++ take (Z.to_nat n) page) (dv_tokens kv) (dv_swa kv));
  finish_ga_import kv := Ok kv;
  import_swa kv rows src := Ok (mkDev (dv_rows kv) (dv_tokens kv) (rows, src));
  import_draft kv _ := Ok kv;
  kv_set_tokens kv n := mkDev (dv_rows kv) n (dv_swa kv);
  buffer_bytes b := Zlen b;
  memcpy_d2h buf b len := Some (take (Z.to_nat len) b ++ drop (Z.to_nat len) buf);
}.

#[export] Program Instance dev_laws : KvDeviceLaws dev (list Z) Z := {
  kv_rows := dv_rows;
  kv_swa := dv_swa;
  page_holds page rows := take (length rows) page = rows;
  buffer_data b := b;
}.
Next Obligation. done. Qed.
Next Obligation. intros kv r0 n page. cbn. by destruct (_ && _). Qed.
Next Obligation.
  intros kv r0 n page page' H H0 Hn Hle. cbn in *. revert H.
  destruct (_ && _) eqn:Hg; [|done]. intros [= <-].
  rewrite !andb_true_iff in Hg. destruct Hg as [[[_ Hp%Z.leb_le] _] _].
  assert (Zlen (slice (dv_rows kv) r0 (r0 + n)) = n) as Hl by (rewrite slice_length; lia).
  split; [apply (f_equal Z.of_nat), splice_length; lia|].
  unfold splice. change (take (Z.to_nat 0) page) with (@nil Z). cbn [app]. by rewrite take_app_length.
Qed.
Next Obligation. done. Qed.
Next Obligation. done. Qed.
Next Obligation. intros buf b len buf' [= <-]. done. Qed.
Next Obligation. done. Qed.
Next Obligation. intros kv n kv' [= <-]. done. Qed.
Next Obligation. intros kv n page rows kv' [= <-] Hp <-. cbn. by rewrite Nat2Z.id, Hp. Qed.
Next Obligation. intros kv kv' [= <-]. done. Qed.
Next Obligation. intros kv rows src kv' [= <-]. done. Qed.
Next Obligation. intros kv src kv' [= <-]. done. Qed.
Next Obligation. done. Qed.
Next Obligation. done. Qed.

(** * A history: one snapshot of 600 tokens *)

Definition toy_lane (seed prev : Z) (block : list Z) : Z := prev mod 1000 + foldr Z.add 1 block.
Definition toy_row (tokens : list Z) : Z := Zlen tokens.
Definition toy_tokens : list Z := replicate 600 7.
Definition toy_kv : dev := mkDev (rows_for toy_row toy_tokens) 600 (0, []).
Definition toy_buffer : list Z := [1; 2; 3; 4].
Definition toy_after : After := mkAfter (Some 9) None.

Definition next_or {S E R A} (s : S) (m : flow S E R A) : S := match m with Next s _ => s | _ => s end.
Definition is_next {S E R A} (m : flow S E R A) : bool := match m with Next _ _ => true | _ => false end.

Lemma is_next_eq {S E R} (s : S) (m : flow S E R unit) : is_next m = true -> m = Next (next_or s m) tt.
Proof. destruct m as [? []| | |]; done. Qed.

Definition toy_empty : HostCache :=
  match from_budget (fun _ => true) 200 toy_kv with
  | Ok c => c
  | _ => mkHostCache (mkArena [] 0 []) (mkArena [] 0 []) ∅ [] 0 0 (mkStats 0 0 0 0 0)
  end.

Lemma toy_empty_eq : from_budget (fun _ => true) 200 toy_kv = Ok toy_empty.
Proof.
  unfold toy_empty. assert (is_ok (from_budget (fun _ => true) 200 toy_kv) = true) as H by (vm_compute; reflexivity).
  by destruct (from_budget _ _ _).
Qed.

Definition toy_capture := capture toy_lane toy_empty toy_kv toy_tokens toy_after KindTurn toy_buffer 2.
Definition toy_cache : HostCache := next_or toy_empty toy_capture.

Lemma toy_contract : contract toy_row toy_empty toy_kv toy_tokens toy_buffer.
Proof.
  split; [|vm_compute; split; [reflexivity|discriminate]].
  cbn [kv_rows dev_laws toy_kv dv_rows]. apply take_ge. by rewrite rows_for_length.
Qed.

Lemma toy_capture_eq : toy_capture = Next toy_cache tt.
Proof. apply is_next_eq. vm_compute. reflexivity. Qed.

Definition toy_log : list taken := [entry toy_kv toy_tokens toy_buffer 2].

Lemma toy_reach : reach toy_lane toy_row toy_empty true toy_log toy_cache.
Proof.
  eapply reach_capture; [apply reach_start|apply toy_contract|]. left. exact toy_capture_eq.
Qed.

Definition toy_chain : list Z := page_chain toy_lane toy_tokens.

(** The ids of the pages in play are different. *)
Lemma toy_collision_free prompt :
  take 600 prompt = toy_tokens -> page_chain toy_lane prompt = toy_chain ->
  collision_free toy_lane (fun t => t = prompt \/ exists e, e ∈ toy_log /\ tk_tokens e = t).
Proof.
  intros Hp Hc. assert (NoDup toy_chain) as Hnd by (apply (bool_decide_unpack _); vm_compute; exact I).
  assert (length toy_chain = 2%nat) as Hlen by (vm_compute; reflexivity).
  assert (forall t, t = prompt \/ (exists e, e ∈ toy_log /\ tk_tokens e = t) ->
    page_chain toy_lane t = toy_chain /\ take 512 t = take 512 toy_tokens) as Hall.
  { intros t [->|(e & He%list_elem_of_singleton & <-)]; [|by subst e].
    split; [done|]. by rewrite <-Hp, take_take. }
  intros t t' i j id Ht Ht' Hi Hj. destruct (Hall t Ht) as [Hct Htt]. destruct (Hall t' Ht') as [Hct' Htt'].
  rewrite Hct in Hi. rewrite Hct' in Hj. split; [by apply (NoDup_lookup toy_chain _ _ id)|].
  apply lookup_lt_Some in Hi. rewrite Hlen in Hi.
  apply (f_equal (take (Z.to_nat ((Z.of_nat i + 1) * KV_PAGE_ROWS)))) in Htt, Htt'.
  rewrite take_take in Htt, Htt'. unfold KV_PAGE_ROWS in *.
  rewrite (Nat.min_l (Z.to_nat ((Z.of_nat i + 1) * 256)) 512) in Htt, Htt' by lia. congruence.
Qed.

(** * The theorems on it *)

Lemma host_cache_accounts_witness :
  NoDup (ar_free (hc_pages toy_cache) ++ map_slots (hc_page_map toy_cache) ++ tails_of (hc_snaps toy_cache)).
Proof. exact (proj1 (host_cache_accounts _ _ _ _ _ _ _ _ _ toy_empty_eq toy_reach)). Defined.

Definition toy_prompt : list Z := toy_tokens ++ [5].

Definition toy_fresh : dev := mkDev [] 0 (0, []).

Lemma host_reuse_is_exact_witness :
  match HostCache_restore toy_cache 0 toy_fresh with
  | Next (_, kv') _ => dv_rows kv' = rows_for toy_row toy_tokens
  | _ => True
  end.
Proof.
  assert (collision_free toy_lane (fun t => t = toy_prompt \/ exists e, e ∈ toy_log /\ tk_tokens e = t)) as Hcf.
  { apply toy_collision_free; [reflexivity|vm_compute; reflexivity]. }
  assert (lookup_for toy_lane toy_cache toy_prompt false = Ok (Some (0%nat, 600))) as Hl by (vm_compute; reflexivity).
  destruct (host_reuse_is_exact _ _ _ _ _ _ _ _ _ toy_prompt false toy_empty_eq toy_reach Hcf) as (hit & Hhit & Hspec).
  rewrite Hl in Hhit. injection Hhit as <-. destruct Hspec as (s & _ & _ & _ & _ & _ & Hre).
  specialize (Hre toy_fresh). destruct (HostCache_restore toy_cache 0 toy_fresh) as [[c' kv'] r| | |]; [|exact I..].
  destruct Hre as (_ & _ & Hrows & _). exact Hrows.
Defined.

Lemma capture_is_safe_witness :
  exists i, HostCache_lookup toy_lane toy_cache toy_tokens = Ok (Some (i, 600)).
Proof.
  assert (collision_free toy_lane (fun t => t = toy_tokens \/ exists e, e ∈ [] /\ tk_tokens e = t)) as Hcf.
  { eapply collision_free_prefix; [apply (toy_collision_free toy_tokens); vm_compute; reflexivity|].
    intros t [->|(e & []%not_elem_of_nil & _)]. exists toy_tokens, 600.
    split; [by left|]. split; [vm_compute; split; discriminate|reflexivity]. }
  assert (Zlen (ids_of (hc_snaps toy_empty)) + Zlen toy_tokens / KV_PAGE_ROWS < 2 ^ 32) as Hroom
    by (vm_compute; reflexivity).
  pose proof (capture_is_safe toy_lane toy_row _ _ _ _ _ _ _ _ toy_after KindTurn _ 2 toy_empty_eq (reach_start _ _ _)
    toy_contract Hroom Hcf) as H.
  change (capture toy_lane toy_empty toy_kv toy_tokens toy_after KindTurn toy_buffer 2) with toy_capture in H.
  rewrite toy_capture_eq in H. exact H.
Defined.

Lemma allocation_evicts_oldest_witness :
  exists c' r gone, alloc_page toy_cache = Ok (c', r) /\ hc_snaps toy_cache ≡ₚ gone ++ hc_snaps c'.
Proof.
  destruct (allocation_evicts_oldest _ _ _ _ _ _ _ _ _ toy_empty_eq toy_reach) as (c' & r & gone & Ha & Hg & _).
  exists c', r, gone. split; assumption.
Defined.

Lemma failed_export_leaks_witness :
  exists c', capture toy_lane toy_empty (mkDev [] 600 (0, [])) toy_tokens toy_after KindTurn toy_buffer 2
    = Throw c' (HeDevice 1) /\ Zlen (ar_free (hc_pages toy_empty)) = Zlen (ar_free (hc_pages c')) + 1.
Proof.
  destruct (pop_free (hc_pages toy_empty)) as [[slot a]|] eqn:Hpop; [|vm_compute in Hpop; discriminate].
  assert (is_ok (Arena_get a slot) = true) as Hok.
  { vm_compute in Hpop. injection Hpop as <- <-. vm_compute. reflexivity. }
  destruct (Arena_get a slot) as [page|e|] eqn:Hget; [|discriminate..].
  destruct toy_chain as [|id ids] eqn:Hchain; [vm_compute in Hchain; discriminate|].
  destruct (failed_export_leaks toy_lane toy_empty (mkDev [] 600 (0, [])) toy_tokens toy_after KindTurn
    toy_buffer 2 id ids slot a page (HeDevice 1)) as (c' & Hc & _ & _ & _ & Hp).
  - vm_compute. discriminate.
  - vm_compute. discriminate.
  - intros s Hs. vm_compute in Hs. inversion Hs.
  - exact Hchain.
  - reflexivity.
  - exact Hpop.
  - exact Hget.
  - cbn. by rewrite andb_false_r.
  - exists c'. split; [exact Hc|]. rewrite Hp. cbn [length]. lia.
Defined.
