(* ===== verification/RepackGeom.v ===== *)
(** [crates/mimo26-repack/src/geom.rs] and [error.rs]: the checkpoint's geometry, the
    quarter-slice layout and the names of tensors, shards and slices. *)
From Stdlib Require Import ZArith Lia Bool.
From stdpp Require Import base list gmap strings pretty.
From S2P Require Import Prelude.

Inductive RepackError :=
| ShapeMismatch (tensor : string) (want got : Z)
| BadGeometry (tensor detail : string)
| MissingTensor (name : string)
| UnexpectedTensor (name : string)
| BadSafetensors (what : string)
| Truncated (path : string) (declared got : Z)
| SliceSize (path : string) (want got : Z)
| ShaMismatch (path want got : string)
| MissingSlice (name : string)
| UnlistedSlice (name : string)
| BadManifest (what : string)
| GeometryMismatch (field : string) (want got : Z)
| Io (path detail : string).

Definition HIDDEN : Z := 4096.
Definition INTERMEDIATE : Z := 2048.
Definition EXPERTS_PER_LAYER : Z := 256.
Definition MOE_LAYERS : Z := 47.
Definition EP_RANKS : Z := 4.
Definition FIRST_MOE_LAYER : Z := 1.
Definition EXPERT_BYTES : Z := 13369344.
Definition QUARTER_SLICE_BYTES : Z := 3342336.

Inductive Proj := Gate | Up | Down.

#[export] Instance Proj_eq_dec : EqDecision Proj.
Proof. solve_decision. Defined.

Definition Proj_ALL : list Proj := [Gate; Up; Down].

Definition Proj_name (p : Proj) : string :=
  match p with Gate => "gate_proj" | Up => "up_proj" | Down => "down_proj" end.

Definition out_rows (p : Proj) : Z := match p with Gate | Up => INTERMEDIATE | Down => HIDDEN end.
Definition in_cols (p : Proj) : Z := match p with Gate | Up => HIDDEN | Down => INTERMEDIATE end.
Definition slice_rows (p : Proj) : Z := match p with Gate | Up => INTERMEDIATE / EP_RANKS | Down => HIDDEN end.
Definition slice_in_cols (p : Proj) : Z := match p with Gate | Up => HIDDEN | Down => INTERMEDIATE / EP_RANKS end.
Definition slice_col_start (p : Proj) (rank : Z) : Z :=
  match p with Gate | Up => 0 | Down => rank * (INTERMEDIATE / EP_RANKS) end.

Definition slice_payload_bytes (p : Proj) : Z := slice_rows p * slice_in_cols p / 2.
Definition slice_scale_bytes (p : Proj) : Z := slice_rows p * slice_in_cols p / 32.

Definition slice_payload_off (p : Proj) : Z :=
  match p with
  | Gate => 0
  | Up => slice_payload_bytes Gate + slice_scale_bytes Gate
  | Down => slice_payload_bytes Gate + slice_scale_bytes Gate + slice_payload_bytes Up + slice_scale_bytes Up
  end.
Definition slice_scale_off (p : Proj) : Z := slice_payload_off p + slice_payload_bytes p.

Record LayoutRow := mkLayoutRow { lr_proj : Proj; lr_region : string; lr_off : Z; lr_len : Z }.

Definition layout_table : list LayoutRow :=
  concat ((fun p => [mkLayoutRow p "payload" (slice_payload_off p) (slice_payload_bytes p);
                     mkLayoutRow p "scales" (slice_scale_off p) (slice_scale_bytes p)]) <$> Proj_ALL).

(** [assert!(rank < EP_RANKS)] *)
Definition slice_row_indices {E} (p : Proj) (rank : Z) : outcome E (list Z) :=
  if rank <? EP_RANKS then
    let start := match p with Gate | Up => rank * slice_rows p | Down => 0 end in
    Ok (seqZ start (slice_rows p))
  else Panic.

Definition check_rank (rank : Z) : outcome RepackError unit :=
  if rank >=? EP_RANKS then Err (BadGeometry ("rank " +:+ pretty rank) "EP rank must be 0..4") else Ok tt.

Definition check_layer (layer : Z) : outcome RepackError unit :=
  if (layer <? FIRST_MOE_LAYER) || (layer >=? FIRST_MOE_LAYER + MOE_LAYERS)
  then Err (BadGeometry ("layer " +:+ pretty layer) "MoE layer must be 1..=47 (layer 0 is dense)") else Ok tt.

Definition check_expert (expert : Z) : outcome RepackError unit :=
  if expert >=? EXPERTS_PER_LAYER
  then Err (BadGeometry ("expert " +:+ pretty expert) "expert id must be 0..256") else Ok tt.

(** [{:02}] and [{:03}] *)
Definition pad_left (width : nat) (s : string) : string :=
  String.concat "" (replicate (width - String.length s) "0"%string) +:+ s.

Definition tensor_name (layer expert : Z) (p : Proj) (scale : bool) : string :=
  "model.layers." +:+ pretty layer +:+ ".mlp.experts." +:+ pretty expert +:+ "." +:+ Proj_name p +:+ "."
    +:+ (if scale then "weight_scale" else "weight").

Definition shard_file (expert : Z) : string :=
  "model_pp0_ep" +:+ pretty (expert / 4) +:+ "_shard0.safetensors".

Definition slice_file_name (layer expert rank : Z) : string :=
  "L" +:+ pad_left 2 (pretty layer) +:+ "_E" +:+ pad_left 3 (pretty expert) +:+ "_R" +:+ pretty rank +:+ ".slice".
