(* ===== verification/RepackSlice.v ===== *)
(** [crates/mimo26-repack/src/mxfp4.rs]: MXFP4, 4-bit E2M1 codes two to a byte with
    an E8M0 power-of-two scale for every 32 inputs.  [naive] selects the known-wrong
    variants the source keeps for its tests.

    [crates/mimo26-repack/src/repack.rs]: building a rank's quarter slice from an
    expert's tensors, and reading it back. *)
From Stdlib Require Import ZArith Lia Bool SpecFloat.
From stdpp Require Import base list gmap strings pretty.
From S2P Require Import Prelude Floats RepackGeom.

Definition BLOCK : Z := 32.
Definition E8M0_BIAS : Z := 127.
Definition E8M0_BYTE_MAX : Z := 254.

(** Half-units, and the sign of the negative zero. *)
Definition E2M1_CODEBOOK : list spec_float :=
  let pos := (fun h => f32_normalize h (-1)) <$> [0; 1; 2; 3; 4; 6; 8; 12] in
  pos ++ (SFopp <$> pos).

Definition Mxfp4Naive : Type := Z.
Definition NONE : Mxfp4Naive := 0.
Definition ALL : Mxfp4Naive := 2 ^ 32 - 1.
Definition NIBBLE_SWAP : Z := Z.shiftl 1 0.
Definition E8M0_NO_CLAMP : Z := Z.shiftl 1 1.
Definition SCALE_OFF_BY_ONE : Z := Z.shiftl 1 2.
Definition naive_has (naive : Mxfp4Naive) (bit : Z) : bool := negb (Z.land naive bit =? 0).

(** [f64::from_bits] *)
Definition f64_from_bits (bits : Z) : spec_float :=
  let s := Z.testbit bits 63 in
  let e := Z.land (Z.shiftr bits 52) 0x7FF in
  let m := Z.land bits (Z.ones 52) in
  if e =? 0x7FF then (if m =? 0 then S754_infinity s else S754_nan)
  else
    let m := if e =? 0 then m else m + 2 ^ 52 in
    match m with
    | Zpos m => S754_finite s m (Z.max e 1 - 1075)
    | _ => S754_zero s
    end.

(** [debug_assert!] aside, [e] is in range for every E8M0 byte. *)
Definition exp2 (e : Z) : spec_float :=
  if e >=? -1022 then f64_from_bits (Z.shiftl (e + 1023) 52)
  else f64_from_bits (Z.shiftl 1 (e + 1074)).

Definition e8m0_scale (byte : Z) (naive : Mxfp4Naive) : spec_float :=
  let b := if naive_has naive E8M0_NO_CLAMP then byte else Z.min byte E8M0_BYTE_MAX in
  exp2 (b - E8M0_BIAS).

Definition decode_byte {E} (byte : Z) (naive : Mxfp4Naive) : outcome E (list spec_float) :=
  lo ← idx E2M1_CODEBOOK (Z.land byte 0x0f);
  hi ← idx E2M1_CODEBOOK (Z.land (Z.shiftr byte 4) 0x0f);
  Ok (if naive_has naive NIBBLE_SWAP then [hi; lo] else [lo; hi]).

Definition f32_max_f64 : spec_float := f64_normalize (2 ^ 24 - 1) 104.

(** [x.clamp(-f32_max, f32_max)] on [f64]. *)
Definition f64_clamp (x lo hi : spec_float) : spec_float :=
  if SFltb x lo then lo else if SFltb hi x then hi else x.

(** One pass of the loop of [unpack_row]. *)
Definition unpack_at {E} (packed scales : list Z) (naive : Mxfp4Naive) (k : Z) : outcome E spec_float :=
  byte ← idx packed (k / 2);
  pair ← decode_byte byte naive;
  x ← idx pair (k mod 2);
  let block := k / BLOCK in
  sbyte ← (if naive_has naive SCALE_OFF_BY_ONE
           then Ok (default 0 (scales !! Z.to_nat (block + 1))) else idx scales block);
  let prod := f64_mul (f64_of_f32 x) (e8m0_scale sbyte naive) in
  Ok (f32_of_f64 (f64_clamp prod (SFopp f32_max_f64) f32_max_f64)).

Definition unpack_row {E} (packed scales : list Z) (naive : Mxfp4Naive) : outcome E (list spec_float) :=
  mapM (unpack_at packed scales naive) (seqZ 0 (Zlen packed * 2)).

Definition unpack_matrix {E} (packed scales : list Z) (out_rows in_cols : Z) (naive : Mxfp4Naive)
    : outcome E (list spec_float) :=
  let half := in_cols / 2 in
  let srow := in_cols / BLOCK in
  rows ← mapM (fun r =>
    p ← index_range packed (r * half) ((r + 1) * half);
    s ← index_range scales (r * srow) ((r + 1) * srow);
    unpack_row p s naive) (seqZ 0 out_rows);
  Ok (concat rows).


(** One pass of the search of [quantize_e2m1]: [<=] keeps the later of equals. *)
Definition quantize_step (a : spec_float) (best : Z * spec_float) (entry : Z * spec_float)
    : Z * spec_float :=
  let '(i, m) := entry in
  let d := SFabs (f32_sub a m) in
  if SFleb d (snd best) then (i, d) else best.

Definition quantize_e2m1 (x : spec_float) : Z :=
  let sign := match x with
    | S754_zero s | S754_infinity s | S754_finite s _ _ => if s then 8 else 0
    | S754_nan => 0
    end in
  let mags := take 8 E2M1_CODEBOOK in
  Z.lor sign (fst (foldl (quantize_step (SFabs x)) (0, S754_infinity false) (zip (seqZ 0 8) mags))).

Definition pack_byte (even_code odd_code : Z) : Z :=
  Z.lor (Z.land even_code 0x0f) (Z.shiftl (Z.land odd_code 0x0f) 4).

Record ExpertTensors := mkExpertTensors {
  gate_w : list Z; gate_s : list Z; up_w : list Z; up_s : list Z; down_w : list Z; down_s : list Z }.

Definition total_bytes (t : ExpertTensors) : Z :=
  Zlen (gate_w t) + Zlen (gate_s t) + Zlen (up_w t) + Zlen (up_s t) + Zlen (down_w t) + Zlen (down_s t).

Definition tensors_proj (t : ExpertTensors) (p : Proj) : list Z * list Z :=
  match p with Gate => (gate_w t, gate_s t) | Up => (up_w t, up_s t) | Down => (down_w t, down_s t) end.

Definition check_shape (name : string) (shape want : list Z) : outcome RepackError unit :=
  if bool_decide (shape = want) then Ok tt
  else Err (BadGeometry name "shape is not the pinned MXFP4 expert geometry").

Record TensorEntry := mkTensorEntry { te_dtype : string; te_shape : list Z; te_offsets : Z * Z }.

(** Reading one expert's six tensors.  [read_tensor] reads a tensor's bytes from the
    shard's file. *)
Section read.
Context (read_tensor : string -> outcome RepackError (list Z)).

Definition read_one (header : gmap string TensorEntry) (layer expert : Z) (p : Proj) (scale : bool)
    : outcome RepackError (list Z) :=
  let name := tensor_name layer expert p scale in
  let shape := if scale then [out_rows p; in_cols p / 32] else [out_rows p; in_cols p / 2] in
  entry ← ok_or (header !! name) (MissingTensor name);
  if negb (bool_decide (te_dtype entry = "U8"%string)) then
    Err (BadGeometry name "expert weights must be U8 (MXFP4 packed)")
  else
    _ ← check_shape name (te_shape entry) shape;
    bytes ← read_tensor name;
    let want := foldr Z.mul 1 shape in
    if negb (Zlen bytes =? want) then Err (ShapeMismatch name want (Zlen bytes)) else Ok bytes.

Definition read_expert (header : gmap string TensorEntry) (layer expert : Z) : outcome RepackError ExpertTensors :=
  _ ← check_layer layer;
  _ ← check_expert expert;
  gate_w ← read_one header layer expert Gate false;
  gate_s ← read_one header layer expert Gate true;
  up_w ← read_one header layer expert Up false;
  up_s ← read_one header layer expert Up true;
  down_w ← read_one header layer expert Down false;
  down_s ← read_one header layer expert Down true;
  let t := mkExpertTensors gate_w gate_s up_w up_s down_w down_s in
  if negb (total_bytes t =? EXPERT_BYTES) then
    Err (ShapeMismatch ("expert L" +:+ pretty layer +:+ " E" +:+ pretty expert) EXPERT_BYTES (total_bytes t))
  else Ok t.
End read.

(** [out[dst..dst + n].copy_from_slice(&src[at..at + n])] *)
Definition copy_row (out src : list Z) (dst at_ n : Z) : outcome RepackError (list Z) :=
  x ← index_range src at_ (at_ + n);
  _ ← index_range out dst (dst + n);
  Ok (splice out dst x).

(** One row of one projection: its payload, then its scales. *)
Definition build_row (w s : list Z) (p : Proj) (rank : Z) (out : list Z) (entry : Z * Z)
    : outcome RepackError (list Z) :=
  let '(i, r) := entry in
  let half := slice_in_cols p / 2 in
  let srow := slice_in_cols p / 32 in
  let col := slice_col_start p rank in
  out ← copy_row out w (slice_payload_off p + i * half) (r * (in_cols p / 2) + col / 2) half;
  copy_row out s (slice_scale_off p + i * srow) (r * (in_cols p / 32) + col / 32) srow.

Definition build_proj (t : ExpertTensors) (rank : Z) (out : list Z) (p : Proj)
    : outcome RepackError (list Z) :=
  let '(w, s) := tensors_proj t p in
  let full_half := in_cols p / 2 in
  let full_srow := in_cols p / 32 in
  if negb (Zlen w =? out_rows p * full_half) || negb (Zlen s =? out_rows p * full_srow) then
    Err (BadGeometry (Proj_name p) "source payload/scale length mismatch")
  else
    rows ← slice_row_indices p rank;
    fold_try (build_row w s p rank) out (zip (seqZ 0 (Zlen rows)) rows).

(** [b.rotate_left(4)] on a byte. *)
Definition rotate_left_4 (b : Z) : Z := Z.lor (Z.land (Z.shiftl b 4) 0xff) (Z.shiftr b 4).

Definition swap_nibbles (out : list Z) (p : Proj) : outcome RepackError (list Z) :=
  let off := slice_payload_off p in
  let len := slice_payload_bytes p in
  x ← index_range out off (off + len);
  Ok (splice out off (rotate_left_4 <$> x)).

(** [out.copy_within(base + 1..base + srow, base); out[base + srow - 1] = 0] *)
Definition shift_scale_row (p : Proj) (out : list Z) (i : Z) : outcome RepackError (list Z) :=
  let srow := slice_in_cols p / 32 in
  let base := slice_scale_off p + i * srow in
  x ← index_range out (base + 1) (base + srow);
  idx_set (splice out base x) (base + srow - 1) 0.

Definition shift_scales (out : list Z) (p : Proj) : outcome RepackError (list Z) :=
  fold_try (shift_scale_row p) out (seqZ 0 (slice_rows p)).

Definition build_slice (t : ExpertTensors) (rank : Z) (naive : Mxfp4Naive) : outcome RepackError (list Z) :=
  _ ← check_rank rank;
  out ← fold_try (build_proj t rank) (replicate (Z.to_nat QUARTER_SLICE_BYTES) 0) Proj_ALL;
  out ← (if naive_has naive NIBBLE_SWAP then fold_try swap_nibbles out Proj_ALL else Ok out);
  if naive_has naive SCALE_OFF_BY_ONE then fold_try shift_scales out Proj_ALL else Ok out.

Definition slice_proj (bytes : list Z) (p : Proj) : outcome RepackError (list Z * list Z) :=
  if negb (Zlen bytes =? QUARTER_SLICE_BYTES) then
    Err (SliceSize "<memory>" QUARTER_SLICE_BYTES (Zlen bytes))
  else
    payload ← index_range bytes (slice_payload_off p) (slice_payload_off p + slice_payload_bytes p);
    scales ← index_range bytes (slice_scale_off p) (slice_scale_off p + slice_scale_bytes p);
    Ok (payload, scales).

Definition slice_to_f32 (bytes : list Z) (p : Proj) (naive : Mxfp4Naive) : outcome RepackError (list spec_float) :=
  '(payload, scales) ← slice_proj bytes p;
  let in_cols := slice_in_cols p in
  let half := in_cols / 2 in
  let srow := in_cols / 32 in
  rows ← mapM (fun i =>
    x ← index_range payload (i * half) ((i + 1) * half);
    s ← index_range scales (i * srow) ((i + 1) * srow);
    row ← unpack_row x s naive;
    if Zlen row =? in_cols then Ok row else Panic) (seqZ 0 (slice_rows p));
  Ok (concat rows).

Definition expert_to_f32 (t : ExpertTensors) (p : Proj) (naive : Mxfp4Naive) : outcome RepackError (list spec_float) :=
  let '(w, s) := tensors_proj t p in
  unpack_matrix w s (out_rows p) (in_cols p) naive.

Definition slice_rows_of_full (full : list spec_float) (p : Proj) (rank : Z) : outcome RepackError (list spec_float) :=
  let cols := slice_in_cols p in
  let start := slice_col_start p rank in
  rows ← slice_row_indices p rank;
  parts ← mapM (fun r => index_range full (r * in_cols p + start) (r * in_cols p + start + cols)) rows;
  Ok (concat parts).
