(* ===== verification/RepackProofs.v ===== *)
(** The repack loses nothing: the four quarter slices are a byte permutation of the
    expert, and dequantizing a slice is cutting the rank's rectangle out of the
    dequantized expert. *)
From Stdlib Require Import ZArith Lia Bool SpecFloat.
From stdpp Require Import base list gmap strings.
From S2P Require Import Prelude Floats RepackGeom RepackSlice.

(** * Regions: payload ([false]) and scales ([true]) alike *)

Definition unit_of (sc : bool) : Z := if sc then 32 else 2.
Definition r_off (p : Proj) (sc : bool) : Z := if sc then slice_scale_off p else slice_payload_off p.
Definition r_width (p : Proj) (sc : bool) : Z := slice_in_cols p / unit_of sc.
Definition r_full (p : Proj) (sc : bool) : Z := in_cols p / unit_of sc.
Definition r_col (p : Proj) (sc : bool) (rank : Z) : Z := slice_col_start p rank / unit_of sc.
Definition r_src (t : ExpertTensors) (p : Proj) (sc : bool) : list Z :=
  if sc then snd (tensors_proj t p) else fst (tensors_proj t p).
Definition row0 (p : Proj) (rank : Z) : Z := match p with Gate | Up => rank * slice_rows p | Down => 0 end.
Definition r_from (p : Proj) (sc : bool) (rank i : Z) : Z := (row0 p rank + i) * r_full p sc + r_col p sc rank.
(** Where the next region starts. *)
Definition r_end (p : Proj) : Z :=
  match p with Gate => slice_payload_off Up | Up => slice_payload_off Down | Down => QUARTER_SLICE_BYTES end.

Definition well_sized (t : ExpertTensors) : Prop :=
  forall p sc, Zlen (r_src t p sc) = out_rows p * r_full p sc.

(** What [read_expert] lets through is well sized. *)
Lemma read_one_sized read_tensor header layer expert p sc bytes :
  read_one read_tensor header layer expert p sc = Ok bytes -> Zlen bytes = out_rows p * r_full p sc.
Proof.
  unfold read_one. cbv zeta. destruct (ok_or _ _) as [entry|e|]; [|discriminate..]. cbn [mbind outcome_bind].
  destruct (negb _); [discriminate|]. destruct (check_shape _ _ _) as [u|e|]; [|discriminate..].
  cbn [mbind outcome_bind]. destruct (read_tensor _) as [b|e|]; [|discriminate..]. cbn [mbind outcome_bind].
  destruct (Zlen b =? _) eqn:Hb; [|discriminate]. apply Z.eqb_eq in Hb. intros [= <-]. rewrite Hb.
  destruct sc; cbn [foldr]; unfold r_full, unit_of; lia.
Qed.

Lemma read_expert_sized read_tensor header layer expert t :
  read_expert read_tensor header layer expert = Ok t -> well_sized t.
Proof.
  unfold read_expert. intros (u & _ & (u' & _ & (gw & H1 & (gs & H2 & (uw & H3 & (us & H4 & (dw & H5 & (ds & H6 & Ht)
    %bind_Ok)%bind_Ok)%bind_Ok)%bind_Ok)%bind_Ok)%bind_Ok)%bind_Ok)%bind_Ok.
  revert Ht. cbv zeta. destruct (negb _); [discriminate|]. intros [= <-].
  intros [] []; cbn [r_src tensors_proj fst snd]; by eapply read_one_sized.
Qed.

(** Row [i] of a region of a slice. *)
Definition slice_row (bytes : list Z) (p : Proj) (sc : bool) (i : Z) : list Z :=
  slice bytes (r_off p sc + i * r_width p sc) (r_off p sc + i * r_width p sc + r_width p sc).

Ltac geom := unfold r_from, r_off, r_width, r_full, r_col, row0, r_end, slice_scale_off, slice_payload_off,
  slice_payload_bytes, slice_scale_bytes, slice_rows, slice_in_cols, slice_col_start, out_rows, in_cols,
  unit_of, HIDDEN, INTERMEDIATE, EP_RANKS, QUARTER_SLICE_BYTES in *.

(** The constants of a concrete projection. *)
Ltac constant t := let v := eval vm_compute in t in change t with v in *.
Ltac constants := repeat match goal with
  | H : context [r_full ?p ?s] |- _ => constant (r_full p s)
  | |- context [r_full ?p ?s] => constant (r_full p s)
  | H : context [r_width ?p ?s] |- _ => constant (r_width p s)
  | |- context [r_width ?p ?s] => constant (r_width p s)
  | H : context [r_off ?p ?s] |- _ => constant (r_off p s)
  | |- context [r_off ?p ?s] => constant (r_off p s)
  | H : context [slice_rows ?p] |- _ => constant (slice_rows p)
  | |- context [slice_rows ?p] => constant (slice_rows p)
  | H : context [out_rows ?p] |- _ => constant (out_rows p)
  | |- context [out_rows ?p] => constant (out_rows p)
  | H : context [EP_RANKS] |- _ => constant EP_RANKS
  | |- context [EP_RANKS] => constant EP_RANKS
  end.

Lemma r_layout p :
  0 <= r_off p false /\ r_off p false + slice_rows p * r_width p false = r_off p true /\
  r_off p true + slice_rows p * r_width p true = r_end p /\ r_end p <= QUARTER_SLICE_BYTES.
Proof. destruct p; vm_compute; repeat split; discriminate. Qed.

Lemma r_width_pos p sc : 0 < r_width p sc.
Proof. by destruct p, sc. Qed.

Lemma slice_rows_pos p : 0 < slice_rows p.
Proof. by destruct p. Qed.

Lemma r_col_eq p sc rank :
  r_col p sc rank = match p with Down => rank * r_width Down sc | _ => 0 end.
Proof.
  destruct p; [by destruct sc..|]. destruct sc; geom; cbn -[Z.mul Z.div];
    (rewrite Z.divide_div_mul_exact; [done..|first [by exists 16|by exists 256]]).
Qed.

Lemma r_from_bounds t p sc rank i :
  well_sized t -> 0 <= rank < EP_RANKS -> 0 <= i < slice_rows p ->
  0 <= r_from p sc rank i /\ r_from p sc rank i + r_width p sc <= Zlen (r_src t p sc).
Proof.
  intros Ht Hr Hi. rewrite Ht. unfold r_from. rewrite r_col_eq.
  destruct p, sc; cbn [row0]; constants; lia.
Qed.

(** * Writing rows *)

(** [out'] is [out] with [[lo, hi)] written. *)
Record rewrote (lo hi : Z) (out out' : list Z) : Prop := {
  rw_length : length out' = length out;
  rw_other : forall a b, 0 <= a -> a <= b -> b <= lo \/ hi <= a -> slice out' a b = slice out a b;
}.

Lemma rewrote_refl lo hi out : rewrote lo hi out out.
Proof. by split. Qed.

Lemma rewrote_trans lo hi lo1 hi1 lo2 hi2 out out1 out2 :
  rewrote lo1 hi1 out out1 -> rewrote lo2 hi2 out1 out2 ->
  lo <= lo1 -> hi1 <= hi -> lo <= lo2 -> hi2 <= hi -> rewrote lo hi out out2.
Proof.
  intros [Hl1 Ho1] [Hl2 Ho2] H1 H2 H3 H4. split; [congruence|].
  intros a b Ha Hab Hor. rewrite Ho2, Ho1 by lia. done.
Qed.

Lemma copy_row_ok out src dst at_ n :
  0 <= n -> 0 <= dst -> dst + n <= Zlen out -> 0 <= at_ -> at_ + n <= Zlen src ->
  exists out', copy_row out src dst at_ n = Ok out' /\ rewrote dst (dst + n) out out' /\
    slice out' dst (dst + n) = slice src at_ (at_ + n).
Proof.
  intros Hn Hd Hdn Ha Han. unfold copy_row. rewrite !index_range_Ok by lia. cbn [mbind outcome_bind]. eexists. split; [done|].
  assert (Zlen (slice src at_ (at_ + n)) = n) as Hl by (rewrite slice_length; lia).
  split; [split|].
  - apply splice_length; lia.
  - intros a b Ha' Hab [Hb|Hb]; [apply slice_splice_before|apply slice_splice_after]; lia.
  - apply slice_splice_same; lia.
Qed.

(** The rows of [p] done so far: both regions of each. *)
Definition rows_done (t : ExpertTensors) (p : Proj) (rank : Z) (out : list Z) (n : Z) : Prop :=
  forall sc i, 0 <= i < n ->
    slice_row out p sc i = slice (r_src t p sc) (r_from p sc rank i) (r_from p sc rank i + r_width p sc).

Lemma build_row_ok t p rank out i :
  well_sized t -> 0 <= rank < EP_RANKS -> 0 <= i < slice_rows p -> Zlen out = QUARTER_SLICE_BYTES ->
  rows_done t p rank out i ->
  exists out', build_row (r_src t p false) (r_src t p true) p rank out (i, row0 p rank + i) = Ok out' /\
    rewrote (r_off p false) (r_end p) out out' /\ rows_done t p rank out' (i + 1).
Proof.
  intros Ht Hr Hi Hlen Hdone.
  destruct (r_layout p) as (H0 & Hp & Hs & Hend).
  pose proof (r_width_pos p false) as Hw. pose proof (r_width_pos p true) as Hw'.
  pose proof (r_from_bounds t p false rank i Ht Hr Hi) as [Hb1 Hb2].
  pose proof (r_from_bounds t p true rank i Ht Hr Hi) as [Hb3 Hb4].
  assert (i * r_width p false + r_width p false <= slice_rows p * r_width p false) as Hle by nia.
  assert (i * r_width p true + r_width p true <= slice_rows p * r_width p true) as Hle' by nia.
  destruct (copy_row_ok out (r_src t p false) (r_off p false + i * r_width p false) (r_from p false rank i)
    (r_width p false)) as (out1 & Hc1 & Hrw1 & Hs1); [nia..|].
  destruct (copy_row_ok out1 (r_src t p true) (r_off p true + i * r_width p true) (r_from p true rank i)
    (r_width p true)) as (out2 & Hc2 & Hrw2 & Hs2); [try rewrite (rw_length _ _ _ _ Hrw1); nia..|].
  exists out2. split.
  { unfold build_row. cbv zeta. unfold r_off, r_width, r_from, r_full, r_col, unit_of in Hc1, Hc2.
    rewrite Hc1. exact Hc2. }
  split.
  { eapply rewrote_trans; [exact Hrw1|exact Hrw2|nia..]. }
  intros sc j Hj. unfold slice_row. destruct (decide (j = i)) as [->|Hne].
  - destruct sc; [exact Hs2|]. rewrite (rw_other _ _ _ _ Hrw2) by nia. exact Hs1.
  - assert (j * r_width p sc + r_width p sc <= i * r_width p sc) as Hji.
    { pose proof (r_width_pos p sc). nia. }
    pose proof (r_width_pos p sc).
    destruct sc.
    + rewrite (rw_other _ _ _ _ Hrw2), (rw_other _ _ _ _ Hrw1) by nia. apply (Hdone true). lia.
    + rewrite (rw_other _ _ _ _ Hrw2), (rw_other _ _ _ _ Hrw1) by nia. apply (Hdone false). lia.
Qed.

Lemma fold_try_fmap {E A B C} (f : C -> B -> outcome E C) (g : A -> B) acc l :
  fold_try f acc (g <$> l) = fold_try (fun acc x => f acc (g x)) acc l.
Proof.
  revert acc. induction l as [|x l IH]; intros acc; [done|]. cbn [fmap list_fmap fold_try].
  destruct (f acc (g x)); cbn; [apply IH|done..].
Qed.

Lemma zip_seqZ a n : 0 <= n -> zip (seqZ 0 n) (seqZ a n) = (fun i => (i, a + i)) <$> seqZ 0 n.
Proof.
  intros Hn. apply list_eq. intros i. rewrite list_lookup_fmap, lookup_zip_with.
  destruct (decide (Z.of_nat i < n)) as [Hi|Hi].
  - rewrite !lookup_seqZ_lt by lia. cbn. done.
  - rewrite !lookup_seqZ_ge by lia. done.
Qed.

Lemma row_indices_ok p rank :
  rank < EP_RANKS -> slice_row_indices (E:=RepackError) p rank = Ok (seqZ (row0 p rank) (slice_rows p)).
Proof. intros Hr. unfold slice_row_indices. by rewrite (proj2 (Z.ltb_lt _ _)) by done. Qed.

Lemma build_proj_ok t p rank out :
  well_sized t -> 0 <= rank < EP_RANKS -> Zlen out = QUARTER_SLICE_BYTES ->
  exists out', build_proj t rank out p = Ok out' /\ rewrote (r_off p false) (r_end p) out out' /\
    rows_done t p rank out' (slice_rows p).
Proof.
  intros Ht Hr Hlen. unfold build_proj. pose proof (slice_rows_pos p) as Hrows.
  destruct (tensors_proj t p) as [w s] eqn:Hts.
  assert (w = r_src t p false /\ s = r_src t p true) as [-> ->] by (unfold r_src; by rewrite Hts).
  pose proof (Ht p false) as Hw. pose proof (Ht p true) as Hs. unfold r_full, unit_of in Hw, Hs.
  rewrite Hw, Hs, !Z.eqb_refl. cbn [negb orb]. rewrite row_indices_ok by lia. cbn [mbind outcome_bind].
  rewrite length_seqZ, Z2Nat.id, zip_seqZ, fold_try_fmap by lia.
  apply (fold_try_inv (fun n out' => rewrote (r_off p false) (r_end p) out out' /\ rows_done t p rank out' n));
    [lia|split; [apply rewrote_refl|intros sc i Hi; lia]|].
  intros i out1 Hi [Hrw Hd]. assert (Zlen out1 = QUARTER_SLICE_BYTES) as Hlen1
    by (by rewrite (rw_length _ _ _ _ Hrw)).
  destruct (build_row_ok t p rank out1 i Ht Hr Hi Hlen1 Hd) as (out2 & Hb & Hrw2 & Hd2).
  exists out2. split; [exact Hb|]. split; [|done]. by eapply rewrote_trans; [exact Hrw|exact Hrw2|..].
Qed.

Lemma rows_done_other t p p' rank out out' n :
  rewrote (r_off p' false) (r_end p') out out' -> r_end p <= r_off p' false \/ r_end p' <= r_off p false ->
  n <= slice_rows p -> rows_done t p rank out n -> rows_done t p rank out' n.
Proof.
  intros Hrw Hdis Hn Hd sc i Hi. rewrite <-(Hd sc i Hi). unfold slice_row.
  destruct (r_layout p) as (H0 & Hp & Hs & Hend).
  pose proof (r_width_pos p false). pose proof (r_width_pos p true).
  assert (i * r_width p sc + r_width p sc <= slice_rows p * r_width p sc) by (destruct sc; nia).
  apply (rw_other _ _ _ _ Hrw); destruct sc; nia.
Qed.

(** What a built slice is. *)
Record built (t : ExpertTensors) (rank : Z) (bytes : list Z) : Prop := {
  bt_length : Zlen bytes = QUARTER_SLICE_BYTES;
  bt_rows : forall p, rows_done t p rank bytes (slice_rows p);
}.

Lemma check_rank_ok rank : rank < EP_RANKS -> check_rank rank = Ok tt.
Proof. intros. unfold check_rank. by rewrite Z.geb_leb, (proj2 (Z.leb_gt _ _)). Qed.

Lemma build_slice_built t rank :
  well_sized t -> 0 <= rank < EP_RANKS ->
  exists bytes, build_slice t rank NONE = Ok bytes /\ built t rank bytes.
Proof.
  intros Ht Hr. unfold build_slice. rewrite check_rank_ok by lia. cbn [mbind outcome_bind].
  assert (forall out0 : list Z, Zlen out0 = QUARTER_SLICE_BYTES ->
    exists bytes, fold_try (build_proj t rank) out0 Proj_ALL = Ok bytes /\ built t rank bytes) as Hfold.
  { intros out0 Hlen. cbn [fold_try Proj_ALL].
    destruct (build_proj_ok t Gate rank out0 Ht Hr Hlen) as (out1 & -> & Hw1 & Hd1). cbn [mbind outcome_bind].
    assert (Zlen out1 = QUARTER_SLICE_BYTES) as Hl1 by (by rewrite (rw_length _ _ _ _ Hw1)).
    destruct (build_proj_ok t Up rank out1 Ht Hr Hl1) as (out2 & -> & Hw2 & Hd2). cbn [mbind outcome_bind].
    assert (Zlen out2 = QUARTER_SLICE_BYTES) as Hl2 by (by rewrite (rw_length _ _ _ _ Hw2)).
    destruct (build_proj_ok t Down rank out2 Ht Hr Hl2) as (out3 & -> & Hw3 & Hd3). cbn [mbind outcome_bind].
    exists out3. split; [done|]. split; [by rewrite (rw_length _ _ _ _ Hw3)|].
    assert (r_end Gate <= r_off Up false /\ r_end Up <= r_off Down false /\ r_end Gate <= r_off Down false)
      as (H1 & H2 & H3) by (vm_compute; repeat split; discriminate).
    intros []; [|by apply (rows_done_other _ _ _ _ _ _ _ Hw3); [left|lia|]|done].
    apply (rows_done_other _ _ _ _ _ _ _ Hw3); [by left|lia|].
    by apply (rows_done_other _ _ _ _ _ _ _ Hw2); [left|lia|]. }
  destruct (Hfold (replicate (Z.to_nat QUARTER_SLICE_BYTES) 0)) as (bytes & -> & Hb).
  { rewrite length_replicate. apply Z2Nat.id. discriminate. }
  exists bytes. split; [|done]. reflexivity.
Qed.

(** * Putting the slices together again *)

(** A region of the expert from the four slices: gate and up rows end to end, down
    rows side by side. *)
Definition merge_region (p : Proj) (sc : bool) (slices : list (list Z)) : list Z :=
  match p with
  | Gate | Up => concat ((fun b => slice b (r_off p sc) (r_off p sc + slice_rows p * r_width p sc)) <$> slices)
  | Down => concat ((fun i => concat ((fun b => slice_row b p sc i) <$> slices)) <$> seqZ 0 (slice_rows p))
  end.

(** The rows of a slice's region are all of it. *)
Lemma region_rows bytes p sc :
  slice bytes (r_off p sc) (r_off p sc + slice_rows p * r_width p sc)
  = concat (slice_row bytes p sc <$> seqZ 0 (slice_rows p)).
Proof.
  destruct (r_layout p) as (H0 & Hp & Hs & Hend). pose proof (r_width_pos p sc). pose proof (slice_rows_pos p).
  pose proof (r_width_pos p false).
  symmetry. unfold slice_row. apply concat_slices; destruct sc; nia.
Qed.

(** Four adjacent ranges. *)
Lemma slice_four {A} (l : list A) a n :
  0 <= a -> 0 <= n ->
  slice l a (a + n) ++ slice l (a + n) (a + 2 * n) ++ slice l (a + 2 * n) (a + 3 * n)
    ++ slice l (a + 3 * n) (a + 4 * n) = slice l a (a + 4 * n).
Proof.
  intros Ha Hn. rewrite (slice_split l a (a + n) (a + 4 * n)) by lia.
  rewrite (slice_split l (a + n) (a + 2 * n) (a + 4 * n)) by lia.
  by rewrite (slice_split l (a + 2 * n) (a + 3 * n) (a + 4 * n)) by lia.
Qed.

(** A gate or up region of one rank: consecutive rows of the expert. *)
Lemma gate_region t p sc rank b :
  p <> Down -> well_sized t -> 0 <= rank < EP_RANKS -> built t rank b ->
  slice b (r_off p sc) (r_off p sc + slice_rows p * r_width p sc)
  = slice (r_src t p sc) (rank * (slice_rows p * r_full p sc)) ((rank + 1) * (slice_rows p * r_full p sc)).
Proof.
  intros Hp Ht Hr Hb. pose proof (slice_rows_pos p). pose proof (r_width_pos p sc).
  assert (r_width p sc = r_full p sc) as Hwf by (by destruct p, sc).
  rewrite region_rows. replace ((rank + 1) * (slice_rows p * r_full p sc))
    with (rank * (slice_rows p * r_full p sc) + slice_rows p * r_full p sc) by lia.
  rewrite <-concat_slices by nia. f_equal. apply list_fmap_ext. intros j i Hi. apply lookup_seqZ in Hi as [-> Hi].
  rewrite (bt_rows _ _ _ Hb) by lia. unfold r_from. rewrite r_col_eq, Hwf.
  destruct p; [| |done]; cbn [row0]; f_equal; lia.
Qed.

(** A row of the down region: the ranks' columns side by side. *)
Lemma down_row t sc rank b i :
  well_sized t -> 0 <= rank < EP_RANKS -> built t rank b -> 0 <= i < slice_rows Down ->
  slice_row b Down sc i = slice (r_src t Down sc) (i * r_full Down sc + rank * r_width Down sc)
                            (i * r_full Down sc + (rank + 1) * r_width Down sc).
Proof.
  intros Ht Hr Hb Hi. rewrite (bt_rows _ _ _ Hb) by lia. unfold r_from. rewrite r_col_eq.
  cbn [row0]. f_equal; lia.
Qed.

Lemma merge_built t p sc b0 b1 b2 b3 :
  well_sized t -> built t 0 b0 -> built t 1 b1 -> built t 2 b2 -> built t 3 b3 ->
  merge_region p sc [b0; b1; b2; b3] = r_src t p sc.
Proof.
  intros Ht H0 H1 H2 H3. pose proof (r_width_pos p sc) as Hw. pose proof (slice_rows_pos p) as Hrows.
  rewrite <-(slice_all (r_src t p sc)), Ht.
  destruct (decide (p = Down)) as [->|Hp].
  - cbn [merge_region]. replace (out_rows Down) with (slice_rows Down) by done.
    assert (r_full Down sc = 4 * r_width Down sc) as Hf by (by destruct sc).
    rewrite <-(Z.add_0_l (slice_rows Down * _)), <-concat_slices by lia. f_equal.
    apply list_fmap_ext. intros j i Hi. apply lookup_seqZ in Hi as [-> Hi].
    cbn [fmap list_fmap concat]. rewrite app_nil_r.
    rewrite (down_row t sc 0 b0), (down_row t sc 1 b1), (down_row t sc 2 b2), (down_row t sc 3 b3) by (done || (constants; lia)).
    pose proof (slice_four (r_src t Down sc) ((0 + Z.of_nat j) * r_full Down sc) (r_width Down sc)) as H4.
    etransitivity; [etransitivity; [|apply H4; lia]|]; clear H4; rewrite Hf; repeat f_equal; lia.
  - assert (out_rows p = 4 * slice_rows p) as Hout by (by destruct p).
    assert (merge_region p sc [b0; b1; b2; b3]
      = concat ((fun b => slice b (r_off p sc) (r_off p sc + slice_rows p * r_width p sc)) <$> [b0; b1; b2; b3]))
      as -> by (by destruct p).
    cbn [fmap list_fmap concat]. rewrite app_nil_r.
    rewrite (gate_region t p sc 0 b0), (gate_region t p sc 1 b1), (gate_region t p sc 2 b2),
      (gate_region t p sc 3 b3) by (done || (constants; lia)).
    assert (0 < r_full p sc) as Hfull by (by destruct p, sc).
    pose proof (slice_four (r_src t p sc) 0 (slice_rows p * r_full p sc)) as H4.
    rewrite Hout. replace (4 * slice_rows p * r_full p sc) with (0 + 4 * (slice_rows p * r_full p sc)) by lia.
    rewrite <-H4 by nia. clear H4. repeat f_equal; lia.
Qed.

(** C35: The repack is a permutation.  For an expert whose tensors have the sizes of the
    checkpoint's geometry, the four ranks' quarter slices are built, each of the pinned
    size, and putting their regions together again (gate and up rows end to end, down
    rows side by side) gives back every byte of the six tensors. *)
Theorem repack_is_a_permutation t :
  well_sized t ->
  exists slices, mapM (fun rank => build_slice t rank NONE) [0; 1; 2; 3] = Ok slices /\
    Forall (fun b => Zlen b = QUARTER_SLICE_BYTES) slices /\
    (forall p sc, merge_region p sc slices = r_src t p sc).
Proof.
  intros Ht.
  destruct (build_slice_built t 0 Ht) as (b0 & H0 & B0); [constants; lia|].
  destruct (build_slice_built t 1 Ht) as (b1 & H1 & B1); [constants; lia|].
  destruct (build_slice_built t 2 Ht) as (b2 & H2 & B2); [constants; lia|].
  destruct (build_slice_built t 3 Ht) as (b3 & H3 & B3); [constants; lia|].
  exists [b0; b1; b2; b3]. split_and!.
  - apply mapM_Ok_iff. by repeat constructor.
  - repeat constructor; by eapply bt_length.
  - intros p sc. by apply (merge_built t).
Qed.

(** * Dequantizing a slice *)

Lemma idx_slice {E A} (l : list A) a b j :
  0 <= a -> b <= Zlen l -> 0 <= j < b - a -> idx (E:=E) (slice l a b) j = idx l (a + j).
Proof.
  intros Ha Hb Hj. unfold idx. rewrite !(proj2 (Z.ltb_ge _ _)) by lia. unfold slice.
  rewrite lookup_take_lt, lookup_drop by lia. by replace (Z.to_nat (a + j)) with (Z.to_nat a + Z.to_nat j)%nat by lia.
Qed.

Lemma idx_Ok {E A} (l : list A) j : 0 <= j < Zlen l -> exists x, idx (E:=E) l j = Ok x.
Proof.
  intros Hj. destruct (lookup_lt_is_Some_2 l (Z.to_nat j)) as [x Hx]; [lia|]. exists x. apply idx_Some; [lia|done].
Qed.

Lemma decode_byte_Ok {E} byte naive : exists a b, decode_byte (E:=E) byte naive = Ok [a; b].
Proof.
  unfold decode_byte.
  assert (forall x, exists v, idx (E:=E) E2M1_CODEBOOK (Z.land x 0x0f) = Ok v) as Hidx.
  { intros x. apply idx_Ok. change 0x0f with (Z.ones 4). rewrite Z.land_ones by lia.
    change (Zlen E2M1_CODEBOOK) with 16. apply Z.mod_pos_bound. lia. }
  destruct (Hidx byte) as [lo ->]. destruct (Hidx (Z.shiftr byte 4)) as [hi ->]. cbn [mbind outcome_bind].
  destruct (naive_has naive NIBBLE_SWAP); eauto.
Qed.

Section unpack.
Context {E : Type} (naive : Mxfp4Naive) (no_shift : naive_has naive SCALE_OFF_BY_ONE = false).

Lemma unpack_at_Ok (packed scales : list Z) k :
  0 <= k -> k / 2 < Zlen packed -> k / BLOCK < Zlen scales -> exists v, unpack_at (E:=E) packed scales naive k = Ok v.
Proof.
  intros Hk Hp Hs. unfold unpack_at. destruct (idx_Ok (E:=E) packed (k / 2)) as [byte ->].
  { split; [apply Z.div_pos; lia|done]. }
  cbn [mbind outcome_bind]. destruct (decode_byte_Ok (E:=E) byte naive) as (a & b & ->). cbn [mbind outcome_bind].
  pose proof (Z.mod_pos_bound k 2).
  destruct (idx_Ok (E:=E) [a; b] (k mod 2)) as [x ->]; [cbn; lia|]. cbn [mbind outcome_bind]. cbv zeta.
  rewrite no_shift. destruct (idx_Ok (E:=E) scales (k / BLOCK)) as [s ->]; [|cbn; eauto].
  split; [apply Z.div_pos; [done|done]|done].
Qed.

(** A rectangle aligned to scale blocks decodes as in place. *)
Lemma unpack_at_slice (packed scales : list Z) q h w k :
  0 <= q -> 2 * h = BLOCK * w -> 0 <= k < 2 * h -> 16 * q + h <= Zlen packed -> q + w <= Zlen scales ->
  unpack_at (E:=E) (slice packed (16 * q) (16 * q + h)) (slice scales q (q + w)) naive k
  = unpack_at packed scales naive (BLOCK * q + k).
Proof.
  intros Hq Hh Hk Hp Hs. unfold unpack_at, BLOCK in *.
  assert ((32 * q + k) / 2 = 16 * q + k / 2) as -> by (rewrite <-Z.div_add_l by lia; f_equal; lia).
  assert ((32 * q + k) mod 2 = k mod 2) as ->.
  { replace (32 * q + k) with (k + 16 * q * 2) by lia. apply Z.mod_add. lia. }
  assert ((32 * q + k) / 32 = q + k / 32) as -> by (rewrite <-Z.div_add_l by lia; f_equal; lia).
  assert (0 <= k / 2 < h) by (split; [apply Z.div_pos; lia|apply Z.div_lt_upper_bound; lia]).
  assert (0 <= k / 32 < w) by (split; [apply Z.div_pos; lia|apply Z.div_lt_upper_bound; lia]).
  rewrite no_shift, !idx_slice by lia. done.
Qed.

Lemma unpack_row_Ok (packed scales : list Z) :
  Zlen packed * 2 <= Zlen scales * BLOCK ->
  exists row, unpack_row (E:=E) packed scales naive = Ok row /\ Zlen row = Zlen packed * 2.
Proof.
  intros Hle. unfold unpack_row.
  assert (forall k, k ∈ seqZ 0 (Zlen packed * 2) ->
    unpack_at (E:=E) packed scales naive k
    = Ok match unpack_at (E:=E) packed scales naive k with Ok v => v | _ => S754_nan end) as Hall.
  { intros k [Hk0 Hk]%elem_of_seqZ. destruct (unpack_at_Ok packed scales k) as [v ->]; [lia| | |done].
    - apply Z.div_lt_upper_bound; lia.
    - unfold BLOCK in *. apply Z.div_lt_upper_bound; lia. }
  eexists. split; [apply (mapM_Ok_fmap _ (fun k => match unpack_at (E:=E) packed scales naive k with Ok v => v | _ => S754_nan end)); exact Hall|]. rewrite length_fmap, length_seqZ. lia.
Qed.

Lemma mapM_seqZ_slice {A} (f : Z -> outcome E A) N r c n :
  mapM f (seqZ 0 N) = Ok r -> 0 <= c -> 0 <= n -> c + n <= N -> mapM f (seqZ c n) = Ok (slice r c (c + n)).
Proof.
  intros Hr Hc Hn HN. pose proof (mapM_Ok_length _ _ _ Hr) as Hlen. rewrite length_seqZ in Hlen.
  apply mapM_Ok_iff in Hr. apply mapM_Ok_iff, Forall2_same_length_lookup_2.
  { rewrite length_seqZ. apply Nat2Z.inj. rewrite slice_length by lia. lia. }
  intros i x y Hx Hy. apply lookup_seqZ in Hx as [-> Hi].
  unfold slice in Hy. apply lookup_take_Some in Hy as [Hy _]. rewrite lookup_drop in Hy.
  refine (Forall2_lookup_lr _ _ _ (Z.to_nat c + i)%nat _ _ Hr _ Hy).
  rewrite lookup_seqZ_lt by lia. f_equal. lia.
Qed.

Lemma unpack_row_slice (packed scales : list Z) row q h w :
  unpack_row (E:=E) packed scales naive = Ok row ->
  0 <= q -> 0 <= h -> 2 * h = BLOCK * w -> 16 * q + h <= Zlen packed -> q + w <= Zlen scales ->
  unpack_row (E:=E) (slice packed (16 * q) (16 * q + h)) (slice scales q (q + w)) naive
  = Ok (slice row (BLOCK * q) (BLOCK * q + 2 * h)).
Proof.
  intros Hrow Hq Hh Hw Hp Hs. unfold unpack_row in *. unfold BLOCK in *.
  rewrite slice_length by lia. replace ((16 * q + h - 16 * q) * 2) with (2 * h) by lia.
  rewrite <-(mapM_seqZ_slice _ _ _ (32 * q) (2 * h) Hrow) by lia.
  assert (seqZ (32 * q) (2 * h) = Z.add (32 * q) <$> seqZ 0 (2 * h)) as ->.
  { rewrite fmap_add_seqZ. f_equal. lia. }
  assert (forall A (g : Z -> outcome E A) l, mapM g (Z.add (32 * q) <$> l) = mapM (fun k => g (32 * q + k)) l) as ->.
  { intros A g. induction l as [|x l IH]; [done|]. cbn. by rewrite IH. }
  apply mapM_ext_elem. intros k [Hk0 Hk]%elem_of_seqZ. apply unpack_at_slice; unfold BLOCK; lia.
Qed.
End unpack.

Lemma full_rows t p naive :
  well_sized t -> naive_has naive SCALE_OFF_BY_ONE = false ->
  exists rows, expert_to_f32 t p naive = Ok (concat rows) /\ Zlen rows = out_rows p /\
    Forall (fun row => Zlen row = in_cols p) rows /\
    forall r row, rows !! r = Some row ->
      unpack_row (E:=RepackError) (slice (r_src t p false) (Z.of_nat r * r_full p false) ((Z.of_nat r + 1) * r_full p false))
        (slice (r_src t p true) (Z.of_nat r * r_full p true) ((Z.of_nat r + 1) * r_full p true)) naive = Ok row.
Proof.
  intros Ht Hn. pose proof (Ht p false) as Hw. pose proof (Ht p true) as Hs.
  assert (0 < r_full p false /\ 0 < r_full p true /\ r_full p false * 2 = r_full p true * BLOCK /\
    in_cols p = r_full p false * 2 /\ 0 <= out_rows p) as (Hf & Hf' & Hfb & Hin & Hout) by (by destruct p).
  set (row_at r := unpack_row (E:=RepackError)
    (slice (r_src t p false) (r * r_full p false) ((r + 1) * r_full p false))
    (slice (r_src t p true) (r * r_full p true) ((r + 1) * r_full p true)) naive).
  assert (forall r, 0 <= r < out_rows p -> exists row, row_at r = Ok row /\ Zlen row = in_cols p) as Hrow.
  { intros r Hr. assert (r * r_full p false + r_full p false <= out_rows p * r_full p false /\
      r * r_full p true + r_full p true <= out_rows p * r_full p true /\
      0 <= r * r_full p false /\ 0 <= r * r_full p true) as (H1 & H2 & H3 & H4) by nia.
    destruct (unpack_row_Ok (E:=RepackError) naive Hn
      (slice (r_src t p false) (r * r_full p false) ((r + 1) * r_full p false))
      (slice (r_src t p true) (r * r_full p true) ((r + 1) * r_full p true))) as (row & Hr1 & Hr2).
    - rewrite !slice_length by lia. lia.
    - exists row. split; [done|]. rewrite Hr2, slice_length by lia. lia. }
  assert (exists rows, mapM row_at (seqZ 0 (out_rows p)) = Ok rows) as [rows Hrows].
  { eexists. apply (mapM_Ok_fmap _ (fun r => match row_at r with Ok row => row | _ => [] end)).
    intros r [Hr0 Hr]%elem_of_seqZ. destruct (Hrow r) as (row & -> & _); [lia|done]. }
  assert (expert_to_f32 t p naive = Ok (concat rows)) as Hfull.
  { unfold expert_to_f32. destruct (tensors_proj t p) as [w s] eqn:Hts.
    assert (w = r_src t p false /\ s = r_src t p true) as [-> ->] by (unfold r_src; by rewrite Hts).
    unfold unpack_matrix. cbv zeta.
    rewrite (mapM_ext_elem _ row_at); [by rewrite Hrows|].
    intros r [Hr0 Hr]%elem_of_seqZ. change (in_cols p / 2) with (r_full p false).
    change (in_cols p / BLOCK) with (r_full p true).
    rewrite !index_range_Ok by nia. done. }
  exists rows. split; [done|]. pose proof (mapM_Ok_length _ _ _ Hrows) as Hlen. rewrite length_seqZ in Hlen.
  split; [lia|]. split.
  - apply Forall_lookup_2. intros i row Hi. destruct (mapM_Ok_lookup _ _ _ _ _ Hrows Hi) as (r & Hr & Hra).
    apply lookup_seqZ in Hr as [-> Hr]. destruct (Hrow (0 + Z.of_nat i)) as (row' & Hr1 & Hr2); [lia|]. congruence.
  - intros r row Hi. destruct (mapM_Ok_lookup _ _ _ _ _ Hrows Hi) as (r' & Hr & Hra).
    apply lookup_seqZ in Hr as [-> Hr]. by rewrite Z.add_0_l in Hra.
Qed.

(** Row [i] of a rank's slice dequantizes to its columns of the expert's row. *)
Lemma slice_row_value t p rank bytes naive (rows : list (list spec_float)) i row :
  well_sized t -> naive_has naive SCALE_OFF_BY_ONE = false -> 0 <= rank < EP_RANKS -> built t rank bytes ->
  0 <= i < slice_rows p -> rows !! Z.to_nat (row0 p rank + i) = Some row ->
  (forall r row, rows !! r = Some row ->
      unpack_row (E:=RepackError) (slice (r_src t p false) (Z.of_nat r * r_full p false) ((Z.of_nat r + 1) * r_full p false))
        (slice (r_src t p true) (Z.of_nat r * r_full p true) ((Z.of_nat r + 1) * r_full p true)) naive = Ok row) ->
  unpack_row (E:=RepackError) (slice_row bytes p false i) (slice_row bytes p true i) naive
  = Ok (slice row (slice_col_start p rank) (slice_col_start p rank + slice_in_cols p)).
Proof.
  intros Ht Hn Hr Hb Hi Hlook Hrows. rewrite !(bt_rows _ _ _ Hb) by done.
  assert (0 <= row0 p rank + i < out_rows p) as Hri by (destruct p; cbn [row0]; constants; lia).
  specialize (Hrows _ _ Hlook). rewrite Z2Nat.id in Hrows by lia. set (r := row0 p rank + i) in *.
  set (q := slice_col_start p rank / 32).
  assert (0 <= q /\ 16 * q + r_width p false <= r_full p false /\ q + r_width p true <= r_full p true /\
    2 * r_width p false = BLOCK * r_width p true /\ slice_col_start p rank = BLOCK * q /\
    slice_in_cols p = 2 * r_width p false /\ r_col p false rank = 16 * q /\ r_col p true rank = q)
    as (Hq & Hp & Hs & Hw & Hc & Hin & Hc1 & Hc2).
  { unfold q. destruct p; [by vm_compute|by vm_compute|].
    assert (slice_col_start Down rank = rank * 512) as Hsc by done.
    rewrite !r_col_eq, Hsc. replace (rank * 512) with (rank * 16 * 32) by lia. rewrite Z.div_mul by done.
    assert (slice_in_cols Down = 512 /\ BLOCK = 32) as [-> ->] by done. constants. lia. }
  pose proof (Ht p false) as Hlw. pose proof (Ht p true) as Hls. unfold r_from. fold r.
  pose proof (r_width_pos p false). pose proof (r_width_pos p true).
  assert (r * r_full p false + r_full p false <= out_rows p * r_full p false /\
    r * r_full p true + r_full p true <= out_rows p * r_full p true /\
    0 <= r * r_full p false /\ 0 <= r * r_full p true) as (H1 & H2 & H3 & H4) by nia.
  pose proof (unpack_row_slice naive Hn _ _ _ q (r_width p false) (r_width p true) Hrows) as Hsub.
  rewrite !slice_length in Hsub by lia. rewrite !slice_slice in Hsub by lia.
  rewrite Hc, Hin, Hc1, Hc2, !Z.add_assoc in *. apply Hsub; lia.
Qed.

(** The rank's columns of row [i] of its part of the expert. *)
Definition rank_cut (p : Proj) (rank : Z) (rows : list (list spec_float)) (i : Z) : list spec_float :=
  slice (default [] (rows !! Z.to_nat (row0 p rank + i))) (slice_col_start p rank)
    (slice_col_start p rank + slice_in_cols p).

Lemma rank_rows p rank (rows : list (list spec_float)) i :
  0 <= rank < EP_RANKS -> Zlen rows = out_rows p -> Forall (fun row => Zlen row = in_cols p) rows ->
  0 <= i < slice_rows p ->
  0 <= row0 p rank + i < out_rows p /\
  exists row, rows !! Z.to_nat (row0 p rank + i) = Some row /\ Zlen row = in_cols p.
Proof.
  intros Hr Hlen Hcols Hi.
  assert (0 <= row0 p rank + i < out_rows p) as Hri by (destruct p; cbn [row0]; constants; lia).
  split; [done|]. destruct (lookup_lt_is_Some_2 rows (Z.to_nat (row0 p rank + i))) as [row Hl]; [lia|].
  exists row. split; [done|]. by apply (Forall_lookup_1 _ _ _ _ Hcols Hl).
Qed.

Lemma rank_cols p rank :
  0 <= rank < EP_RANKS ->
  0 <= slice_col_start p rank /\ slice_col_start p rank + slice_in_cols p <= in_cols p /\
  slice_in_cols p = 2 * r_width p false /\ 0 <= slice_in_cols p.
Proof.
  intros Hr. destruct p; [by vm_compute|by vm_compute|].
  change (slice_col_start Down rank) with (rank * 512). change (slice_in_cols Down) with 512.
  change (in_cols Down) with 2048. constants. lia.
Qed.

(** Both paths cut the same rows. *)
Lemma slice_side t rank naive p bytes rows :
  well_sized t -> 0 <= rank < EP_RANKS -> naive_has naive SCALE_OFF_BY_ONE = false -> built t rank bytes ->
  Zlen rows = out_rows p -> Forall (fun row => Zlen row = in_cols p) rows ->
  (forall r row, rows !! r = Some row ->
      unpack_row (E:=RepackError) (slice (r_src t p false) (Z.of_nat r * r_full p false) ((Z.of_nat r + 1) * r_full p false))
        (slice (r_src t p true) (Z.of_nat r * r_full p true) ((Z.of_nat r + 1) * r_full p true)) naive = Ok row) ->
  slice_to_f32 bytes p naive = Ok (concat (rank_cut p rank rows <$> seqZ 0 (slice_rows p))).
Proof.
  intros Ht Hr Hn Hb Hlen Hcols Hrows. pose proof (slice_rows_pos p) as Hsr.
  destruct (rank_cols p rank Hr) as (Hc0 & Hc1 & Hcw & Hic).
  unfold slice_to_f32, slice_proj. rewrite (bt_length _ _ _ Hb), Z.eqb_refl. cbn [negb].
  destruct (r_layout p) as (H0 & Hp & Hs & Hend). pose proof (r_width_pos p false). pose proof (r_width_pos p true).
  change (slice_payload_off p) with (r_off p false). change (slice_scale_off p) with (r_off p true).
  assert (slice_payload_bytes p = slice_rows p * r_width p false /\ slice_scale_bytes p = slice_rows p * r_width p true)
    as [-> ->] by (by destruct p).
  rewrite !index_range_Ok by (rewrite ?(bt_length _ _ _ Hb); nia). cbn [mbind outcome_bind].
  rewrite (mapM_Ok_fmap _ (rank_cut p rank rows)); [done|]. intros i [Hi0 Hi]%elem_of_seqZ.
  change (slice_in_cols p / 2) with (r_width p false). change (slice_in_cols p / 32) with (r_width p true).
  assert (i * r_width p false + r_width p false <= slice_rows p * r_width p false) by nia.
  assert (i * r_width p true + r_width p true <= slice_rows p * r_width p true) by nia.
  rewrite !index_range_Ok by (rewrite ?slice_length; rewrite ?(bt_length _ _ _ Hb); nia).
  cbn [mbind outcome_bind]. rewrite !slice_slice by nia.
  replace ((i + 1) * r_width p false) with (i * r_width p false + r_width p false) by lia.
  replace ((i + 1) * r_width p true) with (i * r_width p true + r_width p true) by lia.
  rewrite !Z.add_assoc. destruct (rank_rows p rank rows i Hr Hlen Hcols) as (_ & row & Hl & Hlr); [lia|].
  pose proof (slice_row_value t p rank bytes naive rows i row Ht Hn Hr Hb ltac:(lia) Hl Hrows) as Hv.
  unfold slice_row in Hv. rewrite Hv. cbn [mbind outcome_bind]. unfold rank_cut. rewrite Hl. cbn [default id].
  rewrite slice_length by lia. by rewrite Z.add_simpl_l, Z.eqb_refl.
Qed.

Lemma expert_side rank p rows :
  0 <= rank < EP_RANKS -> Zlen rows = out_rows p -> Forall (fun row => Zlen row = in_cols p) rows ->
  slice_rows_of_full (concat rows) p rank = Ok (concat (rank_cut p rank rows <$> seqZ 0 (slice_rows p))).
Proof.
  intros Hr Hlen Hcols. destruct (rank_cols p rank Hr) as (Hc0 & Hc1 & Hcw & Hic).
  unfold slice_rows_of_full. rewrite row_indices_ok by lia. cbn [mbind outcome_bind].
  assert (seqZ (row0 p rank) (slice_rows p) = Z.add (row0 p rank) <$> seqZ 0 (slice_rows p)) as ->.
  { rewrite fmap_add_seqZ. f_equal. lia. }
  rewrite (mapM_Ok_fmap _ (fun r => rank_cut p rank rows (r - row0 p rank))).
  - cbn [mbind outcome_bind]. rewrite <-list_fmap_compose. do 2 f_equal. apply list_fmap_ext. intros j i _.
    unfold compose. f_equal. lia.
  - intros r (i & -> & [Hi0 Hi]%elem_of_seqZ)%list_elem_of_fmap.
    destruct (rank_rows p rank rows i Hr Hlen Hcols) as (Hri & row & Hl & Hlr); [lia|].
    rewrite Z.add_simpl_l. unfold rank_cut. rewrite Hl. cbn [default id].
    destruct (slice_concat_uniform rows (in_cols p) [] [] (Z.to_nat (row0 p rank + i)) row
      ((row0 p rank + i) * in_cols p) ((row0 p rank + i) * in_cols p + in_cols p) Hcols Hl) as [Hsl Hle];
      [cbn [length]; rewrite Z2Nat.id by lia; lia|done|]. cbn [app] in Hsl, Hle. rewrite app_nil_r in Hsl, Hle.
    assert (0 <= (row0 p rank + i) * in_cols p) by nia.
    rewrite index_range_Ok by lia. rewrite <-Hsl. rewrite slice_slice by lia. f_equal. f_equal; lia.
Qed.

(** A slice means what the expert means there.  Dequantizing a rank's quarter
    slice gives, value for value, the rectangle that [slice_rows_of_full] cuts for
    this rank out of the dequantized expert, under every reading of the codes that
    keeps the scales in place; no step of either path fails. *)
Theorem slices_dequantize_in_place t rank naive p :
  well_sized t -> 0 <= rank < EP_RANKS -> naive_has naive SCALE_OFF_BY_ONE = false ->
  exists bytes full values, build_slice t rank NONE = Ok bytes /\ expert_to_f32 t p naive = Ok full /\
    slice_to_f32 bytes p naive = Ok values /\ slice_rows_of_full full p rank = Ok values /\
    Zlen values = slice_rows p * slice_in_cols p.
Proof.
  intros Ht Hr Hn. destruct (build_slice_built t rank Ht Hr) as (bytes & Hbytes & Hb).
  destruct (full_rows t p naive Ht Hn) as (rows & Hfull & Hlen & Hcols & Hrows).
  exists bytes, (concat rows), (concat (rank_cut p rank rows <$> seqZ 0 (slice_rows p))).
  split_and!; [done|done|by eapply slice_side|by apply expert_side|].
  destruct (rank_cols p rank Hr) as (Hc0 & Hc1 & Hcw & Hic). pose proof (slice_rows_pos p) as Hsr.
  assert (Forall (fun l => Zlen l = slice_in_cols p) (rank_cut p rank rows <$> seqZ 0 (slice_rows p))) as Hall.
  { apply Forall_fmap, Forall_forall. intros i [Hi0 Hi]%elem_of_seqZ. unfold compose, rank_cut.
    destruct (rank_rows p rank rows i Hr Hlen Hcols) as (_ & row & Hl & Hlr); [lia|].
    rewrite Hl. cbn [default id]. rewrite slice_length; lia. }
  rewrite (concat_uniform_length _ _ Hall), length_fmap, length_seqZ. lia.
Qed.

(** * An expert of zeros *)

Definition zero_region (p : Proj) (sc : bool) : list Z := replicate (Z.to_nat (out_rows p * r_full p sc)) 0.
Definition zero_expert : ExpertTensors :=
  mkExpertTensors (zero_region Gate false) (zero_region Gate true) (zero_region Up false) (zero_region Up true)
    (zero_region Down false) (zero_region Down true).

Lemma zero_expert_sized : well_sized zero_expert.
Proof.
  intros p sc. assert (r_src zero_expert p sc = zero_region p sc) as -> by (destruct p, sc; reflexivity).
  unfold zero_region. rewrite length_replicate. apply Z2Nat.id. destruct p, sc; discriminate.
Qed.

Lemma repack_is_a_permutation_witness :
  exists slices, mapM (fun rank => build_slice zero_expert rank NONE) [0; 1; 2; 3] = Ok slices.
Proof.
  destruct (repack_is_a_permutation zero_expert zero_expert_sized) as (slices & Hs & _). exists slices. exact Hs.
Defined.

Lemma slices_dequantize_in_place_witness :
  exists bytes values, build_slice zero_expert 3 NONE = Ok bytes /\ slice_to_f32 bytes Down NONE = Ok values.
Proof.
  destruct (slices_dequantize_in_place zero_expert 3 NONE Down zero_expert_sized) as (b & f & v & Hb & _ & Hv & _).
  - split; [discriminate|reflexivity].
  - reflexivity.
  - exists b, v. split; [exact Hb|exact Hv].
Defined.
