(* ===== verification/Utf8.v ===== *)
(** UTF-8: Rust's [char]s as Unicode scalar values, [String]s as lists of them, their
    bytes, and [String::from_utf8]. *)
From Stdlib Require Import ZArith Lia Bool.
From stdpp Require Import base list gmap strings.
From S2P Require Import Prelude.

(** Byte literals and string literals. *)
Definition asc (a : Ascii.ascii) : Z := Z.of_N (Ascii.N_of_ascii a).
Definition str (s : string) : list Z := asc <$> String.list_ascii_of_string s.

Definition scalar (c : Z) : Prop := 0 <= c < 0xD800 \/ 0xE000 <= c < 0x110000.

#[export] Instance scalar_dec c : Decision (scalar c).
Proof. unfold scalar. solve_decision. Defined.

(** [char::from_u32] *)
Definition char_from_u32 (c : Z) : option Z := if decide (scalar c) then Some c else None.

Definition utf8_char (c : Z) : list Z :=
  if c <? 0x80 then [c]
  else if c <? 0x800 then [0xC0 + c / 64; 0x80 + c mod 64]
  else if c <? 0x10000 then [0xE0 + c / 4096; 0x80 + c / 64 mod 64; 0x80 + c mod 64]
  else [0xF0 + c / 262144; 0x80 + c / 4096 mod 64; 0x80 + c / 64 mod 64; 0x80 + c mod 64].

Definition utf8 (s : list Z) : list Z := concat (utf8_char <$> s).

Definition between (lo hi b : Z) : bool := (lo <=? b) && (b <=? hi).
Definition continuation (b : Z) : bool := between 0x80 0xBF b.

(** The well-formed sequences: no overlong form, no surrogate, nothing past 0x10FFFF. *)
Fixpoint from_utf8 (l : list Z) : option (list Z) :=
  match l with
  | [] => Some []
  | b0 :: l =>
    if between 0 0x7F b0 then cons b0 <$> from_utf8 l
    else if between 0xC2 0xDF b0 then
      match l with
      | b1 :: l =>
        if continuation b1 then cons ((b0 - 0xC0) * 64 + (b1 - 0x80)) <$> from_utf8 l else None
      | _ => None
      end
    else if between 0xE0 0xEF b0 then
      match l with
      | b1 :: b2 :: l =>
        if between (if b0 =? 0xE0 then 0xA0 else 0x80) (if b0 =? 0xED then 0x9F else 0xBF) b1 && continuation b2
        then cons ((b0 - 0xE0) * 4096 + (b1 - 0x80) * 64 + (b2 - 0x80)) <$> from_utf8 l else None
      | _ => None
      end
    else if between 0xF0 0xF4 b0 then
      match l with
      | b1 :: b2 :: b3 :: l =>
        if between (if b0 =? 0xF0 then 0x90 else 0x80) (if b0 =? 0xF4 then 0x8F else 0xBF) b1
           && continuation b2 && continuation b3
        then cons ((b0 - 0xF0) * 262144 + (b1 - 0x80) * 4096 + (b2 - 0x80) * 64 + (b3 - 0x80)) <$> from_utf8 l
        else None
      | _ => None
      end
    else None
  end.

Lemma utf8_cons c s : utf8 (c :: s) = utf8_char c ++ utf8 s.
Proof. done. Qed.

Lemma utf8_app s t : utf8 (s ++ t) = utf8 s ++ utf8 t.
Proof. unfold utf8. by rewrite fmap_app, concat_app. Qed.

Lemma utf8_ascii s : Forall (fun c => c < 0x80) s -> utf8 s = s.
Proof.
  induction 1 as [|c s Hc Hs IH]; [done|]. rewrite utf8_cons, IH. unfold utf8_char.
  by rewrite (proj2 (Z.ltb_lt _ _)).
Qed.

Lemma between_true lo hi b : lo <= b <= hi -> between lo hi b = true.
Proof. intros. unfold between. by rewrite !(proj2 (Z.leb_le _ _)) by lia. Qed.

Lemma between_false lo hi b : b < lo \/ hi < b -> between lo hi b = false.
Proof.
  intros H. unfold between. apply andb_false_iff. rewrite !Z.leb_gt. lia.
Qed.

Lemma mod64 x : 0 <= x mod 64 < 64.
Proof. apply Z.mod_pos_bound. lia. Qed.

(** Decoding one encoded character. *)
Lemma from_utf8_char c l : scalar c -> from_utf8 (utf8_char c ++ l) = cons c <$> from_utf8 l.
Proof.
  intros Hc. unfold scalar in Hc. unfold utf8_char.
  pose proof (mod64 c) as M0. pose proof (mod64 (c / 64)) as M1. pose proof (mod64 (c / 4096)) as M2.
  pose proof (Z.div_mod c 64) as D0. pose proof (Z.div_mod (c / 64) 64) as D1.
  pose proof (Z.div_mod (c / 4096) 64) as D2.
  rewrite !Z.div_div in D1, D2 by lia. change (64 * 64) with 4096 in D1. change (4096 * 64) with 262144 in D2.
  destruct (Z.ltb_spec c 0x80) as [H1|H1].
  { cbn [app from_utf8]. by rewrite between_true by lia. }
  destruct (Z.ltb_spec c 0x800) as [H2|H2].
  { cbn [app from_utf8]. rewrite between_false, (between_true 0xC2 0xDF) by lia. unfold continuation.
    rewrite between_true by lia. f_equal. f_equal. lia. }
  destruct (Z.ltb_spec c 0x10000) as [H3|H3]; cbn [app from_utf8]; unfold continuation.
  - rewrite between_false, between_false, (between_true 0xE0 0xEF) by lia.
    rewrite between_true by (destruct (Z.eqb_spec (0xE0 + c / 4096) 0xE0), (Z.eqb_spec (0xE0 + c / 4096) 0xED); lia).
    rewrite between_true by lia. cbn [andb]. f_equal. f_equal. lia.
  - rewrite between_false, between_false, between_false, (between_true 0xF0 0xF4) by lia.
    rewrite between_true by (destruct (Z.eqb_spec (0xF0 + c / 262144) 0xF0), (Z.eqb_spec (0xF0 + c / 262144) 0xF4); lia).
    rewrite !between_true by lia. cbn [andb]. f_equal. f_equal. lia.
Qed.

Lemma from_utf8_utf8 s : Forall scalar s -> from_utf8 (utf8 s) = Some s.
Proof.
  induction 1 as [|c s Hc Hs IH]; [done|]. by rewrite utf8_cons, from_utf8_char, IH by done.
Qed.

(** Past ASCII, every byte of a character is past ASCII. *)
Lemma utf8_char_high c : 0x80 <= c < 0x110000 -> Forall (fun b => 0x80 <= b) (utf8_char c).
Proof.
  intros Hc. unfold utf8_char. rewrite (proj2 (Z.ltb_ge _ _)) by lia.
  pose proof (mod64 c). pose proof (mod64 (c / 64)). pose proof (mod64 (c / 4096)).
  assert (0 <= c / 64 /\ 0 <= c / 4096 /\ 0 <= c / 262144) as (? & ? & ?) by (split_and!; apply Z.div_pos; lia).
  repeat destruct (_ <? _); repeat constructor; lia.
Qed.

(** * Bytes that may not be UTF-8 *)

(** The first character of some bytes: the character and the bytes after it, or, for
    bytes that start none, the bytes after the bad ones and whether the input
    ended inside a character. *)
Inductive step :=
| Char (c : Z) (rest : list Z)
| Bad (rest : list Z) (incomplete : bool).

Definition utf8_step (b0 : Z) (l : list Z) : step :=
  if between 0 0x7F b0 then Char b0 l
  else if between 0xC2 0xDF b0 then
    match l with
    | [] => Bad [] true
    | b1 :: l1 => if continuation b1 then Char ((b0 - 0xC0) * 64 + (b1 - 0x80)) l1 else Bad l false
    end
  else if between 0xE0 0xEF b0 then
    match l with
    | [] => Bad [] true
    | b1 :: l1 =>
      if between (if b0 =? 0xE0 then 0xA0 else 0x80) (if b0 =? 0xED then 0x9F else 0xBF) b1 then
        match l1 with
        | [] => Bad [] true
        | b2 :: l2 =>
          if continuation b2 then Char ((b0 - 0xE0) * 4096 + (b1 - 0x80) * 64 + (b2 - 0x80)) l2 else Bad l1 false
        end
      else Bad l false
    end
  else if between 0xF0 0xF4 b0 then
    match l with
    | [] => Bad [] true
    | b1 :: l1 =>
      if between (if b0 =? 0xF0 then 0x90 else 0x80) (if b0 =? 0xF4 then 0x8F else 0xBF) b1 then
        match l1 with
        | [] => Bad [] true
        | b2 :: l2 =>
          if continuation b2 then
            match l2 with
            | [] => Bad [] true
            | b3 :: l3 =>
              if continuation b3
              then Char ((b0 - 0xF0) * 262144 + (b1 - 0x80) * 4096 + (b2 - 0x80) * 64 + (b3 - 0x80)) l3
              else Bad l2 false
            end
          else Bad l1 false
        end
      else Bad l false
    end
  else Bad l false.

Definition REPLACEMENT : Z := 0xFFFD.

Fixpoint lossy_loop (fuel : nat) (l : list Z) : list Z :=
  match fuel, l with
  | S fuel, b :: l =>
    match utf8_step b l with
    | Char c rest => c :: lossy_loop fuel rest
    | Bad rest _ => REPLACEMENT :: lossy_loop fuel rest
    end
  | _, _ => []
  end.

(** [String::from_utf8_lossy] *)
Definition from_utf8_lossy (l : list Z) : list Z := lossy_loop (length l) l.

Fixpoint error_loop (fuel : nat) (l : list Z) : option bool :=
  match fuel, l with
  | S fuel, b :: l =>
    match utf8_step b l with
    | Char _ rest => error_loop fuel rest
    | Bad _ incomplete => Some incomplete
    end
  | _, _ => None
  end.

(** [str::from_utf8]'s error, if any: whether its [error_len()] is [None]. *)
Definition utf8_error (l : list Z) : option bool := error_loop (length l) l.

Lemma utf8_step_char c l : scalar c -> exists b k, utf8_char c = b :: k /\ utf8_step b (k ++ l) = Char c l.
Proof.
  intros Hc. unfold scalar in Hc. unfold utf8_char, utf8_step.
  pose proof (mod64 c) as M0. pose proof (mod64 (c / 64)) as M1. pose proof (mod64 (c / 4096)) as M2.
  pose proof (Z.div_mod c 64) as D0. pose proof (Z.div_mod (c / 64) 64) as D1.
  pose proof (Z.div_mod (c / 4096) 64) as D2.
  rewrite !Z.div_div in D1, D2 by lia. change (64 * 64) with 4096 in D1. change (4096 * 64) with 262144 in D2.
  destruct (Z.ltb_spec c 0x80) as [H1|H1].
  { eexists _, _. split; [reflexivity|]. by rewrite between_true by lia. }
  unfold continuation. destruct (Z.ltb_spec c 0x800) as [H2|H2].
  { eexists _, _. split; [reflexivity|]. cbn [app]. rewrite between_false, (between_true 0xC2 0xDF) by lia.
    rewrite between_true by lia. f_equal. lia. }
  destruct (Z.ltb_spec c 0x10000) as [H3|H3]; eexists _, _; (split; [reflexivity|]); cbn [app].
  - rewrite between_false, between_false, (between_true 0xE0 0xEF) by lia.
    rewrite between_true by (destruct (Z.eqb_spec (0xE0 + c / 4096) 0xE0), (Z.eqb_spec (0xE0 + c / 4096) 0xED); lia).
    rewrite between_true by lia. f_equal. lia.
  - rewrite between_false, between_false, between_false, (between_true 0xF0 0xF4) by lia.
    rewrite between_true by (destruct (Z.eqb_spec (0xF0 + c / 262144) 0xF0), (Z.eqb_spec (0xF0 + c / 262144) 0xF4); lia).
    rewrite !between_true by lia. f_equal. lia.
Qed.

(** A character cut short. *)
Lemma utf8_step_cut c b k m : scalar c -> utf8_char c = b :: k -> k <> [] -> (m < length k)%nat ->
  utf8_step b (take m k) = Bad [] true.
Proof.
  intros Hc Hk Hne Hm. unfold scalar in Hc. unfold utf8_char in Hk. unfold utf8_step, continuation.
  pose proof (mod64 c) as M0. pose proof (mod64 (c / 64)) as M1. pose proof (mod64 (c / 4096)) as M2.
  pose proof (Z.div_mod c 64) as D0. pose proof (Z.div_mod (c / 64) 64) as D1.
  pose proof (Z.div_mod (c / 4096) 64) as D2.
  rewrite !Z.div_div in D1, D2 by lia. change (64 * 64) with 4096 in D1. change (4096 * 64) with 262144 in D2.
  destruct (Z.ltb_spec c 0x80) as [H1|H1]; [by injection Hk as <- <-|].
  destruct (Z.ltb_spec c 0x800) as [H2|H2]; [|destruct (Z.ltb_spec c 0x10000) as [H3|H3]]; injection Hk as <- <-;
    cbn [length] in Hm.
  - rewrite between_false, (between_true 0xC2 0xDF) by lia. destruct m; [done|lia].
  - rewrite between_false, between_false, (between_true 0xE0 0xEF) by lia.
    destruct m as [|[|m]]; cbn [take]; [done| |lia].
    rewrite between_true by (destruct (Z.eqb_spec (0xE0 + c / 4096) 0xE0), (Z.eqb_spec (0xE0 + c / 4096) 0xED); lia). done.
  - rewrite between_false, between_false, between_false, (between_true 0xF0 0xF4) by lia.
    destruct m as [|[|[|m]]]; cbn [take]; [done| | |lia];
    rewrite between_true by (destruct (Z.eqb_spec (0xF0 + c / 262144) 0xF0), (Z.eqb_spec (0xF0 + c / 262144) 0xF4); lia);
    [done|]. by rewrite between_true by lia.
Qed.

Lemma utf8_char_cons c s b k : utf8_char c = b :: k -> utf8 (c :: s) = b :: k ++ utf8 s.
Proof. intros H. by rewrite utf8_cons, H. Qed.

Lemma utf8_length c s : (length (utf8 s) < length (utf8 (c :: s)))%nat.
Proof. rewrite utf8_cons, length_app. unfold utf8_char. repeat destruct (_ <? _); cbn; lia. Qed.

Lemma lossy_loop_utf8 s fuel : Forall scalar s -> (length (utf8 s) <= fuel)%nat -> lossy_loop fuel (utf8 s) = s.
Proof.
  intros Hs. revert fuel. induction Hs as [|c s Hc Hs IH]; intros fuel Hf; [by destruct fuel|].
  pose proof (utf8_length c s). destruct fuel as [|fuel]; [lia|].
  destruct (utf8_step_char c (utf8 s) Hc) as (b & k & Hbk & Hstep). rewrite (utf8_char_cons c s b k Hbk).
  cbn [lossy_loop]. rewrite Hstep. rewrite IH by lia. done.
Qed.

Lemma from_utf8_lossy_utf8 s : Forall scalar s -> from_utf8_lossy (utf8 s) = s.
Proof. intros. by apply lossy_loop_utf8. Qed.

Lemma utf8_error_utf8 s : Forall scalar s -> utf8_error (utf8 s) = None.
Proof.
  unfold utf8_error. intros Hs. assert (length (utf8 s) <= length (utf8 s))%nat as Hf by lia. revert Hf.
  generalize (length (utf8 s)) at 2 3 as fuel. induction Hs as [|c s Hc Hs IH]; intros fuel Hf; [by destruct fuel|].
  pose proof (utf8_length c s). destruct fuel as [|fuel]; [lia|].
  destruct (utf8_step_char c (utf8 s) Hc) as (b & k & Hbk & Hstep). rewrite (utf8_char_cons c s b k Hbk).
  cbn [error_loop]. rewrite Hstep. apply IH. lia.
Qed.

(** A prefix of valid bytes is valid, or ends inside a character. *)
Lemma error_loop_prefix s B R fuel : Forall scalar s -> B ++ R = utf8 s -> (length B <= fuel)%nat ->
  (error_loop fuel B = None /\ exists s1 s2, s = s1 ++ s2 /\ B = utf8 s1 /\ R = utf8 s2) \/ error_loop fuel B = Some true.
Proof.
  intros Hs. revert B fuel. induction Hs as [|c s Hc Hs IH]; intros B fuel Heq Hf.
  - apply app_eq_nil in Heq as [-> ->]. left. split; [by destruct fuel|]. by exists [], [].
  - destruct B as [|b B].
    { left. split; [by destruct fuel|]. by exists [], (c :: s). }
    destruct fuel as [|fuel]; [cbn in Hf; lia|]. cbn [length] in Hf.
    destruct (utf8_step_char c [] Hc) as (b' & k & Hbk & _). rewrite (utf8_char_cons c s b' k Hbk) in Heq.
    injection Heq as -> Heq. cbn [error_loop].
    destruct (Nat.le_gt_cases (length k) (length B)) as [Hle|Hgt].
    + assert (B = k ++ drop (length k) B) as HB.
      { rewrite <- (take_drop (length k) B) at 1. f_equal.
        apply (f_equal (take (length k))) in Heq. by rewrite take_app_le, take_app_length in Heq. }
      destruct (utf8_step_char c (drop (length k) B) Hc) as (b2 & k2 & Hbk2 & Hstep).
      rewrite Hbk in Hbk2. injection Hbk2 as <- <-. rewrite HB, Hstep. rewrite HB, <- app_assoc in Heq.
      apply app_inv_head in Heq.
      destruct (IH (drop (length k) B) fuel Heq) as [[-> (s1 & s2 & -> & HB2 & HR)]| -> ]; [rewrite length_drop; lia| |by right].
      left. split; [done|]. exists (c :: s1), s2. split; [done|]. split; [|done].
      by rewrite (utf8_char_cons c s1 b' k Hbk), <- HB2.
    + right. assert (B = take (length B) k) as HB.
      { apply (f_equal (take (length B))) in Heq. by rewrite take_app_length, take_app_le in Heq by lia. }
      rewrite HB, (utf8_step_cut c b' k (length B)); [done|done|done| |done]. intros ->. cbn in Hgt. lia.
Qed.

Lemma utf8_error_prefix s B R : Forall scalar s -> B ++ R = utf8 s ->
  (utf8_error B = None /\ exists s1 s2, s = s1 ++ s2 /\ B = utf8 s1 /\ R = utf8 s2) \/ utf8_error B = Some true.
Proof. intros. by apply error_loop_prefix with (R := R). Qed.
