(* ===== verification/Scan.v ===== *)
(** Scanning bytes: the state the two JSON parsers share (the bytes from the position
    on), the standard library's number parsing and formatting they use, and the lemmas
    on them.  A parser that returns leaves fewer bytes than it found.

    Searching texts: the standard library's [find], [strip_prefix] and [strip_suffix] on
    lists, and when a needle does not match.

    [BTreeMap<String, _>]: the list of its entries in the order of its keys' bytes, with
    insertion, lookup and stable sorting. *)
From Stdlib Require Import ZArith Lia Bool Sorted.
From stdpp Require Import base list gmap strings.
From S2P Require Import Prelude Utf8.

(** * Definitions *)

(** Error types that tell when the fuel of a model has run out. *)
Class Fuelled (E : Type) := out_of_fuel : E.

Record Parser := MkParser { p_pos : Z; p_rest : list Z }.

Definition advance (n : nat) (p : Parser) : Parser :=
  {| p_pos := p_pos p + Z.of_nat n; p_rest := drop n (p_rest p) |}.

Definition peek (p : Parser) : option Z := head (p_rest p).

Definition is_ws (b : Z) : bool := (b =? 0x20) || (b =? 0x09) || (b =? 0x0A) || (b =? 0x0D).
Definition is_ascii_digit (b : Z) : bool := between 0x30 0x39 b.

Fixpoint count_while (f : Z -> bool) (l : list Z) : nat :=
  match l with
  | b :: l => if f b then S (count_while f l) else O
  | [] => O
  end.

(** [while] the next byte satisfies [f], step over it. *)
Definition skip_while (f : Z -> bool) (p : Parser) : Parser := advance (count_while f (p_rest p)) p.

Definition ws : Parser -> Parser := skip_while is_ws.

(** [if] the next byte satisfies [f], step over it. *)
Definition step_if (f : Z -> bool) (p : Parser) : bool * Parser :=
  match peek p with
  | Some b => if f b then (true, advance 1 p) else (false, p)
  | None => (false, p)
  end.

Definition starts_with (l w : list Z) : bool := bool_decide (take (length w) l = w).
(** Over a number: its bytes, whether it has a point or an exponent, and the rest. *)
Definition scan_number (start : Parser) : list Z * bool * Parser :=
  let '(_, p) := step_if (Z.eqb 0x2D) start in
  let p := skip_while is_ascii_digit p in
  let '(frac, p) := step_if (Z.eqb 0x2E) p in
  let p := if frac then skip_while is_ascii_digit p else p in
  let '(expo, p) := step_if (fun b => (b =? 0x65) || (b =? 0x45)) p in
  let p := if expo then skip_while is_ascii_digit (snd (step_if (fun b => (b =? 0x2B) || (b =? 0x2D)) p)) else p in
  (take (Z.to_nat (p_pos p - p_pos start)) (p_rest start), frac || expo, p).

(** ** Numbers and their text *)

(** [str::parse::<f64>], [format!("{}")], [format!("{:.1}")], [fract() == 0.0],
    [abs() < bound] and [as i64]. *)
Class Float64 (F : Type) := {
  parse_f64 : list Z -> option F;
  display : F -> list Z;
  display_1 : F -> list Z;
  fract_is_zero : F -> bool;
  abs_lt : F -> Z -> bool;
  f64_as_i64 : F -> Z
}.

(** [i64::from_str]. *)
Definition in_i64 (n : Z) : bool := (- 2 ^ 63 <=? n) && (n <? 2 ^ 63).
Definition dec_val (ds : list Z) : Z := foldl (fun acc b => acc * 10 + (b - 0x30)) 0 ds.
Definition dec_digits_val (ds : list Z) : option Z :=
  if bool_decide (ds = []) then None
  else if forallb is_ascii_digit ds then Some (dec_val ds) else None.

Definition parse_i64 (text : list Z) : option Z :=
  n ← match text with
      | b :: ds =>
        if b =? 0x2D then Z.opp <$> dec_digits_val ds
        else if b =? 0x2B then dec_digits_val ds
        else dec_digits_val text
      | [] => None
      end;
  if in_i64 n then Some n else None.

(** [char::to_digit(16)]. *)
Definition hex_digit (b : Z) : option Z :=
  if is_ascii_digit b then Some (b - 0x30)
  else if between 0x61 0x66 b then Some (b - 0x61 + 10)
  else if between 0x41 0x46 b then Some (b - 0x41 + 10)
  else None.

(** [u32::from_str_radix(_, 16)]: a leading plus is accepted. *)
Definition u32_from_hex (text : list Z) : option Z :=
  let ds := match text with b :: ds => if b =? 0x2B then ds else text | [] => [] end in
  if bool_decide (ds = []) then None
  else n ← foldl (fun acc b => acc ← acc; d ← hex_digit b; Some (acc * 16 + d)) (Some 0) ds;
       if n <? 2 ^ 32 then Some n else None.

(** [i64]'s [Display]: at most nineteen digits. *)
Fixpoint dec_digits (fuel : nat) (n : Z) : list Z :=
  match fuel with
  | O => []
  | S fuel => if n <? 10 then [0x30 + n] else dec_digits fuel (n / 10) ++ [0x30 + n mod 10]
  end.

Definition i64_to_string (n : Z) : list Z :=
  if n <? 0 then 0x2D :: dec_digits 19 (- n) else dec_digits 19 n.

Definition hex_char (d : Z) : Z := if d <? 10 then 0x30 + d else 0x61 + d - 10.

(** [{:04x}] of a value below [2^16]. *)
Definition fmt_04x (n : Z) : list Z :=
  [hex_char (n / 4096 mod 16); hex_char (n / 256 mod 16); hex_char (n / 16 mod 16); hex_char (n mod 16)].

(** The items with [sep] before all but the first. *)
Definition separated (sep : list Z) (items : list (list Z)) : list Z :=
  match items with
  | [] => []
  | x :: items => x ++ concat ((fun y => sep ++ y) <$> items)
  end.

Section shrinks.
Context {E : Type} `{!Fuelled E}.

(** * Parsers that return

    [shrinks n m]: [m] neither panics nor runs out of fuel, and a result leaves
    fewer than [n] bytes. *)
Definition shrinks {A} (n : nat) (m : outcome E (A * Parser)) : Prop :=
  match m with
  | Ok (_, p) => (length (p_rest p) < n)%nat
  | Err e => e <> out_of_fuel
  | Panic => False
  end.

Lemma shrinks_weaken {A} n k (m : outcome E (A * Parser)) :
  (n <= k)%nat -> shrinks n m -> shrinks k m.
Proof. destruct m as [[a p]| |]; cbn; [lia|done|done]. Qed.

Lemma shrinks_bind {A B} n k (m : outcome E (A * Parser)) (f : A * Parser -> outcome E (B * Parser)) :
  shrinks n m -> (forall a p, (length (p_rest p) < n)%nat -> shrinks k (f (a, p))) -> shrinks k (m ≫= f).
Proof. destruct m as [[a p]| |]; cbn; auto. Qed.

Lemma shrinks_ok_or {A B} k (o : option A) e (f : A -> outcome E (B * Parser)) :
  e <> out_of_fuel -> (forall a, shrinks k (f a)) -> shrinks k (ok_or o e ≫= f).
Proof. destruct o; cbn; auto. Qed.

Lemma advance_length n p : length (p_rest (advance n p)) = (length (p_rest p) - n)%nat.
Proof. apply length_drop. Qed.

Lemma skip_while_length f p : (length (p_rest (skip_while f p)) <= length (p_rest p))%nat.
Proof. unfold skip_while. rewrite advance_length. lia. Qed.

Lemma peek_Some p b : peek p = Some b -> (0 < length (p_rest p))%nat.
Proof. unfold peek. destruct (p_rest p); cbn; [done|lia]. Qed.

Lemma step_if_length f p b p' : step_if f p = (b, p') -> (length (p_rest p') <= length (p_rest p))%nat.
Proof.
  unfold step_if. destruct (peek p) as [c|]; [destruct (f c)|]; intros [= <- <-]; rewrite ?advance_length; lia.
Qed.

Lemma ws_length p : (length (p_rest (ws p)) <= length (p_rest p))%nat.
Proof. apply skip_while_length. Qed.

Lemma scan_number_length p c bytes is_float q :
  peek p = Some c -> (c =? 0x2D) || is_ascii_digit c = true -> scan_number p = (bytes, is_float, q) ->
  (length (p_rest q) < length (p_rest p))%nat.
Proof.
  intros Hp Hc. unfold scan_number.
  destruct (step_if (Z.eqb 0x2D) p) as [neg p1] eqn:H1.
  pose proof (step_if_length _ _ _ _ H1) as L1.
  assert (length (p_rest (skip_while is_ascii_digit p1)) < length (p_rest p))%nat as L2.
  { pose proof (peek_Some _ _ Hp). revert H1. unfold step_if. rewrite Hp.
    destruct (Z.eqb_spec 0x2D c) as [Heq|Hne]; intros [= <- <-].
    - pose proof (skip_while_length is_ascii_digit (advance 1 p)). rewrite advance_length in *. lia.
    - rewrite (proj2 (Z.eqb_neq c 0x2D)) in Hc by done. cbn in Hc.
      unfold skip_while. rewrite advance_length. unfold peek in Hp.
      destruct (p_rest p); [done|]. injection Hp as ->. cbn. rewrite Hc. cbn. lia. }
  set (p2 := skip_while is_ascii_digit p1) in *. clearbody p2.
  destruct (step_if (Z.eqb 0x2E) p2) as [frac p3] eqn:H3. apply step_if_length in H3.
  set (p4 := if frac then _ else p3).
  assert (length (p_rest p4) <= length (p_rest p3))%nat as L4
    by (unfold p4; destruct frac; [apply skip_while_length|lia]).
  clearbody p4.
  destruct (step_if _ p4) as [expo p5] eqn:H5. apply step_if_length in H5.
  set (p6 := if expo then _ else p5).
  assert (length (p_rest p6) <= length (p_rest p5))%nat as L6.
  { unfold p6. destruct expo; [|lia]. destruct (step_if _ p5) as [b q'] eqn:Hq. apply step_if_length in Hq.
    cbn [snd]. pose proof (skip_while_length is_ascii_digit q'). lia. }
  clearbody p6.
  intros [= _ _ <-]. lia.
Qed.

(** What follows an item of an array or an object. *)
Lemma after_item {A} n p close (more : Parser -> outcome E (A * Parser)) (a : A) err :
  (length (p_rest p) < n)%nat ->
  (forall p', (length (p_rest p') < length (p_rest p))%nat -> shrinks n (more p')) ->
  (forall o, err o <> out_of_fuel) ->
  shrinks n match peek p with
            | Some b => if b =? 0x2C then more (advance 1 p)
                        else if b =? close then Ok (a, advance 1 p) else Err (err (Some b))
            | None => Err (err None)
            end.
Proof.
  intros Hp Hm He. destruct (peek p) as [b|] eqn:Hb; [|apply He]. apply peek_Some in Hb.
  pose proof (advance_length 1 p). destruct (b =? 0x2C); [apply Hm; lia|].
  destruct (b =? close); [cbn -[advance]; lia|apply He].
Qed.

End shrinks.

(** * Runs of bytes *)
Lemma digit_range b : is_ascii_digit b = true <-> 0x30 <= b <= 0x39.
Proof. unfold is_ascii_digit, between. rewrite andb_true_iff, !Z.leb_le. done. Qed.

(** The byte after a run, if any, is not of the run. *)
Definition ends (f : Z -> bool) (r : list Z) : Prop :=
  match r with b :: _ => f b = false | [] => True end.

Lemma count_while_app f l r : Forall (fun b => f b = true) l -> ends f r -> count_while f (l ++ r) = length l.
Proof.
  intros Hl Hr. induction Hl as [|b l Hb Hl IH]; cbn.
  - destruct r; cbn; [done|]. cbn in Hr. by rewrite Hr.
  - by rewrite Hb, IH.
Qed.

Lemma advance_app pos l r :
  advance (length l) {| p_pos := pos; p_rest := l ++ r |} = {| p_pos := pos + Zlen l; p_rest := r |}.
Proof. unfold advance. cbn. by rewrite drop_app_length. Qed.

Lemma advance_1 pos c r :
  advance 1 {| p_pos := pos; p_rest := c :: r |} = {| p_pos := pos + 1; p_rest := r |}.
Proof. done. Qed.

Lemma skip_while_app f pos l r :
  Forall (fun b => f b = true) l -> ends f r ->
  skip_while f {| p_pos := pos; p_rest := l ++ r |} = {| p_pos := pos + Zlen l; p_rest := r |}.
Proof. intros. unfold skip_while. cbn [p_rest]. rewrite count_while_app by done. apply advance_app. Qed.

Lemma skip_none f pos r : ends f r -> skip_while f {| p_pos := pos; p_rest := r |} = {| p_pos := pos; p_rest := r |}.
Proof.
  intros. pose proof (skip_while_app f pos [] r) as H'. cbn [app] in H'. rewrite H' by done.
  by rewrite Z.add_0_r.
Qed.

Lemma ws_none pos r : ends is_ws r -> ws {| p_pos := pos; p_rest := r |} = {| p_pos := pos; p_rest := r |}.
Proof. apply skip_none. Qed.

Lemma step_if_yes f pos b r :
  f b = true -> step_if f {| p_pos := pos; p_rest := b :: r |} = (true, {| p_pos := pos + 1; p_rest := r |}).
Proof. intros H. unfold step_if. cbn. by rewrite H. Qed.

Lemma step_if_no f pos r :
  ends f r -> step_if f {| p_pos := pos; p_rest := r |} = (false, {| p_pos := pos; p_rest := r |}).
Proof. intros H. unfold step_if. destruct r as [|b r]; cbn in *; [done|]. by rewrite H. Qed.

(** * Decimal digits *)
Lemma dec_digits_digits fuel n : 0 <= n -> Forall (fun b => is_ascii_digit b = true) (dec_digits fuel n).
Proof.
  revert n. induction fuel as [|fuel IH]; intros n Hn; cbn [dec_digits]; [done|].
  destruct (Z.ltb_spec n 10).
  - repeat constructor. apply digit_range. lia.
  - apply Forall_app. split; [apply IH, Z.div_pos; lia|]. repeat constructor. apply digit_range.
    pose proof (Z.mod_pos_bound n 10). lia.
Qed.

Lemma dec_digits_ne fuel n : fuel <> O -> dec_digits fuel n <> [].
Proof. destruct fuel; [done|]. cbn. intros _. destruct (n <? 10); [done|]. by destruct (dec_digits fuel _). Qed.

Lemma dec_val_digits fuel n : 0 <= n < 10 ^ Z.of_nat fuel -> dec_val (dec_digits fuel n) = n.
Proof.
  revert n. induction fuel as [|fuel IH]; intros n Hn; [cbn in *; lia|].
  rewrite Nat2Z.inj_succ, Z.pow_succ_r in Hn by lia. cbn [dec_digits].
  destruct (Z.ltb_spec n 10); [cbn; lia|].
  unfold dec_val in *. rewrite foldl_app. cbn. rewrite IH.
  - pose proof (Z.div_mod n 10). lia.
  - split; [apply Z.div_pos; lia|]. apply Z.div_lt_upper_bound; lia.
Qed.

Lemma digit_sign b : is_ascii_digit b = true -> (b =? 0x2D) = false /\ (b =? 0x2B) = false.
Proof. rewrite digit_range, !Z.eqb_neq. lia. Qed.

(** ["-"] or nothing, then the digits of the absolute value. *)
Lemma i64_text n : in_i64 n = true ->
  exists sg ds, i64_to_string n = sg ++ ds /\ (sg = [] \/ sg = [0x2D]) /\ ds <> [] /\
    Forall (fun b => is_ascii_digit b = true) ds.
Proof.
  unfold in_i64, i64_to_string. rewrite andb_true_iff, Z.leb_le, Z.ltb_lt. intros Hn.
  destruct (Z.ltb_spec n 0); [exists [0x2D], (dec_digits 19 (- n))|exists [], (dec_digits 19 n)];
    (split_and!; [done|tauto|by apply dec_digits_ne|apply dec_digits_digits; lia]).
Qed.

Lemma dec_digits_val_ok ds :
  ds <> [] -> Forall (fun b => is_ascii_digit b = true) ds -> dec_digits_val ds = Some (dec_val ds).
Proof.
  intros Hne Hd. unfold dec_digits_val. rewrite bool_decide_false by done.
  rewrite (proj2 (forallb_forall _ _)); [done|]. intros x Hx. eapply Forall_forall in Hd; [done|].
  by apply list_elem_of_In.
Qed.

Lemma parse_i64_to_string n : in_i64 n = true -> parse_i64 (i64_to_string n) = Some n.
Proof.
  intros Hn. pose proof Hn as Hr. unfold in_i64 in Hr. rewrite andb_true_iff, Z.leb_le, Z.ltb_lt in Hr.
  unfold parse_i64, i64_to_string. destruct (Z.ltb_spec n 0).
  - cbn [Z.eqb Pos.eqb]. rewrite dec_digits_val_ok, dec_val_digits; [|cbn in *; lia|by apply dec_digits_ne|apply dec_digits_digits; lia].
    cbn -[in_i64]. rewrite Z.opp_involutive. by rewrite Hn.
  - pose proof (dec_digits_ne 19 n ltac:(done)) as Hne. pose proof (dec_digits_digits 19 n ltac:(lia)) as Hd.
    pose proof (dec_val_digits 19 n ltac:(cbn in *; lia)) as Hv.
    destruct (dec_digits 19 n) as [|b ds]; [done|].
    destruct (digit_sign b) as [-> ->]; [by inversion Hd|].
    rewrite dec_digits_val_ok, Hv by done. cbn -[in_i64]. by rewrite Hn.
Qed.

(** * Numbers *)
Definition number_byte (b : Z) : bool := is_ascii_digit b || (b =? 0x2E) || (b =? 0x65) || (b =? 0x45).

Lemma ends_weaken (f g : Z -> bool) r : (forall b, f b = false -> g b = false) -> ends f r -> ends g r.
Proof. destruct r; cbn; auto. Qed.

Lemma number_byte_split b : number_byte b = false ->
  is_ascii_digit b = false /\ (b =? 0x2E) = false /\ (b =? 0x65) = false /\ (b =? 0x45) = false.
Proof. unfold number_byte. rewrite !orb_false_iff. tauto. Qed.

Lemma sign_step sg ds r pos :
  sg = [] \/ sg = [0x2D] -> ds <> [] -> Forall (fun b => is_ascii_digit b = true) ds ->
  exists neg, step_if (Z.eqb 0x2D) {| p_pos := pos; p_rest := sg ++ ds ++ r |} =
              (neg, {| p_pos := pos + Zlen sg; p_rest := ds ++ r |}).
Proof.
  intros Hs Hne Hd. destruct Hs as [-> | ->]; cbn [app length].
  - exists false. rewrite step_if_no; [by rewrite Z.add_0_r|].
    destruct ds as [|b ds]; [done|]. inversion Hd; subst. cbn [ends app]. rewrite Z.eqb_sym. by apply digit_sign.
  - exists true. by rewrite step_if_yes.
Qed.

Lemma text_taken pos k (t r : list Z) :
  k = pos + Zlen t -> take (Z.to_nat (k - pos)) (t ++ r) = t.
Proof. intros ->. replace (Z.to_nat _) with (length t) by lia. by rewrite take_app_length. Qed.

Lemma ascii_text t : Forall (fun c => 0 <= c < 0x80) t -> from_utf8 t = Some t.
Proof.
  intros H. rewrite <- (utf8_ascii t) at 1 by (eapply Forall_impl; [exact H|]; cbn; lia).
  apply from_utf8_utf8. eapply Forall_impl; [exact H|]. intros c Hc. unfold scalar. cbn in Hc. lia.
Qed.

Lemma digits_ascii ds : Forall (fun b => is_ascii_digit b = true) ds -> Forall (fun c => 0 <= c < 0x80) ds.
Proof. intros H. eapply Forall_impl; [exact H|]. intros b Hb%digit_range. lia. Qed.

Lemma sign_ascii sg : sg = [] \/ sg = [0x2D] -> Forall (fun c => 0 <= c < 0x80) sg.
Proof. intros [-> | ->]; repeat constructor; lia. Qed.

Lemma i64_ascii n : in_i64 n = true -> Forall (fun c => 0 <= c < 0x80) (i64_to_string n).
Proof.
  intros (sg & ds & -> & Hs & _ & Hd)%i64_text. apply Forall_app. auto using sign_ascii, digits_ascii.
Qed.

Lemma ascii_utf8 t : Forall (fun c => 0 <= c < 0x80) t -> utf8 t = t.
Proof. intros H. apply utf8_ascii. eapply Forall_impl; [exact H|]. cbn. lia. Qed.

(** * Items *)
Lemma separated_cons2 sep x y l : separated sep (x :: y :: l) = x ++ sep ++ separated sep (y :: l).
Proof. cbn. by rewrite <- app_assoc. Qed.

(** * Definitions *)

(** [text.find(needle)]: the text before the first match and the text after it. *)
Fixpoint find (needle text : list Z) : option (list Z * list Z) :=
  if starts_with text needle then Some ([], drop (length needle) text)
  else match text with
       | [] => None
       | c :: text => (fun '(a, b) => (c :: a, b)) <$> find needle text
       end.

Definition strip_prefix (p text : list Z) : option (list Z) :=
  if starts_with text p then Some (drop (length p) text) else None.

Definition strip_suffix (p text : list Z) : option (list Z) :=
  reverse <$> strip_prefix (reverse p) (reverse text).

(** * Prefixes and matches *)

Lemma starts_with_app w r : starts_with (w ++ r) w = true.
Proof. unfold starts_with. apply bool_decide_true. apply take_app_length. Qed.

Lemma starts_with_true l w : starts_with l w = true -> l = w ++ drop (length w) l.
Proof. unfold starts_with. intros H%bool_decide_eq_true. rewrite <- H at 1. by rewrite take_drop. Qed.

(** Two texts that differ at a position. *)
Lemma starts_with_ne i a b l w : l !! i = Some a -> w !! i = Some b -> a <> b -> starts_with l w = false.
Proof.
  intros Hl Hw Hab. apply not_true_iff_false. intros H%starts_with_true.
  rewrite H, lookup_app_l in Hl by (by eapply lookup_lt_Some). congruence.
Qed.

Lemma starts_with_short l k w : (length w <= length l)%nat -> starts_with (l ++ k) w = starts_with l w.
Proof. intros H. unfold starts_with. by rewrite take_app_le. Qed.

(** A needle whose first character does not come again. *)
Definition tag (w : list Z) : Prop := match w with c :: t => c ∉ t | [] => False end.

#[export] Instance tag_dec w : Decision (tag w).
Proof. destruct w; cbn; solve_decision. Defined.

Lemma starts_with_overlap c t l r : tag (c :: t) -> l <> [] -> starts_with l (c :: t) = false ->
  starts_with (l ++ c :: r) (c :: t) = false.
Proof.
  intros Hw Hl Hn. destruct (Nat.le_gt_cases (length (c :: t)) (length l)) as [Hle|Hgt].
  { by rewrite starts_with_short. }
  destruct l as [|x l]; [done|]. cbn in Hgt.
  destruct (lookup_lt_is_Some_2 t (length l)) as [b Hb]; [lia|].
  apply starts_with_ne with (S (length l)) c b; [|done|].
  - change (S (length l)) with (length (x :: l)). by rewrite list_lookup_middle.
  - intros <-. apply Hw. by eapply list_elem_of_lookup_2.
Qed.

Lemma find_here w r : find w (w ++ r) = Some ([], r).
Proof.
  pose proof (starts_with_app w r) as H. destruct (w ++ r) eqn:Heq; cbn; rewrite H; rewrite <- Heq;
    by rewrite drop_app_length.
Qed.

Lemma find_cons w c l : starts_with (c :: l) w = false ->
  find w (c :: l) = (fun '(a, b) => (c :: a, b)) <$> find w l.
Proof. intros H. cbn. by rewrite H. Qed.

Lemma find_None_inv w c l : find w (c :: l) = None -> starts_with (c :: l) w = false /\ find w l = None.
Proof. cbn. destruct (starts_with _ _); [done|]. by destruct (find w l) as [[a b]|]. Qed.

(** The first match is the one that follows a text without one. *)
Lemma find_app w l r : tag w -> find w l = None -> find w (l ++ w ++ r) = Some (l, r).
Proof.
  intros Hw. induction l as [|c l IH]; intros Hl; [exact (find_here w r)|].
  apply find_None_inv in Hl as [Hs Hl].
  change ((c :: l) ++ w ++ r) with (c :: l ++ w ++ r).
  rewrite find_cons; [by rewrite IH|]. destruct w as [|x t]; [done|].
  change (c :: l ++ (x :: t) ++ r) with ((c :: l) ++ x :: t ++ r). by apply starts_with_overlap.
Qed.

Lemma find_Some w l a b : find w l = Some (a, b) -> l = a ++ w ++ b.
Proof.
  revert a b. induction l as [|c l IH]; intros a b; cbn.
  - destruct (starts_with [] w) eqn:Hs; [|done]. intros [= <- <-]. by apply starts_with_true.
  - destruct (starts_with (c :: l) w) eqn:Hs.
    + intros [= <- <-]. by apply starts_with_true.
    + destruct (find w l) as [[a' b']|]; [|done]. intros [= <- <-]. cbn. f_equal. by apply IH.
Qed.

Lemma find_Some_length w l a b : find w l = Some (a, b) -> (length l = length a + length w + length b)%nat.
Proof. intros ->%find_Some. rewrite !length_app. lia. Qed.

(** A needle's first character absent: no match. *)
Lemma find_absent c t l : c ∉ l -> find (c :: t) l = None.
Proof.
  intros H. induction l as [|x l IH]; [done|]. apply not_elem_of_cons in H as [H1 H2].
  rewrite find_cons; [by rewrite IH|]. by apply starts_with_ne with 0%nat x c.
Qed.

Lemma starts_with_more l k w : starts_with (l ++ k) w = false -> starts_with l w = false.
Proof.
  intros H. apply not_true_iff_false. intros Hs%starts_with_true. rewrite Hs, <- app_assoc in H.
  by rewrite starts_with_app in H.
Qed.

Lemma find_None_drop w l i : w <> [] -> find w l = None -> starts_with (drop i l) w = false.
Proof.
  intros Hw. revert i. induction l as [|c l IH]; intros i Hf.
  - rewrite drop_nil. destruct w; [done|]. by apply bool_decide_false.
  - apply find_None_inv in Hf as [Hs Hf]. destruct i as [|i]; [done|]. by apply IH.
Qed.

Lemma find_Some_drop w l a b i : find w l = Some (a, b) -> (i < length a)%nat -> starts_with (drop i l) w = false.
Proof.
  revert a i. induction l as [|c l IH]; intros a i; cbn [find].
  - destruct (starts_with [] w); [|done]. intros [= <- <-]. cbn. lia.
  - destruct (starts_with (c :: l) w) eqn:Hs; [intros [= <- <-]; cbn; lia|].
    destruct (find w l) as [[a' b']|]; [|done]. intros [= <- <-] Hi. destruct i as [|i]; [done|].
    apply (IH a'); [done|]. cbn in Hi. lia.
Qed.

(** * Definitions *)

(** [BTreeMap::insert]: keys are ordered by their bytes. *)
Fixpoint lex (l k : list Z) : comparison :=
  match l, k with
  | [], [] => Eq
  | [], _ :: _ => Lt
  | _ :: _, [] => Gt
  | a :: l, b :: k => match a ?= b with Eq => lex l k | c => c end
  end.

Fixpoint map_insert {V} (key : list Z) (v : V) (m : list (list Z * V)) : list (list Z * V) :=
  match m with
  | [] => [(key, v)]
  | (k, w) :: m' =>
    match lex (utf8 key) (utf8 k) with
    | Lt => (key, v) :: m
    | Eq => (k, v) :: m'
    | Gt => (k, w) :: map_insert key v m'
    end
  end.

(** [BTreeMap::get] *)
Fixpoint map_get {V} (key : list Z) (m : list (list Z * V)) : option V :=
  match m with
  | [] => None
  | (k, v) :: m => if bool_decide (k = key) then Some v else map_get key m
  end.

(** [str::cmp] *)
Definition str_cmp (a b : list Z) : comparison := lex (utf8 a) (utf8 b).

(** [slice::sort_by], which keeps the order of equal elements. *)
Fixpoint sort_insert {A} (cmp : A -> A -> comparison) (x : A) (l : list A) : list A :=
  match l with
  | [] => [x]
  | y :: l' => match cmp x y with Gt => y :: sort_insert cmp x l' | _ => x :: l end
  end.
Definition sort_by {A} (cmp : A -> A -> comparison) (l : list A) : list A := foldr (sort_insert cmp) [] l.

(** * Keys *)
Definition str_lt (a b : list Z) : Prop := lex (utf8 a) (utf8 b) = Lt.

Lemma lex_flip l k : lex l k = CompOpp (lex k l).
Proof.
  revert k. induction l as [|a l IH]; intros [|b k]; cbn; [done..|].
  rewrite (Z.compare_antisym b a). destruct (b ?= a); cbn; auto.
Qed.

Lemma map_insert_last {V} k (v : V) m :
  Forall (fun e => str_lt e.1 k) m -> map_insert k v m = m ++ [(k, v)].
Proof.
  induction 1 as [|[k' w] m Hk Hm IH]; [done|]. cbn [map_insert]. rewrite lex_flip. unfold str_lt in Hk. cbn [fst] in Hk.
  rewrite Hk. cbn [CompOpp app]. by rewrite IH.
Qed.

Lemma sorted_before {V} k (v : V) m m' :
  StronglySorted str_lt (m ++ (k, v) :: m').*1 -> Forall (fun e => str_lt e.1 k) m.
Proof.
  induction m as [|[k' w] m IH]; intros Hs; [done|]. cbn in Hs. apply StronglySorted_inv in Hs as [Hs Hall].
  constructor; [|by apply IH]. cbn. rewrite fmap_app in Hall. cbn in Hall.
  apply Forall_app in Hall as [_ Hall]. by inversion Hall.
Qed.

Lemma utf8_inj s t : Forall scalar s -> Forall scalar t -> utf8 s = utf8 t -> s = t.
Proof. intros Hs Ht H. apply from_utf8_utf8 in Hs. apply from_utf8_utf8 in Ht. congruence. Qed.

Lemma lex_eq l k : lex l k = Eq -> l = k.
Proof.
  revert k. induction l as [|a l IH]; intros [|b k]; cbn; try done. destruct (Z.compare_spec a b); try done. intros Hlk. subst.
  f_equal. by apply IH.
Qed.

Lemma lex_refl l k : lex l k = Eq <-> l = k.
Proof. split; [apply lex_eq|]. intros <-. induction l as [|a l IH]; [done|]. cbn. by rewrite Z.compare_refl. Qed.

Definition keys_scalar {V} (m : list (list Z * V)) : Prop := Forall (fun e => Forall scalar e.1) m.

Lemma insert_scalar {V} k (v : V) m : Forall scalar k -> keys_scalar m -> keys_scalar (map_insert k v m).
Proof.
  intros Hk. induction 1 as [|[k' w] m Hk' Hm IH]; [by constructor|]. cbn [map_insert].
  destruct (lex (utf8 k) (utf8 k')); constructor; (done || by constructor).
Qed.

Lemma map_get_insert {V} k k' (v : V) m : Forall scalar k -> Forall scalar k' -> keys_scalar m ->
  map_get k' (map_insert k v m) = if bool_decide (k = k') then Some v else map_get k' m.
Proof.
  intros Hk Hk'. induction 1 as [|[k1 w] m Hk1 Hm IH]; [done|]. cbn [map_insert]. destruct (lex (utf8 k) (utf8 k1)) eqn:Hlex.
  - apply lex_eq, utf8_inj in Hlex as ->; [|done|done]. cbn [map_get]. by case_bool_decide.
  - done.
  - cbn [map_get]. rewrite IH. case_bool_decide as H1; [|done]. subst k'. case_bool_decide as H2; [|done]. subst.
    exfalso. by rewrite (proj2 (lex_refl _ _) eq_refl) in Hlex.
Qed.

(** A map of entries put in one after the other. *)
Definition of_entries {V} (es : list (list Z * V)) : list (list Z * V) := foldl (fun m e => map_insert e.1 e.2 m) [] es.

Lemma fold_scalar {V} (es : list (list Z * V)) m : keys_scalar es -> keys_scalar m ->
  keys_scalar (foldl (fun m e => map_insert e.1 e.2 m) m es).
Proof.
  intros Hes. revert m. induction Hes as [|[k v] es Hk Hes IH]; intros m Hm; [done|]. apply IH. by apply insert_scalar.
Qed.

Lemma map_get_fold {V} k (es : list (list Z * V)) m : Forall scalar k -> keys_scalar es -> keys_scalar m -> NoDup es.*1 ->
  map_get k (foldl (fun m e => map_insert e.1 e.2 m) m es) = match map_get k es with Some v => Some v | None => map_get k m end.
Proof.
  intros Hk Hes. revert m. induction Hes as [|[k1 v] es Hk1 Hes IH]; intros m Hm Hnd; [done|].
  cbn [fmap list_fmap fst] in Hnd. apply NoDup_cons in Hnd as [Hni Hnd]. cbn [foldl]. rewrite IH; [|by apply insert_scalar|done].
  cbn [fst snd]. rewrite map_get_insert by done. cbn [map_get]. case_bool_decide as He; [|done]. subst k1.
  destruct (map_get k es) as [x|] eqn:Hg; [|done]. exfalso. apply Hni. clear -Hg. induction es as [|[k1 w] es IH]; [done|].
  cbn in Hg. case_bool_decide; [subst; by left|]. right. by apply IH.
Qed.

Lemma get_of_entries {V} k (es : list (list Z * V)) : Forall scalar k -> keys_scalar es -> NoDup es.*1 ->
  map_get k (of_entries es) = map_get k es.
Proof. intros Hk Hes Hnd. unfold of_entries. rewrite map_get_fold by (done || constructor). by destruct (map_get k es). Qed.

Lemma of_entries_sorted {V} (es : list (list Z * V)) : StronglySorted str_lt es.*1 -> of_entries es = es.
Proof.
  unfold of_entries. intros Hs. assert (forall acc, StronglySorted str_lt (acc ++ es).*1 ->
    foldl (fun m e => map_insert e.1 e.2 m) acc es = acc ++ es) as H; [|by apply H].
  clear Hs. induction es as [|[k v] es IH]; intros acc Hs; [by rewrite app_nil_r|]. cbn [foldl fst snd].
  rewrite map_insert_last by (eapply sorted_before, Hs). rewrite IH by (by rewrite <- app_assoc). by rewrite <- app_assoc.
Qed.
