(* ===== verification/Loader.v ===== *)
(** The checkpoint loader (src/crates/mimo26-load/src: lib.rs, fused.rs, names.rs): matrices,
    the reconstruction of fused QKV projections from their shards, and the audit of the
    tensors' names.

    A [Mat] is its shape and its row-major data; every accessor panics where the source's
    indexing does.  Weights are E4M3 codes, scales are [f32]s.  An error that carries a
    message carries what the message prints.  Names are texts (lists of scalar values).

    Theorems: what the reconstruction computes, row by row, in terms of the shards; that the
    padding of a scale grid is not read; and what an expert's name and a clean audit are. *)
From Stdlib Require Import ZArith Lia Bool SpecFloat.
From stdpp Require Import base list gmap strings.
From S2P Require Import Prelude Utf8 Scan Floats E4m3.

(** * Definitions *)

(** The messages of [LoadError::ShapeMismatch]. *)
Inductive ShapeError :=
| MatDataLen (len rows cols : Z)
| StackCols (got want : Z)
| GridTooSmall (grid_rows row : Z)
| ScalePerRowShape (rows cols want_rows want_cols : Z)
| GlobalScaleRow (srow grid_rows : Z)
| ScaleShape (rows cols want_rows want_cols : Z).

Inductive LoadError :=
| UnevenShardRows (rows : list Z)
| SegmentMismatch (shard got expected : Z)
| ShardListMismatch
| MissingRequiredWeights (missing : list (list Z))
| MissingRouterBias (key : list Z)
| NameAudit (problems : list (list Z))
| ShapeMismatch (what : ShapeError).

#[local] Abbreviation result := (outcome LoadError).

Record Mat (T : Type) := mkMat { m_rows : Z; m_cols : Z; m_data : list T }.
Arguments mkMat {T} m_rows m_cols m_data.
Arguments m_rows {T} _.
Arguments m_cols {T} _.
Arguments m_data {T} _.

Section mat.
Context {T : Type}.
Implicit Types m : Mat T.

Definition from_row_major (rows cols : Z) (data : list T) : result (Mat T) :=
  n ← usize_mul rows cols;
  if negb (Zlen data =? n) then Err (ShapeMismatch (MatDataLen (Zlen data) rows cols))
  else Ok (mkMat rows cols data).

Definition mat_row m (r : Z) : result (list T) := index_range (m_data m) (r * m_cols m) ((r + 1) * m_cols m).

Definition zeros (d : T) (rows cols : Z) : result (Mat T) :=
  n ← usize_mul rows cols;
  Ok (mkMat rows cols (replicate (Z.to_nat n) d)).

Definition mat_get m (r c : Z) : result T := idx (m_data m) (r * m_cols m + c).

Definition mat_set m (r c : Z) (v : T) : result (Mat T) :=
  data ← idx_set (m_data m) (r * m_cols m + c) v;
  Ok (mkMat (m_rows m) (m_cols m) data).

Definition mat_slice_rows m (lo hi : Z) : result (Mat T) :=
  if (hi <=? m_rows m) && (lo <=? hi) then
    data ← index_range (m_data m) (lo * m_cols m) (hi * m_cols m);
    Ok (mkMat (hi - lo) (m_cols m) data)
  else Panic.

Definition stack_step (cols : Z) (acc : Mat T) (p : Mat T) : result (Mat T) :=
  if negb (m_cols p =? cols) then Err (ShapeMismatch (StackCols (m_cols p) cols))
  else
    rows ← usize_add (m_rows acc) (m_rows p);
    Ok (mkMat rows cols (m_data acc ++ m_data p)).

Definition mat_stack_rows (parts : list (Mat T)) : result (Mat T) :=
  match parts with
  | [] => Ok (mkMat 0 0 [])
  | p :: _ => fold_try (stack_step (m_cols p)) (mkMat 0 (m_cols p) []) parts
  end.
End mat.

Definition load_ceil_div (a b : Z) : result Z :=
  q ← usize_div a b;
  usize_add q (if a mod b =? 0 then 0 else 1).

(** ** fused.rs *)

Definition LOAD_DEFAULT_BLOCK : Z * Z := (128, 128).

Record ReconstructedProjection := mkProjection {
  rp_name : list Z;
  rp_weight : Mat Z;
  rp_scale_per_row : Mat spec_float;
}.

Record SplitParts := mkSplitParts {
  sp_q : ReconstructedProjection;
  sp_k : ReconstructedProjection;
  sp_v : ReconstructedProjection;
}.

Fixpoint enumerate_from {A} (i : Z) (l : list A) : list (Z * A) :=
  match l with [] => [] | x :: l => (i, x) :: enumerate_from (i + 1) l end.

(** Every shard has the rows of its three segments. *)
Definition check_segments (shard_weights : list (Mat Z)) (total : Z) : result unit :=
  for_each (fun '(i, w) =>
      if negb (m_rows w =? total) then Err (SegmentMismatch i (m_rows w) total) else Ok tt)
    (enumerate_from 0 shard_weights).

(** The scales of one row of a shard: row [r / br] of the shard's own grid. *)
Definition fill_scale_row (w : Mat Z) (s : Mat spec_float) (br bc lo : Z)
    (acc : Mat spec_float) (i : Z) : result (Mat spec_float) :=
  let r := lo + i in
  srow ← usize_div r br;
  if srow >=? m_rows s then Err (ShapeMismatch (GridTooSmall (m_rows s) r))
  else
    n ← usize_div (m_cols w) bc;
    fold_try (fun acc c => x ← mat_get s srow c; mat_set acc i c x) acc (seqZ 0 n).

Definition segment_scales (w : Mat Z) (s : Mat spec_float) (br bc lo hi : Z) : result (Mat spec_float) :=
  n ← usize_div (m_cols w) bc;
  acc ← zeros (S754_zero false) (hi - lo) n;
  fold_try (fill_scale_row w s br bc lo) acc (seqZ 0 (hi - lo)).

(** A projection's accumulator: its name, its weights and its scales so far. *)
Definition Accumulator : Type := list Z * list (Mat Z) * list (Mat spec_float).

Definition split_segment (w : Mat Z) (s : Mat spec_float) (br bc : Z)
    (x : Z * Z * Accumulator) : result Accumulator :=
  let '(lo, hi, (name, wts, scs)) := x in
  scale_per_row ← segment_scales w s br bc lo hi;
  part ← mat_slice_rows w lo hi;
  Ok (name, wts ++ [part], scs ++ [scale_per_row]).

Definition split_shard (br bc : Z) (bounds : list (Z * Z)) (acc : list Accumulator)
    (shard : Mat Z * Mat spec_float) : result (list Accumulator) :=
  mapM (split_segment shard.1 shard.2 br bc) (zip bounds acc).

Definition stack_projection (acc : Accumulator) : result ReconstructedProjection :=
  let '(name, wts, scs) := acc in
  weight ← mat_stack_rows wts;
  scale_per_row ← mat_stack_rows scs;
  Ok (mkProjection name weight scale_per_row).

Definition segment_total (segs_per_shard : Z * Z * Z) : result Z :=
  let '(q_rows, k_rows, v_rows) := segs_per_shard in
  qk ← usize_add q_rows k_rows;
  usize_add qk v_rows.

Definition split_shard_major_fused (shard_weights : list (Mat Z)) (shard_scales : list (Mat spec_float))
    (segs_per_shard : Z * Z * Z) (block : Z * Z) : result SplitParts :=
  if bool_decide (shard_weights = []) || negb (bool_decide (length shard_weights = length shard_scales))
  then Err ShardListMismatch
  else
    let '(br, bc) := block in
    let '(q_rows, k_rows, v_rows) := segs_per_shard in
    total ← segment_total segs_per_shard;
    check_segments shard_weights total ≫= fun _ =>
    let bounds := [(0, q_rows); (q_rows, q_rows + k_rows); (q_rows + k_rows, total)] in
    let acc := [(str "q", [], []); (str "k", [], []); (str "v", [], [])] in
    acc ← fold_try (split_shard br bc bounds) acc (zip shard_weights shard_scales);
    out ← mapM stack_projection acc;
    match out with
    | [q; k; v] => Ok (mkSplitParts q k v)
    | _ => Panic
    end.

(** The product of a code and its scale, rounded once to [f64] and once to [f32]. *)
Definition dequantize_code (code : Z) (scale : spec_float) : spec_float :=
  f32_of_f64 (f64_mul (decode_e4m3 code) (f64_of_f32 scale)).

(** One element: its code, and the scale of row [srow] of [scales] over its column block. *)
Definition dequantize_at (weight : Mat Z) (scales : Mat spec_float) (bc srow r c : Z) : result spec_float :=
  code ← mat_get weight r c;
  b ← usize_div c bc;
  scale ← mat_get scales srow b;
  Ok (dequantize_code code scale).

Definition dequantize_per_row (proj : ReconstructedProjection) (block : Z * Z) : result (Mat spec_float) :=
  let '(_, bc) := block in
  let weight := rp_weight proj in
  let scales := rp_scale_per_row proj in
  let rows := m_rows weight in
  let cols := m_cols weight in
  n ← usize_div cols bc;
  if negb (m_rows scales =? rows) || negb (m_cols scales =? n)
  then Err (ShapeMismatch (ScalePerRowShape (m_rows scales) (m_cols scales) rows n))
  else
    out ← zeros (S754_zero false) rows cols;
    fold_try (fun out r =>
      fold_try (fun out c => v ← dequantize_at weight scales bc r r c; mat_set out r c v) out (seqZ 0 cols))
      out (seqZ 0 rows).

Definition dequantize_naive_fused (shard_weights : list (Mat Z)) (shard_scales : list (Mat spec_float))
    (block : Z * Z) : result (Mat spec_float) :=
  if bool_decide (shard_weights = []) || negb (bool_decide (length shard_weights = length shard_scales))
  then Err ShardListMismatch
  else
    let '(br, bc) := block in
    w ← mat_stack_rows shard_weights;
    s ← mat_stack_rows shard_scales;
    out ← zeros (S754_zero false) (m_rows w) (m_cols w);
    fold_try (fun out r =>
      srow ← usize_div r br;
      if srow >=? m_rows s then Err (ShapeMismatch (GlobalScaleRow srow (m_rows s)))
      else
        fold_try (fun out c => v ← dequantize_at w s bc srow r c; mat_set out r c v)
          out (seqZ 0 (m_cols w)))
      out (seqZ 0 (m_rows w)).

(** [Vec::dedup] *)
Fixpoint dedup (l : list Z) : list Z :=
  match l with
  | x :: l' => match l' with y :: _ => if x =? y then dedup l' else x :: dedup l' | [] => [x] end
  | [] => []
  end.

Definition reconstruct_layer_qkv (shard_weights : list (Mat Z)) (shard_scales : list (Mat spec_float))
    (segs_per_shard : Z * Z * Z) (block : Z * Z) (naive : bool) : result (Mat spec_float) :=
  if bool_decide (shard_weights = []) || negb (bool_decide (length shard_weights = length shard_scales))
  then Err ShardListMismatch
  else
    let distinct := dedup (sort_by Z.compare (m_rows <$> shard_weights)) in
    if negb (bool_decide (length distinct = 1%nat)) then Err (UnevenShardRows distinct)
    else
      total ← segment_total segs_per_shard;
      check_segments shard_weights total ≫= fun _ =>
      if naive then dequantize_naive_fused shard_weights shard_scales block
      else
        parts ← split_shard_major_fused shard_weights shard_scales segs_per_shard block;
        q ← dequantize_per_row (sp_q parts) block;
        k ← dequantize_per_row (sp_k parts) block;
        v ← dequantize_per_row (sp_v parts) block;
        mat_stack_rows [q; k; v].

(** ** The block codec of e4m3.rs *)

(** Rows (or columns) [i * b .. min (i * b + b) n]. *)
Definition tile (n b i : Z) : result (Z * Z) :=
  lo ← usize_mul i b;
  hi ← usize_add lo b;
  Ok (lo, Z.min hi n).

Definition block_max (w : Mat spec_float) (rs cs : Z * Z) : result spec_float :=
  fold_try (fun amax r =>
    fold_try (fun amax c => x ← mat_get w r c; Ok (f64_max amax (SFabs x))) amax (seqZ cs.1 (cs.2 - cs.1)))
    (S754_zero false) (seqZ rs.1 (rs.2 - rs.1)).

Definition block_scale (amax : spec_float) : spec_float :=
  if SFltb (S754_zero false) amax then f32_of_f64 (f64_div amax E4M3_MAX) else f32_one.

Definition quantize_value (x s : spec_float) : Z := encode_e4m3 (f64_div x (f64_of_f32 s)).

Definition quantize_tile (w : Mat spec_float) (br bc : Z) (acc : Mat Z * Mat spec_float) (bi bj : Z)
    : result (Mat Z * Mat spec_float) :=
  let '(codes, scale) := acc in
  rs ← tile (m_rows w) br bi;
  cs ← tile (m_cols w) bc bj;
  amax ← block_max w rs cs;
  let s := block_scale amax in
  scale ← mat_set scale bi bj s;
  codes ← fold_try (fun codes r =>
    fold_try (fun codes c => x ← mat_get w r c; mat_set codes r c (quantize_value x s)) codes
      (seqZ cs.1 (cs.2 - cs.1))) codes (seqZ rs.1 (rs.2 - rs.1));
  Ok (codes, scale).

Definition quantize_block (w : Mat spec_float) (block : Z * Z) : result (Mat Z * Mat spec_float) :=
  let '(br, bc) := block in
  rb ← load_ceil_div (m_rows w) br;
  cb ← load_ceil_div (m_cols w) bc;
  codes ← zeros 0 (m_rows w) (m_cols w);
  scale ← zeros (S754_zero false) rb cb;
  fold_try (fun acc bi => fold_try (fun acc bj => quantize_tile w br bc acc bi bj) acc (seqZ 0 cb))
    (codes, scale) (seqZ 0 rb).

Definition dequantize_block (codes : Mat Z) (scale_inv : Mat spec_float) (block : Z * Z) : result (Mat spec_float) :=
  let '(br, bc) := block in
  rb ← load_ceil_div (m_rows codes) br;
  cb ← load_ceil_div (m_cols codes) bc;
  if negb (m_rows scale_inv =? rb) || negb (m_cols scale_inv =? cb)
  then Err (ShapeMismatch (ScaleShape (m_rows scale_inv) (m_cols scale_inv) rb cb))
  else
    out ← zeros (S754_zero false) (m_rows codes) (m_cols codes);
    fold_try (fun out r =>
      fold_try (fun out c =>
        code ← mat_get codes r c;
        br' ← usize_div r br;
        bc' ← usize_div c bc;
        scale ← mat_get scale_inv br' bc';
        mat_set out r c (dequantize_code code scale)) out (seqZ 0 (m_cols codes)))
      out (seqZ 0 (m_rows codes)).

(** ** names.rs *)

Definition REQUIRED_WEIGHTS : list (list Z) := [str "embed.weight"; str "norm.weight"; str "lm_head.weight"].

Definition NON_BACKBONE_PREFIXES : list (list Z) :=
  [str "audio_encoder."; str "model.audio_encoder."; str "visual."; str "model.visual.";
   str "speech_embeddings."; str "model.speech_embeddings."].

Definition canonical_name (raw : list Z) : list Z :=
  match strip_prefix (str "model.mtp.") raw with
  | Some rest => str "mtp." ++ rest
  | None => match strip_prefix (str "model.") raw with Some rest => rest | None => raw end
  end.

Definition is_backbone_weight (raw : list Z) : bool :=
  let c := canonical_name raw in
  starts_with c (str "layers.") ||
  bool_decide (c ∈ [str "embed_tokens.weight"; str "norm.weight"; str "lm_head.weight"]).

Definition router_bias_name (layer : Z) : list Z :=
  str "layers." ++ dec_digits 20 layer ++ str ".mlp.gate.e_score_correction_bias".

Definition audit_required_weights (names : list (list Z)) : result unit :=
  let missing := filter (fun r => r ∉ names) REQUIRED_WEIGHTS in
  if bool_decide (missing = []) then Ok tt else Err (MissingRequiredWeights missing).

Definition audit_router_bias (names : list (list Z)) (n_layers : Z) : result unit :=
  for_each (fun layer =>
      let key := router_bias_name layer in
      if bool_decide (key ∈ names) then Ok tt else Err (MissingRouterBias key))
    (seqZ 0 n_layers).

(** The digits [s] starts with as a [usize], and the rest. *)
Definition take_uint (s : list Z) : option (Z * list Z) :=
  let n := count_while is_ascii_digit s in
  let digits := take n s in
  if bool_decide (digits = []) then None
  else
    v ← (if dec_val digits <? 2 ^ 64 then Some (dec_val digits) else None);
    Some (v, drop n s).

Definition is_qkv_proj_name (raw : list Z) : bool :=
  match strip_prefix (str "model.layers.") raw with
  | Some rest =>
    match take_uint rest with
    | Some (_, tail) => bool_decide (tail = str ".self_attn.qkv_proj.weight")
    | None => false
    end
  | None => false
  end.

Definition EXPERT_PROJ_WEIGHTS : list (list Z) :=
  [str "gate_proj.weight"; str "up_proj.weight"; str "down_proj.weight"].

Definition expert_name_parts (raw : list Z) : option (Z * Z) :=
  rest ← strip_prefix (str "model.layers.") raw;
  '(layer, rest) ← take_uint rest;
  rest ← strip_prefix (str ".mlp.experts.") rest;
  '(expert, rest) ← take_uint rest;
  rest ← strip_prefix (str ".") rest;
  if existsb (fun proj => bool_decide (rest = proj) || bool_decide (rest = proj ++ str "_scale")) EXPERT_PROJ_WEIGHTS
  then Some (layer, expert) else None.

Definition is_expert_name (raw : list Z) : bool := bool_decide (is_Some (expert_name_parts raw)).

Definition contains (text needle : list Z) : bool := bool_decide (is_Some (find needle text)).

Definition UNCLASSIFIED : list Z := str "UNCLASSIFIED".

Definition classify (raw : list Z) : list Z :=
  if is_expert_name raw then str "expert"
  else if starts_with raw (str "model.mtp.") then str "mtp"
  else if contains raw (str "dflash") || contains raw (str "draft") then str "dflash"
  else if existsb (starts_with raw) NON_BACKBONE_PREFIXES then str "audio/visual/speech"
  else if is_backbone_weight raw then str "backbone" else UNCLASSIFIED.

Record AuditReport := mkAuditReport {
  ar_tensors : Z;
  ar_kinds : list (list Z * Z);
  ar_qkv : Z;
}.

(** The state of the audit's loop: the report so far and the problems. *)
Definition audit_step (st : AuditReport * list (list Z)) (raw : list Z) : AuditReport * list (list Z) :=
  let '(rep, problems) := st in
  let k := classify raw in
  let kinds := map_insert k (default 0 (map_get k (ar_kinds rep)) + 1) (ar_kinds rep) in
  let problems := if bool_decide (k = UNCLASSIFIED) then problems ++ [raw] else problems in
  let problems :=
    if bool_decide (k = str "mtp") && negb (starts_with (canonical_name raw) (str "mtp."))
    then problems ++ [raw ++ str ": mtp prefix lost by canonicalisation"] else problems in
  (mkAuditReport (ar_tensors rep + 1) kinds
     (if is_qkv_proj_name raw then ar_qkv rep + 1 else ar_qkv rep), problems).

Definition audit_weight_map (names : list (list Z)) (expected_qkv_layers : Z) : result AuditReport :=
  let '(rep, problems) := foldl audit_step (mkAuditReport 0 [] 0, []) names in
  let problems :=
    if negb (ar_qkv rep =? expected_qkv_layers)
    then problems ++ [str "fused-QKV count " ++ dec_digits 20 (ar_qkv rep) ++ str " != "
                        ++ dec_digits 20 expected_qkv_layers]
    else problems in
  if negb (bool_decide (problems = [])) then Err (NameAudit problems) else Ok rep.

(** * Rows

    A matrix whose data has the length its shape says is the list of its rows. *)

Definition mat_wf {T} (m : Mat T) : Prop :=
  0 <= m_rows m /\ 0 <= m_cols m /\ Zlen (m_data m) = m_rows m * m_cols m.

(** The element at row [r] and column [c], and row [r]. *)
Definition m_at {T} (d : T) (m : Mat T) (r c : Z) : T := default d (m_data m !! Z.to_nat (r * m_cols m + c)).
Definition m_row {T} (d : T) (m : Mat T) (r : Z) : list T := m_at d m r <$> seqZ 0 (m_cols m).

Definition of_rows {T} (cols : Z) (rws : list (list T)) : Mat T := mkMat (Zlen rws) cols (concat rws).

Section rows.
Context {T : Type}.
Implicit Types (m : Mat T) (rws : list (list T)).

Lemma slice_m_row d m r : mat_wf m -> 0 <= r < m_rows m ->
  slice (m_data m) (r * m_cols m) (r * m_cols m + m_cols m) = m_row d m r.
Proof.
  intros (Hr & Hc & Hd) Hb. apply list_eq_same_length with (n := Z.to_nat (m_cols m)).
  - unfold m_row. by rewrite length_fmap, length_seqZ.
  - pose proof (slice_length (m_data m) (r * m_cols m) (r * m_cols m + m_cols m) ltac:(nia) ltac:(lia) ltac:(nia)). lia.
  - intros i x y Hi. unfold slice, m_row. rewrite list_lookup_fmap, lookup_seqZ_lt by lia.
    rewrite lookup_take_lt, lookup_drop by lia. cbn [fmap option_fmap option_map]. unfold m_at.
    replace (Z.to_nat (r * m_cols m) + i)%nat with (Z.to_nat (r * m_cols m + (0 + Z.of_nat i))) by nia.
    intros -> [= <-]. done.
Qed.

Lemma mat_of_rows d m : mat_wf m -> m = of_rows (m_cols m) (m_row d m <$> seqZ 0 (m_rows m)).
Proof.
  intros Hwf. pose proof Hwf as (Hr & Hc & Hd). destruct m as [R C data]. cbn [m_rows m_cols m_data] in *.
  unfold of_rows. rewrite length_fmap, length_seqZ, Z2Nat.id by lia. f_equal.
  pose proof (concat_slices data 0 C R ltac:(lia) Hc Hr) as Hs. rewrite Z.add_0_l, slice_whole in Hs by lia.
  rewrite <-Hs at 1. f_equal. apply list_fmap_ext. intros i r Hi. apply lookup_seqZ in Hi as [-> Hi].
  rewrite Z.add_0_l. apply (slice_m_row d (mkMat R C data)); cbn; [done|lia].
Qed.

Lemma m_row_length d m r : 0 <= m_cols m -> Zlen (m_row d m r) = m_cols m.
Proof. intros. unfold m_row. rewrite length_fmap, length_seqZ. lia. Qed.

Lemma of_rows_wf cols rws : 0 <= cols -> Forall (fun l => Zlen l = cols) rws -> mat_wf (of_rows cols rws).
Proof. intros Hc Hf. split; [cbn; lia|split; [done|]]. cbn. by apply concat_uniform_length. Qed.

Lemma get_of_rows cols rws r row c x : Forall (fun l => Zlen l = cols) rws ->
  rws !! r = Some row -> row !! c = Some x -> mat_get (of_rows cols rws) (Z.of_nat r) (Z.of_nat c) = Ok x.
Proof.
  intros Hf Hr Hx. pose proof (proj1 (Forall_lookup _ _) Hf _ _ Hr) as Hlen. cbn in Hlen.
  pose proof (lookup_lt_Some _ _ _ Hx) as Hc.
  destruct (slice_concat_uniform rws cols [] [] r row (Z.of_nat r * cols) (Z.of_nat r * cols + cols)
              Hf Hr ltac:(cbn; lia) eq_refl) as [Hs _].
  cbn [app] in Hs. rewrite app_nil_r in Hs. unfold mat_get. cbn [m_data m_cols of_rows]. apply idx_Some; [nia|].
  unfold slice in Hs. rewrite <-Hs in Hx.
  apply lookup_take_Some in Hx as [Hx _]. rewrite lookup_drop in Hx. rewrite <-Hx. f_equal. nia.
Qed.

Lemma get_m_at d m r c : mat_wf m -> 0 <= r < m_rows m -> 0 <= c < m_cols m -> mat_get m r c = Ok (m_at d m r c).
Proof.
  intros (_ & _ & Hd) Hr Hc. unfold mat_get, m_at. apply idx_Some; [nia|].
  destruct (lookup_lt_is_Some_2 (m_data m) (Z.to_nat (r * m_cols m + c))) as [x Hx]; [nia|].
  by rewrite Hx.
Qed.

(** A loop that sets the cells of one row from column to column. *)
Lemma fill_row (f : Z -> result T) rws old rest row :
  let R := Zlen rws + 1 + Zlen rest in
  let cols := Zlen row in
  Forall (fun l => Zlen l = cols) rws -> Zlen old = cols ->
  (forall c x, row !! c = Some x -> f (Z.of_nat c) = Ok x) ->
  fold_try (fun m c => x ← f c; mat_set m (Zlen rws) c x)
    (of_rows cols (rws ++ old :: rest)) (seqZ 0 cols) = Ok (of_rows cols (rws ++ row :: rest)).
Proof.
  intros R cols Hf Hold Hrow.
  assert (forall l rows data, fold_try (fun m c => x ← f c; mat_set m (Zlen rws) c x) (mkMat rows cols data) l
    = mkMat rows cols <$> fold_try (fun data c => x ← f c; idx_set data (Zlen rws * cols + c) x) data l) as Hlift.
  { induction l as [|c l IH]; intros rows data; [done|]. cbn [fold_try]. destruct (f c) as [x|e|]; [|done..].
    rewrite !ok_bind. unfold mat_set. cbn [m_data m_cols m_rows].
    destruct (idx_set data (Zlen rws * cols + c) x) as [data'|e|]; [|done..]. rewrite !ok_bind. apply IH. }
  unfold of_rows. rewrite !concat_app. cbn [concat]. rewrite Hlift.
  pose proof (fill_loop f row (concat rws) old (concat rest) (Zlen rws * cols)) as HF. fold cols in HF.
  rewrite HF.
  - cbn [fmap outcome_fmap]. rewrite !length_app. cbn [length]. done.
  - by rewrite (concat_uniform_length rws cols Hf).
  - lia.
  - done.
Qed.

(** A loop over the rows whose body fills each of them. *)
Lemma fill_rows (row : Mat T -> Z -> result (Mat T)) (f : Z -> Z -> result T) (g : Z -> list T) d rows cols :
  0 <= rows -> 0 <= cols ->
  (forall m r, 0 <= r < rows -> row m r = fold_try (fun m c => x ← f r c; mat_set m r c x) m (seqZ 0 cols)) ->
  (forall r, 0 <= r < rows -> Zlen (g r) = cols) ->
  (forall r c x, 0 <= r < rows -> g r !! c = Some x -> f r (Z.of_nat c) = Ok x) ->
  fold_try row (mkMat rows cols (replicate (Z.to_nat (rows * cols)) d)) (seqZ 0 rows)
  = Ok (of_rows cols (g <$> seqZ 0 rows)).
Proof.
  intros Hr Hc Hrow Hg Hf.
  assert (mkMat rows cols (replicate (Z.to_nat (rows * cols)) d)
    = of_rows cols (replicate (Z.to_nat rows) (replicate (Z.to_nat cols) d))) as ->.
  { unfold of_rows. rewrite length_replicate, Z2Nat.id by lia. f_equal.
    rewrite Z2Nat.inj_mul by lia. induction (Z.to_nat rows) as [|n IH]; [done|].
    cbn [replicate concat Nat.mul]. by rewrite replicate_add, IH. }
  set (z := replicate (Z.to_nat cols) d).
  destruct (fold_try_inv (fun k m => m = of_rows cols ((g <$> seqZ 0 k) ++ replicate (Z.to_nat (rows - k)) z))
              row (of_rows cols (replicate (Z.to_nat rows) z)) rows Hr) as (m & Hm & HP).
  - by rewrite Z.sub_0_r.
  - intros r m Hb ->. eexists. split; [|done]. rewrite Hrow by done.
    assert (Zlen (g <$> seqZ 0 r) = r) as Hlen by (rewrite length_fmap, length_seqZ; lia).
    replace (Z.to_nat (rows - r)) with (S (Z.to_nat (rows - (r + 1)))) by lia. cbn [replicate].
    pose proof (fill_row (f r) (g <$> seqZ 0 r) z (replicate (Z.to_nat (rows - (r + 1))) z) (g r)) as H.
    cbv zeta in H. rewrite Hg, Hlen in H by done. rewrite H; clear H.
    + rewrite (seqZ_app 0 r 1), fmap_app, Z.add_0_l by lia. change (seqZ r 1) with [r].
      by rewrite <-app_assoc.
    + apply Forall_forall. intros l (r' & -> & Hin)%list_elem_of_fmap. apply elem_of_seqZ in Hin. apply Hg. lia.
    + unfold z. rewrite length_replicate. lia.
    + intros c x Hx. by apply Hf.
  - rewrite Hm, HP. rewrite Z.sub_diag. cbn [replicate]. by rewrite app_nil_r.
Qed.

Lemma mat_slice_rows_of_rows cols rws lo hi : 0 <= cols -> Forall (fun l => Zlen l = cols) rws ->
  0 <= lo -> lo <= hi -> hi <= Zlen rws ->
  mat_slice_rows (of_rows cols rws) lo hi = Ok (of_rows cols (slice rws lo hi)).
Proof.
  intros Hc Hf Hlo Hhi Hlen. unfold mat_slice_rows. cbn [m_rows m_cols m_data of_rows].
  rewrite !(proj2 (Z.leb_le _ _)) by lia. cbn [andb].
  assert (rws = slice rws 0 lo ++ slice rws lo hi ++ slice rws hi (Zlen rws)) as Hsplit.
  { by rewrite <-slice_split, <-slice_split, slice_all by lia. }
  pose proof Hf as Hf'. rewrite Hsplit in Hf'. apply Forall_app in Hf' as [H1 [H2 _]%Forall_app].
  apply concat_uniform_length in H1, H2. rewrite !slice_length in H1, H2 by lia.
  assert (Zlen (concat rws) = Zlen rws * cols) as Hcat by (by apply concat_uniform_length).
  rewrite index_range_Ok by nia. rewrite ok_bind. unfold of_rows. rewrite slice_length by lia. do 2 f_equal.
  rewrite Hsplit at 1. rewrite !concat_app.
  rewrite slice_app_r by lia. rewrite H1.
  replace (lo * cols - (lo - 0) * cols) with 0 by lia.
  replace (hi * cols - (lo - 0) * cols) with (Zlen (concat (slice rws lo hi))) by lia.
  rewrite slice_app_l by lia. apply slice_all.
Qed.

Lemma stack_of_rows cols (parts : list (list (list T))) : parts <> [] -> Zlen (concat parts) < 2 ^ 64 ->
  mat_stack_rows (of_rows cols <$> parts) = Ok (of_rows cols (concat parts)).
Proof.
  intros Hne Hlen.
  assert (forall acc : list (list T), Zlen acc + Zlen (concat parts) < 2 ^ 64 ->
    fold_try (stack_step cols) (of_rows cols acc) (of_rows cols <$> parts) = Ok (of_rows cols (acc ++ concat parts))) as H.
  { clear. induction parts as [|p parts IH]; intros acc Hlen; cbn [fmap list_fmap fold_try concat].
    { by rewrite app_nil_r. }
    cbn [concat] in Hlen. rewrite length_app in Hlen.
    assert (stack_step cols (of_rows cols acc) (of_rows cols p) = Ok (of_rows cols (acc ++ p))) as ->.
    { unfold stack_step, usize_add. cbn [m_rows m_cols m_data of_rows].
      rewrite Z.eqb_refl, (proj2 (Z.ltb_lt _ _)) by lia. cbn [negb]. rewrite ok_bind. unfold of_rows.
      by rewrite length_app, Nat2Z.inj_add, concat_app. }
    rewrite ok_bind, IH by (rewrite length_app; lia). by rewrite <-app_assoc. }
  destruct parts as [|p parts]; [done|]. unfold mat_stack_rows. cbn [fmap list_fmap].
  specialize (H []). cbn [app] in H. apply H. cbn [length]; lia.
Qed.
End rows.

(** * What the reconstruction computes *)

(** Row [r] of a shard: each code times the scale of its block in the shard's own grid. *)
Definition dequantized_row (br bc cols : Z) (w : Mat Z) (s : Mat spec_float) (r : Z) : list spec_float :=
  (fun c => dequantize_code (m_at 0 w r c) (m_at (S754_zero false) s (r / br) (c / bc))) <$> seqZ 0 cols.

(** The rows in projection-major order: for each projection, for each shard in turn, the
    shard's rows of that projection. *)
Definition regrouped (br bc cols : Z) (bounds : list (Z * Z)) (shards : list (Mat Z * Mat spec_float))
    : list (list spec_float) :=
  concat ((fun '(lo, hi) =>
    concat ((fun '(w, s) => dequantized_row br bc cols w s <$> seqZ lo (hi - lo)) <$> shards)) <$> bounds).

Definition segment_bounds (q k v : Z) : list (Z * Z) := [(0, q); (q, q + k); (q + k, q + k + v)].

(** A shard of the shape the loader is given: [total] rows of [cols] codes, and a grid of a
    scale for each [br] x [bc] block, perhaps with more rows than the shard needs. *)
Record shard_ok (br bc total cols : Z) (shard : Mat Z * Mat spec_float) : Prop := {
  so_weight : mat_wf shard.1;
  so_rows : m_rows shard.1 = total;
  so_cols : m_cols shard.1 = cols;
  so_scale : mat_wf shard.2;
  so_scale_cols : m_cols shard.2 = cols / bc;
  so_scale_rows : total <= br * m_rows shard.2;
}.

Lemma concat_fmap_Zlen {A B} (f : A -> list B) (l : list A) n :
  (forall x, x ∈ l -> Zlen (f x) = n) -> Zlen (concat (f <$> l)) = Zlen l * n.
Proof.
  induction l as [|x l IH]; intros H; [done|]. cbn [fmap list_fmap concat length].
  rewrite length_app, Nat2Z.inj_add, IH, H by set_solver. lia.
Qed.

Lemma zip_with_concat {A B C D} (f : A -> B -> C) (F : D -> list A) (G : D -> list B) (l : list D) :
  (forall x, x ∈ l -> length (F x) = length (G x)) ->
  zip_with f (concat (F <$> l)) (concat (G <$> l)) = concat ((fun x => zip_with f (F x) (G x)) <$> l).
Proof.
  induction l as [|x l IH]; intros H; [done|]. cbn [fmap list_fmap concat].
  rewrite zip_with_app by (apply H; set_solver). f_equal. apply IH. set_solver.
Qed.

Lemma zip_with_fmaps {A B C D} (f : A -> B -> C) (a : D -> A) (b : D -> B) (l : list D) :
  zip_with f (a <$> l) (b <$> l) = (fun x => f (a x) (b x)) <$> l.
Proof. induction l as [|x l IH]; [done|]. cbn. by rewrite <-IH. Qed.

Lemma slice_fmap_seqZ {A} (g : Z -> A) n lo hi : 0 <= lo -> lo <= hi -> hi <= n ->
  slice (g <$> seqZ 0 n) lo hi = g <$> seqZ lo (hi - lo).
Proof.
  intros. replace n with (lo + ((hi - lo) + (n - hi))) by lia.
  rewrite !(seqZ_app 0), (seqZ_app lo), !fmap_app by lia.
  rewrite slice_app_r, slice_app_l by (rewrite ?length_fmap, ?length_seqZ; lia).
  rewrite length_fmap, length_seqZ, Z2Nat.id, Z.sub_diag by lia.
  apply slice_whole. rewrite length_fmap, length_seqZ. lia.
Qed.

Section reconstruct.
Context (br bc q k v cols : Z).
Context (Hbr : 0 < br) (Hbc : 0 < bc) (Hq : 0 <= q) (Hk : 0 <= k) (Hv : 0 <= v) (Hcols : 0 <= cols).
Context (Hdiv : (bc | cols)).
#[local] Abbreviation total := (q + k + v).
Context (shards : list (Mat Z * Mat spec_float)).
Context (Hne : shards <> []) (Hok : Forall (shard_ok br bc total cols) shards).
Context (Hsize : Zlen shards * total * (cols + 1) < 2 ^ 64).

#[local] Abbreviation z := (S754_zero false).

Definition seg_weights (lo hi : Z) (shard : Mat Z * Mat spec_float) : list (list Z) :=
  m_row 0 shard.1 <$> seqZ lo (hi - lo).
Definition seg_scales (lo hi : Z) (shard : Mat Z * Mat spec_float) : list (list spec_float) :=
  (fun r => m_row z shard.2 (r / br)) <$> seqZ lo (hi - lo).

Lemma scale_cols_le : 0 <= cols / bc <= cols.
Proof. split; [apply Z.div_pos; lia|]. apply Z.div_le_upper_bound; nia. Qed.

Lemma size_one : total * (cols + 1) < 2 ^ 64.
Proof.
  destruct shards as [|x l]; [done|]. cbn [length] in Hsize. nia.
Qed.

Lemma segment_scales_ok lo hi shard : shard_ok br bc total cols shard -> 0 <= lo -> lo <= hi -> hi <= total ->
  segment_scales shard.1 shard.2 br bc lo hi = Ok (of_rows (cols / bc) (seg_scales lo hi shard)).
Proof.
  intros [_ _ Hwc Hs Hsc Hsr] Hlo Hhi Htot. pose proof scale_cols_le. pose proof size_one.
  unfold segment_scales, usize_div. rewrite (proj2 (Z.eqb_neq _ _)), Hwc by lia. rewrite ok_bind.
  unfold zeros, usize_mul. rewrite (proj2 (Z.ltb_lt _ _)) by nia. rewrite !ok_bind.
  assert (forall r, 0 <= r < hi - lo -> 0 <= (lo + r) / br < m_rows shard.2) as Hin.
  { intros r Hr. split; [apply Z.div_pos; lia|]. apply Z.div_lt_upper_bound; lia. }
  rewrite (fill_rows _ (fun r c => mat_get shard.2 ((lo + r) / br) c) (fun r => m_row z shard.2 ((lo + r) / br))).
  - do 2 f_equal. unfold seg_scales.
    replace (seqZ lo (hi - lo)) with (Z.add lo <$> seqZ 0 (hi - lo)) by (rewrite fmap_add_seqZ; f_equal; lia).
    by rewrite <-list_fmap_compose.
  - lia.
  - lia.
  - intros m r Hr. unfold fill_scale_row, usize_div. rewrite !(proj2 (Z.eqb_neq _ _)), ok_bind by lia.
    rewrite Z.geb_leb, (proj2 (Z.leb_gt _ _)), Hwc by (apply Hin; lia). done.
  - intros r Hr. rewrite <-Hsc. apply m_row_length. lia.
  - intros r c x Hr Hx. unfold m_row in Hx. apply list_lookup_fmap_Some in Hx as (c' & -> & Hc).
    apply lookup_seqZ in Hc as [-> Hc]. rewrite Z.add_0_l. apply get_m_at; [done|by apply Hin|lia].
Qed.

Lemma slice_weights_ok lo hi shard : shard_ok br bc total cols shard -> 0 <= lo -> lo <= hi -> hi <= total ->
  mat_slice_rows shard.1 lo hi = Ok (of_rows cols (seg_weights lo hi shard)).
Proof.
  intros [Hw Hr Hc _ _ _] Hlo Hhi Htot. rewrite (mat_of_rows 0 shard.1 Hw), Hc, mat_slice_rows_of_rows.
  - by rewrite slice_fmap_seqZ by lia.
  - done.
  - apply Forall_forall. intros l (r & -> & _)%list_elem_of_fmap. rewrite m_row_length; lia.
  - done.
  - done.
  - rewrite length_fmap, length_seqZ. lia.
Qed.

(** The accumulator of a projection after some shards. *)
Definition acc_of (done : list (Mat Z * Mat spec_float)) (x : list Z * (Z * Z)) : Accumulator :=
  (x.1, of_rows cols <$> (seg_weights x.2.1 x.2.2 <$> done),
        of_rows (cols / bc) <$> (seg_scales x.2.1 x.2.2 <$> done)).

Definition bounds_ok (x : list Z * (Z * Z)) : Prop := 0 <= x.2.1 /\ x.2.1 <= x.2.2 /\ x.2.2 <= total.

Lemma split_shard_ok done shard nb : shard_ok br bc total cols shard -> Forall bounds_ok nb ->
  split_shard br bc nb.*2 (acc_of done <$> nb) shard = Ok (acc_of (done ++ [shard]) <$> nb).
Proof.
  intros Hsh. unfold split_shard. induction 1 as [|[name [lo hi]] nb (H1 & H2 & H3) _ IH]; [reflexivity|].
  cbn [fst snd] in H1, H2, H3. cbn [fmap list_fmap zip zip_with fst snd]. apply mapM_cons.
  eexists _, _. split; [|split; [exact IH|reflexivity]].
  unfold split_segment, acc_of at 1. cbn [fst snd]. rewrite segment_scales_ok, ok_bind by done.
  rewrite slice_weights_ok, ok_bind by done. unfold acc_of. cbn [fst snd]. by rewrite !fmap_app.
Qed.

Lemma split_shards_ok done todo nb : Forall (shard_ok br bc total cols) todo -> Forall bounds_ok nb ->
  fold_try (split_shard br bc nb.*2) (acc_of done <$> nb) todo = Ok (acc_of (done ++ todo) <$> nb).
Proof.
  intros Ht Hnb. revert done. induction Ht as [|shard todo Hsh _ IH]; intros done; cbn [fold_try].
  { by rewrite app_nil_r. }
  rewrite split_shard_ok, ok_bind, IH by done. by rewrite <-app_assoc.
Qed.

Lemma seg_weights_length lo hi shard : lo <= hi -> Zlen (seg_weights lo hi shard) = hi - lo.
Proof. intros. unfold seg_weights. rewrite length_fmap, length_seqZ. lia. Qed.
Lemma seg_scales_length lo hi shard : lo <= hi -> Zlen (seg_scales lo hi shard) = hi - lo.
Proof. intros. unfold seg_scales. rewrite length_fmap, length_seqZ. lia. Qed.

Lemma stack_projection_ok x : bounds_ok x ->
  stack_projection (acc_of shards x) = Ok (mkProjection x.1
    (of_rows cols (concat (seg_weights x.2.1 x.2.2 <$> shards)))
    (of_rows (cols / bc) (concat (seg_scales x.2.1 x.2.2 <$> shards)))).
Proof.
  intros (H1 & H2 & H3). unfold stack_projection, acc_of.
  assert (forall A (f : Mat Z * Mat spec_float -> list (list A)), f <$> shards <> []) as Hn.
  { intros A f. by destruct shards. }
  assert (Zlen shards * (x.2.2 - x.2.1) < 2 ^ 64) by nia.
  rewrite !stack_of_rows; [by rewrite !ok_bind|done| |done|].
  - rewrite (concat_fmap_Zlen _ _ (x.2.2 - x.2.1)); [done|]. intros. by apply seg_weights_length.
  - rewrite (concat_fmap_Zlen _ _ (x.2.2 - x.2.1)); [done|]. intros. by apply seg_scales_length.
Qed.

(** One row from its codes and its scales. *)
Definition deq_row (wr : list Z) (sr : list spec_float) : list spec_float :=
  (fun c => dequantize_code (default 0 (wr !! Z.to_nat c)) (default z (sr !! Z.to_nat (c / bc)))) <$> seqZ 0 cols.

Lemma deq_row_rows w s r r' : m_cols w = cols -> m_cols s = cols / bc ->
  deq_row (m_row 0 w r) (m_row z s r')
  = (fun c => dequantize_code (m_at 0 w r c) (m_at z s r' (c / bc))) <$> seqZ 0 cols.
Proof.
  intros Hw Hs. apply list_fmap_ext. intros i c Hi. apply lookup_seqZ in Hi as [-> Hi]. rewrite Z.add_0_l.
  assert (0 <= Z.of_nat i / bc < cols / bc) as Hb.
  { destruct Hdiv as [n Hn]. rewrite Hn in *. rewrite Z.div_mul by lia. split; [apply Z.div_pos; lia|].
    apply Z.div_lt_upper_bound; lia. }
  unfold m_row. rewrite !list_lookup_fmap, !lookup_seqZ_lt by lia. cbn [fmap option_fmap option_map default].
  by rewrite Z.add_0_l, Nat2Z.id, Z.add_0_l, Z2Nat.id by lia.
Qed.

Lemma dequantize_per_row_ok name W S : length W = length S ->
  Forall (fun l => Zlen l = cols) W -> Forall (fun l => Zlen l = cols / bc) S ->
  Zlen W * cols < 2 ^ 64 ->
  dequantize_per_row (mkProjection name (of_rows cols W) (of_rows (cols / bc) S)) (br, bc)
  = Ok (of_rows cols (zip_with deq_row W S)).
Proof.
  intros Hl HW HS Hsz. unfold dequantize_per_row, usize_div. cbn [rp_weight rp_scale_per_row m_rows m_cols of_rows].
  rewrite (proj2 (Z.eqb_neq bc 0)) by lia. rewrite ok_bind, Hl, !Z.eqb_refl. cbn [negb orb].
  unfold zeros, usize_mul. rewrite (proj2 (Z.ltb_lt _ _)) by (rewrite <-Hl; lia). rewrite !ok_bind.
  change {| m_rows := Zlen W; m_cols := cols; m_data := concat W |} with (of_rows cols W).
  set (g r := deq_row (W !!! Z.to_nat r) (S !!! Z.to_nat r)).
  rewrite (fill_rows _ (fun r c => dequantize_at (of_rows cols W) (of_rows (cols / bc) S) bc r r c) g).
  - do 2 f_equal. apply list_eq_same_length with (n := length W).
    + rewrite length_zip_with. lia.
    + rewrite length_fmap, length_seqZ. lia.
    + intros i x y Hi. rewrite list_lookup_fmap, lookup_seqZ_lt by lia. cbn [fmap option_fmap option_map].
      intros [= <-] (wr & sr & -> & Hw & Hs)%lookup_zip_with_Some. unfold g.
      rewrite Z.add_0_l, Nat2Z.id. by rewrite (list_lookup_total_correct _ _ _ Hw), (list_lookup_total_correct _ _ _ Hs).
  - lia.
  - lia.
  - done.
  - intros r Hr. unfold g, deq_row. rewrite length_fmap, length_seqZ. lia.
  - intros r c x Hr Hx. unfold g, deq_row in Hx. apply list_lookup_fmap_Some in Hx as (c' & -> & Hc).
    apply lookup_seqZ in Hc as [-> Hc]. rewrite Z.add_0_l in *.
    destruct (lookup_lt_is_Some_2 W (Z.to_nat r)) as [wr Hw]; [lia|].
    destruct (lookup_lt_is_Some_2 S (Z.to_nat r)) as [sr Hs]; [lia|].
    pose proof (proj1 (Forall_lookup _ _) HW _ _ Hw) as Hwl. pose proof (proj1 (Forall_lookup _ _) HS _ _ Hs) as Hsl.
    cbn in Hwl, Hsl. rewrite (list_lookup_total_correct _ _ _ Hw), (list_lookup_total_correct _ _ _ Hs), Nat2Z.id.
    assert (0 <= Z.of_nat c / bc < cols / bc) as Hb.
    { destruct Hdiv as [n Hn]. rewrite Hn in *. rewrite Z.div_mul by lia. split; [apply Z.div_pos; lia|].
      apply Z.div_lt_upper_bound; lia. }
    destruct (lookup_lt_is_Some_2 wr c) as [code Hcode]; [lia|].
    destruct (lookup_lt_is_Some_2 sr (Z.to_nat (Z.of_nat c / bc))) as [scale Hscale]; [lia|].
    unfold dequantize_at. rewrite <-(Z2Nat.id r) by lia. rewrite (get_of_rows _ _ _ _ _ _ HW Hw Hcode), ok_bind.
    unfold usize_div. rewrite (proj2 (Z.eqb_neq _ _)), ok_bind by lia.
    rewrite <-(Z2Nat.id (Z.of_nat c / bc)) by lia. rewrite (get_of_rows _ _ _ _ _ _ HS Hs Hscale), ok_bind.
    by rewrite Hcode, Z2Nat.id, Hscale by lia.
Qed.

Lemma rows_uniform {A} (m : Mat Z * Mat spec_float -> Mat A) d (f : Z -> Z) lo hi n :
  0 <= n -> (forall sh, sh ∈ shards -> m_cols (m sh) = n) ->
  Forall (fun l => Zlen l = n) (concat ((fun sh => (fun r => m_row d (m sh) (f r)) <$> seqZ lo (hi - lo)) <$> shards)).
Proof.
  intros Hn Hc. apply Forall_concat, Forall_fmap, Forall_forall. intros sh Hsh. cbn.
  apply Forall_fmap, Forall_forall. intros r _. cbn. rewrite m_row_length; rewrite Hc; done.
Qed.

Lemma projection_ok x : bounds_ok x ->
  dequantize_per_row (mkProjection x.1
    (of_rows cols (concat (seg_weights x.2.1 x.2.2 <$> shards)))
    (of_rows (cols / bc) (concat (seg_scales x.2.1 x.2.2 <$> shards)))) (br, bc)
  = Ok (of_rows cols (regrouped br bc cols [x.2] shards)).
Proof.
  intros (H1 & H2 & H3). destruct x as [name [lo hi]]. cbn [fst snd] in *. pose proof scale_cols_le.
  pose proof (proj1 (Forall_forall _ _) Hok) as HF.
  assert (Zlen (concat (seg_weights lo hi <$> shards)) = Zlen shards * (hi - lo)) as HW.
  { apply concat_fmap_Zlen. intros. by apply seg_weights_length. }
  assert (Zlen (concat (seg_scales lo hi <$> shards)) = Zlen shards * (hi - lo)) as HS.
  { apply concat_fmap_Zlen. intros. by apply seg_scales_length. }
  rewrite dequantize_per_row_ok.
  - do 2 f_equal. unfold regrouped. cbn [fmap list_fmap concat]. rewrite app_nil_r, zip_with_concat.
    2:{ intros sh _. pose proof (seg_weights_length lo hi sh H2). pose proof (seg_scales_length lo hi sh H2). lia. }
    f_equal. apply list_fmap_ext. intros i [w s] Hi. apply list_elem_of_lookup_2, HF in Hi. cbn [fst snd].
    unfold seg_weights, seg_scales. rewrite zip_with_fmaps. apply list_fmap_ext. intros j r _.
    apply deq_row_rows; [apply Hi|apply Hi].
  - lia.
  - apply (rows_uniform fst 0 (fun r => r)); [done|]. intros sh Hsh%HF. apply Hsh.
  - apply (rows_uniform snd z (fun r => r / br)); [lia|]. intros sh Hsh%HF. apply Hsh.
  - rewrite HW. apply Z.le_lt_trans with (2 := Hsize). apply Z.mul_le_mono_nonneg; nia.
Qed.

Lemma check_segments_ok (ws : list (Mat Z)) i : Forall (fun w => m_rows w = total) ws ->
  for_each (fun '(i, w) => if negb (m_rows w =? total) then Err (SegmentMismatch i (m_rows w) total) else Ok tt)
    (enumerate_from i ws) = Ok tt.
Proof.
  intros H. revert i. induction H as [|w ws Hw _ IH]; intros i; [done|]. cbn [enumerate_from for_each].
  rewrite Hw, Z.eqb_refl. cbn [negb]. rewrite ok_bind. apply IH.
Qed.
End reconstruct.

Lemma dedup_same x n l : Forall (fun y => y = x) l -> length l = S n -> dedup l = [x].
Proof.
  revert n. induction l as [|y l IH]; intros n H Hlen; [done|].
  apply Forall_cons in H as [-> H]. destruct l as [|y l]; [done|]. pose proof H as [-> _]%Forall_cons.
  cbn [dedup]. rewrite Z.eqb_refl. by apply (IH (length l)).
Qed.

Lemma sort_by_same x n : sort_by Z.compare (replicate n x) = replicate n x.
Proof.
  induction n as [|n IH]; [done|]. change (sort_insert Z.compare x (sort_by Z.compare (replicate n x)) = x :: replicate n x).
  rewrite IH. destruct n as [|n]; [done|]. cbn. by rewrite Z.compare_refl.
Qed.

Lemma distinct_rows (ws : list (Mat Z)) total : ws <> [] -> Forall (fun w => m_rows w = total) ws ->
  dedup (sort_by Z.compare (m_rows <$> ws)) = [total].
Proof.
  intros Hne Hf. assert (m_rows <$> ws = replicate (length ws) total) as ->.
  { clear Hne. induction Hf as [|w ws Hw _ IH]; [done|]. cbn. by rewrite Hw, IH. }
  rewrite sort_by_same. destruct ws as [|w ws]; [done|].
  apply (dedup_same _ (length ws)); [|by rewrite length_replicate]. apply Forall_replicate. done.
Qed.

(** The shape of the input: at least one shard, a grid for each, and sizes that fit. *)
Record shards_ok (br bc q k v cols : Z) (shards : list (Mat Z * Mat spec_float)) : Prop := {
  sh_block : 0 < br /\ 0 < bc;
  sh_segments : 0 <= q /\ 0 <= k /\ 0 <= v;
  sh_cols : 0 <= cols /\ (bc | cols);
  sh_some : shards <> [];
  sh_each : Forall (shard_ok br bc (q + k + v) cols) shards;
  sh_size : Zlen shards * (q + k + v) * (cols + 1) < 2 ^ 64;
}.

Lemma segment_total_ok br bc q k v cols shards : shards_ok br bc q k v cols shards ->
  segment_total (q, k, v) = Ok (q + k + v).
Proof.
  intros [_ (Hq & Hk & Hv) (Hc & _) Hne _ Hsize]. unfold segment_total, usize_add.
  destruct shards as [|sh shards]; [done|]. cbn [length] in Hsize.
  assert (q + k + v < 2 ^ 64) by nia. rewrite !(proj2 (Z.ltb_lt _ _)) by lia. by rewrite ok_bind, (proj2 (Z.ltb_lt _ _)) by lia.
Qed.

Lemma split_ok br bc q k v cols shards : shards_ok br bc q k v cols shards ->
  let part name lo hi := mkProjection (str name)
    (of_rows cols (concat (seg_weights lo hi <$> shards)))
    (of_rows (cols / bc) (concat (seg_scales br lo hi <$> shards))) in
  split_shard_major_fused shards.*1 shards.*2 (q, k, v) (br, bc)
  = Ok (mkSplitParts (part "q" 0 q) (part "k" q (q + k)) (part "v" (q + k) (q + k + v))).
Proof.
  intros Hsh part. pose proof (segment_total_ok _ _ _ _ _ _ _ Hsh) as Htot.
  destruct Hsh as [(Hbr & Hbc) (Hq & Hk & Hv) (Hc & Hdiv) Hne Hok Hsize]. unfold split_shard_major_fused.
  rewrite bool_decide_false, (bool_decide_true (length _ = _)) by (try (by rewrite !length_fmap); by destruct shards).
  cbn [negb orb]. rewrite Htot, ok_bind. unfold check_segments. rewrite check_segments_ok, ok_bind.
  2:{ apply Forall_fmap, (Forall_impl _ _ _ Hok). intros sh []. done. }
  set (nb := [(str "q", (0, q)); (str "k", (q, q + k)); (str "v", (q + k, q + k + v))]).
  pose proof (split_shards_ok br bc q k v cols Hbr Hbc Hq Hk Hv Hc shards Hne Hok Hsize [] shards nb Hok) as Hsplit.
  assert (Forall (bounds_ok q k v) nb) as Hnb by (repeat constructor; cbn; lia).
  rewrite zip_fst_snd. specialize (Hsplit Hnb). cbn [app] in Hsplit.
  change (acc_of br bc cols [] <$> nb)
    with [(str "q", [] : list (Mat Z), [] : list (Mat spec_float)); (str "k", [], []); (str "v", [], [])] in Hsplit.
  change nb.*2 with [(0, q); (q, q + k); (q + k, q + k + v)] in Hsplit. rewrite Hsplit, ok_bind.
  unfold nb. cbn [fmap list_fmap mapM].
  inversion Hnb as [|? ? H1 Hnb2]; subst. inversion Hnb2 as [|? ? H2 Hnb3]; subst. inversion Hnb3 as [|? ? H3 _]; subst.
  rewrite !(stack_projection_ok br bc q k v cols) by done. by rewrite !ok_bind.
Qed.

Lemma reconstruct_ok br bc q k v cols shards : shards_ok br bc q k v cols shards ->
  reconstruct_layer_qkv shards.*1 shards.*2 (q, k, v) (br, bc) false
  = Ok (of_rows cols (regrouped br bc cols (segment_bounds q k v) shards)).
Proof.
  intros Hsh. pose proof (segment_total_ok _ _ _ _ _ _ _ Hsh) as Htot. pose proof (split_ok _ _ _ _ _ _ _ Hsh) as Hsplit.
  destruct Hsh as [(Hbr & Hbc) (Hq & Hk & Hv) (Hc & Hdiv) Hne Hok Hsize]. unfold reconstruct_layer_qkv.
  rewrite bool_decide_false, (bool_decide_true (length _ = _)) by (try (by rewrite !length_fmap); by destruct shards).
  cbn [negb orb].
  assert (Forall (fun w => m_rows w = q + k + v) shards.*1) as Hrows.
  { apply Forall_fmap, (Forall_impl _ _ _ Hok). intros sh []. done. }
  rewrite (distinct_rows _ (q + k + v)) by (try done; by destruct shards). cbn [length].
  rewrite bool_decide_true by done. cbn [negb]. rewrite Htot, ok_bind. unfold check_segments.
  rewrite check_segments_ok, ok_bind by done. cbv zeta in Hsplit. rewrite Hsplit, ok_bind. cbn [sp_q sp_k sp_v].
  assert (forall name lo hi, 0 <= lo -> lo <= hi -> hi <= q + k + v ->
    dequantize_per_row (mkProjection name (of_rows cols (concat (seg_weights lo hi <$> shards)))
      (of_rows (cols / bc) (concat (seg_scales br lo hi <$> shards)))) (br, bc)
    = Ok (of_rows cols (regrouped br bc cols [(lo, hi)] shards))) as Hproj.
  { intros name lo hi H1 H2 H3. by apply (projection_ok br bc q k v cols Hbc Hc Hdiv shards Hok Hsize (name, (lo, hi))). }
  rewrite !Hproj by lia.
  rewrite !ok_bind.
  pose proof (stack_of_rows cols ((fun b => regrouped br bc cols [b] shards) <$> segment_bounds q k v)) as Hst.
  cbn [segment_bounds fmap list_fmap] in Hst. rewrite Hst; [|done|].
  - do 2 f_equal. unfold regrouped. cbn [segment_bounds fmap list_fmap concat]. by rewrite !app_nil_r.
  - cbn [concat]. rewrite app_nil_r, !length_app, !Nat2Z.inj_add.
    assert (forall lo hi, lo <= hi -> Zlen (regrouped br bc cols [(lo, hi)] shards) = Zlen shards * (hi - lo)) as Hlen.
    { intros lo hi Hle. unfold regrouped. cbn [fmap list_fmap concat]. rewrite app_nil_r.
      apply concat_fmap_Zlen. intros [w s] _. rewrite length_fmap, length_seqZ. lia. }
    rewrite !Hlen by lia. apply Z.le_lt_trans with (2 := Hsize). nia.
Qed.

(** ** One shard

    With a single shard nothing is regrouped, and the naive reading is the same. *)
Lemma stack_one {T} (d : T) (m : Mat T) : mat_wf m -> m_rows m < 2 ^ 64 -> mat_stack_rows [m] = Ok m.
Proof.
  intros Hm Hlt. pose proof (stack_of_rows (m_cols m) [m_row d m <$> seqZ 0 (m_rows m)]) as H.
  cbn [fmap list_fmap concat] in H. rewrite app_nil_r, <-(mat_of_rows d m Hm) in H. apply H; [done|].
  destruct Hm. rewrite length_fmap, length_seqZ. lia.
Qed.

Lemma naive_one br bc q k v cols w s : shards_ok br bc q k v cols [(w, s)] -> m_rows s < 2 ^ 64 ->
  dequantize_naive_fused [w] [s] (br, bc)
  = Ok (of_rows cols (dequantized_row br bc cols w s <$> seqZ 0 (q + k + v))).
Proof.
  intros [(Hbr & Hbc) (Hq & Hk & Hv) (Hc & Hdiv) _ Hok Hsize] Hfit. apply Forall_cons in Hok as [[Hw Hr Hwc Hs Hsc Hsr] _].
  cbn [fst snd length] in *. assert ((q + k + v) * cols < 2 ^ 64) by nia. assert (q + k + v < 2 ^ 64) by nia.
  unfold dequantize_naive_fused. rewrite bool_decide_false, bool_decide_true by done. cbn [negb orb].
  rewrite (stack_one 0), ok_bind by (done || lia). rewrite (stack_one (S754_zero false)), ok_bind by done.
  rewrite Hr, Hwc. unfold zeros, usize_mul. rewrite (proj2 (Z.ltb_lt _ _)), !ok_bind by lia.
  assert (forall r, 0 <= r < q + k + v -> 0 <= r / br < m_rows s) as Hin.
  { intros r Hb. split; [apply Z.div_pos; lia|]. apply Z.div_lt_upper_bound; lia. }
  apply (fill_rows _ (fun r c => dequantize_at w s bc (r / br) r c)); [lia|done| | |].
  - intros m r Hb. unfold usize_div at 1. rewrite (proj2 (Z.eqb_neq br 0)), ok_bind by lia.
    rewrite Z.geb_leb, (proj2 (Z.leb_gt _ _)) by (by apply Hin). done.
  - intros r _. unfold dequantized_row. rewrite length_fmap, length_seqZ. lia.
  - intros r c x Hb Hx. unfold dequantized_row in Hx. apply list_lookup_fmap_Some in Hx as (c' & -> & Hcl).
    apply lookup_seqZ in Hcl as [-> Hcl]. rewrite Z.add_0_l in *.
    assert (0 <= Z.of_nat c / bc < cols / bc) as Hblk.
    { destruct Hdiv as [n Hn]. rewrite Hn in *. rewrite Z.div_mul by lia. split; [apply Z.div_pos; lia|].
      apply Z.div_lt_upper_bound; lia. }
    unfold dequantize_at. rewrite (get_m_at 0), ok_bind by (done || lia).
    unfold usize_div. rewrite (proj2 (Z.eqb_neq bc 0)), ok_bind by lia.
    by rewrite (get_m_at (S754_zero false)), ok_bind by (done || lia || by apply Hin).
Qed.

Lemma regrouped_one br bc q k v cols w s : 0 <= q -> 0 <= k -> 0 <= v ->
  regrouped br bc cols (segment_bounds q k v) [(w, s)] = dequantized_row br bc cols w s <$> seqZ 0 (q + k + v).
Proof.
  intros. unfold regrouped. cbn [segment_bounds fmap list_fmap concat]. rewrite !app_nil_r, <-!fmap_app. f_equal.
  rewrite !seqZ_app by lia. rewrite !Z.add_0_l, <-app_assoc. f_equal; [f_equal; lia|]. f_equal; f_equal; lia.
Qed.

(** ** Padding

    Two grids that agree on the rows a shard of [total] rows needs. *)
Definition same_scales (br total : Z) (sh sh' : Mat Z * Mat spec_float) : Prop :=
  sh.1 = sh'.1 /\ m_cols sh.2 = m_cols sh'.2 /\
  let used := Z.to_nat ((total + br - 1) / br * m_cols sh.2) in
  take used (m_data sh.2) = take used (m_data sh'.2).

Lemma same_scales_at br total sh sh' r b : 0 < br -> same_scales br total sh sh' ->
  0 <= r < total -> 0 <= b < m_cols sh.2 ->
  m_at (S754_zero false) sh.2 (r / br) b = m_at (S754_zero false) sh'.2 (r / br) b.
Proof.
  intros Hbr (_ & Hc & Ht) Hr Hb. unfold m_at. rewrite <-Hc. f_equal. cbv zeta in Ht.
  assert (r / br < (total + br - 1) / br) as Hlt.
  { apply Z.lt_le_trans with (r / br + 1); [lia|]. apply Z.div_le_lower_bound; [lia|].
    pose proof (Z.mul_div_le r br Hbr). lia. }
  pose proof (Z.div_pos r br ltac:(lia) Hbr).
  rewrite <-(lookup_take_lt _ (Z.to_nat ((total + br - 1) / br * m_cols sh.2))) by (apply Z2Nat.inj_lt; nia).
  rewrite Ht. apply lookup_take_lt. apply Z2Nat.inj_lt; nia.
Qed.

Lemma regrouped_padding br bc q k v cols shards shards' : 0 <= q -> 0 <= k -> 0 <= v ->
  0 < br -> 0 < bc -> (bc | cols) -> Forall (shard_ok br bc (q + k + v) cols) shards ->
  Forall2 (same_scales br (q + k + v)) shards shards' ->
  regrouped br bc cols (segment_bounds q k v) shards = regrouped br bc cols (segment_bounds q k v) shards'.
Proof.
  intros Hq Hk Hv Hbr Hbc Hdiv Hok Hsame. unfold regrouped. f_equal. apply list_fmap_ext. intros i [lo hi] Hb.
  assert (0 <= lo /\ hi <= q + k + v) as [Hlo Hhi].
  { apply list_elem_of_lookup_2 in Hb. unfold segment_bounds in Hb. set_unfold in Hb. naive_solver lia. }
  f_equal. clear Hb. induction Hsame as [|[w s] [w' s'] shards shards' Hs _ IH]; [done|].
  apply Forall_cons in Hok as [[Hw Hr Hwc Hsw Hsc Hsr] Hok]. cbn [fmap list_fmap]. f_equal; [|by apply IH]. clear IH.
  pose proof Hs as (Hww & _). cbn [fst snd] in *. subst w'.
  apply list_fmap_ext. intros j r Hj. apply lookup_seqZ in Hj as [-> Hj].
  apply list_fmap_ext. intros j' c Hj'. apply lookup_seqZ in Hj' as [-> Hj'].
  f_equal. apply (same_scales_at br (q + k + v) (w, s) (w, s')); [done|done|lia|]. cbn [snd]. rewrite Hsc.
  destruct Hdiv as [n Hn]. rewrite Hn in *. rewrite Z.div_mul by lia. split; [apply Z.div_pos; lia|].
  apply Z.div_lt_upper_bound; lia.
Qed.

(** * The block codec

    The cells of a matrix that a loop over blocks has set. *)
Section set_cells.
Context {T : Type} (f : Z -> Z -> T).

(** The matrix is [m0] with [f] at the cells of [done]. *)
Definition cells_set (m0 m : Mat T) (done : Z -> Z -> Prop) : Prop :=
  mat_wf m /\ m_rows m = m_rows m0 /\ m_cols m = m_cols m0 /\
  forall r c, 0 <= r < m_rows m0 -> 0 <= c < m_cols m0 -> done r c -> mat_get m r c = Ok (f r c).

Lemma mat_set_cell m0 m done r c : cells_set m0 m done -> 0 <= r < m_rows m0 -> 0 <= c < m_cols m0 ->
  exists m', mat_set m r c (f r c) = Ok m' /\ cells_set m0 m' (fun r' c' => done r' c' \/ r' = r /\ c' = c).
Proof.
  intros (Hwf & Hr & Hc & Hd) Hrb Hcb. unfold mat_set, idx_set. destruct Hwf as (H1 & H2 & H3).
  rewrite (proj2 (Z.leb_le _ _)), (proj2 (Z.ltb_lt _ _)) by nia. cbn [andb]. rewrite ok_bind.
  eexists. split; [done|]. split; [|split; [done|split; [done|]]].
  - split; [done|split; [done|]]. cbn. by rewrite length_insert.
  - intros r' c' Hr' Hc' Hdone. unfold mat_get. cbn [m_data m_cols]. rewrite <-Hc in *. rewrite <-Hr in *.
    destruct (decide (r' = r /\ c' = c)) as [[-> ->]|Hne].
    + apply idx_Some; [nia|]. apply list_lookup_insert_eq. apply Nat2Z.inj_lt. rewrite Z2Nat.id by nia. nia.
    + assert (r' * m_cols m + c' <> r * m_cols m + c) as Hidx.
      { intros Heq. assert (r' = r) as ->; [|apply Hne; split; [done|lia]].
        destruct (Z.lt_trichotomy r' r) as [?|[?|?]]; [nia|done|nia]. }
      destruct Hdone as [Hdone|?]; [|done]. specialize (Hd r' c' Hr' Hc' Hdone). unfold mat_get, idx in *.
      destruct (_ <? 0); [done|]. rewrite list_lookup_insert_ne; [done|]. rewrite Z2Nat.inj_iff by nia. lia.
Qed.

(** Setting the cells of a rectangle. *)
Lemma set_rect (g : Z -> Z -> result T) m0 m done rlo rhi clo chi :
  cells_set m0 m done -> 0 <= rlo -> rlo <= rhi -> rhi <= m_rows m0 -> 0 <= clo -> clo <= chi -> chi <= m_cols m0 ->
  (forall r c, rlo <= r < rhi -> clo <= c < chi -> g r c = Ok (f r c)) ->
  exists m', fold_try (fun m r => fold_try (fun m c => x ← g r c; mat_set m r c x) m (seqZ clo (chi - clo)))
    m (seqZ rlo (rhi - rlo)) = Ok m' /\
  cells_set m0 m' (fun r c => done r c \/ rlo <= r < rhi /\ clo <= c < chi).
Proof.
  intros Hm Hrlo Hr Hrhi Hclo Hc Hchi Hg.
  assert (forall r m done, cells_set m0 m done -> rlo <= r < rhi ->
    exists m', fold_try (fun m c => x ← g r c; mat_set m r c x) m (seqZ clo (chi - clo)) = Ok m' /\
      cells_set m0 m' (fun r' c' => done r' c' \/ r' = r /\ clo <= c' < chi)) as Hrow.
  { clear m done Hm. intros r m done Hm Hrb.
    replace (seqZ clo (chi - clo)) with (Z.add clo <$> seqZ 0 (chi - clo)) by (rewrite fmap_add_seqZ; f_equal; lia).
    assert (forall l m, fold_try (fun m c => x ← g r c; mat_set m r c x) m (Z.add clo <$> l)
      = fold_try (fun m c => x ← g r (clo + c); mat_set m r (clo + c) x) m l) as Hshift.
    { induction l as [|x l IH]; intros m1; [done|]. cbn [fold_try fmap list_fmap].
      destruct (g r (clo + x)); [|done..]. rewrite !ok_bind. destruct (mat_set m1 r (clo + x) a); [|done..].
      rewrite !ok_bind. apply IH. }
    rewrite Hshift.
    destruct (fold_try_inv (fun n m => cells_set m0 m (fun r' c' => done r' c' \/ r' = r /\ clo <= c' < clo + n))
      (fun m c => x ← g r (clo + c); mat_set m r (clo + c) x) m (chi - clo)) as (m' & Hf & HP); [lia| | |].
    - destruct Hm as (? & ? & ? & Hd). split; [done|split; [done|split; [done|]]].
      intros r' c' ? ? [?|?]; [by apply Hd|lia].
    - intros i m1 Hi Hm1. rewrite Hg, ok_bind by lia.
      destruct (mat_set_cell _ _ _ r (clo + i) Hm1) as (m2 & -> & H2); [lia|lia|]. exists m2. split; [done|].
      destruct H2 as (? & ? & ? & Hd). split; [done|split; [done|split; [done|]]].
      intros r' c' ? ? Hdn. apply Hd; [done|done|].
      destruct Hdn as [?|[-> ?]]; [tauto|]. destruct (decide (c' = clo + i)); [tauto|]. left; right. lia.
    - exists m'. split; [done|]. by replace chi with (clo + (chi - clo)) by lia. }
  replace (seqZ rlo (rhi - rlo)) with (Z.add rlo <$> seqZ 0 (rhi - rlo)) by (rewrite fmap_add_seqZ; f_equal; lia).
  set (row := fun m r => fold_try (fun m c => x ← g r c; mat_set m r c x) m (seqZ clo (chi - clo))) in *.
  assert (forall l m, fold_try row m (Z.add rlo <$> l) = fold_try (fun m r => row m (rlo + r)) m l) as Hshift.
  { induction l as [|x l IH]; intros m1; [done|]. cbn [fold_try fmap list_fmap].
    destruct (row m1 (rlo + x)); [|done..]. rewrite !ok_bind. apply IH. }
  rewrite Hshift.
  destruct (fold_try_inv (fun n m => cells_set m0 m (fun r c => done r c \/ rlo <= r < rlo + n /\ clo <= c < chi))
    (fun m r => row m (rlo + r)) m (rhi - rlo)) as (m' & Hf & HP); [lia| | |].
  - destruct Hm as (? & ? & ? & Hd). split; [done|split; [done|split; [done|]]].
    intros r' c' ? ? [?|?]; [by apply Hd|lia].
  - intros i m1 Hi Hm1. destruct (Hrow (rlo + i) m1 _ Hm1) as (m2 & Hm2 & H2); [lia|]. exists m2. split; [done|].
    destruct H2 as (? & ? & ? & Hd). split; [done|split; [done|split; [done|]]].
    intros r' c' ? ? Hdn. apply Hd; [done|done|].
    destruct Hdn as [?|[? ?]]; [tauto|]. destruct (decide (r' = rlo + i)); [tauto|]. left; right. lia.
  - exists m'. split; [done|]. by replace rhi with (rlo + (rhi - rlo)) by lia.
Qed.
End set_cells.

(** The largest magnitude of a rectangle, and the scale of the block a cell is in. *)
Definition rect_max (w : Mat spec_float) (rlo rhi clo chi : Z) : spec_float :=
  foldl (fun amax r => foldl (fun amax c => f64_max amax (SFabs (m_at (S754_zero false) w r c))) amax (seqZ clo (chi - clo)))
    (S754_zero false) (seqZ rlo (rhi - rlo)).

Definition scale_of (w : Mat spec_float) (br bc bi bj : Z) : spec_float :=
  block_scale (rect_max w (bi * br) (Z.min (bi * br + br) (m_rows w)) (bj * bc) (Z.min (bj * bc + bc) (m_cols w))).

Definition code_of (w : Mat spec_float) (br bc r c : Z) : Z :=
  quantize_value (m_at (S754_zero false) w r c) (scale_of w br bc (r / br) (c / bc)).

Lemma load_ceil_div_ok a b : 0 <= a -> 0 < b -> a < 2 ^ 63 -> load_ceil_div a b = Ok ((a + b - 1) / b).
Proof.
  intros Ha Hb Hlt. unfold load_ceil_div, usize_div, usize_add. rewrite (proj2 (Z.eqb_neq b 0)), ok_bind by lia.
  pose proof (Z.div_pos a b Ha Hb). pose proof (Z.div_le_upper_bound a b a Hb ltac:(nia)).
  pose proof (Z.div_mod a b ltac:(lia)). pose proof (Z.mod_pos_bound a b Hb).
  destruct (Z.eqb_spec (a mod b) 0) as [Hm|Hm]; rewrite (proj2 (Z.ltb_lt _ _)) by lia; f_equal.
  - apply (Z.div_unique _ _ _ (b - 1)); lia.
  - apply (Z.div_unique _ _ _ (a mod b - 1)); lia.
Qed.

Section quantize.
Context (w : Mat spec_float) (br bc : Z).
Context (Hw : mat_wf w) (Hbr : 0 < br < 2 ^ 63) (Hbc : 0 < bc < 2 ^ 63).
Context (Hrows : m_rows w < 2 ^ 62) (Hcols : m_cols w < 2 ^ 62) (Hsize : (m_rows w + 1) * (m_cols w + 1) < 2 ^ 64).
#[local] Abbreviation rb := ((m_rows w + br - 1) / br).
#[local] Abbreviation cb := ((m_cols w + bc - 1) / bc).

Lemma tile_ok n b i : 0 <= n < 2 ^ 62 -> 0 < b < 2 ^ 63 -> 0 <= i < (n + b - 1) / b ->
  tile n b i = Ok (i * b, Z.min (i * b + b) n) /\ 0 <= i * b < n.
Proof.
  intros Hn Hb Hi. assert (i * b < n) as Hlt.
  { pose proof (Z.mul_div_le (n + b - 1) b ltac:(lia)). nia. }
  split; [|nia]. unfold tile, usize_mul, usize_add. rewrite !(proj2 (Z.ltb_lt _ _)) by lia. by rewrite !ok_bind, (proj2 (Z.ltb_lt _ _)) by lia.
Qed.

Lemma block_max_ok rlo rhi clo chi : 0 <= rlo -> rhi <= m_rows w -> 0 <= clo -> chi <= m_cols w ->
  block_max w (rlo, rhi) (clo, chi) = Ok (rect_max w rlo rhi clo chi).
Proof.
  intros H1 H2 H3 H4. unfold block_max, rect_max. cbn [fst snd].
  rewrite (fold_try_ext _ (fun amax r => Ok (foldl (fun amax c =>
    f64_max amax (SFabs (m_at (S754_zero false) w r c))) amax (seqZ clo (chi - clo))))); [apply fold_try_foldl|].
  intros amax r Hr%elem_of_seqZ. rewrite <-fold_try_foldl. apply fold_try_ext.
  intros amax' c Hc%elem_of_seqZ. by rewrite (get_m_at (S754_zero false)), ok_bind by (done || lia).
Qed.

(** The blocks done: those of the first [bi] rows of blocks and of the first [bj] of the next. *)
Definition tiles_done (codes0 : Mat Z) (scale0 : Mat spec_float) (done : Z -> Z -> Prop) (acc : Mat Z * Mat spec_float) : Prop :=
  cells_set (code_of w br bc) codes0 acc.1 (fun r c => done (r / br) (c / bc)) /\
  cells_set (scale_of w br bc) scale0 acc.2 done.

Lemma quantize_tile_ok codes0 scale0 acc done bi bj :
  m_rows codes0 = m_rows w -> m_cols codes0 = m_cols w -> m_rows scale0 = rb -> m_cols scale0 = cb ->
  tiles_done codes0 scale0 done acc -> 0 <= bi < rb -> 0 <= bj < cb ->
  exists acc', quantize_tile w br bc acc bi bj = Ok acc' /\
    tiles_done codes0 scale0 (fun i j => done i j \/ i = bi /\ j = bj) acc'.
Proof.
  intros Hr0 Hc0 Hr1 Hc1 [Hcodes Hscale] Hbi Hbj. destruct acc as [codes scale]. cbn [fst snd] in *. unfold quantize_tile.
  pose proof Hw as (Hw1 & Hw2 & _).
  destruct (tile_ok (m_rows w) br bi) as [-> Hri]; [lia|done|done|]. rewrite ok_bind.
  destruct (tile_ok (m_cols w) bc bj) as [-> Hci]; [lia|done|done|]. rewrite ok_bind.
  rewrite block_max_ok, ok_bind by lia.
  destruct (mat_set_cell (scale_of w br bc) scale0 scale done bi bj Hscale) as (scale' & Hset & Hscale'); [lia|lia|].
  unfold scale_of in Hset at 1. rewrite Hset, ok_bind. cbn [fst snd].
  destruct (set_rect (code_of w br bc)
    (fun r c => x ← mat_get w r c; Ok (quantize_value x (scale_of w br bc bi bj))) codes0 codes _
    (bi * br) (Z.min (bi * br + br) (m_rows w)) (bj * bc) (Z.min (bj * bc + bc) (m_cols w)) Hcodes)
    as (codes' & Hfold & Hcodes'); try lia.
  { intros r c Hr Hc. rewrite (get_m_at (S754_zero false)), ok_bind by (done || lia). unfold code_of.
    replace (r / br) with bi by (apply (Z.div_unique _ _ _ (r - bi * br)); lia).
    by replace (c / bc) with bj by (apply (Z.div_unique _ _ _ (c - bj * bc)); lia). }
  eexists. split.
  - rewrite (fold_try_ext _ (fun m r => fold_try (fun m c =>
      x ← (x ← mat_get w r c; Ok (quantize_value x (scale_of w br bc bi bj))); mat_set m r c x) m
      (seqZ (bj * bc) (Z.min (bj * bc + bc) (m_cols w) - bj * bc)))).
    + rewrite Hfold, ok_bind. done.
    + intros m r _. apply fold_try_ext. intros m' c _. by destruct (mat_get w r c).
  - split; cbn [fst snd]; [|done]. destruct Hcodes' as (? & ? & ? & Hd). split; [done|split; [done|split; [done|]]].
    intros r c Hr Hc Hdn. apply Hd; [done|done|]. destruct Hdn as [?|[Hi Hj]]; [tauto|right].
    pose proof (Z.div_mod r br ltac:(lia)). pose proof (Z.mod_pos_bound r br ltac:(lia)).
    pose proof (Z.div_mod c bc ltac:(lia)). pose proof (Z.mod_pos_bound c bc ltac:(lia)).
    rewrite Hi in *. rewrite Hj in *. lia.
Qed.

Lemma zeros_wf {T} (d : T) rows cols : 0 <= rows -> 0 <= cols -> rows * cols < 2 ^ 64 ->
  exists m, zeros d rows cols = Ok m /\ mat_wf m /\ m_rows m = rows /\ m_cols m = cols.
Proof.
  intros Hr Hc Hlt. unfold zeros, usize_mul. rewrite (proj2 (Z.ltb_lt _ _)), ok_bind by lia. eexists.
  split; [done|]. split; [|done]. split; [done|split; [done|]]. cbn. rewrite length_replicate. nia.
Qed.

Lemma blocks_bound n b : 0 <= n -> 0 < b -> 0 <= (n + b - 1) / b <= n.
Proof. intros. split; [apply Z.div_pos; lia|]. apply Z.lt_succ_r, Z.div_lt_upper_bound; nia. Qed.

Lemma quantize_block_ok : exists codes scale, quantize_block w (br, bc) = Ok (codes, scale) /\
  mat_wf codes /\ m_rows codes = m_rows w /\ m_cols codes = m_cols w /\
  mat_wf scale /\ m_rows scale = rb /\ m_cols scale = cb /\
  forall r c, 0 <= r < m_rows w -> 0 <= c < m_cols w ->
    mat_get codes r c = Ok (code_of w br bc r c) /\
    mat_get scale (r / br) (c / bc) = Ok (scale_of w br bc (r / br) (c / bc)).
Proof.
  pose proof Hw as (Hw1 & Hw2 & _). unfold quantize_block. rewrite !load_ceil_div_ok, !ok_bind by lia.
  pose proof (blocks_bound (m_rows w) br Hw1 ltac:(lia)). pose proof (blocks_bound (m_cols w) bc Hw2 ltac:(lia)).
  destruct (zeros_wf 0 (m_rows w) (m_cols w)) as (codes0 & -> & Hwf0 & Hr0 & Hc0); [lia|lia|nia|]. rewrite ok_bind.
  destruct (zeros_wf (S754_zero false) rb cb) as (scale0 & -> & Hwf1 & Hr1 & Hc1); [lia|lia|nia|]. rewrite ok_bind.
  destruct (fold_try_inv (fun n acc => tiles_done codes0 scale0 (fun i j => 0 <= i < n /\ 0 <= j < cb) acc)
    (fun acc bi => fold_try (fun acc bj => quantize_tile w br bc acc bi bj) acc (seqZ 0 cb))
    (codes0, scale0) rb) as ([codes scale] & Hf & [Hcodes Hscale]); [lia| | |].
  - split; (split; [done|split; [done|split; [done|]]]); intros; lia.
  - intros bi acc Hbi Hacc.
    destruct (fold_try_inv (fun n acc => tiles_done codes0 scale0
      (fun i j => 0 <= i < bi /\ 0 <= j < cb \/ i = bi /\ 0 <= j < n) acc)
      (fun acc bj => quantize_tile w br bc acc bi bj) acc cb) as (acc' & Hf & Hacc'); [lia| | |].
    + destruct Hacc as [(? & ? & ? & Hd) (? & ? & ? & Hd')].
      split; (split; [done|split; [done|split; [done|]]]); intros r c ? ? [?|?]; [by apply Hd|lia|by apply Hd'|lia].
    + intros bj acc1 Hbj Hacc1. destruct (quantize_tile_ok _ _ _ _ bi bj Hr0 Hc0 Hr1 Hc1 Hacc1 Hbi Hbj) as (acc2 & -> & H2).
      exists acc2. split; [done|]. destruct H2 as [(? & ? & ? & Hd) (? & ? & ? & Hd')].
      split; (split; [done|split; [done|split; [done|]]]); intros r c ? ? Hdn; [apply Hd|apply Hd']; lia.
    + exists acc'. split; [done|]. destruct Hacc' as [(? & ? & ? & Hd) (? & ? & ? & Hd')].
      split; (split; [done|split; [done|split; [done|]]]); intros r c ? ? Hdn; [apply Hd|apply Hd']; lia.
  - exists codes, scale. destruct Hcodes as (? & Hr2 & Hc2 & Hd). destruct Hscale as (? & Hr3 & Hc3 & Hd'). cbn [fst snd] in *.
    split; [exact Hf|]. split; [done|]. rewrite Hr2, Hc2, Hr3, Hc3, Hr0, Hc0, Hr1, Hc1. do 5 (split; [done|]).
    intros r c Hr Hc.
    assert (forall n b x, 0 < b -> 0 <= x < n -> 0 <= x / b < (n + b - 1) / b) as Hblk.
    { clear. intros n b x Hb Hx. split; [apply Z.div_pos; lia|].
      apply Z.lt_le_trans with (x / b + 1); [lia|]. apply Z.div_le_lower_bound; [lia|].
      pose proof (Z.mul_div_le x b Hb). lia. }
    pose proof (Hblk (m_rows w) br r ltac:(lia) Hr). pose proof (Hblk (m_cols w) bc c ltac:(lia) Hc).
    split; [apply Hd; lia|apply Hd'; lia].
Qed.

(** Quantizing by blocks and dequantizing again gives a matrix of the same shape, each cell its
    quotient by the scale of its block rounded to a code and multiplied by the scale again. *)
Theorem block_roundtrip : exists codes scale, quantize_block w (br, bc) = Ok (codes, scale) /\
  exists m, dequantize_block codes scale (br, bc) = Ok m /\ m_rows m = m_rows w /\ m_cols m = m_cols w /\
  forall r c, 0 <= r < m_rows w -> 0 <= c < m_cols w ->
    mat_get m r c = Ok (dequantize_code (code_of w br bc r c) (scale_of w br bc (r / br) (c / bc))).
Proof.
  destruct quantize_block_ok as (codes & scale & Hq & Hwf & Hr & Hc & Hwfs & Hrs & Hcs & Hcells).
  exists codes, scale. split; [done|]. pose proof Hw as (Hw1 & Hw2 & _).
  unfold dequantize_block. rewrite Hr, Hc, !load_ceil_div_ok, !ok_bind, Hrs, Hcs, !Z.eqb_refl by lia. cbn [negb orb].
  destruct (zeros_wf (S754_zero false) (m_rows w) (m_cols w)) as (m0 & Hz & Hwf0 & Hr0 & Hc0); [lia|lia|nia|].
  rewrite Hz, ok_bind.
  set (f r c := dequantize_code (code_of w br bc r c) (scale_of w br bc (r / br) (c / bc))).
  destruct (set_rect f (fun r c => Ok (f r c)) m0 m0 (fun _ _ => False) 0 (m_rows w) 0 (m_cols w)) as (m & Hf & Hm); try lia.
  { split; [done|split; [done|split; [done|]]]. intros ? ? _ _ []. }
  { done. }
  exists m. split; [|].
  - rewrite <-Hf, !Z.sub_0_r. apply fold_try_ext. intros m1 r Hr'%elem_of_seqZ. apply fold_try_ext. intros m2 c Hc'%elem_of_seqZ.
    destruct (Hcells r c) as [Hcode Hscale]; [lia|lia|]. rewrite Hcode, ok_bind. unfold usize_div.
    rewrite (proj2 (Z.eqb_neq br 0)), (proj2 (Z.eqb_neq bc 0)), !ok_bind, Hscale by lia. done.
  - destruct Hm as (_ & Hrm & Hcm & Hd). rewrite Hrm, Hcm, Hr0, Hc0. split; [done|split; [done|]].
    intros r c Hrb Hcb. apply Hd; lia.
Qed.
End quantize.

(** * Names *)

Lemma strip_prefix_app p r : strip_prefix p (p ++ r) = Some r.
Proof. unfold strip_prefix. by rewrite starts_with_app, drop_app_length. Qed.

Lemma strip_prefix_Some p t r : strip_prefix p t = Some r <-> t = p ++ r.
Proof.
  split; [|intros ->; apply strip_prefix_app]. unfold strip_prefix.
  destruct (starts_with t p) eqn:H; [|done]. apply starts_with_true in H. by intros [= <-].
Qed.

(** Digits that make a [usize]. *)
Definition usize_digits (ds : list Z) : Prop :=
  ds <> [] /\ Forall (fun b => is_ascii_digit b = true) ds /\ dec_val ds < 2 ^ 64.

Lemma take_count_while f (l : list Z) :
  Forall (fun b => f b = true) (take (count_while f l) l) /\ ends f (drop (count_while f l) l).
Proof.
  induction l as [|b l IH]; [done|]. cbn [count_while]. destruct (f b) eqn:Hb; [|done].
  cbn [take drop]. destruct IH. split; [by constructor|done].
Qed.

Lemma take_uint_Some t n r :
  take_uint t = Some (n, r) <-> exists ds, t = ds ++ r /\ usize_digits ds /\ ends is_ascii_digit r /\ n = dec_val ds.
Proof.
  unfold take_uint. split.
  - pose proof (take_count_while is_ascii_digit t) as [Hds Hr]. case_bool_decide as Hne; [done|].
    destruct (_ <? _) eqn:Hlt; [|done]. intros [= <- <-]. eexists. split; [symmetry; apply take_drop|].
    split; [|done]. split; [done|]. split; [done|lia].
  - intros (ds & -> & (Hne & Hds & Hlt) & Hr & ->). rewrite (count_while_app _ _ _ Hds Hr), take_app_length, drop_app_length.
    rewrite bool_decide_false, (proj2 (Z.ltb_lt _ _)) by done. done.
Qed.

(** [model.layers.<layer>.mlp.experts.<expert>.<proj>_proj.weight], perhaps with [_scale]. *)
Definition expert_name (layer expert proj scale : list Z) : list Z :=
  str "model.layers." ++ layer ++ str ".mlp.experts." ++ expert ++ str "." ++ proj ++ scale.

Lemma expert_name_parts_Some raw l e :
  expert_name_parts raw = Some (l, e) <->
  exists layer expert proj scale, raw = expert_name layer expert proj scale /\
    usize_digits layer /\ usize_digits expert /\ l = dec_val layer /\ e = dec_val expert /\
    proj ∈ EXPERT_PROJ_WEIGHTS /\ (scale = [] \/ scale = str "_scale").
Proof.
  unfold expert_name_parts, expert_name. split.
  - intros (r1 & H1 & ([l' r2] & H2 & (r3 & H3 & ([e' r4] & H4 & (r5 & H5 & H)%bind_Some)%bind_Some)%bind_Some)%bind_Some)%bind_Some.
    apply strip_prefix_Some in H1 as ->. apply take_uint_Some in H2 as (dl & -> & Hl & _ & ->).
    apply strip_prefix_Some in H3 as ->. apply take_uint_Some in H4 as (de & -> & He & _ & ->).
    apply strip_prefix_Some in H5 as ->. destruct (existsb _ _) eqn:Hex; [|done]. injection H as <- <-.
    apply existsb_exists in Hex as (proj & Hin%list_elem_of_In & Hr). apply orb_true_iff in Hr as [->%bool_decide_eq_true| ->%bool_decide_eq_true].
    + exists dl, de, proj, []. rewrite app_nil_r. auto 8.
    + exists dl, de, proj, (str "_scale"). auto 8.
  - intros (dl & de & proj & scale & -> & Hl & He & -> & -> & Hin & Hs).
    rewrite strip_prefix_app. cbn [mbind option_bind].
    rewrite (proj2 (take_uint_Some _ (dec_val dl) _)) by (exists dl; split; [done|split; [done|split; [done|done]]]).
    cbn [mbind option_bind]. rewrite strip_prefix_app. cbn [mbind option_bind].
    rewrite (proj2 (take_uint_Some _ (dec_val de) _)) by (exists de; split; [done|split; [done|split; [done|done]]]).
    cbn [mbind option_bind]. rewrite strip_prefix_app. cbn [mbind option_bind].
    replace (existsb _ _) with true; [done|]. symmetry. apply existsb_exists. exists proj.
    split; [by apply list_elem_of_In|]. apply orb_true_iff. rewrite !bool_decide_eq_true.
    destruct Hs as [->| ->]; [left; by rewrite app_nil_r|by right].
Qed.

(** ** The audit *)

Definition KINDS : list (list Z) :=
  [str "expert"; str "mtp"; str "dflash"; str "audio/visual/speech"; str "backbone"; UNCLASSIFIED].

Lemma classify_kind raw : classify raw ∈ KINDS.
Proof.
  unfold classify. repeat case_match; unfold KINDS; rewrite !elem_of_cons; tauto.
Qed.

Lemma kinds_scalar : Forall (Forall scalar) KINDS.
Proof. apply (bool_decide_unpack _). vm_compute. exact I. Qed.

Lemma classify_scalar raw : Forall scalar (classify raw).
Proof. apply (proj1 (Forall_forall _ _) kinds_scalar), classify_kind. Qed.

(** A name of the kind [mtp] keeps its root. *)
Lemma mtp_root raw : classify raw = str "mtp" -> starts_with (canonical_name raw) (str "mtp.") = true.
Proof.
  unfold classify. destruct (is_expert_name raw); [done|].
  destruct (starts_with raw (str "model.mtp.")) eqn:H.
  - intros _. unfold canonical_name, strip_prefix. rewrite H. apply starts_with_app.
  - repeat case_match; discriminate.
Qed.

(** How many names are of kind [k], and of fused QKV weights. *)
Definition of_kind (k : list Z) (names : list (list Z)) : Z := Zlen (filter (fun n => classify n = k) names).
Definition qkv_count (names : list (list Z)) : Z := Zlen (filter (fun n => is_qkv_proj_name n = true) names).
Definition unclassified (names : list (list Z)) : list (list Z) := filter (fun n => classify n = UNCLASSIFIED) names.

(** The state of the audit's loop after [names]. *)
Definition audited (names : list (list Z)) (rep : AuditReport) : Prop :=
  ar_tensors rep = Zlen names /\ ar_qkv rep = qkv_count names /\ keys_scalar (ar_kinds rep) /\
  forall k, Forall scalar k ->
    map_get k (ar_kinds rep) = if of_kind k names =? 0 then None else Some (of_kind k names).

Lemma of_kind_snoc k names n : of_kind k (names ++ [n]) = of_kind k names + (if bool_decide (classify n = k) then 1 else 0).
Proof.
  unfold of_kind. rewrite filter_app, length_app, Nat2Z.inj_add. f_equal. cbn.
  by case_bool_decide; case_decide.
Qed.

Lemma audit_step_ok names rep n : audited names rep ->
  exists rep', audit_step (rep, unclassified names) n = (rep', unclassified (names ++ [n])) /\ audited (names ++ [n]) rep'.
Proof.
  intros (Ht & Hq & Hk & Hm). unfold audit_step. eexists. split.
  - f_equal. rewrite andb_comm. destruct (starts_with (canonical_name n) (str "mtp.")) eqn:Hroot; cbn [negb andb].
    + unfold unclassified. rewrite filter_app. cbn. case_bool_decide; case_decide; try done. by rewrite app_nil_r.
    + rewrite (bool_decide_false (classify n = str "mtp")) by (intros H%mtp_root; congruence).
      unfold unclassified. rewrite filter_app. cbn. case_bool_decide; case_decide; try done. by rewrite app_nil_r.
  - split; [|split; [|split]]; cbn [ar_tensors ar_qkv ar_kinds].
    + rewrite length_app. cbn [length]. lia.
    + unfold qkv_count in *. rewrite filter_app, length_app, Nat2Z.inj_add, <-Hq, filter_cons.
      destruct (is_qkv_proj_name n); case_decide; try done; cbn [filter list_filter length]; lia.
    + apply insert_scalar; [apply classify_scalar|done].
    + intros k Hks. rewrite map_get_insert; [|apply classify_scalar|done|done]. rewrite of_kind_snoc.
      case_bool_decide as Heq; [|by rewrite Z.add_0_r, Hm]. subst k. rewrite Hm by done.
      assert (0 <= of_kind (classify n) names) by (unfold of_kind; lia).
      destruct (Z.eqb_spec (of_kind (classify n) names) 0) as [H0|H0]; cbn [default];
        rewrite (proj2 (Z.eqb_neq _ _)) by lia; f_equal; lia.
Qed.

Lemma audit_loop names : exists rep,
  foldl audit_step (mkAuditReport 0 [] 0, []) names = (rep, unclassified names) /\ audited names rep.
Proof.
  induction names as [|n names IH] using rev_ind.
  - eexists. split; [done|]. split; [done|split; [done|split; [constructor|]]]. intros k _. done.
  - destruct IH as (rep & Hl & Ha). destruct (audit_step_ok names rep n Ha) as (rep' & Hs & Ha').
    exists rep'. rewrite foldl_app, Hl. by cbn [foldl].
Qed.

Lemma audit_ok names expected rep : audit_weight_map names expected = Ok rep ->
  (forall n, n ∈ names -> classify n <> UNCLASSIFIED) /\ ar_qkv rep = expected /\ audited names rep.
Proof.
  unfold audit_weight_map. destruct (audit_loop names) as (rep' & -> & Ha).
  destruct (Z.eqb_spec (ar_qkv rep') expected) as [Hq|Hq]; cbn [negb].
  - destruct (bool_decide_reflect (unclassified names = [])) as [Hu|Hu]; cbn [negb]; [|done].
    intros [= <-]. split; [|done]. intros n Hn Hc. apply (filter_nil_not_elem_of _ _ n Hu Hc Hn).
  - rewrite bool_decide_false; [done|]. intros H. by apply app_eq_nil in H as [_ [=]].
Qed.

Lemma audit_clean names : (forall n, n ∈ names -> classify n <> UNCLASSIFIED) ->
  exists rep, audit_weight_map names (qkv_count names) = Ok rep.
Proof.
  intros Hc. unfold audit_weight_map. destruct (audit_loop names) as (rep & -> & Ha).
  rewrite (proj1 (proj2 Ha)), Z.eqb_refl. cbn [negb]. rewrite bool_decide_true; [by eexists|].
  apply filter_none. intros n Hn. by apply Hc.
Qed.

(** * Theorems *)

(** C39: reconstructing a layer from its shards gives, for every input of the right shape
    (its width a multiple of the block), the matrix of the rows in projection-major order,
    each code times the scale of its block in its own shard's grid; and grids that differ
    only in their padding rows give the same. *)
Theorem reconstruct_projection_major br bc q k v cols shards :
  shards_ok br bc q k v cols shards ->
  reconstruct_layer_qkv shards.*1 shards.*2 (q, k, v) (br, bc) false
    = Ok (of_rows cols (regrouped br bc cols (segment_bounds q k v) shards)) /\
  forall shards', shards_ok br bc q k v cols shards' -> Forall2 (same_scales br (q + k + v)) shards shards' ->
    reconstruct_layer_qkv shards'.*1 shards'.*2 (q, k, v) (br, bc) false
    = reconstruct_layer_qkv shards.*1 shards.*2 (q, k, v) (br, bc) false.
Proof.
  intros Hsh. split; [by apply reconstruct_ok|]. intros shards' Hsh' Hsame.
  rewrite (reconstruct_ok _ _ _ _ _ _ _ Hsh), (reconstruct_ok _ _ _ _ _ _ _ Hsh').
  destruct Hsh as [[] (? & ? & ?) [] _ Hok _]. by rewrite (regrouped_padding br bc q k v cols shards shards').
Qed.

(** With one shard the naive reading is right: it differs only in how shards are put together. *)
Theorem naive_right_for_one_shard br bc q k v cols w s :
  shards_ok br bc q k v cols [(w, s)] -> m_rows s < 2 ^ 64 ->
  dequantize_naive_fused [w] [s] (br, bc) = reconstruct_layer_qkv [w] [s] (q, k, v) (br, bc) false.
Proof.
  intros Hsh Hfit. rewrite (naive_one br bc q k v cols) by done.
  pose proof (reconstruct_ok _ _ _ _ _ _ _ Hsh) as H. cbn [fmap list_fmap fst snd] in H. rewrite H.
  destruct Hsh as [_ (? & ? & ?) _ _ _ _]. by rewrite regrouped_one.
Qed.

(** A name is an expert's exactly when it is of the pattern
    [model.layers.<digits>.mlp.experts.<digits>.(gate|up|down)_proj.weight(_scale)?], with numbers
    that fit; and the audit of a checkpoint's names passes exactly when every name is of a known
    kind and as many are fused QKV weights as expected, with the count of each kind reported (the
    check that a draft layer's name keeps its root never fires). *)
Theorem names_audited names expected :
  (forall raw, is_expert_name raw = true <->
    exists layer expert proj scale, raw = expert_name layer expert proj scale /\
      usize_digits layer /\ usize_digits expert /\ proj ∈ EXPERT_PROJ_WEIGHTS /\ (scale = [] \/ scale = str "_scale")) /\
  ((exists rep, audit_weight_map names expected = Ok rep) <->
    (forall n, n ∈ names -> classify n <> UNCLASSIFIED) /\ qkv_count names = expected) /\
  (forall rep, audit_weight_map names expected = Ok rep -> audited names rep).
Proof.
  split; [|split].
  - intros raw. unfold is_expert_name. rewrite bool_decide_eq_true. split.
    + intros ([l e] & (dl & de & proj & scale & H)%expert_name_parts_Some). exists dl, de, proj, scale. tauto.
    + intros (dl & de & proj & scale & H). exists (dec_val dl, dec_val de). apply expert_name_parts_Some.
      exists dl, de, proj, scale. tauto.
  - split.
    + intros (rep & H). apply audit_ok in H as (Hc & Hq & Ha). split; [done|]. by rewrite <-Hq, (proj1 (proj2 Ha)).
    + intros [Hc <-]. by apply audit_clean.
  - intros rep H. by apply audit_ok in H as (_ & _ & Ha).
Qed.

(** * Witnesses *)

(** Two shards of four rows of two codes (the code of one times its row); the grid of the
    first has a row of padding. *)
Definition demo_codes (base : Z) : Mat Z := mkMat 4 2 ((fun i => 0x38 + base + i) <$> seqZ 0 8).
Definition demo_shards : list (Mat Z * Mat spec_float) :=
  [(demo_codes 0, mkMat 3 1 (f32_of_Z <$> [1; 2; 99])); (demo_codes 8, mkMat 2 1 (f32_of_Z <$> [3; 4]))].
Definition demo_shards' : list (Mat Z * Mat spec_float) :=
  [(demo_codes 0, mkMat 3 1 (f32_of_Z <$> [1; 2; 7])); (demo_codes 8, mkMat 2 1 (f32_of_Z <$> [3; 4]))].

Lemma demo_shards_ok : shards_ok 2 2 2 1 1 2 demo_shards.
Proof. split; [lia|lia|split; [lia|by exists 1]|done| |by vm_compute]. repeat constructor; (done || (cbn; lia)). Qed.
Lemma demo_shards_ok' : shards_ok 2 2 2 1 1 2 demo_shards'.
Proof. split; [lia|lia|split; [lia|by exists 1]|done| |by vm_compute]. repeat constructor; (done || (cbn; lia)). Qed.

Lemma reconstruct_projection_major_witness :
  reconstruct_layer_qkv demo_shards'.*1 demo_shards'.*2 (2, 1, 1) (2, 2) false
  = Ok (of_rows 2 (regrouped 2 2 2 (segment_bounds 2 1 1) demo_shards)).
Proof.
  destruct (reconstruct_projection_major 2 2 2 1 1 2 demo_shards demo_shards_ok) as [<- H].
  apply H; [exact demo_shards_ok'|]. by repeat constructor.
Defined.

Definition demo_names : list (list Z) :=
  [str "model.embed_tokens.weight"; str "model.layers.0.self_attn.qkv_proj.weight";
   str "model.layers.1.mlp.experts.255.down_proj.weight_scale"; str "model.mtp.layers.0.norm.weight"].

Lemma names_audited_witness : exists rep, audit_weight_map demo_names 1 = Ok rep.
Proof.
  destruct (names_audited demo_names 1) as (_ & H & _). apply H. split; [|by vm_compute].
  apply Forall_forall. apply (bool_decide_unpack _). vm_compute. exact I.
Defined.

(** A width that is not a multiple of the block's columns panics, although the grids'
    documented width, [ceil(hidden / bc)], allows for it: the scales kept per row are
    [hidden / bc], and the last block is one more. *)
Example partial_block_panics :
  reconstruct_layer_qkv [mkMat 3 3 (replicate 9 0x38)] [mkMat 3 2 (replicate 6 f32_one)] (1, 1, 1) (1, 2) false = Panic.
Proof. reflexivity. Qed.
