(* ===== verification/Json.v ===== *)
(** The coordinator's JSON values, parser and serialiser
    (src/crates/mimo26-coordinator/src/json.rs).

    A [String] is the list of its scalar values; the parser works on its UTF-8 bytes
    and keeps the bytes from [pos] on.  A [BTreeMap<String, _>] is the list of its
    entries in key order.  The 64-bit floats are those of the class [Float64] of Scan.v: what
    the standard library's parser and formatter do with them.  The functions that
    recurse or loop take fuel; [parse] gives enough of it, as JsonProofs.v shows. *)
From Stdlib Require Import ZArith Lia Bool.
From stdpp Require Import base list gmap strings.
From S2P Require Import Prelude Utf8 Scan.

(** * Definitions *)

Inductive JsonValue (F : Type) : Type :=
| Null
| Bool (b : bool)
| Int (n : Z)
| Float (f : F)
| Str (s : list Z)
| Array (items : list (JsonValue F))
| Object (map : list (list Z * JsonValue F)).
Arguments Null {F}.
Arguments Bool {F} b.
Arguments Int {F} n.
Arguments Float {F} f.
Arguments Str {F} s.
Arguments Array {F} items.
Arguments Object {F} map.

(** [JsonError], by message. *)
Inductive JsonError : Type :=
| TrailingBytes
| UnexpectedByte (other : option Z) (at_ : Z)
| ExpectedWord (word : list Z) (at_ : Z)
| UnterminatedString
| InvalidUtf8
| BadEscape (other : option Z)
| ShortEscape
| BadHex
| UnpairedHighSurrogate
| BadSurrogatePair
| BadCodepoint
| BadNumber
| BadFloat (text : list Z)
| BadInt (text : list Z)
| ExpectedCommaOrBracket (other : option Z)
| ExpectedCommaOrBrace (other : option Z)
| KeyNotString
| ExpectedColon
| OutOfFuel.

#[export] Instance json_fuel : Fuelled JsonError := OutOfFuel.

#[local] Abbreviation result := (outcome JsonError).

Section json.
Context {F : Type} `{!Float64 F}.

Definition as_str (v : JsonValue F) : option (list Z) :=
  match v with Str s => Some s | _ => None end.

Definition as_int (v : JsonValue F) : option Z :=
  match v with
  | Int n => Some n
  | Float f => if fract_is_zero f then Some (f64_as_i64 f) else None
  | _ => None
  end.

Definition lit (word : list Z) (v : JsonValue F) (p : Parser) : result (JsonValue F * Parser) :=
  if starts_with (p_rest p) word then Ok (v, advance (length word) p)
  else Err (ExpectedWord word (p_pos p)).

Definition hex4 (p : Parser) : result (Z * Parser) :=
  if Nat.ltb (length (p_rest p)) 4 then Err ShortEscape
  else
    s ← ok_or (from_utf8 (take 4 (p_rest p))) BadHex;
    code ← ok_or (u32_from_hex (utf8 s)) BadHex;
    Ok (code, advance 4 p).

(** The character of a [\u] escape, its low surrogate included. *)
Definition unicode_escape (p : Parser) : result (Z * Parser) :=
  '(code, p) ← hex4 p;
  if between 0xD800 0xDBFF code then
    if bool_decide (take 2 (p_rest p) = [0x5C; 0x75]) then
      '(low, p) ← hex4 (advance 2 p);
      if negb (between 0xDC00 0xDFFF low) then Err UnpairedHighSurrogate
      else
        ch ← ok_or (char_from_u32 (0x10000 + Z.shiftl (code - 0xD800) 10 + (low - 0xDC00))) BadSurrogatePair;
        Ok (ch, p)
    else Err UnpairedHighSurrogate
  else
    ch ← ok_or (char_from_u32 code) BadCodepoint;
    Ok (ch, p).

(** What one escape after the backslash pushes. *)
Definition escape (p : Parser) : result (list Z * Parser) :=
  match peek p with
  | None => Err (BadEscape None)
  | Some e =>
    let p := advance 1 p in
    if (e =? 0x22) || (e =? 0x5C) || (e =? 0x2F) then Ok ([e], p)
    else if e =? 0x62 then Ok ([0x08], p)
    else if e =? 0x66 then Ok ([0x0C], p)
    else if e =? 0x6E then Ok ([0x0A], p)
    else if e =? 0x72 then Ok ([0x0D], p)
    else if e =? 0x74 then Ok ([0x09], p)
    else if e =? 0x75 then
      '(ch, p) ← unicode_escape p;
      Ok (utf8_char ch, p)
    else Err (BadEscape (Some e))
  end.

Fixpoint string_loop (fuel : nat) (bytes : list Z) (p : Parser) : result (list Z * Parser) :=
  match fuel with
  | O => Err OutOfFuel
  | S fuel =>
    match peek p with
    | None => Err UnterminatedString
    | Some c =>
      let p := advance 1 p in
      if c =? 0x22 then
        s ← ok_or (from_utf8 bytes) InvalidUtf8;
        Ok (s, p)
      else if c =? 0x5C then
        '(e, p) ← escape p;
        string_loop fuel (bytes ++ e) p
      else string_loop fuel (bytes ++ [c]) p
    end
  end.

Definition parse_string (p : Parser) : result (list Z * Parser) :=
  if bool_decide (peek p = Some 0x22) then string_loop (S (length (p_rest p))) [] (advance 1 p)
  else Panic.

Definition number (p : Parser) : result (JsonValue F * Parser) :=
  let '(bytes, is_float, p) := scan_number p in
  text ← ok_or (from_utf8 bytes) BadNumber;
  if is_float : bool then
    f ← ok_or (parse_f64 text) (BadFloat text);
    Ok (Float f, p)
  else
    n ← ok_or (parse_i64 text) (BadInt text);
    Ok (Int n, p).

Fixpoint value (fuel : nat) (p : Parser) : result (JsonValue F * Parser) :=
  match fuel with
  | O => Err OutOfFuel
  | S fuel =>
    match peek p with
    | Some c =>
      if c =? 0x6E then lit (str "null") Null p
      else if c =? 0x74 then lit (str "true") (Bool true) p
      else if c =? 0x66 then lit (str "false") (Bool false) p
      else if c =? 0x22 then '(s, p) ← parse_string p; Ok (Str s, p)
      else if c =? 0x5B then
        let p := ws (advance 1 p) in
        if bool_decide (peek p = Some 0x5D) then Ok (Array [], advance 1 p)
        else '(items, p) ← array_loop fuel [] p; Ok (Array items, p)
      else if c =? 0x7B then
        let p := ws (advance 1 p) in
        if bool_decide (peek p = Some 0x7D) then Ok (Object [], advance 1 p)
        else '(map, p) ← object_loop fuel [] p; Ok (Object map, p)
      else if (c =? 0x2D) || is_ascii_digit c then number p
      else Err (UnexpectedByte (Some c) (p_pos p))
    | None => Err (UnexpectedByte None (p_pos p))
    end
  end
with array_loop (fuel : nat) (items : list (JsonValue F)) (p : Parser) :
    result (list (JsonValue F) * Parser) :=
  match fuel with
  | O => Err OutOfFuel
  | S fuel =>
    '(v, p) ← value fuel (ws p);
    let items := items ++ [v] in
    let p := ws p in
    match peek p with
    | Some b =>
      if b =? 0x2C then array_loop fuel items (advance 1 p)
      else if b =? 0x5D then Ok (items, advance 1 p)
      else Err (ExpectedCommaOrBracket (Some b))
    | None => Err (ExpectedCommaOrBracket None)
    end
  end
with object_loop (fuel : nat) (map : list (list Z * JsonValue F)) (p : Parser) :
    result (list (list Z * JsonValue F) * Parser) :=
  match fuel with
  | O => Err OutOfFuel
  | S fuel =>
    let p := ws p in
    if negb (bool_decide (peek p = Some 0x22)) then Err KeyNotString
    else
      '(key, p) ← parse_string p;
      let p := ws p in
      if negb (bool_decide (peek p = Some 0x3A)) then Err ExpectedColon
      else
        '(v, p) ← value fuel (ws (advance 1 p));
        let map := map_insert key v map in
        let p := ws p in
        match peek p with
        | Some b =>
          if b =? 0x2C then object_loop fuel map (advance 1 p)
          else if b =? 0x7D then Ok (map, advance 1 p)
          else Err (ExpectedCommaOrBrace (Some b))
        | None => Err (ExpectedCommaOrBrace None)
        end
  end.

Definition parse (s : list Z) : result (JsonValue F) :=
  let bytes := utf8 s in
  '(v, p) ← value (2 * length bytes + 1) (ws {| p_pos := 0; p_rest := bytes |});
  let p := ws p in
  if negb (p_pos p =? Z.of_nat (length bytes)) then Err TrailingBytes else Ok v.

(** ** Serialisation *)

Definition write_char (c : Z) : list Z :=
  if c =? 0x22 then [0x5C; 0x22]
  else if c =? 0x5C then [0x5C; 0x5C]
  else if c =? 0x0A then [0x5C; 0x6E]
  else if c =? 0x0D then [0x5C; 0x72]
  else if c =? 0x09 then [0x5C; 0x74]
  else if c <? 0x20 then [0x5C; 0x75] ++ fmt_04x c
  else [c].

Definition write_string (s : list Z) : list Z := [0x22] ++ concat (write_char <$> s) ++ [0x22].

Definition fmt_f (f : F) : list Z :=
  if fract_is_zero f && abs_lt f (10 ^ 15) then display_1 f else display f.

Fixpoint write_json (v : JsonValue F) : list Z :=
  match v with
  | Null => str "null"
  | Bool b => if b then str "true" else str "false"
  | Int n => i64_to_string n
  | Float f => fmt_f f
  | Str s => write_string s
  | Array items => [0x5B] ++ separated [0x2C] (map write_json items) ++ [0x5D]
  | Object m =>
    [0x7B] ++ separated [0x2C] (map (fun '(k, v) => write_string k ++ [0x3A] ++ write_json v) m) ++ [0x7D]
  end.

Definition serialize (v : JsonValue F) : list Z := write_json v.

End json.
