(* ===== verification/JsonProofs.v ===== *)
(** The JSON parser and serialiser: the parser returns on every input, and reads back
    what the serialiser writes. *)
From Stdlib Require Import ZArith Lia Bool Sorting.Sorted.
From stdpp Require Import base list gmap strings.
From S2P Require Import Prelude Utf8 Scan Json.

(** * The parser returns *)
Lemma hex4_shrinks p : shrinks (length (p_rest p)) (hex4 p).
Proof.
  unfold hex4. destruct (Nat.ltb_spec (length (p_rest p)) 4); [done|].
  apply shrinks_ok_or; [done|intros s]. apply shrinks_ok_or; [done|intros c].
  cbn -[advance]. rewrite advance_length. lia.
Qed.

Lemma unicode_escape_shrinks p : shrinks (length (p_rest p)) (unicode_escape p).
Proof.
  unfold unicode_escape. eapply shrinks_bind; [apply hex4_shrinks|]. intros code p1 H1.
  destruct (between _ _ code).
  - case_bool_decide; [|done]. eapply shrinks_bind; [apply hex4_shrinks|]. intros low p2 H2.
    rewrite advance_length in H2. destruct (negb _); [done|].
    apply shrinks_ok_or; [done|]. cbn. lia.
  - apply shrinks_ok_or; [done|]. cbn. lia.
Qed.

Lemma escape_shrinks p : shrinks (length (p_rest p)) (escape p).
Proof.
  unfold escape. destruct (peek p) as [e|] eqn:Hp; [|done]. apply peek_Some in Hp.
  pose proof (advance_length 1 p) as Ha. set (q := advance 1 p) in *. clearbody q.
  assert (forall l : list Z, shrinks (length (p_rest p)) (Ok (l, q))) as Hq by (intros; cbn; lia).
  destruct ((e =? 0x22) || _ || _); [apply Hq|]. repeat (destruct (e =? _); [try apply Hq|]); [|done].
  eapply shrinks_bind; [apply unicode_escape_shrinks|]. cbn. lia.
Qed.

Lemma string_loop_shrinks fuel bytes p :
  (length (p_rest p) < fuel)%nat -> shrinks (length (p_rest p)) (string_loop fuel bytes p).
Proof.
  revert bytes p. induction fuel as [|fuel IH]; intros bytes p Hf; [lia|].
  cbn -[advance]. destruct (peek p) as [c|] eqn:Hp; [|done]. apply peek_Some in Hp.
  pose proof (advance_length 1 p) as Ha. set (q := advance 1 p) in *. clearbody q.
  destruct (c =? 0x22). { apply shrinks_ok_or; [done|]. cbn. lia. }
  destruct (c =? 0x5C).
  - eapply shrinks_bind; [apply escape_shrinks|]. intros e p1 H1.
    eapply shrinks_weaken; [|apply IH]; lia.
  - eapply shrinks_weaken; [|apply IH]; lia.
Qed.

Lemma parse_string_shrinks p : peek p = Some 0x22 -> shrinks (length (p_rest p)) (parse_string p).
Proof.
  intros Hp. unfold parse_string. rewrite bool_decide_true by done. apply peek_Some in Hp.
  pose proof (advance_length 1 p). eapply shrinks_weaken; [|apply string_loop_shrinks]; lia.
Qed.

Section total.
Context {F : Type} `{!Float64 F}.

Lemma lit_shrinks w (v : JsonValue F) p :
  w <> [] -> peek p <> None -> shrinks (length (p_rest p)) (lit w v p).
Proof.
  intros Hw Hp. unfold lit. destruct (starts_with _ _); [|done]. cbn -[advance]. rewrite advance_length.
  destruct w; [done|]. unfold peek in Hp. destruct (p_rest p); [done|]. cbn. lia.
Qed.

Lemma number_shrinks p c :
  peek p = Some c -> (c =? 0x2D) || is_ascii_digit c = true -> shrinks (length (p_rest p)) (number (F:=F) p).
Proof.
  intros Hp Hc. unfold number. destruct (scan_number p) as [[bytes is_float] q] eqn:Hq.
  pose proof (scan_number_length _ _ _ _ _ Hp Hc Hq).
  apply shrinks_ok_or; [done|intros text].
  destruct is_float; (apply shrinks_ok_or; [done|]; intros; cbn; lia).
Qed.

Lemma loops_shrink fuel :
  (forall p, (2 * length (p_rest p) + 1 <= fuel)%nat -> shrinks (length (p_rest p)) (value (F:=F) fuel p)) /\
  (forall items p, (2 * length (p_rest p) + 2 <= fuel)%nat ->
     shrinks (length (p_rest p)) (array_loop (F:=F) fuel items p)) /\
  (forall map p, (2 * length (p_rest p) + 2 <= fuel)%nat ->
     shrinks (length (p_rest p)) (object_loop (F:=F) fuel map p)).
Proof.
  induction fuel as [|fuel (IHv & IHa & IHo)]; [split_and!; intros; lia|]. split_and!.
  - intros p Hf. cbn -[advance ws]. destruct (peek p) as [c|] eqn:Hp; [|done].
    assert (peek p <> None) as Hn by congruence. pose proof (peek_Some _ _ Hp) as Hl.
    repeat (match goal with |- context [if _ =? ?k then lit _ _ _ else _] => destruct (c =? k) end;
      [by apply lit_shrinks|]).
    destruct (Z.eqb_spec c 0x22) as [->|_].
    { eapply shrinks_bind; [by apply parse_string_shrinks|]. cbn. lia. }
    pose proof (skip_while_length is_ws (advance 1 p)) as Hw. fold ws in Hw. rewrite advance_length in Hw.
    set (q := ws (advance 1 p)) in *. clearbody q.
    pose proof (advance_length 1 q) as Hq.
    destruct (c =? 0x5B); [|destruct (c =? 0x7B)].
    + case_bool_decide; [cbn -[advance]; lia|].
      eapply shrinks_bind; [apply IHa; lia|]. cbn. lia.
    + case_bool_decide; [cbn -[advance]; lia|].
      eapply shrinks_bind; [apply IHo; lia|]. cbn. lia.
    + destruct ((c =? 0x2D) || is_ascii_digit c) eqn:Hc; [|done]. by eapply number_shrinks.
  - intros items p Hf. cbn -[advance ws]. pose proof (ws_length p).
    eapply shrinks_bind; [apply IHv; lia|]. intros v p1 H1. pose proof (ws_length p1).
    apply after_item; [lia| |done]. intros p2 H2. eapply shrinks_weaken; [|apply IHa]; lia.
  - intros map p Hf. cbn -[advance ws]. pose proof (ws_length p).
    case_bool_decide as Hk; cbn [negb]; [|done].
    eapply shrinks_bind; [by apply parse_string_shrinks|]. intros key p1 H1. pose proof (ws_length p1).
    case_bool_decide; cbn [negb]; [|done]. pose proof (advance_length 1 (ws p1)).
    pose proof (ws_length (advance 1 (ws p1))).
    eapply shrinks_bind; [apply IHv; lia|]. intros v p2 Hv. pose proof (ws_length p2).
    apply after_item; [lia| |done]. intros p3 Hl. eapply shrinks_weaken; [|apply IHo]; lia.
Qed.

Lemma value_shrinks p : shrinks (length (p_rest p)) (value (F:=F) (2 * length (p_rest p) + 1) p).
Proof. apply loops_shrink. lia. Qed.

End total.

(** * Bytes and characters *)
Lemma utf8_char_ne c : utf8_char c <> [].
Proof. unfold utf8_char. by repeat destruct (_ <? _). Qed.

(** * Numbers *)
(** A sign or none, digits, a point, digits: how a finite [f64] is displayed. *)
Definition float_text (t : list Z) : Prop :=
  exists sg ds fs, t = sg ++ ds ++ [0x2E] ++ fs /\ (sg = [] \/ sg = [0x2D]) /\ ds <> [] /\
    Forall (fun b => is_ascii_digit b = true) ds /\ Forall (fun b => is_ascii_digit b = true) fs.

Lemma float_ascii t : float_text t -> Forall (fun c => 0 <= c < 0x80) t.
Proof.
  intros (sg & ds & fs & -> & Hs & _ & Hd & Hf). rewrite !Forall_app. split_and!; auto using sign_ascii, digits_ascii.
  repeat constructor; lia.
Qed.

Section numbers.
Context {F : Type} `{!Float64 F}.

Lemma number_int n pos r : in_i64 n = true -> ends number_byte r ->
  number (F:=F) {| p_pos := pos; p_rest := i64_to_string n ++ r |} =
  Ok (Int n, {| p_pos := pos + Zlen (i64_to_string n); p_rest := r |}).
Proof.
  intros Hn Hr. pose proof (parse_i64_to_string n Hn) as Hp. pose proof (ascii_text _ (i64_ascii n Hn)) as Ht.
  destruct (i64_text n Hn) as (sg & ds & Heq & Hs & Hne & Hd). rewrite Heq in *. rewrite <- (app_assoc sg).
  unfold number, scan_number. destruct (sign_step sg ds r pos Hs Hne Hd) as [neg ->].
  rewrite skip_while_app, step_if_no by (done || (eapply ends_weaken; [|exact Hr]; intros b Hb%number_byte_split; rewrite ?(Z.eqb_sym _ b); tauto)).
  rewrite step_if_no by (eapply ends_weaken; [|exact Hr]; intros b (_ & _ & -> & ->)%number_byte_split; done).
  cbn [p_pos p_rest orb]. rewrite app_assoc.
  rewrite text_taken, Ht by (rewrite length_app; lia). cbn [ok_or mbind outcome_bind]. rewrite Hp. cbn.
  rewrite length_app. do 3 f_equal. lia.
Qed.

Lemma number_float t f pos r : float_text t -> parse_f64 t = Some f -> ends number_byte r ->
  number (F:=F) {| p_pos := pos; p_rest := t ++ r |} = Ok (Float f, {| p_pos := pos + Zlen t; p_rest := r |}).
Proof.
  intros Hft Hp Hr. pose proof (ascii_text _ (float_ascii t Hft)) as Ht.
  destruct Hft as (sg & ds & fs & -> & Hs & Hne & Hd & Hf).
  replace ((sg ++ ds ++ [0x2E] ++ fs) ++ r) with (sg ++ ds ++ 0x2E :: fs ++ r) by (by rewrite <- !app_assoc).
  unfold number, scan_number. destruct (sign_step sg ds (0x2E :: fs ++ r) pos Hs Hne Hd) as [neg ->].
  rewrite skip_while_app, step_if_yes by done.
  rewrite skip_while_app by (done || (eapply ends_weaken; [|exact Hr]; intros b Hb%number_byte_split; tauto)).
  rewrite step_if_no by (eapply ends_weaken; [|exact Hr]; intros b (_ & _ & -> & ->)%number_byte_split; done).
  cbn [p_pos p_rest orb].
  replace (sg ++ ds ++ 0x2E :: fs ++ r) with ((sg ++ ds ++ [0x2E] ++ fs) ++ r) by (by rewrite <- !app_assoc).
  rewrite text_taken, Ht by (rewrite !length_app; cbn; lia). cbn [ok_or mbind outcome_bind]. rewrite Hp. cbn.
  rewrite !length_app. do 3 f_equal. cbn. lia.
Qed.

End numbers.

(** * Strings *)
Lemma string_loop_verbatim bs fuel acc pos r :
  Forall (fun b => b <> 0x22 /\ b <> 0x5C) bs ->
  string_loop (length bs + fuel) acc {| p_pos := pos; p_rest := bs ++ r |} =
  string_loop fuel (acc ++ bs) {| p_pos := pos + Zlen bs; p_rest := r |}.
Proof.
  intros H. revert acc pos. induction H as [|b bs [H1 H2] Hbs IH]; intros acc pos.
  - by rewrite app_nil_r, Z.add_0_r.
  - cbn [length plus string_loop peek p_rest app head].
    rewrite (proj2 (Z.eqb_neq b 0x22)), (proj2 (Z.eqb_neq b 0x5C)) by done.
    change (advance 1 _) with {| p_pos := pos + 1; p_rest := bs ++ r |}. rewrite IH, <- app_assoc.
    cbn [app]. do 2 f_equal. lia.
Qed.

(** The six-byte escape of a control character. *)
Definition control_ok (c : Z) : bool :=
  match from_utf8 (fmt_04x c) with
  | Some s => bool_decide (u32_from_hex (utf8 s) = Some c) && forallb (fun b => b <? 0x80) (fmt_04x c)
  | None => false
  end.

Lemma control_all : forallb control_ok (seqZ 0 32) = true.
Proof. vm_compute. reflexivity. Qed.

Lemma control_escape c : 0 <= c < 0x20 ->
  utf8 ([0x5C; 0x75] ++ fmt_04x c) = [0x5C; 0x75] ++ fmt_04x c /\
  forall pos r, unicode_escape {| p_pos := pos; p_rest := fmt_04x c ++ r |} =
                Ok (c, {| p_pos := pos + 4; p_rest := r |}).
Proof.
  intros Hc. pose proof control_all as H. rewrite forallb_forall in H.
  assert (c ∈ seqZ 0 32) as Hi%list_elem_of_In by (apply elem_of_seqZ; lia). apply H in Hi. clear H. rename Hi into H.
  unfold control_ok in H. destruct (from_utf8 (fmt_04x c)) as [s|] eqn:Hs; [|done].
  apply andb_true_iff in H as [Hu%bool_decide_eq_true Ha].
  rewrite forallb_forall in Ha. split.
  - apply utf8_ascii. apply Forall_app. split; [repeat constructor; lia|]. apply Forall_forall.
    intros b Hb%list_elem_of_In%Ha. by apply Z.ltb_lt.
  - intros pos r. unfold unicode_escape, hex4. cbn [p_rest].
    rewrite (proj2 (Nat.ltb_ge _ _)) by (rewrite length_app; cbn; lia).
    change (take 4 (fmt_04x c ++ r)) with (fmt_04x c). rewrite Hs. cbn [ok_or mbind outcome_bind].
    rewrite Hu. cbn [ok_or mbind outcome_bind]. rewrite between_false by lia.
    unfold char_from_u32. rewrite decide_True by (unfold scalar; lia). done.
Qed.

Lemma string_loop_escape fuel acc pos e bs r p :
  escape {| p_pos := pos + 1; p_rest := bs ++ r |} = Ok (e, p) ->
  string_loop (S fuel) acc {| p_pos := pos; p_rest := 0x5C :: bs ++ r |} = string_loop fuel (acc ++ e) p.
Proof.
  intros He. cbn [string_loop peek p_rest head Z.eqb Pos.eqb].
  change (advance 1 _) with {| p_pos := pos + 1; p_rest := bs ++ r |}. by rewrite He.
Qed.

Lemma utf8_one c : utf8 [c] = utf8_char c.
Proof. unfold utf8. cbn. apply app_nil_r. Qed.

(** One written character is read back, with at most a unit of fuel per byte. *)
Lemma string_loop_char c fuel acc pos r : scalar c ->
  (length (utf8 (write_char c)) <= fuel)%nat ->
  exists fuel', (fuel <= length (utf8 (write_char c)) + fuel')%nat /\
    string_loop fuel acc {| p_pos := pos; p_rest := utf8 (write_char c) ++ r |} =
    string_loop fuel' (acc ++ utf8_char c) {| p_pos := pos + Zlen (utf8 (write_char c)); p_rest := r |}.
Proof.
  intros Hc. unfold write_char.
  repeat (match goal with |- context [c =? ?k] => destruct (Z.eqb_spec c k) as [->|?] end;
    [ intros Hf; destruct fuel as [|fuel]; [cbn in Hf; lia|]; exists fuel; cbn [utf8_char]; split; [cbn; lia|];
      match goal with |- context [utf8 [0x5C; ?e]] => change (utf8 [0x5C; e]) with [0x5C; e];
        change ([0x5C; e] ++ r) with (0x5C :: [e] ++ r) end;
      erewrite (string_loop_escape fuel acc pos _ [_] r); [|reflexivity]; f_equal;
      unfold advance; cbn; f_equal; lia |]).
  destruct (Z.ltb_spec c 0x20) as [Hlt|Hge]; intros Hf.
  - assert (0 <= c < 0x20) as Hr by (unfold scalar in Hc; lia).
    destruct (control_escape c Hr) as [Hu He]. rewrite Hu in *.
    destruct fuel as [|fuel]; [cbn in Hf; lia|]. exists fuel. split; [cbn; lia|].
    change (([0x5C; 0x75] ++ fmt_04x c) ++ r) with (0x5C :: ([0x75] ++ fmt_04x c) ++ r).
    erewrite (string_loop_escape fuel acc pos (utf8_char c) ([0x75] ++ fmt_04x c) r); [reflexivity|].
    rewrite <- app_assoc. unfold escape. cbn [peek p_rest app head Z.eqb Pos.eqb orb].
    change (advance 1 _) with {| p_pos := pos + 1 + 1; p_rest := fmt_04x c ++ r |}. rewrite He.
    cbn. do 3 f_equal. lia.
  - rewrite utf8_one in *. exists (fuel - length (utf8_char c))%nat. split; [lia|].
    replace fuel with (length (utf8_char c) + (fuel - length (utf8_char c)))%nat at 1 by lia.
    apply string_loop_verbatim. destruct (Z.lt_ge_cases c 0x80).
    + unfold utf8_char. rewrite (proj2 (Z.ltb_lt _ _)) by done. by repeat constructor.
    + eapply Forall_impl; [apply utf8_char_high; unfold scalar in Hc; lia|]. cbn. lia.
Qed.

Lemma string_loop_write s fuel done pos r : Forall scalar s -> Forall scalar done ->
  (length (utf8 (concat (write_char <$> s))) < fuel)%nat ->
  string_loop fuel (utf8 done) {| p_pos := pos; p_rest := utf8 (concat (write_char <$> s)) ++ 0x22 :: r |} =
  Ok (done ++ s, {| p_pos := pos + Zlen (utf8 (concat (write_char <$> s))) + 1; p_rest := r |}).
Proof.
  intros Hs. revert fuel done pos. induction Hs as [|c s Hc Hs IH]; intros fuel done pos Hd Hf.
  - destruct fuel as [|fuel]; [cbn in Hf; lia|]. cbn -[advance]. rewrite from_utf8_utf8 by done.
    cbn. unfold advance. cbn. rewrite app_nil_r. do 3 f_equal. lia.
  - cbn [fmap list_fmap concat] in *. rewrite utf8_app in *. rewrite length_app in *. rewrite <- app_assoc.
    destruct (string_loop_char c fuel (utf8 done) pos (utf8 (concat (write_char <$> s)) ++ 0x22 :: r) Hc ltac:(lia))
      as (fuel' & Hle & ->).
    rewrite <- utf8_one, <- utf8_app, IH; [|by apply Forall_app; auto|lia].
    rewrite <- app_assoc. do 3 f_equal. lia.
Qed.

Lemma utf8_write_string s : utf8 (write_string s) = 0x22 :: utf8 (concat (write_char <$> s)) ++ [0x22].
Proof. unfold write_string. by rewrite !utf8_app. Qed.

Lemma parse_write_string s pos r : Forall scalar s ->
  parse_string {| p_pos := pos; p_rest := utf8 (write_string s) ++ r |} =
  Ok (s, {| p_pos := pos + Zlen (utf8 (write_string s)); p_rest := r |}).
Proof.
  intros Hs. rewrite utf8_write_string. unfold parse_string. rewrite bool_decide_true by done. cbn [p_rest].
  change (advance 1 _) with
    {| p_pos := pos + 1; p_rest := (utf8 (concat (write_char <$> s)) ++ [0x22]) ++ r |}.
  rewrite <- app_assoc. cbn [app].
  rewrite (string_loop_write s _ [] (pos + 1) r Hs ltac:(done)).
  - cbn [app]. do 3 f_equal. cbn [length]. rewrite length_app. cbn. lia.
  - cbn [length app]. rewrite !length_app. cbn. lia.
Qed.

(** * Well-formed values

    What the standard library documents of its float formatting: a finite float is
    displayed as a sign, digits, a point and digits that parse back to it. *)
Class Float64Laws (F : Type) `{!Float64 F} := {
  finite : F -> Prop;
  display_1_law f : finite f -> fract_is_zero f = true -> abs_lt f (10 ^ 15) = true ->
    float_text (display_1 f) /\ parse_f64 (display_1 f) = Some f;
  display_law f : finite f -> fract_is_zero f = false ->
    float_text (display f) /\ parse_f64 (display f) = Some f
}.

Section roundtrip.
Context {F : Type} `{!Float64 F} `{!Float64Laws F}.

(** Integers in range, floats with a fraction or of less than sixteen digits, strings
    of scalar values, objects in key order. *)
Fixpoint wf (v : JsonValue F) : Prop :=
  match v with
  | Null | Bool _ => True
  | Int n => in_i64 n = true
  | Float f => finite f /\ (fract_is_zero f = true -> abs_lt f (10 ^ 15) = true)
  | Str s => Forall scalar s
  | Array items => foldr (fun x P => wf x /\ P) True items
  | Object m => StronglySorted str_lt m.*1 /\ foldr (fun '(k, x) P => (Forall scalar k /\ wf x) /\ P) True m
  end.

(** Induction through the arrays and the objects. *)
Lemma json_ind (P : JsonValue F -> Prop) :
  P Null -> (forall b, P (Bool b)) -> (forall n, P (Int n)) -> (forall f, P (Float f)) -> (forall s, P (Str s)) ->
  (forall items, Forall P items -> P (Array items)) ->
  (forall m, Forall (fun e => P e.2) m -> P (Object m)) ->
  forall v, P v.
Proof.
  intros Hn Hb Hi Hf Hs Ha Ho. fix IH 1.
  intros [|b|n|f|s|items|m]; [apply Hn|apply Hb|apply Hi|apply Hf|apply Hs|apply Ha|apply Ho].
  - induction items as [|x items IHl]; constructor; [apply IH|apply IHl].
  - induction m as [|[k v] m IHm]; constructor; [apply IH|apply IHm].
Qed.

Lemma fmt_f_law f : wf (Float f) -> float_text (fmt_f f) /\ parse_f64 (fmt_f f) = Some f.
Proof.
  intros [Hfin Hlt]. unfold fmt_f. destruct (fract_is_zero f) eqn:Hz; cbn.
  - rewrite Hlt by done. by apply display_1_law; auto.
  - by apply display_law.
Qed.

(** A number's text starts with a sign or a digit. *)
Lemma number_head sg ds l :
  sg = [] \/ sg = [0x2D] -> ds <> [] -> Forall (fun b => is_ascii_digit b = true) ds ->
  exists c k, sg ++ ds ++ l = c :: k /\ (c =? 0x2D) || is_ascii_digit c = true.
Proof.
  intros [-> | ->] Hne Hd; [|by eexists _, _]. destruct ds as [|b ds]; [done|]. inversion Hd; subst.
  eexists b, _. split; [reflexivity|]. apply orb_true_iff. auto.
Qed.

Definition reads (v : JsonValue F) : Prop :=
  forall fuel pos r, (2 * length (utf8 (write_json v) ++ r) + 1 <= fuel)%nat -> ends number_byte r ->
  value fuel {| p_pos := pos; p_rest := utf8 (write_json v) ++ r |} =
  Ok (v, {| p_pos := pos + Zlen (utf8 (write_json v)); p_rest := r |}).

(** Where [value] dispatches to [number]. *)
Lemma value_number fuel p c : peek p = Some c -> (c =? 0x2D) || is_ascii_digit c = true ->
  value (F:=F) (S fuel) p = number p.
Proof.
  intros Hp Hc. cbn -[ws number lit]. rewrite Hp.
  assert (c = 0x2D \/ 0x30 <= c <= 0x39) as Hr.
  { apply orb_true_iff in Hc as [Hc%Z.eqb_eq|Hc%digit_range]; auto. }
  repeat (match goal with |- context [if c =? ?k then _ else _] => rewrite (proj2 (Z.eqb_neq c k)) by lia end).
  by rewrite Hc.
Qed.

Lemma value_array fuel p : peek p = Some 0x5B ->
  value (F:=F) (S fuel) p =
  if bool_decide (peek (ws (advance 1 p)) = Some 0x5D) then Ok (Array [], advance 1 (ws (advance 1 p)))
  else '(items, p) ← array_loop fuel [] (ws (advance 1 p)); Ok (Array items, p).
Proof. intros Hp. cbn -[ws advance]. by rewrite Hp. Qed.

Lemma value_object fuel p : peek p = Some 0x7B ->
  value (F:=F) (S fuel) p =
  if bool_decide (peek (ws (advance 1 p)) = Some 0x7D) then Ok (Object [], advance 1 (ws (advance 1 p)))
  else '(map, p) ← object_loop fuel [] (ws (advance 1 p)); Ok (Object map, p).
Proof. intros Hp. cbn -[ws advance]. by rewrite Hp. Qed.

Lemma reads_number v t : utf8 (write_json v) = t ->
  (exists c k, t = c :: k /\ (c =? 0x2D) || is_ascii_digit c = true) ->
  (forall pos r, ends number_byte r ->
     number {| p_pos := pos; p_rest := t ++ r |} = Ok (v, {| p_pos := pos + Zlen t; p_rest := r |})) ->
  reads v.
Proof.
  intros <- (c & k & Ht & Hc) Hn fuel pos r Hf Hr. destruct fuel as [|fuel]; [lia|].
  rewrite <- Hn by done. apply value_number with c; [|done]. by rewrite Ht.
Qed.

Lemma reads_int n : in_i64 n = true -> reads (Int n).
Proof.
  intros Hn. apply reads_number with (i64_to_string n).
  - apply ascii_utf8, i64_ascii, Hn.
  - destruct (i64_text n Hn) as (sg & ds & -> & Hs & Hne & Hd).
    rewrite <- (app_nil_r ds). by apply number_head.
  - intros. by apply number_int.
Qed.

Lemma reads_float f : wf (Float f) -> reads (Float f).
Proof.
  intros [Hft Hp]%fmt_f_law. apply reads_number with (fmt_f f).
  - apply ascii_utf8, float_ascii, Hft.
  - destruct Hft as (sg & ds & fs & -> & Hs & Hne & Hd & _). by apply number_head.
  - intros. by apply number_float.
Qed.

Lemma reads_str s : Forall scalar s -> reads (Str s).
Proof.
  intros Hs fuel pos r Hf Hr. destruct fuel as [|fuel]; [lia|].
  cbn -[ws utf8 parse_string write_string]. unfold peek. cbn [p_rest].
  assert (exists l, utf8 (write_string s) ++ r = 0x22 :: l) as [l Hl]
    by (rewrite utf8_write_string; eexists; reflexivity).
  pose proof (parse_write_string s pos r Hs) as Hp. rewrite Hl in *.
  cbn -[ws utf8 parse_string write_string]. by rewrite Hp.
Qed.

(** A value's text starts with a byte that is neither a space nor a closing bracket. *)
Lemma write_json_head v : wf v ->
  exists c l, utf8 (write_json v) = c :: l /\ is_ws c = false /\ c <> 0x5D.
Proof.
  assert (forall t, (exists c k, t = c :: k /\ (c =? 0x2D) || is_ascii_digit c = true) ->
            Forall (fun c => 0 <= c < 0x80) t ->
            exists c l, utf8 t = c :: l /\ is_ws c = false /\ c <> 0x5D) as Hnum.
  { intros t (c & k & -> & Hc) Ha. rewrite ascii_utf8 by done. exists c, k. split; [done|].
    apply orb_true_iff in Hc as [Hc%Z.eqb_eq|Hc%digit_range]; [by subst|].
    unfold is_ws. rewrite !orb_false_iff, !Z.eqb_neq. lia. }
  destruct v as [|[]|n|f|s|items|m]; intros Hwf; cbn [write_json].
  1-3: eexists _, _; split; [vm_compute; reflexivity|done].
  - apply Hnum; [|by apply i64_ascii]. destruct (i64_text n Hwf) as (sg & ds & -> & Hs & Hne & Hd).
    rewrite <- (app_nil_r ds). by apply number_head.
  - apply fmt_f_law in Hwf as [Hft _]. apply Hnum; [|by apply float_ascii].
    destruct Hft as (sg & ds & fs & -> & Hs & Hne & Hd & _). by apply number_head.
  - rewrite utf8_write_string. by eexists _, _.
  - rewrite utf8_app. by eexists _, _.
  - rewrite utf8_app. by eexists _, _.
Qed.

Lemma ws_text v pos r : wf v ->
  ws {| p_pos := pos; p_rest := utf8 (write_json v) ++ r |} = {| p_pos := pos; p_rest := utf8 (write_json v) ++ r |}.
Proof. intros (c & l & -> & Hw & _)%write_json_head. by apply ws_none. Qed.

Lemma array_loop_reads v items fuel acc pos r :
  Forall (fun v => wf v /\ reads v) (v :: items) ->
  (2 * length (utf8 (separated [0x2C%Z] (map write_json (v :: items))) ++ 0x5D%Z :: r) + 2 <= fuel)%nat ->
  array_loop fuel acc {| p_pos := pos; p_rest := utf8 (separated [0x2C] (map write_json (v :: items))) ++ 0x5D :: r |} =
  Ok (acc ++ v :: items,
      {| p_pos := pos + Zlen (utf8 (separated [0x2C] (map write_json (v :: items)))) + 1; p_rest := r |}).
Proof.
  revert v fuel acc pos. induction items as [|w items IH]; intros v fuel acc pos Hok Hf;
    inversion Hok as [|? ? [Hwf Hv] Hok']; subst; (destruct fuel as [|fuel]; [lia|]).
  - cbn [map separated concat fmap list_fmap] in *. rewrite app_nil_r in *. cbn [array_loop].
    rewrite ws_text, Hv by (done || lia). cbn [mbind outcome_bind]. rewrite ws_none by done.
    unfold advance. cbn. do 3 f_equal; lia.
  - cbn [map] in *. rewrite separated_cons2, !utf8_app in *. rewrite <- !app_assoc in *.
    set (t := utf8 (separated _ _)) in *. cbn [array_loop].
    change (utf8 [0x2C]) with [0x2C] in *. cbn [app] in *.
    rewrite ws_text, Hv by (done || lia). cbn [mbind outcome_bind]. rewrite ws_none by done.
    cbn [peek p_rest head Z.eqb Pos.eqb].
    change (advance 1 _) with {| p_pos := pos + Zlen (utf8 (write_json v)) + 1; p_rest := t ++ 0x5D :: r |}.
    unfold t.
    rewrite IH by (done || (rewrite !length_app in Hf; cbn in Hf |- *; unfold t in Hf; rewrite !length_app in *; cbn in *; lia)).
    rewrite <- app_assoc. do 3 f_equal. rewrite !length_app. cbn [length map]. lia.
Qed.

Lemma reads_array items : Forall (fun v => wf v /\ reads v) items -> reads (Array items).
Proof.
  intros Hok fuel pos r Hf Hr. destruct fuel as [|fuel]; [lia|].
  cbn [write_json] in *. rewrite !utf8_app in *. change (utf8 [0x5B]) with [0x5B] in *. change (utf8 [0x5D]) with [0x5D] in *.
  rewrite <- !app_assoc in *. cbn [app] in *. rewrite value_array by done.
  rewrite !advance_1.
  destruct items as [|v items].
  - change (utf8 (separated _ _)) with (@nil Z). cbn [app]. rewrite !ws_none by done.
    rewrite bool_decide_true, advance_1 by done. do 3 f_equal. cbn. lia.
  - assert (exists c l, utf8 (separated [0x2C] (map write_json (v :: items))) ++ 0x5D :: r = c :: l /\
              is_ws c = false /\ c <> 0x5D) as (c & l & Hcl & Hw & Hne).
    { inversion Hok as [|? ? [Hwf _] _]; subst. destruct (write_json_head v Hwf) as (c & l & Hc & H).
      cbn [map separated]. rewrite utf8_app, Hc. by eexists _, _. }
    rewrite ws_none by (by rewrite Hcl). rewrite bool_decide_false by (rewrite Hcl; cbn; congruence).
    rewrite array_loop_reads by (done || (cbn [length] in Hf; lia)). cbn [mbind outcome_bind app].
    do 3 f_equal. cbn [length]. rewrite length_app. cbn. lia.
Qed.

(** An entry of an object. *)
Definition entry_text (e : list Z * JsonValue F) : list Z := write_string e.1 ++ [0x3A] ++ write_json e.2.

Lemma write_object m : write_json (Object m) = [0x7B] ++ separated [0x2C] (map entry_text m) ++ [0x7D].
Proof. cbn [write_json]. do 3 f_equal. apply map_ext. by intros [k v]. Qed.

Definition entry_ok (e : list Z * JsonValue F) : Prop := Forall scalar e.1 /\ wf e.2 /\ reads e.2.

Lemma quoted s r : exists l, utf8 (write_string s) ++ r = 0x22 :: l.
Proof. rewrite utf8_write_string. by eexists. Qed.

Lemma Zlen_cons {A} (x : A) l : Zlen (x :: l) = 1 + Zlen l.
Proof. cbn [length]. lia. Qed.

Lemma Zlen_app {A} (l k : list A) : Zlen (l ++ k) = Zlen l + Zlen k.
Proof. rewrite length_app. lia. Qed.

(** An entry and the byte after it, read by the loop. *)
Lemma object_loop_entry k v fuel m pos b r :
  entry_ok (k, v) -> (b = 0x2C \/ b = 0x7D) ->
  (2 * length (utf8 (entry_text (k, v)) ++ b :: r) + 2 <= S fuel)%nat ->
  object_loop (S fuel) m {| p_pos := pos; p_rest := utf8 (entry_text (k, v)) ++ b :: r |} =
  let p := {| p_pos := pos + Zlen (utf8 (entry_text (k, v))) + 1; p_rest := r |} in
  if b =? 0x2C then object_loop fuel (map_insert k v m) p else Ok (map_insert k v m, p).
Proof.
  intros (Hk & Hwf & Hv) Hb Hf. cbn [fst snd] in *. unfold entry_text in *. cbn [fst snd] in *.
  rewrite !utf8_app, <- !app_assoc in *. change (utf8 [0x3A]) with [0x3A] in *. cbn [app] in *.
  cbn [object_loop]. destruct (quoted k (0x3A :: utf8 (write_json v) ++ b :: r)) as [l Hq].
  rewrite ws_none by (by rewrite Hq). rewrite bool_decide_true by (by rewrite Hq). cbn [negb].
  rewrite parse_write_string by done. cbn [mbind outcome_bind]. rewrite ws_none by done.
  rewrite bool_decide_true by done. cbn [negb]. rewrite advance_1, ws_text by done.
  rewrite !length_app in Hf. cbn [length] in Hf. rewrite !length_app in Hf. cbn [length] in Hf.
  rewrite Hv by (rewrite ?length_app; cbn [length]; destruct Hb as [-> | ->]; done || lia). cbn [mbind outcome_bind].
  rewrite ws_none by (by destruct Hb as [-> | ->]). cbn [peek p_rest head]. rewrite advance_1.
  rewrite !Zlen_app, Zlen_cons. replace (pos + _ + 1 + _ + 1) with
    (pos + (Zlen (utf8 (write_string k)) + (1 + Zlen (utf8 (write_json v)))) + 1) by lia.
  by destruct Hb as [-> | ->].
Qed.

Lemma object_loop_reads e m fuel acc pos r :
  Forall entry_ok (e :: m) ->
  StronglySorted str_lt (acc ++ e :: m).*1 ->
  (2 * length (utf8 (separated [0x2C%Z] (map entry_text (e :: m))) ++ 0x7D%Z :: r) + 2 <= fuel)%nat ->
  object_loop fuel acc {| p_pos := pos; p_rest := utf8 (separated [0x2C] (map entry_text (e :: m))) ++ 0x7D :: r |} =
  Ok (acc ++ e :: m,
      {| p_pos := pos + Zlen (utf8 (separated [0x2C] (map entry_text (e :: m)))) + 1; p_rest := r |}).
Proof.
  revert e fuel acc pos. induction m as [|e' m IH]; intros [k v] fuel acc pos Hok Hs Hf;
    apply Forall_cons in Hok as [He Hok]; (destruct fuel as [|fuel]; [lia|]).
  all: assert (map_insert k v acc = acc ++ [(k, v)]) as Hins by (eapply map_insert_last, sorted_before, Hs).
  - cbn [map separated concat fmap list_fmap] in *. rewrite app_nil_r in *.
    rewrite object_loop_entry by auto. cbn. by rewrite Hins.
  - cbn [map] in *. rewrite separated_cons2, !utf8_app in *. rewrite <- !app_assoc in *.
    change (utf8 [0x2C]) with [0x2C] in *. cbn [app] in *.
    rewrite object_loop_entry by auto. cbn [Z.eqb Pos.eqb]. rewrite Hins.
    rewrite IH; [|done|by rewrite <- app_assoc|rewrite length_app in Hf; cbn [length] in Hf; lia].
    rewrite <- app_assoc, !Zlen_app. do 3 f_equal. rewrite Zlen_cons. lia.
Qed.

Lemma reads_object m : Forall entry_ok m -> StronglySorted str_lt m.*1 -> reads (Object m).
Proof.
  intros Hok Hs fuel pos r Hf Hr. destruct fuel as [|fuel]; [lia|].
  rewrite write_object, !utf8_app in *. change (utf8 [0x7B]) with [0x7B] in *. change (utf8 [0x7D]) with [0x7D] in *.
  rewrite <- !app_assoc in *. cbn [app] in *. rewrite value_object by done. rewrite !advance_1.
  destruct m as [|e m].
  - change (utf8 (separated _ _)) with (@nil Z). cbn [app]. rewrite !ws_none by done.
    rewrite bool_decide_true, advance_1 by done. do 3 f_equal. cbn. lia.
  - assert (exists l, utf8 (separated [0x2C] (map entry_text (e :: m))) ++ 0x7D :: r = 0x22 :: l) as (l & Hl).
    { cbn [map separated]. unfold entry_text at 1. rewrite !utf8_app, <- !app_assoc. apply quoted. }
    rewrite ws_none by (by rewrite Hl). rewrite bool_decide_false by (rewrite Hl; cbn; congruence).
    rewrite object_loop_reads by (done || (cbn [length] in Hf; lia)). cbn [mbind outcome_bind app].
    do 3 f_equal. rewrite Zlen_cons, Zlen_app. cbn. lia.
Qed.

Lemma wf_reads v : wf v -> reads v.
Proof.
  induction v as [|b|n|f|s|items IH|m IH] using json_ind; intros Hwf.
  - intros fuel pos r Hf Hr. destruct fuel as [|fuel]; [lia|reflexivity].
  - intros fuel pos r Hf Hr. destruct fuel as [|fuel]; [lia|by destruct b].
  - by apply reads_int.
  - by apply reads_float.
  - by apply reads_str.
  - apply reads_array. cbn in Hwf. induction IH as [|v items Hv IH IHl]; [done|].
    destruct Hwf as [Hw Hwf]. constructor; auto.
  - destruct Hwf as [Hs Hwf]. apply reads_object; [|done]. clear Hs.
    induction IH as [|[k v] m Hv IH IHl]; [done|]. destruct Hwf as [[Hk Hw] Hwf].
    constructor; [|by apply IHl]. split_and!; auto.
Qed.

Lemma parse_serialize v : wf v -> parse (serialize v) = Ok v.
Proof.
  intros Hwf. unfold parse, serialize. pose proof (ws_text v 0 [] Hwf) as Hws.
  pose proof (wf_reads v Hwf (2 * length (utf8 (write_json v)) + 1)%nat 0 []) as Hv.
  rewrite app_nil_r in *. rewrite Hws, Hv by done. cbn [mbind outcome_bind].
  rewrite ws_none by done. cbn [p_pos]. by rewrite Z.add_0_l, Z.eqb_refl.
Qed.

End roundtrip.

(** * Decimal floats: an instance of the laws

    Numbers of tenths, with a sign. *)
Record Tenths := { t_neg : bool; t_abs : Z }.

Definition show_tenths (f : Tenths) : list Z :=
  (if t_neg f then [0x2D] else []) ++ dec_digits 19 (t_abs f / 10) ++ [0x2E; 0x30 + t_abs f mod 10].

Definition read_tenths (t : list Z) : option Tenths :=
  let '(neg, t) := match t with b :: l => if b =? 0x2D then (true, l) else (false, t) | [] => (false, t) end in
  let n := count_while is_ascii_digit t in
  match drop n t with
  | [_; d] => Some {| t_neg := neg; t_abs := dec_val (take n t) * 10 + (d - 0x30) |}
  | _ => None
  end.

#[export] Instance tenths_ops : Float64 Tenths := {
  parse_f64 := read_tenths;
  display := show_tenths;
  display_1 := show_tenths;
  fract_is_zero f := t_abs f mod 10 =? 0;
  abs_lt f bound := t_abs f <? 10 * bound;
  f64_as_i64 f := if t_neg f then - (t_abs f / 10) else t_abs f / 10
}.

Lemma tenths_digits (ds : list Z) d : ds <> [] -> Forall (fun b => is_ascii_digit b = true) ds ->
  count_while is_ascii_digit (ds ++ [0x2E; d]) = length ds.
Proof. intros. by apply count_while_app. Qed.

Lemma read_show f : 0 <= t_abs f < 10 ^ 20 -> float_text (show_tenths f) /\ read_tenths (show_tenths f) = Some f.
Proof.
  intros Hf. assert (0 <= t_abs f / 10 < 10 ^ 19) as Hq
    by (split; [apply Z.div_pos|apply Z.div_lt_upper_bound]; lia).
  pose proof (Z.mod_pos_bound (t_abs f) 10) as Hm. pose proof (Z.div_mod (t_abs f) 10) as Hdm.
  pose proof (dec_digits_ne 19 (t_abs f / 10) ltac:(done)) as Hne.
  pose proof (dec_digits_digits 19 (t_abs f / 10) ltac:(lia)) as Hd.
  pose proof (dec_val_digits 19 (t_abs f / 10) ltac:(cbn; lia)) as Hv.
  unfold show_tenths. set (ds := dec_digits 19 _) in *. clearbody ds. split.
  - exists (if t_neg f then [0x2D] else []), ds, [0x30 + t_abs f mod 10].
    split_and!; [done|destruct (t_neg f); auto|done|done|]. repeat constructor. apply digit_range. lia.
  - assert (read_tenths ((if t_neg f then [0x2D] else []) ++ ds ++ [0x2E; 0x30 + t_abs f mod 10]) =
            Some {| t_neg := t_neg f; t_abs := t_abs f / 10 * 10 + (0x30 + t_abs f mod 10 - 0x30) |}) as ->.
    { unfold read_tenths. rewrite <- Hv. destruct (t_neg f); cbn [app].
      - cbn [Z.eqb Pos.eqb]. rewrite tenths_digits, drop_app_length, take_app_length by done. done.
      - destruct ds as [|b ds]; [done|]. cbn [app]. destruct (digit_sign b) as [-> _]; [by inversion Hd|].
        rewrite app_comm_cons, (tenths_digits (b :: ds)), (drop_app_length (b :: ds)), (take_app_length (b :: ds)) by done. done. }
    f_equal. destruct f as [neg n]. cbn in *. f_equal. lia.
Qed.

#[export] Instance tenths_laws : Float64Laws Tenths.
Proof.
  refine {| finite := fun f => 0 <= t_abs f < 10 ^ 20 |}.
  - intros f Hf _ _. by apply read_show.
  - intros f Hf _. by apply read_show.
Defined.

(** * The theorems *)

(** C23: parsing what [serialize] wrote gives the value back: every integer of [i64],
    every finite float but the integral ones of sixteen digits or more, every string
    (quotes, backslashes, control characters, text past ASCII), nested arrays and
    objects in key order. *)
Theorem json_roundtrip {F : Type} `{!Float64 F} `{!Float64Laws F} (v : JsonValue F) :
  wf v -> parse (serialize v) = Ok v.
Proof. apply parse_serialize. Qed.

Definition json_sample : JsonValue Tenths :=
  Object [(str "args", Array [Int (-9223372036854775808); Float {| t_neg := true; t_abs := 15 |}; Null; Bool false]);
          (str "text", Str [0x22; 0x5C; 0x0A; 0x07; 0xE9; 0x20AC; 0x1F600])].

Lemma json_roundtrip_witness : parse (serialize json_sample) = Ok json_sample.
Proof.
  apply json_roundtrip. cbn -[Z.pow]. split_and!; try done; try lia.
  all: repeat first [done | unfold scalar; lia | constructor].
Defined.

(** The parser returns on every text: it neither panics nor loops, whatever the
    bytes, and with the fuel [parse] gives it the result is a value or one of the
    errors of the source. *)
Theorem json_parse_total {F : Type} `{!Float64 F} (s : list Z) :
  match parse (F:=F) s with Ok _ => True | Err e => e <> OutOfFuel | Panic => False end.
Proof.
  unfold parse. set (p := {| p_pos := 0; p_rest := utf8 s |}).
  assert (shrinks (length (utf8 s) + 1) (value (F:=F) (2 * length (utf8 s) + 1) (ws p))) as H.
  { pose proof (ws_length p) as Hl. change (p_rest p) with (utf8 s) in Hl.
    eapply shrinks_weaken; [|apply loops_shrink]; lia. }
  destruct (value _ (ws p)) as [[v q]| |]; cbn in *; [|done|done]. by destruct (negb _).
Qed.
