(* ===== verification/ApiJson.v ===== *)
(** The API crate's JSON codec (src/crates/mimo26-api/src/json.rs): one number type,
    objects as the pairs in the order they were read.  As in Json.v, strings are lists of scalar
    values, the parser keeps the bytes from its position on, and recursion takes fuel
    ([api_parse_returns]: [parse] gives enough). *)
From Stdlib Require Import ZArith Lia Bool.
From stdpp Require Import base list gmap strings.
From S2P Require Import Prelude Utf8 Scan.

(** * Definitions *)

Inductive Json (F : Type) : Type :=
| Null
| Bool (b : bool)
| Num (n : F)
| Str (s : list Z)
| Array (items : list (Json F))
| Object (pairs : list (list Z * Json F)).
Arguments Null {F}.
Arguments Bool {F} b.
Arguments Num {F} n.
Arguments Str {F} s.
Arguments Array {F} items.
Arguments Object {F} pairs.

(** The error strings. *)
Inductive JsonError : Type :=
| TrailingBytes (i : Z)
| UnexpectedByte (c i : Z)
| UnexpectedEnd
| BadLiteral (i : Z)
| ExpectedStringKey (i : Z)
| ExpectedColon (i : Z)
| ExpectedCommaOrBrace (i : Z)
| ExpectedCommaOrBracket (i : Z)
| InvalidUtf8
| InvalidUtf8InString
| UnterminatedString
| BadEscape (c : option Z)
| BadCodepoint
| LoneHighSurrogate
| LoneLowSurrogate
| BadNumber (text : list Z)
| OutOfFuel.

#[export] Instance api_json_fuel : Fuelled JsonError := OutOfFuel.

#[local] Abbreviation result := (outcome JsonError).

Definition bump (p : Parser) : option Z * Parser :=
  match peek p with Some b => (Some b, advance 1 p) | None => (None, p) end.

(** [n] hex digits, most significant first. *)
Fixpoint hex_digits (n : nat) (hex : Z) (p : Parser) : outcome unit (Z * Parser) :=
  match n with
  | O => Ok (hex, p)
  | S n =>
    let '(h, p) := bump p in
    h ← ok_or h tt;
    d ← ok_or (hex_digit h) tt;
    hex_digits n (hex * 16 + d) p
  end.

Definition hex4 (p : Parser) : outcome unit (Z * Parser) := hex_digits 4 0 p.

Definition unicode_escape (p : Parser) : result (Z * Parser) :=
  '(unit, p) ← map_err (fun _ => BadCodepoint) (hex4 p);
  '(cp, p) ←
    (if between 0xD800 0xDBFF unit then
       let '(b1, p) := bump p in
       let '(b2, p) := bump p in
       if bool_decide (b1 <> Some 0x5C) || bool_decide (b2 <> Some 0x75) then Err LoneHighSurrogate
       else
         '(low, p) ← map_err (fun _ => LoneHighSurrogate) (hex4 p);
         if negb (between 0xDC00 0xDFFF low) then Err LoneHighSurrogate
         else Ok (0x10000 + Z.shiftl (unit - 0xD800) 10 + (low - 0xDC00), p)
     else if between 0xDC00 0xDFFF unit then Err LoneLowSurrogate
     else Ok (unit, p));
  ch ← ok_or (char_from_u32 cp) BadCodepoint;
  Ok (ch, p).

Definition flush_raw (out raw : list Z) : result (list Z) :=
  if bool_decide (raw = []) then Ok out
  else s ← ok_or (from_utf8 raw) InvalidUtf8InString; Ok (out ++ s).

(** The character an escape stands for. *)
Definition escape (p : Parser) : result (Z * Parser) :=
  let '(e, p) := bump p in
  match e with
  | None => Err (BadEscape None)
  | Some e =>
    if (e =? 0x22) || (e =? 0x5C) || (e =? 0x2F) then Ok (e, p)
    else if e =? 0x62 then Ok (0x08, p)
    else if e =? 0x66 then Ok (0x0C, p)
    else if e =? 0x6E then Ok (0x0A, p)
    else if e =? 0x72 then Ok (0x0D, p)
    else if e =? 0x74 then Ok (0x09, p)
    else if e =? 0x75 then unicode_escape p
    else Err (BadEscape (Some e))
  end.

Fixpoint string_loop (fuel : nat) (out raw : list Z) (p : Parser) : result (list Z * Parser) :=
  match fuel with
  | O => Err OutOfFuel
  | S fuel =>
    let '(c, p) := bump p in
    match c with
    | None => Err UnterminatedString
    | Some c =>
      if c =? 0x22 then out ← flush_raw out raw; Ok (out, p)
      else if c =? 0x5C then
        out ← flush_raw out raw;
        '(ch, p) ← escape p;
        string_loop fuel (out ++ [ch]) [] p
      else string_loop fuel out (raw ++ [c]) p
    end
  end.

Definition parse_string (p : Parser) : result (list Z * Parser) :=
  string_loop (S (length (p_rest p))) [] [] (snd (bump p)).

Section api_json.
Context {F : Type} `{!Float64 F}.

Definition as_object (v : Json F) : option (list (list Z * Json F)) :=
  match v with Object pairs => Some pairs | _ => None end.

Definition get (key : list Z) (v : Json F) : option (Json F) :=
  pairs ← as_object v;
  snd <$> (snd <$> list_find (fun e => e.1 = key) pairs).

Definition as_array (v : Json F) : option (list (Json F)) :=
  match v with Array items => Some items | _ => None end.

Definition as_str (v : Json F) : option (list Z) :=
  match v with Str s => Some s | _ => None end.

Definition as_f64 (v : Json F) : option F :=
  match v with Num n => Some n | _ => None end.

Definition as_bool (v : Json F) : option bool :=
  match v with Bool b => Some b | _ => None end.

Definition lit (word : list Z) (v : Json F) (p : Parser) : result (Json F * Parser) :=
  if starts_with (p_rest p) word then Ok (v, advance (length word) p)
  else Err (BadLiteral (p_pos p)).

Definition number (p : Parser) : result (Json F * Parser) :=
  let '(bytes, _, p) := scan_number p in
  text ← ok_or (from_utf8 bytes) (BadNumber []);
  n ← ok_or (parse_f64 text) (BadNumber text);
  Ok (Num n, p).

Fixpoint value (fuel : nat) (p : Parser) : result (Json F * Parser) :=
  match fuel with
  | O => Err OutOfFuel
  | S fuel =>
    match peek p with
    | Some c =>
      if c =? 0x7B then
        let p := ws (snd (bump p)) in
        if bool_decide (peek p = Some 0x7D) then Ok (Object [], snd (bump p))
        else '(out, p) ← object_loop fuel [] p; Ok (Object out, p)
      else if c =? 0x5B then
        let p := ws (snd (bump p)) in
        if bool_decide (peek p = Some 0x5D) then Ok (Array [], snd (bump p))
        else '(out, p) ← array_loop fuel [] p; Ok (Array out, p)
      else if c =? 0x22 then '(s, p) ← parse_string p; Ok (Str s, p)
      else if c =? 0x74 then lit (str "true") (Bool true) p
      else if c =? 0x66 then lit (str "false") (Bool false) p
      else if c =? 0x6E then lit (str "null") Null p
      else if (c =? 0x2D) || is_ascii_digit c then number p
      else Err (UnexpectedByte c (p_pos p))
    | None => Err UnexpectedEnd
    end
  end
with array_loop (fuel : nat) (out : list (Json F)) (p : Parser) : result (list (Json F) * Parser) :=
  match fuel with
  | O => Err OutOfFuel
  | S fuel =>
    '(v, p) ← value fuel (ws p);
    let out := out ++ [v] in
    let '(b, p) := bump (ws p) in
    if bool_decide (b = Some 0x2C) then array_loop fuel out p
    else if bool_decide (b = Some 0x5D) then Ok (out, p)
    else Err (ExpectedCommaOrBracket (p_pos p))
  end
with object_loop (fuel : nat) (out : list (list Z * Json F)) (p : Parser) :
    result (list (list Z * Json F) * Parser) :=
  match fuel with
  | O => Err OutOfFuel
  | S fuel =>
    let p := ws p in
    if negb (bool_decide (peek p = Some 0x22)) then Err (ExpectedStringKey (p_pos p))
    else
      '(key, p) ← parse_string p;
      let '(b, p) := bump (ws p) in
      if negb (bool_decide (b = Some 0x3A)) then Err (ExpectedColon (p_pos p))
      else
        '(v, p) ← value fuel (ws p);
        let out := out ++ [(key, v)] in
        let '(b, p) := bump (ws p) in
        if bool_decide (b = Some 0x2C) then object_loop fuel out p
        else if bool_decide (b = Some 0x7D) then Ok (out, p)
        else Err (ExpectedCommaOrBrace (p_pos p))
  end.

Definition parse (text : list Z) : result (Json F) :=
  let s := utf8 text in
  '(v, p) ← value (2 * length s + 1) (ws {| p_pos := 0; p_rest := s |});
  let p := ws p in
  if negb (p_pos p =? Z.of_nat (length s)) then Err (TrailingBytes (p_pos p)) else Ok v.

Definition parse_bytes (bytes : list Z) : result (Json F) :=
  text ← ok_or (from_utf8 bytes) InvalidUtf8;
  parse text.

(** ** Serialisation *)

Definition write_char (c : Z) : list Z :=
  if c =? 0x22 then [0x5C; 0x22]
  else if c =? 0x5C then [0x5C; 0x5C]
  else if c =? 0x0A then [0x5C; 0x6E]
  else if c =? 0x0D then [0x5C; 0x72]
  else if c =? 0x09 then [0x5C; 0x74]
  else if c <? 0x20 then [0x5C; 0x75] ++ fmt_04x c
  else [c].

Definition write_string (s : list Z) : list Z := [0x22] ++ concat (write_char <$> s) ++ [0x22].

Definition write_num (n : F) : list Z :=
  if fract_is_zero n && abs_lt n (9 * 10 ^ 15) then i64_to_string (f64_as_i64 n) else display n.

Fixpoint write_json (v : Json F) : list Z :=
  match v with
  | Null => str "null"
  | Bool b => if b then str "true" else str "false"
  | Num n => write_num n
  | Str s => write_string s
  | Array items => [0x5B] ++ separated [0x2C] (map write_json items) ++ [0x5D]
  | Object pairs =>
    [0x7B] ++ separated [0x2C] (map (fun '(k, v) => write_string k ++ [0x3A] ++ write_json v) pairs) ++ [0x7D]
  end.

Definition serialize (v : Json F) : list Z := write_json v.

End api_json.

(** * The parser returns *)

Lemma bump_length p b q : bump p = (b, q) ->
  (length (p_rest q) <= length (p_rest p))%nat /\ (b <> None -> length (p_rest q) < length (p_rest p))%nat.
Proof.
  unfold bump. destruct (peek p) as [c|] eqn:Hp; intros [= <- <-]; [|split; [lia|done]].
  apply peek_Some in Hp. rewrite advance_length. lia.
Qed.

Lemma snd_bump_length p : (length (p_rest (snd (bump p))) <= length (p_rest p))%nat.
Proof. destruct (bump p) as [b q] eqn:Hb. by apply bump_length in Hb as [H _]. Qed.

Lemma bump_peek p c : peek p = Some c -> (length (p_rest (snd (bump p))) < length (p_rest p))%nat.
Proof. intros Hp. unfold bump. rewrite Hp. apply peek_Some in Hp. cbn [snd]. rewrite advance_length. lia. Qed.

(** A failing [hex4] never panics. *)
Definition hex_ok (n : nat) (m : outcome unit (Z * Parser)) : Prop :=
  match m with Ok (_, p) => (length (p_rest p) <= n)%nat | Err _ => True | Panic => False end.

Lemma hex_digits_ok n hex p : hex_ok (length (p_rest p)) (hex_digits n hex p).
Proof.
  revert hex p. induction n as [|n IH]; intros hex p; cbn [hex_digits]; [cbn; lia|].
  destruct (bump p) as [h q] eqn:Hb. apply bump_length in Hb as [Hb _].
  destruct h as [h|]; cbn; [|done]. destruct (hex_digit h) as [d|]; cbn; [|done].
  specialize (IH (hex * 16 + d) q). destruct (hex_digits n _ q) as [[c r]| |]; cbn in *; [lia|done|done].
Qed.

Lemma hex4_bind {B} n k e p (f : Z * Parser -> outcome JsonError (B * Parser)) :
  e <> OutOfFuel -> (length (p_rest p) <= n)%nat ->
  (forall c q, (length (p_rest q) <= n)%nat -> shrinks k (f (c, q))) ->
  shrinks k (map_err (fun _ => e) (hex4 p) ≫= f).
Proof.
  intros He Hp Hf. pose proof (hex_digits_ok 4 0 p) as H. unfold hex4.
  destruct (hex_digits 4 0 p) as [[c q]| |]; cbn in *; [|done|done]. apply Hf. lia.
Qed.

Lemma api_unicode_escape_shrinks n p : (length (p_rest p) < n)%nat -> shrinks n (unicode_escape p).
Proof.
  intros Hp. unfold unicode_escape. apply (hex4_bind (length (p_rest p))); [done|lia|]. intros u q Hq.
  apply shrinks_bind with n; [|intros cp r Hr; apply shrinks_ok_or; [done|intros ch; cbn; lia]].
  destruct (between 0xD800 _ u).
  - destruct (bump q) as [b1 q1] eqn:H1. destruct (bump q1) as [b2 q2] eqn:H2.
    apply bump_length in H1 as [H1 _]. apply bump_length in H2 as [H2 _].
    destruct (_ || _); [done|]. apply (hex4_bind (length (p_rest p))); [done|lia|]. intros low q3 H3.
    destruct (negb _); [done|]. cbn. lia.
  - destruct (between 0xDC00 _ u); [done|]. cbn. lia.
Qed.

Lemma api_escape_shrinks p : p_rest p <> [] -> shrinks (length (p_rest p)) (escape p).
Proof.
  intros Hne. unfold escape. destruct (bump p) as [e q] eqn:Hb. apply bump_length in Hb as [_ Hb].
  destruct e as [e|]; [|done]. specialize (Hb ltac:(done)).
  destruct (_ || _); [cbn; lia|]. repeat (destruct (e =? _); [first [cbn; lia|by apply api_unicode_escape_shrinks]|]). done.
Qed.

Lemma api_string_loop_shrinks fuel out raw p :
  (length (p_rest p) < fuel)%nat -> shrinks (S (length (p_rest p))) (string_loop fuel out raw p).
Proof.
  revert out raw p. induction fuel as [|fuel IH]; intros out raw p Hf; [lia|]. cbn [string_loop].
  destruct (bump p) as [c q] eqn:Hb. apply bump_length in Hb as [Hl Hb]. destruct c as [c|]; [|done].
  specialize (Hb ltac:(done)).
  assert (forall (k : list Z -> outcome JsonError (list Z * Parser)) n,
    (forall l, shrinks n (k l)) -> shrinks n (flush_raw out raw ≫= k)) as Hflush.
  { intros k n Hk. unfold flush_raw. case_bool_decide; [apply Hk|]. by destruct (from_utf8 raw); cbn. }
  destruct (c =? 0x22). { apply Hflush. intros l. cbn. lia. }
  destruct (c =? 0x5C).
  - apply Hflush. intros l. destruct (p_rest q) as [|b r] eqn:Hq.
    { unfold escape, bump, peek. rewrite Hq. done. }
    eapply shrinks_bind; [apply api_escape_shrinks; by rewrite Hq|]. intros ch q' Hq'.
    rewrite Hq in Hq'. eapply shrinks_weaken; [|apply IH]; lia.
  - eapply shrinks_weaken; [|apply IH]; lia.
Qed.

Lemma api_parse_string_shrinks p : peek p = Some 0x22 -> shrinks (length (p_rest p)) (parse_string p).
Proof.
  intros Hp%bump_peek. unfold parse_string. eapply shrinks_weaken; [|apply api_string_loop_shrinks]; lia.
Qed.

Lemma after_bump {A} n p close (more : Parser -> outcome JsonError (A * Parser)) (a : A) err :
  (length (p_rest p) < n)%nat ->
  (forall q, (length (p_rest q) < length (p_rest p))%nat -> shrinks n (more q)) ->
  (forall i, err i <> OutOfFuel) ->
  shrinks n (let '(b, p) := bump p in
             if bool_decide (b = Some 0x2C) then more p
             else if bool_decide (b = Some close) then Ok (a, p) else Err (err (p_pos p))).
Proof.
  intros Hp Hm He. destruct (bump p) as [b q] eqn:Hb. apply bump_length in Hb as [Hl Hb].
  case_bool_decide as H1. { subst. apply Hm, Hb. done. }
  case_bool_decide; [cbn; lia|apply He].
Qed.

Section total.
Context {F : Type} `{!Float64 F}.

Lemma api_lit_shrinks w (v : Json F) p :
  w <> [] -> peek p <> None -> shrinks (length (p_rest p)) (lit w v p).
Proof.
  intros Hw Hp. unfold lit. destruct (starts_with _ _); [|done]. cbn -[advance]. rewrite advance_length.
  destruct w; [done|]. unfold peek in Hp. destruct (p_rest p); [done|]. cbn. lia.
Qed.

Lemma api_number_shrinks p c :
  peek p = Some c -> (c =? 0x2D) || is_ascii_digit c = true -> shrinks (length (p_rest p)) (number (F:=F) p).
Proof.
  intros Hp Hc. unfold number. destruct (scan_number p) as [[bytes is_float] q] eqn:Hq.
  pose proof (scan_number_length _ _ _ _ _ Hp Hc Hq).
  apply shrinks_ok_or; [done|intros text]. apply shrinks_ok_or; [done|]. intros. cbn. lia.
Qed.

Lemma api_loops_shrink fuel :
  (forall p, (2 * length (p_rest p) + 1 <= fuel)%nat -> shrinks (length (p_rest p)) (value (F:=F) fuel p)) /\
  (forall out p, (2 * length (p_rest p) + 2 <= fuel)%nat ->
     shrinks (length (p_rest p)) (array_loop (F:=F) fuel out p)) /\
  (forall out p, (2 * length (p_rest p) + 2 <= fuel)%nat ->
     shrinks (length (p_rest p)) (object_loop (F:=F) fuel out p)).
Proof.
  induction fuel as [|fuel (IHv & IHa & IHo)]; [split_and!; intros; lia|]. split_and!.
  - intros p Hf. cbn -[bump ws]. destruct (peek p) as [c|] eqn:Hp; [|done].
    pose proof (bump_peek _ _ Hp) as Hb. pose proof (ws_length (snd (bump p))) as Hw.
    set (q := ws (snd (bump p))) in *. clearbody q. pose proof (snd_bump_length q) as Hq.
    destruct (c =? 0x7B); [|destruct (c =? 0x5B); [|destruct (Z.eqb_spec c 0x22) as [->|_]]].
    + case_bool_decide; [cbn -[bump]; lia|]. eapply shrinks_bind; [apply IHo; lia|]. cbn. lia.
    + case_bool_decide; [cbn -[bump]; lia|]. eapply shrinks_bind; [apply IHa; lia|]. cbn. lia.
    + eapply shrinks_bind; [by apply api_parse_string_shrinks|]. cbn. lia.
    + assert (peek p <> None) as Hn by congruence.
      repeat (match goal with |- context [if _ =? ?k then lit _ _ _ else _] => destruct (c =? k) end;
        [by apply api_lit_shrinks|]).
      destruct ((c =? 0x2D) || is_ascii_digit c) eqn:Hc; [|done]. by eapply api_number_shrinks.
  - intros out p Hf. cbn -[bump ws]. pose proof (ws_length p).
    eapply shrinks_bind; [apply IHv; lia|]. intros v p1 H1. pose proof (ws_length p1).
    apply after_bump; [lia| |done]. intros p2 H2. eapply shrinks_weaken; [|apply IHa]; lia.
  - intros out p Hf. cbn -[bump ws]. pose proof (ws_length p).
    case_bool_decide as Hk; cbn [negb]; [|done].
    eapply shrinks_bind; [by apply api_parse_string_shrinks|]. intros key p1 H1. pose proof (ws_length p1).
    destruct (bump (ws p1)) as [b p2] eqn:Hb. apply bump_length in Hb as [Hb _].
    case_bool_decide; cbn [negb]; [|done]. pose proof (ws_length p2).
    eapply shrinks_bind; [apply IHv; lia|]. intros v p3 Hv. pose proof (ws_length p3).
    apply after_bump; [lia| |done]. intros p4 Hl. eapply shrinks_weaken; [|apply IHo]; lia.
Qed.

(** Enough fuel, no panic: [parse] returns a value or one of the source's errors. *)
Lemma api_parse_returns text : match parse (F:=F) text with Ok _ => True | Err e => e <> OutOfFuel | Panic => False end.
Proof.
  unfold parse. set (p := {| p_pos := 0; p_rest := utf8 text |}).
  assert (shrinks (length (utf8 text) + 1) (value (F:=F) (2 * length (utf8 text) + 1) (ws p))) as H.
  { pose proof (ws_length p) as Hl. change (p_rest p) with (utf8 text) in Hl.
    eapply shrinks_weaken; [|apply api_loops_shrink]; lia. }
  destruct (value _ (ws p)) as [[v q]| |]; cbn in *; [|done|done]. by destruct (negb _).
Qed.

End total.
