(* ===== verification/ApiParser.v ===== *)
(** The tool-call markup parser (src/crates/mimo26-api/src/parser.rs).

    Texts are lists of scalar values; where the source keeps a byte index into the
    text, the model keeps what is left of the text from it on (every tag is ASCII, so
    no index falls inside a character).  Loops take fuel, and [Err tt] is a loop that
    has not returned within it. *)
From Stdlib Require Import ZArith Lia Bool.
From stdpp Require Import base list gmap strings.
From S2P Require Import Prelude Utf8 Scan ApiJson.

(** * Definitions *)

Definition GT : list Z := str ">".
Definition LT : Z := 0x3C.
Definition TC : list Z := str "<tool_call>".
Definition TC_END : list Z := str "</tool_call>".
Definition FN : list Z := str "<function=".
Definition FN_END : list Z := str "</function>".
Definition PA : list Z := str "<parameter=".
Definition PA_END : list Z := str "</parameter>".
Definition TH : list Z := str "<think>".
Definition TH_END : list Z := str "</think>".

Definition TOOL_CALL_CAP : Z := 6.

Inductive report := LostCall | UnparsedTail.
Inductive parse_error := NamelessToolCall.

(** types.rs: a tool, as far as coercion reads it. *)
Record Tool (F : Type) := { function_name : list Z; parameters : option (Json F) }.
Arguments function_name {F}.
Arguments parameters {F}.

Record ParsedCall (F : Type) := { name : list Z; arguments : Json F }.
Arguments name {F}.
Arguments arguments {F}.
Arguments Build_ParsedCall {F}.

Record ParseResult (F : Type) := {
  content : list Z;
  reasoning : list (list Z);
  calls : list (ParsedCall F);
  reports : list report;
  error : option parse_error;
  capped : bool
}.
Arguments content {F}.
Arguments reasoning {F}.
Arguments calls {F}.
Arguments reports {F}.
Arguments error {F}.
Arguments capped {F}.
Arguments Build_ParseResult {F}.

(** What the parameter loop ends with: the arguments and the text left, or the loss
    of the call. *)
Inductive params_result (F : Type) :=
| ParamsEnd (args : list (list Z * Json F)) (reports : list report) (rest : list Z)
| ParamsLost (reports : list report).
Arguments ParamsEnd {F}.
Arguments ParamsLost {F}.

Section parser.
Context {F : Type} `{!Float64 F}.

Definition property_schema (tool : Tool F) (key : list Z) : option (list Z) :=
  params ← parameters tool;
  props ← get (str "properties") params;
  props ← as_object props;
  entry ← snd <$> list_find (fun e => e.1 = key) props;
  type ← get (str "type") (snd entry);
  as_str type.

Definition is_type (schema : option (list Z)) (ty : list Z) : bool := bool_decide (schema = Some ty).

Definition coerce (raw : list Z) (tool : option (Tool F)) (key : list Z) : Json F :=
  let raw := default raw (strip_prefix [0x0A] raw) in
  let raw := default raw (strip_suffix [0x0A] raw) in
  let schema := tool ≫= fun tool => property_schema tool key in
  match parse raw with
  | Ok v =>
    match v with
    | Str _ => if is_type schema (str "integer") then from_option Num v (parse_f64 raw) else v
    | Num _ => if is_type schema (str "string") then Str (serialize v) else v
    | _ => v
    end
  | _ =>
    if is_type schema (str "integer") || is_type schema (str "number")
    then from_option Num (Str raw) (parse_f64 raw)
    else Str raw
  end.

(** The [<parameter=K>V</parameter>] pairs until [</function>] or the end. *)
Fixpoint params_loop (fuel : nat) (tool : option (Tool F)) (args : list (list Z * Json F))
    (reports : list report) (rest : list Z) : outcome unit (params_result F) :=
  match fuel with
  | O => Err tt
  | S fuel =>
    if starts_with rest FN_END then Ok (ParamsEnd args reports (drop (length FN_END) rest))
    else if starts_with rest TC_END || bool_decide (rest = []) then Ok (ParamsEnd args reports rest)
    else if starts_with rest PA then
      match find GT (drop (length PA) rest) with
      | None => Ok (ParamsEnd args (reports ++ [UnparsedTail]) [])
      | Some (key, tail) =>
        match find PA_END tail with
        | Some (raw, rest) => params_loop fuel tool (args ++ [(key, coerce raw tool key)]) reports rest
        | None => Ok (ParamsLost (reports ++ [LostCall]))
        end
      end
    else if starts_with rest PA_END then params_loop fuel tool args reports (drop (length PA_END) rest)
    else
      let reports := reports ++ [UnparsedTail] in
      match find [LT] rest with
      | Some (_, after) => params_loop fuel tool args reports (LT :: after)
      | None => params_loop fuel tool args reports []
      end
  end.

(** The call, the text after it, the reports and the error of one block. *)
Definition parse_call (fuel : nat) (s : list Z) (tools : list (Tool F)) :
    outcome unit (option (ParsedCall F) * list Z * list report * option parse_error) :=
  match find FN s with
  | Some (_, after) =>
    match find GT after with
    | None => Ok (None, [], [LostCall], None)
    | Some (nm, after_fn) =>
      if bool_decide (nm = []) then Ok (None, [], [], Some NamelessToolCall)
      else
        let tool := snd <$> list_find (fun t => function_name t = nm) tools in
        r ← params_loop fuel tool [] [] after_fn;
        match r with
        | ParamsLost reports => Ok (None, [], reports, None)
        | ParamsEnd args reports rest =>
          if negb (starts_with rest TC_END) then Ok (None, [], reports ++ [LostCall], None)
          else Ok (Some {| name := nm; arguments := Object args |}, drop (length TC_END) rest, reports, None)
        end
    end
  | None =>
    match find PA s with
    | Some _ => Ok (None, [], [], Some NamelessToolCall)
    | None => Ok (None, [], [], None)
    end
  end.

(** The main loop: [r] with [r.content] the characters pushed so far. *)
Fixpoint parse_loop (fuel : nat) (tools : list (Tool F)) (cap : Z) (r : ParseResult F) (rest : list Z) :
    outcome unit (ParseResult F) :=
  match fuel with
  | O => Err tt
  | S fuel' =>
    match rest with
    | [] => Ok r
    | ch :: more =>
      if starts_with rest TH then
        match find TH_END rest with
        | Some (before, after) =>
          parse_loop fuel' tools cap
            {| content := content r; reasoning := reasoning r ++ [drop (length TH) before];
               calls := calls r; reports := reports r; error := error r; capped := capped r |} after
        | None =>
          parse_loop fuel' tools cap
            {| content := content r; reasoning := reasoning r ++ [drop (length TH) rest];
               calls := calls r; reports := reports r; error := error r; capped := capped r |} []
        end
      else if starts_with rest TC then
        if negb (cap =? 0) && (cap <=? Z.of_nat (length (calls r))) then
          Ok {| content := content r; reasoning := reasoning r; calls := calls r; reports := reports r;
                error := error r; capped := true |}
        else
          '(call, after, reps, err) ← parse_call fuel' (drop (length TC) rest) tools;
          match err with
          | Some e =>
            Ok {| content := []; reasoning := reasoning r; calls := []; reports := reports r ++ reps;
                  error := Some e; capped := capped r |}
          | None =>
            parse_loop fuel' tools cap
              {| content := content r; reasoning := reasoning r;
                 calls := calls r ++ option_list call; reports := reports r ++ reps;
                 error := error r; capped := capped r |} after
          end
      else
        parse_loop fuel' tools cap
          {| content := content r ++ [ch]; reasoning := reasoning r; calls := calls r;
             reports := reports r; error := error r; capped := capped r |} more
    end
  end.

Definition empty_result : ParseResult F := Build_ParseResult [] [] [] [] None false.

Definition parse_markup (fuel : nat) (text : list Z) (tools : list (Tool F)) (cap : Z) :
    outcome unit (ParseResult F) :=
  parse_loop fuel tools cap empty_result text.

End parser.
