(* ===== verification/ChatTemplate.v ===== *)
(** The chat template (src/crates/mimo26-coordinator/src/chat.rs): the prompt text of a
    conversation and of the assistant's tool calls, which the markup parser reads back. *)
From Stdlib Require Import ZArith Lia Bool.
From stdpp Require Import base list gmap strings.
From S2P Require Import Prelude Paging Utf8 Scan ApiJson.

(** * Definitions *)

Definition IM_START : list Z := str "<|im_start|>".
Definition IM_END : list Z := str "<|im_end|>".
Definition THINK : list Z := str "<think>".
Definition THINK_CLOSE : list Z := str "</think>".

Definition tool_call_open : list Z := str "<tool_call>".
Definition tool_call_close : list Z := str "</tool_call>".
Definition function_open (name : list Z) : list Z := str "<function=" ++ name ++ str ">".
Definition function_close : list Z := str "</function>".
Definition parameter_open (key : list Z) : list Z := str "<parameter=" ++ key ++ str ">".
Definition parameter_close : list Z := str "</parameter>".
Definition tools_open : list Z := str "<tools>".
Definition tools_close : list Z := str "</tools>".

Record ChatToolCall (F : Type) := { tc_name : list Z; tc_arguments : list (list Z * Json F) }.
Arguments tc_name {F}.
Arguments tc_arguments {F}.
Arguments Build_ChatToolCall {F}.

Record ChatMessage (F : Type) := {
  m_role : Role;
  m_content : list Z;
  m_reasoning : option (list Z);
  m_tool_calls : option (list (ChatToolCall F))
}.
Arguments m_role {F}.
Arguments m_content {F}.
Arguments m_reasoning {F}.
Arguments m_tool_calls {F}.
Arguments Build_ChatMessage {F}.

Record ChatOptions := { add_generation_prompt : bool; enable_thinking : bool }.

Definition default_options : ChatOptions := {| add_generation_prompt := true; enable_thinking := false |}.

Definition role_str (role : Role) : list Z :=
  match role with
  | RoleUser => str "user"
  | RoleSystem => str "system"
  | RoleAssistant => str "assistant"
  | RoleTool => str "tool"
  end.

Section template.
Context {F : Type} `{!Float64 F}.

Definition user_message (content : list Z) : ChatMessage F := Build_ChatMessage RoleUser content None None.

(** The filter [tojson]: the separators are [", "] and [": "]. *)
Fixpoint tojson (v : Json F) : list Z :=
  match v with
  | Null => str "null"
  | Bool b => if b then str "true" else str "false"
  | Num n => write_num n
  | Str s => write_string s
  | Array items => [0x5B] ++ separated (str ", ") (map tojson items) ++ [0x5D]
  | Object pairs =>
    [0x7B] ++ separated (str ", ") (map (fun '(k, v) => write_string k ++ str ": " ++ tojson v) pairs) ++ [0x7D]
  end.

Definition render_value (v : Json F) : list Z :=
  match v with Str s => s | other => tojson other end.

Definition render_argument (e : list Z * Json F) : list Z :=
  parameter_open (fst e) ++ render_value (snd e) ++ parameter_close.

Definition render_call (call : ChatToolCall F) : list Z :=
  tool_call_open ++ function_open (tc_name call) ++ concat (render_argument <$> tc_arguments call) ++
  function_close ++ tool_call_close.

Definition render_tool_calls (calls : list (ChatToolCall F)) : list Z := concat (render_call <$> calls).

Definition render_tools (tools : list (Json F)) : list Z :=
  str "You are provided with the following tools:" ++ [0x0A; 0x0A] ++ tools_open ++
  concat ((fun t => [0x0A] ++ tojson t) <$> tools) ++ [0x0A] ++ tools_close.

Definition render_message (m : ChatMessage F) : list Z :=
  match m_role m with
  | RoleAssistant =>
    IM_START ++ str "assistant" ++ [0x0A] ++ THINK ++ default [] (m_reasoning m) ++ THINK_CLOSE ++
    m_content m ++ from_option render_tool_calls [] (m_tool_calls m) ++ IM_END
  | other => IM_START ++ role_str other ++ [0x0A] ++ m_content m ++ IM_END
  end.

Definition render_chat (messages : list (ChatMessage F)) (tools : list (Json F)) (opts : ChatOptions) : list Z :=
  (match tools with
   | [] => []
   | _ => IM_START ++ str "system" ++ [0x0A] ++ render_tools tools ++ IM_END
   end) ++
  concat (render_message <$> messages) ++
  (if add_generation_prompt opts then
     IM_START ++ str "assistant" ++ [0x0A] ++ (if enable_thinking opts then [] else THINK ++ THINK_CLOSE)
   else []).

Definition render_user_prompt (content : list Z) (opts : ChatOptions) : list Z :=
  render_chat [user_message content] [] opts.

End template.
