(* ===== verification/MarkupProofs.v ===== *)
(** The markup parser: what it reads back, what it never keeps, and the input on which
    it does not return. *)
From Stdlib Require Import ZArith Lia Bool.
From stdpp Require Import base list gmap strings.
From S2P Require Import Prelude Paging Utf8 Scan JsonProofs ApiJson ApiParser ChatTemplate.

(** * Tags *)

Lemma tags : Forall tag [GT; FN; TC; TC_END; FN_END; PA; PA_END; TH; TH_END].
Proof. apply (bool_decide_unpack _). vm_compute. done. Qed.

Lemma is_tag w : w ∈ [GT; FN; TC; TC_END; FN_END; PA; PA_END; TH; TH_END] -> tag w.
Proof. apply Forall_forall, tags. Qed.

(** Discharges [tag W] for the source's tags. *)
Ltac tag := apply is_tag; repeat (first [apply list_elem_of_here | apply list_elem_of_further]).

(** * The parameter loop *)
Section params.
Context {F : Type} `{!Float64 F}.
Implicit Types (tool : option (Tool F)) (args : list (list Z * Json F)).

(** A [<] that none of the tags of a call's body explains. *)
Definition stray (rest : list Z) : bool :=
  starts_with rest [LT] && negb (starts_with rest FN_END) && negb (starts_with rest TC_END) &&
  negb (starts_with rest PA) && negb (starts_with rest PA_END).

Lemma stray_loop fuel tool args reps rest : stray rest = true -> params_loop fuel tool args reps rest = Err tt.
Proof.
  intros Hs. revert reps. induction fuel as [|fuel IH]; intros reps; [done|].
  pose proof Hs as Hs'. unfold stray in Hs'. rewrite !andb_true_iff, !negb_true_iff in Hs'.
  destruct Hs' as [[[[Hlt%starts_with_true H1] H2] H3] H4].
  cbn [params_loop]. rewrite H1, H2, H3, H4, bool_decide_false by (rewrite Hlt; done). cbn [orb].
  assert (find [LT] rest = Some ([], drop 1 rest)) as ->
    by (rewrite Hlt at 1; by rewrite find_here).
  change (LT :: drop 1 rest) with ([LT] ++ drop (length [LT]) rest). rewrite <- Hlt. apply IH.
Qed.

(** The arguments a rendered call is read back with. *)
Definition read_argument tool (e : list Z * Json F) : list Z * Json F :=
  (e.1, coerce (render_value e.2) tool e.1).

(** No [>] in the key, no closing parameter tag in the value's text. *)
Definition argument_ok (e : list Z * Json F) : Prop :=
  0x3E ∉ e.1 /\ find PA_END (render_value e.2) = None.

Lemma params_loop_reads fuel tool args es r reps :
  Forall argument_ok es -> (length es < fuel)%nat ->
  params_loop fuel tool args reps (concat (render_argument <$> es) ++ FN_END ++ r) =
  Ok (ParamsEnd (args ++ (read_argument tool <$> es)) reps r).
Proof.
  intros Hes. revert fuel args. induction Hes as [|[k v] es [Hk Hv] Hes IH]; intros fuel args Hf;
    (destruct fuel as [|fuel]; [cbn in Hf; lia|]).
  - cbn [fmap list_fmap concat app params_loop]. rewrite starts_with_app, drop_app_length.
    by rewrite app_nil_r.
  - cbn [fmap list_fmap concat] in *. unfold render_argument at 1. cbn [fst snd] in *.
    set (more := concat _). change (parameter_open k) with (PA ++ k ++ GT).
    change parameter_close with PA_END. rewrite <- !app_assoc. set (rest := PA ++ _).
    cbn [params_loop].
    rewrite (starts_with_ne 1 0x70 0x2F rest FN_END), (starts_with_ne 1 0x70 0x2F rest TC_END) by done.
    rewrite bool_decide_false by done. cbn [orb]. unfold rest.
    rewrite starts_with_app, drop_app_length, (find_app GT) by (tag || by apply find_absent).
    rewrite (find_app PA_END) by (tag || done).
    rewrite IH by (cbn in Hf; lia). cbn [fmap list_fmap]. by rewrite <- app_assoc.
Qed.

End params.

(** * The main loop *)
Section main.
Context {F : Type} `{!Float64 F}.
Implicit Types (tools : list (Tool F)) (r : ParseResult F).

(** A result as [parse] builds it up: no error, every call named, at most [cap] calls. *)
Definition named_and_capped (cap : Z) (calls : list (ParsedCall F)) : Prop :=
  Forall (fun c => name c <> []) calls /\ (cap <> 0 -> Z.of_nat (length calls) <= cap).

Lemma parse_call_named fuel s tools call rest reps err :
  parse_call fuel s tools = Ok (call, rest, reps, err) -> forall c, call = Some c -> name c <> [].
Proof.
  unfold parse_call. destruct (find FN s) as [[a after]|].
  - destruct (find GT after) as [[nm after_fn]|]; [|by intros [= <- _ _ _]].
    case_bool_decide; [by intros [= <- _ _ _]|].
    intros (pr & _ & Hpr)%bind_Ok. destruct pr as [args reps' rest'|reps']; [|by injection Hpr as <- _ _ _].
    destruct (negb _); injection Hpr as <- _ _ _; [done|]. by intros c [= <-].
  - destruct (find PA s); by intros [= <- _ _ _].
Qed.

Lemma parse_loop_inv fuel tools cap r rest r' : 0 <= cap -> error r = None ->
  named_and_capped cap (calls r) -> parse_loop fuel tools cap r rest = Ok r' ->
  named_and_capped cap (calls r') /\ (error r' <> None -> calls r' = []).
Proof.
  intros Hcap. revert r rest. induction fuel as [|fuel IH]; intros r rest He Hr; [done|].
  cbn [parse_loop]. destruct rest as [|ch more]; [intros [= <-]; by rewrite He|].
  destruct (starts_with _ TH).
  { destruct (find TH_END _) as [[before after]|]; by apply IH. }
  destruct (starts_with _ TC); [|by apply IH].
  destruct (negb (cap =? 0) && (cap <=? Z.of_nat (length (calls r)))) eqn:Hc.
  { intros [= <-]. cbn. by rewrite He. }
  intros ([[[call after] reps] err] & Hcall & Hrest)%bind_Ok. destruct err as [e|].
  { injection Hrest as <-. cbn. split; [|done]. split; [done|]. intros _. cbn. lia. }
  revert Hrest. apply IH; [done|]. cbn. destruct Hr as [Hn Hl]. split.
  - apply Forall_app. split; [done|]. destruct call as [c|]; constructor; [|done].
    by eapply parse_call_named.
  - intros Hne. rewrite length_app. specialize (Hl Hne).
    assert (length (option_list call) <= 1)%nat by (destruct call; cbn; lia).
    apply andb_false_iff in Hc as [Hc%negb_false_iff%Z.eqb_eq|Hc%Z.leb_gt]; lia.
Qed.

(** Plain text is content. *)
Lemma parse_loop_content fuel tools cap r text rest : LT ∉ text ->
  parse_loop (length text + fuel) tools cap r (text ++ rest) =
  parse_loop fuel tools cap (Build_ParseResult (content r ++ text) (reasoning r) (calls r) (reports r) (error r) (capped r)) rest.
Proof.
  revert r. induction text as [|c text IH]; intros r Hn.
  - cbn [length plus app]. rewrite app_nil_r. by destruct r.
  - apply not_elem_of_cons in Hn as [H1 H2]. cbn [length plus app parse_loop].
    rewrite (starts_with_ne 0 c 0x3C _ TH), (starts_with_ne 0 c 0x3C _ TC) by (done || congruence).
    rewrite IH by done. cbn [content reasoning calls reports error capped]. by rewrite <- app_assoc.
Qed.

Definition read_call tools (c : ChatToolCall F) : ParsedCall F :=
  {| name := tc_name c;
     arguments := Object (read_argument (snd <$> list_find (fun t => function_name t = tc_name c) tools) <$> tc_arguments c) |}.

Definition call_ok (c : ChatToolCall F) : Prop :=
  tc_name c <> [] /\ 0x3E ∉ tc_name c /\ Forall argument_ok (tc_arguments c).

Lemma arguments_fit (es : list (list Z * Json F)) : (length es <= length (concat (render_argument <$> es)))%nat.
Proof.
  induction es as [|e es IH]; [done|]. cbn [fmap list_fmap concat]. rewrite length_app.
  assert (0 < length (render_argument e))%nat by (unfold render_argument; rewrite !length_app; cbn; lia).
  cbn [length]. lia.
Qed.

Lemma parse_call_reads fuel tools c rest : call_ok c -> (length (render_call c) <= fuel)%nat ->
  parse_call fuel (drop (length TC) (render_call c ++ rest)) tools = Ok (Some (read_call tools c), rest, [], None).
Proof.
  intros (Hne & Hgt & Ha) Hf. pose proof (arguments_fit (tc_arguments c)) as Hl.
  assert (render_call c ++ rest =
    TC ++ FN ++ tc_name c ++ GT ++ concat (render_argument <$> tc_arguments c) ++ FN_END ++ TC_END ++ rest) as Heq
    by (unfold render_call, function_open; by rewrite <- !app_assoc).
  unfold render_call in Hf. rewrite !length_app in Hf. change (length function_close) with 11%nat in Hf.
  rewrite Heq, drop_app_length. unfold parse_call. rewrite find_here, find_app by (tag || by apply find_absent).
  rewrite bool_decide_false by done. cbv zeta. rewrite params_loop_reads by (done || lia).
  cbn [mbind outcome_bind]. rewrite starts_with_app, drop_app_length. done.
Qed.

Lemma parse_loop_call fuel tools r c rest : call_ok c -> (length (render_call c) < fuel)%nat ->
  parse_loop fuel tools 0 r (render_call c ++ rest) =
  parse_loop (pred fuel) tools 0
    (Build_ParseResult (content r) (reasoning r) (calls r ++ [read_call tools c]) (reports r) (error r) (capped r)) rest.
Proof.
  intros Hok Hf. destruct fuel as [|fuel]; [lia|]. cbn [pred].
  pose proof (parse_call_reads fuel tools c rest Hok ltac:(lia)) as Hcall.
  assert (starts_with (render_call c ++ rest) TC = true) as Htc
    by (unfold render_call; rewrite <- !app_assoc; apply starts_with_app).
  assert (starts_with (render_call c ++ rest) TH = false) as Hth
    by (apply starts_with_ne with 2%nat 0x6F 0x68; [|done|done]; unfold render_call; by rewrite <- !app_assoc).
  destruct (render_call c ++ rest) as [|ch more] eqn:Heq; [done|].
  cbn [parse_loop]. rewrite Hth, Htc. cbn [Z.eqb negb andb]. rewrite Hcall.
  cbn [mbind outcome_bind option_list]. by rewrite app_nil_r.
Qed.

Lemma parse_loop_calls fuel tools r cs : Forall call_ok cs -> (length (render_tool_calls cs) < fuel)%nat ->
  parse_loop fuel tools 0 r (render_tool_calls cs) =
  Ok (Build_ParseResult (content r) (reasoning r) (calls r ++ (read_call tools <$> cs)) (reports r) (error r) (capped r)).
Proof.
  intros Hcs. revert fuel r. induction Hcs as [|c cs Hc Hcs IH]; intros fuel r Hf.
  - destruct fuel as [|fuel]; [cbn in Hf; lia|]. cbn. rewrite app_nil_r. by destruct r.
  - unfold render_tool_calls in *. cbn [fmap list_fmap concat] in *. rewrite length_app in Hf.
    assert (0 < length (render_call c))%nat by (unfold render_call; rewrite !length_app; cbn; lia).
    rewrite parse_loop_call by (done || lia). rewrite IH by lia.
    cbn [content reasoning calls reports error capped]. by rewrite <- app_assoc.
Qed.

End main.

(** * The theorems *)

(** C22: the parser inverts the template's rendering of tool calls: text without a [<],
    then any number of calls (names and keys without [>], values whose text holds no
    closing parameter tag, but may hold any other tag or markup) is read as that text
    and those calls, every argument coerced to its schema, with nothing reported; and
    fuel one past the text's length is enough. *)
Theorem markup_roundtrip {F : Type} `{!Float64 F} (text : list Z) (cs : list (ChatToolCall F))
    (tools : list (Tool F)) (fuel : nat) :
  LT ∉ text -> Forall call_ok cs -> (length (text ++ render_tool_calls cs) < fuel)%nat ->
  parse_markup fuel (text ++ render_tool_calls cs) tools 0 =
  Ok (Build_ParseResult text [] (read_call tools <$> cs) [] None false).
Proof.
  intros Ht Hcs Hf. rewrite length_app in Hf. unfold parse_markup.
  replace fuel with (length text + (fuel - length text))%nat by lia.
  rewrite parse_loop_content, parse_loop_calls by (done || lia). done.
Qed.

Definition sample_call : ChatToolCall Tenths :=
  Build_ChatToolCall (str "edit")
    [(str "path", Str (str "a<b></tool_call>")); (str "line", Num {| t_neg := false; t_abs := 120 |})].

Lemma markup_roundtrip_witness :
  parse_markup 150 (str "ok " ++ render_tool_calls [sample_call]) [] 0 =
  Ok (Build_ParseResult (str "ok ") [] [read_call [] sample_call] [] None false).
Proof.
  apply (markup_roundtrip (str "ok ") [sample_call] [] 150); [|repeat constructor|].
  - apply (bool_decide_unpack _). reflexivity.
  - done.
  - apply (bool_decide_unpack _). reflexivity.
  - apply (bool_decide_unpack _). reflexivity.
  - apply (bool_decide_unpack _). reflexivity.
  - apply Nat.ltb_lt. vm_compute. reflexivity.
Defined.

(** Every result of the parser, whatever the text: all its calls have a name, at most
    [cap] of them are kept when there is a cap, and a result with an error keeps none. *)
Theorem calls_named_and_capped {F : Type} `{!Float64 F} fuel text (tools : list (Tool F)) cap r :
  0 <= cap -> parse_markup fuel text tools cap = Ok r ->
  Forall (fun c => name c <> []) (calls r) /\ (cap <> 0 -> Z.of_nat (length (calls r)) <= cap) /\
  (error r <> None -> calls r = []).
Proof.
  intros Hcap Hp. apply parse_loop_inv in Hp as [[Hn Hl] He]; [by split_and!|done|done|].
  split; [constructor|]. intros _. cbn. lia.
Qed.

Lemma calls_named_and_capped_witness : exists r,
  parse_markup (F:=Tenths) 150 (render_tool_calls [sample_call; sample_call; sample_call]) [] 2 = Ok r /\
  Forall (fun c => name c <> []) (calls r) /\ (2 <> 0 -> Z.of_nat (length (calls r)) <= 2) /\
  (error r <> None -> calls r = []).
Proof.
  eexists. split; [vm_compute; reflexivity|]. eapply (calls_named_and_capped 150 (render_tool_calls [sample_call; sample_call; sample_call]) [] 2).
  - lia.
  - vm_compute. reflexivity.
Defined.

(** C19: a [<] that opens none of the four tags of a call's body, right after the function's
    tag, where a parameter or a closing tag is due, keeps the parser in its loop for ever:
    it resynchronises at the same [<] again, adding a report each time, so no fuel is
    enough. *)
Theorem stray_tag_hangs {F : Type} `{!Float64 F} nm rest (tools : list (Tool F)) cap fuel :
  0 <= cap -> nm <> [] -> 0x3E ∉ nm -> stray rest = true ->
  parse_markup fuel (TC ++ FN ++ nm ++ GT ++ rest) tools cap = Err tt.
Proof.
  intros Hcap Hne Hgt Hs. unfold parse_markup. destruct fuel as [|fuel]; [done|].
  set (text := TC ++ _). assert (starts_with text TH = false) as Hth by (by apply starts_with_ne with 2%nat 0x6F 0x68).
  assert (starts_with text TC = true) as Htc by apply starts_with_app.
  assert (drop (length TC) text = FN ++ nm ++ GT ++ rest) as Hd by apply drop_app_length.
  clearbody text. destruct text as [|ch more]; [done|]. cbn [parse_loop]. rewrite Hth, Htc, Hd.
  assert (negb (cap =? 0) && (cap <=? Z.of_nat (length (calls (empty_result (F:=F))))) = false) as ->.
  { cbn. destruct (Z.eqb_spec cap 0); [done|]. apply Z.leb_gt. lia. }
  unfold parse_call. rewrite find_here, find_app by (tag || by apply find_absent).
  rewrite bool_decide_false by done. cbv zeta. by rewrite stray_loop.
Qed.

Lemma stray_tag_hangs_witness :
  parse_markup (F:=Tenths) 1000 (TC ++ FN ++ str "f" ++ GT ++ str "<b></b></function></tool_call>") [] 6 = Err tt.
Proof.
  apply (stray_tag_hangs (str "f") (str "<b></b></function></tool_call>") [] 6 1000).
  - lia.
  - done.
  - apply (bool_decide_unpack _). reflexivity.
  - reflexivity.
Defined.
