(* ===== verification/StreamSplit.v ===== *)
(** The streamed response (src/crates/mimo26-api/src/chat.rs): the splitter that sends
    content and reasoning as they are generated and holds markup back, and the events
    of a whole stream.  An event stands for the SSE chunk the source writes for it; a
    socket whose writes fail is not modelled.  Texts are lists of scalar values (the tags
    are ASCII, so no cut falls inside a character). *)
From Stdlib Require Import ZArith Lia Bool.
From stdpp Require Import base list gmap strings.
From S2P Require Import Prelude Utf8 Scan ApiJson ApiParser.

(** * Definitions *)

Definition TOOL_OPEN : list Z := str "<tool_call>".
Definition THINK_OPEN : list Z := str "<think>".
Definition THINK_CLOSE : list Z := str "</think>".

Inductive Span := SpContent | SpThink | SpTool.

#[export] Instance span_eq : EqDecision Span.
Proof. solve_decision. Defined.

Inductive event (F : Type) : Type :=
| RoleEvent
| Keepalive
| ContentEvent (d : list Z)
| ReasoningEvent (r : list Z)
| ToolCallHeaderEvent (i : Z) (c : ParsedCall F)
| ToolCallArgsEvent (i : Z) (c : ParsedCall F)
| FinishEvent (finish_reason : list Z)
| UsageEvent (prompt_tokens completion_tokens : Z)
| DoneEvent.
Arguments RoleEvent {F}.
Arguments Keepalive {F}.
Arguments ContentEvent {F} d.
Arguments ReasoningEvent {F} r.
Arguments ToolCallHeaderEvent {F} i c.
Arguments ToolCallArgsEvent {F} i c.
Arguments FinishEvent {F} finish_reason.
Arguments UsageEvent {F} prompt_tokens completion_tokens.
Arguments DoneEvent {F}.

Record StreamSplit := { hold : list Z; span : Span; think_blocks : nat }.

Definition new_split : StreamSplit := {| hold := []; span := SpContent; think_blocks := 0 |}.

(** The longest suffix of [hold] that may still become one of [tags]. *)
Definition held_suffix (hold : list Z) (tags : list (list Z)) : nat :=
  foldl (fun keep tag =>
    foldl (fun keep k =>
      let start := (length hold - k)%nat in
      if starts_with tag (drop start hold) then Nat.max keep k else keep)
      keep (seq 1 (Nat.min (length tag) (length hold))))
    O tags.

Section stream.
Context {F : Type} `{!Float64 F}.

(** [if p > 0 { write }] *)
Definition write_nonempty (mk : list Z -> event F) (s : list Z) : list (event F) :=
  match s with [] => [] | _ => [mk s] end.

(** [push]'s loop: what it writes and the state it leaves. *)
Fixpoint push_loop (fuel : nat) (st : StreamSplit) : outcome unit (list (event F) * StreamSplit) :=
  match fuel with
  | O => Err tt
  | S fuel =>
    match span st with
    | SpTool => Ok ([], st)
    | SpThink =>
      match find THINK_CLOSE (hold st) with
      | Some (before, after) =>
        '(evs, st') ← push_loop fuel {| hold := after; span := SpContent; think_blocks := think_blocks st |};
        Ok (write_nonempty ReasoningEvent before ++ evs, st')
      | None =>
        let flush := (length (hold st) - held_suffix (hold st) [THINK_CLOSE])%nat in
        Ok (write_nonempty ReasoningEvent (take flush (hold st)),
            {| hold := drop flush (hold st); span := SpThink; think_blocks := think_blocks st |})
      end
    | SpContent =>
      let tool := find TOOL_OPEN (hold st) in
      (* the guard [t.is_none_or(|t| p < t)] of the first arm *)
      let think :=
        match find THINK_OPEN (hold st), tool with
        | Some (p, after), Some (t, _) => if Nat.ltb (length p) (length t) then Some (p, after) else None
        | think, None => think
        | None, _ => None
        end in
      match think, tool with
      | Some (before, after), _ =>
        '(evs, st') ← push_loop fuel {| hold := after; span := SpThink; think_blocks := S (think_blocks st) |};
        Ok (write_nonempty ContentEvent before ++ evs, st')
      | None, Some (before, after) =>
        '(evs, st') ← push_loop fuel {| hold := TOOL_OPEN ++ after; span := SpTool; think_blocks := think_blocks st |};
        Ok (write_nonempty ContentEvent before ++ evs, st')
      | None, None =>
        let flush := (length (hold st) - held_suffix (hold st) [THINK_OPEN; TOOL_OPEN])%nat in
        Ok (write_nonempty ContentEvent (take flush (hold st)),
            {| hold := drop flush (hold st); span := SpContent; think_blocks := think_blocks st |})
      end
    end
  end.

Definition push (st : StreamSplit) (delta : list Z) : outcome unit (list (event F) * StreamSplit) :=
  let st := {| hold := hold st ++ delta; span := span st; think_blocks := think_blocks st |} in
  push_loop (length (hold st) + 2) st.

Definition finish (st : StreamSplit) : list (event F) * StreamSplit :=
  (match hold st with
   | [] => []
   | _ => match span st with
          | SpContent => [ContentEvent (hold st)]
          | SpThink => [ReasoningEvent (hold st)]
          | SpTool => []
          end
   end,
   match span st with
   | SpTool => st
   | _ => {| hold := []; span := span st; think_blocks := think_blocks st |}
   end).

(** The closure [generate] calls with every delta; an empty one is a keepalive. *)
Definition on_delta (st : StreamSplit) (d : list Z) : outcome unit (list (event F) * StreamSplit) :=
  match d with [] => Ok ([Keepalive], st) | _ => push st d end.

Fixpoint on_deltas (st : StreamSplit) (ds : list (list Z)) : outcome unit (list (event F) * StreamSplit) :=
  match ds with
  | [] => Ok ([], st)
  | d :: ds =>
    '(evs, st) ← on_delta st d;
    '(evs', st) ← on_deltas st ds;
    Ok (evs ++ evs', st)
  end.

Record GenerateOutcome := { text : list Z; finish_reason : list Z; completion_tokens : Z }.

(** The finish reason of a parsed completion. *)
Definition final_reason (outcome : GenerateOutcome) (parsed : ParseResult F) : list Z :=
  if capped parsed || negb (bool_decide (length (calls parsed) = O)) then str "tool_calls" else finish_reason outcome.

Definition call_events (i : nat) (c : ParsedCall F) : list (event F) :=
  [ToolCallHeaderEvent (Z.of_nat i) c; ToolCallArgsEvent (Z.of_nat i) c].

(** The whole stream, for an engine that generated [deltas] and then returned
    [generated] ([None] for its error). *)
Definition stream_events (fuel : nat) (deltas : list (list Z)) (generated : option GenerateOutcome)
    (tools : list (Tool F)) (include_usage : bool) (prompt_tokens : Z) : outcome unit (list (event F)) :=
  '(live, split) ← on_deltas new_split deltas;
  match generated with
  | None => Ok ([RoleEvent] ++ live ++ [FinishEvent (str "error"); DoneEvent])
  | Some outcome =>
    let '(rest, split) := finish split in
    parsed ← parse_markup fuel (text outcome) tools 0;
    match error parsed with
    | Some _ => Ok ([RoleEvent] ++ live ++ rest ++ [FinishEvent (str "error"); DoneEvent])
    | None =>
      Ok ([RoleEvent] ++ live ++ rest ++
          (ReasoningEvent <$> drop (think_blocks split) (reasoning parsed)) ++
          concat (imap call_events (calls parsed)) ++
          [FinishEvent (final_reason outcome parsed)] ++
          (if include_usage then [UsageEvent prompt_tokens (completion_tokens outcome)] else []) ++
          [DoneEvent])
    end
  end.

(** The message of the response that is not streamed: its content ([None] for [null]),
    its reasoning, its calls and its finish reason. *)
Record Message := {
  msg_content : option (list Z);
  msg_reasoning : option (list Z);
  msg_tool_calls : list (ParsedCall F);
  msg_finish_reason : list Z
}.

Definition message_content (parsed : ParseResult F) : option (list Z) :=
  match calls parsed with [] => Some (content parsed) | _ => None end.

(** [None] is the 400 of a tool call parse error. *)
Definition non_stream (fuel : nat) (outcome : GenerateOutcome) (tools : list (Tool F)) :
    Prelude.outcome unit (option Message) :=
  parsed ← parse_markup fuel (text outcome) tools 0;
  match error parsed with
  | Some _ => Ok None
  | None =>
    Ok (Some {| msg_content := message_content parsed;
                msg_reasoning := match reasoning parsed with [] => None | r => Some (concat r) end;
                msg_tool_calls := calls parsed;
                msg_finish_reason := final_reason outcome parsed |})
  end.

End stream.
Arguments Message : clear implicits.
