(* ===== verification/StreamProofs.v ===== *)
(** The stream splitter against its specification: [Splits], which reads a completion
    character by character.  Whatever the deltas the completion arrives in, the events
    carry the characters of the specification, and they agree with what the markup
    parser reads in the whole text. *)
From Stdlib Require Import ZArith Lia Bool.
From stdpp Require Import base list gmap strings.
From S2P Require Import Prelude Paging Utf8 Scan JsonProofs ApiJson ApiParser ChatTemplate MarkupProofs StreamSplit.

(** * The specification *)
Inductive kind := KContent | KReasoning.

#[export] Instance kind_eq : EqDecision kind.
Proof. solve_decision. Defined.

(** The tags that end a span. *)
Definition span_tags (sp : Span) : list (list Z) :=
  match sp with SpContent => [TH; TC] | SpThink => [TH_END] | SpTool => [] end.

Definition span_kind (sp : Span) : kind := match sp with SpThink => KReasoning | _ => KContent end.

Definition no_tag (sp : Span) (l : list Z) : Prop := Forall (fun w => starts_with l w = false) (span_tags sp).

(** [Splits sp l out sp' n]: from span [sp], the text [l] sends the characters [out],
    opens [n] think blocks and ends in span [sp']. *)
Inductive Splits : Span -> list Z -> list (kind * Z) -> Span -> nat -> Prop :=
| Sp_end sp : sp <> SpTool -> Splits sp [] [] sp 0
| Sp_tool l : Splits SpTool l [] SpTool 0
| Sp_call l : Splits SpContent (TC ++ l) [] SpTool 0
| Sp_think l out sp n : Splits SpThink l out sp n -> Splits SpContent (TH ++ l) out sp (S n)
| Sp_close l out sp n : Splits SpContent l out sp n -> Splits SpThink (TH_END ++ l) out sp n
| Sp_char sp c l out sp' n : sp <> SpTool -> no_tag sp (c :: l) -> Splits sp l out sp' n ->
    Splits sp (c :: l) ((span_kind sp, c) :: out) sp' n.

Definition tagged (sp : Span) (l : list Z) : list (kind * Z) := pair (span_kind sp) <$> l.

(** Text none of whose positions starts a tag of the span. *)
Lemma splits_plain sp a b out sp' n : sp <> SpTool ->
  (forall i, (i < length a)%nat -> no_tag sp (drop i a ++ b)) ->
  Splits sp b out sp' n -> Splits sp (a ++ b) (tagged sp a ++ out) sp' n.
Proof.
  intros Hsp. induction a as [|c a IH]; intros Hno Hb; [done|]. cbn. constructor; [done| |].
  - apply (Hno 0%nat). cbn. lia.
  - apply IH; [|done]. intros i Hi. apply (Hno (S i)). cbn. lia.
Qed.

(** * Matches and their absence *)

(** Before a [<], a tag that does not match in the text before it does not match. *)
Lemma before_tag w a r i : tag w -> head w = Some LT -> (i < length a)%nat ->
  starts_with (drop i a) w = false -> starts_with (drop i a ++ LT :: r) w = false.
Proof.
  intros Hw Hh Hi Hs. destruct w as [|c t]; [done|]. injection Hh as ->.
  apply starts_with_overlap; [done| |done]. intros H%(f_equal length). rewrite length_drop in H. cbn in H. lia.
Qed.

(** ** [held_suffix] *)
Lemma inner_ge hold tg ks keep :
  (keep <= foldl (fun keep k =>
      if starts_with tg (drop (length hold - k) hold) then Nat.max keep k else keep) keep ks)%nat.
Proof.
  revert keep. induction ks as [|k ks IH]; intros keep; cbn; [lia|].
  etrans; [|apply IH]. destruct (starts_with _ _); lia.
Qed.

Lemma inner_max hold tg ks keep k : k ∈ ks -> starts_with tg (drop (length hold - k) hold) = true ->
  (k <= foldl (fun keep k =>
      if starts_with tg (drop (length hold - k) hold) then Nat.max keep k else keep) keep ks)%nat.
Proof.
  intros Hk Hs. revert keep. induction Hk as [k ks|k k' ks Hk IH]; intros keep; cbn.
  - rewrite Hs. etrans; [|apply inner_ge]. lia.
  - by apply IH.
Qed.

Lemma held_suffix_max hold tags tg k : tg ∈ tags -> (1 <= k <= Nat.min (length tg) (length hold))%nat ->
  starts_with tg (drop (length hold - k) hold) = true -> (k <= held_suffix hold tags)%nat.
Proof.
  intros Htg Hk Hs. unfold held_suffix.
  match goal with |- (_ <= foldl ?g _ _)%nat => set (f := g) end.
  assert (forall keep t, (keep <= f keep t)%nat) as Hge by (intros; apply inner_ge).
  assert (forall keep, (k <= f keep tg)%nat) as Htag
    by (intros; apply inner_max; [apply elem_of_seq; lia|done]).
  clearbody f. generalize O as keep.
  induction Htg as [tg tags|tg tg' tags Htg IH]; intros keep; cbn [foldl]; [|by apply IH].
  specialize (Htag keep). revert Htag. generalize (f keep tg) as m. induction tags as [|t tags IH]; intros m Hm; [done|].
  cbn [foldl]. apply IH. by etrans; [|apply Hge].
Qed.

(** What is flushed cannot be part of a tag, whatever comes next. *)
Lemma flushed_no_tag hold tags tg d i : tg ∈ tags -> tg <> [] -> find tg hold = None ->
  (i < length hold - held_suffix hold tags)%nat -> starts_with (drop i hold ++ d) tg = false.
Proof.
  intros Htg Hne Hf Hi. pose proof (find_None_drop tg hold i Hne Hf) as Hs.
  destruct (Nat.le_gt_cases (length tg) (length (drop i hold))) as [Hle|Hgt]; [by rewrite starts_with_short|].
  apply not_true_iff_false. intros Hm%starts_with_true. rewrite length_drop in Hgt.
  assert (length hold - i <= held_suffix hold tags)%nat; [|lia].
  apply held_suffix_max with tg; [done|lia|]. replace (length hold - (length hold - i))%nat with i by lia.
  assert (take (length (drop i hold)) tg = drop i hold) as Ht.
  { transitivity (take (length (drop i hold)) (drop i hold ++ d)); [|apply take_app_length].
    rewrite Hm, take_app_le by (rewrite length_drop; lia). done. }
  unfold starts_with. by apply bool_decide_true.
Qed.

(** * One push *)
Section push.
Context {F : Type} `{!Float64 F}.

(** The characters of the events. *)
Definition event_chars (e : event F) : list (kind * Z) :=
  match e with
  | ContentEvent d => pair KContent <$> d
  | ReasoningEvent r => pair KReasoning <$> r
  | _ => []
  end.

Definition chars (evs : list (event F)) : list (kind * Z) := concat (event_chars <$> evs).

Lemma chars_app evs evs' : chars (evs ++ evs') = chars evs ++ chars evs'.
Proof. unfold chars. by rewrite fmap_app, concat_app. Qed.

Lemma chars_write_content s : chars (write_nonempty ContentEvent s) = tagged SpContent s.
Proof. destruct s; [done|]. unfold chars. cbn [fmap list_fmap write_nonempty concat event_chars]. apply app_nil_r. Qed.

Lemma chars_write_reasoning s : chars (write_nonempty ReasoningEvent s) = tagged SpThink s.
Proof. destruct s; [done|]. unfold chars. cbn [fmap list_fmap write_nonempty concat event_chars]. apply app_nil_r. Qed.

(** Between pushes no whole tag of the span is held. *)
Definition settled (st : StreamSplit) : Prop := Forall (fun w => find w (hold st) = None) (span_tags (span st)).

(** [st] with [evs] written became [st']: whatever comes next, the specification of
    the rest continues the one of [st]. *)
Definition simulates (st : StreamSplit) (evs : list (event F)) (st' : StreamSplit) : Prop :=
  forall d out sp n, Splits (span st') (hold st' ++ d) out sp n ->
  exists m, Splits (span st) (hold st ++ d) (chars evs ++ out) sp m /\
            (m + think_blocks st = n + think_blocks st')%nat.

Lemma simulates_refl st : simulates st [] st.
Proof. intros d out sp n H. by exists n. Qed.

Lemma simulates_trans st1 st2 st3 evs evs' :
  simulates st1 evs st2 -> simulates st2 evs' st3 -> simulates st1 (evs ++ evs') st3.
Proof.
  intros H1 H2 d out sp n (m & (k & Hk & Hn)%H1 & Hm)%H2. exists k. rewrite chars_app, <- app_assoc.
  split; [done|lia].
Qed.

Lemma span_tags_ok sp w : w ∈ span_tags sp -> tag w /\ head w = Some LT.
Proof.
  assert (Forall (fun w => tag w /\ head w = Some LT) (span_tags sp)) as H
    by (destruct sp; apply (bool_decide_unpack _); vm_compute; done).
  intros Hw. by eapply Forall_forall in H.
Qed.

(** Text before a tag is sent as it is. *)
Lemma plain_before sp a l d out sp' n : sp <> SpTool ->
  Forall (fun w => forall i, (i < length a)%nat -> starts_with (drop i a) w = false) (span_tags sp) ->
  head l = Some LT -> Splits sp (l ++ d) out sp' n ->
  Splits sp ((a ++ l) ++ d) (tagged sp a ++ out) sp' n.
Proof.
  intros Hsp Ha Hl H. rewrite <- app_assoc. apply splits_plain; [done| |done]. intros i Hi.
  unfold no_tag. destruct l as [|c l]; [done|]. injection Hl as ->.
  apply Forall_forall. intros w Hw. eapply Forall_forall in Ha; [|done]. cbn beta in Ha. cbn [app].
  destruct (span_tags_ok sp w Hw) as [Ht Hh]. apply before_tag; auto.
Qed.

Lemma prefix_no_tag w h a l : h = a ++ l ->
  (forall i, (i < length a)%nat -> starts_with (drop i h) w = false) ->
  forall i, (i < length a)%nat -> starts_with (drop i a) w = false.
Proof. intros -> H i Hi. specialize (H i Hi). rewrite drop_app_le in H by lia. by apply starts_with_more in H. Qed.

(** The rest of the text, when no tag is held. *)
Lemma flush_simulates sp h tb mk : sp <> SpTool ->
  (forall s, chars (write_nonempty mk s) = tagged sp s) ->
  Forall (fun w => find w h = None) (span_tags sp) ->
  let flush := (length h - held_suffix h (span_tags sp))%nat in
  let st' := {| hold := drop flush h; span := sp; think_blocks := tb |} in
  simulates {| hold := h; span := sp; think_blocks := tb |} (write_nonempty mk (take flush h)) st' /\ settled st'.
Proof.
  intros Hsp Hmk Hnone flush st'. split.
  - intros d out sp' n H. exists n. split; [|done]. cbn [hold span st'] in *. rewrite Hmk.
    rewrite <- (take_drop flush h) at 1. rewrite <- app_assoc. apply splits_plain; [done| |done].
    intros i Hi. rewrite length_take in Hi. apply Forall_forall. intros w Hw.
    assert (drop i (take flush h) ++ drop flush h ++ d = drop i h ++ d) as ->.
    { rewrite <- (take_drop flush h) at 3. rewrite drop_app_le by (rewrite length_take; lia). by rewrite <- app_assoc. }
    apply flushed_no_tag with (span_tags sp); [done| | |lia].
    + destruct (span_tags_ok sp w Hw) as [Ht _]. by destruct w.
    + eapply Forall_forall in Hnone; done.
  - unfold settled. cbn [hold span st']. eapply Forall_impl; [exact Hnone|]. cbn. intros w Hw.
    revert Hw. generalize flush. clear. intros k. revert k. induction h as [|c h IH]; intros k Hw; [by rewrite drop_nil|].
    destruct k as [|k]; [done|]. apply IH. by apply find_None_inv in Hw as [_ Hw].
Qed.

Lemma splits_tool_inv l out sp n : Splits SpTool l out sp n -> out = [] /\ sp = SpTool /\ n = 0%nat.
Proof. inversion 1; done. Qed.

Lemma close_simulates h tb a b : find TH_END h = Some (a, b) ->
  simulates {| hold := h; span := SpThink; think_blocks := tb |} (write_nonempty ReasoningEvent a)
            {| hold := b; span := SpContent; think_blocks := tb |}.
Proof.
  intros Hf d out sp n H. exists n. split; [|done]. cbn [hold span] in *. rewrite chars_write_reasoning.
  pose proof (find_Some _ _ _ _ Hf) as Hh. rewrite Hh. apply plain_before; [done| |done|].
  - constructor; [|constructor]. apply (prefix_no_tag _ h a _ Hh). intros i Hi. by eapply find_Some_drop.
  - rewrite <- app_assoc. by constructor.
Qed.

(** Of two tags, the one found first: neither starts before it. *)
Lemma first_of_two h a b w : find TH h = Some (a, b) \/ find TC h = Some (a, b) ->
  w ∈ [TH; TC] ->
  (find w h = None \/ exists a' b', find w h = Some (a', b') /\ (length a <= length a')%nat) ->
  forall i, (i < length a)%nat -> starts_with (drop i a) w = false.
Proof.
  intros Hab Hw Hf. assert (exists l, h = a ++ l) as [l Hl] by (destruct Hab as [H|H]; apply find_Some in H; eauto).
  apply (prefix_no_tag w h a l Hl). intros i Hi. destruct Hf as [Hf|(a' & b' & Hf & Hle)].
  - apply find_None_drop; [|done]. destruct (span_tags_ok SpContent w Hw) as [Ht _]. by destruct w.
  - eapply find_Some_drop; [done|lia].
Qed.

Lemma think_simulates h tb a b : find TH h = Some (a, b) ->
  (find TC h = None \/ exists t c, find TC h = Some (t, c) /\ (length a <= length t)%nat) ->
  simulates {| hold := h; span := SpContent; think_blocks := tb |} (write_nonempty ContentEvent a)
            {| hold := b; span := SpThink; think_blocks := S tb |}.
Proof.
  intros Hf Ht d out sp n H. exists (S n). split; [|cbn; lia]. cbn [hold span] in *. rewrite chars_write_content.
  pose proof (find_Some _ _ _ _ Hf) as Hh. rewrite Hh. apply plain_before; [done| |done|].
  - apply Forall_forall. intros w Hw. apply (first_of_two h a b w); [by left|done|].
    set_unfold. destruct Hw as [-> | [-> | []]]; [right; eauto|done].
  - rewrite <- app_assoc. by constructor.
Qed.

Lemma tool_simulates h tb a b : find TC h = Some (a, b) ->
  (find TH h = None \/ exists t c, find TH h = Some (t, c) /\ (length a <= length t)%nat) ->
  simulates {| hold := h; span := SpContent; think_blocks := tb |} (write_nonempty ContentEvent a)
            {| hold := TC ++ b; span := SpTool; think_blocks := tb |}.
Proof.
  intros Hf Ht d out sp n (-> & -> & ->)%splits_tool_inv. exists 0%nat. split; [|done].
  cbn [hold span] in *. rewrite chars_write_content.
  pose proof (find_Some _ _ _ _ Hf) as Hh. rewrite Hh. apply plain_before; [done| |done|].
  - apply Forall_forall. intros w Hw. apply (first_of_two h a b w); [by right|done|].
    set_unfold. destruct Hw as [-> | [-> | []]]; [done|right; eauto].
  - rewrite <- app_assoc. constructor.
Qed.

Definition fuel_needed (st : StreamSplit) : nat :=
  match span st with SpTool => 1 | _ => length (hold st) + 2 end.

Definition pushed (st : StreamSplit) (m : outcome unit (list (event F) * StreamSplit)) : Prop :=
  exists evs st', m = Ok (evs, st') /\ simulates st evs st' /\ settled st'.

Lemma pushed_step st evs st1 (m : outcome unit (list (event F) * StreamSplit)) :
  simulates st evs st1 -> pushed st1 m -> pushed st ('(evs', st') ← m; Ok (evs ++ evs', st')).
Proof.
  intros H (evs' & st' & -> & H' & Hs). eexists _, _. split; [reflexivity|]. split; [|done].
  by eapply simulates_trans.
Qed.

Lemma push_loop_ok fuel st : (fuel_needed st <= fuel)%nat -> pushed st (push_loop fuel st).
Proof.
  revert st. induction fuel as [|fuel IH]; intros [h sp tb] Hf; [unfold fuel_needed in Hf; destruct sp; cbn in Hf; lia|].
  destruct sp; cbn [push_loop span hold think_blocks]; unfold fuel_needed in Hf; cbn [span hold] in Hf.
  - change THINK_OPEN with TH. change TOOL_OPEN with TC.
    assert (forall a b, find TC h = Some (a, b) ->
      (find TH h = None \/ exists t c, find TH h = Some (t, c) /\ (length a <= length t)%nat) ->
      pushed {| hold := h; span := SpContent; think_blocks := tb |}
        ('(evs, st') ← push_loop fuel {| hold := TC ++ b; span := SpTool; think_blocks := tb |};
         Ok (write_nonempty ContentEvent a ++ evs, st'))) as Htool.
    { intros a b Ha Hth. eapply pushed_step; [by apply tool_simulates|]. apply IH. cbn. lia. }
    assert (forall a b, find TH h = Some (a, b) ->
      (find TC h = None \/ exists t c, find TC h = Some (t, c) /\ (length a <= length t)%nat) ->
      pushed {| hold := h; span := SpContent; think_blocks := tb |}
        ('(evs, st') ← push_loop fuel {| hold := b; span := SpThink; think_blocks := S tb |};
         Ok (write_nonempty ContentEvent a ++ evs, st'))) as Hthink.
    { intros a b Ha Htc. eapply pushed_step; [by apply think_simulates|]. apply IH. unfold fuel_needed. cbn.
      apply find_Some_length in Ha. change (length TH) with 7%nat in Ha. lia. }
    destruct (find TH h) as [[p after]|] eqn:Hth, (find TC h) as [[t tafter]|] eqn:Htc.
    + destruct (Nat.ltb_spec (length p) (length t)).
      * apply Hthink; [done|]. right. exists t, tafter. split; [done|lia].
      * apply Htool; [done|]. right. exists p, after. done.
    + by apply Hthink; auto.
    + by apply Htool; auto.
    + destruct (flush_simulates SpContent h tb ContentEvent) as [Hs Hset];
        [done|apply chars_write_content|by repeat constructor|]. by eexists _, _.
  - change THINK_CLOSE with TH_END. destruct (find TH_END h) as [[a b]|] eqn:Hend.
    + eapply pushed_step; [by apply close_simulates|]. apply IH. unfold fuel_needed. cbn.
      apply find_Some_length in Hend. change (length TH_END) with 8%nat in Hend. lia.
    + destruct (flush_simulates SpThink h tb ReasoningEvent) as [Hs Hset];
        [done|apply chars_write_reasoning|by repeat constructor|]. by eexists _, _.
  - eexists _, _. split; [reflexivity|]. split; [apply simulates_refl|constructor].
Qed.

(** ** A whole stream *)
Lemma push_ok st delta : exists evs st', push st delta = Ok (evs, st') /\ settled st' /\
  forall d out sp n, Splits (span st') (hold st' ++ d) out sp n ->
  exists m, Splits (span st) (hold st ++ delta ++ d) (chars evs ++ out) sp m /\
            (m + think_blocks st = n + think_blocks st')%nat.
Proof.
  unfold push. set (st1 := {| hold := hold st ++ delta; span := span st; think_blocks := think_blocks st |}).
  destruct (push_loop_ok (length (hold st1) + 2) st1) as (evs & st' & -> & Hsim & Hset).
  { unfold fuel_needed. destruct (span st1); lia. }
  eexists _, _. split; [reflexivity|]. split; [done|]. intros d out sp n (m & Hm & Hn)%Hsim.
  exists m. cbn [hold span st1] in Hm. rewrite <- app_assoc in Hm. done.
Qed.

Lemma on_deltas_ok st ds : settled st -> exists evs st', on_deltas st ds = Ok (evs, st') /\ settled st' /\
  forall d out sp n, Splits (span st') (hold st' ++ d) out sp n ->
  exists m, Splits (span st) (hold st ++ concat ds ++ d) (chars evs ++ out) sp m /\
            (m + think_blocks st = n + think_blocks st')%nat.
Proof.
  revert st. induction ds as [|dl ds IH]; intros st Hst.
  - exists [], st. split; [done|]. split; [done|]. intros d out sp n H. by exists n.
  - assert (exists evs st', on_delta st dl = Ok (evs, st') /\ settled st' /\
      forall d out sp n, Splits (span st') (hold st' ++ d) out sp n ->
      exists m, Splits (span st) (hold st ++ dl ++ d) (chars evs ++ out) sp m /\
                (m + think_blocks st = n + think_blocks st')%nat) as (evs1 & st1 & H1 & Hs1 & Hsim1).
    { destruct dl as [|c dl]; [|apply push_ok]. exists [Keepalive], st. split; [done|]. split; [done|].
      intros d out sp n H. by exists n. }
    destruct (IH st1 Hs1) as (evs2 & st2 & H2 & Hs2 & Hsim2).
    exists (evs1 ++ evs2), st2. cbn [on_deltas]. rewrite H1. cbn [mbind outcome_bind]. rewrite H2.
    split; [done|]. split; [done|]. intros d out sp n (k & (m & Hm & Hmn)%Hsim1 & Hk)%Hsim2.
    exists m. cbn [concat]. rewrite chars_app, <- !app_assoc. split; [done|lia].
Qed.

Lemma finish_ok st : settled st -> Splits (span st) (hold st) (chars (fst (finish (F:=F) st))) (span st) 0.
Proof.
  intros Hset. assert (chars (fst (finish (F:=F) st)) = match span st with SpTool => [] | sp => tagged sp (hold st) end) as ->.
  { unfold finish, chars. cbn [fst]. destruct (hold st); destruct (span st); try done;
      cbn [fmap list_fmap concat event_chars]; apply app_nil_r. }
  assert (span st <> SpTool -> Splits (span st) (hold st) (tagged (span st) (hold st)) (span st) 0) as H.
  { intros Hsp. rewrite <- (app_nil_r (hold st)) at 1. rewrite <- (app_nil_r (tagged _ _)).
    apply splits_plain; [done| |by constructor]. intros i Hi. rewrite app_nil_r. apply Forall_forall. intros w Hw.
    destruct (span_tags_ok _ w Hw) as [Ht _]. apply find_None_drop; [by destruct w|]. by eapply Forall_forall in Hset. }
  destruct (span st) eqn:Hsp; [by apply H|by apply H|constructor].
Qed.

Lemma stream_splits ds : exists evs st, on_deltas new_split ds = Ok (evs, st) /\
  Splits SpContent (concat ds) (chars (evs ++ fst (finish (F:=F) st))) (span st) (think_blocks st).
Proof.
  destruct (on_deltas_ok new_split ds) as (evs & st & H & Hset & Hsim); [by repeat constructor|].
  exists evs, st. split; [done|]. rewrite chars_app.
  pose proof (finish_ok st Hset) as Hfin. rewrite <- (app_nil_r (hold st)) in Hfin.
  apply Hsim in Hfin as (m & Hm & Hn). cbn in Hm, Hn. rewrite app_nil_r in Hm.
  by replace m with (think_blocks st) in Hm by lia.
Qed.

End push.

(** * The specification determines the stream *)
Lemma no_tag_not sp w l r : no_tag sp r -> w ∈ span_tags sp -> r <> w ++ l.
Proof. intros H Hw ->. eapply Forall_forall in H; [|done]. cbn in H. by rewrite starts_with_app in H. Qed.

Ltac no_tag_absurd sp w l :=
  match goal with Hn : no_tag _ _ |- _ => exfalso; apply (no_tag_not sp w l _ Hn); [cbn; set_solver|reflexivity] end.

Lemma splits_det sp l out sp1 n1 : Splits sp l out sp1 n1 ->
  forall out2 sp2 n2, Splits sp l out2 sp2 n2 -> out = out2 /\ sp1 = sp2 /\ n1 = n2.
Proof.
  induction 1 as [sp Hsp|l|l|l out sp n H IH|l out sp n H IH|sp c l out sp' n Hsp Hno H IH]; intros out2 sp2 n2 H2.
  - inversion H2; subst; done.
  - by apply splits_tool_inv in H2 as (-> & -> & ->).
  - inversion H2; subst; try done. by no_tag_absurd SpContent TC l.
  - inversion H2; subst; try done; [|by no_tag_absurd SpContent TH l].
    match goal with Hs : Splits SpThink _ _ _ _ |- _ => apply IH in Hs as (-> & -> & ->) end. done.
  - inversion H2; subst; try done; [|by no_tag_absurd SpThink TH_END l].
    match goal with Hs : Splits SpContent _ _ _ _ |- _ => apply IH in Hs as (-> & -> & ->) end. done.
  - inversion H2; subst; try done.
    + by no_tag_absurd SpContent TC l0.
    + by no_tag_absurd SpContent TH l0.
    + by no_tag_absurd SpThink TH_END l0.
    + match goal with Hs : Splits _ l _ _ _ |- _ => apply IH in Hs as (-> & -> & ->) end. done.
Qed.

(** * The stream and the parser *)
Section agree.
Context {F : Type} `{!Float64 F}.
Implicit Types (tools : list (Tool F)) (r : ParseResult F).

Definition pick (k : kind) (out : list (kind * Z)) : list Z := snd <$> filter (fun e => e.1 = k) out.

Lemma pick_app k out out' : pick k (out ++ out') = pick k out ++ pick k out'.
Proof. unfold pick. by rewrite filter_app, fmap_app. Qed.

Lemma pick_tagged k sp l : pick k (tagged sp l) = if decide (span_kind sp = k) then l else [].
Proof.
  unfold pick, tagged. induction l as [|c l IH]; [by case_decide|]. cbn [fmap list_fmap].
  case_decide as H; [rewrite filter_cons_True by done|rewrite filter_cons_False by done]; cbn; by rewrite IH.
Qed.

Lemma find_TH_END l : find TH_END (TH ++ l) = (fun '(a, b) => (TH ++ a, b)) <$> find TH_END l.
Proof.
  change (TH ++ l) with (0x3C :: 0x74 :: 0x68 :: 0x69 :: 0x6E :: 0x6B :: 0x3E :: l).
  rewrite (find_cons TH_END 0x3C) by (by apply starts_with_ne with 1%nat 0x74 0x2F).
  rewrite !find_cons by (by eapply starts_with_ne with (i := 0%nat) (b := 0x3C); [reflexivity|reflexivity|]).
  by destruct (find TH_END l) as [[a b]|].
Qed.

(** A think block as the parser finds it. *)
Lemma splits_think l out sp n : Splits SpThink l out sp n ->
  (exists a b out', find TH_END l = Some (a, b) /\ out = tagged SpThink a ++ out' /\ Splits SpContent b out' sp n) \/
  (find TH_END l = None /\ out = tagged SpThink l /\ sp = SpThink /\ n = 0%nat).
Proof.
  remember SpThink as s eqn:Hs. induction 1 as [sp Hsp|l|l|l out sp n H IH|l out sp n H IH|sp c l out sp' n Hsp Hno H IH];
    try discriminate Hs; subst.
  - right. done.
  - left. exists [], l, out. rewrite find_here. done.
  - assert (starts_with (c :: l) TH_END = false) as Hc by (by apply Forall_inv in Hno).
    rewrite find_cons by done. destruct IH as [(a & b & out' & -> & -> & Hb)|(-> & -> & -> & ->)]; [done| |].
    + left. exists (c :: a), b, out'. done.
    + right. done.
Qed.

(** [r] with more content and more reasoning. *)
Definition grow r (c : list Z) (rs : list (list Z)) : ParseResult F :=
  Build_ParseResult (content r ++ c) (reasoning r ++ rs) (calls r) (reports r) (error r) (capped r).

Lemma grow_grow r c rs c' rs' : grow (grow r c rs) c' rs' = grow r (c ++ c') (rs ++ rs').
Proof. unfold grow. cbn. by rewrite !app_assoc. Qed.

Lemma grow_nil r : grow r [] [] = r.
Proof. unfold grow. rewrite !app_nil_r. by destruct r. Qed.

Lemma parse_loop_think fuel tools cap r l :
  parse_loop (S fuel) tools cap r (TH ++ l) =
  match find TH_END l with
  | Some (a, b) => parse_loop fuel tools cap (grow r [] [a]) b
  | None => parse_loop fuel tools cap (grow r [] [l]) []
  end.
Proof.
  pose proof (find_TH_END l) as Hf. pose proof (starts_with_app TH l) as Hs.
  pose proof (drop_app_length TH l) as Hd. set (rest := TH ++ l) in *. clearbody rest.
  destruct rest as [|ch more]; [done|]. cbn [parse_loop]. rewrite Hs, Hf, Hd. unfold grow.
  destruct (find TH_END l) as [[a b]|]; cbn [fmap option_fmap option_map]; rewrite ?app_nil_r; [|done].
  by rewrite drop_app_length.
Qed.

(** The parser, up to the first tool call outside a think block, reads what is streamed. *)
Lemma parse_follows tools cap l out sp n : Splits SpContent l out sp n ->
  forall r fuel, (length l < fuel)%nat ->
  exists rs rest fuel', parse_loop fuel tools cap r l = parse_loop fuel' tools cap (grow r (pick KContent out) rs) rest /\
    concat rs = pick KReasoning out /\ length rs = n /\ (length rest < fuel')%nat /\
    (if decide (sp = SpTool) then starts_with rest TC = true else rest = []).
Proof.
  remember (length l) as k eqn:Hk. revert l out sp n Hk. induction (lt_wf k) as [k _ IH].
  intros l out sp n -> H r fuel Hf. inversion H; subst.
  - exists [], [], fuel. rewrite grow_nil. by rewrite decide_False.
  - exists [], (TC ++ l0), fuel. rewrite grow_nil. rewrite decide_True by done. by rewrite starts_with_app.
  - destruct fuel as [|fuel]; [lia|]. rewrite parse_loop_think. rewrite length_app in Hf. change (length TH) with 7%nat in Hf.
    match goal with Ht : Splits SpThink _ _ _ _ |- _ =>
      apply splits_think in Ht as [(a & b & out' & Hfind & -> & Hb)|(-> & -> & -> & ->)] end.
    + rewrite Hfind. apply find_Some_length in Hfind. change (length TH_END) with 8%nat in Hfind.
      destruct (IH (length b) ltac:(rewrite length_app; lia) b out' sp n0 eq_refl Hb (grow r [] [a]) fuel ltac:(lia))
        as (rs & rest & fuel' & -> & Hrs & Hn & Hr & Hend).
      exists (a :: rs), rest, fuel'. rewrite grow_grow, !pick_app, !pick_tagged. cbn. by rewrite Hrs, Hn.
    + exists [l0], [], fuel. rewrite !pick_tagged. cbn. rewrite app_nil_r. split_and!; try done. lia.
  - destruct fuel as [|fuel]; [lia|]. cbn [length] in Hf.
    assert (parse_loop (S fuel) tools cap r (c :: l0) = parse_loop fuel tools cap (grow r [c] []) l0) as ->.
    { match goal with Hn : no_tag _ _ |- _ => apply Forall_cons in Hn as [Hth Htc%Forall_inv] end.
      cbn [parse_loop]. rewrite Hth, Htc. unfold grow. by rewrite app_nil_r. }
    match goal with Ht : Splits SpContent l0 _ _ _ |- _ =>
      destruct (IH (length l0) ltac:(cbn; lia) l0 _ _ _ eq_refl Ht (grow r [c] []) fuel ltac:(lia))
        as (rs & rest & fuel' & -> & Hrs & Hn & Hr & Hend) end.
    exists rs, rest, fuel'. rewrite grow_grow. done.
Qed.

(** Results only grow. *)
Lemma parse_loop_grows fuel tools cap r rest r' : error r = None ->
  parse_loop fuel tools cap r rest = Ok r' -> error r' = None ->
  exists c rs cs, content r' = content r ++ c /\ reasoning r' = reasoning r ++ rs /\ calls r' = calls r ++ cs.
Proof.
  revert r rest. induction fuel as [|fuel IH]; intros r rest He; [done|].
  assert (forall r1 rest1, error r1 = None ->
    (exists c rs cs, content r1 = content r ++ c /\ reasoning r1 = reasoning r ++ rs /\ calls r1 = calls r ++ cs) ->
    parse_loop fuel tools cap r1 rest1 = Ok r' -> error r' = None ->
    exists c rs cs, content r' = content r ++ c /\ reasoning r' = reasoning r ++ rs /\ calls r' = calls r ++ cs) as Hstep.
  { intros r1 rest1 He1 (c & rs & cs & H1 & H2 & H3) Hp He'.
    destruct (IH r1 rest1 He1 Hp He') as (c' & rs' & cs' & -> & -> & ->). rewrite H1, H2, H3.
    exists (c ++ c'), (rs ++ rs'), (cs ++ cs'). by rewrite !app_assoc. }
  cbn [parse_loop]. destruct rest as [|ch more].
  { intros [= <-] _. exists [], [], []. by rewrite !app_nil_r. }
  destruct (starts_with _ TH).
  { destruct (find TH_END _) as [[before after]|]; (apply Hstep; [done|]);
      cbn; eexists [], [_], []; by rewrite !app_nil_r. }
  destruct (starts_with _ TC).
  - destruct (_ && _). { intros [= <-] _. exists [], [], []. cbn. by rewrite !app_nil_r. }
    intros ([[[call after] reps] err] & Hcall & Hp)%bind_Ok. destruct err as [e|]; [by injection Hp as <-|].
    revert Hp. apply Hstep; [done|]. exists [], [], (option_list call). cbn. by rewrite !app_nil_r.
  - apply Hstep; [done|]. exists [ch], [], []. cbn. by rewrite !app_nil_r.
Qed.

Lemma parse_call_lost fuel s tools rest reps : parse_call fuel s tools = Ok (None, rest, reps, None) -> rest = [].
Proof.
  unfold parse_call. destruct (find FN s) as [[a after]|].
  - destruct (find GT after) as [[nm after_fn]|]; [|by intros [= <-]].
    case_bool_decide; [done|]. intros (pr & _ & Hpr)%bind_Ok.
    destruct pr as [args reps' rest'|reps']; [destruct (negb _)|]; by simplify_eq.
  - destruct (find PA s); [done|]. by intros [= <-].
Qed.

(** From a tool call on, the parser adds content only if it also keeps a call. *)
Lemma parse_tool fuel tools r rest r' : error r = None -> starts_with rest TC = true ->
  parse_loop fuel tools 0 r rest = Ok r' -> error r' = None -> calls r' = [] -> content r' = content r.
Proof.
  intros He Htc. destruct fuel as [|fuel]; [done|]. cbn [parse_loop].
  destruct rest as [|ch more]; [done|].
  assert (starts_with (ch :: more) TH = false) as ->.
  { apply starts_with_true in Htc. rewrite Htc. by apply starts_with_ne with 2%nat 0x6F 0x68. }
  rewrite Htc. cbn [Z.eqb negb andb]. intros ([[[call after] reps] err] & Hcall & Hp)%bind_Ok He' Hc.
  destruct err as [e|]; [by injection Hp as <-|]. destruct call as [c|].
  - apply parse_loop_grows in Hp as (c' & rs' & cs' & _ & _ & Hcs); [|done..].
    rewrite Hc in Hcs. cbn in Hcs. by destruct (calls r).
  - apply parse_call_lost in Hcall as ->. destruct fuel as [|fuel]; [done|]. by injection Hp as <-.
Qed.

(** What a client assembles from the events. *)
Definition streamed (k : kind) (evs : list (event F)) : list Z := pick k (chars evs).

Definition streamed_calls (evs : list (event F)) : list (ParsedCall F) :=
  omap (fun e => match e with ToolCallHeaderEvent _ c => Some c | _ => None end) evs.

Definition streamed_finish (evs : list (event F)) : list (list Z) :=
  omap (fun e => match e with FinishEvent reason => Some reason | _ => None end) evs.

Lemma streamed_app k evs evs' : streamed k (evs ++ evs') = streamed k evs ++ streamed k evs'.
Proof. unfold streamed. by rewrite chars_app, pick_app. Qed.

(** The parser's result and the characters streamed before it. *)
Lemma parse_and_stream fuel tools ds parsed : (length (concat ds) < fuel)%nat ->
  parse_markup fuel (concat ds) tools 0 = Ok parsed -> error parsed = None ->
  exists evs st, on_deltas (F:=F) new_split ds = Ok (evs, st) /\
    let live := evs ++ fst (finish st) in
    streamed KReasoning live ++ concat (drop (think_blocks st) (reasoning parsed)) = concat (reasoning parsed) /\
    (calls parsed = [] -> streamed KContent live = content parsed).
Proof.
  intros Hf Hp He. destruct (stream_splits (F:=F) ds) as (evs & st & Hon & Hspl). exists evs, st. split; [done|].
  set (live := evs ++ _) in *. cbv zeta. unfold parse_markup in Hp.
  destruct (parse_follows tools 0 _ _ _ _ Hspl empty_result fuel Hf) as (rs & rest & fuel' & Heq & Hrs & Hn & Hr & Hend).
  rewrite Hp in Heq. symmetry in Heq.
  assert (error (grow (empty_result (F:=F)) (pick KContent (chars live)) rs) = None) as He1 by done. split.
  - destruct (parse_loop_grows _ _ _ _ _ _ He1 Heq He) as (c & rs' & cs & _ & -> & _). cbn [grow reasoning empty_result app].
    rewrite drop_app_length' by done. rewrite concat_app. unfold streamed. by rewrite Hrs.
  - intros Hc. unfold streamed. case_decide.
    + by rewrite (parse_tool _ _ _ _ _ He1 Hend Heq He Hc).
    + subst rest. destruct fuel' as [|fuel']; [cbn in Hr; lia|]. by injection Heq as <-.
Qed.

Lemma streamed_reasoning k l : streamed k (ReasoningEvent <$> l) = if decide (KReasoning = k) then concat l else [].
Proof.
  induction l as [|x l IH]; [by case_decide|]. cbn [fmap list_fmap concat].
  change (ReasoningEvent x :: ?l) with ([ReasoningEvent (F:=F) x] ++ l). rewrite streamed_app, IH.
  unfold streamed, chars. cbn [fmap list_fmap concat event_chars]. rewrite app_nil_r.
  change (pair KReasoning <$> x) with (tagged SpThink x). rewrite pick_tagged. cbn. by case_decide.
Qed.

Lemma call_events_silent cs n k : streamed k (concat (imap (fun i => call_events (F:=F) (n + i)) cs)) = [].
Proof.
  revert n. induction cs as [|c cs IH]; intros n; [done|]. cbn [imap concat]. rewrite streamed_app.
  erewrite imap_ext; [rewrite (IH (S n))|]; [done|]. intros i x _. cbn. by rewrite Nat.add_succ_r.
Qed.

(** What the splitter writes: deltas and keepalives only. *)
Definition is_delta (e : event F) : Prop :=
  match e with Keepalive | ContentEvent _ | ReasoningEvent _ => True | _ => False end.

Lemma write_is_delta mk s : (forall s, is_delta (mk s)) -> Forall is_delta (write_nonempty mk s).
Proof. intros H. destruct s; constructor; [apply H|constructor]. Qed.

Lemma push_loop_deltas fuel st evs st' : push_loop fuel st = Ok (evs, st') -> Forall is_delta evs.
Proof.
  revert st evs st'. induction fuel as [|fuel IH]; intros st evs st'; [done|].
  assert (forall mk a st1 evs st', (forall s, is_delta (mk s)) ->
    ('(evs', st') ← push_loop fuel st1; Ok (write_nonempty mk a ++ evs', st')) = Ok (evs, st') -> Forall is_delta evs) as Hrec.
  { intros mk a st1 evs1 st1' Hmk ([evs' st2] & Hp & [= <- <-])%bind_Ok. apply Forall_app.
    split; [by apply write_is_delta|]. by eapply IH. }
  cbn [push_loop]. destruct (span st).
  - destruct (match find THINK_OPEN _ with Some _ => _ | None => _ end) as [[a b]|]; [by apply Hrec|].
    destruct (find TOOL_OPEN _) as [[a b]|]; [by apply Hrec|]. intros [= <- _]. by apply write_is_delta.
  - destruct (find THINK_CLOSE _) as [[a b]|]; [by apply Hrec|]. intros [= <- _]. by apply write_is_delta.
  - by intros [= <- _].
Qed.

Lemma on_deltas_deltas ds st evs st' : on_deltas st ds = Ok (evs, st') -> Forall is_delta evs.
Proof.
  revert st evs. induction ds as [|d ds IH]; intros st evs; cbn [on_deltas]; [by intros [= <- _]|].
  intros ([evs1 st1] & H1 & ([evs2 st2] & H2 & [= <- <-])%bind_Ok)%bind_Ok. apply Forall_app.
  split; [|by eapply IH]. destruct d; [injection H1 as <- _; by repeat constructor|]. by eapply push_loop_deltas.
Qed.

Lemma finish_deltas st : Forall is_delta (fst (finish st)).
Proof. unfold finish. destruct (hold st), (span st); repeat constructor. Qed.

Lemma deltas_no_calls evs : Forall is_delta evs -> streamed_calls evs = [] /\ streamed_finish evs = [].
Proof. induction 1 as [|e evs He _ [IH1 IH2]]; [done|]. by destruct e. Qed.

Lemma streamed_calls_app evs evs' : streamed_calls (evs ++ evs') = streamed_calls evs ++ streamed_calls evs'.
Proof. apply omap_app. Qed.

Lemma streamed_finish_app evs evs' : streamed_finish (evs ++ evs') = streamed_finish evs ++ streamed_finish evs'.
Proof. apply omap_app. Qed.

Lemma call_events_calls cs n :
  streamed_calls (concat (imap (fun i => call_events (F:=F) (n + i)) cs)) = cs /\
  streamed_finish (concat (imap (fun i => call_events (F:=F) (n + i)) cs)) = [].
Proof.
  revert n. induction cs as [|c cs IH]; intros n; [done|]. cbn [imap concat].
  rewrite streamed_calls_app, streamed_finish_app.
  erewrite imap_ext; [destruct (IH (S n)) as [-> ->]; done|]. intros i x _. cbn. by rewrite Nat.add_succ_r.
Qed.

Lemma reasoning_deltas l : Forall is_delta (ReasoningEvent <$> l).
Proof. apply Forall_fmap, Forall_true. done. Qed.

End agree.

(** * The theorems *)

(** C21: the streamed deltas refine the specification: in whatever pieces the engine
    delivers the completion, with whatever empty keepalives between them, the content and
    reasoning events carry exactly the characters that [Splits] gives for the whole text,
    in order and each with its kind; no part of a tag is ever sent as text, and text
    held back as a possible tag is sent once it turns out not to be one. *)
Theorem stream_refines_split {F : Type} `{!Float64 F} (ds : list (list Z)) :
  exists evs st, on_deltas new_split ds = Ok (evs, st) /\
    let stream := evs ++ fst (finish (F:=F) st) in
    Splits SpContent (concat ds) (chars stream) (span st) (think_blocks st) /\
    forall out sp n, Splits SpContent (concat ds) out sp n ->
      chars stream = out /\ span st = sp /\ think_blocks st = n.
Proof.
  destruct (stream_splits (F:=F) ds) as (evs & st & H & Hs). exists evs, st. split; [done|]. split; [done|].
  intros out sp n. by apply splits_det.
Qed.

(** C20: the streamed response says what the response that is not streamed says: a client
    that joins the deltas has the same reasoning, the same calls, the same finish reason,
    and the same content when the message has one.  Reasoning is sent exactly once: live
    before the first tool call, and after generation for the blocks that follow it. *)
Theorem stream_agrees_with_message {F : Type} `{!Float64 F} fuel ds outcome (tools : list (Tool F)) usage pt msg :
  text outcome = concat ds -> (length (text outcome) < fuel)%nat ->
  non_stream fuel outcome tools = Ok (Some msg) ->
  exists evs, stream_events fuel ds (Some outcome) tools usage pt = Ok evs /\
    streamed KReasoning evs = default [] (msg_reasoning msg) /\
    (forall c, msg_content msg = Some c -> streamed KContent evs = c) /\
    streamed_calls evs = msg_tool_calls msg /\ streamed_finish evs = [msg_finish_reason msg].
Proof.
  intros Htext Hf (parsed & Hp & Hm)%bind_Ok. destruct (error parsed) eqn:He; [done|]. injection Hm as <-.
  cbn [msg_reasoning msg_content msg_tool_calls msg_finish_reason]. rewrite Htext in *.
  destruct (parse_and_stream fuel tools ds parsed Hf Hp He) as (evs & st & Hon & Hreas & Hcont).
  unfold stream_events. rewrite Hon. cbn [mbind outcome_bind]. destruct (finish st) as [rest st'] eqn:Hfin.
  assert (think_blocks st' = think_blocks st) as -> by (unfold finish in Hfin; injection Hfin as _ <-; by destruct (span st)).
  rewrite Htext, Hp. cbn [mbind outcome_bind]. rewrite He. eexists. split; [reflexivity|].
  cbn [fst] in Hreas, Hcont. rewrite streamed_app in Hreas, Hcont.
  assert (streamed_calls (concat (imap call_events (calls parsed))) = calls parsed /\
          streamed_finish (concat (imap call_events (calls parsed))) = []) as [Hcalls Hnofin] by apply (call_events_calls _ 0).
  pose proof (call_events_silent (calls parsed) 0) as Hsilent. cbn [plus] in Hsilent.
  destruct (deltas_no_calls evs) as [Hc1 Hf1]; [by eapply on_deltas_deltas|].
  destruct (deltas_no_calls rest) as [Hc2 Hf2]; [pose proof (finish_deltas (F:=F) st) as H; by rewrite Hfin in H|].
  destruct (deltas_no_calls (F:=F) (ReasoningEvent <$> drop (think_blocks st) (reasoning parsed))) as [Hc3 Hf3]; [apply (reasoning_deltas (F:=F))|].
  split_and!.
  - rewrite !streamed_app, streamed_reasoning, decide_True, Hsilent by done.
    assert (streamed KReasoning (if usage then [UsageEvent (F:=F) pt (completion_tokens outcome)] else []) = []) as -> by by destruct usage.
    cbn [app]. rewrite !app_nil_r, app_assoc. change (streamed KReasoning [RoleEvent (F:=F)]) with (@nil Z). cbn [app].
    rewrite app_assoc, Hreas. by destruct (reasoning parsed).
  - intros c Hc. unfold message_content in Hc. destruct (calls parsed) eqn:Hcs; [|done]. injection Hc as <-.
    rewrite !streamed_app, streamed_reasoning, decide_False by done. cbn [imap concat].
    assert (streamed KContent (if usage then [UsageEvent (F:=F) pt (completion_tokens outcome)] else []) = []) as -> by by destruct usage.
    rewrite <- (Hcont eq_refl). change (streamed KContent [RoleEvent (F:=F)]) with (@nil Z). cbn [app]. by rewrite !app_nil_r.
  - rewrite !streamed_calls_app, Hc1, Hc2, Hc3, Hcalls. cbn. destruct usage; cbn; by rewrite app_nil_r.
  - rewrite !streamed_finish_app, Hf1, Hf2, Hf3, Hnofin. by destruct usage.
Qed.

(** Deltas that cut tags and a keepalive. *)
Definition sample_deltas : list (list Z) :=
  [str "he<b"; str ">y <thi"; str "nk>why"; []; str " not</th"; str "ink>ok <tool_"; str "call><function=f></function></tool_call><think>x</think>"].

Definition sample_outcome : GenerateOutcome :=
  {| text := concat sample_deltas; finish_reason := str "stop"; completion_tokens := 31 |}.

Definition sample_message : Message Tenths :=
  match non_stream 200 sample_outcome [] with
  | Ok (Some m) => m
  | _ => {| msg_content := None; msg_reasoning := None; msg_tool_calls := []; msg_finish_reason := [] |}
  end.

Lemma stream_agrees_with_message_witness : exists evs,
  stream_events 200 sample_deltas (Some sample_outcome) [] true 7 = Ok evs /\
  streamed KReasoning evs = default [] (msg_reasoning sample_message) /\
  (forall c, msg_content sample_message = Some c -> streamed KContent evs = c) /\
  streamed_calls evs = msg_tool_calls sample_message /\ streamed_finish evs = [msg_finish_reason sample_message].
Proof.
  apply (stream_agrees_with_message 200 sample_deltas sample_outcome [] true 7 sample_message).
  - reflexivity.
  - apply Nat.ltb_lt. vm_compute. reflexivity.
  - vm_compute. reflexivity.
Defined.
