(* ===== verification/Tokenizer.v ===== *)
(** The tokenizer (src/crates/mimo26-coordinator/src/tokenizer.rs): byte-level BPE over
    an in-memory vocabulary, its pre-tokenizer, and its loading from a JSON document.

    Strings are lists of scalar values.  The Unicode tables behind [is_alphabetic] and
    [is_numeric] are parameters.  A loop that has not returned within its fuel is
    [Err tt]. *)
From Stdlib Require Import ZArith Lia Bool.
From stdpp Require Import base list gmap strings.
From S2P Require Import Prelude Utf8 Scan Json.

(** * Definitions *)

(** [char::is_whitespace]: the property White_Space. *)
Definition is_whitespace (c : Z) : bool :=
  between 0x09 0x0D c || (c =? 0x20) || (c =? 0x85) || (c =? 0xA0) || (c =? 0x1680) || between 0x2000 0x200A c ||
  (c =? 0x2028) || (c =? 0x2029) || (c =? 0x202F) || (c =? 0x205F) || (c =? 0x3000).

(** One byte of [bytes_to_unicode]: itself when printable, else the next from 256 on. *)
Definition b2u_step (acc : list Z * Z) (b : Z) : list Z * Z :=
  let '(map, n) := acc in
  if between 33 126 b || between 161 172 b || between 174 255 b then (map ++ [b], n)
  else (map ++ [256 + n], n + 1).

Definition bytes_to_unicode : list Z := fst (foldl b2u_step ([], 0) (seqZ 0 256)).

Definition unicode_to_bytes : gmap Z Z := list_to_map (zip bytes_to_unicode (seqZ 0 256)).

Record AddedToken := { at_content : list Z; at_id : Z; at_special : bool }.

Record BpeTokenizer := {
  vocab : gmap (list Z) Z;
  id_to_token : gmap Z (list Z);
  merges : gmap (list Z * list Z) Z;
  added_tokens : list AddedToken
}.

(** Of two tokens with one id a hash map keeps one, which is not said; here it is the first
    in the order of [map_to_list]. *)
Definition from_parts (vocab : gmap (list Z) Z) (merges : list (list Z * list Z)) (added : list AddedToken) : BpeTokenizer :=
  {| vocab := vocab;
     id_to_token := list_to_map ((fun '(k, v) => (v, k)) <$> map_to_list vocab);
     merges := foldl (fun m '(i, p) => <[p := i]> m) ∅ (zip (seqZ 0 (Zlen merges)) merges);
     added_tokens := added |}.

Definition vocab_len (t : BpeTokenizer) : Z := Z.of_nat (size (vocab t)).
Definition merges_len (t : BpeTokenizer) : Z := Z.of_nat (size (merges t)).
Definition id_bound (t : BpeTokenizer) : Z :=
  Z.max (foldl (fun m e => Z.max m (snd e + 1)) 0 (map_to_list (vocab t)))
        (foldl (fun m a => Z.max m (at_id a + 1)) 0 (added_tokens t)).

(** [max_by_key]: the last of the longest. *)
Definition longer (best : option AddedToken) (t : AddedToken) : option AddedToken :=
  match best with
  | Some b => if Zlen (utf8 (at_content b)) <=? Zlen (utf8 (at_content t)) then Some t else Some b
  | None => Some t
  end.

Definition match_added (t : BpeTokenizer) (text : list Z) : option AddedToken :=
  foldl longer None (filter (fun a => Is_true (starts_with text (at_content a))) (added_tokens t)).

(** ** The pre-tokenizer *)
Section pretokenize.
Context (is_alpha is_num : Z -> bool).

Definition ascii_lower (c : Z) : Z := if between 0x41 0x5A c then c + 32 else c.

Definition CONT : list (list Z) := [str "'s"; str "'t"; str "'re"; str "'ve"; str "'m"; str "'ll"; str "'d"].

(** The first contraction [chars] starts with, ASCII case aside. *)
Fixpoint contraction (cs : list (list Z)) (chars : list Z) : option nat :=
  match cs with
  | [] => None
  | c :: cs =>
    if Nat.leb (length c) (length chars) && bool_decide ((ascii_lower <$> take (length c) chars) = (ascii_lower <$> c))
    then Some (length c) else contraction cs chars
  end.

Definition is_newline (c : Z) : bool := (c =? 0x0D) || (c =? 0x0A).

(** [while k > 0 && chars[k - 1] is no newline { k -= 1 }] *)
Fixpoint back_to_newline (k : nat) (chars : list Z) : nat :=
  match k with
  | O => O
  | S k' => if from_option is_newline false (chars !! k') then k else back_to_newline k' chars
  end.

(** [while i > 0]: the longest run of [i] not followed by a non-space. *)
Fixpoint back_to_space (i : nat) (chars : list Z) : nat :=
  match i with
  | O => O
  | S i' => if from_option is_whitespace true (chars !! i) then i else back_to_space i' chars
  end.

(** Alternatives 2 to 7, on the characters from the position on. *)
Definition alt2 (chars : list Z) : option nat :=
  match chars with
  | c :: more =>
    if is_alpha c then Some (count_while is_alpha chars)
    else if negb (is_newline c) && negb (is_num c) && from_option is_alpha false (head more)
    then Some (S (count_while is_alpha more))
    else None
  | [] => None
  end.

Definition alt4 (chars : list Z) : option nat :=
  let space := if bool_decide (head chars = Some 0x20) then 1%nat else 0%nat in
  let punct := count_while (fun c => negb (is_whitespace c) && negb (is_alpha c) && negb (is_num c)) (drop space chars) in
  if Nat.ltb 0 punct
  then Some (space + punct + count_while is_newline (drop (space + punct) chars))%nat
  else None.

Definition alt5 (chars : list Z) : option nat :=
  match back_to_newline (count_while is_whitespace chars) chars with O => None | k => Some k end.

Definition alt6 (chars : list Z) : option nat :=
  match back_to_space (count_while is_whitespace chars) chars with O => None | i => Some i end.

Definition match_alternative (chars : list Z) : nat :=
  match contraction CONT chars with
  | Some n => n
  | None =>
    match alt2 chars with
    | Some n => n
    | None =>
      if from_option is_num false (head chars) then 1%nat
      else
        match alt4 chars with
        | Some n => n
        | None =>
          match alt5 chars with
          | Some n => n
          | None => match alt6 chars with Some n => n | None => count_while is_whitespace chars end
          end
        end
    end
  end.

Fixpoint pretokenize_loop (fuel : nat) (chars : list Z) : outcome unit (list (list Z)) :=
  match chars with
  | [] => Ok []
  | _ =>
    match fuel with
    | O => Err tt
    | S fuel =>
      let len := match_alternative chars in
      out ← pretokenize_loop fuel (drop len chars);
      Ok (take len chars :: out)
    end
  end.

Definition gpt2_pretokenize (s : list Z) : outcome unit (list (list Z)) := pretokenize_loop (length s) s.

(** ** Byte-pair merges *)

Definition byte_encode (s : list Z) : outcome unit (list Z) := mapM (fun b => idx bytes_to_unicode b) (utf8 s).

(** The adjacent pair with the lowest rank, the first of them, among those from [i] on. *)
Fixpoint best_pair (merges : gmap (list Z * list Z) Z) (i : nat) (best : option (nat * Z)) (tokens : list (list Z))
    : option (nat * Z) :=
  match tokens with
  | a :: ((b :: _) as tokens') =>
    let best :=
      match merges !! (a, b) with
      | Some rank =>
        match best with
        | Some (_, r) => if rank <? r then Some (i, rank) else best
        | None => Some (i, rank)
        end
      | None => best
      end in
    best_pair merges (S i) best tokens'
  | _ => best
  end.

(** [tokens[i] = tokens[i] ++ tokens[i + 1]; tokens.remove(i + 1)] *)
Definition merge_at (i : nat) (tokens : list (list Z)) : list (list Z) :=
  match tokens !! i, tokens !! S i with
  | Some a, Some b => take i tokens ++ (a ++ b) :: drop (i + 2) tokens
  | _, _ => tokens
  end.

Fixpoint bpe_loop (fuel : nat) (merges : gmap (list Z * list Z) Z) (tokens : list (list Z)) : outcome unit (list (list Z)) :=
  match best_pair merges 0 None tokens with
  | None => Ok tokens
  | Some (i, _) =>
    match fuel with O => Err tt | S fuel => bpe_loop fuel merges (merge_at i tokens) end
  end.

Definition bpe_merge (word : list Z) (merges : gmap (list Z * list Z) Z) : outcome unit (list (list Z)) :=
  bpe_loop (length word) merges ((fun c => [c]) <$> word).

Definition token_id (t : BpeTokenizer) (token : list Z) : outcome unit Z :=
  match vocab t !! token with Some id => Ok id | None => Panic end.

Definition encode_segment (t : BpeTokenizer) (segment : list Z) : outcome unit (list Z) :=
  raws ← gpt2_pretokenize segment;
  ids ← mapM (fun raw => word ← byte_encode raw; tokens ← bpe_merge word (merges t); mapM (token_id t) tokens) raws;
  Ok (concat ids).

(** [if !pending.is_empty() { encode_segment }] *)
Definition flush_segment (t : BpeTokenizer) (pending : list Z) : outcome unit (list Z) :=
  match pending with [] => Ok [] | _ => encode_segment t pending end.

Fixpoint encode_loop (fuel : nat) (t : BpeTokenizer) (ids pending rest : list Z) : outcome unit (list Z) :=
  match rest with
  | [] => seg ← flush_segment t pending; Ok (ids ++ seg)
  | c :: more =>
    match fuel with
    | O => Err tt
    | S fuel =>
      match match_added t rest with
      | Some tok =>
        seg ← flush_segment t pending;
        encode_loop fuel t (ids ++ seg ++ [at_id tok]) [] (drop (length (at_content tok)) rest)
      | None => encode_loop fuel t ids (pending ++ [c]) more
      end
    end
  end.

Definition encode (t : BpeTokenizer) (text : list Z) : outcome unit (list Z) := encode_loop (length text) t [] [] text.

End pretokenize.

(** ** Decoding *)

Definition decode_token (token : list Z) : list Z :=
  concat ((fun c => match unicode_to_bytes !! c with Some b => [b] | None => utf8_char c end) <$> token).

Definition decode_id (t : BpeTokenizer) (id : Z) : list Z :=
  match list_find (fun a => at_id a = id) (added_tokens t) with
  | Some (_, a) => if at_special a then [] else utf8 (at_content a)
  | None => match id_to_token t !! id with Some token => decode_token token | None => [] end
  end.

Definition decode_bytes (t : BpeTokenizer) (ids : list Z) : list Z := concat (decode_id t <$> ids).

Definition decode (t : BpeTokenizer) (ids : list Z) : list Z := from_utf8_lossy (decode_bytes t ids).

(** ** Loading *)

Inductive LoadError :=
| NotJson (e : JsonError)
| NotAnObject
| NotAnArray
| Missing (key : list Z)
| VocabIdNotInt
| MergeNotAPair
| MergeTokenNotStr
| AddedIdNotInt
| AddedContentNotStr.

Section load.
Context {F : Type} `{!Float64 F}.

Definition obj_map (v : JsonValue F) : outcome LoadError (list (list Z * JsonValue F)) :=
  match v with Object m => Ok m | _ => Err NotAnObject end.

Definition obj_get (v : JsonValue F) (key : list Z) : outcome LoadError (JsonValue F) :=
  m ← obj_map v;
  '(_, e) ← ok_or (list_find (fun e => e.1 = key) m) (Missing key);
  Ok (snd e).

Definition arr_items (v : JsonValue F) : outcome LoadError (list (JsonValue F)) :=
  match v with Array a => Ok a | _ => Err NotAnArray end.

(** [Int(n) => n as u32] *)
Definition as_u32_id (v : JsonValue F) (e : LoadError) : outcome LoadError Z :=
  match v with Int n => Ok (n mod 2 ^ 32) | _ => Err e end.

Definition load_merge (m : JsonValue F) : outcome LoadError (list Z * list Z) :=
  pair ← arr_items m;
  match pair with
  | [a; b] =>
    a ← ok_or (as_str a) MergeTokenNotStr;
    b ← ok_or (as_str b) MergeTokenNotStr;
    Ok (a, b)
  | _ => Err MergeNotAPair
  end.

Definition load_added (t : JsonValue F) : outcome LoadError AddedToken :=
  id ← obj_get t (str "id");
  id ← as_u32_id id AddedIdNotInt;
  content ← obj_get t (str "content");
  content ← ok_or (as_str content) AddedContentNotStr;
  special ← obj_get t (str "special");
  Ok {| at_content := content; at_id := id; at_special := match special with Bool true => true | _ => false end |}.

(** [from_tokenizer_json], on the text of the file. *)
Definition from_tokenizer_json (text : list Z) : outcome LoadError BpeTokenizer :=
  doc ← map_err NotJson (parse text);
  model ← obj_get doc (str "model");
  vocab ← obj_get model (str "vocab");
  vocab ← obj_map vocab;
  vmap ← fold_try (fun m '(tok, id) => id ← as_u32_id id VocabIdNotInt; Ok (<[tok := id]> m)) ∅ vocab;
  merges ← obj_get model (str "merges");
  merges ← arr_items merges;
  mlist ← mapM load_merge merges;
  added ← obj_get doc (str "added_tokens");
  added ← arr_items added;
  atoks ← mapM load_added added;
  Ok (from_parts vmap mlist atoks).

End load.
