(* ===== verification/TokenizerProofs.v ===== *)
(** The tokenizer loses nothing: whatever the merges and the Unicode tables, encoding a
    text over a byte-complete vocabulary returns, and decoding gives the text back. *)
From Stdlib Require Import ZArith Lia Bool.
From stdpp Require Import base list gmap strings.
From S2P Require Import Prelude Utf8 Scan Json Tokenizer.

(** * The pre-tokenizer *)
Section pretokenize.
Context (is_alpha is_num : Z -> bool).

Lemma contraction_pos cs chars n : Forall (fun c => c <> []) cs -> contraction cs chars = Some n -> (0 < n)%nat.
Proof.
  induction 1 as [|c cs Hc _ IH]; [done|]. cbn. destruct (_ && _); [|done]. intros [= <-]. destruct c; [done|cbn; lia].
Qed.

Lemma count_while_head f c chars : f c = true -> (0 < count_while f (c :: chars))%nat.
Proof. intros H. cbn. rewrite H. lia. Qed.

(** Some alternative matches at every character. *)
Lemma match_alternative_pos chars : chars <> [] -> (0 < match_alternative is_alpha is_num chars)%nat.
Proof.
  intros Hne. unfold match_alternative. destruct (contraction CONT chars) as [n|] eqn:Hc.
  { eapply contraction_pos; [|done]. by repeat constructor. }
  destruct chars as [|c more]; [done|]. destruct (alt2 is_alpha is_num (c :: more)) as [n|] eqn:H2.
  { cbn in H2. destruct (is_alpha c) eqn:Ha; [injection H2 as <-; rewrite ?Ha; lia|].
    destruct (_ && _); [|done]. injection H2 as <-. lia. }
  cbn [head from_option]. destruct (is_num c) eqn:Hn; [lia|].
  destruct (alt4 is_alpha is_num (c :: more)) as [n|] eqn:H4.
  { unfold alt4 in H4. set (space := if bool_decide _ then _ else _) in H4.
    set (punct := count_while _ (drop space _)) in H4. clearbody space punct.
    destruct (Nat.ltb_spec 0 punct); [|done]. injection H4 as <-. lia. }
  destruct (alt5 (c :: more)) as [n|] eqn:H5.
  { unfold alt5 in H5. destruct (back_to_newline _ _); [done|]. injection H5 as <-. lia. }
  destruct (alt6 (c :: more)) as [n|] eqn:H6.
  { unfold alt6 in H6. destruct (back_to_space _ _); [done|]. injection H6 as <-. lia. }
  apply count_while_head. destruct (is_whitespace c) eqn:Hw; [done|]. exfalso.
  assert (is_alpha c = false) as Ha by (cbn in H2; by destruct (is_alpha c)).
  revert H4. unfold alt4. cbn [head]. rewrite bool_decide_false by (intros [= ->]; done).
  cbn [drop count_while]. rewrite Hw, Ha, Hn. done.
Qed.

Lemma pretokenize_loop_ok fuel chars : (length chars <= fuel)%nat ->
  exists out, pretokenize_loop is_alpha is_num fuel chars = Ok out /\ concat out = chars.
Proof.
  revert chars. induction fuel as [|fuel IH]; intros chars Hf; (destruct chars as [|c more]; [by exists []|]); [cbn in Hf; lia|].
  cbn [pretokenize_loop]. pose proof (match_alternative_pos (c :: more) ltac:(done)) as Hp.
  set (n := match_alternative _ _ _) in *.
  destruct (IH (drop n (c :: more))) as (out & -> & Hout); [rewrite length_drop; cbn in *; lia|].
  eexists. split; [reflexivity|]. cbn [concat]. by rewrite Hout, take_drop.
Qed.

Lemma gpt2_pretokenize_ok s : exists out, gpt2_pretokenize is_alpha is_num s = Ok out /\ concat out = s.
Proof. by apply pretokenize_loop_ok. Qed.

End pretokenize.

(** * Merges *)
Section merge.
Context (merges : gmap (list Z * list Z) Z).

Lemma best_pair_spec i best tokens j r : best_pair merges i best tokens = Some (j, r) ->
  best = Some (j, r) \/
  (i <= j)%nat /\ exists a b, tokens !! (j - i)%nat = Some a /\ tokens !! S (j - i) = Some b /\ merges !! (a, b) = Some r.
Proof.
  revert i best. induction tokens as [|a [|b tokens] IH]; intros i best; [by left|by left|].
  cbn [best_pair]. intros H. apply IH in H as [H|(Hij & a' & b' & Ha & Hb & Hm)].
  - destruct (merges !! (a, b)) as [rank|] eqn:Hm; [|by left].
    assert (Some (i, rank) = Some (j, r) -> (i <= j)%nat /\ exists a0 b0, (a :: b :: tokens) !! (j - i)%nat = Some a0 /\
      (a :: b :: tokens) !! S (j - i) = Some b0 /\ merges !! (a0, b0) = Some r) as Hnew.
    { intros [= -> ->]. split; [lia|]. exists a, b. by rewrite Nat.sub_diag. }
    destruct best as [[k r']|]; [destruct (rank <? r')|]; auto.
  - right. split; [lia|]. exists a', b'. replace (j - i)%nat with (S (j - S i)) by lia. done.
Qed.

Lemma merge_at_spec i tokens a b : tokens !! i = Some a -> tokens !! S i = Some b ->
  tokens = take i tokens ++ a :: b :: drop (i + 2) tokens /\ merge_at i tokens = take i tokens ++ (a ++ b) :: drop (i + 2) tokens.
Proof.
  intros Ha Hb. split; [|unfold merge_at; by rewrite Ha, Hb].
  rewrite <- (take_drop_middle tokens i a Ha) at 1. f_equal. f_equal.
  replace (i + 2)%nat with (S (S i)) by lia. by rewrite <- (drop_S tokens b (S i) Hb).
Qed.

Lemma bpe_loop_ok (P : list Z -> Prop) fuel tokens : (length tokens <= fuel)%nat ->
  (forall x y r, merges !! (x, y) = Some r -> P (x ++ y)) -> Forall P tokens ->
  exists out, bpe_loop fuel merges tokens = Ok out /\ concat out = concat tokens /\ Forall P out /\
    best_pair merges 0 None out = None.
Proof.
  intros Hf HP. revert tokens Hf. induction fuel as [|fuel IH]; intros tokens Hf Hall; cbn [bpe_loop].
  - destruct tokens; [|cbn in Hf; lia]. by exists [].
  - destruct (best_pair merges 0 None tokens) as [[i r]|] eqn:Hbest; [|by exists tokens].
    apply best_pair_spec in Hbest as [|(_ & a & b & Ha & Hb & Hm)]; [done|]. rewrite Nat.sub_0_r in Ha, Hb.
    destruct (merge_at_spec i tokens a b Ha Hb) as [Htok ->].
    set (pre := take i tokens) in *. set (suf := drop (i + 2) tokens) in *. clearbody pre suf. subst tokens.
    rewrite length_app in Hf. cbn in Hf. apply Forall_app in Hall as [H1 H2].
    apply Forall_cons in H2 as [_ H2]. apply Forall_cons in H2 as [_ H2].
    destruct (IH (pre ++ (a ++ b) :: suf)) as (out & Hout & Hc & HPo & Hend).
    + rewrite length_app. cbn. lia.
    + apply Forall_app. split; [done|]. constructor; [by eapply HP|done].
    + exists out. split; [done|]. split; [|done]. rewrite Hc, !concat_app. cbn. by rewrite <- app_assoc.
Qed.

Lemma concat_singletons (l : list Z) : concat ((fun c => [c]) <$> l) = l.
Proof. induction l as [|c l IH]; [done|]. cbn. by rewrite IH. Qed.

Lemma bpe_merge_ok (P : list Z -> Prop) word :
  (forall x y r, merges !! (x, y) = Some r -> P (x ++ y)) -> Forall (fun c => P [c]) word ->
  exists out, bpe_merge word merges = Ok out /\ concat out = word /\ Forall P out /\ best_pair merges 0 None out = None.
Proof.
  intros HP Hw. destruct (bpe_loop_ok P (length word) ((fun c => [c]) <$> word)) as (out & Hout & Hc & HPo & Hend).
  - by rewrite length_fmap.
  - done.
  - by apply Forall_fmap.
  - exists out. split; [done|]. by rewrite Hc, concat_singletons.
Qed.

End merge.

(** * Bytes and their characters *)
Lemma utf8_char_bytes c : scalar c -> Forall is_byte (utf8_char c).
Proof.
  unfold scalar, utf8_char, is_byte. intros Hc. pose proof (mod64 c). pose proof (mod64 (c / 64)). pose proof (mod64 (c / 4096)).
  destruct (Z.ltb_spec c 0x80); [|destruct (Z.ltb_spec c 0x800); [|destruct (Z.ltb_spec c 0x10000)]]; repeat constructor; try lia.
  all: first [apply Z.div_pos; lia | assert (c / 64 < 32) by (apply Z.div_lt_upper_bound; lia); lia
    | assert (c / 4096 < 16) by (apply Z.div_lt_upper_bound; lia); lia
    | assert (c / 262144 < 8) by (apply Z.div_lt_upper_bound; lia); lia | idtac].
  all: assert (0 <= c / 64 /\ 0 <= c / 4096 /\ 0 <= c / 262144) as (? & ? & ?) by (split_and!; apply Z.div_pos; lia); lia.
Qed.

Lemma utf8_bytes s : Forall scalar s -> Forall is_byte (utf8 s).
Proof. induction 1; [constructor|]. rewrite utf8_cons. apply Forall_app. auto using utf8_char_bytes. Qed.

Definition b2u (b : Z) : Z := default 0 (bytes_to_unicode !! Z.to_nat b).

Lemma b2u_table : forallb (fun b => bool_decide (bytes_to_unicode !! Z.to_nat b = Some (b2u b)) &&
  bool_decide (unicode_to_bytes !! b2u b = Some b) && bool_decide (b2u b ∈ bytes_to_unicode)) (seqZ 0 256) = true.
Proof. vm_compute. reflexivity. Qed.

Lemma b2u_spec b : is_byte b -> bytes_to_unicode !! Z.to_nat b = Some (b2u b) /\ unicode_to_bytes !! b2u b = Some b /\
  b2u b ∈ bytes_to_unicode.
Proof.
  intros Hb. pose proof b2u_table as H. rewrite forallb_forall in H.
  assert (b ∈ seqZ 0 256) as Hi%list_elem_of_In by (apply elem_of_seqZ; unfold is_byte in Hb; lia).
  apply H in Hi. rewrite !andb_true_iff, !bool_decide_eq_true in Hi. tauto.
Qed.

Lemma byte_encode_ok raw : Forall scalar raw -> byte_encode raw = Ok (b2u <$> utf8 raw).
Proof.
  intros Hs%utf8_bytes. unfold byte_encode. induction Hs as [|b l Hb Hl IH]; [done|].
  apply mapM_cons. exists (b2u b), (b2u <$> l). split_and!; [|exact IH|done].
  destruct (b2u_spec b Hb) as (H1 & _). unfold idx, is_byte in *. by rewrite (proj2 (Z.ltb_ge _ _)), H1 by lia.
Qed.

Lemma decode_token_app a b : decode_token (a ++ b) = decode_token a ++ decode_token b.
Proof. unfold decode_token. by rewrite fmap_app, concat_app. Qed.

Lemma decode_token_cons c l : decode_token (c :: l) = decode_token [c] ++ decode_token l.
Proof. exact (decode_token_app [c] l). Qed.

Lemma decode_token_concat tokens : decode_token (concat tokens) = concat (decode_token <$> tokens).
Proof. induction tokens as [|x l IH]; [done|]. cbn [concat fmap list_fmap]. by rewrite decode_token_app, IH. Qed.

Lemma decode_token_b2u l : Forall is_byte l -> decode_token (b2u <$> l) = l.
Proof.
  induction 1 as [|b l Hb Hl IH]; [done|]. rewrite fmap_cons, decode_token_cons, IH.
  unfold decode_token. cbn. destruct (b2u_spec b Hb) as (_ & -> & _). done.
Qed.

(** * Encoding and decoding *)

(** Ids name one token each, and no added token's. *)
Definition ids_ok (t : BpeTokenizer) : Prop :=
  (forall token id, vocab t !! token = Some id ->
     id_to_token t !! id = Some token /\ Forall (fun a => at_id a <> id) (added_tokens t)) /\
  NoDup (at_id <$> added_tokens t).

(** Every byte has a token, and every merge makes one. *)
Definition byte_complete (t : BpeTokenizer) : Prop :=
  Forall (fun c => is_Some (vocab t !! [c])) bytes_to_unicode /\
  forall x y r, merges t !! (x, y) = Some r -> is_Some (vocab t !! (x ++ y)).

(** No special token, and no empty one, matches anywhere in the text. *)
Definition plain (t : BpeTokenizer) (text : list Z) : Prop :=
  Forall (fun k => from_option (fun a => negb (at_special a) && negb (bool_decide (at_content a = []))) true
                     (match_added t (drop k text)) = true) (seq 0 (length text)).

Lemma plain_here t c text a : plain t (c :: text) -> match_added t (c :: text) = Some a ->
  at_special a = false /\ at_content a <> [].
Proof.
  intros Hp Ha. unfold plain in Hp. cbn [length seq] in Hp. apply Forall_inv in Hp. cbn [drop] in Hp.
  rewrite Ha in Hp. cbn in Hp. apply andb_true_iff in Hp as [H1%negb_true_iff H2%negb_true_iff%bool_decide_eq_false]. done.
Qed.

Lemma plain_drop t text n : plain t text -> plain t (drop n text).
Proof.
  intros Hp. unfold plain in *. rewrite length_drop. apply Forall_forall. intros k Hk%elem_of_seq.
  eapply Forall_forall in Hp; [|apply elem_of_seq; shelve]. rewrite drop_drop. exact Hp. Unshelve. lia.
Qed.

Lemma match_added_spec t text a : match_added t text = Some a ->
  a ∈ added_tokens t /\ text = at_content a ++ drop (length (at_content a)) text.
Proof.
  unfold match_added. set (l := filter _ _).
  assert (Forall (fun a => a ∈ added_tokens t /\ text = at_content a ++ drop (length (at_content a)) text) l) as Hl.
  { apply Forall_forall. intros x [Hs Hx]%list_elem_of_filter. split; [done|]. apply Is_true_true in Hs.
    unfold starts_with in Hs. apply bool_decide_eq_true in Hs. rewrite <- Hs at 1. by rewrite take_drop. }
  clearbody l. intros H.
  assert (forall best, (forall b, best = Some b -> b ∈ added_tokens t /\ text = at_content b ++ drop (length (at_content b)) text) ->
    foldl longer best l = Some a -> a ∈ added_tokens t /\ text = at_content a ++ drop (length (at_content a)) text) as Hgen.
  { clear H. induction Hl as [|x l Hx Hl IH]; intros best Hb; cbn [foldl]; [apply Hb|]. apply IH.
    intros b. unfold longer. destruct best as [b'|]; [destruct (_ <=? _)|]; intros [= <-]; auto. }
  by apply (Hgen None).
Qed.

Lemma decode_added t a : ids_ok t -> a ∈ added_tokens t -> at_special a = false ->
  decode_id t (at_id a) = utf8 (at_content a).
Proof.
  intros [_ Hnd] Ha Hsp. unfold decode_id. apply list_elem_of_lookup_1 in Ha as [i Hi].
  rewrite (proj2 (list_find_Some _ _ i a)); [by rewrite Hsp|]. split_and!; [done|done|].
  intros j y Hj Hlt Heq. enough (j = i) by lia. eapply (NoDup_lookup _ j i (at_id a) Hnd); rewrite list_lookup_fmap.
  - by rewrite Hj, <- Heq.
  - by rewrite Hi.
Qed.

Lemma decode_vocab t token id : ids_ok t -> vocab t !! token = Some id -> decode_id t id = decode_token token.
Proof.
  intros [Hv _] Hid. apply Hv in Hid as [Htok Hno]. unfold decode_id.
  rewrite (proj2 (list_find_None _ _)); [by rewrite Htok|]. exact Hno.
Qed.

Lemma decode_bytes_app t a b : decode_bytes t (a ++ b) = decode_bytes t a ++ decode_bytes t b.
Proof. unfold decode_bytes. by rewrite fmap_app, concat_app. Qed.

Section encode.
Context (is_alpha is_num : Z -> bool) (t : BpeTokenizer).
Context (Hids : ids_ok t) (Hbc : byte_complete t).

Lemma token_ids tokens : Forall (fun k => is_Some (vocab t !! k)) tokens ->
  exists ids, mapM (token_id t) tokens = Ok ids /\ decode_bytes t ids = decode_token (concat tokens).
Proof.
  induction 1 as [|k tokens [id Hid] _ (ids & Hm & Hd)]; [by exists []|].
  exists (id :: ids). split.
  - apply mapM_cons. exists id, ids. unfold token_id. by rewrite Hid.
  - cbn [concat]. rewrite decode_token_app, <- Hd. unfold decode_bytes. cbn. by rewrite (decode_vocab t k id).
Qed.

Lemma encode_raw raw : Forall scalar raw ->
  exists ids, (word ← byte_encode raw; tokens ← bpe_merge word (merges t); mapM (token_id t) tokens) = Ok ids /\
    decode_bytes t ids = utf8 raw.
Proof.
  intros Hs. rewrite byte_encode_ok by done. cbn [mbind outcome_bind]. destruct Hbc as [Hb Hm].
  pose proof (utf8_bytes raw Hs) as Hbytes.
  destruct (bpe_merge_ok (merges t) (fun k => is_Some (vocab t !! k)) (b2u <$> utf8 raw)) as (tokens & -> & Hc & Hv & _).
  - done.
  - apply Forall_fmap. eapply Forall_impl; [exact Hbytes|]. intros b (_ & _ & Hin)%b2u_spec. cbn.
    by eapply Forall_forall in Hb.
  - cbn [mbind outcome_bind]. destruct (token_ids tokens Hv) as (ids & -> & Hd). exists ids. split; [done|].
    by rewrite Hd, Hc, decode_token_b2u.
Qed.

Lemma encode_segment_ok s : Forall scalar s ->
  exists ids, encode_segment is_alpha is_num t s = Ok ids /\ decode_bytes t ids = utf8 s.
Proof.
  intros Hs. unfold encode_segment. destruct (gpt2_pretokenize_ok is_alpha is_num s) as (raws & -> & Hc).
  cbn [mbind outcome_bind]. rewrite <- Hc in Hs |- *. clear Hc s.
  enough (exists idss, mapM (fun raw => word ← byte_encode raw; tokens ← bpe_merge word (merges t); mapM (token_id t) tokens) raws
    = Ok idss /\ decode_bytes t (concat idss) = utf8 (concat raws)) as (idss & -> & Hd) by (by exists (concat idss)).
  induction raws as [|raw raws IH]; [by exists []|]. cbn [concat] in *. apply Forall_app in Hs as [H1 H2].
  destruct (encode_raw raw H1) as (ids & Hi & Hd). destruct (IH H2) as (idss & Hm & Hds).
  exists (ids :: idss). split; [apply mapM_cons; by exists ids, idss|].
  cbn [concat]. by rewrite decode_bytes_app, utf8_app, Hd, Hds.
Qed.

Lemma flush_segment_ok s : Forall scalar s ->
  exists ids, flush_segment is_alpha is_num t s = Ok ids /\ decode_bytes t ids = utf8 s.
Proof. intros Hs. destruct s; [by exists []|]. by apply encode_segment_ok. Qed.

Lemma encode_loop_ok fuel ids pending rest : Forall scalar pending -> Forall scalar rest -> plain t rest ->
  (length rest <= fuel)%nat ->
  exists ids', encode_loop is_alpha is_num fuel t ids pending rest = Ok ids' /\
    decode_bytes t ids' = decode_bytes t ids ++ utf8 pending ++ utf8 rest.
Proof.
  revert ids pending rest. induction fuel as [|fuel IH]; intros ids pending rest Hp Hr Hpl Hf;
    (destruct rest as [|c more]; [|]).
  1,3: destruct (flush_segment_ok pending Hp) as (seg & Hs & Hd); cbn [encode_loop]; rewrite Hs;
    eexists; (split; [reflexivity|]); by rewrite decode_bytes_app, Hd, app_nil_r.
  - cbn in Hf. lia.
  - cbn [encode_loop]. destruct (match_added t (c :: more)) as [a|] eqn:Ha.
    + destruct (plain_here t c more a Hpl Ha) as [Hsp Hne]. destruct (match_added_spec _ _ _ Ha) as [Hin Htext].
      destruct (flush_segment_ok pending Hp) as (seg & -> & Hd). cbn [mbind outcome_bind].
      set (rest := drop (length (at_content a)) (c :: more)) in *.
      assert (Forall scalar (at_content a) /\ Forall scalar rest) as [_ Hr'] by (rewrite Htext in Hr; by apply Forall_app).
      destruct (IH (ids ++ seg ++ [at_id a]) [] rest) as (ids' & Hi & Hdi); [constructor|done|by apply plain_drop| |].
      { unfold rest. rewrite length_drop. destruct (at_content a); [done|]. cbn in *. lia. }
      assert (decode_bytes t [at_id a] = utf8 (at_content a)) as Ha1
        by (unfold decode_bytes; cbn [fmap list_fmap concat]; by rewrite decode_added, app_nil_r).
      exists ids'. split; [done|]. rewrite Hdi, !decode_bytes_app, Hd, Ha1. rewrite Htext, utf8_app.
      by rewrite <- !app_assoc.
    + apply Forall_cons in Hr as [Hc Hr].
      destruct (IH ids (pending ++ [c]) more) as (ids' & Hi & Hdi);
        [by apply Forall_app; auto|done|by apply (plain_drop t (c :: more) 1)|cbn in Hf; lia|].
      exists ids'. split; [done|]. rewrite Hdi, utf8_app, (utf8_cons c more), <- app_assoc.
      rewrite (utf8_cons c []). change (utf8 []) with (@nil Z). by rewrite app_nil_r.
Qed.

End encode.

(** [from_parts] over a vocabulary whose ids are distinct. *)
Lemma from_parts_ids vocab merges added token id :
  (forall k k' v, vocab !! k = Some v -> vocab !! k' = Some v -> k = k') ->
  vocab !! token = Some id -> id_to_token (from_parts vocab merges added) !! id = Some token.
Proof.
  intros Hinj Hid. cbn. apply elem_of_list_to_map_1'.
  - intros y ([k v] & [= -> ->] & Hk%elem_of_map_to_list)%list_elem_of_fmap. by eapply Hinj.
  - apply list_elem_of_fmap. exists (token, id). split; [done|]. by apply elem_of_map_to_list.
Qed.

(** * The theorems *)

(** C25: encoding returns, and decoding what it returns gives the text back: for any text
    in which no special token occurs, any merges, any Unicode tables behind the
    pre-tokenizer, and any vocabulary that has the 256 bytes and the merges' results. *)
Theorem tokenizer_roundtrip (is_alpha is_num : Z -> bool) (t : BpeTokenizer) (text : list Z) :
  ids_ok t -> byte_complete t -> Forall scalar text -> plain t text ->
  exists ids, encode is_alpha is_num t text = Ok ids /\ decode t ids = text.
Proof.
  intros Hids Hbc Hs Hp. unfold encode.
  destruct (encode_loop_ok is_alpha is_num t Hids Hbc (length text) [] [] text) as (ids & He & Hd); [constructor|done..|].
  exists ids. split; [done|]. unfold decode. rewrite Hd. cbn. by apply from_utf8_lossy_utf8.
Qed.

(** The 256 bytes, two merges and an added token. *)
Definition sample_vocab : gmap (list Z) Z :=
  list_to_map (zip ((fun c => [c]) <$> bytes_to_unicode) (seqZ 0 256) ++ [(str "he", 256); (str "hel", 257)]).

Definition sample_tokenizer : BpeTokenizer :=
  from_parts sample_vocab [(str "h", str "e"); (str "he", str "l")]
    [{| at_content := str "<think>"; at_id := 300; at_special := false |};
     {| at_content := str "<|im_end|>"; at_id := 301; at_special := true |}].

Lemma sample_ids : ids_ok sample_tokenizer.
Proof.
  split; [|by apply (bool_decide_unpack _); vm_compute].
  assert (map_Forall (fun token id => id_to_token sample_tokenizer !! id = Some token /\ id <> 300 /\ id <> 301) sample_vocab) as H
    by (apply (bool_decide_unpack _); vm_compute; done).
  intros token id Hid. destruct (H token id Hid) as (H1 & H2 & H3). split; [done|]. by repeat constructor.
Qed.

Lemma sample_complete : byte_complete sample_tokenizer.
Proof.
  split; [by apply (bool_decide_unpack _); vm_compute|].
  assert (map_Forall (fun p _ => is_Some (sample_vocab !! (fst p ++ snd p))) (merges sample_tokenizer)) as H
    by (apply (bool_decide_unpack _); vm_compute; done).
  intros x y r Hr. exact (H (x, y) r Hr).
Qed.

Lemma tokenizer_roundtrip_witness : exists ids,
  encode (fun c => between 0x61 0x7A c) (fun c => between 0x30 0x39 c) sample_tokenizer (str "hello <think> " ++ [0xE9; 0x1F600]) = Ok ids /\
  decode sample_tokenizer ids = str "hello <think> " ++ [0xE9; 0x1F600].
Proof.
  apply (tokenizer_roundtrip (fun c => between 0x61 0x7A c) (fun c => between 0x30 0x39 c) sample_tokenizer).
  - apply sample_ids.
  - apply sample_complete.
  - apply (bool_decide_unpack _). vm_compute. reflexivity.
  - apply (bool_decide_unpack _). vm_compute. reflexivity.
Defined.
