(* ===== verification/Streaming.v ===== *)
(** From tokens to text: the stop rules (src/crates/mimo26-coordinator/src/stop.rs), the
    token buffer of streaming.rs, and the decode loop of api.rs that emits the deltas of a
    completion.  Where the tokens come from (the scheduler's channel or the host path) is
    the list of them; a list that ends first is a request that fails.

    The decode loop: no stop sequence is ever part of what is emitted, and nothing else of
    the completion is lost, however the tokens cut characters and stop sequences. *)
From Stdlib Require Import ZArith Lia Bool.
From stdpp Require Import base list gmap strings.
From S2P Require Import Prelude Utf8 Scan Json ApiJson ChatTemplate Tokenizer TokenizerProofs.

(** * Definitions *)

Definition EOS_TOKEN_IDS : list Z := [151643; 151645; 151672].
Definition is_eos (id : Z) : bool := bool_decide (id ∈ EOS_TOKEN_IDS).

(** [text.ends_with(p)] *)
Definition ends_with (text p : list Z) : bool :=
  Nat.leb (length p) (length text) && bool_decide (drop (length text - length p) text = p).

Inductive StopReason :=
| Eos (token : Z)
| MaxTokens
| StopString (s : list Z).

Record StopConfig := { eos : list Z; max_tokens : Z; stop_strings : list (list Z) }.

Definition default_stop : StopConfig := {| eos := EOS_TOKEN_IDS; max_tokens := 65536; stop_strings := [] |}.

Definition check (c : StopConfig) (token generated : Z) (decoded : list Z) : option StopReason :=
  if is_eos token || bool_decide (token ∈ eos c) then Some (Eos token)
  else if max_tokens c <=? generated then Some MaxTokens
  else (fun e => StopString (snd e)) <$> list_find (fun s => s <> [] /\ ends_with decoded s = true) (stop_strings c).

Inductive violation := RewardArtifact | RoleMarker.

Definition check_output (out : list Z) : list violation :=
  (match find (str "REWARD:") out with Some _ => [RewardArtifact] | None => [] end) ++
  (match find IM_START out with Some _ => [RoleMarker] | None => [] end).

(** ** The token buffer *)

(** The text before the earliest stop sequence. *)
Definition earlier (text : list Z) (stop_at : option (list Z)) (s : list Z) : option (list Z) :=
  match s with
  | [] => stop_at
  | _ =>
    match find s text with
    | Some (before, _) =>
      match stop_at with
      | Some p => if Nat.ltb (length before) (length p) then Some before else stop_at
      | None => Some before
      end
    | None => stop_at
    end
  end.

Definition stop_at (stops : list (list Z)) (text : list Z) : option (list Z) := foldl (earlier text) None stops.

(** The text could still become [s]: it is the start of it, or ends with a start of it. *)
Definition partial_of (text s : list Z) : bool :=
  match s with
  | [] => false
  | _ =>
    let is_prefix_of_s := (Zlen (utf8 text) <? Zlen (utf8 s)) && starts_with s text in
    let ends_with_prefix := existsb (fun i => ends_with text (take (S i) s)) (seq 0 (length s - 1)) in
    is_prefix_of_s || ends_with_prefix
  end.

(** What to emit, whether a stop sequence was hit, and what is still pending. *)
Definition flush_pending (tok : BpeTokenizer) (stops : list (list Z)) (pending : list Z) : list Z * bool * list Z :=
  match pending with
  | [] => ([], false, [])
  | _ =>
    let bytes := decode_bytes tok pending in
    if bool_decide (utf8_error bytes = Some true) then ([], false, pending)
    else
      let text := from_utf8_lossy bytes in
      match stop_at stops text with
      | Some before => (before, true, [])
      | None => if existsb (partial_of text) stops then ([], false, pending) else (text, false, [])
      end
  end.

(** ** The decode loop *)
Record Generation := {
  deltas : list (list Z);
  full_text : list Z;
  pending : list Z;
  pushed_ids : list Z;
  completion : Z;
  finish : list Z
}.

(** [if !emit.is_empty() { emit_delta; full_text.push_str }] *)
Definition emit (d : list Z) (g : Generation) : Generation :=
  match d with
  | [] => g
  | _ => {| deltas := deltas g ++ [d]; full_text := full_text g ++ d; pending := pending g;
            pushed_ids := pushed_ids g; completion := completion g; finish := finish g |}
  end.

Definition set_pending (p ids : list Z) (g : Generation) : Generation :=
  {| deltas := deltas g; full_text := full_text g; pending := p; pushed_ids := ids; completion := completion g; finish := finish g |}.

Definition set_finish (reason : list Z) (g : Generation) : Generation :=
  {| deltas := deltas g; full_text := full_text g; pending := pending g; pushed_ids := pushed_ids g;
     completion := completion g; finish := reason |}.

Definition count_token (g : Generation) : Generation :=
  {| deltas := deltas g; full_text := full_text g; pending := pending g; pushed_ids := pushed_ids g;
     completion := completion g + 1; finish := finish g |}.

(** The loop, from the token [next] of [next :: tokens] on. *)
Fixpoint decode_loop (tok : BpeTokenizer) (stops : list (list Z)) (eos_ids : list Z) (max : Z) (g : Generation)
    (tokens : list Z) : option Generation :=
  match tokens with
  | [] => None
  | next :: tokens =>
    if bool_decide (next ∈ eos_ids) then Some (set_finish (str "stop") g)
    else
      let '(out, stopped, rest) := flush_pending tok stops (pending g ++ [next]) in
      let g := emit out (set_pending rest (pushed_ids g ++ [next]) g) in
      if stopped : bool then Some (set_finish (str "stop") g)
      else if max <=? completion g then Some g
      else decode_loop tok stops eos_ids max (count_token g) tokens
  end.

(** The loop and the tail flushed after it. *)
Definition generate (tok : BpeTokenizer) (stops : list (list Z)) (eos_ids : list Z) (max : Z) (tokens : list Z) : option Generation :=
  g ← decode_loop tok stops eos_ids max
        {| deltas := []; full_text := []; pending := []; pushed_ids := []; completion := 1; finish := str "length" |} tokens;
  Some (emit (decode tok (pending g)) g).

(** * Searching for stop sequences *)

Lemma starts_with_prefix l k w : starts_with l w = true -> starts_with (l ++ k) w = true.
Proof. intros H%starts_with_true. rewrite H, <- app_assoc. apply starts_with_app. Qed.

Lemma find_None_intro w l : w <> [] -> (forall i, (i < length l)%nat -> starts_with (drop i l) w = false) -> find w l = None.
Proof.
  intros Hw. induction l as [|c l IH]; intros H.
  - cbn. destruct w; [done|]. done.
  - rewrite find_cons by (apply (H 0%nat); cbn; lia). rewrite IH; [done|]. intros i Hi. apply (H (S i)). cbn. lia.
Qed.

Lemma find_at w l i : starts_with (drop i l) w = true -> (i <= length l)%nat ->
  exists a b, find w l = Some (a, b) /\ (length a <= i)%nat.
Proof.
  revert i. induction l as [|c l IH]; intros i Hs Hi.
  - cbn in Hi. replace i with 0%nat in Hs by lia. cbn [drop] in Hs. cbn [find]. rewrite Hs. eexists _, _. split; [reflexivity|cbn; lia].
  - cbn [find]. destruct (starts_with (c :: l) w) eqn:Hc; [eexists _, _; split; [reflexivity|cbn; lia]|].
    destruct i as [|i]; [cbn [drop] in Hs; congruence|].
    destruct (IH i Hs ltac:(cbn in Hi; lia)) as (a & b & -> & Ha). eexists _, _. split; [reflexivity|cbn; lia].
Qed.

(** ** The earliest stop *)
Lemma earlier_le text p s q : earlier text (Some p) s = Some q -> (length q <= length p)%nat.
Proof.
  unfold earlier. destruct s; [intros [= <-]; lia|]. destruct (find _ text) as [[b r]|]; [|intros [= <-]; lia].
  destruct (Nat.ltb_spec (length b) (length p)); intros [= <-]; lia.
Qed.

Lemma earlier_Some text p s : exists q, earlier text (Some p) s = Some q.
Proof. unfold earlier. destruct s; [eauto|]. destruct (find _ text) as [[b r]|]; [|eauto]. destruct (Nat.ltb _ _); eauto. Qed.

Lemma stop_fold_Some stops text p : exists q, foldl (earlier text) (Some p) stops = Some q /\ (length q <= length p)%nat.
Proof.
  revert p. induction stops as [|s stops IH]; intros p; cbn; [by exists p|].
  destruct (earlier_Some text p s) as [q Hq]. rewrite Hq. apply earlier_le in Hq.
  destruct (IH q) as (q' & -> & Hle). exists q'. split; [done|lia].
Qed.

(** No stop sequence is found before the place of [stop_at]. *)
Lemma stop_fold_min stops text acc s b r : s ∈ stops -> s <> [] -> find s text = Some (b, r) ->
  exists q, foldl (earlier text) acc stops = Some q /\ (length q <= length b)%nat.
Proof.
  intros Hs Hne Hf. revert acc. induction Hs as [s stops|s s' stops Hs IH]; intros acc; cbn [foldl]; [|by apply IH].
  assert (exists q, earlier text acc s = Some q /\ (length q <= length b)%nat) as (q & -> & Hq).
  { unfold earlier. destruct s; [done|]. rewrite Hf. destruct acc as [p|]; [|eauto].
    destruct (Nat.ltb_spec (length b) (length p)); [eauto|]. exists p. split; [done|lia]. }
  destruct (stop_fold_Some stops text q) as (q' & -> & Hle). exists q'. split; [done|lia].
Qed.

Lemma stop_at_None stops text s : stop_at stops text = None -> s ∈ stops -> s <> [] -> find s text = None.
Proof.
  intros Hn Hs Hne. destruct (find s text) as [[b r]|] eqn:Hf; [|done].
  destruct (stop_fold_min stops text None s b r Hs Hne Hf) as (q & Hq & _). unfold stop_at in Hn. congruence.
Qed.

Lemma stop_at_before stops text before s i : stop_at stops text = Some before -> s ∈ stops -> s <> [] ->
  (i < length before)%nat -> starts_with (drop i text) s = false.
Proof.
  intros Hb Hs Hne Hi. apply not_true_iff_false. intros Hm.
  destruct (Nat.le_gt_cases i (length text)) as [Hle|Hgt]; [|rewrite drop_ge in Hm by lia; by destruct s].
  destruct (find_at s text i Hm Hle) as (a & r & Hf & Ha).
  destruct (stop_fold_min stops text None s a r Hs Hne Hf) as (q & Hq & Hle'). unfold stop_at in Hb.
  rewrite Hb in Hq. injection Hq as <-. lia.
Qed.

(** What [stop_at] returns stands before a stop sequence. *)
Lemma stop_at_Some stops text before : stop_at stops text = Some before ->
  exists s r, s ∈ stops /\ s <> [] /\ text = before ++ s ++ r.
Proof.
  unfold stop_at. intros H.
  assert (forall acc all, (forall p, acc = Some p -> exists s r, s ∈ all ++ stops /\ s <> [] /\ text = p ++ s ++ r) ->
    foldl (earlier text) acc stops = Some before -> exists s r, s ∈ all ++ stops /\ s <> [] /\ text = before ++ s ++ r) as Hgen.
  { clear H. induction stops as [|s stops IH]; intros acc all Hacc H; cbn [foldl] in H; [by apply Hacc|].
    rewrite (cons_middle s all stops), app_assoc in Hacc |- *. apply (IH (earlier text acc s)); [|done].
    intros p. unfold earlier. destruct s as [|c s]; [apply Hacc|].
    destruct (find (c :: s) text) as [[b r]|] eqn:Hf; [|apply Hacc].
    assert (Some b = Some p -> exists s' r', s' ∈ (all ++ [c :: s]) ++ stops /\ s' <> [] /\ text = p ++ s' ++ r') as Hnew.
    { intros [= <-]. exists (c :: s), r. split; [set_solver|]. split; [done|]. by apply find_Some. }
    destruct acc as [q|]; [|exact Hnew]. destruct (Nat.ltb _ _); [exact Hnew|apply Hacc]. }
  apply (Hgen None []); done.
Qed.

(** * Safe text: no stop sequence can start in it, whatever follows *)
Section safe.
Context (stops : list (list Z)).

Definition safe (E : list Z) : Prop :=
  forall s i X, s ∈ stops -> s <> [] -> (i < length E)%nat -> starts_with (drop i E ++ X) s = false.

Lemma safe_app E T : safe E ->
  (forall s i X, s ∈ stops -> s <> [] -> (i < length T)%nat -> starts_with (drop i T ++ X) s = false) -> safe (E ++ T).
Proof.
  intros HE HT s i X Hs Hne Hi. rewrite length_app in Hi. destruct (Nat.lt_ge_cases i (length E)) as [Hlt|Hge].
  - rewrite drop_app_le, <- app_assoc by lia. by apply HE.
  - rewrite drop_app_ge by lia. apply HT; [done|done|lia].
Qed.

Lemma safe_no_stop E T s : safe E -> s ∈ stops -> s <> [] ->
  (forall i, (i < length T)%nat -> starts_with (drop i T) s = false) -> find s (E ++ T) = None.
Proof.
  intros HE Hs Hne HT. apply find_None_intro; [done|]. intros i Hi. rewrite length_app in Hi.
  destruct (Nat.lt_ge_cases i (length E)) as [Hlt|Hge].
  - rewrite drop_app_le by lia. by apply HE.
  - rewrite drop_app_ge by lia. apply HT. lia.
Qed.

Lemma partial_safe T s i X : s <> [] -> find s T = None -> partial_of T s = false -> (i < length T)%nat ->
  starts_with (drop i T ++ X) s = false.
Proof.
  intros Hne Hf Hp Hi. destruct (Nat.le_gt_cases (length s) (length (drop i T))) as [Hle|Hgt].
  { rewrite starts_with_short by done. by apply find_None_drop. }
  apply not_true_iff_false. intros Hm%starts_with_true. set (k := length (drop i T)) in *.
  assert (take k s = drop i T) as Ht.
  { transitivity (take k (drop i T ++ X)); [|apply take_app_length]. by rewrite Hm, take_app_le by lia. }
  unfold partial_of in Hp. destruct s as [|c s']; [done|]. apply orb_false_iff in Hp as [_ Hp].
  apply not_true_iff_false in Hp. apply Hp. apply existsb_exists.
  assert (k = length T - i)%nat as Hk by apply length_drop.
  exists (k - 1)%nat. rewrite <- list_elem_of_In. split; [apply elem_of_seq; cbn in Hgt |- *; lia|].
  replace (S (k - 1)) with k by lia. rewrite Ht. unfold ends_with. apply andb_true_iff. split.
  - apply Nat.leb_le. rewrite length_drop. lia.
  - apply bool_decide_true. rewrite length_drop. f_equal. lia.
Qed.

End safe.

Lemma utf8_split E R s : Forall scalar E -> Forall scalar s -> utf8 E ++ R = utf8 s -> exists s', s = E ++ s' /\ R = utf8 s'.
Proof.
  intros HE Hs Heq. assert (forall E, Forall scalar E -> from_utf8 (utf8 E ++ R) = app E <$> from_utf8 R) as Happ.
  { clear. induction 1 as [|c E Hc HE IH]; [cbn; by destruct (from_utf8 R)|].
    rewrite utf8_cons, <- app_assoc, from_utf8_char, IH by done. by destruct (from_utf8 R). }
  pose proof (Happ E HE) as H. rewrite Heq, from_utf8_utf8 in H by done.
  destruct (from_utf8 R) as [s'|]; [|done]. injection H as ->. exists s'. split; [done|].
  rewrite utf8_app in Heq. by apply app_inv_head in Heq.
Qed.

(** * The loop *)
Section loop.
Context (tok : BpeTokenizer) (stops : list (list Z)) (eos_ids : list Z) (max : Z).

(** What a flush emits and keeps, for pending bytes that are part of valid text. *)
Lemma flush_cases pend s B R : pend <> [] -> Forall scalar s -> decode_bytes tok pend = B -> B ++ R = utf8 s ->
  (utf8_error B = Some true /\ flush_pending tok stops pend = ([], false, pend)) \/
  exists T s2, s = T ++ s2 /\ B = utf8 T /\ R = utf8 s2 /\
    ((exists before, stop_at stops T = Some before /\ flush_pending tok stops pend = (before, true, [])) \/
     (stop_at stops T = None /\ existsb (partial_of T) stops = true /\ flush_pending tok stops pend = ([], false, pend)) \/
     (stop_at stops T = None /\ existsb (partial_of T) stops = false /\ flush_pending tok stops pend = (T, false, []))).
Proof.
  intros Hne Hs HB Heq. unfold flush_pending. rewrite HB. destruct pend as [|x pend]; [done|].
  destruct (utf8_error_prefix s B R Hs Heq) as [[Herr (T & s2 & Hs12 & HT & HR)]|Herr].
  - right. exists T, s2. split_and!; [done..|]. rewrite Herr, bool_decide_false by done.
    assert (Forall scalar T) as HsT by (rewrite Hs12 in Hs; by apply Forall_app in Hs as [? _]).
    rewrite HT, from_utf8_lossy_utf8 by done.
    destruct (stop_at stops T) as [before|]; [left; eauto|right].
    destruct (existsb (partial_of T) stops); auto.
  - left. split; [done|]. by rewrite Herr, bool_decide_true.
Qed.

(** The state between tokens: the emitted text and the pending bytes make up the bytes of
    the ids pushed, the emitted text is safe, and pending text that is whole holds no
    stop sequence. *)
Record loop_inv (g : Generation) : Prop := {
  inv_scalar : Forall scalar (full_text g);
  inv_bytes : utf8 (full_text g) ++ decode_bytes tok (pending g) = decode_bytes tok (pushed_ids g);
  inv_safe : safe stops (full_text g);
  inv_text : concat (deltas g) = full_text g;
  inv_pending : forall T, decode_bytes tok (pending g) = utf8 T -> Forall scalar T -> stop_at stops T = None
}.

(** How the loop ends: at a stop sequence, or with what is pending still to be sent. *)
Definition loop_end (s : list Z) (g : Generation) : Prop :=
  concat (deltas g) = full_text g /\
  ((exists stop r, stop ∈ stops /\ stop <> [] /\ s = full_text g ++ stop ++ r /\ pending g = [] /\
      forall w, w ∈ stops -> w <> [] -> find w (full_text g) = None) \/
   loop_inv g).

Lemma pushed_grows g tokens g' : decode_loop tok stops eos_ids max g tokens = Some g' ->
  exists ids, pushed_ids g' = pushed_ids g ++ ids.
Proof.
  revert g. induction tokens as [|next tokens IH]; intros g; cbn [decode_loop]; [done|].
  case_bool_decide; [intros [= <-]; exists []; by rewrite app_nil_r|].
  destruct (flush_pending _ _ _) as [[out stopped] rest].
  assert (pushed_ids (emit out (set_pending rest (pushed_ids g ++ [next]) g)) = pushed_ids g ++ [next]) as He by by destruct out.
  destruct stopped; [intros [= <-]; by eexists|]. destruct (max <=? _); [intros [= <-]; by eexists|].
  intros (ids & ->)%IH. cbn. rewrite He. exists (next :: ids). by rewrite <- app_assoc.
Qed.

Lemma emit_fields d g : full_text (emit d g) = full_text g ++ d /\ pending (emit d g) = pending g /\
  pushed_ids (emit d g) = pushed_ids g /\ concat (deltas (emit d g)) = concat (deltas g) ++ d.
Proof. destruct d; cbn -[concat]; [by rewrite !app_nil_r|]. rewrite concat_app. cbn. by rewrite app_nil_r. Qed.

Lemma inv_hold g next : loop_inv g ->
  (forall T, decode_bytes tok (pending g ++ [next]) = utf8 T -> Forall scalar T -> stop_at stops T = None) ->
  loop_inv (set_pending (pending g ++ [next]) (pushed_ids g ++ [next]) g).
Proof.
  intros [Hsc Hbytes Hsafe Htext Hpend] H. split; cbn [set_pending full_text pending pushed_ids deltas]; [done| |done|done|done].
  by rewrite !decode_bytes_app, app_assoc, Hbytes.
Qed.

Lemma stop_at_nil : stop_at stops [] = None.
Proof.
  destruct (stop_at stops []) as [b|] eqn:H; [|done]. apply stop_at_Some in H as (s & r & _ & Hs & H).
  symmetry in H. apply app_eq_nil in H as [_ H]. apply app_eq_nil in H as [-> _]. done.
Qed.

Lemma inv_flush g next T : loop_inv g -> Forall scalar T -> decode_bytes tok (pending g ++ [next]) = utf8 T ->
  stop_at stops T = None -> existsb (partial_of T) stops = false ->
  loop_inv (emit T (set_pending [] (pushed_ids g ++ [next]) g)).
Proof.
  intros [Hsc Hbytes Hsafe Htext Hpend] HT Hb Hn Hp.
  destruct (emit_fields T (set_pending [] (pushed_ids g ++ [next]) g)) as (Hft & Hpe & Hid & Hde).
  cbn [set_pending full_text pending pushed_ids deltas] in *.
  split; rewrite ?Hft, ?Hpe, ?Hid, ?Hde.
  - by apply Forall_app.
  - rewrite utf8_app, (decode_bytes_app tok (pushed_ids g)), <- Hbytes, <- !app_assoc, <- decode_bytes_app, Hb. f_equal.
    apply app_nil_r.
  - apply safe_app; [done|]. intros s i X Hs Hne Hi. apply partial_safe; [done|by apply stop_at_None with stops| |done].
    apply not_true_iff_false. intros Hps. apply not_true_iff_false in Hp. apply Hp. apply existsb_exists.
    exists s. rewrite <- list_elem_of_In. done.
  - by rewrite Htext.
  - intros [|c T'] HT'; [intros _; apply stop_at_nil|]. exfalso. symmetry in HT'. pose proof (utf8_length c T') as Hl.
    rewrite HT' in Hl. cbn in Hl. lia.
Qed.

Lemma decode_loop_ok s tokens g g' : Forall scalar s -> loop_inv g ->
  decode_loop tok stops eos_ids max g tokens = Some g' -> decode_bytes tok (pushed_ids g') = utf8 s -> loop_end s g'.
Proof.
  intros Hs. revert g. induction tokens as [|next tokens IH]; intros g Hinv; cbn [decode_loop]; [done|].
  case_bool_decide; [intros [= <-] _; split; [apply Hinv|right; by destruct Hinv]|].
  pose proof Hinv as [Hsc Hbytes Hsafe Htext Hpend].
  set (g1 := fun out rest => emit out (set_pending rest (pushed_ids g ++ [next]) g)).
  assert (forall out rest stopped, flush_pending tok stops (pending g ++ [next]) = (out, stopped, rest) ->
    (if stopped : bool then Some (set_finish (str "stop") (g1 out rest))
     else if max <=? completion (g1 out rest) then Some (g1 out rest)
     else decode_loop tok stops eos_ids max (count_token (g1 out rest)) tokens) = Some g' ->
    decode_bytes tok (pushed_ids g') = utf8 s -> loop_end s g') as Hgo.
  2: { destruct (flush_pending _ _ _) as [[out stopped] rest]. by apply Hgo. }
  intros out rest stopped Hflush Hrun Hall.
  destruct (emit_fields out (set_pending rest (pushed_ids g ++ [next]) g)) as (Hft & Hpe & Hid & Hde).
  fold (g1 out rest) in *. cbn [set_pending full_text pending pushed_ids deltas] in Hft, Hpe, Hid, Hde.
  assert (exists ids, pushed_ids g' = pushed_ids g ++ [next] ++ ids) as [ids Hids].
  { destruct stopped; [injection Hrun as <-; exists []; cbn; by rewrite Hid|].
    destruct (max <=? _); [injection Hrun as <-; exists []; by rewrite Hid|].
    apply pushed_grows in Hrun as [ids Hids]. exists ids. rewrite Hids. cbn. by rewrite Hid, <- app_assoc. }
  rewrite Hids, !decode_bytes_app, <- Hbytes, <- app_assoc in Hall.
  destruct (utf8_split _ _ s Hsc Hs Hall) as (s' & -> & Hrest). apply Forall_app in Hs as [_ Hs'].
  rewrite app_assoc, <- decode_bytes_app in Hrest.
  assert (loop_inv (g1 out rest) -> stopped = false -> loop_end (full_text g ++ s') g') as Hcont.
  { intros Hinv1 ->. destruct (max <=? _); [injection Hrun as <-; split; [apply Hinv1|by right]|].
    apply (IH (count_token (g1 out rest))); [by destruct Hinv1|done|].
    rewrite Hids, !decode_bytes_app, <- Hbytes, <- app_assoc. exact Hall. }
  destruct (flush_cases (pending g ++ [next]) s' (decode_bytes tok (pending g ++ [next])) (decode_bytes tok ids))
    as [[Herr Hf]|(T & s2 & -> & HT & HR & Hf)]; [by destruct (pending g)|done|done|exact Hrest|..].
  - (* the pending bytes end inside a character *)
    rewrite Hf in Hflush. injection Hflush as <- <- <-. apply Hcont; [|done].
    apply inv_hold; [done..|]. intros T HT HsT. rewrite HT, utf8_error_utf8 in Herr by done. done.
  - destruct Hf as [(before & Hb & Hf)|[(Hn & Hp & Hf)|(Hn & Hp & Hf)]]; rewrite Hf in Hflush; injection Hflush as <- <- <-.
    + (* a stop sequence *)
      injection Hrun as <-. split; cbn [set_finish deltas full_text]; rewrite Hft, ?Hde, ?Htext; [done|]. left.
      destruct (stop_at_Some stops T before Hb) as (stop & r & Hstop & Hne & HT2). exists stop, (r ++ s2).
      split_and!; [done|done|by rewrite HT2, <- !app_assoc|done|]. intros w Hw Hwne.
      apply safe_no_stop with stops; [done..|]. intros i Hi.
      pose proof (stop_at_before stops T before w i Hb Hw Hwne Hi) as Hm. apply not_true_iff_false. intros Hm'.
      apply not_true_iff_false in Hm. apply Hm. rewrite HT2, drop_app_le by lia. by apply starts_with_prefix.
    + (* held: the text could become a stop sequence *)
      apply Hcont; [|done]. apply inv_hold; [done|]. intros T' HT' HsT'. rewrite HT in HT'.
      apply (f_equal from_utf8) in HT'. apply Forall_app in Hs' as [HsT _]. rewrite !from_utf8_utf8 in HT' by done.
      by injection HT' as <-.
    + apply Hcont; [|done]. apply Forall_app in Hs' as [HsT _]. by apply inv_flush.
Qed.

End loop.

Lemma generate_ok tok stops eos_ids max tokens g s : Forall scalar s ->
  generate tok stops eos_ids max tokens = Some g -> decode_bytes tok (pushed_ids g) = utf8 s ->
  concat (deltas g) = full_text g /\
  (forall stop, stop ∈ stops -> stop <> [] -> find stop (full_text g) = None) /\
  (full_text g = s \/ exists stop r, stop ∈ stops /\ stop <> [] /\ s = full_text g ++ stop ++ r).
Proof.
  intros Hs. unfold generate. set (g0 := {| deltas := []; full_text := []; pending := []; pushed_ids := []; completion := 1; finish := str "length" |}).
  destruct (decode_loop tok stops eos_ids max g0 tokens) as [g'|] eqn:Hrun; cbn; [|done]. intros [= <-].
  destruct (emit_fields (decode tok (pending g')) g') as (Hft & _ & Hid & Hde). rewrite Hft, Hid, Hde. intros Hall.
  assert (loop_inv tok stops g0) as Hinv0.
  { split; cbn; [constructor|done|intros ? i ? ? ? Hi; cbn in Hi; lia|done|].
    intros [|c T'] HT'; [intros _; apply stop_at_nil|]. pose proof (utf8_length c T') as Hl. rewrite <- HT' in Hl. cbn in Hl. lia. }
  destruct (decode_loop_ok tok stops eos_ids max s tokens g0 g' Hs Hinv0 Hrun Hall)
    as [Htext [(stop & r & Hst & Hne & -> & Hp & Hno)|[Hsc Hbytes Hsafe _ Hpend]]]; rewrite Htext.
  - rewrite Hp. cbn. rewrite !app_nil_r. split; [done|]. split; [done|]. right. by exists stop, r.
  - split; [done|]. rewrite Hall in Hbytes. destruct (utf8_split _ _ s Hsc Hs Hbytes) as (s' & -> & Hrest).
    apply Forall_app in Hs as [_ Hs']. unfold decode. rewrite Hrest, from_utf8_lossy_utf8 by done.
    split; [|by left]. intros stop Hst Hne. apply safe_no_stop with stops; [done..|]. intros i Hi.
    pose proof (stop_at_None stops s' stop (Hpend s' Hrest Hs') Hst Hne) as Hf. by apply find_None_drop.
Qed.

(** C24: the client never sees a stop sequence, and nothing else is kept from it: when the
    bytes of the ids the decode loop pushed are those of a text [s], the deltas put together
    are the completion's text, no stop sequence occurs in it, and it is [s] or the start of
    [s] that stands before one. *)
Theorem stop_never_emitted tok stops eos_ids max tokens g s : Forall scalar s ->
  generate tok stops eos_ids max tokens = Some g -> decode_bytes tok (pushed_ids g) = utf8 s ->
  concat (deltas g) = full_text g /\
  (forall stop, stop ∈ stops -> stop <> [] -> find stop (full_text g) = None) /\
  (full_text g = s \/ exists stop r, stop ∈ stops /\ stop <> [] /\ s = full_text g ++ stop ++ r).
Proof. apply generate_ok. Qed.

(** "hello" in two tokens, then "é" cut between its bytes, then the stop sequence "STOP" cut
    between its characters. *)
Definition cut_tokens : list Z := [257; 0x6C; 0x6F; 0xC3; 0xA9; 0x53; 0x54; 0x4F; 0x50; 0x21].

Definition cut_generation : Generation :=
  {| deltas := [str "hel"; str "l"; str "o"; [0xE9]]; full_text := str "hello" ++ [0xE9]; pending := [];
     pushed_ids := take 9 cut_tokens; completion := 9; finish := str "stop" |}.

Lemma stop_never_emitted_witness :
  generate sample_tokenizer [str "STOP"] [301] 64 cut_tokens = Some cut_generation /\
  concat (deltas cut_generation) = full_text cut_generation /\
  (forall stop, stop ∈ [str "STOP"] -> stop <> [] -> find stop (full_text cut_generation) = None).
Proof.
  assert (generate sample_tokenizer [str "STOP"] [301] 64 cut_tokens = Some cut_generation) as Hg by (vm_compute; reflexivity).
  assert (decode_bytes sample_tokenizer (pushed_ids cut_generation) = utf8 (str "hello" ++ [0xE9] ++ str "STOP")) as Hb
    by (vm_compute; reflexivity).
  split; [exact Hg|].
  destruct (stop_never_emitted sample_tokenizer [str "STOP"] [301] 64 cut_tokens cut_generation (str "hello" ++ [0xE9] ++ str "STOP"))
    as (H1 & H2 & _); [by apply (bool_decide_unpack _); vm_compute|exact Hg|exact Hb|]. by split.
Defined.

(** A token may hold the end of a stop sequence and the start of a character. *)
Definition cut_vocab : gmap (list Z) Z := <[[0x6C; 0xC3] := 258]> sample_vocab.
Definition cut_tokenizer : BpeTokenizer := from_parts cut_vocab [] [].

(** A buffer that ends inside a character is not searched for stop sequences, and what
    is left of it at the end of the completion is sent as it is: "hel" reaches the client
    though it is a stop sequence, followed by U+FFFD. *)
Theorem unfinished_tail_leaks_stop : exists g,
  generate cut_tokenizer [str "hel"] [301] 64 [0x68; 0x65; 258; 301] = Some g /\
  full_text g = str "hel" ++ [0xFFFD].
Proof. eexists. split; vm_compute; reflexivity. Qed.
