(* ===== verification/Base64.v ===== *)
(** The image decoders' errors (src/crates/mimo26-image/src/lib.rs, a constructor for each
    message) and the base64 payload of a data URL (base64.rs), with what it accepts: every
    encoding of the bytes, padded or not, in either alphabet, with white space anywhere. *)
From Stdlib Require Import ZArith Lia Bool SpecFloat.
From stdpp Require Import base list gmap strings.
From S2P Require Import Prelude.

(** * Definitions *)

Inductive ImageError :=
(* base64 *)
| DataAfterPadding (i : Z) | InvalidByte (c i : Z) | TruncatedSextets | BadPadding
(* inflate *)
| NoZlibHeader | ZlibMethod (m : Z) | ZlibWindow | ZlibCheckBits | ZlibDictionary
| Truncated | BadBlockType | StreamHolds (have want : Z) | BadStoredLengths
| BadLengthCode | BadDistanceCode | DistanceTooFar | TooManySymbols | BadRepeat
| MissingEndOfBlock | OverSubscribed | IncompleteCode | BadHuffmanCode
(* png *)
| NoImageData | BadChunkType | ChunkPastEnd (ty : list Z) | ChunkWithoutCrc (ty : list Z)
| ShortIhdr | FilterMethod (m : Z) | IendBeforeIdat | NoIhdr | ShortTrns | TrnsIndex
| TrnsEntries | DepthForType (depth ctype : Z) | ZeroSize (w h : Z) | TooLarge (w h : Z)
| FilterType (f : Z)
(* jpeg: the message without the values it quotes *)
| BadJpeg (what : string)
(* data URLs and formats *)
| RemoteUrl | NotDataUrl (got : list Z) | NoComma | NotBase64 (header : list Z)
| MediaType (media : list Z) | EmptyData | UnsupportedFormat (what : list Z)
(* resizing and preprocessing *)
| EmptyImage (w h : Z) | AspectRatio (ratio : spec_float) (w h : Z) | ResizeRange (w h : Z)
| BufferLength (len w h : Z).

Definition INVALID : Z := 0xFF.
Definition SKIP : Z := 0xFE.
Definition PAD : Z := 0xFD.

(** [t[at] = v] at a constant index. *)
Definition put (at_ v : Z) (t : list Z) : list Z := <[Z.to_nat at_ := v]> t.

Definition build_table : list Z :=
  let t := replicate 256 INVALID in
  let t := foldl (fun t i => put (0x61 + i) (26 + i) (put (0x41 + i) i t)) t (seqZ 0 26) in
  let t := foldl (fun t d => put (0x30 + d) (52 + d) t) t (seqZ 0 10) in
  let t := put 0x5F 63 (put 0x2F 63 (put 0x2D 62 (put 0x2B 62 t))) in
  put 0x0C SKIP (put 0x0B SKIP (put 0x0D SKIP (put 0x0A SKIP (put 0x09 SKIP (put 0x20 SKIP (put 0x3D PAD t)))))).

Definition TABLE : list Z := build_table.

(** The locals of [decode]'s loop. *)
Record b64 := { b_out : list Z; b_acc : Z; b_n : Z; b_pads : Z }.

Definition decode_char (st : b64) (ic : Z * Z) : outcome ImageError b64 :=
  let '(i, c) := ic in
  v ← idx TABLE c;
  if v <? 64 then
    if 0 <? b_pads st then Err (DataAfterPadding i)
    else
      let acc := Z.lor (Z.shiftl (b_acc st) 6 mod 2 ^ 32) v in
      let n := b_n st + 1 in
      if n =? 4
      then Ok {| b_out := b_out st ++ [Z.shiftr acc 16 mod 256; Z.shiftr acc 8 mod 256; acc mod 256];
                 b_acc := 0; b_n := 0; b_pads := b_pads st |}
      else Ok {| b_out := b_out st; b_acc := acc; b_n := n; b_pads := b_pads st |}
  else if v =? SKIP then Ok st
  else if v =? PAD then Ok {| b_out := b_out st; b_acc := b_acc st; b_n := b_n st; b_pads := b_pads st + 1 |}
  else Err (InvalidByte c i).

(** The [match (n, pads)] after the loop. *)
Definition decode_rest (st : b64) : outcome ImageError (list Z) :=
  let '(n, pads, acc) := (b_n st, b_pads st, b_acc st) in
  if (n =? 0) && (pads =? 0) then Ok (b_out st)
  else if (n =? 2) && ((pads =? 0) || (pads =? 2)) then Ok (b_out st ++ [Z.shiftr acc 4 mod 256])
  else if (n =? 3) && ((pads =? 0) || (pads =? 1)) then Ok (b_out st ++ [Z.shiftr acc 10 mod 256; Z.shiftr acc 2 mod 256])
  else if n =? 1 then Err TruncatedSextets
  else Err BadPadding.

Definition decode (input : list Z) : outcome ImageError (list Z) :=
  st ← fold_try decode_char {| b_out := []; b_acc := 0; b_n := 0; b_pads := 0 |} (zip (seqZ 0 (Zlen input)) input);
  decode_rest st.

(** * The encodings of bytes (RFC 4648) *)

(** The sextets of a byte string, and how many [=] complete them. *)
Fixpoint sextets (l : list Z) : list Z :=
  match l with
  | a :: b :: c :: l => [a / 4; a mod 4 * 16 + b / 16; b mod 16 * 4 + c / 64; c mod 64] ++ sextets l
  | [a; b] => [a / 4; a mod 4 * 16 + b / 16; b mod 16 * 4]
  | [a] => [a / 4; a mod 4 * 16]
  | [] => []
  end.

Fixpoint padding (l : list Z) : nat :=
  match l with
  | _ :: _ :: _ :: l => padding l
  | [_; _] => 1%nat
  | [_] => 2%nat
  | [] => 0%nat
  end.

Definition std_char (v : Z) : Z :=
  if v <? 26 then 0x41 + v else if v <? 52 then 0x61 + (v - 26) else if v <? 62 then 0x30 + (v - 52)
  else if v =? 62 then 0x2B else 0x2F.
Definition url_char (v : Z) : Z := if v =? 62 then 0x2D else if v =? 63 then 0x5F else std_char v.

Definition denotes (c v : Z) : Prop := c = std_char v \/ c = url_char v.

Definition ascii_space (c : Z) : bool := bool_decide (c ∈ [0x20; 0x09; 0x0A; 0x0D; 0x0B; 0x0C]).

(** * Theorems *)

Ltac sextet_bits := rewrite ?Z.shiftr_div_pow2, ?Z.shiftl_mul_pow2 by lia;
  rewrite ?(Z.mod_small _ (2 ^ 32)) by (cbn; lia); cbn [Z.pow Z.pow_pos Pos.iter Z.mul Pos.mul].

Lemma fold_indexed st l i : fold_try decode_char st (zip (seqZ i (Zlen l)) l) =
  match l with [] => Ok st | c :: l => st ← decode_char st (i, c); fold_try decode_char st (zip (seqZ (i + 1) (Zlen l)) l) end.
Proof.
  destruct l as [|c l]; [done|]. rewrite seqZ_cons by (cbn; lia). cbn [zip zip_with fold_try].
  replace (Z.pred (Zlen (c :: l))) with (Zlen l) by (cbn; lia). by replace (Z.succ i) with (i + 1) by lia.
Qed.

(** White space does not matter, nor do the offsets where the text is accepted. *)
Lemma decode_char_index st i j c st' : decode_char st (i, c) = Ok st' -> decode_char st (j, c) = Ok st'.
Proof.
  unfold decode_char. destruct (idx TABLE c) as [v| |]; cbn; [|done..].
  destruct (v <? 64); [destruct (0 <? b_pads st); [done|]; by destruct (_ =? 4)|].
  destruct (v =? SKIP); [done|]. by destruct (v =? PAD).
Qed.

Lemma space_skipped c st i : ascii_space c = true -> decode_char st (i, c) = Ok st.
Proof.
  unfold ascii_space. rewrite bool_decide_eq_true. intros Hc.
  assert (idx (E:=ImageError) TABLE c = Ok SKIP) as Hv.
  { revert c Hc. apply Forall_forall. by repeat constructor. }
  unfold decode_char. by rewrite Hv.
Qed.

Lemma fold_spaces input : forall i j st st',
  fold_try decode_char st (zip (seqZ j (Zlen (filter (fun c => ascii_space c = false) input))) (filter (fun c => ascii_space c = false) input)) = Ok st' ->
  fold_try decode_char st (zip (seqZ i (Zlen input)) input) = Ok st'.
Proof.
  induction input as [|c input IH]; intros i j st st'; [done|].
  rewrite (fold_indexed st (c :: input)). destruct (ascii_space c) eqn:Hc.
  - rewrite filter_cons_False by congruence. intros H. rewrite space_skipped by done. cbn. by apply IH with j.
  - rewrite filter_cons_True by done. rewrite fold_indexed, !bind_Ok. intros (st1 & H1 & H2).
    exists st1. split; [by apply decode_char_index with j|]. by apply IH with (j + 1).
Qed.

Lemma denotes_value c v : 0 <= v < 64 -> denotes c v -> idx (E:=ImageError) TABLE c = Ok v /\ ascii_space c = false.
Proof.
  intros Hv Hc. assert (Forall (fun v => Forall (fun c => 0 <= c /\ TABLE !! Z.to_nat c = Some v /\ ascii_space c = false)
    [std_char v; url_char v]) (seqZ 0 64)) as Hall by (apply (bool_decide_unpack _); vm_compute; reflexivity).
  rewrite Forall_forall in Hall. specialize (Hall v ltac:(apply elem_of_seqZ; lia)). rewrite Forall_forall in Hall.
  destruct (Hall c) as (H1 & H2 & H3); [unfold denotes in Hc; set_solver|]. split; [by apply idx_Some|done].
Qed.

(** Sextets pushed one by one. *)
Lemma decode_sextet st i c v : 0 <= v < 64 -> denotes c v -> b_pads st = 0 -> 0 <= b_acc st < 2 ^ 18 ->
  decode_char st (i, c) =
  (let acc := b_acc st * 64 + v in
   if b_n st + 1 =? 4
   then Ok {| b_out := b_out st ++ [acc / 2 ^ 16 mod 256; acc / 2 ^ 8 mod 256; acc mod 256]; b_acc := 0; b_n := 0; b_pads := 0 |}
   else Ok {| b_out := b_out st; b_acc := acc; b_n := b_n st + 1; b_pads := 0 |}).
Proof.
  intros Hv Hc Hp Ha. destruct (denotes_value c v Hv Hc) as [Hi _]. unfold decode_char. rewrite Hi. cbn.
  rewrite (proj2 (Z.ltb_lt _ _)), Hp by lia. cbn.
  assert (Z.lor (Z.shiftl (b_acc st) 6 mod 2 ^ 32) v = b_acc st * 64 + v) as ->.
  { rewrite Z.shiftl_mul_pow2, Z.mod_small by (cbn; lia). rewrite (Z.mul_comm _ (2 ^ 6)), lor_disjoint by (cbn; lia). cbn. lia. }
  by rewrite !Z.shiftr_div_pow2 by lia.
Qed.

Lemma fold_cons st c l i : fold_try decode_char st (zip (seqZ i (Zlen (c :: l))) (c :: l)) =
  (st ← decode_char st (i, c); fold_try decode_char st (zip (seqZ (i + 1) (Zlen l)) l)).
Proof. exact (fold_indexed st (c :: l) i). Qed.

Lemma fold_pads k : forall st i, fold_try decode_char st (zip (seqZ i (Zlen (replicate k 0x3D))) (replicate k 0x3D)) =
  Ok {| b_out := b_out st; b_acc := b_acc st; b_n := b_n st; b_pads := b_pads st + Z.of_nat k |}.
Proof.
  induction k as [|k IH]; intros st i; [cbn; by destruct st; rewrite Z.add_0_r|].
  cbn [replicate]. rewrite fold_cons. assert (decode_char st (i, 0x3D) =
    Ok {| b_out := b_out st; b_acc := b_acc st; b_n := b_n st; b_pads := b_pads st + 1 |}) as -> by reflexivity.
  cbn [mbind outcome_bind]. rewrite IH. cbn [b_out b_acc b_n b_pads]. do 2 f_equal. lia.
Qed.

(** Induction over the groups of three bytes. *)
Lemma groups_ind (P : list Z -> Prop) : P [] -> (forall a, P [a]) -> (forall a b, P [a; b]) ->
  (forall a b c l, P l -> P (a :: b :: c :: l)) -> forall l, P l.
Proof. intros H0 H1 H2 H3. fix IH 1. intros [|a [|b [|c l]]]; [done|done|done|]. apply H3, IH. Qed.

(** Push the letter [c] for [v]; [lia] knows the sextets' ranges. *)
Ltac sextet c v := rewrite fold_cons, (decode_sextet _ _ c v); cbn [b_acc b_n b_pads b_out];
  [change (0 + 1) with 1; change (1 + 1) with 2; change (2 + 1) with 3; change (3 + 1) with 4;
   change (1 =? 4) with false; change (2 =? 4) with false; change (3 =? 4) with false; change (4 =? 4) with true;
   cbv iota zeta; cbn [mbind outcome_bind]|Z.div_mod_to_equations; lia|done|done|Z.div_mod_to_equations; lia].

Ltac take_letters := repeat match goal with
  | H : Forall2 denotes _ (_ :: _) |- _ => apply Forall2_cons_inv_r in H as (? & ? & ? & H & ->)
  | H : Forall2 denotes _ [] |- _ => apply Forall2_nil_inv_r in H as ->
  end.

Ltac rest := unfold decode_rest; cbn [b_acc b_n b_pads b_out]; rewrite ?Z.shiftr_div_pow2 by lia.

Ltac bytes_back := repeat f_equal; change (2 ^ 2) with 4; change (2 ^ 4) with 16; change (2 ^ 8) with 256;
  change (2 ^ 10) with 1024; change (2 ^ 16) with 65536; Z.div_mod_to_equations; lia.

Lemma decode_groups l : bytes_ok l -> forall pads cs out i, pads = 0%nat \/ pads = padding l -> Forall2 denotes cs (sextets l) ->
  exists st, fold_try decode_char {| b_out := out; b_acc := 0; b_n := 0; b_pads := 0 |}
      (zip (seqZ i (Zlen (cs ++ replicate pads 0x3D))) (cs ++ replicate pads 0x3D)) = Ok st /\
    decode_rest st = Ok (out ++ l).
Proof.
  induction l as [|a|a b|a b c l IH] using groups_ind; intros Hl pads cs out i Hpads Hcs; cbn [sextets app] in Hcs;
    unfold bytes_ok in Hl; rewrite ?Forall_cons in Hl; unfold is_byte in Hl.
  - take_letters. cbn [app]. rewrite fold_pads. eexists. split; [reflexivity|].
    assert (pads = 0%nat) as -> by (by destruct Hpads). cbn. by rewrite app_nil_r.
  - destruct Hl as [Ha _]. take_letters. cbn [app].
    sextet x (a / 4). sextet x1 (a mod 4 * 16). rewrite fold_pads. eexists. split; [reflexivity|]. rest.
    destruct Hpads as [-> | ->]; cbn; bytes_back.
  - destruct Hl as (Ha & Hb & _). take_letters. cbn [app].
    sextet x (a / 4). sextet x1 (a mod 4 * 16 + b / 16). sextet x0 (b mod 16 * 4).
    rewrite fold_pads. eexists. split; [reflexivity|]. rest.
    destruct Hpads as [-> | ->]; cbn; bytes_back.
  - destruct Hl as (Ha & Hb & Hc & Hl). take_letters. cbn [app].
    sextet x (a / 4). sextet x1 (a mod 4 * 16 + b / 16). sextet x0 (b mod 16 * 4 + c / 64). sextet x2 (c mod 64).
    destruct (IH Hl pads _ (out ++ [a; b; c]) (i + 1 + 1 + 1 + 1) Hpads Hcs) as (st & Hst & Hr).
    exists st. rewrite <- app_assoc in Hr. split; [|exact Hr]. rewrite <- Hst. bytes_back.
Qed.

(** Base64 decoding inverts every encoding: whatever letters of the two alphabets stand
    for the sextets of the bytes, with the padding the length calls for or with none, and
    with white space anywhere, decoding gives the bytes back. *)
Theorem base64_roundtrip l cs pads input : bytes_ok l -> Forall2 denotes cs (sextets l) ->
  pads = 0%nat \/ pads = padding l ->
  filter (fun c => ascii_space c = false) input = cs ++ replicate pads 0x3D ->
  decode input = Ok l.
Proof.
  intros Hl Hcs Hpads Hin. unfold decode. apply bind_Ok.
  destruct (decode_groups l Hl pads cs [] 0 Hpads Hcs) as (st & H1 & H2).
  exists st. split; [|done]. apply fold_spaces with 0. by rewrite Hin.
Qed.

(** "foob" in both alphabets' common letters, with a line break before its padding. *)
Lemma base64_roundtrip_witness :
  decode [0x5A; 0x6D; 0x39; 0x76; 0x20; 0x59; 0x67; 0x0A; 0x3D; 0x3D] = Ok [0x66; 0x6F; 0x6F; 0x62].
Proof.
  apply (base64_roundtrip _ [0x5A; 0x6D; 0x39; 0x76; 0x59; 0x67] 2).
  - repeat constructor; lia.
  - repeat constructor.
  - by right.
  - reflexivity.
Defined.
