(* ===== verification/Inflate.v ===== *)
(** The DEFLATE decoder of PNG image data (src/crates/mimo26-image/src/inflate.rs): the bit
    buffer with its eight bytes of virtual lookahead, canonical Huffman tables with their
    ten-bit fast lookup, and the three kinds of block.

    An operation on the [Inflater] is a state transformer that can fail.  Loops that the
    data ends run on [fuel], an upper bound on the bits there are to read; running out of
    it is [Panic], which InflateProofs.v excludes.

    DEFLATE on a list of bits (RFC 1951): what inflate.rs computes, without the bit buffer,
    the lookahead and the lookup tables.  A reader of bits fails ([None]) on a malformed
    stream and at the end of the bits. *)
From Stdlib Require Import ZArith Lia Bool.
From stdpp Require Import base list gmap strings.
From S2P Require Import Prelude Base64.

(** * Definitions *)

Record Inflater := { pos : Z; bitbuf : Z; bitcnt : Z; virt : Z }.

Definition inflater (A : Type) : Type := Inflater -> outcome ImageError (A * Inflater).
#[export] Instance inflater_ret : MRet inflater := fun A a st => Ok (a, st).
#[export] Instance inflater_bind : MBind inflater := fun A B f m st => '(a, st) ← m st; f a st.

Definition bail {A} (e : ImageError) : inflater A := fun _ => Err e.
(** A computation that does not touch the reader. *)
Definition pure_ {A} (m : outcome ImageError A) : inflater A := fun st => a ← m; Ok (a, st).

(** ** Huffman tables *)

Inductive Kind := CodeLengths | Lens | Dists.

Definition FAST_BITS : Z := 10.

Record Huffman := { fast : list Z; count : list Z; symbols : list Z }.

(** [count[l] += 1] for every length, then [count[0] = 0]. *)
Definition count_lengths (lengths : list Z) : outcome ImageError (list Z) :=
  count ← fold_try (fun count l => c ← idx count l; idx_set count l (c + 1)) (replicate 16 0) lengths;
  idx_set count 0 0.

(** [(1..16).rev().find(|&l| count[l] != 0).unwrap_or(0)] *)
Definition max_length (count : list Z) : Z :=
  from_option snd 0 (list_find (fun l => count !! Z.to_nat l <> Some 0) (reverse (seqZ 1 15))).

(** The code space left after every length, negative when it is over-subscribed. *)
Definition code_space (count : list Z) : outcome ImageError Z :=
  fold_try (fun left c => let left := left * 2 - c in if left <? 0 then Err OverSubscribed else Ok left) 1 (drop 1 count).

Definition offsets (count : list Z) : outcome ImageError (list Z) :=
  fold_try (fun offs len => o ← idx offs len; c ← idx count len; idx_set offs (len + 1) (o + c)) (replicate 16 0) (seqZ 1 14).

(** [h.symbols[offs[l]] = sym; offs[l] += 1] *)
Definition place_symbol (acc : list Z * list Z) (symbol : Z * Z) : outcome ImageError (list Z * list Z) :=
  let '(symbols, offs) := acc in
  let '(sym, l) := symbol in
  if l =? 0 then Ok acc
  else
    o ← idx offs l;
    symbols ← idx_set symbols o sym;
    offs ← idx_set offs l (o + 1);
    Ok (symbols, offs).

(** The symbols by length, a counting sort. *)
Definition sort_symbols (lengths offs : list Z) : outcome ImageError (list Z) :=
  '(symbols, _) ← fold_try place_symbol (replicate (length lengths) 0, offs) (zip (seqZ 0 (Zlen lengths)) lengths);
  Ok symbols.

(** [u32::reverse_bits] *)
Fixpoint reverse_loop (n : nat) (x acc : Z) : Z :=
  match n with O => acc | S n => reverse_loop n (x / 2) (acc * 2 + x mod 2) end.
Definition reverse_bits (x : Z) : Z := reverse_loop 32 x 0.

(** [while i < h.fast.len() { h.fast[i] = entry; i += 1 << len; }] *)
Fixpoint fill_fast (fuel : nat) (entry step i : Z) (fast : list Z) : outcome ImageError (list Z) :=
  if i <? Zlen fast then
    match fuel with
    | O => Panic
    | S fuel => fast ← idx_set fast i entry; fill_fast fuel entry step (i + step) fast
    end
  else Ok fast.

(** One code of length [len]: [fast], the next code and the place of its symbol. *)
Definition add_code (symbols : list Z) (len : Z) (acc : list Z * Z * Z) (_ : Z) : outcome ImageError (list Z * Z * Z) :=
  let '(fast, code, k) := acc in
  fast ← (if len <=? FAST_BITS then
            let rev := Z.shiftr (reverse_bits code) (32 - len) in
            sym ← idx symbols k;
            let entry := Z.lor (Z.shiftl sym 4 mod 2 ^ 16) len in
            fill_fast (length fast) entry (Z.shiftl 1 len) rev fast
          else Ok fast);
  Ok (fast, (code + 1) mod 2 ^ 32, k + 1).

Definition add_length (count symbols : list Z) (acc : list Z * Z * Z) (len : Z) : outcome ImageError (list Z * Z * Z) :=
  n ← idx count len;
  '(fast, code, k) ← fold_try (add_code symbols len) acc (seqZ 0 n);
  Ok (fast, code * 2 mod 2 ^ 32, k).

Definition Huffman_new (lengths : list Z) (kind : Kind) : outcome ImageError Huffman :=
  count ← count_lengths lengths;
  let max := max_length count in
  let fast := replicate (Z.to_nat (Z.shiftl 1 FAST_BITS)) 0 in
  if max =? 0 then Ok {| fast := fast; count := count; symbols := [] |}
  else
    left ← code_space count;
    if (0 <? left) && (match kind with CodeLengths => true | _ => negb (max =? 1) end) then Err IncompleteCode
    else
      offs ← offsets count;
      symbols ← sort_symbols lengths offs;
      '(fast, _, _) ← fold_try (add_length count symbols) (fast, 0, 0) (seqZ 1 15);
      Ok {| fast := fast; count := count; symbols := symbols |}.

Definition fixed_lit_lengths : list Z := replicate 144 8 ++ replicate 112 9 ++ replicate 24 7 ++ replicate 8 8.
Definition fixed_dist_lengths : list Z := replicate 32 5.

(** [Result::expect] *)
Definition expect {A} (m : outcome ImageError A) : outcome ImageError A :=
  match m with Ok a => Ok a | _ => Panic end.

Definition fixed_tables : outcome ImageError (Huffman * Huffman) :=
  lit ← expect (Huffman_new fixed_lit_lengths Lens);
  dist ← expect (Huffman_new fixed_dist_lengths Dists);
  Ok (lit, dist).

Definition LEN_BASE : list Z :=
  [3; 4; 5; 6; 7; 8; 9; 10; 11; 13; 15; 17; 19; 23; 27; 31; 35; 43; 51; 59; 67; 83; 99; 115; 131; 163; 195; 227; 258].
Definition LEN_EXTRA : list Z :=
  [0; 0; 0; 0; 0; 0; 0; 0; 1; 1; 1; 1; 2; 2; 2; 2; 3; 3; 3; 3; 4; 4; 4; 4; 5; 5; 5; 5; 0].
Definition DIST_BASE : list Z :=
  [1; 2; 3; 4; 5; 7; 9; 13; 17; 25; 33; 49; 65; 97; 129; 193; 257; 385; 513; 769; 1025; 1537; 2049; 3073; 4097; 6145;
   8193; 12289; 16385; 24577].
Definition DIST_EXTRA : list Z :=
  [0; 0; 0; 0; 1; 1; 2; 2; 3; 3; 4; 4; 5; 5; 6; 6; 7; 7; 8; 8; 9; 9; 10; 10; 11; 11; 12; 12; 13; 13].
Definition ORDER : list Z := [16; 17; 18; 0; 8; 7; 9; 6; 10; 5; 11; 4; 12; 3; 13; 2; 14; 1; 15].

(** ** Matches *)

(** [while remaining > 0]: each pass copies what there is since [src]. *)
Fixpoint copy_loop (fuel : nat) (src remaining : Z) (out : list Z) : outcome ImageError (list Z) :=
  if 0 <? remaining then
    match fuel with
    | O => Panic
    | S fuel =>
      let k := Z.min remaining (Zlen out - src) in
      part ← index_range out src (src + k);
      copy_loop fuel src (remaining - k) (out ++ part)
    end
  else Ok out.

Definition copy_match (out : list Z) (dist len : Z) : outcome ImageError (list Z) :=
  if Zlen out <? dist then Panic
  else
    let src := Zlen out - dist in
    if dist =? 1 then b ← idx out src; Ok (out ++ replicate (Z.to_nat len) b)
    else copy_loop (Z.to_nat len) src len out.

(** ** The reader *)
Section inflater.
Context (data : list Z).

Definition fuel : nat := Z.to_nat (8 * Zlen data + 72).

(** [while self.bitcnt <= 56], eight times at most. *)
Fixpoint refill_loop (n : nat) : inflater unit := fun st =>
  if bitcnt st <=? 56 then
    match n with
    | O => Panic
    | S n =>
      '(byte, st) ← (match data !! Z.to_nat (pos st) with
        | Some b => Ok (b, {| pos := pos st + 1; bitbuf := bitbuf st; bitcnt := bitcnt st; virt := virt st |})
        | None =>
          if 8 <? virt st + 1 then Err Truncated
          else Ok (0, {| pos := pos st; bitbuf := bitbuf st; bitcnt := bitcnt st; virt := virt st + 1 |})
        end);
      refill_loop n {| pos := pos st; bitbuf := Z.lor (bitbuf st) (Z.shiftl byte (bitcnt st));
                       bitcnt := bitcnt st + 8; virt := virt st |}
    end
  else Ok (tt, st).

Definition refill : inflater unit := fun st =>
  if 56 <? bitcnt st then Ok (tt, st)
  else
    match get_range data (pos st) (pos st + 8) with
    | Some chunk =>
      let nbytes := Z.shiftr (63 - bitcnt st) 3 in
      Ok (tt, {| pos := pos st + nbytes;
                 bitbuf := Z.lor (bitbuf st) (Z.shiftl (le_val chunk) (bitcnt st) mod 2 ^ 64);
                 bitcnt := bitcnt st + nbytes * 8; virt := virt st |})
    | None => refill_loop 8 st
    end.

Definition consume (n : Z) : inflater unit := fun st =>
  if n <=? bitcnt st
  then Ok (tt, {| pos := pos st; bitbuf := Z.shiftr (bitbuf st) n; bitcnt := bitcnt st - n; virt := virt st |})
  else Panic.

Definition bits (n : Z) : inflater Z := fun st =>
  let v := Z.land (bitbuf st) (Z.shiftl 1 n - 1) in
  '(_, st) ← consume n st;
  Ok (v, st).

(** [for len in 1..16], from length [len] on. *)
Fixpoint decode_slow (h : Huffman) (n : nat) (len code first index : Z) : inflater Z :=
  match n with
  | O => bail BadHuffmanCode
  | S n =>
    b ← bits 1;
    let code := Z.lor code b in
    c ← pure_ (idx (count h) len);
    if code - c <? first then
      let at_ := index + code - first in
      match (if at_ <? 0 then None else symbols h !! Z.to_nat at_) with
      | Some s => mret s
      | None => bail BadHuffmanCode
      end
    else decode_slow h n (len + 1) (Z.shiftl code 1) (Z.shiftl (first + c) 1) (index + c)
  end.

Definition decode_symbol (h : Huffman) : inflater Z := fun st =>
  e ← idx (fast h) (Z.land (bitbuf st) (Z.shiftl 1 FAST_BITS - 1));
  if e =? 0 then decode_slow h 15 1 0 0 0 st
  else '(_, st) ← consume (Z.land e 15) st; Ok (Z.shiftr e 4, st).

(** The whole bytes buffered go back, the virtual ones first. *)
Definition stored (out : list Z) (out_len : Z) : inflater (list Z) := fun st =>
  '(_, st) ← consume (Z.land (bitcnt st) 7) st;
  let back := bitcnt st / 8 in
  let v := Z.min back (virt st) in
  let virt := virt st - v in
  let back := back - v in
  if pos st <? back then Panic
  else
    let pos := pos st - back in
    if 0 <? virt then Err Truncated
    else
      hdr ← ok_or (get_range data pos (pos + 4)) Truncated;
      let len := le_val (take 2 hdr) in
      let nlen := le_val (drop 2 hdr) in
      if negb (len =? 2 ^ 16 - 1 - nlen) then Err BadStoredLengths
      else
        let pos := pos + 4 in
        if out_len <? Zlen out then Panic
        else
          let want := Z.min len (out_len - Zlen out) in
          let avail := Zlen data - pos in
          let n := Z.min want avail in
          part ← index_range data pos (pos + n);
          let out := out ++ part in
          if out_len <=? Zlen out then Ok (out, {| pos := pos + n; bitbuf := 0; bitcnt := 0; virt := virt |})
          else if avail <? len then Err Truncated
          else Ok (out, {| pos := pos + len; bitbuf := 0; bitcnt := 0; virt := virt |}).

Fixpoint codes (n : nat) (out_len : Z) (lit dist : Huffman) (out : list Z) : inflater (list Z) :=
  match n with
  | O => pure_ Panic
  | S n =>
    _ ← refill;
    sym ← decode_symbol lit;
    if sym <? 256 then
      let out := out ++ [sym] in
      if out_len <=? Zlen out then mret out else codes n out_len lit dist out
    else if sym =? 256 then mret out
    else
      let li := sym - 257 in
      if 29 <=? li then bail BadLengthCode
      else
        base ← pure_ (idx LEN_BASE li);
        extra ← pure_ (idx LEN_EXTRA li);
        x ← bits extra;
        let len := base + x in
        dsym ← decode_symbol dist;
        if 30 <=? dsym then bail BadDistanceCode
        else
          base ← pure_ (idx DIST_BASE dsym);
          extra ← pure_ (idx DIST_EXTRA dsym);
          x ← bits extra;
          let d := base + x in
          if Zlen out <? d then bail DistanceTooFar
          else
            let len := Z.min len (out_len - Zlen out) in
            out ← pure_ (copy_match out d len);
            if out_len <=? Zlen out then mret out else codes n out_len lit dist out
  end.

(** [for &slot in ORDER.iter().take(ncode)] *)
Fixpoint read_code_lengths (slots cl_lens : list Z) : inflater (list Z) :=
  match slots with
  | [] => mret cl_lens
  | slot :: slots =>
    _ ← refill;
    v ← bits 3;
    cl_lens ← pure_ (idx_set cl_lens slot v);
    read_code_lengths slots cl_lens
  end.

(** [lens[i..i + count].fill(value)] *)
Definition fill_range (lens : list Z) (i count value : Z) : outcome ImageError (list Z) :=
  if i + count <=? Zlen lens then Ok (splice lens i (replicate (Z.to_nat count) value)) else Panic.

(** [while i < total] *)
Fixpoint read_lengths (n : nat) (cl : Huffman) (total i : Z) (lens : list Z) : inflater (list Z) :=
  if i <? total then
    match n with
    | O => pure_ Panic
    | S n =>
      _ ← refill;
      sym ← decode_symbol cl;
      '(value, count) ← (
        if sym <=? 15 then mret (sym, 1)
        else if sym =? 16 then
          if i =? 0 then bail BadRepeat
          else v ← pure_ (idx lens (i - 1)); x ← bits 2; mret (v, 3 + x)
        else if sym =? 17 then x ← bits 3; mret (0, 3 + x)
        else x ← bits 7; mret (0, 11 + x));
      if total <? i + count then bail BadRepeat
      else
        lens ← pure_ (fill_range lens i count value);
        read_lengths n cl total (i + count) lens
    end
  else mret lens.

Definition dynamic_tables : inflater (Huffman * Huffman) :=
  _ ← refill;
  x ← bits 5; let nlen := x + 257 in
  x ← bits 5; let ndist := x + 1 in
  x ← bits 4; let ncode := x + 4 in
  if (286 <? nlen) || (30 <? ndist) then bail TooManySymbols
  else
    cl_lens ← read_code_lengths (take (Z.to_nat ncode) ORDER) (replicate 19 0);
    cl ← pure_ (Huffman_new cl_lens CodeLengths);
    let total := nlen + ndist in
    lens ← read_lengths (Z.to_nat total) cl total 0 (replicate 316 0);
    eob ← pure_ (idx lens 256);
    if eob =? 0 then bail MissingEndOfBlock
    else
      l ← pure_ (index_range lens 0 nlen);
      lit ← pure_ (Huffman_new l Lens);
      d ← pure_ (index_range lens nlen total);
      dist ← pure_ (Huffman_new d Dists);
      mret (lit, dist).

Fixpoint run (n : nat) (out_len : Z) (out : list Z) : inflater (list Z) :=
  match n with
  | O => pure_ Panic
  | S n =>
    _ ← refill;
    last ← bits 1;
    kind ← bits 2;
    out ← (
      if kind =? 0 then stored out out_len
      else if kind =? 1 then '(lit, dist) ← pure_ fixed_tables; codes fuel out_len lit dist out
      else if kind =? 2 then '(lit, dist) ← dynamic_tables; codes fuel out_len lit dist out
      else bail BadBlockType);
    if out_len <=? Zlen out then mret out
    else if last =? 1 then bail (StreamHolds (Zlen out) out_len)
    else run n out_len out
  end.

Definition inflate (out_len : Z) : outcome ImageError (list Z) :=
  let inf := {| pos := 0; bitbuf := 0; bitcnt := 0; virt := 0 |} in
  '(out, inf) ← (if 0 <? out_len then run fuel out_len [] inf else Ok ([], inf));
  let loaded := (pos inf + virt inf) * 8 in
  if Zlen data * 8 <? loaded - bitcnt inf then Err Truncated else Ok out.

End inflater.

Definition zlib_decompress (data : list Z) (out_len : Z) : outcome ImageError (list Z) :=
  if Zlen data <? 2 then Err NoZlibHeader
  else
    cmf ← idx data 0;
    flg ← idx data 1;
    if negb (Z.land cmf 0x0F =? 8) then Err (ZlibMethod (Z.land cmf 0x0F))
    else if 7 <? Z.shiftr cmf 4 then Err ZlibWindow
    else if negb (Z.lor (Z.shiftl cmf 8) flg mod 31 =? 0) then Err ZlibCheckBits
    else if negb (Z.land flg 0x20 =? 0) then Err ZlibDictionary
    else rest ← index_range data 2 (Zlen data); inflate rest out_len.

(** The vectors of the source's tests. *)
Example stored_block : forall n, n = 3 \/ n = 5 -> zlib_decompress
  [0x78; 0x01; 0x01; 0x05; 0x00; 0xfa; 0xff; 0x68; 0x65; 0x6c; 0x6c; 0x6f; 0x06; 0x2c; 0x02; 0x15] n
  = Ok (take (Z.to_nat n) [0x68; 0x65; 0x6c; 0x6c; 0x6f]).
Proof. intros n [-> | ->]; vm_compute; reflexivity. Qed.

Example fixed_block_with_overlapping_match : zlib_decompress
  [0x78; 0x01; 0x4b; 0x4c; 0x4a; 0x4e; 0xc4; 0x86; 0x2a; 0x88; 0x04; 0x00; 0x63; 0x15; 0x1b; 0xf1] 64
  = Ok (concat (replicate 8 [0x61; 0x62; 0x63]) ++ replicate 40 0x78).
Proof. vm_compute. reflexivity. Qed.

(** * Bits *)

(** The least significant bit of a byte first. *)
Definition byte_bits (b : Z) : list bool := (fun i => Z.testbit b (Z.of_nat i)) <$> seq 0 8.
Definition bits_of (data : list Z) : list bool := concat (byte_bits <$> data).

Definition reader (A : Type) : Type := list bool -> option (A * list bool).
#[export] Instance reader_ret : MRet reader := fun A a bs => Some (a, bs).
#[export] Instance reader_bind : MBind reader := fun A B f m bs =>
  match m bs with Some (a, bs) => f a bs | None => None end.
Definition fail {A} : reader A := fun _ => None.
Definition when {A} (b : bool) (m : reader A) : reader A := if b then m else fail.

Definition read_bit : reader bool := fun bs => match bs with b :: bs => Some (b, bs) | [] => None end.

(** A number of [n] bits, its least significant bit first. *)
Fixpoint read_bits (n : nat) : reader Z :=
  match n with
  | O => mret 0
  | S n => b ← read_bit; v ← read_bits n; mret (Z.b2z b + 2 * v)
  end.

Fixpoint read_bytes (n : nat) : reader (list Z) :=
  match n with
  | O => mret []
  | S n => b ← read_bits 8; l ← read_bytes n; mret (b :: l)
  end.

(** * Canonical codes: the codes of one length are consecutive, in the order of their
    symbols, and follow those of the shorter lengths (section 3.2.2). *)

(** The symbols with a code of length [l], among pairs of a symbol and its length. *)
Definition syms (ps : list (Z * Z)) (l : nat) : list Z := (filter (fun p => p.2 = Z.of_nat l) ps).*1.
Definition indexed (lens : list Z) : list (Z * Z) := zip (seqZ 0 (Zlen lens)) lens.
Definition symbols_of (lens : list Z) (l : nat) : list Z := syms (indexed lens) l.
Definition count_of (lens : list Z) (l : nat) : Z := Zlen (symbols_of lens l).

Fixpoint first_code (lens : list Z) (l : nat) : Z :=
  match l with
  | O => 0
  | S l' => 2 * (first_code lens l' + match l' with O => 0 | _ => count_of lens l' end)
  end.

(** The symbol whose code of length [l] is [code]. *)
Definition symbol_at (lens : list Z) (l : nat) (code : Z) : option Z :=
  if code <? first_code lens l then None else symbols_of lens l !! Z.to_nat (code - first_code lens l).

(** A code is read from its most significant bit on, until it is a symbol's. *)
Fixpoint walk (lens : list Z) (n l : nat) (code : Z) : reader Z :=
  match n with
  | O => fail
  | S n =>
    b ← read_bit;
    let code := 2 * code + Z.b2z b in
    match symbol_at lens l code with Some s => mret s | None => walk lens n (S l) code end
  end.
Definition read_symbol (lens : list Z) : reader Z := walk lens 15 1 0.

(** The share of the code space taken, in units of [2 ^ -15]. *)
Definition weight (l : Z) : Z := if l =? 0 then 0 else 2 ^ (15 - l).
Definition kraft (lens : list Z) : Z := foldr (fun l k => weight l + k) 0 lens.

(** The lengths a table may have: none, a complete code, or (not for the code lengths'
    own table) a single code of one bit. *)
Definition lengths_ok (kind : Kind) (lens : list Z) : bool :=
  forallb (Z.eqb 0) lens ||
  (kraft lens <=? 2 ^ 15) &&
  ((kraft lens =? 2 ^ 15) || match kind with CodeLengths => false | _ => forallb (fun l => l <=? 1) lens end).

(** * Blocks *)

(** [len] bytes from [dist] back, one after the other. *)
Fixpoint lz_copy (len : nat) (dist : nat) (out : list Z) : list Z :=
  match len with
  | O => out
  | S len => lz_copy len dist (out ++ take 1 (drop (length out - dist) out))
  end.

Definition stored_spec (out : list Z) (out_len : Z) : reader (list Z) := fun bs =>
  (len ← read_bits 16;
   nlen ← read_bits 16;
   when (len =? 2 ^ 16 - 1 - nlen) (fun bs =>
     let avail := Z.of_nat (length bs) / 8 in
     let n := Z.min (Z.min len (out_len - Zlen out)) avail in
     (part ← read_bytes (Z.to_nat n);
      let out := out ++ part in
      when ((out_len <=? Zlen out) || (len <=? avail)) (mret out)) bs)) (drop (length bs mod 8) bs).

Fixpoint codes_spec (n : nat) (out_len : Z) (lit dist : list Z) (out : list Z) : reader (list Z) :=
  match n with
  | O => fail
  | S n =>
    sym ← read_symbol lit;
    if sym <? 256 then
      let out := out ++ [sym] in
      if out_len <=? Zlen out then mret out else codes_spec n out_len lit dist out
    else if sym =? 256 then mret out
    else
      match LEN_BASE !! Z.to_nat (sym - 257), LEN_EXTRA !! Z.to_nat (sym - 257) with
      | Some base, Some extra =>
        x ← read_bits (Z.to_nat extra);
        let len := base + x in
        dsym ← read_symbol dist;
        match DIST_BASE !! Z.to_nat dsym, DIST_EXTRA !! Z.to_nat dsym with
        | Some base, Some extra =>
          x ← read_bits (Z.to_nat extra);
          let d := base + x in
          when (d <=? Zlen out) (
            let out := lz_copy (Z.to_nat (Z.min len (out_len - Zlen out))) (Z.to_nat d) out in
            if out_len <=? Zlen out then mret out else codes_spec n out_len lit dist out)
        | _, _ => fail
        end
      | _, _ => fail
      end
  end.

Fixpoint code_lengths_spec (slots cl_lens : list Z) : reader (list Z) :=
  match slots with
  | [] => mret cl_lens
  | slot :: slots => v ← read_bits 3; code_lengths_spec slots (<[Z.to_nat slot := v]> cl_lens)
  end.

(** The run-length coded code lengths, after those read so far. *)
Fixpoint lengths_spec (n : nat) (cl : list Z) (total : Z) (lens : list Z) : reader (list Z) :=
  if Zlen lens <? total then
    match n with
    | O => fail
    | S n =>
      sym ← read_symbol cl;
      '(value, count) ← (
        if sym <=? 15 then mret (sym, 1)
        else if sym =? 16 then
          match last lens with Some v => x ← read_bits 2; mret (v, 3 + x) | None => fail end
        else if sym =? 17 then x ← read_bits 3; mret (0, 3 + x)
        else x ← read_bits 7; mret (0, 11 + x));
      when (Zlen lens + count <=? total) (lengths_spec n cl total (lens ++ replicate (Z.to_nat count) value))
    end
  else mret lens.

Definition dynamic_spec : reader (list Z * list Z) :=
  x ← read_bits 5; let nlen := x + 257 in
  x ← read_bits 5; let ndist := x + 1 in
  x ← read_bits 4; let ncode := x + 4 in
  when ((nlen <=? 286) && (ndist <=? 30)) (
    cl ← code_lengths_spec (take (Z.to_nat ncode) ORDER) (replicate 19 0);
    when (lengths_ok CodeLengths cl) (
      lens ← lengths_spec (Z.to_nat (nlen + ndist)) cl (nlen + ndist) [];
      let lit := take (Z.to_nat nlen) lens in
      let dist := drop (Z.to_nat nlen) lens in
      when (negb (default 0 (lens !! 256%nat) =? 0) && lengths_ok Lens lit && lengths_ok Dists dist)
        (mret (lit, dist)))).

Fixpoint blocks_spec (fuel n : nat) (out_len : Z) (out : list Z) : reader (list Z) :=
  match n with
  | O => fail
  | S n =>
    last ← read_bits 1;
    kind ← read_bits 2;
    out ← (
      if kind =? 0 then stored_spec out out_len
      else if kind =? 1 then codes_spec fuel out_len fixed_lit_lengths fixed_dist_lengths out
      else if kind =? 2 then '(lit, dist) ← dynamic_spec; codes_spec fuel out_len lit dist out
      else fail);
    if out_len <=? Zlen out then mret out
    else when (negb (last =? 1)) (blocks_spec fuel n out_len out)
  end.

(** Every symbol and every block takes a bit at least, so [fuel] is enough. *)
Definition inflate_spec (data : list Z) (out_len : Z) : option (list Z) :=
  if 0 <? out_len then fst <$> blocks_spec (fuel data) (fuel data) out_len [] (bits_of data) else Some [].
