(* ===== verification/HuffmanProofs.v ===== *)
(** The Huffman tables of inflate.rs decode canonical codes: the counting sort lists the
    symbols of every length in order, the fast table answers as the bit-by-bit walk does,
    and tables are refused exactly when their lengths are no code. *)
From Stdlib Require Import ZArith Lia Bool.
From stdpp Require Import base list gmap strings.
From S2P Require Import Prelude Base64 Inflate.

(** * Counting *)

Definition counted (lens : list Z) (l : nat) : Z := match l with O => 0 | _ => count_of lens l end.
(** Where the symbols of length [l] start in the sorted list. *)
Fixpoint place (lens : list Z) (l : nat) : Z :=
  match l with O => 0 | S l' => place lens l' + counted lens l' end.
Definition space (lens : list Z) (l : nat) : Z := 2 ^ Z.of_nat l - first_code lens l - counted lens l.

Definition length_ok (l : Z) : Prop := 0 <= l <= 15.

Lemma syms_app ps qs l : syms (ps ++ qs) l = syms ps l ++ syms qs l.
Proof. unfold syms. by rewrite filter_app, fmap_app. Qed.

Lemma syms_one s v l : syms [(s, v)] l = if decide (v = Z.of_nat l) then [s] else [].
Proof. unfold syms. rewrite filter_cons. cbn. by destruct (decide _). Qed.

Lemma syms_cons p ps l : syms (p :: ps) l = syms [p] l ++ syms ps l.
Proof. apply (syms_app [p]). Qed.

Lemma count_nonneg lens l : 0 <= counted lens l.
Proof. destruct l; [done|]. unfold counted, count_of. lia. Qed.

Lemma first_nonneg lens l : 0 <= first_code lens l.
Proof. induction l as [|l IH]; [done|]. pose proof (count_nonneg lens l). unfold counted in H. cbn. lia. Qed.

Lemma first_S lens l : first_code lens (S l) = 2 * (first_code lens l + counted lens l).
Proof. done. Qed.

Lemma place_nonneg lens l : 0 <= place lens l.
Proof. induction l as [|l IH]; [done|]. pose proof (count_nonneg lens l). cbn. lia. Qed.

Lemma place_mono lens l l' : (l < l')%nat -> place lens l + counted lens l <= place lens l'.
Proof.
  induction 1 as [|l' H IH]; cbn; [lia|]. pose proof (count_nonneg lens l'). lia.
Qed.

(** The codes of a length start past every shorter code's. *)
Lemma first_mono lens l l' : (l < l')%nat -> (first_code lens l + counted lens l) * 2 ^ Z.of_nat (l' - l) <= first_code lens l'.
Proof.
  induction 1 as [|l' H IH].
  - rewrite first_S. replace (S l - l)%nat with 1%nat by lia. cbn. lia.
  - rewrite first_S. replace (S l' - l)%nat with (S (l' - l)) by lia. rewrite Nat2Z.inj_succ, Z.pow_succ_r by lia.
    pose proof (count_nonneg lens l'). nia.
Qed.

(** ** The array of counts *)
Definition occurrences (lens : list Z) (l : Z) : Z := Zlen (filter (fun v => v = l) lens).

Lemma occurrences_cons v lens l : occurrences (v :: lens) l = (if decide (v = l) then 1 else 0) + occurrences lens l.
Proof. unfold occurrences. rewrite filter_cons. destruct (decide (v = l)); cbn; lia. Qed.

Lemma syms_occurrences lens i l : Zlen (syms (zip (seqZ i (Zlen lens)) lens) l) = occurrences lens (Z.of_nat l).
Proof.
  revert i. induction lens as [|v lens IH]; intros i; [done|].
  rewrite seqZ_cons by (cbn; lia). replace (Z.pred (Zlen (v :: lens))) with (Zlen lens) by (cbn; lia).
  cbn [zip zip_with]. rewrite syms_cons, syms_one, length_app, occurrences_cons, <- (IH (Z.succ i)).
  destruct (decide _); cbn; lia.
Qed.

Lemma count_occurrences lens l : count_of lens l = occurrences lens (Z.of_nat l).
Proof. apply syms_occurrences. Qed.

Lemma count_fold lens : Forall length_ok lens -> forall c, length c = 16%nat -> exists c',
  fold_try (E:=ImageError) (fun count l => c ← idx count l; idx_set count l (c + 1)) c lens = Ok c' /\ length c' = 16%nat /\
  forall l x, c !! l = Some x -> c' !! l = Some (x + occurrences lens (Z.of_nat l)).
Proof.
  induction 1 as [|v lens Hv Hlens IH]; intros c Hc.
  - exists c. split; [done|]. split; [done|]. intros l x ->. by rewrite Z.add_0_r.
  - cbn [fold_try]. unfold length_ok in Hv.
    destruct (lookup_lt_is_Some_2 c (Z.to_nat v)) as [x Hx]; [lia|].
    rewrite (idx_Some c v x) by (done || lia). cbn [mbind outcome_bind]. unfold idx_set.
    rewrite (proj2 (Z.leb_le _ _)), (proj2 (Z.ltb_lt _ _)) by lia. cbn [andb mbind outcome_bind].
    destruct (IH (<[Z.to_nat v := x + 1]> c)) as (c' & Hf & Hc' & Hl); [by rewrite length_insert|].
    exists c'. split; [done|]. split; [done|]. intros l y Hy. rewrite occurrences_cons.
    destruct (decide (v = Z.of_nat l)) as [->|Hne].
    + rewrite Nat2Z.id in *. rewrite Hy in Hx. injection Hx as <-. rewrite (Hl l (y + 1)); [f_equal; lia|].
      by rewrite list_lookup_insert_eq by lia.
    + rewrite (Hl l y); [done|]. rewrite list_lookup_insert_ne; [done|lia].
Qed.

Lemma count_lengths_ok lens : Forall length_ok lens -> count_lengths lens = Ok (counted lens <$> seq 0 16).
Proof.
  intros Hlens. unfold count_lengths. destruct (count_fold lens Hlens (replicate 16 0) eq_refl) as (c & -> & Hc & Hl).
  cbn [mbind outcome_bind]. unfold idx_set. rewrite Hc. cbn [Z.leb Z.ltb Z.compare andb]. f_equal.
  apply list_eq. intros l. destruct (Nat.lt_ge_cases l 16) as [Hlt|Hge].
  - rewrite list_lookup_fmap, lookup_seq_lt by lia. cbn [fmap option_fmap option_map].
    change (0 + l)%nat with l. destruct l as [|l].
    + by rewrite list_lookup_insert_eq by lia.
    + rewrite list_lookup_insert_ne by lia. rewrite (Hl _ 0) by (by apply lookup_replicate_2).
      unfold counted. by rewrite count_occurrences.
  - rewrite !lookup_ge_None_2; [done|rewrite length_fmap, length_seq; lia|rewrite length_insert; lia].
Qed.

Lemma counts_lookup lens l : (l < 16)%nat -> (counted lens <$> seq 0 16) !! l = Some (counted lens l).
Proof. intros Hl. by rewrite list_lookup_fmap, lookup_seq_lt by lia. Qed.

Lemma idx_counts {E} lens l : 0 <= l < 16 -> idx (E:=E) (counted lens <$> seq 0 16) l = Ok (counted lens (Z.to_nat l)).
Proof. intros Hl. apply idx_Some; [lia|]. apply counts_lookup. lia. Qed.

(** ** The code space *)
Lemma space_S lens l : space lens (S l) = space lens l * 2 - counted lens (S l).
Proof. unfold space. rewrite first_S, Nat2Z.inj_succ, Z.pow_succ_r by lia. lia. Qed.

Lemma space_mono lens l m : space lens l < 0 -> space lens (l + m) < 0.
Proof.
  intros H. induction m as [|m IH]; [by rewrite Nat.add_0_r|]. rewrite Nat.add_succ_r, space_S.
  pose proof (count_nonneg lens (S (l + m))). lia.
Qed.

Lemma code_space_fold lens m : forall l,
  fold_try (fun left c => let left := left * 2 - c in if left <? 0 then Err OverSubscribed else Ok left) (space lens l)
    (counted lens <$> seq (S l) m) =
  if (space lens (l + m) <? 0) && negb (Nat.eqb m 0) then Err OverSubscribed else Ok (space lens (l + m)).
Proof.
  induction m as [|m IH]; intros l; [cbn; by rewrite Nat.add_0_r, andb_false_r|].
  cbn [seq fmap list_fmap fold_try]. cbv zeta. rewrite <- space_S, Nat.add_succ_r.
  destruct (Z.ltb_spec (space lens (S l)) 0) as [Hneg|Hpos]; cbn [mbind outcome_bind].
  - rewrite (proj2 (Z.ltb_lt _ _)); [done|]. by apply (space_mono lens (S l) m).
  - rewrite IH. change (S l + m)%nat with (S (l + m)). cbn [Nat.eqb negb]. rewrite andb_true_r.
    destruct m as [|m]; cbn [Nat.eqb negb]; [|by rewrite andb_true_r].
    rewrite Nat.add_0_r. cbn [Nat.eqb negb]. by rewrite andb_false_r, (proj2 (Z.ltb_ge _ _)).
Qed.

Lemma code_space_ok lens : code_space (counted lens <$> seq 0 16) =
  if space lens 15 <? 0 then Err OverSubscribed else Ok (space lens 15).
Proof.
  unfold code_space. change (drop 1 (counted lens <$> seq 0 16)) with (counted lens <$> seq 1 15).
  etransitivity; [apply (code_space_fold lens 15 0)|]. by rewrite andb_true_r.
Qed.

(** The space the lengths up to [n] take is what the code numbers say. *)
Definition taken (ps : list Z) (n : nat) : Z :=
  foldr (fun l k => (if decide (1 <= l <= Z.of_nat n) then 2 ^ (Z.of_nat n - l) else 0) + k) 0 ps.

Lemma taken_S lens n : taken lens (S n) = 2 * taken lens n + occurrences lens (Z.of_nat (S n)).
Proof.
  induction lens as [|v lens IH]; [done|]. cbn [taken foldr]. fold (taken lens n) (taken lens (S n)).
  rewrite IH, occurrences_cons. destruct (decide (v = Z.of_nat (S n))) as [->|Hne].
  - rewrite decide_True, decide_False by lia. rewrite Z.sub_diag. lia.
  - destruct (decide (1 <= v <= Z.of_nat n)) as [Hin|Hout].
    + rewrite decide_True by lia. replace (Z.of_nat (S n) - v) with (Z.succ (Z.of_nat n - v)) by lia.
      rewrite Z.pow_succ_r by lia. lia.
    + rewrite decide_False by lia. lia.
Qed.

Lemma taken_first lens n : taken lens n = first_code lens n + counted lens n.
Proof.
  induction n as [|n IH].
  - induction lens as [|v lens IH]; [done|]. cbn [taken foldr]. rewrite decide_False by lia. exact IH.
  - rewrite taken_S, IH, first_S. unfold counted at 3. rewrite count_occurrences. lia.
Qed.

Lemma kraft_taken lens : Forall length_ok lens -> kraft lens = taken lens 15.
Proof.
  induction 1 as [|v lens Hv Hlens IH]; [done|]. cbn [kraft taken foldr]. fold (kraft lens) (taken lens 15).
  rewrite IH. f_equal. unfold weight, length_ok in *. destruct (Z.eqb_spec v 0) as [->|Hne].
  - by rewrite decide_False by lia.
  - by rewrite decide_True by lia.
Qed.

Lemma space_kraft lens : Forall length_ok lens -> space lens 15 = 2 ^ 15 - kraft lens.
Proof. intros H. rewrite kraft_taken, taken_first by done. unfold space. change (Z.of_nat 15) with 15. lia. Qed.

Lemma space_pos lens l : 0 <= space lens 15 -> (l <= 15)%nat -> 0 <= space lens l.
Proof.
  intros H Hl. destruct (Z.lt_ge_cases (space lens l) 0) as [Hneg|]; [|done].
  pose proof (space_mono lens l (15 - l) Hneg). replace (l + (15 - l))%nat with 15%nat in H0 by lia. lia.
Qed.

(** ** The longest length *)
Lemma max_length_spec lens : let max := max_length (counted lens <$> seq 0 16) in
  0 <= max <= 15 /\ (forall l, (l < 16)%nat -> max < Z.of_nat l -> counted lens l = 0) /\
  (max <> 0 -> counted lens (Z.to_nat max) <> 0).
Proof.
  unfold max_length. set (P := fun l => _ <> Some 0).
  destruct (list_find P (reverse (seqZ 1 15))) as [[i l]|] eqn:Hf; cbn [from_option snd].
  - apply list_find_Some in Hf as (Hl & HP & Hbefore).
    assert (forall j, (j < 15)%nat -> reverse (seqZ 1 15) !! j = Some (15 - Z.of_nat j)) as Hrev.
    { intros j Hj. do 15 (destruct j as [|j]; [reflexivity|]). lia. }
    assert (i < 15)%nat as Hi by (apply lookup_lt_Some in Hl; exact Hl).
    rewrite Hrev in Hl by done. injection Hl as <-. split; [lia|]. split.
    + intros k Hk Hgt. specialize (Hbefore (15 - k)%nat (Z.of_nat k)).
      rewrite Hrev in Hbefore by lia. unfold P in Hbefore. rewrite Nat2Z.id, counts_lookup in Hbefore by done.
      destruct (Z.eq_dec (counted lens k) 0); [done|]. exfalso. apply Hbefore; [f_equal; lia|lia|congruence].
    + intros _. unfold P in HP. rewrite counts_lookup in HP by lia. congruence.
  - split; [lia|]. split; [|done]. intros l Hl Hgt. apply list_find_None in Hf. rewrite Forall_forall in Hf.
    destruct (Z.eq_dec (counted lens l) 0) as [|Hne]; [done|]. exfalso. apply (Hf (Z.of_nat l)).
    + apply elem_of_reverse, elem_of_seqZ. lia.
    + unfold P. rewrite Nat2Z.id, counts_lookup by done. congruence.
Qed.

(** ** The counting sort *)
Lemma offsets_fold lens m : forall l offs, (1 <= l)%nat -> (l + m = 15)%nat -> length offs = 16%nat ->
  (forall k, (1 <= k <= l)%nat -> offs !! k = Some (place lens k)) ->
  (forall k, (l < k < 16)%nat -> offs !! k = Some 0) -> exists offs',
  fold_try (E:=ImageError) (fun offs len => o ← idx offs len; c ← idx (counted lens <$> seq 0 16) len; idx_set offs (len + 1) (o + c))
    offs (seqZ (Z.of_nat l) (Z.of_nat m)) = Ok offs' /\ length offs' = 16%nat /\
  forall k, (1 <= k <= 15)%nat -> offs' !! k = Some (place lens k).
Proof.
  induction m as [|m IH]; intros l offs Hl Hm Hlen Hpre Hpost.
  - exists offs. split; [done|]. split; [done|]. intros k Hk. apply Hpre. lia.
  - rewrite seqZ_cons by lia. cbn [fold_try].
    rewrite (idx_Some offs _ (place lens l)) by (try lia; rewrite Nat2Z.id; apply Hpre; lia).
    rewrite idx_counts, Nat2Z.id by lia. cbn [mbind outcome_bind]. unfold idx_set.
    rewrite (proj2 (Z.leb_le _ _)), (proj2 (Z.ltb_lt _ _)) by lia. cbn [andb mbind outcome_bind].
    replace (Z.succ (Z.of_nat l)) with (Z.of_nat (S l)) by lia. replace (Z.pred (Z.of_nat (S m))) with (Z.of_nat m) by lia.
    replace (Z.to_nat (Z.of_nat l + 1)) with (S l) by lia. apply IH; [lia|lia|by rewrite length_insert| |].
    + intros k Hk. destruct (decide (k = S l)) as [->|Hne]; [by rewrite list_lookup_insert_eq by lia|].
      rewrite list_lookup_insert_ne by done. apply Hpre. lia.
    + intros k Hk. rewrite list_lookup_insert_ne by lia. apply Hpost. lia.
Qed.

Lemma offsets_ok lens : exists offs, offsets (counted lens <$> seq 0 16) = Ok offs /\ length offs = 16%nat /\
  forall k, (1 <= k <= 15)%nat -> offs !! k = Some (place lens k).
Proof.
  apply (offsets_fold lens 14 1); [lia|lia|done| |].
  - intros k Hk. by replace k with 1%nat by lia.
  - intros k Hk. apply lookup_replicate_2. lia.
Qed.

(** The pairs of a prefix of the symbols are sorted. *)
Record sorted_upto (lens : list Z) (ps : list (Z * Z)) (st : list Z * list Z) : Prop := {
  su_symbols : length (fst st) = length lens;
  su_offs : length (snd st) = 16%nat;
  su_next : forall l, (1 <= l <= 15)%nat -> snd st !! l = Some (place lens l + Zlen (syms ps l));
  su_placed : forall l j s, (1 <= l <= 15)%nat -> syms ps l !! j = Some s ->
    fst st !! (Z.to_nat (place lens l) + j)%nat = Some s
}.

Lemma place_total lens : Forall length_ok lens -> place lens 16 <= Zlen lens.
Proof.
  intros _. assert (forall n, place lens n <= Zlen (filter (fun v => 1 <= v < Z.of_nat n) lens)) as H.
  { induction n as [|n IH]; [cbn; lia|]. cbn [place].
    assert (Zlen (filter (fun v => 1 <= v < Z.of_nat n) lens) + counted lens n <= Zlen (filter (fun v => 1 <= v < Z.of_nat (S n)) lens)) as Hs; [|lia].
    assert (counted lens n = if decide (n = 0%nat) then 0 else occurrences lens (Z.of_nat n)) as ->.
    { destruct n; [done|]. cbn. by rewrite count_occurrences. }
    clear IH. induction lens as [|v lens IH]; [unfold occurrences; destruct (decide _); cbn; lia|].
    rewrite !filter_cons, occurrences_cons.
    destruct (decide (n = 0%nat)) as [->|Hn].
    - rewrite decide_False by lia. destruct (decide (1 <= v < Z.of_nat 1)); cbn [length]; lia.
    - destruct (decide (v = Z.of_nat n)) as [->|Hv].
      + rewrite decide_False, decide_True by lia. cbn [length]. lia.
      + destruct (decide (1 <= v < Z.of_nat n)).
        * rewrite decide_True by lia. cbn [length]. lia.
        * destruct (decide (1 <= v < Z.of_nat (S n))); cbn [length]; lia. }
  specialize (H 16%nat). assert (length (filter (fun v => (1 <= v < Z.of_nat 16)%Z) lens) <= length lens)%nat by apply length_filter. lia.
Qed.

Lemma syms_prefix ps qs l : Zlen (syms ps l) <= Zlen (syms (ps ++ qs) l).
Proof. rewrite syms_app, length_app. lia. Qed.

Lemma sort_step lens ps s v qs st : Forall length_ok lens -> indexed lens = ps ++ (s, v) :: qs -> length_ok v ->
  sorted_upto lens ps st -> exists st', place_symbol st (s, v) = Ok st' /\ sorted_upto lens (ps ++ [(s, v)]) st'.
Proof.
  intros Hlens Hall Hv [Hsy Hof Hnext Hplaced]. destruct st as [symbols offs]. cbn [fst snd] in *. unfold place_symbol.
  destruct (Z.eqb_spec v 0) as [->|Hne].
  - eexists. split; [done|]. split; [done..| |].
    + intros l Hl. rewrite syms_app, syms_one, decide_False, app_nil_r by lia. by apply Hnext.
    + intros l j t Hl. rewrite syms_app, syms_one, decide_False, app_nil_r by lia. by apply Hplaced.
  - unfold length_ok in Hv. set (n := Z.to_nat v). assert (1 <= n <= 15)%nat as Hn by lia.
    assert (v = Z.of_nat n) as Hvn by lia. clearbody n. subst v.
    rewrite (idx_Some offs _ (place lens n + Zlen (syms ps n))) by (try lia; rewrite Nat2Z.id; by apply Hnext).
    cbn [mbind outcome_bind].
    assert (forall l, Zlen (syms ps l) + (if decide (n = l) then 1 else 0) <= count_of lens l) as Hroom.
    { intros l. unfold count_of, symbols_of. rewrite Hall, syms_app, syms_cons, syms_one, !length_app.
      destruct (decide (n = l)) as [->|]; [rewrite decide_True by done; cbn [length]; lia|lia]. }
    pose proof (Hroom n) as Hr. rewrite decide_True in Hr by done. pose proof (place_nonneg lens n) as Hp.
    assert (place lens n + Zlen (syms ps n) < Zlen lens) as Hin.
    { pose proof (place_total lens Hlens). pose proof (place_mono lens n 16 ltac:(lia)).
      assert (counted lens n = count_of lens n) by (destruct n; [lia|done]). lia. }
    unfold idx_set. rewrite Hsy, Hof. rewrite (proj2 (Z.leb_le _ _)), (proj2 (Z.ltb_lt _ _)) by lia. cbn [andb mbind outcome_bind].
    rewrite (proj2 (Z.leb_le _ _)), (proj2 (Z.ltb_lt _ _)) by lia. cbn [andb mbind outcome_bind].
    eexists. split; [reflexivity|]. split; cbn [fst snd]; [by rewrite length_insert..| |].
    + intros l Hl. rewrite syms_app, syms_one, length_app. rewrite Nat2Z.id. destruct (decide (n = l)) as [->|Hnl].
      * rewrite decide_True, list_lookup_insert_eq by lia. cbn [length]. f_equal. lia.
      * rewrite decide_False, list_lookup_insert_ne by lia. rewrite Hnext by done. cbn [length]. f_equal. lia.
    + intros l j t Hl Hj. rewrite syms_app, syms_one in Hj. pose proof (place_nonneg lens l).
      assert (l <> n -> forall k, Z.of_nat k < count_of lens l ->
        (Z.to_nat (place lens l) + k)%nat <> Z.to_nat (place lens n + Zlen (syms ps n))) as Hdisj.
      { intros Hln k Hk. assert (counted lens l = count_of lens l) by (destruct l; [lia|done]).
        assert (counted lens n = count_of lens n) by (destruct n; [lia|done]).
        destruct (Nat.lt_ge_cases l n) as [Hlt|Hge].
        - pose proof (place_mono lens l n Hlt). lia.
        - pose proof (place_mono lens n l ltac:(lia)). lia. }
      destruct (decide (Z.of_nat n = Z.of_nat l)) as [He|Hnl].
      * apply Nat2Z.inj in He as <-. apply lookup_app_Some in Hj as [Hj|[Hge Hj]].
        -- rewrite list_lookup_insert_ne; [by apply Hplaced|]. apply lookup_lt_Some in Hj. lia.
        -- apply list_lookup_singleton_Some in Hj as [Hj <-].
           replace (Z.to_nat (place lens n) + j)%nat with (Z.to_nat (place lens n + Zlen (syms ps n))) by lia.
           apply list_lookup_insert_eq. lia.
      * rewrite app_nil_r in Hj. rewrite list_lookup_insert_ne; [by apply Hplaced|].
        apply not_eq_sym, Hdisj; [congruence|]. apply lookup_lt_Some in Hj. specialize (Hroom l). destruct (decide (n = l)); lia.
Qed.

Lemma sort_symbols_ok lens offs : Forall length_ok lens -> length offs = 16%nat ->
  (forall k, (1 <= k <= 15)%nat -> offs !! k = Some (place lens k)) -> exists symbols,
  sort_symbols lens offs = Ok symbols /\ length symbols = length lens /\
  forall l j s, (1 <= l <= 15)%nat -> symbols_of lens l !! j = Some s -> symbols !! (Z.to_nat (place lens l) + j)%nat = Some s.
Proof.
  intros Hlens Hoffs Hplace. unfold sort_symbols. fold (indexed lens).
  assert (forall qs ps st, indexed lens = ps ++ qs -> sorted_upto lens ps st -> exists st',
    fold_try place_symbol st qs = Ok st' /\ sorted_upto lens (indexed lens) st') as Hfold.
  { induction qs as [|[s v] qs IH]; intros ps st Hall Hst; [exists st; rewrite app_nil_r in Hall; by rewrite Hall|].
    assert (length_ok v) as Hv.
    { rewrite Forall_forall in Hlens. apply Hlens. assert ((s, v) ∈ indexed lens) as Hin by (rewrite Hall; set_solver).
      by apply elem_of_zip_r in Hin. }
    destruct (sort_step lens ps s v qs st Hlens Hall Hv Hst) as (st1 & H1 & Hst1). cbn [fold_try]. rewrite H1.
    cbn [mbind outcome_bind]. apply (IH (ps ++ [(s, v)])); [by rewrite <- app_assoc|done]. }
  destruct (Hfold (indexed lens) [] (replicate (length lens) 0, offs)) as ([symbols offs'] & -> & [Hsy _ _ Hpl]); [done| |].
  - split; cbn [fst snd]; [by rewrite length_replicate|done| |done]. intros l Hl. rewrite Hplace by done. cbn. f_equal. lia.
  - cbn. eauto.
Qed.

(** * The fast table *)

(** The number whose bits, the most significant first, are the first [l] of [i]. *)
Fixpoint code_of (i : Z) (l : nat) : Z :=
  match l with O => 0 | S l => 2 * code_of i l + Z.b2z (Z.testbit i (Z.of_nat l)) end.

(** The shortest code of at most [l] bits at the start of [i], with its symbol. *)
Fixpoint found (lens : list Z) (i : Z) (l : nat) : option (nat * Z) :=
  match l with
  | O => None
  | S l' =>
    match found lens i l' with
    | Some e => Some e
    | None => pair l <$> symbol_at lens l (code_of i l)
    end
  end.

Definition entry (l : nat) (s : Z) : Z := Z.lor (Z.shiftl s 4 mod 2 ^ 16) (Z.of_nat l).
Definition fast_at (lens : list Z) (i : Z) (l : nat) : Z :=
  match found lens i l with Some (l, s) => entry l s | None => 0 end.

Lemma symbol_at_Some lens l c s : symbol_at lens (S l) c = Some s -> first_code lens (S l) <= c < first_code lens (S l) + counted lens (S l).
Proof.
  unfold symbol_at. destruct (Z.ltb_spec c (first_code lens (S l))); [done|]. intros H1%lookup_lt_Some.
  unfold counted, count_of. lia.
Qed.

Lemma symbol_at_None lens l c : symbol_at lens (S l) c = None -> first_code lens (S l) <= c -> first_code lens (S l) + counted lens (S l) <= c.
Proof.
  unfold symbol_at. intros H Hc. rewrite (proj2 (Z.ltb_ge _ _)) in H by done. apply lookup_ge_None in H.
  unfold counted, count_of. lia.
Qed.

Lemma found_None lens i l : found lens i l = None -> first_code lens l + counted lens l <= code_of i l.
Proof.
  induction l as [|l IH]; [done|]. cbn [found]. destruct (found lens i l) as [e|]; [done|]. intros H.
  apply fmap_None in H. apply symbol_at_None; [done|]. rewrite first_S. cbn [code_of].
  specialize (IH eq_refl). destruct (Z.testbit i (Z.of_nat l)); cbn; lia.
Qed.

Lemma found_bound lens i l e : found lens i l = Some e -> code_of i l < first_code lens l + counted lens l.
Proof.
  revert e. induction l as [|l IH]; intros e; [done|]. cbn [found].
  destruct (found lens i l) as [e'|] eqn:He'.
  - intros _. specialize (IH e' eq_refl). pose proof (count_nonneg lens (S l)). rewrite first_S. cbn [code_of].
    destruct (Z.testbit i (Z.of_nat l)); cbn [Z.b2z]; lia.
  - intros H. apply fmap_Some in H as (s & H & _). by apply symbol_at_Some in H as [_ ?].
Qed.

(** A code that is found is no start of a longer one. *)
Lemma found_prefix lens i l e : found lens i l = Some e -> code_of i (S l) < first_code lens (S l).
Proof.
  intros H%found_bound. rewrite first_S. cbn [code_of]. destruct (Z.testbit i (Z.of_nat l)); cbn [Z.b2z]; lia.
Qed.

Lemma found_lt lens i l l' s : found lens i l = Some (l', s) -> (1 <= l' <= l)%nat /\ symbol_at lens l' (code_of i l') = Some s /\
  forall k, (k < l')%nat -> found lens i k = None.
Proof.
  induction l as [|l IH]; [done|]. cbn [found]. destruct (found lens i l) as [e'|] eqn:He'.
  - intros H. destruct (IH H) as (H1 & H2 & H3). split; [lia|by split].
  - intros H. apply fmap_Some in H as (s' & H & [= -> ->]). split; [lia|]. split; [done|].
    assert (forall m, (m <= l)%nat -> found lens i m = None) as Hm; [|intros k Hk; apply Hm; lia].
    clear H s' IH. induction l as [|l IH]; intros m Hm; [by replace m with 0%nat by lia|].
    cbn [found] in He'. destruct (found lens i l) eqn:Hl; [done|].
    destruct (decide (m = S l)) as [->|]; [cbn [found]; by rewrite Hl|]. apply IH; [done|lia].
Qed.

Lemma symbol_small lens l c s : symbol_at lens l c = Some s -> 0 <= s < Zlen lens.
Proof.
  unfold symbol_at. destruct (_ <? _); [done|]. intros H%list_elem_of_lookup_2. unfold symbols_of, syms, indexed in H.
  apply list_elem_of_fmap in H as ([s' v] & -> & H). apply list_elem_of_filter in H as [_ H].
  apply elem_of_zip_l, elem_of_seqZ in H. cbn. lia.
Qed.

Lemma entry_parts l s : (1 <= l <= 15)%nat -> 0 <= s < 4096 ->
  entry l s <> 0 /\ Z.land (entry l s) 15 = Z.of_nat l /\ Z.shiftr (entry l s) 4 = s.
Proof.
  intros Hl Hs. unfold entry. assert (Z.lor (Z.shiftl s 4 mod 2 ^ 16) (Z.of_nat l) = 16 * s + Z.of_nat l) as ->.
  { rewrite Z.shiftl_mul_pow2, Z.mod_small by (cbn; lia). rewrite (Z.mul_comm s). apply lor_disjoint; cbn; lia. }
  split; [lia|]. split.
  - change 15 with (Z.ones 4). rewrite Z.land_ones by lia. change (2 ^ 4) with 16.
    rewrite Z.mul_comm, Z.add_comm, Z.mod_add by lia. apply Z.mod_small. lia.
  - rewrite Z.shiftr_div_pow2 by lia. change (2 ^ 4) with 16. rewrite Z.mul_comm, Z.add_comm, Z.div_add, Z.div_small by lia. lia.
Qed.

(** ** Reversed bits *)
Lemma code_of_testbit i l k : 0 <= k -> Z.testbit (code_of i l) k = (k <? Z.of_nat l) && Z.testbit i (Z.of_nat l - 1 - k).
Proof.
  revert k. induction l as [|l IH]; intros k Hk.
  - cbn [code_of]. by rewrite Z.testbit_0_l, (proj2 (Z.ltb_ge _ _)) by lia.
  - cbn [code_of]. destruct (Z.eq_dec k 0) as [->|Hk0].
    + rewrite Z.testbit_0_r. rewrite (proj2 (Z.ltb_lt _ _)) by lia. cbn [andb]. f_equal. lia.
    + replace k with (Z.succ (k - 1)) by lia. rewrite Z.testbit_succ_r, IH by lia.
      destruct (Z.ltb_spec (k - 1) (Z.of_nat l)), (Z.ltb_spec (Z.succ (k - 1)) (Z.of_nat (S l))); try lia; cbn [andb]; try done; f_equal; lia.
Qed.

Lemma code_of_range i l : 0 <= code_of i l < 2 ^ Z.of_nat l.
Proof.
  induction l as [|l IH]; [cbn; lia|]. cbn [code_of]. rewrite Nat2Z.inj_succ, Z.pow_succ_r by lia.
  destruct (Z.testbit i (Z.of_nat l)); cbn [Z.b2z]; lia.
Qed.

Lemma reverse_loop_testbit n x acc k : 0 <= k ->
  Z.testbit (reverse_loop n x acc) k = if k <? Z.of_nat n then Z.testbit x (Z.of_nat n - 1 - k) else Z.testbit acc (k - Z.of_nat n).
Proof.
  revert x acc. induction n as [|n IH]; intros x acc Hk.
  - cbn [reverse_loop]. rewrite (proj2 (Z.ltb_ge _ _)) by lia. f_equal. lia.
  - cbn [reverse_loop]. rewrite IH by done. destruct (Z.ltb_spec k (Z.of_nat n)) as [H|H].
    + rewrite (proj2 (Z.ltb_lt _ _)) by lia. change (x / 2) with (x / 2 ^ 1). rewrite Z.div_pow2_bits by lia. f_equal. lia.
    + rewrite <- Z.bit0_mod, Z.mul_comm. destruct (Z.eq_dec k (Z.of_nat n)) as [->|Hne].
      * rewrite (proj2 (Z.ltb_lt _ _)), Z.sub_diag, Z.testbit_0_r by lia. f_equal. lia.
      * rewrite (proj2 (Z.ltb_ge _ _)) by lia. replace (k - Z.of_nat n) with (Z.succ (k - Z.of_nat (S n))) by lia.
        by rewrite Z.testbit_succ_r by lia.
Qed.

(** The index of a code in the fast table. *)
Definition reversed (code : Z) (l : nat) : Z := Z.shiftr (reverse_bits code) (32 - Z.of_nat l).

Lemma reversed_testbit code l k : (1 <= l <= 32)%nat -> 0 <= k ->
  Z.testbit (reversed code l) k = (k <? Z.of_nat l) && Z.testbit code (Z.of_nat l - 1 - k).
Proof.
  intros Hl Hk. unfold reversed, reverse_bits. rewrite Z.shiftr_spec, reverse_loop_testbit by lia.
  destruct (Z.ltb_spec k (Z.of_nat l)).
  - rewrite (proj2 (Z.ltb_lt _ _)) by lia. cbn [andb]. f_equal. lia.
  - rewrite (proj2 (Z.ltb_ge _ _)) by lia. by rewrite Z.testbit_0_l.
Qed.

Lemma reversed_match code l i : (1 <= l <= 32)%nat -> 0 <= code < 2 ^ Z.of_nat l ->
  code_of i l = code <-> i mod 2 ^ Z.of_nat l = reversed code l.
Proof.
  intros Hl Hc. assert (0 <= reversed code l) as Hr.
  { apply Z.shiftr_nonneg. unfold reverse_bits. apply Z.bits_iff_nonneg_ex. exists 32. intros m Hm.
    rewrite reverse_loop_testbit, (proj2 (Z.ltb_ge _ _)) by lia. apply Z.testbit_0_l. }
  split.
  - intros <-. apply Z.bits_inj'. intros k Hk. rewrite reversed_testbit by done. destruct (Z.ltb_spec k (Z.of_nat l)).
    + rewrite Z.mod_pow2_bits_low, code_of_testbit by lia. rewrite (proj2 (Z.ltb_lt _ _)) by lia. cbn [andb]. f_equal. lia.
    + by rewrite Z.mod_pow2_bits_high by lia.
  - intros Hi. apply Z.bits_inj'. intros k Hk. rewrite code_of_testbit by done. destruct (Z.ltb_spec k (Z.of_nat l)) as [H|H]; cbn [andb].
    + rewrite <- (Z.mod_pow2_bits_low i (Z.of_nat l)), Hi, reversed_testbit by lia.
      rewrite (proj2 (Z.ltb_lt _ _)) by lia. cbn [andb]. f_equal. lia.
    + symmetry. rewrite <- (Z.mod_small code (2 ^ Z.of_nat l)) by done. by rewrite Z.mod_pow2_bits_high by lia.
Qed.

Lemma reversed_range code l : (1 <= l <= 32)%nat -> 0 <= reversed code l < 2 ^ Z.of_nat l.
Proof.
  intros Hl. assert (reversed code l = reversed code l mod 2 ^ Z.of_nat l) as ->; [|apply Z.mod_pos_bound; lia].
  apply Z.bits_inj'. intros k Hk. destruct (Z.lt_ge_cases k (Z.of_nat l)).
  - by rewrite Z.mod_pow2_bits_low by lia.
  - rewrite Z.mod_pow2_bits_high, reversed_testbit by lia. by rewrite (proj2 (Z.ltb_ge _ _)) by lia.
Qed.

(** ** Filling *)
Lemma fill_fast_ok e step : 0 < step -> forall n i fast, 0 <= i -> Zlen fast - i <= Z.of_nat n -> exists fast',
  fill_fast n e step i fast = Ok fast' /\ length fast' = length fast /\
  forall t, 0 <= t < Zlen fast ->
    fast' !! Z.to_nat t = if (i <=? t) && ((t - i) mod step =? 0) then Some e else fast !! Z.to_nat t.
Proof.
  intros Hstep. induction n as [|n IH]; intros i fast Hi Hn; cbn [fill_fast].
  - rewrite (proj2 (Z.ltb_ge _ _)) by lia. exists fast. split; [done|]. split; [done|]. intros t Ht.
    by rewrite (proj2 (Z.leb_gt _ _)) by lia.
  - destruct (Z.ltb_spec i (Zlen fast)) as [Hlt|Hge].
    + unfold idx_set. rewrite (proj2 (Z.leb_le _ _)), (proj2 (Z.ltb_lt _ _)) by lia. cbn [andb mbind outcome_bind].
      destruct (IH (i + step) (<[Z.to_nat i := e]> fast)) as (fast' & Hf & Hl & Hat); [lia|rewrite length_insert; lia|].
      rewrite length_insert in Hl, Hat. exists fast'. split; [done|]. split; [done|]. intros t Ht. rewrite Hat by done.
      destruct (Z.leb_spec (i + step) t) as [H1|H1].
      * rewrite (proj2 (Z.leb_le i t)) by lia. cbn [andb].
        assert ((t - (i + step)) mod step = (t - i) mod step) as ->.
        { replace (t - (i + step)) with (t - i + (-1) * step) by lia. apply Z.mod_add. lia. }
        destruct (_ =? 0); [done|]. rewrite list_lookup_insert_ne by lia. done.
      * cbn [andb]. destruct (Z.leb_spec i t) as [H2|H2]; cbn [andb].
        -- rewrite Z.mod_small by lia. destruct (Z.eqb_spec (t - i) 0).
           ++ replace t with i by lia. apply list_lookup_insert_eq. lia.
           ++ rewrite list_lookup_insert_ne by lia. done.
        -- rewrite list_lookup_insert_ne by lia. done.
    + exists fast. split; [done|]. split; [done|]. intros t Ht. by rewrite (proj2 (Z.leb_gt _ _)) by lia.
Qed.

Lemma progression t r step : 0 <= r < step -> 0 <= t -> ((r <=? t) && ((t - r) mod step =? 0)) = (t mod step =? r).
Proof.
  intros Hr Ht. pose proof (Z.div_mod t step ltac:(lia)) as Hd. pose proof (Z.mod_pos_bound t step ltac:(lia)) as Hm.
  pose proof (Z.div_pos t step Ht ltac:(lia)).
  destruct (Z.eqb_spec (t mod step) r) as [He|Hne].
  - rewrite (proj2 (Z.leb_le _ _)) by nia. cbn [andb]. apply Z.eqb_eq. replace (t - r) with (t / step * step) by lia. apply Z_mod_mult.
  - apply andb_false_iff. right. apply Z.eqb_neq. intros H0. apply Hne.
    apply Z.mod_divide in H0 as [q Hq]; [|lia]. replace t with (r + q * step) by lia.
    rewrite Z.mod_add by lia. by apply Z.mod_small.
Qed.

(** ** Building it *)
Section build.
Context (lens symbols : list Z) (Hlens : Forall length_ok lens) (Hsmall : Zlen lens <= 4096) (Hspace : 0 <= space lens 15).
Hypothesis Hsorted : forall l j s, (1 <= l <= 15)%nat -> symbols_of lens l !! j = Some s ->
  symbols !! (Z.to_nat (place lens l) + j)%nat = Some s.

(** The entry of [i] once all codes shorter than [S l] and the first [j] of that length are in. *)
Definition partial (i : Z) (l : nat) (j : Z) : Z :=
  match found lens i l with
  | Some (l', s) => entry l' s
  | None =>
    if code_of i (S l) <? first_code lens (S l) + j
    then from_option (entry (S l)) 0 (symbol_at lens (S l) (code_of i (S l))) else 0
  end.

Definition table_at (fast : list Z) (l : nat) (j : Z) : Prop :=
  length fast = 1024%nat /\
  forall i, 0 <= i < 1024 -> fast !! Z.to_nat i = Some (if Nat.ltb l 10 then partial i l j else fast_at lens i 10).

Lemma code_bound l j : (l < 15)%nat -> 0 <= j <= counted lens (S l) -> 0 <= first_code lens (S l) + j <= 2 ^ Z.of_nat (S l).
Proof.
  intros Hl Hj. pose proof (space_pos lens (S l) Hspace ltac:(lia)) as Hs. unfold space in Hs.
  pose proof (first_nonneg lens (S l)). lia.
Qed.

Lemma pow15 l : (l < 15)%nat -> 2 ^ Z.of_nat (S l) <= 2 ^ 15.
Proof. intros. apply Z.pow_le_mono_r; lia. Qed.

Lemma add_code_ok fast l j x : (l < 15)%nat -> 0 <= j < counted lens (S l) -> table_at fast l j -> exists fast',
  add_code symbols (Z.of_nat (S l)) (fast, first_code lens (S l) + j, place lens (S l) + j) x
  = Ok (fast', first_code lens (S l) + (j + 1), place lens (S l) + (j + 1)) /\ table_at fast' l (j + 1).
Proof.
  intros Hl Hj [Hlen Hfast]. pose proof (code_bound l (j + 1) Hl ltac:(lia)) as Hb. pose proof (pow15 l Hl) as Hp.
  change (2 ^ 15) with 32768 in Hp. pose proof (first_nonneg lens (S l)) as Hf0.
  set (code := first_code lens (S l) + j) in *. unfold add_code, FAST_BITS.
  assert ((code + 1) mod 2 ^ 32 = first_code lens (S l) + (j + 1)) as Hnext.
  { rewrite Z.mod_small by (change (2 ^ 32) with 4294967296; lia). lia. }
  rewrite Hnext, <- Z.add_assoc.
  destruct (Z.leb_spec (Z.of_nat (S l)) 10) as [Hshort|Hlong].
  2: { exists fast. split; [done|]. split; [done|]. intros i Hi. rewrite Hfast by done.
       by rewrite (proj2 (Nat.ltb_ge _ _)) by lia. }
  destruct (lookup_lt_is_Some_2 (symbols_of lens (S l)) (Z.to_nat j)) as [s Hs].
  { unfold counted, count_of in Hj. lia. }
  pose proof (place_nonneg lens (S l)) as Hpl.
  rewrite (idx_Some symbols _ s).
  2: lia.
  2: { rewrite Z2Nat.inj_add by lia. apply Hsorted; [lia|done]. }
  cbn [mbind outcome_bind]. fold (reversed code (S l)).
  change (Z.lor (Z.shiftl s 4 mod 2 ^ 16) (Z.of_nat (S l))) with (entry (S l) s).
  assert (Z.shiftl 1 (Z.of_nat (S l)) = 2 ^ Z.of_nat (S l)) as -> by (rewrite Z.shiftl_mul_pow2 by lia; lia).
  pose proof (reversed_range code (S l) ltac:(lia)) as Hr.
  destruct (fill_fast_ok (entry (S l) s) (2 ^ Z.of_nat (S l)) ltac:(lia) (length fast) (reversed code (S l)) fast)
    as (fast' & -> & Hlen' & Hat); [lia|lia|]. cbn [mbind outcome_bind].
  exists fast'. split; [done|]. split; [by rewrite Hlen'|]. intros i Hi. rewrite Hlen in Hat.
  rewrite Hat, progression by (lia || done). rewrite Hfast by done. rewrite !(proj2 (Nat.ltb_lt l 10)) by lia.
  assert (symbol_at lens (S l) code = Some s) as Hsym.
  { unfold symbol_at. rewrite (proj2 (Z.ltb_ge _ _)) by lia. by replace (code - first_code lens (S l)) with j by lia. }
  assert (i mod 2 ^ Z.of_nat (S l) = reversed code (S l) <-> code_of i (S l) = code) as Hm by (symmetry; apply reversed_match; lia).
  unfold partial. destruct (found lens i l) as [[l' s']|] eqn:Hfound.
  - apply found_prefix in Hfound. destruct (Z.eqb_spec (i mod 2 ^ Z.of_nat (S l)) (reversed code (S l))) as [He|]; [|done].
    apply Hm in He. lia.
  - destruct (Z.eqb_spec (i mod 2 ^ Z.of_nat (S l)) (reversed code (S l))) as [He|Hne].
    + apply Hm in He. rewrite He, Hsym, (proj2 (Z.ltb_lt _ _)) by lia. done.
    + assert (code_of i (S l) <> code) as Hc by (intros Hc; by apply Hne, Hm).
      fold code. destruct (Z.ltb_spec (code_of i (S l)) code).
      * by rewrite (proj2 (Z.ltb_lt _ _)) by lia.
      * by rewrite (proj2 (Z.ltb_ge _ _)) by lia.
Qed.

Lemma add_codes_ok l m : forall fast j i, (l < 15)%nat -> 0 <= j -> j + Z.of_nat m = counted lens (S l) -> table_at fast l j -> exists fast',
  fold_try (add_code symbols (Z.of_nat (S l))) (fast, first_code lens (S l) + j, place lens (S l) + j) (seqZ i (Z.of_nat m))
  = Ok (fast', first_code lens (S l) + counted lens (S l), place lens (S l) + counted lens (S l)) /\
  table_at fast' l (counted lens (S l)).
Proof.
  induction m as [|m IH]; intros fast j i Hl Hj Hm Ht.
  - exists fast. replace j with (counted lens (S l)) in * by lia. done.
  - rewrite seqZ_cons by lia. cbn [fold_try].
    destruct (add_code_ok fast l j i Hl ltac:(lia) Ht) as (fast' & -> & Ht'). cbn [mbind outcome_bind].
    replace (Z.pred (Z.of_nat (S m))) with (Z.of_nat m) by lia. apply IH; [done|lia|lia|done].
Qed.

Lemma partial_end i l : partial i l (counted lens (S l)) = fast_at lens i (S l).
Proof.
  unfold partial, fast_at. cbn [found]. destruct (found lens i l) as [[l' s']|] eqn:Hf; [done|].
  apply found_None in Hf. destruct (symbol_at lens (S l) (code_of i (S l))) as [s|] eqn:Hs; cbn [from_option fmap option_fmap option_map].
  - apply symbol_at_Some in Hs. by rewrite (proj2 (Z.ltb_lt _ _)) by lia.
  - by destruct (_ <? _).
Qed.

Lemma partial_start i l : partial i l 0 = fast_at lens i l.
Proof.
  unfold partial, fast_at. destruct (found lens i l) as [[l' s']|] eqn:Hf; [done|]. apply found_None in Hf.
  rewrite (proj2 (Z.ltb_ge _ _)); [done|]. rewrite first_S. cbn [code_of]. destruct (Z.testbit i (Z.of_nat l)); cbn [Z.b2z]; lia.
Qed.

Lemma add_lengths_ok m : forall l fast, (l + m = 15)%nat -> table_at fast l 0 -> exists fast' code k,
  fold_try (add_length (counted lens <$> seq 0 16) symbols) (fast, first_code lens (S l), place lens (S l))
    (seqZ (Z.of_nat (S l)) (Z.of_nat m)) = Ok (fast', code, k) /\
  length fast' = 1024%nat /\ forall i, 0 <= i < 1024 -> fast' !! Z.to_nat i = Some (fast_at lens i 10).
Proof.
  induction m as [|m IH]; intros l fast Hm [Hlen Ht].
  - exists fast, (first_code lens (S l)), (place lens (S l)). split; [done|]. split; [done|]. intros i Hi. rewrite Ht by done.
    by rewrite (proj2 (Nat.ltb_ge _ _)) by lia.
  - rewrite seqZ_cons by lia. cbn [fold_try]. pose proof (count_nonneg lens (S l)) as Hc.
    destruct (add_codes_ok l (Z.to_nat (counted lens (S l))) fast 0 0) as (fast1 & Hfold & Ht1); [lia|lia|lia|by split|].
    rewrite !Z.add_0_r, Z2Nat.id in Hfold by done.
    pose proof (code_bound l (counted lens (S l)) ltac:(lia) ltac:(lia)) as Hb. pose proof (pow15 l ltac:(lia)) as Hp.
    assert (add_length (counted lens <$> seq 0 16) symbols (fast, first_code lens (S l), place lens (S l)) (Z.of_nat (S l))
      = Ok (fast1, first_code lens (S (S l)), place lens (S (S l)))) as ->.
    { unfold add_length. rewrite idx_counts, Nat2Z.id by lia. cbn [mbind outcome_bind]. rewrite Hfold. cbn [mbind outcome_bind].
      rewrite Z.mod_small by (change (2 ^ 32) with 4294967296; change (2 ^ 15) with 32768 in Hp; lia).
      by rewrite Z.mul_comm, <- first_S. }
    cbn [mbind outcome_bind].
    replace (Z.succ (Z.of_nat (S l))) with (Z.of_nat (S (S l))) by lia. replace (Z.pred (Z.of_nat (S m))) with (Z.of_nat m) by lia.
    apply (IH (S l) fast1); [lia|]. destruct Ht1 as [Hlen1 Ht1]. split; [done|]. intros i Hi. rewrite Ht1 by done.
    destruct (Nat.ltb_spec l 10) as [H1|H1].
    + rewrite partial_end. destruct (Nat.ltb_spec (S l) 10); [by rewrite partial_start|]. by replace (S l) with 10%nat by lia.
    + by rewrite (proj2 (Nat.ltb_ge (S l) 10)) by lia.
Qed.

End build.

(** * The tables *)

(** What a table built from [lens] answers. *)
Record table (lens : list Z) (h : Huffman) : Prop := {
  t_count : count h = counted lens <$> seq 0 16;
  t_symbols : forall l j s, (1 <= l <= 15)%nat -> symbols_of lens l !! j = Some s ->
    symbols h !! (Z.to_nat (place lens l) + j)%nat = Some s;
  t_fast : forall i, 0 <= i < 1024 -> fast h !! Z.to_nat i = Some (fast_at lens i 10)
}.

Lemma occurrences_zero lens v : occurrences lens v = 0 <-> v ∉ lens.
Proof.
  induction lens as [|w lens IH]; [split; [set_solver|done]|]. rewrite occurrences_cons, not_elem_of_cons, <- IH.
  unfold occurrences. destruct (decide (w = v)) as [->|Hne]; split; [lia|by intros []|intros; split; [congruence|lia]|intros [_ H]; lia].
Qed.

(** The longest length bounds the lengths and is one of them. *)
Lemma max_length_lens lens : Forall length_ok lens -> let max := max_length (counted lens <$> seq 0 16) in
  0 <= max <= 15 /\ Forall (fun v => v <= max) lens /\ (max <> 0 -> max ∈ lens).
Proof.
  intros Hlens. pose proof (max_length_spec lens) as (Hr & Hz & Hnz). set (max := max_length _) in *. cbv zeta.
  assert (forall l, counted lens (S l) = 0 <-> Z.of_nat (S l) ∉ lens) as Hc.
  { intros l. rewrite <- occurrences_zero. unfold counted. by rewrite count_occurrences. }
  split; [done|]. split.
  - rewrite Forall_forall in Hlens |- *. intros v Hv. destruct (Z.le_gt_cases v max) as [|Hgt]; [done|].
    pose proof (Hlens v Hv) as Hok. unfold length_ok in Hok. exfalso.
    destruct (Z.to_nat v) as [|n] eqn:Hn; [lia|]. assert (v = Z.of_nat (S n)) as -> by lia.
    by apply (proj1 (Hc n)); [apply Hz; lia|].
  - intros Hne. specialize (Hnz Hne). destruct (Z.to_nat max) as [|n] eqn:Hn; [lia|].
    destruct (decide (max ∈ lens)) as [|Hnot]; [done|]. exfalso. apply Hnz, Hc. by replace (Z.of_nat (S n)) with max by lia.
Qed.

Lemma all_zero lens l : Forall (fun v => v <= 0) lens -> Forall length_ok lens -> symbols_of lens (S l) = [].
Proof.
  intros H0 Hlens. assert (count_of lens (S l) = 0) as Hc.
  { rewrite count_occurrences, occurrences_zero. intros Hin. rewrite Forall_forall in H0. specialize (H0 _ Hin). lia. }
  unfold count_of in Hc. by destruct (symbols_of lens (S l)).
Qed.

Lemma found_nothing lens i l : Forall (fun v => v <= 0) lens -> Forall length_ok lens -> found lens i l = None.
Proof.
  intros H0 Hlens. induction l as [|l IH]; [done|]. cbn [found]. rewrite IH. unfold symbol_at.
  rewrite all_zero by done. by destruct (_ <? _).
Qed.

Lemma forallb_zero lens : Forall length_ok lens -> forallb (Z.eqb 0) lens = true <-> Forall (fun v => v <= 0) lens.
Proof.
  intros Hlens. rewrite forallb_forall, !Forall_forall in *. setoid_rewrite <- list_elem_of_In.
  split; intros H v Hv; specialize (H v Hv); [apply Z.eqb_eq in H; lia|]. specialize (Hlens v Hv). unfold length_ok in Hlens.
  apply Z.eqb_eq. lia.
Qed.

(** A table is built exactly for lengths that make a code. *)
Lemma Huffman_new_ok lens kind : Forall length_ok lens -> Zlen lens <= 4096 ->
  if lengths_ok kind lens then exists h, Huffman_new lens kind = Ok h /\ table lens h
  else exists e, Huffman_new lens kind = Err e.
Proof.
  intros Hlens Hsmall. unfold Huffman_new. rewrite count_lengths_ok by done. cbn [mbind outcome_bind].
  destruct (max_length_lens lens Hlens) as (Hmax & Hle & Hin). set (max := max_length _) in *.
  unfold lengths_ok. destruct (Z.eqb_spec max 0) as [H0|Hne].
  - rewrite H0 in Hle. rewrite (proj2 (forallb_zero lens Hlens) Hle). cbn [orb]. eexists. split; [reflexivity|]. split; cbn [count symbols fast].
    + done.
    + intros [|l] j s Hl Hs; [lia|]. by rewrite all_zero in Hs.
    + intros i Hi. unfold fast_at. rewrite found_nothing by done. apply lookup_replicate_2.
      change (Z.to_nat (Z.shiftl 1 FAST_BITS)) with 1024%nat. lia.
  - specialize (Hin Hne). assert (forallb (Z.eqb 0) lens = false) as ->.
    { apply not_true_iff_false. intros H%forallb_zero; [|done]. rewrite Forall_forall in H. specialize (H _ Hin). lia. }
    cbn [orb]. rewrite code_space_ok. pose proof (space_kraft lens Hlens) as Hk.
    destruct (Z.ltb_spec (space lens 15) 0) as [Hover|Hroom]; cbn [mbind outcome_bind].
    + rewrite (proj2 (Z.leb_gt _ _)) by lia. cbn [andb]. by eexists.
    + rewrite (proj2 (Z.leb_le _ _)) by lia. cbn [andb].
      assert ((max =? 1) = forallb (fun l => l <=? 1) lens) as Hone.
      { apply eq_true_iff_eq. rewrite Z.eqb_eq, forallb_forall. setoid_rewrite <- list_elem_of_In. split.
        - intros He v Hv. rewrite Forall_forall in Hle. specialize (Hle v Hv). apply Z.leb_le. lia.
        - intros H. specialize (H max Hin). apply Z.leb_le in H. lia. }
      rewrite <- Hone.
      assert ((0 <? space lens 15) = negb (kraft lens =? 2 ^ 15)) as ->.
      { destruct (Z.ltb_spec 0 (space lens 15)), (Z.eqb_spec (kraft lens) (2 ^ 15)); cbn [negb]; (done || lia). }
      set (single := match kind with CodeLengths => false | _ => max =? 1 end).
      assert (match kind with CodeLengths => true | _ => negb (max =? 1) end = negb single) as -> by (by destruct kind).
      destruct ((kraft lens =? 2 ^ 15) || single) eqn:Hok.
      * assert (negb (kraft lens =? 2 ^ 15) && negb single = false) as -> by (rewrite <- negb_orb, Hok; done).
        destruct (offsets_ok lens) as (offs & -> & Hoffs & Hplace). cbn [mbind outcome_bind].
        destruct (sort_symbols_ok lens offs Hlens Hoffs Hplace) as (symbols & -> & _ & Hsorted). cbn [mbind outcome_bind].
        destruct (add_lengths_ok lens symbols Hroom Hsorted 15 0 (replicate (Z.to_nat (Z.shiftl 1 FAST_BITS)) 0)) as (fast & code & k & Hfold & Hlen & Hfast).
        { done. }
        { split; [done|]. intros i Hi. rewrite (proj2 (Nat.ltb_lt _ _)), partial_start by lia. apply lookup_replicate_2.
          change (Z.to_nat (Z.shiftl 1 FAST_BITS)) with 1024%nat. lia. }
        change (seqZ (Z.of_nat 1) (Z.of_nat 15)) with (seqZ 1 15) in Hfold.
        change (first_code lens 1) with 0 in Hfold. change (place lens 1) with 0 in Hfold. rewrite Hfold. cbn [mbind outcome_bind].
        eexists. split; [reflexivity|]. by split.
      * assert (negb (kraft lens =? 2 ^ 15) && negb single = true) as -> by (rewrite <- negb_orb, Hok; done). by eexists.
Qed.
