(* ===== verification/InflateProofs.v ===== *)
(** The DEFLATE decoder refines the bit-level specification of Inflate.v: the bit
    buffer with its lookahead always holds the bits that come next, so every step reads
    what the specification reads; it never panics, and it ends. *)
From Stdlib Require Import ZArith Lia Bool.
From stdpp Require Import base list gmap strings.
From S2P Require Import Prelude Base64 Inflate HuffmanProofs.

(** * Bits of bytes *)
Definition stream (data : list Z) (k : Z) : bool :=
  match data !! Z.to_nat (k / 8) with Some b => Z.testbit b (k mod 8) | None => false end.

Lemma bits_of_length data : length (bits_of data) = (8 * length data)%nat.
Proof. induction data as [|b data IH]; [done|]. unfold bits_of in *. cbn [fmap list_fmap concat]. rewrite length_app, IH. cbn. lia. Qed.

Lemma byte_bits_lookup b k : (k < 8)%nat -> byte_bits b !! k = Some (Z.testbit b (Z.of_nat k)).
Proof. intros Hk. unfold byte_bits. by rewrite list_lookup_fmap, lookup_seq_lt by done. Qed.

Lemma bits_of_lookup data : forall k, (k < 8 * length data)%nat -> bits_of data !! k = Some (stream data (Z.of_nat k)).
Proof.
  induction data as [|b data IH]; intros k Hk; [cbn in Hk; lia|].
  unfold bits_of. cbn [fmap list_fmap concat]. fold (bits_of data). cbn [length] in Hk.
  destruct (Nat.lt_ge_cases k 8) as [Hlt|Hge].
  - rewrite lookup_app_l by (cbn; lia). rewrite byte_bits_lookup by done. unfold stream.
    rewrite Z.div_small, Z.mod_small by lia. done.
  - rewrite lookup_app_r by (cbn; lia). change (length (byte_bits b)) with 8%nat. rewrite IH by lia. unfold stream.
    replace (Z.of_nat k) with (Z.of_nat (k - 8) + 1 * 8) by lia. rewrite Z.div_add, Z.mod_add by lia.
    replace (Z.to_nat (Z.of_nat (k - 8) / 8 + 1)) with (S (Z.to_nat (Z.of_nat (k - 8) / 8))) by (Z.div_mod_to_equations; lia).
    done.
Qed.

Lemma stream_byte data i k b : data !! i = Some b -> 0 <= k < 8 -> stream data (8 * Z.of_nat i + k) = Z.testbit b k.
Proof.
  intros Hb Hk. unfold stream. replace (8 * Z.of_nat i + k) with (k + Z.of_nat i * 8) by lia.
  rewrite Z.div_add, Z.mod_add, Z.div_small, Z.mod_small by lia. rewrite Z.add_0_l, Nat2Z.id. by rewrite Hb.
Qed.

Lemma stream_past data k : 8 * Zlen data <= k -> stream data k = false.
Proof. intros Hk. unfold stream. rewrite lookup_ge_None_2; [done|]. Z.div_mod_to_equations. lia. Qed.

(** A little-endian word is the stream of its bytes. *)
Lemma stream_cons b data k : 0 <= k -> stream (b :: data) k = if k <? 8 then Z.testbit b k else stream data (k - 8).
Proof.
  intros Hk. unfold stream. destruct (Z.ltb_spec k 8).
  - by rewrite Z.div_small, Z.mod_small by lia.
  - assert (Z.to_nat (k / 8) = S (Z.to_nat ((k - 8) / 8))) as -> by (Z.div_mod_to_equations; lia).
    assert (k mod 8 = (k - 8) mod 8) as -> by (Z.div_mod_to_equations; lia). done.
Qed.

Lemma low_bits b x k : 0 <= b < 2 ^ 8 -> 0 <= k -> Z.testbit (b + 256 * x) k = if k <? 8 then Z.testbit b k else Z.testbit x (k - 8).
Proof.
  intros Hb Hk. change (2 ^ 8) with 256 in Hb. destruct (Z.ltb_spec k 8).
  - rewrite <- (Z.mod_pow2_bits_low (b + 256 * x) 8), <- (Z.mod_pow2_bits_low b 8) by lia. f_equal. change (2 ^ 8) with 256.
    Z.div_mod_to_equations. lia.
  - replace x with ((b + 256 * x) / 2 ^ 8) at 2 by (change (2 ^ 8) with 256; Z.div_mod_to_equations; lia).
    rewrite Z.div_pow2_bits by lia. f_equal. lia.
Qed.

Lemma le_val_testbit l k : bytes_ok l -> 0 <= k -> Z.testbit (le_val l) k = stream l k.
Proof.
  intros Hl. revert k. induction Hl as [|b l Hb Hl IH]; intros k Hk; [by rewrite Z.testbit_0_l; unfold stream; rewrite lookup_nil|].
  cbn [le_val]. rewrite low_bits, stream_cons by done. destruct (Z.ltb_spec k 8); [done|]. apply IH. lia.
Qed.

(** * Matches *)
Section copy.
Context (out : list Z) (d : nat) (Hd : (1 <= d <= length out)%nat).

(** The byte [t] places after the start of a match. *)
Definition repeated (t : nat) : Z := default 0 (out !! (length out - d + t mod d)%nat).
Definition copied (m : nat) : list Z := out ++ (repeated <$> seq 0 m).

Lemma repeated_in t : (t < d)%nat -> out !! (length out - d + t)%nat = Some (repeated t).
Proof.
  intros Ht. unfold repeated. rewrite Nat.mod_small by done.
  destruct (lookup_lt_is_Some_2 out (length out - d + t)) as [x Hx]; [lia|]. by rewrite Hx.
Qed.

Lemma repeated_back t : (d <= t)%nat -> repeated (t - d) = repeated t.
Proof. intros Ht. unfold repeated. replace t with (t - d + 1 * d)%nat at 2 by lia. by rewrite Nat.Div0.mod_add. Qed.

Lemma copied_length m : length (copied m) = (length out + m)%nat.
Proof. unfold copied. by rewrite length_app, length_fmap, length_seq. Qed.

(** From where the match starts on, what has been written repeats. *)
Lemma copied_lookup m t : (t < d + m)%nat -> copied m !! (length out - d + t)%nat = Some (repeated t).
Proof.
  intros Ht. unfold copied. destruct (Nat.lt_ge_cases t d) as [Hlt|Hge].
  - rewrite lookup_app_l by lia. by apply repeated_in.
  - rewrite lookup_app_r by lia. rewrite list_lookup_fmap, lookup_seq_lt by lia. cbn [fmap option_fmap option_map].
    f_equal. rewrite <- (repeated_back t) by done. f_equal. lia.
Qed.

Lemma copied_add m n : copied m ++ (repeated <$> seq m n) = copied (m + n).
Proof. unfold copied. by rewrite seq_app, fmap_app, app_assoc. Qed.

Lemma lz_copy_repeats n : forall m, lz_copy n d (copied m) = copied (m + n).
Proof.
  induction n as [|n IH]; intros m; cbn [lz_copy]; [by rewrite Nat.add_0_r|].
  rewrite copied_length. replace (length out + m - d)%nat with (length out - d + m)%nat by lia.
  rewrite (drop_S _ (repeated m)) by (apply copied_lookup; lia). cbn [take]. rewrite take_0.
  change [repeated m] with (repeated <$> seq m 1). rewrite copied_add, IH. f_equal. lia.
Qed.

Lemma copied_slice m k : (k <= d + m)%nat ->
  slice (copied m) (Z.of_nat (length out - d)) (Z.of_nat (length out - d) + Z.of_nat k) = repeated <$> seq 0 k.
Proof.
  intros Hk. unfold slice. replace (Z.to_nat (Z.of_nat (length out - d) + Z.of_nat k - Z.of_nat (length out - d))) with k by lia.
  rewrite Nat2Z.id. apply list_eq. intros t. rewrite list_lookup_fmap. destruct (Nat.lt_ge_cases t k) as [Hlt|Hge].
  - rewrite lookup_take_lt, lookup_drop, copied_lookup by lia. by rewrite lookup_seq_lt by done.
  - rewrite lookup_take_ge by done. by rewrite lookup_ge_None_2 by (rewrite length_seq; lia).
Qed.

Lemma repeated_seq m k : (m mod d = 0)%nat -> repeated <$> seq m k = repeated <$> seq 0 k.
Proof.
  intros Hm. apply list_eq. intros t. rewrite !list_lookup_fmap. destruct (Nat.lt_ge_cases t k) as [Hlt|Hge].
  - rewrite !lookup_seq_lt by done. cbn [fmap option_fmap option_map]. f_equal. unfold repeated. do 3 f_equal.
    rewrite Nat.Div0.add_mod, Hm, Nat.add_0_l, Nat.Div0.mod_mod. done.
  - by rewrite !lookup_ge_None_2 by (rewrite length_seq; lia).
Qed.

Lemma copy_loop_ok fuel : forall m n, (n <= fuel)%nat -> (m mod d = 0)%nat \/ n = 0%nat ->
  copy_loop fuel (Z.of_nat (length out - d)) (Z.of_nat n) (copied m) = Ok (copied (m + n)).
Proof.
  induction fuel as [|fuel IH]; intros m n Hn Hm; cbn [copy_loop].
  - replace n with 0%nat by lia. by rewrite Nat.add_0_r.
  - destruct (Z.ltb_spec 0 (Z.of_nat n)) as [Hpos|Hz]; [|replace n with 0%nat by lia; by rewrite Nat.add_0_r].
    destruct Hm as [Hm| ->]; [|lia]. rewrite copied_length.
    set (k := Nat.min n (d + m)). assert (Z.min (Z.of_nat n) (Z.of_nat (length out + m) - Z.of_nat (length out - d)) = Z.of_nat k) as -> by lia.
    unfold index_range. rewrite copied_length. rewrite !(proj2 (Z.leb_le _ _)) by lia. cbn [andb mbind outcome_bind].
    rewrite copied_slice, <- (repeated_seq m), copied_add by (lia || done).
    replace (Z.of_nat n - Z.of_nat k) with (Z.of_nat (n - k)) by lia. rewrite IH; [do 2 f_equal; lia|lia|].
    destruct (Nat.le_gt_cases n (d + m)); [right; lia|left]. replace k with (d + m)%nat by lia.
    replace (m + (d + m))%nat with (m + m + 1 * d)%nat by lia. rewrite Nat.Div0.mod_add, Nat.Div0.add_mod, Hm. by apply Nat.Div0.mod_0_l.
Qed.

Lemma copy_match_ok n : copy_match out (Z.of_nat d) (Z.of_nat n) = Ok (lz_copy n d out).
Proof.
  assert (copied 0 = out) as H0 by (unfold copied; cbn; by rewrite app_nil_r).
  rewrite <- H0 at 2. rewrite lz_copy_repeats. unfold copy_match. rewrite (proj2 (Z.ltb_ge _ _)) by lia.
  destruct (Z.eqb_spec (Z.of_nat d) 1) as [H1|H1].
  - pose proof (copied_lookup 0 0 ltac:(lia)) as Hl. rewrite H0, Nat.add_0_r in Hl.
    rewrite (idx_Some out _ (repeated 0)) by (try lia; rewrite <- Hl; f_equal; lia). cbn [mbind outcome_bind].
    rewrite Nat2Z.id. unfold copied. do 2 f_equal. apply list_eq. intros t.
    destruct (Nat.lt_ge_cases t n) as [Hlt|Hge].
    + rewrite lookup_replicate_2, list_lookup_fmap, lookup_seq_lt by done. cbn. f_equal. unfold repeated.
      replace d with 1%nat by lia. by rewrite !Nat.mod_1_r.
    + rewrite !lookup_ge_None_2; [done|rewrite length_fmap, length_seq; lia|rewrite length_replicate; lia].
  - replace (Zlen out - Z.of_nat d) with (Z.of_nat (length out - d)) by lia. rewrite Nat2Z.id.
    transitivity (copy_loop n (Z.of_nat (length out - d)) (Z.of_nat n) (copied 0)); [by rewrite H0|].
    apply copy_loop_ok; [done|]. left. by apply Nat.Div0.mod_0_l.
Qed.

Lemma lz_copy_length n : length (lz_copy n d out) = (length out + n)%nat.
Proof.
  assert (copied 0 = out) as H0 by (unfold copied; cbn; by rewrite app_nil_r).
  rewrite <- H0 at 1. by rewrite lz_copy_repeats, copied_length.
Qed.
End copy.

Lemma lz_copy_bytes n d : forall out, bytes_ok out -> bytes_ok (lz_copy n d out).
Proof.
  induction n as [|n IH]; intros out Ho; cbn [lz_copy]; [done|]. apply IH, Forall_app. split; [done|]. by apply Forall_take, Forall_drop.
Qed.

(** * The bit buffer *)
Section proofs.
Context (data : list Z) (Hdata : bytes_ok data).

(** How many bits have been taken. *)
Definition at_ (st : Inflater) : Z := (pos st + virt st) * 8 - bitcnt st.
Definition rest (st : Inflater) : list bool := drop (Z.to_nat (at_ st)) (bits_of data).

Record inv (st : Inflater) : Prop := {
  inv_pos : 0 <= pos st <= Zlen data;
  inv_virt : 0 <= virt st <= 8 /\ (virt st <> 0 -> pos st = Zlen data);
  inv_cnt : 0 <= bitcnt st <= 64;
  inv_at : 0 <= at_ st;
  inv_buf : 0 <= bitbuf st < 2 ^ 64;
  inv_bits : forall i, 0 <= i < bitcnt st -> Z.testbit (bitbuf st) i = stream data (at_ st + i);
  inv_ahead : forall i, bitcnt st <= i < 64 -> Z.testbit (bitbuf st) i = true -> stream data (at_ st + i) = true
}.

Lemma inv_start : inv {| pos := 0; bitbuf := 0; bitcnt := 0; virt := 0 |}.
Proof.
  split; unfold at_; cbn [pos bitbuf bitcnt virt]; [lia|lia|lia|lia|lia|lia|]. intros i Hi. by rewrite Z.testbit_0_l.
Qed.

Lemma rest_length st : inv st -> Z.of_nat (length (rest st)) = Z.max 0 (8 * Zlen data - at_ st).
Proof. intros Hi. destruct Hi. unfold rest. rewrite length_drop, bits_of_length. lia. Qed.

Lemma rest_lookup st i : inv st -> 0 <= i -> at_ st + i < 8 * Zlen data -> rest st !! Z.to_nat i = Some (stream data (at_ st + i)).
Proof.
  intros Hinv Hi Hlt. destruct Hinv. unfold rest. rewrite lookup_drop, bits_of_lookup by lia. do 2 f_equal. lia.
Qed.

Lemma rest_advance st st' n : 0 <= n -> 0 <= at_ st -> at_ st' = at_ st + n -> rest st' = drop (Z.to_nat n) (rest st).
Proof. intros Hn H0 Hat. unfold rest. rewrite drop_drop. f_equal. lia. Qed.

Lemma below64 x : (forall i, 64 <= i -> Z.testbit x i = false) -> 0 <= x -> 0 <= x < 2 ^ 64.
Proof.
  intros H Hx. split; [done|]. assert (x = x mod 2 ^ 64) as ->; [|apply Z.mod_pos_bound; lia].
  apply Z.bits_inj'. intros i Hi. destruct (Z.lt_ge_cases i 64).
  - by rewrite Z.mod_pow2_bits_low by lia.
  - rewrite Z.mod_pow2_bits_high by lia. by apply H.
Qed.

Lemma above64 x i : 0 <= x < 2 ^ 64 -> 64 <= i -> Z.testbit x i = false.
Proof. intros Hx Hi. rewrite <- (Z.mod_small x (2 ^ 64)) by done. by rewrite Z.mod_pow2_bits_high by lia. Qed.

(** Or-ing bits that the stream has at their place, from [bitcnt] on. *)
Lemma inv_or st x pos' n virt' : inv st -> 0 <= pos' <= Zlen data -> 0 <= virt' <= 8 -> (virt' <> 0 -> pos' = Zlen data) ->
  bitcnt st + n <= 64 -> 0 <= n -> (pos' + virt') * 8 = (pos st + virt st) * 8 + n -> 0 <= x < 2 ^ 64 ->
  (forall i, 0 <= i < bitcnt st -> Z.testbit x i = false) ->
  (forall i, bitcnt st <= i < 64 -> Z.testbit x i = true -> stream data (at_ st + i) = true) ->
  (forall i, bitcnt st <= i < bitcnt st + n -> Z.testbit x i = stream data (at_ st + i)) ->
  let st' := {| pos := pos'; bitbuf := Z.lor (bitbuf st) x; bitcnt := bitcnt st + n; virt := virt' |} in
  inv st' /\ at_ st' = at_ st.
Proof.
  intros [Hp Hv Hc Ha Hb Hbits Hahead] Hp' Hv' Hvp Hn Hn0 Hload Hx Hlow Hhigh Hexact st'.
  assert (at_ st' = at_ st) as Hat by (unfold at_, st'; cbn; lia). split; [|done].
  split; rewrite ?Hat; cbn [pos bitbuf bitcnt virt st']; try lia.
  - apply below64; [|apply Z.lor_nonneg; lia]. intros i Hi. rewrite Z.lor_spec, !above64 by done. done.
  - intros i Hi. rewrite Z.lor_spec. destruct (Z.lt_ge_cases i (bitcnt st)).
    + by rewrite Hbits, Hlow, orb_false_r by lia.
    + rewrite Hexact by lia. destruct (Z.testbit (bitbuf st) i) eqn:Hbit; [|done].
      by rewrite (Hahead i) by (lia || done).
  - intros i Hi. rewrite Z.lor_spec. intros [H|H]%orb_true_iff; [apply Hahead|apply Hhigh]; (lia || done).
Qed.

Lemma stream_slice a b k : 0 <= a -> b <= Zlen data -> 0 <= k < 8 * (b - a) -> stream (slice data a b) k = stream data (8 * a + k).
Proof.
  intros Ha Hb Hk. unfold stream, slice. rewrite lookup_take_lt by (Z.div_mod_to_equations; lia). rewrite lookup_drop.
  replace ((8 * a + k) mod 8) with (k mod 8) by (Z.div_mod_to_equations; lia).
  replace (Z.to_nat ((8 * a + k) / 8)) with (Z.to_nat a + Z.to_nat (k / 8))%nat by (Z.div_mod_to_equations; lia).
  done.
Qed.

Lemma shifted_testbit v c i : 0 <= c -> 0 <= i -> Z.testbit (Z.shiftl v c) i = if i <? c then false else Z.testbit v (i - c).
Proof.
  intros Hc Hi. rewrite Z.shiftl_spec by done. destruct (Z.ltb_spec i c); [|done]. apply Z.testbit_neg_r. lia.
Qed.

Definition refilled (st : Inflater) (m : outcome ImageError (unit * Inflater)) : Prop :=
  match m with
  | Ok (_, st') => inv st' /\ at_ st' = at_ st /\ 56 <= bitcnt st'
  | Err _ => 8 * Zlen data < at_ st
  | Panic => False
  end.

Lemma refill_loop_spec n : forall st, inv st -> 56 < bitcnt st + 8 * Z.of_nat n -> refilled st (refill_loop data n st).
Proof.
  induction n as [|n IH]; intros st Hinv Hn; cbn [refill_loop]; destruct (Z.leb_spec (bitcnt st) 56) as [Hle|Hgt];
    [lia|by cbn; split_and!; [done|done|lia]| |by cbn; split_and!; [done|done|lia]].
  pose proof Hinv as [Hp [Hv Hvp] Hc Ha Hb _ _].
  assert (forall byte pos' virt', 0 <= pos' <= Zlen data -> 0 <= virt' <= 8 -> (virt' <> 0 -> pos' = Zlen data) ->
    (pos' + virt') = (pos st + virt st) + 1 -> is_byte byte ->
    (forall k, 0 <= k < 8 -> Z.testbit byte k = stream data (8 * (pos st + virt st) + k)) ->
    refilled st (refill_loop data n {| pos := pos'; bitbuf := Z.lor (bitbuf st) (Z.shiftl byte (bitcnt st));
                                       bitcnt := bitcnt st + 8; virt := virt' |})) as Hgo.
  { intros byte pos' virt' Hp' Hv' Hvp' Hload Hbyte Hbits. unfold is_byte in Hbyte.
    destruct (inv_or st (Z.shiftl byte (bitcnt st)) pos' 8 virt') as [Hinv' Hat']; [done|lia|lia|done|lia|lia|lia| | | | |].
    - rewrite Z.shiftl_mul_pow2 by lia. split; [lia|]. apply Z.le_lt_trans with (255 * 2 ^ 56); [|done].
      apply Z.mul_le_mono_nonneg; try lia. apply Z.pow_le_mono_r; lia.
    - intros i Hi. rewrite shifted_testbit by lia. by rewrite (proj2 (Z.ltb_lt _ _)) by lia.
    - intros i Hi. rewrite shifted_testbit by lia. rewrite (proj2 (Z.ltb_ge _ _)) by lia.
      destruct (Z.lt_ge_cases (i - bitcnt st) 8) as [H8|H8].
      + rewrite Hbits by lia. intros <-. f_equal. unfold at_. lia.
      + rewrite <- (Z.mod_small byte (2 ^ 8)) by (change (2 ^ 8) with 256; lia). by rewrite Z.mod_pow2_bits_high by lia.
    - intros i Hi. rewrite shifted_testbit by lia. rewrite (proj2 (Z.ltb_ge _ _)) by lia. rewrite Hbits by lia. f_equal. unfold at_. lia.
    - specialize (IH _ Hinv' ltac:(cbn; lia)). unfold refilled in *. rewrite Hat' in IH. exact IH. }
  destruct (data !! Z.to_nat (pos st)) as [b|] eqn:Hbyte; cbn [mbind outcome_bind pos bitbuf bitcnt virt].
  - pose proof (lookup_lt_Some _ _ _ Hbyte). assert (virt st = 0) as Hv0 by (destruct (Z.eq_dec (virt st) 0); [done|specialize (Hvp n0); lia]).
    apply Hgo; [lia|lia|lia|lia| |].
    + eapply Forall_lookup_1; [exact Hdata|exact Hbyte].
    + intros k Hk. rewrite Hv0. replace (8 * (pos st + 0) + k) with (8 * Z.of_nat (Z.to_nat (pos st)) + k) by lia.
      by rewrite (stream_byte _ _ _ b).
  - apply lookup_ge_None in Hbyte. destruct (Z.ltb_spec 8 (virt st + 1)) as [H8|H8]; cbn [mbind outcome_bind pos bitbuf bitcnt virt].
    + cbn. unfold at_. lia.
    + apply Hgo; [lia|lia|lia|lia|unfold is_byte; lia|]. intros k Hk. rewrite Z.testbit_0_l. symmetry. apply stream_past. lia.
Qed.

Lemma refill_spec st : inv st -> refilled st (refill data st).
Proof.
  intros Hinv. pose proof Hinv as [Hp [Hv Hvp] Hc Ha Hb _ _]. unfold refill. destruct (Z.ltb_spec 56 (bitcnt st)) as [Hgt|Hle]; [cbn; split_and!; [done|done|lia]|].
  unfold get_range. destruct ((0 <=? pos st) && (pos st <=? pos st + 8) && (pos st + 8 <=? Zlen data)) eqn:Hr; [|apply refill_loop_spec; [done|lia]].
  apply andb_true_iff in Hr as [_ Hr]. apply Z.leb_le in Hr.
  assert (virt st = 0) as Hv0 by (destruct (Z.eq_dec (virt st) 0) as [|n]; [done|specialize (Hvp n); lia]).
  set (chunk := slice data (pos st) (pos st + 8)).
  assert (bytes_ok chunk) as Hchunk by (by apply Forall_take, Forall_drop).
  rewrite Z.shiftr_div_pow2 by lia. set (nb := (63 - bitcnt st) / 2 ^ 3).
  assert (nb * 8 <= 63 - bitcnt st < nb * 8 + 8) as Hnb by (unfold nb; change (2 ^ 3) with 8; Z.div_mod_to_equations; lia).
  assert (forall i, bitcnt st <= i < 64 -> Z.testbit (Z.shiftl (le_val chunk) (bitcnt st) mod 2 ^ 64) i = stream data (at_ st + i)) as Hbits.
  { intros i Hi. rewrite Z.mod_pow2_bits_low, shifted_testbit by lia. rewrite (proj2 (Z.ltb_ge _ _)) by lia.
    rewrite le_val_testbit by (done || lia). unfold chunk. rewrite stream_slice by lia. f_equal. unfold at_. lia. }
  destruct (inv_or st (Z.shiftl (le_val chunk) (bitcnt st) mod 2 ^ 64) (pos st + nb) (nb * 8) (virt st)) as [Hinv' Hat'];
    [done|lia|lia|lia|lia|lia|lia|by apply Z.mod_pos_bound| | | |].
  - intros i Hi. rewrite Z.mod_pow2_bits_low, shifted_testbit by lia. by rewrite (proj2 (Z.ltb_lt _ _)) by lia.
  - intros i Hi. by rewrite Hbits.
  - intros i Hi. apply Hbits. lia.
  - cbn [refilled]. split; [exact Hinv'|]. split; [exact Hat'|]. cbn [bitcnt]. clearbody nb. lia.
Qed.

(** * Taking bits *)
Lemma consume_spec n st : inv st -> 0 <= n <= bitcnt st -> exists st',
  consume n st = Ok (tt, st') /\ inv st' /\ at_ st' = at_ st + n /\ bitcnt st' = bitcnt st - n.
Proof.
  intros [Hp [Hv Hvp] Hc Ha Hb Hbits Hahead] Hn. unfold consume. rewrite (proj2 (Z.leb_le _ _)) by lia.
  eexists. split; [reflexivity|].
  assert (forall st', pos st' = pos st -> virt st' = virt st -> bitcnt st' = bitcnt st - n -> at_ st' = at_ st + n) as Hat
    by (intros st' H1 H2 H3; unfold at_; rewrite H1, H2, H3; lia).
  split; [|split; [by apply Hat|done]]. rewrite Z.shiftr_div_pow2 by lia.
  assert (forall i, 0 <= i -> Z.testbit (bitbuf st / 2 ^ n) i = Z.testbit (bitbuf st) (i + n)) as Hsh
    by (intros i Hi; apply Z.div_pow2_bits; lia).
  split; rewrite ?Hat by done; cbn [pos bitbuf bitcnt virt]; try lia.
  - split; [apply Z.div_pos; lia|]. apply Z.div_lt_upper_bound; [lia|]. nia.
  - intros i Hi. rewrite Hsh, Hbits by lia. f_equal. lia.
  - intros i Hi. rewrite Hsh by lia. intros Hbit. destruct (Z.lt_ge_cases (i + n) 64).
    + apply Hahead in Hbit; [|lia]. rewrite <- Hbit. f_equal. lia.
    + by rewrite above64 in Hbit.
Qed.

(** A computation on the buffer reads what the specification reads: it does not panic,
    takes [lo] bits at least and [hi] of the buffered ones at most, and until the stream
    has been overrun the specification has the same outcome. *)
Definition reads {A B} (lo hi : Z) (R : A -> B -> Prop) (m : inflater A) (s : reader B) (st : Inflater) : Prop :=
  match m st with
  | Ok (a, st') =>
    inv st' /\ at_ st + lo <= at_ st' /\ bitcnt st - hi <= bitcnt st' /\
    exists b, R a b /\
      (at_ st <= 8 * Zlen data -> s (rest st) = if at_ st' <=? 8 * Zlen data then Some (b, rest st') else None)
  | Err _ => at_ st <= 8 * Zlen data -> s (rest st) = None
  | Panic => False
  end.

Lemma reads_bind {A B C D} lo1 hi1 lo2 hi2 (R : A -> B -> Prop) (R' : C -> D -> Prop) m s (f : A -> inflater C) (g : B -> reader D) st :
  0 <= lo2 -> reads lo1 hi1 R m s st ->
  (forall a b st', inv st' -> R a b -> at_ st + lo1 <= at_ st' -> bitcnt st - hi1 <= bitcnt st' -> reads lo2 hi2 R' (f a) (g b) st') ->
  reads (lo1 + lo2) (hi1 + hi2) R' (m ≫= f) (s ≫= g) st.
Proof.
  intros Hlo2. unfold reads at 1 3. unfold mbind, inflater_bind, reader_bind. destruct (m st) as [[a st1]|e|]; cbn [mbind outcome_bind]; [|intros H _ Hat; by rewrite H|done].
  intros (Hinv1 & Hat1 & Hc1 & b & HR & Hs) Hf. specialize (Hf a b st1 Hinv1 HR Hat1 Hc1). unfold reads in Hf.
  destruct (f a st1) as [[c st2]|e|]; [| |done].
  - destruct Hf as (Hinv2 & Hat2 & Hc2 & d & HR' & Hs'). split; [done|]. split; [lia|]. split; [lia|]. exists d. split; [done|].
    intros Hin. rewrite Hs by done. destruct (Z.leb_spec (at_ st1) (8 * Zlen data)) as [H1|H1].
    + by apply Hs'.
    + by rewrite (proj2 (Z.leb_gt _ _)) by lia.
  - intros Hin. rewrite Hs by done. destruct (Z.leb_spec (at_ st1) (8 * Zlen data)) as [H1|H1]; [by apply Hf|done].
Qed.

Lemma reads_weaken {A B} lo lo' hi hi' (R R' : A -> B -> Prop) m s st :
  lo' <= lo -> hi <= hi' -> (forall a b, R a b -> R' a b) -> reads lo hi R m s st -> reads lo' hi' R' m s st.
Proof.
  intros Hlo Hhi HR. unfold reads. destruct (m st) as [[a st']|e|]; [|done..].
  intros (? & ? & ? & b & ? & ?). split; [done|]. split; [lia|]. split; [lia|]. exists b. auto.
Qed.

Lemma reads_ret {A B} (R : A -> B -> Prop) hi a b st : inv st -> 0 <= hi -> R a b -> reads 0 hi R (mret a) (mret b) st.
Proof.
  intros Hinv Hhi HR. cbn. split; [done|]. split; [lia|]. split; [lia|]. exists b. split; [done|]. intros Hin.
  by rewrite (proj2 (Z.leb_le _ _)).
Qed.

Lemma reads_bail {A B} lo hi (R : A -> B -> Prop) e st : reads lo hi R (bail e) fail st.
Proof. done. Qed.

(** A total computation beside the reader. *)
Lemma reads_pure {A C D} lo hi (R : C -> D -> Prop) (m : outcome ImageError A) a (f : A -> inflater C) s st :
  m = Ok a -> reads lo hi R (f a) s st -> reads lo hi R (pure_ m ≫= f) s st.
Proof. intros ->. done. Qed.

Lemma reads_refill {C D} lo hi (R : C -> D -> Prop) (f : inflater C) s st : inv st -> 0 <= lo ->
  (forall st', inv st' -> at_ st' = at_ st -> 56 <= bitcnt st' -> reads lo hi R f s st') ->
  reads lo 64 R (_ ← refill data; f) s st.
Proof.
  intros Hinv Hlo Hf. pose proof (refill_spec st Hinv) as Hr. unfold reads, mbind, inflater_bind, refilled in *.
  destruct (refill data st) as [[[] st']|e|]; cbn [mbind outcome_bind]; [|lia|done].
  destruct Hr as (Hinv' & Hat & Hc). specialize (Hf st' Hinv' Hat Hc). unfold reads, rest in *. rewrite Hat in Hf.
  destruct (f st') as [[c st'']|e|]; [|done..]. destruct Hf as (H1 & H2 & H3 & H4). split; [done|]. split; [done|]. split; [|done].
  pose proof (inv_cnt _ Hinv). pose proof (inv_cnt _ H1). lia.
Qed.

Lemma read_bits_value n : forall v bs, (forall k, (k < n)%nat -> (k < length bs)%nat -> bs !! k = Some (Z.testbit v (Z.of_nat k))) ->
  read_bits n bs = if Nat.leb n (length bs) then Some (v mod 2 ^ Z.of_nat n, drop n bs) else None.
Proof.
  induction n as [|n IH]; intros v bs Hbs; [cbn; by rewrite Z.mod_1_r|].
  cbn [read_bits]. unfold mbind, reader_bind. destruct bs as [|b bs]; [done|]. cbn [read_bit].
  rewrite (IH (v / 2)).
  2: { intros k Hk Hl. specialize (Hbs (S k) ltac:(lia) ltac:(cbn; lia)). change ((b :: bs) !! S k) with (bs !! k) in Hbs. rewrite Hbs. f_equal.
       change (v / 2) with (v / 2 ^ 1). rewrite Z.div_pow2_bits by lia. f_equal. lia. }
  cbn [length]. destruct (Nat.leb_spec n (length bs)) as [H|H].
  - rewrite (proj2 (Nat.leb_le _ _)) by lia. cbn [drop]. unfold mret, reader_ret. do 2 f_equal.
    specialize (Hbs 0%nat ltac:(lia) ltac:(cbn; lia)). change ((b :: bs) !! 0%nat) with (Some b) in Hbs.
    assert (Z.b2z b = v mod 2) as -> by (rewrite <- Z.bit0_mod; f_equal; by injection Hbs). rewrite Nat2Z.inj_succ, Z.pow_succ_r by lia. rewrite Z.rem_mul_r by lia. lia.
  - by rewrite (proj2 (Nat.leb_gt _ _)) by lia.
Qed.

(** The specification's view of the buffered bits. *)
Lemma rest_buffered st n : inv st -> 0 <= n <= bitcnt st -> forall k, (k < Z.to_nat n)%nat -> (k < length (rest st))%nat ->
  rest st !! k = Some (Z.testbit (bitbuf st) (Z.of_nat k)).
Proof.
  intros Hinv Hn k Hk Hl. pose proof (rest_length st Hinv). rewrite (inv_bits _ Hinv) by lia.
  rewrite <- (Nat2Z.id k) at 1. apply rest_lookup; [done|lia|lia].
Qed.

Lemma reads_bits n st : inv st -> 0 <= n <= bitcnt st ->
  reads n n (fun a b => a = b /\ 0 <= a < 2 ^ n) (bits n) (read_bits (Z.to_nat n)) st.
Proof.
  intros Hinv Hn. unfold reads, bits. destruct (consume_spec n st Hinv Hn) as (st' & -> & Hinv' & Hat & Hc). cbn [mbind outcome_bind].
  split; [done|]. split; [lia|]. split; [lia|].
  assert (Z.land (bitbuf st) (Z.shiftl 1 n - 1) = bitbuf st mod 2 ^ n) as ->.
  { rewrite Z.shiftl_mul_pow2, Z.mul_1_l by lia. rewrite <- land_ones_mod, Z.ones_equiv by lia. f_equal. }
  eexists. split; [split; [reflexivity|apply Z.mod_pos_bound; lia]|]. intros Hin.
  rewrite (read_bits_value _ (bitbuf st)) by (by apply rest_buffered). rewrite Z2Nat.id by lia.
  pose proof (rest_length st Hinv). pose proof (inv_at _ Hinv). rewrite (rest_advance st st' n) by lia.
  destruct (Nat.leb_spec (Z.to_nat n) (length (rest st))).
  - by rewrite (proj2 (Z.leb_le _ _)) by lia.
  - by rewrite (proj2 (Z.leb_gt _ _)) by lia.
Qed.

(** * Symbols *)
Lemma walk_found lens i m l' s bs : found lens i m = Some (l', s) -> (m <= 15)%nat ->
  (forall k, (k < m)%nat -> (k < length bs)%nat -> bs !! k = Some (Z.testbit i (Z.of_nat k))) ->
  read_symbol lens bs = if Nat.leb l' (length bs) then Some (s, drop l' bs) else None.
Proof.
  intros Hf Hm Hbs. apply found_lt in Hf as (Hl' & Hs & Hnone).
  assert (forall d l, (l + d = l')%nat -> (1 <= d)%nat ->
    walk lens (15 - l) (S l) (code_of i l) (drop l bs) = if Nat.leb l' (length bs) then Some (s, drop l' bs) else None) as H.
  2: { change (read_symbol lens bs) with (walk lens (15 - 0) 1 (code_of i 0) (drop 0 bs)). apply (H l' 0%nat); lia. }
  induction d as [|d IH]; intros l Hd H1; [lia|]. replace (15 - l)%nat with (S (15 - S l)) by lia. cbn [walk].
  unfold mbind, reader_bind. destruct (Nat.lt_ge_cases l (length bs)) as [Hlt|Hge].
  - rewrite (drop_S bs (Z.testbit i (Z.of_nat l)) l) by (apply Hbs; lia). cbn [read_bit].
    change (2 * code_of i l + Z.b2z (Z.testbit i (Z.of_nat l))) with (code_of i (S l)).
    destruct d as [|d].
    + assert (S l = l') as <- by lia. rewrite Hs, (proj2 (Nat.leb_le _ _)) by lia. done.
    + assert (symbol_at lens (S l) (code_of i (S l)) = None) as ->; [|apply IH; lia].
      specialize (Hnone (S l) ltac:(lia)). cbn [found] in Hnone. destruct (found lens i l); [done|]. by apply fmap_None in Hnone.
  - rewrite drop_ge by lia. by rewrite (proj2 (Nat.leb_gt _ _)) by lia.
Qed.

Section symbols.
Context (lens : list Z) (h : Huffman) (Htable : table lens h) (Hsmall : Zlen lens <= 4096).

Lemma reads_bit st : inv st -> 1 <= bitcnt st -> reads 1 1 (fun a b => a = Z.b2z b) (bits 1) read_bit st.
Proof.
  intros Hinv Hc. pose proof (reads_bits 1 st Hinv ltac:(lia)) as H. unfold reads in *.
  destruct (bits 1 st) as [[a st']|e|]; [|by intros Hin; specialize (H Hin); destruct (rest st)|done].
  destruct H as (H1 & H2 & H3 & b & [-> Hb] & Hs). change (2 ^ 1) with 2 in Hb. split; [done|]. split; [done|]. split; [done|].
  assert (b = Z.b2z (b =? 1)) as Hb2 by (destruct (Z.eqb_spec b 1); cbn; lia).
  exists (b =? 1). split; [done|]. intros Hin. specialize (Hs Hin).
  change (Z.to_nat 1) with 1%nat in Hs. unfold read_bits, mbind, reader_bind, mret, reader_ret in Hs.
  destruct (rest st) as [|x bs]; cbn [read_bit] in Hs |- *; [by destruct (_ <=? _)|].
  destruct (_ <=? _); [|done]. injection Hs as <- <-. by destruct x.
Qed.

Lemma reads_slow n : forall l c st, (l + n = 15)%nat -> inv st -> Z.of_nat n <= bitcnt st ->
  first_code lens l + counted lens l <= c ->
  reads 1 (Z.of_nat n) (fun a b => a = b /\ 0 <= a < Zlen lens)
    (decode_slow h n (Z.of_nat (S l)) (2 * c) (first_code lens (S l)) (place lens (S l))) (walk lens n (S l) c) st.
Proof.
  induction n as [|n IH]; intros l c st Hl Hinv Hn Hc; [apply reads_bail|].
  cbn [decode_slow walk]. apply reads_weaken with (lo := 1 + 0) (hi := 1 + Z.of_nat n)
    (R := fun a b => a = b /\ 0 <= a < Zlen lens); [lia|lia|done|].
  eapply reads_bind; [lia|apply reads_bit; [done|lia]|]. intros a b st' Hinv' -> _ Hc'. cbv beta.
  apply reads_pure with (a := counted lens (S l)).
  { rewrite (t_count _ _ Htable), idx_counts, Nat2Z.id by lia. done. }
  assert (Z.lor (2 * c) (Z.b2z b) = 2 * c + Z.b2z b) as ->.
  { change 2 with (2 ^ 1). apply lor_disjoint; [lia|]. destruct b; cbn; lia. }
  set (code := 2 * c + Z.b2z b). assert (first_code lens (S l) <= code) as Hcode.
  { rewrite first_S. unfold code. destruct b; cbn [Z.b2z]; lia. }
  pose proof (place_nonneg lens (S l)) as Hpl.
  destruct (Z.ltb_spec (code - counted lens (S l)) (first_code lens (S l))) as [Hlt|Hge].
  - destruct (lookup_lt_is_Some_2 (symbols_of lens (S l)) (Z.to_nat (code - first_code lens (S l)))) as [s Hs].
    { unfold counted, count_of in Hlt. lia. }
    rewrite (proj2 (Z.ltb_ge _ _)) by lia.
    replace (Z.to_nat (place lens (S l) + code - first_code lens (S l)))
      with (Z.to_nat (place lens (S l)) + Z.to_nat (code - first_code lens (S l)))%nat by lia.
    rewrite (t_symbols _ _ Htable _ _ s) by (lia || done).
    assert (symbol_at lens (S l) code = Some s) as Hsym by (unfold symbol_at; by rewrite (proj2 (Z.ltb_ge _ _)) by lia).
    rewrite Hsym. apply reads_ret; [done|lia|]. split; [done|]. by apply symbol_small in Hsym.
  - assert (symbol_at lens (S l) code = None) as ->.
    { unfold symbol_at. rewrite (proj2 (Z.ltb_ge _ _)) by lia. apply lookup_ge_None. unfold counted, count_of in Hge. lia. }
    rewrite !Z.shiftl_mul_pow2, !(Z.mul_comm _ (2 ^ 1)) by lia. change (2 ^ 1) with 2. rewrite <- first_S.
    replace (Z.of_nat (S l) + 1) with (Z.of_nat (S (S l))) by lia.
    apply reads_weaken with (lo := 1) (hi := Z.of_nat n) (R := fun a b => a = b /\ 0 <= a < Zlen lens); [lia|lia|done|].
    apply IH; [lia|done|lia|lia].
Qed.

Lemma reads_symbol st : inv st -> 15 <= bitcnt st ->
  reads 1 15 (fun a b => a = b /\ 0 <= a < Zlen lens) (decode_symbol h) (read_symbol lens) st.
Proof.
  intros Hinv Hc. unfold decode_symbol, FAST_BITS.
  assert (Z.land (bitbuf st) (Z.shiftl 1 10 - 1) = bitbuf st mod 2 ^ 10) as Hmask by (by rewrite <- land_ones_mod).
  set (i := bitbuf st mod 2 ^ 10) in *. assert (0 <= i < 1024) as Hi by (apply Z.mod_pos_bound; lia).
  pose proof (t_fast _ _ Htable i Hi) as Hfast. unfold fast_at in Hfast.
  assert (forall k, (k < 10)%nat -> (k < length (rest st))%nat -> rest st !! k = Some (Z.testbit i (Z.of_nat k))) as Hbits.
  { intros k Hk Hlen. rewrite (rest_buffered st 10) by (lia || done). unfold i. by rewrite Z.mod_pow2_bits_low by lia. }
  destruct (found lens i 10) as [[l s]|] eqn:Hfound.
  - pose proof (found_lt _ _ _ _ _ Hfound) as (Hl & Hsym & _). pose proof (symbol_small _ _ _ _ Hsym) as Hs.
    destruct (entry_parts l s ltac:(lia) ltac:(lia)) as (Hne & Hlen & Hval).
    unfold reads. rewrite Hmask, (idx_Some (fast h) i _ (proj1 Hi) Hfast). cbn [mbind outcome_bind].
    rewrite (proj2 (Z.eqb_neq _ _)) by done. rewrite Hlen, Hval.
    destruct (consume_spec (Z.of_nat l) st Hinv ltac:(lia)) as (st' & -> & Hinv' & Hat & Hcnt). cbn [mbind outcome_bind].
    split; [done|]. split; [lia|]. split; [lia|]. exists s. split; [done|]. intros Hin.
    rewrite (walk_found lens i 10 l s) by (done || lia). pose proof (rest_length st Hinv). pose proof (inv_at _ Hinv).
    rewrite (rest_advance st st' (Z.of_nat l)) by lia. rewrite Nat2Z.id.
    destruct (Nat.leb_spec l (length (rest st))).
    + by rewrite (proj2 (Z.leb_le _ _)) by lia.
    + by rewrite (proj2 (Z.leb_gt _ _)) by lia.
  - unfold reads. rewrite Hmask, (idx_Some (fast h) i _ (proj1 Hi) Hfast). cbn [mbind outcome_bind].
    change (0 =? 0) with true. cbv iota. apply (reads_slow 15 0 0 st); [lia|done|lia|cbn; lia].
Qed.
End symbols.

End proofs.
