(* ===== verification/InflateBlocks.v ===== *)
(** The blocks of a DEFLATE stream: each kind reads what the specification reads, and a
    whole stream inflates to what the specification says, of exactly the size asked for. *)
From Stdlib Require Import ZArith Lia Bool.
From stdpp Require Import base list gmap strings.
From S2P Require Import Prelude Base64 Inflate HuffmanProofs InflateProofs.

Section blocks.
Context (data : list Z) (Hdata : bytes_ok data).
#[local] Abbreviation reads := (reads data).
#[local] Abbreviation inv := (inv data).
#[local] Abbreviation rest := (rest data).

(** Bits that are there without another refill: [lo] and [hi] are weakened to fit. *)
Lemma reads_step {A B C D} lo1 hi1 lo hi (R : A -> B -> Prop) (R' : C -> D -> Prop) m s (f : A -> inflater C) (g : B -> reader D) st :
  reads lo1 hi1 R m s st -> 0 <= lo1 -> lo <= lo1 ->
  (forall a b st', inv st' -> R a b -> at_ st + lo1 <= at_ st' -> bitcnt st - hi1 <= bitcnt st' -> reads 0 (hi - hi1) R' (f a) (g b) st') ->
  reads lo hi R' (m ≫= f) (s ≫= g) st.
Proof.
  intros Hm Hlo1 Hlo Hf. apply reads_weaken with (lo := lo1 + 0) (hi := hi1 + (hi - hi1)) (R := R'); [lia|lia|done|].
  by eapply reads_bind; [lia|exact Hm|].
Qed.

(** ** Stored blocks *)
Lemma bits_of_drop p : drop (8 * p) (bits_of data) = bits_of (drop p data).
Proof.
  clear Hdata. revert data. induction p as [|p IH]; intros data; [done|]. destruct data as [|b data]; [by rewrite drop_nil|].
  cbn [drop]. rewrite <- IH. unfold bits_of. cbn [fmap list_fmap concat]. replace (8 * S p)%nat with (length (byte_bits b) + 8 * p)%nat by (cbn; lia).
  by rewrite drop_app_add.
Qed.

Lemma read_bytes_bits n : forall l, bytes_ok l -> (n <= length l)%nat -> read_bytes n (bits_of l) = Some (take n l, bits_of (drop n l)).
Proof.
  induction n as [|n IH]; intros l Hl Hn; [by destruct l|]. destruct l as [|b l]; [cbn in Hn; lia|].
  apply Forall_cons in Hl as [Hb Hl]. cbn [read_bytes]. unfold mbind, reader_bind.
  assert (read_bits 8 (bits_of (b :: l)) = Some (b, bits_of l)) as ->.
  { rewrite (read_bits_value 8 b).
    - rewrite bits_of_length, (proj2 (Nat.leb_le _ _)) by (cbn; lia). change (Z.of_nat 8) with 8. change (2 ^ 8) with 256.
      unfold is_byte in Hb. rewrite Z.mod_small by done. done.
    - intros k Hk _. unfold bits_of. cbn [fmap list_fmap concat]. rewrite lookup_app_l by (cbn; lia). by apply byte_bits_lookup. }
  rewrite IH by (done || (cbn in Hn; lia)). done.
Qed.

Lemma read_16 l : bytes_ok l -> read_bits 16 (bits_of l) =
  if Nat.leb 2 (length l) then Some (le_val (take 2 l), bits_of (drop 2 l)) else None.
Proof.
  intros Hl. rewrite (read_bits_value 16 (le_val (take 2 l))).
  - rewrite bits_of_length. destruct (Nat.leb_spec 2 (length l)).
    + rewrite (proj2 (Nat.leb_le _ _)) by lia. f_equal. f_equal.
      * apply Z.mod_small. pose proof (le_val_range (take 2 l) ltac:(by apply Forall_take)) as Hr.
        rewrite length_take, Nat.min_l in Hr by lia. exact Hr.
      * destruct l as [|b1 [|b2 l]]; [cbn in *; lia..|]. done.
    + by rewrite (proj2 (Nat.leb_gt _ _)) by lia.
  - intros k Hk Hlen. rewrite bits_of_length in Hlen. rewrite bits_of_lookup by done. f_equal.
    rewrite le_val_testbit by (lia || by apply Forall_take). unfold stream. rewrite lookup_take_lt; [done|]. Z.div_mod_to_equations. lia.
Qed.

Definition good (out_len : Z) (a b : list Z) : Prop := a = b /\ Zlen a <= out_len /\ bytes_ok a.

(** A stored block at a byte boundary. *)
Lemma stored_bytes l out out_len : bytes_ok l -> Zlen out < out_len ->
  stored_spec out out_len (bits_of l) =
  (let len := le_val (take 2 l) in
   let body := drop 4 l in
   let n := Z.min (Z.min len (out_len - Zlen out)) (Zlen body) in
   let out' := out ++ take (Z.to_nat n) body in
   if Nat.leb 4 (length l) && (len =? 2 ^ 16 - 1 - le_val (take 2 (drop 2 l))) && ((out_len <=? Zlen out') || (len <=? Zlen body))
   then Some (out', bits_of (drop (Z.to_nat n) body)) else None).
Proof.
  intros Hl Hout. unfold stored_spec. rewrite bits_of_length.
  replace (8 * length l)%nat with (length l * 8)%nat by lia. rewrite Nat.Div0.mod_mul, drop_0.
  unfold mbind, reader_bind. rewrite read_16 by done. destruct (Nat.leb_spec 4 (length l)) as [H4|H4].
  2: { destruct (Nat.leb_spec 2 (length l)); [|done]. cbv beta iota. rewrite read_16 by (by apply Forall_drop).
       rewrite length_drop. by rewrite (proj2 (Nat.leb_gt _ _)) by lia. }
  rewrite (proj2 (Nat.leb_le _ _)) by lia. cbv beta iota. rewrite read_16 by (by apply Forall_drop). rewrite length_drop, (proj2 (Nat.leb_le _ _)) by lia.
  rewrite drop_drop. change (2 + 2)%nat with 4%nat. cbv beta iota zeta. cbn [andb].
  destruct (_ =? _) eqn:Heq; cbn [when andb]; [|done]. rewrite bits_of_length.
  assert (Z.of_nat (8 * length (drop 4 l)) / 8 = Zlen (drop 4 l)) as -> by (Z.div_mod_to_equations; lia).
  set (n := Z.min _ (Zlen (drop 4 l))).
  pose proof (le_val_range (take 2 l) ltac:(by apply Forall_take)) as Hr.
  rewrite read_bytes_bits by (try (by apply Forall_drop); lia). unfold when, fail. by destruct (_ || _).
Qed.

Lemma reads_stored out out_len st : inv st -> Zlen out < out_len -> bytes_ok out ->
  reads 0 64 (good out_len) (stored data out out_len) (stored_spec out out_len) st.
Proof.
  intros Hinv Hout Hbytes. pose proof Hinv as [_ _ Hc Ha _ _ _]. unfold InflateProofs.reads, stored.
  assert (Z.land (bitcnt st) 7 = bitcnt st mod 8) as -> by (by apply (land_ones_mod (bitcnt st) 3)).
  assert (0 <= bitcnt st mod 8 <= bitcnt st) as Hm by (Z.div_mod_to_equations; lia).
  destruct (consume_spec data (bitcnt st mod 8) st Hinv Hm) as (st1 & -> & Hinv1 & Hat1 & Hc1). cbn [mbind outcome_bind].
  assert (at_ st1 = 8 * (pos st1 + virt st1 - bitcnt st1 / 8)) as Ha1 by (unfold at_; Z.div_mod_to_equations; lia).
  pose proof Hinv1 as [Hp1 [Hv1 Hvp1] Hcc1 Hat0 _ _ _].
  set (v := Z.min (bitcnt st1 / 8) (virt st1)). assert (0 <= bitcnt st1 / 8) as Hdiv by (Z.div_mod_to_equations; lia).
  assert (0 <= pos st1 - (bitcnt st1 / 8 - v)) as Hback by lia.
  rewrite (proj2 (Z.ltb_ge _ _)) by lia. set (p := pos st1 - (bitcnt st1 / 8 - v)) in *.
  assert (at_ st1 = 8 * (p + (virt st1 - v))) as Hp by lia.
  destruct (Z.ltb_spec 0 (virt st1 - v)) as [Hover|Hnover].
  { intros Hin. exfalso. assert (pos st1 = Zlen data) by (apply Hvp1; lia). assert (8 * Zlen data < at_ st1) by lia.
    Z.div_mod_to_equations. lia. }
  assert (virt st1 - v = 0) as Hv0 by lia. rewrite Hv0 in *. assert (0 <= p <= Zlen data) as Hpr by lia. clearbody p v. rewrite Z.add_0_r in Hp.
  set (l := drop (Z.to_nat p) data). assert (bytes_ok l) as Hl by (by apply Forall_drop).
  assert (Zlen l = Zlen data - p) as Hll by (unfold l; rewrite length_drop; lia).
  assert (at_ st <= 8 * Zlen data -> stored_spec out out_len (rest st) = stored_spec out out_len (bits_of l)) as Hspec.
  { intros Hin. unfold stored_spec. f_equal. pose proof (rest_length data st Hinv) as Hlr.
    assert (drop (length (bits_of l) mod 8) (bits_of l) = bits_of l) as ->.
    { rewrite bits_of_length. replace (8 * length l)%nat with (length l * 8)%nat by lia. by rewrite Nat.Div0.mod_mul, drop_0. }
    assert (length (rest st) mod 8 = Z.to_nat (bitcnt st mod 8))%nat as ->.
    { apply Nat2Z.inj. rewrite Nat2Z.inj_mod, Hlr. unfold at_ in *. Z.div_mod_to_equations. lia. }
    unfold l. rewrite <- bits_of_drop, <- (rest_advance data st st1 (bitcnt st mod 8)) by lia.
    unfold InflateProofs.rest. f_equal. lia. }
  rewrite stored_bytes in Hspec by done. cbv zeta in Hspec.
  unfold get_range. rewrite (proj2 (Z.leb_le 0 p)), (proj2 (Z.leb_le p (p + 4))) by lia. cbn [andb].
  destruct (Z.leb_spec (p + 4) (Zlen data)) as [H4|H4]; cbn [ok_or mbind outcome_bind].
  2: { intros Hin. rewrite Hspec by done. by rewrite (proj2 (Nat.leb_gt _ _)) by lia. }
  rewrite (proj2 (Nat.leb_le 4 (length l))) in Hspec by lia. cbn [andb] in Hspec.
  set (hdr := slice data p (p + 4)). assert (hdr = take 4 l) as Hhdr by (unfold hdr, slice, l; f_equal; lia).
  assert (take 2 hdr = take 2 l) as -> by (by rewrite Hhdr, take_take).
  assert (drop 2 hdr = take 2 (drop 2 l)) as -> by (rewrite Hhdr; by apply (skipn_firstn_comm 2 4)).
  set (len := le_val (take 2 l)) in *. set (body := drop 4 l) in *.
  assert (0 <= len) as Hlen by (apply le_val_range; by apply Forall_take).
  assert (Zlen body = Zlen data - (p + 4)) as Hbl by (unfold body; rewrite length_drop; lia).
  destruct (len =? 2 ^ 16 - 1 - le_val (take 2 (drop 2 l))); cbn [negb andb] in *; [|done].
  rewrite (proj2 (Z.ltb_ge _ _)) by lia. rewrite <- Hbl.
  set (n := Z.min (Z.min len (out_len - Zlen out)) (Zlen body)) in *. assert (0 <= n <= Zlen body) as Hn by lia.
  unfold index_range. rewrite !(proj2 (Z.leb_le _ _)) by lia. cbn [andb mbind outcome_bind].
  assert (slice data (p + 4) (p + 4 + n) = take (Z.to_nat n) body) as ->.
  { unfold slice, body, l. rewrite drop_drop. do 2 f_equal; lia. }
  set (out' := out ++ take (Z.to_nat n) body) in *.
  assert (Zlen out' = Zlen out + n) as Hout' by (unfold out'; rewrite length_app, length_take; lia).
  assert (bytes_ok out') as Hb' by (apply Forall_app; split; [done|]; by apply Forall_take, Forall_drop).
  assert (forall pos', pos' = p + 4 + n -> inv {| pos := pos'; bitbuf := 0; bitcnt := 0; virt := 0 |} /\
    at_ {| pos := pos'; bitbuf := 0; bitcnt := 0; virt := 0 |} = 8 * pos' /\
    rest {| pos := pos'; bitbuf := 0; bitcnt := 0; virt := 0 |} = bits_of (drop (Z.to_nat n) body)) as Hend.
  { intros pos' ->. assert (at_ {| pos := p + 4 + n; bitbuf := 0; bitcnt := 0; virt := 0 |} = 8 * (p + 4 + n)) as Hat' by (unfold at_; cbn; lia).
    split; [|split; [done|]].
    - split; rewrite ?Hat'; cbn [pos bitbuf bitcnt virt]; try lia. intros i Hi. by rewrite Z.testbit_0_l.
    - unfold InflateProofs.rest. rewrite Hat'. unfold body, l. rewrite !drop_drop, <- bits_of_drop. f_equal. lia. }
  assert (at_ st <= 8 * (p + 4 + n)) as Hmono by lia.
  destruct (Z.leb_spec out_len (Zlen out')) as [Hfull|Hshort]; cbn [orb] in Hspec.
  - destruct (Hend (p + 4 + n) eq_refl) as (H1 & H2 & H3). split; [exact H1|]. split; [lia|]. split; [cbn [bitcnt]; lia|].
    exists out'. split; [split; [done|split; [lia|done]]|]. intros Hin. rewrite Hspec by done. rewrite H2, H3.
    by rewrite (proj2 (Z.leb_le _ _)) by lia.
  - destruct (Z.ltb_spec (Zlen body) len) as [Hav|Hav].
    + intros Hin. rewrite Hspec by done. by rewrite (proj2 (Z.leb_gt _ _)) by lia.
    + destruct (Hend (p + 4 + len) ltac:(lia)) as (H1 & H2 & H3). split; [exact H1|]. split; [lia|]. split; [cbn [bitcnt]; lia|].
      exists out'. split; [split; [done|split; [lia|done]]|]. intros Hin. rewrite Hspec by done. rewrite H2, H3.
      by rewrite !(proj2 (Z.leb_le _ _)) by lia.
Qed.

(** ** Coded blocks *)
Lemma tables_in_range : Forall (fun x => 3 <= x) LEN_BASE /\ Forall (fun x => 0 <= x <= 5) LEN_EXTRA /\
  Forall (fun x => 1 <= x) DIST_BASE /\ Forall (fun x => 0 <= x <= 13) DIST_EXTRA.
Proof. split_and!; apply (bool_decide_unpack _); vm_compute; reflexivity. Qed.

Lemma lookup_table (P : Z -> Prop) l i : Forall P l -> 0 <= i < Zlen l -> exists x, l !! Z.to_nat i = Some x /\ P x.
Proof.
  intros Hl Hi. destruct (lookup_lt_is_Some_2 l (Z.to_nat i)) as [x Hx]; [lia|]. exists x. split; [done|].
  by eapply Forall_lookup_1.
Qed.

Lemma reads_codes lit dist hl hd out_len n : table lit hl -> table dist hd -> Zlen lit <= 4096 -> Zlen dist <= 4096 ->
  forall out st, inv st -> Zlen out < out_len -> bytes_ok out -> 8 * Zlen data + 64 - at_ st < Z.of_nat n ->
  reads 0 64 (good out_len) (codes data n out_len hl hd out) (codes_spec n out_len lit dist out) st.
Proof.
  intros Htl Htd Hsl Hsd. destruct tables_in_range as (Hlb & Hle & Hdb & Hde).
  induction n as [|n IH]; intros out st Hinv Hout Hbytes Hn.
  { pose proof (inv_pos _ _ Hinv). pose proof (inv_virt _ _ Hinv). pose proof (inv_cnt _ _ Hinv). unfold at_ in Hn. lia. }
  cbn [codes codes_spec]. apply reads_refill with (hi := 128); [done|done|lia|]. intros st1 Hinv1 Hat1 Hc1.
  eapply reads_step with (lo1 := 1) (hi1 := 15); [apply reads_symbol; (done || lia)|lia|lia|]. intros sym ? st2 Hinv2 [<- Hsym] Hat2 Hc2.
  destruct (Z.ltb_spec sym 256) as [Hlit|Hlit].
  { assert (Zlen (out ++ [sym]) = Zlen out + 1) as Hlen by (rewrite length_app; cbn; lia).
    assert (bytes_ok (out ++ [sym])) as Hb by (apply Forall_app; split; [done|]; constructor; [unfold is_byte; lia|done]).
    cbv zeta. destruct (Z.leb_spec out_len (Zlen (out ++ [sym]))) as [Hfull|Hmore].
    - apply reads_ret; [done|lia|]. split; [done|]. split; [lia|done].
    - apply reads_weaken with (lo := 0) (hi := 64) (R := good out_len); [lia|lia|done|]. apply IH; [done|lia|done|lia]. }
  destruct (Z.eqb_spec sym 256) as [Heob|Hlen].
  { apply reads_ret; [done|lia|]. split; [done|]. split; [lia|done]. }
  cbv zeta. destruct (Z.leb_spec 29 (sym - 257)) as [Hbad|Hok].
  { rewrite (lookup_ge_None_2 LEN_BASE) by (change (length LEN_BASE) with 29%nat; lia). apply reads_bail. }
  destruct (lookup_table _ LEN_BASE (sym - 257) Hlb ltac:(change (Zlen LEN_BASE) with 29; lia)) as (base & Hbase & Hbr).
  destruct (lookup_table _ LEN_EXTRA (sym - 257) Hle ltac:(change (Zlen LEN_EXTRA) with 29; lia)) as (extra & Hextra & Her).
  rewrite Hbase, Hextra. apply reads_pure with (a := base); [by apply idx_Some; [lia|]|].
  apply reads_pure with (a := extra); [by apply idx_Some; [lia|]|].
  eapply reads_step with (lo1 := extra) (hi1 := extra); [apply reads_bits; [done|lia]|lia|lia|].
  intros x ? st3 Hinv3 [<- Hx] Hat3 Hc3.
  eapply reads_step with (lo1 := 1) (hi1 := 15); [apply (reads_symbol data dist); (done || lia)|lia|lia|].
  intros dsym ? st4 Hinv4 [<- Hdsym] Hat4 Hc4. destruct (Z.leb_spec 30 dsym) as [Hdbad|Hdok].
  { rewrite (lookup_ge_None_2 DIST_BASE) by (change (length DIST_BASE) with 30%nat; lia). apply reads_bail. }
  destruct (lookup_table _ DIST_BASE dsym Hdb ltac:(change (Zlen DIST_BASE) with 30; lia)) as (dbase & Hdbase & Hdbr).
  destruct (lookup_table _ DIST_EXTRA dsym Hde ltac:(change (Zlen DIST_EXTRA) with 30; lia)) as (dextra & Hdextra & Hder).
  rewrite Hdbase, Hdextra. apply reads_pure with (a := dbase); [by apply idx_Some; [lia|]|].
  apply reads_pure with (a := dextra); [by apply idx_Some; [lia|]|].
  eapply reads_step with (lo1 := dextra) (hi1 := dextra); [apply reads_bits; [done|lia]|lia|lia|].
  intros y ? st5 Hinv5 [<- Hy] Hat5 Hc5. set (d := dbase + y). set (len := Z.min (base + x) (out_len - Zlen out)).
  destruct (Z.ltb_spec (Zlen out) d) as [Hfar|Hnear].
  { rewrite (proj2 (Z.leb_gt _ _)) by lia. apply reads_bail. }
  rewrite (proj2 (Z.leb_le d (Zlen out))) by lia. cbn [when].
  set (out' := lz_copy (Z.to_nat len) (Z.to_nat d) out).
  apply reads_pure with (a := out').
  { unfold out'. rewrite <- copy_match_ok by lia. by rewrite !Z2Nat.id by lia. }
  assert (Zlen out' = Zlen out + len) as Hlen' by (unfold out'; rewrite lz_copy_length by lia; lia).
  assert (bytes_ok out') as Hb' by (by apply lz_copy_bytes).
  destruct (Z.leb_spec out_len (Zlen out')) as [Hfull|Hmore].
  - apply reads_ret; [done|lia|]. split; [done|]. split; [lia|done].
  - apply reads_weaken with (lo := 0) (hi := 64) (R := good out_len); [lia|lia|done|]. apply IH; [done|lia|done|lia].
Qed.

(** ** Dynamic tables *)
Lemma reads_pure_err {A C D} lo hi (R : C -> D -> Prop) (m : outcome ImageError A) e (f : A -> inflater C) st :
  m = Err e -> reads lo hi R (pure_ m ≫= f) fail st.
Proof. intros ->. done. Qed.

Lemma reads_code_lengths slots : Forall (fun s => 0 <= s < 19) slots -> forall cl st, inv st -> length cl = 19%nat -> Forall length_ok cl ->
  reads 0 64 (fun a b => a = b /\ length a = 19%nat /\ Forall length_ok a) (read_code_lengths data slots cl) (code_lengths_spec slots cl) st.
Proof.
  induction 1 as [|slot slots Hslot Hslots IH]; intros cl st Hinv Hlen Hcl; cbn [read_code_lengths code_lengths_spec].
  - by apply reads_ret.
  - apply reads_refill with (hi := 128); [done|done|lia|]. intros st1 Hinv1 _ Hc1.
    eapply reads_step with (lo1 := 3) (hi1 := 3); [apply reads_bits; [done|lia]|lia|lia|]. intros v ? st2 Hinv2 [<- Hv] _ Hc2.
    change (2 ^ 3) with 8 in Hv.
    apply reads_pure with (a := <[Z.to_nat slot := v]> cl).
    { unfold idx_set. by rewrite (proj2 (Z.leb_le _ _)), (proj2 (Z.ltb_lt _ _)) by lia. }
    eapply reads_weaken; [| | |apply IH; [done|by rewrite length_insert|]]; [lia|lia|done|].
    apply Forall_insert; [done|]. unfold length_ok. lia.
Qed.

Lemma reads_lengths cl hc total n : table cl hc -> length cl = 19%nat -> total <= 316 -> forall lens st, inv st ->
  Zlen lens <= total -> total - Zlen lens <= Z.of_nat n -> Forall length_ok lens ->
  reads 0 64 (fun a b => a = b ++ replicate (316 - length b) 0 /\ Zlen b = total /\ Forall length_ok b)
    (read_lengths data n hc total (Zlen lens) (lens ++ replicate (316 - length lens) 0)) (lengths_spec n cl total lens) st.
Proof.
  intros Ht Hcl Htotal. induction n as [|n IH]; intros lens st Hinv Hle Hn Hlens; cbn [read_lengths lengths_spec].
  { rewrite !(proj2 (Z.ltb_ge _ _)) by lia. apply reads_ret; [done|lia|]. split; [done|]. split; [lia|done]. }
  destruct (Z.ltb_spec (Zlen lens) total) as [Hlt|Hge].
  2: { apply reads_ret; [done|lia|]. split; [done|]. split; [lia|done]. }
  apply reads_refill with (hi := 128); [done|done|lia|]. intros st1 Hinv1 _ Hc1.
  eapply reads_step with (lo1 := 1) (hi1 := 15); [apply (reads_symbol data cl); (done || lia)|lia|lia|].
  intros sym ? st2 Hinv2 [<- Hsym] _ Hc2.
  eapply reads_step with (lo1 := 0) (hi1 := 7) (R := fun a b => a = b /\ length_ok (fst a) /\ 1 <= snd a).
  - destruct (Z.leb_spec sym 15) as [H15|H15].
    { apply reads_ret; [done|lia|]. split; [done|]. cbn. unfold length_ok. lia. }
    destruct (Z.eqb_spec sym 16) as [H16|H16].
    { destruct lens as [|v lens _] using rev_ind; [apply reads_bail|].
      rewrite last_snoc. rewrite (proj2 (Z.eqb_neq _ _)) by (rewrite length_app; cbn; lia).
      apply reads_pure with (a := v).
      { apply idx_Some; [rewrite length_app; cbn; lia|]. rewrite <- app_assoc, lookup_app_r by (rewrite length_app; cbn; lia).
        replace (Z.to_nat (Zlen (lens ++ [v]) - 1) - length lens)%nat with 0%nat by (rewrite length_app; cbn; lia). done. }
      eapply reads_step with (lo1 := 2) (hi1 := 2); [apply reads_bits; [done|lia]|lia|lia|]. intros x ? st3 Hinv3 [<- Hx] _ _.
      apply reads_ret; [done|lia|]. split; [done|]. apply Forall_app in Hlens as [_ Hv]. apply Forall_cons in Hv as [Hv _]. cbn. split; [done|lia]. }
    destruct (Z.eqb_spec sym 17) as [H17|H17].
    + eapply reads_step with (lo1 := 3) (hi1 := 3); [apply reads_bits; [done|lia]|lia|lia|]. intros x ? st3 Hinv3 [<- Hx] _ _.
      apply reads_ret; [done|lia|]. split; [done|]. cbn. unfold length_ok. lia.
    + eapply reads_step with (lo1 := 7) (hi1 := 7); [apply reads_bits; [done|lia]|lia|lia|]. intros x ? st3 Hinv3 [<- Hx] _ _.
      apply reads_ret; [done|lia|]. split; [done|]. cbn. unfold length_ok. lia.
  - lia.
  - lia.
  - intros [value count] ? st3 Hinv3 (<- & Hval & Hcnt) _ _. cbn [fst snd] in Hval, Hcnt.
    destruct (Z.ltb_spec total (Zlen lens + count)) as [Hover|Hfit].
    { rewrite (proj2 (Z.leb_gt _ _)) by lia. apply reads_bail. }
    rewrite (proj2 (Z.leb_le _ _)) by lia. cbn [when].
    assert (length (lens ++ replicate (Z.to_nat count) value) = (length lens + Z.to_nat count)%nat) as Hl' by (by rewrite length_app, length_replicate).
    apply reads_pure with (a := (lens ++ replicate (Z.to_nat count) value) ++ replicate (316 - length (lens ++ replicate (Z.to_nat count) value)) 0).
    { unfold fill_range. rewrite length_app, length_replicate. rewrite (proj2 (Z.leb_le _ _)) by lia. f_equal. unfold splice.
      rewrite Nat2Z.id, take_app_length, length_replicate, <- app_assoc. do 2 f_equal.
      rewrite drop_app_ge by lia. rewrite Hl'. rewrite drop_replicate. f_equal. lia. }
    replace (Zlen lens + count) with (Zlen (lens ++ replicate (Z.to_nat count) value)) by lia.
    eapply reads_weaken; [| | |apply IH; [done|lia|lia|]]; [lia|lia|done|].
    apply Forall_app. split; [done|]. by apply Forall_replicate.
Qed.

Definition tables_for (a : Huffman * Huffman) (b : list Z * list Z) : Prop :=
  table (fst b) (fst a) /\ table (snd b) (snd a) /\ Zlen (fst b) <= 4096 /\ Zlen (snd b) <= 4096.

Lemma ORDER_in_range n : Forall (fun s => 0 <= s < 19) (take n ORDER).
Proof. apply Forall_take. apply (bool_decide_unpack _). vm_compute. reflexivity. Qed.

Lemma Huffman_new_cases lens kind : Forall length_ok lens -> Zlen lens <= 4096 ->
  (lengths_ok kind lens = true /\ exists h, Huffman_new lens kind = Ok h /\ table lens h) \/
  (lengths_ok kind lens = false /\ exists e, Huffman_new lens kind = Err e).
Proof. intros H1 H2. pose proof (Huffman_new_ok lens kind H1 H2) as H. destruct (lengths_ok kind lens); auto. Qed.

Lemma reads_dynamic st : inv st -> reads 0 64 tables_for (dynamic_tables data) dynamic_spec st.
Proof.
  intros Hinv. unfold dynamic_tables, dynamic_spec. apply reads_refill with (hi := 1024); [done|done|lia|]. intros st1 Hinv1 _ Hc1.
  eapply reads_step with (lo1 := 5) (hi1 := 5); [apply reads_bits; [done|lia]|lia|lia|]. intros x1 ? st2 Hinv2 [<- Hx1] _ Hc2.
  eapply reads_step with (lo1 := 5) (hi1 := 5); [apply reads_bits; [done|lia]|lia|lia|]. intros x2 ? st3 Hinv3 [<- Hx2] _ Hc3.
  eapply reads_step with (lo1 := 4) (hi1 := 4); [apply reads_bits; [done|lia]|lia|lia|]. intros x3 ? st4 Hinv4 [<- Hx3] _ Hc4.
  change (2 ^ 5) with 32 in *. cbv zeta. set (nlen := x1 + 257). set (ndist := x2 + 1).
  destruct (Z.ltb_spec 286 nlen) as [Hl|Hl]; cbn [orb]; [rewrite (proj2 (Z.leb_gt _ _)) by lia; apply reads_bail|].
  destruct (Z.ltb_spec 30 ndist) as [Hd|Hd]; cbn [orb].
  { rewrite (proj2 (Z.leb_gt ndist 30)), andb_false_r by lia. apply reads_bail. }
  rewrite !(proj2 (Z.leb_le _ _)) by lia. cbn [andb when].
  eapply reads_step with (lo1 := 0) (hi1 := 64) (R := fun a b => a = b /\ length a = 19%nat /\ Forall length_ok a);
    [apply reads_code_lengths; [apply ORDER_in_range|done|done|]|lia|lia|].
  { apply Forall_replicate. unfold length_ok. lia. }
  intros cl ? st5 Hinv5 (<- & Hcl & Hclok) _ _.
  destruct (Huffman_new_cases cl CodeLengths Hclok ltac:(lia)) as [(-> & hc & Hhc & Htc)|(-> & e & He)]; [|by eapply reads_pure_err].
  cbn [when]. apply reads_pure with (a := hc); [done|].
  eapply reads_step with (lo1 := 0) (hi1 := 64).
  { pose proof (reads_lengths cl hc (nlen + ndist) (Z.to_nat (nlen + ndist)) Htc Hcl ltac:(lia) [] st5 Hinv5) as H.
    apply H; [cbn; lia|cbn; lia|constructor]. }
  - lia.
  - lia.
  - intros ? lens st6 Hinv6 (-> & Hlen & Hlens) _ _.
    assert (exists eob, lens !! 256%nat = Some eob) as [eob Heob] by (apply lookup_lt_is_Some_2; lia).
    rewrite Heob. change (default 0 (Some eob)) with eob. apply reads_pure with (a := eob).
    { apply idx_Some; [lia|]. by apply lookup_app_l_Some. }
    destruct (Z.eqb_spec eob 0) as [->|Hne]; cbn [negb andb]; [apply reads_bail|].
    assert (forall a b, 0 <= a -> a <= b -> b <= Zlen lens ->
      index_range (E:=ImageError) (lens ++ replicate (316 - length lens) 0) a b = Ok (slice lens a b)) as Hslice.
    { intros a b Ha Hab Hb. unfold index_range. rewrite length_app. rewrite !(proj2 (Z.leb_le _ _)) by lia. cbn [andb].
      by rewrite slice_app_l. }
    apply reads_pure with (a := take (Z.to_nat nlen) lens).
    { rewrite Hslice by lia. unfold slice. rewrite drop_0. do 2 f_equal. lia. }
    assert (slice lens nlen (nlen + ndist) = drop (Z.to_nat nlen) lens) as Hdist.
    { unfold slice. rewrite take_ge; [done|]. rewrite length_drop. lia. }
    assert (Forall length_ok (take (Z.to_nat nlen) lens)) as Hf1 by (by apply Forall_take).
    assert (Forall length_ok (drop (Z.to_nat nlen) lens)) as Hf2 by (by apply Forall_drop).
    destruct (Huffman_new_cases _ Lens Hf1 ltac:(rewrite length_take; lia)) as [(-> & hl & Hhl & Htl)|(-> & e & He)];
      cbn [andb when]; [|by eapply reads_pure_err].
    apply reads_pure with (a := hl); [done|].
    apply reads_pure with (a := drop (Z.to_nat nlen) lens); [by rewrite Hslice, Hdist by lia|].
    destruct (Huffman_new_cases _ Dists Hf2 ltac:(rewrite length_drop; lia)) as [(-> & hd & Hhd & Htd)|(-> & e & He)];
      cbn [andb when]; [|by eapply reads_pure_err].
    apply reads_pure with (a := hd); [done|]. apply reads_ret; [done|lia|]. unfold tables_for. cbn [fst snd].
    split_and!; [done|done|rewrite length_take; lia|rewrite length_drop; lia].
Qed.

(** ** Fixed tables *)
Lemma fixed_tables_ok : exists lit dist, fixed_tables = Ok (lit, dist) /\ tables_for (lit, dist) (fixed_lit_lengths, fixed_dist_lengths).
Proof.
  assert (Forall length_ok fixed_lit_lengths) as Hl by (repeat apply Forall_app_2; apply Forall_replicate; unfold length_ok; lia).
  assert (Forall length_ok fixed_dist_lengths) as Hd by (apply Forall_replicate; unfold length_ok; lia).
  assert (Zlen fixed_lit_lengths <= 4096) as Hl2 by (vm_compute; discriminate).
  assert (Zlen fixed_dist_lengths <= 4096) as Hd2 by (vm_compute; discriminate).
  unfold fixed_tables.
  destruct (Huffman_new_cases fixed_lit_lengths Lens Hl Hl2) as [(_ & lit & -> & Htl)|(H & _)]; [|by vm_compute in H].
  destruct (Huffman_new_cases fixed_dist_lengths Dists Hd Hd2) as [(_ & dist & -> & Htd)|(H & _)]; [|by vm_compute in H].
  exists lit, dist. split; [done|]. by split_and!.
Qed.

(** ** Streams *)
Lemma reads_run fuel_ out_len n : fuel_ = fuel data -> forall out st, inv st -> Zlen out < out_len -> bytes_ok out ->
  8 * Zlen data + 64 - at_ st < Z.of_nat n ->
  reads 0 64 (fun a b => good out_len a b /\ out_len <= Zlen a) (run data n out_len out) (blocks_spec fuel_ n out_len out) st.
Proof.
  intros ->. destruct fixed_tables_ok as (flit & fdist & Hfixed & Hfl & Hfd & Hfl2 & Hfd2). cbn [fst snd] in *.
  assert (forall st, inv st -> 8 * Zlen data + 64 - at_ st < Z.of_nat (fuel data)) as Hfuel.
  { intros st Hinv. pose proof (inv_at _ _ Hinv). unfold fuel. lia. }
  induction n as [|n IH]; intros out st Hinv Hout Hbytes Hn.
  { pose proof (inv_pos _ _ Hinv). pose proof (inv_virt _ _ Hinv). pose proof (inv_cnt _ _ Hinv). unfold at_ in Hn. lia. }
  cbn [run blocks_spec]. apply reads_refill with (hi := 1024); [done|done|lia|]. intros st1 Hinv1 Hat1 Hc1.
  eapply reads_step with (lo1 := 1) (hi1 := 1); [apply reads_bits; [done|lia]|lia|lia|]. intros final ? st2 Hinv2 [<- _] Hat2 Hc2.
  eapply reads_step with (lo1 := 2) (hi1 := 2); [apply reads_bits; [done|lia]|lia|lia|]. intros kind ? st3 Hinv3 [<- _] Hat3 Hc3.
  eapply reads_step with (lo1 := 0) (hi1 := 128) (R := good out_len).
  - destruct (kind =? 0).
    { eapply reads_weaken; [| | |by apply reads_stored]; [lia|lia|done]. }
    destruct (kind =? 1).
    { apply reads_pure with (a := (flit, fdist)); [done|].
      eapply reads_weaken; [| | |apply (reads_codes fixed_lit_lengths fixed_dist_lengths); auto]; [lia|lia|done]. }
    destruct (kind =? 2); [|apply reads_bail].
    eapply reads_step with (lo1 := 0) (hi1 := 64); [by apply reads_dynamic|lia|lia|].
    intros [hl hd] [ll dl] st4 Hinv4 (Htl & Htd & Hl & Hd) _ _. cbn [fst snd] in *.
    eapply reads_weaken; [| | |apply (reads_codes ll dl); auto]; [lia|lia|done].
  - lia.
  - lia.
  - intros out1 ? st4 Hinv4 (<- & Hlen & Hb) Hat4 _. destruct (Z.leb_spec out_len (Zlen out1)) as [Hfull|Hmore].
    + apply reads_ret; [done|lia|]. split; [by split_and!|done].
    + destruct (final =? 1); cbn [negb when]; [apply reads_bail|].
      eapply reads_weaken; [| | |apply IH; [done|lia|done|lia]]; [lia|lia|done].
Qed.
End blocks.

Lemma inflate_ok data out_len : bytes_ok data -> 0 <= out_len ->
  match inflate data out_len with
  | Ok out => inflate_spec data out_len = Some out /\ Zlen out = out_len /\ bytes_ok out
  | Err _ => inflate_spec data out_len = None
  | Panic => False
  end.
Proof.
  intros Hdata Hlen. unfold inflate, inflate_spec. set (st := {| pos := 0; bitbuf := 0; bitcnt := 0; virt := 0 |}).
  destruct (Z.ltb_spec 0 out_len) as [Hpos|Hzero].
  - pose proof (inv_start data) as Hinv. fold st in Hinv.
    pose proof (reads_run data Hdata _ out_len (fuel data) eq_refl [] st Hinv Hpos ltac:(constructor)
      ltac:(unfold fuel, at_, st; cbn [pos virt bitcnt]; lia)) as H.
    unfold reads in H. assert (at_ st <= 8 * Zlen data) as Hin by (unfold at_, st; cbn [pos virt bitcnt]; lia).
    change (rest data st) with (bits_of data) in H.
    destruct (run data (fuel data) out_len [] st) as [[out st']|e|]; cbn [mbind outcome_bind]; [|by rewrite H|done].
    destruct H as (Hinv' & _ & _ & b & ((<- & Hle & Hb) & Hge) & Hs). specialize (Hs Hin). rewrite Hs.
    replace ((pos st' + virt st') * 8 - bitcnt st') with (at_ st') by done.
    destruct (Z.ltb_spec (Zlen data * 8) (at_ st')).
    + by rewrite (proj2 (Z.leb_gt _ _)) by lia.
    + rewrite (proj2 (Z.leb_le _ _)) by lia. split; [done|]. split; [lia|done].
  - cbn [mbind outcome_bind pos virt bitcnt st]. rewrite (proj2 (Z.ltb_ge _ _)) by lia. split; [done|]. split; [cbn; lia|constructor].
Qed.

(** C26: inflating returns, never panics, and does what DEFLATE says: it succeeds exactly
    when the bit-level decoder of RFC 1951 does, with the same bytes, as many as asked
    for.  The 64-bit buffer, its zero bytes past the end of the data, the ten-bit lookup
    tables and the copying of matches in passes change nothing. *)
Theorem inflate_refines data out_len : bytes_ok data -> 0 <= out_len ->
  match inflate data out_len with
  | Ok out => inflate_spec data out_len = Some out /\ Zlen out = out_len /\ bytes_ok out
  | Err _ => inflate_spec data out_len = None
  | Panic => False
  end.
Proof. apply inflate_ok. Qed.

(** A block of fixed codes: "abc" eight times, then forty "x", with overlapping matches. *)
Lemma inflate_refines_witness :
  inflate_spec [0x4b; 0x4c; 0x4a; 0x4e; 0xc4; 0x86; 0x2a; 0x88; 0x04; 0x00] 64
  = Some (concat (replicate 8 [0x61; 0x62; 0x63]) ++ replicate 40 0x78).
Proof.
  pose proof (inflate_refines [0x4b; 0x4c; 0x4a; 0x4e; 0xc4; 0x86; 0x2a; 0x88; 0x04; 0x00] 64
    ltac:(repeat constructor; lia) ltac:(lia)) as H.
  assert (inflate [0x4b; 0x4c; 0x4a; 0x4e; 0xc4; 0x86; 0x2a; 0x88; 0x04; 0x00] 64
    = Ok (concat (replicate 8 [0x61; 0x62; 0x63]) ++ replicate 40 0x78)) as Heq by (vm_compute; reflexivity).
  rewrite Heq in H. apply H.
Defined.
