(* ===== verification/Exif.v ===== *)
(** Orientation tags and the eight transposes of an image
    (src/crates/mimo26-image/src/exif.rs; [RgbImage] is in lib.rs).  [Err tt] is the [None]
    of the source's [Option]s that its question marks return.

    Reading an orientation never panics, and the transposes of an image can be undone. *)
From Stdlib Require Import ZArith Lia Bool SpecFloat.
From stdpp Require Import base list gmap strings.
From S2P Require Import Prelude Floats RepackSlice Utf8 Scan Base64.

(** * Definitions *)

Record RgbImage := { width : Z; height : Z; rgb : list Z }.

Inductive Tag := Absent | Unusable | Value (v : Z).

Definition EXIF_HEADER : list Z := [0x45; 0x78; 0x69; 0x66; 0; 0].

(** [{u16,u32,u64}::from_{le,be}_bytes] *)
Definition int_bytes (le : bool) (b : list Z) : Z := if le then le_val b else be_val b.

(** [x as iN] of an [N]-bit value. *)
Definition signed (bits x : Z) : Z := if x <? 2 ^ (bits - 1) then x else x - 2 ^ bits.

Definition f32_from_bits (bits : Z) : spec_float :=
  let s := Z.testbit bits 31 in
  let e := Z.land (Z.shiftr bits 23) 0xFF in
  let m := Z.land bits (Z.ones 23) in
  if e =? 0xFF then (if m =? 0 then S754_infinity s else S754_nan)
  else
    let m := if e =? 0 then m else m + 2 ^ 23 in
    match m with
    | Zpos m => S754_finite s m (Z.max e 1 - 150)
    | _ => S754_zero s
    end.

(** The value of a finite float without a fraction. *)
Definition integral (v : spec_float) : option Z :=
  match v with
  | S754_zero _ => Some 0
  | S754_finite s m e =>
    let neg := fun x => if s : bool then - x else x in
    if 0 <=? e then Some (neg (Zpos m * 2 ^ e))
    else if Zpos m mod 2 ^ (- e) =? 0 then Some (neg (Zpos m / 2 ^ (- e))) else None
  | _ => None
  end.

(** The values of the tag's type at the start of its data, [Value] where it is an integer. *)
Definition ratio (n den : Z) : Tag :=
  if negb (den =? 0) && (Z.rem n den =? 0) then Value (Z.quot n den) else Unusable.
Definition float (v : spec_float) : Tag :=
  match integral v with Some n => if Z.abs n <? 10 ^ 18 then Value n else Unusable | None => Unusable end.

Definition first_value (typ : Z) (d : list Z) (le : bool) : outcome unit Tag :=
  let at_ := fun o n => b ← index_range d o (o + n); Ok (int_bytes le b) in
  if typ =? 3 then v ← at_ 0 2; Ok (Value v)
  else if typ =? 8 then v ← at_ 0 2; Ok (Value (signed 16 v))
  else if (typ =? 4) || (typ =? 13) then v ← at_ 0 4; Ok (Value v)
  else if typ =? 9 then v ← at_ 0 4; Ok (Value (signed 32 v))
  else if typ =? 6 then v ← idx d 0; Ok (Value (signed 8 v))
  else if (typ =? 16) || (typ =? 18) then v ← at_ 0 8; Ok (if v <? 2 ^ 63 then Value v else Unusable)
  else if typ =? 17 then v ← at_ 0 8; Ok (Value (signed 64 v))
  else if typ =? 5 then n ← at_ 0 4; den ← at_ 4 4; Ok (ratio n den)
  else if typ =? 10 then n ← at_ 0 4; den ← at_ 4 4; Ok (ratio (signed 32 n) (signed 32 den))
  else if typ =? 11 then v ← at_ 0 4; Ok (float (f64_of_f32 (f32_from_bits v)))
  else if typ =? 12 then v ← at_ 0 8; Ok (float (f64_from_bits v))
  else Ok Unusable.

(** The size of one value of a type, if the type is supported. *)
Definition unit_size (typ : Z) : option Z :=
  if bool_decide (typ ∈ [1; 2; 6; 7]) then Some 1
  else if bool_decide (typ ∈ [3; 8]) then Some 2
  else if bool_decide (typ ∈ [4; 9; 11; 13]) then Some 4
  else if bool_decide (typ ∈ [5; 10; 12; 16; 17; 18]) then Some 8
  else None.

Section ifd.
Context (t : list Z) (le : bool).

Definition int_at (n o : Z) : outcome unit Z := b ← ok_or (get_range t o (o + n)) tt; Ok (int_bytes le b).

(** [for i in 0..count], from the entry at [e] on. *)
Fixpoint ifd_entries (n : nat) (e : Z) (result : Tag) : outcome unit Tag :=
  match n with
  | O => Ok result
  | S n =>
    match get_range t e (e + 12) with
    | None => Ok result
    | Some entry =>
      tag ← int_at 2 e;
      if negb (tag =? 0x0112) then ifd_entries n (e + 12) result
      else
        typ ← int_at 2 (e + 2);
        cnt ← int_at 4 (e + 4);
        match unit_size typ with
        | None => ifd_entries n (e + 12) result
        | Some u =>
          let size := cnt * u in
          data ← (if 4 <? size then off ← int_at 4 (e + 8); Ok (get_range t off (off + size))
                  else d ← index_range entry 8 (8 + size); Ok (Some d));
          match data with
          | None | Some [] => ifd_entries n (e + 12) result
          | Some d => result ← first_value typ d le; ifd_entries n (e + 12) result
          end
        end
    end
  end.
End ifd.

Definition ifd0_orientation (t : list Z) : outcome unit Tag :=
  head ← ok_or (get_range t 0 8) tt;
  le ← (if bool_decide (take 2 head = [0x49; 0x49]) then Ok true
        else if bool_decide (take 2 head = [0x4D; 0x4D]) then Ok false else Err tt);
  if negb (bool_decide (take 2 (drop 2 head) ∈ [[0x2A; 0]; [0; 0x2A]])) then Err tt
  else
    ifd ← int_at t le 4 4;
    count ← int_at t le 2 ifd;
    ifd_entries t le (Z.to_nat count) (ifd + 2) Absent.

(** [while blob.starts_with(..) { blob = &blob[6..]; }] *)
Fixpoint strip_exif (n : nat) (blob : list Z) : list Z :=
  match n with
  | O => blob
  | S n => if starts_with blob EXIF_HEADER then strip_exif n (drop 6 blob) else blob
  end.

(** [unwrap_or(Tag::Absent)] *)
Definition exif_tag (blob : list Z) : outcome unit Tag :=
  match ifd0_orientation (strip_exif (length blob) blob) with Err _ => Ok Absent | r => r end.

Definition TIFF_KEY : list Z := str "tiff:Orientation".

(** The digit after the key, if it is written as the regular expression asks. *)
Definition xmp_digit (rest : list Z) : option Z :=
  match rest with
  | 0x3D :: 0x22 :: d :: _ => if between 0x30 0x39 d then Some d else None
  | 0x3E :: d :: _ => if between 0x30 0x39 d then Some d else None
  | _ => None
  end.

Fixpoint xmp_loop (n : nat) (xmp : list Z) : option Z :=
  match n with
  | O => None
  | S n =>
    match find TIFF_KEY xmp with
    | Some (before, rest) =>
      match xmp_digit rest with
      | Some d => Some (d - 0x30)
      | None => xmp_loop n (drop (length before + 1) xmp)
      end
    | None => None
    end
  end.
Definition xmp_orientation (xmp : list Z) : option Z := xmp_loop (S (length xmp)) xmp.

Definition orientation (exif xmp : option (list Z)) : outcome unit Z :=
  tag ← (match exif with Some blob => exif_tag blob | None => Ok Absent end);
  Ok (match tag with
      | Value v => v
      | Unusable => 1
      | Absent => default 1 (xmp ≫= xmp_orientation)
      end).

(** Where the output pixel in column [c], row [r] comes from. *)
Definition source_pixel (orientation w h c r : Z) : Z * Z :=
  if orientation =? 2 then (w - 1 - c, r)
  else if orientation =? 3 then (w - 1 - c, h - 1 - r)
  else if orientation =? 4 then (c, h - 1 - r)
  else if orientation =? 5 then (r, c)
  else if orientation =? 6 then (r, h - 1 - c)
  else if orientation =? 7 then (w - 1 - r, h - 1 - c)
  else (w - 1 - r, c).

(** One pixel of a destination row. *)
Definition copy_pixel (src : list Z) (orientation w h r : Z) (row : list Z) (c : Z) : outcome ImageError (list Z) :=
  let '(x, y) := source_pixel orientation w h c r in
  let s := (y * w + x) * 3 in
  px ← index_range src s (s + 3);
  if c * 3 + 3 <=? Zlen row then Ok (splice row (c * 3) px) else Panic.

Definition apply_row (src : list Z) (orientation w h ow : Z) (out : list Z) (r : Z) : outcome ImageError (list Z) :=
  row ← index_range out (r * ow * 3) ((r + 1) * ow * 3);
  row ← fold_try (copy_pixel src orientation w h r) row (seqZ 0 ow);
  Ok (splice out (r * ow * 3) row).

Definition apply (img : RgbImage) (orientation : Z) : outcome ImageError RgbImage :=
  if negb ((2 <=? orientation) && (orientation <=? 8)) || (width img =? 0) || (height img =? 0) then Ok img
  else
    let '(w, h) := (width img, height img) in
    let '(ow, oh) := if 5 <=? orientation then (h, w) else (w, h) in
    out ← fold_try (apply_row (rgb img) orientation w h ow) (replicate (length (rgb img)) 0) (seqZ 0 oh);
    Ok {| width := ow; height := oh; rgb := out |}.

(** The vectors of the source's tests. *)
Example transposes_match_pillow_definitions :
  (fun o => apply {| width := 3; height := 2; rgb := concat ((fun i => [i; i; i]) <$> [0; 1; 2; 3; 4; 5]) |} o) <$> [2; 3; 4; 5; 6; 7; 8]
  = (fun '(w, h, l) => Ok {| width := w; height := h; rgb := concat ((fun i => [i; i; i]) <$> l) |}) <$>
    [(3, 2, [2; 1; 0; 5; 4; 3]); (3, 2, [5; 4; 3; 2; 1; 0]); (3, 2, [3; 4; 5; 0; 1; 2]); (2, 3, [0; 3; 1; 4; 2; 5]);
     (2, 3, [3; 0; 4; 1; 5; 2]); (2, 3, [5; 2; 4; 1; 3; 0]); (2, 3, [2; 5; 1; 4; 0; 3])].
Proof. vm_compute. reflexivity. Qed.

Example short_orientation :
  exif_tag [0x49; 0x49; 42; 0; 8; 0; 0; 0; 1; 0; 0x12; 1; 3; 0; 1; 0; 0; 0; 6; 0; 0; 0; 0; 0; 0; 0] = Ok (Value 6) /\
  exif_tag (str "garbage") = Ok Absent /\
  orientation (Some [0x49; 0x49; 42; 0; 8; 0; 0; 0; 1; 0; 0x12; 1; 1; 0; 1; 0; 0; 0; 6; 0; 0; 0; 0; 0; 0; 0])
    (Some (str "<tiff:Orientation>3<")) = Ok 1 /\
  xmp_orientation (str "tiff:Orientation='6' tiff:Orientation>7") = Some 7.
Proof. vm_compute. done. Qed.

(** * Filling a vector chunk by chunk *)
Section fill.
Context {A E : Type}.
Implicit Types l : list A.

Lemma fill_chunks (f : list A -> Z -> outcome E (list A)) (g : Z -> list A) (n m : Z) (l0 : list A) :
  0 <= n -> 0 <= m -> Zlen l0 = n * m ->
  (forall i, 0 <= i < m -> Zlen (g i) = n) ->
  (forall l i, 0 <= i < m -> Zlen l = n * m -> f l i = Ok (splice l (i * n) (g i))) ->
  fold_try f l0 (seqZ 0 m) = Ok (concat (g <$> seqZ 0 m)).
Proof.
  intros Hn Hm Hl0 Hg Hf.
  destruct (fold_try_inv (fun i l => Zlen l = n * m /\ take (Z.to_nat (i * n)) l = concat (g <$> seqZ 0 i)) f l0 m Hm)
    as (l & Hfold & Hlen & Htake).
  - split; [done|]. by rewrite Z.mul_0_l, take_0.
  - intros i l Hi [Hlen Htake]. exists (splice l (i * n) (g i)). split; [by apply Hf|].
    assert (i * n + n <= n * m) as Hin by nia. specialize (Hg i Hi). unfold splice. split.
    + rewrite !length_app, length_take, length_drop. lia.
    + rewrite seqZ_app, fmap_app, concat_app, Z.add_0_l by lia. change (seqZ i 1) with [i]. cbn [fmap list_fmap concat].
      rewrite app_nil_r, <- Htake, app_assoc. rewrite take_app_le by (rewrite length_app, length_take; nia).
      rewrite take_ge; [done|]. rewrite length_app, length_take. nia.
  - rewrite Hfold. f_equal. rewrite <- Htake. symmetry. apply take_ge. nia.
Qed.
End fill.

(** The [i]-th of equal chunks. *)
Lemma slice_chunk {A} (g : Z -> list A) n m i : 0 <= n -> 0 <= i < m -> (forall j, 0 <= j < m -> Zlen (g j) = n) ->
  slice (concat (g <$> seqZ 0 m)) (i * n) (i * n + n) = g i.
Proof.
  intros Hn Hi Hg. replace m with (i + (1 + (m - i - 1))) by lia. rewrite !seqZ_app, !fmap_app, !concat_app by lia.
  change (seqZ (0 + i) 1) with [0 + i]. cbn [fmap list_fmap concat]. rewrite app_nil_r, Z.add_0_l.
  assert (Zlen (concat (g <$> seqZ 0 i)) = i * n) as Hpre.
  { clear -Hn Hi Hg. assert (forall k, 0 <= k -> k <= i -> Zlen (concat (g <$> seqZ 0 k)) = k * n) as H; [|apply H; lia].
    apply (natlike_ind (fun k => k <= i -> _)); [done|]. intros k Hk IH Hle. unfold Z.succ.
    rewrite seqZ_app, fmap_app, concat_app, length_app, Z.add_0_l by lia. change (seqZ k 1) with [k]. cbn [fmap list_fmap concat].
    rewrite app_nil_r, Nat2Z.inj_add, IH, Hg by lia. lia. }
  specialize (Hg i Hi). unfold slice. rewrite drop_app_ge by nia.
  replace (Z.to_nat (i * n) - length (concat (g <$> seqZ 0 i)))%nat with 0%nat by nia. rewrite drop_0.
  rewrite take_app_le by nia. apply take_ge. nia.
Qed.

(** * Images as functions of their pixels *)
Definition pixels (f : Z -> Z -> list Z) (w h : Z) : list Z :=
  concat ((fun r => concat ((fun c => f c r) <$> seqZ 0 w)) <$> seqZ 0 h).
Definition pixel (img : RgbImage) (x y : Z) : list Z := slice (rgb img) ((y * width img + x) * 3) ((y * width img + x) * 3 + 3).

Definition image_ok (img : RgbImage) : Prop :=
  0 <= width img /\ 0 <= height img /\ Zlen (rgb img) = width img * height img * 3.

Lemma chunks_length {A} (g : Z -> list A) n m : 0 <= m -> (forall j, 0 <= j < m -> Zlen (g j) = n) -> Zlen (concat (g <$> seqZ 0 m)) = n * m.
Proof.
  intros Hm Hg. assert (forall k, 0 <= k -> k <= m -> Zlen (concat (g <$> seqZ 0 k)) = n * k) as H; [|apply H; lia].
  apply (natlike_ind (fun k => k <= m -> _)); [intros _; by rewrite Z.mul_0_r|]. intros k Hk IH Hle. unfold Z.succ.
  rewrite seqZ_app, fmap_app, concat_app, length_app, Z.add_0_l by lia. change (seqZ k 1) with [k]. cbn [fmap list_fmap concat].
  rewrite app_nil_r, Nat2Z.inj_add, IH, Hg by lia. nia.
Qed.

Section pixels.
Context (f : Z -> Z -> list Z) (w h : Z) (Hw : 0 <= w) (Hh : 0 <= h).
Hypothesis Hf : forall c r, 0 <= c < w -> 0 <= r < h -> Zlen (f c r) = 3.

Lemma row_length r : 0 <= r < h -> Zlen (concat ((fun c => f c r) <$> seqZ 0 w)) = w * 3.
Proof. intros Hr. rewrite (chunks_length _ 3) by (auto with lia). lia. Qed.

Lemma pixels_length : Zlen (pixels f w h) = w * h * 3.
Proof. unfold pixels. rewrite (chunks_length _ (w * 3)) by (done || apply row_length). lia. Qed.

Lemma pixels_at x y : 0 <= x < w -> 0 <= y < h -> slice (pixels f w h) ((y * w + x) * 3) ((y * w + x) * 3 + 3) = f x y.
Proof.
  intros Hx Hy. pose proof (slice_chunk (fun r => concat ((fun c => f c r) <$> seqZ 0 w)) (w * 3) h y ltac:(lia) Hy row_length) as Hrow.
  pose proof (slice_chunk (fun c => f c y) 3 w x ltac:(lia) Hx (fun j Hj => Hf j y Hj Hy)) as Hpx.
  rewrite <- Hpx. cbv beta in Hrow. rewrite <- Hrow,  slice_slice by nia. f_equal; lia.
Qed.
End pixels.

(** An image is its pixels. *)
Lemma image_pixels img : image_ok img -> rgb img = pixels (pixel img) (width img) (height img).
Proof.
  intros (Hw & Hh & Hlen). unfold pixels. set (w := width img) in *. set (h := height img) in *.
  rewrite <- (slice_all (rgb img)) at 1. replace (Zlen (rgb img)) with (0 + h * (w * 3)) by lia.
  rewrite <- concat_slices by lia. f_equal. apply list_fmap_ext. intros i r Hr. apply lookup_seqZ in Hr as [-> Hr].
  transitivity (slice (rgb img) ((0 + Z.of_nat i) * (w * 3)) ((0 + Z.of_nat i) * (w * 3) + w * 3)); [f_equal; lia|].
  rewrite <- concat_slices by lia. f_equal. apply list_fmap_ext. intros j c Hc. apply lookup_seqZ in Hc as [-> Hc].
  unfold pixel. fold w. f_equal; lia.
Qed.

Lemma pixels_ext f g w h : (forall c r, 0 <= c < w -> 0 <= r < h -> f c r = g c r) -> pixels f w h = pixels g w h.
Proof.
  intros H. unfold pixels. f_equal. apply list_fmap_ext. intros i r Hr. apply lookup_seqZ in Hr as [-> Hr].
  f_equal. apply list_fmap_ext. intros j c Hc. apply lookup_seqZ in Hc as [-> Hc]. apply H; lia.
Qed.

Lemma pixel_length img x y : image_ok img -> 0 <= x < width img -> 0 <= y < height img -> Zlen (pixel img x y) = 3.
Proof. intros (Hw & Hh & Hlen) Hx Hy. unfold pixel. rewrite slice_length by nia. lia. Qed.

(** * Transposes *)
Definition swapped (orientation w h : Z) : Z * Z := if 5 <=? orientation then (h, w) else (w, h).

Lemma source_in_range o w h c r : 0 <= c < fst (swapped o w h) -> 0 <= r < snd (swapped o w h) -> 2 <= o <= 8 ->
  0 <= fst (source_pixel o w h c r) < w /\ 0 <= snd (source_pixel o w h c r) < h.
Proof.
  intros Hc Hr Ho. unfold swapped, source_pixel in *. destruct (Z.leb_spec 5 o); cbn [fst snd] in *;
    repeat match goal with |- context [?a =? ?b] => destruct (Z.eqb_spec a b); cbn [fst snd] end; lia.
Qed.

Lemma apply_pixels img o : image_ok img -> 2 <= o <= 8 -> 0 < width img -> 0 < height img ->
  let '(ow, oh) := swapped o (width img) (height img) in
  apply img o = Ok {| width := ow; height := oh;
    rgb := pixels (fun c r => let '(x, y) := source_pixel o (width img) (height img) c r in pixel img x y) ow oh |}.
Proof.
  intros Hok Ho Hw0 Hh0. pose proof Hok as (Hw & Hh & Hlen). destruct (swapped o (width img) (height img)) as [ow oh] eqn:Hsw.
  set (f := fun c r => let '(x, y) := source_pixel o (width img) (height img) c r in pixel img x y).
  assert (forall c r, 0 <= c < ow -> 0 <= r < oh -> exists x y,
    source_pixel o (width img) (height img) c r = (x, y) /\ 0 <= x < width img /\ 0 <= y < height img) as Hsrc.
  { intros c r Hc Hr. destruct (source_pixel o (width img) (height img) c r) as [x y] eqn:Hs. exists x, y. split; [done|].
    pose proof (source_in_range o (width img) (height img) c r) as H. rewrite Hsw, Hs in H. by apply H. }
  assert (forall c r, 0 <= c < ow -> 0 <= r < oh -> Zlen (f c r) = 3) as Hf.
  { intros c r Hc Hr. unfold f. destruct (Hsrc c r Hc Hr) as (x & y & -> & Hx & Hy). by apply pixel_length. }
  assert (0 <= ow /\ 0 <= oh /\ ow * oh = width img * height img) as (How & Hoh & Harea).
  { unfold swapped in Hsw. destruct (5 <=? o); injection Hsw as <- <-; lia. }
  unfold apply. rewrite !(proj2 (Z.leb_le _ _)), !(proj2 (Z.eqb_neq _ _)) by lia. cbn [negb andb orb].
  fold (swapped o (width img) (height img)). rewrite Hsw.
  rewrite (fill_chunks _ (fun r => concat ((fun c => f c r) <$> seqZ 0 ow)) (ow * 3) oh); [done|lia|lia| | |].
  - rewrite length_replicate. lia.
  - intros r Hr. by apply (row_length f ow oh).
  - intros l r Hr Hl. unfold apply_row. rewrite index_range_Ok by nia. cbn [mbind outcome_bind].
    rewrite (fill_chunks _ (fun c => f c r) 3 ow); [|lia|lia| |by auto|].
    + cbn [mbind outcome_bind]. do 2 f_equal. lia.
    + rewrite slice_length by nia. lia.
    + intros row c Hc Hrow. unfold copy_pixel. destruct (Hsrc c r Hc Hr) as (x & y & Hxy & Hx & Hy). unfold f. rewrite Hxy.
      rewrite index_range_Ok by nia. cbn [mbind outcome_bind]. rewrite (proj2 (Z.leb_le _ _)) by lia. done.
Qed.

(** The transpose that undoes another. *)
Definition inverse_orientation (o : Z) : Z := if o =? 6 then 8 else if o =? 8 then 6 else o.

Lemma source_inverse o w h c r : 2 <= o <= 8 -> 0 <= c < w -> 0 <= r < h ->
  let '(ow, oh) := swapped o w h in
  let '(x, y) := source_pixel (inverse_orientation o) ow oh c r in source_pixel o w h x y = (c, r).
Proof.
  intros Ho Hc Hr. unfold swapped.
  assert (o = 2 \/ o = 3 \/ o = 4 \/ o = 5 \/ o = 6 \/ o = 7 \/ o = 8) as Hcases by lia.
  repeat destruct Hcases as [-> | Hcases]; try subst o; cbn; f_equal; lia.
Qed.

Lemma apply_undone img o : image_ok img ->
  exists img', apply img o = Ok img' /\ image_ok img' /\ apply img' (inverse_orientation o) = Ok img.
Proof.
  intros Hok. pose proof Hok as (Hw & Hh & Hlen).
  destruct (decide (2 <= o <= 8 /\ 0 < width img /\ 0 < height img)) as [(Ho & Hw0 & Hh0)|Hno].
  2: { exists img. assert (forall o', (2 <= o' <= 8 -> 2 <= o <= 8) -> apply img o' = Ok img) as H.
       { intros o' Ho'. unfold apply. destruct (Z.leb_spec 2 o'), (Z.leb_spec o' 8); cbn [negb andb orb]; try done.
         destruct (Z.eqb_spec (width img) 0), (Z.eqb_spec (height img) 0); cbn [orb]; (done || lia). }
       split; [by apply H|]. split; [done|]. apply H. unfold inverse_orientation.
       destruct (Z.eqb_spec o 6), (Z.eqb_spec o 8); lia. }
  pose proof (apply_pixels img o Hok Ho Hw0 Hh0) as Happ. destruct (swapped o (width img) (height img)) as [ow oh] eqn:Hsw.
  eexists. split; [exact Happ|]. set (f := fun c r => _) in *. set (img' := {| width := ow; height := oh; rgb := pixels f ow oh |}).
  assert (swapped (inverse_orientation o) ow oh = (width img, height img) /\ 0 < ow /\ 0 < oh) as (Hback & How & Hoh).
  { unfold swapped, inverse_orientation in *. destruct (Z.eqb_spec o 6), (Z.eqb_spec o 8), (Z.leb_spec 5 o); try lia;
      injection Hsw as <- <-; cbn; try (destruct (Z.leb_spec 5 o); [|lia]); try done;
      destruct (Z.leb_spec 5 o); try lia; done. }
  assert (forall c r, 0 <= c < ow -> 0 <= r < oh -> Zlen (f c r) = 3) as Hf.
  { intros c r Hc Hr. unfold f. pose proof (source_in_range o (width img) (height img) c r) as H. rewrite Hsw in H.
    destruct (source_pixel o (width img) (height img) c r) as [x y]. cbn [fst snd] in H. apply pixel_length; [done|apply H; lia..]. }
  assert (image_ok img') as Hok'.
  { split; [cbn; lia|]. split; [cbn; lia|]. cbn [rgb width height img']. by rewrite pixels_length by (lia || done). }
  split; [done|].
  assert (2 <= inverse_orientation o <= 8) as Hio by (unfold inverse_orientation; destruct (Z.eqb_spec o 6), (Z.eqb_spec o 8); lia).
  pose proof (apply_pixels img' (inverse_orientation o) Hok' Hio How Hoh) as Happ2. cbn [width height img'] in Happ2.
  rewrite Hback in Happ2. fold img' in Happ2. rewrite Happ2. f_equal. destruct img as [w h data]. cbn [width height rgb] in *. f_equal.
  etransitivity; [|symmetry; apply (image_pixels _ Hok)]. cbn [width height rgb]. apply pixels_ext. intros c r Hc Hr.
  pose proof (source_inverse o w h c r Ho Hc Hr) as Hinv. rewrite Hsw in Hinv.
  pose proof (source_in_range (inverse_orientation o) ow oh c r) as Hsrc. rewrite Hback in Hsrc. cbn [fst snd] in Hsrc.
  destruct (source_pixel (inverse_orientation o) ow oh c r) as [x y]. cbn [fst snd] in Hsrc. destruct Hsrc as [Hx Hy]; [lia..|].
  transitivity (f x y); [apply (pixels_at f ow oh); (lia || done)|]. unfold f. by rewrite Hinv.
Qed.

(** The transposes of an image lose nothing and can be undone: applying an orientation
    succeeds on every well-formed image and keeps its pixels, and applying the inverse
    orientation (6 and 8 are each other's, the rest are their own) gives the image back. *)
Theorem exif_transpose_undone img o : image_ok img ->
  exists img', apply img o = Ok img' /\ image_ok img' /\ apply img' (inverse_orientation o) = Ok img.
Proof. apply apply_undone. Qed.

Lemma exif_transpose_undone_witness : exists img',
  apply {| width := 2; height := 3; rgb := seqZ 0 18 |} 6 = Ok img' /\ image_ok img' /\
  apply img' 8 = Ok {| width := 2; height := 3; rgb := seqZ 0 18 |}.
Proof. apply (exif_transpose_undone {| width := 2; height := 3; rgb := seqZ 0 18 |} 6). split; [cbn; lia|]. split; [cbn; lia|reflexivity]. Defined.

(** * Hostile metadata *)
Lemma int_bytes_nonneg le b : bytes_ok b -> 0 <= int_bytes le b.
Proof.
  intros Hb. unfold int_bytes, be_val. destruct le; [by apply le_val_range|]. apply le_val_range. by apply Forall_reverse.
Qed.

Lemma get_range_Some {A} (l : list A) a b k : get_range l a b = Some k -> k = slice l a b /\ 0 <= a /\ a <= b /\ b <= Zlen l.
Proof.
  unfold get_range. destruct (Z.leb_spec 0 a), (Z.leb_spec a b), (Z.leb_spec b (Zlen l)); cbn [andb]; try done. by intros [= <-].
Qed.

Lemma first_value_total typ u d le k : unit_size typ = Some u -> 1 <= k -> Zlen d = k * u -> no_panic (first_value typ d le).
Proof.
  intros Hu Hk Hd. assert (typ ∈ [1; 2; 6; 7; 3; 8; 4; 9; 11; 13; 5; 10; 12; 16; 17; 18]) as Hc.
  { revert Hu. unfold unit_size. repeat case_bool_decide; set_solver. }
  repeat (apply elem_of_cons in Hc as [->|Hc]; [vm_compute in Hu; injection Hu as <-; unfold first_value;
    repeat match goal with |- context [?a =? ?b] => let v := eval vm_compute in (a =? b) in change (a =? b) with v end; cbn [orb];
    rewrite ?index_range_Ok by lia; cbn [mbind outcome_bind]; rewrite ?index_range_Ok by lia; try exact I|]).
  - destruct d; [cbn in Hd; lia|exact I].
  - by apply not_elem_of_nil in Hc.
Qed.

Lemma int_at_total t le n o : no_panic (int_at t le n o).
Proof. unfold int_at. by destruct (get_range t o (o + n)). Qed.

Lemma ifd_entries_total t le n : bytes_ok t -> forall e result, 0 <= e -> no_panic (ifd_entries t le n e result).
Proof.
  intros Ht. induction n as [|n IH]; intros e result He; [exact I|]. cbn [ifd_entries].
  destruct (get_range t e (e + 12)) as [entry|] eqn:Hentry; [|exact I]. apply get_range_Some in Hentry as (-> & _ & _ & Hend).
  apply bind_no_panic; [apply int_at_total|]. intros tag _. destruct (negb (tag =? 0x0112)); [apply IH; lia|].
  apply bind_no_panic; [apply int_at_total|]. intros typ _. apply bind_no_panic; [apply int_at_total|]. intros cnt Hcnt.
  destruct (unit_size typ) as [u|] eqn:Hu; [|apply IH; lia].
  assert (0 <= cnt) as Hc0.
  { unfold int_at in Hcnt. destruct (get_range t (e + 4) (e + 4 + 4)) as [b|] eqn:Hb; cbn in Hcnt; [|done]. injection Hcnt as <-.
    apply get_range_Some in Hb as (-> & _). apply int_bytes_nonneg. by apply bytes_ok_slice. }
  assert (u = 1 \/ u = 2 \/ u = 4 \/ u = 8) as Hu8.
  { revert Hu. unfold unit_size. repeat case_bool_decide; intros [= <-]; auto. }
  apply bind_no_panic.
  { destruct (Z.ltb_spec 4 (cnt * u)) as [Hbig|Hsmall].
    - apply bind_no_panic; [apply int_at_total|]. done.
    - rewrite index_range_Ok; [exact I|lia|lia|]. rewrite slice_length by lia. lia. }
  intros data Hdata. destruct data as [[|b d]|]; [apply IH; lia| |apply IH; lia].
  apply bind_no_panic; [|intros tag' _; apply IH; lia].
  assert (Zlen (b :: d) = cnt * u) as Hlen.
  { destruct (Z.ltb_spec 4 (cnt * u)) as [Hbig|Hsmall].
    - apply bind_Ok in Hdata as (off & _ & Hd). injection Hd as Hd. apply get_range_Some in Hd as (-> & H1 & H2 & H3).
      rewrite slice_length by lia. lia.
    - apply bind_Ok in Hdata as (d' & Hd' & Hd). injection Hd as ->. rewrite index_range_Ok in Hd' by (rewrite ?slice_length by lia; lia).
      injection Hd' as <-. rewrite slice_length by (rewrite ?slice_length by lia; lia). lia. }
  apply first_value_total with (u := u) (k := cnt); [done| |done]. cbn in Hlen. nia.
Qed.

(** Looking up the orientation of an image never panics, whatever its metadata. *)
Lemma orientation_total exif xmp : (forall blob, exif = Some blob -> bytes_ok blob) -> exists o, orientation exif xmp = Ok o.
Proof.
  intros Hblob. unfold orientation. assert (exists tag, (match exif with Some blob => exif_tag blob | None => Ok Absent end) = Ok tag) as [tag ->];
    [|cbn; eauto]. destruct exif as [blob|]; [|eauto]. specialize (Hblob blob eq_refl). unfold exif_tag.
  assert (forall n l, bytes_ok l -> bytes_ok (strip_exif n l)) as Hstrip.
  { induction n as [|n IH]; intros l Hl; [done|]. cbn [strip_exif]. destruct (Scan.starts_with l EXIF_HEADER); [|done].
    by apply IH, Forall_drop. }
  specialize (Hstrip (length blob) blob Hblob). set (t := strip_exif _ _) in *. clearbody t.
  assert (no_panic (ifd0_orientation t)) as Hnp; [|by destruct (ifd0_orientation t); [eauto|eauto|done]].
  unfold ifd0_orientation. apply bind_no_panic; [by destruct (get_range t 0 8)|]. intros head _.
  apply bind_no_panic; [by repeat case_bool_decide|]. intros le _. destruct (negb _); [exact I|].
  apply bind_no_panic; [apply int_at_total|]. intros ifd Hifd. apply bind_no_panic; [apply int_at_total|]. intros count _.
  apply ifd_entries_total; [done|]. unfold int_at in Hifd. destruct (get_range t 4 (4 + 4)) as [b|] eqn:Hb; cbn in Hifd; [|done].
  injection Hifd as <-. apply get_range_Some in Hb as (-> & _). pose proof (int_bytes_nonneg le (slice t 4 (4 + 4)) ltac:(by apply bytes_ok_slice)). lia.
Qed.
