(* ===== verification/Png.v ===== *)
(** The PNG decoder (src/crates/mimo26-image/src/png.rs) and the data URL around an image
    (lib.rs): chunks, headers, transparency, row filters, interlacing, sample depths and
    the conversion to RGB.  Chunk walks run on the length of the file. *)
From Stdlib Require Import ZArith Lia Bool.
From stdpp Require Import base list gmap strings.
From S2P Require Import Prelude Utf8 Scan Base64 Inflate Exif.

(** * Definitions *)

Definition MAX_DECODE_PIXELS : Z := Z.shiftl 64 20.
Definition SIGNATURE : list Z := [0x89; 0x50; 0x4E; 0x47; 0x0D; 0x0A; 0x1A; 0x0A].

Record Header := { h_width : Z; h_height : Z; h_depth : Z; h_ctype : Z; h_interlaced : bool }.

(** Transparency: a gray level, or an alpha for each palette entry. *)
Inductive Trns := TrnsGray (v : Z) | TrnsPalette (alpha : list Z).

Definition be32 (b : list Z) : Z := be_val (take 4 b).

Definition chunk_type_ok (t : list Z) : bool :=
  forallb (fun c => between 0x30 0x39 c || between 0x41 0x5A c || between 0x61 0x7A c || (c =? 0x5F)) t.

(** [usize::saturating_add] *)
Definition saturating_add (a b : Z) : Z := Z.min (a + b) (2 ^ 64 - 1).

(** [i16be] of [parse_trns] *)
Definition i16be (body : list Z) (o : Z) : outcome ImageError Z :=
  b ← ok_or (get_range body o (o + 2)) ShortTrns; Ok (be_val b).

Definition parse_trns (h : Header) (body : list Z) : outcome ImageError (option Trns) :=
  if h_ctype h =? 3 then
    let zeros := filter (fun b => b = 0) body in
    if (Zlen zeros =? 1) && forallb (fun b => (b =? 0) || (b =? 0xFF)) body then
      let i := from_option (fun p => Z.of_nat (fst p)) 0 (list_find (fun b => b = 0) body) in
      if 256 <=? i then Err TrnsIndex
      else alpha ← idx_set (replicate (Z.to_nat (i + 1)) 0xFF) i 0; Ok (Some (TrnsPalette alpha))
    else if 256 <? Zlen body then Err TrnsEntries
    else Ok (Some (TrnsPalette body))
  else if (h_ctype h =? 0) && (h_depth h =? 1) then
    v ← i16be body 0; Ok (Some (TrnsGray (if negb (v =? 0) then 255 else 0)))
  else if h_ctype h =? 0 then v ← i16be body 0; Ok (Some (TrnsGray (v mod 256)))
  else if h_ctype h =? 2 then _ ← i16be body 4; Ok None
  else Ok None.

Definition channels (ctype : Z) : Z :=
  if (ctype =? 0) || (ctype =? 3) then 1 else if ctype =? 4 then 2 else if ctype =? 2 then 3 else 4.

(** ** Filters *)

Definition paeth (a b c : Z) : Z :=
  let pa := Z.abs (b - c) in
  let pb := Z.abs (a - c) in
  let pc := Z.abs (a + b - 2 * c) in
  if (pa <=? pb) && (pa <=? pc) then a else if pb <=? pc then b else c.

(** [cur[i] = cur[i].wrapping_add(v)] *)
Definition wrapping_add_at (cur : list Z) (i v : Z) : outcome ImageError (list Z) :=
  c ← idx cur i; idx_set cur i ((c + v) mod 256).

Definition unfilter (filter : Z) (cur : list Z) (prev : option (list Z)) (bpp : Z) : outcome ImageError (list Z) :=
  let n := Zlen cur in
  let sub := fun cur i => a ← idx cur (i - bpp); wrapping_add_at cur i a in
  match filter, prev with
  | 0, _ => Ok cur
  | 1, _ => fold_try sub cur (seqZ bpp (n - bpp))
  | 2, None => Ok cur
  | 2, Some up => Ok (zip_with (fun c u => (c + u) mod 256) cur up ++ drop (length up) cur)
  | 3, None => fold_try (fun cur i => a ← idx cur (i - bpp); wrapping_add_at cur i (a / 2)) cur (seqZ bpp (n - bpp))
  | 3, Some up =>
    cur ← fold_try (fun cur i => b ← idx up i; wrapping_add_at cur i (b / 2)) cur (seqZ 0 (Z.min bpp n));
    fold_try (fun cur i => a ← idx cur (i - bpp); b ← idx up i; wrapping_add_at cur i ((a + b) / 2 mod 256)) cur (seqZ bpp (n - bpp))
  | 4, None => fold_try sub cur (seqZ bpp (n - bpp))
  | 4, Some up =>
    cur ← fold_try (fun cur i => b ← idx up i; wrapping_add_at cur i b) cur (seqZ 0 (Z.min bpp n));
    fold_try (fun cur i =>
      a ← idx cur (i - bpp);
      b ← idx up i;
      c ← idx up (i - bpp);
      wrapping_add_at cur i (paeth a b c mod 256)) cur (seqZ bpp (n - bpp))
  | f, _ => Err (FilterType f)
  end.

(** ** Samples *)

(** [row.chunks_exact(n)] *)
Fixpoint chunks_exact (fuel n : nat) (l : list Z) : list (list Z) :=
  match fuel with
  | O => []
  | S fuel => if Nat.leb n (length l) then take n l :: chunks_exact fuel n (drop n l) else []
  end.
Definition chunks_of (n : nat) (l : list Z) : list (list Z) := chunks_exact (length l) n l.

(** [for (d, s) in dst.iter_mut().zip(chunks)] *)
Definition assign (dst values : list Z) : list Z := take (length dst) values ++ drop (length values) dst.

Definition sample_scale (ctype depth : Z) : Z :=
  if ctype =? 0 then (if depth =? 1 then 255 else if depth =? 2 then 85 else if depth =? 4 then 17 else 1) else 1.

(** One sample of fewer than eight bits, the most significant first. *)
Definition small_sample (ctype depth : Z) (row : list Z) (x : Z) : outcome ImageError Z :=
  let per_byte := 8 / depth in
  byte ← idx row (x / per_byte);
  let shift := 8 - depth * (x mod per_byte + 1) in
  Ok (Z.land (Z.shiftr byte shift) (Z.shiftl 1 depth - 1) * sample_scale ctype depth).

Definition canonicalize (h : Header) (row : list Z) (width : Z) (dst : list Z) : outcome ImageError (list Z) :=
  if h_depth h =? 8 then index_range row 0 (Zlen dst)
  else if (h_ctype h =? 0) && (h_depth h =? 16) then
    Ok (assign dst ((fun s => if negb (nth 0 s 0 =? 0) then 255 else nth 1 s 0) <$> chunks_of 2 row))
  else if h_depth h =? 16 then Ok (assign dst ((fun s => nth 0 s 0) <$> chunks_of 2 row))
  else
    fold_try (fun dst x => v ← small_sample (h_ctype h) (h_depth h) row x; idx_set dst x v) dst (seqZ 0 (Z.min width (Zlen dst))).

(** ** Conversion to RGB *)

(** One channel of value [c] and alpha [a] over white. *)
Definition over_white_exact (c a : Z) : Z :=
  if a =? 0 then 255
  else
    let blend := 255 * (255 - a) in
    let outa255 := a * 255 + blend in
    let coef1 := a * 255 * 255 * 2 ^ 7 / outa255 in
    let coef2 := 255 * 2 ^ 7 - coef1 in
    let tmp := c * coef1 + 255 * coef2 + Z.shiftl 0x80 7 in
    Z.shiftr (Z.shiftr (Z.shiftr tmp 8 + tmp) 8) 7 mod 256.

(** The entry [a * 256 + c] of the table of 64 KiB. *)
Definition over_white (a c : Z) : outcome ImageError Z :=
  if (0 <=? a * 256 + c) && (a * 256 + c <? 65536) then Ok (over_white_exact ((a * 256 + c) mod 256) ((a * 256 + c) / 256)) else Panic.

Definition palette (plte : option (list Z)) (trns : option Trns) : list (list Z) :=
  let pal := replicate 256 [0; 0; 0; 255] in
  let pal := match plte with
    | Some p => imap (fun i e => match take 256 (chunks_of 3 p) !! i with Some rgb => rgb ++ [255] | None => e end) pal
    | None => pal
    end in
  match trns with
  | Some (TrnsPalette alpha) => imap (fun i e => match take 256 alpha !! i with Some a => take 3 e ++ [a] | None => e end) pal
  | _ => pal
  end.

Definition to_rgb (h : Header) (canon : list Z) (plte : option (list Z)) (trns : option Trns) : outcome ImageError (list Z) :=
  if h_ctype h =? 2 then Ok canon
  else if h_ctype h =? 6 then
    px ← mapM (fun p => mapM (fun c => over_white (nth 3 p 0) c) (take 3 p)) (chunks_of 4 canon); Ok (concat px)
  else if h_ctype h =? 4 then
    px ← mapM (fun p => v ← over_white (nth 1 p 0) (nth 0 p 0); Ok [v; v; v]) (chunks_of 2 canon); Ok (concat px)
  else if h_ctype h =? 3 then
    colours ← mapM (fun e => mapM (fun c => over_white (nth 3 e 0) c) (take 3 e)) (palette plte trns);
    px ← mapM (fun i => idx colours i) canon; Ok (concat px)
  else
    let key := match trns with Some (TrnsGray t) => Some t | _ => None end in
    Ok (concat ((fun v => let v := if bool_decide (key = Some v) then 255 else v in [v; v; v]) <$> canon)).

(** ** Rows *)

(** Adam7, or one pass over all pixels: where a pass starts and its steps. *)
Definition passes (interlaced : bool) : list (Z * Z * Z * Z) :=
  if interlaced then
    [(0, 0, 8, 8); (4, 0, 8, 8); (0, 4, 4, 8); (2, 0, 4, 4); (0, 2, 2, 4); (1, 0, 2, 2); (0, 1, 1, 2)]
  else [(0, 0, 1, 1)].

(** [usize::div_ceil] *)
Definition div_ceil (a b : Z) : Z := a / b + (if a mod b =? 0 then 0 else 1).

Definition pass_dims (w ht : Z) (p : Z * Z * Z * Z) : Z * Z :=
  let '(x0, y0, dx, dy) := p in
  (if x0 <? w then div_ceil (w - x0) dx else 0, if y0 <? ht then div_ceil (ht - y0) dy else 0).

Definition row_bytes (bits width : Z) : Z := div_ceil (width * bits) 8.

Definition expected_bytes (bits w ht : Z) (ps : list (Z * Z * Z * Z)) : Z :=
  foldl (fun expected p =>
    let '(pw, ph) := pass_dims w ht p in
    if (0 <? pw) && (0 <? ph) then expected + ph * (1 + row_bytes bits pw) else expected) 0 ps.

Section rows.
Context (h : Header) (ch fbpp : Z).

(** [copy_from_slice] onto [l[at_..at_ + k.len()]]. *)
Definition copy_at (l : list Z) (at_ : Z) (k : list Z) : outcome ImageError (list Z) :=
  _ ← index_range l at_ (at_ + Zlen k); Ok (splice l at_ k).

(** The locals of the loop over passes and rows. *)
Record Decoding := { d_raw : list Z; d_canon : list Z; d_off : Z; d_line : list Z }.

(** Row [r] of a pass of [pw] columns: unfilter it, unpack it, put its samples in place. *)
Definition decode_row (p : Z * Z * Z * Z) (pw : Z) (st : Decoding) (r : Z) : outcome ImageError Decoding :=
  let '(x0, y0, dx, dy) := p in
  let w := h_width h in
  let rb := row_bytes (h_depth h * ch) pw in
  let stride := rb + 1 in
  let off := d_off st in
  prev ← (if r =? 0 then Ok None else prev ← index_range (d_raw st) (off - rb) off; Ok (Some prev));
  whole ← index_range (d_raw st) off (off + stride);
  filter ← idx whole 0;
  cur ← unfilter filter (drop 1 whole) prev fbpp;
  let raw := splice (d_raw st) (off + 1) cur in
  let y := y0 + r * dy in
  if negb (h_interlaced h) then
    dst ← index_range (d_canon st) (y * w * ch) ((y + 1) * w * ch);
    dst ← canonicalize h cur pw dst;
    Ok {| d_raw := raw; d_canon := splice (d_canon st) (y * w * ch) dst; d_off := off + stride; d_line := d_line st |}
  else
    let line := take (Z.to_nat (pw * ch)) (d_line st) ++ replicate (Z.to_nat (pw * ch) - length (d_line st)) 0 in
    line ← canonicalize h cur pw line;
    canon ← fold_try (fun canon i =>
      let x := x0 + i * dx in
      px ← index_range line (i * ch) ((i + 1) * ch);
      copy_at canon ((y * w + x) * ch) px) (d_canon st) (seqZ 0 pw);
    Ok {| d_raw := raw; d_canon := canon; d_off := off + stride; d_line := line |}.

Definition decode_pass (st : Decoding) (p : Z * Z * Z * Z) : outcome ImageError Decoding :=
  let '(pw, ph) := pass_dims (h_width h) (h_height h) p in
  if (pw =? 0) || (ph =? 0) then Ok st else fold_try (decode_row p pw) st (seqZ 0 ph).
End rows.

Definition depth_ok (ctype depth : Z) : bool :=
  if ctype =? 0 then bool_decide (depth ∈ [1; 2; 4; 8; 16])
  else if ctype =? 3 then bool_decide (depth ∈ [1; 2; 4; 8])
  else if bool_decide (ctype ∈ [2; 4; 6]) then bool_decide (depth ∈ [8; 16])
  else false.

Definition decode_image (h : Header) (idat : list Z) (plte : option (list Z)) (trns : option Trns) : outcome ImageError RgbImage :=
  let '(w, ht) := (h_width h, h_height h) in
  if negb (depth_ok (h_ctype h) (h_depth h)) then Err (DepthForType (h_depth h) (h_ctype h))
  else if (w =? 0) || (ht =? 0) then Err (ZeroSize w ht)
  else if MAX_DECODE_PIXELS <? w * ht then Err (TooLarge w ht)
  else
    let ch := channels (h_ctype h) in
    let bits := h_depth h * ch in
    let fbpp := Z.max (bits / 8) 1 in
    let ps := passes (h_interlaced h) in
    raw ← zlib_decompress idat (expected_bytes bits w ht ps);
    st ← fold_try (decode_pass h ch fbpp)
      {| d_raw := raw; d_canon := replicate (Z.to_nat (w * ht * ch)) 0; d_off := 0; d_line := [] |} ps;
    data ← to_rgb h (d_canon st) plte trns;
    Ok {| width := w; height := ht; rgb := data |}.

(** ** Chunks *)
Section chunks.
Context (data : list Z).

Record Chunks := { c_hdr : option Header; c_plte : option (list Z); c_trns : option Trns; c_exif : option (list Z) }.

Definition IHDR : list Z := str "IHDR".
Definition PLTE : list Z := str "PLTE".
Definition TRNS : list Z := str "tRNS".
Definition EXIF : list Z := str "eXIf".
Definition IDAT : list Z := str "IDAT".
Definition IEND : list Z := str "IEND".

Definition read_header (body : list Z) : outcome ImageError Header :=
  if Zlen body <? 13 then Err ShortIhdr
  else
    method ← idx body 11;
    if negb (method =? 0) then Err (FilterMethod method)
    else
      depth ← idx body 8;
      ctype ← idx body 9;
      lace ← idx body 12;
      Ok {| h_width := be32 (slice body 0 4); h_height := be32 (slice body 4 8); h_depth := depth; h_ctype := ctype;
            h_interlaced := negb (lace =? 0) |}.

(** What a complete chunk before the image data does. *)
Definition read_chunk (c : Chunks) (ty body : list Z) : outcome ImageError Chunks :=
  if bool_decide (ty = IHDR) then
    hdr ← read_header body;
    Ok {| c_hdr := Some hdr; c_plte := c_plte c; c_trns := c_trns c; c_exif := c_exif c |}
  else if bool_decide (ty = PLTE) then
    Ok {| c_hdr := c_hdr c; c_plte := (match c_hdr c with Some h => if h_ctype h =? 3 then Some body else c_plte c | None => c_plte c end);
          c_trns := c_trns c; c_exif := c_exif c |}
  else if bool_decide (ty = TRNS) then
    match c_hdr c with
    | Some h =>
      trns ← parse_trns h body;
      Ok {| c_hdr := c_hdr c; c_plte := c_plte c; c_trns := trns; c_exif := c_exif c |}
    | None => Ok c
    end
  else if bool_decide (ty = EXIF) then
    Ok {| c_hdr := c_hdr c; c_plte := c_plte c; c_trns := c_trns c; c_exif := Some body |}
  else Ok c.

(** The chunks up to the first [IDAT]: its position, or [None] at [IEND]. *)
Fixpoint header_chunks (n : nat) (pos : Z) (c : Chunks) : outcome ImageError (Chunks * option Z) :=
  match n with
  | O => Panic
  | S n =>
    head ← ok_or (get_range data pos (pos + 8)) NoImageData;
    let len := be32 head in
    let ty := slice head 4 8 in
    if negb (chunk_type_ok ty) then Err BadChunkType
    else
      let body_start := pos + 8 in
      if bool_decide (ty = IDAT) then Ok (c, Some pos)
      else
        body ← ok_or (get_range data body_start (saturating_add body_start len)) (ChunkPastEnd ty);
        if Zlen data <? body_start + len + 4 then Err (ChunkWithoutCrc ty)
        else
          c ← read_chunk c ty body;
          if bool_decide (ty = IEND) then Ok (c, None)
          else header_chunks n (body_start + len + 4) c
  end.

(** The first run of [IDAT] chunks, the last of them as far as it is there. *)
Fixpoint idat_chunks (n : nat) (pos : Z) (idat : list Z) : outcome ImageError (list Z * Z) :=
  match get_range data pos (pos + 8) with
  | Some head =>
    if negb (bool_decide (slice head 4 8 = IDAT)) then Ok (idat, pos)
    else
      match n with
      | O => Panic
      | S n =>
        let len := be32 head in
        let start := pos + 8 in
        let end_ := Z.min (saturating_add start len) (Zlen data) in
        part ← index_range data start end_;
        idat_chunks n (saturating_add (saturating_add start len) 4) (idat ++ part)
      end
  | None => Ok (idat, pos)
  end.

(** The last [eXIf] chunk after the image data, up to anything malformed. *)
Fixpoint exif_chunks (n : nat) (pos : Z) (exif : option (list Z)) : outcome ImageError (option (list Z)) :=
  match get_range data pos (pos + 8) with
  | Some head =>
    let len := be32 head in
    let ty := slice head 4 8 in
    if negb (chunk_type_ok ty) || bool_decide (ty = IEND) then Ok exif
    else
      let start := pos + 8 in
      match get_range data start (saturating_add start len) with
      | None => Ok exif
      | Some body =>
        match n with
        | O => Panic
        | S n => exif_chunks n (start + len + 4) (if bool_decide (ty = EXIF) then Some body else exif)
        end
      end
  | None => Ok exif
  end.

Definition decode : outcome ImageError RgbImage :=
  let none := {| c_hdr := None; c_plte := None; c_trns := None; c_exif := None |} in
  '(c, found_idat) ← header_chunks (S (length data)) (Zlen SIGNATURE) none;
  pos ← ok_or found_idat IendBeforeIdat;
  h ← ok_or (c_hdr c) NoIhdr;
  '(idat, pos) ← idat_chunks (length data) pos [];
  exif_blob ← exif_chunks (length data) pos (c_exif c);
  img ← decode_image h idat (c_plte c) (c_trns c);
  match orientation exif_blob None with Ok o => apply img o | _ => Panic end.
End chunks.

Example over_white_endpoints : Forall (fun c => over_white_exact c 255 = c /\ over_white_exact c 0 = 255) (seqZ 0 256) /\
  over_white_exact 10 128 = 132 /\ over_white_exact 40 7 = 249.
Proof. split; [apply (bool_decide_unpack _); vm_compute; reflexivity|done]. Qed.
