(* ===== verification/Buffers.v ===== *)
(** Outcomes that are not panics, and buffers of a known size: the rules the image decoders'
    proofs of totality share. *)
From Stdlib Require Import ZArith Lia Bool.
From stdpp Require Import base list gmap strings.
From S2P Require Import Prelude Base64.

(** * Outcomes that are not panics *)
Definition safe {E A} (Q : A -> Prop) (m : outcome E A) : Prop :=
  match m with Ok a => Q a | Err _ => True | Panic => False end.

Lemma safe_bind {E A B} (Q : A -> Prop) (R : B -> Prop) (m : outcome E A) f :
  safe Q m -> (forall a, Q a -> safe R (f a)) -> safe R (m ≫= f).
Proof. destruct m; cbn; auto. Qed.

Lemma safe_weaken {E A} (Q R : A -> Prop) (m : outcome E A) : safe Q m -> (forall a, Q a -> R a) -> safe R m.
Proof. destruct m; cbn; auto. Qed.

(** The invariant rule of a loop that may fail. *)
Lemma safe_fold {E S} (P : Z -> S -> Prop) (f : S -> Z -> outcome E S) st lo n : 0 <= n -> P lo st ->
  (forall i st, lo <= i < lo + n -> P i st -> safe (P (i + 1)) (f st i)) -> safe (P (lo + n)) (fold_try f st (seqZ lo n)).
Proof.
  intros Hn. revert lo st. pattern n. apply natlike_ind; [|clear n Hn; intros n Hn IH|done].
  - intros lo st HP _. by rewrite Z.add_0_r.
  - intros lo st HP Hstep. rewrite seqZ_cons by lia. replace (Z.pred (Z.succ n)) with n by lia. cbn [fold_try].
    apply safe_bind with (P (lo + 1)); [apply Hstep; (lia || done)|]. intros st' HP'.
    replace (lo + Z.succ n) with (Z.succ lo + n) by lia. apply IH; [done|]. intros i st1 Hi. apply Hstep. lia.
Qed.

Lemma idx_in {E A} (l : list A) i : 0 <= i < Zlen l -> exists x, l !! Z.to_nat i = Some x /\ idx (E:=E) l i = Ok x.
Proof.
  intros Hi. destruct (lookup_lt_is_Some_2 l (Z.to_nat i)) as [x Hx]; [lia|]. exists x. split; [done|]. by apply idx_Some; [lia|].
Qed.

(** A read inside the list, and a write. *)
Lemma idx_then {E A B} (P : A -> Prop) (l : list A) i (k : A -> outcome E B) (Q : B -> Prop) : Forall P l -> 0 <= i < Zlen l ->
  (forall x, l !! Z.to_nat i = Some x -> P x -> safe Q (k x)) -> safe Q (idx l i ≫= k).
Proof.
  intros Hl Hi Hk. destruct (idx_in (E:=E) l i Hi) as (x & Hx & ->). rewrite ok_bind. apply Hk; [done|]. by eapply Forall_lookup_1.
Qed.

Lemma idx_then' {E A B} (l : list A) i (k : A -> outcome E B) (Q : B -> Prop) : 0 <= i < Zlen l ->
  (forall x, l !! Z.to_nat i = Some x -> safe Q (k x)) -> safe Q (idx l i ≫= k).
Proof. intros Hi Hk. apply (idx_then (fun _ => True)); [by apply Forall_true|done|auto]. Qed.

Lemma idx_set_ok {E A} (P : A -> Prop) (l : list A) i x : Forall P l -> P x -> 0 <= i < Zlen l ->
  safe (E:=E) (fun k => Zlen k = Zlen l /\ Forall P k) (idx_set l i x).
Proof.
  intros Hl Hx Hi. unfold idx_set. rewrite (proj2 (Z.leb_le _ _)), (proj2 (Z.ltb_lt _ _)) by lia. cbn.
  split; [by rewrite length_insert|by apply Forall_insert].
Qed.

Lemma set_len {E A} n (l : list A) i x : Zlen l = n -> 0 <= i < n -> safe (E:=E) (fun k => Zlen k = n) (idx_set l i x).
Proof.
  intros Hl Hi. unfold idx_set. rewrite (proj2 (Z.leb_le _ _)), (proj2 (Z.ltb_lt _ _)) by lia. cbn. by rewrite length_insert.
Qed.

(** The invariant rule of a loop over a list. *)
Lemma safe_fold_all {E S A} (P : S -> Prop) (f : S -> A -> outcome E S) l st : P st ->
  (forall st x, x ∈ l -> P st -> safe P (f st x)) -> safe P (fold_try f st l).
Proof.
  revert st. induction l as [|x l IH]; intros st Hst Hf; [done|]. cbn [fold_try].
  eapply safe_bind; [by apply Hf; [left|]|]. intros st' Hst'. apply IH; [done|]. intros. apply Hf; [by right|done].
Qed.

Lemma safe_and {E A} (P Q : A -> Prop) (m : outcome E A) : safe P m -> safe Q m -> safe (fun a => P a /\ Q a) m.
Proof. destruct m; cbn; auto. Qed.

Lemma range_len {E A} (l : list A) n a b : Zlen l = n -> 0 <= a -> a <= b -> b <= n ->
  safe (E:=E) (fun k => Zlen k = b - a) (index_range l a b).
Proof. intros ????. rewrite index_range_Ok by lia. apply slice_length; lia. Qed.

Lemma ok_or_safe {E A} (P : A -> Prop) (o : option A) (e : E) : (forall a, o = Some a -> P a) -> safe P (ok_or o e).
Proof. destruct o; cbn; auto. Qed.

Lemma byte_at {E} (l : list Z) i : bytes_ok l -> 0 <= i < Zlen l -> exists x, idx (E:=E) l i = Ok x /\ is_byte x.
Proof. intros Hl Hi. destruct (idx_in (E:=E) l i Hi) as (x & Hx & Hidx). exists x. split; [done|]. by eapply Forall_lookup_1. Qed.

(** * Buffers of bytes *)

(** [n] bytes. *)
Definition sized (n : Z) (c : list Z) : Prop := Zlen c = n /\ bytes_ok c.

Lemma row_loop n (g : list Z -> Z -> outcome ImageError (list Z)) cur lo m : sized n cur -> 0 <= lo -> lo + m <= n ->
  (forall i c, lo <= i < lo + m -> sized n c -> safe (sized n) (g c i)) -> safe (sized n) (fold_try g cur (seqZ lo m)).
Proof.
  intros Hc Hlo Hm Hg. destruct (Z.le_gt_cases 0 m) as [Hle|Hgt].
  - by apply (safe_fold (fun _ c => sized n c)).
  - assert (seqZ lo m = []) as -> by (apply length_zero_iff_nil; rewrite length_seqZ; lia). done.
Qed.

Lemma byte_then {A} n (l : list Z) i (k : Z -> outcome ImageError A) (Q : A -> Prop) : sized n l -> 0 <= i < n ->
  (forall x, is_byte x -> safe Q (k x)) -> safe Q (idx l i ≫= k).
Proof. intros [Hl Hb] Hi Hk. destruct (byte_at (E:=ImageError) l i Hb) as (x & -> & Hx); [lia|]. by apply Hk. Qed.

(** ** Ranges of bytes *)

Lemma sized_range {E} l n a b : sized n l -> 0 <= a -> a <= b -> b <= n -> safe (E:=E) (sized (b - a)) (index_range l a b).
Proof. intros [Hl Hb] ? ? ?. rewrite index_range_Ok by lia. split; [apply slice_length; lia|by apply bytes_ok_slice]. Qed.

Lemma sized_splice l k n m a : sized n l -> sized m k -> 0 <= a -> a + m <= n -> sized n (splice l a k).
Proof. intros [Hl Hb] [Hm Hk] ? ?. split; [rewrite splice_length; lia|by apply bytes_ok_splice]. Qed.

Lemma range_then {A} l n a b (k : list Z -> outcome ImageError A) (Q : A -> Prop) : sized n l -> 0 <= a -> a <= b -> b <= n ->
  (forall s, sized (b - a) s -> safe Q (k s)) -> safe Q (index_range l a b ≫= k).
Proof. intros. eapply safe_bind; [by eapply sized_range|done]. Qed.

Lemma sized_zeros n : 0 <= n -> sized n (replicate (Z.to_nat n) 0).
Proof. intros. split; [rewrite length_replicate; lia|]. apply Forall_replicate. unfold is_byte. lia. Qed.

Lemma sized_nth l n i : sized n l -> (i < Z.to_nat n)%nat -> is_byte (nth i l 0).
Proof. intros [Hl Hb] Hi. eapply Forall_nth in Hb; [done|lia]. Qed.

Lemma safe_mapM {E A B} (P : A -> Prop) (Q : B -> Prop) (f : A -> outcome E B) l : Forall P l -> (forall x, P x -> safe Q (f x)) ->
  safe (fun k => length k = length l /\ Forall Q k) (mapM f l).
Proof.
  intros Hl Hf. induction Hl as [|x l Hx Hl IH]; [done|]. cbn. eapply safe_bind; [by apply Hf|]. intros y Hy.
  eapply safe_bind; [exact IH|]. intros k [Hk Hq]. cbn. auto.
Qed.

Lemma concat_sized n (l : list (list Z)) : Forall (sized n) l -> sized (Zlen l * n) (concat l).
Proof.
  intros H. induction H as [|x l [Hx Hb] Hl [IHl IHb]]; [by split; [|constructor]|]. cbn [concat length]. split; [rewrite length_app; lia|].
  by apply Forall_app.
Qed.

