(* ===== verification/PngTotal.v ===== *)
(** PNG row filters: undoing a filter inverts applying it, never panics, and keeps bytes.

    Decoding a PNG never panics: on every file of bytes the decoder returns an image of
    its declared size or an error. *)
From Stdlib Require Import ZArith Lia Bool.
From stdpp Require Import base list gmap strings.
From S2P Require Import Prelude Base64 Buffers Inflate InflateBlocks Exif Png.

(** * The filters (PNG, section 9) *)
Section filters.
Context (bpp : Z) (Hbpp : 1 <= bpp).

Definition at_or_0 (l : list Z) (i : Z) : Z := if i <? 0 then 0 else default 0 (l !! Z.to_nat i).

(** What filter [f] predicts for byte [i] of [raw] under the row [prev]. *)
Definition predictor (f : Z) (raw prev : list Z) (i : Z) : Z :=
  let a := at_or_0 raw (i - bpp) in
  let b := at_or_0 prev i in
  let c := at_or_0 prev (i - bpp) in
  match f with 1 => a | 2 => b | 3 => (a + b) / 2 | 4 => paeth a b c | _ => 0 end.

Definition filter_row (f : Z) (raw prev : list Z) : list Z :=
  imap (fun i x => (x - predictor f raw prev (Z.of_nat i)) mod 256) raw.

Definition half_done (f : Z) (raw prev : list Z) (i : Z) : list Z :=
  take (Z.to_nat i) raw ++ drop (Z.to_nat i) (filter_row f raw prev).

Lemma filter_length f raw prev : length (filter_row f raw prev) = length raw.
Proof. apply length_imap. Qed.

Lemma half_length f raw prev i : length (half_done f raw prev i) = length raw.
Proof. unfold half_done. rewrite length_app, length_take, length_drop, filter_length. lia. Qed.

Lemma half_before f raw prev i j : 0 <= j < i -> i <= Zlen raw -> idx (E:=ImageError) (half_done f raw prev i) j = Ok (at_or_0 raw j).
Proof.
  intros Hj Hi. destruct (lookup_lt_is_Some_2 raw (Z.to_nat j)) as [x Hx]; [lia|]. apply idx_Some; [lia|].
  unfold half_done. rewrite lookup_app_l by (rewrite length_take; lia). rewrite lookup_take_lt by lia.
  unfold at_or_0. rewrite (proj2 (Z.ltb_ge _ _)) by lia. by rewrite Hx.
Qed.

(** Adding the prediction back to the next byte. *)
Lemma half_step f raw prev i v : bytes_ok raw -> 0 <= i < Zlen raw -> v mod 256 = predictor f raw prev i mod 256 ->
  wrapping_add_at (half_done f raw prev i) i v = Ok (half_done f raw prev (i + 1)).
Proof.
  intros Hraw Hi Hv. destruct (lookup_lt_is_Some_2 raw (Z.to_nat i)) as [x Hx]; [lia|].
  assert (is_byte x) as Hb by (by eapply Forall_lookup_1). unfold is_byte in Hb.
  assert (filter_row f raw prev !! Z.to_nat i = Some ((x - predictor f raw prev i) mod 256)) as Hf.
  { unfold filter_row. rewrite list_lookup_imap, Hx. cbn. by rewrite Z2Nat.id by lia. }
  unfold wrapping_add_at. rewrite (idx_Some _ _ ((x - predictor f raw prev i) mod 256)).
  2: lia.
  2: { unfold half_done. rewrite lookup_app_r by (rewrite length_take; lia). rewrite length_take, lookup_drop, <- Hf. f_equal. lia. }
  cbn [mbind outcome_bind]. unfold idx_set. rewrite half_length, (proj2 (Z.leb_le _ _)), (proj2 (Z.ltb_lt _ _)) by lia. cbn [andb].
  assert (((x - predictor f raw prev i) mod 256 + v) mod 256 = x) as ->.
  { rewrite Z.add_mod, Hv, Z.mod_mod, <- Z.add_mod, Z.sub_add by lia. by apply Z.mod_small. }
  f_equal. unfold half_done. replace (Z.to_nat (i + 1)) with (S (Z.to_nat i)) by lia.
  rewrite (take_S_r _ _ x) by done. rewrite insert_app_r_alt by (rewrite length_take; lia).
  rewrite length_take, Nat.min_l, Nat.sub_diag by lia. rewrite (drop_S _ _ _ Hf). by rewrite <- app_assoc.
Qed.

Lemma half_loop f raw prev (g : list Z -> Z -> outcome ImageError (list Z)) lo n : 0 <= lo -> 0 <= n -> lo + n <= Zlen raw ->
  (forall i, lo <= i < lo + n -> g (half_done f raw prev i) i = Ok (half_done f raw prev (i + 1))) ->
  fold_try g (half_done f raw prev lo) (seqZ lo n) = Ok (half_done f raw prev (lo + n)).
Proof.
  intros Hlo Hn. revert lo Hlo. pattern n. apply natlike_ind; [|clear n Hn; intros n Hn IH|done].
  - intros lo Hlo _ _. by rewrite Z.add_0_r.
  - intros lo Hlo Hin Hg. rewrite seqZ_cons by lia. replace (Z.pred (Z.succ n)) with n by lia. cbn [fold_try].
    rewrite Hg by lia. cbn [mbind outcome_bind]. replace (lo + 1) with (Z.succ lo) by lia. rewrite IH; [f_equal; f_equal; lia|lia|lia|].
    intros i Hi. apply Hg. lia.
Qed.

Lemma half_start f raw prev : half_done f raw prev 0 = filter_row f raw prev.
Proof. unfold half_done. by rewrite take_0, drop_0. Qed.

Lemma half_end f raw prev : half_done f raw prev (Zlen raw) = raw.
Proof. unfold half_done. rewrite Nat2Z.id, take_ge, drop_ge by (rewrite ?filter_length; lia). apply app_nil_r. Qed.

(** Bytes the filter leaves alone. *)
Lemma half_skip f raw prev n : bytes_ok raw -> 0 <= n <= Zlen raw -> (forall i, 0 <= i < n -> predictor f raw prev i = 0) ->
  filter_row f raw prev = half_done f raw prev n.
Proof.
  intros Hraw Hn Hp. apply list_eq. intros i. unfold half_done. destruct (decide (i < Z.to_nat n)%nat) as [Hi|Hi].
  - rewrite lookup_app_l by (rewrite length_take; lia). rewrite lookup_take_lt by lia. unfold filter_row. rewrite list_lookup_imap.
    destruct (lookup_lt_is_Some_2 raw i) as [x Hx]; [lia|]. rewrite Hx. cbn. rewrite Hp by lia. f_equal. rewrite Z.sub_0_r. apply Z.mod_small.
    by eapply Forall_lookup_1 in Hraw.
  - rewrite lookup_app_r by (rewrite length_take; lia). rewrite length_take, lookup_drop. f_equal. lia.
Qed.

Lemma half_finish f raw prev (g : list Z -> Z -> outcome ImageError (list Z)) :
  (forall i, bpp <= i < Zlen raw -> g (half_done f raw prev i) i = Ok (half_done f raw prev (i + 1))) ->
  fold_try g (half_done f raw prev (Z.min bpp (Zlen raw))) (seqZ bpp (Zlen raw - bpp)) = Ok raw.
Proof.
  intros Hg. destruct (Z.le_gt_cases bpp (Zlen raw)) as [Hle|Hgt].
  - rewrite Z.min_l by done. rewrite half_loop by (lia || (intros; apply Hg; lia)).
    replace (bpp + (Zlen raw - bpp)) with (Zlen raw) by lia. by rewrite half_end.
  - rewrite Z.min_r, half_end by lia. assert (seqZ bpp (Zlen raw - bpp) = []) as -> by (apply length_zero_iff_nil; rewrite length_seqZ; lia). done.
Qed.

(** The first bytes of a row, whose left neighbour is taken as zero. *)
Lemma half_first f raw prev (g : list Z -> Z -> outcome ImageError (list Z)) :
  (forall i, 0 <= i < Z.min bpp (Zlen raw) -> g (half_done f raw prev i) i = Ok (half_done f raw prev (i + 1))) ->
  fold_try g (filter_row f raw prev) (seqZ 0 (Z.min bpp (Zlen raw))) = Ok (half_done f raw prev (Z.min bpp (Zlen raw))).
Proof. intros Hg. rewrite <- half_start. apply half_loop; [lia..|]. intros i Hi. apply Hg. lia. Qed.

Lemma before_row l i : i < 0 -> at_or_0 l i = 0.
Proof. intros H. unfold at_or_0. by rewrite (proj2 (Z.ltb_lt _ _)). Qed.

Lemma in_row l i : 0 <= i < Zlen l -> idx (E:=ImageError) l i = Ok (at_or_0 l i).
Proof.
  intros Hi. destruct (idx_in (E:=ImageError) l i Hi) as (x & Hx & ->). unfold at_or_0.
  rewrite (proj2 (Z.ltb_ge _ _)) by lia. by rewrite Hx.
Qed.

Lemma no_row n i : at_or_0 (replicate n 0) i = 0.
Proof. unfold at_or_0. destruct (i <? 0); [done|]. destruct (decide (Z.to_nat i < n)%nat); [by rewrite lookup_replicate_2|].
  by rewrite (lookup_ge_None_2 (replicate n 0)) by (rewrite length_replicate; lia). Qed.

Lemma paeth_no_row a : paeth a 0 0 = a.
Proof. unfold paeth. rewrite !(proj2 (Z.leb_le _ _)) by lia. done. Qed.

Lemma paeth_first b : paeth 0 b 0 = b.
Proof.
  unfold paeth. replace (Z.abs (0 - 0)) with 0 by lia. destruct (Z.leb_spec (Z.abs (b - 0)) 0) as [H|H]; cbn [andb].
  - rewrite (proj2 (Z.leb_le _ _)) by lia. lia.
  - by rewrite (proj2 (Z.leb_le _ _)) by lia.
Qed.

(** The row above, or zeros over the first row of a pass. *)
Definition above (prev : option (list Z)) (raw : list Z) : list Z := default (replicate (length raw) 0) prev.

(** Undoing a filter gives back the row it was applied to. *)
Lemma unfilter_filter_row f raw prev : 0 <= f <= 4 -> bytes_ok raw -> (forall up, prev = Some up -> length up = length raw) ->
  unfilter f (filter_row f raw (above prev raw)) prev bpp = Ok raw.
Proof.
  intros Hf Hraw Hup. unfold unfilter. rewrite filter_length.
  assert (f = 0 \/ f = 1 \/ f = 2 \/ f = 3 \/ f = 4) as Hcases by lia.
  destruct Hcases as [-> | [-> | [-> | [-> | ->]]]]; cbv iota.
  - f_equal. rewrite (half_skip 0 _ _ (Zlen raw)) by (done || lia). apply half_end.
  - rewrite (half_skip 1 _ _ (Z.min bpp (Zlen raw))) by (lia || done || (intros; apply before_row; lia)).
    apply half_finish. intros i Hi. rewrite half_before by lia. cbn [mbind outcome_bind]. apply half_step; [done|lia|done].
  - destruct prev as [up|]; cbn [above default].
    + specialize (Hup up eq_refl). f_equal. rewrite (drop_ge (filter_row _ _ _)), app_nil_r by (rewrite filter_length; lia).
      apply list_eq. intros i. rewrite lookup_zip_with. unfold filter_row. rewrite list_lookup_imap.
      destruct (raw !! i) as [x|] eqn:Hx; cbn; [|done].
      destruct (lookup_lt_is_Some_2 up i) as [u Hu]; [rewrite Hup; by eapply lookup_lt_Some|]. rewrite Hu. cbn.
      f_equal. unfold at_or_0. rewrite (proj2 (Z.ltb_ge _ _)) by lia. rewrite Nat2Z.id, Hu. cbn.
      rewrite Z.add_mod_idemp_l, Z.sub_add by lia. apply Z.mod_small. by eapply Forall_lookup_1 in Hraw.
    + f_equal. rewrite (half_skip 2 _ _ (Zlen raw)); [apply half_end|done|lia|]. intros i _. apply no_row.
  - destruct prev as [up|]; cbn [above default].
    + specialize (Hup up eq_refl). rewrite half_first.
      * cbn [mbind outcome_bind]. apply half_finish. intros i Hi. rewrite half_before, in_row by lia. cbn [mbind outcome_bind].
        apply half_step; [done|lia|]. by rewrite Z.mod_mod by lia.
      * intros i Hi. rewrite in_row by lia. cbn [mbind outcome_bind]. apply half_step; [done|lia|].
        unfold predictor. by rewrite (before_row raw) by lia.
    + rewrite (half_skip 3 _ _ (Z.min bpp (Zlen raw))); [|done|lia|].
      * apply half_finish. intros i Hi. rewrite half_before by lia. cbn [mbind outcome_bind]. apply half_step; [done|lia|].
        unfold predictor. by rewrite no_row, Z.add_0_r.
      * intros i Hi. unfold predictor. by rewrite no_row, before_row by lia.
  - destruct prev as [up|]; cbn [above default].
    + specialize (Hup up eq_refl). rewrite half_first.
      * cbn [mbind outcome_bind]. apply half_finish. intros i Hi. rewrite half_before, !in_row by lia. cbn [mbind outcome_bind].
        apply half_step; [done|lia|]. by rewrite Z.mod_mod by lia.
      * intros i Hi. rewrite in_row by lia. cbn [mbind outcome_bind]. apply half_step; [done|lia|].
        unfold predictor. rewrite !(before_row _ (i - bpp)) by lia. by rewrite paeth_first.
    + rewrite (half_skip 4 _ _ (Z.min bpp (Zlen raw))); [|done|lia|].
      * apply half_finish. intros i Hi. rewrite half_before by lia. cbn [mbind outcome_bind]. apply half_step; [done|lia|].
        unfold predictor. by rewrite !no_row, paeth_no_row.
      * intros i Hi. unfold predictor. by rewrite !no_row, before_row by lia.
Qed.
End filters.

(** * Any filter byte on any row *)

Lemma wrapping_add_at_safe n cur i v : sized n cur -> 0 <= i < n -> safe (sized n) (wrapping_add_at cur i v).
Proof.
  intros [Hl Hb] Hi. unfold wrapping_add_at. destruct (byte_at (E:=ImageError) cur i Hb) as (x & -> & Hx); [lia|].
  cbn [mbind outcome_bind]. unfold idx_set. rewrite (proj2 (Z.leb_le _ _)), (proj2 (Z.ltb_lt _ _)) by lia. cbn.
  split; [by rewrite length_insert|]. apply Forall_insert; [done|]. unfold is_byte. Z.div_mod_to_equations. lia.
Qed.

Lemma unfilter_unknown f cur prev bpp : ~ 0 <= f <= 4 -> unfilter f cur prev bpp = Err (FilterType f).
Proof. intros Hf. unfold unfilter. destruct f as [|[[p|p|]|[[p|p|]|[p|p|]|]|]|p]; try done; lia. Qed.

Lemma unfilter_safe f cur prev bpp : 1 <= bpp -> bytes_ok cur -> (forall up, prev = Some up -> sized (Zlen cur) up) ->
  safe (sized (Zlen cur)) (unfilter f cur prev bpp).
Proof.
  intros Hbpp Hcur Hup. destruct (decide (0 <= f <= 4)) as [Hf|Hf]; [|by rewrite unfilter_unknown].
  assert (sized (Zlen cur) cur) as Hs by done. unfold unfilter.
  assert (forall g : Z -> Z, safe (sized (Zlen cur))
    (fold_try (fun cur i => a ← idx cur (i - bpp); wrapping_add_at cur i (g a)) cur (seqZ bpp (Zlen cur - bpp)))) as Hsub.
  { intros g. apply row_loop; [done|lia..|]. intros i c Hi Hc. eapply byte_then; [done|lia|]. intros x _.
    apply wrapping_add_at_safe; [done|lia]. }
  assert (f = 0 \/ f = 1 \/ f = 2 \/ f = 3 \/ f = 4) as Hcases by lia.
  destruct Hcases as [-> | [-> | [-> | [-> | ->]]]]; cbv iota; [done|apply (Hsub id)|..];
    destruct prev as [up|]; [|done| |apply (Hsub (fun a => a / 2))| |apply (Hsub id)].
  - destruct (Hup up eq_refl) as [Hl Hb]. rewrite drop_ge, app_nil_r by lia. split; [rewrite length_zip_with; lia|].
    apply Forall_lookup_2. intros i x Hx. apply lookup_zip_with_Some in Hx as (c & u & -> & _ & _).
    unfold is_byte. Z.div_mod_to_equations. lia.
  - specialize (Hup up eq_refl). eapply safe_bind; [apply (row_loop (Zlen cur)); [done|lia|lia|]|].
    + intros i c Hi Hc. eapply byte_then; [apply Hup|lia|]. intros x _. apply wrapping_add_at_safe; [done|lia].
    + intros c1 Hc1. apply row_loop; [done|lia..|]. intros i c Hi Hc. eapply byte_then; [done|lia|]. intros a _.
      eapply byte_then; [apply Hup|lia|]. intros x _. apply wrapping_add_at_safe; [done|lia].
  - specialize (Hup up eq_refl). eapply safe_bind; [apply (row_loop (Zlen cur)); [done|lia|lia|]|].
    + intros i c Hi Hc. eapply byte_then; [apply Hup|lia|]. intros x _. apply wrapping_add_at_safe; [done|lia].
    + intros c1 Hc1. apply row_loop; [done|lia..|]. intros i c Hi Hc. eapply byte_then; [done|lia|]. intros a _.
      eapply byte_then; [apply Hup|lia|]. intros x _. eapply byte_then; [apply Hup|lia|]. intros y _.
      apply wrapping_add_at_safe; [done|lia].
Qed.

Lemma be32_range b : bytes_ok b -> 0 <= be32 b < 2 ^ 32.
Proof.
  intros Hb. unfold be32, be_val. pose proof (le_val_range (reverse (take 4 b))) as H. rewrite length_reverse, length_take in H.
  assert (256 ^ Z.of_nat (Nat.min 4 (length b)) <= 256 ^ 4) by (apply Z.pow_le_mono_r; lia).
  change (256 ^ 4) with (2 ^ 32) in *. enough (0 <= le_val (reverse (take 4 b)) < 256 ^ Z.of_nat (Nat.min 4 (length b))) by lia.
  apply H. by apply Forall_reverse, Forall_take.
Qed.

(** * Samples *)

Lemma chunks_exact_ok n fuel l : (0 < n)%nat -> bytes_ok l -> Forall (sized (Z.of_nat n)) (chunks_exact fuel n l).
Proof.
  intros Hn. revert l. induction fuel as [|fuel IH]; intros l Hl; [constructor|]. cbn [chunks_exact].
  destruct (Nat.leb_spec n (length l)); [|constructor]. constructor; [|by apply IH, Forall_drop].
  split; [rewrite length_take; lia|by apply Forall_take].
Qed.

Lemma chunks_exact_length n fuel l k : (0 < n)%nat -> (length l <= fuel)%nat -> (length l = k * n)%nat -> length (chunks_exact fuel n l) = k.
Proof.
  intros Hn. revert l k. induction fuel as [|fuel IH]; intros l k Hf Hk; [cbn; nia|]. cbn [chunks_exact].
  destruct (Nat.leb_spec n (length l)); [|cbn; destruct k; nia]. destruct k as [|k]; [lia|]. cbn [length]. f_equal.
  apply IH; rewrite length_drop; lia.
Qed.

Lemma chunks_of_ok n l : (0 < n)%nat -> bytes_ok l -> Forall (sized (Z.of_nat n)) (chunks_of n l).
Proof. apply chunks_exact_ok. Qed.

Lemma chunks_of_length n l k : (0 < n)%nat -> (length l = k * n)%nat -> length (chunks_of n l) = k.
Proof. intros. by apply chunks_exact_length. Qed.

Lemma assign_ok dst values n : sized n dst -> bytes_ok values -> sized n (assign dst values).
Proof.
  intros [Hl Hb] Hv. split; [unfold assign; rewrite length_app, length_take, length_drop; lia|].
  apply Forall_app. split; [by apply Forall_take|by apply Forall_drop].
Qed.

Lemma div_ceil_spec a b : 0 <= a -> 0 < b -> b * div_ceil a b - b < a <= b * div_ceil a b.
Proof. intros. unfold div_ceil. pose proof (Z.div_mod a b). pose proof (Z.mod_pos_bound a b). destruct (Z.eqb_spec (a mod b) 0); nia. Qed.

Lemma small_sample_ok ctype depth row x width : depth = 1 \/ depth = 2 \/ depth = 4 ->
  sized (row_bytes depth width) row -> 0 <= x < width -> safe (E:=ImageError) is_byte (small_sample ctype depth row x).
Proof.
  intros Hdepth Hrow Hx. unfold small_sample. unfold row_bytes in Hrow.
  pose proof (div_ceil_spec (width * depth) 8) as Hc.
  destruct Hrow as [Hl Hb]. destruct (byte_at (E:=ImageError) row (x / (8 / depth)) Hb) as (v & -> & Hv).
  { destruct Hdepth as [-> | [-> | ->]]; [change (8 / 1) with 8|change (8 / 2) with 4|change (8 / 4) with 2]; Z.div_mod_to_equations; lia. }
  cbn [mbind outcome_bind safe]. unfold is_byte.
  assert (0 <= Z.land (Z.shiftr v (8 - depth * (x mod (8 / depth) + 1))) (Z.shiftl 1 depth - 1) < 2 ^ depth) as Hland.
  { rewrite Z.shiftl_1_l, Z.sub_1_r, <- Z.ones_equiv, Z.land_ones by lia. apply Z.mod_pos_bound. lia. }
  set (s := Z.land _ _) in *. clearbody s. unfold sample_scale.
  destruct Hdepth as [-> | [-> | ->]]; cbn in Hland |- *; destruct (ctype =? 0); lia.
Qed.

Section samples.
Context (h : Header).
Abbreviation ch := (channels (h_ctype h)).

Lemma depth_cases : depth_ok (h_ctype h) (h_depth h) = true ->
  h_depth h = 8 \/ h_depth h = 16 \/ (h_depth h = 1 \/ h_depth h = 2 \/ h_depth h = 4) /\ ch = 1.
Proof.
  unfold depth_ok, channels. destruct (Z.eqb_spec (h_ctype h) 0) as [H0|H0]; cbn [orb].
  { intros Hin%bool_decide_eq_true. set_solver by lia. }
  destruct (Z.eqb_spec (h_ctype h) 3) as [H3|H3]; cbn [orb].
  { intros Hin%bool_decide_eq_true. set_solver by lia. }
  case_bool_decide; [|done]. intros Hin%bool_decide_eq_true. set_solver by lia.
Qed.

Lemma channels_range : 1 <= ch <= 4.
Proof. unfold channels. repeat case_match; lia. Qed.

Lemma high_bytes_ok n row (g : list Z -> Z) : (forall s, sized 2 s -> is_byte (g s)) -> bytes_ok row -> n = 2%nat ->
  bytes_ok (g <$> chunks_of n row).
Proof.
  intros Hg Hrow ->. apply Forall_fmap. eapply Forall_impl; [apply (chunks_of_ok 2); [lia|done]|]. intros s Hs. by apply Hg.
Qed.

(** A row of [width] pixels gives [width] pixels of 8-bit samples. *)
Lemma canonicalize_ok row width dst : depth_ok (h_ctype h) (h_depth h) = true -> 0 <= width ->
  sized (row_bytes (h_depth h * ch) width) row -> sized (width * ch) dst -> safe (sized (width * ch)) (canonicalize h row width dst).
Proof.
  intros Hd Hw Hrow Hdst. pose proof channels_range as Hch. unfold canonicalize.
  destruct (Z.eqb_spec (h_depth h) 8) as [H8|H8].
  { rewrite H8 in Hrow. unfold row_bytes in Hrow. pose proof (div_ceil_spec (width * (8 * ch)) 8 ltac:(nia) ltac:(lia)) as Hc.
    destruct Hdst as [Hl _]. rewrite Hl. eapply safe_weaken; [eapply sized_range; [done|lia|nia|nia]|]. intros s Hs. by rewrite Z.sub_0_r in Hs. }
  destruct (_ && _).
  { apply assign_ok; [done|]. apply high_bytes_ok; [|apply Hrow|done]. intros s Hs. destruct (negb _); [done|]. eapply sized_nth; [done|lia]. }
  destruct (Z.eqb_spec (h_depth h) 16) as [H16|H16].
  { apply assign_ok; [done|]. apply high_bytes_ok; [|apply Hrow|done]. intros s Hs. eapply sized_nth; [done|lia]. }
  destruct (depth_cases Hd) as [?|[?|[Hd4 H1]]]; [done|done|]. rewrite H1, Z.mul_1_r in *. destruct Hdst as [Hl Hb]. rewrite Hl, Z.min_id.
  apply (safe_fold (fun _ d => sized width d)); [done|done|]. intros x d Hx [Hdl Hdb].
  eapply safe_bind; [by eapply small_sample_ok|]. intros v Hv. unfold idx_set.
  rewrite (proj2 (Z.leb_le _ _)), (proj2 (Z.ltb_lt _ _)) by lia. cbn. split; [by rewrite length_insert|by apply Forall_insert].
Qed.
End samples.

(** * Conversion to RGB *)

Lemma over_white_ok a c : is_byte a -> is_byte c -> safe (E:=ImageError) is_byte (over_white a c).
Proof.
  unfold is_byte. intros Ha Hc. unfold over_white. rewrite (proj2 (Z.leb_le _ _)), (proj2 (Z.ltb_lt _ _)) by lia. cbn [andb safe].
  unfold over_white_exact. destruct (_ =? 0); [done|]. apply is_byte_mod.
Qed.

Lemma entry_over_white a e n : is_byte a -> sized n e -> safe (E:=ImageError) (sized n) (mapM (over_white a) e).
Proof.
  intros Ha [Hn He]. eapply safe_weaken; [eapply safe_mapM; [exact He|]; intros x Hx; by apply over_white_ok|].
  intros k [Hk Hb]. split; [lia|done].
Qed.

Lemma grey_ok v : is_byte v -> sized 3 [v; v; v].
Proof. intros Hv. split; [done|]. by apply (Forall_cons_2 is_byte v), (Forall_cons_2 is_byte v), (Forall_cons_2 is_byte v). Qed.

Definition trns_ok (t : option Trns) : Prop :=
  match t with Some (TrnsPalette alpha) => bytes_ok alpha | _ => True end.

Lemma imap_Forall {A} (Q : A -> Prop) (f : nat -> A -> A) l : Forall Q l -> (forall i x, Q x -> Q (f i x)) -> Forall Q (imap f l).
Proof. intros Hl Hf. apply Forall_lookup_2. intros i y Hy. rewrite list_lookup_imap in Hy. apply fmap_Some in Hy as (x & Hx & ->).
  apply Hf. by eapply Forall_lookup_1. Qed.

Lemma palette_ok plte trns : (forall p, plte = Some p -> bytes_ok p) -> trns_ok trns ->
  length (palette plte trns) = 256%nat /\ Forall (sized 4) (palette plte trns).
Proof.
  intros Hp Ht. unfold palette. set (pal := match plte with Some _ => _ | None => _ end).
  assert (length pal = 256%nat /\ Forall (sized 4) pal) as [Hl Hpal].
  { unfold pal. destruct plte as [p|].
    - split; [by rewrite length_imap|]. apply imap_Forall; [apply Forall_replicate; split; [done|]; repeat constructor; unfold is_byte; lia|].
      intros i e He. destruct (take 256 (chunks_of 3 p) !! i) as [c|] eqn:Hc; [|done].
      assert (sized 3 c) as [Hcl Hcb].
      { eapply Forall_lookup_1; [|exact Hc]. apply Forall_take, (chunks_of_ok 3); [lia|]. by apply Hp. }
      split; [rewrite length_app; cbn; lia|]. apply Forall_app. split; [done|]. repeat constructor; unfold is_byte; lia.
    - split; [done|]. apply Forall_replicate. split; [done|]; repeat constructor; unfold is_byte; lia. }
  clearbody pal. destruct trns as [[v|alpha]|]; [done| |done]. split; [by rewrite length_imap|].
  apply imap_Forall; [done|]. intros i e [He Heb]. destruct (take 256 alpha !! i) as [a|] eqn:Ha; [|done].
  split; [rewrite length_app, length_take; cbn [length]; lia|]. apply Forall_app. split; [by apply Forall_take|]. constructor; [|done].
  eapply Forall_lookup_1; [|exact Ha]. by apply Forall_take.
Qed.

Lemma to_rgb_ok h canon plte trns n : depth_ok (h_ctype h) (h_depth h) = true -> sized (n * channels (h_ctype h)) canon -> 0 <= n -> (forall p, plte = Some p -> bytes_ok p) ->
  trns_ok trns -> safe (sized (n * 3)) (to_rgb h canon plte trns).
Proof.
  intros Hd [Hl Hb] Hn Hp Ht. unfold to_rgb, channels in *.
  destruct (Z.eqb_spec (h_ctype h) 2) as [H2|H2]; [rewrite H2 in Hl; done|].
  destruct (Z.eqb_spec (h_ctype h) 6) as [H6|H6].
  { rewrite H6 in Hl. cbn in Hl. eapply safe_bind; [eapply (safe_mapM (sized 4) (sized 3)); [apply (chunks_of_ok 4); [lia|done]|]|].
    - intros p [Hp4 Hpb]. apply entry_over_white; [eapply sized_nth; [by split|lia]|]. split; [rewrite length_take; lia|by apply Forall_take].
    - intros px [Hpx Hq]. cbn [safe]. apply concat_sized in Hq. rewrite Hpx, (chunks_of_length 4 _ (Z.to_nat n)) in Hq by lia.
      by rewrite Z2Nat.id in Hq by lia. }
  destruct (Z.eqb_spec (h_ctype h) 4) as [H4|H4].
  { rewrite H4 in Hl. cbn in Hl. eapply safe_bind; [eapply (safe_mapM (sized 2) (sized 3)); [apply (chunks_of_ok 2); [lia|done]|]|].
    - intros p Hp2. eapply safe_bind; [apply over_white_ok; eapply sized_nth; [done|lia|done|lia]|]. intros v Hv. by apply grey_ok.
    - intros px [Hpx Hq]. cbn [safe]. apply concat_sized in Hq. rewrite Hpx, (chunks_of_length 2 _ (Z.to_nat n)) in Hq by lia.
      by rewrite Z2Nat.id in Hq by lia. }
  destruct (Z.eqb_spec (h_ctype h) 3) as [H3|H3].
  { rewrite H3 in Hl. cbn in Hl. destruct (palette_ok plte trns Hp Ht) as [Hpl Hpal].
    eapply safe_bind; [eapply (safe_mapM (sized 4) (sized 3)); [exact Hpal|]|].
    - intros e [He Heb]. apply entry_over_white; [eapply sized_nth; [by split|lia]|]. split; [rewrite length_take; lia|by apply Forall_take].
    - intros colours [Hcl Hcs]. eapply safe_bind; [eapply (safe_mapM is_byte (sized 3)); [exact Hb|]|].
      + intros i Hi. unfold is_byte in Hi. destruct (idx_in (E:=ImageError) colours i) as (x & Hx & ->); [lia|]. cbn [safe]. by eapply Forall_lookup_1 in Hcs.
      + intros px [Hpx Hq]. cbn [safe]. apply concat_sized in Hq. replace (n * 3) with (Zlen px * 3) by lia. done. }
  assert (h_ctype h = 0) as H0.
  { unfold depth_ok in Hd. destruct (Z.eqb_spec (h_ctype h) 0); [done|]. rewrite (proj2 (Z.eqb_neq _ _) H3) in Hd.
    case_bool_decide as Hin; [|done]. set_solver by lia. }
  rewrite H0 in Hl. cbn in Hl. cbn [safe]. set (key := match trns with Some (TrnsGray t) => _ | _ => _ end).
  replace (n * 3) with (Zlen canon * 3) by lia. rewrite <- (length_fmap (fun v => let v := if bool_decide (key = Some v) then 255 else v in [v; v; v])).
  apply concat_sized. apply Forall_fmap. eapply Forall_impl; [exact Hb|]. intros v Hv. apply grey_ok.
  case_bool_decide; [unfold is_byte; lia|done].
Qed.

(** * Rows and passes *)

Definition pass_bytes (bits w ht : Z) (p : Z * Z * Z * Z) : Z :=
  let '(pw, ph) := pass_dims w ht p in if (0 <? pw) && (0 <? ph) then ph * (1 + row_bytes bits pw) else 0.

Lemma expected_bytes_sum bits w ht ps : expected_bytes bits w ht ps = foldr Z.add 0 (pass_bytes bits w ht <$> ps).
Proof.
  unfold expected_bytes. assert (forall acc, foldl (fun expected p => let '(pw, ph) := pass_dims w ht p in
    if (0 <? pw) && (0 <? ph) then expected + ph * (1 + row_bytes bits pw) else expected) acc ps
    = acc + foldr Z.add 0 (pass_bytes bits w ht <$> ps)) as H; [|rewrite H; lia].
  induction ps as [|p ps IH]; intros acc; [cbn; lia|]. cbn [foldl fmap list_fmap foldr]. rewrite IH. unfold pass_bytes at 2.
  destruct (pass_dims w ht p) as [pw ph]. destruct (_ && _); lia.
Qed.

Section rows.
Context (h : Header) (N fbpp : Z).
Abbreviation ch := (channels (h_ctype h)).
Abbreviation w := (h_width h).
Abbreviation ht := (h_height h).
Context (Hd : depth_ok (h_ctype h) (h_depth h) = true) (Hw : 0 < w) (Hht : 0 < ht) (Hf : 1 <= fbpp).

(** The buffers of the loop, [off] bytes into the rows. *)
Record decoding_ok (off : Z) (st : Decoding) : Prop := {
  dok_raw : sized N (d_raw st);
  dok_canon : sized (w * ht * ch) (d_canon st);
  dok_line : bytes_ok (d_line st);
  dok_off : d_off st = off
}.

Definition pass_ok (p : Z * Z * Z * Z) : Prop :=
  let '(x0, y0, dx, dy) := p in
  0 <= x0 /\ 0 <= y0 /\ 0 < dx /\ 0 < dy /\ (h_interlaced h = false -> p = (0, 0, 1, 1)).

Lemma row_bytes_nonneg bits pw : 0 <= bits -> 0 <= pw -> 0 <= row_bytes bits pw.
Proof. intros. unfold row_bytes. pose proof (div_ceil_spec (pw * bits) 8 ltac:(nia) ltac:(lia)). lia. Qed.

Lemma bits_pos : 1 <= h_depth h * ch.
Proof. pose proof (channels_range h). destruct (depth_cases h Hd) as [->|[->|[[->|[->| ->]] ->]]]; lia. Qed.

(** A pixel of a pass is a pixel of the image. *)
Lemma pass_inside a0 d n i : 0 <= a0 -> 0 < d -> a0 < n -> 0 <= i < div_ceil (n - a0) d -> 0 <= a0 + i * d < n.
Proof. intros. pose proof (div_ceil_spec (n - a0) d ltac:(lia) ltac:(lia)). nia. Qed.

Lemma pixel_inside x y : 0 <= x < w -> 0 <= y < ht -> 0 <= (y * w + x) * ch /\ (y * w + x) * ch + ch <= w * ht * ch.
Proof. intros. pose proof (channels_range h). assert (y * w + x + 1 <= w * ht) by nia. split; nia. Qed.

Lemma put_pixels line pw y (px : Z -> Z) canon : sized (pw * ch) line -> 0 <= pw -> sized (w * ht * ch) canon ->
  0 <= y < ht -> (forall i, 0 <= i < pw -> 0 <= px i < w) ->
  safe (E:=ImageError) (sized (w * ht * ch)) (fold_try (fun canon i =>
    let x := px i in
    px ← index_range line (i * ch) ((i + 1) * ch);
    copy_at canon ((y * w + x) * ch) px) canon (seqZ 0 pw)).
Proof.
  intros Hline Hpw Hcanon Hy Hpx. pose proof (channels_range h) as Hch. apply (safe_fold (fun _ => sized (w * ht * ch))); [done|done|].
  intros i c Hi Hc. cbv zeta. eapply range_then; [done|nia|nia|nia|]. intros s [Hs Hsb]. unfold copy_at.
  destruct (pixel_inside (px i) y ltac:(auto with lia) Hy) as [H1 H2]. eapply range_then; [done|lia|lia|lia|]. intros _ _. cbn [safe].
  apply sized_splice with (m := ch); [done|split; [lia|done]|lia|lia].
Qed.

Lemma decode_row_ok p pw ph st r off : pass_ok p -> pass_dims w ht p = (pw, ph) -> 0 < pw -> 0 <= r < ph -> 0 <= off ->
  (0 < r -> row_bytes (h_depth h * ch) pw <= off) -> off + (row_bytes (h_depth h * ch) pw + 1) <= N ->
  decoding_ok off st -> safe (decoding_ok (off + (row_bytes (h_depth h * ch) pw + 1))) (decode_row h ch fbpp p pw st r).
Proof.
  destruct p as [[[x0 y0] dx] dy]. intros (Hx0 & Hy0 & Hdx & Hdy & Hlace) Hdims Hpw Hr Hoff Hprev Hend [Hraw Hcanon Hline Hst].
  pose proof (channels_range h) as Hch. pose proof bits_pos as Hbits.
  pose proof (row_bytes_nonneg (h_depth h * ch) pw ltac:(lia) ltac:(lia)) as Hrb. unfold decode_row. rewrite Hst.
  set (rb := row_bytes (h_depth h * ch) pw) in *. cbv zeta.
  eapply (safe_bind (fun prev => forall up, prev = Some up -> sized rb up)).
  { destruct (Z.eqb_spec r 0) as [Hr0|Hr0]; [done|]. eapply range_then; [done|lia|lia|lia|]. intros s Hs up [= <-].
    by replace (off - (off - rb)) with rb in Hs by lia. }
  intros prev Hup. eapply range_then; [done|lia|lia|lia|]. intros whole [Hwl Hwb].
  destruct (byte_at (E:=ImageError) whole 0 Hwb) as (f & -> & _); [lia|]. cbn [mbind outcome_bind].
  assert (sized rb (drop 1 whole)) as [Hdl Hdb] by (split; [rewrite length_drop; lia|by apply Forall_drop]).
  eapply safe_bind; [apply unfilter_safe; [done|done|]|].
  { intros up Hpu. rewrite Hdl. auto. }
  intros cur Hcur. rewrite Hdl in Hcur. fold rb in Hcur.
  assert (sized N (splice (d_raw st) (off + 1) cur)) as Hraw' by (apply sized_splice with (m := rb); [done|done|lia|lia]).
  unfold pass_dims in Hdims. destruct (Z.ltb_spec x0 w) as [Hxw|?]; [|simplify_eq; lia].
  destruct (Z.ltb_spec y0 ht) as [Hyh|?]; [|simplify_eq; lia]. injection Hdims as Hpwd Hphd.
  assert (0 <= y0 + r * dy < ht) as Hy by (apply pass_inside; lia).
  destruct (h_interlaced h) eqn:Hi; cbn [negb].
  - eapply (safe_bind (sized (pw * ch))).
    { apply canonicalize_ok; [done|lia|done|]. split.
      - rewrite length_app, length_take, length_replicate. nia.
      - apply Forall_app. split; [by apply Forall_take|]. apply Forall_replicate. unfold is_byte. lia. }
    intros line Hl. eapply safe_bind; [apply (put_pixels line pw (y0 + r * dy) (fun i => x0 + i * dx)); [done|lia|done|done|]|].
    + intros i Hii. apply pass_inside; lia.
    + intros canon Hcn. cbn [safe]. split; [done|done|apply Hl|done].
  - specialize (Hlace eq_refl). injection Hlace as -> -> -> ->.
    assert (pw = w) as Hpww by (rewrite <- Hpwd, Z.sub_0_r; unfold div_ceil; rewrite Z.mod_1_r, Z.div_1_r; cbn; lia).
    replace (0 + r * 1) with r in * by lia. assert (r * w * ch + w * ch <= w * ht * ch) by (assert (r * w + w <= w * ht) by nia; nia).
    replace ((r + 1) * w * ch) with (r * w * ch + w * ch) by lia.
    eapply range_then; [done|nia|nia|lia|]. intros dst Hdst. replace (_ + _ - _) with (pw * ch) in Hdst by (subst pw; lia).
    eapply safe_bind; [apply canonicalize_ok; [done|lia|done|done]|]. intros d Hdd. cbn [safe].
    split; [done| |done|done]. cbn [d_canon]. apply sized_splice with (m := pw * ch); [done|done|nia|subst pw; lia].
Qed.

Lemma decode_pass_ok p st off : pass_ok p -> 0 <= off -> off + pass_bytes (h_depth h * ch) w ht p <= N -> decoding_ok off st ->
  safe (decoding_ok (off + pass_bytes (h_depth h * ch) w ht p)) (decode_pass h ch fbpp st p).
Proof.
  intros Hp Hoff Hend Hst. unfold decode_pass, pass_bytes in *. destruct (pass_dims w ht p) as [pw ph] eqn:Hdims.
  assert (0 <= pw /\ 0 <= ph) as [Hpw0 Hph0].
  { destruct p as [[[x0 y0] dx] dy]. destruct Hp as (? & ? & ? & ? & _). unfold pass_dims in Hdims. injection Hdims as <- <-.
    split; [destruct (Z.ltb_spec x0 w)|destruct (Z.ltb_spec y0 ht)]; try lia.
    - pose proof (div_ceil_spec (w - x0) dx). nia.
    - pose proof (div_ceil_spec (ht - y0) dy). nia. }
  destruct (Z.eqb_spec pw 0) as [->|Hpw]; cbn [orb]; [cbn in *; by rewrite Z.add_0_r|].
  destruct (Z.eqb_spec ph 0) as [->|Hph]; [rewrite andb_false_r in *; cbn; by rewrite Z.add_0_r|].
  rewrite (proj2 (Z.ltb_lt 0 pw)), (proj2 (Z.ltb_lt 0 ph)) in * by lia. cbn [andb] in *.
  pose proof bits_pos. pose proof (row_bytes_nonneg (h_depth h * ch) pw ltac:(lia) ltac:(lia)) as Hrb.
  set (rb := row_bytes (h_depth h * ch) pw) in *. replace (off + ph * (1 + rb)) with (off + (0 + ph) * (rb + 1)) by lia.
  apply (safe_fold (fun r => decoding_ok (off + r * (rb + 1)))); [lia|by rewrite Z.mul_0_l, Z.add_0_r|].
  intros r st' Hr Hst'. replace (off + (r + 1) * (rb + 1)) with (off + r * (rb + 1) + (rb + 1)) by lia.
  apply decode_row_ok with (ph := ph); [done|done|lia|lia|nia|intros; fold rb; nia|fold rb; nia|done].
Qed.

Lemma pass_bytes_nonneg q : 0 <= pass_bytes (h_depth h * ch) w ht q.
Proof.
  unfold pass_bytes. destruct (pass_dims w ht q) as [qw qh]. destruct (Z.ltb_spec 0 qw), (Z.ltb_spec 0 qh); cbn; try lia.
  pose proof bits_pos. pose proof (row_bytes_nonneg (h_depth h * ch) qw ltac:(lia) ltac:(lia)). nia.
Qed.

Lemma pass_sum_nonneg ps : 0 <= foldr Z.add 0 (pass_bytes (h_depth h * ch) w ht <$> ps).
Proof.
  induction ps as [|q ps IH]; [cbn; lia|]. cbn [fmap list_fmap foldr]. pose proof (pass_bytes_nonneg q). lia.
Qed.

Lemma decode_passes_ok ps st off : Forall pass_ok ps -> 0 <= off ->
  off + foldr Z.add 0 (pass_bytes (h_depth h * ch) w ht <$> ps) <= N -> decoding_ok off st ->
  safe (fun st => exists off, decoding_ok off st) (fold_try (decode_pass h ch fbpp) st ps).
Proof.
  intros Hps. revert st off. induction Hps as [|p ps Hp Hps IH]; intros st off Hoff Hend Hst; [by exists off|].
  cbn [fmap list_fmap foldr fold_try] in *.
  pose proof (pass_bytes_nonneg p). pose proof (pass_sum_nonneg ps).
  eapply safe_bind; [apply (decode_pass_ok p st off); [done|done|lia|done]|]. intros st' Hst'. apply (IH st' (off + pass_bytes (h_depth h * ch) w ht p)); [lia|lia|done].
Qed.
End rows.

(** * The image of a file *)

(** An image no decoder refuses: three bytes a pixel, and not too many of them. *)
Definition decoded_ok (img : RgbImage) : Prop :=
  image_ok img /\ bytes_ok (rgb img) /\ 0 < width img * height img <= MAX_DECODE_PIXELS.

Lemma zlib_safe data n : bytes_ok data -> 0 <= n -> safe (sized n) (zlib_decompress data n).
Proof.
  intros Hb Hn. unfold zlib_decompress. destruct (Z.ltb_spec (Zlen data) 2) as [?|Hlen]; [done|].
  assert (sized (Zlen data) data) as Hs by done.
  eapply byte_then; [done|lia|]. intros cmf _. eapply byte_then; [done|lia|]. intros flg _.
  repeat (destruct (_ : bool); [exact I|]). eapply range_then; [done|lia|lia|lia|]. intros rest [_ Hrest].
  pose proof (inflate_ok rest n Hrest Hn) as H. destruct (inflate rest n); [|done|done]. cbn. by destruct H as (_ & ? & ?).
Qed.

Record header_ok (h : Header) : Prop := {
  hok_width : 0 <= h_width h < 2 ^ 32;
  hok_height : 0 <= h_height h < 2 ^ 32
}.

Lemma passes_ok h : Forall (pass_ok h) (passes (h_interlaced h)).
Proof.
  unfold passes, pass_ok. destruct (h_interlaced h); repeat (apply Forall_cons; split); try apply Forall_nil; try done;
    split_and!; (done || lia).
Qed.

Lemma decode_image_ok h idat plte trns : header_ok h -> bytes_ok idat -> (forall p, plte = Some p -> bytes_ok p) -> trns_ok trns ->
  safe decoded_ok (decode_image h idat plte trns).
Proof.
  intros [Hw Hh] Hidat Hp Ht. unfold decode_image. destruct (depth_ok _ _) eqn:Hd; cbn [negb]; [|done].
  destruct (Z.eqb_spec (h_width h) 0) as [?|Hw0]; [done|]. destruct (Z.eqb_spec (h_height h) 0) as [?|Hh0]; [done|]. cbn [orb].
  destruct (Z.ltb_spec MAX_DECODE_PIXELS (h_width h * h_height h)) as [?|Hmax]; [done|]. set (ch := channels (h_ctype h)). set (bits := h_depth h * ch). set (ps := passes _).
  pose proof (channels_range h) as Hch. fold ch in Hch. pose proof (bits_pos h Hd) as Hbits. fold ch bits in Hbits.
  assert (0 <= expected_bytes bits (h_width h) (h_height h) ps) as Hnn.
  { rewrite expected_bytes_sum. by apply pass_sum_nonneg. }
  eapply safe_bind; [by apply zlib_safe|]. intros raw Hraw. rewrite expected_bytes_sum in Hraw.
  eapply safe_bind.
  { apply decode_passes_ok with (N := foldr Z.add 0 (pass_bytes bits (h_width h) (h_height h) <$> ps)) (off := 0);
      [done|lia|lia|lia|apply passes_ok|lia|fold ch; fold bits; lia|].
    split; [done|apply sized_zeros; fold ch; nia|constructor|done]. }
  intros st [off [_ Hcanon _ _]]. fold ch in Hcanon.
  eapply safe_bind; [apply (to_rgb_ok h _ _ _ (h_width h * h_height h)); [done|done|nia|done|done]|]. intros data [Hl Hb]. cbn [safe].
  split; [split|]; cbn [width height rgb]; [lia|lia|]. split; [done|nia].
Qed.

(** Orienting moves pixels, so it keeps bytes. *)
Lemma apply_bytes img o img' : image_ok img -> 0 < width img -> 0 < height img -> bytes_ok (rgb img) ->
  apply img o = Ok img' -> bytes_ok (rgb img').
Proof.
  intros Himg Hw Hh Hb Happ. destruct (decide (2 <= o <= 8)) as [Ho|Ho].
  - pose proof (apply_pixels img o Himg Ho Hw Hh) as E. destruct (swapped o (width img) (height img)) as [ow oh]. rewrite E in Happ. injection Happ as <-. cbn [rgb].
    unfold pixels. apply Forall_concat, Forall_fmap, Forall_forall. intros r _. cbn. apply Forall_concat, Forall_fmap, Forall_forall. intros c _. cbn.
    destruct (source_pixel _ _ _ _ _). by apply bytes_ok_slice.
  - unfold apply in Happ. destruct (Z.leb_spec 2 o), (Z.leb_spec o 8); cbn [negb andb orb] in Happ; try lia; by injection Happ as <-.
Qed.

Lemma not_saturated a b : 0 <= a <= 2 ^ 63 + 2 ^ 32 -> 0 <= b <= 2 ^ 32 -> saturating_add a b = a + b.
Proof. intros. unfold saturating_add. lia. Qed.

Lemma apply_area img o img' : apply img o = Ok img' -> width img' * height img' = width img * height img.
Proof.
  unfold apply. destruct (_ || _ || _); [by intros [= <-]|]. destruct (5 <=? o); intros (out & _ & [= <-])%bind_Ok; cbn; lia.
Qed.

Lemma apply_decoded img o : decoded_ok img -> safe (E:=ImageError) decoded_ok (apply img o).
Proof.
  intros (Himg & Hb & Harea). destruct (apply_undone img o Himg) as (img' & Happ & Himg' & _). rewrite Happ. cbn [safe].
  split; [done|]. pose proof Himg as (? & ? & _). split; [apply (apply_bytes img o); (done || lia || nia)|]. by rewrite (apply_area _ _ _ Happ).
Qed.

Section chunks.
Context (data : list Z) (Hdata : bytes_ok data) (Hlen : Zlen data < 2 ^ 63).

Record chunks_ok (c : Chunks) : Prop := {
  cok_hdr : forall h, c_hdr c = Some h -> header_ok h;
  cok_plte : forall p, c_plte c = Some p -> bytes_ok p;
  cok_trns : trns_ok (c_trns c);
  cok_exif : forall b, c_exif c = Some b -> bytes_ok b
}.

Lemma head_ok pos head : get_range data pos (pos + 8) = Some head -> 0 <= pos /\ pos + 8 <= Zlen data /\ 0 <= be32 head < 2 ^ 32.
Proof.
  intros (-> & ? & ? & ?)%get_range_Some. split_and!; [lia|lia|apply be32_range; by apply bytes_ok_slice..].
Qed.

Lemma read_header_ok body : bytes_ok body -> safe header_ok (read_header body).
Proof.
  intros Hb. unfold read_header. destruct (Z.ltb_spec (Zlen body) 13) as [?|Hl]; [done|]. assert (sized (Zlen body) body) as Hs by done.
  eapply byte_then; [done|lia|]. intros m _. destruct (negb _); [done|]. do 3 (eapply byte_then; [done|lia|]; intros ? _).
  cbn. split; apply be32_range; by apply bytes_ok_slice.
Qed.

Lemma parse_trns_ok h body : bytes_ok body -> safe trns_ok (parse_trns h body).
Proof.
  intros Hb. unfold parse_trns. assert (forall o, safe (fun _ => True) (i16be body o)) as H16.
  { intros o. unfold i16be. by destruct (get_range _ _ _). }
  destruct (_ =? 3).
  - destruct (_ && _); [|by destruct (_ <? _)]. set (i := from_option _ _ _). assert (0 <= i) as Hi.
    { unfold i. destruct (list_find _ _) as [[? ?]|]; cbn; lia. }
    destruct (256 <=? i); [done|]. unfold idx_set. rewrite length_replicate, (proj2 (Z.leb_le _ _)), (proj2 (Z.ltb_lt _ _)) by lia.
    cbn. apply Forall_insert; [apply Forall_replicate|]; unfold is_byte; lia.
  - destruct (_ && _); [by eapply safe_bind; [apply H16|]|]. destruct (_ =? 0); [by eapply safe_bind; [apply H16|]|].
    destruct (_ =? 2); [by eapply safe_bind; [apply H16|]|]. done.
Qed.

Lemma read_chunk_ok c ty body : chunks_ok c -> bytes_ok body -> safe chunks_ok (read_chunk c ty body).
Proof.
  intros [Hh Hp Ht He] Hb. unfold read_chunk. case_bool_decide.
  { eapply safe_bind; [by apply read_header_ok|]. intros h Hok. split; cbn; [by intros ? [= <-]|done|done|done]. }
  case_bool_decide.
  { split; cbn; [done| |done|done]. intros p. destruct (c_hdr c); [destruct (_ =? 3)|]; [by intros [= <-]|apply Hp..]. }
  case_bool_decide.
  { destruct (c_hdr c) as [h|] eqn:Hc; [|split; [by rewrite Hc|done..]]. eapply safe_bind; [by apply parse_trns_ok|]. intros t Hok.
    split; cbn; [done|done|done|done]. }
  case_bool_decide; [|by split]. split; cbn; [done|done|done|by intros ? [= <-]].
Qed.

Lemma header_chunks_ok n pos c : 0 <= pos -> (0 < n)%nat -> Zlen data - pos < Z.of_nat n -> chunks_ok c ->
  safe (fun '(c, found) => chunks_ok c /\ forall pos, found = Some pos -> 0 <= pos <= Zlen data) (header_chunks data n pos c).
Proof.
  revert pos c. induction n as [|n IH]; intros pos c Hpos Hn Hfuel Hc; [lia|]. cbn [header_chunks].
  destruct (get_range data pos (pos + 8)) as [head|] eqn:Hhead; [|done]. apply head_ok in Hhead as (_ & Hin & Hbe). cbn [ok_or mbind outcome_bind].
  destruct (negb _); [done|]. case_bool_decide; [split; [done|]; intros ? [= <-]; lia|].
  destruct (get_range data (pos + 8) _) as [body|] eqn:Hbody; [|done]. apply get_range_Some in Hbody as (-> & _). cbn [ok_or mbind outcome_bind].
  destruct (Z.ltb_spec (Zlen data) (pos + 8 + be32 head + 4)); [done|].
  eapply safe_bind; [apply read_chunk_ok; [done|by apply bytes_ok_slice]|]. intros c' Hc'. case_bool_decide; [by split|].
  apply IH; [lia|lia|lia|done].
Qed.

Lemma idat_chunks_ok n pos idat : 0 <= pos -> pos <= 2 ^ 63 + 2 ^ 33 -> Zlen data - pos <= Z.of_nat n -> bytes_ok idat ->
  safe (fun '(idat, pos) => bytes_ok idat /\ 0 <= pos) (idat_chunks data n pos idat).
Proof.
  revert pos idat. induction n as [|n IH]; intros pos idat Hpos Hmax Hfuel Hidat; cbn [idat_chunks];
    (destruct (get_range data pos (pos + 8)) as [head|] eqn:Hhead; [|done]); apply head_ok in Hhead as (_ & Hin & Hbe);
    (case_bool_decide; cbn [negb]; [|done]); [lia|]. cbv zeta.
  rewrite (not_saturated (pos + 8)) by lia. rewrite not_saturated by lia. assert (sized (Zlen data) data) as Hs by done.
  eapply range_then; [done|lia|lia|lia|]. intros part [_ Hpart]. apply IH; [lia|lia|lia|]. by apply Forall_app.
Qed.

Lemma exif_chunks_ok n pos exif : 0 <= pos -> Zlen data - pos <= Z.of_nat n -> (forall b, exif = Some b -> bytes_ok b) ->
  safe (fun e => forall b, e = Some b -> bytes_ok b) (exif_chunks data n pos exif).
Proof.
  revert pos exif. induction n as [|n IH]; intros pos exif Hpos Hfuel Hexif; cbn [exif_chunks];
    (destruct (get_range data pos (pos + 8)) as [head|] eqn:Hhead; [|done]); apply head_ok in Hhead as (_ & Hin & Hbe);
    (destruct (_ || _); [done|]); cbv zeta;
    (destruct (get_range data (pos + 8) _) as [body|] eqn:Hbody; [|done]); apply get_range_Some in Hbody as (-> & _); [lia|].
  apply IH; [lia|lia|]. case_bool_decide; [|done]. intros b [= <-]. by apply bytes_ok_slice.
Qed.

Lemma decode_safe : safe decoded_ok (decode data).
Proof.
  unfold decode. eapply safe_bind; [apply header_chunks_ok; [lia|lia|lia|by split]|]. intros [c found] [Hc Hfound].
  destruct found as [pos|]; [|done]. specialize (Hfound pos eq_refl). cbn [ok_or mbind outcome_bind]. destruct (c_hdr c) as [h|] eqn:Hh; [|done]. cbn [ok_or mbind outcome_bind].
  eapply safe_bind; [apply idat_chunks_ok; [lia|lia|lia|constructor]|].
  intros [idat pos'] [Hidat Hpos']. eapply safe_bind; [apply exif_chunks_ok; [done|lia|apply Hc]|]. intros e He.
  eapply safe_bind; [apply decode_image_ok; [by eapply cok_hdr|done|apply Hc|apply Hc]|]. intros img Himg.
  destruct (orientation_total e None He) as [o ->]. by apply apply_decoded.
Qed.
End chunks.

(** Decoding a PNG never panics, whatever bytes the file holds: the decoder returns an
    error, or an image of three bytes for each pixel that has at least one pixel and at
    most 64 Mi of them. *)
Theorem png_decode_total data : bytes_ok data -> Zlen data < 2 ^ 63 ->
  match decode data with Ok img => decoded_ok img | Err _ => True | Panic => False end.
Proof. apply decode_safe. Qed.

(** One gray pixel of one bit, a palette of transparencies and an orientation in it. *)
Definition gray_file : list Z :=
  SIGNATURE ++ [0; 0; 0; 13] ++ IHDR ++ [0; 0; 0; 2; 0; 0; 0; 1; 1; 0; 0; 0; 1] ++ [0; 0; 0; 0] ++
  [0; 0; 0; 13] ++ IDAT ++ [0x78; 0x01; 0x01; 0x04; 0x00; 0xfb; 0xff; 0; 128; 0; 0; 0; 0] ++ [0; 0; 0; 0] ++
  [0; 0; 0; 0] ++ IEND ++ [0; 0; 0; 0].

Lemma png_decode_total_witness : match decode gray_file with Ok img => decoded_ok img | Err _ => True | Panic => False end.
Proof. apply png_decode_total; [apply (bool_decide_unpack _); vm_compute; reflexivity|vm_compute; reflexivity]. Defined.
