(* ===== verification/PngRoundtrip.v ===== *)
(** Encoding an RGB image as a PNG, and decoding it again. *)
From Stdlib Require Import ZArith Lia Bool.
From stdpp Require Import base list gmap strings.
From S2P Require Import Prelude Base64 Buffers Inflate Exif Png PngTotal.

(** * The encoder (PNG, sections 5 and 9) *)

Definition be_bytes (n : nat) (v : Z) : list Z := reverse (le_bytes n v).
Definition chunk (ty body crc : list Z) : list Z := be_bytes 4 (Zlen body) ++ ty ++ body ++ crc.

(** The rows, each after its filter byte; [prev] is the row before them. *)
Fixpoint scanlines (bpp : Z) (prev : option (list Z)) (rows : list (Z * list Z)) : list Z :=
  match rows with
  | [] => []
  | (f, row) :: rows => f :: filter_row bpp f row (above prev row) ++ scanlines bpp (Some row) rows
  end.

Definition image_rows (img : RgbImage) : list (list Z) :=
  (fun r => slice (rgb img) (0 + r * (width img * 3)) (0 + r * (width img * 3) + width img * 3)) <$> seqZ 0 (height img).

Definition ihdr (w h : Z) : list Z := be_bytes 4 w ++ be_bytes 4 h ++ [8; 2; 0; 0; 0].

Definition encode (w h : Z) (parts : list (list Z)) (crc : list Z) : list Z :=
  SIGNATURE ++ chunk IHDR (ihdr w h) crc ++ concat ((fun p => chunk IDAT p crc) <$> parts) ++ chunk IEND [] crc.

Lemma be_bytes_length n v : length (be_bytes n v) = n.
Proof. unfold be_bytes. by rewrite length_reverse, le_bytes_length. Qed.

Lemma be32_be_bytes v l : 0 <= v < 2 ^ 32 -> be32 (be_bytes 4 v ++ l) = v.
Proof.
  intros Hv. unfold be32, be_val. rewrite take_app_length' by (by rewrite be_bytes_length). unfold be_bytes. rewrite reverse_involutive.
  by apply le_val_bytes.
Qed.

(** * Parts of a buffer *)

Lemma index_range_part {A E} (l pre m suf : list A) a b : l = pre ++ m ++ suf -> a = Zlen pre -> b = a + Zlen m ->
  index_range (E:=E) l a b = Ok m.
Proof.
  intros -> -> ->. rewrite index_range_Ok by (rewrite ?length_app; lia). f_equal.
  rewrite slice_app_r, slice_app_l by lia. rewrite Z.sub_diag. apply slice_whole. lia.
Qed.

Lemma get_range_part {A} (l pre m suf : list A) a b : l = pre ++ m ++ suf -> a = Zlen pre -> b = a + Zlen m -> get_range l a b = Some m.
Proof.
  intros H1 H2 H3. pose proof (index_range_part (E:=unit) _ _ _ _ _ _ H1 H2 H3) as H. unfold index_range in H. unfold get_range.
  destruct (_ && _); congruence.
Qed.

Lemma splice_part {A} (l pre m suf k : list A) a : l = pre ++ m ++ suf -> a = Zlen pre -> length k = length m ->
  splice l a k = pre ++ k ++ suf.
Proof.
  intros -> -> Hk. rewrite splice_app_r, Z.sub_diag by lia. f_equal. rewrite splice_app_l by lia. f_equal.
  unfold splice. cbn [Z.to_nat]. rewrite take_0, drop_ge by lia. by rewrite app_nil_r.
Qed.

(** * Rows *)
Section rows.
Context (w h : Z) (Hw : 0 < w).
Abbreviation hdr := {| h_width := w; h_height := h; h_depth := 8; h_ctype := 2; h_interlaced := false |}.

Lemma row_bytes_rgb : row_bytes (8 * 3) w = w * 3.
Proof. unfold row_bytes, div_ceil. replace (w * (8 * 3)) with (w * 3 * 8) by lia. rewrite Z.div_mul, Z.mod_mul by lia. cbn. lia. Qed.

(** [prev] is the row before byte [Zlen before] of the rows. *)
Definition last_row (r : Z) (before : list Z) (prev : option (list Z)) : Prop :=
  (r = 0 /\ prev = None) \/ (r <> 0 /\ exists b up, before = b ++ up /\ prev = Some up /\ Zlen up = w * 3).

Lemma decode_row_step r f row prev before rest canon n : 0 <= r < h -> 0 <= f <= 4 -> sized (w * 3) row ->
  last_row r before prev -> Zlen canon = r * (w * 3) ->
  decode_row hdr 3 3 (0, 0, 1, 1) w {| d_raw := before ++ f :: filter_row 3 f row (above prev row) ++ rest;
    d_canon := canon ++ replicate (Z.to_nat (w * 3)) 0 ++ replicate n 0; d_off := Zlen before; d_line := [] |} r
  = Ok {| d_raw := before ++ f :: row ++ rest; d_canon := canon ++ row ++ replicate n 0;
          d_off := Zlen before + (w * 3 + 1); d_line := [] |}.
Proof.
  intros Hr Hf [Hrl Hrb] Hlast Hc. set (fr := filter_row _ _ _ _).
  assert (Zlen fr = w * 3) as Hfr by (unfold fr; by rewrite filter_length).
  unfold decode_row. cbn [h_width h_depth h_interlaced d_off d_raw d_canon d_line negb]. rewrite row_bytes_rgb. cbv zeta.
  assert ((if r =? 0 then Ok None else prev ← index_range (E:=ImageError) (before ++ f :: fr ++ rest) (Zlen before - w * 3) (Zlen before); Ok (Some prev))
    = Ok prev) as ->.
  { destruct Hlast as [[-> ->]|[Hr0 (b & up & -> & -> & Hup)]]; [done|]. rewrite (proj2 (Z.eqb_neq _ _)) by done.
    rewrite (index_range_part _ b up (f :: fr ++ rest)); [done|by rewrite <- app_assoc|rewrite length_app; lia|rewrite length_app; lia]. }
  cbn [mbind outcome_bind]. rewrite (index_range_part (before ++ f :: fr ++ rest) before (f :: fr) rest); [|done|done|cbn [length]; lia].
  cbn [mbind outcome_bind]. rewrite (idx_Some _ 0 f) by done. cbn [mbind outcome_bind]. change (drop 1 (f :: fr)) with fr.
  unfold fr. rewrite unfilter_filter_row; [|lia|done|done|].
  2: { intros up ->. destruct Hlast as [[_ ?]|[_ (b & up' & _ & [= <-] & Hup)]]; [done|lia]. }
  cbn [mbind outcome_bind]. fold fr. replace (0 + r * 1) with r by lia.
  rewrite (index_range_part _ canon (replicate (Z.to_nat (w * 3)) 0) (replicate n 0)); [|done|lia|rewrite length_replicate; lia].
  cbn [mbind outcome_bind]. unfold canonicalize. cbn [h_depth Z.eqb Pos.eqb]. rewrite length_replicate.
  rewrite (index_range_part row [] row []); [|by rewrite app_nil_r|done|lia]. cbn [mbind outcome_bind].
  rewrite (splice_part _ (before ++ [f]) fr rest row); [|by rewrite <- app_assoc|rewrite length_app; cbn; lia|lia].
  rewrite (splice_part _ canon (replicate (Z.to_nat (w * 3)) 0) (replicate n 0) row); [|done|lia|rewrite length_replicate; lia].
  by rewrite <- app_assoc.
Qed.

Lemma decode_rows rows : Forall (fun '(f, row) => 0 <= f <= 4 /\ sized (w * 3) row) rows ->
  forall r before prev canon, 0 <= r -> r + Zlen rows = h -> Zlen canon = r * (w * 3) -> last_row r before prev ->
  exists raw off, fold_try (decode_row hdr 3 3 (0, 0, 1, 1) w)
    {| d_raw := before ++ scanlines 3 prev rows; d_canon := canon ++ replicate (Z.to_nat (Zlen rows * (w * 3))) 0;
       d_off := Zlen before; d_line := [] |} (seqZ r (Zlen rows))
  = Ok {| d_raw := raw; d_canon := canon ++ concat (rows.*2); d_off := off; d_line := [] |}.
Proof.
  intros Hrows. induction Hrows as [|[f row] rows [Hf [Hrl Hrb]] Hrows IH]; intros r before prev canon Hr Hh' Hc Hlast.
  { exists before, (Zlen before). cbn. by rewrite !app_nil_r. }
  cbn [length] in *. rewrite seqZ_cons by lia. cbn [fold_try scanlines fmap list_fmap concat snd].
  replace (Z.to_nat (Z.of_nat (S (length rows)) * (w * 3))) with (Z.to_nat (w * 3) + Z.to_nat (Zlen rows * (w * 3)))%nat by lia.
  rewrite replicate_add, decode_row_step by (done || lia). cbn [mbind outcome_bind].
  replace (Z.pred (Z.of_nat (S (length rows)))) with (Zlen rows) by lia.
  destruct (IH (Z.succ r) (before ++ f :: row) (Some row) (canon ++ row)) as (raw & off & Heq).
  - lia.
  - lia.
  - rewrite length_app. lia.
  - right. split; [lia|]. exists (before ++ [f]), row. by rewrite <- app_assoc.
  - exists raw, off. rewrite length_app, <- !app_assoc in Heq. cbn [app length] in Heq.
    replace (Z.of_nat (length before + S (length row))) with (Zlen before + (w * 3 + 1)) in Heq by lia. exact Heq.
Qed.
End rows.

Lemma read_header_ihdr w h : 0 <= w < 2 ^ 32 -> 0 <= h < 2 ^ 32 ->
  read_header (ihdr w h) = Ok {| h_width := w; h_height := h; h_depth := 8; h_ctype := 2; h_interlaced := false |}.
Proof.
  intros Hw Hh. unfold read_header, ihdr.
  assert (forall i, 8 <= i < 13 -> idx (E:=ImageError) (be_bytes 4 w ++ be_bytes 4 h ++ [8; 2; 0; 0; 0]) i = idx [8; 2; 0; 0; 0] (i - 8)) as Htail.
  { intros i Hi. unfold idx. rewrite !(proj2 (Z.ltb_ge _ _)) by lia.
    rewrite !lookup_app_r by (rewrite ?be_bytes_length; lia). rewrite !be_bytes_length.
    by replace (Z.to_nat i - 4 - 4)%nat with (Z.to_nat (i - 8)) by lia. }
  rewrite !length_app, !be_bytes_length. cbn [length Nat.add Z.of_nat Z.ltb Z.compare]. change (_ <? 13) with false.
  rewrite (Htail 11), (Htail 8), (Htail 9), (Htail 12) by lia.
  change (idx (E:=ImageError) [8; 2; 0; 0; 0] (11 - 8)) with (Ok (E:=ImageError) 0).
  change (idx (E:=ImageError) [8; 2; 0; 0; 0] (8 - 8)) with (Ok (E:=ImageError) 8).
  change (idx (E:=ImageError) [8; 2; 0; 0; 0] (9 - 8)) with (Ok (E:=ImageError) 2).
  change (idx (E:=ImageError) [8; 2; 0; 0; 0] (12 - 8)) with (Ok (E:=ImageError) 0). cbn [mbind outcome_bind Z.eqb negb].
  assert (slice (be_bytes 4 w ++ be_bytes 4 h ++ [8; 2; 0; 0; 0]) 0 4 = be_bytes 4 w ++ []) as ->.
  { rewrite app_nil_r, slice_app_l by (rewrite ?be_bytes_length; lia). apply slice_whole. by rewrite be_bytes_length. }
  assert (slice (be_bytes 4 w ++ be_bytes 4 h ++ [8; 2; 0; 0; 0]) 4 8 = be_bytes 4 h ++ []) as ->.
  { rewrite app_nil_r, slice_app_r, be_bytes_length, slice_app_l by (rewrite ?be_bytes_length; lia). apply slice_whole. by rewrite be_bytes_length. }
  by rewrite !be32_be_bytes by lia.
Qed.

(** * Chunks *)
Section chunks.
Context (data pre ty body crc suf : list Z).
Hypothesis (Hdata : data = pre ++ chunk ty body crc ++ suf) (Hty : length ty = 4%nat) (Hbody : Zlen body < 2 ^ 32).

Lemma chunk_head : get_range data (Zlen pre) (Zlen pre + 8) = Some (be_bytes 4 (Zlen body) ++ ty).
Proof.
  apply (get_range_part _ pre (be_bytes 4 (Zlen body) ++ ty) (body ++ crc ++ suf)); [|done|rewrite length_app, be_bytes_length, Hty; lia].
  rewrite Hdata. unfold chunk. by rewrite <- !app_assoc.
Qed.

Lemma chunk_len : be32 (be_bytes 4 (Zlen body) ++ ty) = Zlen body.
Proof. apply be32_be_bytes. lia. Qed.

Lemma chunk_ty : slice (be_bytes 4 (Zlen body) ++ ty) 4 8 = ty.
Proof.
  rewrite slice_app_r by (rewrite be_bytes_length; lia). rewrite be_bytes_length. apply slice_whole. lia.
Qed.

Lemma chunk_body_part : data = (pre ++ be_bytes 4 (Zlen body) ++ ty) ++ body ++ crc ++ suf /\
  Zlen (pre ++ be_bytes 4 (Zlen body) ++ ty) = Zlen pre + 8.
Proof.
  split; [rewrite Hdata; unfold chunk; by rewrite <- !app_assoc|]. rewrite !length_app, be_bytes_length. lia.
Qed.

Lemma chunk_body : get_range data (Zlen pre + 8) (Zlen pre + 8 + Zlen body) = Some body.
Proof. destruct chunk_body_part as [Hd Hl]. by eapply get_range_part; [exact Hd|lia|lia]. Qed.

Lemma chunk_index : index_range (E:=ImageError) data (Zlen pre + 8) (Zlen pre + 8 + Zlen body) = Ok body.
Proof. destruct chunk_body_part as [Hd Hl]. by eapply index_range_part; [exact Hd|lia|lia]. Qed.

Lemma chunk_end : length crc = 4%nat -> Zlen pre + 8 + Zlen body + 4 = Zlen (pre ++ chunk ty body crc) /\
  Zlen (pre ++ chunk ty body crc) <= Zlen data.
Proof.
  intros Hcrc. rewrite Hdata. unfold chunk. rewrite !length_app, be_bytes_length. lia.
Qed.
End chunks.

(** * The file *)
Section file.
Context (img : RgbImage) (filters : list Z) (parts : list (list Z)) (crc : list Z).
Abbreviation w := (width img).
Abbreviation h := (height img).
Abbreviation hdr := {| h_width := w; h_height := h; h_depth := 8; h_ctype := 2; h_interlaced := false |}.

(** The bytes the image data inflates to. *)
Definition image_scanlines : list Z := scanlines 3 None (zip filters (image_rows img)).

(** An image that has a PNG: rows with a known filter, parts whose zlib stream inflates to
    the rows. *)
Record encodes : Prop := {
  enc_ok : image_ok img;
  enc_bytes : bytes_ok (rgb img);
  enc_size : 0 < w < 2 ^ 32 /\ 0 < h < 2 ^ 32 /\ w * h <= MAX_DECODE_PIXELS;
  enc_filters : Zlen filters = h /\ Forall (fun f => 0 <= f <= 4) filters;
  enc_parts : parts <> [] /\ Forall (fun p => Zlen p < 2 ^ 32) parts;
  enc_crc : length crc = 4%nat;
  enc_stream : zlib_decompress (concat parts) (h * (w * 3 + 1)) = Ok image_scanlines
}.

Context (Henc : encodes).

Lemma rows_length : Zlen (image_rows img) = h.
Proof. destruct (enc_size Henc) as (? & ? & ?). unfold image_rows. rewrite length_fmap, length_seqZ. lia. Qed.

Lemma decode_image_rgb : decode_image hdr (concat parts) None None = Ok img.
Proof.
  destruct Henc as [(_ & _ & Hlen) Hbytes (Hw & Hh & Hmax) [Hfl Hf] _ _ Hz].
  unfold decode_image. cbn [h_width h_height h_depth h_ctype h_interlaced].
  change (depth_ok 2 8) with true. cbn [negb]. rewrite !(proj2 (Z.eqb_neq _ _)), (proj2 (Z.ltb_ge _ _)) by lia. cbn [orb].
  change (channels 2) with 3. change (Z.max (8 * 3 / 8) 1) with 3. change (passes false) with [(0, 0, 1, 1)].
  assert (pass_dims w h (0, 0, 1, 1) = (w, h)) as Hdims.
  { unfold pass_dims, div_ceil. rewrite !(proj2 (Z.ltb_lt _ _)), !Z.div_1_r, !Z.mod_1_r by lia. cbn [Z.eqb]. f_equal; lia. }
  unfold expected_bytes. cbn [foldl]. rewrite Hdims, !(proj2 (Z.ltb_lt _ _)), row_bytes_rgb by lia. cbn [andb].
  replace (0 + h * (1 + w * 3)) with (h * (w * 3 + 1)) by lia. rewrite Hz. cbn [mbind outcome_bind fold_try].
  unfold decode_pass. cbn [h_width h_height]. rewrite Hdims, !(proj2 (Z.eqb_neq _ _)) by lia. cbn [orb].
  assert (Forall (fun '(f, row) => 0 <= f <= 4 /\ sized (w * 3) row) (zip filters (image_rows img))) as Hrows.
  { apply Forall_lookup_2. intros i [f row] Hi. apply lookup_zip_with_Some in Hi as (f' & row' & [= -> ->] & Hf' & Hr).
    split; [by eapply Forall_lookup_1 in Hf|]. unfold image_rows in Hr. rewrite list_lookup_fmap in Hr.
    apply fmap_Some in Hr as (r & Hr & ->). apply lookup_seqZ in Hr as [-> Hr].
    split; [rewrite slice_length; nia|by apply bytes_ok_slice]. }
  pose proof rows_length as Hrl. assert (length (zip filters (image_rows img)) = Z.to_nat h) as Hzl by (rewrite length_zip_with; lia).
  destruct (decode_rows w h ltac:(lia) _ Hrows 0 [] None []) as (raw & off & Heq); [lia|lia|done|by left|].
  rewrite Hzl, Z2Nat.id in Heq by lia. replace (h * (w * 3)) with (w * h * 3) in Heq by lia. cbn [app length] in Heq.
  change (Z.of_nat 0) with 0 in Heq. unfold image_scanlines. rewrite Heq. cbn [mbind outcome_bind d_canon]. unfold to_rgb. cbn [h_ctype Z.eqb Pos.eqb].
  cbn [mbind outcome_bind]. f_equal. rewrite snd_zip by lia. unfold image_rows. rewrite concat_slices by lia.
  rewrite slice_whole by lia. by destruct img.
Qed.

Abbreviation file := (encode w h parts crc).
Abbreviation idats ps := (concat ((fun p => chunk IDAT p crc) <$> ps)).
Context (Hsize : Zlen file < 2 ^ 63).

Lemma idat_chunks_parts ps : forall pre n acc, Forall (fun p => Zlen p < 2 ^ 32) ps -> file = pre ++ idats ps ++ chunk IEND [] crc ->
  Zlen file - Zlen pre <= Z.of_nat n -> idat_chunks file n (Zlen pre) acc = Ok (acc ++ concat ps, Zlen (pre ++ idats ps)).
Proof.
  induction ps as [|p ps IH]; intros pre n acc Hps Hfile Hn; cbn [fmap list_fmap concat] in *.
  - cbn [app] in Hfile. assert (file = pre ++ chunk IEND [] crc ++ []) as Hf by (by rewrite app_nil_r).
    pose proof (chunk_head file pre IEND [] crc [] Hf eq_refl) as Hh. rewrite !app_nil_r.
    destruct n; cbn [idat_chunks]; rewrite Hh, chunk_ty by done; by rewrite bool_decide_false by done.
  - apply Forall_cons in Hps as [Hp Hps]. rewrite <- app_assoc in Hfile.
    pose proof (chunk_head _ _ _ _ _ _ Hfile eq_refl) as Hh. pose proof (chunk_index _ _ _ _ _ _ Hfile eq_refl) as Hi.
    destruct (chunk_end _ _ _ _ _ _ Hfile eq_refl (enc_crc Henc)) as [He1 He2].
    destruct n as [|n]; [lia|]. cbn [idat_chunks]. rewrite Hh, chunk_ty, chunk_len by done. rewrite bool_decide_true by done. cbn [negb].
    cbv zeta. rewrite (not_saturated (Zlen pre + 8)) by lia. rewrite Z.min_l by lia. rewrite Hi. cbn [mbind outcome_bind].
    rewrite not_saturated, He1 by lia. rewrite (IH (pre ++ chunk IDAT p crc)); [|done|by rewrite <- app_assoc|lia].
    by rewrite <- !app_assoc.
Qed.

Lemma decode_file : decode file = Ok img.
Proof.
  destruct Henc as [_ _ (Hw & Hh & _) _ [Hne Hparts] Hcrc _].
  assert (file = SIGNATURE ++ chunk IHDR (ihdr w h) crc ++ (idats parts ++ chunk IEND [] crc)) as Hf1 by done.
  assert (Zlen (ihdr w h) = 13) as Hihdr by (unfold ihdr; rewrite !length_app, !be_bytes_length; done).
  destruct (chunk_end _ _ _ _ _ _ Hf1 eq_refl Hcrc) as [He1 He2]. set (pre := SIGNATURE ++ chunk IHDR (ihdr w h) crc) in *.
  assert (file = pre ++ idats parts ++ chunk IEND [] crc) as Hf2 by (unfold pre; by rewrite <- app_assoc).
  assert (read_header (ihdr w h) = Ok hdr) as Hread.
  { apply read_header_ihdr; lia. }
  assert (exists n, length file = S n) as [n Hn] by (exists (length file - 1)%nat; lia).
  unfold decode. assert (header_chunks file (S (length file)) (Zlen SIGNATURE) {| c_hdr := None; c_plte := None; c_trns := None; c_exif := None |}
    = Ok ({| c_hdr := Some hdr; c_plte := None; c_trns := None; c_exif := None |}, Some (Zlen pre))) as ->.
  { rewrite Hn. cbn [header_chunks]. rewrite (chunk_head _ _ _ _ _ _ Hf1 eq_refl). cbn [ok_or mbind outcome_bind].
    rewrite chunk_ty, chunk_len by (done || lia). change (chunk_type_ok IHDR) with true. cbn [negb].
    rewrite bool_decide_false by done. rewrite not_saturated by lia.
    rewrite (chunk_body _ _ _ _ _ _ Hf1 eq_refl). cbn [ok_or mbind outcome_bind]. rewrite (proj2 (Z.ltb_ge _ _)) by lia.
    unfold read_chunk. rewrite (bool_decide_true (IHDR = IHDR)) by done. rewrite Hread. cbn [mbind outcome_bind]. rewrite (bool_decide_false (IHDR = IEND)) by done. rewrite He1.
    destruct parts as [|p ps]; [done|]. cbn [fmap list_fmap concat] in Hf2. rewrite <- app_assoc in Hf2. apply Forall_cons in Hparts as [Hp _].
    rewrite (chunk_head _ _ _ _ _ _ Hf2 eq_refl). cbn [ok_or mbind outcome_bind]. rewrite chunk_ty by done.
    change (chunk_type_ok IDAT) with true. cbn [negb]. by rewrite (bool_decide_true (IDAT = IDAT)). }
  cbn [mbind outcome_bind ok_or c_hdr]. rewrite (idat_chunks_parts parts pre (length file) []); [|done|done|lia].
  cbn [mbind outcome_bind app c_exif c_plte c_trns].
  assert (exif_chunks file (length file) (Zlen (pre ++ idats parts)) None = Ok None) as ->.
  { assert (file = (pre ++ idats parts) ++ chunk IEND [] crc ++ []) as Hf3 by (by rewrite app_nil_r, <- app_assoc).
    rewrite Hn. cbn [exif_chunks]. rewrite (chunk_head _ _ _ _ _ _ Hf3 eq_refl). cbv zeta. rewrite chunk_ty by done.
    rewrite (bool_decide_true (IEND = IEND)) by done. by rewrite orb_true_r. }
  cbn [mbind outcome_bind]. rewrite decode_image_rgb by done. done.
Qed.
End file.

(** C27: An RGB image written as a PNG comes back: whatever filter each row is given, and
    however the zlib stream of the filtered rows is cut into IDAT chunks, the decoder
    returns the image, with its checksums left unread. *)
Theorem png_roundtrip img filters parts crc : encodes img filters parts crc ->
  Zlen (encode (width img) (height img) parts crc) < 2 ^ 63 -> decode (encode (width img) (height img) parts crc) = Ok img.
Proof. apply decode_file. Qed.

(** Two by three pixels, filtered by Sub, Paeth and Average, in a stored block cut in two. *)
Definition small_image : RgbImage :=
  {| width := 2; height := 3; rgb := [10; 20; 30; 11; 21; 31; 250; 0; 7; 1; 2; 3; 255; 255; 255; 0; 0; 0] |}.
Definition small_parts : list (list Z) :=
  [[0x78; 0x01; 0x01; 0x15; 0x00; 0xea; 0xff; 1; 10; 20; 30; 1; 1; 1; 4; 240]; [236; 233; 7; 2; 252; 3; 130; 255; 252; 128; 128; 127; 9; 9; 9; 9]].

Lemma png_roundtrip_witness : encodes small_image [1; 4; 3] small_parts [1; 2; 3; 4] /\
  decode (encode 2 3 small_parts [1; 2; 3; 4]) = Ok small_image.
Proof.
  assert (encodes small_image [1; 4; 3] small_parts [1; 2; 3; 4]) as H.
  { split.
    - done.
    - apply (bool_decide_unpack _). vm_compute. reflexivity.
    - done.
    - split; [done|]. apply (bool_decide_unpack _). vm_compute. reflexivity.
    - split; [done|]. apply (bool_decide_unpack _). vm_compute. reflexivity.
    - done.
    - vm_compute. reflexivity. }
  split; [exact H|]. apply (png_roundtrip small_image [1; 4; 3] small_parts [1; 2; 3; 4] H). done.
Defined.
