(* ===== verification/JpegIdct.v ===== *)
(** The inverse DCT of the JPEG decoder (src/crates/mimo26-image/src/jpeg.rs): the lanes of
    [jsimd_idct_islow_avx2] on 16-bit and 32-bit integers, with the shortcuts of a lone
    first coefficient in a column, a row or a block, and that the shortcuts are exact.  An
    array of a fixed size is a list of that length. *)
From Stdlib Require Import ZArith Lia Bool.
From stdpp Require Import base list gmap strings.
From S2P Require Import Prelude Base64 Exif.

(** * Definitions *)

(** [x as i16] and [x as i32]: the low bits as a signed integer. *)
Definition as_i16 (x : Z) : Z := signed 16 (x mod 2 ^ 16).
Definition as_i32 (x : Z) : Z := signed 32 (x mod 2 ^ 32).

(** [t[i]] at an index inside the array. *)
Definition at_ix (t : list Z) (i : Z) : Z := nth (Z.to_nat i) t 0.

Definition CONST_BITS : Z := 13.
Definition F_0_298 : Z := 2446.
Definition F_0_390 : Z := 3196.
Definition F_0_541 : Z := 4433.
Definition F_0_765 : Z := 6270.
Definition F_0_899 : Z := 7373.
Definition F_1_175 : Z := 9633.
Definition F_1_501 : Z := 12299.
Definition F_1_847 : Z := 15137.
Definition F_1_961 : Z := 16069.
Definition F_2_053 : Z := 16819.
Definition F_2_562 : Z := 20995.
Definition F_3_072 : Z := 25172.

(** [v.clamp(lo, hi)] *)
Definition clamp (v lo hi : Z) : Z := if v <? lo then lo else if hi <? v then hi else v.

Definition sat16 (v : Z) : Z := clamp v (- 2 ^ 15) (2 ^ 15 - 1).
Definition sample (v : Z) : Z := (clamp v (-128) 127 + 128) mod 256.

(** [i32::wrapping_add], [wrapping_sub], [wrapping_mul]; [i16::wrapping_add], [wrapping_sub]. *)
Definition add32 (a b : Z) : Z := as_i32 (a + b).
Definition sub32 (a b : Z) : Z := as_i32 (a - b).
Definition mul32 (a b : Z) : Z := as_i32 (a * b).
Definition add16 (a b : Z) : Z := as_i16 (a + b).
Definition sub16 (a b : Z) : Z := as_i16 (a - b).

(** The arguments of the eight rounded shifts that end the macro. *)
Definition dodct_sums (x : list Z) : list Z :=
  let i := at_ix x in
  let tmp3 := add32 (mul32 (i 2) (F_0_541 + F_0_765)) (mul32 (i 6) F_0_541) in
  let tmp2 := add32 (mul32 (i 6) (F_0_541 - F_1_847)) (mul32 (i 2) F_0_541) in
  let tmp0 := as_i32 (Z.shiftl (add16 (i 0) (i 4)) CONST_BITS) in
  let tmp1 := as_i32 (Z.shiftl (sub16 (i 0) (i 4)) CONST_BITS) in
  let tmp10 := add32 tmp0 tmp3 in
  let tmp13 := sub32 tmp0 tmp3 in
  let tmp11 := add32 tmp1 tmp2 in
  let tmp12 := sub32 tmp1 tmp2 in
  let z3 := add16 (i 7) (i 3) in
  let z4 := add16 (i 5) (i 1) in
  let z3p := add32 (mul32 z3 (F_1_175 - F_1_961)) (mul32 z4 F_1_175) in
  let z4p := add32 (mul32 z4 (F_1_175 - F_0_390)) (mul32 z3 F_1_175) in
  let t0 := add32 (add32 (mul32 (i 7) (F_0_298 - F_0_899)) (mul32 (i 1) (- F_0_899))) z3p in
  let t1 := add32 (add32 (mul32 (i 5) (F_2_053 - F_2_562)) (mul32 (i 3) (- F_2_562))) z4p in
  let t3 := add32 (add32 (mul32 (i 7) (- F_0_899)) (mul32 (i 1) (F_1_501 - F_0_899))) z4p in
  let t2 := add32 (add32 (mul32 (i 5) (- F_2_562)) (mul32 (i 3) (F_3_072 - F_2_562))) z3p in
  [add32 tmp10 t3; add32 tmp11 t2; add32 tmp12 t1; add32 tmp13 t0;
   sub32 tmp13 t0; sub32 tmp12 t1; sub32 tmp11 t2; sub32 tmp10 t3].

Definition dodct (x : list Z) (n : Z) : list Z :=
  let r := Z.shiftl 1 (n - 1) in
  (fun v => sat16 (Z.shiftr (add32 v r) n)) <$> dodct_sums x.

Definition all_zero (l : list Z) : bool := forallb (fun v => v =? 0) l.

(** A row of samples from a row of the workspace. *)
Definition idct_row (w : list Z) : list Z :=
  if all_zero (drop 1 w) then
    replicate 8 (sample (sat16 (Z.shiftr (add32 (as_i32 (Z.shiftl (at_ix w 0) CONST_BITS)) (Z.shiftl 1 17)) 18)))
  else sample <$> dodct w 18.

Definition column (x : list Z) (c : Z) : list Z := (fun r => at_ix x (8 * r + c)) <$> seqZ 0 8.

(** One column of the first pass. *)
Definition idct_column (col : list Z) : list Z :=
  if all_zero (drop 1 col) then replicate 8 (sat16 (4 * at_ix col 0)) else dodct col 11.

Definition dequantize (coef q : list Z) : list Z := zip_with (fun c qq => as_i16 (c * qq)) coef q.

(** The eight rows of samples of a block. *)
Definition idct_rows (coef q : list Z) : list (list Z) :=
  let x := dequantize coef q in
  if all_zero (drop 8 coef) then
    replicate 8 (idct_row ((fun c => as_i16 (Z.shiftl (at_ix x c) 2)) <$> seqZ 0 8))
  else
    let ws := (fun c => idct_column (column x c)) <$> seqZ 0 8 in
    (fun r => idct_row ((fun d => at_ix d r) <$> ws)) <$> seqZ 0 8.

(** [out[at..at + row.len()].copy_from_slice(row)] *)
Definition put_row (out : list Z) (at_ : Z) (row : list Z) : outcome ImageError (list Z) :=
  _ ← index_range out at_ (at_ + Zlen row); Ok (splice out at_ row).

(** The block goes to [out] at [off]. *)
Definition idct_islow (coef q out : list Z) (off stride : Z) : outcome ImageError (list Z) :=
  _ ← index_range out off (Zlen out);
  fold_try (fun out rx => put_row out (off + fst rx * stride) (snd rx)) out (zip (seqZ 0 8) (idct_rows coef q)).

(** The source's own cases. *)
Definition block_of (entries : list (Z * Z)) : list Z := foldl (fun b e => <[Z.to_nat (fst e) := snd e]> b) (replicate 64 0) entries.
Example saturates_like_avx2 :
  idct_rows (block_of [(0, 2000)]) (replicate 64 16) = replicate 8 (replicate 8 32) /\
  idct_rows (block_of [(0, 2000); (1, 1); (9, 1)]) (replicate 64 16) = replicate 8 (replicate 8 255).
Proof. vm_compute. done. Qed.
Example dc_only_is_flat : idct_rows (block_of [(0, 10)]) (replicate 64 16) = replicate 8 (replicate 8 148).
Proof. vm_compute. done. Qed.

(** * The shortcuts *)

(** Both passes over every column and every row. *)
Definition idct_reference (coef q : list Z) : list (list Z) :=
  let x := dequantize coef q in
  let ws := (fun c => dodct (column x c) 11) <$> seqZ 0 8 in
  (fun r => sample <$> dodct ((fun d => at_ix d r) <$> ws) 18) <$> seqZ 0 8.

Definition is_i16 (v : Z) : Prop := - 2 ^ 15 <= v < 2 ^ 15.

Lemma signed_range n x : 0 < n -> 0 <= x < 2 ^ n -> - 2 ^ (n - 1) <= signed n x < 2 ^ (n - 1).
Proof.
  intros Hn Hx. assert (2 ^ n = 2 * 2 ^ (n - 1)) as Hpow by (rewrite <- Z.pow_succ_r by lia; f_equal; lia).
  unfold signed. destruct (Z.ltb_spec x (2 ^ (n - 1))); lia.
Qed.

Lemma signed_small n v : 0 < n -> - 2 ^ (n - 1) <= v < 2 ^ (n - 1) -> signed n (v mod 2 ^ n) = v.
Proof.
  intros Hn Hv. assert (2 ^ n = 2 * 2 ^ (n - 1)) as Hpow by (rewrite <- Z.pow_succ_r by lia; f_equal; lia).
  unfold signed. destruct (Z.le_gt_cases 0 v).
  - rewrite Z.mod_small by lia. by rewrite (proj2 (Z.ltb_lt _ _)) by lia.
  - rewrite <- (Z.mod_add v 1), Z.mod_small by lia. rewrite (proj2 (Z.ltb_ge _ _)) by lia. lia.
Qed.

Lemma as_i16_range v : is_i16 (as_i16 v).
Proof. apply (signed_range 16); [lia|]. by apply Z.mod_pos_bound. Qed.

Lemma as_i16_small v : is_i16 v -> as_i16 v = v.
Proof. intros H. by apply (signed_small 16). Qed.

Lemma as_i32_small v : - 2 ^ 31 <= v < 2 ^ 31 -> as_i32 v = v.
Proof. intros H. by apply (signed_small 32). Qed.

Lemma all_zero_at l i : all_zero l = true -> at_ix l i = 0.
Proof.
  unfold all_zero, at_ix. rewrite forallb_forall. intros H. destruct (decide (Z.to_nat i < length l)%nat) as [Hi|Hi].
  - apply Z.eqb_eq, H, nth_In. done.
  - by rewrite nth_overflow by lia.
Qed.

(** All that is left of a pass over a lone first value. *)
Lemma lone_sums x : is_i16 (at_ix x 0) -> all_zero (drop 1 x) = true -> dodct_sums x = replicate 8 (at_ix x 0 * 2 ^ 13).
Proof.
  intros Hx0 Hz. assert (forall i, 1 <= i -> at_ix x i = 0) as Hat.
  { intros i Hi. rewrite <- (all_zero_at _ (i - 1) Hz). unfold at_ix. rewrite !nth_lookup, lookup_drop. do 2 f_equal. lia. }
  unfold dodct_sums. cbv zeta. rewrite (Hat 1), (Hat 2), (Hat 3), (Hat 4), (Hat 5), (Hat 6), (Hat 7) by lia.
  assert (forall k, mul32 0 k = 0) as Hmul by done. rewrite !Hmul.
  assert (add16 (at_ix x 0) 0 = at_ix x 0 /\ sub16 (at_ix x 0) 0 = at_ix x 0) as [-> ->].
  { unfold add16, sub16. rewrite Z.add_0_r, Z.sub_0_r. by rewrite as_i16_small. }
  assert (add32 0 0 = 0) as H00 by done. rewrite !H00. unfold is_i16 in Hx0. unfold CONST_BITS.
  rewrite Z.shiftl_mul_pow2 by lia. assert (- 2 ^ 31 <= at_ix x 0 * 2 ^ 13 < 2 ^ 31) as Hr by lia. rewrite as_i32_small by done.
  assert (forall v, - 2 ^ 31 <= v < 2 ^ 31 -> add32 v 0 = v /\ sub32 v 0 = v) as Hsame.
  { intros v Hv. unfold add32, sub32. rewrite Z.add_0_r, Z.sub_0_r. by rewrite as_i32_small. }
  destruct (Hsame _ Hr) as [Ha Hs]. by rewrite ?Ha, ?Hs, ?Ha, ?Hs.
Qed.

(** The shortcut of a column is the pass. *)
Lemma idct_column_exact col : is_i16 (at_ix col 0) -> idct_column col = dodct col 11.
Proof.
  intros Hi. unfold idct_column. destruct (all_zero (drop 1 col)) eqn:Hz; [|done]. unfold dodct. cbv zeta. rewrite lone_sums by done.
  rewrite fmap_replicate. f_equal. f_equal. unfold is_i16 in Hi. unfold add32. change (Z.shiftl 1 (11 - 1)) with 1024.
  rewrite as_i32_small, Z.shiftr_div_pow2 by lia. Z.div_mod_to_equations. lia.
Qed.

(** So is the shortcut of a row. *)
Lemma idct_row_exact w : is_i16 (at_ix w 0) -> idct_row w = sample <$> dodct w 18.
Proof.
  intros Hi. unfold idct_row. destruct (all_zero (drop 1 w)) eqn:Hz; [|done]. unfold dodct. cbv zeta. rewrite lone_sums by done.
  rewrite !fmap_replicate. unfold is_i16 in Hi. unfold CONST_BITS. rewrite Z.shiftl_mul_pow2, as_i32_small by lia. done.
Qed.

Lemma block_zero coef q i : all_zero (drop 8 coef) = true -> 8 <= i -> at_ix (dequantize coef q) i = 0.
Proof.
  intros Hz Hi. assert (at_ix coef i = 0) as Hc.
  { rewrite <- (all_zero_at _ (i - 8) Hz). unfold at_ix. rewrite !nth_lookup, lookup_drop. do 2 f_equal. lia. }
  unfold at_ix, dequantize in *. rewrite nth_lookup, lookup_zip_with in *. destruct (coef !! Z.to_nat i) as [c|]; [|done]. cbn in Hc. subst c.
  cbn. by destruct (q !! Z.to_nat i).
Qed.

Lemma dequantize_i16 coef q i : is_i16 (at_ix (dequantize coef q) i).
Proof.
  unfold at_ix, dequantize. rewrite nth_lookup, lookup_zip_with. destruct (coef !! _); cbn; [|done]. destruct (q !! _); cbn; [apply as_i16_range|done].
Qed.

Lemma dodct_i16 x n i : is_i16 (at_ix (dodct x n) i).
Proof.
  unfold at_ix, dodct. cbv zeta. rewrite nth_lookup, list_lookup_fmap. destruct (dodct_sums x !! _) as [v|]; cbn; [|done].
  unfold sat16, clamp, is_i16. destruct (Z.ltb_spec (Z.shiftr (add32 v (Z.shiftl 1 (n - 1))) n) (- 2 ^ 15)); [lia|].
  destruct (Z.ltb_spec (2 ^ 15 - 1) (Z.shiftr (add32 v (Z.shiftl 1 (n - 1))) n)); lia.
Qed.

Lemma at_fmap_seqZ (f : Z -> Z) i : 0 <= i < 8 -> at_ix (f <$> seqZ 0 8) i = f i.
Proof. intros Hi. unfold at_ix. rewrite nth_lookup, list_lookup_fmap, lookup_seqZ_lt by lia. cbn. f_equal. lia. Qed.

(** A block whose rows but the first are zero: the shortcut is exact while four times a value
    of its first row is in 16 bits. *)
Lemma block_shortcut coef q r : all_zero (drop 8 coef) = true -> 0 <= r < 8 ->
  (forall c, 0 <= c < 8 -> - 2 ^ 13 <= at_ix (dequantize coef q) c < 2 ^ 13) ->
  (fun c => as_i16 (Z.shiftl (at_ix (dequantize coef q) c) 2)) <$> seqZ 0 8 =
  (fun d => at_ix d r) <$> ((fun c => dodct (column (dequantize coef q) c) 11) <$> seqZ 0 8).
Proof.
  intros Hz Hr Hsmall. rewrite <- list_fmap_compose. apply list_fmap_ext. intros i c Hc. apply lookup_seqZ in Hc as [-> Hc]. unfold compose.
  set (c := 0 + Z.of_nat i). assert (0 <= c < 8) as Hcc by lia. specialize (Hsmall c Hcc). clearbody c. clear i Hc.
  set (x := dequantize coef q) in *. assert (at_ix (column x c) 0 = at_ix x c) as Hc0 by done.
  rewrite <- idct_column_exact by (rewrite Hc0; apply dequantize_i16). unfold idct_column.
  assert (all_zero (drop 1 (column x c)) = true) as ->.
  { unfold all_zero. apply forallb_forall. intros v Hv. apply Z.eqb_eq. unfold column in Hv. rewrite <- fmap_drop in Hv. change (drop 1 (seqZ 0 8)) with [1; 2; 3; 4; 5; 6; 7] in Hv.
    apply list_elem_of_In, list_elem_of_fmap in Hv as (j & -> & Hj). apply block_zero; [done|].
    assert (Forall (fun j => 1 <= j) [1; 2; 3; 4; 5; 6; 7]) as Hall by (repeat (apply Forall_cons_2; [lia|]); constructor).
    apply (proj1 (Forall_forall _ _) Hall) in Hj. lia. }
  unfold at_ix at 2. rewrite nth_lookup, lookup_replicate_2 by lia. cbn [default]. rewrite Hc0, Z.shiftl_mul_pow2 by lia.
  rewrite as_i16_small by (unfold is_i16; lia). unfold sat16, clamp. destruct (Z.ltb_spec (4 * at_ix x c) (- 2 ^ 15)); [lia|].
  unfold id. destruct (Z.ltb_spec (2 ^ 15 - 1) (4 * at_ix x c)); lia.
Qed.

(** The shortcuts change nothing: two full passes give the same samples. *)
Lemma idct_rows_exact coef q : (all_zero (drop 8 coef) = true -> forall c, 0 <= c < 8 -> - 2 ^ 13 <= at_ix (dequantize coef q) c < 2 ^ 13) ->
  idct_rows coef q = idct_reference coef q.
Proof.
  intros Hsmall. unfold idct_rows, idct_reference. cbv zeta. destruct (all_zero (drop 8 coef)) eqn:Hz.
  - specialize (Hsmall eq_refl). apply list_eq_same_length with (n := 8%nat); [reflexivity|reflexivity|].
    intros i a b Hi Ha Hb. rewrite lookup_replicate_2 in Ha by lia. rewrite list_lookup_fmap, lookup_seqZ_lt in Hb by lia.
    apply (inj Some) in Ha as <-, Hb as <-. rewrite (block_shortcut coef q (0 + Z.of_nat i)) by (done || lia).
    apply idct_row_exact. rewrite <- block_shortcut by (done || lia). rewrite at_fmap_seqZ by lia. apply as_i16_range.
  - assert ((fun c => idct_column (column (dequantize coef q) c)) <$> seqZ 0 8 = (fun c => dodct (column (dequantize coef q) c) 11) <$> seqZ 0 8) as ->.
    { apply list_fmap_ext. intros i c _. apply idct_column_exact. apply dequantize_i16. }
    apply list_fmap_ext. intros i r _. apply idct_row_exact. rewrite <- list_fmap_compose, at_fmap_seqZ by lia. cbv beta. unfold compose. apply dodct_i16.
Qed.

(** C31: The shortcuts of the inverse DCT are exact: a lone first value in a column or in a
    row, and a block whose coefficients below its first row are zero, give the samples that
    both passes give, the last one as long as four times each dequantized value of the first
    row is in 16 bits (the block [saturates_like_avx2] starts from is not). *)
Theorem idct_shortcuts_exact coef q :
  (all_zero (drop 8 coef) = true -> forall c, 0 <= c < 8 -> - 2 ^ 13 <= at_ix (dequantize coef q) c < 2 ^ 13) ->
  idct_rows coef q = idct_reference coef q.
Proof. apply idct_rows_exact. Qed.

Lemma idct_shortcuts_exact_witness : idct_rows (block_of [(0, 10); (3, -20)]) (replicate 64 16) = idct_reference (block_of [(0, 10); (3, -20)]) (replicate 64 16).
Proof.
  apply idct_shortcuts_exact. intros _ c Hc. assert (Forall (fun c => - 2 ^ 13 <= at_ix (dequantize (block_of [(0, 10); (3, -20)]) (replicate 64 16)) c < 2 ^ 13) (seqZ 0 8)) as H.
  { apply (bool_decide_unpack _). vm_compute. exact I. }
  apply (proj1 (Forall_forall _ _) H). apply elem_of_seqZ. lia.
Defined.
