(* ===== verification/JpegBits.v ===== *)
(** The entropy-coded segments of a JPEG file (src/crates/mimo26-image/src/jpeg.rs): the bit
    reader with its stuffed bytes, markers and zero fill, restart markers, and the Huffman
    tables with their nine bits of look-ahead.  Positions are offsets in the file; walks
    over it run on its length.  Then the invariants of the reader and of the tables: no read,
    code or marker makes the decoder panic. *)
From Stdlib Require Import ZArith Lia Bool.
From stdpp Require Import base list gmap strings.
From S2P Require Import Prelude Utf8 Scan Base64 Exif JpegIdct Buffers.

(** * Definitions *)

#[local] Abbreviation jpeg := (outcome ImageError).

Definition LOOKAHEAD : Z := 9.

Record RawHuff := mkRawHuff { rh_bits : list Z; rh_vals : list Z }.

Record Huff := mkHuff { hf_lookup : list Z; hf_maxcode : list Z; hf_valoffset : list Z; hf_vals : list Z }.

(** ** Tables *)

(** [huffsize]: the length of each code. *)
Definition code_sizes (bits : list Z) : list Z :=
  concat ((fun l => replicate (Z.to_nat (at_ix bits l)) l) <$> seqZ 1 16).

(** [huffcode]: the codes of the sizes that remain, [code] being the next of size [si]. *)
Fixpoint assign_codes (fuel : nat) (sizes : list Z) (code si : Z) : jpeg (list Z) :=
  match sizes with
  | [] => Ok []
  | _ =>
    match fuel with
    | O => Panic
    | S fuel =>
      let run := count_while (Z.eqb si) sizes in
      let next := code + Z.of_nat run in
      if Z.shiftl 1 si <=? next then Err (BadJpeg "bad Huffman table")
      else
        rest ← assign_codes fuel (drop run sizes) (Z.shiftl next 1 mod 2 ^ 32) (si + 1);
        Ok (seqZ code (Z.of_nat run) ++ rest)
    end
  end.

(** [maxcode] and [valoffset], with the number of codes passed. *)
Definition length_entry (bits huffcode : list Z) (st : Z * list Z * list Z) (l : Z) : jpeg (Z * list Z * list Z) :=
  let '(p, maxcode, valoffset) := st in
  let b := at_ix bits l in
  if 0 <? b then
    first ← idx huffcode p;
    valoffset ← idx_set valoffset l (p - first);
    last ← idx huffcode (p + b - 1);
    maxcode ← idx_set maxcode l last;
    Ok (p + b, maxcode, valoffset)
  else Ok st.

(** The look-ahead entries of the code [c] of [size] bits for the value [v]. *)
Definition lookup_entry (lookup : list Z) (scv : Z * Z * Z) : jpeg (list Z) :=
  let '(size, c, v) := scv in
  if size <=? LOOKAHEAD then
    let shift := LOOKAHEAD - size in
    let base := Z.shiftl c shift in
    fold_try (fun lookup k => idx_set lookup (base + k) (Z.lor (Z.shiftl size 8) v)) lookup (seqZ 0 (Z.shiftl 1 shift))
  else Ok lookup.

Definition Huff_new (raw : RawHuff) (is_dc : bool) : jpeg Huff :=
  let huffsize := code_sizes (rh_bits raw) in
  if 256 <? Zlen huffsize then Err (BadJpeg "bad Huffman table")
  else
    let n := Zlen huffsize in
    huffcode ← assign_codes 17 huffsize 0 (default 0 (head huffsize));
    '(_, maxcode, valoffset) ← fold_try (length_entry (rh_bits raw) huffcode) (0, replicate 18 (-1), replicate 18 0) (seqZ 1 16);
    maxcode ← idx_set maxcode 17 0xFFFFF;
    lookup ← fold_try lookup_entry (replicate 512 0) (zip (zip huffsize huffcode) (rh_vals raw));
    if is_dc && existsb (fun v => 15 <? v) (take (Z.to_nat n) (rh_vals raw)) then Err (BadJpeg "bad DC Huffman table")
    else Ok (mkHuff lookup maxcode valoffset (rh_vals raw)).

(** ** Bits *)

(** [acc] holds the bits read ahead at its top; [fake] counts the zeros past the data and
    [marker_at] is where the marker that ended it starts. *)
Record Bits := mkBits { bt_pos : Z; bt_acc : Z; bt_nbits : Z; bt_fake : Z; bt_marker_at : option Z; bt_eof : bool }.

Definition Bits_new (pos : Z) : Bits := mkBits pos 0 0 0 None false.

Section data.
Context (data : list Z).

(** [data.get(i)] *)
Definition get_at (i : Z) : option Z := data !! Z.to_nat i.

(** [while p < data.len() && f(data[p]) { p += 1 }] *)
Definition skip_run (f : Z -> bool) (p : Z) : Z := p + Z.of_nat (count_while f (drop (Z.to_nat p) data)).

(** [self.acc |= b << (56 - self.nbits)], and eight bits more. *)
Definition push_byte (b : Bits) (pos v : Z) : Bits :=
  mkBits pos (Z.lor (bt_acc b) (Z.shiftl v (56 - bt_nbits b))) (bt_nbits b + 8) (bt_fake b) (bt_marker_at b) (bt_eof b).

Definition is_some {A} (o : option A) : bool := match o with Some _ => true | None => false end.

Definition set_eof (b : Bits) : Bits := mkBits (bt_pos b) (bt_acc b) (bt_nbits b) (bt_fake b) (bt_marker_at b) true.
Definition set_marker (b : Bits) : Bits := mkBits (bt_pos b) (bt_acc b) (bt_nbits b) (bt_fake b) (Some (bt_pos b)) (bt_eof b).

(** One pass of the loop of [fill]. *)
Definition fill_step (b : Bits) : Bits :=
  if is_some (bt_marker_at b) || bt_eof b then
    mkBits (bt_pos b) (bt_acc b) (bt_nbits b + 8) (bt_fake b + 8) (bt_marker_at b) (bt_eof b)
  else
    match get_at (bt_pos b) with
    | None => set_eof b
    | Some v =>
      if negb (v =? 0xFF) then push_byte b (bt_pos b + 1) v
      else
        let p := skip_run (Z.eqb 0xFF) (bt_pos b + 1) in
        match get_at p with
        | None => set_eof b
        | Some m => if m =? 0 then push_byte b (p + 1) 0xFF else set_marker b
        end
    end.

(** Eight bytes fill the accumulator, and one pass more may find the end of the data. *)
Fixpoint fill_loop (fuel : nat) (b : Bits) : Bits :=
  match fuel with
  | O => b
  | S fuel => if bt_nbits b <=? 56 then fill_loop fuel (fill_step b) else b
  end.
Definition fill (b : Bits) : Bits := fill_loop 9 b.

Definition ensure (n : Z) (b : Bits) : Bits := if bt_nbits b <? n then fill b else b.

Definition peek_bits (n : Z) (b : Bits) : Z := Z.shiftr (bt_acc b) (64 - n) mod 2 ^ 32.

(** [self.nbits -= n] must not go below zero. *)
Definition consume (n : Z) (b : Bits) : jpeg Bits :=
  if bt_nbits b <? n then Panic
  else Ok (mkBits (bt_pos b) (Z.shiftl (bt_acc b) n mod 2 ^ 64) (bt_nbits b - n) (bt_fake b) (bt_marker_at b) (bt_eof b)).

Definition get_bits (n : Z) (b : Bits) : jpeg (Z * Bits) :=
  if n =? 0 then Ok (0, b)
  else
    let b := ensure n b in
    let v := peek_bits n b in
    b ← consume n b;
    Ok (v, b).

Definition overrun (b : Bits) : bool := bt_nbits b <? bt_fake b.

(** The codes longer than the look-ahead. *)
Fixpoint huff_long (t : Huff) (b : Bits) (lens : list Z) : jpeg (Z * Bits) :=
  match lens with
  | [] => Err (BadJpeg "bad Huffman code")
  | l :: lens =>
    let code := peek_bits l b in
    maxcode ← idx (hf_maxcode t) l;
    if code <=? maxcode then
      b ← consume l b;
      offset ← idx (hf_valoffset t) l;
      v ← idx (hf_vals t) (Z.land (code + offset) 0xFF);
      Ok (v, b)
    else huff_long t b lens
  end.

Definition huff (t : Huff) (b : Bits) : jpeg (Z * Bits) :=
  let b := ensure 16 b in
  e ← idx (hf_lookup t) (peek_bits LOOKAHEAD b);
  if negb (e =? 0) then b ← consume (Z.shiftr e 8) b; Ok (e mod 256, b)
  else huff_long t b (seqZ (LOOKAHEAD + 1) (16 - LOOKAHEAD)).

Definition reset_bits (b : Bits) : Bits := mkBits (bt_pos b) 0 0 0 (bt_marker_at b) (bt_eof b).

(** ** Markers *)

(** The next marker at or after [p]: where its first 0xFF is, and its code. *)
Fixpoint find_marker_loop (fuel : nat) (p : Z) : option (Z * Z) :=
  match fuel with
  | O => None
  | S fuel =>
    let start := skip_run (fun b => negb (b =? 0xFF)) p in
    let p := skip_run (Z.eqb 0xFF) start in
    match get_at p with
    | None => None
    | Some m => if negb (m =? 0) then Some (start, m) else find_marker_loop fuel (p + 1)
    end
  end.
Definition find_marker (p : Z) : option (Z * Z) := find_marker_loop (S (length data)) p.

Definition marker_code (at_ : Z) : option (Z * Z) := find_marker at_.

Definition skip_marker (at_ : Z) : Z := skip_run (Z.eqb 0xFF) at_ + 1.

Definition consume_marker (after : Z) (b : Bits) : Bits := mkBits after (bt_acc b) (bt_nbits b) (bt_fake b) None false.

(** What to do about a marker that is not the one expected. *)
Definition resync_action (code expected : Z) : Z :=
  if code <? 0xC0 then 2
  else if negb ((0xD0 <=? code) && (code <=? 0xD7)) then 3
  else
    let n := code - 0xD0 in
    if (n =? Z.land (expected + 1) 7) || (n =? Z.land (expected + 2) 7) then 3
    else if (n =? Z.land (expected + 7) 7) || (n =? Z.land (expected + 6) 7) then 2
    else 1.

Fixpoint restart_loop (fuel : nat) (expected : Z) (found : Z * Z) (b : Bits) : jpeg (bool * Bits) :=
  let '(at_, code) := found in
  let after := skip_marker at_ in
  if code =? 0xD0 + expected then Ok (false, consume_marker after b)
  else
    let action := resync_action code expected in
    if action =? 1 then Ok (false, consume_marker after b)
    else if action =? 2 then
      match find_marker after with
      | Some found => match fuel with O => Panic | S fuel => restart_loop fuel expected found b end
      | None => Err (BadJpeg "missing restart marker")
      end
    else Ok (true, mkBits at_ (bt_acc b) (bt_nbits b) (bt_fake b) (Some at_) false).

(** True when the marker is left unread. *)
Definition restart (expected : Z) (b : Bits) : jpeg (bool * Bits) :=
  let b := reset_bits b in
  let found := match bt_marker_at b with Some at_ => marker_code at_ | None => find_marker (bt_pos b) end in
  match found with
  | None => Err (BadJpeg "missing restart marker")
  | Some found => restart_loop (length data) expected found b
  end.
End data.

(** [HUFF_EXTEND] *)
Definition extend (v s : Z) : Z :=
  if s =? 0 then 0
  else if v <? Z.shiftl 1 (s - 1) then v - Z.shiftl 1 s + 1
  else v.

(** * The invariant of the bit reader *)

(** A position at or after [lo], where the marker may be too. *)
Record bits_ok (lo : Z) (b : Bits) : Prop := {
  bok_nbits : 0 <= bt_nbits b <= 64;
  bok_acc : 0 <= bt_acc b < 2 ^ 64;
  bok_pos : lo <= bt_pos b;
  bok_marker : forall m, bt_marker_at b = Some m -> lo <= m
}.

Lemma lor_lt_pow2 a b n : 0 <= n -> 0 <= a < 2 ^ n -> 0 <= b < 2 ^ n -> Z.lor a b < 2 ^ n.
Proof.
  intros Hn Ha Hb.
  rewrite <- (Z.mod_small a (2 ^ n)), <- (Z.mod_small b (2 ^ n)), <- !Z.land_ones, <- Z.land_lor_distr_l, Z.land_ones by done.
  apply Z.mod_pos_bound. by apply Z.pow_pos_nonneg.
Qed.

Section data.
Context (data : list Z) (Hdata : bytes_ok data).

Lemma get_at_byte i v : get_at data i = Some v -> is_byte v.
Proof. intros H. unfold get_at in H. by eapply Forall_lookup_1 in Hdata. Qed.

Lemma get_at_inside i v : 0 <= i -> get_at data i = Some v -> i < Zlen data.
Proof. unfold get_at. intros Hi H%lookup_lt_Some. lia. Qed.

Lemma skip_run_ge f p : p <= skip_run data f p.
Proof. unfold skip_run. lia. Qed.

Lemma push_byte_ok lo b pos v : bits_ok lo b -> bt_nbits b <= 56 -> is_byte v -> lo <= pos -> bits_ok lo (push_byte b pos v).
Proof.
  intros [Hn Ha Hp Hm] H56 Hv Hlo. unfold push_byte. split; cbn [bt_nbits bt_acc bt_pos bt_marker_at]; [lia| |lia|done].
  assert (0 <= Z.shiftl v (56 - bt_nbits b) < 2 ^ 64) as Hs.
  { rewrite Z.shiftl_mul_pow2 by lia. unfold is_byte in Hv. assert (0 < 2 ^ (56 - bt_nbits b)) by (apply Z.pow_pos_nonneg; lia).
    assert (2 ^ (56 - bt_nbits b) <= 2 ^ 56) by (apply Z.pow_le_mono_r; lia). change (2 ^ 64) with (256 * 2 ^ 56). nia. }
  split; [apply Z.lor_nonneg; lia|]. apply lor_lt_pow2; lia.
Qed.

(** Whether no byte is left to read. *)
Definition stopped (b : Bits) : bool := is_some (bt_marker_at b) || bt_eof b.

Lemma fill_step_ok lo b : bits_ok lo b -> bt_nbits b <= 56 ->
  bits_ok lo (fill_step data b) /\ (bt_nbits (fill_step data b) = bt_nbits b + 8 /\ (stopped b = true -> stopped (fill_step data b) = true)
    \/ bt_nbits (fill_step data b) = bt_nbits b /\ stopped b = false /\ stopped (fill_step data b) = true).
Proof.
  intros Hb H56. unfold fill_step. fold (stopped b). pose proof Hb as [Hn Ha Hp Hm].
  destruct (stopped b) eqn:Hs; [split; [split; cbn; auto with lia|left; by split]|].
  assert (bits_ok lo (set_eof b)) as Heof by (by split).
  assert (bits_ok lo (set_marker b)) as Hmk by (split; cbn; [done..|by intros ? [= <-]]).
  assert (stopped (set_eof b) = true) as Hse by (unfold stopped; cbn; apply orb_true_r).
  destruct (get_at data (bt_pos b)) as [v|] eqn:Hv; [|by split; [|right]].
  destruct (negb (v =? 255)); [split; [apply push_byte_ok; [done|done|by eapply get_at_byte|lia]|by left]|].
  cbv zeta. pose proof (skip_run_ge (Z.eqb 255) (bt_pos b + 1)).
  destruct (get_at data (skip_run data _ _)) as [m|]; [|by split; [|right]].
  destruct (m =? 0); [split; [apply push_byte_ok; [done|done|done|lia]|by left]|by split; [|right]].
Qed.

Definition pending (b : Bits) : Z := if stopped b then 0 else 1.

Lemma fill_loop_ok lo n b : bits_ok lo b -> 56 < 8 * (Z.of_nat n - pending b) + bt_nbits b ->
  bits_ok lo (fill_loop data n b) /\ 56 < bt_nbits (fill_loop data n b).
Proof.
  revert b. induction n as [|n IH]; intros b Hb Hn; cbn [fill_loop].
  { split; [done|]. unfold pending in Hn. destruct (stopped b); lia. }
  destruct (Z.leb_spec (bt_nbits b) 56) as [H56|]; [|by split].
  destruct (fill_step_ok lo b Hb H56) as [Hok Hstep]. apply IH; [done|]. unfold pending in *.
  destruct Hstep as [[-> Hs]|(-> & Hs1 & Hs2)]; [|rewrite Hs1 in Hn; rewrite Hs2; lia].
  destruct (stopped b); [rewrite Hs by done; lia|]. destruct (stopped (fill_step data b)); lia.
Qed.

Lemma ensure_ok lo n b : bits_ok lo b -> n <= 57 -> bits_ok lo (ensure data n b) /\ n <= bt_nbits (ensure data n b).
Proof.
  intros Hb Hn. unfold ensure, fill. destruct (Z.ltb_spec (bt_nbits b) n) as [Hlt|]; [|by split].
  destruct (fill_loop_ok lo 9 b Hb); [|split; [done|lia]]. pose proof (bok_nbits _ _ Hb). unfold pending. destruct (stopped b); lia.
Qed.

Lemma peek_range n lo b : bits_ok lo b -> 0 <= n <= 32 -> 0 <= peek_bits n b < 2 ^ n.
Proof.
  intros [_ Ha _ _] Hn. unfold peek_bits. rewrite Z.shiftr_div_pow2 by lia.
  assert (0 <= bt_acc b / 2 ^ (64 - n) < 2 ^ n) as H.
  { split; [apply Z.div_pos; [lia|apply Z.pow_pos_nonneg; lia]|]. apply Z.div_lt_upper_bound; [apply Z.pow_pos_nonneg; lia|].
    rewrite <- Z.pow_add_r by lia. replace (64 - n + n) with 64 by lia. apply Ha. }
  assert (2 ^ n <= 2 ^ 32) by (apply Z.pow_le_mono_r; lia). rewrite Z.mod_small by lia. lia.
Qed.

Lemma consume_ok lo n b : bits_ok lo b -> 0 <= n <= bt_nbits b -> safe (bits_ok lo) (consume n b).
Proof.
  intros [Hn Ha Hp Hm] Hnn. unfold consume. rewrite (proj2 (Z.ltb_ge _ _)) by lia. cbn.
  split; cbn [bt_nbits bt_acc bt_pos bt_marker_at]; [lia|by apply Z.mod_pos_bound|done..].
Qed.

Lemma get_bits_ok lo n b : bits_ok lo b -> 0 <= n <= 16 -> safe (fun '(v, b) => 0 <= v < 2 ^ n /\ bits_ok lo b) (get_bits data n b).
Proof.
  intros Hb Hn. unfold get_bits. destruct (Z.eqb_spec n 0) as [->|H0]; [split; [lia|done]|]. cbv zeta.
  destruct (ensure_ok lo n b Hb) as [He Hen]; [lia|]. eapply safe_bind; [apply (consume_ok lo); [done|lia]|].
  intros b' Hb'. split; [eapply peek_range; [exact He|lia]|done].
Qed.

Lemma get_bits_then {B} lo n b (k : Z * Bits -> outcome ImageError B) (Q : B -> Prop) : bits_ok lo b -> 0 <= n <= 16 ->
  (forall v b', bits_ok lo b' -> 0 <= v < 2 ^ n -> safe Q (k (v, b'))) -> safe Q (get_bits data n b ≫= k).
Proof. intros Hb Hn Hk. eapply safe_bind; [by eapply get_bits_ok|]. intros [v b'] [Hv Hb']. auto. Qed.

(** * Huffman codes *)

(** The derived table of values that satisfy [P]. *)
Record huff_ok (P : Z -> Prop) (t : Huff) : Prop := {
  hok_lookup : Zlen (hf_lookup t) = 512;
  hok_entry : Forall (fun e => 0 <= e < 10 * 256 /\ P (e mod 256)) (hf_lookup t);
  hok_maxcode : Zlen (hf_maxcode t) = 18;
  hok_valoffset : Zlen (hf_valoffset t) = 18;
  hok_vals : Zlen (hf_vals t) = 256;
  hok_val : Forall P (hf_vals t)
}.

Lemma huff_long_ok P lo t b lens : huff_ok P t -> bits_ok lo b -> Forall (fun l => 0 <= l <= 16) lens -> 16 <= bt_nbits b ->
  safe (fun '(v, b) => P v /\ bits_ok lo b) (huff_long t b lens).
Proof.
  intros [_ _ Hm Hv Hl Hp] Hb Hlens H16. induction Hlens as [|l lens Hr Hlens IH]; [done|]. cbn [huff_long].
  apply idx_then'; [lia|]. intros mc _. destruct (_ <=? _); [|done].
  eapply safe_bind; [apply (consume_ok lo); [done|lia]|]. intros b' Hb'. apply idx_then'; [lia|]. intros off _.
  apply (idx_then P); [done| |by intros x _ Hx]. change 255 with (Z.ones 8). rewrite Z.land_ones by lia.
  pose proof (Z.mod_pos_bound (peek_bits l b + off) (2 ^ 8)). lia.
Qed.

Lemma huff_read_ok P lo t b : huff_ok P t -> bits_ok lo b -> safe (fun '(v, b) => P v /\ bits_ok lo b) (huff data t b).
Proof.
  intros Ht Hb. unfold huff. cbv zeta. destruct (ensure_ok lo 16 b Hb) as [He Hen]; [lia|].
  pose proof (peek_range LOOKAHEAD lo _ He ltac:(unfold LOOKAHEAD; lia)) as Hpk. change (2 ^ LOOKAHEAD) with 512 in Hpk.
  apply (idx_then _ _ _ _ _ (hok_entry _ _ Ht)); [rewrite (hok_lookup _ _ Ht); lia|]. intros e _ [Hr HP].
  destruct (negb (e =? 0)).
  - eapply safe_bind; [apply (consume_ok lo); [done|]|by intros b' Hb']. rewrite Z.shiftr_div_pow2 by lia.
    split; [apply Z.div_pos; lia|]. enough (e / 2 ^ 8 < 10) by lia. apply Z.div_lt_upper_bound; lia.
  - apply huff_long_ok; [done|done| |done]. apply Forall_forall. intros l Hl%elem_of_seqZ. unfold LOOKAHEAD in Hl. lia.
Qed.

Lemma huff_then {B} P lo t b (k : Z * Bits -> outcome ImageError B) (Q : B -> Prop) : huff_ok P t -> bits_ok lo b ->
  (forall v b', bits_ok lo b' -> P v -> safe Q (k (v, b'))) -> safe Q (huff data t b ≫= k).
Proof. intros Ht Hb Hk. eapply safe_bind; [by eapply huff_read_ok|]. intros [v b'] [Hv Hb']. auto. Qed.

(** * Markers *)

Lemma find_marker_loop_ok n p at_ m : 0 <= p -> find_marker_loop data n p = Some (at_, m) ->
  p <= at_ < Zlen data /\ at_ < skip_marker data at_ <= Zlen data.
Proof.
  revert p. induction n as [|n IH]; intros p Hp; [done|]. cbn [find_marker_loop]. cbv zeta.
  set (start := skip_run data _ p). pose proof (skip_run_ge (fun b => negb (b =? 255)) p) as Hs. fold start in Hs.
  pose proof (skip_run_ge (Z.eqb 255) start) as Hs'. set (q := skip_run data (Z.eqb 255) start) in *.
  destruct (get_at data q) as [v|] eqn:Hv; [|done]. apply get_at_inside in Hv; [|lia].
  destruct (negb (v =? 0)); [|intros H; apply IH in H; [lia|lia]]. intros [= <- <-].
  unfold skip_marker. fold q. lia.
Qed.

Lemma find_marker_ok p at_ m : 0 <= p -> find_marker data p = Some (at_, m) ->
  p <= at_ < Zlen data /\ at_ < skip_marker data at_ <= Zlen data.
Proof. apply find_marker_loop_ok. Qed.

Lemma restart_loop_ok lo n expected at_ code b : 0 <= lo -> bits_ok lo b -> lo <= at_ < Zlen data ->
  at_ < skip_marker data at_ -> Zlen data - at_ <= Z.of_nat n -> safe (fun '(_, b) => bits_ok lo b) (restart_loop data n expected (at_, code) b).
Proof.
  intros Hlo Hb. revert at_ code. induction n as [|n IH]; intros at_ code Hat Hskip Hfuel; [lia|]. cbn [restart_loop]. cbv zeta.
  assert (bits_ok lo (consume_marker (skip_marker data at_) b)) as Hc by (destruct Hb; split; cbn; [done|done|lia|done]).
  destruct (_ =? _); [done|]. destruct (_ =? 1); [done|]. destruct (_ =? 2).
  - destruct (find_marker data (skip_marker data at_)) as [[at' code']|] eqn:Hf; [|done]. apply find_marker_ok in Hf; [|lia].
    apply IH; lia.
  - cbn. destruct Hb. split; cbn; [done|done|lia|]. intros m [= <-]. lia.
Qed.

Lemma restart_ok lo expected b : 0 <= lo -> bits_ok lo b -> safe (fun '(_, b) => bits_ok lo b) (restart data expected b).
Proof.
  intros Hlo Hb. unfold restart. cbv zeta. assert (bits_ok lo (reset_bits b)) as Hr by (destruct Hb; split; cbn; [lia|lia|done|done]).
  destruct Hr as [Hn Ha Hp Hm].
  assert (forall at_ code, match bt_marker_at (reset_bits b) with Some at_ => marker_code data at_ | None => find_marker data (bt_pos (reset_bits b)) end
    = Some (at_, code) -> lo <= at_ < Zlen data /\ at_ < skip_marker data at_) as Hfound.
  { intros at_ code. destruct (bt_marker_at (reset_bits b)) as [m|]; intros Hf; apply find_marker_ok in Hf; try specialize (Hm m eq_refl); lia. }
  destruct (match bt_marker_at _ with Some _ => _ | None => _ end) as [[at_ code]|]; [|done]. destruct (Hfound at_ code eq_refl) as [H1 H2].
  apply restart_loop_ok; [done|by split|done|done|lia].
Qed.
End data.

(** * Derived tables *)

(** The lengths of the codes of lengths [l] to [l + k - 1]. *)
Definition sizes_from (bits : list Z) (l k : Z) : list Z := concat ((fun l => replicate (Z.to_nat (at_ix bits l)) l) <$> seqZ l k).

Lemma sizes_from_none bits l k : k <= 0 -> sizes_from bits l k = [].
Proof. intros H. unfold sizes_from. assert (seqZ l k = []) as -> by (apply length_zero_iff_nil; rewrite length_seqZ; lia). done. Qed.

Lemma sizes_from_step bits l k : 0 < k -> sizes_from bits l k = replicate (Z.to_nat (at_ix bits l)) l ++ sizes_from bits (l + 1) (k - 1).
Proof. intros H. unfold sizes_from. rewrite seqZ_cons by lia. cbn. do 4 f_equal; lia. Qed.

Lemma sizes_from_range bits l k : Forall (fun s => l <= s < l + k) (sizes_from bits l k).
Proof.
  unfold sizes_from. apply Forall_concat, Forall_fmap, Forall_forall. intros i Hi%elem_of_seqZ. cbn. by apply Forall_replicate.
Qed.

Lemma count_while_replicate f n x l : f x = true -> Forall (fun y => f y = false) l -> count_while f (replicate n x ++ l) = n.
Proof.
  intros Hx Hl. induction n as [|n IH]; cbn [replicate app count_while].
  - destruct Hl as [|y l Hy _]; [done|]. cbn. by rewrite Hy.
  - rewrite Hx. by rewrite IH.
Qed.

Definition code_fits (size c : Z) : Prop := 0 <= c < 2 ^ size.

Lemma assign_codes_ok bits n k fuel si code : Z.of_nat n = k -> (n <= fuel)%nat -> 0 <= si -> 0 <= code ->
  safe (Forall2 code_fits (sizes_from bits si k)) (assign_codes fuel (sizes_from bits si k) code si).
Proof.
  intros <-. revert fuel si code. induction n as [|n IH]; intros fuel si code Hfuel Hsi Hcode.
  { rewrite sizes_from_none by lia. destruct fuel; cbn; constructor. }
  destruct fuel as [|fuel]; [lia|]. set (sizes := sizes_from bits si (Z.of_nat (S n))). destruct (decide (sizes = [])) as [Hnil|Hcons].
  { rewrite Hnil. cbn. constructor. }
  assert (forall A (a b : A), match sizes with [] => a | _ => b end = b) as Hmatch by (by destruct sizes).
  cbn [assign_codes]. rewrite Hmatch. cbv zeta. subst sizes. rewrite sizes_from_step by lia.
  replace (Z.of_nat (S n) - 1) with (Z.of_nat n) by lia. set (rest := sizes_from bits (si + 1) (Z.of_nat n)).
  assert (Forall (fun y => (si =? y) = false) rest) as Hrest.
  { eapply Forall_impl; [apply sizes_from_range|]. intros y Hy. cbv beta in Hy. apply Z.eqb_neq. lia. }
  rewrite count_while_replicate by (apply Z.eqb_refl || done). set (run := Z.to_nat (at_ix bits si)).
  rewrite drop_app_length' by (by rewrite length_replicate). rewrite Z.shiftl_1_l. destruct (Z.leb_spec (2 ^ si) (code + Z.of_nat run)) as [|Hlt]; [done|].
  eapply safe_bind; [apply IH; [lia|lia|apply Z.mod_pos_bound; lia]|]. intros codes Hcodes. cbn [safe]. apply Forall2_app; [|done].
  apply Forall2_replicate_l; [rewrite length_seqZ; lia|]. apply Forall_forall. intros c Hc%elem_of_seqZ. unfold code_fits. lia.
Qed.

(** The table of a segment: a value for each code, then zeros. *)
Record raw_ok (r : RawHuff) : Prop := {
  rok_bits : Forall (fun b => 0 <= b) (rh_bits r);
  rok_vals : sized 256 (rh_vals r);
  rok_rest : Forall (fun v => v = 0) (drop (length (code_sizes (rh_bits r))) (rh_vals r))
}.

Lemma code_sizes_from bits : code_sizes bits = sizes_from bits 1 16.
Proof. reflexivity. Qed.

Lemma sizes_head_from bits n l : exists k, 0 <= k <= Z.of_nat n /\
  sizes_from bits l (Z.of_nat n) = sizes_from bits (default l (head (sizes_from bits l (Z.of_nat n)))) k.
Proof.
  revert l. induction n as [|n IH]; intros l; [by exists 0|]. rewrite sizes_from_step by lia.
  replace (Z.of_nat (S n) - 1) with (Z.of_nat n) by lia. destruct (Z.to_nat (at_ix bits l)) as [|b] eqn:Hb.
  - cbn [replicate app]. destruct (sizes_from bits (l + 1) (Z.of_nat n)) as [|x rest] eqn:Hs; cbn.
    + exists 0. split; [lia|]. by rewrite sizes_from_none.
    + destruct (IH (l + 1)) as (k & Hk & Heq). exists k. split; [lia|]. by rewrite Hs in Heq.
  - exists (Z.of_nat (S n)). split; [lia|]. change (default l (head (replicate (S b) l ++ _))) with l.
    rewrite (sizes_from_step bits l (Z.of_nat (S n))), Hb by lia. do 2 f_equal. lia.
Qed.

Lemma codes_ok bits : safe (Forall2 code_fits (code_sizes bits)) (assign_codes 17 (code_sizes bits) 0 (default 0 (head (code_sizes bits)))).
Proof.
  rewrite code_sizes_from. destruct (sizes_head_from bits 16 1) as (k & Hk & Heq). change (Z.of_nat 16) with 16 in *.
  pose proof (sizes_from_range bits 1 16) as Hr. destruct (sizes_from bits 1 16) as [|s rest]; [cbn; constructor|].
  cbn [head default] in *. inversion Hr as [|? ? Hs _]; subst. cbv beta in Hs. rewrite Heq. apply (assign_codes_ok bits (Z.to_nat k)); unfold id; lia.
Qed.

Lemma sizes_count bits l k : Forall (fun b => 0 <= b) bits -> 0 < k -> Zlen (sizes_from bits l k) = at_ix bits l + Zlen (sizes_from bits (l + 1) (k - 1)).
Proof.
  intros Hb Hk. rewrite sizes_from_step by done. rewrite length_app, length_replicate.
  assert (0 <= at_ix bits l) as H.
  { unfold at_ix. destruct (decide (Z.to_nat l < length bits)%nat) as [Hl|Hl]; [by eapply Forall_nth in Hb|]. rewrite nth_overflow by lia. lia. }
  lia.
Qed.

Lemma lengths_ok bits codes n : Forall (fun b => 0 <= b) bits -> Zlen (sizes_from bits 1 16) = n -> Zlen codes = n ->
  safe (fun '(p, maxcode, valoffset) => Zlen maxcode = 18 /\ Zlen valoffset = 18)
    (fold_try (length_entry bits codes) (0, replicate 18 (-1), replicate 18 0) (seqZ 1 16)).
Proof.
  intros Hbits Hn Hcodes. eapply safe_weaken.
  - apply (safe_fold (fun l '(p, maxcode, valoffset) => p + Zlen (sizes_from bits l (17 - l)) = n /\ 0 <= p /\ Zlen maxcode = 18 /\ Zlen valoffset = 18));
      [lia|by rewrite !length_replicate|].
    intros l [[p mc] vo] Hl (Hp & Hp0 & Hmc & Hvo). unfold length_entry. rewrite sizes_count in Hp by (done || lia).
    replace (17 - l - 1) with (17 - (l + 1)) in Hp by lia. destruct (Z.ltb_spec 0 (at_ix bits l)) as [Hpos|Hle].
    + apply idx_then'; [lia|]. intros first _. eapply safe_bind; [by apply set_len; [exact Hvo|lia]|]. intros vo' Hvo'.
      apply idx_then'; [lia|]. intros last _. eapply safe_bind; [by apply set_len; [exact Hmc|lia]|]. intros mc' Hmc'. cbn [safe]. split; [lia|]. split; [lia|done].
    + cbn. unfold at_ix in *. assert (0 <= nth (Z.to_nat l) bits 0); [|lia].
      destruct (decide (Z.to_nat l < length bits)%nat) as [Hi|Hi]; [by eapply Forall_nth in Hbits|]. rewrite nth_overflow by lia. lia.
  - by intros [[p mc] vo] (_ & _ & ?).
Qed.

Lemma lookup_entry_ok (P : Z -> Prop) lookup size c v : Zlen lookup = 512 -> Forall (fun e => 0 <= e < 10 * 256 /\ P (e mod 256)) lookup ->
  1 <= size <= 16 -> code_fits size c -> is_byte v -> P v ->
  safe (E:=ImageError) (fun l => Zlen l = 512 /\ Forall (fun e => 0 <= e < 10 * 256 /\ P (e mod 256)) l) (lookup_entry lookup (size, c, v)).
Proof.
  intros Hlen Hall Hsize Hc Hv HP. unfold lookup_entry. destruct (Z.leb_spec size LOOKAHEAD) as [Hle|]; [|done]. cbv zeta. unfold LOOKAHEAD in *.
  unfold code_fits in Hc. apply safe_fold_all; [done|]. intros l k Hk%elem_of_seqZ [Hl HF]. rewrite Z.shiftl_1_l in Hk.
  rewrite !Z.shiftl_mul_pow2 by lia. assert (2 ^ size * 2 ^ (9 - size) = 512) as Hpow.
  { rewrite <- Z.pow_add_r by lia. by replace (size + (9 - size)) with 9 by lia. }
  eapply safe_weaken; [apply (idx_set_ok _ l _ _ HF)|]; [|nia|by intros k' [-> ?]].
  rewrite (Z.mul_comm size), lor_disjoint by (unfold is_byte in Hv; lia). unfold is_byte in Hv. split; [lia|].
  rewrite Z.add_comm, Z.mul_comm, Z.mod_add, Z.mod_small by lia. done.
Qed.

Lemma lookup_ok (P : Z -> Prop) sizes codes vals : Forall2 code_fits sizes codes -> Forall (fun s => 1 <= s < 1 + 16) sizes -> P 0 ->
  bytes_ok vals -> Forall P (take (length sizes) vals) ->
  safe (E:=ImageError) (fun l => Zlen l = 512 /\ Forall (fun e => 0 <= e < 10 * 256 /\ P (e mod 256)) l)
    (fold_try lookup_entry (replicate 512 0) (zip (zip sizes codes) vals)).
Proof.
  intros Hcodes Hsizes HP0 Hvals HP. apply safe_fold_all; [split; [done|by apply Forall_replicate; split; [lia|]]|].
  intros l [[size c] v] [i Hi]%list_elem_of_lookup [Hl HF]. apply lookup_zip_with_Some in Hi as ([size' c'] & v' & [= -> -> ->] & Hsc & Hv).
  apply lookup_zip_with_Some in Hsc as (s & c0 & [= -> ->] & Hs & Hc). apply lookup_entry_ok; [done|done| | | |].
  - eapply Forall_lookup_1 in Hsizes; [|exact Hs]. lia.
  - by eapply Forall2_lookup_lr in Hcodes.
  - by eapply Forall_lookup_1 in Hvals.
  - eapply Forall_lookup_1 in HP; [done|]. rewrite lookup_take_lt; [done|]. by eapply lookup_lt_Some.
Qed.

(** A value of a table of class DC is the length of a difference. *)
Definition symbol (dc : bool) (v : Z) : Prop := is_byte v /\ (dc = true -> v <= 15).

Lemma Huff_new_ok r dc : raw_ok r -> safe (huff_ok (symbol dc)) (Huff_new r dc).
Proof.
  intros [Hbits [Hlen Hbytes] Hrest]. unfold Huff_new. cbv zeta. destruct (256 <? _); [done|].
  eapply safe_bind; [apply codes_ok|]. intros codes Hcodes. pose proof (Forall2_length _ _ _ Hcodes) as Hn.
  eapply safe_bind; [by eapply lengths_ok; [..|by rewrite <- Hn]|]. intros [[p mc] vo] [Hmc Hvo].
  eapply safe_bind; [by apply (set_len 18); [|lia]|]. intros mc' Hmc'.
  pose proof (sizes_from_range (rh_bits r) 1 16 : Forall _ (code_sizes _)) as Hsizes.
  assert (bytes_ok (take (length (code_sizes (rh_bits r))) (rh_vals r))) as Htake by (by apply Forall_take).
  rewrite Nat2Z.id. destruct (dc && _) eqn:Hdc.
  - eapply safe_bind; [by apply (lookup_ok is_byte)|]. done.
  - assert (Forall (symbol dc) (take (length (code_sizes (rh_bits r))) (rh_vals r))) as Hsym.
    { apply Forall_forall. intros v Hv. split; [by eapply Forall_forall in Htake|]. intros ->. cbn [andb] in Hdc.
      destruct (Z.leb_spec v 15); [done|]. exfalso. apply not_true_iff_false in Hdc. apply Hdc. apply existsb_exists.
      exists v. split; [by apply list_elem_of_In|]. by apply Z.ltb_lt. }
    assert (symbol dc 0) as H0 by (split; [unfold is_byte; lia|lia]).
    eapply safe_bind; [by apply (lookup_ok (symbol dc))|]. intros lookup [Hl HF]. cbn [safe]. split; cbn; [done|done|done|done|done|].
    rewrite <- (take_drop (length (code_sizes (rh_bits r))) (rh_vals r)). apply Forall_app. split; [done|].
    eapply Forall_impl; [exact Hrest|]. by intros ? ->.
Qed.
