(* ===== verification/JpegScan.v ===== *)
(** Decoding a scan of a JPEG file (src/crates/mimo26-image/src/jpeg.rs): the blocks of
    sequential scans, the four kinds of progressive scan, restarts, and the zeros of a
    restart interval whose data ends early.  Then the blocks: no scan of one reads or writes
    outside it. *)
From Stdlib Require Import ZArith Lia Bool.
From stdpp Require Import base list gmap strings.
From S2P Require Import Prelude Utf8 Scan Base64 Exif JpegIdct JpegBits Buffers Png.

(** * Definitions *)

#[local] Abbreviation jpeg := (outcome ImageError).

(** [jpeg_natural_order] and sixteen entries of 63 for runs past the end. *)
Definition NATURAL : list Z := [
  0; 1; 8; 16; 9; 2; 3; 10; 17; 24; 32; 25; 18; 11; 4; 5; 12; 19; 26; 33; 40; 48; 41; 34; 27; 20;
  13; 6; 7; 14; 21; 28; 35; 42; 49; 56; 57; 50; 43; 36; 29; 22; 15; 23; 30; 37; 44; 51; 58; 59;
  52; 45; 38; 31; 39; 46; 53; 60; 61; 54; 47; 55; 62; 63; 63; 63; 63; 63; 63; 63; 63; 63; 63; 63;
  63; 63; 63; 63; 63; 63].

(** How a component is brought to the size of the image. *)
Inductive Up := Full | H2V1Fancy | H1V2Fancy | H2V2Fancy | Box (he ve : Z).

Record Comp := mkComp {
  cp_id : Z; cp_h : Z; cp_v : Z; cp_tq : Z; cp_dw : Z; cp_dh : Z; cp_bw : Z; cp_bh : Z; cp_pbw : Z; cp_pbh : Z; cp_up : Up;
  cp_q : option (list Z); cp_pred : Z; cp_coefs : list Z; cp_plane : list Z; cp_qraw : list Z; cp_coef_bits : list Z;
  cp_prev_coef_bits : list Z; cp_scanned : bool }.

Definition stride (c : Comp) : Z := cp_pbw c * 8.

Definition set_pred (v : Z) (c : Comp) : Comp :=
  mkComp (cp_id c) (cp_h c) (cp_v c) (cp_tq c) (cp_dw c) (cp_dh c) (cp_bw c) (cp_bh c) (cp_pbw c) (cp_pbh c) (cp_up c)
    (cp_q c) v (cp_coefs c) (cp_plane c) (cp_qraw c) (cp_coef_bits c) (cp_prev_coef_bits c) (cp_scanned c).
Definition set_coefs (v : list Z) (c : Comp) : Comp :=
  mkComp (cp_id c) (cp_h c) (cp_v c) (cp_tq c) (cp_dw c) (cp_dh c) (cp_bw c) (cp_bh c) (cp_pbw c) (cp_pbh c) (cp_up c)
    (cp_q c) (cp_pred c) v (cp_plane c) (cp_qraw c) (cp_coef_bits c) (cp_prev_coef_bits c) (cp_scanned c).
Definition set_plane (v : list Z) (c : Comp) : Comp :=
  mkComp (cp_id c) (cp_h c) (cp_v c) (cp_tq c) (cp_dw c) (cp_dh c) (cp_bw c) (cp_bh c) (cp_pbw c) (cp_pbh c) (cp_up c)
    (cp_q c) (cp_pred c) (cp_coefs c) v (cp_qraw c) (cp_coef_bits c) (cp_prev_coef_bits c) (cp_scanned c).
Definition set_coef_bits (v prev : list Z) (c : Comp) : Comp :=
  mkComp (cp_id c) (cp_h c) (cp_v c) (cp_tq c) (cp_dw c) (cp_dh c) (cp_bw c) (cp_bh c) (cp_pbw c) (cp_pbh c) (cp_up c)
    (cp_q c) (cp_pred c) (cp_coefs c) (cp_plane c) (cp_qraw c) v prev (cp_scanned c).

Record Frame := mkFrame {
  fr_width : Z; fr_height : Z; fr_progressive : bool; fr_comps : list Comp; fr_mcus_x : Z; fr_mcus_y : Z; fr_last_good : Z }.

Definition set_comps (v : list Comp) (f : Frame) : Frame :=
  mkFrame (fr_width f) (fr_height f) (fr_progressive f) v (fr_mcus_x f) (fr_mcus_y f) (fr_last_good f).
Definition set_last_good (v : Z) (f : Frame) : Frame :=
  mkFrame (fr_width f) (fr_height f) (fr_progressive f) (fr_comps f) (fr_mcus_x f) (fr_mcus_y f) v.

(** [frame.comps[ci]] and its update. *)
Definition comp_at (f : Frame) (ci : Z) : jpeg Comp := idx (fr_comps f) ci.
Definition update_comp (f : Frame) (ci : Z) (c : Comp) : jpeg Frame := comps ← idx_set (fr_comps f) ci c; Ok (set_comps comps f).

Inductive ScanKind := Sequential | DcFirst | DcRefine | AcFirst | AcRefine.

#[export] Instance ScanKind_eq_dec : EqDecision ScanKind.
Proof. solve_decision. Defined.

(** A scan: the components, the band and the bit position; [Ah] is only in its kind. *)
Record JScan := mkScan { sc_comps : list Z; sc_kind : ScanKind; sc_ss : Z; sc_se : Z; sc_al : Z }.

Section data.
Context (data : list Z).

(** ** Sequential blocks *)

(** [blk[NATURAL[k]] = v] *)
Definition put_natural (blk : list Z) (k v : Z) : jpeg (list Z) := n ← idx NATURAL k; idx_set blk n v.

(** The loop over the AC coefficients; [k] grows in each pass. *)
Fixpoint seq_loop (fuel : nat) (ac : Huff) (k : Z) (blk : list Z) (br : Bits) : jpeg (list Z * Bits) :=
  if k <? 64 then
    match fuel with
    | O => Panic
    | S fuel =>
      '(rs, br) ← huff data ac br;
      let r := Z.shiftr rs 4 in
      let s := Z.land rs 15 in
      if negb (s =? 0) then
        let k := k + r in
        '(v, br) ← get_bits data s br;
        blk ← put_natural blk k (as_i16 (extend v s));
        seq_loop fuel ac (k + 1) blk br
      else if negb (r =? 15) then Ok (blk, br)
      else seq_loop fuel ac (k + 15 + 1) blk br
    end
  else Ok (blk, br).

(** The block, the new prediction and the reader. *)
Definition seq_block (br : Bits) (dc ac : Huff) (pred : Z) (blk : list Z) : jpeg (list Z * Z * Bits) :=
  '(t, br) ← huff data dc br;
  '(v, br) ← get_bits data t br;
  let pred := as_i32 (pred + extend v t) in
  blk ← idx_set blk 0 (as_i16 pred);
  '(blk, br) ← seq_loop 63 ac 1 blk br;
  Ok (blk, pred, br).

(** ** Progressive blocks *)

Fixpoint ac_first_loop (fuel : nat) (ac : Huff) (scan : JScan) (k eobrun : Z) (coef : list Z) (br : Bits)
    : jpeg (Z * list Z * Bits) :=
  if k <=? sc_se scan then
    match fuel with
    | O => Panic
    | S fuel =>
      '(rs, br) ← huff data ac br;
      let r := Z.shiftr rs 4 in
      let s := Z.land rs 15 in
      if negb (s =? 0) then
        let k := k + r in
        '(v, br) ← get_bits data s br;
        coef ← put_natural coef k (as_i16 (Z.shiftl (extend v s) (sc_al scan)));
        ac_first_loop fuel ac scan (k + 1) eobrun coef br
      else if r =? 15 then ac_first_loop fuel ac scan (k + 15 + 1) eobrun coef br
      else
        let run := Z.shiftl 1 r in
        '(more, br) ← (if negb (r =? 0) then get_bits data r br else Ok (0, br));
        Ok (run + more - 1, coef, br)
    end
  else Ok (eobrun, coef, br).

Definition ac_first (br : Bits) (ac : Huff) (scan : JScan) (eobrun : Z) (coef : list Z) : jpeg (Z * list Z * Bits) :=
  if 0 <? eobrun then Ok (eobrun - 1, coef, br)
  else ac_first_loop 64 ac scan (sc_ss scan) eobrun coef br.

(** [coef[NATURAL[k]]] *)
Definition at_natural (coef : list Z) (k : Z) : jpeg Z := n ← idx NATURAL k; idx coef n.

(** The closure [refine], on the coefficient of value [c] at [k]. *)
Definition refine (p1 m1 : Z) (br : Bits) (coef : list Z) (k c : Z) : jpeg (list Z * Bits) :=
  '(bit, br) ← get_bits data 1 br;
  if negb (bit =? 0) && (as_i16 (Z.land c p1) =? 0) then
    coef ← put_natural coef k (if 0 <=? c then as_i16 (c + p1) else as_i16 (c + m1));
    Ok (coef, br)
  else Ok (coef, br).

(** The inner loop: passes [r] zeros and refines the others. *)
Fixpoint refine_run (fuel : nat) (p1 m1 se r k : Z) (coef : list Z) (br : Bits) : jpeg (Z * list Z * Bits) :=
  match fuel with
  | O => Panic
  | S fuel =>
    c ← at_natural coef k;
    if negb (c =? 0) then
      '(coef, br) ← refine p1 m1 br coef k c;
      if se <? k + 1 then Ok (k + 1, coef, br) else refine_run fuel p1 m1 se r (k + 1) coef br
    else
      if r - 1 <? 0 then Ok (k, coef, br)
      else if se <? k + 1 then Ok (k + 1, coef, br)
      else refine_run fuel p1 m1 se (r - 1) (k + 1) coef br
  end.

(** The band up to the end of a run of blocks: the position, the run that is left. *)
Fixpoint ac_refine_loop (fuel : nat) (ac : Huff) (p1 m1 se k eobrun : Z) (coef : list Z) (br : Bits)
    : jpeg (Z * Z * list Z * Bits) :=
  if k <=? se then
    match fuel with
    | O => Panic
    | S fuel =>
      '(rs, br) ← huff data ac br;
      let r := Z.shiftr rs 4 in
      let s := Z.land rs 15 in
      if (s =? 0) && negb (r =? 15) then
        let run := Z.shiftl 1 r in
        '(more, br) ← (if negb (r =? 0) then get_bits data r br else Ok (0, br));
        Ok (k, run + more, coef, br)
      else
        '(newval, br) ← (if negb (s =? 0) then
            '(bit, br) ← get_bits data 1 br; Ok (if negb (bit =? 0) then p1 else m1, br)
          else Ok (0, br));
        '(k, coef, br) ← refine_run 65 p1 m1 se r k coef br;
        coef ← (if negb (newval =? 0) then put_natural coef k newval else Ok coef);
        ac_refine_loop fuel ac p1 m1 se (k + 1) eobrun coef br
    end
  else Ok (k, eobrun, coef, br).

(** What a run of blocks leaves of the band is only refined. *)
Definition refine_rest (p1 m1 se k : Z) (coef : list Z) (br : Bits) : jpeg (list Z * Bits) :=
  fold_try (fun st k =>
    let '(coef, br) := st in
    c ← at_natural coef k;
    if negb (c =? 0) then refine p1 m1 br coef k c else Ok (coef, br)) (coef, br) (seqZ k (se + 1 - k)).

Definition ac_refine (br : Bits) (ac : Huff) (scan : JScan) (eobrun : Z) (coef : list Z) : jpeg (Z * list Z * Bits) :=
  let p1 := as_i16 (Z.shiftl 1 (sc_al scan)) in
  let m1 := as_i16 (Z.shiftl (-1) (sc_al scan)) in
  let se := sc_se scan in
  '(k, eobrun, coef, br) ← (if eobrun =? 0 then ac_refine_loop 64 ac p1 m1 se (sc_ss scan) eobrun coef br
                            else Ok (sc_ss scan, eobrun, coef, br));
  if 0 <? eobrun then
    '(coef, br) ← refine_rest p1 m1 se k coef br;
    Ok (eobrun - 1, coef, br)
  else Ok (eobrun, coef, br).

(** ** The scan *)

Record ScanState := mkState {
  ss_br : Bits; ss_frame : Frame; ss_eobrun : Z; ss_insufficient : bool; ss_restarts_left : Z; ss_next_rst : Z }.

Definition table (ts : list (option Huff)) (si : Z) : jpeg Huff :=
  t ← idx ts si; ok_or t (BadJpeg "missing Huffman table").

Definition in_i32 (v : Z) : bool := (- 2 ^ 31 <=? v) && (v <? 2 ^ 31).

(** The coefficients of one block of a progressive scan: the new prediction, the run. *)
Definition progressive_block (scan : JScan) (dc_t ac_t : list (option Huff)) (si pred eobrun : Z) (coef : list Z) (br : Bits)
    : jpeg (Z * Z * list Z * Bits) :=
  match sc_kind scan with
  | Sequential | AcRefine =>
    ac ← table ac_t si;
    '(eobrun, coef, br) ← ac_refine br ac scan eobrun coef;
    Ok (pred, eobrun, coef, br)
  | DcFirst =>
    dc ← table dc_t si;
    '(t, br) ← huff data dc br;
    '(v, br) ← get_bits data t br;
    let p := pred + extend v t in
    if in_i32 p then
      coef ← idx_set coef 0 (as_i16 (Z.shiftl p (sc_al scan)));
      Ok (p, eobrun, coef, br)
    else Err (BadJpeg "DC coefficient overflow")
  | DcRefine =>
    '(bit, br) ← get_bits data 1 br;
    if negb (bit =? 0) then
      c ← idx coef 0;
      coef ← idx_set coef 0 (as_i16 (Z.lor c (as_i16 (Z.shiftl 1 (sc_al scan)))));
      Ok (pred, eobrun, coef, br)
    else Ok (pred, eobrun, coef, br)
  | AcFirst =>
    ac ← table ac_t si;
    '(eobrun, coef, br) ← ac_first br ac scan eobrun coef;
    Ok (pred, eobrun, coef, br)
  end.

(** One block of component [ci] (the scan's [si]-th) at [row] and [col]. *)
Definition scan_block (scan : JScan) (dc_t ac_t : list (option Huff)) (si ci : Z) (st : ScanState) (rc : Z * Z) : jpeg ScanState :=
  let '(row, col) := rc in
  c ← comp_at (ss_frame st) ci;
  match sc_kind scan with
  | Sequential =>
    '(blk, pred, br) ← (if negb (ss_insufficient st) then
        dc ← table dc_t si;
        ac ← table ac_t si;
        seq_block (ss_br st) dc ac (cp_pred c) (replicate 64 0)
      else Ok (replicate 64 0, cp_pred c, ss_br st));
    match cp_q c with
    | None => Panic
    | Some q =>
      plane ← idct_islow blk q (cp_plane c) (row * 8 * stride c + col * 8) (stride c);
      frame ← update_comp (ss_frame st) ci (set_plane plane (set_pred pred c));
      Ok (mkState br frame (ss_eobrun st) (ss_insufficient st) (ss_restarts_left st) (ss_next_rst st))
    end
  | _ =>
    if ss_insufficient st then Ok st
    else
      let b := (row * cp_pbw c + col) * 64 in
      coef ← index_range (cp_coefs c) b (b + 64);
      '(pred, eobrun, coef, br) ← progressive_block scan dc_t ac_t si (cp_pred c) (ss_eobrun st) coef (ss_br st);
      frame ← update_comp (ss_frame st) ci (set_coefs (splice (cp_coefs c) b coef) (set_pred pred c));
      Ok (mkState br frame eobrun (ss_insufficient st) (ss_restarts_left st) (ss_next_rst st))
  end.

(** [for by in 0..nv { for bx in 0..nh { .. } }]: where the blocks of an MCU are. *)
Definition blocks_at (ns my mx : Z) (c : Comp) : list (Z * Z) :=
  if ns =? 1 then [(my, mx)]
  else concat ((fun by_ => (fun bx => (my * cp_v c + by_, mx * cp_h c + bx)) <$> seqZ 0 (cp_h c)) <$> seqZ 0 (cp_v c)).

Definition scan_comp (scan : JScan) (dc_t ac_t : list (option Huff)) (my mx : Z) (st : ScanState) (sc : Z * Z) : jpeg ScanState :=
  let '(si, ci) := sc in
  c ← comp_at (ss_frame st) ci;
  fold_try (scan_block scan dc_t ac_t si ci) st (blocks_at (Zlen (sc_comps scan)) my mx c).

(** [for &ci in &scan.comps { frame.comps[ci].pred = 0 }] *)
Definition zero_preds (frame : Frame) (comps : list Z) : jpeg Frame :=
  fold_try (fun frame ci => c ← comp_at frame ci; update_comp frame ci (set_pred 0 c)) frame comps.

(** The restart before an MCU, when an interval is set. *)
Definition maybe_restart (restart_interval : Z) (scan : JScan) (st : ScanState) : jpeg ScanState :=
  if 0 <? restart_interval then
    st ← (if ss_restarts_left st =? 0 then
        '(pending, br) ← restart data (ss_next_rst st) (ss_br st);
        frame ← zero_preds (ss_frame st) (sc_comps scan);
        Ok (mkState br frame 0 (if negb pending then false else ss_insufficient st) restart_interval (Z.land (ss_next_rst st + 1) 7))
      else Ok st);
    Ok (mkState (ss_br st) (ss_frame st) (ss_eobrun st) (ss_insufficient st) (ss_restarts_left st - 1) (ss_next_rst st))
  else Ok st.

Definition scan_mcu (restart_interval : Z) (scan : JScan) (dc_t ac_t : list (option Huff)) (rows_per_imcu : Z) (st : ScanState)
    (yx : Z * Z) : jpeg ScanState :=
  let '(my, mx) := yx in
  let frame := if negb (ss_insufficient st) then set_last_good (my / rows_per_imcu) (ss_frame st) else ss_frame st in
  st ← maybe_restart restart_interval scan
         (mkState (ss_br st) frame (ss_eobrun st) (ss_insufficient st) (ss_restarts_left st) (ss_next_rst st));
  st ← fold_try (scan_comp scan dc_t ac_t my mx) st (zip (seqZ 0 (Zlen (sc_comps scan))) (sc_comps scan));
  if negb (ss_insufficient st) && overrun (ss_br st) then
    match bt_marker_at (ss_br st) with
    | None => Err (BadJpeg "entropy-coded data ends early")
    | Some _ => Ok (mkState (ss_br st) (ss_frame st) (ss_eobrun st) true (ss_restarts_left st) (ss_next_rst st))
    end
  else Ok st.

(** Where marker parsing resumes, and the frame. *)
Definition decode_scan (pos restart_interval : Z) (frame : Frame) (scan : JScan) (dc_t ac_t : list (option Huff)) : jpeg (Z * Frame) :=
  let ns := Zlen (sc_comps scan) in
  '(mcus_x, mcus_y, rows_per_imcu) ← (if ns =? 1 then
      ci ← idx (sc_comps scan) 0;
      c ← comp_at frame ci;
      Ok (cp_bw c, cp_bh c, cp_v c)
    else Ok (fr_mcus_x frame, fr_mcus_y frame, 1));
  frame ← zero_preds frame (sc_comps scan);
  st ← fold_try (fun st my =>
    fold_try (fun st mx => scan_mcu restart_interval scan dc_t ac_t rows_per_imcu st (my, mx)) st (seqZ 0 mcus_x))
    (mkState (Bits_new pos) frame 0 false restart_interval 0) (seqZ 0 mcus_y);
  Ok (default (bt_pos (ss_br st)) (bt_marker_at (ss_br st)), ss_frame st).
End data.

(** * The inverse DCT writes eight rows of eight bytes *)

Lemma sample_byte v : is_byte (sample v).
Proof. unfold sample. apply is_byte_mod. Qed.

Lemma idct_row_ok w : sized 8 (idct_row w).
Proof.
  unfold idct_row. destruct (all_zero _); split; try reflexivity.
  - apply Forall_replicate, sample_byte.
  - unfold dodct. apply Forall_fmap, Forall_fmap, Forall_forall. intros x _. apply sample_byte.
Qed.

Lemma idct_rows_ok coef q : Forall (sized 8) (idct_rows coef q).
Proof.
  unfold idct_rows. cbv zeta. destruct (all_zero _); [apply Forall_replicate, idct_row_ok|].
  apply Forall_fmap, Forall_forall. intros r _. apply idct_row_ok.
Qed.

Lemma idct_islow_ok n coef q out off stride : sized n out -> 0 <= off -> 0 <= stride -> off + 7 * stride + 8 <= n ->
  safe (sized n) (idct_islow coef q out off stride).
Proof.
  intros Hout Hoff Hstride Hend. unfold idct_islow. eapply range_then; [exact Hout|lia|destruct Hout; lia|destruct Hout; lia|]. intros _ _.
  apply safe_fold_all; [done|]. intros o [r row] [i Hi]%list_elem_of_lookup Ho. apply lookup_zip_with_Some in Hi as (r' & row' & [= -> ->] & Hr & Hrow).
  apply lookup_seqZ in Hr as [-> Hr]. assert (sized 8 row') as Hsz by (eapply Forall_lookup_1 in Hrow; [exact Hrow|apply idct_rows_ok]).
  cbn [fst snd]. unfold put_row. rewrite (proj1 Hsz). eapply range_then; [exact Ho|nia|lia|nia|]. intros _ _. cbn [safe].
  apply sized_splice with (m := 8); [done|done|nia|nia].
Qed.

(** * Blocks *)

Lemma nibble_range x : is_byte x -> 0 <= Z.shiftr x 4 <= 15 /\ 0 <= Z.land x 15 <= 15.
Proof.
  unfold is_byte. intros Hx. rewrite Z.shiftr_div_pow2 by lia. change (Z.land x 15) with (Z.land x (Z.ones 4)). rewrite Z.land_ones by lia.
  pose proof (Z.mod_pos_bound x (2 ^ 4)). Z.div_mod_to_equations. lia.
Qed.

Lemma natural_inside : Forall (fun n => 0 <= n < 64) NATURAL.
Proof. apply (bool_decide_unpack _). vm_compute. exact I. Qed.

Lemma put_natural_ok blk k v : Zlen blk = 64 -> 0 <= k < 80 -> safe (fun b => Zlen b = 64) (put_natural blk k v).
Proof.
  intros Hb Hk. unfold put_natural. apply (idx_then _ _ _ _ _ natural_inside); [exact Hk|]. intros n _ Hn. by apply set_len.
Qed.

Section data.
Context (data : list Z) (Hdata : bytes_ok data) (lo : Z).

Lemma seq_loop_ok n ac k blk br : huff_ok (symbol false) ac -> bits_ok lo br -> Zlen blk = 64 -> 1 <= k -> 64 - k <= Z.of_nat n ->
  safe (fun '(blk, br) => Zlen blk = 64 /\ bits_ok lo br) (seq_loop data n ac k blk br).
Proof.
  intros Hac. revert k blk br. induction n as [|n IH]; intros k blk br Hbr Hblk Hk Hn; cbn [seq_loop];
    (destruct (Z.ltb_spec k 64); [|by split]); [lia|].
  eapply huff_then; [done..|]. intros rs br1 Hbr1 [Hrs _]. cbv zeta. destruct (nibble_range rs Hrs) as [Hr Hs]. destruct (negb (_ =? 0)).
  - eapply get_bits_then; [done|exact Hbr1|lia|]. intros v br2 Hbr2 _. eapply safe_bind; [apply put_natural_ok; [done|lia]|].
    intros blk' Hblk'. apply IH; [done|done|lia|lia].
  - destruct (negb _); [done|]. apply IH; [done|done|lia|lia].
Qed.

Lemma seq_block_ok dc ac pred blk br : huff_ok (symbol true) dc -> huff_ok (symbol false) ac -> bits_ok lo br -> Zlen blk = 64 ->
  safe (fun '(blk, _, br) => Zlen blk = 64 /\ bits_ok lo br) (seq_block data br dc ac pred blk).
Proof.
  intros Hdc Hac Hbr Hblk. unfold seq_block. eapply huff_then; [done..|]. intros t br1 Hbr1 [Ht Ht15]. specialize (Ht15 eq_refl). unfold is_byte in Ht.
  eapply get_bits_then; [done|exact Hbr1|lia|]. intros v br2 Hbr2 _. cbv zeta.
  eapply safe_bind; [by apply (set_len 64); [|lia]|]. intros blk1 Hblk1.
  eapply safe_bind; [by apply seq_loop_ok; [| | |lia|lia]|]. by intros [blk2 br3] [? ?].
Qed.

(** The coefficients of a block, and the reader. *)
Definition block_ok (coef : list Z) (br : Bits) : Prop := Zlen coef = 64 /\ bits_ok lo br.

Lemma run_bits {B} r br (k : Z * Bits -> outcome ImageError B) (Q : B -> Prop) : 0 <= r <= 15 -> bits_ok lo br ->
  (forall v b', bits_ok lo b' -> safe Q (k (v, b'))) -> safe Q ((if negb (r =? 0) then get_bits data r br else Ok (0, br)) ≫= k).
Proof.
  intros Hr Hbr Hk. destruct (negb (r =? 0)); [|by apply Hk]. eapply get_bits_then; [done|exact Hbr|lia|]. auto.
Qed.

Lemma ac_first_loop_ok n ac scan k eobrun coef br : huff_ok (symbol false) ac -> block_ok coef br -> 0 <= k -> sc_se scan <= 63 ->
  sc_se scan + 1 - k <= Z.of_nat n -> safe (fun '(_, coef, br) => block_ok coef br) (ac_first_loop data n ac scan k eobrun coef br).
Proof.
  intros Hac. revert k coef br. induction n as [|n IH]; intros k coef br [Hc Hbr] Hk Hse Hn; cbn [ac_first_loop];
    (destruct (Z.leb_spec k (sc_se scan)); [|by split]); [lia|].
  eapply huff_then; [done..|]. intros rs br1 Hbr1 [Hrs _]. cbv zeta. destruct (nibble_range rs Hrs) as [Hr Hs]. destruct (negb (Z.land rs 15 =? 0)).
  - eapply get_bits_then; [done|exact Hbr1|lia|]. intros v br2 Hbr2 _. eapply safe_bind; [apply put_natural_ok; [done|lia]|].
    intros coef' Hc'. apply IH; [done|lia|done|lia].
  - destruct (_ =? 15); [apply IH; [done|lia|done|lia]|]. by apply run_bits.
Qed.

Lemma ac_first_ok ac scan eobrun coef br : huff_ok (symbol false) ac -> block_ok coef br -> 0 <= sc_ss scan -> sc_se scan <= 63 ->
  safe (fun '(_, coef, br) => block_ok coef br) (ac_first data br ac scan eobrun coef).
Proof. intros. unfold ac_first. destruct (0 <? eobrun); [done|]. apply ac_first_loop_ok; [done..|lia]. Qed.

Lemma at_natural_then {B} coef k (g : Z -> outcome ImageError B) (Q : B -> Prop) : Zlen coef = 64 -> 0 <= k < 80 ->
  (forall c, safe Q (g c)) -> safe Q (at_natural coef k ≫= g).
Proof.
  intros Hc Hk Hg. eapply (safe_bind (fun _ => True)); [|auto]. unfold at_natural.
  apply (idx_then _ _ _ _ _ natural_inside); [exact Hk|]. intros n _ Hn. by destruct (idx_in (E:=ImageError) coef n) as (x & _ & ->); [lia|].
Qed.

Lemma refine_ok p1 m1 br coef k c : block_ok coef br -> 0 <= k < 80 -> safe (fun '(coef, br) => block_ok coef br) (refine data p1 m1 br coef k c).
Proof.
  intros [Hc Hbr] Hk. unfold refine. eapply get_bits_then; [done|exact Hbr|lia|]. intros bit br1 Hbr1 _. destruct (_ && _); [|done].
  eapply safe_bind; [by apply put_natural_ok|]. done.
Qed.

Lemma refine_run_ok n p1 m1 se r k coef br : block_ok coef br -> 0 <= k <= se -> se <= 63 -> se + 1 - k <= Z.of_nat n ->
  safe (fun '(k', coef, br) => k <= k' <= se + 1 /\ block_ok coef br) (refine_run data n p1 m1 se r k coef br).
Proof.
  revert r k coef br. induction n as [|n IH]; intros r k coef br Hb Hk Hse Hn; [lia|]. cbn [refine_run].
  apply at_natural_then; [apply Hb|lia|]. intros c. destruct (negb (c =? 0)).
  - eapply safe_bind; [apply refine_ok; [done|lia]|]. intros [coef' br'] Hb'. destruct (Z.ltb_spec se (k + 1)); [cbn; split; [lia|done]|].
    eapply safe_weaken; [apply IH; [done|lia|done|lia]|]. intros [[k' c'] b'] [? ?]. split; [lia|done].
  - destruct (_ <? 0); [cbn; split; [lia|done]|]. destruct (Z.ltb_spec se (k + 1)); [cbn; split; [lia|done]|].
    eapply safe_weaken; [apply IH; [done|lia|done|lia]|]. intros [[k' c'] b'] [? ?]. split; [lia|done].
Qed.

Lemma ac_refine_loop_ok n ac p1 m1 se k eobrun coef br : huff_ok (symbol false) ac -> block_ok coef br -> 0 <= k -> se <= 63 ->
  se + 1 - k <= Z.of_nat n -> safe (fun '(k', _, coef, br) => 0 <= k' /\ block_ok coef br) (ac_refine_loop data n ac p1 m1 se k eobrun coef br).
Proof.
  intros Hac. revert k coef br. induction n as [|n IH]; intros k coef br Hb Hk Hse Hn; cbn [ac_refine_loop];
    (destruct (Z.leb_spec k se); [|by split]); [lia|].
  eapply huff_then; [done|done|apply Hb|]. intros rs br1 Hbr1 [Hrs _]. cbv zeta. destruct (nibble_range rs Hrs) as [Hr Hs]. destruct (_ && _).
  { apply run_bits; [lia|exact Hbr1|]. intros v b' Hb'. split; [lia|]. split; [apply Hb|exact Hb']. }
  eapply (safe_bind (fun '(_, br) => bits_ok lo br)).
  { destruct (negb _); [|done]. eapply get_bits_then; [done|exact Hbr1|lia|]. done. }
  intros [newval br2] Hbr2. eapply safe_bind; [apply refine_run_ok; [split; [apply Hb|exact Hbr2]|lia|done|lia]|].
  intros [[k' coef'] br3] [Hk' [Hc' Hbr3]]. eapply (safe_bind (fun c => Zlen c = 64)); [destruct (negb _); [apply put_natural_ok; [done|lia]|done]|].
  intros coef2 Hc2. apply IH; [done|lia|done|lia].
Qed.

Lemma ac_refine_ok ac scan eobrun coef br : huff_ok (symbol false) ac -> block_ok coef br -> 0 <= sc_ss scan -> sc_se scan <= 63 ->
  safe (fun '(_, coef, br) => block_ok coef br) (ac_refine data br ac scan eobrun coef).
Proof.
  intros Hac Hb Hss Hse. unfold ac_refine. cbv zeta. eapply (safe_bind (fun '(k, _, coef, br) => 0 <= k /\ block_ok coef br)).
  { destruct (eobrun =? 0); [|done]. by apply ac_refine_loop_ok; [..|lia]. }
  intros [[[k e] c] b] [Hk Hcb]. destruct (0 <? e); [|done]. eapply (safe_bind (fun '(coef, br) => block_ok coef br)); [|by intros [? ?]].
  unfold refine_rest. apply (safe_fold_all (fun '(coef, br) => block_ok coef br)); [done|]. intros [c' b'] j Hj%elem_of_seqZ Hb'.
  apply at_natural_then; [apply Hb'|lia|]. intros x. destruct (negb _); [|done]. apply refine_ok; [done|lia].
Qed.
End data.
