(* ===== verification/Jpeg.v ===== *)
(** The JPEG decoder (src/crates/mimo26-image/src/jpeg.rs): markers and their segments, frame
    and scan headers, the smoothing of unfinished progressive images, upsampling and the
    conversion to RGB.  The scans are in JpegScan.v, the bits and the Huffman tables in
    JpegBits.v, the inverse DCT in JpegIdct.v. *)
From Stdlib Require Import ZArith Lia Bool.
From stdpp Require Import base list gmap strings.
From S2P Require Import Prelude Utf8 Scan Base64 Exif Png JpegIdct JpegBits JpegScan.

(** * Definitions *)

#[local] Abbreviation jpeg := (outcome ImageError).

Inductive Color := Gray | YCbCr | Rgb.

#[export] Instance Color_eq_dec : EqDecision Color.
Proof. solve_decision. Defined.

(** [usize::div_ceil] *)
Definition div_up (a b : Z) : Z := (a + b - 1) / b.

(** ** Block smoothing *)

(** The first ten coefficients, whose quantizers must not be zero. *)
Definition SMOOTHED : list Z := [0; 1; 8; 16; 9; 2; 3; 10; 17; 24].

(** Per component, the bits of the coefficients at the latest scan and at the one before. *)
Definition component_latch (scans : Z) (c : Comp) : option (list Z * list Z * bool) :=
  _ ← cp_q c;
  if existsb (fun i => at_ix (cp_qraw c) i =? 0) SMOOTHED then None
  else if at_ix (cp_coef_bits c) 0 <? 0 then None
  else
    let latch := (fun k => at_ix (cp_coef_bits c) k) <$> seqZ 0 10 in
    let prev := 0 :: ((fun k => if 1 <? scans then at_ix (cp_prev_coef_bits c) k else -1) <$> seqZ 1 9) in
    Some (latch, prev, existsb (fun b => negb (b =? 0)) (drop 1 latch)).

Definition smoothing_latches (frame : Frame) (scans : Z) : option (list (list Z * list Z)) :=
  latches ← mapM (component_latch scans) (fr_comps frame);
  if existsb snd latches then Some (fst <$> latches) else None.

(** The closure [pred]: a quantized estimate kept below the bits that are known. *)
Definition estimate (num qk al : Z) : jpeg Z :=
  if qk =? 0 then Panic
  else
    let p := (Z.shiftl qk 7 + Z.abs num) / Z.shiftl qk 8 in
    let p := if (0 <? al) && (Z.shiftl 1 al <=? p) then Z.shiftl 1 al - 1 else p in
    Ok (as_i16 (if num <? 0 then - p else p)).

(** The weights of the neighbours' DC values, [(n, w)] for [w * dc(n)]. *)
Definition weigh (d : list Z) (terms : list (Z * Z)) : Z := foldr (fun nw acc => at_ix d (fst nw - 1) * snd nw + acc) 0 terms.

Definition AC01_DC : list (Z * Z) :=
  [(1, -1); (2, -1); (4, 1); (5, 1); (6, -3); (7, 13); (9, -13); (10, 3); (11, -3); (12, 38); (14, -38); (15, 3); (16, -3);
   (17, 13); (19, -13); (20, 3); (21, -1); (22, -1); (24, 1); (25, 1)].
Definition AC01 : list (Z * Z) := [(11, -7); (12, 50); (14, -50); (15, 7)].
Definition AC10_DC : list (Z * Z) :=
  [(1, -1); (2, -3); (3, -3); (4, -3); (5, -1); (6, -1); (7, 13); (8, 38); (9, 13); (10, -1); (16, 1); (17, -13); (18, -38);
   (19, -13); (20, 1); (21, 1); (22, 3); (23, 3); (24, 3); (25, 1)].
Definition AC10 : list (Z * Z) := [(3, -7); (8, 50); (18, -50); (23, 7)].
Definition AC20_DC : list (Z * Z) :=
  [(3, 1); (7, 2); (8, 7); (9, 2); (12, -5); (13, -14); (14, -5); (17, 2); (18, 7); (19, 2); (23, 1)].
Definition AC20 : list (Z * Z) := [(3, -1); (8, 13); (13, -24); (18, 13); (23, -1)].
Definition AC11_DC : list (Z * Z) := [(1, -1); (5, 1); (7, 9); (9, -9); (17, -9); (19, 9); (21, 1); (25, -1)].
Definition AC11 : list (Z * Z) :=
  [(10, 1); (16, 1); (17, -10); (19, 10); (2, -1); (20, -1); (22, 1); (24, -1); (4, 1); (6, -1); (7, 10); (9, -10)].
Definition AC02_DC : list (Z * Z) :=
  [(7, 2); (8, -5); (9, 2); (11, 1); (12, 7); (13, -14); (14, 7); (15, 1); (17, 2); (18, -5); (19, 2)].
Definition AC02 : list (Z * Z) := [(11, -1); (12, 13); (13, -24); (14, 13); (15, -1)].
Definition AC03 : list (Z * Z) := [(7, 1); (9, -1); (12, 2); (14, -2); (17, 1); (19, -1)].
Definition AC12 : list (Z * Z) := [(7, 1); (8, -3); (9, 1); (17, -1); (18, 3); (19, -1)].
Definition AC21 : list (Z * Z) := [(7, 1); (9, -1); (12, -3); (14, 3); (17, 1); (19, -1)].
Definition AC30 : list (Z * Z) := [(7, 1); (8, 2); (9, 1); (17, -1); (18, -2); (19, -1)].
Definition DC00 : list (Z * Z) :=
  [(1, -2); (2, -6); (3, -8); (4, -6); (5, -2); (6, -6); (7, 6); (8, 42); (9, 6); (10, -6); (11, -8); (12, 42); (13, 152);
   (14, 42); (15, -8); (16, -6); (17, 6); (18, 42); (19, 6); (20, -6); (21, -2); (22, -6); (23, -8); (24, -6); (25, -2)].

(** One estimate: coefficient [k] of natural order, the [i]-th of the latched bits. *)
Definition smooth_coef (d bits q ws : list Z) (ik : Z * Z * list (Z * Z)) : jpeg (list Z) :=
  let '(i, k, terms) := ik in
  if negb (at_ix bits i =? 0) && (at_ix ws k =? 0) then
    p ← estimate (at_ix q 0 * weigh d terms) (at_ix q k) (at_ix bits i);
    idx_set ws k p
  else Ok ws.

Definition smooth_block (ws d bits : list Z) (change_dc : bool) (q : list Z) : jpeg (list Z) :=
  let w := fun a b : list (Z * Z) => if change_dc then a else b in
  ws ← fold_try (smooth_coef d bits q) ws
         [(1, 1, w AC01_DC AC01); (2, 8, w AC10_DC AC10); (3, 16, w AC20_DC AC20); (4, 9, w AC11_DC AC11); (5, 2, w AC02_DC AC02)];
  if change_dc then
    ws ← fold_try (smooth_coef d bits q) ws [(6, 3, AC03); (7, 10, AC12); (8, 17, AC21); (9, 24, AC30)];
    p ← estimate (at_ix q 0 * weigh d DC00) (at_ix q 0) 0;
    idx_set ws 0 p
  else Ok ws.

(** The DC of block column [cc] of block row [rr]. *)
Definition dc_at (c : Comp) (rr cc : Z) : jpeg Z := idx (cp_coefs c) ((rr * cp_pbw c + cc) * 64).

Definition smooth_at (q bits : list Z) (change_dc : bool) (rows : list Z) (row : Z) (c : Comp) (col : Z) : jpeg Comp :=
  let last_col := cp_bw c - 1 in
  d ← mapM (fun rj => dc_at c (fst rj) (clamp (col + snd rj - 2) 0 last_col)) (concat ((fun rr => (fun j => (rr, j)) <$> seqZ 0 5) <$> rows));
  let base := (row * cp_pbw c + col) * 64 in
  ws ← index_range (cp_coefs c) base (base + 64);
  ws ← smooth_block ws d bits change_dc (cp_qraw c);
  plane ← idct_islow ws q (cp_plane c) (row * 8 * stride c + col * 8) (stride c);
  Ok (set_plane plane c).

(** A block row: the rows above and below it that its estimates look at. *)
Definition smooth_row (q bits : list Z) (change_dc : bool) (total_rows r block_rows : Z) (c : Comp) (b : Z) : jpeg Comp :=
  let image_block_rows := block_rows * total_rows in
  let ibr := r * block_rows + b in
  let row := r * cp_v c + b in
  let prev := if 0 <? ibr then row - 1 else row in
  let pprev := if 1 <? ibr then row - 2 else prev in
  let next := if ibr <? image_block_rows - 1 then row + 1 else row in
  let nnext := if ibr <? image_block_rows - 2 then row + 2 else next in
  fold_try (smooth_at q bits change_dc [pprev; prev; row; next; nnext] row) c (seqZ 0 (cp_bw c)).

Definition smooth_imcu_row (q : list Z) (latch : list Z * list Z) (total_rows last_good : Z) (c : Comp) (r : Z) : jpeg Comp :=
  let block_rows := if r + 1 <? total_rows then cp_v c else if cp_bh c mod cp_v c =? 0 then cp_v c else cp_bh c mod cp_v c in
  let bits := if last_good <? r then snd latch else fst latch in
  let change_dc := forallb (fun b => b =? -1) (drop 1 bits) in
  fold_try (smooth_row q bits change_dc total_rows r block_rows) c (seqZ 0 block_rows).

Definition idct_smoothed (c : Comp) (latch : list Z * list Z) (total_rows last_good : Z) : jpeg Comp :=
  let q := default (replicate 64 0) (cp_q c) in
  fold_try (smooth_imcu_row q latch total_rows last_good) c (seqZ 0 total_rows).

(** ** Upsampling *)

(** [&plane[r * stride..r * stride + c.dw]] *)
Definition plane_row (c : Comp) (r : Z) : jpeg (list Z) := index_range (cp_plane c) (r * stride c) (r * stride c + cp_dw c).

Definition saturating_pred (x : Z) : Z := Z.max 0 (x - 1).

Definition h2v1_fancy (src out : list Z) : jpeg (list Z) :=
  let n := Zlen src in
  fold_try (fun out x =>
    s ← idx src x;
    p ← idx src (saturating_pred x);
    nx ← idx src (Z.min (x + 1) (n - 1));
    out ← idx_set out (2 * x) (Z.shiftr (3 * s + p + 1) 2 mod 256);
    idx_set out (2 * x + 1) (Z.shiftr (3 * s + nx + 2) 2 mod 256)) out (seqZ 0 n).

Definition h1v2_fancy (near far : list Z) (bias : Z) (buf : list Z) (dw : Z) : jpeg (list Z) :=
  fold_try (fun buf x =>
    a ← idx near x;
    b ← idx far x;
    idx_set buf x (Z.shiftr (3 * a + b + bias) 2 mod 256)) buf (seqZ 0 dw).

Definition h2v2_colsum (near far colsum : list Z) (n : Z) : jpeg (list Z) :=
  fold_try (fun colsum x => a ← idx near x; b ← idx far x; idx_set colsum x (3 * a + b)) colsum (seqZ 0 n).

Definition h2v2_fancy (colsum buf : list Z) (n : Z) : jpeg (list Z) :=
  fold_try (fun buf x =>
    this ← idx colsum x;
    prev ← idx colsum (saturating_pred x);
    next ← idx colsum (Z.min (x + 1) (n - 1));
    buf ← idx_set buf (2 * x) (Z.shiftr (this * 3 + prev + 8) 4 mod 256);
    idx_set buf (2 * x + 1) (Z.shiftr (this * 3 + next + 7) 4 mod 256)) buf (seqZ 0 n).

Definition box_row (src buf : list Z) (w he : Z) : jpeg (list Z) :=
  fold_try (fun buf x => s ← idx src (x / he); idx_set buf x s) buf (seqZ 0 w).

(** Output row [y]: the samples, the row buffer and the column sums after it. *)
Definition upsample_row (c : Comp) (y w : Z) (buf colsum : list Z) : jpeg (list Z * list Z * list Z) :=
  let last := cp_dh c - 1 in
  match cp_up c with
  | Full => row ← index_range (cp_plane c) (y * stride c) (y * stride c + w); Ok (row, buf, colsum)
  | H2V1Fancy =>
    src ← plane_row c y;
    buf ← h2v1_fancy src buf;
    row ← index_range buf 0 w; Ok (row, buf, colsum)
  | H1V2Fancy =>
    let i := y / 2 in
    let '(far, bias) := if y mod 2 =? 0 then (saturating_pred i, 1) else (Z.min (i + 1) last, 2) in
    near ← plane_row c i;
    far ← plane_row c far;
    buf ← h1v2_fancy near far bias buf (cp_dw c);
    row ← index_range buf 0 w; Ok (row, buf, colsum)
  | H2V2Fancy =>
    let i := y / 2 in
    let far := if y mod 2 =? 0 then saturating_pred i else Z.min (i + 1) last in
    near ← plane_row c i;
    far ← plane_row c far;
    colsum ← h2v2_colsum near far colsum (cp_dw c);
    buf ← h2v2_fancy colsum buf (cp_dw c);
    row ← index_range buf 0 w; Ok (row, buf, colsum)
  | Box he ve =>
    src ← plane_row c (y / ve);
    _ ← index_range buf 0 w;
    buf ← box_row src buf w he;
    row ← index_range buf 0 w; Ok (row, buf, colsum)
  end.

(** ** Colour *)

Definition clamp8 (v : Z) : Z := clamp v 0 255.

(** [build_ycc_rgb_table]: the entries for [i], with the products of the four constants by
    [2 ^ 16] rounded as [fix] does. *)
Definition FIX_1_40200 : Z := 91881.
Definition FIX_1_77200 : Z := 116130.
Definition FIX_0_71414 : Z := 46802.
Definition FIX_0_34414 : Z := 22554.
Definition ONE_HALF : Z := Z.shiftl 1 15.
Definition cr_r (i : Z) : Z := Z.shiftr (FIX_1_40200 * (i - 128) + ONE_HALF) 16.
Definition cb_b (i : Z) : Z := Z.shiftr (FIX_1_77200 * (i - 128) + ONE_HALF) 16.
Definition cr_g (i : Z) : Z := - FIX_0_71414 * (i - 128).
Definition cb_g (i : Z) : Z := - FIX_0_34414 * (i - 128) + ONE_HALF.

Definition ycc_pixel (yy cb cr : Z) : list Z :=
  [clamp8 (yy + cr_r cr); clamp8 (yy + Z.shiftr (cb_g cb + cr_g cr) 16); clamp8 (yy + cb_b cb)].

(** One row of pixels, with the buffers of the components. *)
Definition color_row (frame : Frame) (color : Color) (w : Z) (bufs : list (list Z)) (colsum : list Z) (y : Z)
    : jpeg (list Z * list (list Z) * list Z) :=
  match color with
  | Gray =>
    c0 ← idx (fr_comps frame) 0;
    b0 ← idx bufs 0;
    '(r0, b0, colsum) ← upsample_row c0 y w b0 colsum;
    bufs ← idx_set bufs 0 b0;
    Ok (concat ((fun v => [v; v; v]) <$> r0), bufs, colsum)
  | _ =>
    c0 ← idx (fr_comps frame) 0;
    b0 ← idx bufs 0;
    '(r0, b0, colsum) ← upsample_row c0 y w b0 colsum;
    c1 ← idx (fr_comps frame) 1;
    b1 ← idx bufs 1;
    '(r1, b1, colsum) ← upsample_row c1 y w b1 colsum;
    c2 ← idx (fr_comps frame) 2;
    b2 ← idx bufs 2;
    '(r2, b2, colsum) ← upsample_row c2 y w b2 colsum;
    pixels ← mapM (fun x =>
      a ← idx r0 x; b ← idx r1 x; d ← idx r2 x;
      Ok (if bool_decide (color = Rgb) then [a; b; d] else ycc_pixel a b d)) (seqZ 0 w);
    Ok (concat pixels, [b0; b1; b2], colsum)
  end.

(** Row [y] of the image goes to [out]. *)
Definition finish_row (frame : Frame) (color : Color) (st : list Z * list (list Z) * list Z) (y : Z)
    : jpeg (list Z * list (list Z) * list Z) :=
  let w := fr_width frame in
  let '(out, bufs, colsum) := st in
  _ ← index_range out (y * w * 3) ((y + 1) * w * 3);
  '(px, bufs, colsum) ← color_row frame color w bufs colsum y;
  Ok (splice out (y * w * 3) px, bufs, colsum).

(** The blocks of a progressive component, one IDCT each. *)
Definition idct_blocks (c : Comp) : jpeg Comp :=
  let q := default (replicate 64 0) (cp_q c) in
  c ← fold_try (fun c row =>
    fold_try (fun c col =>
      let b := (row * cp_pbw c + col) * 64 in
      blk ← index_range (cp_coefs c) b (b + 64);
      plane ← idct_islow blk q (cp_plane c) (row * 8 * stride c + col * 8) (stride c);
      Ok (set_plane plane c)) c (seqZ 0 (cp_bw c))) c (seqZ 0 (cp_bh c));
  Ok (set_coefs [] c).

(** The planes of the frame when every scan is read. *)
Definition finish_planes (frame : Frame) (scans : Z) : jpeg Frame :=
  if fr_progressive frame then
    comps ← match smoothing_latches frame scans with
            | Some latches =>
              mapM (fun cl => c ← idct_smoothed (fst cl) (snd cl) (fr_mcus_y frame) (fr_last_good frame); Ok (set_coefs [] c))
                (zip (fr_comps frame) latches)
            | None => Ok (fr_comps frame)
            end;
    comps ← mapM (fun c => if negb (bool_decide (cp_coefs c = [])) then idct_blocks c else Ok c) comps;
    Ok (set_comps comps frame)
  else
    Ok (set_comps ((fun c => if cp_scanned c then c else set_plane (replicate (length (cp_plane c)) 128) c) <$> fr_comps frame) frame).

Definition jpeg_finish (frame : Frame) (color : Color) (scans : Z) : jpeg RgbImage :=
  frame ← finish_planes frame scans;
  let w := fr_width frame in
  let h := fr_height frame in
  '(out, _, _) ← fold_try (finish_row frame color)
    (replicate (Z.to_nat (w * h * 3)) 0, (fun _ => replicate (Z.to_nat (w + 16)) 0) <$> fr_comps frame, replicate (Z.to_nat (w + 16)) 0)
    (seqZ 0 h);
  Ok {| width := w; height := h; rgb := out |}.

(** ** Markers and segments *)

(** [pr_dht] holds the DC tables, then the AC tables; a parser's [data] is the section's. *)
Record JParser := mkParser {
  pr_pos : Z; pr_qt : list (option (list Z)); pr_dht : list (list (option RawHuff)); pr_restart_interval : Z;
  pr_frame : option Frame; pr_jfif : bool; pr_adobe : option Z; pr_exif : option (list Z); pr_xmp : option (list Z);
  pr_scans : Z; pr_color : Color; pr_single_scan : bool }.

Definition Parser_new : JParser :=
  mkParser 2 (replicate 4 None) (replicate 2 (replicate 4 None)) 0 None false None None None 0 YCbCr false.

Definition set_pos (v : Z) (p : JParser) : JParser :=
  mkParser v (pr_qt p) (pr_dht p) (pr_restart_interval p) (pr_frame p) (pr_jfif p) (pr_adobe p) (pr_exif p) (pr_xmp p)
    (pr_scans p) (pr_color p) (pr_single_scan p).
Definition set_qt (v : list (option (list Z))) (p : JParser) : JParser :=
  mkParser (pr_pos p) v (pr_dht p) (pr_restart_interval p) (pr_frame p) (pr_jfif p) (pr_adobe p) (pr_exif p) (pr_xmp p)
    (pr_scans p) (pr_color p) (pr_single_scan p).
Definition set_dht (v : list (list (option RawHuff))) (p : JParser) : JParser :=
  mkParser (pr_pos p) (pr_qt p) v (pr_restart_interval p) (pr_frame p) (pr_jfif p) (pr_adobe p) (pr_exif p) (pr_xmp p)
    (pr_scans p) (pr_color p) (pr_single_scan p).
Definition set_restart_interval (v : Z) (p : JParser) : JParser :=
  mkParser (pr_pos p) (pr_qt p) (pr_dht p) v (pr_frame p) (pr_jfif p) (pr_adobe p) (pr_exif p) (pr_xmp p)
    (pr_scans p) (pr_color p) (pr_single_scan p).
Definition set_frame (v : Frame) (p : JParser) : JParser :=
  mkParser (pr_pos p) (pr_qt p) (pr_dht p) (pr_restart_interval p) (Some v) (pr_jfif p) (pr_adobe p) (pr_exif p) (pr_xmp p)
    (pr_scans p) (pr_color p) (pr_single_scan p).
Definition set_app (jfif : bool) (adobe : option Z) (exif xmp : option (list Z)) (p : JParser) : JParser :=
  mkParser (pr_pos p) (pr_qt p) (pr_dht p) (pr_restart_interval p) (pr_frame p) jfif adobe exif xmp
    (pr_scans p) (pr_color p) (pr_single_scan p).

(** *** Tables *)

(** [t[nat]] of a quantization table, for the [i]-th entry of its segment. *)
Definition quant_entry (pq : Z) (body t : list Z) (in_ : Z * Z) : jpeg (list Z) :=
  let '(i, nat_) := in_ in
  v ← (if negb (pq =? 0) then hi ← idx body (2 * i); lo ← idx body (2 * i + 1); Ok (be_val [hi; lo]) else idx body i);
  idx_set t nat_ v.

Fixpoint dqt (fuel : nat) (p : JParser) (s : list Z) : jpeg JParser :=
  match s with
  | [] => Ok p
  | b0 :: _ =>
    match fuel with
    | O => Panic
    | S fuel =>
      let pq := Z.shiftr b0 4 in
      let tq := Z.land b0 15 in
      if 4 <=? tq then Err (BadJpeg "bad quantization table index")
      else
        let n := if negb (pq =? 0) then 128 else 64 in
        body ← ok_or (get_range s 1 (1 + n)) (BadJpeg "truncated quantization table");
        t ← fold_try (quant_entry pq body) (replicate 64 0) (zip (seqZ 0 64) (take 64 NATURAL));
        qt ← idx_set (pr_qt p) tq (Some t);
        rest ← index_range s (1 + n) (Zlen s);
        dqt fuel (set_qt qt p) rest
    end
  end.

Fixpoint dht (fuel : nat) (p : JParser) (s : list Z) : jpeg JParser :=
  match s with
  | [] => Ok p
  | index :: _ =>
    match fuel with
    | O => Panic
    | S fuel =>
      if Zlen s <? 17 then Err (BadJpeg "truncated Huffman table")
      else
        counts ← index_range s 1 17;
        let bits := 0 :: counts in
        let count := foldr Z.add 0 bits in
        if (256 <? count) || (Zlen s - 17 <? count) then Err (BadJpeg "bad Huffman table definition")
        else
          vals ← index_range s 17 (17 + count);
          let vals := vals ++ replicate (Z.to_nat (256 - count)) 0 in
          let '(class, slot) := if negb (Z.land index 0x10 =? 0) then (1, index - 0x10) else (0, index) in
          if 4 <=? slot then Err (BadJpeg "bad Huffman table index")
          else
            tables ← idx (pr_dht p) class;
            tables ← idx_set tables slot (Some (mkRawHuff bits vals));
            all ← idx_set (pr_dht p) class tables;
            rest ← index_range s (17 + count) (Zlen s);
            dht fuel (set_dht all p) rest
    end
  end.

(** *** The frame header *)

(** A component of the header, before its size is known. *)
Definition sof_comp (s : list Z) (comps : list Comp) (i : Z) : jpeg (list Comp) :=
  c ← index_range s (6 + 3 * i) (9 + 3 * i);
  let h := Z.shiftr (at_ix c 1) 4 in
  let v := Z.land (at_ix c 1) 15 in
  if negb (between 1 4 h) || negb (between 1 4 v) then Err (BadJpeg "bad sampling factors")
  else if 4 <=? at_ix c 2 then Err (BadJpeg "bad quantization table index")
  else if existsb (fun o => cp_id o =? at_ix c 0) comps then Err (BadJpeg "duplicate component id")
  else Ok (comps ++ [mkComp (at_ix c 0) h v (at_ix c 2) 0 0 0 0 0 0 Full None 0 [] [] (replicate 64 0) (replicate 64 (-1))
                       (replicate 64 0) false]).

Definition upsampling (he ve dw : Z) : Up :=
  if (he =? 1) && (ve =? 1) then Full
  else if (he =? 2) && (ve =? 1) && (2 <? dw) then H2V1Fancy
  else if (he =? 1) && (ve =? 2) then H1V2Fancy
  else if (he =? 2) && (ve =? 2) && (2 <? dw) then H2V2Fancy
  else Box he ve.

(** The size of a component in samples and blocks. *)
Definition size_comp (width height max_h max_v mcus_x mcus_y : Z) (c : Comp) : jpeg Comp :=
  if negb (max_h mod cp_h c =? 0) || negb (max_v mod cp_v c =? 0) then Err (BadJpeg "unsupported sampling factors")
  else
    let dw := div_up (width * cp_h c) max_h in
    let dh := div_up (height * cp_v c) max_v in
    Ok (mkComp (cp_id c) (cp_h c) (cp_v c) (cp_tq c) dw dh (div_up (width * cp_h c) (max_h * 8)) (div_up (height * cp_v c) (max_v * 8))
          (mcus_x * cp_h c) (mcus_y * cp_v c) (upsampling (max_h / cp_h c) (max_v / cp_v c) dw)
          (cp_q c) (cp_pred c) (cp_coefs c) (cp_plane c) (cp_qraw c) (cp_coef_bits c) (cp_prev_coef_bits c) (cp_scanned c)).

Definition max_of (l : list Z) : Z := match l with [] => 1 | x :: l => foldl Z.max x l end.

Definition sof (p : JParser) (m : Z) (s : list Z) : jpeg JParser :=
  if is_some (pr_frame p) then Err (BadJpeg "more than one frame header")
  else if Zlen s <? 6 then Err (BadJpeg "short frame header")
  else
    let precision := at_ix s 0 in
    let height := be_val [at_ix s 1; at_ix s 2] in
    let width := be_val [at_ix s 3; at_ix s 4] in
    let nc := at_ix s 5 in
    if negb (precision =? 8) then Err (BadJpeg "precision is not supported")
    else if negb ((nc =? 1) || (nc =? 3)) then Err (BadJpeg "number of components is not supported")
    else if negb (Zlen s =? 6 + 3 * nc) then Err (BadJpeg "bad frame header length")
    else if (width =? 0) || (height =? 0) then Err (ZeroSize width height)
    else if (65500 <? width) || (65500 <? height) then Err (TooLarge width height)
    else if MAX_DECODE_PIXELS <? width * height then Err (TooLarge width height)
    else
      comps ← fold_try (sof_comp s) [] (seqZ 0 nc);
      let max_h := max_of (cp_h <$> comps) in
      let max_v := max_of (cp_v <$> comps) in
      let mcus_x := div_up width (8 * max_h) in
      let mcus_y := div_up height (8 * max_v) in
      comps ← mapM (size_comp width height max_h max_v mcus_x mcus_y) comps;
      Ok (set_frame (mkFrame width height (m =? 0xC2) comps mcus_x mcus_y 0) p).

(** *** Scan headers *)

(** The standard tables of Annex K.3: class, slot, counts, values. *)
Definition DC_LUM_BITS : list Z := [0; 1; 5; 1; 1; 1; 1; 1; 1; 0; 0; 0; 0; 0; 0; 0].
Definition DC_CHR_BITS : list Z := [0; 3; 1; 1; 1; 1; 1; 1; 1; 1; 1; 0; 0; 0; 0; 0].
Definition DC_VALS : list Z := [0; 1; 2; 3; 4; 5; 6; 7; 8; 9; 10; 11].
Definition AC_LUM_BITS : list Z := [0; 2; 1; 3; 3; 2; 4; 3; 5; 5; 4; 4; 0; 0; 1; 0x7d].
Definition AC_LUM_VALS : list Z := [
  0x01; 0x02; 0x03; 0x00; 0x04; 0x11; 0x05; 0x12; 0x21; 0x31; 0x41; 0x06; 0x13; 0x51; 0x61;
  0x07; 0x22; 0x71; 0x14; 0x32; 0x81; 0x91; 0xa1; 0x08; 0x23; 0x42; 0xb1; 0xc1; 0x15; 0x52;
  0xd1; 0xf0; 0x24; 0x33; 0x62; 0x72; 0x82; 0x09; 0x0a; 0x16; 0x17; 0x18; 0x19; 0x1a; 0x25;
  0x26; 0x27; 0x28; 0x29; 0x2a; 0x34; 0x35; 0x36; 0x37; 0x38; 0x39; 0x3a; 0x43; 0x44; 0x45;
  0x46; 0x47; 0x48; 0x49; 0x4a; 0x53; 0x54; 0x55; 0x56; 0x57; 0x58; 0x59; 0x5a; 0x63; 0x64;
  0x65; 0x66; 0x67; 0x68; 0x69; 0x6a; 0x73; 0x74; 0x75; 0x76; 0x77; 0x78; 0x79; 0x7a; 0x83;
  0x84; 0x85; 0x86; 0x87; 0x88; 0x89; 0x8a; 0x92; 0x93; 0x94; 0x95; 0x96; 0x97; 0x98; 0x99;
  0x9a; 0xa2; 0xa3; 0xa4; 0xa5; 0xa6; 0xa7; 0xa8; 0xa9; 0xaa; 0xb2; 0xb3; 0xb4; 0xb5; 0xb6;
  0xb7; 0xb8; 0xb9; 0xba; 0xc2; 0xc3; 0xc4; 0xc5; 0xc6; 0xc7; 0xc8; 0xc9; 0xca; 0xd2; 0xd3;
  0xd4; 0xd5; 0xd6; 0xd7; 0xd8; 0xd9; 0xda; 0xe1; 0xe2; 0xe3; 0xe4; 0xe5; 0xe6; 0xe7; 0xe8;
  0xe9; 0xea; 0xf1; 0xf2; 0xf3; 0xf4; 0xf5; 0xf6; 0xf7; 0xf8; 0xf9; 0xfa].
Definition AC_CHR_BITS : list Z := [0; 2; 1; 2; 4; 4; 3; 4; 7; 5; 4; 4; 0; 1; 2; 0x77].
Definition AC_CHR_VALS : list Z := [
  0x00; 0x01; 0x02; 0x03; 0x11; 0x04; 0x05; 0x21; 0x31; 0x06; 0x12; 0x41; 0x51; 0x07; 0x61;
  0x71; 0x13; 0x22; 0x32; 0x81; 0x08; 0x14; 0x42; 0x91; 0xa1; 0xb1; 0xc1; 0x09; 0x23; 0x33;
  0x52; 0xf0; 0x15; 0x62; 0x72; 0xd1; 0x0a; 0x16; 0x24; 0x34; 0xe1; 0x25; 0xf1; 0x17; 0x18;
  0x19; 0x1a; 0x26; 0x27; 0x28; 0x29; 0x2a; 0x35; 0x36; 0x37; 0x38; 0x39; 0x3a; 0x43; 0x44;
  0x45; 0x46; 0x47; 0x48; 0x49; 0x4a; 0x53; 0x54; 0x55; 0x56; 0x57; 0x58; 0x59; 0x5a; 0x63;
  0x64; 0x65; 0x66; 0x67; 0x68; 0x69; 0x6a; 0x73; 0x74; 0x75; 0x76; 0x77; 0x78; 0x79; 0x7a;
  0x82; 0x83; 0x84; 0x85; 0x86; 0x87; 0x88; 0x89; 0x8a; 0x92; 0x93; 0x94; 0x95; 0x96; 0x97;
  0x98; 0x99; 0x9a; 0xa2; 0xa3; 0xa4; 0xa5; 0xa6; 0xa7; 0xa8; 0xa9; 0xaa; 0xb2; 0xb3; 0xb4;
  0xb5; 0xb6; 0xb7; 0xb8; 0xb9; 0xba; 0xc2; 0xc3; 0xc4; 0xc5; 0xc6; 0xc7; 0xc8; 0xc9; 0xca;
  0xd2; 0xd3; 0xd4; 0xd5; 0xd6; 0xd7; 0xd8; 0xd9; 0xda; 0xe2; 0xe3; 0xe4; 0xe5; 0xe6; 0xe7;
  0xe8; 0xe9; 0xea; 0xf2; 0xf3; 0xf4; 0xf5; 0xf6; 0xf7; 0xf8; 0xf9; 0xfa].
Definition std_tables : list (Z * Z * list Z * list Z) :=
  [(0, 0, DC_LUM_BITS, DC_VALS); (1, 0, AC_LUM_BITS, AC_LUM_VALS); (0, 1, DC_CHR_BITS, DC_VALS); (1, 1, AC_CHR_BITS, AC_CHR_VALS)].

(** A standard table for an empty slot. *)
Definition std_table (progressive : bool) (all : list (list (option RawHuff))) (t : Z * Z * list Z * list Z)
    : jpeg (list (list (option RawHuff))) :=
  let '(class, slot, bits, vals) := t in
  tables ← idx all class;
  old ← idx tables slot;
  if negb progressive && negb (is_some old) then
    tables ← idx_set tables slot (Some (mkRawHuff (0 :: bits) (vals ++ replicate (256 - length vals) 0)));
    idx_set all class tables
  else Ok all.

(** [default_decompress_parms] *)
Definition choose_color (p : JParser) (frame : Frame) : Color :=
  if Nat.eqb (length (fr_comps frame)) 1 then Gray
  else if pr_jfif p then YCbCr
  else match pr_adobe p with
       | Some t => if t =? 0 then Rgb else YCbCr
       | None => if bool_decide (cp_id <$> fr_comps frame = [82; 71; 66]) then Rgb else YCbCr
       end.

(** The planes of a component, and its coefficients in a progressive frame. *)
Definition allocate (progressive : bool) (c : Comp) : Comp :=
  let c := set_plane (replicate (Z.to_nat (cp_pbw c * 8 * cp_pbh c * 8)) 0) c in
  if progressive then set_coefs (replicate (Z.to_nat (cp_pbw c * cp_pbh c * 64)) 0) c else c.

(** What the first scan settles. *)
Definition first_scan (p : JParser) (frame : Frame) (ns : Z) : jpeg (JParser * Frame) :=
  all ← fold_try (std_table (fr_progressive frame)) (pr_dht p) std_tables;
  Ok (mkParser (pr_pos p) (pr_qt p) all (pr_restart_interval p) (pr_frame p) (pr_jfif p) (pr_adobe p) (pr_exif p) (pr_xmp p)
        (pr_scans p) (choose_color p frame) (if negb (fr_progressive frame) && (ns =? Zlen (fr_comps frame)) then true else pr_single_scan p),
      set_comps (allocate (fr_progressive frame) <$> fr_comps frame) frame).

(** A component of the scan: its index and the slots of its tables. *)
Definition sos_comp (s : list Z) (frame : Frame) (sc : list (Z * Z * Z)) (i : Z) : jpeg (list (Z * Z * Z)) :=
  id ← idx s (1 + 2 * i);
  t ← idx s (2 + 2 * i);
  match list_find (fun c => cp_id c = id) (fr_comps frame) with
  | None => Err (BadJpeg "scan references an unknown component")
  | Some (ci, _) =>
    let ci := Z.of_nat ci in
    if existsb (fun x => fst (fst x) =? ci) sc then Err (BadJpeg "component repeated in scan")
    else Ok (sc ++ [(ci, Z.shiftr t 4, Z.land t 15)])
  end.

(** [latch_quant_tables] *)
Definition latch (qt : list (option (list Z))) (frame : Frame) (x : Z * Z * Z) : jpeg Frame :=
  let ci := fst (fst x) in
  c ← comp_at frame ci;
  '(q, qraw) ← (match cp_q c with
                | Some q => Ok (Some q, cp_qraw c)
                | None =>
                  t ← idx qt (cp_tq c);
                  t ← ok_or t (BadJpeg "quantization table is missing");
                  Ok (Some (as_i16 <$> (t : list Z)), t)
                end : jpeg (option (list Z) * list Z));
  update_comp frame ci
    (mkComp (cp_id c) (cp_h c) (cp_v c) (cp_tq c) (cp_dw c) (cp_dh c) (cp_bw c) (cp_bh c) (cp_pbw c) (cp_pbh c) (cp_up c)
       q (cp_pred c) (cp_coefs c) (cp_plane c) qraw (cp_coef_bits c) (cp_prev_coef_bits c) true).

(** The blocks of an MCU. *)
Definition mcu_blocks (frame : Frame) (sc : list (Z * Z * Z)) : jpeg Z :=
  fold_try (fun blocks x => c ← comp_at frame (fst (fst x)); Ok (blocks + cp_h c * cp_v c)) 0 sc.

(** [start_pass] of a progressive scan: the bits before it, then [Al]. *)
Definition record_bits (scans ss se al : Z) (frame : Frame) (x : Z * Z * Z) : jpeg Frame :=
  let ci := fst (fst x) in
  c ← comp_at frame ci;
  prev ← fold_try (fun prev k => v ← (if 1 <? scans + 1 then idx (cp_coef_bits c) k else Ok 0); idx_set prev k v)
           (cp_prev_coef_bits c) (seqZ (Z.min ss 1) (Z.max se 9 + 1 - Z.min ss 1));
  bits ← fold_try (fun bits k => idx_set bits k al) (cp_coef_bits c) (seqZ ss (se + 1 - ss));
  update_comp frame ci (set_coef_bits bits prev c).

Definition scan_kind (scans : Z) (frame : Frame) (sc : list (Z * Z * Z)) (ns ss se ah al : Z) : jpeg (ScanKind * Frame) :=
  if fr_progressive frame then
    let dc_band := ss =? 0 in
    if (if dc_band then negb (se =? 0) else (se <? ss) || (64 <=? se) || negb (ns =? 1))
       || (negb (ah =? 0) && negb (al + 1 =? ah)) || (13 <? al)
    then Err (BadJpeg "invalid progressive scan")
    else
      frame ← fold_try (record_bits scans ss se al) frame sc;
      Ok (match dc_band, ah =? 0 with
          | true, true => DcFirst | true, false => DcRefine | false, true => AcFirst | false, false => AcRefine
          end, frame)
  else Ok (Sequential, frame).

Definition derived (all : list (list (option RawHuff))) (class slot : Z) : jpeg Huff :=
  tables ← idx all class;
  match tables !! Z.to_nat slot with
  | Some (Some raw) => Huff_new raw (class =? 0)
  | _ => Err (BadJpeg "Huffman table is missing")
  end.

Definition needs_dc (k : ScanKind) : bool := match k with Sequential | DcFirst => true | _ => false end.
Definition needs_ac (k : ScanKind) : bool := match k with Sequential | AcFirst | AcRefine => true | _ => false end.

(** The tables of a component of the scan. *)
Definition scan_tables (all : list (list (option RawHuff))) (kind : ScanKind) (x : Z * Z * Z) : jpeg (option Huff * option Huff) :=
  let '(_, td, ta) := x in
  dc ← (if needs_dc kind then t ← derived all 0 td; Ok (Some t) else Ok None);
  ac ← (if needs_ac kind then t ← derived all 1 ta; Ok (Some t) else Ok None);
  Ok (dc, ac).

Section data.
Context (data : list Z).

(** What follows the header of a scan whose components are known. *)
Definition sos_scan (p : JParser) (frame : Frame) (s : list Z) (ns : Z) (sc : list (Z * Z * Z)) : jpeg JParser :=
  ss ← idx s (1 + 2 * ns);
  se ← idx s (2 + 2 * ns);
  a ← idx s (3 + 2 * ns);
  let ah := Z.shiftr a 4 in
  let al := Z.land a 15 in
  '(p, frame) ← (if pr_scans p =? 0 then first_scan p frame ns
                 else if pr_single_scan p then Err (BadJpeg "unexpected extra scan in a single-scan image")
                 else Ok (p, frame));
  frame ← fold_try (latch (pr_qt p)) frame sc;
  blocks ← mcu_blocks frame sc;
  if (1 <? ns) && (10 <? blocks) then Err (BadJpeg "too many blocks in an MCU")
  else
    '(kind, frame) ← scan_kind (pr_scans p) frame sc ns ss se ah al;
    ts ← mapM (scan_tables (pr_dht p) kind) sc;
    '(pos, frame) ← decode_scan data (pr_pos p) (pr_restart_interval p) frame
                      (mkScan ((fun x => fst (fst x)) <$> sc) kind ss se al) ts.*1 ts.*2;
    Ok (mkParser pos (pr_qt p) (pr_dht p) (pr_restart_interval p) (Some frame) (pr_jfif p) (pr_adobe p) (pr_exif p) (pr_xmp p)
          (pr_scans p + 1) (pr_color p) (pr_single_scan p)).

Definition sos (p : JParser) (s : list Z) : jpeg JParser :=
  match pr_frame p with
  | None => Err (BadJpeg "scan before frame header")
  | Some frame =>
    let ns := default 0 (head s) in
    if negb (between 1 4 ns) || negb (Zlen s =? 4 + 2 * ns) then Err (BadJpeg "bad scan header")
    else
      sc ← fold_try (sos_comp s frame) [] (seqZ 0 ns);
      sos_scan p frame s ns sc
  end.

(** *** Application segments *)
Definition JFIF : list Z := str "JFIF" ++ [0].
Definition EXIF_ID : list Z := str "Exif" ++ [0; 0].
Definition XMP_ID : list Z := str "http://ns.adobe.com/xap/1.0/" ++ [0].

Definition app_segment (p : JParser) (m : Z) (s : list Z) : jpeg JParser :=
  if 0 <? pr_scans p then Ok p
  else if (m =? 0xE0) && (14 <=? Zlen s) && starts_with s JFIF then
    Ok (set_app true (pr_adobe p) (pr_exif p) (pr_xmp p) p)
  else if (m =? 0xEE) && (12 <=? Zlen s) && starts_with s (str "Adobe") then
    b ← idx s 11; Ok (set_app (pr_jfif p) (Some b) (pr_exif p) (pr_xmp p) p)
  else if (m =? 0xE1) && starts_with s EXIF_ID then
    match pr_exif p with
    | Some e => more ← index_range s 6 (Zlen s); Ok (set_app (pr_jfif p) (pr_adobe p) (Some (e ++ more)) (pr_xmp p) p)
    | None => Ok (set_app (pr_jfif p) (pr_adobe p) (Some s) (pr_xmp p) p)
    end
  else if (m =? 0xE1) && starts_with s XMP_ID then
    let nul := match list_find (fun b => b = 0) s with Some (i, _) => Z.of_nat i | None => Zlen s - 1 end in
    x ← index_range s (nul + 1) (Zlen s);
    Ok (set_app (pr_jfif p) (pr_adobe p) (pr_exif p) (Some x) p)
  else Ok p.

(** *** The file *)

(** [next_marker]: the garbage before a marker is skipped, and 0xFF00 is garbage. *)
Definition next_marker (p : JParser) : jpeg (Z * JParser) :=
  match find_marker data (pr_pos p) with
  | Some (at_, m) => Ok (m, set_pos (skip_marker data at_) p)
  | None => Err (BadJpeg (if pr_scans p =? 0 then "no image data" else "missing EOI marker"))
  end.

Definition segment (p : JParser) : jpeg (list Z * JParser) :=
  l ← ok_or (get_range data (pr_pos p) (pr_pos p + 2)) (BadJpeg "marker segment");
  let len := be_val l in
  if len <? 2 then Err (BadJpeg "bad marker segment length")
  else
    seg ← ok_or (get_range data (pr_pos p + 2) (pr_pos p + len)) (BadJpeg "marker segment");
    Ok (seg, set_pos (pr_pos p + len) p).

(** The arm of a marker that does not end the file. *)
Definition on_marker (m : Z) (p : JParser) : jpeg JParser :=
  if m =? 0xD8 then Err (BadJpeg "duplicate SOI marker")
  else if between 0xC0 0xC2 m then '(s, p) ← segment p; sof p m s
  else if m =? 0xC3 then Err (BadJpeg "lossless JPEG is not supported")
  else if between 0xC5 0xC7 m then Err (BadJpeg "hierarchical JPEG is not supported")
  else if between 0xC9 0xCB m || between 0xCD 0xCF m then Err (BadJpeg "arithmetic-coded JPEG is not supported")
  else if m =? 0xC4 then '(s, p) ← segment p; dht (length s) p s
  else if m =? 0xDB then '(s, p) ← segment p; dqt (length s) p s
  else if m =? 0xDD then
    '(s, p) ← segment p;
    if negb (Zlen s =? 2) then Err (BadJpeg "bad DRI length") else Ok (set_restart_interval (be_val s) p)
  else if m =? 0xDA then '(s, p) ← segment p; sos p s
  else if between 0xE0 0xEF m then '(s, p) ← segment p; app_segment p m s
  else if between 0xD0 0xD7 m || (m =? 0x01) then Ok p
  else if (m =? 0xFE) || (m =? 0xDC) || (m =? 0xCC) then '(_, p) ← segment p; Ok p
  else Err (BadJpeg "unsupported marker").

(** Every pass reads a marker, so a pass for each byte is enough. *)
Fixpoint run_loop (fuel : nat) (p : JParser) : jpeg JParser :=
  match fuel with
  | O => Panic
  | S fuel =>
    '(m, p) ← next_marker p;
    if m =? 0xD9 then Ok p else p ← on_marker m p; run_loop fuel p
  end.

Definition jpeg_run : jpeg (RgbImage * JParser) :=
  p ← run_loop (S (length data)) Parser_new;
  if pr_scans p =? 0 then Err (BadJpeg "JPEG has no image data")
  else
    frame ← ok_or (pr_frame p) (BadJpeg "JPEG has no frame header");
    img ← jpeg_finish frame (pr_color p) (pr_scans p);
    Ok (img, p).

Definition jpeg_decode : jpeg RgbImage :=
  '(img, p) ← jpeg_run;
  match orientation (pr_exif p) (pr_xmp p) with Ok o => apply img o | _ => Panic end.
End data.

(** A grey image of one block with the standard tables: a DC difference of 5 by a quantizer of 16. *)
Definition gray_jpeg : list Z :=
  [0xFF; 0xD8; 0xFF; 0xDB; 0; 67; 0] ++ replicate 64 16 ++ [0xFF; 0xC0; 0; 11; 8; 0; 8; 0; 8; 1; 1; 0x11; 0]
  ++ [0xFF; 0xDA; 0; 8; 1; 1; 0; 0; 63; 0; 0x96; 0xBF; 0xFF; 0xD9].
Example gray_block : jpeg_decode gray_jpeg = Ok {| width := 8; height := 8; rgb := replicate 192 138 |}.
Proof. vm_compute. reflexivity. Qed.
