(* ===== verification/JpegFrames.v ===== *)
(** The frame of a JPEG file through its scans: the geometry of the components, what a scan may
    change of it, and that no scan panics. *)
From Stdlib Require Import ZArith Lia Bool.
From stdpp Require Import base list gmap strings.
From S2P Require Import Prelude Utf8 Scan Base64 Buffers Exif Png JpegIdct JpegBits JpegScan Jpeg.

(** * Geometry *)

(** What upsampling a component to [w] by [h] reads and writes stays inside its plane and the
    row buffers of [w + 16]. *)
Definition up_ok (w h : Z) (c : Comp) : Prop :=
  match cp_up c with
  | Full => w <= cp_pbw c * 8 /\ h <= cp_pbh c * 8
  | H2V1Fancy => 2 * cp_dw c <= w + 16 /\ h <= cp_pbh c * 8
  | H1V2Fancy => cp_dw c <= w + 16 /\ h <= 2 * cp_dh c
  | H2V2Fancy => 2 * cp_dw c <= w + 16 /\ h <= 2 * cp_dh c
  | Box he ve => 1 <= he /\ 1 <= ve /\ w <= cp_dw c * he /\ h <= cp_dh c * ve
  end.

(** A component of a frame of [w] by [h] pixels and [mx] by [my] MCUs. *)
Record geometry_ok (w h mx my : Z) (c : Comp) : Prop := {
  gok_h : 1 <= cp_h c <= 4;
  gok_v : 1 <= cp_v c <= 4;
  gok_tq : 0 <= cp_tq c < 4;
  gok_pbw : cp_pbw c = mx * cp_h c;
  gok_pbh : cp_pbh c = my * cp_v c;
  gok_bw : 0 <= cp_bw c <= cp_pbw c;
  gok_bh : 0 <= cp_bh c <= cp_pbh c;
  gok_dw : 1 <= cp_dw c <= cp_pbw c * 8;
  gok_dh : 1 <= cp_dh c <= cp_pbh c * 8;
  gok_up : up_ok w h c
}.

(** Its buffers; the planes and, in a progressive frame, the coefficients come with the first scan. *)
Record buffers_ok (prog alloc : bool) (c : Comp) : Prop := {
  bok_bits : Zlen (cp_coef_bits c) = 64;
  bok_prev : Zlen (cp_prev_coef_bits c) = 64;
  bok_plane : alloc = true -> sized (cp_pbw c * 8 * (cp_pbh c * 8)) (cp_plane c);
  bok_coefs : alloc = true -> prog = true -> Zlen (cp_coefs c) = cp_pbw c * cp_pbh c * 64
}.

Definition comp_ok (w h mx my : Z) (prog alloc : bool) (c : Comp) : Prop := geometry_ok w h mx my c /\ buffers_ok prog alloc c.

(** A frame of [n] components. *)
Record frame_ok (alloc : bool) (n : Z) (f : Frame) : Prop := {
  fok_w : 1 <= fr_width f;
  fok_h : 1 <= fr_height f;
  fok_area : fr_width f * fr_height f <= MAX_DECODE_PIXELS;
  fok_mx : 1 <= fr_mcus_x f;
  fok_my : 1 <= fr_mcus_y f;
  fok_n : Zlen (fr_comps f) = n;
  fok_comps : Forall (comp_ok (fr_width f) (fr_height f) (fr_mcus_x f) (fr_mcus_y f) (fr_progressive f) alloc) (fr_comps f)
}.

(** The components [cis] exist, and each has its quantization table. *)
Definition latched (f : Frame) (cis : list Z) : Prop :=
  Forall (fun ci => 0 <= ci /\ exists c q, fr_comps f !! Z.to_nat ci = Some c /\ cp_q c = Some q) cis.

Definition scan_frame (n : Z) (cis : list Z) (f : Frame) : Prop := frame_ok true n f /\ latched f cis.

(** [c'] differs from [c] in what a scan changes. *)
Definition same_shape (c c' : Comp) : Prop :=
  cp_h c' = cp_h c /\ cp_v c' = cp_v c /\ cp_tq c' = cp_tq c /\ cp_dw c' = cp_dw c /\ cp_dh c' = cp_dh c /\ cp_bw c' = cp_bw c /\
  cp_bh c' = cp_bh c /\ cp_pbw c' = cp_pbw c /\ cp_pbh c' = cp_pbh c /\ cp_up c' = cp_up c.

Lemma geometry_same w h mx my c c' : same_shape c c' -> geometry_ok w h mx my c -> geometry_ok w h mx my c'.
Proof.
  intros (E1 & E2 & E3 & E4 & E5 & E6 & E7 & E8 & E9 & E10) [H1 H2 H3 H4 H5 H6 H7 H8 H9 H10].
  split; unfold up_ok in *; rewrite ?E1, ?E2, ?E3, ?E4, ?E5, ?E6, ?E7, ?E8, ?E9, ?E10; done.
Qed.

Lemma same_refl c : same_shape c c.
Proof. unfold same_shape. tauto. Qed.

Lemma same_trans c1 c2 c3 : same_shape c1 c2 -> same_shape c2 c3 -> same_shape c1 c3.
Proof. unfold same_shape. intuition congruence. Qed.

(** Frames of one header. *)
Record like (f f' : Frame) : Prop := {
  lk_w : fr_width f' = fr_width f;
  lk_h : fr_height f' = fr_height f;
  lk_prog : fr_progressive f' = fr_progressive f;
  lk_mx : fr_mcus_x f' = fr_mcus_x f;
  lk_my : fr_mcus_y f' = fr_mcus_y f;
  lk_comps : Forall2 same_shape (fr_comps f) (fr_comps f')
}.

Lemma like_refl f : like f f.
Proof. split; try done. apply Forall_Forall2_diag, Forall_true. apply same_refl. Qed.

Lemma like_trans f1 f2 f3 : like f1 f2 -> like f2 f3 -> like f1 f3.
Proof.
  intros [] []. split; try congruence. eapply Forall2_trans; [|done|done]. intros x y z. apply same_trans.
Qed.

Definition keeps_q (c c' : Comp) : Prop := forall q, cp_q c = Some q -> exists q', cp_q c' = Some q'.

Lemma update_frame alloc n f ci c c' : frame_ok alloc n f -> 0 <= ci -> fr_comps f !! Z.to_nat ci = Some c -> same_shape c c' ->
  buffers_ok (fr_progressive f) alloc c' -> keeps_q c c' ->
  safe (fun f' => frame_ok alloc n f' /\ like f f' /\ (forall cis, latched f cis -> latched f' cis) /\
                  fr_comps f' !! Z.to_nat ci = Some c') (update_comp f ci c').
Proof.
  intros [Hw Hh Ha Hx Hy Hn Hc] Hci Hl Hsame Hbuf Hq. unfold update_comp, idx_set. pose proof (lookup_lt_Some _ _ _ Hl) as Hlt.
  rewrite (proj2 (Z.leb_le _ _)), (proj2 (Z.ltb_lt _ _)) by lia. cbn [andb mbind outcome_bind safe].
  split; [|split; [|split; [|by apply list_lookup_insert_eq]]].
  - split; cbn; [done..|by rewrite length_insert|]. apply Forall_insert; [done|]. split; [|done].
    eapply geometry_same; [done|]. eapply Forall_lookup_1 in Hc; [|done]. apply Hc.
  - split; cbn; try done. rewrite <- (list_insert_id (fr_comps f) (Z.to_nat ci) c) at 1 by done.
    apply Forall2_insert; [|done]. apply Forall_Forall2_diag, Forall_true. apply same_refl.
  - intros cis Hcis. eapply Forall_impl; [exact Hcis|]. intros cj (Hj & cc & q & Hcc & Hqq). split; [done|]. cbn [fr_comps set_comps].
    destruct (decide (Z.to_nat cj = Z.to_nat ci)) as [He|Hne].
    + rewrite He in Hcc |- *. rewrite Hcc in Hl. injection Hl as ->. destruct (Hq q Hqq) as [q' Hq']. exists c', q'. split; [by apply list_lookup_insert_eq|done].
    + exists cc, q. by rewrite list_lookup_insert_ne by done.
Qed.

(** Reading a component of the scan. *)
Lemma comp_then {B} n cis f ci (k : Comp -> outcome ImageError B) (Q : B -> Prop) : scan_frame n cis f -> ci ∈ cis ->
  (forall c q, fr_comps f !! Z.to_nat ci = Some c -> cp_q c = Some q ->
     comp_ok (fr_width f) (fr_height f) (fr_mcus_x f) (fr_mcus_y f) (fr_progressive f) true c -> safe Q (k c)) ->
  safe Q (comp_at f ci ≫= k).
Proof.
  intros [Hf Hl] Hci Hk. eapply Forall_forall in Hl as (H0 & c & q & Hc & Hq); [|exact Hci]. unfold comp_at.
  rewrite (idx_Some _ _ _ H0 Hc), ok_bind. eapply Hk; [done|done|]. eapply Forall_lookup_1 in Hc; [exact Hc|apply Hf].
Qed.

(** * Scans *)

Section data.
Context (data : list Z) (Hdata : bytes_ok data) (lo : Z) (Hlo : 0 <= lo) (n : Z).

(** The header of a scan and its tables. *)
Record scan_ok (prog : bool) (scan : JScan) (dc_t ac_t : list (option Huff)) : Prop := {
  sok_kind : sc_kind scan = Sequential <-> prog = false;
  sok_band : sc_kind scan <> Sequential -> 0 <= sc_ss scan /\ sc_se scan <= 63;
  sok_comps : 1 <= Zlen (sc_comps scan);
  sok_dc_len : Zlen dc_t = Zlen (sc_comps scan);
  sok_ac_len : Zlen ac_t = Zlen (sc_comps scan);
  sok_dc : Forall (fun o => forall t, o = Some t -> huff_ok (symbol true) t) dc_t;
  sok_ac : Forall (fun o => forall t, o = Some t -> huff_ok (symbol false) t) ac_t
}.

Lemma table_then {B} P ts si (k : Huff -> outcome ImageError B) (Q : B -> Prop) : Forall (fun o => forall t, o = Some t -> huff_ok P t) ts ->
  0 <= si < Zlen ts -> (forall t, huff_ok P t -> safe Q (k t)) -> safe Q (table ts si ≫= k).
Proof.
  intros Hts Hsi Hk. eapply (safe_bind (huff_ok P)); [|done]. unfold table. apply (idx_then _ _ _ _ _ Hts); [done|]. intros o _ Ho.
  apply ok_or_safe. intros t ->. by apply Ho.
Qed.

Lemma progressive_block_ok prog scan dc_t ac_t si pred eobrun coef br : scan_ok prog scan dc_t ac_t -> 0 <= si < Zlen (sc_comps scan) ->
  sc_kind scan <> Sequential -> block_ok lo coef br ->
  safe (fun '(_, _, coef, br) => block_ok lo coef br) (progressive_block data scan dc_t ac_t si pred eobrun coef br).
Proof.
  intros [_ Hband _ Hdcl Hacl Hdc Hac] Hsi Hkind [Hc Hbr]. destruct (Hband Hkind) as [Hss Hse]. unfold progressive_block.
  destruct (sc_kind scan); [done| | | |].
  - eapply table_then; [exact Hdc|lia|]. intros dc Hdct. eapply huff_then; [done..|]. intros t br1 Hbr1 [Ht Ht15]. specialize (Ht15 eq_refl).
    unfold is_byte in Ht. eapply get_bits_then; [done|exact Hbr1|lia|]. intros v br2 Hbr2 _. cbv zeta. destruct (in_i32 _); [|done].
    eapply safe_bind; [by apply (set_len 64); [|lia]|]. by intros coef' Hc'.
  - eapply get_bits_then; [done|exact Hbr|lia|]. intros bit br1 Hbr1 _. destruct (negb _); [|done].
    apply idx_then'; [lia|]. intros c _. eapply safe_bind; [by apply (set_len 64); [|lia]|]. by intros coef' Hc'.
  - eapply table_then; [exact Hac|lia|]. intros ac Hact. eapply safe_bind; [by apply (ac_first_ok data Hdata lo)|]. by intros [[e c] b] ?.
  - eapply table_then; [exact Hac|lia|]. intros ac Hact. eapply safe_bind; [by apply (ac_refine_ok data Hdata lo)|]. by intros [[e c] b] ?.
Qed.

(** The state between two blocks of a scan. *)
Definition state_ok (f0 : Frame) (cis : list Z) (st : ScanState) : Prop :=
  bits_ok lo (ss_br st) /\ scan_frame n cis (ss_frame st) /\ like f0 (ss_frame st).

Lemma update_then f0 cis f ci c c' : scan_frame n cis f -> like f0 f -> ci ∈ cis -> fr_comps f !! Z.to_nat ci = Some c ->
  same_shape c c' -> cp_q c' = cp_q c -> buffers_ok (fr_progressive f) true c' ->
  safe (fun f' => scan_frame n cis f' /\ like f0 f') (update_comp f ci c').
Proof.
  intros [Hf Hl] Hprog Hci Hc Hsame Hq Hbuf. pose proof Hl as Hl'. eapply Forall_forall in Hl' as (H0 & _); [|exact Hci].
  eapply safe_weaken; [eapply update_frame; [done|done|done|done|done|]|]; [intros q Hqq; exists q; by rewrite Hq|].
  intros f' (Hf' & Hp & Hlat & _). split; [split; [done|auto]|by eapply like_trans].
Qed.

(** A block of the padded grid. *)
Definition in_grid (c : Comp) (rc : Z * Z) : Prop := 0 <= fst rc < cp_pbh c /\ 0 <= snd rc < cp_pbw c.

Lemma plane_block pbw pbh row col : 0 <= row < pbh -> 0 <= col < pbw ->
  0 <= row * 8 * (pbw * 8) + col * 8 /\ row * 8 * (pbw * 8) + col * 8 + 7 * (pbw * 8) + 8 <= pbw * 8 * (pbh * 8).
Proof. intros. split; [nia|]. assert ((row + 1) * pbw <= pbh * pbw) by nia. nia. Qed.

Lemma coef_block pbw pbh row col : 0 <= row < pbh -> 0 <= col < pbw ->
  0 <= (row * pbw + col) * 64 /\ (row * pbw + col) * 64 + 64 <= pbw * pbh * 64.
Proof. intros. split; [nia|]. assert ((row + 1) * pbw <= pbh * pbw) by nia. nia. Qed.

Lemma idct_into w h mx my prog c blk q row col : comp_ok w h mx my prog true c -> in_grid c (row, col) ->
  safe (fun plane => sized (cp_pbw c * 8 * (cp_pbh c * 8)) plane)
    (idct_islow blk q (cp_plane c) (row * 8 * stride c + col * 8) (stride c)).
Proof.
  intros [Hg Hb] [Hr Hc]. cbn in Hr, Hc. pose proof (plane_block _ _ _ _ Hr Hc) as [H1 H2]. unfold stride.
  apply idct_islow_ok; [by apply Hb|lia|lia|lia].
Qed.

Lemma scan_block_ok f0 scan dc_t ac_t si ci st rc : scan_ok (fr_progressive f0) scan dc_t ac_t -> 0 <= si < Zlen (sc_comps scan) -> ci ∈ sc_comps scan ->
  state_ok f0 (sc_comps scan) st -> (forall c, fr_comps f0 !! Z.to_nat ci = Some c -> in_grid c rc) ->
  safe (state_ok f0 (sc_comps scan)) (scan_block data scan dc_t ac_t si ci st rc).
Proof.
  intros Hscan Hsi Hci (Hbr & Hf & Hprog) Hrc. destruct rc as [row col]. unfold scan_block. eapply comp_then; [done|done|].
  intros c q Hc Hq [Hgeo Hbuf]. pose proof (lk_prog _ _ Hprog) as Hpe.
  assert (in_grid c (row, col)) as Hrc'.
  { destruct (Forall2_lookup_r _ _ _ _ _ (lk_comps _ _ Hprog) Hc) as (c0 & Hc0 & E1 & E2 & E3 & E4 & E5 & E6 & E7 & E8 & E9 & E10).
    specialize (Hrc c0 Hc0). unfold in_grid. by rewrite E8, E9. }
  clear Hrc. rename Hrc' into Hrc. destruct (decide (sc_kind scan = Sequential)) as [Hseq|Hkind].
  - rewrite Hseq. eapply (safe_bind (fun '(_, _, br) => bits_ok lo br)).
    { destruct (negb _); [|done]. eapply table_then; [apply Hscan|rewrite (sok_dc_len _ _ _ _ Hscan); lia|]. intros dc Hdc.
      eapply table_then; [apply Hscan|rewrite (sok_ac_len _ _ _ _ Hscan); lia|]. intros ac Hac.
      eapply safe_weaken; [by apply (seq_block_ok data Hdata lo)|]. by intros [[blk pred] br] [_ ?]. }
    intros [[blk pred] br] Hbr'. rewrite Hq. eapply safe_bind; [by eapply idct_into|]. intros plane Hplane.
    eapply safe_bind; [eapply update_then; [exact Hf|exact Hprog|exact Hci|exact Hc|done|done|]|]; [|by intros f' [? ?]].
    destruct Hbuf. by split.
  - assert (safe (state_ok f0 (sc_comps scan)) (if ss_insufficient st then Ok st
      else let b := (row * cp_pbw c + col) * 64 in
        coef ← index_range (cp_coefs c) b (b + 64);
        '(pred, eobrun, coef, br) ← progressive_block data scan dc_t ac_t si (cp_pred c) (ss_eobrun st) coef (ss_br st);
        frame ← update_comp (ss_frame st) ci (set_coefs (splice (cp_coefs c) b coef) (set_pred pred c));
        Ok (mkState br frame eobrun (ss_insufficient st) (ss_restarts_left st) (ss_next_rst st)))) as H; [|by destruct (sc_kind scan)].
    destruct (ss_insufficient st); [done|]. cbv zeta. assert (fr_progressive (ss_frame st) = true) as Hp.
    { rewrite Hpe. destruct (fr_progressive f0) eqn:Hf0; [done|]. exfalso. by apply Hkind, (sok_kind _ _ _ _ Hscan). }
    pose proof Hbuf as [Hb1 Hb2 Hb3 Hb4]. specialize (Hb4 eq_refl Hp). destruct (coef_block _ _ _ _ (proj1 Hrc) (proj2 Hrc)) as [H1 H2]. cbn [fst snd] in H1, H2.
    eapply safe_bind; [eapply range_len; [exact Hb4|lia|lia|lia]|]. intros coef Hcoef. cbv beta in Hcoef.
    eapply safe_bind; [eapply (progressive_block_ok (fr_progressive f0)); [done|done|done|split; [lia|done]]|].
    intros [[[pred e] coef'] br] [Hc' Hbr']. eapply safe_bind; [eapply update_then; [exact Hf|exact Hprog|exact Hci|exact Hc|done|done|]|]; [|by intros f' [? ?]].
    split; cbn; [done|done|done|]. intros _ _. rewrite splice_length by lia. done.
Qed.
(** The MCU at [my] and [mx] of a scan of [cis]. *)
Definition mcu_in (f0 : Frame) (cis : list Z) (my mx : Z) : Prop :=
  if Zlen cis =? 1 then forall ci c, ci ∈ cis -> fr_comps f0 !! Z.to_nat ci = Some c -> 0 <= my < cp_bh c /\ 0 <= mx < cp_bw c
  else 0 <= my < fr_mcus_y f0 /\ 0 <= mx < fr_mcus_x f0.

Lemma blocks_in_grid f0 cis my mx ci c rc : mcu_in f0 cis my mx -> ci ∈ cis -> fr_comps f0 !! Z.to_nat ci = Some c ->
  geometry_ok (fr_width f0) (fr_height f0) (fr_mcus_x f0) (fr_mcus_y f0) c -> rc ∈ blocks_at (Zlen cis) my mx c -> in_grid c rc.
Proof.
  intros Hin Hci Hc [Hh Hv _ Hpbw Hpbh Hbw Hbh _ _ _] Hrc. unfold mcu_in, blocks_at in *. unfold in_grid. destruct (Zlen cis =? 1).
  - apply list_elem_of_singleton in Hrc as ->. destruct (Hin ci c Hci Hc). cbn [fst snd]. lia.
  - apply list_elem_of_In, in_concat in Hrc as (row & Hrow & Hrc). apply list_elem_of_In, list_elem_of_fmap in Hrow as (by_ & -> & Hby%elem_of_seqZ).
    apply list_elem_of_In, list_elem_of_fmap in Hrc as (bx & -> & Hbx%elem_of_seqZ). cbn [fst snd]. rewrite Hpbw, Hpbh. nia.
Qed.

Lemma geometry_like f0 f ci c c0 alloc : frame_ok alloc n f -> like f0 f -> fr_comps f !! Z.to_nat ci = Some c ->
  fr_comps f0 !! Z.to_nat ci = Some c0 -> geometry_ok (fr_width f0) (fr_height f0) (fr_mcus_x f0) (fr_mcus_y f0) c0 /\ same_shape c0 c.
Proof.
  intros Hf [E1 E2 E3 E4 E5 Hsame] Hc Hc0. assert (same_shape c0 c) as Hs by (by eapply Forall2_lookup_lr). split; [|done].
  pose proof (Forall_lookup_1 _ _ _ _ (fok_comps _ _ _ Hf) Hc) as [Hg _]. rewrite <- E1, <- E2, <- E4, <- E5. eapply geometry_same; [|exact Hg].
  unfold same_shape in *. intuition congruence.
Qed.

Lemma blocks_like ns my mx c0 c : same_shape c0 c -> blocks_at ns my mx c = blocks_at ns my mx c0.
Proof. intros (E1 & E2 & _). unfold blocks_at. by rewrite E1, E2. Qed.

Section scan.
Context (scan : JScan) (dc_t ac_t : list (option Huff)) (f0 : Frame).
Context (Hscan : scan_ok (fr_progressive f0) scan dc_t ac_t).

Abbreviation ok := (state_ok f0 (sc_comps scan)).

Lemma scan_comp_ok my mx st si ci : mcu_in f0 (sc_comps scan) my mx -> 0 <= si < Zlen (sc_comps scan) -> ci ∈ sc_comps scan ->
  ok st -> safe ok (scan_comp data scan dc_t ac_t my mx st (si, ci)).
Proof.
  intros Hin Hsi Hci Hst. unfold scan_comp. destruct Hst as (Hbr & Hf & Hlike). eapply comp_then; [done|done|]. intros c q Hc Hq _.
  apply safe_fold_all; [done|]. intros st' rc Hrc Hst'. apply scan_block_ok; [done..|]. intros c0 Hc0.
  destruct (geometry_like _ _ _ _ _ _ (proj1 Hf) Hlike Hc Hc0) as [Hg Hs]. rewrite (blocks_like _ _ _ _ _ Hs) in Hrc. by eapply blocks_in_grid.
Qed.

Lemma zero_preds_ok cis f : (forall ci, ci ∈ cis -> ci ∈ sc_comps scan) -> scan_frame n (sc_comps scan) f -> like f0 f ->
  safe (fun f => scan_frame n (sc_comps scan) f /\ like f0 f) (zero_preds f cis).
Proof.
  intros Hsub Hf Hlike. unfold zero_preds. apply (safe_fold_all (fun f => scan_frame n (sc_comps scan) f /\ like f0 f)); [done|].
  intros f' ci Hci [Hf' Hlike']. eapply comp_then; [exact Hf'|by apply Hsub|]. intros c q Hc Hq [_ Hbuf].
  eapply update_then; [done|done|by apply Hsub|done|done|done|]. destruct Hbuf. by split.
Qed.

Lemma maybe_restart_ok interval st : ok st -> safe ok (maybe_restart data interval scan st).
Proof.
  intros Hst. unfold maybe_restart. destruct (0 <? interval); [|done]. eapply (safe_bind ok); [|done].
  destruct (_ =? 0); [|done]. destruct Hst as (Hbr & Hf & Hlike). eapply safe_bind; [by apply (restart_ok data lo)|].
  intros [pend br] Hbr'. eapply safe_bind; [by apply zero_preds_ok|]. by intros f [Hf' Hl'].
Qed.

Lemma scan_mcu_ok interval rows my mx st : mcu_in f0 (sc_comps scan) my mx -> ok st ->
  safe ok (scan_mcu data interval scan dc_t ac_t rows st (my, mx)).
Proof.
  intros Hin (Hbr & Hf & Hlike). unfold scan_mcu. eapply safe_bind; [apply maybe_restart_ok|].
  { split; [done|]. destruct (negb _); [|done]. destruct Hf as [[] Hl], Hlike. done. }
  intros st1 Hst1. eapply safe_bind; [apply (safe_fold_all ok); [done|]|].
  { intros st2 [si ci] [i Hi]%list_elem_of_lookup Hst2. apply lookup_zip_with_Some in Hi as (si' & ci' & [= -> ->] & Hsi & Hci).
    apply lookup_seqZ in Hsi as [-> Hsi]. apply scan_comp_ok; [done|lia|by eapply list_elem_of_lookup_2|done]. }
  intros st2 Hst2. destruct (_ && _); [|done]. by destruct (bt_marker_at _).
Qed.
End scan.
End data.

Lemma decode_scan_ok data n pos interval f scan dc_t ac_t : bytes_ok data -> 0 <= pos -> scan_ok (fr_progressive f) scan dc_t ac_t ->
  scan_frame n (sc_comps scan) f ->
  safe (fun '(pos', f') => pos <= pos' /\ frame_ok true n f' /\ like f f') (decode_scan data pos interval f scan dc_t ac_t).
Proof.
  intros Hdata Hpos Hscan Hf. unfold decode_scan. cbv zeta.
  eapply (safe_bind (fun '(mx, my, _) => forall y x, 0 <= y < my -> 0 <= x < mx -> mcu_in f (sc_comps scan) y x)).
  { unfold mcu_in. destruct (Zlen (sc_comps scan) =? 1) eqn:Hns; [|done]. apply Z.eqb_eq in Hns.
    apply idx_then'; [lia|]. intros ci Hci. eapply comp_then; [done|by eapply list_elem_of_lookup_2|]. intros c q Hc Hq _. cbn [safe].
    intros y x Hy Hx ci' c' Hci' Hc'. destruct (sc_comps scan) as [|a [|]]; [done| |cbn in Hns; lia]. cbn in Hci. injection Hci as ->.
    apply list_elem_of_singleton in Hci' as ->. rewrite Hc in Hc'. by injection Hc' as <-. }
  intros [[mx my] rows] Hin. eapply safe_bind; [apply (zero_preds_ok n scan f); [done|done|apply like_refl]|]. intros f1 [Hf1 Hl1].
  eapply safe_bind.
  { apply (safe_fold_all (state_ok pos n f (sc_comps scan))).
    - split; [|done]. split; cbn; (lia || done).
    - intros st y Hy%elem_of_seqZ Hst. apply (safe_fold_all (state_ok pos n f (sc_comps scan))); [done|]. intros st' x Hx%elem_of_seqZ Hst'.
      apply scan_mcu_ok; try done. apply Hin; lia. }
  intros st ([_ _ Hp Hm] & [Hf' _] & Hl). cbn [safe]. split; [|done]. destruct (bt_marker_at _) as [m|]; cbn; [by apply Hm|done].
Qed.
