(* ===== verification/JpegMarkers.v ===== *)
(** Reading the markers of a JPEG file never panics: the frame header gives a frame of a sound
    geometry, the tables keep their shape, and every pass over a marker moves on. *)
From Stdlib Require Import ZArith Lia Bool.
From stdpp Require Import base list gmap strings.
From S2P Require Import Prelude Utf8 Scan Base64 Buffers Exif Png JpegIdct JpegBits JpegScan Jpeg JpegFrames.

(** * The frame header *)

Lemma div_up_spec a b : 0 < b -> a <= b * div_up a b < a + b.
Proof. intros Hb. unfold div_up. pose proof (Z.div_mod (a + b - 1) b) as H1. pose proof (Z.mod_pos_bound (a + b - 1) b) as H2. lia. Qed.

(** One axis of a component sampled [h] times where the finest is [mh], for [w] pixels. *)
Lemma axis_ok w h mh he : 1 <= w -> 1 <= h -> 1 <= he -> mh = he * h ->
  let mx := div_up w (8 * mh) in let d := div_up (w * h) mh in let b := div_up (w * h) (mh * 8) in
  1 <= mx /\ w <= mx * mh * 8 /\ 1 <= d <= mx * h * 8 /\ 0 <= b <= mx * h /\ w <= d * he < w + he.
Proof.
  intros Hw Hh Hhe ->. cbv zeta. assert (0 < he * h) as Hm by nia.
  pose proof (div_up_spec w (8 * (he * h)) ltac:(lia)) as H1. pose proof (div_up_spec (w * h) (he * h) ltac:(lia)) as H2.
  pose proof (div_up_spec (w * h) (he * h * 8) ltac:(lia)) as H3.
  set (mx := div_up w _) in *. set (d := div_up (w * h) (he * h)) in *. set (b := div_up _ (he * h * 8)) in *.
  assert (w <= d * he < w + he) as Hd by (split; nia). assert (1 <= mx) as Hmx by nia.
  assert (w * h <= he * h * (mx * h * 8)) as Hup by (replace (he * h * (mx * h * 8)) with (8 * (he * h) * mx * h) by ring; nia).
  repeat split; try nia.
Qed.

Lemma max_of_ge l x : x ∈ l -> x <= max_of l.
Proof.
  assert (forall l a, a <= foldl Z.max a l /\ forall x, x ∈ l -> x <= foldl Z.max a l) as H.
  { clear. intros l. induction l as [|y l IH]; intros a; cbn; [split; [lia|intros x Hx; by apply elem_of_nil in Hx]|].
    destruct (IH (Z.max a y)) as [H1 H2]. split; [lia|]. intros x [->|Hx]%elem_of_cons; [lia|auto]. }
  destruct l as [|y l]; [intros Hx; by apply elem_of_nil in Hx|]. cbn. destruct (H l y) as [H1 H2]. intros [->|Hx]%elem_of_cons; auto.
Qed.

(** A component as the header lists it. *)
Definition listed_ok (c : Comp) : Prop :=
  1 <= cp_h c <= 4 /\ 1 <= cp_v c <= 4 /\ 0 <= cp_tq c < 4 /\ Zlen (cp_coef_bits c) = 64 /\ Zlen (cp_prev_coef_bits c) = 64.

Lemma ratio_ok m h : 1 <= h -> h <= m -> m mod h = 0 -> 1 <= m / h /\ m = m / h * h.
Proof. intros Hh Hm Hmod. pose proof (Z.div_mod m h). assert (1 <= m / h) by (apply Z.div_le_lower_bound; lia). lia. Qed.

Lemma upsampling_ok w h c he ve : 1 <= he -> 1 <= ve -> w <= cp_dw c * he < w + he -> h <= cp_dh c * ve < h + ve ->
  (he = 1 -> w <= cp_pbw c * 8) -> (ve = 1 -> h <= cp_pbh c * 8) -> cp_up c = upsampling he ve (cp_dw c) -> up_ok w h c.
Proof.
  intros Hhe Hve Hw Hh Hw1 Hh1 Hup. unfold up_ok. rewrite Hup. unfold upsampling.
  destruct (Z.eqb_spec he 1) as [E1|E1], (Z.eqb_spec ve 1) as [E2|E2], (Z.eqb_spec he 2) as [E3|E3], (Z.eqb_spec ve 2) as [E4|E4],
    (2 <? cp_dw c); cbn [andb]; try subst he; try subst ve; lia.
Qed.

Lemma size_comp_ok w h mh mv c : 1 <= w -> 1 <= h -> listed_ok c -> cp_h c <= mh -> cp_v c <= mv ->
  safe (E:=ImageError) (fun c' => comp_ok w h (div_up w (8 * mh)) (div_up h (8 * mv)) false false c')
    (size_comp w h mh mv (div_up w (8 * mh)) (div_up h (8 * mv)) c).
Proof.
  intros Hw Hh (Hch & Hcv & Htq & Hb1 & Hb2) Hmh Hmv. unfold size_comp.
  destruct (Z.eqb_spec (mh mod cp_h c) 0) as [Hmodh|]; [|done]. destruct (Z.eqb_spec (mv mod cp_v c) 0) as [Hmodv|]; [|done]. cbn [negb orb]. cbv zeta.
  destruct (ratio_ok mh (cp_h c)) as [Hhe Hmhe]; [lia..|]. destruct (ratio_ok mv (cp_v c)) as [Hve Hmve]; [lia..|].
  destruct (axis_ok w (cp_h c) mh (mh / cp_h c)) as (A1 & A2 & A3 & A4 & A5); [lia..|].
  destruct (axis_ok h (cp_v c) mv (mv / cp_v c)) as (B1 & B2 & B3 & B4 & B5); [lia..|].
  cbn [safe]. split; [|by split]. split; cbn; try done.
  apply upsampling_ok with (he := mh / cp_h c) (ve := mv / cp_v c); cbn; try done.
  - intros E. rewrite E in Hmhe. nia.
  - intros E. rewrite E in Hmve. nia.
Qed.

Lemma between_inv lo hi b : between lo hi b = true -> lo <= b <= hi.
Proof. unfold between. rewrite andb_true_iff, !Z.leb_le. done. Qed.

Lemma sized_at s n i : sized n s -> 0 <= i < n -> is_byte (at_ix s i).
Proof. intros Hs Hi. unfold at_ix. eapply sized_nth; [exact Hs|lia]. Qed.

Lemma sof_comp_ok s n comps i : sized n s -> 0 <= i -> 9 + 3 * i <= n -> Forall listed_ok comps -> Zlen comps = i ->
  safe (fun comps => Forall listed_ok comps /\ Zlen comps = i + 1) (sof_comp s comps i).
Proof.
  intros Hs Hi Hn Hcomps Hlen. unfold sof_comp. eapply range_then; [exact Hs|lia|lia|lia|]. intros c Hc.
  replace (9 + 3 * i - (6 + 3 * i)) with 3 in Hc by lia. cbv zeta.
  destruct (nibble_range (at_ix c 1)) as [N1 N2]; [apply (sized_at c 3); [exact Hc|lia]|]. assert (is_byte (at_ix c 2)) as Htq by (apply (sized_at c 3); [exact Hc|lia]).
  destruct (between 1 4 _) eqn:Hh; [|done]. destruct (between 1 4 (Z.land _ _)) eqn:Hv; [|done]. cbn [negb orb].
  apply between_inv in Hh, Hv. destruct (Z.leb_spec 4 (at_ix c 2)) as [|Ht]; [done|]. destruct (existsb _ _); [done|]. cbn [safe].
  split; [|rewrite length_app; cbn; lia]. apply Forall_app. split; [done|]. constructor; [|done]. unfold is_byte in Htq.
  unfold listed_ok. cbn. repeat split; (lia || done).
Qed.

Lemma be_val_two a b : is_byte a -> is_byte b -> 0 <= be_val [a; b] < 65536.
Proof. unfold is_byte, be_val. intros Ha Hb. cbn. lia. Qed.

(** * The parser *)

Definition tables_ok (all : list (list (option RawHuff))) : Prop :=
  Zlen all = 2 /\ Forall (fun ts => Zlen ts = 4 /\ Forall (fun o => forall r, o = Some r -> raw_ok r) ts) all.

(** The frame after the first scan is allocated, and grey exactly when it has one component. *)
Definition framed (scans : Z) (color : Color) (frame : option Frame) : Prop :=
  match frame with
  | None => scans = 0
  | Some f => exists n, (n = 1 \/ n = 3) /\ frame_ok (0 <? scans) n f /\ (0 < scans -> color = Gray <-> n = 1)
  end.

Record parser_ok (p : JParser) : Prop := {
  pok_pos : 0 <= pr_pos p;
  pok_qt : Zlen (pr_qt p) = 4;
  pok_dht : tables_ok (pr_dht p);
  pok_scans : 0 <= pr_scans p;
  pok_frame : framed (pr_scans p) (pr_color p) (pr_frame p);
  pok_exif : forall e, pr_exif p = Some e -> bytes_ok e
}.

(** [p'] is sound and not before [p]. *)
Definition onward (p p' : JParser) : Prop := parser_ok p' /\ pr_pos p <= pr_pos p'.

Lemma onward_trans p1 p2 p3 : onward p1 p2 -> onward p2 p3 -> onward p1 p3.
Proof. unfold onward. intros [? ?] [? ?]. split; [done|lia]. Qed.

Lemma onward_then {B} p (m : outcome ImageError JParser) (Q : B -> Prop) (k : JParser -> outcome ImageError B) :
  safe (onward p) m -> (forall p', onward p p' -> safe Q (k p')) -> safe Q (m ≫= k).
Proof. apply safe_bind. Qed.

Lemma quant_entry_ok pq n body t i nat_ : sized n body -> n = (if negb (pq =? 0) then 128 else 64) -> Zlen t = 64 -> 0 <= i < 64 -> 0 <= nat_ < 64 ->
  safe (fun t => Zlen t = 64) (quant_entry pq body t (i, nat_)).
Proof.
  intros Hb Hn Ht Hi Hnat. unfold quant_entry. eapply (safe_bind (fun _ => True)); [|intros v _; by apply set_len].
  destruct (negb (pq =? 0)).
  - eapply byte_then; [exact Hb|lia|]. intros ? _. eapply byte_then; [exact Hb|lia|]. done.
  - destruct (byte_at (E:=ImageError) body i (proj2 Hb)) as (x & -> & _); [destruct Hb; lia|done].
Qed.

Lemma dqt_ok fuel p s : parser_ok p -> bytes_ok s -> (length s <= fuel)%nat -> safe (onward p) (dqt fuel p s).
Proof.
  revert p s. induction fuel as [|fuel IH]; intros p s Hp Hs Hfuel; (destruct s as [|b0 s']; [by split|]); [cbn in Hfuel; lia|].
  cbn [dqt]. set (s := b0 :: s') in *. assert (is_byte b0) as Hb0 by (by inversion Hs). destruct (nibble_range b0 Hb0) as [_ Hlow]. cbv zeta.
  destruct (Z.leb_spec 4 (Z.land b0 15)) as [|Htq]; [done|]. set (n := if negb _ then 128 else 64).
  assert (64 <= n) as Hn by (subst n; destruct (negb _); lia).
  destruct (get_range s 1 (1 + n)) as [body|] eqn:Hbody; [|done]. apply get_range_Some in Hbody as (-> & _ & _ & Hin). cbn [ok_or]. rewrite ok_bind.
  assert (sized n (slice s 1 (1 + n))) as Hsz by (split; [rewrite slice_length; lia|by apply bytes_ok_slice]).
  eapply safe_bind; [apply (safe_fold_all (fun t => Zlen t = 64)); [done|]|].
  { intros t [i nat_] [j Hj]%list_elem_of_lookup Ht. apply lookup_zip_with_Some in Hj as (i' & nat' & [= -> ->] & Hi & Hnat).
    apply lookup_seqZ in Hi as [-> Hi]. eapply quant_entry_ok; [exact Hsz|done|done|lia|].
    by apply (Forall_lookup_1 (fun n => 0 <= n < 64) _ _ _ (Forall_take _ 64 _ natural_inside)) in Hnat. }
  intros t Ht. destruct Hp as [Hpos Hqt Hdht Hsc Hfr Hex]. eapply safe_bind; [apply (set_len 4); [exact Hqt|lia]|]. intros qt Hqt'.
  eapply range_then; [split; [reflexivity|exact Hs]|lia|lia|lia|]. intros rest [Hrl Hrb].
  eapply safe_weaken; [apply IH; [by split|exact Hrb|]|].
  - lia.
  - intros p' [Hp' Hle]. split; [done|exact Hle].
Qed.

Lemma sizes_sum bits l n : Forall (fun b => 0 <= b) bits ->
  Zlen (sizes_from bits l (Z.of_nat n)) = foldr Z.add 0 (at_ix bits <$> seqZ l (Z.of_nat n)).
Proof.
  intros Hb. revert l. induction n as [|n IH]; intros l; [by rewrite sizes_from_none|]. rewrite sizes_count, seqZ_cons by (done || lia).
  cbn [fmap list_fmap foldr]. replace (Z.of_nat (S n) - 1) with (Z.of_nat n) by lia. rewrite IH. do 4 f_equal; lia.
Qed.

Lemma code_count counts : bytes_ok counts -> Zlen counts = 16 -> Zlen (code_sizes (0 :: counts)) = foldr Z.add 0 (0 :: counts).
Proof.
  intros Hc Hl. do 16 (destruct counts as [|? counts]; [cbn [length] in Hl; lia|]). destruct counts; [|cbn [length] in Hl; lia].
  assert (Forall (fun b => 0 <= b) (0 :: [z; z0; z1; z2; z3; z4; z5; z6; z7; z8; z9; z10; z11; z12; z13; z14])) as Hb.
  { constructor; [lia|]. eapply Forall_impl; [exact Hc|]. unfold is_byte. lia. }
  rewrite code_sizes_from, (sizes_sum _ 1 16) by done. change (seqZ 1 (Z.of_nat 16)) with [1; 2; 3; 4; 5; 6; 7; 8; 9; 10; 11; 12; 13; 14; 15; 16].
  cbv [at_ix nth Z.to_nat Pos.to_nat Pos.iter_op Nat.add fmap list_fmap foldr]. lia.
Qed.

(** The values of a segment, then zeros. *)
Lemma raw_of_counts counts vals : bytes_ok counts -> Zlen counts = 16 -> bytes_ok vals -> Zlen vals = foldr Z.add 0 (0 :: counts) ->
  Zlen vals <= 256 -> raw_ok (mkRawHuff (0 :: counts) (vals ++ replicate (Z.to_nat (256 - Zlen vals)) 0)).
Proof.
  intros Hc Hl Hv Hcount Hmax. split; cbn [rh_bits rh_vals].
  - constructor; [lia|]. eapply Forall_impl; [exact Hc|]. unfold is_byte. lia.
  - split; [rewrite length_app, length_replicate; lia|]. apply Forall_app. split; [done|]. apply Forall_replicate. unfold is_byte. lia.
  - rewrite drop_app_length'; [by apply Forall_replicate|]. pose proof (code_count counts Hc Hl). lia.
Qed.

Lemma set_table all class slot r : tables_ok all -> 0 <= class < 2 -> 0 <= slot < 4 -> raw_ok r ->
  safe (E:=ImageError) tables_ok (tables ← idx all class; tables ← idx_set tables slot (Some r); idx_set all class tables).
Proof.
  intros [Hlen Hall] Hclass Hslot Hr. apply (idx_then _ _ _ _ _ Hall); [lia|]. intros ts _ [Hts HF].
  eapply safe_bind; [apply (idx_set_ok _ ts _ _ HF); [by intros ? [= <-]|lia]|]. intros ts' [Hts' HF'].
  eapply safe_weaken; [apply (idx_set_ok _ all _ _ Hall); [|lia]|]; [split; [lia|done]|]. intros all' [? ?]. split; [lia|done].
Qed.

Lemma dht_ok fuel p s : parser_ok p -> bytes_ok s -> (length s <= fuel)%nat -> safe (onward p) (dht fuel p s).
Proof.
  revert p s. induction fuel as [|fuel IH]; intros p s Hp Hs Hfuel; (destruct s as [|index s']; [by split|]); [cbn in Hfuel; lia|].
  cbn [dht]. set (s := index :: s') in *. assert (is_byte index) as Hix by (by inversion Hs). cbv zeta.
  destruct (Z.ltb_spec (Zlen s) 17) as [|H17]; [done|]. assert (sized (Zlen s) s) as Hsz by done.
  eapply range_then; [exact Hsz|lia|lia|lia|]. intros counts [Hcl Hcb]. change (17 - 1) with 16 in Hcl.
  set (count := foldr Z.add 0 (0 :: counts)). destruct (Z.ltb_spec 256 count) as [|H256]; [done|].
  destruct (Z.ltb_spec (Zlen s - 17) count) as [|Hin]; [done|]. cbn [orb].
  assert (0 <= count) as Hc0 by (pose proof (code_count counts Hcb Hcl); lia).
  eapply range_then; [exact Hsz|lia|lia|lia|]. intros vals [Hvl Hvb]. replace (17 + count - 17) with count in Hvl by lia.
  assert (raw_ok (mkRawHuff (0 :: counts) (vals ++ replicate (Z.to_nat (256 - count)) 0))) as Hraw.
  { rewrite <- Hvl. apply raw_of_counts; [done|done|done|done|lia]. }
  set (raw := mkRawHuff _ _) in *.
  assert (exists class slot, (if negb (Z.land index 0x10 =? 0) then (1, index - 0x10) else (0, index)) = (class, slot) /\ 0 <= class < 2 /\ 0 <= slot)
    as (class & slot & -> & Hclass & Hslot).
  { unfold is_byte in Hix. destruct (Z.eqb_spec (Z.land index 0x10) 0) as [|Hbit]; cbn [negb]; [by exists 0, index; split; [|lia]|].
    exists 1, (index - 0x10). split; [done|]. split; [lia|]. destruct (Z.le_gt_cases 0x10 index); [lia|]. exfalso. apply Hbit.
    change (Z.land index (2 ^ 4) = 0). apply Z.bits_inj'. intros j Hj. rewrite Z.land_spec, Z.bits_0, Z.pow2_bits_eqb by lia.
    destruct (Z.eqb_spec 4 j) as [<-|]; [|apply andb_false_r]. rewrite Z.testbit_eqb, Z.div_small by lia. done. }
  destruct (Z.leb_spec 4 slot) as [|Hs4]; [done|].
  assert (safe (E:=ImageError) tables_ok (tables ← idx (pr_dht p) class; tables ← idx_set tables slot (Some raw); idx_set (pr_dht p) class tables)) as Hset.
  { apply set_table; [apply Hp|done|lia|done]. }
  destruct (idx (pr_dht p) class) as [ts| |]; cbn in Hset; [|done|done]. rewrite ok_bind.
  destruct (idx_set ts slot (Some raw)) as [ts'| |]; cbn in Hset; [|done|done]. rewrite ok_bind.
  eapply safe_bind; [exact Hset|]. intros all Hall. eapply range_then; [exact Hsz|lia|lia|lia|]. intros rest [Hrl Hrb].
  destruct Hp as [Hpos Hqt Hdht Hsc Hfr Hex]. eapply safe_weaken; [apply IH; [by split|exact Hrb|]|].
  - lia.
  - intros p' [Hp' Hle]. split; [done|exact Hle].
Qed.

(** * The frame header *)

Lemma buffers_later prog prog' c : buffers_ok prog false c -> buffers_ok prog' false c.
Proof. intros [H1 H2 _ _]. by split. Qed.

Lemma sof_ok p m s : parser_ok p -> bytes_ok s -> safe (onward p) (sof p m s).
Proof.
  intros [Hpos Hqt Hdht Hsc Hfr Hex] Hs. unfold sof. destruct (pr_frame p) as [|] eqn:Hf; cbn [is_some]; [done|].
  destruct (Z.ltb_spec (Zlen s) 6) as [|H6]; [done|]. cbv zeta.
  assert (forall i, 0 <= i < 6 -> is_byte (at_ix s i)) as Hat by (intros i Hi; apply (sized_at s (Zlen s)); [done|lia]).
  pose proof (be_val_two (at_ix s 1) (at_ix s 2) (Hat 1 ltac:(lia)) (Hat 2 ltac:(lia))) as Hh.
  pose proof (be_val_two (at_ix s 3) (at_ix s 4) (Hat 3 ltac:(lia)) (Hat 4 ltac:(lia))) as Hw.
  set (h := be_val [at_ix s 1; at_ix s 2]) in *. set (w := be_val [at_ix s 3; at_ix s 4]) in *. set (nc := at_ix s 5) in *.
  destruct (negb (at_ix s 0 =? 8)); [done|]. destruct ((nc =? 1) || (nc =? 3)) eqn:Hnc; cbn [negb]; [|done]. apply orb_true_iff in Hnc. rewrite !Z.eqb_eq in Hnc.
  destruct (Z.eqb_spec (Zlen s) (6 + 3 * nc)) as [Hlen|]; cbn [negb]; [|done].
  destruct (Z.eqb_spec w 0); [done|]. destruct (Z.eqb_spec h 0); [done|]. cbn [orb].
  destruct (_ || _); [done|]. destruct (Z.ltb_spec MAX_DECODE_PIXELS (w * h)) as [|Harea]; [done|].
  eapply safe_bind; [apply (safe_fold (fun i comps => Forall listed_ok comps /\ Zlen comps = i)); [lia|by split|]|].
  { intros i comps Hi [Hc Hl]. eapply sof_comp_ok; [by split|lia|lia|done|done]. }
  intros comps [Hcomps Hn]. set (mh := max_of (cp_h <$> comps)). set (mv := max_of (cp_v <$> comps)).
  eapply safe_bind.
  { apply (safe_mapM (fun c => listed_ok c /\ c ∈ comps)
      (comp_ok w h (div_up w (8 * mh)) (div_up h (8 * mv)) false false)).
    - apply Forall_forall. intros c Hc. split; [by eapply Forall_forall in Hcomps|done].
    - intros c [Hc Hin]. apply size_comp_ok; [lia|lia|done| |]; apply max_of_ge, list_elem_of_fmap; by exists c. }
  intros sized_comps [Hlen' Hok]. cbn [safe]. split; [|done]. split; [done..| |done].
  cbn [set_frame pr_scans pr_color pr_frame framed]. assert (pr_scans p = 0) as H0 by done. exists nc. split; [done|]. rewrite H0. split; [|lia].
  assert (exists c, c ∈ comps) as [c Hc]. { destruct comps as [|c l]; [cbn in Hn; lia|]. exists c. left. }
  pose proof (proj1 (Forall_forall _ _) Hcomps c Hc) as (Hch & Hcv & _).
  assert (cp_h c <= mh) as Hmh by (apply max_of_ge, list_elem_of_fmap; by exists c).
  assert (cp_v c <= mv) as Hmv by (apply max_of_ge, list_elem_of_fmap; by exists c).
  split; cbn [fr_width fr_height fr_mcus_x fr_mcus_y fr_comps fr_progressive]; try lia.
  - pose proof (div_up_spec w (8 * mh) ltac:(lia)). nia.
  - pose proof (div_up_spec h (8 * mv) ltac:(lia)). nia.
  - eapply Forall_impl; [exact Hok|]. intros c' [? Hb]. split; [done|by eapply buffers_later].
Qed.

(** * Application segments *)

Lemma starts_with_length s w : starts_with s w = true -> (length w <= length s)%nat.
Proof. intros ->%starts_with_true. rewrite length_app. lia. Qed.

Lemma app_segment_ok p m s : parser_ok p -> bytes_ok s -> safe (onward p) (app_segment p m s).
Proof.
  intros Hp Hs. assert (sized (Zlen s) s) as Hsz by done. unfold app_segment. destruct (0 <? pr_scans p); [by split|].
  destruct Hp as [Hpos Hqt Hdht Hsc Hfr Hex].
  assert (forall jfif adobe exif xmp, (forall e, exif = Some e -> bytes_ok e) -> onward p (set_app jfif adobe exif xmp p)) as Hset.
  { intros. split; [by split|done]. }
  destruct ((m =? 0xE0) && (14 <=? Zlen s) && starts_with s JFIF); [by apply Hset|].
  destruct ((m =? 0xEE) && (12 <=? Zlen s) && starts_with s (str "Adobe")) eqn:H2.
  { apply andb_true_iff in H2 as [[_ H12%Z.leb_le]%andb_true_iff _]. eapply byte_then; [exact Hsz|lia|]. intros b _. by apply Hset. }
  destruct ((m =? 0xE1) && starts_with s EXIF_ID) eqn:H3.
  { apply andb_true_iff in H3 as [_ H3%starts_with_length]. change (length EXIF_ID) with 6%nat in H3.
    destruct (pr_exif p) as [e|]; [|apply Hset; by intros ? [= <-]]. eapply range_then; [exact Hsz|lia|lia|lia|]. intros more [_ Hm].
    apply Hset. intros ? [= <-]. apply Forall_app. split; [by apply Hex|done]. }
  destruct ((m =? 0xE1) && starts_with s XMP_ID) eqn:H4; [|by split].
  apply andb_true_iff in H4 as [_ H4%starts_with_length]. change (length XMP_ID) with 29%nat in H4. cbv zeta.
  assert (0 <= match list_find (fun b => b = 0) s with Some (i, _) => Z.of_nat i | None => Zlen s - 1 end < Zlen s) as Hnul.
  { destruct (list_find _ s) as [[i b]|] eqn:Hfind; [|lia]. apply list_find_Some in Hfind as (Hi%lookup_lt_Some & _). lia. }
  eapply range_then; [exact Hsz|lia|lia|lia|]. intros x _. by apply Hset.
Qed.

(** * Scan headers *)

Lemma std_raw_ok : Forall (fun '(class, slot, bits, vals) => 0 <= class < 2 /\ 0 <= slot < 4 /\
  raw_ok (mkRawHuff (0 :: bits) (vals ++ replicate (256 - length vals) 0))) std_tables.
Proof.
  repeat constructor; try done; try (apply (bool_decide_unpack _); vm_compute; exact I).
Qed.

Lemma first_tables_ok prog all : tables_ok all -> safe tables_ok (fold_try (std_table prog) all std_tables).
Proof.
  intros Hall. apply safe_fold_all; [done|]. intros all' [[[class slot] bits] vals] Hin Hall'.
  pose proof (proj1 (Forall_forall _ _) std_raw_ok _ Hin) as H. cbv beta iota in H. destruct H as (Hc & Hs & Hr). unfold std_table. destruct Hall' as [Hl HF].
  apply (idx_then _ _ _ _ _ HF); [lia|]. intros ts Hts [Htl HtF]. apply (idx_then _ _ _ _ _ HtF); [lia|]. intros old _ _.
  destruct (_ && _); [|done]. pose proof (set_table all' class slot _ (conj Hl HF) Hc Hs Hr) as Hset.
  unfold idx in Hset at 1. destruct (class <? 0) eqn:E; [lia|]. rewrite Hts, ok_bind in Hset. exact Hset.
Qed.

Lemma buffers_allocated prog c : 0 <= cp_pbw c -> 0 <= cp_pbh c -> buffers_ok prog false c -> buffers_ok prog true (allocate prog c).
Proof.
  intros Hw Hh [H1 H2 _ _]. unfold allocate. destruct prog; split; cbn; try done; intros _.
  - replace (cp_pbw c * 8 * cp_pbh c * 8) with (cp_pbw c * 8 * (cp_pbh c * 8)) by ring. apply sized_zeros. nia.
  - intros _. rewrite length_replicate. nia.
  - replace (cp_pbw c * 8 * cp_pbh c * 8) with (cp_pbw c * 8 * (cp_pbh c * 8)) by ring. apply sized_zeros. nia.
Qed.

Lemma allocate_shape prog c : same_shape c (allocate prog c).
Proof. unfold allocate. by destruct prog. Qed.

Lemma allocated_ok n f : frame_ok false n f -> frame_ok true n (set_comps (allocate (fr_progressive f) <$> fr_comps f) f).
Proof.
  intros [Hw Hh Ha Hx Hy Hn Hc]. split; cbn; [done..|by rewrite length_fmap|]. apply Forall_fmap. eapply Forall_impl; [exact Hc|].
  intros c [Hg Hb]. split; [eapply geometry_same; [apply allocate_shape|done]|]. apply buffers_allocated; [| |done]; destruct Hg; lia.
Qed.

(** The parser and its frame when the components of a scan are known. *)
Definition scanning (p p' : JParser) (f' : Frame) (n : Z) : Prop :=
  pr_pos p' = pr_pos p /\ pr_qt p' = pr_qt p /\ tables_ok (pr_dht p') /\ pr_scans p' = pr_scans p /\ pr_exif p' = pr_exif p /\
  (pr_color p' = Gray <-> n = 1) /\ frame_ok true n f'.

Lemma first_scan_ok p f ns n : parser_ok p -> n = 1 \/ n = 3 -> frame_ok false n f ->
  safe (fun '(p', f') => scanning p p' f' n) (first_scan p f ns).
Proof.
  intros [Hpos Hqt Hdht Hsc Hfr Hex] Hn Hf. unfold first_scan. eapply safe_bind; [by apply first_tables_ok|]. intros all Hall.
  cbn [safe]. split; [done|split; [done|split; [done|split; [done|split; [done|split; [|by apply allocated_ok]]]]]].
  cbn [pr_color]. unfold choose_color. pose proof (fok_n _ _ _ Hf) as Hlen. destruct (Nat.eqb_spec (length (fr_comps f)) 1) as [E|E]; [split; [lia|done]|].
  split; [|lia]. destruct (pr_jfif p); [done|]. destruct (pr_adobe p) as [t|]; [by destruct (t =? 0)|]. by destruct (bool_decide _).
Qed.

(** Entries of the scan's component list. *)
Definition entry_in (n : Z) (x : Z * Z * Z) : Prop := 0 <= fst (fst x) < n.

Lemma sos_comp_ok s m f n i sc : sized m s -> 0 <= i -> 2 + 2 * i < m -> Zlen (fr_comps f) = n -> Forall (entry_in n) sc -> Zlen sc = i ->
  safe (fun sc => Forall (entry_in n) sc /\ Zlen sc = i + 1) (sos_comp s f sc i).
Proof.
  intros Hs Hi Hm Hn Hsc Hlen. unfold sos_comp. eapply byte_then; [exact Hs|lia|]. intros id _. eapply byte_then; [exact Hs|lia|]. intros t _.
  destruct (list_find _ _) as [[ci c]|] eqn:Hfind; [|done]. apply list_find_Some in Hfind as (Hci%lookup_lt_Some & _). cbv zeta.
  destruct (existsb _ _); [done|]. cbn [safe]. split; [|rewrite length_app; cbn; lia]. apply Forall_app. split; [done|].
  constructor; [|done]. unfold entry_in. cbn. lia.
Qed.

(** A component of the frame, whether it is latched or not. *)
Lemma component_then {B} alloc n f ci (k : Comp -> outcome ImageError B) (Q : B -> Prop) : frame_ok alloc n f -> 0 <= ci < n ->
  (forall c, fr_comps f !! Z.to_nat ci = Some c ->
     comp_ok (fr_width f) (fr_height f) (fr_mcus_x f) (fr_mcus_y f) (fr_progressive f) alloc c -> safe Q (k c)) ->
  safe Q (comp_at f ci ≫= k).
Proof.
  intros Hf Hci Hk. apply (idx_then _ _ _ _ _ (fok_comps _ _ _ Hf)); [rewrite (fok_n _ _ _ Hf); lia|]. intros c Hc Hok. by apply Hk.
Qed.

Lemma latch_ok qt n f x : Zlen qt = 4 -> frame_ok true n f -> entry_in n x ->
  safe (fun f' => frame_ok true n f' /\ like f f' /\ (forall cis, latched f cis -> latched f' (fst (fst x) :: cis))) (latch qt f x).
Proof.
  intros Hqt Hf Hx. unfold latch. cbv zeta. eapply component_then; [done|done|]. intros c Hc [Hg Hb].
  eapply (safe_bind (fun '(q, _) => exists t, q = Some t)).
  { destruct (cp_q c) as [q|]; [by exists q|]. apply idx_then'; [destruct Hg; lia|]. intros t _. destruct t as [t|]; [|done]. cbn. by exists (as_i16 <$> t). }
  intros [q qraw] [t ->]. destruct Hb as [Hb1 Hb2 Hb3 Hb4]. unfold entry_in in Hx.
  eapply safe_weaken; [eapply update_frame; [done|lia|done|done|by split|]|].
  { intros q' _. by exists t. }
  intros f' (Hf' & Hl & Hlat & Hlook). split; [done|split; [done|]]. intros cis Hcis. constructor; [|by apply Hlat].
  split; [lia|]. eexists _, t. by split.
Qed.

Lemma latches_ok qt n sc : Zlen qt = 4 -> Forall (entry_in n) sc -> forall f cis, frame_ok true n f -> latched f cis ->
  safe (fun f' => frame_ok true n f' /\ like f f' /\ latched f' cis /\ latched f' ((fun x => fst (fst x)) <$> sc)) (fold_try (latch qt) f sc).
Proof.
  intros Hqt Hsc. induction Hsc as [|x sc Hx Hsc IH]; intros f cis Hf Hcis; [split; [done|split; [apply like_refl|split; [done|constructor]]]|].
  cbn [fold_try]. eapply safe_bind; [by apply latch_ok|]. intros f1 (Hf1 & Hl1 & Hlat). 
  eapply safe_weaken; [apply (IH f1 (fst (fst x) :: cis)); [done|by apply Hlat]|]. intros f2 (Hf2 & Hl2 & Hc2 & Hs2).
  inversion Hc2 as [|? ? Hx2 Hcis2]; subst. split; [done|split; [by eapply like_trans|split; [done|by constructor]]].
Qed.

Lemma mcu_blocks_ok n f sc : frame_ok true n f -> Forall (entry_in n) sc -> safe (fun _ => True) (mcu_blocks f sc).
Proof.
  intros Hf Hsc. unfold mcu_blocks. apply safe_fold_all; [done|]. intros b x Hx _. eapply component_then; [done| |done].
  by eapply Forall_forall in Hsc.
Qed.

Lemma record_bits_ok scans ss se al n cis f x : 0 <= ss <= se -> se <= 63 -> scan_frame n cis f -> entry_in n x ->
  safe (fun f' => scan_frame n cis f' /\ like f f') (record_bits scans ss se al f x).
Proof.
  intros Hss Hse [Hf Hlat] Hx. unfold record_bits. cbv zeta. eapply component_then; [done|done|]. intros c Hc [Hg [Hb1 Hb2 Hb3 Hb4]].
  eapply safe_bind; [apply (safe_fold_all (fun l => Zlen l = 64)); [done|]|].
  { intros prev k Hk%elem_of_seqZ Hp. eapply (safe_bind (fun _ => True)).
    - destruct (1 <? _); [|done]. by destruct (idx_in (E:=ImageError) (cp_coef_bits c) k) as (v & _ & ->); [lia|].
    - intros v _. apply set_len; [done|lia]. }
  intros prev Hprev. eapply safe_bind; [apply (safe_fold_all (fun l => Zlen l = 64)); [done|]|].
  { intros bits k Hk%elem_of_seqZ Hbits. apply set_len; [done|lia]. }
  intros bits Hbits. unfold entry_in in Hx. eapply safe_weaken; [eapply update_frame; [done|lia|done|done|by split|]|].
  { intros q Hq. by exists q. }
  intros f' (Hf' & Hl & Hlat' & _). split; [split; [done|by apply Hlat']|done].
Qed.

Lemma scan_kind_ok scans n f sc ns ss se ah al : is_byte ss -> is_byte se -> Forall (entry_in n) sc -> scan_frame n ((fun x => fst (fst x)) <$> sc) f ->
  safe (fun '(kind, f') => scan_frame n ((fun x => fst (fst x)) <$> sc) f' /\ like f f' /\ (kind = Sequential <-> fr_progressive f = false) /\
     (kind <> Sequential -> 0 <= ss /\ se <= 63)) (scan_kind scans f sc ns ss se ah al).
Proof.
  unfold is_byte. intros Hss Hse Hsc Hf. unfold scan_kind. destruct (fr_progressive f) eqn:Hp.
  - cbv zeta. destruct (_ || (13 <? al)) eqn:Hbad; [done|]. apply orb_false_iff in Hbad as [[Hband _]%orb_false_iff _].
    assert (ss <= se /\ se <= 63) as Hin.
    { destruct (Z.eqb_spec ss 0); [apply negb_false_iff, Z.eqb_eq in Hband; lia|].
      apply orb_false_iff in Hband as [[H1%Z.ltb_ge H2%Z.leb_gt]%orb_false_iff _]. lia. }
    eapply safe_bind.
    { apply (safe_fold_all (fun f' => scan_frame n ((fun x => fst (fst x)) <$> sc) f' /\ like f f')); [split; [done|apply like_refl]|].
      intros f1 x Hx [Hf1 Hl1]. eapply safe_weaken; [apply record_bits_ok; [lia|lia|exact Hf1|by apply (proj1 (Forall_forall _ _) Hsc)]|].
      intros f2 [Hf2 Hl2]. split; [done|by eapply like_trans]. }
    intros f' [Hf' Hl]. cbn [safe]. split; [done|split; [done|split; [|lia]]]. by destruct (ss =? 0), (ah =? 0).
  - cbn. split; [done|split; [apply like_refl|done]].
Qed.

Lemma derived_ok all class slot : tables_ok all -> 0 <= class < 2 -> safe (huff_ok (symbol (class =? 0))) (derived all class slot).
Proof.
  intros [Hl HF] Hc. unfold derived. apply (idx_then _ _ _ _ _ HF); [lia|]. intros ts _ [_ Hts].
  destruct (ts !! Z.to_nat slot) as [[raw|]|] eqn:Hraw; [|done|done]. apply Huff_new_ok. pose proof (Forall_lookup_1 _ _ _ _ Hts Hraw) as H. by apply H.
Qed.

Lemma scan_tables_ok all kind x : tables_ok all ->
  safe (fun '(dc, ac) => (forall t, dc = Some t -> huff_ok (symbol true) t) /\ (forall t, ac = Some t -> huff_ok (symbol false) t)) (scan_tables all kind x).
Proof.
  intros Hall. destruct x as [[ci td] ta]. unfold scan_tables.
  eapply (safe_bind (fun dc => forall t, dc = Some t -> huff_ok (symbol true) t)).
  { destruct (needs_dc kind); [|done]. eapply safe_bind; [by apply (derived_ok all 0 td)|]. intros t Ht. cbn. by intros ? [= <-]. }
  intros dc Hdc. eapply (safe_bind (fun ac => forall t, ac = Some t -> huff_ok (symbol false) t)); [|by intros ac Hac].
  destruct (needs_ac kind); [|done]. eapply safe_bind; [by apply (derived_ok all 1 ta)|]. intros t Ht. cbn. by intros ? [= <-].
Qed.

(** * The loop *)

Section data.
Context (data : list Z) (Hdata : bytes_ok data).

Lemma sos_scan_ok p f s ns sc n : parser_ok p -> pr_frame p = Some f -> n = 1 \/ n = 3 -> frame_ok (0 <? pr_scans p) n f ->
  (0 < pr_scans p -> pr_color p = Gray <-> n = 1) -> sized (4 + 2 * ns) s -> 1 <= ns -> Forall (entry_in n) sc -> Zlen sc = ns ->
  safe (onward p) (sos_scan data p f s ns sc).
Proof.
  intros Hp Hpf Hn Hf Hcolor Hs Hns Hsc Hlen. pose proof Hp as [Hpos Hqt Hdht Hscans Hfr Hex]. unfold sos_scan.
  eapply byte_then; [exact Hs|lia|]. intros ss Hss. eapply byte_then; [exact Hs|lia|]. intros se Hse.
  eapply byte_then; [exact Hs|lia|]. intros a Ha. cbv zeta. eapply (safe_bind (fun '(p', f') => scanning p p' f' n)).
  { destruct (Z.eqb_spec (pr_scans p) 0) as [H0|H0].
    - rewrite H0 in Hf. by apply first_scan_ok.
    - destruct (pr_single_scan p); [done|]. assert (0 < pr_scans p) as Hgt by lia. rewrite (proj2 (Z.ltb_lt _ _) Hgt) in Hf.
      split; [done|split; [done|split; [done|split; [done|split; [done|split; [by apply Hcolor|done]]]]]]. }
  intros [p1 f1] (E1 & E2 & Hdht1 & E4 & E5 & Hcol1 & Hf1). rewrite <- E2 in Hqt.
  eapply safe_bind; [apply (latches_ok _ n sc Hqt Hsc f1 []); [done|constructor]|]. intros f2 (Hf2 & _ & _ & Hlat2).
  eapply safe_bind; [by eapply mcu_blocks_ok|]. intros blocks _. destruct (_ && _); [done|].
  eapply safe_bind; [by apply (scan_kind_ok _ n)|]. intros [kind f3] (Hf3 & Hl3 & Hkind & Hband).
  eapply safe_bind; [apply (safe_mapM (fun _ => True)); [by apply Forall_true|]; intros x _; by apply scan_tables_ok|]. intros ts [Htl Hts].
  eapply safe_bind.
  { apply (decode_scan_ok data n); [done|by rewrite E1| |exact Hf3]. split; cbn [sc_kind sc_ss sc_se sc_comps].
    - by rewrite (lk_prog _ _ Hl3).
    - done.
    - rewrite length_fmap. lia.
    - rewrite !length_fmap. lia.
    - rewrite !length_fmap. lia.
    - apply Forall_fmap. eapply Forall_impl; [exact Hts|]. intros [dc ac] [? ?]. done.
    - apply Forall_fmap. eapply Forall_impl; [exact Hts|]. intros [dc ac] [? ?]. done. }
  intros [pos f4] (Hpos4 & Hf4 & _). cbn [safe]. unfold onward. cbn [pr_pos]. rewrite E1 in Hpos4. split; [|done].
  split; cbn; [lia|done|done|lia| |by rewrite E5]. exists n. split; [done|]. rewrite (proj2 (Z.ltb_lt _ _)) by lia. split; [done|]. by intros _.
Qed.

Lemma sos_ok p s : parser_ok p -> bytes_ok s -> safe (onward p) (sos data p s).
Proof.
  intros Hp Hs. unfold sos. pose proof (pok_frame _ Hp) as Hfr. destruct (pr_frame p) as [f|] eqn:Hf; [|done].
  destruct Hfr as (n & Hn & Hfok & Hcolor). cbv zeta. set (ns := default 0 (head s)). destruct (between 1 4 ns) eqn:Hb; [|done]. apply between_inv in Hb.
  destruct (Z.eqb_spec (Zlen s) (4 + 2 * ns)) as [Hlen|]; [|done]. cbn [negb orb].
  assert (sized (4 + 2 * ns) s) as Hsz by done.
  eapply safe_bind; [apply (safe_fold (fun i sc => Forall (entry_in n) sc /\ Zlen sc = i)); [lia|by split|]|].
  { intros i sc Hi [Hsc Hl]. eapply sos_comp_ok; [exact Hsz|lia|lia|apply Hfok|done|done]. }
  intros sc [Hsc Hl]. rewrite Z.add_0_l in Hl. eapply sos_scan_ok; [done|done|exact Hn|done|done|done|lia|done|done].
Qed.

Lemma next_marker_ok p : parser_ok p ->
  safe (fun '(_, p') => parser_ok p' /\ pr_pos p < pr_pos p' <= Zlen data) (next_marker data p).
Proof.
  intros Hp. unfold next_marker. destruct (find_marker data (pr_pos p)) as [[at_ m]|] eqn:Hf; [|done].
  apply find_marker_ok in Hf as [H1 H2]; [|apply Hp]. cbn. destruct Hp. split; [split; cbn; (lia || done)|lia].
Qed.

Lemma segment_ok p : parser_ok p -> safe (fun '(s, p') => bytes_ok s /\ onward p p') (segment data p).
Proof.
  intros Hp. unfold segment. destruct (get_range data (pr_pos p) _) as [l|] eqn:Hl; [|done]. cbn [ok_or]. rewrite ok_bind. cbv zeta.
  destruct (Z.ltb_spec (be_val l) 2) as [|Hlen]; [done|]. destruct (get_range data (pr_pos p + 2) _) as [seg|] eqn:Hs; [|done]. cbn [ok_or]. rewrite ok_bind.
  apply get_range_Some in Hs as (-> & _). cbn [safe]. split; [by apply bytes_ok_slice|]. destruct Hp. split; [split; cbn; (lia || done)|cbn; lia].
Qed.

Lemma segment_then p (k : list Z * JParser -> outcome ImageError JParser) : parser_ok p ->
  (forall s p', bytes_ok s -> parser_ok p' -> safe (onward p') (k (s, p'))) -> safe (onward p) (segment data p ≫= k).
Proof.
  intros Hp Hk. eapply safe_bind; [by apply segment_ok|]. intros [s p'] [Hs Hp']. eapply safe_weaken; [apply Hk; [done|apply Hp']|].
  intros p2 Hp2. by eapply onward_trans.
Qed.

Lemma on_marker_ok m p : parser_ok p -> safe (onward p) (on_marker data m p).
Proof.
  intros Hp. unfold on_marker. assert (onward p p) as Hrefl by (by split).
  repeat match goal with |- safe _ (if ?b then _ else _) => destruct b end; try done; apply segment_then; try done; intros s p' Hs Hp'.
  - by apply sof_ok.
  - by apply dht_ok.
  - by apply dqt_ok.
  - destruct (negb (_ =? 2)); [done|]. destruct Hp'. by split.
  - by apply sos_ok.
  - by apply app_segment_ok.
Qed.

Lemma run_loop_ok n p : parser_ok p -> (0 < n)%nat -> Zlen data - pr_pos p < Z.of_nat n -> safe parser_ok (run_loop data n p).
Proof.
  revert p. induction n as [|n IH]; intros p Hp Hn Hfuel; [lia|]. cbn [run_loop]. eapply safe_bind; [by apply next_marker_ok|].
  intros [m p1] [Hp1 Hpos]. destruct (m =? 0xD9); [done|]. eapply safe_bind; [by apply on_marker_ok|]. intros p2 [Hp2 Hle]. apply IH; [done|lia|lia].
Qed.
End data.

Lemma parser_new_ok : parser_ok Parser_new.
Proof.
  split; cbn; try done. split; [done|]. repeat constructor; done.
Qed.
