(* ===== verification/JpegFinish.v ===== *)
(** Finishing a JPEG image never panics: smoothing reads inside the block grid, upsampling
    inside the planes and the row buffers, and the pixels are three bytes each. *)
From Stdlib Require Import ZArith Lia Bool.
From stdpp Require Import base list gmap strings.
From S2P Require Import Prelude Utf8 Scan Base64 Buffers Exif Png JpegIdct JpegBits JpegScan PngTotal Jpeg JpegFrames JpegMarkers.

(** * Smoothing *)

Definition quantized (q : list Z) : Prop := Forall (fun i => at_ix q i <> 0) SMOOTHED.

Lemma estimate_ok num qk al : qk <> 0 -> safe (fun _ => True) (estimate num qk al).
Proof. intros H. unfold estimate. by destruct (Z.eqb_spec qk 0). Qed.

Lemma smooth_coef_ok d bits q ws i k terms : quantized q -> k ∈ SMOOTHED -> Zlen ws = 64 ->
  safe (fun ws => Zlen ws = 64) (smooth_coef d bits q ws (i, k, terms)).
Proof.
  intros Hq Hk Hws. unfold smooth_coef. destruct (_ && _); [|done].
  eapply safe_bind; [apply estimate_ok; by apply (proj1 (Forall_forall _ _) Hq)|]. intros p _. apply set_len; [done|].
  assert (Forall (fun k => 0 <= k < 64) SMOOTHED) as Hall by (repeat constructor; lia). by apply (proj1 (Forall_forall _ _) Hall).
Qed.

Lemma smooth_coefs_ok d bits q l ws : quantized q -> Forall (fun x => snd (fst x) ∈ SMOOTHED) l -> Zlen ws = 64 ->
  safe (fun ws => Zlen ws = 64) (fold_try (smooth_coef d bits q) ws l).
Proof.
  intros Hq Hl Hws. apply safe_fold_all; [done|]. intros ws' [[i k] terms] Hx Hws'. apply smooth_coef_ok; [done| |done].
  by apply (proj1 (Forall_forall _ _) Hl) in Hx.
Qed.

Lemma smooth_block_ok ws d bits change q : quantized q -> Zlen ws = 64 -> safe (fun ws => Zlen ws = 64) (smooth_block ws d bits change q).
Proof.
  intros Hq Hws. unfold smooth_block. cbv zeta. eapply safe_bind.
  { apply smooth_coefs_ok; [done| |done]. repeat (apply Forall_cons; split; [apply (bool_decide_unpack _); vm_compute; exact I|]). constructor. }
  intros ws1 Hws1. destruct change; [|done]. eapply safe_bind.
  { apply smooth_coefs_ok; [done| |done]. repeat (apply Forall_cons; split; [apply (bool_decide_unpack _); vm_compute; exact I|]). constructor. }
  intros ws2 Hws2. eapply safe_bind; [apply estimate_ok|]; [by apply (proj1 (Forall_forall _ _) Hq); left|]. intros p _. apply set_len; [done|lia].
Qed.

(** A component of a progressive frame whose coefficients are all there, as [c0] was. *)
Definition whole (w h mx my : Z) (c0 c : Comp) : Prop :=
  same_shape c0 c /\ cp_qraw c = cp_qraw c0 /\ comp_ok w h mx my true true c.

(** A component whose plane is there. *)
Definition planed (w h mx my : Z) (c : Comp) : Prop := geometry_ok w h mx my c /\ sized (cp_pbw c * 8 * (cp_pbh c * 8)) (cp_plane c).

Section component.
Context (w h mx my : Z).

Lemma whole_plane c0 c p : whole w h mx my c0 c -> sized (cp_pbw c * 8 * (cp_pbh c * 8)) p -> whole w h mx my c0 (set_plane p c).
Proof.
  intros (Hs & Hq & [Hg [H1 H2 H3 H4]]) Hp. split; [done|split; [done|]]. split; [by apply (geometry_same _ _ _ _ c)|]. by split.
Qed.

Lemma dc_at_ok c0 c rr cc : whole w h mx my c0 c -> 0 <= rr < cp_pbh c -> 0 <= cc < cp_pbw c -> safe (fun _ => True) (dc_at c rr cc).
Proof.
  intros (_ & _ & [_ [_ _ _ Hc]]) Hr Hcc. specialize (Hc eq_refl eq_refl). pose proof (coef_block _ _ _ _ Hr Hcc) as [H1 H2].
  unfold dc_at. by destruct (idx_in (E:=ImageError) (cp_coefs c) ((rr * cp_pbw c + cc) * 64)) as (x & _ & ->); [lia|].
Qed.

Lemma clamp_range v lo hi : lo <= hi -> lo <= clamp v lo hi <= hi.
Proof. intros. unfold clamp. destruct (Z.ltb_spec v lo); [lia|]. destruct (Z.ltb_spec hi v); lia. Qed.

Lemma smooth_at_ok q bits change rows row c0 c col : quantized (cp_qraw c0) -> whole w h mx my c0 c ->
  Forall (fun r => 0 <= r < cp_pbh c0) rows -> 0 <= row < cp_pbh c0 -> 0 <= col < cp_bw c0 ->
  safe (whole w h mx my c0) (smooth_at q bits change rows row c col).
Proof.
  intros Hq Hc Hrows Hrow Hcol. pose proof Hc as ((E1 & E2 & E3 & E4 & E5 & E6 & E7 & E8 & E9 & E10) & Eq & [Hg Hb]). unfold smooth_at. cbv zeta.
  pose proof (gok_bw _ _ _ _ _ Hg) as Hbw.
  eapply safe_bind.
  { apply (safe_mapM (fun rj => 0 <= fst rj < cp_pbh c) (fun _ => True)).
    - apply Forall_concat, Forall_fmap. eapply Forall_impl; [exact Hrows|]. intros rr Hrr. cbn. apply Forall_fmap, Forall_forall. intros j _. cbn. by rewrite E9.
    - intros [rr j] Hrr. apply (dc_at_ok c0); [done|exact Hrr|]. pose proof (clamp_range (col + snd (rr, j) - 2) 0 (cp_bw c - 1)). lia. }
  intros d _. destruct (coef_block (cp_pbw c) (cp_pbh c) row col) as [H1 H2]; [lia|lia|].
  eapply safe_bind; [eapply range_len; [by apply Hb|lia|lia|lia]|]. intros ws Hws. cbv beta in Hws.
  eapply safe_bind; [apply smooth_block_ok; [by rewrite Eq|lia]|]. intros ws' _.
  eapply safe_bind; [eapply idct_into; [by split|]|]; [split; cbn; lia|]. intros plane Hp. by apply whole_plane.
Qed.

(** The rows a block row looks at are in the grid. *)
Lemma rows_inside v br r b : 1 <= v -> 1 <= br <= v -> 0 <= r < my -> (r + 1 < my -> br = v) -> 0 <= b < br ->
  let ibr := r * br + b in let row := r * v + b in
  let prev := if 0 <? ibr then row - 1 else row in let pprev := if 1 <? ibr then row - 2 else prev in
  let next := if ibr <? br * my - 1 then row + 1 else row in let nnext := if ibr <? br * my - 2 then row + 2 else next in
  0 <= row < my * v /\ Forall (fun r => 0 <= r < my * v) [pprev; prev; row; next; nnext].
Proof.
  intros Hv Hbr Hr Hfull Hb. cbv zeta. assert (r * br <= r * v) as Hle by nia. assert (0 <= r * br) as H0 by nia.
  assert (r * v + v <= my * v) as Hrow by nia.
  assert (r + 1 < my -> r * br = r * v /\ br * my = my * v) as Hsame by (intros H; rewrite (Hfull H); lia).
  assert (r + 1 = my -> br * my = r * br + br /\ my * v = r * v + v) as Hlast by (intros <-; lia).
  assert (r + 1 < my \/ r + 1 = my) as Hcases by lia.
  split; [lia|]. destruct (Z.ltb_spec 0 (r * br + b)), (Z.ltb_spec 1 (r * br + b)), (Z.ltb_spec (r * br + b) (br * my - 1)), (Z.ltb_spec (r * br + b) (br * my - 2));
    repeat (apply Forall_cons; split; [lia|]); constructor.
Qed.

Lemma smooth_imcu_row_ok q latch last c0 c r : quantized (cp_qraw c0) -> whole w h mx my c0 c -> 0 <= r < my ->
  safe (whole w h mx my c0) (smooth_imcu_row q latch my last c r).
Proof.
  intros Hq Hc Hr. unfold smooth_imcu_row. cbv zeta. pose proof Hc as ((E1 & E2 & E3 & E4 & E5 & E6 & E7 & E8 & E9 & E10) & _ & [Hg _]).
  pose proof (gok_v _ _ _ _ _ Hg) as Hv. pose proof (gok_pbh _ _ _ _ _ Hg) as Hpbh.
  set (br := if r + 1 <? my then _ else _). assert (1 <= br <= cp_v c /\ (r + 1 < my -> br = cp_v c)) as [Hbr Hfull].
  { subst br. destruct (Z.ltb_spec (r + 1) my); [lia|]. split; [|lia]. pose proof (Z.mod_pos_bound (cp_bh c) (cp_v c) ltac:(lia)).
    destruct (Z.eqb_spec (cp_bh c mod cp_v c) 0); lia. }
  clearbody br. apply safe_fold_all; [done|]. intros c1 b Hb%elem_of_seqZ Hc1. unfold smooth_row. cbv zeta.
  pose proof Hc1 as ((F1 & F2 & F3 & F4 & F5 & F6 & F7 & F8 & F9 & F10) & _ & [Hg1 _]). rewrite F2, <- E2, F6.
  destruct (rows_inside (cp_v c) br r b) as [Hrow Hrows]; [lia|lia|lia|done|lia|]. rewrite <- Hpbh, E9 in Hrow, Hrows.
  apply safe_fold_all; [done|]. intros c2 col Hcol%elem_of_seqZ Hc2. apply smooth_at_ok; [done|done|exact Hrows|done|lia].
Qed.

Lemma idct_smoothed_ok c latch last : quantized (cp_qraw c) -> comp_ok w h mx my true true c ->
  safe (planed w h mx my) (idct_smoothed c latch my last).
Proof.
  intros Hq Hc. unfold idct_smoothed. cbv zeta. eapply safe_weaken; [apply (safe_fold_all (whole w h mx my c))|].
  - split; [apply same_refl|done].
  - intros c1 r Hr%elem_of_seqZ Hc1. apply smooth_imcu_row_ok; [done|done|lia].
  - intros c1 (_ & _ & [Hg Hb]). split; [done|by apply Hb].
Qed.

Lemma idct_blocks_ok c : comp_ok w h mx my true true c -> safe (planed w h mx my) (idct_blocks c).
Proof.
  intros Hc. unfold idct_blocks. cbv zeta. eapply (safe_bind (whole w h mx my c)).
  - apply safe_fold_all; [split; [apply same_refl|done]|]. intros c1 row Hrow%elem_of_seqZ Hc1.
    pose proof Hc1 as ((E1 & E2 & E3 & E4 & E5 & E6 & E7 & E8 & E9 & E10) & _ & [Hg1 Hb1]). rewrite E6.
    apply safe_fold_all; [done|]. intros c2 col Hcol%elem_of_seqZ Hc2.
    pose proof Hc2 as ((F1 & F2 & F3 & F4 & F5 & F6 & F7 & F8 & F9 & F10) & _ & [Hg2 Hb2]).
    pose proof (gok_bw _ _ _ _ _ Hg2) as Hbw. pose proof (gok_bh _ _ _ _ _ Hg2) as Hbh.
    destruct (coef_block (cp_pbw c2) (cp_pbh c2) row col) as [H1 H2]; [lia|lia|].
    eapply safe_bind; [eapply range_len; [by apply Hb2|lia|lia|lia]|]. intros blk _.
    eapply safe_bind; [eapply idct_into; [by split|]|]; [split; cbn; lia|]. intros plane Hp. by apply whole_plane.
  - intros c1 (_ & _ & [Hg Hb]). cbn. split; [by apply (geometry_same _ _ _ _ c1)|by apply Hb].
Qed.
End component.

(** * The planes of a frame *)

(** A frame ready for its pixels. *)
Record planes_ok (n : Z) (f : Frame) : Prop := {
  pl_w : 1 <= fr_width f;
  pl_h : 1 <= fr_height f;
  pl_area : fr_width f * fr_height f <= MAX_DECODE_PIXELS;
  pl_n : Zlen (fr_comps f) = n;
  pl_comps : Forall (planed (fr_width f) (fr_height f) (fr_mcus_x f) (fr_mcus_y f)) (fr_comps f)
}.

Lemma component_latch_quantized scans c l : component_latch scans c = Some l -> quantized (cp_qraw c).
Proof.
  unfold component_latch. destruct (cp_q c); [|done]. cbn [mbind option_bind]. destruct (existsb _ SMOOTHED) eqn:He; [done|]. intros _.
  apply Forall_forall. intros i Hi H0. apply not_true_iff_false in He. apply He, existsb_exists. exists i.
  split; [by apply list_elem_of_In|]. by apply Z.eqb_eq.
Qed.

Lemma latches_quantized frame scans latches : smoothing_latches frame scans = Some latches ->
  Forall (fun c => quantized (cp_qraw c)) (fr_comps frame) /\ length latches = length (fr_comps frame).
Proof.
  unfold smoothing_latches. destruct (mapM _ _) as [ls|] eqn:Hm; [|done]. cbn. destruct (existsb _ ls); [|done]. intros [= <-].
  apply mapM_Some in Hm. rewrite length_fmap. split; [|symmetry; by eapply Forall2_length].
  eapply Forall2_Forall_l; [exact Hm|]. apply Forall_true. intros l c. apply component_latch_quantized.
Qed.

(** The smoothed components have no coefficients left; the others have all of them. *)
Definition smoothed_or_whole (w h mx my : Z) (c : Comp) : Prop :=
  planed w h mx my c /\ cp_coefs c = [] \/ comp_ok w h mx my true true c.

Lemma finish_planes_ok n f scans : frame_ok true n f -> safe (fun f' => planes_ok n f' /\ fr_width f' = fr_width f /\ fr_height f' = fr_height f) (finish_planes f scans).
Proof.
  intros [Hw Hh Ha Hx Hy Hn Hc]. unfold finish_planes. set (w := fr_width f) in *. set (h := fr_height f) in *.
  set (mx := fr_mcus_x f) in *. set (my := fr_mcus_y f) in *. destruct (fr_progressive f) eqn:Hp.
  - eapply (safe_bind (fun comps => Zlen comps = n /\ Forall (smoothed_or_whole w h mx my) comps)).
    { destruct (smoothing_latches f scans) as [latches|] eqn:Hl; [|split; [done|]; eapply Forall_impl; [exact Hc|]; intros c H; by right].
      apply latches_quantized in Hl as [Hq Hlen].
      eapply safe_weaken; [apply (safe_mapM (fun cl => quantized (cp_qraw (fst cl)) /\ comp_ok w h mx my true true (fst cl)) (smoothed_or_whole w h mx my))|].
      - apply Forall_forall. intros [c l] [i Hi]%list_elem_of_lookup. apply lookup_zip_with_Some in Hi as (c' & l' & [= -> ->] & Hci & _).
        split; [by eapply Forall_lookup_1 in Hq|by eapply Forall_lookup_1 in Hc].
      - intros [c l] [Hqc Hcc]. eapply safe_bind; [by apply (idct_smoothed_ok w h mx my)|]. intros c' [Hg Hpl]. left.
        split; [|done]. split; [by apply (geometry_same _ _ _ _ c')|done].
      - intros k [Hk HF]. split; [|done]. rewrite length_zip_with in Hk. lia. }
    intros comps [Hlen Hcomps]. eapply safe_bind.
    { apply (safe_mapM (smoothed_or_whole w h mx my) (planed w h mx my)); [done|]. intros c [[Hpl Hnil]|Hcc].
      - rewrite bool_decide_true by done. done.
      - destruct (negb _); [by apply idct_blocks_ok|]. destruct Hcc as [Hg Hb]. cbn. split; [done|by apply Hb]. }
    intros comps' [Hl' HF]. cbn [safe]. split; [|done]. split; cbn; [done|done|done|lia|done].
  - cbn [safe]. split; [|done]. split; cbn; [done|done|done|by rewrite length_fmap|]. apply Forall_fmap. eapply Forall_impl; [exact Hc|].
    intros c [Hg [_ _ Hpl _]]. specialize (Hpl eq_refl). cbn. destruct (cp_scanned c); [by split|]. split; [by apply (geometry_same _ _ _ _ c)|].
    cbn. destruct Hpl as [Hl _]. split; [by rewrite length_replicate|]. apply Forall_replicate. unfold is_byte. lia.
Qed.

(** * Upsampling *)

Lemma set_byte n (l : list Z) i x : sized n l -> is_byte x -> 0 <= i < n -> safe (E:=ImageError) (sized n) (idx_set l i x).
Proof. intros [Hl Hb] Hx Hi. eapply safe_weaken; [by apply (idx_set_ok is_byte); [| |lia]|]. intros k [Hk HF]. split; [lia|done]. Qed.

Lemma fancy_pair n m (buf : list Z) x a b : sized m buf -> 0 <= x -> 2 * n <= m -> x < n -> is_byte a -> is_byte b ->
  safe (E:=ImageError) (sized m) (buf ← idx_set buf (2 * x) a; idx_set buf (2 * x + 1) b).
Proof.
  intros Hb Hx Hm Hn Ha Hbb. eapply safe_bind; [apply set_byte; [exact Hb|exact Ha|lia]|]. intros buf' Hb'. apply set_byte; [done|done|lia].
Qed.

(** A row of [w] samples, and the buffers it was made in. *)
Definition row_ok (w : Z) (x : list Z * list Z * list Z) : Prop :=
  sized w (fst (fst x)) /\ sized (w + 16) (snd (fst x)) /\ Zlen (snd x) = w + 16.

Section upsampling.
Context (w h mx my : Z) (Hw : 1 <= w).

Lemma plane_row_ok c r : planed w h mx my c -> 0 <= r < cp_pbh c * 8 -> safe (sized (cp_dw c)) (plane_row c r).
Proof.
  intros [Hg Hp] Hr. pose proof (gok_dw _ _ _ _ _ Hg) as Hdw. unfold plane_row, stride.
  assert (r * (cp_pbw c * 8) + cp_pbw c * 8 <= cp_pbw c * 8 * (cp_pbh c * 8)) as Hend by nia.
  eapply safe_weaken; [eapply sized_range; [exact Hp|nia|lia|lia]|]. intros s Hs. by replace (_ + cp_dw c - _) with (cp_dw c) in Hs by lia.
Qed.

Lemma upsample_row_ok c y buf colsum : planed w h mx my c -> 0 <= y < h -> sized (w + 16) buf -> Zlen colsum = w + 16 ->
  safe (row_ok w) (upsample_row c y w buf colsum).
Proof.
  intros Hc Hy Hbuf Hcol. pose proof Hc as [Hg Hp]. pose proof (gok_dw _ _ _ _ _ Hg) as Hdw. pose proof (gok_dh _ _ _ _ _ Hg) as Hdh.
  pose proof (gok_up _ _ _ _ _ Hg) as Hup. unfold up_ok in Hup. unfold upsample_row. cbv zeta.
  assert (forall buf colsum : list Z, sized (w + 16) buf -> Zlen colsum = w + 16 -> safe (E:=ImageError) (row_ok w) (row ← index_range buf 0 w; Ok (row, buf, colsum))) as Hout.
  { intros b cs Hb Hcs. eapply range_then; [exact Hb|lia|lia|lia|]. intros row Hrow. rewrite Z.sub_0_r in Hrow. done. }
  assert (forall i, 0 <= i < cp_dh c -> 0 <= saturating_pred i < cp_dh c /\ 0 <= Z.min (i + 1) (cp_dh c - 1) < cp_dh c) as Hfar by (unfold saturating_pred; lia).
  assert (h <= 2 * cp_dh c -> 0 <= y / 2 < cp_dh c) as Hhalf by (intros; Z.div_mod_to_equations; lia).
  destruct (cp_up c) as [| | | |he ve].
  - unfold stride. assert (y * (cp_pbw c * 8) + cp_pbw c * 8 <= cp_pbw c * 8 * (cp_pbh c * 8)) by nia.
    eapply range_then; [exact Hp|nia|lia|lia|]. intros row Hrow. replace (_ + w - _) with w in Hrow by lia. done.
  - eapply safe_bind; [by apply plane_row_ok; [|lia]|]. intros src Hsrc. eapply safe_bind; [|intros buf' Hb'; by apply Hout].
    unfold h2v1_fancy. rewrite (proj1 Hsrc). apply safe_fold_all; [done|]. intros b x Hx%elem_of_seqZ Hb.
    do 3 (eapply byte_then; [exact Hsrc|unfold saturating_pred; lia|]; intros ? _). apply (fancy_pair (cp_dw c)); (apply is_byte_mod || done || lia).
  - specialize (Hhalf (proj2 Hup)). set (i := y / 2) in *. destruct (Hfar i Hhalf) as [Hf1 Hf2].
    assert (exists far bias, (if y mod 2 =? 0 then (saturating_pred i, 1) else (Z.min (i + 1) (cp_dh c - 1), 2)) = (far, bias) /\ 0 <= far < cp_dh c)
      as (far & bias & -> & Hfr) by (destruct (y mod 2 =? 0); eauto).
    eapply safe_bind; [by apply plane_row_ok; [|lia]|]. intros near Hnear. eapply safe_bind; [by apply plane_row_ok; [|lia]|]. intros frow Hfrow.
    eapply safe_bind; [|intros buf' Hb'; by apply Hout]. unfold h1v2_fancy. apply safe_fold_all; [done|]. intros b x Hx%elem_of_seqZ Hb.
    eapply byte_then; [exact Hnear|lia|]. intros ? _. eapply byte_then; [exact Hfrow|lia|]. intros ? _. apply set_byte; [done|apply is_byte_mod|lia].
  - specialize (Hhalf (proj2 Hup)). set (i := y / 2) in *. destruct (Hfar i Hhalf) as [Hf1 Hf2].
    set (far := if y mod 2 =? 0 then _ else _). assert (0 <= far < cp_dh c) as Hfr by (subst far; by destruct (y mod 2 =? 0)). clearbody far.
    eapply safe_bind; [by apply plane_row_ok; [|lia]|]. intros near Hnear. eapply safe_bind; [by apply plane_row_ok; [|lia]|]. intros frow Hfrow.
    eapply (safe_bind (fun cs => Zlen cs = w + 16)).
    { unfold h2v2_colsum. apply safe_fold_all; [done|]. intros cs x Hx%elem_of_seqZ Hcs.
      eapply byte_then; [exact Hnear|lia|]. intros ? _. eapply byte_then; [exact Hfrow|lia|]. intros ? _. apply set_len; [done|lia]. }
    intros cs Hcs. eapply safe_bind; [|intros buf' Hb'; by apply Hout]. unfold h2v2_fancy. apply safe_fold_all; [done|].
    intros b x Hx%elem_of_seqZ Hb. do 3 (apply idx_then'; [unfold saturating_pred; lia|]; intros ? _).
    apply (fancy_pair (cp_dw c)); (apply is_byte_mod || done || lia).
  - destruct Hup as (Hhe & Hve & Hwd & Hhd).
    assert (0 <= y / ve < cp_dh c) as Hrow by (split; [apply Z.div_pos; lia|apply Z.div_lt_upper_bound; lia]).
    eapply safe_bind; [by apply plane_row_ok; [|lia]|]. intros src Hsrc. eapply range_then; [exact Hbuf|lia|lia|lia|]. intros _ _.
    eapply safe_bind; [|intros buf' Hb'; by apply Hout]. unfold box_row. apply safe_fold_all; [done|]. intros b x Hx%elem_of_seqZ Hb.
    eapply byte_then; [exact Hsrc|split; [apply Z.div_pos; lia|apply Z.div_lt_upper_bound; lia]|]. intros s Hs. apply set_byte; [done|done|lia].
Qed.
End upsampling.

(** * Pixels *)

Lemma clamp8_byte v : is_byte (clamp8 v).
Proof. unfold clamp8, is_byte. pose proof (clamp_range v 0 255). lia. Qed.

(** The state between two rows: the image so far and the buffers of [n] components. *)
Definition rows_state (n w h : Z) (st : list Z * list (list Z) * list Z) : Prop :=
  sized (w * h * 3) (fst (fst st)) /\ (Zlen (snd (fst st)) = n /\ Forall (sized (w + 16)) (snd (fst st))) /\ Zlen (snd st) = w + 16.

Lemma triples w (l : list (list Z)) : Zlen l = w -> Forall (sized 3) l -> sized (w * 3) (concat l).
Proof. intros <- Hl. by apply concat_sized. Qed.

Lemma color_row_ok n f color bufs colsum y : planes_ok n f -> (color = Gray -> n = 1) -> (color <> Gray -> n = 3) ->
  0 <= y < fr_height f -> Zlen bufs = n -> Forall (sized (fr_width f + 16)) bufs -> Zlen colsum = fr_width f + 16 ->
  safe (fun '(px, bufs, colsum) => sized (fr_width f * 3) px /\ (Zlen bufs = n /\ Forall (sized (fr_width f + 16)) bufs) /\ Zlen colsum = fr_width f + 16)
    (color_row f color (fr_width f) bufs colsum y).
Proof.
  intros [Hw Hh _ Hn Hc] Hgray Hrgb Hy Hl Hbufs Hcol. set (w := fr_width f) in *.
  assert (forall i buf cs, 0 <= i < n -> sized (w + 16) buf -> Zlen cs = w + 16 ->
    safe (row_ok w) (c ← idx (fr_comps f) i; upsample_row c y w buf cs)) as Hrow.
  { intros i buf cs Hi Hb Hcs. apply (idx_then _ _ _ _ _ Hc); [lia|]. intros c _ Hpl. by eapply upsample_row_ok. }
  assert (forall {B} i cs (k : list Z * list Z * list Z -> outcome ImageError B) (Q : B -> Prop), 0 <= i < n -> Zlen cs = w + 16 ->
    (forall row buf cs, sized w row -> sized (w + 16) buf -> Zlen cs = w + 16 -> safe Q (k (row, buf, cs))) ->
    safe Q (c ← idx (fr_comps f) i; b ← idx bufs i; upsample_row c y w b cs ≫= k)) as Hstep.
  { intros B i cs k Q Hi Hcs Hk. apply (idx_then _ _ _ _ _ Hc); [lia|]. intros c _ Hpl. apply (idx_then _ _ _ _ _ Hbufs); [lia|]. intros b _ Hb.
    eapply safe_bind; [by eapply upsample_row_ok|]. intros [[row buf] cs'] (Hr & Hb' & Hcs'). by apply Hk. }
  unfold color_row. destruct (decide (color = Gray)) as [->|Hne].
  - specialize (Hgray eq_refl). apply Hstep; [lia|done|]. intros row buf cs Hr Hb Hcs.
    eapply safe_bind; [apply (idx_set_ok _ bufs _ _ Hbufs Hb); lia|]. intros bufs' [Hl' HF]. cbn [safe]. split; [|split; [split; [lia|done]|done]].
    destruct Hr as [Hrl Hrb]. apply triples; [by rewrite length_fmap|]. apply Forall_fmap. eapply Forall_impl; [exact Hrb|].
    intros v Hv. split; [done|]. repeat (apply Forall_cons_2; [exact Hv|]). apply Forall_nil_2.
  - specialize (Hrgb Hne). assert (forall {B} (a b : B), match color with Gray => a | _ => b end = b) as -> by (by destruct color).
    apply Hstep; [lia|done|]. intros r0 b0 cs0 Hr0 Hb0 Hcs0. apply Hstep; [lia|done|]. intros r1 b1 cs1 Hr1 Hb1 Hcs1.
    apply Hstep; [lia|done|]. intros r2 b2 cs2 Hr2 Hb2 Hcs2.
    eapply safe_bind.
    { apply (safe_mapM (fun x => 0 <= x < w) (sized 3)); [apply Forall_forall; intros x Hx%elem_of_seqZ; lia|]. intros x Hx.
      eapply byte_then; [exact Hr0|done|]. intros a Ha. eapply byte_then; [exact Hr1|done|]. intros b Hb. eapply byte_then; [exact Hr2|done|]. intros d Hd.
      cbn [safe]. destruct (bool_decide _); (split; [done|]); repeat (apply Forall_cons_2; [(exact Ha || exact Hb || exact Hd || apply clamp8_byte)|]); apply Forall_nil_2. }
    intros px [Hpl Hpx]. rewrite length_seqZ in Hpl. cbn [safe]. split; [apply triples; [lia|done]|]. split; [split; [cbn; lia|]|done].
    repeat (apply Forall_cons_2; [done|]). apply Forall_nil_2.
Qed.

Lemma finish_row_ok n f color st y : planes_ok n f -> (color = Gray -> n = 1) -> (color <> Gray -> n = 3) -> 0 <= y < fr_height f ->
  rows_state n (fr_width f) (fr_height f) st -> safe (rows_state n (fr_width f) (fr_height f)) (finish_row f color st y).
Proof.
  intros Hf Hgray Hrgb Hy. destruct st as [[out bufs] colsum]. intros (Hout & [Hl Hbufs] & Hcol). cbn [fst snd] in *. unfold finish_row. cbv zeta.
  pose proof (pl_w _ _ Hf) as Hw. set (w := fr_width f) in *. set (h := fr_height f) in *.
  assert (y * w + w <= w * h) as Hend by nia. assert (0 <= y * w) as H0 by nia.
  eapply range_then; [exact Hout|nia|nia|nia|]. intros _ _. eapply safe_bind; [by apply (color_row_ok n)|].
  intros [[px bufs'] cs'] (Hpx & Hb' & Hc'). cbn [safe]. split; [|done]. cbn [fst]. fold w in Hpx. apply sized_splice with (m := w * 3); [done|done|nia|nia].
Qed.

Lemma jpeg_finish_ok n f color scans : frame_ok true n f -> n = 1 \/ n = 3 -> (color = Gray <-> n = 1) -> safe decoded_ok (jpeg_finish f color scans).
Proof.
  intros Hf Hn Hcolor. unfold jpeg_finish. eapply safe_bind; [by apply (finish_planes_ok n)|]. intros f' (Hf' & Hw & Hh). cbv zeta.
  pose proof Hf' as [Hw1 Hh1 Ha Hlen _]. eapply safe_bind.
  { apply (safe_fold_all (rows_state n (fr_width f') (fr_height f'))).
    - split; [apply sized_zeros; nia|]. cbn [fst snd]. split; [|rewrite length_replicate; lia]. split; [by rewrite length_fmap|].
      apply Forall_fmap, Forall_true. intros c. apply sized_zeros. lia.
    - intros st y Hy%elem_of_seqZ Hst. apply finish_row_ok; [done|tauto|tauto|lia|done]. }
  intros [[out bufs] cs] ([Hl Hb] & _). cbn [safe]. split; [split|]; cbn [width height rgb fst] in *; [lia|split; [lia|done]|split; [done|nia]].
Qed.

(** * The decoder *)

Lemma jpeg_run_safe data : bytes_ok data -> safe (fun '(img, p) => decoded_ok img /\ parser_ok p) (jpeg_run data).
Proof.
  intros Hdata. unfold jpeg_run. eapply safe_bind; [apply run_loop_ok; [done|apply parser_new_ok|lia|cbn; lia]|]. intros p Hp.
  destruct (Z.eqb_spec (pr_scans p) 0) as [|Hscans]; [done|]. pose proof (pok_frame _ Hp) as Hfr. pose proof (pok_scans _ Hp).
  destruct (pr_frame p) as [f|]; [|done]. destruct Hfr as (n & Hn & Hf & Hcolor). rewrite (proj2 (Z.ltb_lt _ _)) in Hf by lia.
  cbn [ok_or]. rewrite ok_bind. eapply safe_bind; [apply (jpeg_finish_ok n); [done|done|apply Hcolor; lia]|]. by intros img Himg.
Qed.

Lemma jpeg_decode_safe data : bytes_ok data -> safe decoded_ok (jpeg_decode data).
Proof.
  intros Hdata. unfold jpeg_decode. eapply safe_bind; [by apply jpeg_run_safe|]. intros [img p] [Himg Hp].
  destruct (orientation_total (pr_exif p) (pr_xmp p) (pok_exif _ Hp)) as [o ->]. by apply apply_decoded.
Qed.

(** Decoding a JPEG file never panics and always ends, whatever its bytes are: headers,
    tables, entropy-coded segments, restarts, smoothing and upsampling stay inside their
    buffers, and the decoder returns an error, or an image of three bytes for each pixel with
    at least one pixel and at most 64 Mi of them. *)
Theorem jpeg_decode_total data : bytes_ok data ->
  match jpeg_decode data with Ok img => decoded_ok img | Err _ => True | Panic => False end.
Proof. apply jpeg_decode_safe. Qed.

Lemma jpeg_decode_total_witness : bytes_ok gray_jpeg /\
  match jpeg_decode gray_jpeg with Ok img => decoded_ok img | Err _ => True | Panic => False end.
Proof.
  assert (bytes_ok gray_jpeg) as Hb by (apply (bool_decide_unpack _); vm_compute; exact I).
  split; [exact Hb|]. exact (jpeg_decode_total gray_jpeg Hb).
Defined.
