(* ===== verification/Resize.v ===== *)
(** Pillow's bicubic resampling of 8-bit RGB (src/crates/mimo26-image/src/resize.rs).

    The coefficients are computed in [f64] with the source's operation order; the passes
    accumulate in wrapping [i32].  The scratch vector [w] of a pixel's weights is the list
    of the weights just written; sizes and indices are [usize] values in [Z]. *)
From Stdlib Require Import ZArith Lia Bool SpecFloat Rbase R_Ifp Rbasic_fun Rfunctions R_sqrt Lra.
From stdpp Require Import base list gmap strings.
From S2P Require Import Prelude Floats FloatRound Base64 Exif JpegIdct Buffers.

(** * Definitions *)

Definition PRECISION_BITS : Z := 22.

Definition f64_zero : spec_float := S754_zero false.
Definition f64_half : spec_float := f64_powi2 (-1).
(** [-0.5], and the sums the source writes with it. *)
Definition A_ : spec_float := SFopp f64_half.

Definition bicubic (x : spec_float) : spec_float :=
  let x := if SFltb x f64_zero then SFopp x else x in
  if SFltb x f64_one then
    f64_add (f64_mul (f64_mul (f64_sub (f64_mul (f64_add A_ (f64_of_Z 2)) x) (f64_add A_ (f64_of_Z 3))) x) x) f64_one
  else if SFltb x (f64_of_Z 2) then
    f64_mul (f64_sub (f64_mul (f64_add (f64_mul (f64_sub x (f64_of_Z 5)) x) (f64_of_Z 8)) x) (f64_of_Z 4)) A_
  else f64_zero.

Record Coeffs := { ksize : Z; bounds : list (Z * Z); k : list Z }.

(** The scale and support of a resampling from [in_size] to [out_size]. *)
Definition scale (in_size out_size : Z) : spec_float :=
  f64_div (f64_of_f32 (f32_sub (f32_of_Z in_size) (f32_of_Z 0))) (f64_of_Z out_size).
Definition filterscale (sc : spec_float) : spec_float := if SFltb sc f64_one then f64_one else sc.
Definition support (sc : spec_float) : spec_float := f64_mul (f64_of_Z 2) (filterscale sc).

Definition center (sc : spec_float) (xx : Z) : spec_float :=
  f64_add (f64_of_f32 (f32_of_Z 0)) (f64_mul (f64_add (f64_of_Z xx) f64_half) sc).

(** The first tap of output pixel [xx], and one past its last. *)
Definition tap_min (sc : spec_float) (xx : Z) : Z :=
  Z.max (f64_as_i64 (f64_add (f64_sub (center sc xx) (support sc)) f64_half)) 0.
Definition tap_max (in_size : Z) (sc : spec_float) (xx : Z) : Z :=
  Z.min (f64_as_i64 (f64_add (f64_add (center sc xx) (support sc)) f64_half)) in_size.

(** The weight of tap [x] before normalisation, and its fixed-point value after. *)
Definition weight (sc : spec_float) (xx xmin x : Z) : spec_float :=
  let ss := f64_div f64_one (filterscale sc) in
  bicubic (f64_mul (f64_add (f64_sub (f64_of_Z (x + xmin)) (center sc xx)) f64_half) ss).

Definition fixed (ww v : spec_float) : Z :=
  let v := if SFeqb ww f64_zero then v else f64_div v ww in
  let scaled := f64_mul v (f64_of_Z (Z.shiftl 1 PRECISION_BITS)) in
  if SFltb v f64_zero then f64_as_i32 (f64_add A_ scaled) else f64_as_i32 (f64_add f64_half scaled).

(** One output pixel: its bounds and its taps. *)
Definition pixel_taps (in_size ks : Z) (sc : spec_float) (xx : Z) : Z * Z * list Z :=
  let '(xmin, xmax) := (tap_min sc xx, tap_max in_size sc xx) in
  let count := Z.min (Z.max (xmax - xmin) 0) ks in
  let w := weight sc xx xmin <$> seqZ 0 count in
  let ww := foldl f64_add f64_zero w in
  (xmin, count, fixed ww <$> w).

Definition precompute_pixel (in_size ks : Z) (sc : spec_float) (st : list (Z * Z) * list Z) (xx : Z) : outcome ImageError (list (Z * Z) * list Z) :=
  let '(bs, kk) := st in
  _ ← index_range kk (xx * ks) ((xx + 1) * ks);
  let '(xmin, count, taps) := pixel_taps in_size ks sc xx in
  Ok (bs ++ [(xmin, count)], splice kk (xx * ks) taps).

Definition precompute (in_size out_size : Z) : outcome ImageError Coeffs :=
  let sc := scale in_size out_size in
  let ks := f64_as_u64 (f64_ceil (support sc)) * 2 + 1 in
  '(bs, kk) ← fold_try (precompute_pixel in_size ks sc) ([], replicate (Z.to_nat (out_size * ks)) 0) (seqZ 0 out_size);
  Ok {| ksize := ks; bounds := bs; k := kk |}.

Definition clip8 (v : Z) : Z := clamp (Z.shiftr v PRECISION_BITS) 0 255.

Definition BIAS : Z := Z.shiftl 1 (PRECISION_BITS - 1).

(** [&c.k[xx * c.ksize..xx * c.ksize + cnt]] *)
Definition taps_of (c : Coeffs) (xx cnt : Z) : outcome ImageError (list Z) :=
  index_range (k c) (xx * ksize c) (xx * ksize c + cnt).

(** Three channels of one pixel of the horizontal pass. *)
Definition horizontal_tap (s : list Z) (xmin : Z) (acc : Z * Z * Z) (xk : Z * Z) : outcome ImageError (Z * Z * Z) :=
  let '((s0, s1, s2), (x, kw)) := (acc, xk) in
  let p := (xmin + x) * 3 in
  a ← idx s p; b ← idx s (p + 1); c ← idx s (p + 2);
  Ok (add32 s0 (mul32 a kw), add32 s1 (mul32 b kw), add32 s2 (mul32 c kw)).

Definition horizontal_pixel (s : list Z) (c : Coeffs) (xx : Z) : outcome ImageError (list Z) :=
  '(xmin, cnt) ← idx (bounds c) xx;
  kk ← taps_of c xx cnt;
  '(s0, s1, s2) ← fold_try (horizontal_tap s xmin) (BIAS, BIAS, BIAS) (zip (seqZ 0 (Zlen kk)) kk);
  Ok [clip8 s0; clip8 s1; clip8 s2].

(** A whole row of [ow] pixels ([d.chunks_exact_mut(3)] of a row of [3 * ow] bytes). *)
Definition horizontal_row (s : list Z) (ow : Z) (c : Coeffs) : outcome ImageError (list Z) :=
  pixels ← mapM (horizontal_pixel s c) (seqZ 0 ow);
  Ok (concat pixels).

Definition vertical_tap (hsrc : list Z) (ymin rowlen : Z) (acc : list Z) (jk : Z * Z) : outcome ImageError (list Z) :=
  let '(j, kw) := jk in
  r ← index_range hsrc ((ymin + j) * rowlen) ((ymin + j + 1) * rowlen);
  Ok (zip_with (fun a p => add32 a (mul32 p kw)) acc r).

(** [a - b] on [usize]. *)
Definition usize_minus (a b : Z) : outcome ImageError Z := if a <? b then Panic else Ok (a - b).

Definition vertical_row (hsrc : list Z) (row_off rowlen : Z) (c : Coeffs) (yy : Z) : outcome ImageError (list Z) :=
  '(ymin, cnt) ← idx (bounds c) yy;
  ymin ← usize_minus ymin row_off;
  kk ← taps_of c yy cnt;
  acc ← fold_try (vertical_tap hsrc ymin rowlen) (replicate (Z.to_nat rowlen) BIAS) (zip (seqZ 0 (Zlen kk)) kk);
  Ok (clip8 <$> (acc : list Z)).

(** [Vec::resize(n, 0)], and the buffer the passes read. *)
Definition resized (l : list Z) (n : Z) : list Z := take (Z.to_nat n) l ++ replicate (Z.to_nat n - length l) 0.
Definition source (img : RgbImage) : list Z :=
  let n := width img * height img * 3 in
  if n <=? Zlen (rgb img) then slice (rgb img) 0 n else resized (rgb img) n.

Definition horizontal_pass (src : list Z) (iw ow first last : Z) : outcome ImageError (list Z) :=
  ch ← precompute iw ow;
  n ← usize_minus last first;
  rows ← mapM (fun y =>
    s ← index_range src ((y + first) * iw * 3) ((y + first + 1) * iw * 3);
    horizontal_row s ow ch) (seqZ 0 n);
  Ok (concat rows).

Definition resize_bicubic (img : RgbImage) (w h : Z) : outcome ImageError RgbImage :=
  let '(iw, ih) := (width img, height img) in
  if (w =? 0) || (h =? 0) then Ok {| width := w; height := h; rgb := [] |}
  else if (iw =? 0) || (ih =? 0) then Ok {| width := w; height := h; rgb := replicate (Z.to_nat (w * h * 3)) 0 |}
  else
    let src := source img in
    if (iw =? w) && (ih =? h) then Ok {| width := w; height := h; rgb := src |}
    else
      let '(need_h, need_v) := (negb (w =? iw), negb (h =? ih)) in
      cv ← precompute ih h;
      '(ybox_first, _) ← idx (bounds cv) 0;
      '(lx, lc) ← idx (bounds cv) (h - 1);
      '(hsrc, tmp_w, row_off) ←
        (if need_h then tmp ← horizontal_pass src iw w ybox_first (lx + lc); Ok (tmp, w, ybox_first) else Ok (src, iw, 0));
      if negb need_v then Ok {| width := w; height := h; rgb := hsrc |}
      else
        rows ← mapM (vertical_row hsrc row_off (tmp_w * 3) cv) (seqZ 0 h);
        Ok {| width := w; height := h; rgb := concat rows |}.

(** * The taps of every output pixel are inside the input, and move to the right *)

Section taps.
Context (iw ow : Z) (Hi : 1 <= iw <= 2 ^ 24) (Ho : 1 <= ow <= 2 ^ 24).
Let sc := scale iw ow.
Let ratio : R := (IZR iw / IZR ow)%R.

Lemma side_bounds : (1 <= IZR iw <= IZR (2 ^ 24))%R /\ (1 <= IZR ow <= IZR (2 ^ 24))%R.
Proof. repeat split; apply IZR_le; lia. Qed.

Lemma ratio_range : (/ IZR (2 ^ 24) <= ratio <= IZR (2 ^ 24))%R /\ (ratio * IZR ow = IZR iw)%R.
Proof.
  destruct side_bounds as [H1 H2]. unfold ratio. split; [|field; lra].
  assert (/ IZR (2 ^ 24) <= / IZR ow <= 1)%R by (split; [|rewrite <- Rinv_1]; apply Rinv_le_contravar; lra).
  assert (0 < / IZR (2 ^ 24))%R by (apply Rinv_0_lt_compat; lra). unfold Rdiv. split; nra.
Qed.

Lemma moderate24 x : (/ IZR (2 ^ 24) / 4 <= x <= IZR (2 ^ 60))%R -> moderate x.
Proof.
  intros Hx. unfold moderate. split; [|lra]. apply Rle_trans with (/ IZR (2 ^ 26))%R; [apply Rinv_le_contravar; lra|].
  replace (/ IZR (2 ^ 26))%R with (/ IZR (2 ^ 24) / 4)%R; [lra|]. change (2 ^ 26) with (2 ^ 24 * 4). rewrite mult_IZR. field. lra.
Qed.

Lemma scale_near : Rounds 53 1024 sc ratio.
Proof.
  destruct ratio_range as [Hr _]. unfold sc, scale. assert (0 < / IZR (2 ^ 24))%R by (apply Rinv_0_lt_compat; lra).
  apply SFdiv_near; [lia|lia| |apply f64_of_Z_exact; lia|destruct side_bounds; lra|apply moderate_lt, moderate24; fold ratio; lra].
  apply f64_of_f32_value. replace (f32_sub (f32_of_Z iw) (f32_of_Z 0)) with (f32_of_Z iw); [apply f32_of_Z_exact; lia|].
  destruct (f32_of_Z_exact iw) as (Hf & _ & Hv); [lia|]. unfold f32_sub. change (f32_of_Z 0) with (S754_zero false).
  destruct (f32_of_Z iw) as [s| | |s m e] eqn:E; try done. cbn [fval] in Hv. destruct side_bounds; lra.
Qed.

Lemma scale_value : exists s, F64 sc s /\ close tiny ratio s.
Proof.
  destruct ratio_range as [Hr _]. assert (0 < / IZR (2 ^ 24))%R by (apply Rinv_0_lt_compat; lra).
  apply Rounds_close; [apply moderate24; lra|exact scale_near].
Qed.

(** The support is at least two. *)
Lemma support_value s : F64 sc s -> close tiny ratio s -> exists fs, F64 (filterscale sc) fs /\ (1 <= fs <= IZR (2 ^ 25))%R /\ F64 (support sc) (2 * fs).
Proof.
  intros Hs Hc. destruct ratio_range as [Hr _]. unfold close, tiny in Hc.
  assert (exists fs, F64 (filterscale sc) fs /\ (1 <= fs <= IZR (2 ^ 25))%R) as (fs & Hfs & Hb).
  { unfold filterscale. change f64_one with (f64_of_Z 1). rewrite (SFltb_spec 53 1024 ltac:(lia) sc (f64_of_Z 1) s 1 Hs (f64_of_Z_exact 1 ltac:(lia))).
    destruct (Rlt_dec s 1); [exists 1%R; split; [by apply (f64_of_Z_exact 1)|lra]|exists s; split; [done|lra]]. }
  exists fs. split; [done|split; [done|]]. unfold support. apply Rounds_repr.
  - apply SFmul_near; [lia|lia|by apply f64_of_Z_exact|done|]. apply (abs_lt_bpow 26); [lia|lia|]. rewrite bpow_Z, Rabs_right by (lia || lra). lra.
  - destruct Hfs as (Hf & Hv & <-). destruct (fval_representable 53 1024 ltac:(lia) _ Hf Hv) as (k & f & Hk & Hf' & ->).
    exists k, (f + 1). split; [done|split; [lia|]]. rewrite bpow_add, bpow_1. ring.
Qed.

Lemma center_value s xx : F64 sc s -> close tiny ratio s -> 0 <= xx < ow ->
  exists c, F64 (center sc xx) c /\ near64 ((IZR xx + / 2) * s) c /\ (0 < c <= IZR iw + 1 / 2)%R.
Proof.
  intros Hs Hc Hx. destruct ratio_range as [Hr Hro]. destruct side_bounds as [Hi' Ho'].
  assert (0 < / IZR (2 ^ 24))%R as Hp by (apply Rinv_0_lt_compat; lra).
  assert (0 <= IZR xx)%R as Hx0 by (apply IZR_le; lia). assert (IZR xx + 1 <= IZR ow)%R as Hx1 by (rewrite <- plus_IZR; apply IZR_le; lia).
  assert (F64 (f64_add (f64_of_Z xx) f64_half) (IZR xx + / 2)) as Hxx.
  { apply Rounds_repr.
    - rewrite <- bpow_half. apply SFadd_near; [lia|lia|apply f64_of_Z_exact; lia|by apply f64_powi2_exact|].
      rewrite bpow_half. apply (abs_lt_bpow 25); [lia|lia|]. rewrite bpow_Z, Rabs_right by (lia || lra). lra.
    - replace (IZR xx + / 2)%R with (IZR (2 * xx + 1) * bpow (-1))%R by (rewrite plus_IZR, mult_IZR, bpow_half; field). apply representable_le; lia. }
  pose proof Hc as Hc2. unfold close, tiny in Hc2.
  assert (0 < (IZR xx + / 2) * s)%R as Hpos by (apply Rmult_lt_0_compat; lra).
  assert ((IZR xx + / 2) * s <= IZR iw + / 4)%R as Hup.
  { apply Rle_trans with ((IZR ow) * ((1 + / 1000000000000) * ratio))%R; [apply Rmult_le_compat; lra|]. nra. }
  assert (/ IZR (2 ^ 24) / 4 <= (IZR xx + / 2) * s)%R as Hlo by nra.
  destruct (Rounds_close (f64_mul (f64_add (f64_of_Z xx) f64_half) sc) ((IZR xx + / 2) * s)) as (c & Hcv & Hcc).
  { apply moderate24. lra. }
  { apply SFmul_near; [lia|lia|done|done|]. apply moderate_lt, moderate24. lra. }
  destruct (SFmul_near 53 1024 ltac:(lia) ltac:(lia) (f64_add (f64_of_Z xx) f64_half) sc (IZR xx + / 2) s Hxx Hs) as (c' & Hc' & Hn).
  { apply moderate_lt, moderate24. lra. }
  assert (c' = c) as -> by (destruct Hcv as (_ & _ & <-), Hc' as (_ & _ & <-); done).
  pose proof (close_pos tiny ((IZR xx + / 2) * s)%R c Hpos ltac:(unfold tiny; lra) Hcc) as Hc0. unfold close, tiny in Hcc. exists c. split; [|split; [done|lra]].
  unfold center. change (f64_of_f32 (f32_of_Z 0)) with (S754_zero false).
  destruct Hcv as (Hf & Hv & Ev). destruct (f64_mul (f64_add (f64_of_Z xx) f64_half) sc) as [z| | |z m e] eqn:E; try done.
  cbn [fval] in Ev. lra.
Qed.

(** ** The window of a pixel *)

Context (s fs : R) (Hs : F64 sc s) (Hc : close tiny ratio s) (Hfs : (1 <= fs <= IZR (2 ^ 25))%R) (HS : F64 (support sc) (2 * fs)).

Lemma bound30 x : (- IZR (2 ^ 30) <= x <= IZR (2 ^ 30))%R -> (Rabs x < bpow (1024 - 1))%R.
Proof using. intros Hx. apply (abs_lt_bpow 30); [lia|lia|]. rewrite bpow_Z by lia. unfold Rabs. destruct (Rcase_abs x); lra. Qed.

Lemma near_bounds x y lo hi : near64 x y -> Z.abs lo <= 2 ^ 53 -> Z.abs hi <= 2 ^ 53 -> (IZR lo <= x <= IZR hi)%R -> (IZR lo <= y <= IZR hi)%R.
Proof using.
  intros Hn Hl Hh Hx. split; [apply (nearest_ge 53 (-1074) x y)|apply (nearest_le 53 (-1074) x y)]; (done || lra || (apply representable_Z; lia)).
Qed.

Lemma f64_half_value : F64 f64_half (/ 2).
Proof using. rewrite <- bpow_half. by apply f64_powi2_exact. Qed.

(** An edge of the window before truncation: the center moved by [k], and a half. *)
Definition edge (op : spec_float -> spec_float -> spec_float) (k : R) (xx : Z) (d : R) : Prop :=
  exists c m, F64 (center sc xx) c /\ near64 ((IZR xx + / 2) * s) c /\ F64 (op (center sc xx) (support sc)) m /\ near64 (c + k) m /\
    F64 (f64_add (op (center sc xx) (support sc)) f64_half) d /\ near64 (m + / 2) d.

Lemma edge_left xx : 0 <= xx < ow -> exists d, edge f64_sub (- (2 * fs)) xx d /\ (d <= IZR iw)%R.
Proof.
  intros Hx. destruct (center_value s xx Hs Hc Hx) as (c & Hcv & Hn & Hcr). destruct side_bounds as [Hi' _].
  destruct (SFsub_near 53 1024 ltac:(lia) ltac:(lia) _ _ c (2 * fs) Hcv HS) as (m & Hm & Hnm); [apply bound30; lra|].
  assert (IZR (- 2 ^ 27) <= m <= IZR (iw - 1))%R as Hmr by (apply (near_bounds (c - 2 * fs)); [done|lia|lia|rewrite minus_IZR, opp_IZR; lra]).
  rewrite minus_IZR, opp_IZR in Hmr.
  destruct (SFadd_near 53 1024 ltac:(lia) ltac:(lia) _ _ m (/ 2) Hm f64_half_value) as (d & Hd & Hnd); [apply bound30; lra|].
  exists d. split; [by exists c, m|]. apply (near_bounds (m + / 2) d (- 2 ^ 30) iw); [done|lia|lia|rewrite opp_IZR; lra].
Qed.

Lemma edge_right xx : 0 <= xx < ow -> exists d, edge f64_add (2 * fs) xx d /\ (0 <= d <= IZR (2 ^ 30))%R.
Proof.
  intros Hx. destruct (center_value s xx Hs Hc Hx) as (c & Hcv & Hn & Hcr). destruct side_bounds as [Hi' _].
  destruct (SFadd_near 53 1024 ltac:(lia) ltac:(lia) _ _ c (2 * fs) Hcv HS) as (m & Hm & Hnm); [apply bound30; lra|].
  assert (IZR 0 <= m <= IZR (2 ^ 28))%R as Hmr by (apply (near_bounds (c + 2 * fs)); [done|lia|lia|lra]).
  destruct (SFadd_near 53 1024 ltac:(lia) ltac:(lia) _ _ m (/ 2) Hm f64_half_value) as (d & Hd & Hnd); [apply bound30; lra|].
  exists d. split; [by exists c, m|]. apply (near_bounds (m + / 2) d 0 (2 ^ 30)); [done|lia|lia|lra].
Qed.

Lemma edge_mono op k x y dx dy : (forall z z', op (S754_zero z) (support sc) = op (S754_zero z') (support sc)) ->
  edge op k x dx -> edge op k y dy -> x <= y -> (dx <= dy)%R.
Proof.
  intros Hz (c & m & Hcx & Hncx & Hmx & Hnmx & Hdx & Hndx) (c' & m' & Hcy & Hncy & Hmy & Hnmy & Hdy & Hndy) Hxy.
  pose proof Hc as Hc'. unfold close, tiny in Hc'. destruct ratio_range as [Hr _].
  assert (0 < / IZR (2 ^ 24))%R by (apply Rinv_0_lt_compat; lra).
  destruct (Z.eq_dec x y) as [<-|Hne].
  { destruct Hdx as (_ & _ & <-), Hdy as (_ & _ & <-). lra. }
  assert (IZR x < IZR y)%R as Hlt by (apply IZR_lt; lia).
  assert (c <= c')%R as Hcc by (apply (nearest_lt 53 (-1074) ((IZR x + / 2) * s) ((IZR y + / 2) * s)); [done|done|apply Rmult_lt_compat_r; lra]).
  assert (m <= m')%R as Hmm.
  { apply (rounded_mono (fun z => op z (support sc)) (fun a => a + k)%R (center sc x) (center sc y) c c'); [done|lra|done..]. }
  apply (rounded_mono (fun z => f64_add z f64_half) (fun a => a + / 2)%R (op (center sc x) (support sc)) (op (center sc y) (support sc)) m m');
    [by intros [] []|lra|done..].
Qed.

(** The support is a proper float, so a zero center's sign does not matter. *)
Lemma support_finite : exists z m e, support sc = S754_finite z m e.
Proof.
  destruct HS as (Hf & _ & Hv). destruct (support sc) as [z| | |z m e]; try done; [|by exists z, m, e]. cbn in Hv. lra.
Qed.

Lemma tap_min_range xx : 0 <= xx < ow -> 0 <= tap_min sc xx <= iw.
Proof.
  intros Hx. destruct (edge_left xx Hx) as (d & (c & m & _ & _ & _ & _ & Hd & _) & Hle). unfold tap_min. split; [lia|].
  apply Z.max_lub; [|lia]. destruct (Rlt_dec d 0) as [Hneg|Hnn].
  - pose proof (f64_as_neg (- 2 ^ 63) (2 ^ 63 - 1) _ d ltac:(lia) ltac:(lia) Hd Hneg). unfold f64_as_i64. lia.
  - destruct side_bounds as [Hi' _].
    destruct (f64_as_floor (- 2 ^ 63) (2 ^ 63 - 1) _ d ltac:(lia) Hd) as [_ [H1 _]]; [rewrite minus_IZR; lra|].
    unfold f64_as_i64. apply le_IZR. lra.
Qed.

Lemma tap_min_mono x y : 0 <= x -> x <= y -> y < ow -> tap_min sc x <= tap_min sc y.
Proof.
  intros Hx Hxy Hy. destruct (edge_left x ltac:(lia)) as (d & Hd & _). destruct (edge_left y ltac:(lia)) as (d' & Hd' & Hle).
  destruct side_bounds as [Hi' _]. unfold tap_min, f64_as_i64.
  destruct (support_finite) as (z & p & e & HSf).
  pose proof (edge_mono f64_sub (- (2 * fs)) x y d d' ltac:(intros ? ?; by rewrite HSf) Hd Hd' Hxy) as Hdd.
  destruct Hd as (? & ? & _ & _ & _ & _ & Hd & _), Hd' as (? & ? & _ & _ & _ & _ & Hd' & _).
  apply (f64_as_mono _ _ _ _ d d'); [lia|done|done|done|rewrite minus_IZR; lra].
Qed.

Lemma tap_max_range xx : 0 <= xx < ow -> 0 <= tap_max iw sc xx <= iw.
Proof.
  intros Hx. destruct (edge_right xx Hx) as (d & (c & m & _ & _ & _ & _ & Hd & _) & Hle). unfold tap_max. split; [|lia].
  destruct (f64_as_floor (- 2 ^ 63) (2 ^ 63 - 1) _ d ltac:(lia) Hd) as [H0 _]; [rewrite minus_IZR; lra|]. unfold f64_as_i64. lia.
Qed.

Lemma tap_max_mono x y : 0 <= x -> x <= y -> y < ow -> tap_max iw sc x <= tap_max iw sc y.
Proof.
  intros Hx Hxy Hy. destruct (edge_right x ltac:(lia)) as (d & Hd & Hr). destruct (edge_right y ltac:(lia)) as (d' & Hd' & Hr').
  destruct (support_finite) as (z & p & e & HSf). unfold tap_max, f64_as_i64.
  pose proof (edge_mono f64_add (2 * fs) x y d d' ltac:(intros ? ?; by rewrite HSf) Hd Hd' Hxy) as Hdd.
  destruct Hd as (? & ? & _ & _ & _ & _ & Hd & _), Hd' as (? & ? & _ & _ & _ & _ & Hd' & _).
  destruct (f64_as_floor (- 2 ^ 63) (2 ^ 63 - 1) _ d ltac:(lia) Hd) as [H0 _]; [rewrite minus_IZR; lra|].
  destruct (f64_as_floor (- 2 ^ 63) (2 ^ 63 - 1) _ d' ltac:(lia) Hd') as [H0' _]; [rewrite minus_IZR; lra|].
  set (hx := f64_add (f64_add (center sc x) (support sc)) f64_half) in *. set (hy := f64_add (f64_add (center sc y) (support sc)) f64_half) in *.
  assert (Z.max (f64_as (- 2 ^ 63) (2 ^ 63 - 1) hx) 0 <= Z.max (f64_as (- 2 ^ 63) (2 ^ 63 - 1) hy) 0); [|lia].
  apply (f64_as_mono _ _ _ _ d d'); [lia|done|done|done|rewrite minus_IZR; lra].
Qed.
End taps.

(** * The kernel of a resampling *)

Definition kernel (iw ow : Z) : Z := f64_as_u64 (f64_ceil (support (scale iw ow))) * 2 + 1.
Definition window (iw ow xx : Z) : Z * Z * list Z := pixel_taps iw (kernel iw ow) (scale iw ow) xx.
Definition start (iw ow xx : Z) : Z := fst (fst (window iw ow xx)).
Definition count (iw ow xx : Z) : Z := snd (fst (window iw ow xx)).
Definition taps (iw ow xx : Z) : list Z := snd (window iw ow xx).

Lemma window_eq iw ow xx : window iw ow xx = (start iw ow xx, count iw ow xx, taps iw ow xx).
Proof. unfold start, count, taps. by destruct (window iw ow xx) as [[a b] c]. Qed.

Lemma kernel_pos iw ow : 1 <= kernel iw ow.
Proof.
  unfold kernel, f64_as_u64, f64_as. destruct (f64_ceil _); [lia|destruct s; lia|lia|]. lia.
Qed.

Lemma taps_length iw ow xx : Zlen (taps iw ow xx) = count iw ow xx /\ 0 <= count iw ow xx <= kernel iw ow.
Proof.
  pose proof (kernel_pos iw ow). unfold taps, count, window, pixel_taps. cbn [fst snd]. rewrite !length_fmap, length_seqZ. lia.
Qed.

(** What a resampling of [iw] to [ow] reads. *)
Record windows_ok (iw ow : Z) : Prop := {
  win_in : forall xx, 0 <= xx < ow -> 0 <= start iw ow xx /\ start iw ow xx + count iw ow xx <= iw;
  win_mono : forall x y, 0 <= x -> x <= y -> y < ow ->
    start iw ow x <= start iw ow y /\ start iw ow x + count iw ow x <= start iw ow y + count iw ow y
}.

Definition side_ok (n : Z) : Prop := 1 <= n <= 2 ^ 24.

Lemma windows iw ow : side_ok iw -> side_ok ow -> windows_ok iw ow.
Proof.
  intros Hi Ho. destruct (scale_value iw ow Hi Ho) as (s & Hs & Hc). destruct (support_value iw ow Hi Ho s Hs Hc) as (fs & _ & Hfs & HS).
  assert (forall xx, start iw ow xx = tap_min (scale iw ow) xx) as Es by done.
  assert (forall xx, count iw ow xx = Z.min (Z.max (tap_max iw (scale iw ow) xx - tap_min (scale iw ow) xx) 0) (kernel iw ow)) as Ec by done.
  split.
  - intros xx Hx. rewrite Ec, Es. pose proof (tap_min_range iw ow Hi Ho s fs Hs Hc Hfs HS xx Hx). pose proof (tap_max_range iw ow Hi Ho s fs Hs Hc Hfs HS xx Hx). lia.
  - intros x y Hx Hxy Hy. rewrite !Ec, !Es. pose proof (tap_min_mono iw ow Hi Ho s fs Hs Hc Hfs HS x y Hx Hxy Hy).
    pose proof (tap_max_mono iw ow Hi Ho s fs Hs Hc Hfs HS x y Hx Hxy Hy). lia.
Qed.

(** Without a change of size the windows cover everything. *)
Lemma identity_window n : side_ok n -> start n n 0 = 0 /\ start n n (n - 1) + count n n (n - 1) = n.
Proof.
  intros Hn. pose proof Hn as Hn'. unfold side_ok in Hn'. assert (1 <= IZR n)%R as Hn0 by (apply IZR_le; lia).
  assert (IZR n / IZR n = 1)%R as E1 by (field; lra). pose proof (scale_near n n Hn Hn) as Hs. rewrite E1 in Hs.
  apply Rounds_repr in Hs; [|apply (representable_Z 53 (-1074) ltac:(lia) 1); lia].
  assert (close tiny (IZR n / IZR n) 1) as Hc by (rewrite E1; unfold close, tiny; lra).
  assert (F64 (support (scale n n)) 2) as HS.
  { unfold support, filterscale. change f64_one with (f64_of_Z 1). rewrite (SFltb_spec 53 1024 ltac:(lia) (scale n n) (f64_of_Z 1) 1 1 Hs (f64_of_Z_exact 1 ltac:(lia))).
    destruct (Rlt_dec 1 1); [lra|]. apply Rounds_repr; [|apply (representable_Z 53 (-1074) ltac:(lia) 2); lia].
    replace 2%R with (2 * 1)%R by ring. apply SFmul_near; [lia|lia|by apply f64_of_Z_exact|done|]. apply (abs_lt_bpow 2); [lia|lia|]. rewrite bpow_Z, Rabs_right by (lia || lra). lra. }
  replace 2%R with (2 * 1)%R in HS by ring.
  assert (kernel n n = 5) as Hk.
  { unfold kernel. destruct (f64_integral_spec ceil_div _ _ _ ceil_divides HS) as (c & Hcv & Hcb); [rewrite bpow_Z, Rabs_right by (lia || lra); lra|].
    assert (c = 2) as -> by (assert (c - 1 < 2) by (apply lt_IZR; rewrite minus_IZR; lra); assert (2 <= c) by (apply le_IZR; lra); lia).
    unfold f64_as_u64, f64_ceil. by rewrite (f64_as_integer 0 (2 ^ 64 - 1) _ 2 ltac:(lia) Hcv ltac:(lia)). }
  assert (1 <= 1 <= IZR (2 ^ 25))%R as Hfs by lra.
  assert (forall i, Z.abs i <= 2 ^ 30 -> representable 53 (-1074) (IZR i)) as Hint by (intros i Hi; apply representable_Z; lia).
  assert (forall i, Z.abs i <= 2 ^ 30 -> representable 53 (-1074) (IZR i + / 2)) as Hhalf.
  { intros i Hi. replace (IZR i + / 2)%R with (IZR (2 * i + 1) * bpow (-1))%R by (rewrite plus_IZR, mult_IZR, bpow_half; field). apply representable_le; lia. }
  assert (forall op k (j : Z) xx d, edge n n 1 op k xx d -> k = IZR j -> Z.abs j <= 2 -> 0 <= xx < n -> d = IZR (xx + j + 1)) as Hedge.
  { intros op k j xx d (c & m & _ & Hnc & _ & Hnm & _ & Hnd) -> Hj Hx. rewrite Rmult_1_r in Hnc. apply nearest_exact in Hnc; [|apply Hhalf; lia]. subst c.
    replace (IZR xx + / 2 + IZR j)%R with (IZR (xx + j) + / 2)%R in Hnm by (rewrite plus_IZR; ring). apply nearest_exact in Hnm; [|apply Hhalf; lia]. subst m.
    replace (IZR (xx + j) + / 2 + / 2)%R with (IZR (xx + j + 1)) in Hnd by (rewrite !plus_IZR; field). apply nearest_exact in Hnd; [done|apply Hint; lia]. }
  assert (forall xx, 0 <= xx < n -> tap_min (scale n n) xx = Z.max (xx - 1) 0) as Hmin.
  { intros xx Hx. destruct (edge_left n n Hn Hn 1 1 Hs Hc Hfs HS xx Hx) as (d & Hd & _). pose proof (Hedge _ _ (-2) _ _ Hd ltac:(lra) ltac:(lia) Hx) as ->.
    destruct Hd as (? & ? & _ & _ & _ & _ & Hd & _). replace (xx + -2 + 1) with (xx - 1) in Hd by lia. unfold tap_min, f64_as_i64. destruct (Z.eq_dec xx 0) as [->|H0].
    - pose proof (f64_as_neg (- 2 ^ 63) (2 ^ 63 - 1) _ (IZR (0 - 1)) ltac:(lia) ltac:(lia) Hd ltac:(apply IZR_lt; lia)). lia.
    - rewrite (f64_as_integer (- 2 ^ 63) (2 ^ 63 - 1) _ (xx - 1) ltac:(lia) Hd) by lia. done. }
  assert (forall xx, 0 <= xx < n -> tap_max n (scale n n) xx = Z.min (xx + 3) n) as Hmax.
  { intros xx Hx. destruct (edge_right n n Hn Hn 1 1 Hs Hc Hfs HS xx Hx) as (d & Hd & _). pose proof (Hedge _ _ 2 _ _ Hd ltac:(ring) ltac:(lia) Hx) as ->.
    destruct Hd as (? & ? & _ & _ & _ & _ & Hd & _). replace (xx + 2 + 1) with (xx + 3) in Hd by lia. unfold tap_max, f64_as_i64.
    rewrite (f64_as_integer (- 2 ^ 63) (2 ^ 63 - 1) _ (xx + 3) ltac:(lia) Hd) by lia. done. }
  assert (forall xx, start n n xx = tap_min (scale n n) xx) as Es by done.
  assert (forall xx, count n n xx = Z.min (Z.max (tap_max n (scale n n) xx - tap_min (scale n n) xx) 0) (kernel n n)) as Ec by done.
  rewrite Ec, !Es, Hk, !Hmin, !Hmax by lia. lia.
Qed.

Lemma concat_lookup_uniform {A} (ls : list (list A)) w i j r x : Forall (fun l => Zlen l = w) ls -> 0 <= i -> 0 <= j < w ->
  ls !! Z.to_nat i = Some r -> r !! Z.to_nat j = Some x -> concat ls !! Z.to_nat (i * w + j) = Some x.
Proof.
  intros Hw Hi Hj Hr Hx. revert i Hi Hr. induction Hw as [|l ls Hl Hw IH]; intros i Hi Hr; [by rewrite lookup_nil in Hr|].
  cbn [concat]. destruct (Z.eq_dec i 0) as [->|Hne].
  - rewrite Z.mul_0_l, Z.add_0_l. cbn in Hr. injection Hr as ->. rewrite lookup_app_l by lia. done.
  - rewrite lookup_app_r by nia. replace (Z.to_nat i) with (S (Z.to_nat (i - 1))) in Hr by lia. cbn [lookup list_lookup] in Hr.
    rewrite <- (IH (i - 1)); [f_equal; nia|lia|done].
Qed.

Lemma seqZ_lookup n i : 0 <= i < n -> seqZ 0 n !! Z.to_nat i = Some i.
Proof. intros Hi. apply lookup_seqZ. lia. Qed.

Lemma fmap_seqZ_lookup {A} (f : Z -> A) n i : 0 <= i < n -> (f <$> seqZ 0 n) !! Z.to_nat i = Some (f i).
Proof. intros Hi. by rewrite list_lookup_fmap, seqZ_lookup. Qed.

(** * The coefficient tables *)

Definition padded_taps (iw ow xx : Z) : list Z := taps iw ow xx ++ replicate (Z.to_nat (kernel iw ow - count iw ow xx)) 0.

Lemma padded_taps_length iw ow xx : Zlen (padded_taps iw ow xx) = kernel iw ow.
Proof. destruct (taps_length iw ow xx) as [H1 H2]. unfold padded_taps. rewrite length_app, length_replicate. lia. Qed.

Definition table (iw ow : Z) : Coeffs := {| ksize := kernel iw ow;
  bounds := (fun xx => (start iw ow xx, count iw ow xx)) <$> seqZ 0 ow;
  k := concat (padded_taps iw ow <$> seqZ 0 ow) |}.

Lemma padded_uniform iw ow n : Forall (fun l => Zlen l = kernel iw ow) (padded_taps iw ow <$> seqZ 0 n).
Proof. apply Forall_fmap, Forall_forall. intros xx _. apply padded_taps_length. Qed.

Lemma precompute_table iw ow : 0 <= ow -> precompute iw ow = Ok (table iw ow).
Proof.
  intros Ho. unfold precompute. fold (kernel iw ow). pose proof (kernel_pos iw ow) as Hk.
  destruct (fold_try_inv (E:=ImageError) (fun i st => st = ((fun xx => (start iw ow xx, count iw ow xx)) <$> seqZ 0 i,
      concat (padded_taps iw ow <$> seqZ 0 i) ++ replicate (Z.to_nat ((ow - i) * kernel iw ow)) 0))
    (precompute_pixel iw (kernel iw ow) (scale iw ow)) ([], replicate (Z.to_nat (ow * kernel iw ow)) 0) ow) as (st & Hst & ->); [done| | |].
  - cbn. by rewrite Z.sub_0_r.
  - intros i st Hi ->. eexists. split; [|reflexivity]. unfold precompute_pixel. fold (window iw ow i). rewrite window_eq.
    set (pre := concat (padded_taps iw ow <$> seqZ 0 i)).
    assert (Zlen pre = i * kernel iw ow) as Hpre.
    { unfold pre. rewrite (concat_uniform_length _ (kernel iw ow)) by apply padded_uniform. rewrite length_fmap, length_seqZ. lia. }
    unfold index_range. rewrite length_app, length_replicate. rewrite !(proj2 (Z.leb_le _ _)) by nia. cbn [andb]. rewrite ok_bind. f_equal. f_equal.
    + by rewrite (seqZ_app 0 i 1), fmap_app by lia.
    + destruct (taps_length iw ow i) as [Ht Hc]. unfold splice.
      rewrite take_app_le by nia. rewrite take_ge by nia. rewrite drop_app_ge by nia. rewrite drop_replicate.
      rewrite (seqZ_app 0 i 1), fmap_app, concat_app by lia. rewrite <- app_assoc. f_equal.
      change (seqZ (0 + i) 1) with [0 + i]. cbn [fmap list_fmap concat]. rewrite Z.add_0_l, app_nil_r. unfold padded_taps. rewrite <- app_assoc. f_equal.
      rewrite <- replicate_add. f_equal. nia.
  - rewrite Hst, ok_bind. unfold table. rewrite Z.sub_diag, Z.mul_0_l. cbn [Z.to_nat replicate]. by rewrite app_nil_r.
Qed.

Lemma table_bounds iw ow xx : 0 <= xx < ow -> idx (E:=ImageError) (bounds (table iw ow)) xx = Ok (start iw ow xx, count iw ow xx).
Proof. intros Hx. apply idx_Some; [lia|]. exact (fmap_seqZ_lookup (fun xx => (start iw ow xx, count iw ow xx)) ow xx Hx). Qed.

Lemma table_taps iw ow xx : 0 <= xx < ow -> taps_of (table iw ow) xx (count iw ow xx) = Ok (taps iw ow xx).
Proof.
  intros Hx. destruct (taps_length iw ow xx) as [Ht Hc]. unfold taps_of, table. cbn [k ksize].
  destruct (slice_concat_uniform (padded_taps iw ow <$> seqZ 0 ow) (kernel iw ow) [] [] (Z.to_nat xx) (padded_taps iw ow xx)
    (xx * kernel iw ow) (xx * kernel iw ow + kernel iw ow)) as [Hsl Hle]; [apply padded_uniform|by apply fmap_seqZ_lookup|rewrite Z2Nat.id by lia; done|done|].
  rewrite app_nil_l, app_nil_r in Hsl, Hle. unfold index_range. pose proof (kernel_pos iw ow). rewrite !(proj2 (Z.leb_le _ _)) by nia. cbn [andb]. f_equal.
  replace (taps iw ow xx) with (slice (padded_taps iw ow xx) 0 (count iw ow xx)).
  - rewrite <- Hsl. rewrite slice_slice by nia. f_equal; lia.
  - unfold padded_taps. rewrite slice_app_l by lia. apply slice_whole. lia.
Qed.

(** * The passes *)

(** The fixed-point sum of a window, clipped to a byte. *)
Definition weighted_from (acc : Z) (g : Z -> Z) (l : list (Z * Z)) : Z := foldl (fun acc '(x, kw) => add32 acc (mul32 (g x) kw)) acc l.
Definition weighted (g : Z -> Z) (ts : list Z) : Z := clip8 (weighted_from BIAS g (zip (seqZ 0 (Zlen ts)) ts)).

Lemma weighted_ext g g' ts : (forall i, 0 <= i < Zlen ts -> g i = g' i) -> weighted g ts = weighted g' ts.
Proof.
  intros Hg. unfold weighted. f_equal. assert (forall l acc, Forall (fun ik => 0 <= fst ik < Zlen ts) l -> weighted_from acc g l = weighted_from acc g' l) as H.
  { induction l as [|[x kw] l IH]; intros acc Hl; [done|]. apply Forall_cons in Hl as [Hx Hl]. cbn. rewrite Hg by done. by apply IH. }
  apply H. apply Forall_forall. intros [x kw] Hin%elem_of_zip_l. by apply elem_of_seqZ in Hin.
Qed.

Lemma clip8_byte v : is_byte (clip8 v).
Proof. unfold clip8, clamp, is_byte. destruct (Z.ltb_spec (Z.shiftr v PRECISION_BITS) 0); [lia|]. destruct (Z.ltb_spec 255 (Z.shiftr v PRECISION_BITS)); lia. Qed.

Lemma at_ix_idx {E} l i : 0 <= i < Zlen l -> idx (E:=E) l i = Ok (at_ix l i).
Proof.
  intros Hi. destruct (lookup_lt_is_Some_2 l (Z.to_nat i)) as [x Hx]; [lia|]. apply idx_Some; [lia|]. rewrite Hx. f_equal.
  symmetry. by apply nth_lookup_Some.
Qed.

Lemma horizontal_taps_ok s xmin (l : list (Z * Z)) : forall a b c, Forall (fun ik => 0 <= (xmin + fst ik) * 3 /\ (xmin + fst ik) * 3 + 2 < Zlen s) l ->
  let g c x := at_ix s ((xmin + x) * 3 + c) in
  fold_try (horizontal_tap s xmin) (a, b, c) l = Ok (weighted_from a (g 0) l, weighted_from b (g 1) l, weighted_from c (g 2) l).
Proof.
  induction l as [|[x kw] l IH]; intros a b c Hl g; [done|]. apply Forall_cons in Hl as [[H1 H2] Hl]. cbn [fst] in *. cbn [fold_try horizontal_tap].
  rewrite !at_ix_idx, !ok_bind by lia. unfold g in *. rewrite IH by done. unfold weighted_from. cbn [foldl]. by rewrite Z.add_0_r.
Qed.

Section pass.
Context (iw ow : Z) (Hw : windows_ok iw ow).

Lemma window_pairs xx (P : Z -> Prop) : (forall i, 0 <= i < count iw ow xx -> P i) ->
  Forall (fun ik => P (fst ik)) (zip (seqZ 0 (Zlen (taps iw ow xx))) (taps iw ow xx)).
Proof.
  intros HP. apply Forall_forall. intros [i kw] Hin%elem_of_zip_l. apply elem_of_seqZ in Hin. destruct (taps_length iw ow xx). apply HP. cbn [fst]. lia.
Qed.

(** A pixel of a resampled row. *)
Definition row_pixel (s : list Z) (xx c : Z) : Z := weighted (fun i => at_ix s ((start iw ow xx + i) * 3 + c)) (taps iw ow xx).

Lemma horizontal_pixel_ok s xx : Zlen s = iw * 3 -> 0 <= xx < ow ->
  horizontal_pixel s (table iw ow) xx = Ok [row_pixel s xx 0; row_pixel s xx 1; row_pixel s xx 2].
Proof.
  intros Hs Hx. unfold horizontal_pixel. rewrite table_bounds, ok_bind, table_taps, ok_bind by done.
  rewrite horizontal_taps_ok; [by rewrite ok_bind|]. destruct (win_in _ _ Hw xx Hx). apply (window_pairs xx (fun i => 0 <= (start iw ow xx + i) * 3 /\ (start iw ow xx + i) * 3 + 2 < Zlen s)). lia.
Qed.

Definition resampled_row (s : list Z) : list Z := concat ((fun xx => [row_pixel s xx 0; row_pixel s xx 1; row_pixel s xx 2]) <$> seqZ 0 ow).

Lemma horizontal_row_ok s : Zlen s = iw * 3 -> horizontal_row s ow (table iw ow) = Ok (resampled_row s).
Proof.
  intros Hs. unfold horizontal_row. erewrite mapM_Ok_fmap; [by rewrite ok_bind|]. intros xx Hx%elem_of_seqZ. apply horizontal_pixel_ok; [done|lia].
Qed.

Lemma resampled_uniform s n : Forall (fun l : list Z => Zlen l = 3) ((fun xx => [row_pixel s xx 0; row_pixel s xx 1; row_pixel s xx 2]) <$> seqZ 0 n).
Proof. by apply Forall_fmap, Forall_forall. Qed.

Lemma resampled_length s : 0 <= ow -> Zlen (resampled_row s) = ow * 3.
Proof. intros Ho. unfold resampled_row. rewrite (concat_uniform_length _ 3) by apply resampled_uniform. rewrite length_fmap, length_seqZ. lia. Qed.

Lemma resampled_lookup s xx c : 0 <= xx < ow -> 0 <= c < 3 -> resampled_row s !! Z.to_nat (xx * 3 + c) = Some (row_pixel s xx c).
Proof.
  intros Hx Hcc. eapply concat_lookup_uniform; [apply resampled_uniform|lia|lia|exact (fmap_seqZ_lookup (fun xx => [row_pixel s xx 0; row_pixel s xx 1; row_pixel s xx 2]) ow xx Hx)|].
  assert (c = 0 \/ c = 1 \/ c = 2) as [->|[->| ->]] by lia; done.
Qed.
End pass.

Lemma at_ix_fmap (f : Z -> Z) n i : 0 <= i < n -> at_ix (f <$> seqZ 0 n) i = f i.
Proof. intros Hi. unfold at_ix. apply nth_lookup_Some. by apply fmap_seqZ_lookup. Qed.

Lemma at_ix_all l n : Zlen l = n -> at_ix l <$> seqZ 0 n = l.
Proof.
  intros <-. apply list_eq. intros i. rewrite list_lookup_fmap. destruct (l !! i) as [x|] eqn:Hx.
  - pose proof (lookup_lt_Some _ _ _ Hx). rewrite (proj2 (lookup_seqZ 0 (Zlen l) i (Z.of_nat i))) by lia. cbn. f_equal.
    unfold at_ix. rewrite Nat2Z.id. by apply nth_lookup_Some.
  - apply lookup_ge_None in Hx. by rewrite lookup_seqZ_ge by lia.
Qed.

Lemma fmap_seqZ_ext {A} (f g : Z -> A) n : (forall i, 0 <= i < n -> f i = g i) -> f <$> seqZ 0 n = g <$> seqZ 0 n.
Proof. intros H. apply list_fmap_ext. intros i x Hx%lookup_seqZ. apply H. lia. Qed.

Lemma zip_with_taps acc r n kw : Zlen acc = n -> Zlen r = n ->
  zip_with (fun a p => add32 a (mul32 p kw)) acc r = (fun p => add32 (at_ix acc p) (mul32 (at_ix r p) kw)) <$> seqZ 0 n.
Proof.
  intros Ha Hr. rewrite <- (at_ix_all acc n Ha), <- (at_ix_all r n Hr) at 1. rewrite zip_with_fmap_l, zip_with_fmap_r, zip_with_diag. done.
Qed.

Lemma vertical_taps_ok hsrc y0 n (row : Z -> list Z) l : forall acc, 0 <= n -> Zlen acc = n ->
  Forall (fun jk => index_range (E:=ImageError) hsrc ((y0 + fst jk) * n) ((y0 + fst jk + 1) * n) = Ok (row (fst jk)) /\ Zlen (row (fst jk)) = n) l ->
  fold_try (vertical_tap hsrc y0 n) acc l = Ok ((fun p => weighted_from (at_ix acc p) (fun j => at_ix (row j) p) l) <$> seqZ 0 n).
Proof.
  induction l as [|[j kw] l IH]; intros acc Hn Ha Hl.
  { cbn [fold_try]. f_equal. symmetry. by apply at_ix_all. }
  apply Forall_cons in Hl as [[Hr Hlen] Hl]. cbn [fst] in *. cbn [fold_try vertical_tap]. rewrite Hr, !ok_bind.
  rewrite (zip_with_taps acc (row j) n kw) by done. rewrite IH; [|done|by rewrite length_fmap, length_seqZ, Z2Nat.id|done].
  f_equal. apply fmap_seqZ_ext. intros p Hp. unfold weighted_from. cbn [foldl]. by rewrite at_ix_fmap.
Qed.

(** * The separable filter *)

(** Row [y] of the input, and that row resampled to width [w]. *)
Definition input_row (img : RgbImage) (y : Z) : list Z := slice (rgb img) (y * (width img * 3)) ((y + 1) * (width img * 3)).
Definition half_row (img : RgbImage) (w y : Z) : list Z :=
  if width img =? w then input_row img y else resampled_row (width img) w (input_row img y).

(** Row [y] of the result: each byte is a window's sum over the rows it covers. *)
Definition full_row (img : RgbImage) (w h y : Z) : list Z :=
  if height img =? h then half_row img w y
  else (fun p => weighted (fun j => at_ix (half_row img w (start (height img) h y + j)) p) (taps (height img) h y)) <$> seqZ 0 (w * 3).

Definition resampled_image (img : RgbImage) (w h : Z) : RgbImage :=
  {| width := w; height := h; rgb := concat (full_row img w h <$> seqZ 0 h) |}.

Section image.
Context (img : RgbImage) (w h : Z) (Himg : image_ok img) (Hiw : side_ok (width img)) (Hih : side_ok (height img)) (Hw : side_ok w) (Hh : side_ok h).

Lemma source_whole : source img = rgb img.
Proof.
  destruct Himg as (_ & _ & Hl). unfold source. rewrite (proj2 (Z.leb_le _ _)) by lia. by apply slice_whole.
Qed.

Lemma input_row_range y : 0 <= y < height img ->
  index_range (E:=ImageError) (rgb img) (y * (width img * 3)) ((y + 1) * (width img * 3)) = Ok (input_row img y) /\ Zlen (input_row img y) = width img * 3.
Proof.
  intros Hy. destruct Himg as (H1 & H2 & Hl). assert (0 <= y * (width img * 3) /\ (y + 1) * (width img * 3) <= Zlen (rgb img)) as [Ha Hb] by (rewrite Hl; split; nia).
  unfold index_range. rewrite !(proj2 (Z.leb_le _ _)) by lia. split; [done|]. unfold input_row. rewrite slice_length by lia. lia.
Qed.

Lemma half_row_length y : 0 <= y < height img -> Zlen (half_row img w y) = w * 3.
Proof.
  intros Hy. unfold half_row. unfold side_ok in *. destruct (Z.eqb_spec (width img) w) as [<-|_]; [by apply input_row_range|]. apply resampled_length. lia.
Qed.

Lemma full_row_length y : 0 <= y < h -> Zlen (full_row img w h y) = w * 3.
Proof.
  intros Hy. unfold full_row. unfold side_ok in *. destruct (Z.eqb_spec (height img) h) as [E|_]; [apply half_row_length; lia|].
  rewrite length_fmap, length_seqZ. lia.
Qed.

(** Rows of the source laid end to end, from [lo]. *)
Lemma rows_range lo n y : 0 <= lo -> lo <= y -> y < lo + n -> lo + n <= height img ->
  index_range (E:=ImageError) (concat ((fun i => half_row img w (lo + i)) <$> seqZ 0 n)) ((y - lo) * (w * 3)) ((y - lo + 1) * (w * 3)) = Ok (half_row img w y).
Proof.
  intros Hlo Hy Hyn Hn. set (ls := (fun i => half_row img w (lo + i)) <$> seqZ 0 n).
  assert (Forall (fun l => Zlen l = w * 3) ls) as Hu.
  { apply Forall_fmap, Forall_forall. intros i Hin%elem_of_seqZ. apply half_row_length. lia. }
  assert (ls !! Z.to_nat (y - lo) = Some (half_row img w y)) as Hl.
  { unfold ls. rewrite fmap_seqZ_lookup by lia. do 2 f_equal. lia. }
  destruct (slice_concat_uniform ls (w * 3) [] [] (Z.to_nat (y - lo)) _ ((y - lo) * (w * 3)) ((y - lo) * (w * 3) + w * 3) Hu Hl) as [Hs Hle]; [rewrite Z2Nat.id by lia; done|done|].
  rewrite app_nil_l, app_nil_r in Hs, Hle. unfold side_ok in *. replace ((y - lo + 1) * (w * 3)) with ((y - lo) * (w * 3) + w * 3) by lia.
  unfold index_range. rewrite !(proj2 (Z.leb_le _ _)) by nia. cbn [andb]. by rewrite Hs.
Qed.

Lemma horizontal_pass_ok first last : width img <> w -> 0 <= first -> first <= last -> last <= height img ->
  horizontal_pass (rgb img) (width img) w first last = Ok (concat ((fun i => half_row img w (first + i)) <$> seqZ 0 (last - first))).
Proof.
  intros Hne Hf Hfl Hl. unfold horizontal_pass, usize_minus. unfold side_ok in *. rewrite precompute_table, ok_bind by lia.
  rewrite (proj2 (Z.ltb_ge last first)), ok_bind by done. erewrite mapM_Ok_fmap; [by rewrite ok_bind|].
  intros y Hy%elem_of_seqZ. destruct (input_row_range (first + y)) as [Hr Hlen]; [lia|].
  replace ((y + first) * width img * 3) with ((first + y) * (width img * 3)) by lia.
  replace ((y + first + 1) * width img * 3) with ((first + y + 1) * (width img * 3)) by lia. rewrite Hr, ok_bind.
  rewrite horizontal_row_ok; [|by apply windows|done]. unfold half_row. by rewrite (proj2 (Z.eqb_neq _ _) Hne).
Qed.

Lemma vertical_row_ok hsrc off yy : height img <> h -> 0 <= yy < h -> off <= start (height img) h yy ->
  (forall y, start (height img) h yy <= y < start (height img) h yy + count (height img) h yy ->
    index_range (E:=ImageError) hsrc ((y - off) * (w * 3)) ((y - off + 1) * (w * 3)) = Ok (half_row img w y) /\ Zlen (half_row img w y) = w * 3) ->
  vertical_row hsrc off (w * 3) (table (height img) h) yy = Ok (full_row img w h yy).
Proof.
  intros Hne Hy Hoff Hrows. unfold vertical_row. rewrite table_bounds, ok_bind by done. unfold usize_minus.
  rewrite (proj2 (Z.ltb_ge _ _)), ok_bind by done. rewrite table_taps, ok_bind by done.
  set (s := start (height img) h yy) in *. unfold side_ok in *.
  rewrite (vertical_taps_ok hsrc (s - off) (w * 3) (fun j => half_row img w (s + j))); [|lia|by rewrite length_replicate, Z2Nat.id by lia|].
  - rewrite ok_bind. unfold full_row. rewrite (proj2 (Z.eqb_neq _ _) Hne). fold s. f_equal. rewrite <- list_fmap_compose. apply fmap_seqZ_ext. intros p Hp.
    unfold compose, weighted. do 2 f_equal. unfold at_ix. apply nth_lookup_Some, lookup_replicate_2. lia.
  - apply (window_pairs (height img) h yy (fun j => index_range (E:=ImageError) hsrc ((s - off + j) * (w * 3)) ((s - off + j + 1) * (w * 3)) = Ok (half_row img w (s + j)) /\ Zlen (half_row img w (s + j)) = w * 3)).
    intros j Hj. replace (s - off + j) with (s + j - off) by lia. apply Hrows. lia.
Qed.

(** The rows between the first and last windows hold every window. *)
Lemma windows_span yy : 0 <= yy < h -> let st y := start (height img) h y in let en y := start (height img) h y + count (height img) h y in
  0 <= st 0 /\ st 0 <= st yy /\ en yy <= en (h - 1) /\ en (h - 1) <= height img /\ st 0 <= en (h - 1).
Proof.
  intros Hy st en. pose proof (windows _ _ Hih Hh) as Hwin. unfold side_ok in *.
  destruct (win_in _ _ Hwin 0) as [H0 _]; [lia|]. destruct (win_in _ _ Hwin (h - 1)) as [_ H1]; [lia|].
  destruct (win_mono _ _ Hwin 0 yy) as [H2 _]; [lia..|]. destruct (win_mono _ _ Hwin yy (h - 1)) as [H3 H4]; [lia..|].
  destruct (taps_length (height img) h yy) as [_ Hc]. subst st en. cbv beta. lia.
Qed.

Lemma input_rows : concat (input_row img <$> seqZ 0 (height img)) = rgb img.
Proof.
  destruct Himg as (H1 & H2 & Hl). unfold side_ok in *. 
  assert (forall n, 0 <= n -> n <= height img -> concat (input_row img <$> seqZ 0 n) = slice (rgb img) 0 (n * (width img * 3))) as H.
  { apply (natlike_ind (fun n => n <= height img -> _)); [done|]. intros n Hn IH Hle. unfold Z.succ. rewrite (seqZ_app 0 n 1), fmap_app, concat_app, IH by lia.
    change (seqZ (0 + n) 1) with [0 + n]. cbn [fmap list_fmap concat]. rewrite app_nil_r, Z.add_0_l. unfold input_row. rewrite !slice_from_start. unfold slice.
    rewrite <- (take_drop (Z.to_nat (n * (width img * 3))) (take (Z.to_nat ((n + 1) * (width img * 3))) (rgb img))), take_take, skipn_firstn_comm.
    f_equal; f_equal; nia. }
  rewrite H by lia. apply slice_whole. lia.
Qed.

Lemma resize_bicubic_ok : resize_bicubic img w h = Ok (resampled_image img w h).
Proof.
  unfold resize_bicubic. rewrite source_whole. unfold side_ok in *. rewrite !(proj2 (Z.eqb_neq _ 0)) by lia. cbn [orb].
  unfold resampled_image. destruct (Z.eqb_spec (width img) w) as [Ew|Ew], (Z.eqb_spec (height img) h) as [Eh|Eh]; cbn [andb].
  { f_equal. f_equal. rewrite <- input_rows, Eh. f_equal. apply fmap_seqZ_ext. intros y Hy. unfold full_row, half_row.
    by rewrite (proj2 (Z.eqb_eq _ _) Eh), (proj2 (Z.eqb_eq _ _) Ew). }
  all: rewrite precompute_table, ok_bind by lia; rewrite !table_bounds, !ok_bind by lia.
  - rewrite (proj2 (Z.eqb_eq w (width img))) by done. cbn [negb]. rewrite ok_bind, (proj2 (Z.eqb_neq h (height img))) by done. cbn [negb]. rewrite Ew.
    erewrite mapM_Ok_fmap; [by rewrite ok_bind|]. intros yy Hy%elem_of_seqZ. destruct (windows_span yy) as (S1 & S2 & S3 & S4 & S5); [lia|].
    apply vertical_row_ok; [done|lia|lia|]. intros y Hyr. destruct (input_row_range y) as [Hr Hlen]; [lia|]. unfold half_row.
    rewrite (proj2 (Z.eqb_eq _ _) Ew), Z.sub_0_r, <- Ew. done.
  - rewrite (proj2 (Z.eqb_neq w (width img))), (proj2 (Z.eqb_eq h (height img))) by done. cbn [negb].
    destruct (windows_span 0) as (S1 & S2 & S3 & S4 & S5); [lia|]. rewrite horizontal_pass_ok, !ok_bind by lia. f_equal. f_equal.
    destruct (identity_window h Hh) as [I0 I1]. rewrite Eh, I0, I1, Z.sub_0_r. f_equal. apply fmap_seqZ_ext. intros y Hy.
    unfold full_row. by rewrite (proj2 (Z.eqb_eq _ _) Eh).
  - rewrite (proj2 (Z.eqb_neq w (width img))), (proj2 (Z.eqb_neq h (height img))) by done. cbn [negb].
    destruct (windows_span 0) as (S1 & S2 & S3 & S4 & S5); [lia|]. rewrite horizontal_pass_ok, !ok_bind by lia.
    erewrite mapM_Ok_fmap; [by rewrite ok_bind|]. intros yy Hy%elem_of_seqZ. destruct (windows_span yy) as (Y1 & Y2 & Y3 & Y4 & Y5); [lia|].
    apply vertical_row_ok; [done|lia|lia|]. intros y Hyr. split; [|apply half_row_length; lia]. apply rows_range; lia.
Qed.
End image.

(** ** The bytes of the result *)

Lemma at_ix_byte l i : bytes_ok l -> is_byte (at_ix l i).
Proof.
  intros Hl. unfold at_ix. destruct (l !! Z.to_nat i) as [x|] eqn:E.
  - rewrite (nth_lookup_Some _ _ _ _ E). by apply (Forall_lookup_1 _ _ _ _ Hl E).
  - rewrite nth_overflow by (by apply lookup_ge_None). unfold is_byte. lia.
Qed.

Lemma input_row_bytes img y : bytes_ok (rgb img) -> bytes_ok (input_row img y).
Proof. intros Hb. unfold input_row, slice. by apply Forall_take, Forall_drop. Qed.

Lemma half_row_bytes img w y : bytes_ok (rgb img) -> bytes_ok (half_row img w y).
Proof.
  intros Hb. unfold half_row. destruct (_ =? _); [by apply input_row_bytes|]. unfold resampled_row. apply Forall_concat, Forall_fmap, Forall_forall.
  intros xx _. cbn. unfold row_pixel, weighted. repeat (apply Forall_cons; split; [apply clip8_byte|]). done.
Qed.

Lemma resampled_bytes img w h : bytes_ok (rgb img) -> bytes_ok (rgb (resampled_image img w h)).
Proof.
  intros Hb. cbn. apply Forall_concat, Forall_fmap, Forall_forall. intros y _. cbn. unfold full_row.
  destruct (_ =? _); [by apply half_row_bytes|]. apply Forall_fmap, Forall_forall. intros p _. apply clip8_byte.
Qed.

Lemma resampled_ok img w h : image_ok img -> side_ok w -> side_ok h -> image_ok (resampled_image img w h).
Proof.
  intros Himg Hw Hh. unfold side_ok in *. split; [cbn; lia|split; [cbn; lia|]]. cbn.
  rewrite (concat_uniform_length _ (w * 3)); [rewrite length_fmap, length_seqZ; lia|].
  apply Forall_fmap, Forall_forall. intros y Hy%elem_of_seqZ. by apply full_row_length.
Qed.

(** Nothing is resampled when the size is unchanged. *)
Lemma resampled_same img : image_ok img -> side_ok (width img) -> side_ok (height img) -> resampled_image img (width img) (height img) = img.
Proof.
  intros Himg Hw Hh. pose proof (resize_bicubic_ok img (width img) (height img) Himg Hw Hh Hw Hh) as E.
  unfold resize_bicubic in E. rewrite source_whole in E by done. unfold side_ok in *. rewrite !(proj2 (Z.eqb_neq _ 0)), !Z.eqb_refl in E by lia. cbn [orb andb] in E.
  injection E as E. unfold resampled_image. rewrite <- E. by destruct img.
Qed.

(** C30: [resize_bicubic] is Pillow's separable filter, and always returns.  For every image whose
    buffer has its declared size and every pair of target sides up to [2 ^ 24], the result is the
    image whose row [y] is each row under a window's weighted sum of the input rows it covers,
    each already resampled in the same way along its columns: no window reaches outside the
    image, and computing the rows between the first and last windows only, at an offset, changes
    no pixel. *)
Theorem resize_is_separable img w h : image_ok img -> side_ok (width img) -> side_ok (height img) -> side_ok w -> side_ok h ->
  resize_bicubic img w h = Ok (resampled_image img w h) /\ image_ok (resampled_image img w h).
Proof. intros Himg Hiw Hih Hw Hh. split; [by apply resize_bicubic_ok|by apply resampled_ok]. Qed.

Definition four_pixels : RgbImage := {| width := 2; height := 2; rgb := [10; 20; 30; 40; 50; 60; 70; 80; 90; 100; 110; 120] |}.

Lemma resize_is_separable_witness : side_ok 3 /\ side_ok 5 /\
  resize_bicubic four_pixels 3 5 = Ok (resampled_image four_pixels 3 5) /\ image_ok (resampled_image four_pixels 3 5).
Proof.
  split; [unfold side_ok; lia|]. split; [unfold side_ok; lia|].
  apply resize_is_separable; unfold side_ok, image_ok; cbn [width height four_pixels]; try lia. repeat split; (lia || reflexivity).
Defined.
