(* ===== verification/Vision.v ===== *)
(** The image pipeline behind the decoders (src/crates/mimo26-image/src/lib.rs and
    preprocess.rs): data URLs, sniffing, the target size, normalisation, the patch layout.

    A URL is a list of scalar values; a decoded payload is a list of bytes.  The [f32]s of
    [Patches] are [spec_float]s. *)
From Stdlib Require Import ZArith Lia Bool SpecFloat Rbase R_Ifp Rbasic_fun Rfunctions R_sqrt Lra.
From stdpp Require Import base list gmap strings.
From S2P Require Import Prelude Utf8 Scan Floats FloatRound Tokenizer Base64 Exif Png JpegBits Jpeg Resize.

(** * Definitions *)

Definition PATCH : Z := 16.
Definition MERGE : Z := 2.
Definition TEMPORAL : Z := 2.
Definition FACTOR : Z := 32.
Definition MIN_PIXELS : Z := 3136.
Definition MAX_PIXELS : Z := 12845056.
Definition PATCH_DIM : Z := 3 * TEMPORAL * PATCH * PATCH.
Definition IMAGE_MEAN : list spec_float :=
  [f64_decimal 48145466 8; f64_decimal 4578275 7; f64_decimal 40821073 8].
Definition IMAGE_STD : list spec_float :=
  [f64_decimal 26862954 8; f64_decimal 26130258 8; f64_decimal 27577711 8].

Record Patches := { grid_t : Z; grid_h : Z; grid_w : Z; data : list spec_float }.

Definition rows (p : Patches) : Z := grid_t p * grid_h p * grid_w p.
Definition patches_merged_tokens (p : Patches) : Z := rows p / (MERGE * MERGE).

(** ** Data URLs *)

Definition ascii_ws (c : Z) : bool := bool_decide (c ∈ [0x20; 0x09; 0x0A; 0x0C; 0x0D]).
Definition to_ascii_lowercase (s : list Z) : list Z := (fun c => if between 0x41 0x5A c then c + 0x20 else c) <$> s.
Definition eq_ignore_ascii_case (a b : list Z) : bool := bool_decide (to_ascii_lowercase a = to_ascii_lowercase b).

(** [str::trim_matches] and [str::trim]. *)
Definition trim_matches (f : Z -> bool) (s : list Z) : list Z :=
  let s := drop (count_while f s) s in reverse (drop (count_while f (reverse s)) (reverse s)).
Definition trim : list Z -> list Z := trim_matches is_whitespace.

(** [str::split] at a character. *)
Fixpoint split (c : Z) (s : list Z) : list (list Z) :=
  match s with
  | [] => [[]]
  | x :: s =>
    if x =? c then [] :: split c s
    else match split c s with p :: ps => (x :: p) :: ps | [] => [[x]] end
  end.

Definition snippet (s : list Z) : list Z := if Zlen s <=? 48 then s else take 48 s ++ [0x2026].

Definition has_data_prefix (s : list Z) : bool :=
  (5 <=? Zlen (utf8 s)) && eq_ignore_ascii_case (take 5 (utf8 s)) (str "data:").

(** What is left of the URL once its header says the payload is base64 image data. *)
Definition url_payload (s : list Z) : outcome ImageError (list Z) :=
  let rest := drop 5 s in
  match find [0x2C] rest with
  | None => Err NoComma
  | Some (header, payload) =>
    let parts := split 0x3B header in
    let media := trim (from_option id [] (head parts)) in
    let params := trim <$> tail parts in
    let is_base64 := match last params with Some p => eq_ignore_ascii_case p (str "base64") | None => false end in
    if negb is_base64 then Err (NotBase64 (snippet header))
    else
      let media_l := to_ascii_lowercase media in
      if negb (bool_decide (media_l = []) || starts_with media_l (str "image/") || bool_decide (media_l = str "application/octet-stream"))
      then Err (MediaType (snippet media))
      else Ok payload
  end.

Definition data_url_bytes (url : list Z) : outcome ImageError (list Z) :=
  let s := trim_matches ascii_ws url in
  if negb (has_data_prefix s) then
    let lower := to_ascii_lowercase (take 8 s) in
    if starts_with lower (str "http://") || starts_with lower (str "https://") then Err RemoteUrl
    else Err (NotDataUrl (snippet s))
  else
    payload ← url_payload s;
    bytes ← Base64.decode (utf8 payload);
    match bytes with [] => Err EmptyData | _ => Ok bytes end.

(** ** Formats *)

Definition sniff_other (b : list Z) : list Z :=
  if starts_with b (str "GIF87a") || starts_with b (str "GIF89a") then str "GIF"
  else if (12 <=? Zlen b) && bool_decide (slice b 0 4 = str "RIFF") && bool_decide (slice b 8 12 = str "WEBP") then str "WebP"
  else if starts_with b (str "BM") then str "BMP"
  else if starts_with b (str "II*" ++ [0]) || starts_with b (str "MM" ++ [0] ++ str "*") then str "TIFF"
  else if (12 <=? Zlen b) && bool_decide (slice b 4 8 = str "ftyp") then
    let brand := slice b 8 12 in
    if bool_decide (brand ∈ [str "avif"; str "avis"]) then str "AVIF"
    else if bool_decide (brand ∈ [str "heic"; str "heix"; str "mif1"; str "msf1"; str "hevc"]) then str "HEIF"
    else []
  else if starts_with b [0xFF; 0xD8] then str "(JPEG without a marker after SOI)"
  else [].

Definition decode (bytes : list Z) : outcome ImageError RgbImage :=
  if starts_with bytes SIGNATURE then Png.decode bytes
  else if (3 <=? Zlen bytes) && bool_decide (slice bytes 0 3 = [0xFF; 0xD8; 0xFF]) then jpeg_decode bytes
  else Err (UnsupportedFormat (sniff_other bytes)).

Definition decode_data_url (url : list Z) : outcome ImageError RgbImage :=
  bytes ← data_url_bytes url;
  decode bytes.

(** ** The target size *)

Definition EXACT : Z := Z.shiftl 1 53.

(** [128 - x.leading_zeros()] *)
Definition bits (x : Z) : Z := if x <=? 0 then 0 else Z.log2 x + 1.

(** The mantissa and exponent of the quotient of two wide integers. *)
Definition scaled_quotient (a b : Z) : outcome ImageError (Z * Z) :=
  let shift := Z.max (55 + bits b - bits a) 0 in
  let num := Z.shiftl a shift mod 2 ^ 128 in
  if b =? 0 then Panic
  else
    let '(q, r) := (num / b, num mod b) in
    let drop := bits q - 53 in
    if (drop <? 1) || (128 <=? drop) then Panic
    else
      let low := Z.land q (Z.shiftl 1 drop - 1) in
      let half := Z.shiftl 1 (drop - 1) in
      let m := Z.shiftr q drop in
      let m := if (half <? low) || ((low =? half) && (negb (r =? 0) || (Z.land m 1 =? 1))) then m + 1 else m in
      let exp := drop - shift in
      if m =? Z.shiftl 1 53 then Ok (Z.shiftr m 1, exp + 1) else Ok (m, exp).

Definition py_true_div (a b : Z) : outcome ImageError spec_float :=
  if (a <=? EXACT) && (b <=? EXACT) then Ok (f64_div (f64_of_Z a) (f64_of_Z b))
  else if a =? 0 then Ok f64_zero
  else
    '(m, exp) ← scaled_quotient a b;
    Ok (f64_mul (f64_of_Z m) (f64_powi2 exp)).

(** [u64] multiplication, overflow checked. *)
Definition u64_times (a b : Z) : outcome ImageError Z := if a * b <? 2 ^ 64 then Ok (a * b) else Panic.

Definition smart_resize (height width : Z) : outcome ImageError (Z * Z) :=
  if (height =? 0) || (width =? 0) then Err (EmptyImage width height)
  else
    let '(h, w) := (height, width) in
    ratio ← py_true_div (Z.max h w) (Z.min h w);
    if SFltb (f64_of_Z 200) ratio then Err (AspectRatio ratio width height)
    else
      let '(fh, fw, ff) := (f64_of_Z h, f64_of_Z w, f64_of_Z FACTOR) in
      h_bar ← u64_times (f64_as_u64 (f64_round_ties_even (f64_div fh ff))) FACTOR;
      w_bar ← u64_times (f64_as_u64 (f64_round_ties_even (f64_div fw ff))) FACTOR;
      let area := h_bar * w_bar in
      '(h_bar, w_bar) ←
        (if MAX_PIXELS <? area then
           hw ← u64_times h w;
           ratio ← py_true_div hw MAX_PIXELS;
           let beta := f64_sqrt ratio in
           a ← u64_times (f64_as_u64 (f64_floor (f64_div (f64_div fh beta) ff))) FACTOR;
           b ← u64_times (f64_as_u64 (f64_floor (f64_div (f64_div fw beta) ff))) FACTOR;
           Ok (Z.max FACTOR a, Z.max FACTOR b)
         else if area <? MIN_PIXELS then
           hw ← u64_times h w;
           ratio ← py_true_div MIN_PIXELS hw;
           let beta := f64_sqrt ratio in
           a ← u64_times (f64_as_u64 (f64_ceil (f64_div (f64_mul fh beta) ff))) FACTOR;
           b ← u64_times (f64_as_u64 (f64_ceil (f64_div (f64_mul fw beta) ff))) FACTOR;
           Ok (a, b)
         else Ok (h_bar, w_bar));
      if (h_bar <? 2 ^ 32) && (w_bar <? 2 ^ 32) then Ok (h_bar, w_bar) else Err (ResizeRange width height).

Definition merged_tokens (height width : Z) : outcome ImageError Z :=
  '(rh, rw) ← smart_resize height width;
  Ok (rh / FACTOR * (rw / FACTOR)).

(** ** Normalisation and patches *)

Definition normalize_value (c v : Z) : outcome ImageError spec_float :=
  let x := f32_of_f64 (f64_mul (f64_of_Z v) (f64_div f64_one (f64_of_Z 255))) in
  mean ← idx IMAGE_MEAN c;
  std ← idx IMAGE_STD c;
  Ok (f32_div (f32_sub x (f32_of_f64 mean)) (f32_of_f64 std)).

Definition lut : outcome ImageError (list (list spec_float)) :=
  mapM (fun c => mapM (normalize_value c) (seqZ 0 256)) (seqZ 0 3).

(** A channel's 16 values of one pixel row, written to both temporal slots. *)
Definition patch_channel (pixels : list Z) (py : Z) (dst : list spec_float) (ct : Z * list spec_float) : outcome ImageError (list spec_float) :=
  let '(c, table) := ct in
  let plane := PATCH * PATCH in
  let base := c * TEMPORAL * plane + py * PATCH in
  _ ← index_range dst base (base + plane + PATCH);
  vs ← mapM (fun px => p ← idx pixels (px * 3 + c); idx table p) (seqZ 0 PATCH);
  Ok (splice (splice dst base vs) (base + plane) vs).

Definition patch_line (src : list Z) (lut : list (list spec_float)) (rw py0 px0 : Z) (dst : list spec_float) (py : Z) : outcome ImageError (list spec_float) :=
  let s := ((py0 + py) * rw + px0) * 3 in
  pixels ← index_range src s (s + PATCH * 3);
  fold_try (patch_channel pixels py) dst (zip (seqZ 0 3) lut).

(** Patch [(bh, bw, mh, mw)] of the loops. *)
Definition patch_row (src : list Z) (lut : list (list spec_float)) (rw bh bw mh mw : Z) (dst : list spec_float) : outcome ImageError (list spec_float) :=
  let py0 := (bh * MERGE + mh) * PATCH in
  let px0 := (bw * MERGE + mw) * PATCH in
  fold_try (patch_line src lut rw py0 px0) dst (seqZ 0 PATCH).

(** The order in which the loops fill the rows of [data]. *)
Definition patch_order (gh gw : Z) : list (Z * Z * Z * Z) :=
  concat ((fun bh => concat ((fun bw => concat ((fun mh => (fun mw => (bh, bw, mh, mw)) <$> seqZ 0 MERGE) <$> seqZ 0 MERGE))
    <$> seqZ 0 (gw / MERGE))) <$> seqZ 0 (gh / MERGE)).

Definition fill_row (src : list Z) (lut : list (list spec_float)) (rw : Z) (st : list spec_float * Z) (at_ : Z * Z * Z * Z) : outcome ImageError (list spec_float * Z) :=
  let '((data, row), (bh, bw, mh, mw)) := (st, at_) in
  dst ← index_range data (row * PATCH_DIM) ((row + 1) * PATCH_DIM);
  dst ← patch_row src lut rw bh bw mh mw dst;
  Ok (splice data (row * PATCH_DIM) dst, row + 1).

Definition preprocess (img : RgbImage) : outcome ImageError Patches :=
  let '(w, h) := (width img, height img) in
  if negb (Zlen (rgb img) =? w * h * 3) then Err (BufferLength (Zlen (rgb img)) w h)
  else
    '(rh, rw) ← smart_resize h w;
    src ← (if (rw =? w) && (rh =? h) then Ok img else resize_bicubic img rw rh);
    let '(gh, gw) := (rh / PATCH, rw / PATCH) in
    lut ← lut;
    '(data, _) ← fold_try (fill_row (rgb src) lut rw)
      (replicate (Z.to_nat (gh * gw * PATCH_DIM)) (S754_zero false), 0) (patch_order gh gw);
    Ok {| grid_t := 1; grid_h := gh; grid_w := gw; data := data |}.

(** * Division *)

Lemma bits_spec x : 0 < x -> 1 <= bits x /\ 2 ^ (bits x - 1) <= x < 2 ^ bits x.
Proof.
  intros Hx. unfold bits. rewrite (proj2 (Z.leb_gt _ _)) by done. pose proof (Z.log2_spec x Hx) as H. pose proof (Z.log2_nonneg x).
  replace (Z.log2 x + 1 - 1) with (Z.log2 x) by lia. rewrite <- Z.add_1_r in H. split; [lia|done].
Qed.

Lemma bits_le x n : 0 <= n -> 0 < x < 2 ^ n -> bits x <= n.
Proof. intros Hn Hx. destruct (bits_spec x) as [H1 H2]; [lia|]. assert (bits x - 1 < n); [|lia]. apply (Z.pow_lt_mono_r_iff 2); lia. Qed.

(** The shifted dividend fits [u128], and the quotient has at least 55 bits. *)
Lemma quotient_wide a b : 0 < a < 2 ^ 64 -> 0 < b < 2 ^ 64 ->
  let shift := Z.max (55 + bits b - bits a) 0 in let q := a * 2 ^ shift / b in
  0 <= shift <= 118 /\ a * 2 ^ shift < 2 ^ 128 /\ 2 ^ 54 <= q < 2 ^ 128.
Proof.
  intros Ha Hb shift q. destruct (bits_spec a) as [Ha1 Ha2]; [lia|]. destruct (bits_spec b) as [Hb1 Hb2]; [lia|].
  pose proof (bits_le a 64 ltac:(lia) Ha). pose proof (bits_le b 64 ltac:(lia) Hb).
  assert (0 <= shift <= 118) as Hs by lia. assert (a * 2 ^ shift < 2 ^ 128) as Hfit.
  { apply Z.lt_le_trans with (2 ^ bits a * 2 ^ shift); [apply Z.mul_lt_mono_pos_r; [apply Z.pow_pos_nonneg|]; lia|].
    rewrite <- Z.pow_add_r by lia. apply Z.pow_le_mono_r; lia. }
  split; [done|split; [done|]]. split.
  - apply Z.div_le_lower_bound; [lia|]. apply Z.le_trans with (2 ^ bits b * 2 ^ 54); [apply Z.mul_le_mono_nonneg_r; lia|].
    rewrite <- Z.pow_add_r by lia. apply Z.le_trans with (2 ^ (bits a - 1) * 2 ^ shift).
    + rewrite <- Z.pow_add_r by lia. apply Z.pow_le_mono_r; lia.
    + apply Z.mul_le_mono_nonneg_r; [apply Z.pow_nonneg|]; lia.
  - apply Z.le_lt_trans with (a * 2 ^ shift); [|done]. apply Z.div_le_upper_bound; [lia|].
    assert (0 <= a * 2 ^ shift) by (apply Z.mul_nonneg_nonneg; [|apply Z.pow_nonneg]; lia). nia.
Qed.

(** Rounding a quotient [q] with remainder [r] to [q / 2 ^ drop], half to even with a
    sticky bit, is at most half away from the exact quotient. *)
Lemma sticky_round q r b drop t : 0 <= q -> 1 <= drop -> 0 <= r < b -> (t * IZR b = IZR q * IZR b + IZR r)%R ->
  let low := Z.land q (Z.shiftl 1 drop - 1) in let half := Z.shiftl 1 (drop - 1) in let m := Z.shiftr q drop in
  let n := if (half <? low) || ((low =? half) && (negb (r =? 0) || (Z.land m 1 =? 1))) then m + 1 else m in
  m <= n <= m + 1 /\ (Rabs (IZR n - t / IZR (2 ^ drop)) <= 1 / 2)%R /\ (IZR m <= t / IZR (2 ^ drop) < IZR m + 1)%R.
Proof.
  intros Hq Hd Hr Ht. rewrite Z.shiftr_div_pow2, !Z.shiftl_1_l by lia.
  replace (Z.land q (2 ^ drop - 1)) with (q mod 2 ^ drop) by (rewrite <- Z.land_ones, Z.ones_equiv, Z.sub_1_r by lia; done).
  pose proof (Z.div_mod q (2 ^ drop) ltac:(pose proof (Z.pow_pos_nonneg 2 drop); lia)) as Hqd.
  assert (0 < 2 ^ drop) as Hpd by (apply Z.pow_pos_nonneg; lia). pose proof (Z.mod_pos_bound q (2 ^ drop) Hpd) as Hlow.
  assert (2 ^ drop = 2 * 2 ^ (drop - 1)) as Hhalf by (rewrite <- Z.pow_succ_r by lia; f_equal; lia).
  set (m := q / 2 ^ drop) in *. set (low := q mod 2 ^ drop) in *. set (half := 2 ^ (drop - 1)) in *. cbv zeta.
  assert (0 < IZR b)%R as Hb by (apply IZR_lt; lia). set (th := (IZR r / IZR b)%R).
  assert (0 <= th < 1)%R as Hth.
  { unfold th. split; [apply Rmult_le_pos; [apply IZR_le; lia|left; by apply Rinv_0_lt_compat]|].
    apply (Rmult_lt_reg_r (IZR b)); [done|]. unfold Rdiv. rewrite Rmult_assoc, Rinv_l, Rmult_1_r, Rmult_1_l by lra. apply IZR_lt. lia. }
  assert (t = IZR q + th)%R as -> by (unfold th; apply (Rmult_eq_reg_r (IZR b)); [rewrite Ht; field|]; lra).
  assert (0 < IZR (2 ^ drop))%R as Hpd' by (by apply IZR_lt). set (D := IZR (2 ^ drop)) in *.
  set (x := ((IZR q + th) / D)%R). assert (x * D = IZR m * D + IZR low + th)%R as Hx.
  { unfold x, Rdiv. rewrite Rmult_assoc, Rinv_l, Rmult_1_r by lra. rewrite Hqd at 1. rewrite plus_IZR, mult_IZR. unfold D. ring. }
  assert (D = 2 * IZR half)%R as HD by (unfold D; rewrite Hhalf, mult_IZR; done).
  assert (0 <= IZR low)%R as Hl0 by (apply IZR_le; lia). assert (IZR low + 1 <= D)%R as Hl1 by (unfold D; rewrite <- plus_IZR; apply IZR_le; lia).
  assert (IZR m <= x < IZR m + 1)%R as Hmx by (split; [apply (Rmult_le_reg_r D)|apply (Rmult_lt_reg_r D)]; lra).
  split; [destruct (_ || _); lia|]. split; [|done].
  assert (half <= low -> (1 / 2 <= x - IZR m)%R) as Hup.
  { intros H%IZR_le. apply (Rmult_le_reg_r D); [done|]. lra. }
  assert (low < half \/ low = half /\ r = 0 -> (x - IZR m <= 1 / 2)%R) as Hdown.
  { intros [H|[H ->]].
    - assert (low + 1 <= half) as H1%IZR_le by lia. rewrite plus_IZR in H1. apply (Rmult_le_reg_r D); [done|]. lra.
    - assert (th = 0)%R as Hth0 by (unfold th, Rdiv; ring). apply (f_equal IZR) in H. apply (Rmult_le_reg_r D); [done|]. lra. }
  destruct ((half <? low) || _) eqn:Hc.
  - rewrite plus_IZR, Rabs_right; [|lra]. specialize (Hup ltac:(lia)). lra.
  - rewrite Rabs_left1 by lra. assert (x - IZR m <= 1 / 2)%R; [|lra]. apply Hdown.
    destruct (Z.ltb_spec half low); [done|]. destruct (Z.eqb_spec low half); [|lia]. destruct (Z.eqb_spec r 0); [by right|done].
Qed.

Lemma scaled_quotient_near a b : 0 < a < 2 ^ 64 -> 0 < b < 2 ^ 64 ->
  exists m exp, scaled_quotient a b = Ok (m, exp) /\ 0 <= m <= 2 ^ 53 /\ -200 <= exp <= 200 /\ near64 (IZR a / IZR b) (IZR m * bpow exp).
Proof.
  intros Ha Hb. destruct (quotient_wide a b Ha Hb) as (Hs & Hfit & Hq). unfold scaled_quotient.
  set (shift := Z.max (55 + bits b - bits a) 0) in *. rewrite Z.shiftl_mul_pow2 by lia.
  assert (0 < 2 ^ shift) as Hps by (apply Z.pow_pos_nonneg; lia).
  rewrite Z.mod_small by (split; [apply Z.mul_nonneg_nonneg|]; lia). rewrite (proj2 (Z.eqb_neq b 0)) by lia.
  set (q := a * 2 ^ shift / b) in *. set (r := (a * 2 ^ shift) mod b).
  destruct (bits_spec q) as [Hn1 Hn2]; [lia|]. pose proof (bits_le q 128 ltac:(lia) ltac:(lia)) as Hn3.
  assert (54 < bits q) as Hn4 by (apply (Z.pow_lt_mono_r_iff 2); lia).
  set (drop := bits q - 53) in *. rewrite (proj2 (Z.ltb_ge drop 1)), (proj2 (Z.leb_gt 128 drop)) by lia. cbn [orb].
  set (t := (IZR (a * 2 ^ shift) / IZR b)%R).
  assert (0 < IZR b)%R as Hb' by (apply IZR_lt; lia).
  assert (t * IZR b = IZR q * IZR b + IZR r)%R as Ht.
  { unfold t. rewrite (Z.div_mod (a * 2 ^ shift) b) by lia. fold q r. rewrite plus_IZR, mult_IZR. field. lra. }
  destruct (sticky_round q r b drop t) as (Hm & Hnear & Hx); [lia|lia|apply Z.mod_pos_bound; lia|done|].
  set (m0 := Z.shiftr q drop) in *. set (m := if (_ : bool) then m0 + 1 else m0) in *.
  assert (m0 < 2 ^ 53) as Hm0.
  { unfold m0. rewrite Z.shiftr_div_pow2 by lia. apply Z.div_lt_upper_bound; [apply Z.pow_pos_nonneg; lia|].
    rewrite <- Z.pow_add_r by lia. replace (drop + 53) with (bits q) by lia. lia. }
  assert (2 ^ 52 <= m0) as Hm1.
  { unfold m0. rewrite Z.shiftr_div_pow2 by lia. apply Z.div_le_lower_bound; [apply Z.pow_pos_nonneg; lia|].
    rewrite <- Z.pow_add_r by lia. replace (drop + 52) with (bits q - 1) by lia. lia. }
  assert (IZR a / IZR b = t / IZR (2 ^ drop) * bpow (drop - shift))%R as Ev.
  { unfold t. rewrite mult_IZR, <- !bpow_Z by lia. replace (drop - shift) with (drop + - shift) by lia. rewrite bpow_add.
    assert (bpow shift * bpow (- shift) = 1)%R as Hinv by (rewrite <- bpow_add, <- bpow_0; f_equal; lia).
    pose proof (bpow_pos drop). replace (IZR a * bpow shift / IZR b / bpow drop * (bpow drop * bpow (- shift)))%R
      with (IZR a / IZR b * (bpow shift * bpow (- shift)))%R by (field; lra). rewrite Hinv. ring. }
  assert (near64 (IZR a / IZR b) (IZR m * bpow (drop - shift))) as HN.
  { rewrite Ev. apply (scaled_nearest 53 1024); [lia|lia| |done|lia|].
    - assert (0 <= IZR m0)%R by (apply IZR_le; lia). lra.
    - intros _. apply Rle_trans with (IZR m0); [apply IZR_le; lia|lra]. }
  rewrite Z.shiftl_1_l. destruct (Z.eqb_spec m (2 ^ 53)) as [E|E].
  - exists (Z.shiftr m 1), (drop - shift + 1). rewrite E in *. change (Z.shiftr (2 ^ 53) 1) with (2 ^ 52). split; [done|split; [lia|split; [lia|]]].
    rewrite bpow_add, bpow_1. replace (IZR (2 ^ 52) * (bpow (drop - shift) * 2))%R with (IZR (2 ^ 53) * bpow (drop - shift))%R; [done|].
    change (2 ^ 53) with (2 * 2 ^ 52). rewrite mult_IZR. ring.
  - exists m, (drop - shift). split; [done|split; [lia|split; [lia|done]]].
Qed.

Lemma py_true_div_near a b : 0 <= a < 2 ^ 64 -> 0 < b < 2 ^ 64 ->
  exists x, py_true_div a b = Ok x /\ Rounds 53 1024 x (IZR a / IZR b).
Proof.
  intros Ha Hb. assert (1 <= IZR b)%R as Hb' by (apply IZR_le; lia). assert (0 <= IZR a)%R as Ha' by (apply IZR_le; lia).
  assert (IZR a <= bpow 64)%R as Ha64 by (rewrite bpow_Z by lia; apply IZR_le; lia).
  assert (Rabs (IZR a / IZR b) < bpow (1024 - 1))%R as Hlt.
  { apply (abs_lt_bpow 64); [lia|lia|]. assert (0 < / IZR b)%R as Hi by (apply Rinv_0_lt_compat; lra).
    assert (/ IZR b <= 1)%R by (rewrite <- Rinv_1; apply Rinv_le_contravar; lra). unfold Rdiv. rewrite Rabs_right; nra. }
  unfold py_true_div, EXACT. rewrite Z.shiftl_1_l. destruct (Z.leb_spec a (2 ^ 53)), (Z.leb_spec b (2 ^ 53)); cbn [andb].
  1: { eexists. split; [done|]. apply SFdiv_near; [lia|lia|apply f64_of_Z_exact; lia|apply f64_of_Z_exact; lia|lra|done]. }
  all: destruct (Z.eqb_spec a 0) as [->|Ha0]; [eexists; split; [done|]; unfold Rdiv; rewrite Rmult_0_l; by apply Rounds_zero|].
  all: destruct (scaled_quotient_near a b) as (m & exp & -> & Hm & Hexp & HN); [lia|lia|]; rewrite ok_bind; eexists; (split; [done|]).
  all: exists (IZR m * bpow exp)%R; (split; [apply f64_scaled_exact; lia|exact HN]).
Qed.

(** * The target size *)

(** Both branches that rescale compute the sides in 32-pixel units up to [near1]. *)
Definition near1 : R := (/ 100000000)%R.

(** The two sides of an image. *)
Record sides (h w : Z) : Prop := {
  side_h : 1 <= h < 2 ^ 32;
  side_w : 1 <= w < 2 ^ 32;
  side_hw : h <= 200 * w;
  side_wh : w <= 200 * h
}.

Lemma sides_swap h w : sides h w -> sides w h.
Proof. intros []. by split. Qed.

(** The source's [n as f64 / ff]. *)
Lemma unit_exact n : 0 <= n < 2 ^ 32 -> F64 (f64_div (f64_of_Z n) (f64_of_Z FACTOR)) (IZR n / 32).
Proof.
  intros Hn. assert (0 <= IZR n <= IZR (2 ^ 32))%R as Hr by (split; apply IZR_le; lia).
  apply Rounds_repr.
  - apply SFdiv_near; [lia|lia|apply f64_of_Z_exact; lia|by apply f64_of_Z_exact|lra|].
    apply (abs_lt_bpow 32); [lia|lia|]. rewrite bpow_Z, Rabs_right by (lia || lra). lra.
  - replace (IZR n / 32)%R with (IZR n * bpow (-5))%R; [apply representable_le; lia|].
    replace (bpow (-5)) with (/ 32)%R; [done|]. apply (Rmult_eq_reg_r 32); [|lra]. rewrite Rinv_l by lra.
    replace 32%R with (bpow 5) by (rewrite bpow_Z by lia; done). by rewrite <- bpow_add, <- bpow_0.
Qed.

Lemma rounded_side n : 0 <= n < 2 ^ 32 -> exists k,
  f64_as_u64 (f64_round_ties_even (f64_div (f64_of_Z n) (f64_of_Z FACTOR))) = k /\ 0 <= k < 2 ^ 32.
Proof.
  intros Hn. assert (0 <= IZR n <= IZR (2 ^ 32))%R as Hr by (split; apply IZR_le; lia).
  destruct (f64_integral_spec round_even_div _ _ _ round_even_divides (unit_exact n Hn)) as (k & Hk & Hb).
  { rewrite Rabs_right, bpow_Z by (lia || lra). lra. }
  exists k. assert (0 <= k < 2 ^ 32) as Hkr.
  { revert Hb. unfold Rabs. destruct (Rcase_abs _); intros Hb; split; apply Z.lt_succ_r || apply lt_IZR; try (apply lt_IZR; rewrite <- Z.add_1_r, plus_IZR); lra. }
  split; [|done]. apply (f64_as_integer 0 _ _ k); [lia|exact Hk|lia].
Qed.

Lemma u64_times_ok a b : 0 <= a < 2 ^ 32 -> 0 <= b < 2 ^ 32 -> u64_times a b = Ok (a * b).
Proof. intros Ha Hb. unfold u64_times. rewrite (proj2 (Z.ltb_lt _ _)); [done|]. nia. Qed.

Lemma near1_small : (0 < near1 < 1 / 1000000)%R.
Proof. unfold near1. lra. Qed.

Section area.
Context (U V u v : R) (a b : Z) (HU : (0 < U)%R) (HV : (0 < V)%R) (HUV : (V <= 200 * U)%R) (HVU : (U <= 200 * V)%R)
  (Hu : close near1 U u) (Hv : close near1 V v).

Lemma floor_area : (U * V = 12544)%R -> (IZR a <= u < IZR a + 1)%R -> (IZR b <= v < IZR b + 1)%R ->
  1 <= a /\ 1 <= b /\ 4 <= a * b <= 12544.
Proof.
  intros HA Ha Hb. pose proof near1_small as Hn. unfold close in Hu, Hv.
  assert (U * V <= U * (200 * U))%R as H1 by (apply Rmult_le_compat_l; lra). assert (U * V <= 200 * V * V)%R as H2 by (apply Rmult_le_compat_r; lra).
  assert (7 <= U)%R by nra. assert (7 <= V)%R by nra. assert (6 <= u)%R by nra. assert (6 <= v)%R by nra.
  assert (5 < a) by (apply lt_IZR; lra). assert (5 < b) by (apply lt_IZR; lra).
  assert (u * v <= (1 + near1) * U * ((1 + near1) * V))%R as Huv by (apply Rmult_le_compat; lra).
  assert (IZR a * IZR b <= u * v)%R as Hab by (apply Rmult_le_compat; try lra; apply IZR_le; lia).
  assert ((1 + near1) * U * ((1 + near1) * V) < 12545)%R as Hlt by (replace ((1 + near1) * U * ((1 + near1) * V))%R with ((1 + near1) * (1 + near1) * (U * V))%R by ring; rewrite HA; nra).
  assert (a * b < 12545) by (apply lt_IZR; rewrite mult_IZR; lra). split; [lia|split; [lia|]]. nia.
Qed.

Lemma ceil_area : (U * V = 49 / 16)%R -> (IZR a - 1 < u <= IZR a)%R -> (IZR b - 1 < v <= IZR b)%R ->
  1 <= a /\ 1 <= b /\ 4 <= a * b <= 12544.
Proof.
  intros HA Ha Hb. pose proof near1_small as Hn. unfold close in Hu, Hv.
  assert (U * U <= U * (200 * V))%R as H1 by (apply Rmult_le_compat_l; lra). assert (V * V <= 200 * U * V)%R as H2 by (apply Rmult_le_compat_r; lra).
  assert (U <= 25)%R by nra. assert (V <= 25)%R by nra. assert (u <= 26)%R by nra. assert (v <= 26)%R by nra.
  assert (0 < u)%R by nra. assert (0 < v)%R by nra.
  assert (0 < a) by (apply lt_IZR; lra). assert (0 < b) by (apply lt_IZR; lra).
  assert (a < 28) by (apply lt_IZR; lra). assert (b < 28) by (apply lt_IZR; lra).
  assert (((1 - near1) * U) * ((1 - near1) * V) <= u * v)%R as Huv by (apply Rmult_le_compat; nra).
  assert (u * v <= IZR a * IZR b)%R as Hab by (apply Rmult_le_compat; lra).
  assert (3 < (1 - near1) * U * ((1 - near1) * V))%R as Hlt by (replace ((1 - near1) * U * ((1 - near1) * V))%R with ((1 - near1) * (1 - near1) * (U * V))%R by ring; rewrite HA; nra).
  assert (3 < a * b) by (apply lt_IZR; rewrite mult_IZR; lra). split; [lia|split; [lia|]]. nia.
Qed.
End area.

(** The factor the sides are divided or multiplied by. *)
Lemma beta_close a c : 1 <= a < 2 ^ 64 -> 1 <= c < 2 ^ 64 ->
  exists x b, py_true_div a c = Ok x /\ F64 (f64_sqrt x) b /\ close (3 * tiny) (sqrt (IZR a / IZR c)) b /\
    (/ IZR (2 ^ 32) <= sqrt (IZR a / IZR c) <= IZR (2 ^ 32))%R.
Proof.
  intros Ha Hc. assert (1 <= IZR a <= IZR (2 ^ 64))%R as Ha' by (split; apply IZR_le; lia).
  assert (1 <= IZR c <= IZR (2 ^ 64))%R as Hc' by (split; apply IZR_le; lia).
  assert (/ IZR (2 ^ 64) <= / IZR c <= 1)%R as Hi by (split; [apply Rinv_le_contravar; lra|rewrite <- Rinv_1; apply Rinv_le_contravar; lra]).
  assert (/ IZR (2 ^ 64) <= IZR a / IZR c <= IZR (2 ^ 64))%R as Hq.
  { unfold Rdiv. assert (0 < / IZR (2 ^ 64))%R by (apply Rinv_0_lt_compat; lra). split; nra. }
  assert (0 < / IZR (2 ^ 64))%R as Hp by (apply Rinv_0_lt_compat; lra).
  assert (moderate (IZR a / IZR c)) as Hm.
  { unfold moderate. split; [|lra]. apply Rle_trans with (/ IZR (2 ^ 64))%R; [apply Rinv_le_contravar; lra|lra]. }
  destruct (py_true_div_near a c) as (x & Hx & Hr); [lia|lia|]. destruct (Rounds_close x _ Hm Hr) as (r & Hxr & Hcl).
  pose proof (close_pos tiny (IZR a / IZR c) r ltac:(lra) ltac:(unfold tiny; lra) Hcl) as Hr0.
  assert (/ IZR (2 ^ 32) <= sqrt (IZR a / IZR c) <= IZR (2 ^ 32))%R as Hs.
  { assert (IZR (2 ^ 64) = IZR (2 ^ 32) * IZR (2 ^ 32))%R as E by (rewrite <- mult_IZR; done). split.
    - rewrite <- (sqrt_square (/ IZR (2 ^ 32))) by (left; apply Rinv_0_lt_compat; lra). apply sqrt_le_1_alt. rewrite <- Rinv_mult, <- E. lra.
    - rewrite <- (sqrt_square (IZR (2 ^ 32))) by lra. apply sqrt_le_1_alt. rewrite <- E. lra. }
  assert (0 < / IZR (2 ^ 32))%R as Hp32 by (apply Rinv_0_lt_compat; lra).
  pose proof (close_sqrt tiny (IZR a / IZR c) r ltac:(lra) ltac:(unfold tiny; lra) Hcl) as Hcs.
  destruct (f64_sqrt_close x r) as (b & Hb & Hbc); [|lra|done|].
  { unfold close, tiny in Hcs. unfold moderate. split; [|lra]. apply Rle_trans with (/ IZR (2 ^ 32) * (1 / 2))%R; [|lra].
    replace (/ IZR (2 ^ 32) * (1 / 2))%R with (/ IZR (2 ^ 33))%R by (change (2 ^ 33) with (2 ^ 32 * 2); rewrite mult_IZR; field; lra). apply Rinv_le_contravar; lra. }
  exists x, b. split; [done|split; [done|split; [|done]]].
  apply (close_weaken (tiny + tiny + tiny * tiny)); [lra|unfold tiny; lra|]. eapply close_trans; [lra|unfold tiny; lra|unfold tiny; lra|exact Hcs|done].
Qed.

(** One side in units of 32 pixels, divided or multiplied by the factor. *)
Section side.
Context (n : Z) (beta : spec_float) (b B : R) (Hn : 1 <= n < 2 ^ 32) (Hb : F64 beta b) (Hc : close (3 * tiny) B b)
  (HB : (/ IZR (2 ^ 32) <= B <= IZR (2 ^ 32))%R).

Let pos32 : (0 < / IZR (2 ^ 32))%R.
Proof. apply Rinv_0_lt_compat. lra. Qed.

Let side_range : (1 <= IZR n <= IZR (2 ^ 32))%R.
Proof. split; apply IZR_le; lia. Qed.

Lemma quot32 x a : F64 x a -> (/ IZR (2 ^ 80) <= a <= IZR (2 ^ 80))%R ->
  exists u, F64 (f64_div x (f64_of_Z FACTOR)) u /\ close tiny (a / 32) u.
Proof using.
  intros Hx Ha. destruct (f64_div_close x (f64_of_Z FACTOR) a 32) as (u & Hu & Hcu); [|lra|done|by apply f64_of_Z_exact|by exists u].
  unfold moderate, Rdiv. assert (/ IZR (2 ^ 90) <= / IZR (2 ^ 80) * / 32)%R.
  { rewrite <- Rinv_mult. apply Rinv_le_contravar; lra. } split; [|lra]. apply Rle_trans with (1 := H). apply Rmult_le_compat_r; lra.
Qed.

Lemma in_range80 x y : (/ IZR (2 ^ 70) <= x <= IZR (2 ^ 70))%R -> close near1 x y -> (/ IZR (2 ^ 80) <= y <= IZR (2 ^ 80))%R.
Proof using.
  intros Hx Hy. pose proof near1_small as Hs. unfold close in Hy.
  assert (0 < / IZR (2 ^ 70))%R by (apply Rinv_0_lt_compat; lra).
  assert (/ IZR (2 ^ 80) <= / IZR (2 ^ 70) * (1 / 2))%R.
  { replace (/ IZR (2 ^ 70) * (1 / 2))%R with (/ IZR (2 ^ 71))%R by (change (2 ^ 71) with (2 ^ 70 * 2); rewrite mult_IZR; field; lra). apply Rinv_le_contravar; lra. }
  split; nra.
Qed.

Lemma shrunk_side : exists u, F64 (f64_div (f64_div (f64_of_Z n) beta) (f64_of_Z FACTOR)) u /\ close near1 (IZR n / B / 32) u.
Proof.
  pose proof (close_pos (3 * tiny) B b ltac:(lra) ltac:(unfold tiny; lra) Hc) as Hb0.
  assert (/ IZR (2 ^ 32) <= / B <= IZR (2 ^ 32))%R as Hi.
  { split; [apply Rinv_le_contravar; lra|]. rewrite <- (Rinv_inv (IZR (2 ^ 32))). apply Rinv_le_contravar; lra. }
  assert (/ IZR (2 ^ 32) <= IZR n / B <= IZR (2 ^ 64))%R as Hr.
  { assert (IZR (2 ^ 64) = IZR (2 ^ 32) * IZR (2 ^ 32))%R as -> by (rewrite <- mult_IZR; done). unfold Rdiv. split; nra. }
  pose proof (close_div (3 * tiny) B b (IZR n) ltac:(lra) ltac:(lra) ltac:(unfold tiny; lra) Hb0 Hc) as Hd.
  assert (/ IZR (2 ^ 70) <= / IZR (2 ^ 32))%R as H70 by (apply Rinv_le_contravar; lra).
  assert (close near1 (IZR n / B) (IZR n / b)) as Hd' by (apply (close_weaken (2 * (3 * tiny))); [lra|unfold tiny, near1; lra|done]).
  pose proof (in_range80 (IZR n / B) (IZR n / b) ltac:(split; lra) Hd') as Hr'.
  destruct (f64_div_close (f64_of_Z n) beta (IZR n) b) as (u & Hu & Hcu); [|lra|apply f64_of_Z_exact; lia|done|].
  { unfold moderate. split; [|lra]. apply Rle_trans with (/ IZR (2 ^ 80))%R; [apply Rinv_le_contravar; lra|lra]. }
  pose proof (close_trans (2 * (3 * tiny)) tiny (IZR n / B) (IZR n / b) u ltac:(lra) ltac:(unfold tiny; lra) ltac:(unfold tiny; lra) Hd Hcu) as Ht.
  assert (close near1 (IZR n / B) u) as Ht' by (apply (close_weaken (2 * (3 * tiny) + tiny + 2 * (3 * tiny) * tiny)); [lra|unfold tiny, near1; lra|done]).
  destruct (quot32 _ u Hu (in_range80 (IZR n / B) u ltac:(split; lra) Ht')) as (v & Hv & Hcv). exists v. split; [done|].
  assert (close (2 * (3 * tiny) + tiny + 2 * (3 * tiny) * tiny) (IZR n / B / 32) (u / 32)) as H32 by (unfold close in Ht |- *; lra).
  eapply close_weaken; [lra| |eapply close_trans; [| | |exact H32|exact Hcv]]; [unfold tiny, near1; lra|lra|unfold tiny; lra|unfold tiny; lra].
Qed.

Lemma grown_side : exists u, F64 (f64_div (f64_mul (f64_of_Z n) beta) (f64_of_Z FACTOR)) u /\ close near1 (IZR n * B / 32) u.
Proof.
  assert (/ IZR (2 ^ 32) <= IZR n * B <= IZR (2 ^ 64))%R as Hr.
  { assert (IZR (2 ^ 64) = IZR (2 ^ 32) * IZR (2 ^ 32))%R as -> by (rewrite <- mult_IZR; done). split; nra. }
  assert (/ IZR (2 ^ 70) <= / IZR (2 ^ 32))%R as H70 by (apply Rinv_le_contravar; lra).
  assert (close (3 * tiny) (IZR n * B) (IZR n * b)) as Hd by (unfold close in Hc |- *; nra).
  assert (close near1 (IZR n * B) (IZR n * b)) as Hd' by (apply (close_weaken (3 * tiny)); [lra|unfold tiny, near1; lra|done]).
  pose proof (in_range80 (IZR n * B) (IZR n * b) ltac:(split; lra) Hd') as Hr'.
  destruct (f64_mul_close (f64_of_Z n) beta (IZR n) b) as (u & Hu & Hcu); [|apply f64_of_Z_exact; lia|done|].
  { unfold moderate. split; [|lra]. apply Rle_trans with (/ IZR (2 ^ 80))%R; [apply Rinv_le_contravar; lra|lra]. }
  pose proof (close_trans (3 * tiny) tiny (IZR n * B) (IZR n * b) u ltac:(lra) ltac:(unfold tiny; lra) ltac:(unfold tiny; lra) Hd Hcu) as Ht.
  assert (close near1 (IZR n * B) u) as Ht' by (apply (close_weaken (3 * tiny + tiny + 3 * tiny * tiny)); [lra|unfold tiny, near1; lra|done]).
  destruct (quot32 _ u Hu (in_range80 (IZR n * B) u ltac:(split; lra) Ht')) as (v & Hv & Hcv). exists v. split; [done|].
  assert (close (3 * tiny + tiny + 3 * tiny * tiny) (IZR n * B / 32) (u / 32)) as H32 by (unfold close in Ht |- *; lra).
  eapply close_weaken; [lra| |eapply close_trans; [| | |exact H32|exact Hcv]]; [unfold tiny, near1; lra|lra|unfold tiny; lra|unfold tiny; lra].
Qed.
End side.

Lemma u64_times_factor k : 0 <= k < 2 ^ 32 -> u64_times k FACTOR = Ok (k * 32).
Proof. intros Hk. apply u64_times_ok; [done|]. unfold FACTOR. lia. Qed.

(** The aspect-ratio test is exact. *)
Lemma ratio_test a b : 0 < b -> b <= a < 2 ^ 32 -> exists ratio, py_true_div a b = Ok ratio /\
  SFltb (f64_of_Z 200) ratio = bool_decide (200 * b < a).
Proof.
  intros Hb Ha. destruct (py_true_div_near a b) as (ratio & Hr & y & Hy & Hn); [lia|lia|]. exists ratio. split; [done|].
  rewrite (SFltb_spec 53 1024 ltac:(lia) (f64_of_Z 200) ratio 200 y (f64_of_Z_exact 200 ltac:(lia)) Hy).
  assert (0 < IZR b)%R as Hb' by (by apply IZR_lt). set (q := (IZR a / IZR b)%R) in *.
  assert (q * IZR b = IZR a)%R as Hq by (unfold q; field; lra).
  case_bool_decide as Hc.
  - assert (200 * b + 1 <= a) as H1%IZR_le by lia. rewrite plus_IZR, mult_IZR in H1.
    assert (IZR b <= IZR (2 ^ 32))%R as H2 by (apply IZR_le; lia).
    set (z := (IZR (200 * 2 ^ 32 + 1) * bpow (-32))%R).
    assert (z * IZR (2 ^ 32) = 200 * IZR (2 ^ 32) + 1)%R as Hz.
    { unfold z. rewrite <- bpow_Z, Rmult_assoc, <- bpow_add by lia. change (bpow (-32 + 32)) with 1%R. rewrite bpow_Z, plus_IZR, mult_IZR by lia. ring. }
    assert (z = 200 + / IZR (2 ^ 32))%R as Ez by (apply (Rmult_eq_reg_r (IZR (2 ^ 32))); [rewrite Hz; field; lra|lra]).
    assert (0 < / IZR (2 ^ 32))%R as Hi by (apply Rinv_0_lt_compat; lra).
    assert (z <= y)%R.
    { apply (nearest_ge 53 (-1074) q y z Hn); [apply representable_le; lia|]. apply (Rmult_le_reg_r (IZR b)); [done|]. rewrite Hq, Ez.
      assert (/ IZR (2 ^ 32) * IZR b <= 1)%R; [|lra]. rewrite <- (Rinv_l (IZR (2 ^ 32))) by lra. apply Rmult_le_compat_l; lra. }
    destruct (Rlt_dec 200 y); [done|]. lra.
  - assert (a <= 200 * b) as H1%IZR_le by lia. rewrite mult_IZR in H1.
    assert (y <= 200)%R by (apply (nearest_le 53 (-1074) q y 200 Hn); [apply (representable_Z 53 (-1074) ltac:(lia) 200); lia|nra]).
    destruct (Rlt_dec 200 y); [lra|done].
Qed.

(** A side's integer is in range for the [u64] product. *)
Lemma cast_floor x u : F64 x u -> (0 < u < IZR (2 ^ 30))%R -> exists k,
  f64_as_u64 (f64_floor x) = k /\ 0 <= k < 2 ^ 32 /\ (IZR k <= u < IZR k + 1)%R.
Proof.
  intros Hx Hu. destruct (f64_integral_spec Z.div _ x u floor_divides Hx) as (k & Hk & Hb).
  { rewrite Rabs_right, bpow_Z by (lia || lra). lra. }
  exists k. assert (0 < k + 1) by (apply lt_IZR; rewrite plus_IZR; lra). assert (k < 2 ^ 30) by (apply lt_IZR; lra).
  split; [apply (f64_as_integer 0 _ _ k); [lia|exact Hk|lia]|]. split; [lia|done].
Qed.

Lemma cast_ceil x u : F64 x u -> (0 < u < IZR (2 ^ 30))%R -> exists k,
  f64_as_u64 (f64_ceil x) = k /\ 0 <= k < 2 ^ 32 /\ (IZR k - 1 < u <= IZR k)%R.
Proof.
  intros Hx Hu. destruct (f64_integral_spec ceil_div _ x u ceil_divides Hx) as (k & Hk & Hb).
  { rewrite Rabs_right, bpow_Z by (lia || lra). lra. }
  exists k. assert (0 < k) by (apply lt_IZR; lra). assert (k < 2 ^ 30 + 1) by (apply lt_IZR; rewrite plus_IZR; lra).
  split; [apply (f64_as_integer 0 _ _ k); [lia|exact Hk|lia]|]. split; [lia|done].
Qed.

(** What both rescaling branches return. *)
Definition fits (hw : outcome ImageError (Z * Z)) : Prop :=
  exists a b, hw = Ok (FACTOR * a, FACTOR * b) /\ 1 <= a /\ 1 <= b /\ 4 <= a * b <= 12544.

Lemma in_units U u : (0 < U <= 2000)%R -> close near1 U u -> (0 < u < IZR (2 ^ 30))%R.
Proof. unfold close, near1. lra. Qed.

Section rescale.
Context (h w : Z) (Hs : sides h w).

Let side_ratio : (IZR h <= 200 * IZR w)%R /\ (IZR w <= 200 * IZR h)%R /\ (1 <= IZR h)%R /\ (1 <= IZR w)%R.
Proof. destruct Hs. rewrite <- !mult_IZR. repeat split; apply IZR_le; lia. Qed.

Lemma shrink_fits : fits (
  hw ← u64_times h w;
  ratio ← py_true_div hw MAX_PIXELS;
  let beta := f64_sqrt ratio in
  a ← u64_times (f64_as_u64 (f64_floor (f64_div (f64_div (f64_of_Z h) beta) (f64_of_Z FACTOR)))) FACTOR;
  b ← u64_times (f64_as_u64 (f64_floor (f64_div (f64_div (f64_of_Z w) beta) (f64_of_Z FACTOR)))) FACTOR;
  Ok (Z.max FACTOR a, Z.max FACTOR b)).
Proof.
  destruct Hs as [Hh Hw _ _]. rewrite u64_times_ok, ok_bind by lia.
  destruct (beta_close (h * w) MAX_PIXELS) as (x & b & -> & Hb & Hc & HB); [unfold MAX_PIXELS; nia|unfold MAX_PIXELS; lia|]. rewrite ok_bind. cbv zeta.
  set (B := sqrt _) in *. destruct (shrunk_side h (f64_sqrt x) b B Hh Hb Hc HB) as (u & Hu & Hcu). destruct (shrunk_side w (f64_sqrt x) b B Hw Hb Hc HB) as (v & Hv & Hcv).
  assert (0 < / IZR (2 ^ 32))%R by (apply Rinv_0_lt_compat; lra). assert (0 < / B)%R as Hi by (apply Rinv_0_lt_compat; lra).
  assert (B * B = IZR h * IZR w / IZR MAX_PIXELS)%R as HBB.
  { unfold B. rewrite sqrt_sqrt, mult_IZR; [done|]. unfold MAX_PIXELS. rewrite mult_IZR. assert (0 <= IZR h * IZR w)%R by nra. lra. }
  set (U := (IZR h / B / 32)%R) in *. set (V := (IZR w / B / 32)%R) in *.
  assert (U * V = 12544)%R as HUV.
  { replace (U * V)%R with (IZR h * IZR w / (B * B) / 1024)%R by (unfold U, V; field; lra). rewrite HBB. unfold MAX_PIXELS. field. lra. }
  assert (0 < U /\ 0 < V /\ V <= 200 * U /\ U <= 200 * V)%R as (HU & HV & H1 & H2) by (unfold U, V, Rdiv; repeat split; nra).
  assert (U <= 2000 /\ V <= 2000)%R as [HU2 HV2] by (assert (U * U <= U * (200 * V))%R by (apply Rmult_le_compat_l; lra);
    assert (V * V <= 200 * U * V)%R by (apply Rmult_le_compat_r; lra); split; nra).
  destruct (cast_floor _ u Hu (in_units U u ltac:(lra) Hcu)) as (a & -> & Ha & Hau). destruct (cast_floor _ v Hv (in_units V v ltac:(lra) Hcv)) as (c & -> & Hc' & Hcv').
  rewrite !u64_times_factor, !ok_bind by done.
  destruct (floor_area U V u v a c HU HV H1 H2 Hcu Hcv HUV Hau Hcv') as (Ha1 & Hc1 & Hac). exists a, c.
  rewrite !Z.max_r by (unfold FACTOR; lia). split; [f_equal; unfold FACTOR; f_equal; lia|done].
Qed.

Lemma grow_fits : fits (
  hw ← u64_times h w;
  ratio ← py_true_div MIN_PIXELS hw;
  let beta := f64_sqrt ratio in
  a ← u64_times (f64_as_u64 (f64_ceil (f64_div (f64_mul (f64_of_Z h) beta) (f64_of_Z FACTOR)))) FACTOR;
  b ← u64_times (f64_as_u64 (f64_ceil (f64_div (f64_mul (f64_of_Z w) beta) (f64_of_Z FACTOR)))) FACTOR;
  Ok (a, b)).
Proof.
  destruct Hs as [Hh Hw _ _]. rewrite u64_times_ok, ok_bind by lia.
  destruct (beta_close MIN_PIXELS (h * w)) as (x & b & -> & Hb & Hc & HB); [unfold MIN_PIXELS; lia|nia|]. rewrite ok_bind. cbv zeta.
  set (B := sqrt _) in *. destruct (grown_side h (f64_sqrt x) b B Hh Hb Hc HB) as (u & Hu & Hcu). destruct (grown_side w (f64_sqrt x) b B Hw Hb Hc HB) as (v & Hv & Hcv).
  assert (0 < / IZR (2 ^ 32))%R by (apply Rinv_0_lt_compat; lra).
  assert (B * B = IZR MIN_PIXELS / (IZR h * IZR w))%R as HBB.
  { unfold B. rewrite sqrt_sqrt, mult_IZR; [done|]. unfold MIN_PIXELS. rewrite mult_IZR. apply Rmult_le_pos; [lra|]. left. apply Rinv_0_lt_compat. nra. }
  set (U := (IZR h * B / 32)%R) in *. set (V := (IZR w * B / 32)%R) in *.
  assert (U * V = 49 / 16)%R as HUV.
  { replace (U * V)%R with (IZR h * IZR w * (B * B) / 1024)%R by (unfold U, V; field). rewrite HBB. unfold MIN_PIXELS. field. lra. }
  assert (0 < U /\ 0 < V /\ V <= 200 * U /\ U <= 200 * V)%R as (HU & HV & H1 & H2) by (unfold U, V, Rdiv; repeat split; nra).
  assert (U <= 2000 /\ V <= 2000)%R as [HU2 HV2] by (assert (U * U <= U * (200 * V))%R by (apply Rmult_le_compat_l; lra);
    assert (V * V <= 200 * U * V)%R by (apply Rmult_le_compat_r; lra); split; nra).
  destruct (cast_ceil _ u Hu (in_units U u ltac:(lra) Hcu)) as (a & -> & Ha & Hau). destruct (cast_ceil _ v Hv (in_units V v ltac:(lra) Hcv)) as (c & -> & Hc' & Hcv').
  rewrite !u64_times_factor, !ok_bind by done.
  destruct (ceil_area U V u v a c HU HV H1 H2 Hcu Hcv HUV Hau Hcv') as (Ha1 & Hc1 & Hac). exists a, c.
  split; [f_equal; unfold FACTOR; f_equal; lia|done].
Qed.
End rescale.

Lemma smart_resize_cases h w : 0 < h < 2 ^ 32 -> 0 < w < 2 ^ 32 ->
  if bool_decide (200 * Z.min h w < Z.max h w) then exists ratio, smart_resize h w = Err (AspectRatio ratio w h)
  else exists a b, smart_resize h w = Ok (FACTOR * a, FACTOR * b) /\ 1 <= a /\ 1 <= b /\ MIN_PIXELS <= FACTOR * a * (FACTOR * b) <= MAX_PIXELS.
Proof.
  intros Hh Hw. unfold smart_resize. rewrite !(proj2 (Z.eqb_neq _ _)) by lia. cbn [orb].
  destruct (ratio_test (Z.max h w) (Z.min h w)) as (ratio & -> & Ht); [lia|lia|]. rewrite ok_bind, Ht.
  case_bool_decide as Hc; [by eexists|].
  assert (sides h w) as Hs by (split; lia).
  destruct (rounded_side h) as (k & -> & Hk); [lia|]. destruct (rounded_side w) as (l & -> & Hl); [lia|].
  rewrite !u64_times_factor, !ok_bind by done.
  assert (forall hw, fits hw -> exists a b, ('(h_bar, w_bar) ← hw; if (h_bar <? 2 ^ 32) && (w_bar <? 2 ^ 32) then Ok (h_bar, w_bar) else Err (ResizeRange w h))
    = Ok (FACTOR * a, FACTOR * b) /\ 1 <= a /\ 1 <= b /\ MIN_PIXELS <= FACTOR * a * (FACTOR * b) <= MAX_PIXELS) as Hfit.
  { intros hw (a & b & -> & Ha & Hb & Hab). exists a, b. rewrite ok_bind. unfold FACTOR, MIN_PIXELS, MAX_PIXELS in *.
    assert (a <= 12544 /\ b <= 12544) as [? ?] by (split; nia). rewrite !(proj2 (Z.ltb_lt _ _)) by lia. split; [done|lia]. }
  destruct (Z.ltb_spec MAX_PIXELS (k * 32 * (l * 32))) as [H1|H1]; [apply Hfit; by apply shrink_fits|].
  destruct (Z.ltb_spec (k * 32 * (l * 32)) MIN_PIXELS) as [H2|H2]; [apply Hfit; by apply grow_fits|].
  apply Hfit. exists k, l. unfold MIN_PIXELS, MAX_PIXELS, FACTOR in *. rewrite !(Z.mul_comm 32). split; [done|]. nia.
Qed.
