(* ===== verification/VisionProofs.v ===== *)
(** What preprocessing returns: every patch element is the normalised pixel the layout of
    [Patches] names, and the whole path from a data URL to patches never panics. *)
From Stdlib Require Import ZArith Lia Bool SpecFloat.
From stdpp Require Import base list gmap strings.
From S2P Require Import Prelude Utf8 Scan Floats Base64 Buffers Exif Png JpegIdct JpegBits PngTotal Jpeg JpegFinish Resize Vision.

(** * The lookup table *)

(** [(v / 255 - mean) / std] of channel [c], as the source computes it. *)
Definition normalized (c v : Z) : spec_float :=
  let x := f32_of_f64 (f64_mul (f64_of_Z v) (f64_div f64_one (f64_of_Z 255))) in
  f32_div (f32_sub x (f32_of_f64 (nth (Z.to_nat c) IMAGE_MEAN (S754_zero false)))) (f32_of_f64 (nth (Z.to_nat c) IMAGE_STD (S754_zero false))).

Definition value_table (c : Z) : list spec_float := normalized c <$> seqZ 0 256.

Lemma normalize_value_ok c v : 0 <= c < 3 -> normalize_value c v = Ok (normalized c v).
Proof. intros Hc. assert (c = 0 \/ c = 1 \/ c = 2) as [->|[->| ->]] by lia; done. Qed.

Lemma lut_ok : lut = Ok [value_table 0; value_table 1; value_table 2].
Proof.
  unfold lut. rewrite (mapM_Ok_fmap _ value_table); [done|]. intros c Hc%elem_of_seqZ. unfold value_table.
  apply mapM_Ok_fmap. intros v _. apply normalize_value_ok. lia.
Qed.

(** * One patch *)

Lemma splice_lookup {A} (l s : list A) a i : 0 <= a -> a + Zlen s <= Zlen l -> 0 <= i ->
  splice l a s !! Z.to_nat i = if (a <=? i) && (i <? a + Zlen s) then s !! Z.to_nat (i - a) else l !! Z.to_nat i.
Proof.
  intros Ha Hl Hi. unfold splice. destruct (Z.leb_spec a i) as [H1|H1]; cbn [andb].
  - rewrite lookup_app_r by (rewrite length_take; lia). rewrite length_take, Nat.min_l by lia. replace (Z.to_nat i - Z.to_nat a)%nat with (Z.to_nat (i - a)) by lia.
    destruct (Z.ltb_spec i (a + Zlen s)) as [H2|H2]; [by rewrite lookup_app_l by lia|].
    rewrite lookup_app_r by lia. rewrite lookup_drop. f_equal. lia.
  - rewrite lookup_app_l by (rewrite length_take; lia). by rewrite lookup_take_lt by lia.
Qed.

Section patch.
Context (src : list Z) (rw rh : Z) (Hrw : 0 <= rw) (Hrh : 0 <= rh) (Hlen : Zlen src = rw * rh * 3) (Hb : bytes_ok src).

(** Channel [c] of pixel [(x, y)]. *)
Definition pixel_value (x y c : Z) : spec_float := normalized c (at_ix src ((y * rw + x) * 3 + c)).

(** The cells written by the first [n] lines, and by the first [m] channels of line [n]. *)
Definition written (py0 px0 n m : Z) (dst : list spec_float) : Prop :=
  Zlen dst = PATCH_DIM /\ forall c t py px, 0 <= c < 3 -> 0 <= t < 2 -> 0 <= px < 16 -> 0 <= py -> py < n \/ py = n /\ c < m ->
    py < 16 -> dst !! Z.to_nat (c * 512 + t * 256 + py * 16 + px) = Some (pixel_value (px0 + px) (py0 + py) c).

Lemma channel_values pixels px0 y c : 0 <= c < 3 -> 0 <= y < rh -> 0 <= px0 -> px0 + 16 <= rw ->
  index_range (E:=ImageError) src ((y * rw + px0) * 3) ((y * rw + px0) * 3 + 48) = Ok pixels ->
  mapM (fun px => p ← idx pixels (px * 3 + c); idx (value_table c) p) (seqZ 0 16) = Ok (E:=ImageError) ((fun px => pixel_value (px0 + px) y c) <$> seqZ 0 16).
Proof.
  intros Hc Hy Hpx Hw. unfold index_range. destruct (_ && _) eqn:Hr; [|done]. intros [= <-]. apply mapM_Ok_fmap. intros px Hx%elem_of_seqZ.
  assert (Zlen (slice src ((y * rw + px0) * 3) ((y * rw + px0) * 3 + 48)) = 48) as Hsl by (rewrite slice_length; lia).
  rewrite at_ix_idx, ok_bind by lia. set (p := at_ix _ _).
  assert (p = at_ix src ((y * rw + (px0 + px)) * 3 + c)) as Ep.
  { unfold p, at_ix, slice. destruct (lookup_lt_is_Some_2 src (Z.to_nat ((y * rw + (px0 + px)) * 3 + c))) as [v Hv]; [nia|].
    rewrite (nth_lookup_Some src _ _ _ Hv). apply nth_lookup_Some. rewrite lookup_take_lt, lookup_drop by lia. rewrite <- Hv. f_equal. nia. }
  assert (is_byte p) as Hp by (rewrite Ep; by apply at_ix_byte). unfold is_byte in Hp.
  unfold value_table. apply idx_Some; [lia|]. rewrite (fmap_seqZ_lookup (normalized c) 256 p) by lia. unfold pixel_value. by rewrite Ep.
Qed.

Lemma patch_channel_ok pixels py0 px0 py dst c : 0 <= c < 3 -> 0 <= py < 16 -> 0 <= py0 -> py0 + 16 <= rh -> 0 <= px0 -> px0 + 16 <= rw ->
  index_range (E:=ImageError) src (((py0 + py) * rw + px0) * 3) (((py0 + py) * rw + px0) * 3 + 48) = Ok pixels ->
  written py0 px0 py c dst -> exists dst', patch_channel pixels py dst (c, value_table c) = Ok dst' /\ written py0 px0 py (c + 1) dst'.
Proof.
  intros Hc Hpy Hy0 Hy1 Hx0 Hx1 Hpix [Hl Hw]. change PATCH_DIM with 1536 in Hl. unfold patch_channel. cbv zeta. change (PATCH * PATCH) with 256. change PATCH with 16. change TEMPORAL with 2.
  rewrite (index_range_Ok dst _ _) by lia. rewrite ok_bind, (channel_values pixels px0 (py0 + py) c), ok_bind by (done || lia).
  set (vs := (fun px => _) <$> seqZ 0 16). assert (Zlen vs = 16) as Hvs by (unfold vs; by rewrite length_fmap, length_seqZ).
  set (base := c * 2 * 256 + py * 16). assert (0 <= base /\ base + 256 + 16 <= Zlen dst) as [Hb0 Hb1] by (subst base; lia).
  assert (Zlen (splice dst base vs) = Zlen dst) as Hl1 by (rewrite splice_length; lia).
  eexists. split; [reflexivity|]. split; [rewrite splice_length by lia; change PATCH_DIM with 1536; lia|]. intros c' t py' px Hc' Ht Hpx Hpy' Hdone Hpy16.
  rewrite splice_lookup by lia. rewrite splice_lookup by lia. rewrite Hvs.
  destruct (decide (c' = c /\ py' = py)) as [[-> ->]|Hne].
  - assert (t = 0 \/ t = 1) as [->| ->] by lia.
    + rewrite (proj2 (Z.leb_gt _ _)) by lia. cbn [andb]. rewrite (proj2 (Z.leb_le _ _)), (proj2 (Z.ltb_lt _ _)) by lia. cbn [andb].
      replace (c * 512 + 0 * 256 + py * 16 + px - base) with px by lia. exact (fmap_seqZ_lookup (fun px => pixel_value (px0 + px) (py0 + py) c) 16 px Hpx).
    + rewrite (proj2 (Z.leb_le _ _)), (proj2 (Z.ltb_lt _ _)) by lia. cbn [andb].
      replace (c * 512 + 1 * 256 + py * 16 + px - (base + 256)) with px by lia. exact (fmap_seqZ_lookup (fun px => pixel_value (px0 + px) (py0 + py) c) 16 px Hpx).
  - assert (forall k, k = 0 \/ k = 256 -> (base + k <=? c' * 512 + t * 256 + py' * 16 + px) && (c' * 512 + t * 256 + py' * 16 + px <? base + k + 16) = false) as Hout.
    { intros k Hk. unfold base. destruct (Z.leb_spec (c * 2 * 256 + py * 16 + k) (c' * 512 + t * 256 + py' * 16 + px)); [|done]. apply Z.ltb_ge. lia. }
    rewrite (Hout 256) by lia. pose proof (Hout 0 ltac:(lia)) as Hout0. rewrite !Z.add_0_r in Hout0. rewrite Hout0. apply Hw; try lia.
Qed.

Definition tables : list (list spec_float) := [value_table 0; value_table 1; value_table 2].

Lemma patch_line_ok py0 px0 py dst : 0 <= py < 16 -> 0 <= py0 -> py0 + 16 <= rh -> 0 <= px0 -> px0 + 16 <= rw ->
  written py0 px0 py 0 dst -> exists dst', patch_line src tables rw py0 px0 dst py = Ok dst' /\ written py0 px0 (py + 1) 0 dst'.
Proof.
  intros Hpy Hy0 Hy1 Hx0 Hx1 H0. unfold patch_line. change (PATCH * 3) with 48. cbv zeta. set (s := ((py0 + py) * rw + px0) * 3).
  assert (0 <= s /\ s + 48 <= Zlen src) as [Hs0 Hs1] by (subst s; nia).
  rewrite (index_range_Ok src s (s + 48)), ok_bind by lia. pose proof (index_range_Ok (E:=ImageError) src s (s + 48) Hs0 ltac:(lia) Hs1) as Hpix.
  set (pixels := slice src s (s + 48)) in *.
  change (zip (seqZ 0 3) tables) with [(0, value_table 0); (1, value_table 1); (2, value_table 2)]. cbn [fold_try].
  destruct (patch_channel_ok pixels py0 px0 py dst 0) as (d1 & -> & H1); [lia..|exact Hpix|done|]. rewrite ok_bind.
  destruct (patch_channel_ok pixels py0 px0 py d1 1) as (d2 & -> & H2); [lia..|exact Hpix|done|]. rewrite ok_bind.
  destruct (patch_channel_ok pixels py0 px0 py d2 2) as (d3 & -> & H3); [lia..|exact Hpix|done|]. rewrite ok_bind.
  exists d3. split; [done|]. destruct H3 as [Hl Hw]. split; [done|]. intros c t py' px Hc Ht Hpx Hpy' Hdone H16. apply Hw; lia.
Qed.

Lemma patch_row_ok bh bw mh mw dst : 0 <= bh -> 0 <= bw -> 0 <= mh < 2 -> 0 <= mw < 2 -> (bh + 1) * 32 <= rh -> (bw + 1) * 32 <= rw ->
  Zlen dst = PATCH_DIM -> exists dst', patch_row src tables rw bh bw mh mw dst = Ok dst' /\
    written ((bh * MERGE + mh) * PATCH) ((bw * MERGE + mw) * PATCH) 16 0 dst'.
Proof.
  intros Hbh Hbw Hmh Hmw Hh Hw Hl. unfold patch_row. change MERGE with 2. change PATCH with 16. cbv zeta.
  apply (fold_try_inv (fun py dst => written ((bh * 2 + mh) * 16) ((bw * 2 + mw) * 16) py 0 dst)); [lia| |].
  - split; [done|]. intros. lia.
  - intros py d Hpy Hd. apply patch_line_ok; (done || lia).
Qed.
End patch.

(** * All the patches *)

(** The patch the loops write at [(bh, bw, mh, mw)]. *)
Definition is_patch (src : list Z) (rw : Z) (at_ : Z * Z * Z * Z) (dst : list spec_float) : Prop :=
  let '(bh, bw, mh, mw) := at_ in
  Zlen dst = PATCH_DIM /\ forall c t py px, 0 <= c < 3 -> 0 <= t < 2 -> 0 <= py < 16 -> 0 <= px < 16 ->
    dst !! Z.to_nat (c * 512 + t * 256 + py * 16 + px)
    = Some (pixel_value src rw ((bw * MERGE + mw) * PATCH + px) ((bh * MERGE + mh) * PATCH + py) c).

Lemma fill_rows_ok src rw rh l : 0 <= rw -> 0 <= rh -> Zlen src = rw * rh * 3 -> bytes_ok src ->
  Forall (fun '(bh, bw, mh, mw) => 0 <= bh /\ 0 <= bw /\ 0 <= mh < 2 /\ 0 <= mw < 2 /\ (bh + 1) * 32 <= rh /\ (bw + 1) * 32 <= rw) l ->
  forall pre row, Zlen pre = row * PATCH_DIM -> 0 <= row -> exists ps,
    fold_try (fill_row src tables rw) (pre ++ replicate (Z.to_nat (Zlen l * PATCH_DIM)) (S754_zero false), row) l = Ok (pre ++ concat ps, row + Zlen l) /\
    Forall2 (is_patch src rw) l ps.
Proof.
  intros Hrw Hrh Hlen Hb Hl. induction Hl as [|[[[bh bw] mh] mw] l (H1 & H2 & H3 & H4 & H5 & H6) Hl IH]; intros pre row Hpre Hrow.
  { exists []. cbn. split; [by rewrite Z.add_0_r|constructor]. }
  set (zero := S754_zero false) in *. change PATCH_DIM with 1536 in *.
  replace (Z.to_nat (Zlen ((bh, bw, mh, mw) :: l) * 1536)) with (1536 + Z.to_nat (Zlen l * 1536))%nat by (cbn [length]; lia).
  rewrite replicate_add. set (z1 := replicate 1536 zero). set (zs := replicate (Z.to_nat (Zlen l * 1536)) zero).
  assert (Zlen z1 = 1536) as Hz1 by (unfold z1; rewrite length_replicate; lia). clearbody z1.
  cbn [fold_try]. unfold fill_row at 2. change PATCH_DIM with 1536.
  rewrite (index_range_Ok _ (row * 1536)) by (rewrite ?length_app; lia). rewrite ok_bind.
  replace (slice (pre ++ z1 ++ zs) (row * 1536) ((row + 1) * 1536)) with z1.
  2: { rewrite slice_app_r by lia. rewrite slice_app_l by lia. symmetry. replace (row * 1536 - Zlen pre) with 0 by lia. apply slice_whole. lia. }
  destruct (patch_row_ok src rw rh Hrw Hrh Hlen Hb bh bw mh mw z1) as (dst & -> & Hd); [lia..|done|]. rewrite ok_bind.
  destruct Hd as [Hdl Hd]. change PATCH_DIM with 1536 in Hdl.
  replace (splice (pre ++ z1 ++ zs) (row * 1536) dst) with ((pre ++ dst) ++ zs).
  2: { unfold splice. rewrite take_app_length' by lia. rewrite drop_app_ge by lia. rewrite drop_app_length' by lia. by rewrite app_assoc. }
  destruct (IH (pre ++ dst) (row + 1)) as (ps & E & Hps); [rewrite length_app; lia|lia|]. fold zs in E. rewrite ok_bind, E.
  exists (dst :: ps). split; [cbn [concat]; rewrite app_assoc; do 2 f_equal; cbn [length]; lia|]. constructor; [|done].
  split; [done|]. intros c t py px Hc Ht Hpy Hpx. apply Hd; lia.
Qed.

(** ** The order of the patches *)

Definition patch_index (gw bh bw mh mw : Z) : Z := ((bh * (gw / MERGE) + bw) * MERGE + mh) * MERGE + mw.

Lemma fmap_uniform {A} (f : Z -> list A) n w : (forall i, 0 <= i < n -> Zlen (f i) = w) -> Forall (fun l => Zlen l = w) (f <$> seqZ 0 n).
Proof. intros H. apply Forall_fmap, Forall_forall. intros i Hi%elem_of_seqZ. apply H. lia. Qed.

Lemma concat_fmap_length {A} (f : Z -> list A) n w : 0 <= n -> (forall i, 0 <= i < n -> Zlen (f i) = w) -> Zlen (concat (f <$> seqZ 0 n)) = n * w.
Proof. intros Hn H. rewrite (concat_uniform_length _ w) by (by apply fmap_uniform). by rewrite length_fmap, length_seqZ, Z2Nat.id by lia. Qed.

Lemma concat_fmap_lookup {A} (f : Z -> list A) n w i j x : (forall i, 0 <= i < n -> Zlen (f i) = w) -> 0 <= i < n -> 0 <= j < w ->
  f i !! Z.to_nat j = Some x -> concat (f <$> seqZ 0 n) !! Z.to_nat (i * w + j) = Some x.
Proof. intros H Hi Hj. apply concat_lookup_uniform; [by apply fmap_uniform|lia|done|by apply fmap_seqZ_lookup]. Qed.

Lemma patch_order_spec gh gw : 0 <= gh / MERGE -> 0 <= gw / MERGE ->
  Zlen (patch_order gh gw) = gh / MERGE * (gw / MERGE * 4) /\
  (forall bh bw mh mw, 0 <= bh < gh / MERGE -> 0 <= bw < gw / MERGE -> 0 <= mh < 2 -> 0 <= mw < 2 ->
    patch_order gh gw !! Z.to_nat (patch_index gw bh bw mh mw) = Some (bh, bw, mh, mw)) /\
  Forall (fun '(bh, bw, mh, mw) => 0 <= bh < gh / MERGE /\ 0 <= bw < gw / MERGE /\ 0 <= mh < 2 /\ 0 <= mw < 2) (patch_order gh gw).
Proof.
  intros Hgh Hgw. set (four := fun bh bw : Z => concat ((fun mh : Z => (fun mw : Z => (bh, bw, mh, mw)) <$> seqZ 0 MERGE) <$> seqZ 0 MERGE)).
  assert (forall bh bw, Zlen (four bh bw) = 4) as H4 by done.
  assert (forall bh, Zlen (concat (four bh <$> seqZ 0 (gw / MERGE))) = gw / MERGE * 4) as Hrow by (intros bh; by apply concat_fmap_length).
  split; [|split].
  - apply (concat_fmap_length (fun bh => concat (four bh <$> seqZ 0 (gw / MERGE)))); [done|]. intros bh _. apply Hrow.
  - intros bh bw mh mw H1 H2 H3 H5. replace (patch_index gw bh bw mh mw) with (bh * (gw / MERGE * 4) + (bw * 4 + (mh * 2 + mw))) by (unfold patch_index; change MERGE with 2; lia).
    apply (concat_fmap_lookup (fun bh => concat (four bh <$> seqZ 0 (gw / MERGE)))); [done|done|nia|].
    apply concat_fmap_lookup; [done|done|lia|].
    assert (mh = 0 \/ mh = 1) as [->| ->] by lia; assert (mw = 0 \/ mw = 1) as [->| ->] by lia; done.
  - apply Forall_concat, Forall_fmap, Forall_forall. intros bh Hbh%elem_of_seqZ. cbn beta.
    apply Forall_concat, Forall_fmap, Forall_forall. intros bw Hbw%elem_of_seqZ. cbn beta.
    apply Forall_concat, Forall_fmap, Forall_forall. intros mh Hmh%elem_of_seqZ. cbn beta.
    apply Forall_fmap, Forall_forall. intros mw Hmw%elem_of_seqZ. change MERGE with 2 in Hmh, Hmw. cbn. lia.
Qed.

(** * Preprocessing *)

Lemma preprocess_cases img : decoded_ok img -> let '(w, h) := (width img, height img) in
  if bool_decide (200 * Z.min h w < Z.max h w) then exists ratio, preprocess img = Err (AspectRatio ratio w h)
  else exists a b ps, preprocess img = Ok {| grid_t := 1; grid_h := a * MERGE; grid_w := b * MERGE; data := concat ps |} /\
    smart_resize h w = Ok (FACTOR * a, FACTOR * b) /\ 1 <= a /\ 1 <= b /\ MIN_PIXELS <= FACTOR * a * (FACTOR * b) <= MAX_PIXELS /\
    Forall2 (is_patch (rgb (resampled_image img (FACTOR * b) (FACTOR * a))) (FACTOR * b)) (patch_order (a * MERGE) (b * MERGE)) ps.
Proof.
  intros (Himg & Hb & Harea). pose proof Himg as (Hw0 & Hh0 & Hlen). change MAX_DECODE_PIXELS with (2 ^ 26) in Harea.
  set (w := width img) in *. set (h := height img) in *. assert (0 < w /\ 0 < h) as [Hwp Hhp] by nia.
  assert (1 <= w <= 2 ^ 26 /\ 1 <= h <= 2 ^ 26) as [Hw Hh] by nia.
  unfold preprocess. fold w h. rewrite Hlen, Z.eqb_refl. cbn [negb]. pose proof (smart_resize_cases h w ltac:(lia) ltac:(lia)) as Hcase.
  case_bool_decide as Hr; [destruct Hcase as (ratio & ->); by exists ratio|].
  destruct Hcase as (a & b & Es & Ha & Hb1 & Hfit). rewrite Es, ok_bind. exists a, b.
  assert (w <= 200 * h /\ h <= 200 * w) as [Hwh Hhw] by lia.
  assert (w <= 2 ^ 17 /\ h <= 2 ^ 17) as [Hw17 Hh17] by (split; nia).
  assert (1 <= FACTOR * a <= 2 ^ 24 /\ 1 <= FACTOR * b <= 2 ^ 24) as [Ha24 Hb24] by (unfold FACTOR, MIN_PIXELS, MAX_PIXELS in *; nia).
  assert (side_ok w /\ side_ok h /\ side_ok (FACTOR * a) /\ side_ok (FACTOR * b)) as (S1 & S2 & S3 & S4) by (unfold side_ok; lia).
  assert ((if (FACTOR * b =? w) && (FACTOR * a =? h) then Ok img else resize_bicubic img (FACTOR * b) (FACTOR * a)) = Ok (resampled_image img (FACTOR * b) (FACTOR * a))) as ->.
  { destruct (Z.eqb_spec (FACTOR * b) w) as [->|_], (Z.eqb_spec (FACTOR * a) h) as [->|_]; cbn [andb]; try by apply resize_bicubic_ok.
    by rewrite resampled_same. }
  rewrite ok_bind. set (src := resampled_image _ _ _). assert (image_ok src) as Hsrc by (by apply resampled_ok). assert (bytes_ok (rgb src)) as Hsb by (by apply resampled_bytes).
  rewrite lut_ok, ok_bind. change [value_table 0; value_table 1; value_table 2] with tables.
  replace (FACTOR * a / PATCH) with (a * MERGE) by (change PATCH with 16; change FACTOR with 32; change MERGE with 2; Z.div_mod_to_equations; lia).
  replace (FACTOR * b / PATCH) with (b * MERGE) by (change PATCH with 16; change FACTOR with 32; change MERGE with 2; Z.div_mod_to_equations; lia).
  assert (a * MERGE / MERGE = a /\ b * MERGE / MERGE = b) as [Ea Eb] by (split; apply Z.div_mul; done).
  destruct (patch_order_spec (a * MERGE) (b * MERGE)) as (Hl & _ & Hall); [lia|lia|]. rewrite Ea, Eb in *.
  destruct Hsrc as (_ & _ & Hsl). cbn [width height src resampled_image] in Hsl.
  destruct (fill_rows_ok (rgb src) (FACTOR * b) (FACTOR * a) (patch_order (a * MERGE) (b * MERGE))) with (pre := @nil spec_float) (row := 0) as (ps & E & Hps); [lia|lia|done|done| |done|done|].
  { eapply Forall_impl; [exact Hall|]. intros [[[bh bw] mh] mw]. change FACTOR with 32. lia. }
  exists ps. rewrite Hl in E. rewrite app_nil_l in E. change PATCH_DIM with 1536 in *.
  replace (a * MERGE * (b * MERGE) * 1536) with (a * (b * 4) * 1536) by (change MERGE with 2; lia). rewrite E, ok_bind, app_nil_l. done.
Qed.

(** * From a URL to bytes *)

(** The base64 state after [k] characters. *)
Definition b64_inv (k : Z) (st : b64) : Prop := bytes_ok (b_out st) /\ 0 <= b_n st < 4 /\ Zlen (b_out st) + b_n st <= k.

Lemma decode_char_ok k st i c : is_byte c -> b64_inv k st -> safe (b64_inv (k + 1)) (decode_char st (i, c)).
Proof.
  intros Hc (Hb & Hn & Hk). unfold decode_char. unfold is_byte in Hc.
  assert (Zlen TABLE = 256) as Ht by done.
  destruct (idx_in (E:=ImageError) TABLE c) as (v & _ & ->); [lia|]. rewrite ok_bind.
  destruct (Z.ltb_spec v 64).
  - destruct (Z.ltb_spec 0 (b_pads st)); [done|]. cbv zeta. destruct (Z.eqb_spec (b_n st + 1) 4); cbn [safe]; split; cbn [b_out b_n].
    + apply Forall_app_2; [done|]. repeat (apply Forall_cons_2; [apply is_byte_mod|]). done.
    + split; [lia|]. rewrite length_app. cbn [length]. lia.
    + done.
    + lia.
  - destruct (_ =? SKIP); [split; [done|lia]|]. destruct (_ =? PAD); [|done]. split; [done|]. cbn [b_n b_out]. lia.
Qed.

Lemma decode_chars_ok l : forall k st, Forall (fun ic => is_byte (snd ic)) l -> b64_inv k st -> safe (b64_inv (k + Zlen l)) (fold_try decode_char st l).
Proof.
  induction l as [|[i c] l IH]; intros k st Hl Hst; [by rewrite Z.add_0_r|]. apply Forall_cons in Hl as [Hc Hl]. cbn [fold_try].
  eapply safe_bind; [by apply (decode_char_ok k)|]. intros st' Hst'. replace (k + Zlen ((i, c) :: l)) with (k + 1 + Zlen l) by (cbn [length]; lia). by apply IH.
Qed.

Lemma base64_safe input : bytes_ok input -> safe (fun out => bytes_ok out /\ Zlen out <= Zlen input) (Base64.decode input).
Proof.
  intros Hb. unfold Base64.decode. eapply safe_bind.
  { apply (decode_chars_ok _ 0); [|split; [by constructor|cbn; lia]]. apply Forall_forall. intros [i c] Hin%elem_of_zip_r. by apply (proj1 (Forall_forall _ _) Hb). }
  intros st (Hob & Hn & Hk). rewrite length_zip, length_seqZ in Hk. unfold decode_rest.
  destruct (Z.eqb_spec (b_n st) 0), (Z.eqb_spec (b_n st) 2), (Z.eqb_spec (b_n st) 3), (Z.eqb_spec (b_n st) 1), (b_pads st =? 0), (b_pads st =? 2), (b_pads st =? 1);
    cbn [andb orb]; try done; try lia;
    (split; [first [done | apply Forall_app_2; [done|]; repeat (apply Forall_cons_2; [apply is_byte_mod|]); done]|rewrite ?length_app; cbn [length]; lia]).
Qed.

Lemma scalar_char_bytes c : scalar c -> bytes_ok (utf8_char c) /\ Zlen (utf8_char c) <= 4.
Proof.
  intros Hc. unfold scalar in Hc. unfold utf8_char, bytes_ok, is_byte.
  destruct (Z.ltb_spec c 0x80); [split; [repeat constructor; lia|cbn; lia]|].
  destruct (Z.ltb_spec c 0x800); [split; [repeat constructor; Z.div_mod_to_equations; lia|cbn; lia]|].
  destruct (Z.ltb_spec c 0x10000); split; (cbn [length]; lia) || (repeat constructor; Z.div_mod_to_equations; lia).
Qed.

Lemma scalar_text_bytes s : Forall scalar s -> bytes_ok (utf8 s) /\ Zlen (utf8 s) <= 4 * Zlen s.
Proof.
  induction 1 as [|c s Hc _ [IH1 IH2]]; [by split; [constructor|]|]. rewrite utf8_cons, length_app. destruct (scalar_char_bytes c Hc) as [H1 H2].
  split; [by apply Forall_app_2|cbn [length]; lia].
Qed.

Lemma trim_matches_part f s : exists a b, s = a ++ trim_matches f s ++ b.
Proof.
  unfold trim_matches. set (t := drop _ s). exists (take (count_while f s) s), (reverse (take (count_while f (reverse t)) (reverse t))).
  rewrite <- reverse_app, take_drop, reverse_involutive. unfold t. by rewrite take_drop.
Qed.

Lemma trim_scalars f s : Forall scalar s -> Forall scalar (trim_matches f s) /\ Zlen (trim_matches f s) <= Zlen s.
Proof.
  intros Hs. destruct (trim_matches_part f s) as (a & b & E). rewrite E in Hs. apply Forall_app in Hs as [_ [Hs _]%Forall_app].
  split; [done|]. apply (f_equal length) in E. rewrite !length_app in E. lia.
Qed.

Lemma url_payload_safe s : Forall scalar s -> safe (fun p => Forall scalar p /\ Zlen p <= Zlen s) (url_payload s).
Proof.
  intros Hs. unfold url_payload. cbv zeta. destruct (find _ _) as [[header payload]|] eqn:Hf; [|done].
  destruct (negb _); [done|]. destruct (negb _); [done|]. cbn [safe]. pose proof (find_Some_length _ _ _ _ Hf) as Hl. apply find_Some in Hf.
  assert (Forall scalar (drop 5 s)) as Hd by (by apply Forall_drop). rewrite Hf in Hd. apply Forall_app in Hd as [_ [_ Hd]%Forall_app].
  split; [done|]. rewrite length_drop in Hl. lia.
Qed.

Lemma data_url_safe url : Forall scalar url -> safe (fun b => bytes_ok b /\ Zlen b <= 4 * Zlen url) (data_url_bytes url).
Proof.
  intros Hu. unfold data_url_bytes. cbv zeta. destruct (trim_scalars ascii_ws url Hu) as [Hs Hl]. set (s := trim_matches ascii_ws url) in *.
  destruct (negb _); [by destruct (_ || _)|]. eapply safe_bind; [by apply url_payload_safe|]. intros p [Hp Hpl].
  destruct (scalar_text_bytes p Hp) as [Hb Hbl]. eapply safe_bind; [by apply base64_safe|]. intros b [Hbb Hbbl]. destruct b as [|x b]; [done|].
  cbn [safe]. split; [done|lia].
Qed.

Lemma decode_ok bytes : bytes_ok bytes -> Zlen bytes < 2 ^ 63 -> safe decoded_ok (decode bytes).
Proof.
  intros Hb Hl. unfold decode. destruct (starts_with _ _); [by apply decode_safe|]. destruct (_ && _); [by apply jpeg_decode_safe|done].
Qed.

Lemma decode_data_url_safe url : Forall scalar url -> Zlen url < 2 ^ 60 -> safe decoded_ok (decode_data_url url).
Proof.
  intros Hu Hl. unfold decode_data_url. eapply safe_bind; [by apply data_url_safe|]. intros b [Hb Hbl]. apply decode_ok; [done|lia].
Qed.

(** * The properties *)

(** The division behind the size rule is correctly rounded.  For every [u64] dividend and
    every positive [u64] divisor, also those that [f64] cannot hold, [py_true_div] returns a
    finite float, and no number of 53 significant bits is nearer to the exact quotient. *)
Theorem py_true_div_nearest a b : 0 <= a < 2 ^ 64 -> 0 < b < 2 ^ 64 ->
  exists x, py_true_div a b = Ok x /\ FloatRound.Rounds 53 1024 x (Rdefinitions.Rdiv (Rdefinitions.IZR a) (Rdefinitions.IZR b)).
Proof. apply py_true_div_near. Qed.

Lemma py_true_div_nearest_witness : exists x, py_true_div (2 ^ 63 + 1) (2 ^ 53 + 1) = Ok x /\
  FloatRound.Rounds 53 1024 x (Rdefinitions.Rdiv (Rdefinitions.IZR (2 ^ 63 + 1)) (Rdefinitions.IZR (2 ^ 53 + 1))).
Proof. apply py_true_div_nearest; lia. Defined.

(** The target size is always in bounds.  For every pair of positive [u32] sides,
    [smart_resize] refuses the image exactly when one side is more than 200 times the other,
    and otherwise both target sides are positive multiples of 32 whose product is between
    [MIN_PIXELS] and [MAX_PIXELS]: rounding errors in the square root and the quotients never
    push the area out, and no branch overflows or falls out of [u32]. *)
Theorem smart_resize_bounds h w : 0 < h < 2 ^ 32 -> 0 < w < 2 ^ 32 ->
  if bool_decide (200 * Z.min h w < Z.max h w) then exists ratio, smart_resize h w = Err (AspectRatio ratio w h)
  else exists a b, smart_resize h w = Ok (FACTOR * a, FACTOR * b) /\ 1 <= a /\ 1 <= b /\
    MIN_PIXELS <= FACTOR * a * (FACTOR * b) <= MAX_PIXELS.
Proof. apply smart_resize_cases. Qed.

Lemma smart_resize_bounds_witness : exists a b, smart_resize 10000 7000 = Ok (FACTOR * a, FACTOR * b) /\ 1 <= a /\ 1 <= b /\
    MIN_PIXELS <= FACTOR * a * (FACTOR * b) <= MAX_PIXELS.
Proof.
  assert (bool_decide (200 * Z.min 10000 7000 < Z.max 10000 7000) = false) as E by reflexivity.
  pose proof (smart_resize_bounds 10000 7000 ltac:(lia) ltac:(lia)) as H. rewrite E in H. exact H.
Defined.

(** C29: [preprocess] lays the patches out as documented.  For every decoded image whose aspect
    ratio is at most 200 it returns a grid of [2a] by [2b] patches, and element
    [\[channel\]\[temporal\]\[py\]\[px\]] of the patch in merged unit [(bh, bw)] at [(mh, mw)] is the
    normalised value of that pixel of the resized image, the same in both temporal slots. *)
Theorem preprocess_layout img : decoded_ok img -> 200 * Z.min (height img) (width img) >= Z.max (height img) (width img) ->
  exists a b p, preprocess img = Ok p /\ grid_t p = 1 /\ grid_h p = 2 * a /\ grid_w p = 2 * b /\
    smart_resize (height img) (width img) = Ok (32 * a, 32 * b) /\ Zlen (data p) = rows p * PATCH_DIM /\
    forall bh bw mh mw c t py px, 0 <= bh < a -> 0 <= bw < b -> 0 <= mh < 2 -> 0 <= mw < 2 ->
      0 <= c < 3 -> 0 <= t < 2 -> 0 <= py < 16 -> 0 <= px < 16 ->
      data p !! Z.to_nat ((((bh * b + bw) * 2 + mh) * 2 + mw) * PATCH_DIM + (c * 512 + t * 256 + py * 16 + px))
      = Some (normalized c (at_ix (rgb (resampled_image img (32 * b) (32 * a)))
          ((((bh * 2 + mh) * 16 + py) * (32 * b) + ((bw * 2 + mw) * 16 + px)) * 3 + c))).
Proof.
  intros Hd Hr. pose proof (preprocess_cases img Hd) as Hcase. cbv beta iota zeta in Hcase. rewrite bool_decide_eq_false_2 in Hcase by lia.
  destruct Hcase as (a & b & ps & -> & Hs & Ha & Hb & Hfit & Hps). exists a, b. eexists. split; [reflexivity|]. cbn [grid_t grid_h grid_w data].
  split; [done|]. split; [change MERGE with 2; lia|]. split; [change MERGE with 2; lia|]. split; [exact Hs|].
  assert (a * MERGE / MERGE = a /\ b * MERGE / MERGE = b) as [Ea Eb] by (split; apply Z.div_mul; done).
  destruct (patch_order_spec (a * MERGE) (b * MERGE)) as (Hl & Hat & _); [lia|lia|]. unfold patch_index in Hat. rewrite Ea, Eb in *.
  assert (Forall (fun l => Zlen l = PATCH_DIM) ps) as Hu.
  { eapply Forall2_Forall_r; [exact Hps|]. apply Forall_forall. intros [[[bh bw] mh] mw] _ dst [Hdl _]. exact Hdl. }
  split.
  { rewrite (concat_uniform_length _ _ Hu). apply Forall2_length in Hps. rewrite <- Hps, Hl. unfold rows. cbn [grid_t grid_h grid_w]. change MERGE with 2. lia. }
  intros bh bw mh mw c t py px Hbh Hbw Hmh Hmw Hc Ht Hpy Hpx. specialize (Hat bh bw mh mw Hbh Hbw Hmh Hmw).
  destruct (Forall2_lookup_l _ _ _ _ _ Hps Hat) as (dst & Hdst & _ & Hcell). change MERGE with 2 in Hdst.
  apply (concat_lookup_uniform ps PATCH_DIM _ _ dst); [done|nia|change PATCH_DIM with 1536; lia|done|].
  rewrite Hcell by done. reflexivity.
Qed.

Lemma preprocess_layout_witness : let img := {| width := 2; height := 2; rgb := [10; 20; 30; 40; 50; 60; 70; 80; 90; 100; 110; 120] |} in
  exists a b p, preprocess img = Ok p /\ grid_t p = 1 /\ grid_h p = 2 * a /\ grid_w p = 2 * b /\
    smart_resize 2 2 = Ok (32 * a, 32 * b) /\ Zlen (data p) = rows p * PATCH_DIM /\
    forall bh bw mh mw c t py px, 0 <= bh < a -> 0 <= bw < b -> 0 <= mh < 2 -> 0 <= mw < 2 ->
      0 <= c < 3 -> 0 <= t < 2 -> 0 <= py < 16 -> 0 <= px < 16 ->
      data p !! Z.to_nat ((((bh * b + bw) * 2 + mh) * 2 + mw) * PATCH_DIM + (c * 512 + t * 256 + py * 16 + px))
      = Some (normalized c (at_ix (rgb (resampled_image img (32 * b) (32 * a)))
          ((((bh * 2 + mh) * 16 + py) * (32 * b) + ((bw * 2 + mw) * 16 + px)) * 3 + c))).
Proof.
  intros img. apply (preprocess_layout img); [|cbn; lia]. split; [by repeat split|].
  split; [apply (bool_decide_unpack _); vm_compute; exact I|]. change MAX_DECODE_PIXELS with (2 ^ 26). cbn; lia.
Defined.

(** C28: From a URL to patches nothing panics.  For every URL shorter than [2 ^ 60] characters,
    decoding its base64 payload, its PNG or JPEG file, resizing and preprocessing the image
    either fails with an error or returns patches: as many rows as the grid says, covering
    between [MIN_PIXELS] and [MAX_PIXELS] pixels. *)
Theorem image_pipeline_total url : Forall scalar url -> Zlen url < 2 ^ 60 ->
  match (img ← decode_data_url url; preprocess img) with
  | Ok p => Zlen (data p) = rows p * PATCH_DIM /\ MIN_PIXELS <= rows p * (PATCH * PATCH) <= MAX_PIXELS
  | Err _ => True
  | Panic => False
  end.
Proof.
  intros Hu Hl. pose proof (decode_data_url_safe url Hu Hl) as Hs. destruct (decode_data_url url) as [img|e|]; [|done|done]. cbn [safe] in Hs.
  rewrite ok_bind. pose proof (preprocess_cases img Hs) as Hcase. cbv beta iota zeta in Hcase. case_bool_decide as Hr; [by destruct Hcase as (ratio & ->)|].
  destruct Hcase as (a & b & ps & -> & _ & Ha & Hb & Hfit & Hps).
  assert (a * MERGE / MERGE = a /\ b * MERGE / MERGE = b) as [Ea Eb] by (split; apply Z.div_mul; done).
  destruct (patch_order_spec (a * MERGE) (b * MERGE)) as (Hlo & _); [lia|lia|]. rewrite Ea, Eb in Hlo.
  assert (Forall (fun l => Zlen l = PATCH_DIM) ps) as Hlen.
  { eapply Forall2_Forall_r; [exact Hps|]. apply Forall_forall. intros [[[bh bw] mh] mw] _ dst [Hdl _]. exact Hdl. }
  unfold rows. cbn [grid_t grid_h grid_w data]. split.
  - rewrite (concat_uniform_length _ _ Hlen). apply Forall2_length in Hps. rewrite <- Hps, Hlo. change MERGE with 2. lia.
  - change (PATCH * PATCH) with 256. change MERGE with 2. change FACTOR with 32 in Hfit. lia.
Qed.

Lemma image_pipeline_total_witness :
  match (img ← decode_data_url (str "data:image/gif;base64,R0lGODlh"); preprocess img) with
  | Ok p => Zlen (data p) = rows p * PATCH_DIM /\ MIN_PIXELS <= rows p * (PATCH * PATCH) <= MAX_PIXELS
  | Err _ => True
  | Panic => False
  end.
Proof.
  apply image_pipeline_total; [|vm_compute; reflexivity]. apply (bool_decide_unpack _). vm_compute. exact I.
Defined.
