(* ===== verification/Sha256.v ===== *)
(** SHA-256 as the repacker computes it (src/crates/mimo26-repack/src/sha256.rs): the
    streaming state with its block buffer, the compression function on 32-bit words, and
    the hexadecimal form of a digest. *)
From Stdlib Require Import ZArith Lia Bool.
From stdpp Require Import base list gmap strings.
From S2P Require Import Prelude Utf8 Scan.

(** * Definitions *)

Definition DIGEST_LEN : Z := 32.

Definition K : list Z := concat [
  [0x428a2f98; 0x71374491; 0xb5c0fbcf; 0xe9b5dba5; 0x3956c25b; 0x59f111f1; 0x923f82a4; 0xab1c5ed5];
  [0xd807aa98; 0x12835b01; 0x243185be; 0x550c7dc3; 0x72be5d74; 0x80deb1fe; 0x9bdc06a7; 0xc19bf174];
  [0xe49b69c1; 0xefbe4786; 0x0fc19dc6; 0x240ca1cc; 0x2de92c6f; 0x4a7484aa; 0x5cb0a9dc; 0x76f988da];
  [0x983e5152; 0xa831c66d; 0xb00327c8; 0xbf597fc7; 0xc6e00bf3; 0xd5a79147; 0x06ca6351; 0x14292967];
  [0x27b70a85; 0x2e1b2138; 0x4d2c6dfc; 0x53380d13; 0x650a7354; 0x766a0abb; 0x81c2c92e; 0x92722c85];
  [0xa2bfe8a1; 0xa81a664b; 0xc24b8b70; 0xc76c51a3; 0xd192e819; 0xd6990624; 0xf40e3585; 0x106aa070];
  [0x19a4c116; 0x1e376c08; 0x2748774c; 0x34b0bcb5; 0x391c0cb3; 0x4ed8aa4a; 0x5b9cca4f; 0x682e6ff3];
  [0x748f82ee; 0x78a5636f; 0x84c87814; 0x8cc70208; 0x90befffa; 0xa4506ceb; 0xbef9a3f7; 0xc67178f2]].

Definition H0 : list Z :=
  [0x6a09e667; 0xbb67ae85; 0x3c6ef372; 0xa54ff53a; 0x510e527f; 0x9b05688c; 0x1f83d9ab; 0x5be0cd19].

(** [u32::rotate_right], [u32::wrapping_add], [!x]. *)
Definition rotate_right (x n : Z) : Z := Z.lor (Z.shiftr x n) (Z.shiftl x (32 - n) mod 2 ^ 32).
Definition wrapping_add (a b : Z) : Z := (a + b) mod 2 ^ 32.
Definition not32 (x : Z) : Z := 2 ^ 32 - 1 - x.

Record Sha256 := { sha_h : list Z; sha_buf : list Z; sha_buf_len : Z; sha_total_len : Z }.

Definition Sha256_new : Sha256 :=
  {| sha_h := H0; sha_buf := replicate 64 0; sha_buf_len := 0; sha_total_len := 0 |}.

(** [w[i]] for [i < 16], and for the others. *)
Definition load_word (block w : list Z) (i : Z) : outcome unit (list Z) :=
  b0 ← idx block (i * 4);
  b1 ← idx block (i * 4 + 1);
  b2 ← idx block (i * 4 + 2);
  b3 ← idx block (i * 4 + 3);
  idx_set w i (be_val [b0; b1; b2; b3]).

Definition extend_word (w : list Z) (i : Z) : outcome unit (list Z) :=
  w15 ← idx w (i - 15);
  w2 ← idx w (i - 2);
  w16 ← idx w (i - 16);
  w7 ← idx w (i - 7);
  let s0 := Z.lxor (Z.lxor (rotate_right w15 7) (rotate_right w15 18)) (Z.shiftr w15 3) in
  let s1 := Z.lxor (Z.lxor (rotate_right w2 17) (rotate_right w2 19)) (Z.shiftr w2 10) in
  idx_set w i (wrapping_add (wrapping_add (wrapping_add w16 s0) w7) s1).

Record Working := { wa : Z; wb : Z; wc : Z; wd : Z; we : Z; wf : Z; wg : Z; wh : Z }.

Definition round (w : list Z) (v : Working) (i : Z) : outcome unit Working :=
  let s1 := Z.lxor (Z.lxor (rotate_right (we v) 6) (rotate_right (we v) 11)) (rotate_right (we v) 25) in
  let ch := Z.lxor (Z.land (we v) (wf v)) (Z.land (not32 (we v)) (wg v)) in
  k ← idx K i;
  wi ← idx w i;
  let t1 := wrapping_add (wrapping_add (wrapping_add (wrapping_add (wh v) s1) ch) k) wi in
  let s0 := Z.lxor (Z.lxor (rotate_right (wa v) 2) (rotate_right (wa v) 13)) (rotate_right (wa v) 22) in
  let maj := Z.lxor (Z.lxor (Z.land (wa v) (wb v)) (Z.land (wa v) (wc v))) (Z.land (wb v) (wc v)) in
  let t2 := wrapping_add s0 maj in
  Ok {| wh := wg v; wg := wf v; wf := we v; we := wrapping_add (wd v) t1; wd := wc v; wc := wb v; wb := wa v;
        wa := wrapping_add t1 t2 |}.

(** [let mut a = self.h[0]; ...] *)
Definition load_working (h : list Z) : outcome unit Working :=
  a ← idx h 0; b ← idx h 1; c ← idx h 2; d ← idx h 3;
  e ← idx h 4; f ← idx h 5; g ← idx h 6; hh ← idx h 7;
  Ok {| wa := a; wb := b; wc := c; wd := d; we := e; wf := f; wg := g; wh := hh |}.

(** [h[i] = h[i].wrapping_add(x)] *)
Definition add_to (h : list Z) (ix : Z * Z) : outcome unit (list Z) :=
  v ← idx h (fst ix); idx_set h (fst ix) (wrapping_add v (snd ix)).

Definition compress (h block : list Z) : outcome unit (list Z) :=
  w ← fold_try (load_word block) (replicate 64 0) (seqZ 0 16);
  w ← fold_try extend_word w (seqZ 16 48);
  v ← load_working h;
  v ← fold_try (round w) v (seqZ 0 64);
  fold_try add_to h [(0, wa v); (1, wb v); (2, wc v); (3, wd v); (4, we v); (5, wf v); (6, wg v); (7, wh v)].

(** A full buffer is compressed. *)
Definition flush_full (st : Sha256) : outcome unit Sha256 :=
  if sha_buf_len st =? 64 then
    h ← compress (sha_h st) (sha_buf st);
    Ok {| sha_h := h; sha_buf := sha_buf st; sha_buf_len := 0; sha_total_len := sha_total_len st |}
  else Ok st.

(** [while data.len() >= 64] *)
Fixpoint whole_blocks (n : nat) (h data : list Z) : outcome unit (list Z * list Z) :=
  if 64 <=? Zlen data then
    match n with
    | O => Panic
    | S n =>
      block ← index_range data 0 64;
      h ← compress h block;
      rest ← index_range data 64 (Zlen data);
      whole_blocks n h rest
    end
  else Ok (h, data).

Definition update (st : Sha256) (data : list Z) : outcome unit Sha256 :=
  let total := (sha_total_len st + Zlen data) mod 2 ^ 64 in
  let st := {| sha_h := sha_h st; sha_buf := sha_buf st; sha_buf_len := sha_buf_len st; sha_total_len := total |} in
  '(st, data) ← (if 0 <? sha_buf_len st then
      let take := Z.min (64 - sha_buf_len st) (Zlen data) in
      head ← index_range data 0 take;
      _ ← index_range (sha_buf st) (sha_buf_len st) (sha_buf_len st + take);
      rest ← index_range data take (Zlen data);
      st ← flush_full {| sha_h := sha_h st; sha_buf := splice (sha_buf st) (sha_buf_len st) head;
                         sha_buf_len := sha_buf_len st + take; sha_total_len := sha_total_len st |};
      Ok (st, rest)
    else Ok (st, data));
  '(h, data) ← whole_blocks (length data) (sha_h st) data;
  if negb (bool_decide (data = [])) then
    _ ← index_range (sha_buf st) 0 (Zlen data);
    Ok {| sha_h := h; sha_buf := splice (sha_buf st) 0 data; sha_buf_len := Zlen data; sha_total_len := sha_total_len st |}
  else Ok {| sha_h := h; sha_buf := sha_buf st; sha_buf_len := sha_buf_len st; sha_total_len := sha_total_len st |}.

Definition raw_byte (st : Sha256) (b : Z) : outcome unit Sha256 :=
  buf ← idx_set (sha_buf st) (sha_buf_len st) b;
  flush_full {| sha_h := sha_h st; sha_buf := buf; sha_buf_len := sha_buf_len st + 1; sha_total_len := sha_total_len st |}.

Definition update_raw (st : Sha256) (data : list Z) : outcome unit Sha256 := fold_try raw_byte st data.

(** [while self.buf_len != 56] *)
Fixpoint pad_loop (n : nat) (st : Sha256) : outcome unit Sha256 :=
  if sha_buf_len st =? 56 then Ok st
  else match n with
       | O => Panic
       | S n => st ← update_raw st [0x00]; pad_loop n st
       end.

Definition be_bytes (n : nat) (v : Z) : list Z := reverse (le_bytes n v).

Definition finalize (st : Sha256) : outcome unit (list Z) :=
  let bit_len := (sha_total_len st * 8) mod 2 ^ 64 in
  st ← update_raw st [0x80];
  st ← pad_loop 64 st;
  st ← update_raw st (be_bytes 8 bit_len);
  if negb (sha_buf_len st =? 0) then Panic else Ok (concat (be_bytes 4 <$> sha_h st)).

Definition sha256 (data : list Z) : outcome unit (list Z) :=
  st ← update Sha256_new data; finalize st.

(** ** Digests as text *)

Definition hex (digest : list Z) : list Z :=
  concat ((fun b => [hex_char (Z.shiftr b 4); hex_char (Z.land b 0x0f)]) <$> digest).

Inductive HexError := HexLength (got : Z) | NotHexDigit (c : Z).

Definition hex_val (c : Z) : outcome HexError Z :=
  if between 0x30 0x39 c then Ok (c - 0x30)
  else if between 0x61 0x66 c then Ok (c - 0x61 + 10)
  else if between 0x41 0x46 c then Ok (c - 0x41 + 10)
  else Err (NotHexDigit c).

Definition unhex (s : list Z) : outcome HexError (list Z) :=
  let bytes := utf8 s in
  if negb (Zlen bytes =? 64) then Err (HexLength (Zlen bytes))
  else
    fold_try (fun out i =>
      c ← idx bytes (i * 2); hi ← hex_val c;
      c ← idx bytes (i * 2 + 1); lo ← hex_val c;
      idx_set out i (Z.lor (Z.shiftl hi 4 mod 256) lo)) (replicate 32 0) (seqZ 0 DIGEST_LEN).

(** The published vectors: "", "abc" and the message of two blocks. *)
Definition digest_text (m : list Z) : list Z := match sha256 m with Ok d => hex d | _ => [] end.

Example vector_empty : digest_text [] = str "e3b0c44298fc1c149afbf4c8996fb92427ae41e4649b934ca495991b7852b855".
Proof. vm_compute. reflexivity. Qed.
Example vector_abc : digest_text (str "abc") = str "ba7816bf8f01cfea414140de5dae2223b00361a396177a9cb410ff61f20015ad".
Proof. vm_compute. reflexivity. Qed.
Example vector_two_blocks : digest_text (str "abcdbcdecdefdefgefghfghighijhijkijkljklmklmnlmnomnopnopq")
  = str "248d6a61d20638b8e5c026930c3e6039a33ce45964ff2167f6ecedd419db06c1".
Proof. vm_compute. reflexivity. Qed.
