(* ===== verification/Sha256Proofs.v ===== *)
(** The streaming SHA-256 of Sha256.v computes the digest of FIPS 180-4, in whatever
    pieces the message comes. *)
From Stdlib Require Import ZArith Lia Bool.
From stdpp Require Import base list gmap strings.
From S2P Require Import Prelude Utf8 Scan Sha256.

(** * The standard (FIPS 180-4, sections 4 to 6) *)

Definition sigma0 (x : Z) : Z := Z.lxor (Z.lxor (rotate_right x 7) (rotate_right x 18)) (Z.shiftr x 3).
Definition sigma1 (x : Z) : Z := Z.lxor (Z.lxor (rotate_right x 17) (rotate_right x 19)) (Z.shiftr x 10).
Definition Sigma0 (x : Z) : Z := Z.lxor (Z.lxor (rotate_right x 2) (rotate_right x 13)) (rotate_right x 22).
Definition Sigma1 (x : Z) : Z := Z.lxor (Z.lxor (rotate_right x 6) (rotate_right x 11)) (rotate_right x 25).
Definition Ch (x y z : Z) : Z := Z.lxor (Z.land x y) (Z.land (not32 x) z).
Definition Maj (x y z : Z) : Z := Z.lxor (Z.lxor (Z.land x y) (Z.land x z)) (Z.land y z).

(** The sixteen words of a block, and the schedule, the last word first. *)
Definition words (block : list Z) : list Z := (fun i => be_val (slice block (i * 4) (i * 4 + 4))) <$> seqZ 0 16.

Definition next_word (w : list Z) : list Z :=
  (sigma1 (nth 1 w 0) + nth 6 w 0 + sigma0 (nth 14 w 0) + nth 15 w 0) mod 2 ^ 32 :: w.

Definition schedule (block : list Z) : list Z := reverse (Nat.iter 48 next_word (reverse (words block))).

Definition round_spec (v : Working) (kw : Z * Z) : Working :=
  let T1 := (wh v + Sigma1 (we v) + Ch (we v) (wf v) (wg v) + fst kw + snd kw) mod 2 ^ 32 in
  let T2 := (Sigma0 (wa v) + Maj (wa v) (wb v) (wc v)) mod 2 ^ 32 in
  {| wa := (T1 + T2) mod 2 ^ 32; wb := wa v; wc := wb v; wd := wc v;
     we := (wd v + T1) mod 2 ^ 32; wf := we v; wg := wf v; wh := wg v |}.

Definition working (h : list Z) : Working :=
  {| wa := nth 0 h 0; wb := nth 1 h 0; wc := nth 2 h 0; wd := nth 3 h 0;
     we := nth 4 h 0; wf := nth 5 h 0; wg := nth 6 h 0; wh := nth 7 h 0 |}.
Definition working_list (v : Working) : list Z := [wa v; wb v; wc v; wd v; we v; wf v; wg v; wh v].

Definition compress_spec (h block : list Z) : list Z :=
  zip_with (fun x y => (x + y) mod 2 ^ 32) h (working_list (foldl round_spec (working h) (zip K (schedule block)))).

(** A one, zeros up to 56 bytes of a block, the length in bits. *)
Definition padded (m : list Z) : list Z :=
  m ++ [0x80] ++ replicate (Z.to_nat ((55 - Zlen m) mod 64)) 0 ++ be_bytes 8 (Zlen m * 8 mod 2 ^ 64).

Fixpoint blocks (n : nat) (l : list Z) : list (list Z) :=
  match n with
  | O => []
  | S n => take 64 l :: blocks n (drop 64 l)
  end.

Definition sha256_spec (m : list Z) : list Z :=
  concat (be_bytes 4 <$> foldl compress_spec H0 (blocks (length (padded m) / 64) (padded m))).

(** * The compression function *)

Lemma fold_from {E B} (P : Z -> B -> Prop) (f : B -> Z -> outcome E B) acc lo n : 0 <= n -> P lo acc ->
  (forall i acc, lo <= i < lo + n -> P i acc -> exists acc', f acc i = Ok acc' /\ P (i + 1) acc') ->
  exists acc', fold_try f acc (seqZ lo n) = Ok acc' /\ P (lo + n) acc'.
Proof.
  intros Hn. revert lo acc. pattern n. apply natlike_ind; [|clear n Hn; intros n Hn IH|done].
  - intros lo acc HP _. exists acc. by rewrite Z.add_0_r.
  - intros lo acc HP Hstep. rewrite seqZ_cons by lia. replace (Z.pred (Z.succ n)) with n by lia. cbn [fold_try].
    destruct (Hstep lo acc) as (a & -> & Ha); [lia|done|]. cbn [mbind outcome_bind].
    destruct (IH (lo + 1) a) as (r & Hr & HPr); [done| |].
    + intros i b Hi. apply Hstep. lia.
    + exists r. split; [done|]. by replace (lo + Z.succ n) with (lo + 1 + n) by lia.
Qed.

Lemma wrapping_sum x y : wrapping_add (x mod 2 ^ 32) y = (x + y) mod 2 ^ 32.
Proof. unfold wrapping_add. apply Z.add_mod_idemp_l. lia. Qed.

Lemma sum4 a b c d : wrapping_add (wrapping_add (wrapping_add a b) c) d = (d + c + b + a) mod 2 ^ 32.
Proof.
  change (wrapping_add a b) with ((a + b) mod 2 ^ 32). rewrite !wrapping_sum. by replace (d + c + b + a) with (a + b + c + d) by lia.
Qed.

Lemma sum5 a b c d e : wrapping_add (wrapping_add (wrapping_add (wrapping_add a b) c) d) e = (a + b + c + d + e) mod 2 ^ 32.
Proof. change (wrapping_add a b) with ((a + b) mod 2 ^ 32). by rewrite !wrapping_sum. Qed.

Lemma idx_nth {E} (l : list Z) i : 0 <= i < Zlen l -> idx (E:=E) l i = Ok (nth (Z.to_nat i) l 0).
Proof.
  intros Hi. apply idx_Some; [lia|]. rewrite nth_lookup. destruct (lookup_lt_is_Some_2 l (Z.to_nat i)) as [x Hx]; [lia|]. by rewrite Hx.
Qed.

Lemma idx_set_at (pre suf : list Z) x y i : i = Zlen pre -> idx_set (E:=unit) (pre ++ x :: suf) i y = Ok (pre ++ y :: suf).
Proof. apply idx_set_app. Qed.

Lemma load_words block : length block = 64%nat ->
  fold_try (load_word block) (replicate 64 0) (seqZ 0 16) = Ok (words block ++ replicate 48 0).
Proof.
  intros Hb. pose (P := fun (i : Z) (w : list Z) =>
    w = ((fun i => be_val (slice block (i * 4) (i * 4 + 4))) <$> seqZ 0 i) ++ replicate (Z.to_nat (64 - i)) 0).
  destruct (fold_from P (load_word block) (replicate 64 0) 0 16) as (w & -> & Hw); [lia|done| |by rewrite Hw].
  intros i w Hi ->. eexists. split; [|reflexivity]. unfold load_word. rewrite !idx_nth by lia. cbn [mbind outcome_bind].
  replace (Z.to_nat (64 - i)) with (S (Z.to_nat (64 - (i + 1)))) by lia. cbn [replicate].
  rewrite idx_set_at by (rewrite length_fmap, length_seqZ; lia). f_equal.
  rewrite seqZ_app, fmap_app, <- app_assoc by lia. f_equal. rewrite Z.add_0_l. change (seqZ i 1) with [i]. cbn. f_equal. f_equal.
  unfold slice. replace (Z.to_nat (i * 4 + 4 - i * 4)) with 4%nat by lia.
  assert (forall k, (k < 4)%nat -> nth (Z.to_nat (i * 4 + Z.of_nat k)) block 0 = nth k (drop (Z.to_nat (i * 4)) block) 0) as Hk.
  { intros k Hk. rewrite !nth_lookup, lookup_drop. do 2 f_equal. lia. }
  assert (4 <= length (drop (Z.to_nat (i * 4)) block))%nat as Hd by (rewrite length_drop; lia).
  pose proof (Hk 0%nat ltac:(lia)) as K0. pose proof (Hk 1%nat ltac:(lia)) as K1. pose proof (Hk 2%nat ltac:(lia)) as K2.
  pose proof (Hk 3%nat ltac:(lia)) as K3. change (Z.of_nat 0) with 0 in K0. rewrite Z.add_0_r in K0.
  change (Z.of_nat 1) with 1 in K1. change (Z.of_nat 2) with 2 in K2. change (Z.of_nat 3) with 3 in K3.
  rewrite K0, K1, K2, K3. destruct (drop (Z.to_nat (i * 4)) block) as [|x0 [|x1 [|x2 [|x3 l]]]]; cbn in Hd; try lia. done.
Qed.

Lemma words_length block : length (words block) = 16%nat.
Proof. done. Qed.

Lemma iter_length n l : length (Nat.iter n next_word l) = (n + length l)%nat.
Proof. induction n as [|n IH]; [done|]. rewrite Nat.iter_succ. unfold next_word at 1. cbn [length]. by rewrite IH. Qed.

Lemma schedule_length block : length (schedule block) = 64%nat.
Proof. unfold schedule. rewrite length_reverse, iter_length, length_reverse. done. Qed.

(** The entry [k] places before the end of the words so far. *)
Lemma idx_back (rw : list Z) zeros i k : i = Zlen rw -> 1 <= k <= i ->
  idx (E:=unit) (reverse rw ++ zeros) (i - k) = Ok (nth (Z.to_nat (k - 1)) rw 0).
Proof.
  intros -> Hk. rewrite idx_nth by (rewrite length_app, length_reverse; lia). f_equal.
  rewrite app_nth1 by (rewrite length_reverse; lia). unfold reverse. rewrite <- rev_alt, rev_nth by lia. f_equal. lia.
Qed.

Lemma extend_words block :
  fold_try extend_word (words block ++ replicate 48 0) (seqZ 16 48) = Ok (schedule block).
Proof.
  pose (P := fun (i : Z) (w : list Z) =>
    w = reverse (Nat.iter (Z.to_nat (i - 16)) next_word (reverse (words block))) ++ replicate (Z.to_nat (64 - i)) 0).
  destruct (fold_from P extend_word (words block ++ replicate 48 0) 16 48) as (w & -> & Hw); [lia| | |].
  - unfold P. change (Nat.iter _ next_word (reverse (words block))) with (reverse (words block)). by rewrite reverse_involutive.
  - intros i w Hi ->. eexists. split; [|reflexivity]. set (rw := Nat.iter (Z.to_nat (i - 16)) _ _).
    assert (Zlen rw = i) as Hlen by (unfold rw; rewrite iter_length, length_reverse, words_length; lia).
    unfold extend_word. rewrite !(idx_back rw) by lia. cbn [mbind outcome_bind].
    replace (Z.to_nat (64 - i)) with (S (Z.to_nat (64 - (i + 1)))) by lia. cbn [replicate].
    rewrite idx_set_at by (rewrite length_reverse; lia). f_equal.
    replace (Z.to_nat (i + 1 - 16)) with (S (Z.to_nat (i - 16))) by lia. rewrite Nat.iter_succ. fold rw. unfold next_word at 1.
    rewrite reverse_cons, <- app_assoc. cbn [app]. do 2 f_equal.
    change (Z.to_nat (15 - 1)) with 14%nat. change (Z.to_nat (2 - 1)) with 1%nat. change (Z.to_nat (16 - 1)) with 15%nat.
    change (Z.to_nat (7 - 1)) with 6%nat. fold (sigma0 (nth 14 rw 0)). fold (sigma1 (nth 1 rw 0)).
    apply sum4.
  - rewrite Hw. change (replicate (Z.to_nat (64 - (16 + 48))) 0) with (@nil Z). rewrite app_nil_r.
    change (Z.to_nat (16 + 48 - 16)) with 48%nat. unfold schedule. reflexivity.
Qed.

Lemma K_length : length K = 64%nat.
Proof. reflexivity. Qed.

Lemma rounds w v : length w = 64%nat -> fold_try (round w) v (seqZ 0 64) = Ok (foldl round_spec v (zip K w)).
Proof.
  intros Hw. pose (P := fun (i : Z) (v' : Working) => v' = foldl round_spec v (take (Z.to_nat i) (zip K w))).
  destruct (fold_from P (round w) v 0 64) as (v' & -> & Hv); [lia|done| |].
  - intros i v' Hi ->. eexists. split; [|reflexivity]. set (v' := foldl _ _ _).
    unfold round. rewrite !idx_nth by (rewrite ?Hw, ?K_length; lia). cbn [mbind outcome_bind]. f_equal.
    replace (Z.to_nat (i + 1)) with (S (Z.to_nat i)) by lia.
    rewrite (take_S_r _ _ (nth (Z.to_nat i) K 0, nth (Z.to_nat i) w 0)).
    2: { rewrite lookup_zip_with, !nth_lookup. destruct (lookup_lt_is_Some_2 K (Z.to_nat i)) as [k ->]; [rewrite K_length; lia|].
         destruct (lookup_lt_is_Some_2 w (Z.to_nat i)) as [x ->]; [lia|]. done. }
    rewrite foldl_app. fold v'. cbn [foldl]. unfold round_spec. cbn [fst snd]. cbv zeta.
    fold (Sigma1 (we v')) (Sigma0 (wa v')) (Ch (we v') (wf v') (wg v')) (Maj (wa v') (wb v') (wc v')).
    by rewrite (sum5 (wh v')).
  - rewrite Hv. f_equal. f_equal. apply take_ge. rewrite length_zip_with, Hw. rewrite K_length. lia.
Qed.

Lemma add_back h v : length h = 8%nat ->
  fold_try add_to h [(0, wa v); (1, wb v); (2, wc v); (3, wd v); (4, we v); (5, wf v); (6, wg v); (7, wh v)]
  = Ok (zip_with (fun x y => (x + y) mod 2 ^ 32) h (working_list v)) /\
  length (zip_with (fun x y => (x + y) mod 2 ^ 32) h (working_list v)) = 8%nat.
Proof. intros Hh. do 8 (destruct h as [|? h]; [done|]). by destruct h. Qed.

Lemma load_working_ok h : length h = 8%nat -> load_working h = Ok (working h).
Proof. intros Hh. do 8 (destruct h as [|? h]; [done|]). by destruct h. Qed.

Lemma compress_ok h block : length h = 8%nat -> length block = 64%nat ->
  compress h block = Ok (compress_spec h block) /\ length (compress_spec h block) = 8%nat.
Proof.
  intros Hh Hb. pose proof (rounds (schedule block) (working h) (schedule_length block)) as Hr.
  pose proof (load_words block Hb) as Hl. pose proof (extend_words block) as He. pose proof (load_working_ok h Hh) as Hw.
  unfold compress, compress_spec. rewrite Hl, ok_bind, He, ok_bind, Hw, ok_bind, Hr, ok_bind. by apply add_back.
Qed.

(** * The block buffer *)

(** The state has absorbed whole blocks and holds what is left of the message, at most
    [max] bytes of it. *)
Record absorbed (max : nat) (st : Sha256) (m : list Z) : Prop := {
  ab_split : exists blks rest, m = concat blks ++ rest /\ Forall (fun b => length b = 64%nat) blks /\
    (length rest <= max)%nat /\ sha_h st = foldl compress_spec H0 blks /\ sha_buf_len st = Zlen rest /\
    take (length rest) (sha_buf st) = rest;
  ab_h : length (sha_h st) = 8%nat;
  ab_buf : length (sha_buf st) = 64%nat
}.

Lemma concat_blocks_length blks : Forall (fun b : list Z => length b = 64%nat) blks -> length (concat blks) = (64 * length blks)%nat.
Proof. induction 1 as [|b blks Hb _ IH]; [done|]. cbn [concat length]. rewrite length_app. lia. Qed.

Lemma held_length st m : absorbed 63 st m -> sha_buf_len st = Zlen m mod 64.
Proof.
  intros [(blks & rest & -> & Hb & Hr & _ & -> & _) _ _]. rewrite length_app, concat_blocks_length by done.
  rewrite Nat2Z.inj_add, Nat2Z.inj_mul, Z.add_comm, Z.mul_comm, Z.mod_add by lia. symmetry. apply Z.mod_small. lia.
Qed.

Lemma flush_ok st m : absorbed 64 st m ->
  exists st', flush_full st = Ok st' /\ absorbed 63 st' m /\ sha_total_len st' = sha_total_len st.
Proof.
  intros [(blks & rest & -> & Hb & Hr & Hh & Hl & Ht) H8 H64]. unfold flush_full. destruct (Z.eqb_spec (sha_buf_len st) 64) as [He|Hn].
  - destruct (compress_ok _ _ H8 H64) as [-> Hl8]. rewrite ok_bind. eexists. split; [reflexivity|]. split; [|done].
    assert (sha_buf st = rest) as Hbuf by (rewrite <- Ht; symmetry; apply take_ge; lia).
    split; cbn [sha_h sha_buf sha_buf_len]; [|done|done]. exists (blks ++ [rest]), []. split_and!.
    + rewrite concat_app. cbn [concat]. by rewrite !app_nil_r.
    + apply Forall_app. split; [done|]. constructor; [lia|constructor].
    + cbn. lia.
    + rewrite foldl_app. cbn [foldl]. by rewrite Hh, Hbuf.
    + done.
    + done.
  - exists st. split; [done|]. split; [|done]. split; [|done|done]. exists blks, rest. split_and!; try done. lia.
Qed.

Lemma raw_byte_ok st m b : absorbed 63 st m ->
  exists st', raw_byte st b = Ok st' /\ absorbed 63 st' (m ++ [b]) /\ sha_total_len st' = sha_total_len st.
Proof.
  intros [(blks & rest & -> & Hb & Hr & Hh & Hl & Ht) H8 H64]. unfold raw_byte, idx_set.
  rewrite (proj2 (Z.leb_le _ _)), (proj2 (Z.ltb_lt _ _)) by lia. cbn [andb]. rewrite ok_bind.
  apply (flush_ok {| sha_h := sha_h st; sha_buf := <[Z.to_nat (sha_buf_len st):=b]> (sha_buf st);
    sha_buf_len := sha_buf_len st + 1; sha_total_len := sha_total_len st |}).
  split; cbn [sha_h sha_buf sha_buf_len]; [|done|by rewrite length_insert].
  exists blks, (rest ++ [b]). rewrite length_app. cbn [length]. split_and!; [by rewrite <- app_assoc|done|lia|done|lia|].
  rewrite Hl, Nat2Z.id, Nat.add_1_r, (take_S_r _ _ b) by (apply list_lookup_insert_eq; lia).
  rewrite take_insert_ge by lia. by rewrite Ht.
Qed.

Lemma update_raw_ok data : forall st m, absorbed 63 st m ->
  exists st', update_raw st data = Ok st' /\ absorbed 63 st' (m ++ data) /\ sha_total_len st' = sha_total_len st.
Proof.
  induction data as [|b data IH]; intros st m Hst; [exists st; by rewrite app_nil_r|]. unfold update_raw. cbn [fold_try].
  destruct (raw_byte_ok st m b Hst) as (st1 & -> & H1 & Ht1). rewrite ok_bind.
  destruct (IH st1 (m ++ [b]) H1) as (st2 & H2 & H3 & Ht2). exists st2. rewrite <- app_assoc in H3. split; [exact H2|].
  split; [done|congruence].
Qed.

Lemma whole_blocks_ok n : forall h data, (length data <= n)%nat -> length h = 8%nat ->
  exists blks rest, whole_blocks n h data = Ok (foldl compress_spec h blks, rest) /\ data = concat blks ++ rest /\
    Forall (fun b => length b = 64%nat) blks /\ (length rest <= 63)%nat /\ length (foldl compress_spec h blks) = 8%nat.
Proof.
  induction n as [|n IH]; intros h data Hn Hh; cbn [whole_blocks]; destruct (Z.leb_spec 64 (Zlen data)) as [Hle|Hgt]; try lia.
  - exists [], data. split_and!; [done|done|constructor|lia|done].
  - rewrite (index_range_Ok data 0 64), ok_bind by lia.
    assert (length (slice data 0 64) = 64%nat) as Hs by (pose proof (slice_length data 0 64); lia).
    destruct (compress_ok h _ Hh Hs) as [-> H8]. rewrite ok_bind, index_range_Ok, ok_bind by lia. rewrite slice_to_end by lia.
    destruct (IH (compress_spec h (slice data 0 64)) (drop (Z.to_nat 64) data)) as (blks & rest & -> & Hd & Hb & Hr & Hl);
      [rewrite length_drop; lia|done|].
    exists (slice data 0 64 :: blks), rest. split_and!; [done| |by constructor|done|done].
    cbn [concat]. rewrite <- app_assoc, <- Hd, slice_from_start. by rewrite take_drop.
  - exists [], data. split_and!; [done|done|constructor|lia|done].
Qed.

(** [update] once nothing is held, or nothing is left. *)
Lemma update_tail st m data : absorbed 63 st m -> sha_buf_len st = 0 \/ data = [] ->
  exists st', ('(h, data) ← whole_blocks (length data) (sha_h st) data;
    if negb (bool_decide (data = [])) then
      _ ← index_range (sha_buf st) 0 (Zlen data);
      Ok {| sha_h := h; sha_buf := splice (sha_buf st) 0 data; sha_buf_len := Zlen data; sha_total_len := sha_total_len st |}
    else Ok {| sha_h := h; sha_buf := sha_buf st; sha_buf_len := sha_buf_len st; sha_total_len := sha_total_len st |}) = Ok st' /\
  absorbed 63 st' (m ++ data) /\ sha_total_len st' = sha_total_len st.
Proof.
  intros Hst Hor. pose proof Hst as [(blks & rest & Hm & Hb & Hr & Hh & Hl & Ht) H8 H64].
  destruct (whole_blocks_ok (length data) (sha_h st) data ltac:(lia) H8) as (blks' & rest' & -> & Hd & Hb' & Hr' & H8').
  rewrite ok_bind. destruct (decide (rest' = [])) as [->|Hne].
  - rewrite bool_decide_true by done. cbn [negb]. eexists. split; [reflexivity|]. split; [|done].
    split; cbn [sha_h sha_buf sha_buf_len]; [|done|done]. destruct Hor as [H0|H0].
    + assert (rest = []) as -> by (apply length_zero_iff_nil; lia). rewrite app_nil_r in Hm, Hd.
      exists (blks ++ blks'), []. rewrite Hm, Hd. split_and!; [by rewrite concat_app, app_nil_r|by apply Forall_app|cbn; lia|
        by rewrite foldl_app, Hh|done|done].
    + rewrite H0 in Hd |- *. symmetry in Hd. apply app_eq_nil in Hd as [Hc _]. assert (blks' = []) as ->.
      { destruct blks' as [|b blks']; [done|]. apply Forall_cons in Hb' as [Hb0 _]. cbn [concat] in Hc.
        apply app_eq_nil in Hc as [-> _]. done. }
      exists blks, rest. rewrite app_nil_r. split_and!; done.
  - rewrite bool_decide_false by done. cbn [negb]. destruct Hor as [H0|H0].
    2: { destruct rest'; [done|]. apply (f_equal length) in Hd. rewrite H0, length_app in Hd. cbn in Hd. lia. }
    assert (rest = []) as -> by (apply length_zero_iff_nil; lia). rewrite app_nil_r in Hm.
    rewrite index_range_Ok, ok_bind by lia. eexists. split; [reflexivity|]. split; [|done].
    split; cbn [sha_h sha_buf sha_buf_len]; [|done|rewrite splice_length; lia].
    exists (blks ++ blks'), rest'. rewrite Hm, Hd at 1. split_and!; [by rewrite concat_app, <- app_assoc|by apply Forall_app|lia|
      by rewrite foldl_app, Hh|done|].
    unfold splice. cbn [Z.to_nat]. rewrite take_0. cbn [app]. by rewrite take_app_length.
Qed.

Lemma update_ok st m data : absorbed 63 st m -> sha_total_len st = Zlen m mod 2 ^ 64 ->
  exists st', update st data = Ok st' /\ absorbed 63 st' (m ++ data) /\ sha_total_len st' = Zlen (m ++ data) mod 2 ^ 64.
Proof.
  intros Hst Htot. unfold update. cbv zeta. cbn [sha_h sha_buf sha_buf_len sha_total_len].
  set (total := (sha_total_len st + Zlen data) mod 2 ^ 64).
  assert (total = Zlen (m ++ data) mod 2 ^ 64) as Htotal.
  { unfold total. rewrite Htot, length_app, Nat2Z.inj_add. apply Z.add_mod_idemp_l. lia. }
  clearbody total. pose proof Hst as [(blks & rest & Hm & Hb & Hr & Hh & Hl & Ht) H8 H64].
  destruct (Z.ltb_spec 0 (sha_buf_len st)) as [Hpos|Hzero].
  - set (take_ := Z.min (64 - sha_buf_len st) (Zlen data)). rewrite (index_range_Ok data 0 take_), ok_bind by lia.
    rewrite (index_range_Ok (sha_buf st)), ok_bind by lia. rewrite (index_range_Ok data take_), ok_bind by lia.
    rewrite slice_from_start, slice_to_end by lia. set (head := take (Z.to_nat take_) data).
    assert (Zlen head = take_) as Hhead by (unfold head; rewrite length_take; lia).
    destruct (flush_ok {| sha_h := sha_h st; sha_buf := splice (sha_buf st) (sha_buf_len st) head;
      sha_buf_len := sha_buf_len st + take_; sha_total_len := total |} (m ++ head)) as (st1 & -> & H1 & Ht1).
    { split; cbn [sha_h sha_buf sha_buf_len]; [|done|rewrite splice_length; lia].
      exists blks, (rest ++ head). rewrite length_app. split_and!; [by rewrite Hm, <- app_assoc|done|lia|done|lia|].
      unfold splice. rewrite Hl, Nat2Z.id. rewrite Ht. rewrite app_assoc. apply take_app_length'. by rewrite length_app. }
    cbn [sha_total_len] in Ht1. rewrite !ok_bind.
    destruct (update_tail st1 (m ++ head) (drop (Z.to_nat take_) data) H1) as (st2 & H2 & H3 & Ht2).
    { destruct (Z.le_gt_cases (Zlen data) (64 - sha_buf_len st)) as [Hle|Hgt].
      - right. apply drop_ge. lia.
      - left. rewrite (held_length _ _ H1). rewrite Hm, !length_app, concat_blocks_length by done.
        replace (Z.of_nat (64 * length blks + length rest + length head)) with ((Z.of_nat (length blks) + 1) * 64) by lia.
        apply Z.mod_mul. lia. }
    exists st2. rewrite <- app_assoc in H3. unfold head in H3. rewrite take_drop in H3. split; [exact H2|]. split; [done|]. congruence.
  - rewrite ok_bind. set (st' := {| sha_h := sha_h st; sha_buf := _; sha_buf_len := _; sha_total_len := total |}).
    assert (absorbed 63 st' m) as Hst' by (split; [exists blks, rest; done|done|done]).
    destruct (update_tail st' m data Hst') as (st2 & H2 & H3 & Ht2); [left; cbn; lia|]. exists st2. split; [exact H2|]. split; [done|].
    rewrite Ht2. done.
Qed.

(** * The digest *)

Lemma pad_loop_ok n : forall st m, absorbed 63 st m -> (56 - Zlen m) mod 64 <= Z.of_nat n ->
  exists st', pad_loop n st = Ok st' /\ absorbed 63 st' (m ++ replicate (Z.to_nat ((56 - Zlen m) mod 64)) 0) /\
    sha_total_len st' = sha_total_len st.
Proof.
  induction n as [|n IH]; intros st m Hst Hn; cbn [pad_loop]; rewrite (held_length _ _ Hst).
  - assert ((56 - Zlen m) mod 64 = 0) as H0 by (pose proof (Z.mod_pos_bound (56 - Zlen m) 64); lia).
    destruct (Z.eqb_spec (Zlen m mod 64) 56) as [He|Hne]; [|exfalso; Z.div_mod_to_equations; lia].
    exists st. rewrite H0. cbn. by rewrite app_nil_r.
  - destruct (Z.eqb_spec (Zlen m mod 64) 56) as [He|Hne].
    + exists st. assert ((56 - Zlen m) mod 64 = 0) as -> by (Z.div_mod_to_equations; lia). cbn. by rewrite app_nil_r.
    + destruct (update_raw_ok [0x00] st m Hst) as (st1 & -> & H1 & Ht1). rewrite ok_bind.
      assert (Zlen (m ++ [0x00]) = Zlen m + 1) as Hl by (rewrite length_app; cbn [length]; lia).
      assert ((56 - Zlen m) mod 64 = (56 - (Zlen m + 1)) mod 64 + 1) as Hk by (Z.div_mod_to_equations; lia).
      pose proof (Z.mod_pos_bound (56 - (Zlen m + 1)) 64 ltac:(lia)) as Hb.
      destruct (IH st1 (m ++ [0x00]) H1) as (st2 & -> & H2 & Ht2); [rewrite Hl; lia|].
      exists st2. split; [done|]. rewrite Hl, <- app_assoc in H2.
      rewrite Hk. replace (Z.to_nat ((56 - (Zlen m + 1)) mod 64 + 1)) with (S (Z.to_nat ((56 - (Zlen m + 1)) mod 64))) by lia.
      split; [exact H2|congruence].
Qed.

Lemma blocks_concat blks : Forall (fun b => length b = 64%nat) blks -> blocks (length blks) (concat blks) = blks.
Proof.
  induction 1 as [|b blks Hb _ IH]; [done|]. cbn [length blocks concat].
  rewrite take_app_length', drop_app_length' by done. by rewrite IH.
Qed.

Lemma padded_length m : Zlen (padded m) mod 64 = 0.
Proof.
  unfold padded, be_bytes. rewrite !length_app, length_replicate, length_reverse, le_bytes_length. cbn [length].
  pose proof (Z.mod_pos_bound (55 - Zlen m) 64). Z.div_mod_to_equations. lia.
Qed.

Lemma finalize_ok st m : absorbed 63 st m -> sha_total_len st = Zlen m mod 2 ^ 64 -> finalize st = Ok (sha256_spec m).
Proof.
  intros Hst Htot. unfold finalize.
  destruct (update_raw_ok [0x80] st m Hst) as (st1 & -> & H1 & _). rewrite ok_bind.
  assert (Zlen (m ++ [0x80]) = Zlen m + 1) as Hl by (rewrite length_app; cbn [length]; lia).
  destruct (pad_loop_ok 64 st1 _ H1) as (st2 & -> & H2 & _); [pose proof (Z.mod_pos_bound (56 - Zlen (m ++ [0x80])) 64); lia|].
  rewrite ok_bind. destruct (update_raw_ok (be_bytes 8 (sha_total_len st * 8 mod 2 ^ 64)) st2 _ H2) as (st3 & -> & H3 & _).
  rewrite ok_bind. rewrite Hl in H3. replace (56 - (Zlen m + 1)) with (55 - Zlen m) in H3 by lia.
  assert (sha_total_len st * 8 mod 2 ^ 64 = Zlen m * 8 mod 2 ^ 64) as Hbits by (rewrite Htot; apply Z.mul_mod_idemp_l; lia).
  rewrite Hbits, <- !app_assoc in H3. fold (padded m) in H3.
  pose proof (held_length _ _ H3) as Hheld. rewrite padded_length in Hheld. rewrite Hheld. cbn [Z.eqb negb].
  destruct H3 as [(blks & rest & Hp & Hb & _ & Hh & Hl3 & _) _ _]. rewrite Hh.
  assert (rest = []) as -> by (apply length_zero_iff_nil; lia). rewrite app_nil_r in Hp. unfold sha256_spec.
  rewrite Hp, concat_blocks_length, (Nat.mul_comm 64), Nat.div_mul by done. by rewrite blocks_concat.
Qed.

Lemma absorbed_nothing : absorbed 63 Sha256_new [].
Proof. split; [|done|done]. exists [], []. split_and!; try done. cbn. lia. Qed.

Lemma updates_ok pieces : forall st m, absorbed 63 st m -> sha_total_len st = Zlen m mod 2 ^ 64 ->
  (st ← fold_try update st pieces; finalize st) = Ok (sha256_spec (m ++ concat pieces)).
Proof.
  induction pieces as [|p pieces IH]; intros st m Hst Htot; cbn [fold_try concat].
  - rewrite ok_bind, app_nil_r. by apply finalize_ok.
  - destruct (update_ok st m p Hst Htot) as (st' & -> & Hst' & Htot'). rewrite ok_bind, (IH st' (m ++ p)) by done. by rewrite <- app_assoc.
Qed.

Lemma sha256_ok m : sha256 m = Ok (sha256_spec m).
Proof.
  unfold sha256. destruct (update_ok Sha256_new [] m absorbed_nothing eq_refl) as (st & -> & Hst & Htot). rewrite ok_bind.
  by apply finalize_ok.
Qed.

(** The streaming hasher computes the digest FIPS 180-4 defines: absorbing a message
    in any pieces and finishing gives the padded message's digest, without a panic, and
    so does the one-shot function. *)
Theorem sha256_streams pieces :
  (st ← fold_try update Sha256_new pieces; finalize st) = Ok (sha256_spec (concat pieces)) /\
  sha256 (concat pieces) = Ok (sha256_spec (concat pieces)).
Proof. split; [apply (updates_ok pieces Sha256_new [] absorbed_nothing eq_refl)|apply sha256_ok]. Qed.

(** * Digests as text *)

Lemma digest_length m : length (sha256_spec m) = 32%nat /\ bytes_ok (sha256_spec m).
Proof.
  unfold sha256_spec. set (h := foldl _ _ _). assert (length h = 8%nat) as Hh.
  { unfold h. generalize (blocks (length (padded m) / 64) (padded m)). intros blks.
    assert (forall h0, length h0 = 8%nat -> length (foldl compress_spec h0 blks) = 8%nat) as H; [|by apply H].
    induction blks as [|b blks IH]; intros h0 Hh0; [done|]. cbn [foldl]. apply IH. unfold compress_spec.
    rewrite length_zip_with. cbn. lia. }
  clearbody h. split.
  - do 8 (destruct h as [|? h]; [done|]). destruct h; [|done]. done.
  - clear Hh. induction h as [|x h IH]; [constructor|]. cbn [fmap list_fmap concat]. apply Forall_app. split; [|done].
    apply Forall_reverse, le_bytes_ok.
Qed.

Definition reads_back (d : Z) : bool :=
  match hex_val (hex_char d) with Ok x => x =? d | _ => false end && (0 <=? hex_char d) && (hex_char d <? 0x80).

Lemma hex_digit_back d : 0 <= d < 16 -> hex_val (hex_char d) = Ok d /\ 0 <= hex_char d < 0x80.
Proof.
  intros Hd. assert (forallb reads_back (seqZ 0 16) = true) as H by reflexivity. rewrite forallb_forall in H.
  specialize (H d). unfold reads_back in H. rewrite <- list_elem_of_In, elem_of_seqZ in H. specialize (H ltac:(lia)).
  rewrite !andb_true_iff, Z.leb_le, Z.ltb_lt in H. destruct H as [[Hv H0] H1]. split; [|lia].
  destruct (hex_val (hex_char d)); [|done|done]. apply Z.eqb_eq in Hv. by subst.
Qed.

Lemma nibbles b : is_byte b -> 0 <= Z.shiftr b 4 < 16 /\ 0 <= Z.land b 0x0f < 16 /\
  Z.lor (Z.shiftl (Z.shiftr b 4) 4 mod 256) (Z.land b 0x0f) = b.
Proof.
  unfold is_byte. intros Hb. change 0x0f with (Z.ones 4). rewrite Z.land_ones, Z.shiftr_div_pow2, Z.shiftl_mul_pow2 by lia.
  change (2 ^ 4) with 16. assert (b / 16 * 16 mod 256 = 2 ^ 4 * (b / 16)) as ->.
  { change (2 ^ 4) with 16. rewrite Z.mod_small; [lia|]. Z.div_mod_to_equations. lia. }
  rewrite lor_disjoint by (change (2 ^ 4) with 16; Z.div_mod_to_equations; lia). change (2 ^ 4) with 16.
  Z.div_mod_to_equations. lia.
Qed.

Lemma hex_length d : length (hex d) = (2 * length d)%nat.
Proof. induction d as [|b d IH]; [done|]. cbn [length]. change (hex (b :: d)) with ([hex_char (Z.shiftr b 4); hex_char (Z.land b 0x0f)] ++ hex d).
  rewrite length_app, IH. cbn [length]. lia. Qed.

Lemma hex_at d i b : d !! i = Some b -> hex d !! (2 * i)%nat = Some (hex_char (Z.shiftr b 4)) /\
  hex d !! (2 * i + 1)%nat = Some (hex_char (Z.land b 0x0f)).
Proof.
  revert i. induction d as [|x d IH]; intros i; [done|].
  change (hex (x :: d)) with ([hex_char (Z.shiftr x 4); hex_char (Z.land x 0x0f)] ++ hex d). destruct i as [|i]; cbn [lookup list_lookup].
  - by intros [= ->].
  - intros Hi. destruct (IH i Hi) as [H1 H2]. replace (2 * S i)%nat with (S (S (2 * i))) by lia.
    replace (S (S (2 * i)) + 1)%nat with (S (S (2 * i + 1))) by lia. done.
Qed.

Lemma hex_ascii d : bytes_ok d -> Forall (fun c => 0 <= c < 0x80) (hex d).
Proof.
  induction 1 as [|b d Hb _ IH]; [constructor|]. destruct (nibbles b Hb) as (Hh & Hl & _).
  apply Forall_cons. split; [by apply hex_digit_back|]. apply Forall_cons. split; [by apply hex_digit_back|done].
Qed.

(** A digest's text reads back as the digest. *)
Lemma unhex_hex d : bytes_ok d -> length d = 32%nat -> unhex (hex d) = Ok d.
Proof.
  intros Hb Hl. unfold unhex. rewrite utf8_ascii by (eapply Forall_impl; [by apply hex_ascii|]; cbn; lia).
  rewrite hex_length, Hl. cbn [Nat.mul Nat.add Z.of_nat Pos.of_succ_nat Pos.succ Z.eqb Pos.eqb negb]. cbv zeta.
  destruct (fold_try_inv (fun i out => length out = 32%nat /\ take (Z.to_nat i) out = take (Z.to_nat i) d)
    (fun out i => c ← idx (hex d) (i * 2); hi ← hex_val c; c ← idx (hex d) (i * 2 + 1); lo ← hex_val c;
       idx_set out i (Z.lor (Z.shiftl hi 4 mod 256) lo)) (replicate 32 0) DIGEST_LEN) as (out & Hout & Hlen & Htake).
  - done.
  - done.
  - intros i out Hi [Hlen Htake]. unfold DIGEST_LEN in Hi. destruct (lookup_lt_is_Some_2 d (Z.to_nat i)) as [b Hd]; [lia|].
    assert (is_byte b) as Hbb by (by eapply Forall_lookup_1). destruct (nibbles b Hbb) as (Hh & Hlo & Hor).
    destruct (hex_at _ _ _ Hd) as [H1 H2].
    rewrite (idx_Some _ (i * 2) (hex_char (Z.shiftr b 4))) by (lia || (rewrite <- H1; f_equal; lia)). cbn [mbind outcome_bind].
    rewrite (proj1 (hex_digit_back _ Hh)). cbn [mbind outcome_bind].
    rewrite (idx_Some _ (i * 2 + 1) (hex_char (Z.land b 0x0f))) by (lia || (rewrite <- H2; f_equal; lia)). cbn [mbind outcome_bind].
    rewrite (proj1 (hex_digit_back _ Hlo)). cbn [mbind outcome_bind]. rewrite Hor. unfold idx_set.
    rewrite (proj2 (Z.leb_le _ _)), (proj2 (Z.ltb_lt _ _)) by lia. cbn [andb]. eexists. split; [reflexivity|].
    rewrite length_insert. split; [done|]. replace (Z.to_nat (i + 1)) with (S (Z.to_nat i)) by lia.
    rewrite !(take_S_r _ _ b) by (done || (apply list_lookup_insert_eq; lia)). rewrite take_insert_ge by lia. by rewrite Htake.
  - rewrite Hout. f_equal. unfold DIGEST_LEN in Htake. change (Z.to_nat 32) with 32%nat in Htake. rewrite !take_ge in Htake by lia. done.
Qed.
