(* ===== verification/RepackJson.v ===== *)
(** The repacker's strict JSON reader (src/crates/mimo26-repack/src/json.rs): integers only,
    no duplicate keys, no control characters.  A [String] is the list of its scalar
    values, a [BTreeMap] that of its entries in key order; an error keeps its message
    without the data it quotes.  Recursion takes fuel; [parse] gives enough of it
    (RepackJsonProofs.v). *)
From Stdlib Require Import ZArith Lia Bool.
From stdpp Require Import base list gmap strings.
From S2P Require Import Prelude Utf8 Scan RepackGeom.

(** * Definitions *)

Inductive Json :=
| Null
| Bool (b : bool)
| U64 (n : Z)
| Str (s : list Z)
| Array (items : list Json)
| Object (m : list (list Z * Json)).

Definition as_object (v : Json) : option (list (list Z * Json)) := match v with Object m => Some m | _ => None end.
Definition as_array (v : Json) : option (list Json) := match v with Array a => Some a | _ => None end.
Definition as_str (v : Json) : option (list Z) := match v with Str s => Some s | _ => None end.
Definition as_u64 (v : Json) : option Z := match v with U64 n => Some n | _ => None end.

#[local] Abbreviation result := (outcome RepackError).

(** No message: what the fuel of the model runs out with. *)
#[export] Instance repack_fuel : Fuelled RepackError := BadManifest "".

Definition expect (c : Z) (p : Parser) : result (unit * Parser) :=
  if bool_decide (peek p = Some c) then Ok (tt, advance 1 p) else Err (BadManifest "expected a character").

Definition lit (word : list Z) (p : Parser) : result (unit * Parser) :=
  if starts_with (p_rest p) word then Ok (tt, advance (length word) p) else Err (BadManifest "expected a word").

(** The four digits after [\u]. *)
Definition hex_escape (p : Parser) : result (Z * Parser) :=
  if Nat.ltb (length (p_rest p)) 4 then Err (BadManifest "short \u escape")
  else
    hex ← ok_or (from_utf8 (take 4 (p_rest p))) (BadManifest "bad \u escape");
    cp ← ok_or (u32_from_hex (utf8 hex)) (BadManifest "bad \u escape");
    c ← ok_or (char_from_u32 cp) (BadManifest "bad code point");
    Ok (c, advance 4 p).

Definition escape (p : Parser) : result (Z * Parser) :=
  match peek p with
  | None => Err (BadManifest "unterminated escape")
  | Some e =>
    let p := advance 1 p in
    if (e =? 0x22) || (e =? 0x5C) || (e =? 0x2F) then Ok (e, p)
    else if e =? 0x6E then Ok (0x0A, p)
    else if e =? 0x74 then Ok (0x09, p)
    else if e =? 0x72 then Ok (0x0D, p)
    else if e =? 0x62 then Ok (0x08, p)
    else if e =? 0x66 then Ok (0x0C, p)
    else if e =? 0x75 then hex_escape p
    else Err (BadManifest "bad escape")
  end.

(** A byte outside an escape is pushed as the character of its value. *)
Fixpoint string_loop (fuel : nat) (out : list Z) (p : Parser) : result (list Z * Parser) :=
  match fuel with
  | O => Err out_of_fuel
  | S fuel =>
    match peek p with
    | None => Err (BadManifest "unterminated string")
    | Some c =>
      let p := advance 1 p in
      if c =? 0x22 then Ok (out, p)
      else if c =? 0x5C then '(e, p) ← escape p; string_loop fuel (out ++ [e]) p
      else if c <? 0x20 then Err (BadManifest "unescaped control byte")
      else string_loop fuel (out ++ [c]) p
    end
  end.

Definition string_ (p : Parser) : result (list Z * Parser) :=
  '(_, p) ← expect 0x22 p; string_loop (S (length (p_rest p))) [] p.

Definition number (start : Parser) : result (Json * Parser) :=
  let p := snd (step_if (Z.eqb 0x2D) start) in
  let p := skip_while is_ascii_digit p in
  if bool_decide (peek p = Some 0x2E) || bool_decide (peek p = Some 0x65) || bool_decide (peek p = Some 0x45)
  then Err (BadManifest "non-integer number")
  else
    text ← ok_or (from_utf8 (take (Z.to_nat (p_pos p - p_pos start)) (p_rest start))) (BadManifest "bad number bytes");
    n ← ok_or (parse_i64 text) (BadManifest "bad number");
    if n <? 0 then Err (BadManifest "negative number") else Ok (U64 n, p).

Fixpoint value (fuel : nat) (p : Parser) : result (Json * Parser) :=
  match fuel with
  | O => Err out_of_fuel
  | S fuel =>
    match peek p with
    | Some c =>
      if c =? 0x7B then
        '(_, p) ← expect 0x7B p;
        let p := ws p in
        if bool_decide (peek p = Some 0x7D) then Ok (Object [], advance 1 p)
        else '(m, p) ← object_loop fuel [] p; Ok (Object m, p)
      else if c =? 0x5B then
        '(_, p) ← expect 0x5B p;
        let p := ws p in
        if bool_decide (peek p = Some 0x5D) then Ok (Array [], advance 1 p)
        else '(items, p) ← array_loop fuel [] p; Ok (Array items, p)
      else if c =? 0x22 then '(s, p) ← string_ p; Ok (Str s, p)
      else if c =? 0x74 then '(_, p) ← lit (str "true") p; Ok (Bool true, p)
      else if c =? 0x66 then '(_, p) ← lit (str "false") p; Ok (Bool false, p)
      else if c =? 0x6E then '(_, p) ← lit (str "null") p; Ok (Null, p)
      else if is_ascii_digit c || (c =? 0x2D) then number p
      else Err (BadManifest "unexpected character")
    | None => Err (BadManifest "unexpected character")
    end
  end
with array_loop (fuel : nat) (out : list Json) (p : Parser) : result (list Json * Parser) :=
  match fuel with
  | O => Err out_of_fuel
  | S fuel =>
    '(v, p) ← value fuel (ws p);
    let out := out ++ [v] in
    let p := ws p in
    match peek p with
    | Some b =>
      if b =? 0x2C then array_loop fuel out (advance 1 p)
      else if b =? 0x5D then Ok (out, advance 1 p)
      else Err (BadManifest "expected ',' or ']'")
    | None => Err (BadManifest "expected ',' or ']'")
    end
  end
with object_loop (fuel : nat) (m : list (list Z * Json)) (p : Parser) : result (list (list Z * Json) * Parser) :=
  match fuel with
  | O => Err out_of_fuel
  | S fuel =>
    '(k, p) ← string_ (ws p);
    '(_, p) ← expect 0x3A (ws p);
    '(v, p) ← value fuel (ws p);
    if bool_decide (is_Some (map_get k m)) then Err (BadManifest "duplicate key")
    else
      let m := map_insert k v m in
      let p := ws p in
      match peek p with
      | Some b =>
        if b =? 0x2C then object_loop fuel m (advance 1 p)
        else if b =? 0x7D then Ok (m, advance 1 p)
        else Err (BadManifest "expected ',' or '}'")
      | None => Err (BadManifest "expected ',' or '}'")
      end
  end.

Definition parse (text : list Z) : result Json :=
  let s := utf8 text in
  '(v, p) ← value (2 * length s + 1) (ws {| p_pos := 0; p_rest := s |});
  let p := ws p in
  if negb (p_pos p =? Zlen s) then Err (BadManifest "trailing bytes") else Ok v.

(** [manifest.rs]: a string of the manifest's text. *)
Definition json_char (c : Z) : list Z :=
  if c =? 0x22 then [0x5C; 0x22]
  else if c =? 0x5C then [0x5C; 0x5C]
  else if c =? 0x0A then [0x5C; 0x6E]
  else if c =? 0x0D then [0x5C; 0x72]
  else if c =? 0x09 then [0x5C; 0x74]
  else if c <? 0x20 then [0x5C; 0x75] ++ fmt_04x c
  else [c].
Definition json_str (s : list Z) : list Z := [0x22] ++ concat (json_char <$> s) ++ [0x22].

(** [Display] of a [String] in an error: its bytes. *)
Definition to_string (s : list Z) : string :=
  String.string_of_list_ascii ((fun b => Ascii.ascii_of_N (Z.to_N b)) <$> utf8 s).

(** A [u64] in decimal. *)
Definition u64_to_string (n : Z) : list Z := dec_digits 20 n.

Example strict : is_ok (parse (str "{}x")) = false /\ is_ok (parse (str "[1.5]")) = false /\ is_ok (parse (str "[-1]")) = false /\
  parse (str " [1, 22 ,[], true, null] ") = Ok (Array [U64 1; U64 22; Array []; Bool true; Null]).
Proof. vm_compute. done. Qed.

Example keys_once : is_ok (parse ([0x7B] ++ json_str (str "a") ++ [0x3A; 0x31; 0x2C] ++ json_str (str "a") ++ [0x3A; 0x32; 0x7D])) = false /\
  parse ([0x7B] ++ json_str (str "b") ++ [0x3A; 0x31; 0x2C] ++ json_str (str "a") ++ [0x3A; 0x32; 0x7D])
  = Ok (Object [(str "a", U64 2); (str "b", U64 1)]).
Proof. vm_compute. done. Qed.

(** A character past ASCII comes back as its bytes read as Latin-1. *)
Example not_ascii : parse (json_str [0xE9]) = Ok (Str [0xC3; 0xA9]).
Proof. vm_compute. done. Qed.
