(* ===== verification/RepackJsonProofs.v ===== *)
(** The repacker's JSON reader returns on every text, and reads what a writer of strings,
    integers, arrays and objects lays out, whatever white space is between. *)
From Stdlib Require Import ZArith Lia Bool.
From stdpp Require Import base list gmap strings.
From S2P Require Import Prelude Utf8 Scan RepackGeom RepackJson.

(** * The reader returns *)
Lemma expect_shrinks c p : shrinks (length (p_rest p)) (expect c p).
Proof.
  unfold expect. case_bool_decide as Hp; [|done]. apply peek_Some in Hp. cbn -[advance]. rewrite advance_length. lia.
Qed.

Lemma strict_lit_shrinks w p : w <> [] -> peek p <> None -> shrinks (length (p_rest p)) (lit w p).
Proof.
  intros Hw Hp. unfold lit. destruct (starts_with _ _); [|done]. cbn -[advance]. rewrite advance_length.
  destruct w; [done|]. unfold peek in Hp. destruct (p_rest p); [done|]. cbn. lia.
Qed.

Lemma hex_escape_shrinks p : shrinks (length (p_rest p)) (hex_escape p).
Proof.
  unfold hex_escape. destruct (Nat.ltb_spec (length (p_rest p)) 4); [done|]. do 3 (apply shrinks_ok_or; [done|]; intros ?).
  cbn -[advance]. rewrite advance_length. lia.
Qed.

Lemma strict_escape_shrinks p : shrinks (length (p_rest p)) (escape p).
Proof.
  unfold escape. destruct (peek p) as [e|] eqn:Hp; [|done]. apply peek_Some in Hp.
  pose proof (advance_length 1 p) as Ha. set (q := advance 1 p) in *. clearbody q.
  assert (forall c : Z, shrinks (length (p_rest p)) (Ok (c, q))) as Hq by (intros; cbn; lia).
  destruct ((e =? 0x22) || _ || _); [apply Hq|]. repeat (destruct (e =? _); [try apply Hq|]); [|done].
  eapply shrinks_weaken; [|apply hex_escape_shrinks]. lia.
Qed.

Lemma strict_string_loop_shrinks fuel out p :
  (length (p_rest p) < fuel)%nat -> shrinks (length (p_rest p)) (string_loop fuel out p).
Proof.
  revert out p. induction fuel as [|fuel IH]; intros out p Hf; [lia|].
  cbn -[advance]. destruct (peek p) as [c|] eqn:Hp; [|done]. apply peek_Some in Hp.
  pose proof (advance_length 1 p) as Ha. set (q := advance 1 p) in *. clearbody q.
  destruct (c =? 0x22); [cbn; lia|]. destruct (c =? 0x5C).
  - eapply shrinks_bind; [apply strict_escape_shrinks|]. intros e p1 H1. eapply shrinks_weaken; [|apply IH]; lia.
  - destruct (c <? 0x20); [done|]. eapply shrinks_weaken; [|apply IH]; lia.
Qed.

Lemma string_shrinks p : shrinks (length (p_rest p)) (string_ p).
Proof.
  unfold string_. eapply shrinks_bind; [apply expect_shrinks|]. intros _ q Hq. eapply shrinks_weaken; [|apply strict_string_loop_shrinks]; lia.
Qed.

Lemma strict_number_shrinks p c : peek p = Some c -> is_ascii_digit c || (c =? 0x2D) = true -> shrinks (length (p_rest p)) (number p).
Proof.
  intros Hp Hc. unfold number. set (q := skip_while _ _). assert (length (p_rest q) < length (p_rest p))%nat as Hq.
  { unfold q, step_if. rewrite Hp. pose proof (peek_Some _ _ Hp). destruct (Z.eqb_spec 0x2D c) as [<-|Hne]; cbn [snd].
    - pose proof (skip_while_length is_ascii_digit (advance 1 p)). rewrite advance_length in *. lia.
    - rewrite (proj2 (Z.eqb_neq c 0x2D)), orb_false_r in Hc by done. unfold skip_while. rewrite advance_length. unfold peek in Hp.
      destruct (p_rest p); [done|]. injection Hp as ->. cbn. rewrite Hc. cbn. lia. }
  clearbody q. destruct (_ || _ || _); [done|]. apply shrinks_ok_or; [done|intros text]. apply shrinks_ok_or; [done|intros n].
  destruct (n <? 0); [done|]. cbn. lia.
Qed.

Lemma strict_loops_shrink fuel :
  (forall p, (2 * length (p_rest p) + 1 <= fuel)%nat -> shrinks (length (p_rest p)) (value fuel p)) /\
  (forall out p, (2 * length (p_rest p) + 2 <= fuel)%nat -> shrinks (length (p_rest p)) (array_loop fuel out p)) /\
  (forall m p, (2 * length (p_rest p) + 2 <= fuel)%nat -> shrinks (length (p_rest p)) (object_loop fuel m p)).
Proof.
  induction fuel as [|fuel (IHv & IHa & IHo)]; [split_and!; intros; lia|]. split_and!.
  - intros p Hf. cbn -[advance ws expect string_ lit number]. destruct (peek p) as [c|] eqn:Hp; [|done].
    assert (peek p <> None) as Hn by congruence.
    do 2 (destruct (c =? _); [eapply shrinks_bind; [apply expect_shrinks|]; intros _ q Hq; pose proof (ws_length q); case_bool_decide;
      [cbn -[advance ws]; rewrite advance_length; lia|]; eapply shrinks_bind; [(apply IHo || apply IHa); lia|]; cbn -[ws advance]; lia|]).
    destruct (c =? 0x22); [eapply shrinks_bind; [apply string_shrinks|]; cbn; lia|].
    do 3 (destruct (c =? _); [eapply shrinks_bind; [by apply strict_lit_shrinks|]; cbn; lia|]).
    destruct (is_ascii_digit c || (c =? 0x2D)) eqn:Hc; [|done]. by eapply strict_number_shrinks.
  - intros out p Hf. cbn -[advance ws]. pose proof (ws_length p).
    eapply shrinks_bind; [apply IHv; lia|]. intros v p1 H1. pose proof (ws_length p1).
    apply (after_item _ _ 0x5D (array_loop fuel (out ++ [v])) (out ++ [v]) (fun _ => BadManifest "expected ',' or ']'")); [lia| |done].
    intros p2 H2. eapply shrinks_weaken; [|apply IHa]; lia.
  - intros m p Hf. cbn -[advance ws expect string_]. pose proof (ws_length p).
    eapply shrinks_bind; [apply string_shrinks|]. intros k p1 Hp1. pose proof (ws_length p1).
    eapply shrinks_bind; [apply expect_shrinks|]. intros _ p2 Hp2. pose proof (ws_length p2).
    eapply shrinks_bind; [apply IHv; lia|]. intros v p3 Hp3. pose proof (ws_length p3). case_bool_decide; [done|].
    apply (after_item _ _ 0x7D (object_loop fuel (map_insert k v m)) (map_insert k v m) (fun _ => BadManifest "expected ',' or '}'")); [lia| |done].
    intros p4 Hp4. eapply shrinks_weaken; [|apply IHo]; lia.
Qed.

(** Reading a text never panics, and the fuel of the model is enough. *)
Lemma parse_returns text : match parse text with Ok _ => True | Err e => e <> out_of_fuel | Panic => False end.
Proof.
  unfold parse. set (p := ws _). assert (length (p_rest p) <= length (utf8 text))%nat as Hp by apply ws_length.
  pose proof (proj1 (strict_loops_shrink (2 * length (utf8 text) + 1)) p ltac:(lia)) as H. unfold shrinks in H.
  destruct (value _ p) as [[v q]|e|]; cbn; [|done|done]. by destruct (negb _).
Qed.

(** * Strings *)
Definition ascii (s : list Z) : Prop := Forall (fun c => 0 <= c < 0x80) s.

Lemma ascii_scalar s : ascii s -> Forall scalar s.
Proof. intros H. eapply Forall_impl; [exact H|]. unfold scalar. cbn. lia. Qed.

Definition control_back (c : Z) : bool :=
  bool_decide (from_utf8 (fmt_04x c) = Some (fmt_04x c)) && bool_decide (u32_from_hex (utf8 (fmt_04x c)) = Some c).

Lemma hex_escape_control c pos r : 0 <= c < 0x20 ->
  hex_escape {| p_pos := pos; p_rest := fmt_04x c ++ r |} = Ok (c, {| p_pos := pos + 4; p_rest := r |}).
Proof.
  intros Hc. assert (forallb control_back (seqZ 0 32) = true) as H by (vm_compute; reflexivity). rewrite forallb_forall in H.
  specialize (H c). rewrite <- list_elem_of_In, elem_of_seqZ in H. specialize (H ltac:(lia)).
  apply andb_true_iff in H as [H1%bool_decide_eq_true H2%bool_decide_eq_true].
  unfold hex_escape. cbn [p_rest p_pos]. change (take 4 (fmt_04x c ++ r)) with (fmt_04x c).
  rewrite (proj2 (Nat.ltb_ge _ _)) by (rewrite length_app; cbn; lia). rewrite H1. cbn [ok_or mbind outcome_bind]. rewrite H2.
  cbn [ok_or mbind outcome_bind]. unfold char_from_u32. rewrite decide_True by (unfold scalar; lia). done.
Qed.

Lemma escaped_pair c x fuel out pos r : escape {| p_pos := pos + 1; p_rest := x :: r |} = Ok (c, advance 1 {| p_pos := pos + 1; p_rest := x :: r |}) ->
  string_loop (S fuel) out {| p_pos := pos; p_rest := [0x5C; x] ++ r |}
  = string_loop fuel (out ++ [c]) {| p_pos := pos + 2; p_rest := r |}.
Proof.
  intros He. cbn [app string_loop]. unfold peek. cbn [p_rest head]. cbn [Z.eqb Pos.eqb]. rewrite advance_1, He. cbn [mbind outcome_bind].
  rewrite advance_1. by replace (pos + 1 + 1) with (pos + 2) by lia.
Qed.

Lemma strict_string_loop_char c fuel out pos r : 0 <= c < 0x80 ->
  string_loop (S fuel) out {| p_pos := pos; p_rest := json_char c ++ r |}
  = string_loop fuel (out ++ [c]) {| p_pos := pos + Zlen (json_char c); p_rest := r |}.
Proof.
  intros Hc. unfold json_char.
  destruct (Z.eqb_spec c 0x22) as [->|N1]; [by apply escaped_pair|]. destruct (Z.eqb_spec c 0x5C) as [->|N2]; [by apply escaped_pair|].
  destruct (Z.eqb_spec c 0x0A) as [->|N3]; [by apply escaped_pair|]. destruct (Z.eqb_spec c 0x0D) as [->|N4]; [by apply escaped_pair|].
  destruct (Z.eqb_spec c 0x09) as [->|N5]; [by apply escaped_pair|]. destruct (Z.ltb_spec c 0x20) as [Hlt|Hge].
  - rewrite <- app_assoc. cbn [app string_loop]. unfold peek. cbn [p_rest head Z.eqb Pos.eqb]. rewrite advance_1.
    unfold escape, peek. cbn [p_rest head Z.eqb Pos.eqb orb]. rewrite advance_1, hex_escape_control by lia.
    cbn [mbind outcome_bind]. do 2 f_equal. change (length _) with 6%nat. lia.
  - cbn [app string_loop]. unfold peek. cbn [p_rest head]. rewrite (proj2 (Z.eqb_neq c 0x22)), (proj2 (Z.eqb_neq c 0x5C)) by done.
    rewrite (proj2 (Z.ltb_ge c 0x20)) by done. done.
Qed.

Lemma strict_string_loop_write s : ascii s -> forall fuel out pos r, (length s < fuel)%nat ->
  string_loop fuel out {| p_pos := pos; p_rest := concat (json_char <$> s) ++ 0x22 :: r |}
  = Ok (out ++ s, {| p_pos := pos + Zlen (concat (json_char <$> s)) + 1; p_rest := r |}).
Proof.
  induction 1 as [|c s Hc Hs IH]; intros fuel out pos r Hf; (destruct fuel as [|fuel]; [cbn in Hf; lia|]); cbn [fmap list_fmap concat].
  - cbn [app string_loop]. unfold peek. cbn [p_rest head Z.eqb Pos.eqb]. rewrite advance_1, app_nil_r. cbn [length Z.of_nat]. by rewrite Z.add_0_r.
  - rewrite <- app_assoc, strict_string_loop_char by done. rewrite IH by (cbn in Hf; lia). rewrite <- app_assoc, length_app. do 3 f_equal. lia.
Qed.

Lemma string_write s pos r : ascii s ->
  string_ {| p_pos := pos; p_rest := json_str s ++ r |} = Ok (s, {| p_pos := pos + Zlen (json_str s); p_rest := r |}).
Proof.
  intros Hs. unfold string_, json_str, expect. rewrite <- !app_assoc. cbn [app peek p_rest head]. rewrite bool_decide_true by done.
  cbn [mbind outcome_bind]. rewrite advance_1. cbn [p_rest]. rewrite strict_string_loop_write; [|done|].
  - cbn [app length]. rewrite length_app. cbn [length]. do 3 f_equal. lia.
  - rewrite length_app. assert (length s <= length (concat (json_char <$> s)))%nat; [|lia].
    clear. induction s as [|c s IH]; [done|]. cbn [fmap list_fmap concat length]. rewrite length_app.
    assert (1 <= length (json_char c))%nat; [|lia]. unfold json_char. repeat destruct (_ : bool); cbn; lia.
Qed.

(** * Values *)

(** [t] is read as [v], before a byte that does not go on a number. *)
Definition reads (v : Json) (t : list Z) : Prop :=
  (forall fuel pos r, (2 * length t + 1 <= fuel)%nat -> ends number_byte r ->
     value fuel {| p_pos := pos; p_rest := t ++ r |} = Ok (v, {| p_pos := pos + Zlen t; p_rest := r |})) /\
  (exists c l, t = c :: l /\ is_ws c = false /\ c <> 0x5D).

Lemma strict_reads_str s : ascii s -> reads (Str s) (json_str s).
Proof.
  intros Hs. split; [|by exists 0x22, (concat (json_char <$> s) ++ [0x22])]. intros fuel pos r Hf _. destruct fuel as [|fuel]; [lia|].
  cbn [value]. unfold peek. cbn -[string_ json_str]. change (match json_str s ++ r with [] => None | x :: _ => Some x end) with (Some 0x22).
  cbn [Z.eqb Pos.eqb]. by rewrite string_write.
Qed.

Lemma dec_digits_more a n : 0 <= n < 10 ^ Z.of_nat (S a) -> dec_digits (S (S a)) n = dec_digits (S a) n.
Proof.
  revert n. induction a as [|a IH]; intros n Hn.
  - change (10 ^ Z.of_nat 1) with 10 in Hn. cbn [dec_digits]. by rewrite (proj2 (Z.ltb_lt n 10)) by lia.
  - change (dec_digits (S (S (S a))) n) with (if n <? 10 then [0x30 + n] else dec_digits (S (S a)) (n / 10) ++ [0x30 + n mod 10]).
    rewrite IH; [done|]. rewrite Nat2Z.inj_succ, Z.pow_succ_r in Hn by lia.
    split; [apply Z.div_pos; lia|apply Z.div_lt_upper_bound; lia].
Qed.

Lemma u64_text n : 0 <= n < 2 ^ 63 -> u64_to_string n = i64_to_string n /\ in_i64 n = true.
Proof.
  intros Hn. unfold u64_to_string, i64_to_string, in_i64. rewrite (proj2 (Z.ltb_ge n 0)) by lia.
  rewrite dec_digits_more by (change (10 ^ Z.of_nat 19) with 10000000000000000000; lia).
  split; [done|]. rewrite (proj2 (Z.leb_le _ _)), (proj2 (Z.ltb_lt _ _)) by lia. done.
Qed.

Lemma reads_u64 n : 0 <= n < 2 ^ 63 -> reads (U64 n) (u64_to_string n).
Proof.
  intros Hn. destruct (u64_text n Hn) as [Heq Hin].
  pose proof (dec_digits_digits 20 n ltac:(lia)) as Hd. pose proof (dec_digits_ne 20 n ltac:(done)) as Hne. fold (u64_to_string n) in Hd, Hne.
  assert (exists c l, u64_to_string n = c :: l /\ is_ascii_digit c = true) as (c & l & Hcl & Hc).
  { destruct (u64_to_string n) as [|c l]; [done|]. inversion Hd; subst. eauto. }
  split.
  2: { exists c, l. split; [done|]. apply digit_range in Hc. unfold is_ws. rewrite !orb_false_iff, !Z.eqb_neq. lia. }
  intros fuel pos r Hf Hr. destruct fuel as [|fuel]; [lia|].
  transitivity (number {| p_pos := pos; p_rest := u64_to_string n ++ r |}).
  { rewrite Hcl. cbn [value]. unfold peek at 1. cbn [p_rest app head]. pose proof Hc as Hc'. apply digit_range in Hc.
    do 6 (rewrite (proj2 (Z.eqb_neq c _)) by lia). by rewrite Hc'. }
  unfold number. destruct (sign_step [] (u64_to_string n) r pos) as [neg Hs]; [by left|done|done|]. cbn [app] in Hs. rewrite Hs.
  cbn [snd length Z.of_nat]. rewrite Z.add_0_r, skip_while_app by (done || (eapply ends_weaken; [|exact Hr]; intros b Hb%number_byte_split; tauto)).
  assert (forall k, (k = 0x2E \/ k = 0x65 \/ k = 0x45) -> bool_decide (peek {| p_pos := pos + Zlen (u64_to_string n); p_rest := r |} = Some k) = false) as Hk.
  { intros k Hk. apply bool_decide_false. unfold peek. cbn. destruct r as [|b r]; [done|]. cbn in *. apply number_byte_split in Hr.
    rewrite !Z.eqb_neq in Hr. intros [= ->]. lia. }
  rewrite !Hk by auto. cbn [orb p_pos p_rest]. rewrite text_taken, ascii_text by (done || by apply digits_ascii).
  cbn [ok_or mbind outcome_bind]. rewrite Heq, parse_i64_to_string by done. cbn [ok_or mbind outcome_bind].
  by rewrite (proj2 (Z.ltb_ge n 0)) by lia.
Qed.

(** ** Items and entries *)
Definition space (w : list Z) : Prop := Forall (fun b => is_ws b = true) w.

Lemma ws_space w pos r : space w -> ends is_ws r ->
  ws {| p_pos := pos; p_rest := w ++ r |} = {| p_pos := pos + Zlen w; p_rest := r |}.
Proof. apply skip_while_app. Qed.

Lemma ws_not_number b : is_ws b = true -> number_byte b = false.
Proof.
  unfold is_ws, number_byte, is_ascii_digit, between. intros H. rewrite !orb_true_iff, !Z.eqb_eq in H.
  destruct H as [[[ -> | -> ] | -> ] | -> ]; done.
Qed.

Lemma space_ends w c r : space w -> number_byte c = false -> ends number_byte (w ++ c :: r).
Proof. intros Hw Hc. destruct Hw as [|b w Hb Hw]; [done|]. by apply ws_not_number. Qed.

(** A value with the white space before and after it. *)
Record piece := { pc_before : list Z; pc_value : Json; pc_text : list Z; pc_after : list Z }.
Definition piece_ok (p : piece) : Prop := space (pc_before p) /\ space (pc_after p) /\ reads (pc_value p) (pc_text p).
Definition piece_text (p : piece) : list Z := pc_before p ++ pc_text p ++ pc_after p.

Lemma reads_ends t v r : reads v t -> ends is_ws (t ++ r).
Proof. intros [_ (c & l & -> & Hw & _)]. exact Hw. Qed.

Lemma strict_array_loop_reads ps : forall p fuel acc pos r, Forall piece_ok (p :: ps) ->
  (2 * length (separated [0x2C%Z] (piece_text <$> p :: ps)) + 2 <= fuel)%nat ->
  array_loop fuel acc {| p_pos := pos; p_rest := separated [0x2C] (piece_text <$> p :: ps) ++ 0x5D :: r |}
  = Ok (acc ++ (pc_value <$> p :: ps), {| p_pos := pos + Zlen (separated [0x2C] (piece_text <$> p :: ps)) + 1; p_rest := r |}).
Proof.
  induction ps as [|q ps IH]; intros p fuel acc pos r Hok Hf; apply Forall_cons in Hok as [(Hb & Ha & Hr) Hok];
    (destruct fuel as [|fuel]; [lia|]).
  - cbn [fmap list_fmap separated concat] in *. rewrite app_nil_r in *. unfold piece_text in *. rewrite <- !app_assoc.
    cbn [array_loop]. rewrite !length_app in *. rewrite ws_space by (done || by eapply reads_ends).
    rewrite (proj1 Hr) by (lia || by apply space_ends). cbn [mbind outcome_bind].
    rewrite ws_space by done. cbn [peek p_rest head Z.eqb Pos.eqb]. rewrite advance_1. do 3 f_equal. lia.
  - specialize (IH q). change (piece_text <$> p :: q :: ps) with (piece_text p :: piece_text q :: (piece_text <$> ps)) in *.
    rewrite separated_cons2 in *. change (piece_text <$> q :: ps) with (piece_text q :: (piece_text <$> ps)) in IH.
    set (rest := separated [0x2C] (piece_text q :: (piece_text <$> ps))) in *. clearbody rest.
    unfold piece_text in Hf |- *. rewrite <- !app_assoc. rewrite !length_app in *.
    cbn [array_loop]. cbn [app length] in *. rewrite ws_space by (done || by eapply reads_ends).
    rewrite (proj1 Hr) by (lia || by apply space_ends). cbn [mbind outcome_bind].
    rewrite ws_space by done. cbn [peek p_rest head Z.eqb Pos.eqb]. rewrite advance_1.
    rewrite IH by (done || lia). rewrite <- app_assoc. do 3 f_equal. lia.
Qed.

Lemma strict_value_array fuel pos r : value (S fuel) {| p_pos := pos; p_rest := 0x5B :: r |} =
  let p := ws {| p_pos := pos + 1; p_rest := r |} in
  if bool_decide (peek p = Some 0x5D) then Ok (Array [], advance 1 p)
  else '(items, p) ← array_loop fuel [] p; Ok (Array items, p).
Proof. done. Qed.

Lemma strict_value_object fuel pos r : value (S fuel) {| p_pos := pos; p_rest := 0x7B :: r |} =
  let p := ws {| p_pos := pos + 1; p_rest := r |} in
  if bool_decide (peek p = Some 0x7D) then Ok (Object [], advance 1 p)
  else '(m, p) ← object_loop fuel [] p; Ok (Object m, p).
Proof. done. Qed.

Lemma reads_empty_array w : space w -> reads (Array []) ([0x5B] ++ w ++ [0x5D]).
Proof.
  intros Hw. split; [|by exists 0x5B, (w ++ [0x5D])]. intros fuel pos r Hf Hr. destruct fuel as [|fuel]; [lia|].
  rewrite <- !app_assoc. cbn [app]. rewrite strict_value_array. cbv zeta. rewrite ws_space by done. rewrite bool_decide_true by done.
  rewrite advance_1. cbn [app length]. rewrite length_app. cbn [length]. do 3 f_equal. lia.
Qed.

Lemma loop_skips fuel acc w pos t r : space w -> ends is_ws (t ++ r) ->
  array_loop (S fuel) acc {| p_pos := pos + Zlen w; p_rest := t ++ r |} = array_loop (S fuel) acc {| p_pos := pos; p_rest := w ++ t ++ r |}.
Proof. intros Hw Ht. cbn [array_loop]. rewrite (ws_space w) by done. by rewrite ws_none. Qed.

Lemma strict_reads_array ps : ps <> [] -> Forall piece_ok ps ->
  reads (Array (pc_value <$> ps)) ([0x5B] ++ separated [0x2C] (piece_text <$> ps) ++ [0x5D]).
Proof.
  intros Hne Hok. split; [|by eexists 0x5B, _]. intros fuel pos r Hf Hr. destruct ps as [|p ps]; [done|].
  destruct fuel as [|[|fuel]]; [lia|rewrite !length_app in Hf; cbn in Hf; lia|].
  pose proof (strict_array_loop_reads ps p (S fuel) [] (pos + 1) r Hok) as Hloop.
  assert (exists t, separated [0x2C] (piece_text <$> p :: ps) = pc_before p ++ pc_text p ++ t) as [t Ht].
  { cbn [fmap list_fmap separated]. unfold piece_text at 1. rewrite <- !app_assoc. by eexists. }
  apply Forall_cons in Hok as [(Hb & Ha & Hrd) Hok]. pose proof (proj2 Hrd) as (c & l & Htext & Hws & Hnb).
  rewrite <- !app_assoc. cbn [app]. rewrite strict_value_array. cbv zeta. rewrite !length_app in Hf. cbn [length] in Hf.
  specialize (Hloop ltac:(lia)). rewrite Ht, <- !app_assoc in *. rewrite ws_space by (done || by rewrite Htext).
  rewrite bool_decide_false by (rewrite Htext; cbn; congruence).
  rewrite loop_skips by (done || by rewrite Htext). rewrite Hloop. cbn [mbind outcome_bind app].
  rewrite !length_app. cbn [length]. rewrite !length_app. cbn [length]. do 3 f_equal. lia.
Qed.

(** An entry of an object: the key, a colon and a space, the value. *)
Record entry := { en_before : list Z; en_key : list Z; en_value : Json; en_text : list Z; en_after : list Z }.
Definition entry_ok (e : entry) : Prop :=
  space (en_before e) /\ space (en_after e) /\ ascii (en_key e) /\ reads (en_value e) (en_text e).
Definition entry_text (e : entry) : list Z := en_before e ++ json_str (en_key e) ++ [0x3A; 0x20] ++ en_text e ++ en_after e.
Definition entry_pair (e : entry) : list Z * Json := (en_key e, en_value e).

Lemma expect_yes c pos r : expect c {| p_pos := pos; p_rest := c :: r |} = Ok (tt, {| p_pos := pos + 1; p_rest := r |}).
Proof. unfold expect. by rewrite bool_decide_true. Qed.

Lemma quote_head s r : exists l, json_str s ++ r = 0x22 :: l.
Proof. by eexists. Qed.

(** One entry and the byte after it. *)
Lemma strict_object_loop_entry e fuel m pos b r : entry_ok e -> map_get (en_key e) m = None -> b = 0x2C \/ b = 0x7D ->
  (2 * length (entry_text e) + 1 <= fuel)%nat ->
  object_loop (S fuel) m {| p_pos := pos; p_rest := entry_text e ++ b :: r |} =
  let p := {| p_pos := pos + Zlen (entry_text e) + 1; p_rest := r |} in
  if b =? 0x2C then object_loop fuel (map_insert (en_key e) (en_value e) m) p
  else Ok (map_insert (en_key e) (en_value e) m, p).
Proof.
  intros (Hb & Ha & Hk & Hr) Hget Hbb Hf. unfold entry_text in *. rewrite <- !app_assoc. rewrite !length_app in *. cbn [length] in *.
  cbn [object_loop]. rewrite ws_space by (done || (destruct (quote_head (en_key e) ([0x3A; 0x20] ++ en_text e ++ en_after e ++ b :: r)) as [l ->]; done)).
  rewrite string_write by done. cbn [mbind outcome_bind app]. rewrite ws_none by done.
  rewrite expect_yes. cbn [mbind outcome_bind].
  change (0x20 :: en_text e ++ en_after e ++ b :: r) with ([0x20] ++ en_text e ++ en_after e ++ b :: r).
  rewrite ws_space by ((by repeat constructor) || by eapply reads_ends).
  rewrite (proj1 Hr) by (lia || (apply space_ends; [done|]; by destruct Hbb as [-> | ->])).
  cbn [mbind outcome_bind]. rewrite bool_decide_false by (rewrite Hget; by intros [? ?]).
  rewrite ws_space by (done || by destruct Hbb as [-> | ->]). cbn [peek p_rest head]. rewrite advance_1. cbn [length].
  cbv zeta. replace (pos + _ + _ + 1 + _ + _ + _ + 1) with
    (pos + Z.of_nat (length (en_before e) + (length (json_str (en_key e)) + S (S (length (en_text e) + length (en_after e))))) + 1) by lia.
  by destruct Hbb as [-> | ->].
Qed.

Lemma strict_object_loop_reads es : forall e fuel m pos r, Forall entry_ok (e :: es) -> keys_scalar m ->
  NoDup (en_key <$> e :: es) -> Forall (fun e => map_get (en_key e) m = None) (e :: es) ->
  (2 * length (separated [0x2C%Z] (entry_text <$> e :: es)) + 2 <= fuel)%nat ->
  object_loop fuel m {| p_pos := pos; p_rest := separated [0x2C] (entry_text <$> e :: es) ++ 0x7D :: r |}
  = Ok (foldl (fun m e => map_insert e.1 e.2 m) m (entry_pair <$> e :: es),
        {| p_pos := pos + Zlen (separated [0x2C] (entry_text <$> e :: es)) + 1; p_rest := r |}).
Proof.
  induction es as [|e' es IH]; intros e fuel m pos r Hok Hm Hnd Hget Hf; apply Forall_cons in Hok as [He Hok];
    apply Forall_cons in Hget as [Hg Hget]; (destruct fuel as [|fuel]; [lia|]).
  - cbn [fmap list_fmap separated concat] in *. rewrite app_nil_r in *. rewrite strict_object_loop_entry by (done || lia || auto). done.
  - specialize (IH e'). change (entry_text <$> e :: e' :: es) with (entry_text e :: entry_text e' :: (entry_text <$> es)) in *.
    rewrite separated_cons2 in *. change (entry_text <$> e' :: es) with (entry_text e' :: (entry_text <$> es)) in IH.
    set (rest := separated [0x2C] (entry_text e' :: (entry_text <$> es))) in *. clearbody rest.
    rewrite !length_app in *. cbn [length] in *. rewrite <- !app_assoc. cbn [app]. rewrite strict_object_loop_entry by (done || lia || auto).
    cbv zeta. cbn [Z.eqb Pos.eqb]. change (en_key <$> e :: e' :: es) with (en_key e :: (en_key <$> e' :: es)) in Hnd.
    apply NoDup_cons in Hnd as [Hni Hnd]. rewrite IH; [|done| |done| |lia].
    + cbn [fmap list_fmap foldl fst snd entry_pair]. do 3 f_equal. lia.
    + apply insert_scalar; [|done]. apply ascii_scalar, He.
    + apply Forall_lookup_2. intros i e2 Hi. rewrite map_get_insert; [|apply ascii_scalar, He| |done].
      * rewrite bool_decide_false; [by eapply Forall_lookup_1 in Hget|]. intros Heq. apply Hni. rewrite Heq.
        apply list_elem_of_fmap. exists e2. split; [done|]. by eapply list_elem_of_lookup_2.
      * eapply Forall_lookup_1 in Hok; [|done]. apply ascii_scalar, Hok.
Qed.

Lemma strict_reads_object es : es <> [] -> Forall entry_ok es -> NoDup (en_key <$> es) ->
  reads (Object (of_entries (entry_pair <$> es))) ([0x7B] ++ separated [0x2C] (entry_text <$> es) ++ [0x7D]).
Proof.
  intros Hne Hok Hnd. split; [|by eexists 0x7B, _]. intros fuel pos r Hf Hr. destruct es as [|e es]; [done|].
  destruct fuel as [|[|fuel]]; [lia|rewrite !length_app in Hf; cbn in Hf; lia|].
  pose proof (strict_object_loop_reads es e (S fuel) [] (pos + 1) r Hok) as Hloop. rewrite !length_app in Hf. cbn [length] in Hf.
  specialize (Hloop ltac:(constructor) Hnd ltac:(by apply Forall_forall) ltac:(lia)).
  assert (exists t, separated [0x2C] (entry_text <$> e :: es) = en_before e ++ 0x22 :: t) as [t Ht].
  { cbn [fmap list_fmap separated]. unfold entry_text at 1. unfold json_str. rewrite <- !app_assoc. by eexists. }
  apply Forall_cons in Hok as [(Hb & _) _]. rewrite <- !app_assoc. cbn [app]. rewrite strict_value_object. cbv zeta.
  rewrite Ht, <- !app_assoc in *. cbn [app] in *. rewrite ws_space by done. rewrite bool_decide_false by done.
  assert (object_loop (S fuel) [] {| p_pos := pos + 1 + Zlen (en_before e); p_rest := 0x22 :: t ++ 0x7D :: r |}
    = object_loop (S fuel) [] {| p_pos := pos + 1; p_rest := en_before e ++ 0x22 :: t ++ 0x7D :: r |}) as ->.
  { cbn [object_loop]. rewrite ws_space by done. by rewrite ws_none. }
  rewrite Hloop. cbn [mbind outcome_bind]. unfold of_entries. rewrite !length_app. cbn [length]. rewrite !length_app. cbn [length].
  rewrite length_app. cbn [length]. do 3 f_equal. lia.
Qed.

(** A whole text of white space, a value and white space. *)
Lemma parse_reads v t w : reads v t -> ascii (t ++ w) -> space w -> parse (t ++ w) = Ok v.
Proof.
  intros Hr Ha Hw. unfold parse. rewrite ascii_utf8 by done. rewrite ws_none by (by eapply reads_ends).
  rewrite (proj1 Hr); [|rewrite length_app; lia|].
  - cbn [mbind outcome_bind]. rewrite <- (app_nil_r w), ws_space by done. cbn [p_pos]. rewrite app_nil_r, length_app.
    by rewrite (proj2 (Z.eqb_eq _ _)) by lia.
  - destruct Hw as [|b w Hb Hw]; [done|]. by apply ws_not_number.
Qed.
