(* ===== verification/Manifest.v ===== *)
(** The sha manifest of the repacked slices (src/crates/mimo26-repack/src/manifest.rs): its
    pinned JSON text, the reader that validates it and the source tensors of an expert.
    A [String] is the list of its scalar values and an error's message leaves out the
    values it quotes. *)
From Stdlib Require Import ZArith Lia Bool.
From stdpp Require Import base list gmap strings.
From S2P Require Import Prelude Utf8 Scan RepackGeom RepackJson Sha256.

(** * Definitions *)

Definition FORMAT : list Z := str "mimo26-repack-manifest".
Definition VERSION : Z := 2.

Record SourceTensor := mkSourceTensor { st_name : list Z; st_shape : list Z; st_dtype : list Z }.

Record SliceEntry := mkSliceEntry {
  se_file : list Z; se_sha256 : list Z; se_bytes : Z; se_layer : Z; se_expert : Z; se_rank : Z;
  se_shard : list Z; se_tensors : list SourceTensor }.

Record LayoutEntry := mkLayoutEntry { le_proj : list Z; le_region : list Z; le_off : Z; le_len : Z }.

(** [geometry] holds the entries of the [BTreeMap] in key order. *)
Record Manifest := mkManifest {
  mf_format : list Z; mf_version : Z; mf_generated_by : list Z; mf_geometry : list (list Z * Z);
  mf_layout : list LayoutEntry; mf_slices : list SliceEntry }.

#[export] Instance SourceTensor_eq_dec : EqDecision SourceTensor.
Proof. solve_decision. Defined.
#[export] Instance SliceEntry_eq_dec : EqDecision SliceEntry.
Proof. solve_decision. Defined.

(** The pairs of [new] and of [validate_geometry]. *)
Definition geometry_want : list (list Z * Z) :=
  [(str "hidden", HIDDEN); (str "intermediate", INTERMEDIATE); (str "experts_per_layer", EXPERTS_PER_LAYER);
   (str "moe_layers", MOE_LAYERS); (str "ep_ranks", EP_RANKS); (str "expert_bytes", EXPERT_BYTES);
   (str "quarter_slice_bytes", QUARTER_SLICE_BYTES)].

Definition layout_entry (r : LayoutRow) : LayoutEntry :=
  mkLayoutEntry (str (Proj_name (lr_proj r))) (str (lr_region r)) (lr_off r) (lr_len r).

Definition Manifest_new : Manifest :=
  mkManifest FORMAT VERSION (str "mimo26-repack 0.1.0") (of_entries geometry_want) (layout_entry <$> layout_table) [].

Definition push (m : Manifest) (entry : SliceEntry) : Manifest :=
  mkManifest (mf_format m) (mf_version m) (mf_generated_by m) (mf_geometry m) (mf_layout m)
    (sort_by (fun a b => str_cmp (se_file a) (se_file b)) (mf_slices m ++ [entry])).

Definition get (m : Manifest) (file : list Z) : option SliceEntry :=
  List.find (fun s => bool_decide (se_file s = file)) (mf_slices m).

(** ** The text *)

(** A literal in quotes, the text of an indentation and the end of a line. *)
Definition quoted (s : string) : list Z := [0x22] ++ str s ++ [0x22].
Definition spaces (n : nat) : list Z := replicate n 0x20.
Definition nl : list Z := [0x0A].

(** One line for each element, with a comma after every one but the last. *)
Definition comma_lines {A} (line : A -> list Z) (l : list A) : list Z :=
  concat (imap (fun i x => line x ++ (if Nat.eqb (i + 1) (length l) then [] else [0x2C]) ++ nl) l).

Definition tensor_text (t : SourceTensor) : list Z :=
  [0x7B] ++ quoted "name" ++ str ": " ++ json_str (st_name t) ++ str ", "
  ++ quoted "shape" ++ str ": " ++ [0x5B] ++ separated (str ", ") (u64_to_string <$> st_shape t) ++ [0x5D] ++ str ", "
  ++ quoted "dtype" ++ str ": " ++ json_str (st_dtype t) ++ [0x7D].

Definition layout_text (r : LayoutEntry) : list Z :=
  [0x7B] ++ quoted "proj" ++ str ": " ++ json_str (le_proj r) ++ str ", "
  ++ quoted "region" ++ str ": " ++ json_str (le_region r) ++ str ", "
  ++ quoted "off" ++ str ": " ++ u64_to_string (le_off r) ++ str ", "
  ++ quoted "len" ++ str ": " ++ u64_to_string (le_len r) ++ [0x7D].

Definition geometry_text (e : list Z * Z) : list Z := json_str (fst e) ++ str ": " ++ u64_to_string (snd e).

Definition slice_text (e : SliceEntry) : list Z :=
  [0x7B] ++ nl
  ++ spaces 6 ++ quoted "file" ++ str ": " ++ json_str (se_file e) ++ [0x2C] ++ nl
  ++ spaces 6 ++ quoted "sha256" ++ str ": " ++ json_str (se_sha256 e) ++ [0x2C] ++ nl
  ++ spaces 6 ++ quoted "bytes" ++ str ": " ++ u64_to_string (se_bytes e) ++ [0x2C] ++ nl
  ++ spaces 6 ++ quoted "layer" ++ str ": " ++ u64_to_string (se_layer e) ++ [0x2C] ++ nl
  ++ spaces 6 ++ quoted "expert" ++ str ": " ++ u64_to_string (se_expert e) ++ [0x2C] ++ nl
  ++ spaces 6 ++ quoted "rank" ++ str ": " ++ u64_to_string (se_rank e) ++ [0x2C] ++ nl
  ++ spaces 6 ++ quoted "source" ++ str ": " ++ [0x7B] ++ nl
  ++ spaces 8 ++ quoted "shard" ++ str ": " ++ json_str (se_shard e) ++ [0x2C] ++ nl
  ++ spaces 8 ++ quoted "tensors" ++ str ": " ++ [0x5B] ++ nl
  ++ comma_lines (fun t => spaces 10 ++ tensor_text t) (se_tensors e)
  ++ spaces 8 ++ [0x5D] ++ nl
  ++ spaces 6 ++ [0x7D] ++ nl
  ++ spaces 4 ++ [0x7D].

Definition to_json (m : Manifest) : list Z :=
  [0x7B] ++ nl
  ++ spaces 2 ++ quoted "format" ++ str ": " ++ json_str (mf_format m) ++ [0x2C] ++ nl
  ++ spaces 2 ++ quoted "version" ++ str ": " ++ u64_to_string (mf_version m) ++ [0x2C] ++ nl
  ++ spaces 2 ++ quoted "generated_by" ++ str ": " ++ json_str (mf_generated_by m) ++ [0x2C] ++ nl
  ++ spaces 2 ++ quoted "geometry" ++ str ": " ++ [0x7B] ++ nl
  ++ comma_lines (fun e => spaces 4 ++ geometry_text e) (mf_geometry m)
  ++ spaces 2 ++ [0x7D; 0x2C] ++ nl
  ++ spaces 2 ++ quoted "layout" ++ str ": " ++ [0x5B] ++ nl
  ++ comma_lines (fun r => spaces 4 ++ layout_text r) (mf_layout m)
  ++ spaces 2 ++ [0x5D; 0x2C] ++ nl
  ++ spaces 2 ++ quoted "slices" ++ str ": " ++ [0x5B] ++ nl
  ++ comma_lines (fun e => spaces 4 ++ slice_text e) (mf_slices m)
  ++ spaces 2 ++ [0x5D] ++ nl
  ++ [0x7D] ++ nl.

(** ** Reading *)

#[local] Abbreviation result := (outcome RepackError).

(** [o.get(k).and_then(..).ok_or_else(..)] *)
Definition field {A} (as_ : Json -> option A) (o : list (list Z * Json)) (k missing : string) : result A :=
  ok_or (map_get (str k) o ≫= as_) (BadManifest missing).

Definition leak (s : list Z) : string :=
  if bool_decide (s = str "hidden") then "hidden"
  else if bool_decide (s = str "intermediate") then "intermediate"
  else if bool_decide (s = str "experts_per_layer") then "experts_per_layer"
  else if bool_decide (s = str "moe_layers") then "moe_layers"
  else if bool_decide (s = str "ep_ranks") then "ep_ranks"
  else if bool_decide (s = str "expert_bytes") then "expert_bytes"
  else if bool_decide (s = str "quarter_slice_bytes") then "quarter_slice_bytes"
  else "geometry".

Definition check_field (geometry : list (list Z * Z)) (fw : list Z * Z) : result unit :=
  got ← ok_or (map_get (fst fw) geometry) (BadManifest "geometry missing a field");
  if negb (got =? snd fw) then Err (GeometryMismatch (leak (fst fw)) (snd fw) got) else Ok tt.

Definition check_row (gw : LayoutEntry * LayoutRow) : result unit :=
  let '(got, want) := gw in
  if negb (bool_decide (le_proj got = str (Proj_name (lr_proj want)))) || negb (bool_decide (le_region got = str (lr_region want)))
     || negb (le_off got =? lr_off want) || negb (le_len got =? lr_len want)
  then Err (BadManifest "layout row drift") else Ok tt.

Definition validate_geometry (m : Manifest) : result unit :=
  if negb (bool_decide (mf_format m = FORMAT)) || negb (mf_version m =? VERSION) then
    Err (BadManifest "layout version or format; repack required")
  else
    _ ← for_each (check_field (mf_geometry m)) geometry_want;
    if negb (Nat.eqb (length (mf_layout m)) (length layout_table)) then Err (BadManifest "layout has the wrong number of rows")
    else for_each check_row (zip (mf_layout m) layout_table).

Definition parse_tensor (t : Json) : result SourceTensor :=
  o ← ok_or (as_object t) (BadManifest "tensor entry is not an object");
  name ← field as_str o "name" "tensor missing name";
  shape ← field as_array o "shape" "tensor missing shape";
  dtype ← field as_str o "dtype" "tensor missing dtype";
  Ok (mkSourceTensor name ((fun d => default (2 ^ 64 - 1) (as_u64 d)) <$> shape) dtype).

Definition parse_slice_entry (v : Json) : result SliceEntry :=
  o ← ok_or (as_object v) (BadManifest "slice entry is not an object");
  file ← field as_str o "file" "slice entry missing file";
  sha ← field as_str o "sha256" "slice entry missing sha256";
  _ ← map_err (fun _ => BadManifest "bad sha256") (unhex sha);
  bytes ← field as_u64 o "bytes" "slice entry missing bytes";
  layer ← field as_u64 o "layer" "slice entry missing layer";
  expert ← field as_u64 o "expert" "slice entry missing expert";
  rank ← field as_u64 o "rank" "slice entry missing rank";
  source ← field as_object o "source" "missing source";
  shard ← field as_str source "shard" "source missing shard";
  tensors ← field as_array source "tensors" "source missing tensors";
  tensors ← mapM parse_tensor tensors;
  Ok (mkSliceEntry file sha bytes layer expert rank shard tensors).

Definition parse_layout_row (e : Json) : result LayoutEntry :=
  o ← ok_or (as_object e) (BadManifest "layout row is not an object");
  proj ← field as_str o "proj" "layout row missing proj";
  region ← field as_str o "region" "layout row missing region";
  off ← field as_u64 o "off" "layout row missing off";
  len ← field as_u64 o "len" "layout row missing len";
  Ok (mkLayoutEntry proj region off len).

(** [geom_map.insert(k.clone(), n)] *)
Definition geometry_entry (geom_map : list (list Z * Z)) (kv : list Z * Json) : result (list (list Z * Z)) :=
  n ← ok_or (as_u64 (snd kv)) (BadManifest "a geometry field is not a number");
  Ok (map_insert (fst kv) n geom_map).

Definition parse (text : list Z) : result Manifest :=
  v ← RepackJson.parse text;
  obj ← ok_or (as_object v) (BadManifest "top level is not an object");
  format ← field as_str obj "format" "missing format";
  if negb (bool_decide (format = FORMAT)) then Err (BadManifest "format is another") else
  version ← field as_u64 obj "version" "missing version";
  if negb (version =? VERSION) then Err (BadManifest "version is another") else
  let generated_by := default [] (map_get (str "generated_by") obj ≫= as_str) in
  geometry ← field as_object obj "geometry" "missing geometry";
  geom_map ← fold_try geometry_entry [] geometry;
  layout ← field as_array obj "layout" "missing layout";
  layout ← mapM parse_layout_row layout;
  slices ← field as_array obj "slices" "missing slices";
  slices ← mapM parse_slice_entry slices;
  let m := mkManifest format (version mod 2 ^ 32) generated_by geom_map layout slices in
  _ ← validate_geometry m;
  Ok m.

(** [Manifest::read]: the text of the file, or the error of reading it. *)
Definition read_manifest (path : string) (file : outcome string (list Z)) : result Manifest :=
  text ← map_err (Io path) file; parse text.

(** ** The source tensors of an expert *)
Definition source_tensor (layer expert : Z) (p : Proj) (scale : bool) : SourceTensor :=
  let shape := if scale then [out_rows p; in_cols p / 32] else [out_rows p; in_cols p / 2] in
  mkSourceTensor (str (tensor_name layer expert p scale)) shape (str "U8").

Definition source_tensors (layer expert : Z) : list SourceTensor :=
  concat ((fun p => source_tensor layer expert p <$> [false; true]) <$> Proj_ALL).
