(* ===== verification/ManifestProofs.v ===== *)
(** How the manifest's writer lays out a text: objects and arrays whose entries stand on
    one line or on a line each, as values that the reader reads back.

    A manifest that this build accepts comes back from its own text, and the texts this
    build writes are accepted. *)
From Stdlib Require Import ZArith Lia Bool Sorted.
From stdpp Require Import base list gmap strings.
From S2P Require Import Prelude RepackGeom Utf8 Scan Sha256 Sha256Proofs RepackJson RepackJsonProofs Manifest.

(** * Texts of values *)

(** [t] is ASCII and reads as [v]. *)
Definition writes (v : Json) (t : list Z) : Prop := reads v t /\ ascii t.

Lemma space_ascii w : space w -> ascii w.
Proof.
  intros Hw. eapply Forall_impl; [exact Hw|]. intros b Hb. unfold is_ws in Hb. rewrite !orb_true_iff, !Z.eqb_eq in Hb. cbn in *. lia.
Qed.

Lemma space_app w w' : space w -> space w' -> space (w ++ w').
Proof. apply Forall_app_2. Qed.

Lemma space_spaces n : space (spaces n).
Proof. apply Forall_replicate. done. Qed.

Lemma space_nl : space nl.
Proof. by repeat constructor. Qed.

Lemma space_nil : space [].
Proof. constructor. Qed.

Lemma space_blank : space [0x20].
Proof. by repeat constructor. Qed.

#[export] Hint Resolve space_app space_spaces space_nl space_nil space_blank : core.

Definition json_char_ascii (c : Z) : bool := forallb (fun d => (0 <=? d) && (d <? 0x80)) (json_char c).

Lemma json_str_ascii s : ascii s -> ascii (json_str s).
Proof.
  intros Hs. unfold json_str, ascii. rewrite !Forall_app. split_and!; [by repeat constructor| |by repeat constructor].
  induction Hs as [|c s Hc Hs IH]; [constructor|]. cbn [fmap list_fmap concat]. apply Forall_app. split; [|done].
  assert (forallb json_char_ascii (seqZ 0 0x80) = true) as H by (vm_compute; reflexivity). rewrite forallb_forall in H.
  specialize (H c). rewrite <- list_elem_of_In, elem_of_seqZ in H. specialize (H ltac:(lia)).
  apply List.Forall_forall. intros d Hd. unfold json_char_ascii in H. rewrite forallb_forall in H. specialize (H d Hd).
  apply andb_true_iff in H. rewrite Z.leb_le, Z.ltb_lt in H. done.
Qed.

Lemma writes_str s : ascii s -> writes (Str s) (json_str s).
Proof. split; [by apply strict_reads_str|by apply json_str_ascii]. Qed.

Lemma writes_u64 n : 0 <= n < 2 ^ 63 -> writes (U64 n) (u64_to_string n).
Proof. split; [by apply reads_u64|]. apply digits_ascii. apply dec_digits_digits. lia. Qed.

(** ** Joined texts *)
Lemma separated_ascii sep l : ascii sep -> Forall ascii l -> ascii (separated sep l).
Proof.
  intros Hsep Hl. induction Hl as [|x l Hx Hl IH]; [constructor|]. destruct l as [|y l]; [by rewrite <- (app_nil_r x) in Hx|].
  rewrite separated_cons2. unfold ascii in *. rewrite !Forall_app. done.
Qed.

(** A key with its value and the value's text. *)
#[local] Abbreviation fld := (list Z * Json * list Z)%type.
Definition field_text (f : fld) : list Z := json_str f.1.1 ++ [0x3A; 0x20] ++ f.2.
Definition field_ok (f : fld) : Prop := ascii f.1.1 /\ writes f.1.2 f.2.

Fixpoint entries_of (w0 w last : list Z) (l : list fld) : list entry :=
  match l with
  | [] => []
  | f :: l => {| en_before := w0; en_key := f.1.1; en_value := f.1.2; en_text := f.2;
                 en_after := match l with [] => last | _ => [] end |} :: entries_of w w last l
  end.

Lemma entries_text w last l : forall w0, l <> [] ->
  separated [0x2C] (entry_text <$> entries_of w0 w last l) = w0 ++ separated ([0x2C] ++ w) (field_text <$> l) ++ last.
Proof.
  induction l as [|f l IH]; intros w0 Hne; [done|]. destruct l as [|g l].
  - cbn [entries_of fmap list_fmap separated concat]. unfold entry_text, field_text. cbn [en_before en_key en_text en_after].
    rewrite !app_nil_r. by rewrite <- !app_assoc.
  - specialize (IH w ltac:(done)).
    change (entry_text <$> entries_of w0 w last (f :: g :: l)) with
      ((w0 ++ json_str f.1.1 ++ [0x3A; 0x20] ++ f.2 ++ []) :: (entry_text <$> entries_of w w last (g :: l))).
    change (field_text <$> f :: g :: l) with (field_text f :: field_text g :: (field_text <$> l)). rewrite separated_cons2.
    assert (exists y k, entry_text <$> entries_of w w last (g :: l) = y :: k) as (y & k & Hyk) by (cbn; eauto).
    rewrite Hyk in IH |- *. rewrite separated_cons2, IH. rewrite app_nil_r. unfold field_text. by rewrite <- !app_assoc.
Qed.

Lemma entries_of_ok w last l : space w -> space last -> Forall field_ok l -> forall w0, space w0 ->
  Forall entry_ok (entries_of w0 w last l).
Proof.
  intros Hw Hlast Hl. induction Hl as [|f l [Hk Hv] Hl IH]; intros w0 Hw0; [constructor|]. constructor; [|by apply IH].
  split_and!; try done; [|apply Hv]. destruct l; [done|constructor].
Qed.

Lemma entries_keys w last l : forall w0, en_key <$> entries_of w0 w last l = (fun f => f.1.1) <$> l.
Proof. induction l as [|f l IH]; intros w0; [done|]. cbn. by rewrite IH. Qed.

Lemma entries_pairs w last l : forall w0, entry_pair <$> entries_of w0 w last l = l.*1.
Proof. induction l as [|[[k v] t] l IH]; intros w0; [done|]. cbn. by rewrite IH. Qed.

Definition object_text (w0 w last : list Z) (l : list fld) : list Z :=
  [0x7B] ++ w0 ++ separated ([0x2C] ++ w) (field_text <$> l) ++ last ++ [0x7D].

Lemma writes_object w0 w last l : l <> [] -> space w0 -> space w -> space last -> Forall field_ok l ->
  NoDup ((fun f : fld => f.1.1) <$> l) ->
  writes (Object (of_entries l.*1)) (object_text w0 w last l).
Proof.
  unfold object_text. intros Hne H0 Hw Hl Hok Hnd. split.
  - rewrite <- (entries_pairs w last l w0).
    replace ([0x7B] ++ w0 ++ separated ([0x2C] ++ w) (field_text <$> l) ++ last ++ [0x7D])
      with ([0x7B] ++ separated [0x2C] (entry_text <$> entries_of w0 w last l) ++ [0x7D])
      by (rewrite entries_text by done; by rewrite <- !app_assoc).
    apply strict_reads_object; [by destruct l|by apply entries_of_ok|by rewrite entries_keys].
  - apply space_ascii in H0, Hw, Hl. unfold ascii in *. rewrite !Forall_app. split_and!; try done; try (by repeat constructor).
    apply separated_ascii; [unfold ascii; rewrite Forall_app; split; [by repeat constructor|done]|].
    apply Forall_fmap. eapply Forall_impl; [exact Hok|]. intros f [Hk Hv]. unfold compose, field_text, ascii. rewrite !Forall_app.
    split_and!; [by apply json_str_ascii|by repeat constructor|apply Hv].
Qed.

(** An element of an array: its value and its text. *)
Fixpoint pieces_of (w0 w last : list Z) (l : list (Json * list Z)) : list piece :=
  match l with
  | [] => []
  | i :: l => {| pc_before := w0; pc_value := i.1; pc_text := i.2; pc_after := match l with [] => last | _ => [] end |}
              :: pieces_of w w last l
  end.

Lemma pieces_text w last l : forall w0, l <> [] ->
  separated [0x2C] (piece_text <$> pieces_of w0 w last l) = w0 ++ separated ([0x2C] ++ w) l.*2 ++ last.
Proof.
  induction l as [|f l IH]; intros w0 Hne; [done|]. destruct l as [|g l].
  - cbn [pieces_of fmap list_fmap separated concat]. unfold piece_text. cbn [pc_before pc_text pc_after].
    by rewrite !app_nil_r.
  - specialize (IH w ltac:(done)).
    change (piece_text <$> pieces_of w0 w last (f :: g :: l)) with
      ((w0 ++ f.2 ++ []) :: (piece_text <$> pieces_of w w last (g :: l))).
    change ((f :: g :: l).*2) with (f.2 :: g.2 :: l.*2). rewrite separated_cons2.
    assert (exists y k, piece_text <$> pieces_of w w last (g :: l) = y :: k) as (y & k & Hyk) by (cbn; eauto).
    rewrite Hyk in IH |- *. rewrite separated_cons2, IH. rewrite app_nil_r. by rewrite <- !app_assoc.
Qed.

Lemma pieces_of_ok w last l : space w -> space last -> Forall (fun i => writes i.1 i.2) l -> forall w0, space w0 ->
  Forall piece_ok (pieces_of w0 w last l).
Proof.
  intros Hw Hlast Hl. induction Hl as [|i l Hi Hl IH]; intros w0 Hw0; [constructor|]. constructor; [|by apply IH].
  split_and!; try done; [|apply Hi]. destruct l; [done|constructor].
Qed.

Lemma pieces_values w last l : forall w0, pc_value <$> pieces_of w0 w last l = l.*1.
Proof. induction l as [|f l IH]; intros w0; [done|]. cbn. by rewrite IH. Qed.

Lemma writes_array w0 w last l : l <> [] -> space w0 -> space w -> space last -> Forall (fun i => writes i.1 i.2) l ->
  writes (Array l.*1) ([0x5B] ++ w0 ++ separated ([0x2C] ++ w) l.*2 ++ last ++ [0x5D]).
Proof.
  intros Hne H0 Hw Hl Hok. split.
  - rewrite <- (pieces_values w last l w0).
    replace ([0x5B] ++ w0 ++ separated ([0x2C] ++ w) l.*2 ++ last ++ [0x5D])
      with ([0x5B] ++ separated [0x2C] (piece_text <$> pieces_of w0 w last l) ++ [0x5D])
      by (rewrite pieces_text by done; by rewrite <- !app_assoc).
    apply strict_reads_array; [by destruct l|by apply pieces_of_ok].
  - apply space_ascii in H0, Hw, Hl. unfold ascii in *. rewrite !Forall_app. split_and!; try done; try (by repeat constructor).
    apply separated_ascii; [unfold ascii; rewrite Forall_app; split; [by repeat constructor|done]|].
    apply Forall_fmap. eapply Forall_impl; [exact Hok|]. intros i Hi. apply Hi.
Qed.

Lemma writes_empty_array w : space w -> writes (Array []) ([0x5B] ++ w ++ [0x5D]).
Proof.
  intros Hw. split; [by apply reads_empty_array|]. apply space_ascii in Hw. unfold ascii in *. rewrite !Forall_app.
  split_and!; try done; by repeat constructor.
Qed.

(** ** A line for each element *)
Lemma comma_lines_separated {A} w (line : A -> list Z) l : l <> [] ->
  comma_lines (fun x => w ++ line x) l = w ++ separated ([0x2C] ++ nl ++ w) (line <$> l) ++ nl.
Proof.
  intros Hne. unfold comma_lines.
  assert (forall k n, (n = k + length l)%nat ->
    concat (imap (fun i x => (w ++ line x) ++ (if Nat.eqb (k + i + 1) n then [] else [0x2C]) ++ nl) l)
    = w ++ separated ([0x2C] ++ nl ++ w) (line <$> l) ++ nl) as H.
  2: { by rewrite <- (H 0%nat (length l)). }
  induction l as [|x l IH]; [done|]. intros k n Hn. rewrite imap_cons. cbn [concat]. destruct l as [|y l].
  - cbn [imap concat fmap list_fmap separated]. rewrite !app_nil_r. rewrite (proj2 (Nat.eqb_eq _ _)) by (cbn in Hn; lia).
    by rewrite <- !app_assoc.
  - rewrite (proj2 (Nat.eqb_neq _ _)) by (cbn in Hn; lia).
    rewrite (imap_ext _ (fun i x => (w ++ line x) ++ (if Nat.eqb (S k + i + 1) n then [] else [0x2C]) ++ nl)).
    2: { intros i z _. unfold compose. by replace (k + S i + 1)%nat with (S k + i + 1)%nat by lia. }
    rewrite (IH ltac:(done) (S k) n) by (cbn in Hn |- *; lia).
    change (line <$> x :: y :: l) with (line x :: line y :: (line <$> l)). rewrite separated_cons2. by rewrite <- !app_assoc.
Qed.

(** The array of a text with a line for each element. *)
Lemma writes_lines {A} n (value : A -> Json) (line : A -> list Z) (l : list A) last : space last ->
  Forall (fun x => writes (value x) (line x)) l ->
  writes (Array (value <$> l)) ([0x5B] ++ nl ++ comma_lines (fun x => spaces n ++ line x) l ++ last ++ [0x5D]).
Proof.
  intros Hlast Hl. destruct (decide (l = [])) as [->|Hne].
  - replace ([0x5B] ++ nl ++ comma_lines (fun x : A => spaces n ++ line x) [] ++ last ++ [0x5D]) with ([0x5B] ++ (nl ++ last) ++ [0x5D]) by done.
    apply writes_empty_array. auto.
  - rewrite comma_lines_separated by done.
    pose proof (writes_array (nl ++ spaces n) (nl ++ spaces n) (nl ++ last) ((fun x => (value x, line x)) <$> l)) as H.
    rewrite <- !list_fmap_compose in H. rewrite <- !app_assoc in H |- *. apply H; [by destruct l|..].
    1-3: auto.
    apply Forall_fmap. eapply Forall_impl; [exact Hl|]. done.
Qed.

(** The object of a text with a line for each field. *)
Lemma writes_object_lines {A} n (fld_of : A -> list Z * Json * list Z) (l : list A) last : space last -> l <> [] ->
  Forall (fun x => field_ok (fld_of x)) l -> NoDup ((fun x => (fld_of x).1.1) <$> l) ->
  writes (Object (of_entries ((fun x => (fld_of x).1) <$> l)))
    ([0x7B] ++ nl ++ comma_lines (fun x => spaces n ++ field_text (fld_of x)) l ++ last ++ [0x7D]).
Proof.
  intros Hlast Hne Hl Hnd. rewrite comma_lines_separated by done.
  pose proof (writes_object (nl ++ spaces n) (nl ++ spaces n) (nl ++ last) (fld_of <$> l)) as H.
  unfold object_text in H. rewrite <- !list_fmap_compose in H. rewrite <- !app_assoc in H |- *. apply H; [by destruct l| | | | |done].
  1-3: auto.
  apply Forall_fmap. eapply Forall_impl; [exact Hl|]. done.
Qed.

(** * What a manifest holds *)
Definition number_ok (n : Z) : Prop := 0 <= n < 2 ^ 63.

Definition tensor_ok (t : SourceTensor) : Prop := ascii (st_name t) /\ Forall number_ok (st_shape t) /\ ascii (st_dtype t).

Definition slice_ok (e : SliceEntry) : Prop :=
  ascii (se_file e) /\ ascii (se_sha256 e) /\ is_ok (unhex (se_sha256 e)) = true /\ number_ok (se_bytes e) /\
  number_ok (se_layer e) /\ number_ok (se_expert e) /\ number_ok (se_rank e) /\ ascii (se_shard e) /\ Forall tensor_ok (se_tensors e).

Definition geometry_ok (g : list (list Z * Z)) : Prop :=
  Forall (fun e => ascii e.1 /\ number_ok e.2) g /\ StronglySorted str_lt g.*1.

Definition manifest_ok (m : Manifest) : Prop :=
  validate_geometry m = Ok tt /\ ascii (mf_generated_by m) /\ geometry_ok (mf_geometry m) /\ Forall slice_ok (mf_slices m).

(** * The values of the text *)
Definition tensor_fields (t : SourceTensor) : list (list Z * Json) :=
  [(str "name", Str (st_name t)); (str "shape", Array (U64 <$> st_shape t)); (str "dtype", Str (st_dtype t))].
Definition tensor_json (t : SourceTensor) : Json := Object (of_entries (tensor_fields t)).

Definition layout_json (r : LayoutEntry) : Json :=
  Object (of_entries [(str "proj", Str (le_proj r)); (str "region", Str (le_region r)); (str "off", U64 (le_off r)); (str "len", U64 (le_len r))]).

Definition source_json (e : SliceEntry) : Json :=
  Object (of_entries [(str "shard", Str (se_shard e)); (str "tensors", Array (tensor_json <$> se_tensors e))]).

Definition slice_json (e : SliceEntry) : Json :=
  Object (of_entries
    [(str "file", Str (se_file e)); (str "sha256", Str (se_sha256 e)); (str "bytes", U64 (se_bytes e)); (str "layer", U64 (se_layer e));
     (str "expert", U64 (se_expert e)); (str "rank", U64 (se_rank e)); (str "source", source_json e)]).

Definition geometry_pair (e : list Z * Z) : list Z * Json := (e.1, U64 e.2).

Definition manifest_json (m : Manifest) : Json :=
  Object (of_entries
    [(str "format", Str (mf_format m)); (str "version", U64 (mf_version m)); (str "generated_by", Str (mf_generated_by m));
     (str "geometry", Object (of_entries (geometry_pair <$> mf_geometry m))); (str "layout", Array (layout_json <$> mf_layout m));
     (str "slices", Array (slice_json <$> mf_slices m))]).

(** ** The text is that of the value *)
Ltac decided := apply (bool_decide_unpack _); vm_compute; reflexivity.
Ltac fields_ok := repeat (apply Forall_cons_2; [split; [unfold ascii; decided|]|]); [..|by apply Forall_nil_2].

Ltac laid_out := unfold object_text; cbn [fmap list_fmap separated concat]; unfold field_text; cbn [fst snd]; rewrite <- !app_assoc; reflexivity.

Definition tensor_flds (t : SourceTensor) : list (list Z * Json * list Z) :=
  [(str "name", Str (st_name t), json_str (st_name t));
   (str "shape", Array (U64 <$> st_shape t), [0x5B] ++ separated (str ", ") (u64_to_string <$> st_shape t) ++ [0x5D]);
   (str "dtype", Str (st_dtype t), json_str (st_dtype t))].

Lemma writes_tensor t : tensor_ok t -> writes (tensor_json t) (tensor_text t).
Proof.
  intros (Hn & Hs & Hd).
  assert (writes (Array (U64 <$> st_shape t)) ([0x5B] ++ separated (str ", ") (u64_to_string <$> st_shape t) ++ [0x5D])) as Hshape.
  { destruct (decide (st_shape t = [])) as [-> |Hne]; [by apply (writes_empty_array [])|].
    pose proof (writes_array [] [0x20] [] ((fun n => (U64 n, u64_to_string n)) <$> st_shape t)) as H.
    rewrite <- !list_fmap_compose in H. apply H; [by destruct (st_shape t)|auto..|].
    apply Forall_fmap. eapply Forall_impl; [exact Hs|]. intros n Hn'. by apply writes_u64. }
  assert (tensor_text t = object_text [] [0x20] [] (tensor_flds t)) as -> by (unfold tensor_text, tensor_flds; laid_out).
  apply (writes_object [] [0x20] [] (tensor_flds t)); [done|auto..| |decided].
  fields_ok; [by apply writes_str|done|by apply writes_str].
Qed.

Lemma writes_layout r : ascii (le_proj r) -> ascii (le_region r) -> number_ok (le_off r) -> number_ok (le_len r) ->
  writes (layout_json r) (layout_text r).
Proof.
  intros Hp Hr Ho Hl. set (flds := [(str "proj", Str (le_proj r), json_str (le_proj r));
    (str "region", Str (le_region r), json_str (le_region r)); (str "off", U64 (le_off r), u64_to_string (le_off r));
    (str "len", U64 (le_len r), u64_to_string (le_len r))]).
  assert (layout_text r = object_text [] [0x20] [] flds) as -> by (unfold layout_text, flds; laid_out).
  apply (writes_object [] [0x20] [] flds); [done|auto..| |decided].
  fields_ok; by (apply writes_str || apply writes_u64).
Qed.

Lemma writes_source e : ascii (se_shard e) -> Forall tensor_ok (se_tensors e) ->
  writes (source_json e) (object_text (nl ++ spaces 8) (nl ++ spaces 8) (nl ++ spaces 6)
    [(str "shard", Str (se_shard e), json_str (se_shard e));
     (str "tensors", Array (tensor_json <$> se_tensors e),
      [0x5B] ++ nl ++ comma_lines (fun t => spaces 10 ++ tensor_text t) (se_tensors e) ++ spaces 8 ++ [0x5D])]).
Proof.
  intros Hs Ht. apply (writes_object (nl ++ spaces 8) (nl ++ spaces 8) (nl ++ spaces 6)); [done|auto..| |decided].
  fields_ok; [by apply writes_str|]. apply writes_lines; [auto|]. eapply Forall_impl; [exact Ht|]. apply writes_tensor.
Qed.

Lemma writes_slice e : slice_ok e -> writes (slice_json e) (slice_text e).
Proof.
  intros (Hf & Hs & _ & Hb & Hl & He & Hr & Hsh & Ht). pose proof (writes_source e Hsh Ht) as Hsrc.
  set (src := object_text _ _ _ _) in Hsrc.
  set (flds := [(str "file", Str (se_file e), json_str (se_file e)); (str "sha256", Str (se_sha256 e), json_str (se_sha256 e));
    (str "bytes", U64 (se_bytes e), u64_to_string (se_bytes e)); (str "layer", U64 (se_layer e), u64_to_string (se_layer e));
    (str "expert", U64 (se_expert e), u64_to_string (se_expert e)); (str "rank", U64 (se_rank e), u64_to_string (se_rank e));
    (str "source", source_json e, src)]).
  assert (slice_text e = object_text (nl ++ spaces 6) (nl ++ spaces 6) (nl ++ spaces 4) flds) as ->
    by (unfold slice_text, flds, src; laid_out).
  apply (writes_object (nl ++ spaces 6) (nl ++ spaces 6) (nl ++ spaces 4) flds); [done|auto..| |decided].
  fields_ok; try done; by (apply writes_str || apply writes_u64).
Qed.

(** * What validation establishes *)
Lemma row_pinned got want : check_row (got, want) = Ok tt -> got = layout_entry want.
Proof.
  unfold check_row. repeat case_bool_decide; cbn [negb orb]; try done. destruct (Z.eqb_spec (le_off got) (lr_off want)); [|done].
  destruct (Z.eqb_spec (le_len got) (lr_len want)); [|done]. destruct got. cbn in *. intros _. unfold layout_entry. congruence.
Qed.

Lemma validated m : validate_geometry m = Ok tt -> mf_format m = FORMAT /\ mf_version m = VERSION /\
  (forall k v, (k, v) ∈ geometry_want -> map_get k (mf_geometry m) = Some v) /\ mf_layout m = layout_entry <$> layout_table.
Proof.
  unfold validate_geometry. case_bool_decide as Hf; [|done]. cbn [negb orb]. destruct (Z.eqb_spec (mf_version m) VERSION) as [Hv|]; [|done].
  cbn [negb]. intros ([] & Hg & Hl)%bind_Ok. destruct (Nat.eqb_spec (length (mf_layout m)) (length layout_table)) as [Hlen|]; [|done].
  cbn [negb] in Hl. apply for_each_Ok in Hg. apply for_each_Ok in Hl. split_and!; [done|done| |].
  - intros k v Hkv. rewrite Forall_forall in Hg. specialize (Hg _ Hkv). unfold check_field in Hg. cbn [fst snd] in Hg. destruct (map_get k _) as [got|]; [|done]. cbn in Hg.
    destruct (Z.eqb_spec got v); [by subst|done].
  - revert Hlen Hl. generalize (mf_layout m), layout_table. clear. induction l as [|r l IH]; intros [|w k] Hlen Hl; try done.
    apply Forall_cons in Hl as [Hr Hl]. cbn. rewrite (row_pinned r w Hr). f_equal. apply IH; [by injection Hlen|done].
Qed.

Lemma str_lt_irrefl k : ~ str_lt k k.
Proof. unfold str_lt. by rewrite (proj2 (lex_refl _ _) eq_refl). Qed.

Lemma sorted_nodup ks : StronglySorted str_lt ks -> NoDup ks.
Proof.
  induction 1 as [|k ks Hs IH Hk]; [constructor|]. apply NoDup_cons. split; [|done]. intros Hin.
  rewrite Forall_forall in Hk. by apply (str_lt_irrefl k), Hk.
Qed.

Definition row_ok (r : LayoutEntry) : bool :=
  bool_decide (ascii (le_proj r)) && bool_decide (ascii (le_region r)) &&
  (0 <=? le_off r) && (le_off r <? 2 ^ 63) && (0 <=? le_len r) && (le_len r <? 2 ^ 63).

Lemma writes_pinned_rows : Forall (fun r => writes (layout_json r) (layout_text r)) (layout_entry <$> layout_table).
Proof.
  assert (Forall (fun r => row_ok r = true) (layout_entry <$> layout_table)) as H by (repeat constructor; vm_compute; reflexivity).
  eapply Forall_impl; [exact H|]. intros r Hr. unfold row_ok in Hr. rewrite !andb_true_iff, !bool_decide_eq_true, !Z.leb_le, !Z.ltb_lt in Hr.
  apply writes_layout; try tauto; unfold number_ok; lia.
Qed.

Lemma writes_manifest m : manifest_ok m -> exists t, to_json m = t ++ nl /\ writes (manifest_json m) t.
Proof.
  intros (Hval & Hgen & [Hg Hgs] & Hs). pose proof (validated m Hval) as (Hf & Hv & Hget & Hlay).
  set (geo := [0x7B] ++ nl ++ comma_lines (fun e => spaces 4 ++ geometry_text e) (mf_geometry m) ++ spaces 2 ++ [0x7D]).
  set (lay := [0x5B] ++ nl ++ comma_lines (fun r => spaces 4 ++ layout_text r) (mf_layout m) ++ spaces 2 ++ [0x5D]).
  set (sl := [0x5B] ++ nl ++ comma_lines (fun e => spaces 4 ++ slice_text e) (mf_slices m) ++ spaces 2 ++ [0x5D]).
  set (flds := [(str "format", Str (mf_format m), json_str (mf_format m)); (str "version", U64 (mf_version m), u64_to_string (mf_version m));
    (str "generated_by", Str (mf_generated_by m), json_str (mf_generated_by m));
    (str "geometry", Object (of_entries (geometry_pair <$> mf_geometry m)), geo); (str "layout", Array (layout_json <$> mf_layout m), lay);
    (str "slices", Array (slice_json <$> mf_slices m), sl)]).
  exists (object_text (nl ++ spaces 2) (nl ++ spaces 2) nl flds). split; [unfold to_json, flds, geo, lay, sl; laid_out|].
  apply (writes_object (nl ++ spaces 2) (nl ++ spaces 2) nl flds); [done|auto..| |decided]. fields_ok.
  - apply writes_str. rewrite Hf. unfold ascii. decided.
  - apply writes_u64. rewrite Hv. done.
  - by apply writes_str.
  - apply (writes_object_lines 4 (fun e => (e.1, U64 e.2, u64_to_string e.2))); [auto| | |by apply sorted_nodup].
    + intros Hnil. specialize (Hget (str "hidden") HIDDEN ltac:(by left)). by rewrite Hnil in Hget.
    + eapply Forall_impl; [exact Hg|]. intros e [Hk Hn]. split; [done|by apply writes_u64].
  - apply writes_lines; [auto|]. rewrite Hlay. apply writes_pinned_rows.
  - apply writes_lines; [auto|]. eapply Forall_impl; [exact Hs|]. apply writes_slice.
Qed.

(** * Reading the values back *)
Lemma field_found {A B} (as_ : Json -> option A) o k missing v a (f : A -> outcome RepackError B) r :
  map_get (str k) o = Some v -> as_ v = Some a -> f a = r -> (field as_ o k missing ≫= f) = r.
Proof. unfold field. intros -> H <-. cbn [mbind option_bind]. by rewrite H. Qed.

(** Finds the next field of an object. *)
Ltac found := eapply field_found; [reflexivity|reflexivity|cbv beta].

Lemma shape_back (l : list Z) : (fun d => default (2 ^ 64 - 1) (as_u64 d)) <$> (U64 <$> l) = l.
Proof. induction l as [|n l IH]; [done|]. cbn [fmap list_fmap as_u64 default]. by f_equal. Qed.

Lemma parse_tensor_json t : parse_tensor (tensor_json t) = Ok t.
Proof.
  unfold parse_tensor, tensor_json. cbn [as_object ok_or]. rewrite ok_bind. do 3 found. rewrite shape_back. by destruct t.
Qed.

Lemma parse_all {A} (f : Json -> outcome RepackError A) (g : A -> Json) l :
  Forall (fun x => f (g x) = Ok x) l -> mapM f (g <$> l) = Ok l.
Proof.
  induction 1 as [|x l Hx Hl IH]; [done|]. cbn [fmap list_fmap mapM]. unfold mapM in *. cbn. rewrite Hx. cbn. by rewrite IH.
Qed.

Lemma parse_layout_json r : parse_layout_row (layout_json r) = Ok r.
Proof.
  unfold parse_layout_row, layout_json. cbn [as_object ok_or]. rewrite ok_bind. do 4 found. by destruct r.
Qed.

Lemma parse_slice_json e : is_ok (unhex (se_sha256 e)) = true -> parse_slice_entry (slice_json e) = Ok e.
Proof.
  intros Hsha. unfold parse_slice_entry, slice_json. cbn [as_object ok_or]. rewrite ok_bind. do 2 found.
  destruct (unhex (se_sha256 e)) as [d| |]; [|done..]. cbn [map_err]. rewrite ok_bind. do 5 found.
  unfold source_json. do 2 found. rewrite parse_all by (apply Forall_forall; intros t _; apply parse_tensor_json).
  rewrite ok_bind. by destruct e.
Qed.

Lemma geometry_back g : geometry_ok g -> fold_try geometry_entry [] (of_entries (geometry_pair <$> g)) = Ok g.
Proof.
  intros [_ Hs]. assert ((geometry_pair <$> g).*1 = g.*1) as Hk.
  { clear Hs. induction g as [|e g IH]; [done|]. cbn. by rewrite IH. }
  rewrite of_entries_sorted by (by rewrite Hk).
  transitivity (Ok (E:=RepackError) (of_entries g)); [|by rewrite of_entries_sorted].
  unfold of_entries. generalize (@nil (list Z * Z)). clear. induction g as [|e g IH]; intros acc; [done|].
  cbn [fmap list_fmap fold_try foldl].
  assert (geometry_entry acc (geometry_pair e) = Ok (map_insert e.1 e.2 acc)) as -> by done. rewrite ok_bind. apply IH.
Qed.

Lemma parse_to_json m : manifest_ok m -> parse (to_json m) = Ok m.
Proof.
  intros Hm. destruct (writes_manifest m Hm) as (t & Ht & Hr & Ha). destruct Hm as (Hval & _ & Hg & Hs).
  pose proof (validated m Hval) as (Hf & Hv & _). unfold parse.
  rewrite Ht, (parse_reads (manifest_json m)); [|done| |auto]. 2: { apply Forall_app_2; [done|]. by apply space_ascii. }
  rewrite ok_bind. unfold manifest_json. cbn [as_object ok_or]. rewrite ok_bind. found.
  rewrite bool_decide_true by done. cbn [negb]. found. rewrite Hv, Z.eqb_refl. cbn [negb]. cbv zeta. found.
  rewrite geometry_back by done. rewrite ok_bind. found.
  rewrite parse_all by (apply Forall_forall; intros r _; apply parse_layout_json). rewrite ok_bind. found.
  rewrite parse_all by (eapply Forall_impl; [exact Hs|]; intros e He; by apply parse_slice_json, He). rewrite ok_bind.
  change (VERSION mod 2 ^ 32) with VERSION. rewrite <- Hv.
  change (map_get (str "generated_by") (of_entries _) ≫= as_str) with (Some (mf_generated_by m)). cbn [default id].
  assert (mkManifest (mf_format m) (mf_version m) (mf_generated_by m) (mf_geometry m) (mf_layout m) (mf_slices m) = m) as -> by (by destruct m).
  by rewrite Hval, ok_bind.
Qed.

(** * Manifests that this build makes *)
Lemma sort_insert_Permutation {A} cmp (x : A) l : sort_insert cmp x l ≡ₚ x :: l.
Proof. induction l as [|y l IH]; [done|]. cbn. destruct (cmp x y); [done..|]. rewrite IH. constructor. Qed.

Lemma sort_by_Permutation {A} cmp (l : list A) : sort_by cmp l ≡ₚ l.
Proof. induction l as [|x l IH]; [done|]. cbn. by rewrite sort_insert_Permutation, IH. Qed.

Lemma sort_by_Forall {A} (P : A -> Prop) cmp (l : list A) : Forall P l -> Forall P (sort_by cmp l).
Proof. by rewrite sort_by_Permutation. Qed.

Lemma new_ok : manifest_ok Manifest_new.
Proof.
  split_and!; [vm_compute; reflexivity|unfold ascii; decided| |constructor]. split.
  - repeat (apply Forall_cons_2; [split; [unfold ascii; decided|vm_compute; split; congruence]|]). apply Forall_nil_2.
  - repeat constructor.
Qed.

Lemma manifest_push_ok m e : manifest_ok m -> slice_ok e -> manifest_ok (push m e).
Proof.
  intros (Hv & Hgen & Hg & Hs) He. split_and!; [exact Hv|done|done|]. apply sort_by_Forall, Forall_app_2; [done|]. by constructor.
Qed.

Lemma pushes_ok es : forall m, manifest_ok m -> Forall slice_ok es ->
  manifest_ok (foldl push m es) /\ mf_slices (foldl push m es) ≡ₚ mf_slices m ++ es.
Proof.
  induction es as [|e es IH]; intros m Hm Hes; [by rewrite app_nil_r|]. apply Forall_cons in Hes as [He Hes]. cbn [foldl].
  destruct (IH (push m e)) as [Hok Hp]; [by apply manifest_push_ok|done|]. split; [done|]. rewrite Hp. cbn [push mf_slices].
  rewrite sort_by_Permutation. by rewrite <- app_assoc.
Qed.

(** C32: a manifest made by adding entries (ASCII text, a digest in hexadecimal, numbers
    below 2^63) to a well-formed one, such as the empty one of this build, is well formed,
    holds the entries it had and those added, and its text is read back as the same
    manifest. *)
Theorem manifest_roundtrip m es (Hm : manifest_ok m) (Hes : Forall slice_ok es) :
  let m' := foldl push m es in
  manifest_ok m' /\ mf_slices m' ≡ₚ mf_slices m ++ es /\ parse (to_json m') = Ok m'.
Proof. destruct (pushes_ok es m Hm Hes) as [Hok Hp]. split_and!; [done|done|by apply parse_to_json]. Qed.

Definition sample_entry (expert : Z) : SliceEntry :=
  mkSliceEntry (str (slice_file_name 1 expert 0)) (hex (replicate 32 0)) QUARTER_SLICE_BYTES 1 expert 0
    (str (shard_file expert)) (source_tensors 1 expert).

Definition number_in (n : Z) : bool := (0 <=? n) && (n <? 2 ^ 63).
Definition tensor_in (t : SourceTensor) : bool :=
  bool_decide (Forall (fun c => 0 <= c < 0x80) (st_name t)) && forallb number_in (st_shape t) &&
  bool_decide (Forall (fun c => 0 <= c < 0x80) (st_dtype t)).
Definition slice_in (e : SliceEntry) : bool :=
  bool_decide (Forall (fun c => 0 <= c < 0x80) (se_file e)) && bool_decide (Forall (fun c => 0 <= c < 0x80) (se_sha256 e)) &&
  is_ok (unhex (se_sha256 e)) && forallb number_in [se_bytes e; se_layer e; se_expert e; se_rank e] &&
  bool_decide (Forall (fun c => 0 <= c < 0x80) (se_shard e)) && forallb tensor_in (se_tensors e).

Lemma number_in_ok n : number_in n = true -> number_ok n.
Proof. unfold number_in, number_ok. rewrite andb_true_iff, Z.leb_le, Z.ltb_lt. done. Qed.

Lemma tensor_in_ok t : tensor_in t = true -> tensor_ok t.
Proof.
  unfold tensor_in, tensor_ok, ascii. rewrite !andb_true_iff, !bool_decide_eq_true, forallb_forall. intros [[H1 H2] H3].
  split_and!; [done| |done]. apply List.Forall_forall. intros n Hn. by apply number_in_ok, H2.
Qed.

Lemma slice_in_ok e : slice_in e = true -> slice_ok e.
Proof.
  unfold slice_in, slice_ok, ascii. rewrite !andb_true_iff, !bool_decide_eq_true. intros (((((H1 & H2) & H3) & H4) & H5) & H6).
  cbn [forallb] in H4. rewrite !andb_true_iff in H4. destruct H4 as (? & ? & ? & ? & _).
  split_and!; try done; try (by apply number_in_ok). rewrite forallb_forall in H6. apply List.Forall_forall. intros t Ht.
  by apply tensor_in_ok, H6.
Qed.

Lemma manifest_roundtrip_witness :
  let m := foldl push Manifest_new [sample_entry 5; sample_entry 0] in
  (manifest_ok Manifest_new /\ Forall slice_ok [sample_entry 5; sample_entry 0]) /\
  manifest_ok m /\ mf_slices m ≡ₚ mf_slices Manifest_new ++ [sample_entry 5; sample_entry 0] /\ parse (to_json m) = Ok m.
Proof.
  assert (Forall slice_ok [sample_entry 5; sample_entry 0]) as Hs.
  { repeat (apply Forall_cons_2; [apply slice_in_ok; vm_compute; reflexivity|]). apply Forall_nil_2. }
  split; [split; [apply new_ok|exact Hs]|]. exact (manifest_roundtrip Manifest_new _ new_ok Hs).
Defined.
