(* ===== verification/Identity.v ===== *)
(** Identity readback of the resident slices (src/crates/mimo26-repack/src/identity.rs): the
    check of every file before serving, and the loading of one slice.

    What the identity readback lets through: the bytes that are loaded are those the
    manifest pins, and a directory that is served holds every slice of it and no other. *)
From Stdlib Require Import ZArith Lia Bool.
From stdpp Require Import base list gmap strings.
From S2P Require Import Prelude RepackGeom Utf8 Scan Sha256 Sha256Proofs RepackJson RepackJsonProofs Manifest ManifestProofs.

(** * Definitions *)

Inductive FileStatus :=
| Match (file sha256 : list Z) (bytes : Z)
| ShaMismatch_ (file want got : list Z)
| SizeMismatch (file : list Z) (want got : Z)
| Missing (file : list Z)
| Unlisted (file : list Z).

Definition is_match (s : FileStatus) : bool := match s with Match _ _ _ => true | _ => false end.

Definition status_file (s : FileStatus) : list Z :=
  match s with Match f _ _ | ShaMismatch_ f _ _ | SizeMismatch f _ _ | Missing f | Unlisted f => f end.

Record ReadbackReport := mkReport { rr_files : list FileStatus; rr_matched_bytes : Z }.

Definition all_match (r : ReadbackReport) : bool := forallb is_match (rr_files r).
Definition matched (r : ReadbackReport) : Z := Zlen (filter is_match (rr_files r)).
Definition failed (r : ReadbackReport) : Z := Zlen (rr_files r) - matched r.
Definition first_failure (r : ReadbackReport) : option FileStatus := List.find (fun f => negb (is_match f)) (rr_files r).

Definition summary (r : ReadbackReport) : list Z :=
  str "identity readback: " ++ u64_to_string (matched r) ++ str "/" ++ u64_to_string (Zlen (rr_files r)) ++ str " slices match ("
  ++ u64_to_string (rr_matched_bytes r) ++ str " B), " ++ u64_to_string (failed r) ++ str " failed".

#[local] Abbreviation result := (outcome RepackError).

Definition into_result (r : ReadbackReport) : result ReadbackReport :=
  match first_failure r with
  | None => Ok r
  | Some (ShaMismatch_ file want got) => Err (ShaMismatch (to_string file) (to_string want) (to_string got))
  | Some (SizeMismatch file want got) => Err (SliceSize (to_string file) want got)
  | Some (Missing file) => Err (MissingSlice (to_string file))
  | Some (Unlisted file) => Err (UnlistedSlice (to_string file))
  | Some (Match _ _ _) => Panic
  end.

(** [sha256::hex(&sha256::sha256(bytes))] *)
Definition sha_text (bytes : list Z) : result (list Z) :=
  digest ← map_err (fun _ => BadManifest "") (sha256 bytes); Ok (hex digest).

Definition verify_bytes (bytes : list Z) (entry : SliceEntry) : result FileStatus :=
  if negb (Zlen bytes =? QUARTER_SLICE_BYTES) then Ok (SizeMismatch (se_file entry) QUARTER_SLICE_BYTES (Zlen bytes))
  else
    got ← sha_text bytes;
    if negb (bool_decide (got = se_sha256 entry)) then Ok (ShaMismatch_ (se_file entry) (se_sha256 entry) got)
    else Ok (Match (se_file entry) got (Zlen bytes)).

(** The slice directory, the files by their names in it: [metadata], [read] and
    [read_dir] of [std::fs]; [fs_path] is the path of a file for an error. *)
Record Dir := mkDir {
  fs_len : list Z -> option Z;
  fs_read : list Z -> outcome string (list Z);
  fs_read_dir : outcome string (list (outcome string (list Z)));
  fs_path : list Z -> string;
  fs_dir : string }.

Section dir.
Context (dir : Dir).

Definition verify_one (entry : SliceEntry) : result FileStatus :=
  let file := se_file entry in
  match fs_len dir file with
  | None => Ok (Missing file)
  | Some got_len =>
    if negb (got_len =? QUARTER_SLICE_BYTES) then Ok (SizeMismatch file QUARTER_SLICE_BYTES got_len)
    else
      match fs_read dir file with
      | Ok bytes =>
        got ← sha_text bytes;
        if negb (bool_decide (got = se_sha256 entry)) then Ok (ShaMismatch_ file (se_sha256 entry) got)
        else Ok (Match file got got_len)
      | _ => Ok (Missing file)
      end
  end.

(** The statuses so far and the bytes of those that match. *)
Definition verify_entry (acc : list FileStatus * Z) (entry : SliceEntry) : result (list FileStatus * Z) :=
  let '(files, matched_bytes) := acc in
  status ← verify_one entry;
  matched_bytes ← match status with Match _ _ bytes => usize_add matched_bytes bytes | _ => Ok matched_bytes end;
  Ok (files ++ [status], matched_bytes).

(** The names of a directory entry, if it ends in [.slice]. *)
Definition ends_with (l w : list Z) : bool := (length w <=? length l)%nat && bool_decide (drop (length l - length w) l = w).

Definition resident_name (resident : list (list Z)) (e : outcome string (list Z)) : result (list (list Z)) :=
  os_name ← map_err (Io (fs_dir dir)) e;
  let name := from_utf8_lossy os_name in
  Ok (if ends_with name (str ".slice") then resident ++ [name] else resident).

Definition verify_dir (manifest : Manifest) : result ReadbackReport :=
  _ ← validate_geometry manifest;
  '(files, matched_bytes) ← fold_try verify_entry ([], 0) (mf_slices manifest);
  let listed := se_file <$> mf_slices manifest in
  rd ← map_err (Io (fs_dir dir)) (fs_read_dir dir);
  resident ← fold_try resident_name [] rd;
  let unlisted := filter (fun name => negb (bool_decide (name ∈ listed))) (sort_by str_cmp resident) in
  Ok (mkReport (sort_by (fun a b => str_cmp (status_file a) (status_file b)) (files ++ (Unlisted <$> unlisted))) matched_bytes).

Definition load_slice (manifest : Manifest) (file : list Z) : result (list Z) :=
  _ ← validate_geometry manifest;
  match filter (fun s => bool_decide (se_file s = file)) (mf_slices manifest) with
  | [entry] =>
    _ ← check_layer (se_layer entry);
    _ ← check_expert (se_expert entry);
    _ ← check_rank (se_rank entry);
    if negb (bool_decide (se_file entry = str (slice_file_name (se_layer entry) (se_expert entry) (se_rank entry))))
       || negb (se_bytes entry =? QUARTER_SLICE_BYTES)
       || negb (bool_decide (se_shard entry = str (shard_file (se_expert entry))))
       || negb (bool_decide (se_tensors entry = source_tensors (se_layer entry) (se_expert entry)))
    then Err (BadManifest "slice identity mismatch")
    else
      bytes ← map_err (Io (fs_path dir file)) (fs_read dir file);
      status ← verify_bytes bytes entry;
      _ ← into_result (mkReport [status] 0);
      Ok bytes
  | _ => Err (BadManifest "expected exactly one manifest entry")
  end.
End dir.

Lemma sha_text_ok bytes : sha_text bytes = Ok (hex (sha256_spec bytes)).
Proof. unfold sha_text. by rewrite sha256_ok. Qed.

(** The bytes that an entry pins. *)
Definition pins (e : SliceEntry) (bytes : list Z) : Prop :=
  Zlen bytes = QUARTER_SLICE_BYTES /\ se_sha256 e = hex (sha256_spec bytes).

#[export] Instance pins_dec e bytes : Decision (pins e bytes).
Proof. unfold pins. apply _. Defined.

Lemma verify_bytes_ok bytes e : exists s, verify_bytes bytes e = Ok s /\ (is_match s = true <-> pins e bytes) /\ status_file s = se_file e.
Proof.
  unfold verify_bytes, pins. destruct (Z.eqb_spec (Zlen bytes) QUARTER_SLICE_BYTES) as [Hl|Hl]; cbn [negb].
  - rewrite sha_text_ok, ok_bind. case_bool_decide as Hs; cbn [negb]; eexists; (split; [done|]); cbn; (split; [|done]); naive_solver.
  - eexists. split; [done|]. cbn. naive_solver.
Qed.

Lemma into_result_one s n : into_result (mkReport [s] n) = Ok (mkReport [s] n) /\ is_match s = true \/
  is_ok (into_result (mkReport [s] n)) = false /\ is_match s = false.
Proof. destruct s; cbn; auto. Qed.

(** ** One slice *)
Definition entry_named (e : SliceEntry) (file : list Z) : Prop :=
  1 <= se_layer e < 48 /\ se_expert e < 256 /\ se_rank e < 4 /\
  se_file e = file /\ file = str (slice_file_name (se_layer e) (se_expert e) (se_rank e)) /\ se_bytes e = QUARTER_SLICE_BYTES /\
  se_shard e = str (shard_file (se_expert e)) /\ se_tensors e = source_tensors (se_layer e) (se_expert e).

Lemma identity_checks (e : SliceEntry) :
  negb (bool_decide (se_file e = str (slice_file_name (se_layer e) (se_expert e) (se_rank e))))
  || negb (se_bytes e =? QUARTER_SLICE_BYTES) || negb (bool_decide (se_shard e = str (shard_file (se_expert e))))
  || negb (bool_decide (se_tensors e = source_tensors (se_layer e) (se_expert e))) = false <->
  se_file e = str (slice_file_name (se_layer e) (se_expert e) (se_rank e)) /\ se_bytes e = QUARTER_SLICE_BYTES /\
  se_shard e = str (shard_file (se_expert e)) /\ se_tensors e = source_tensors (se_layer e) (se_expert e).
Proof. rewrite !orb_false_iff, !negb_false_iff, !bool_decide_eq_true, Z.eqb_eq. tauto. Qed.

Lemma check_ids e : check_layer (se_layer e) = Ok tt /\ check_expert (se_expert e) = Ok tt /\ check_rank (se_rank e) = Ok tt <->
  1 <= se_layer e < 48 /\ se_expert e < 256 /\ se_rank e < 4.
Proof.
  unfold check_layer, check_expert, check_rank, FIRST_MOE_LAYER, MOE_LAYERS, EXPERTS_PER_LAYER, EP_RANKS. change (1 + 47) with 48.
  destruct (Z.ltb_spec (se_layer e) 1), (Z.geb_spec (se_layer e) 48), (Z.geb_spec (se_expert e) 256), (Z.geb_spec (se_rank e) 4);
    cbn; split; intros ([=] & [=] & [=]) || intros; try done; split_and?; (done || lia).
Qed.

Lemma load_entry dir m file bytes : load_slice dir m file = Ok bytes <->
  validate_geometry m = Ok tt /\
  exists e, filter (fun s => bool_decide (se_file s = file)) (mf_slices m) = [e] /\
    entry_named e file /\ fs_read dir file = Ok bytes /\ pins e bytes.
Proof.
  unfold load_slice. rewrite bind_Ok. split.
  - intros ([] & Hv & H). split; [done|]. destruct (filter _ _) as [|e [|? ?]] eqn:Hf; [done| |done]. exists e. split; [done|].
    assert (se_file e = file) as He.
    { assert (e ∈ [e]) as Hin by left. rewrite <- Hf in Hin. apply list_elem_of_filter in Hin as [Hb _]. by apply bool_decide_unpack in Hb. }
    apply bind_Ok in H as ([] & H1 & H). apply bind_Ok in H as ([] & H2 & H). apply bind_Ok in H as ([] & H3 & H).
    destruct (negb _ || _ || _ || _) eqn:Hc; [done|]. apply identity_checks in Hc as (Hn & Hb & Hs & Ht).
    apply bind_Ok in H as (bs & Hr & H). destruct (verify_bytes_ok bs e) as (s & Hs' & Hm & _). rewrite Hs', ok_bind in H.
    destruct (fs_read dir file) as [bs'| |]; [|done..]. injection Hr as ->.
    destruct (into_result_one s 0) as [[Hi Hms]|[Hi _]]; [|by destruct (into_result _)].
    rewrite Hi, ok_bind in H. injection H as ->. pose proof (proj1 (check_ids e) (conj H1 (conj H2 H3))).
    split; [|split; [done|by apply Hm]]. unfold entry_named. rewrite <- He. tauto.
  - intros (Hv & e & Hf & (Hl & Hx & Hk & He & Hn & Hb & Hs & Ht) & Hr & Hp). exists tt. split; [done|]. rewrite Hf.
    destruct (proj2 (check_ids e)) as (-> & -> & ->); [lia|]. rewrite !ok_bind.
    rewrite (proj2 (identity_checks e)) by (by rewrite He). rewrite Hr. cbn [map_err]. rewrite ok_bind.
    destruct (verify_bytes_ok bytes e) as (s & -> & Hm & _). rewrite ok_bind.
    destruct (into_result_one s 0) as [[-> _]|[_ Hno]]; [done|]. apply Hm in Hp. congruence.
Qed.

(** A slice is loaded exactly when the manifest is one of this build's layout, has a
    single entry for the file, the entry's layer, expert and rank are in range and give the
    file, shard and tensors that it names, and the file's bytes have the length of a quarter
    slice and the SHA-256 that the entry pins. *)
Theorem load_slice_identity dir m file bytes : load_slice dir m file = Ok bytes <->
  validate_geometry m = Ok tt /\
  exists e, filter (fun s => bool_decide (se_file s = file)) (mf_slices m) = [e] /\
    entry_named e file /\ fs_read dir file = Ok bytes /\ pins e bytes.
Proof. apply load_entry. Qed.

(** ** A whole directory *)
Definition resident_ok (dir : Dir) (e : SliceEntry) : Prop :=
  fs_len dir (se_file e) = Some QUARTER_SLICE_BYTES /\
  exists bytes, fs_read dir (se_file e) = Ok bytes /\ se_sha256 e = hex (sha256_spec bytes).

Lemma verify_one_ok dir e : exists s, verify_one dir e = Ok s /\ (is_match s = true -> resident_ok dir e) /\
  (forall f g n, s = Match f g n -> n = QUARTER_SLICE_BYTES).
Proof.
  unfold verify_one, resident_ok. destruct (fs_len dir (se_file e)) as [n|]; [|by eexists].
  destruct (Z.eqb_spec n QUARTER_SLICE_BYTES) as [->|Hn]; cbn [negb]; [|by eexists].
  destruct (fs_read dir (se_file e)) as [bytes| |]; [|by eexists..]. rewrite sha_text_ok, ok_bind.
  case_bool_decide as Hs; cbn [negb]; eexists; (split; [done|]); [|done]. split; [intros _; by eauto|]. by intros ? ? ? [= _ _ <-].
Qed.

Lemma verify_entries dir es : forall files bytes r, fold_try (verify_entry dir) (files, bytes) es = Ok r ->
  exists ss, r.1 = files ++ ss /\ (forallb is_match ss = true -> Forall (resident_ok dir) es /\ r.2 = bytes + QUARTER_SLICE_BYTES * Zlen es).
Proof.
  induction es as [|e es IH]; intros files bytes r H; cbn [fold_try] in H.
  - injection H as <-. exists []. rewrite app_nil_r. split; [done|]. intros _. split; [constructor|]. cbn. lia.
  - apply bind_Ok in H as ([files' bytes'] & Hv & H). unfold verify_entry in Hv.
    destruct (verify_one_ok dir e) as (s & Hs & Hm & Hn). rewrite Hs, ok_bind in Hv. apply bind_Ok in Hv as (b & Hb & Hv).
    injection Hv as <- <-. destruct (IH _ _ _ H) as (ss & Hss & Hall). exists (s :: ss). rewrite Hss, <- app_assoc. split; [done|].
    cbn [forallb]. rewrite andb_true_iff. intros [Hms Hmss]. destruct (Hall Hmss) as [Hok ->]. split; [constructor; auto|].
    destruct s as [f g n| | | |]; try done. specialize (Hn _ _ _ eq_refl) as ->. unfold usize_add in Hb. destruct (_ <? _); [|done].
    injection Hb as <-. cbn [length]. lia.
Qed.

(** A [.slice] file of the directory. *)
Definition slice_resident (rd : list (outcome string (list Z))) (name : list Z) : Prop :=
  exists os_name, Ok os_name ∈ rd /\ name = from_utf8_lossy os_name /\ ends_with name (str ".slice") = true.

Lemma residents dir rd : forall acc names, fold_try (resident_name dir) acc rd = Ok names ->
  forall name, name ∈ acc \/ slice_resident rd name -> name ∈ names.
Proof.
  induction rd as [|e rd IH]; intros acc names H name Hn; cbn [fold_try] in H.
  - injection H as <-. destruct Hn as [Hn|(os & Hos & _)]; [done|]. by apply not_elem_of_nil in Hos.
  - apply bind_Ok in H as (acc' & He & H). unfold resident_name in He. apply bind_Ok in He as (os & Hos & He). injection He as <-.
    apply (IH _ _ H). destruct Hn as [Hn|(os' & Hin & -> & Hend)].
    + left. destruct (ends_with _ _); [|done]. apply elem_of_app. by left.
    + apply elem_of_cons in Hin as [<-|Hin]; [|right; by exists os']. cbn in Hos. injection Hos as <-. left. rewrite Hend.
      apply elem_of_app. right. by left.
Qed.

Lemma all_served r : is_ok (into_result r) = true -> forallb is_match (rr_files r) = true.
Proof.
  unfold into_result, first_failure. destruct (List.find _ _) as [s|] eqn:Hf.
  - apply List.find_some in Hf as [_ Hs]. by destruct s.
  - intros _. apply forallb_forall. intros x Hx. pose proof (List.find_none _ _ Hf x Hx) as Hn. cbv beta in Hn. by destruct (is_match x).
Qed.

(** C33: when the readback of a directory serves it, the manifest is one of this build's
    layout, every entry's file is resident with the pinned length and the pinned SHA-256,
    every resident [.slice] file is listed, and the bytes counted are those of the entries. *)
Theorem served_directory dir m r (Hr : (report ← verify_dir dir m; into_result report) = Ok r) :
  validate_geometry m = Ok tt /\ Forall (resident_ok dir) (mf_slices m) /\ rr_matched_bytes r = QUARTER_SLICE_BYTES * Zlen (mf_slices m) /\
  exists rd, fs_read_dir dir = Ok rd /\ forall name, slice_resident rd name -> name ∈ se_file <$> mf_slices m.
Proof.
  apply bind_Ok in Hr as (report & Hd & Hi). assert (r = report) as ->.
  { unfold into_result in Hi. destruct (first_failure report) as [[]|]; congruence. }
  pose proof (all_served report ltac:(by rewrite Hi)) as Hall. unfold verify_dir in Hd.
  apply bind_Ok in Hd as ([] & Hv & Hd). apply bind_Ok in Hd as ([files bytes] & He & Hd). apply bind_Ok in Hd as (rd & Hrd & Hd).
  apply bind_Ok in Hd as (names & Hn & Hd). injection Hd as <-. cbn [rr_files rr_matched_bytes] in *.
  apply verify_entries in He as (ss & Hss & He). cbn in Hss, He. subst files.
  assert (forall s, s ∈ ss ++ (Unlisted <$> filter (fun name => negb (bool_decide (name ∈ se_file <$> mf_slices m))) (sort_by str_cmp names))
    -> is_match s = true) as Hms.
  { intros s Hs. rewrite forallb_forall in Hall. apply Hall. apply list_elem_of_In. by rewrite sort_by_Permutation. }
  destruct He as [Hok ->]. { apply forallb_forall. intros s Hs. apply Hms, elem_of_app. left. by apply list_elem_of_In. }
  split_and!; [done|done|lia|]. exists rd. split; [by destruct (fs_read_dir dir); inversion Hrd|].
  intros name Hname. destruct (decide (name ∈ se_file <$> mf_slices m)) as [|Hno]; [done|]. exfalso.
  specialize (Hms (Unlisted name)). discriminate Hms. apply elem_of_app. right. apply list_elem_of_fmap. exists name. split; [done|].
  apply list_elem_of_filter. split; [by rewrite bool_decide_false|]. rewrite sort_by_Permutation. apply (residents dir rd [] names Hn).
  by right.
Qed.

(** A directory of one slice. *)
Lemma one_served dir e bytes : fs_len dir (se_file e) = Some QUARTER_SLICE_BYTES -> fs_read dir (se_file e) = Ok bytes ->
  se_sha256 e = hex (sha256_spec bytes) -> fs_read_dir dir = Ok [Ok (utf8 (se_file e))] -> Forall scalar (se_file e) ->
  (report ← verify_dir dir (push Manifest_new e); into_result report)
  = Ok (mkReport [Match (se_file e) (se_sha256 e) QUARTER_SLICE_BYTES] QUARTER_SLICE_BYTES).
Proof.
  intros Hl Hr Hs Hd Hsc. unfold verify_dir.
  change (validate_geometry (push Manifest_new e)) with (validate_geometry Manifest_new). rewrite (proj1 new_ok), ok_bind.
  change (mf_slices (push Manifest_new e)) with [e].
  assert (verify_one dir e = Ok (Match (se_file e) (se_sha256 e) QUARTER_SLICE_BYTES)) as Hone.
  { unfold verify_one. rewrite Hl, Z.eqb_refl. cbn [negb]. rewrite Hr, sha_text_ok, ok_bind, <- Hs. by rewrite bool_decide_true. }
  cbn [fold_try]. unfold verify_entry at 1. rewrite Hone, !ok_bind. change (usize_add 0 QUARTER_SLICE_BYTES) with (Ok (E:=RepackError) QUARTER_SLICE_BYTES).
  rewrite !ok_bind, Hd. cbn [map_err]. rewrite ok_bind. cbn [fold_try]. unfold resident_name. cbn [map_err].
  rewrite !ok_bind, from_utf8_lossy_utf8 by done. cbv zeta. cbn [fmap list_fmap].
  assert (filter (fun name => negb (bool_decide (name ∈ [se_file e])))
    (sort_by str_cmp (if ends_with (se_file e) (str ".slice") then [] ++ [se_file e] else [])) = []) as ->.
  2: { by cbn. }
  destruct (ends_with _ _); [|done]. cbn [app sort_by foldr sort_insert]. apply filter_none. intros x ->%list_elem_of_singleton.
  rewrite bool_decide_true; [by intros []|by left].
Qed.

(** The entry of expert 0 of layer 1 with a digest, and the directory of a file for it. *)
Definition pinned_entry (sha : list Z) : SliceEntry :=
  mkSliceEntry (str (slice_file_name 1 0 0)) sha QUARTER_SLICE_BYTES 1 0 0 (str (shard_file 0)) (source_tensors 1 0).
Definition slices_dir (bytes : list Z) : Dir :=
  mkDir (fun _ => Some QUARTER_SLICE_BYTES) (fun _ => Ok bytes) (Ok [Ok (utf8 (str (slice_file_name 1 0 0)))]) to_string "slices".

Lemma pinned_served bytes : let e := pinned_entry (hex (sha256_spec bytes)) in
  (report ← verify_dir (slices_dir bytes) (push Manifest_new e); into_result report)
  = Ok (mkReport [Match (se_file e) (se_sha256 e) QUARTER_SLICE_BYTES] QUARTER_SLICE_BYTES).
Proof.
  intros e. apply (one_served (slices_dir bytes) e bytes); unfold e; generalize (hex (sha256_spec bytes)); intros sha; try reflexivity.
  apply (bool_decide_unpack _). vm_compute. reflexivity.
Qed.

Lemma served_directory_witness : let bytes := replicate (Z.to_nat QUARTER_SLICE_BYTES) 0 in
  let m := push Manifest_new (pinned_entry (hex (sha256_spec bytes))) in
  exists r, (report ← verify_dir (slices_dir bytes) m; into_result report) = Ok r /\
    validate_geometry m = Ok tt /\ Forall (resident_ok (slices_dir bytes)) (mf_slices m) /\
    rr_matched_bytes r = QUARTER_SLICE_BYTES * Zlen (mf_slices m) /\
    exists rd, fs_read_dir (slices_dir bytes) = Ok rd /\ forall name, slice_resident rd name -> name ∈ se_file <$> mf_slices m.
Proof.
  intros bytes m. eexists. split; [apply pinned_served|]. exact (served_directory (slices_dir bytes) m _ (pinned_served bytes)).
Defined.
