(* ===== verification/Safetensors.v ===== *)
(** The checkpoint reader (src/crates/mimo26-repack/src/safetensors.rs): the JSON header of a
    shard, the check of its ranges against the file and the bytes of a tensor.  A [String]
    is the list of its scalar values, a [BTreeMap] its entries in key order and a file the
    list of its bytes; recursion takes fuel, and [parse_header_json] gives enough of it.
    The reader adds unchecked 64-bit numbers of the header, so the build is an argument
    ([checks]: with overflow checks, or a release build, whose sums wrap).

    Reading a shard's header returns on every file.  With overflow checks the ranges that
    it accepts are inside the file, and each of its tensors is then read with the length
    it declares; a release build also accepts a range whose end wraps. *)
From Stdlib Require Import ZArith Lia Bool.
From stdpp Require Import base list gmap strings.
From S2P Require Import Prelude RepackGeom RepackSlice RepackProofs Utf8 Scan RepackJson.

(** * Definitions *)

(** The header parser's errors are messages, without the data they quote. *)
#[local] Abbreviation header := (outcome string).

(** No message: what the fuel of the model runs out with. *)
#[export] Instance header_fuel : Fuelled string := EmptyString.

Definition skip_ws : Parser -> Parser := skip_while is_ws.

Definition expect (c : Z) (p : Parser) : header (unit * Parser) :=
  if bool_decide (peek p = Some c) then Ok (tt, advance 1 p) else Err "expected a character"%string.

Definition hex_escape (p : Parser) : header (Z * Parser) :=
  if Nat.ltb (length (p_rest p)) 4 then Err "short \u escape"%string
  else
    hex ← ok_or (from_utf8 (take 4 (p_rest p))) "bad \u escape"%string;
    cp ← ok_or (u32_from_hex (utf8 hex)) "bad \u escape"%string;
    c ← ok_or (char_from_u32 cp) "bad code point"%string;
    Ok (c, advance 4 p).

Definition escape (p : Parser) : header (Z * Parser) :=
  match peek p with
  | None => Err "unterminated escape"%string
  | Some e =>
    let p := advance 1 p in
    if (e =? 0x22) || (e =? 0x5C) || (e =? 0x2F) then Ok (e, p)
    else if e =? 0x6E then Ok (0x0A, p)
    else if e =? 0x74 then Ok (0x09, p)
    else if e =? 0x72 then Ok (0x0D, p)
    else if e =? 0x62 then Ok (0x08, p)
    else if e =? 0x66 then Ok (0x0C, p)
    else if e =? 0x75 then hex_escape p
    else Err "bad escape"%string
  end.

Fixpoint string_loop (fuel : nat) (out : list Z) (p : Parser) : header (list Z * Parser) :=
  match fuel with
  | O => Err out_of_fuel
  | S fuel =>
    match peek p with
    | None => Err "unterminated string"%string
    | Some c =>
      let p := advance 1 p in
      if c =? 0x22 then Ok (out, p)
      else if c =? 0x5C then '(e, p) ← escape p; string_loop fuel (out ++ [e]) p
      else string_loop fuel (out ++ [c]) p
    end
  end.

Definition string_ (p : Parser) : header (list Z * Parser) :=
  '(_, p) ← expect 0x22 p; string_loop (S (length (p_rest p))) [] p.

(** [str::parse::<u64>] of a run of digits. *)
Definition parse_u64 (ds : list Z) : option Z :=
  n ← dec_digits_val ds; if n <? 2 ^ 64 then Some n else None.

Definition number (start : Parser) : header (Z * Parser) :=
  let p := skip_while is_ascii_digit start in
  if p_pos p =? p_pos start then Err "expected a number"%string
  else
    text ← ok_or (from_utf8 (take (Z.to_nat (p_pos p - p_pos start)) (p_rest start))) "bad number"%string;
    n ← ok_or (parse_u64 text) "bad number"%string;
    Ok (n, p).

Fixpoint numbers_loop (fuel : nat) (out : list Z) (p : Parser) : header (list Z * Parser) :=
  match fuel with
  | O => Err out_of_fuel
  | S fuel =>
    '(n, p) ← number (skip_ws p);
    let out := out ++ [n] in
    let p := skip_ws p in
    match peek p with
    | Some b =>
      if b =? 0x2C then numbers_loop fuel out (advance 1 p)
      else if b =? 0x5D then Ok (out, advance 1 p)
      else Err "expected ',' or ']'"%string
    | None => Err "expected ',' or ']'"%string
    end
  end.

Definition usize_array (p : Parser) : header (list Z * Parser) :=
  '(_, p) ← expect 0x5B p;
  let p := skip_ws p in
  if bool_decide (peek p = Some 0x5D) then Ok ([], advance 1 p)
  else numbers_loop (S (length (p_rest p))) [] p.

Definition is_ascii_alphabetic (b : Z) : bool := between 0x41 0x5A b || between 0x61 0x7A b.

(** A value that is passed over: the word after [t], [f] or [n] is not read. *)
Fixpoint skip_value (fuel : nat) (p : Parser) : header (unit * Parser) :=
  match fuel with
  | O => Err out_of_fuel
  | S fuel =>
    let p := skip_ws p in
    match peek p with
    | Some c =>
      if c =? 0x22 then '(_, p) ← string_ p; Ok (tt, p)
      else if c =? 0x7B then
        let p := skip_ws (advance 1 p) in
        if bool_decide (peek p = Some 0x7D) then Ok (tt, advance 1 p) else skip_entries fuel p
      else if c =? 0x5B then
        let p := skip_ws (advance 1 p) in
        if bool_decide (peek p = Some 0x5D) then Ok (tt, advance 1 p) else skip_items fuel p
      else if (c =? 0x74) || (c =? 0x66) || (c =? 0x6E) then Ok (tt, skip_while is_ascii_alphabetic p)
      else if is_ascii_digit c || (c =? 0x2D) then
        let p := if c =? 0x2D then advance 1 p else p in
        '(_, p) ← number p;
        if bool_decide (peek p = Some 0x2E) then '(_, p) ← number (advance 1 p); Ok (tt, p) else Ok (tt, p)
      else Err "unexpected character in JSON value"%string
    | None => Err "unexpected character in JSON value"%string
    end
  end
with skip_entries (fuel : nat) (p : Parser) : header (unit * Parser) :=
  match fuel with
  | O => Err out_of_fuel
  | S fuel =>
    '(_, p) ← string_ (skip_ws p);
    '(_, p) ← expect 0x3A (skip_ws p);
    '(_, p) ← skip_value fuel p;
    let p := skip_ws p in
    match peek p with
    | Some b =>
      if b =? 0x2C then skip_entries fuel (advance 1 p)
      else if b =? 0x7D then Ok (tt, advance 1 p)
      else Err "expected ',' or '}'"%string
    | None => Err "expected ',' or '}'"%string
    end
  end
with skip_items (fuel : nat) (p : Parser) : header (unit * Parser) :=
  match fuel with
  | O => Err out_of_fuel
  | S fuel =>
    '(_, p) ← skip_value fuel p;
    let p := skip_ws p in
    match peek p with
    | Some b =>
      if b =? 0x2C then skip_items fuel (advance 1 p)
      else if b =? 0x5D then Ok (tt, advance 1 p)
      else Err "expected ',' or ']'"%string
    | None => Err "expected ',' or ']'"%string
    end
  end.

(** The fuel for the value at a parser. *)
Definition skip (p : Parser) : header (unit * Parser) := skip_value (2 * length (p_rest p) + 1) p.

(** ** Entries *)
Record Fields := mkFields { fd_dtype : option (list Z); fd_shape : option (list Z); fd_offsets : option (Z * Z) }.

(** The arm of a key: the value is read or passed over. *)
Definition entry_field (key : list Z) (f : Fields) (p : Parser) : header (Fields * Parser) :=
  if bool_decide (key = str "dtype") then
    '(s, p) ← string_ p; Ok (mkFields (Some s) (fd_shape f) (fd_offsets f), p)
  else if bool_decide (key = str "shape") then
    '(s, p) ← usize_array p; Ok (mkFields (fd_dtype f) (Some s) (fd_offsets f), p)
  else if bool_decide (key = str "data_offsets") then
    '(v, p) ← usize_array p;
    match v with
    | [a; b] => Ok (mkFields (fd_dtype f) (fd_shape f) (Some (a, b)), p)
    | _ => Err "data_offsets must have 2 entries"%string
    end
  else '(_, p) ← skip p; Ok (f, p).

Fixpoint fields_loop (fuel : nat) (f : Fields) (p : Parser) : header (Fields * Parser) :=
  match fuel with
  | O => Err out_of_fuel
  | S fuel =>
    '(key, p) ← string_ (skip_ws p);
    '(_, p) ← expect 0x3A (skip_ws p);
    '(f, p) ← entry_field key f (skip_ws p);
    let p := skip_ws p in
    match peek p with
    | Some b =>
      if b =? 0x2C then fields_loop fuel f (advance 1 p)
      else if b =? 0x7D then Ok (f, advance 1 p)
      else Err "expected ',' or '}'"%string
    | None => Err "expected ',' or '}'"%string
    end
  end.

Definition tensor_entry (p : Parser) : header (TensorEntry * Parser) :=
  '(_, p) ← expect 0x7B p;
  let p := skip_ws p in
  if bool_decide (peek p = Some 0x7D) then Err "tensor entry has no fields"%string
  else
    '(f, p) ← fields_loop (S (length (p_rest p))) (mkFields None None None) p;
    dtype ← ok_or (fd_dtype f) "tensor entry missing dtype"%string;
    shape ← ok_or (fd_shape f) "tensor entry missing shape"%string;
    data_offsets ← ok_or (fd_offsets f) "tensor entry missing data_offsets"%string;
    if snd data_offsets <? fst data_offsets then Err "data_offsets are reversed"%string
    else Ok (mkTensorEntry (to_string dtype) shape data_offsets, p).

(** ** The header *)
#[local] Abbreviation tensors := (list (list Z * TensorEntry)).

Definition header_entry (key : list Z) (out : tensors) (p : Parser) : header (tensors * Parser) :=
  if bool_decide (key = str "__metadata__") then '(_, p) ← skip p; Ok (out, p)
  else '(entry, p) ← tensor_entry p; Ok (map_insert key entry out, p).

Fixpoint header_loop (fuel : nat) (out : tensors) (p : Parser) : header (tensors * Parser) :=
  match fuel with
  | O => Err out_of_fuel
  | S fuel =>
    '(key, p) ← string_ (skip_ws p);
    '(_, p) ← expect 0x3A (skip_ws p);
    '(out, p) ← header_entry key out (skip_ws p);
    let p := skip_ws p in
    match peek p with
    | Some b =>
      if b =? 0x2C then header_loop fuel out (advance 1 p)
      else if b =? 0x7D then Ok (out, advance 1 p)
      else Err "expected ',' or '}' after header entry"%string
    | None => Err "expected ',' or '}' after header entry"%string
    end
  end.

Definition parse_header_json (text : list Z) : header tensors :=
  let s := utf8 text in
  '(_, p) ← expect 0x7B (skip_ws {| p_pos := 0; p_rest := s |});
  let p := skip_ws p in
  '(out, p) ← (if bool_decide (peek p = Some 0x7D) then Ok ([], advance 1 p) else header_loop (S (length (p_rest p))) [] p);
  let p := skip_ws p in
  if negb (p_pos p =? Zlen s) then Err "trailing bytes after header JSON"%string else Ok out.

Record SafetensorsHeader := mkHeader { sh_tensors : tensors; sh_data_start : Z; sh_file_len : Z }.

(** [u64] addition: past the width a build with overflow checks panics, and any other wraps. *)
Definition u64_sum {E} (checks : bool) (a b : Z) : outcome E Z :=
  if a + b <? 2 ^ 64 then Ok (a + b) else if checks then Panic else Ok ((a + b) mod 2 ^ 64).

(** Every declared range must fit inside the file. *)
Definition check_range (checks : bool) (p : string) (data_start file_len : Z) (nt : list Z * TensorEntry) : outcome RepackError unit :=
  end_ ← u64_sum checks data_start (snd (te_offsets (snd nt)));
  if file_len <? end_ then Err (Truncated (p +:+ ":" +:+ to_string (fst nt)) end_ file_len) else Ok tt.

(** [SafetensorsHeader::read] of the file at [p]. *)
Definition read_header (checks : bool) (p : string) (file : outcome string (list Z)) : outcome RepackError SafetensorsHeader :=
  bytes ← map_err (Io p) file;
  let file_len := Zlen bytes in
  if file_len <? 8 then Err (BadSafetensors (p +:+ ": shorter than the 8-byte header length"))
  else
    let header_len := le_val (take 8 bytes) in
    if (header_len =? 0) || (file_len - 8 <? header_len) then Err (BadSafetensors (p +:+ ": header length does not fit"))
    else
      hdr ← index_range bytes 8 (8 + header_len);
      text ← ok_or (from_utf8 hdr) (BadSafetensors (p +:+ ": header is not UTF-8"));
      tensors ← map_err (fun e => BadSafetensors (p +:+ ": " +:+ e)) (parse_header_json text);
      let data_start := 8 + header_len in
      _ ← for_each (check_range checks p data_start file_len) tensors;
      Ok (mkHeader tensors data_start file_len).

Definition byte_len (t : TensorEntry) : Z := snd (te_offsets t) - fst (te_offsets t).

(** A seek takes a signed offset and a vector at most [2 ^ 63 - 1] bytes; [read_exact] fails on a
    file that ends before the buffer is full. *)
Definition read_tensor (checks : bool) (h : SafetensorsHeader) (p : string) (file : outcome string (list Z)) (name : list Z)
    : outcome RepackError (list Z) :=
  t ← ok_or (map_get name (sh_tensors h)) (MissingTensor (to_string name));
  bytes ← map_err (Io p) file;
  start ← u64_sum checks (sh_data_start h) (fst (te_offsets t));
  if 2 ^ 63 <=? start then Err (Io p "Invalid argument") else
  if 2 ^ 63 <=? byte_len t then Panic else
  let buf := take (Z.to_nat (byte_len t)) (drop (Z.to_nat start) bytes) in
  if Zlen buf =? byte_len t then Ok buf else Err (Io p "failed to fill whole buffer").

Definition header_text : list Z :=
  [0x7B] ++ json_str (str "__metadata__") ++ str ": {" ++ json_str (str "k") ++ str ": [1.5, -2, null, {}]}, "
  ++ json_str (str "t") ++ str ":{" ++ json_str (str "shape") ++ str ":[2, 3]," ++ json_str (str "dtype") ++ str ":" ++ json_str (str "U8")
  ++ str "," ++ json_str (str "data_offsets") ++ str ":[0,6]} } ".

Example one_tensor : parse_header_json header_text = Ok [(str "t", mkTensorEntry "U8" [2; 3] (0, 6))] /\
  parse_header_json (str "{} x") = Err "trailing bytes after header JSON"%string.
Proof. vm_compute. done. Qed.

(** * The reader returns *)
Lemma skip_ws_length p : (length (p_rest (skip_ws p)) <= length (p_rest p))%nat.
Proof. apply skip_while_length. Qed.

Lemma hdr_expect_shrinks c p : shrinks (length (p_rest p)) (expect c p).
Proof.
  unfold expect. case_bool_decide as Hp; [|done]. apply peek_Some in Hp. cbn -[advance]. rewrite advance_length. lia.
Qed.

Lemma hdr_hex_escape_shrinks p : shrinks (length (p_rest p)) (hex_escape p).
Proof.
  unfold hex_escape. destruct (Nat.ltb_spec (length (p_rest p)) 4); [done|]. do 3 (apply shrinks_ok_or; [done|]; intros ?).
  cbn -[advance]. rewrite advance_length. lia.
Qed.

Lemma hdr_escape_shrinks p : shrinks (length (p_rest p)) (escape p).
Proof.
  unfold escape. destruct (peek p) as [e|] eqn:Hp; [|done]. apply peek_Some in Hp.
  pose proof (advance_length 1 p) as Ha. set (q := advance 1 p) in *. clearbody q.
  assert (forall c : Z, shrinks (length (p_rest p)) (Ok (c, q))) as Hq by (intros; cbn; lia).
  destruct ((e =? 0x22) || _ || _); [apply Hq|]. repeat (destruct (e =? _); [try apply Hq|]); [|done].
  eapply shrinks_weaken; [|apply hdr_hex_escape_shrinks]. lia.
Qed.

Lemma hdr_string_loop_shrinks fuel out p :
  (length (p_rest p) < fuel)%nat -> shrinks (length (p_rest p)) (string_loop fuel out p).
Proof.
  revert out p. induction fuel as [|fuel IH]; intros out p Hf; [lia|].
  cbn -[advance]. destruct (peek p) as [c|] eqn:Hp; [|done]. apply peek_Some in Hp.
  pose proof (advance_length 1 p) as Ha. set (q := advance 1 p) in *. clearbody q.
  destruct (c =? 0x22); [cbn; lia|]. destruct (c =? 0x5C).
  - eapply shrinks_bind; [apply hdr_escape_shrinks|]. intros e p1 H1. eapply shrinks_weaken; [|apply IH]; lia.
  - eapply shrinks_weaken; [|apply IH]; lia.
Qed.

Lemma hdr_string_shrinks p : shrinks (length (p_rest p)) (string_ p).
Proof.
  unfold string_. eapply shrinks_bind; [apply hdr_expect_shrinks|]. intros _ q Hq.
  eapply shrinks_weaken; [|apply hdr_string_loop_shrinks]; lia.
Qed.

Lemma skip_while_pos f p : p_pos (skip_while f p) = p_pos p + Z.of_nat (count_while f (p_rest p)).
Proof. done. Qed.

Lemma hdr_number_shrinks p : shrinks (length (p_rest p)) (number p).
Proof.
  unfold number. destruct (Z.eqb_spec (p_pos (skip_while is_ascii_digit p)) (p_pos p)) as [|Hne]; [done|].
  rewrite skip_while_pos in Hne. apply shrinks_ok_or; [done|intros text]. apply shrinks_ok_or; [done|intros n].
  cbn -[skip_while]. unfold skip_while. rewrite advance_length.
  destruct (p_rest p) as [|b r]; [cbn in Hne; lia|]. cbn [length]. lia.
Qed.

Lemma numbers_loop_shrinks fuel : forall out p, (length (p_rest p) < fuel)%nat -> shrinks (length (p_rest p)) (numbers_loop fuel out p).
Proof.
  induction fuel as [|fuel IH]; intros out p Hf; [lia|]. cbn -[advance skip_ws]. pose proof (skip_ws_length p).
  eapply shrinks_bind; [apply hdr_number_shrinks|]. intros n p1 L1. pose proof (skip_ws_length p1).
  apply (after_item _ _ 0x5D (numbers_loop fuel (out ++ [n])) (out ++ [n]) (fun _ => "expected ',' or ']'"%string)); [lia| |done].
  intros p2 L2. eapply shrinks_weaken; [|apply IH]; lia.
Qed.

Lemma usize_array_shrinks p : shrinks (length (p_rest p)) (usize_array p).
Proof.
  unfold usize_array. eapply shrinks_bind; [apply hdr_expect_shrinks|]. intros _ q Hq. pose proof (skip_ws_length q).
  case_bool_decide; [cbn -[advance skip_ws]; rewrite advance_length; lia|]. eapply shrinks_weaken; [|apply numbers_loop_shrinks]; lia.
Qed.

Lemma skip_word c p : peek p = Some c -> (c =? 0x74) || (c =? 0x66) || (c =? 0x6E) = true ->
  (length (p_rest (skip_while is_ascii_alphabetic p)) < length (p_rest p))%nat.
Proof.
  intros Hp Hc. unfold skip_while. rewrite advance_length. unfold peek in Hp. destruct (p_rest p) as [|b r]; [done|].
  injection Hp as ->. rewrite !orb_true_iff, !Z.eqb_eq in Hc. cbn [count_while].
  assert (is_ascii_alphabetic c = true) as -> by (destruct Hc as [[-> | ->] | ->]; done). cbn [length]. lia.
Qed.

Lemma skips_shrink fuel :
  (forall p, (2 * length (p_rest p) + 1 <= fuel)%nat -> shrinks (length (p_rest p)) (skip_value fuel p)) /\
  (forall p, (2 * length (p_rest p) + 2 <= fuel)%nat -> shrinks (length (p_rest p)) (skip_entries fuel p)) /\
  (forall p, (2 * length (p_rest p) + 2 <= fuel)%nat -> shrinks (length (p_rest p)) (skip_items fuel p)).
Proof.
  induction fuel as [|fuel (IHv & IHe & IHi)]; [split_and!; intros; lia|]. split_and!.
  - intros p0 Hf. cbn -[advance skip_ws expect string_ number skip_while]. pose proof (skip_ws_length p0) as H0.
    set (p := skip_ws p0) in *. clearbody p. destruct (peek p) as [c|] eqn:Hp; [|done]. pose proof (peek_Some _ _ Hp) as Hl.
    pose proof (advance_length 1 p) as Ha. pose proof (skip_ws_length (advance 1 p)) as Hs. apply (shrinks_weaken (length (p_rest p))); [lia|].
    destruct (c =? 0x22); [eapply shrinks_bind; [apply hdr_string_shrinks|]; cbn; lia|].
    do 2 (destruct (c =? _); [case_bool_decide;
      [cbn -[advance skip_ws]; rewrite advance_length; lia|]; eapply shrinks_weaken; [|(apply IHe || apply IHi); lia]; lia|]).
    destruct ((c =? 0x74) || _ || _) eqn:Hw; [by eapply skip_word|].
    destruct (is_ascii_digit c || (c =? 0x2D)); [|done]. set (q := if c =? 0x2D then advance 1 p else p).
    assert (length (p_rest q) <= length (p_rest p))%nat as Hq by (unfold q; destruct (c =? 0x2D); lia). clearbody q.
    eapply shrinks_bind; [apply hdr_number_shrinks|]. intros n p1 H1. case_bool_decide as Hdot; [|cbn; lia].
    pose proof (advance_length 1 p1). eapply shrinks_bind; [apply hdr_number_shrinks|]. intros n' p2 H2. cbn. lia.
  - intros p Hf. cbn -[advance skip_ws expect string_]. pose proof (skip_ws_length p).
    eapply shrinks_bind; [apply hdr_string_shrinks|]. intros k p1 L1. pose proof (skip_ws_length p1).
    eapply shrinks_bind; [apply hdr_expect_shrinks|]. intros _ p2 L2.
    eapply shrinks_bind; [apply IHv; lia|]. intros _ p3 L3. pose proof (skip_ws_length p3).
    apply (after_item _ _ 0x7D (skip_entries fuel) tt (fun _ => "expected ',' or '}'"%string)); [lia| |done].
    intros p4 L4. eapply shrinks_weaken; [|apply IHe]; lia.
  - intros p Hf. cbn -[advance skip_ws]. eapply shrinks_bind; [apply IHv; lia|]. intros _ p1 L1. pose proof (skip_ws_length p1).
    apply (after_item _ _ 0x5D (skip_items fuel) tt (fun _ => "expected ',' or ']'"%string)); [lia| |done].
    intros p2 L2. eapply shrinks_weaken; [|apply IHi]; lia.
Qed.

Lemma skip_shrinks p : shrinks (length (p_rest p)) (skip p).
Proof. apply skips_shrink. lia. Qed.

Lemma entry_field_shrinks key f p : shrinks (length (p_rest p)) (entry_field key f p).
Proof.
  unfold entry_field. case_bool_decide; [eapply shrinks_bind; [apply hdr_string_shrinks|]; cbn; lia|].
  case_bool_decide; [eapply shrinks_bind; [apply usize_array_shrinks|]; cbn; lia|].
  case_bool_decide; [|eapply shrinks_bind; [apply skip_shrinks|]; cbn; lia].
  eapply shrinks_bind; [apply usize_array_shrinks|]. intros v p1 L1. destruct v as [|a [|b [|? ?]]]; (done || (cbn; lia)).
Qed.

Lemma fields_loop_shrinks fuel : forall f p, (length (p_rest p) < fuel)%nat -> shrinks (length (p_rest p)) (fields_loop fuel f p).
Proof.
  induction fuel as [|fuel IH]; intros f p Hf; [lia|]. cbn -[advance skip_ws expect string_ entry_field]. pose proof (skip_ws_length p).
  eapply shrinks_bind; [apply hdr_string_shrinks|]. intros k p1 L1. pose proof (skip_ws_length p1).
  eapply shrinks_bind; [apply hdr_expect_shrinks|]. intros _ p2 L2. pose proof (skip_ws_length p2).
  eapply shrinks_bind; [apply entry_field_shrinks|]. intros f' p3 L3. pose proof (skip_ws_length p3).
  apply (after_item _ _ 0x7D (fields_loop fuel f') f' (fun _ => "expected ',' or '}'"%string)); [lia| |done].
  intros p4 L4. eapply shrinks_weaken; [|apply IH]; lia.
Qed.

Lemma tensor_entry_shrinks p : shrinks (length (p_rest p)) (tensor_entry p).
Proof.
  unfold tensor_entry. eapply shrinks_bind; [apply hdr_expect_shrinks|]. intros _ q Hq. pose proof (skip_ws_length q).
  case_bool_decide; [done|]. eapply shrinks_bind; [apply fields_loop_shrinks; lia|]. intros f p1 H1.
  do 3 (apply shrinks_ok_or; [done|]; intros ?). destruct (_ <? _); [done|]. cbn. lia.
Qed.

Lemma header_entry_shrinks key out p : shrinks (length (p_rest p)) (header_entry key out p).
Proof.
  unfold header_entry. case_bool_decide; (eapply shrinks_bind; [apply skip_shrinks || apply tensor_entry_shrinks|]; cbn; lia).
Qed.

Lemma header_loop_shrinks fuel : forall out p, (length (p_rest p) < fuel)%nat -> shrinks (length (p_rest p)) (header_loop fuel out p).
Proof.
  induction fuel as [|fuel IH]; intros out p Hf; [lia|]. cbn -[advance skip_ws expect string_ header_entry]. pose proof (skip_ws_length p).
  eapply shrinks_bind; [apply hdr_string_shrinks|]. intros k p1 L1. pose proof (skip_ws_length p1).
  eapply shrinks_bind; [apply hdr_expect_shrinks|]. intros _ p2 L2. pose proof (skip_ws_length p2).
  eapply shrinks_bind; [apply header_entry_shrinks|]. intros f' p3 L3. pose proof (skip_ws_length p3).
  apply (after_item _ _ 0x7D (header_loop fuel f') f' (fun _ => "expected ',' or '}' after header entry"%string)); [lia| |done].
  intros p4 L4. eapply shrinks_weaken; [|apply IH]; lia.
Qed.

(** Reading a header never panics, and the fuel of the model is enough. *)
Lemma parse_header_returns text : match parse_header_json text with Ok _ => True | Err e => e <> out_of_fuel | Panic => False end.
Proof.
  unfold parse_header_json. pose proof (hdr_expect_shrinks 0x7B (skip_ws {| p_pos := 0; p_rest := utf8 text |})) as He.
  destruct (expect _ _) as [[[] p]|e|]; [|exact He|done]. rewrite ok_bind. cbv zeta.
  assert (match (if bool_decide (peek (skip_ws p) = Some 0x7D) then Ok ([], advance 1 (skip_ws p))
                 else header_loop (S (length (p_rest (skip_ws p)))) [] (skip_ws p)) with
          | Ok _ => True | Err e => e <> out_of_fuel | Panic => False end) as H.
  { case_bool_decide as Hb; [done|]. pose proof (header_loop_shrinks (S (length (p_rest (skip_ws p)))) [] (skip_ws p) ltac:(lia)) as H.
    by destruct (header_loop _ _ _) as [[? ?]| |]. }
  destruct (if bool_decide _ then _ else _) as [[out q]|e|]; [|exact H|done]. rewrite ok_bind. by destruct (negb _).
Qed.

(** * What is read *)
Definition range_ok (t : TensorEntry) : Prop := 0 <= fst (te_offsets t) <= snd (te_offsets t) /\ snd (te_offsets t) < 2 ^ 64.

Lemma dec_val_nonneg ds : forall acc, 0 <= acc -> Forall (fun b => is_ascii_digit b = true) ds ->
  0 <= foldl (fun acc b => acc * 10 + (b - 0x30)) acc ds.
Proof.
  induction ds as [|b ds IH]; intros acc Hacc Hds; [done|]. apply Forall_cons in Hds as [Hb Hds]. apply digit_range in Hb. cbn [foldl].
  apply IH; [lia|done].
Qed.

Lemma number_range p n q : number p = Ok (n, q) -> 0 <= n < 2 ^ 64.
Proof.
  unfold number. destruct (_ =? _); [done|]. intros (t & _ & (m & Hm & H)%bind_Ok)%bind_Ok. injection H as -> _.
  unfold parse_u64 in Hm. destruct (dec_digits_val t) as [x|] eqn:Hd; [|done]. cbn in Hm. destruct (Z.ltb_spec x (2 ^ 64)); [|done].
  injection Hm as ->. unfold dec_digits_val in Hd. case_bool_decide as Hnil; [done|]. destruct (forallb _ t) eqn:Ht; [|done]. injection Hd as <-.
  split; [|done]. apply dec_val_nonneg; [done|]. apply List.Forall_forall. by apply forallb_forall.
Qed.

(** The byte after an item: another item, or the end. *)
Lemma after_item_Ok {E A} (more : Parser -> outcome E (A * Parser)) (a : A) close p e1 e2 r :
  match peek p with
  | Some b => if b =? 0x2C then more (advance 1 p) else if b =? close then Ok (a, advance 1 p) else Err e1
  | None => Err e2
  end = Ok r -> more (advance 1 p) = Ok r \/ r.1 = a.
Proof. destruct (peek p) as [b|]; [|done]. destruct (b =? 0x2C); [by left|]. destruct (b =? close); [|done]. intros [= <-]. by right. Qed.

Lemma numbers_loop_range fuel : forall out p r, Forall u64_range out -> numbers_loop fuel out p = Ok r -> Forall u64_range r.1.
Proof.
  induction fuel as [|fuel IH]; intros out p r Hout H; [done|]. cbn [numbers_loop] in H. apply bind_Ok in H as ([n p1] & Hn & H).
  assert (Forall u64_range (out ++ [n])) as Hon by (apply Forall_app_2; [done|]; constructor; [by eapply number_range|done]).
  cbv zeta in H. apply after_item_Ok in H as [H | ->]; [by eapply IH|done].
Qed.

Lemma usize_array_range p r : usize_array p = Ok r -> Forall u64_range r.1.
Proof.
  unfold usize_array. intros ([[] q] & _ & H)%bind_Ok. cbv zeta in H. case_bool_decide as Hb; [by injection H as <-|].
  eapply numbers_loop_range, H. constructor.
Qed.

Definition offsets_ok (f : Fields) : Prop := match fd_offsets f with Some (a, b) => u64_range a /\ u64_range b | None => True end.

Lemma entry_field_offsets key f p r : offsets_ok f -> entry_field key f p = Ok r -> offsets_ok r.1.
Proof.
  intros Hf. unfold entry_field. case_bool_decide as H1; [|case_bool_decide as H2; [|case_bool_decide as H3]]; intros ([v q] & Hv & H)%bind_Ok.
  1,2,4: by injection H as <-.
  apply usize_array_range in Hv. cbn [fst] in Hv. destruct v as [|a [|b [|? ?]]]; [done..| |done]. injection H as <-.
  apply Forall_cons in Hv as [Ha Hv]. apply Forall_cons in Hv as [Hb _]. done.
Qed.

Lemma fields_loop_offsets fuel : forall f p r, offsets_ok f -> fields_loop fuel f p = Ok r -> offsets_ok r.1.
Proof.
  induction fuel as [|fuel IH]; intros f p r Hf H; [done|]. cbn [fields_loop] in H. apply bind_Ok in H as ([k p1] & _ & H).
  apply bind_Ok in H as ([[] p2] & _ & H). apply bind_Ok in H as ([f' p3] & Hf' & H). apply entry_field_offsets in Hf'; [|done].
  cbv zeta in H. apply after_item_Ok in H as [H | ->]; [by eapply IH|done].
Qed.

Lemma tensor_entry_range p r : tensor_entry p = Ok r -> range_ok r.1.
Proof.
  unfold tensor_entry. intros ([[] q] & _ & H)%bind_Ok. cbv zeta in H. case_bool_decide as Hb; [done|].
  apply bind_Ok in H as ([f p1] & Hf & H). apply fields_loop_offsets in Hf; [|done]. cbn [fst] in Hf.
  apply bind_Ok in H as (dt & _ & H). apply bind_Ok in H as (sh & _ & H). apply bind_Ok in H as ([a b] & Ho & H).
  cbn [fst snd] in H. destruct (Z.ltb_spec b a); [done|]. injection H as <-. unfold range_ok. cbn.
  unfold offsets_ok in Hf. destruct (fd_offsets f) as [[a' b']|]; [|done]. injection Ho as -> ->. unfold u64_range in Hf. lia.
Qed.

Lemma map_insert_Forall {V} (P : V -> Prop) k (v : V) m : P v -> Forall (fun e => P e.2) m -> Forall (fun e => P e.2) (map_insert k v m).
Proof.
  intros Hv. induction 1 as [|[k' w] m Hw Hm IH]; [by repeat constructor|]. cbn [map_insert].
  destruct (lex (utf8 k) (utf8 k')); repeat constructor; done.
Qed.

Definition ranges_ok (ts : list (list Z * TensorEntry)) : Prop := Forall (fun e => range_ok e.2) ts.

Lemma header_entry_ranges key out p r : ranges_ok out -> header_entry key out p = Ok r -> ranges_ok r.1.
Proof.
  intros Hout. unfold header_entry. case_bool_decide as Hb; intros ([v q] & Hv & H)%bind_Ok; injection H as <-; [done|].
  apply tensor_entry_range in Hv. by apply (map_insert_Forall range_ok).
Qed.

Lemma header_loop_ranges fuel : forall out p r, ranges_ok out -> header_loop fuel out p = Ok r -> ranges_ok r.1.
Proof.
  induction fuel as [|fuel IH]; intros out p r Hout H; [done|]. cbn [header_loop] in H. apply bind_Ok in H as ([k p1] & _ & H).
  apply bind_Ok in H as ([[] p2] & _ & H). apply bind_Ok in H as ([o' p3] & Ho & H). apply header_entry_ranges in Ho; [|done].
  cbv zeta in H. apply after_item_Ok in H as [H | ->]; [by eapply IH|done].
Qed.

Lemma parse_header_ranges text ts : parse_header_json text = Ok ts -> ranges_ok ts.
Proof.
  unfold parse_header_json. intros ([[] q] & _ & H)%bind_Ok. cbv zeta in H. apply bind_Ok in H as ([out p1] & Ho & H).
  assert (ranges_ok out) as Hout.
  { case_bool_decide as Hb; [injection Ho as <- _; constructor|]. by apply header_loop_ranges in Ho; [|constructor]. }
  destruct (negb _); [done|]. by injection H as <-.
Qed.

Lemma map_get_In {V} k (m : list (list Z * V)) v : map_get k m = Some v -> (k, v) ∈ m.
Proof. induction m as [|[k' w] m IH]; [done|]. cbn. case_bool_decide as Hk; [intros [= ->]; subst; by left|]. intros H%IH. by right. Qed.

(** The sum of two [u64]s that a build returns, and when it is not their sum. *)
Lemma u64_sum_Ok {E} checks a b x : 0 <= a < 2 ^ 64 -> 0 <= b < 2 ^ 64 -> u64_sum (E:=E) checks a b = Ok x ->
  x = a + b /\ a + b < 2 ^ 64 \/ checks = false /\ 2 ^ 64 <= a + b /\ x = a + b - 2 ^ 64.
Proof.
  intros Ha Hb. unfold u64_sum. destruct (Z.ltb_spec (a + b) (2 ^ 64)); [intros [= <-]; by left|].
  destruct checks; [done|]. intros [= <-]. right. split_and!; [done|done|].
  symmetry. apply (Z.mod_unique _ _ 1); lia.
Qed.

Lemma u64_sum_small {E} checks a b : a + b < 2 ^ 64 -> u64_sum (E:=E) checks a b = Ok (a + b).
Proof. intros. unfold u64_sum. by rewrite (proj2 (Z.ltb_lt _ _)). Qed.

Lemma u64_sum_wraps {E} a b : 2 ^ 64 <= a + b < 2 ^ 65 -> u64_sum (E:=E) false a b = Ok (a + b - 2 ^ 64).
Proof.
  intros. unfold u64_sum. rewrite (proj2 (Z.ltb_ge _ _)) by lia. f_equal.
  symmetry. apply (Z.mod_unique _ _ 1); lia.
Qed.

(** The end of a tensor's range in its file, when it is a [u64] and when it is not. *)
Definition range_end (h : SafetensorsHeader) (t : TensorEntry) : Z := sh_data_start h + snd (te_offsets t).

Lemma header_inside checks p bytes h : Zlen bytes < 2 ^ 63 -> read_header checks p (Ok bytes) = Ok h ->
  8 <= sh_data_start h <= Zlen bytes /\
  Forall (fun e => range_ok e.2 /\
    (range_end h e.2 <= Zlen bytes \/ checks = false /\ 2 ^ 64 <= range_end h e.2 /\ range_end h e.2 - 2 ^ 64 <= Zlen bytes))
    (sh_tensors h).
Proof.
  intros Hsize. unfold read_header. cbn [map_err]. rewrite ok_bind. cbv zeta. destruct (Z.ltb_spec (Zlen bytes) 8) as [|H8]; [done|].
  set (len := le_val (take 8 bytes)). destruct (Z.eqb_spec len 0) as [|H0]; [done|]. destruct (Z.ltb_spec (Zlen bytes - 8) len); [done|].
  cbn [orb]. intros (hdr & Hhdr & (text & _ & (ts & Hts & ([] & Hall & Hh)%bind_Ok)%bind_Ok)%bind_Ok)%bind_Ok. injection Hh as <-.
  cbn [sh_data_start sh_tensors]. assert (0 <= len) as Hlen.
  { unfold index_range in Hhdr. destruct (Z.leb_spec 0 8); [|done]. destruct (Z.leb_spec 8 (8 + len)); [lia|done]. }
  split; [lia|]. apply for_each_Ok in Hall. destruct (parse_header_json text) as [ts'| |] eqn:Hp; [|done..]. injection Hts as ->.
  apply parse_header_ranges in Hp. apply Forall_forall. intros e He. rewrite Forall_forall in Hall. specialize (Hall e He).
  unfold ranges_ok in Hp. rewrite Forall_forall in Hp. specialize (Hp e He). split; [done|].
  unfold check_range in Hall. apply bind_Ok in Hall as (x & Hx & Hall). destruct Hp as [? ?]. unfold range_end. cbn [sh_data_start].
  apply u64_sum_Ok in Hx; [|lia|lia]. destruct (Z.ltb_spec (Zlen bytes) x); [done|].
  destruct Hx as [[-> _]|(-> & ? & ->)]; [by left|by right].
Qed.

(** Reading a range of the file. *)
Lemma read_at {E} (bytes : list Z) a n (e : E) : 0 <= a -> 0 <= n -> a + n <= Zlen bytes ->
  (let buf := take (Z.to_nat n) (drop (Z.to_nat a) bytes) in if Zlen buf =? n then Ok buf else Err e)
  = Ok (slice bytes a (a + n)).
Proof.
  intros Ha Hn Hle. cbv zeta. assert (take (Z.to_nat n) (drop (Z.to_nat a) bytes) = slice bytes a (a + n)) as ->.
  { unfold slice. f_equal. f_equal. lia. }
  rewrite (slice_length bytes) by lia. by rewrite (proj2 (Z.eqb_eq _ _)) by lia.
Qed.

(** What reading a tensor gives when the end of its range wraps: bytes before the data when its
    start wraps too, and otherwise a refused seek or a vector that is too long. *)
Definition wrapped_read (q : string) (bytes : list Z) (a n : Z) : outcome RepackError (list Z) :=
  if 2 ^ 64 <=? a then Ok (slice bytes (a - 2 ^ 64) (a - 2 ^ 64 + n))
  else if 2 ^ 63 <=? a then Err (Io q "Invalid argument")
  else Panic.

(** The bytes of a tensor of an accepted header. *)
Lemma tensor_inside checks p q bytes h name t : Zlen bytes < 2 ^ 63 ->
  read_header checks p (Ok bytes) = Ok h -> map_get name (sh_tensors h) = Some t ->
  let a := sh_data_start h + fst (te_offsets t) in
  8 <= a /\ 0 <= byte_len t /\
  (a + byte_len t <= Zlen bytes /\ read_tensor checks h q (Ok bytes) name = Ok (slice bytes a (a + byte_len t)) \/
   checks = false /\ 2 ^ 64 <= a + byte_len t /\ a + byte_len t - 2 ^ 64 < sh_data_start h /\
   sh_data_start h <= Zlen bytes /\
   read_tensor checks h q (Ok bytes) name = wrapped_read q bytes a (byte_len t)).
Proof.
  intros Hsize Hh Ht a. apply header_inside in Hh as [Hs Hall]; [|done]. apply map_get_In in Ht as Hin. rewrite Forall_forall in Hall.
  destruct (Hall _ Hin) as ([Hr Hr64] & Hend). cbn [snd] in *. unfold range_end in Hend.
  assert (a + byte_len t = sh_data_start h + snd (te_offsets t)) as Hae by (unfold a, byte_len; lia).
  split; [unfold a; lia|]. split; [unfold byte_len; lia|].
  unfold read_tensor. rewrite Ht. cbn [ok_or map_err]. rewrite !ok_bind.
  destruct Hend as [Hle|(Hc & Hwrap & Hle)]; [left|right].
  - split; [lia|]. assert (0 <= byte_len t) by (unfold byte_len; lia). rewrite u64_sum_small, ok_bind by lia. fold a.
    rewrite !(proj2 (Z.leb_gt (2 ^ 63) _)) by (unfold a in *; lia). apply read_at; unfold a in *; lia.
  - split; [done|]. split; [lia|]. split; [lia|]. split; [lia|]. subst checks. unfold wrapped_read.
    destruct (Z.leb_spec (2 ^ 64) a) as [Ha|Ha].
    + rewrite u64_sum_wraps, ok_bind by lia. fold a. rewrite !(proj2 (Z.leb_gt (2 ^ 63) _)) by lia. apply read_at; lia.
    + rewrite u64_sum_small, ok_bind by done. fold a. destruct (Z.leb_spec (2 ^ 63) a); [done|].
      by rewrite (proj2 (Z.leb_le _ _)) by lia.
Qed.

(** C34: with overflow checks every tensor that an accepted header names is inside its file (of
    fewer than 2^63 bytes), and reading it gives exactly the bytes of its declared range.  A release build also accepts a
    range whose end wraps at 2^64: reading it gives bytes from before the data, an error or a
    panic, never bytes past the file. *)
Theorem shard_ranges_inside checks p q bytes h name t (Hsize : Zlen bytes < 2 ^ 63)
    (Hh : read_header checks p (Ok bytes) = Ok h) (Ht : map_get name (sh_tensors h) = Some t) :
  let a := sh_data_start h + fst (te_offsets t) in
  8 <= a /\ 0 <= byte_len t /\
  (a + byte_len t <= Zlen bytes /\ Zlen (slice bytes a (a + byte_len t)) = byte_len t /\
   read_tensor checks h q (Ok bytes) name = Ok (slice bytes a (a + byte_len t)) \/
   checks = false /\ 2 ^ 64 <= a + byte_len t /\ a + byte_len t - 2 ^ 64 < sh_data_start h /\
   read_tensor checks h q (Ok bytes) name = wrapped_read q bytes a (byte_len t)).
Proof.
  destruct (tensor_inside checks p q bytes h name t Hsize Hh Ht) as (Ha & Hl & [(Hle & Hr)|(Hc & Hw & Hlt & _ & Hr)]);
    split_and!; try done; [left|right; done].
  split_and!; [done| |done]. rewrite slice_length by lia. lia.
Qed.

Definition small_shard : list Z := le_bytes 8 (Zlen header_text) ++ header_text ++ [1; 2; 3; 4; 5; 6].
Definition small_header : SafetensorsHeader := mkHeader [(str "t", mkTensorEntry "U8" [2; 3] (0, 6))] (8 + Zlen header_text) (Zlen small_shard).

Lemma shard_ranges_inside_witness :
  let t := mkTensorEntry "U8" [2; 3] (0, 6) in
  let a := sh_data_start small_header + fst (te_offsets t) in
  (read_header true "shard" (Ok small_shard) = Ok small_header /\ map_get (str "t") (sh_tensors small_header) = Some t) /\
  read_tensor true small_header "shard" (Ok small_shard) (str "t") = Ok (slice small_shard a (a + byte_len t)) /\
  a + byte_len t <= Zlen small_shard /\ slice small_shard a (a + byte_len t) = [1; 2; 3; 4; 5; 6].
Proof.
  intros t a. assert (read_header true "shard" (Ok small_shard) = Ok small_header) as H1 by (vm_compute; reflexivity).
  assert (map_get (str "t") (sh_tensors small_header) = Some t) as H2 by (vm_compute; reflexivity).
  assert (Zlen small_shard < 2 ^ 63) as H0 by (vm_compute; reflexivity).
  destruct (shard_ranges_inside true "shard" "shard" small_shard small_header (str "t") t H0 H1 H2)
    as (_ & _ & [(Hle & _ & Hr)|(Hc & _)]); [|discriminate Hc].
  split; [exact (conj H1 H2)|]. split; [exact Hr|]. split; [exact Hle|]. vm_compute. reflexivity.
Defined.

(** The end of a range is added to the data's start before it is compared.  Near [2 ^ 64] the sum
    overflows: a panic, or in a release build a small end that passes. *)
Example range_overflows : let nt := (str "t", mkTensorEntry "U8" [1] (2 ^ 64 - 2, 2 ^ 64 - 1)) in
  check_range true "shard" 100 200 nt = Panic /\ check_range false "shard" 100 200 nt = Ok tt.
Proof. done. Qed.

(** A release build reads a byte of the header as a tensor's. *)
Definition wrapped_text : list Z :=
  [0x7B] ++ json_str (str "t") ++ str ":{" ++ json_str (str "dtype") ++ str ":" ++ json_str (str "U8") ++ str "," ++ json_str (str "shape")
  ++ str ":[2]," ++ json_str (str "data_offsets") ++ str ":[18446744073709551614,18446744073709551615]}} ".

Definition wrapped_shard : list Z := le_bytes 8 (Zlen wrapped_text) ++ wrapped_text.

Example wrapped_range_reads_header :
  (h ← read_header false "shard" (Ok wrapped_shard); read_tensor false h "shard" (Ok wrapped_shard) (str "t")) = Ok [0x7D] /\
  read_header true "shard" (Ok wrapped_shard) = Panic.
Proof. vm_compute. done. Qed.

(** ** The tensors of an expert *)
Section expert.
Context (checks : bool) (p : string) (bytes : list Z) (h : SafetensorsHeader).

(** The header as [read_expert] looks names up in it, and its reads of the file. *)
Definition header_map : gmap string TensorEntry := list_to_map ((fun e => (to_string e.1, e.2)) <$> sh_tensors h).
Definition read_named (name : string) : outcome RepackError (list Z) := read_tensor checks h p (Ok bytes) (str name).

Lemma read_one_from layer expert pr sc b : read_one read_named header_map layer expert pr sc = Ok b ->
  read_named (tensor_name layer expert pr sc) = Ok b.
Proof.
  unfold read_one. cbv zeta. intros (entry & _ & H)%bind_Ok. destruct (negb _); [done|]. apply bind_Ok in H as ([] & _ & H).
  apply bind_Ok in H as (b' & Hb & H). destruct (negb _); [done|]. by injection H as <-.
Qed.

(** The tensors of an expert that are read are ranges of the shard, of the geometry's size: the
    declared ones, or those that wrap around in a release build. *)
Lemma expert_inside layer expert t : Zlen bytes < 2 ^ 63 -> read_header checks p (Ok bytes) = Ok h ->
  read_expert read_named header_map layer expert = Ok t ->
  forall pr sc, exists e a, map_get (str (tensor_name layer expert pr sc)) (sh_tensors h) = Some e /\
    (a = sh_data_start h + fst (te_offsets e) \/ checks = false /\ a = sh_data_start h + fst (te_offsets e) - 2 ^ 64) /\
    r_src t pr sc = slice bytes a (a + byte_len e) /\
    byte_len e = out_rows pr * r_full pr sc /\ 0 <= a /\ a + byte_len e <= Zlen bytes.
Proof.
  intros Hsize Hh Hread pr sc. pose proof (read_expert_sized _ _ _ _ _ Hread pr sc) as Hsz.
  assert (read_named (tensor_name layer expert pr sc) = Ok (r_src t pr sc)) as Hr.
  { revert Hread. unfold read_expert. intros (u & _ & (u' & _ & (gw & H1 & (gs & H2 & (uw & H3 & (us & H4 & (dw & H5 & (ds & H6 & Ht)
      %bind_Ok)%bind_Ok)%bind_Ok)%bind_Ok)%bind_Ok)%bind_Ok)%bind_Ok)%bind_Ok. revert Ht. cbv zeta. destruct (negb _); [discriminate|].
    intros [= <-]. destruct pr, sc; cbn [r_src tensors_proj fst snd]; by eapply read_one_from. }
  assert (exists e, map_get (str (tensor_name layer expert pr sc)) (sh_tensors h) = Some e) as [e He].
  { unfold read_named, read_tensor in Hr. apply bind_Ok in Hr as (e & He & _). destruct (map_get _ _); [by eexists|done]. }
  destruct (tensor_inside checks p p bytes h _ e Hsize Hh He) as (Ha & Hl & Hcases). unfold read_named in Hr. rewrite Hr in Hcases.
  destruct Hcases as [(Hle & [= Hs])|(Hc & Hw & Hlt & Hds & Hs)].
  - exists e, (sh_data_start h + fst (te_offsets e)). rewrite Hs, slice_length in Hsz by lia. split_and!; try done; [by left|lia..].
  - unfold wrapped_read in Hs. destruct (Z.leb_spec (2 ^ 64) (sh_data_start h + fst (te_offsets e))); [|by destruct (2 ^ 63 <=? _)].
    injection Hs as Hs. exists e, (sh_data_start h + fst (te_offsets e) - 2 ^ 64).
    rewrite Hs, slice_length in Hsz by lia. split_and!; try done; [by right|lia..].
Qed.
End expert.
