(* ===== verification/Expert.v ===== *)
(** The expert crate (src/crates/mimo26-expert/src): the MXFP4 decoder (mxfp4.rs), the layout of
    a quarter slice (slice.rs), the grouped GEMM that is the CPU twin of the kernel and its
    launch geometry (grouped.rs), the sum of a rank's routes (rank_sum.rs) and the split of an
    activation into BF16 terms (split.rs).

    [f32] and [f64] values are [spec_float]s.  [f32::exp], which the standard library does not
    specify, is an argument of the functions that use it.  A [debug_assert!] is left out.  The
    token counts of a plan are summed without a bound: a valid plan's are at most 256 each. *)
From Stdlib Require Import ZArith Lia Bool SpecFloat.
From stdpp Require Import base list gmap strings pretty.
From S2P Require Import Prelude Layout Bf16 Floats RepackGeom RepackSlice.

(** * Definitions *)

(** ** lib.rs *)

Definition NaiveBits : Type := Z.
Definition NONE : NaiveBits := 0.
Definition ALL : NaiveBits := 2 ^ 32 - 1.
Definition NIBBLE_SWAP : NaiveBits := Z.shiftl 1 0.
Definition E8M0_NO_CLAMP : NaiveBits := Z.shiftl 1 1.
Definition SCALE_OFF_BY_ONE : NaiveBits := Z.shiftl 1 2.
Definition PAD_ROW_READ : NaiveBits := Z.shiftl 1 3.
Definition AOT_MIXED_GATE : NaiveBits := Z.shiftl 1 4.
Definition AOT_CAPACITY_IGNORED : NaiveBits := Z.shiftl 1 5.
Definition BF16_ACCUM : NaiveBits := Z.shiftl 1 6.
Definition SCALE_ONE : NaiveBits := Z.shiftl 1 7.
Definition ROUTE_WEIGHT_TWICE : NaiveBits := Z.shiftl 1 8.
Definition expert_has (naive other : NaiveBits) : bool := negb (Z.land naive other =? 0).

(** The messages of [ExpertError], with the values they print. *)
Inductive ShapeWhat :=
| LayoutVersionIs (version : Z)
| RankOutside (rank : Z)
| LayerOutside (layer : Z)
| ExpertOutside (expert : Z).

Inductive GroupedWhat :=
| OffsetOverflows (expert : Z)
| SliceOutside (expert base end_ len : Z)
| TokenOffset (i got want : Z)
| BadM (i tokens : Z)
| XLength (got total in_cols : Z).

Inductive ExpertError :=
| ShapeMismatch (what : ShapeWhat)
| SliceSize (want got : Z)
| Grouped (what : GroupedWhat)
| PaddedRowRead (expert row : Z)
| Aot (what : string)
| Fixture (what : string).

#[local] Abbreviation result := (outcome ExpertError).

(** ** mxfp4.rs *)

Definition BLOCK : Z := 32.
Definition E8M0_BIAS : Z := 127.
Definition E8M0_BYTE_MAX : Z := 254.

Definition E2M1_CODEBOOK : list spec_float :=
  let pos := (fun h => f32_normalize h (-1)) <$> [0; 1; 2; 3; 4; 6; 8; 12] in
  pos ++ (SFopp <$> pos).

Definition exp2 (e : Z) : spec_float :=
  if e >=? -1022 then f64_from_bits (Z.shiftl (e + 1023) 52)
  else f64_from_bits (Z.shiftl 1 (e + 1074)).

Definition e8m0_scale (byte : Z) (naive : NaiveBits) : spec_float :=
  if expert_has naive SCALE_ONE then f64_one
  else
    let b := if expert_has naive E8M0_NO_CLAMP then byte else Z.min byte E8M0_BYTE_MAX in
    exp2 (b - E8M0_BIAS).

Definition decode_byte {E} (byte : Z) (naive : NaiveBits) : outcome E (list spec_float) :=
  lo ← idx E2M1_CODEBOOK (Z.land byte 0x0f);
  hi ← idx E2M1_CODEBOOK (Z.land (Z.shiftr byte 4) 0x0f);
  Ok (if expert_has naive NIBBLE_SWAP then [hi; lo] else [lo; hi]).

Definition scale_byte_for {E} (scales : list Z) (k : Z) (naive : NaiveBits) : outcome E Z :=
  let block := k / BLOCK in
  if expert_has naive SCALE_OFF_BY_ONE then Ok (default 0 (scales !! Z.to_nat (block + 1)))
  else idx scales block.

(** The value of a code under a scale: a product in [f64], clamped to the range of [f32]. *)
Definition scaled (x : spec_float) (sbyte : Z) (naive : NaiveBits) : spec_float :=
  f32_of_f64 (f64_clamp (f64_mul (f64_of_f32 x) (e8m0_scale sbyte naive)) (SFopp f32_max_f64) f32_max_f64).

Definition unpack_row {E} (packed scales : list Z) (naive : NaiveBits) : outcome E (list spec_float) :=
  mapM (fun k =>
    byte ← idx packed (k / 2);
    pair ← decode_byte byte naive;
    x ← idx pair (k mod 2);
    sbyte ← scale_byte_for scales k naive;
    Ok (scaled x sbyte naive)) (seqZ 0 (Zlen packed * 2)).

Definition unpack_matrix {E} (packed scales : list Z) (out_rows in_cols : Z) (naive : NaiveBits)
    : outcome E (list spec_float) :=
  let half := in_cols / 2 in
  let srow := in_cols / BLOCK in
  rows ← mapM (fun r =>
    p ← index_range packed (r * half) ((r + 1) * half);
    s ← index_range scales (r * srow) ((r + 1) * srow);
    unpack_row p s naive) (seqZ 0 out_rows);
  Ok (concat rows).

Definition unpack_element {E} (packed scales : list Z) (col : Z) (naive : NaiveBits) : outcome E spec_float :=
  byte ← idx packed (col / 2);
  pair ← decode_byte byte naive;
  x ← idx pair (col mod 2);
  sbyte ← scale_byte_for scales col naive;
  Ok (scaled x sbyte naive).

(** One candidate of [quantize_e2m1]: on a tie the later, larger, magnitude wins. *)
Definition nearer (a : spec_float) (best entry : Z * spec_float) : Z * spec_float :=
  let d := SFabs (f32_sub a entry.2) in
  if SFleb d best.2 then (entry.1, d) else best.

Definition quantize_e2m1 (x : spec_float) : Z :=
  let sign := match x with
    | S754_zero true | S754_infinity true | S754_finite true _ _ => 8
    | _ => 0
    end in
  Z.lor sign (foldl (nearer (SFabs x)) (0, S754_infinity false) (zip (seqZ 0 8) (take 8 E2M1_CODEBOOK))).1.

Definition pack_byte (even_code odd_code : Z) : Z :=
  Z.lor (Z.land even_code 0x0f) (Z.shiftl (Z.land odd_code 0x0f) 4).

(** ** slice.rs *)

Definition HIDDEN : Z := 4096.
Definition INTERMEDIATE : Z := 2048.
Definition EXPERTS_PER_LAYER : Z := 256.
Definition MOE_LAYERS : Z := 47.
Definition EP_RANKS : Z := 4.
Definition FIRST_MOE_LAYER : Z := 1.
Definition EXPERT_BYTES : Z := 13369344.
Definition QUARTER_SLICE_BYTES : Z := 3342336.
Definition LAYOUT_VERSION : Z := 2.

Definition check_layout_version (version : Z) : result unit :=
  if negb (version =? LAYOUT_VERSION) then Err (ShapeMismatch (LayoutVersionIs version)) else Ok tt.

Inductive Proj := Gate | Up | Down.
#[export] Instance Proj_eq_dec : EqDecision Proj.
Proof. solve_decision. Defined.

Definition Proj_ALL : list Proj := [Gate; Up; Down].
Definition Proj_name (p : Proj) : string :=
  match p with Gate => "gate_proj" | Up => "up_proj" | Down => "down_proj" end.
Definition out_rows (p : Proj) : Z := match p with Gate | Up => INTERMEDIATE | Down => HIDDEN end.
Definition in_cols (p : Proj) : Z := match p with Gate | Up => HIDDEN | Down => INTERMEDIATE end.
Definition slice_rows (p : Proj) : Z := match p with Gate | Up => INTERMEDIATE / EP_RANKS | Down => HIDDEN end.
Definition slice_in_cols (p : Proj) : Z := match p with Gate | Up => HIDDEN | Down => INTERMEDIATE / EP_RANKS end.
Definition slice_payload_bytes (p : Proj) : Z := slice_rows p * slice_in_cols p / 2.
Definition slice_scale_bytes (p : Proj) : Z := slice_rows p * slice_in_cols p / 32.
Definition slice_payload_off (p : Proj) : Z :=
  let up := slice_payload_bytes Gate + slice_scale_bytes Gate in
  match p with
  | Gate => 0
  | Up => up
  | Down => up + slice_payload_bytes Up + slice_scale_bytes Up
  end.
Definition slice_scale_off (p : Proj) : Z := slice_payload_off p + slice_payload_bytes p.
Definition reserved_bytes (p : Proj) : Z :=
  match p with
  | Gate | Up => 0
  | Down => QUARTER_SLICE_BYTES - (slice_scale_off Down + slice_scale_bytes Down)
  end.
Definition scale_cols (p : Proj) : Z := slice_in_cols p / 32.
Definition payload_cols (p : Proj) : Z := slice_in_cols p / 2.

Record LayoutRow := mkLayoutRow { lr_proj : Proj; lr_region : string; lr_off : Z; lr_len : Z }.

Definition layout_table : list LayoutRow :=
  concat ((fun p => [mkLayoutRow p "payload" (slice_payload_off p) (slice_payload_bytes p);
                     mkLayoutRow p "scales" (slice_scale_off p) (slice_scale_bytes p)]) <$> Proj_ALL)
  ++ [mkLayoutRow Down "reserved" (slice_scale_off Down + slice_scale_bytes Down) (reserved_bytes Down)].

(** [assert!(rank < EP_RANKS)] *)
Definition slice_row_indices (p : Proj) (rank : Z) : result (list Z) :=
  if rank <? EP_RANKS then
    let start := match p with Gate | Up => rank * slice_rows p | Down => 0 end in
    Ok (seqZ start (slice_rows p))
  else Panic.

Definition slice_proj (slice : list Z) (p : Proj) : result (list Z * list Z) :=
  if negb (Zlen slice =? QUARTER_SLICE_BYTES) then Err (SliceSize QUARTER_SLICE_BYTES (Zlen slice))
  else
    payload ← index_range slice (slice_payload_off p) (slice_payload_off p + slice_payload_bytes p);
    scales ← index_range slice (slice_scale_off p) (slice_scale_off p + slice_scale_bytes p);
    Ok (payload, scales).

Definition grouped_proj (grouped : list Z) (expert : Z) (p : Proj) : result (list Z * list Z) :=
  if expert * QUARTER_SLICE_BYTES >=? 2 ^ 64 then Err (Grouped (OffsetOverflows expert))
  else
    let base := expert * QUARTER_SLICE_BYTES in
    end_ ← usize_add base QUARTER_SLICE_BYTES;
    if end_ >? Zlen grouped then Err (Grouped (SliceOutside expert base end_ (Zlen grouped)))
    else
      slice ← index_range grouped base end_;
      slice_proj slice p.

Definition check_rank (rank : Z) : result unit :=
  if rank >=? EP_RANKS then Err (ShapeMismatch (RankOutside rank)) else Ok tt.
Definition check_layer (layer : Z) : result unit :=
  if (layer <? FIRST_MOE_LAYER) || (layer >=? FIRST_MOE_LAYER + MOE_LAYERS)
  then Err (ShapeMismatch (LayerOutside layer)) else Ok tt.
Definition check_expert (expert : Z) : result unit :=
  if expert >=? EXPERTS_PER_LAYER then Err (ShapeMismatch (ExpertOutside expert)) else Ok tt.

Definition tensor_name (layer expert : Z) (p : Proj) (scale : bool) : string :=
  "model.layers." +:+ pretty layer +:+ ".mlp.experts." +:+ pretty expert +:+ "." +:+ Proj_name p +:+ "."
    +:+ (if scale then "weight_scale" else "weight").
Definition slice_file_name (layer expert rank : Z) : string :=
  "L" +:+ pad_left 2 (pretty layer) +:+ "_E" +:+ pad_left 3 (pretty expert) +:+ "_R" +:+ pretty rank +:+ ".slice".

(** ** grouped.rs *)

Definition THREADS : Z := 256.
Definition ROWS_PER_BLOCK : Z := 32.
Definition K_STEP : Z := BLOCK.
Definition WARPS : Z := THREADS / 32.
Definition LANES_PER_ROW : Z := 8.
Definition K_TILE : Z := 256.
Definition M_SIZES : list Z := [1; 2; 4; 8; 16; 64; 256].
Definition BENCH_M_SIZES : list Z := [1; 2; 4; 8; 16; 64].

Record LaunchGeometry := mkLaunchGeometry {
  lg_grid_x : Z; lg_grid_y : Z; lg_grid_z : Z; lg_block_x : Z;
  lg_rows_per_block : Z; lg_k_step : Z; lg_smem_bytes : Z }.

Definition lg_blocks (g : LaunchGeometry) : Z := lg_grid_x g * lg_grid_y g * lg_grid_z g.
Definition live_blocks (g : LaunchGeometry) (expert_count : Z) : Z := lg_grid_x g * expert_count * lg_grid_z g.

Definition next_power_of_two (n : Z) : Z := 2 ^ Z.log2_up n.
Definition div_ceil (a b : Z) : Z := (a + b - 1) / b.

Definition token_stage_bytes (m in_cols : Z) : Z :=
  if m =? 0 then 0 else 2 * next_power_of_two (Z.min m 8) * K_TILE * 4.

Definition launch_geometry (p : Proj) (m n_experts : Z) : LaunchGeometry :=
  mkLaunchGeometry (div_ceil (slice_rows p) ROWS_PER_BLOCK mod 2 ^ 32) (n_experts mod 2 ^ 32)
    (div_ceil m 8 mod 2 ^ 32) THREADS ROWS_PER_BLOCK K_STEP (token_stage_bytes m (slice_in_cols p) mod 2 ^ 32).

Record Group := mkGroup { g_expert : Z; g_tokens : Z; g_token_offset : Z }.
Record GroupedPlan := mkGroupedPlan { gp_groups : list Group; gp_padded : Z }.

Definition uniform (n_experts m padded : Z) : GroupedPlan :=
  mkGroupedPlan ((fun e => mkGroup e m (e * m)) <$> seqZ 0 n_experts) padded.
Definition expert_count (plan : GroupedPlan) : Z := Zlen (gp_groups plan).
Definition padded_expert_count (plan : GroupedPlan) : Z := Zlen (gp_groups plan) + gp_padded plan.
Definition total_tokens (plan : GroupedPlan) : Z := foldl Z.add 0 (g_tokens <$> gp_groups plan).
Definition max_tokens (plan : GroupedPlan) : Z := foldl Z.max 0 (g_tokens <$> gp_groups plan).
Definition padded_output_rows (plan : GroupedPlan) : Z := 0.
Definition is_padded (plan : GroupedPlan) (expert : Z) : bool := expert >=? Zlen (gp_groups plan).

(** The loop of [validate], from group [i] at the running offset. *)
Fixpoint validate_groups (i expect_off : Z) (groups : list Group) : result unit :=
  match groups with
  | [] => Ok tt
  | g :: groups =>
    _ ← check_expert (g_expert g);
    if negb (g_token_offset g =? expect_off) then Err (Grouped (TokenOffset i (g_token_offset g) expect_off))
    else if negb (bool_decide (g_tokens g ∈ M_SIZES)) then Err (Grouped (BadM i (g_tokens g)))
    else validate_groups (i + 1) (expect_off + g_tokens g) groups
  end.
Definition validate (plan : GroupedPlan) : result unit := validate_groups 0 0 (gp_groups plan).

Record GroupedOutput := mkGroupedOutput { go_data : list spec_float; go_out_rows : Z }.
Definition output_row (o : GroupedOutput) (token : Z) : result (list spec_float) :=
  index_range (go_data o) (token * go_out_rows o) ((token + 1) * go_out_rows o).

(** [f32::to_bits] of a canonical value; the one NaN is the quiet one. *)
Definition f32_to_bits (x : spec_float) : Z :=
  let sign (s : bool) := if s then 2 ^ 31 else 0 in
  match x with
  | S754_zero s => sign s
  | S754_infinity s => sign s + 0x7F800000
  | S754_nan => 0x7FC00000
  | S754_finite s m e => sign s + (if Z.pos m <? 2 ^ 23 then Z.pos m else (e + 149) * 2 ^ 23 + Z.pos m)
  end.

Definition e2m1_codebook_bits : list Z := f32_to_bits <$> E2M1_CODEBOOK.

Definition f32_is_finite (x : spec_float) : bool :=
  match x with S754_infinity _ | S754_nan => false | _ => true end.

(** The wrong accumulator of [BF16_ACCUM]. *)
Definition accumulated (acc : spec_float) (naive : NaiveBits) : spec_float :=
  if expert_has naive BF16_ACCUM && f32_is_finite acc then
    let bits := f32_to_bits acc in
    f32_from_bits (Z.land ((bits + (0x7fff + Z.land (Z.shiftr bits 16) 1)) mod 2 ^ 32) 0xffff0000)
  else acc.

(** One output: the products of a row of weights and a row of inputs, added from the first. *)
Definition gemm_cell (prow srowb : list Z) (xrow : list spec_float) (in_cols : Z) (naive : NaiveBits)
    : result spec_float :=
  fold_try (fun acc k =>
    w ← unpack_element prow srowb k naive;
    x ← idx xrow k;
    Ok (accumulated (f32_add acc (f32_mul w x)) naive)) f32_zero (seqZ 0 in_cols).

Definition gemm_row (payload scales : list Z) (xrow : list spec_float) (in_cols out_rows : Z) (naive : NaiveBits)
    : result (list spec_float) :=
  let half := in_cols / 2 in
  let srow := in_cols / BLOCK in
  mapM (fun r =>
    prow ← index_range payload (r * half) ((r + 1) * half);
    srowb ← index_range scales (r * srow) ((r + 1) * srow);
    gemm_cell prow srowb xrow in_cols naive) (seqZ 0 out_rows).

Definition gemm_token (payload scales : list Z) (x : list spec_float) (token_offset in_cols out_rows : Z)
    (naive : NaiveBits) (out : list spec_float) (t : Z) : result (list spec_float) :=
  xrow ← index_range x ((token_offset + t) * in_cols) ((token_offset + t + 1) * in_cols);
  _ ← index_range out ((token_offset + t) * out_rows) ((token_offset + t + 1) * out_rows);
  row ← gemm_row payload scales xrow in_cols out_rows naive;
  Ok (splice out ((token_offset + t) * out_rows) row).

Definition gemm_expert (grouped : list Z) (x : list spec_float) (plan : GroupedPlan) (p : Proj)
    (naive : NaiveBits) (out : list spec_float) (e : Z) : result (list spec_float) :=
  let group := gp_groups plan !! Z.to_nat e in
  let '(tokens, token_offset) :=
    match group with
    | Some g => (g_tokens g, g_token_offset g)
    | None => (max_tokens plan, total_tokens plan)
    end in
  if tokens =? 0 then Ok out
  else
    let expert := match group with Some g => g_expert g | None => e end in
    '(payload, scales) ← grouped_proj grouped expert p;
    if is_padded plan e then Err (PaddedRowRead expert 0)
    else
      fold_try (gemm_token payload scales x token_offset (slice_in_cols p) (slice_rows p) naive) out (seqZ 0 tokens).

Definition grouped_gemm (grouped : list Z) (x : list spec_float) (plan : GroupedPlan) (p : Proj)
    (naive : NaiveBits) : result GroupedOutput :=
  _ ← validate plan;
  let total := total_tokens plan in
  if negb (Zlen x =? total * slice_in_cols p)
  then Err (Grouped (XLength (Zlen x) total (slice_in_cols p)))
  else
    let out := replicate (Z.to_nat (total * slice_rows p)) f32_zero in
    let n_loop := if expert_has naive PAD_ROW_READ then padded_expert_count plan else expert_count plan in
    out ← fold_try (gemm_expert grouped x plan p naive) out (seqZ 0 n_loop);
    Ok (mkGroupedOutput out (slice_rows p)).

Section ffn.
Context (exp : spec_float -> spec_float).

Definition silu (x : spec_float) : spec_float := f32_div x (f32_add f32_one (exp (SFopp x))).

Definition gate_up (grouped : list Z) (x : list spec_float) (plan : GroupedPlan) (naive : NaiveBits)
    : result GroupedOutput :=
  g ← grouped_gemm grouped x plan Gate naive;
  u ← grouped_gemm grouped x plan Up naive;
  data ← mapM (fun i =>
    gi ← idx (go_data g) i;
    ui ← idx (go_data u) i;
    Ok (f32_mul (silu gi) ui)) (seqZ 0 (Zlen (go_data g)));
  Ok (mkGroupedOutput data (go_out_rows g)).

Definition expert_ffn (grouped : list Z) (h : list spec_float) (plan : GroupedPlan) (naive : NaiveBits)
    : result GroupedOutput := grouped_gemm grouped h plan Down naive.

Definition expert_ffn_self_contained (grouped : list Z) (x : list spec_float) (plan : GroupedPlan)
    (naive : NaiveBits) : result GroupedOutput :=
  h ← gate_up grouped x plan naive;
  grouped_gemm grouped (go_data h) plan Down naive.
End ffn.

Definition streamed_bytes (plan : GroupedPlan) (p : Proj) (m : Z) : Z :=
  (slice_payload_bytes p + slice_scale_bytes p) * expert_count plan
  + total_tokens plan * slice_in_cols p * 4 + total_tokens plan * slice_rows p * 4.
Definition gemm_flops (plan : GroupedPlan) (p : Proj) : Z := 2 * total_tokens plan * slice_rows p * slice_in_cols p.
Definition ffn_streamed_bytes (plan : GroupedPlan) (m : Z) : Z :=
  streamed_bytes plan Gate m + streamed_bytes plan Up m + streamed_bytes plan Down m.
Definition ffn_flops (plan : GroupedPlan) : Z := gemm_flops plan Gate + gemm_flops plan Up + gemm_flops plan Down.

(** ** rank_sum.rs *)

Definition ROUTES : Z := 8.
Inductive RankSumError := SizeOverflow | Shape | NonFinite.

Definition checked_mul (a b : Z) : outcome RankSumError Z :=
  if a * b <? 2 ^ 64 then Ok (a * b) else Err SizeOverflow.

Definition rank_add (raw weights : list spec_float) (naive : NaiveBits) (token slot : Z)
    (out : list spec_float) (h : Z) : outcome RankSumError (list spec_float) :=
  let route := token * ROUTES + slot in
  w ← idx weights route;
  v ← idx raw (route * HIDDEN + h);
  let weighted := f32_mul v w in
  let weighted := if expert_has naive ROUTE_WEIGHT_TWICE then f32_mul weighted w else weighted in
  old ← idx out (token * HIDDEN + h);
  let sum := f32_add old weighted in
  out ← idx_set out (token * HIDDEN + h) sum;
  if negb (f32_is_finite sum) then Err NonFinite else Ok out.

Definition rank_pre_sum (raw weights : list spec_float) (tokens : Z) (naive : NaiveBits)
    : outcome RankSumError (list spec_float) :=
  routes ← checked_mul tokens ROUTES;
  elements ← checked_mul routes HIDDEN;
  if negb (Zlen weights =? routes) || negb (Zlen raw =? elements) then Err Shape
  else if existsb (fun v => negb (f32_is_finite v)) (raw ++ weights) then Err NonFinite
  else
    fold_try (fun out token =>
      fold_try (fun out slot =>
        fold_try (rank_add raw weights naive token slot) out (seqZ 0 HIDDEN)) out (seqZ 0 ROUTES))
      (replicate (Z.to_nat (tokens * HIDDEN)) f32_zero) (seqZ 0 tokens).

(** ** split.rs *)

(** [f32] to BF16 and back. *)
Definition bf16_rne (a : spec_float) : spec_float :=
  let bits := f32_to_bits a in
  let sign := Z.land (Z.shiftr bits 16) 0x8000 in
  let mag := Z.land bits 0x7FFFFFFF in
  if mag >? 0x7F800000 then f32_from_bits (Z.shiftl (Z.lor sign 0x7FFF) 16)
  else
    let rounded := (mag + (0x7FFF + Z.land (Z.shiftr mag 16) 1)) mod 2 ^ 32 in
    let rounded := if rounded >=? 0x7F800000 then 0x7F800000 else rounded in
    let code := Z.lor sign (Z.shiftr rounded 16 mod 2 ^ 16) in
    f32_from_bits (Z.shiftl code 16).

Definition split2 (a : spec_float) : spec_float * spec_float :=
  let hi := bf16_rne a in
  (hi, bf16_rne (f32_sub a hi)).

Definition split3 (a : spec_float) : spec_float * spec_float * spec_float :=
  let hi := bf16_rne a in
  let mid := bf16_rne (f32_sub a hi) in
  (hi, mid, bf16_rne (f32_sub (f32_sub a hi) mid)).

Definition split_e8m0_scale (byte : Z) : spec_float := f64_powi2 (Z.min byte 254 - 127).

Definition dot_ref (codes scales : list Z) (a : list spec_float) : result spec_float :=
  fold_try (fun acc k =>
    code ← idx codes k;
    m ← idx E2M1_CODEBOOK (Z.land code 15);
    s ← idx scales (k / 32);
    x ← idx a k;
    Ok (f64_add acc (f64_mul (f64_mul (f64_of_f32 m) (split_e8m0_scale s)) (f64_of_f32 x))))
    (S754_zero false) (seqZ 0 (Zlen a)).

Definition arity_step (arity : Z) (codes : list Z) (a : list spec_float) (sub : spec_float) (k : Z)
    : result spec_float :=
  code ← idx codes k;
  w ← idx E2M1_CODEBOOK (Z.land code 15);
  x ← idx a k;
  if arity =? 2 then
    let '(hi, lo) := split2 x in
    Ok (f32_add (f32_add sub (f32_mul w hi)) (f32_mul w lo))
  else
    let '(hi, mid, lo) := split3 x in
    Ok (f32_add (f32_add (f32_add sub (f32_mul w hi)) (f32_mul w mid)) (f32_mul w lo)).

Definition dot_arity (arity : Z) (codes scales : list Z) (a : list spec_float) : result spec_float :=
  acc ← fold_try (fun acc block =>
    sub ← fold_try (arity_step arity codes a) f32_zero (seqZ (block * 32) 32);
    s ← idx scales block;
    Ok (f64_add acc (f64_mul (f64_of_f32 sub) (split_e8m0_scale s))))
    (S754_zero false) (seqZ 0 (Zlen scales));
  Ok (f32_of_f64 acc).

Definition dot2 := dot_arity 2.
Definition dot3 := dot_arity 3.

Definition ATOL : spec_float := f64_decimal 1 5.
Definition RTOL : spec_float := f64_decimal 1 5.
Definition max_error_ratio (got want : spec_float) : spec_float :=
  f64_div (SFabs (f64_sub got want)) (f64_add ATOL (f64_mul RTOL (SFabs want))).

(** * The decoder *)

(** Without the wrong variants, the decoder is that of the repacker. *)
Lemma exp2_same e : exp2 e = RepackSlice.exp2 e.
Proof. done. Qed.

Lemma unpack_row_same {E} packed scales :
  unpack_row (E:=E) packed scales NONE = RepackSlice.unpack_row packed scales RepackSlice.NONE.
Proof. done. Qed.

Lemma idx_lt {E A} (l : list A) i : 0 <= i < Zlen l -> exists x, idx (E:=E) l i = Ok x.
Proof.
  intros Hi. destruct (lookup_lt_is_Some_2 l (Z.to_nat i)) as [x Hx]; [lia|]. exists x. apply idx_Some; [lia|done].
Qed.

Lemma nibble b : 0 <= Z.land b 0x0f < 16.
Proof. change 0x0f with (Z.ones 4). rewrite Z.land_ones by lia. apply Z.mod_pos_bound. lia. Qed.

Lemma decode_byte_ok {E} b naive : exists x y, decode_byte (E:=E) b naive = Ok [x; y].
Proof.
  unfold decode_byte.
  destruct (idx_lt (E:=E) E2M1_CODEBOOK (Z.land b 0x0f)) as [lo ->]; [apply nibble|].
  destruct (idx_lt (E:=E) E2M1_CODEBOOK (Z.land (Z.shiftr b 4) 0x0f)) as [hi ->]; [apply nibble|].
  rewrite !ok_bind. destruct (expert_has naive NIBBLE_SWAP); eauto.
Qed.

Lemma unpack_element_ok {E} packed scales col naive :
  0 <= col < 2 * Zlen packed -> col < BLOCK * Zlen scales -> exists x, unpack_element (E:=E) packed scales col naive = Ok x.
Proof.
  unfold BLOCK. intros H1 H2. unfold unpack_element.
  destruct (idx_lt (E:=E) packed (col / 2)) as [b ->]; [Z.div_mod_to_equations; lia|]. rewrite ok_bind.
  destruct (decode_byte_ok (E:=E) b naive) as (x & y & ->). rewrite ok_bind.
  destruct (idx_lt (E:=E) [x; y] (col mod 2)) as [v ->]; [cbn [length]; Z.div_mod_to_equations; lia|]. rewrite ok_bind.
  unfold scale_byte_for, BLOCK. destruct (expert_has naive SCALE_OFF_BY_ONE); [rewrite ok_bind; eauto|].
  destruct (idx_lt (E:=E) scales (col / 32)) as [s ->]; [Z.div_mod_to_equations; lia|]. rewrite ok_bind. eauto.
Qed.

(** * The grouped GEMM *)

(** What a valid plan is: experts of the layer, tiles of the compiled sizes, laid end to end. *)
Fixpoint groups_from (off : Z) (groups : list Group) : Prop :=
  match groups with
  | [] => True
  | g :: groups => g_expert g < EXPERTS_PER_LAYER /\ g_token_offset g = off /\ g_tokens g ∈ M_SIZES /\
                   groups_from (off + g_tokens g) groups
  end.

Lemma validate_groups_ok i off groups : validate_groups i off groups = Ok tt <-> groups_from off groups.
Proof.
  revert i off. induction groups as [|g groups IH]; intros i off; [done|]. cbn [validate_groups groups_from].
  unfold check_expert. destruct (Z.geb_spec (g_expert g) EXPERTS_PER_LAYER) as [He|He].
  { split; [done|]. intros [? _]. lia. }
  cbv iota. rewrite ok_bind. destruct (Z.eqb_spec (g_token_offset g) off) as [Ho|Ho]; cbn [negb].
  2:{ split; [done|]. by intros (_ & ? & _). }
  case_bool_decide as Hm; cbn [negb]; [|split; [done|by intros (_ & _ & ? & _)]]. rewrite IH. tauto.
Qed.

(** The expert of each row of the batch. *)
Definition row_experts (groups : list Group) : list Z :=
  concat ((fun g => replicate (Z.to_nat (g_tokens g)) (g_expert g)) <$> groups).

Lemma m_sizes_pos m : m ∈ M_SIZES -> 1 <= m <= 256.
Proof. unfold M_SIZES. rewrite !elem_of_cons, elem_of_nil. lia. Qed.

Lemma sum_from acc (l : list Z) : foldl Z.add acc l = acc + foldl Z.add 0 l.
Proof.
  revert acc. induction l as [|x l IH]; intros acc; cbn [foldl]; [lia|]. rewrite IH, (IH (0 + x)). lia.
Qed.

Lemma row_experts_length off groups : groups_from off groups ->
  Zlen (row_experts groups) = foldl Z.add 0 (g_tokens <$> groups).
Proof.
  revert off. induction groups as [|g groups IH]; intros off; [done|]. intros (_ & _ & Hm & Hg). unfold row_experts in *.
  cbn [fmap list_fmap concat foldl]. rewrite length_app, length_replicate, sum_from, Nat2Z.inj_add, (IH _ Hg).
  apply m_sizes_pos in Hm. lia.
Qed.

(** One row through one expert's projection. *)
Definition gemm_out (grouped : list Z) (naive : NaiveBits) (p : Proj) (e : Z) (xrow : list spec_float) : list spec_float :=
  match grouped_proj grouped e p with
  | Ok (payload, scales) =>
    match gemm_row payload scales xrow (slice_in_cols p) (slice_rows p) naive with Ok row => row | _ => [] end
  | _ => []
  end.

(** The slices of the experts are in the image. *)
Definition resident (grouped : list Z) (e : Z) : Prop :=
  0 <= e /\ (e + 1) * QUARTER_SLICE_BYTES <= Zlen grouped /\ Zlen grouped < 2 ^ 63.

Lemma grouped_proj_ok grouped e p : resident grouped e -> exists payload scales,
  grouped_proj grouped e p = Ok (payload, scales) /\
  Zlen payload = slice_payload_bytes p /\ Zlen scales = slice_scale_bytes p.
Proof.
  intros (He & Hlen & Hmax). unfold grouped_proj, usize_add.
  unfold QUARTER_SLICE_BYTES in *. rewrite Z.geb_leb, (proj2 (Z.leb_gt _ _)), (proj2 (Z.ltb_lt _ _)), ok_bind by lia.
  rewrite Z.gtb_ltb, (proj2 (Z.ltb_ge _ _)) by lia. rewrite index_range_Ok, ok_bind by lia.
  unfold slice_proj. pose proof (slice_length grouped (e * 3342336) (e * 3342336 + 3342336) ltac:(lia) ltac:(lia) ltac:(lia)) as Hs.
  set (s := slice grouped _ _) in *. unfold QUARTER_SLICE_BYTES.
  rewrite (proj2 (Z.eqb_eq _ _)) by lia. cbn [negb].
  assert (0 <= slice_payload_off p /\ slice_payload_off p + slice_payload_bytes p <= 3342336 /\
    0 <= slice_scale_off p /\ slice_scale_off p + slice_scale_bytes p <= 3342336 /\
    0 <= slice_payload_bytes p /\ 0 <= slice_scale_bytes p) as (? & ? & ? & ? & ? & ?).
  { apply (bool_decide_unpack _). destruct p; vm_compute; exact I. }
  rewrite (index_range_Ok s (slice_payload_off p)), ok_bind by lia. rewrite index_range_Ok, ok_bind by lia.
  eexists _, _. split; [done|]. rewrite !slice_length by lia. lia.
Qed.

Lemma gemm_cell_ok prow srowb xrow in_cols naive :
  0 <= in_cols -> in_cols <= 2 * Zlen prow -> in_cols <= BLOCK * Zlen srowb -> in_cols <= Zlen xrow ->
  exists v, gemm_cell prow srowb xrow in_cols naive = Ok v.
Proof.
  intros H0 H1 H2 H3. unfold gemm_cell.
  destruct (fold_try_inv (E:=ExpertError) (fun _ _ => True) (fun acc k =>
    w ← unpack_element prow srowb k naive; x ← idx xrow k;
    Ok (accumulated (f32_add acc (f32_mul w x)) naive)) f32_zero in_cols H0 I) as (v & Hv & _); [|by exists v].
  intros k acc Hk _. destruct (unpack_element_ok (E:=ExpertError) prow srowb k naive) as [w ->]; [lia|lia|]. rewrite ok_bind.
  destruct (idx_lt (E:=ExpertError) xrow k) as [x ->]; [lia|]. rewrite ok_bind. eauto.
Qed.

Lemma mapM_total {E A B} (f : A -> outcome E B) (l : list A) : (forall x, x ∈ l -> exists y, f x = Ok y) ->
  exists k, mapM f l = Ok k /\ length k = length l.
Proof.
  induction l as [|x l IH]; intros H; [by exists []|]. destruct (H x) as [y Hy]; [set_solver|].
  destruct IH as (k & Hk & Hlen); [intros; apply H; set_solver|]. exists (y :: k).
  split; [apply mapM_cons; eauto|cbn; lia].
Qed.

Lemma proj_sizes p : 0 < slice_rows p /\ 0 < slice_in_cols p /\
  slice_payload_bytes p = slice_rows p * (slice_in_cols p / 2) /\
  slice_scale_bytes p = slice_rows p * (slice_in_cols p / BLOCK) /\
  slice_in_cols p = 2 * (slice_in_cols p / 2) /\ slice_in_cols p = BLOCK * (slice_in_cols p / BLOCK).
Proof. apply (bool_decide_unpack _). destruct p; vm_compute; exact I. Qed.

Lemma gemm_row_ok payload scales xrow p naive :
  Zlen payload = slice_payload_bytes p -> Zlen scales = slice_scale_bytes p -> Zlen xrow = slice_in_cols p ->
  exists row, gemm_row payload scales xrow (slice_in_cols p) (slice_rows p) naive = Ok row /\ Zlen row = slice_rows p.
Proof.
  destruct (proj_sizes p) as (Hr & Hc & Hp & Hs & H2 & H32). intros Hpl Hsl Hxl. unfold gemm_row.
  rewrite Hp in Hpl. rewrite Hs in Hsl. revert Hpl Hsl Hxl H2 H32 Hr Hc. generalize (slice_in_cols p / 2) as half.
  generalize (slice_in_cols p / BLOCK) as srow. generalize (slice_in_cols p) as cols. generalize (slice_rows p) as rows.
  intros rows cols srow half. intros. unfold BLOCK in *.
  destruct (mapM_total (E:=ExpertError) (fun r =>
    prow ← index_range payload (r * half) ((r + 1) * half);
    srowb ← index_range scales (r * srow) ((r + 1) * srow);
    gemm_cell prow srowb xrow cols naive) (seqZ 0 rows)) as (row & Hrow & Hlen).
  - intros r Hrr%elem_of_seqZ. rewrite (index_range_Ok payload), ok_bind by nia. rewrite index_range_Ok, ok_bind by nia.
    apply gemm_cell_ok; rewrite ?slice_length by nia; unfold BLOCK; nia.
  - exists row. split; [done|]. rewrite Hlen, length_seqZ. lia.
Qed.

Lemma gemm_out_length grouped naive p e xrow : resident grouped e -> Zlen xrow = slice_in_cols p ->
  Zlen (gemm_out grouped naive p e xrow) = slice_rows p.
Proof.
  intros Hres Hx. destruct (grouped_proj_ok grouped e p Hres) as (payload & scales & Hg & Hp & Hs).
  destruct (gemm_row_ok payload scales xrow p naive Hp Hs Hx) as (row & Hrow & Hlen).
  unfold gemm_out. by rewrite Hg, Hrow.
Qed.

Section gemm.
Context (grouped : list Z) (naive : NaiveBits) (p : Proj) (plan : GroupedPlan) (xrows : list (list spec_float)).
Context (Hnaive : expert_has naive PAD_ROW_READ = false).
Context (Hgroups : groups_from 0 (gp_groups plan)).
Context (Hres : Forall (fun g => resident grouped (g_expert g)) (gp_groups plan)).
Context (Hx : Forall (fun r => Zlen r = slice_in_cols p) xrows).
Context (Hlen : Zlen xrows = total_tokens plan).

Definition gemm_rows : list (list spec_float) :=
  zip_with (gemm_out grouped naive p) (row_experts (gp_groups plan)) xrows.

Lemma row_experts_total : Zlen (row_experts (gp_groups plan)) = total_tokens plan.
Proof. apply (row_experts_length 0). done. Qed.

Lemma gemm_rows_length : Zlen gemm_rows = total_tokens plan.
Proof. unfold gemm_rows. rewrite length_zip_with. pose proof row_experts_total. lia. Qed.

Lemma gemm_rows_uniform : Forall (fun r => Zlen r = slice_rows p) gemm_rows.
Proof.
  unfold gemm_rows. apply Forall_lookup. intros i r (e & x & -> & He & Hxi)%lookup_zip_with_Some.
  apply gemm_out_length; [|by apply (proj1 (Forall_lookup _ _) Hx i)].
  apply list_elem_of_lookup_2 in He. unfold row_experts in He.
  apply list_elem_of_In, in_concat in He as (l & Hl & He%list_elem_of_In).
  apply list_elem_of_In, list_elem_of_fmap in Hl as (g & -> & Hg). apply elem_of_replicate in He as [-> _].
  by apply (proj1 (Forall_forall _ _) Hres).
Qed.

(** The output after its first [n] rows. *)
Definition gemm_state (n : Z) : list spec_float :=
  concat (take (Z.to_nat n) gemm_rows) ++ replicate (Z.to_nat ((total_tokens plan - n) * slice_rows p)) f32_zero.

Lemma take_rows_length n : 0 <= n -> n <= total_tokens plan ->
  Zlen (concat (take (Z.to_nat n) gemm_rows)) = n * slice_rows p.
Proof.
  intros H0 Hn. rewrite (concat_uniform_length _ (slice_rows p)) by (apply Forall_take, gemm_rows_uniform).
  pose proof gemm_rows_length. rewrite length_take_le, Z2Nat.id by lia. done.
Qed.

Lemma gemm_state_step n row : 0 <= n -> gemm_rows !! Z.to_nat n = Some row ->
  splice (gemm_state n) (n * slice_rows p) row = gemm_state (n + 1).
Proof.
  intros H0 Hrow. pose proof (lookup_lt_Some _ _ _ Hrow) as Hlt. pose proof gemm_rows_length as Hg.
  pose proof (proj1 (Forall_lookup _ _) gemm_rows_uniform _ _ Hrow) as Hrl. cbn in Hrl.
  pose proof (take_rows_length n H0 ltac:(lia)) as Ht. destruct (proj_sizes p) as (Hrp & _).
  unfold gemm_state. rewrite splice_app_r by lia. rewrite Ht, Z.sub_diag.
  replace (Z.to_nat (n + 1)) with (S (Z.to_nat n)) by lia.
  rewrite (take_S_r _ _ _ Hrow), concat_app. cbn [concat]. rewrite app_nil_r, <-app_assoc. f_equal.
  unfold splice. change (Z.to_nat 0) with 0%nat. rewrite take_0, app_nil_l, Nat.add_0_l. f_equal. rewrite drop_replicate. f_equal. nia.
Qed.

Lemma group_facts i g off groups : groups_from off groups -> groups !! i = Some g ->
  let before := foldl Z.add 0 (g_tokens <$> take i groups) in
  g_token_offset g = off + before /\ 1 <= g_tokens g <= 256 /\ g_expert g < EXPERTS_PER_LAYER /\
  0 <= before /\ before + g_tokens g <= foldl Z.add 0 (g_tokens <$> groups) /\
  forall t, 0 <= t < g_tokens g -> row_experts groups !! Z.to_nat (before + t) = Some (g_expert g).
Proof.
  revert i off. induction groups as [|h groups IH]; intros i off; [done|]. intros (He & Ho & Hm & Hg).
  pose proof (row_experts_length _ _ Hg) as Hrl. apply m_sizes_pos in Hm.
  destruct i as [|i]; cbn [lookup list_lookup].
  - intros [= <-]. cbn [take fmap list_fmap foldl]. rewrite sum_from. split; [lia|]. split; [done|]. split; [done|].
    split; [lia|]. split; [lia|]. intros t Ht. unfold row_experts. cbn [fmap list_fmap concat].
    rewrite lookup_app_l by (rewrite length_replicate; lia). apply lookup_replicate. split; [done|lia].
  - intros Hi. destruct (IH i _ Hg Hi) as (H1 & H2 & H3 & H4 & H5 & H6). cbn [take fmap list_fmap foldl].
    rewrite !(sum_from (0 + g_tokens h)). split; [lia|]. split; [done|]. split; [done|]. split; [lia|]. split; [lia|].
    intros t Ht. unfold row_experts in *. cbn [fmap list_fmap concat].
    rewrite lookup_app_r by (rewrite length_replicate; lia). rewrite length_replicate, <-(H6 t Ht). f_equal. lia.
Qed.

(** The tokens of one group. *)
Lemma gemm_tokens_ok i g payload scales : gp_groups plan !! i = Some g ->
  grouped_proj grouped (g_expert g) p = Ok (payload, scales) ->
  fold_try (gemm_token payload scales (concat xrows) (g_token_offset g) (slice_in_cols p) (slice_rows p) naive)
    (gemm_state (g_token_offset g)) (seqZ 0 (g_tokens g))
  = Ok (gemm_state (g_token_offset g + g_tokens g)).
Proof.
  intros Hi Hproj. destruct (group_facts i g 0 _ Hgroups Hi) as (Hoff & Hm & _ & Hb & Htot & Hexp).
  pose proof (proj1 (Forall_lookup _ _) Hres _ _ Hi) as Hr. cbn in Hr.
  destruct (grouped_proj_ok grouped (g_expert g) p Hr) as (pl & sc & Hpp & Hpl & Hsl). rewrite Hproj in Hpp.
  injection Hpp as <- <-. rewrite Z.add_0_l in Hoff. rewrite <-Hoff in Hb, Htot, Hexp.
  fold (total_tokens plan) in Htot. destruct (proj_sizes p) as (Hrp & Hcp & _).
  destruct (fold_try_inv (fun n out => out = gemm_state (g_token_offset g + n))
    (gemm_token payload scales (concat xrows) (g_token_offset g) (slice_in_cols p) (slice_rows p) naive)
    (gemm_state (g_token_offset g)) (g_tokens g)) as (out & Hf & ->); [lia| | |done].
  - by rewrite Z.add_0_r.
  - intros t out Ht ->. specialize (Hexp t Ht). set (n := g_token_offset g + t) in *.
    destruct (lookup_lt_is_Some_2 xrows (Z.to_nat n)) as [xr Hxr]; [lia|].
    pose proof (proj1 (Forall_lookup _ _) Hx _ _ Hxr) as Hxl. cbn in Hxl.
    destruct (slice_concat_uniform xrows (slice_in_cols p) [] [] (Z.to_nat n) xr (n * slice_in_cols p) ((n + 1) * slice_in_cols p)
                Hx Hxr) as [Hslice Hsb]; [cbn [length]; lia|lia|]. cbn [app] in Hslice, Hsb. rewrite app_nil_r in Hslice, Hsb.
    unfold gemm_token. fold n. rewrite (index_range_Ok (concat xrows)) by nia. rewrite ok_bind, Hslice.
    rewrite (index_range_Ok (gemm_state n)).
    2-3: nia.
    2:{ unfold gemm_state. rewrite length_app, Nat2Z.inj_add, take_rows_length, length_replicate by lia. nia. }
    rewrite ok_bind. destruct (gemm_row_ok payload scales xr p naive Hpl Hsl Hxl) as (row & Hrow & Hrowl).
    rewrite Hrow, ok_bind. eexists. split; [done|].
    replace (g_token_offset g + (t + 1)) with (n + 1) by lia. apply gemm_state_step; [lia|].
    unfold gemm_rows. rewrite lookup_zip_with, Hexp. cbn [mbind option_bind]. rewrite Hxr. cbn [mbind option_bind].
    unfold gemm_out. by rewrite Hproj, Hrow.
Qed.

Lemma total_from_lookup i g : gp_groups plan !! i = Some g ->
  foldl Z.add 0 (g_tokens <$> take (S i) (gp_groups plan)) = foldl Z.add 0 (g_tokens <$> take i (gp_groups plan)) + g_tokens g.
Proof. intros Hi. rewrite (take_S_r _ _ _ Hi), fmap_app, foldl_app. done. Qed.

Lemma total_nonneg : 0 <= total_tokens plan.
Proof. rewrite <-row_experts_total. lia. Qed.

Lemma grouped_gemm_ok :
  grouped_gemm grouped (concat xrows) plan p naive = Ok (mkGroupedOutput (concat gemm_rows) (slice_rows p)).
Proof.
  unfold grouped_gemm, validate. rewrite (proj2 (validate_groups_ok 0 0 _) Hgroups), ok_bind.
  rewrite (concat_uniform_length _ _ Hx), Hlen, Z.eqb_refl. cbn [negb]. rewrite Hnaive. pose proof total_nonneg as Ht0.
  replace (replicate (Z.to_nat (total_tokens plan * slice_rows p)) f32_zero) with (gemm_state 0)
    by (unfold gemm_state; cbn [Z.to_nat take concat app]; by rewrite Z.sub_0_r).
  destruct (fold_try_inv (fun n out => out = gemm_state (foldl Z.add 0 (g_tokens <$> take (Z.to_nat n) (gp_groups plan))))
    (gemm_expert grouped (concat xrows) plan p naive) (gemm_state 0) (expert_count plan)) as (out & Hf & ->).
  - unfold expert_count. lia.
  - done.
  - unfold expert_count. intros e out He ->.
    destruct (lookup_lt_is_Some_2 (gp_groups plan) (Z.to_nat e)) as [g Hg]; [lia|].
    destruct (group_facts _ g 0 _ Hgroups Hg) as (Hoff & Hm & _). rewrite Z.add_0_l in Hoff.
    unfold gemm_expert. rewrite Hg, (proj2 (Z.eqb_neq _ _)) by lia.
    pose proof (proj1 (Forall_lookup _ _) Hres _ _ Hg) as Hr. cbn in Hr.
    destruct (grouped_proj_ok grouped (g_expert g) p Hr) as (payload & scales & Hproj & _). rewrite Hproj, ok_bind.
    unfold is_padded. rewrite Z.geb_leb, (proj2 (Z.leb_gt _ _)) by lia. cbv iota. rewrite <-Hoff.
    rewrite (gemm_tokens_ok _ g payload scales Hg Hproj). eexists. split; [done|].
    replace (Z.to_nat (e + 1)) with (S (Z.to_nat e)) by lia. by rewrite (total_from_lookup _ g Hg), <-Hoff.
  - rewrite Hf, ok_bind. do 2 f_equal. unfold expert_count. rewrite Nat2Z.id, firstn_all. fold (total_tokens plan).
    unfold gemm_state. rewrite Z.sub_diag, take_ge by (pose proof gemm_rows_length; lia). cbn [Z.mul Z.to_nat replicate].
    by rewrite app_nil_r.
Qed.
End gemm.

(** ** Codes and splits *)

(** Every code is its value's nearest code, and two codes come back from a byte in their order. *)
Example codes_roundtrip :
  (fun c => quantize_e2m1 (nth c E2M1_CODEBOOK f32_zero)) <$> seq 0 16 = seqZ 0 16 /\
  let codes := list_prod (seq 0 16) (seq 0 16) in
  (fun ab => decode_byte (E:=ExpertError) (pack_byte (Z.of_nat ab.1) (Z.of_nat ab.2)) NONE) <$> codes
  = (fun ab => Ok [nth ab.1 E2M1_CODEBOOK f32_zero; nth ab.2 E2M1_CODEBOOK f32_zero]) <$> codes.
Proof. by vm_compute. Qed.

(** [split3] is exact on a full mantissa, and not on the smallest subnormal, which is below BF16's,
    nor on the largest float, whose first term rounds to infinity. *)
Definition split3_sum (a : spec_float) : spec_float := let '(hi, mid, lo) := split3 a in f32_add (f32_add hi mid) lo.

Example split3_not_always_exact :
  split3_sum (S754_finite false 0xFEDCBB (-20)) = S754_finite false 0xFEDCBB (-20) /\
  split3_sum (S754_finite false 1 (-149)) = S754_zero false /\
  split3_sum (S754_finite false 0xFFFFFF 104) = S754_nan.
Proof. vm_compute. done. Qed.

(** ** The whole expert *)

Section expert.
Context (exp : spec_float -> spec_float) (grouped : list Z) (naive : NaiveBits).

(** One row through one expert: the down projection of [silu gate * up]. *)
Definition expert_row (e : Z) (xrow : list spec_float) : list spec_float :=
  gemm_out grouped naive Down e
    (zip_with (fun g u => f32_mul (silu exp g) u) (gemm_out grouped naive Gate e xrow) (gemm_out grouped naive Up e xrow)).

Context (plan : GroupedPlan) (xrows : list (list spec_float)).
Context (Hnaive : expert_has naive PAD_ROW_READ = false).
Context (Hgroups : groups_from 0 (gp_groups plan)).
Context (Hres : Forall (fun g => resident grouped (g_expert g)) (gp_groups plan)).
Context (Hx : Forall (fun r => Zlen r = HIDDEN) xrows).
Context (Hlen : Zlen xrows = total_tokens plan).

Lemma zip_with_concat_rows {A B C} (f : A -> B -> C) (ls : list (list A)) (ks : list (list B)) :
  Forall2 (fun l k => length l = length k) ls ks ->
  zip_with f (concat ls) (concat ks) = concat (zip_with (zip_with f) ls ks).
Proof.
  induction 1 as [|l k ls ks Hlk _ IH]; [done|]. cbn [concat zip_with]. by rewrite zip_with_app, IH.
Qed.

Lemma uniform_pairs {A B} (ls : list (list A)) (ks : list (list B)) w : Zlen ls = Zlen ks ->
  Forall (fun l => Zlen l = w) ls -> Forall (fun k => Zlen k = w) ks -> Forall2 (fun l k => length l = length k) ls ks.
Proof.
  intros Hl H1 H2. apply Forall2_same_length_lookup_2; [lia|]. intros i l k Hi Hk.
  pose proof (proj1 (Forall_lookup _ _) H1 _ _ Hi). pose proof (proj1 (Forall_lookup _ _) H2 _ _ Hk). cbn in *. lia.
Qed.

Lemma gate_up_data (g u : list spec_float) : length g = length u ->
  mapM (fun i => gi ← idx g i; ui ← idx u i; Ok (f32_mul (silu exp gi) ui)) (seqZ 0 (Zlen g))
  = Ok (E:=ExpertError) (zip_with (fun g u => f32_mul (silu exp g) u) g u).
Proof.
  intros Hl. apply mapM_Ok_iff, Forall2_same_length_lookup_2; [rewrite length_seqZ, length_zip_with; lia|].
  intros i n y Hn (gi & ui & -> & Hg & Hu)%lookup_zip_with_Some. apply lookup_seqZ in Hn as [-> Hn].
  rewrite Z.add_0_l, (idx_Some g (Z.of_nat i) gi); [|lia|by rewrite Nat2Z.id].
  rewrite ok_bind, (idx_Some u (Z.of_nat i) ui); [|lia|by rewrite Nat2Z.id]. done.
Qed.

Lemma expert_ffn_ok :
  expert_ffn_self_contained exp grouped (concat xrows) plan naive
  = Ok (mkGroupedOutput (concat (zip_with expert_row (row_experts (gp_groups plan)) xrows)) HIDDEN).
Proof.
  unfold expert_ffn_self_contained, gate_up.
  rewrite (grouped_gemm_ok grouped naive Gate plan xrows), ok_bind by done.
  rewrite (grouped_gemm_ok grouped naive Up plan xrows), ok_bind by done. cbn [go_data go_out_rows].
  set (G := gemm_rows grouped naive Gate plan xrows). set (U := gemm_rows grouped naive Up plan xrows).
  pose proof (gemm_rows_length grouped naive Gate plan xrows Hgroups Hlen) as HGl.
  pose proof (gemm_rows_length grouped naive Up plan xrows Hgroups Hlen) as HUl.
  pose proof (gemm_rows_uniform grouped naive Gate plan xrows Hres Hx) as HGu.
  pose proof (gemm_rows_uniform grouped naive Up plan xrows Hres Hx) as HUu.
  fold G in HGl, HGu. fold U in HUl, HUu. change (slice_rows Up) with (slice_rows Gate) in HUu.
  pose proof (uniform_pairs G U _ ltac:(lia) HGu HUu) as Hpair.
  assert (length (concat G) = length (concat U)) as Hcl.
  { apply Nat2Z.inj. rewrite (concat_uniform_length _ _ HGu), (concat_uniform_length _ _ HUu). lia. }
  set (f := fun g u => f32_mul (silu exp g) u).
  pose proof (gate_up_data (concat G) (concat U) Hcl) as Hmap. fold f in Hmap.
  rewrite Hmap, ok_bind. cbn [go_data]. rewrite (zip_with_concat_rows f G U Hpair), ok_bind.
  cbn [go_data].
  assert (Forall (fun r => Zlen r = slice_in_cols Down) (zip_with (zip_with f) G U)) as HD.
  { apply Forall_lookup. intros i r (g & u & -> & Hg & Hu)%lookup_zip_with_Some. cbn.
    pose proof (proj1 (Forall_lookup _ _) HGu _ _ Hg) as HG. pose proof (proj1 (Forall_lookup _ _) HUu _ _ Hu) as HU. cbn in HG, HU.
    rewrite length_zip_with. change (slice_in_cols Down) with (slice_rows Gate). lia. }
  assert (Zlen (zip_with (zip_with f) G U) = total_tokens plan) as HDl by (rewrite length_zip_with; lia).
  rewrite (grouped_gemm_ok grouped naive Down plan _ Hnaive Hgroups Hres HD HDl).
  change (slice_rows Down) with HIDDEN. do 3 f_equal. unfold gemm_rows, G, U, gemm_rows. clear.
  generalize (row_experts (gp_groups plan)) as es.
  revert xrows. induction xrows as [|x xs IH]; intros [|e es]; cbn [zip_with]; [reflexivity..|].
  f_equal. apply IH.
Qed.
End expert.

(** * Theorems *)

(** C12: the grouped expert layer is the rows' experts, one row at a time.  Over a valid plan whose
    experts are in the image, the layer succeeds, and each row of its output is that row of the
    input taken through the three projections of the expert the plan gives it: no row depends on
    its group, its tile or its neighbours. *)
Theorem expert_ffn_by_rows exp grouped plan xrows naive :
  expert_has naive PAD_ROW_READ = false -> validate plan = Ok tt ->
  Forall (fun g => resident grouped (g_expert g)) (gp_groups plan) ->
  Forall (fun r => Zlen r = HIDDEN) xrows -> Zlen xrows = total_tokens plan ->
  expert_ffn_self_contained exp grouped (concat xrows) plan naive
  = Ok (mkGroupedOutput (concat (zip_with (expert_row exp grouped naive) (row_experts (gp_groups plan)) xrows)) HIDDEN).
Proof. intros ? Hv ???. apply expert_ffn_ok; [done|by apply (validate_groups_ok 0 0)|done..]. Qed.

(** An image of one expert of zeros, and a tile of one row through it. *)
Definition zero_image : list Z := replicate (Z.to_nat QUARTER_SLICE_BYTES) 0.

Lemma zero_image_resident : resident zero_image 0.
Proof.
  unfold resident, zero_image. rewrite length_replicate. unfold QUARTER_SLICE_BYTES. rewrite Z2Nat.id; lia.
Qed.

Lemma expert_ffn_by_rows_witness :
  let plan := mkGroupedPlan [mkGroup 0 1 0] 0 in
  exists out, expert_ffn_self_contained (fun x => x) zero_image (concat [replicate (Z.to_nat HIDDEN) f32_zero]) plan NONE
    = Ok (mkGroupedOutput out HIDDEN).
Proof.
  intros plan. eexists. apply (expert_ffn_by_rows _ zero_image plan [replicate (Z.to_nat HIDDEN) f32_zero] NONE).
  - reflexivity.
  - reflexivity.
  - constructor; [apply zero_image_resident|constructor].
  - constructor; [by rewrite length_replicate|constructor].
  - reflexivity.
Defined.
