(* ===== verification/Spark.v ===== *)
(** The expert server (src/crates/mimo26-spark/src): the routing of a request to experts and back
    (route.rs), the frames of the return path (wire.rs), serving one request (serve.rs, and
    [cpu_reduce_bf16] of decode.rs), the server's step (server.rs) and the in-memory transports
    (transport.rs).

    A gate weight is the [f32] of its bits in the frame.  The device's FFN is an argument, as in
    the source, without the pointer to the image it closes over; the clock of [Timings] and the
    tracing are left out; a TCP stream is the sequence of what its reads return.  An error's message is a constructor with the values it prints. *)
From Stdlib Require Import ZArith Lia Bool SpecFloat.
From stdpp Require Import base list gmap strings.
From S2P Require Import Prelude Layout Crc32c Bf16 Frame Ladder Utf8 Scan Floats E4m3 RepackSlice Expert.

(** * Definitions *)

Inductive SparkError :=
| RouteCount (got tokens : Z)
| RouteRow (slot row_index token : Z)
| HiddenLength (got tokens : Z)
| FfnLength (got padded : Z)
| PayloadLength (got : Z)
| ScalesLength (got : Z)
| ServeRows (hidden_rows tokens : Z)
| HiddenRowShape
| RouteRange (row : Z)
| RowRoutes (row count : Z)
| FrameError (e : WireError)
| FfnError (what : list Z).

#[local] Abbreviation result := (outcome SparkError).

(** ** route.rs *)

(** [while r >= size { tiles.push(size); r -= size; }] *)
Fixpoint peel (fuel : nat) (size : Z) (tiles : list Z) (r : Z) : list Z * Z :=
  match fuel with
  | O => (tiles, r)
  | S fuel => if r >=? size then peel fuel size (tiles ++ [size]) (r - size) else (tiles, r)
  end.

Definition tile_m (real : Z) : list Z :=
  let fuel := Z.to_nat real in
  let '(tiles, r) := peel fuel 256 [] real in
  let '(tiles, r) := peel fuel 64 tiles r in
  let '(tiles, r) := peel fuel 16 tiles r in
  if r >? 0 then tiles ++ [16] else tiles.

Record RoutePlan := mkRoutePlan {
  rp_plan : GroupedPlan;
  rp_row_token : list Z;
  rp_row_weight : list spec_float;
  rp_row_padded : list Z;
  rp_tokens : Z;
}.

(** [by_expert.entry(expert).or_default().push(slot)] on a map ordered by expert. *)
Fixpoint push_slot (expert slot : Z) (m : list (Z * list Z)) : list (Z * list Z) :=
  match m with
  | [] => [(expert, [slot])]
  | (e, slots) :: m' =>
    match expert ?= e with
    | Lt => (expert, [slot]) :: m
    | Eq => (e, slots ++ [slot]) :: m'
    | Gt => (e, slots) :: push_slot expert slot m'
    end
  end.

Fixpoint by_expert (slot : Z) (routes : list RouteEntry) (m : list (Z * list Z)) : list (Z * list Z) :=
  match routes with
  | [] => m
  | r :: routes => by_expert (slot + 1) routes (push_slot (re_expert_id r) slot m)
  end.

Fixpoint check_route_rows (slot : Z) (routes : list RouteEntry) : result unit :=
  match routes with
  | [] => Ok tt
  | r :: routes =>
    if negb (re_row_index r =? slot / 8) then Err (RouteRow slot (re_row_index r) (slot / 8))
    else check_route_rows (slot + 1) routes
  end.

(** The vectors built so far and the padded row offset. *)
Definition PlanState : Type := list Group * list Z * list spec_float * list Z * Z.

Definition push_tile (expert : Z) (st : list Group * Z) (tile : Z) : list Group * Z :=
  let '(groups, running) := st in
  (groups ++ [mkGroup expert tile running], running + tile).

Definition push_route (routes : list RouteEntry) (group_start : Z)
    (st : list Z * list spec_float * list Z) (js : Z * Z) : result (list Z * list spec_float * list Z) :=
  let '(row_token, row_weight, row_padded) := st in
  let '(j, slot) := js in
  r ← idx routes slot;
  Ok (row_token ++ [slot / 8], row_weight ++ [f32_from_bits (re_gate_weight r)], row_padded ++ [group_start + j]).

Definition push_expert (routes : list RouteEntry) (st : PlanState) (entry : Z * list Z) : result PlanState :=
  let '(groups, row_token, row_weight, row_padded, running) := st in
  let '(expert, slots) := entry in
  let tiles := tile_m (Zlen slots) in
  let group_start := running in
  let '(groups, running) := foldl (push_tile expert) (groups, running) tiles in
  '(row_token, row_weight, row_padded) ←
    fold_try (push_route routes group_start) (row_token, row_weight, row_padded) (zip (seqZ 0 (Zlen slots)) slots);
  Ok (groups, row_token, row_weight, row_padded, running).

Definition from_routes (routes : list RouteEntry) (tokens : Z) : result RoutePlan :=
  want ← usize_mul tokens 8;
  if negb (Zlen routes =? want) then Err (RouteCount (Zlen routes) tokens)
  else
    _ ← check_route_rows 0 routes;
    '(groups, row_token, row_weight, row_padded, _) ←
      fold_try (push_expert routes) ([], [], [], [], 0) (by_expert 0 routes []);
    Ok (mkRoutePlan (mkGroupedPlan groups 0) row_token row_weight row_padded tokens).

Definition routed_rows (rp : RoutePlan) : Z := Zlen (rp_row_token rp).
Definition padded_rows (rp : RoutePlan) : Z := total_tokens (rp_plan rp).
Definition waste_factor (rp : RoutePlan) : spec_float :=
  f64_div (f64_of_Z (padded_rows rp)) (f64_of_Z (routed_rows rp)).

Definition copy_row (hidden x : list spec_float) (row : Z * Z) : result (list spec_float) :=
  let '(token, padded) := row in
  src ← index_range hidden (token * HIDDEN) ((token + 1) * HIDDEN);
  _ ← index_range x (padded * HIDDEN) ((padded + 1) * HIDDEN);
  Ok (splice x (padded * HIDDEN) src).

Definition replicate_x (rp : RoutePlan) (hidden : list spec_float) : result (list spec_float) :=
  if negb (Zlen hidden =? rp_tokens rp * HIDDEN) then Err (HiddenLength (Zlen hidden) (rp_tokens rp))
  else
    fold_try (copy_row hidden) (replicate (Z.to_nat (padded_rows rp * HIDDEN)) f32_zero)
      (zip (rp_row_token rp) (rp_row_padded rp)).

(** [out[token * width + h] += ffn_out[padded * width + h] * w] for every [h]. *)
Definition add_row (ffn_out : list spec_float) (width : Z) (out : list spec_float)
    (row : Z * spec_float * Z) : result (list spec_float) :=
  let '(token, w, padded) := row in
  fold_try (fun out h =>
    v ← idx ffn_out (padded * width + h);
    old ← idx out (token * width + h);
    idx_set out (token * width + h) (f32_add old (f32_mul v w))) out (seqZ 0 width).

Definition reduce (rp : RoutePlan) (ffn_out : list spec_float) : result (list spec_float) :=
  if negb (Zlen ffn_out =? padded_rows rp * HIDDEN) then Err (FfnLength (Zlen ffn_out) (padded_rows rp))
  else
    fold_try (add_row ffn_out HIDDEN) (replicate (Z.to_nat (rp_tokens rp * HIDDEN)) f32_zero)
      (zip (zip (rp_row_token rp) (rp_row_weight rp)) (rp_row_padded rp)).

(** [x as i32]; [p as usize] of an [i32]. *)
Definition as_i32 (x : Z) : Z := let y := x mod 2 ^ 32 in if y <? 2 ^ 31 then y else y - 2 ^ 32.
Definition i32_as_usize (p : Z) : Z := p mod 2 ^ 64.

Definition token_major_routes (rp : RoutePlan) : result (list Z * list spec_float) :=
  let key i := default 0 (rp_row_token rp !! Z.to_nat i) in
  let order := sort_by (fun i j => key i ?= key j) (seqZ 0 (Zlen (rp_row_token rp))) in
  padded ← mapM (fun i => p ← idx (rp_row_padded rp) i; Ok (as_i32 p)) order;
  weight ← mapM (fun i => idx (rp_row_weight rp) i) order;
  Ok (padded, weight).

(** ** decode.rs *)

Definition cpu_reduce_bf16 (ffn_out : list spec_float) (padded : list Z) (weight : list spec_float)
    (tokens hidden : Z) : result (list Z) :=
  let rows := (fun '(t, (p, w)) => (t / 8, w, i32_as_usize p)) <$> zip (seqZ 0 (Zlen padded)) (zip padded weight) in
  out ← fold_try (add_row ffn_out hidden) (replicate (Z.to_nat (tokens * hidden)) f32_zero) rows;
  Ok ((fun v => f32_to_bf16_rne (f32_to_bits v)) <$> (out : list spec_float)).

(** ** wire.rs *)

Definition return_frame (request_id placement_version layer_id executor_id token_position : Z)
    (rows : list ReturnRow) : ReturnFrame :=
  mkReturnFrame request_id placement_version layer_id executor_id token_position StatusOk
    FLAG_RETURN_REQUIRED 8 0 rows.

Definition rank_partial_to_return_frame (partial : list spec_float) (tokens request_id placement_version
    layer_id executor_id token_position : Z) (naive : WireNaive) : outcome WireError ReturnFrame :=
  if tokens * HIDDEN >=? 2 ^ 64 then Err (DimMismatch "partial" 0 (2 ^ 64 - 1))
  else if negb (Zlen partial =? tokens * HIDDEN) then Err (DimMismatch "partial" (tokens * HIDDEN) (Zlen partial))
  else
    rows ← mapM (fun t =>
      block ← index_range partial (t * HIDDEN) ((t + 1) * HIDDEN);
      Ok (mkReturnRow ((fun v => f32_to_bf16 (f32_to_bits v) naive) <$> block))) (seqZ 0 tokens);
    Ok (return_frame request_id placement_version layer_id executor_id token_position rows).

Definition rank_bf16_to_return_frame (bf16 : list Z) (tokens request_id placement_version layer_id
    executor_id token_position : Z) : outcome WireError ReturnFrame :=
  if tokens * HIDDEN >=? 2 ^ 64 then Err (DimMismatch "bf16" 0 (2 ^ 64 - 1))
  else if negb (Zlen bf16 =? tokens * HIDDEN) then Err (DimMismatch "bf16" (tokens * HIDDEN) (Zlen bf16))
  else
    rows ← mapM (fun t =>
      block ← index_range bf16 (t * HIDDEN) ((t + 1) * HIDDEN);
      Ok (mkReturnRow block)) (seqZ 0 tokens);
    Ok (return_frame request_id placement_version layer_id executor_id token_position rows).

Section wire.
Context (cpu : CpuCrc) (nocrc : bool).

Definition encode_rank_partial (partial : list spec_float) (tokens request_id placement_version layer_id
    executor_id token_position : Z) (naive : WireNaive) : outcome WireError (list Z) :=
  frame ← rank_partial_to_return_frame partial tokens request_id placement_version layer_id executor_id
            token_position naive;
  bytes ← encode_return cpu nocrc frame naive;
  if Zlen bytes =? HEADER_LEN + tokens * RETURN_ROW_BYTES then Ok bytes else Panic.

(** ** serve.rs *)

Definition decode_hidden (payload scales : list Z) : result (list spec_float) :=
  if negb (Zlen payload =? HIDDEN) then Err (PayloadLength (Zlen payload))
  else if negb (Zlen scales =? HIDDEN / 32) then Err (ScalesLength (Zlen scales))
  else
    blocks ← mapM (fun b =>
      sbyte ← idx scales b;
      let s := e8m0_scale sbyte NONE in
      mapM (fun k =>
        code ← idx payload (b * 32 + k);
        v ← idx decode_table code;
        Ok (f32_of_f64 (f64_clamp (f64_mul v s) (SFopp f32_max_f64) f32_max_f64))) (seqZ 0 32))
      (seqZ 0 (HIDDEN / 32));
    Ok (concat blocks).

Definition Ffn : Type := list spec_float -> RoutePlan -> result (list Z).

Definition serve_return (request : RequestFrame) (ffn : Ffn) : result ReturnFrame :=
  let tokens := Zlen (rq_rows request) in
  if negb (Zlen (rq_hidden_rows request) =? tokens) then Err (ServeRows (Zlen (rq_hidden_rows request)) tokens)
  else
    rows ← mapM (fun h => decode_hidden (hr_payload h) (hr_scales h)) (rq_hidden_rows request);
    rp ← from_routes (rq_routes request) tokens;
    bf16 ← ffn (concat rows) rp;
    map_err FrameError (rank_bf16_to_return_frame bf16 tokens (rq_request_id request)
      (rq_placement_version request) (rq_layer_id request) (rq_executor_id request) (rq_token_position request)).

Definition serve (request : RequestFrame) (ffn : Ffn) (naive : WireNaive) : result (list Z) :=
  frame ← serve_return request ffn;
  map_err FrameError (encode_return cpu nocrc frame naive).

(** The FFN of the tests and of the server without a device: the experts on the CPU. *)
Definition cpu_ffn (exp : spec_float -> spec_float) (grouped : list Z) : Ffn := fun hidden rp =>
  x ← replicate_x rp hidden;
  out ← map_err (fun _ => FfnError []) (expert_ffn_self_contained exp grouped x (rp_plan rp) NONE);
  '(padded, weight) ← token_major_routes rp;
  cpu_reduce_bf16 (go_data out) padded weight (rp_tokens rp) HIDDEN.

(** The inputs of the tensor-core path: payload, scales, expert ids and weights. *)
Definition b1_row (request : RequestFrame) (acc : list Z * list spec_float) (ir : Z * RowDescriptor)
    : result (list Z * list spec_float) :=
  let '(i, row) := ir in
  if negb (rd_route_count row =? 8) then Err (RowRoutes i (rd_route_count row))
  else
    end_ ← usize_add (rd_route_offset row) 8;
    rs ← ok_or (get_range (rq_routes request) (rd_route_offset row) end_) (RouteRange i);
    fold_try (fun '(ids, weights) r =>
      if negb (re_row_index r =? i) then Err (RouteRow i (re_row_index r) i)
      else Ok (ids ++ [as_i32 (re_expert_id r)], weights ++ [f32_from_bits (re_gate_weight r)])) acc rs.

Definition b1_inputs (request : RequestFrame) : result (list Z * list Z * list Z * list spec_float) :=
  let tokens := Zlen (rq_rows request) in
  if negb (Zlen (rq_hidden_rows request) =? tokens) then Err (ServeRows (Zlen (rq_hidden_rows request)) tokens)
  else
    '(payload, scales) ← fold_try (fun '(payload, scales) h =>
      if negb (Zlen (hr_payload h) =? HIDDEN) || negb (Zlen (hr_scales h) =? HIDDEN / 32)
      then Err HiddenRowShape
      else Ok (payload ++ hr_payload h, scales ++ hr_scales h)) ([], []) (rq_hidden_rows request);
    '(ids, weights) ← fold_try (b1_row request) ([], []) (zip (seqZ 0 tokens) (rq_rows request));
    Ok (payload, scales, ids, weights).

Definition return_meta (request : RequestFrame) : ReturnFrame :=
  return_frame (rq_request_id request) (rq_placement_version request) (rq_layer_id request)
    (rq_executor_id request) (rq_token_position request) [].

(** ** transport.rs: what the server and the client need of a byte channel *)

(** [send] and [recv]; a failed [send] is an I/O error, an absent frame is [None]. *)
Class ByteTransport (T : Type) := {
  bt_send : T -> list Z -> T * outcome (list Z) unit;
  bt_recv : T -> T * option (list Z);
}.

(** One end of a loopback: what it has been sent and what it has sent, oldest first. *)
Record LoopbackEnd := mkLoopbackEnd { le_rx : list (list Z); le_tx : list (list Z) }.

#[export] Instance loopback_end : ByteTransport LoopbackEnd := {|
  bt_send := fun t bytes => (mkLoopbackEnd (le_rx t) (le_tx t ++ [bytes]), Ok tt);
  bt_recv := fun t =>
    match le_rx t with
    | [] => (t, None)
    | bytes :: rx => (mkLoopbackEnd rx (le_tx t), Some bytes)
    end;
|}.

(** Both ends of a loopback: each end's [le_tx] is on its way to the other. *)
Record Loopback := mkLoopback { lb_a : LoopbackEnd; lb_b : LoopbackEnd }.
Definition Loopback_new : Loopback := mkLoopback (mkLoopbackEnd [] []) (mkLoopbackEnd [] []).

Inductive Fault :=
| Bitflip (byte mask : Z)
| Truncate (keep : Z).

Record FaultInjector (T : Type) := mkFaultInjector { fi_inner : T; fi_pending : option Fault }.
#[global] Arguments mkFaultInjector {T} fi_inner fi_pending.
#[global] Arguments fi_inner {T} _.
#[global] Arguments fi_pending {T} _.

Definition FaultInjector_new {T} (inner : T) : FaultInjector T := mkFaultInjector inner None.
Definition inject {T} (t : FaultInjector T) (fault : Fault) : FaultInjector T :=
  mkFaultInjector (fi_inner t) (Some fault).

Definition corrupt (fault : Fault) (bytes : list Z) : list Z :=
  match fault with
  | Bitflip byte mask =>
    if byte <? Zlen bytes then alter (fun b => Z.lxor b mask) (Z.to_nat byte) bytes else bytes
  | Truncate keep => take (Z.to_nat keep) bytes
  end.

#[export] Instance fault_injector {T} `{!ByteTransport T} : ByteTransport (FaultInjector T) := {|
  bt_send := fun t bytes =>
    let bytes := match fi_pending t with Some fault => corrupt fault bytes | None => bytes end in
    let '(inner, res) := bt_send (fi_inner t) bytes in
    (mkFaultInjector inner None, res);
  bt_recv := fun t =>
    let '(inner, res) := bt_recv (fi_inner t) in
    (mkFaultInjector inner (fi_pending t), res);
|}.

(** What the reads of a socket return, in order: bytes, an interruption, or an error; then the end. *)
Inductive ReadEvent :=
| Arrived (bytes : list Z)
| Interrupted
| ReadFailed.

Record TcpTransport := mkTcpTransport { tt_stream : list ReadEvent; tt_closed : bool }.
Definition from_stream (stream : list ReadEvent) : TcpTransport := mkTcpTransport stream false.
Definition peer_closed (t : TcpTransport) : bool := tt_closed t.

(** Reading until [n] bytes are there: the loop over the header, and [read_exact]. *)
Fixpoint fill (n : Z) (stream : list ReadEvent) : option (list Z) * list ReadEvent :=
  if n <=? 0 then (Some [], stream)
  else
    match stream with
    | [] => (None, [])
    | Interrupted :: stream => fill n stream
    | ReadFailed :: stream => (None, stream)
    | Arrived bytes :: stream =>
      if Zlen bytes =? 0 then (None, stream)
      else if Zlen bytes <=? n then
        let '(rest, stream) := fill (n - Zlen bytes) stream in (app bytes <$> rest, stream)
      else (Some (take (Z.to_nat n) bytes), Arrived (drop (Z.to_nat n) bytes) :: stream)
    end.

(** [recv] blocks until a frame is there; [vec![0; wb]] panics past the address space. *)
Definition tcp_recv (t : TcpTransport) : TcpTransport * outcome unit (option (list Z)) :=
  let '(header, stream) := fill HEADER_LEN (tt_stream t) in
  match header with
  | None => (mkTcpTransport stream true, Ok None)
  | Some header =>
    let wb := le_val (slice header 76 84) in
    if wb <? HEADER_LEN then (mkTcpTransport stream true, Ok None)
    else if wb >=? 2 ^ 63 then (mkTcpTransport stream (tt_closed t), Panic)
    else
      let '(body, stream) := fill (wb - HEADER_LEN) stream in
      match body with
      | None => (mkTcpTransport stream true, Ok None)
      | Some body => (mkTcpTransport stream (tt_closed t), Ok (Some (header ++ body)))
      end
  end.

(** ** server.rs *)

Inductive ServeError :=
| L4 (e : WireError)
| Serve (e : SparkError)
| IoFailed (e : list Z).

Section server.
Context {T : Type} `{!ByteTransport T}.

Record SparkServer := mkSparkServer {
  sv_transport : T;
  sv_rx : StreamReceiver;
  sv_tx : StreamSender;
  sv_naive : WireNaive;
}.

Definition SparkServer_new (transport : T) (naive : WireNaive) : SparkServer :=
  mkSparkServer transport (StreamReceiver_new naive) (StreamSender_new naive) naive.

Definition step (sv : SparkServer) (ffn : Ffn) : SparkServer * outcome ServeError (option Z) :=
  let '(transport, received) := bt_recv (sv_transport sv) in
  let sv := mkSparkServer transport (sv_rx sv) (sv_tx sv) (sv_naive sv) in
  match received with
  | None => (sv, Ok None)
  | Some bytes =>
    let '(rx, frame) := accept cpu nocrc (sv_rx sv) bytes in
    let sv := mkSparkServer transport rx (sv_tx sv) (sv_naive sv) in
    match frame with
    | Err e => (sv, Err (L4 e))
    | Panic => (sv, Panic)
    | Ok (FrameReturn _) => (sv, Err (L4 (BadKind KIND_RETURN)))
    | Ok (FrameRequest req) =>
      match serve_return req ffn with
      | Err e => (sv, Err (Serve e))
      | Panic => (sv, Panic)
      | Ok ret =>
        let stamped_seq := ss_next_seq (sv_tx sv) in
        let '(tx, stamped) := StreamSender_encode_return cpu nocrc (sv_tx sv) ret in
        let sv := mkSparkServer transport rx tx (sv_naive sv) in
        match stamped with
        | Err e => (sv, Err (L4 e))
        | Panic => (sv, Panic)
        | Ok stamped =>
          if negb (Zlen stamped =? HEADER_LEN + Zlen (rt_rows ret) * RETURN_ROW_BYTES) then (sv, Panic)
          else
            let '(transport, sent) := bt_send transport stamped in
            let sv := mkSparkServer transport rx tx (sv_naive sv) in
            match sent with
            | Ok _ => (sv, Ok (Some stamped_seq))
            | Err e => (sv, Err (IoFailed e))
            | Panic => (sv, Panic)
            end
        end
      end
    end
  end.
End server.
End wire.
