(* ===== verification/SparkRoute.v ===== *)
(** Routing (src/crates/mimo26-spark/src, route.rs and [cpu_reduce_bf16] of decode.rs): the routes of
    a request are grouped by expert, tiled and padded, run through the experts, and added up per
    token, and none of it changes a token's sum. *)
From Stdlib Require Import ZArith Lia Bool Sorted SpecFloat.
From stdpp Require Import base list gmap strings sorting.
From S2P Require Import Prelude Layout Crc32c Bf16 Frame FrameProofs FrameTheorems Ladder LadderProofs Utf8 Scan Floats E4m3 RepackSlice Expert Spark.

(** * Stable sorting

    A list sorted by a key whose elements of each key are in a given order is determined. *)
Section stable.
Context {A : Type} (key : A -> Z).

Definition by_key (l : list A) : Prop := StronglySorted (fun x y => key x <= key y) l.
Definition of_key (k : Z) (l : list A) : list A := filter (fun x => key x = k) l.
Definition key_cmp (x y : A) : comparison := key x ?= key y.

Lemma of_key_cons k x l : of_key k (x :: l) = if decide (key x = k) then x :: of_key k l else of_key k l.
Proof. unfold of_key. rewrite filter_cons. by repeat case_decide. Qed.

Lemma of_key_app k l l' : of_key k (l ++ l') = of_key k l ++ of_key k l'.
Proof. apply filter_app. Qed.

Lemma insert_of_key k x l : of_key k (sort_insert key_cmp x l) = of_key k (x :: l).
Proof.
  induction l as [|y l IH]; [done|]. cbn [sort_insert]. change (key_cmp x y) with (key x ?= key y). destruct (Z.compare_spec (key x) (key y)); [done..|].
  rewrite !of_key_cons, IH, of_key_cons. repeat case_decide; done || lia.
Qed.

Lemma sort_of_key k l : of_key k (sort_by key_cmp l) = of_key k l.
Proof.
  induction l as [|x l IH]; [done|]. change (sort_by key_cmp (x :: l)) with (sort_insert key_cmp x (sort_by key_cmp l)).
  by rewrite insert_of_key, !of_key_cons, IH.
Qed.

Lemma insert_elem x y l : y ∈ sort_insert key_cmp x l -> y = x \/ y ∈ l.
Proof.
  induction l as [|z l IH]; cbn [sort_insert]; [set_solver|]. destruct (key_cmp x z); [set_solver..|].
  rewrite !elem_of_cons. tauto.
Qed.

Lemma insert_by_key x l : by_key l -> by_key (sort_insert key_cmp x l).
Proof.
  induction 1 as [|y l Hs IH Hf]; [by repeat constructor|]. cbn [sort_insert]. change (key_cmp x y) with (key x ?= key y).
  destruct (Z.compare_spec (key x) (key y)) as [Hc|Hc|Hc].
  1-2: constructor; [by constructor|]; constructor; [lia|]; apply (Forall_impl _ _ _ Hf); intros; lia.
  constructor; [exact IH|]. apply Forall_forall. intros z [->|Hz]%insert_elem; [lia|]. by apply (proj1 (Forall_forall _ _) Hf).
Qed.

Lemma sort_by_key l : by_key (sort_by key_cmp l).
Proof. induction l as [|x l IH]; [constructor|]. by apply insert_by_key. Qed.

Lemma of_key_None k l : Forall (fun x => key x <> k) l -> of_key k l = [].
Proof. intros H. apply filter_none. intros x Hx. by apply (proj1 (Forall_forall _ _) H). Qed.

Lemma stable_unique l l' : by_key l -> by_key l' -> (forall k, of_key k l = of_key k l') -> l = l'.
Proof.
  intros Hl. revert l'. induction Hl as [|x l Hs IH Hf]; intros l' Hl' H.
  - destruct l' as [|y l']; [done|]. specialize (H (key y)). rewrite of_key_cons, decide_True in H by done. done.
  - destruct Hl' as [|y l' Hs' Hf'].
    { specialize (H (key x)). by rewrite of_key_cons, decide_True in H. }
    assert (key x = key y) as Hk.
    { destruct (Z.lt_trichotomy (key x) (key y)) as [Hlt|[Heq|Hlt]]; [|exact Heq|].
      - pose proof (H (key x)) as Hx. rewrite !of_key_cons, decide_True, decide_False in Hx by lia.
        rewrite (of_key_None _ l') in Hx; [discriminate|]. apply (Forall_impl _ _ _ Hf'). intros; lia.
      - pose proof (H (key y)) as Hx. rewrite !of_key_cons, decide_False, decide_True in Hx by lia.
        rewrite (of_key_None _ l) in Hx; [discriminate|]. apply (Forall_impl _ _ _ Hf). intros; lia. }
    pose proof (H (key x)) as Hx. rewrite !of_key_cons, !decide_True in Hx by done. injection Hx as -> Hx.
    f_equal. apply IH; [done|]. intros k. specialize (H k). rewrite !of_key_cons in H. case_decide; [by injection H|done].
Qed.

Lemma sort_by_id l : by_key l -> sort_by key_cmp l = l.
Proof. intros Hl. apply stable_unique; [apply sort_by_key|done|intros; apply sort_of_key]. Qed.

Lemma sort_permutation l : sort_by key_cmp l ≡ₚ l.
Proof.
  assert (forall x l, sort_insert key_cmp x l ≡ₚ x :: l) as Hins.
  { clear. intros x l. induction l as [|y l IH]; [done|]. cbn [sort_insert]. destruct (key_cmp x y); [done..|].
    rewrite IH. apply Permutation_swap. }
  induction l as [|x l IH]; [done|]. change (sort_by key_cmp (x :: l)) with (sort_insert key_cmp x (sort_by key_cmp l)).
  by rewrite Hins, IH.
Qed.
End stable.

(** Sorting what a filter keeps is filtering what was sorted. *)
Lemma sort_filter {A} (key : A -> Z) (P : A -> Prop) `{!forall x, Decision (P x)} l :
  filter P (sort_by (key_cmp key) l) = sort_by (key_cmp key) (filter P l).
Proof.
  apply (stable_unique key).
  - pose proof (sort_by_key key l) as Hs. induction Hs as [|x s Hs IH Hf]; [constructor|].
    rewrite filter_cons. case_decide; [|done]. constructor; [done|].
    apply Forall_forall. intros y [_ Hy]%list_elem_of_filter. by apply (proj1 (Forall_forall _ _) Hf).
  - apply sort_by_key.
  - intros k. rewrite (sort_of_key key). unfold of_key. rewrite !list_filter_filter.
    rewrite (list_filter_iff _ (fun x => P x /\ key x = k)) by tauto. rewrite <-list_filter_filter.
    fold (of_key key k (sort_by (key_cmp key) l)). rewrite (sort_of_key key). unfold of_key. rewrite list_filter_filter.
    apply list_filter_iff. tauto.
Qed.

(** * Tiles *)

Lemma peel_spec fuel size tiles r : 0 < size -> 0 <= r -> (Z.to_nat r <= fuel)%nat ->
  peel fuel size tiles r = (tiles ++ replicate (Z.to_nat (r / size)) size, r mod size).
Proof.
  intros Hs. revert tiles r. induction fuel as [|fuel IH]; intros tiles r Hr Hf.
  - assert (r = 0) as -> by lia. cbn [peel]. rewrite Z.div_0_l, Z.mod_0_l by lia. by rewrite app_nil_r.
  - cbn [peel]. destruct (Z.geb_spec r size) as [Hge|Hlt].
    + rewrite IH by lia. rewrite <-app_assoc. f_equal.
      * replace (r / size) with (1 + (r - size) / size).
        2:{ replace r with (r - size + 1 * size) at 2 by lia. rewrite Z.div_add by lia. lia. }
        pose proof (Z.div_pos (r - size) size ltac:(lia) Hs).
        rewrite Z2Nat.inj_add by lia. done.
      * replace r with (r - size + 1 * size) at 2 by lia. by rewrite Z.mod_add by lia.
    + rewrite Z.div_small, Z.mod_small by lia. by rewrite app_nil_r.
Qed.

(** The tiles of a group of [real] routes: as many of 256, then of 64, then of 16 as fit, and one
    more of 16 for a rest. *)
Lemma tile_m_spec real : 0 <= real ->
  tile_m real = replicate (Z.to_nat (real / 256)) 256 ++ replicate (Z.to_nat (real mod 256 / 64)) 64
    ++ replicate (Z.to_nat (real mod 256 mod 64 / 16)) 16 ++ (if real mod 256 mod 64 mod 16 >? 0 then [16] else []).
Proof.
  intros Hr. unfold tile_m.
  pose proof (Z.mod_pos_bound real 256 ltac:(lia)). pose proof (Z.mod_pos_bound (real mod 256) 64 ltac:(lia)).
  pose proof (Z.mod_le real 256 Hr ltac:(lia)). pose proof (Z.mod_le (real mod 256) 64 ltac:(lia) ltac:(lia)).
  rewrite !peel_spec by lia. destruct (_ >? 0); rewrite ?app_nil_r, <-?app_assoc; done.
Qed.

Lemma sum_replicate n x : foldl Z.add 0 (replicate n x) = Z.of_nat n * x.
Proof. induction n as [|n IH]; [done|]. cbn [replicate foldl]. rewrite sum_from, IH. lia. Qed.

Lemma sum_app l k : foldl Z.add 0 (l ++ k) = foldl Z.add 0 l + foldl Z.add 0 k.
Proof. rewrite foldl_app. apply sum_from. Qed.

Definition padded_size (real : Z) : Z := foldl Z.add 0 (tile_m real).

(** Every tile is of a compiled size, they hold the routes, and fewer than 16 rows are padding. *)
Lemma tile_m_sound real : 0 <= real ->
  Forall (fun m => m ∈ M_SIZES) (tile_m real) /\ real <= padded_size real < real + 16.
Proof.
  intros Hr. unfold padded_size. rewrite tile_m_spec by done. split.
  - repeat apply Forall_app_2; [by apply Forall_replicate, (bool_decide_unpack _)..|].
    destruct (_ >? 0); by repeat constructor; apply (bool_decide_unpack _).
  - rewrite !sum_app, !sum_replicate.
    pose proof (Z.div_mod real 256 ltac:(lia)). pose proof (Z.mod_pos_bound real 256 ltac:(lia)).
    set (a := real mod 256) in *. pose proof (Z.div_mod a 64 ltac:(lia)). pose proof (Z.mod_pos_bound a 64 ltac:(lia)).
    set (b := a mod 64) in *. pose proof (Z.div_mod b 16 ltac:(lia)). pose proof (Z.mod_pos_bound b 16 ltac:(lia)).
    pose proof (Z.div_pos real 256 Hr ltac:(lia)). pose proof (Z.div_pos a 64 ltac:(lia) ltac:(lia)).
    pose proof (Z.div_pos b 16 ltac:(lia) ltac:(lia)). rewrite !Z2Nat.id by lia.
    destruct (Z.gtb_spec (b mod 16) 0); cbn [foldl]; lia.
Qed.

(** * Routes by expert *)

(** The routes of a map from experts to slots, in its order. *)
Definition flat (m : list (Z * list Z)) : list (Z * Z) := concat ((fun em : Z * list Z => pair em.1 <$> em.2) <$> m).
Definition keys_sorted (m : list (Z * list Z)) : Prop := StronglySorted Z.lt m.*1.

Lemma flat_cons e slots m : flat ((e, slots) :: m) = (pair e <$> slots) ++ flat m.
Proof. done. Qed.

Lemma flat_keys (P : Z -> Prop) m : Forall P m.*1 -> Forall (fun x => P x.1) (flat m).
Proof.
  induction m as [|[e slots] m IH]; [constructor|]. intros [He Hm]%Forall_cons. rewrite flat_cons.
  apply Forall_app_2; [|by apply IH]. apply Forall_fmap, Forall_forall. done.
Qed.

Lemma push_slot_keys e s m x : x ∈ (push_slot e s m).*1 -> x = e \/ x ∈ m.*1.
Proof.
  induction m as [|[e' slots] m IH]; cbn [push_slot]; [cbn; set_solver|].
  destruct (Z.compare_spec e e') as [->|Hlt|Hgt]; cbn; rewrite !elem_of_cons; [tauto..|]. intros [->|Hx]; [tauto|].
  destruct (IH Hx); tauto.
Qed.

Lemma push_slot_sorted e s m : keys_sorted m -> keys_sorted (push_slot e s m).
Proof.
  unfold keys_sorted. induction m as [|[e' slots] m IH]; [by repeat constructor|]. cbn [push_slot fmap list_fmap fst].
  intros [Hs Hf]%StronglySorted_inv. destruct (Z.compare_spec e e') as [->|Hlt|Hgt]; cbn [fmap list_fmap fst].
  - by constructor.
  - constructor; [by constructor|]. constructor; [done|]. apply (Forall_impl _ _ _ Hf). intros; lia.
  - constructor; [by apply IH|]. apply Forall_forall. intros x [->|Hx]%push_slot_keys; [done|].
    by apply (proj1 (Forall_forall _ _) Hf).
Qed.

Lemma of_key_pairs k e (slots : list Z) : of_key fst k (pair e <$> slots) = if decide (e = k) then pair e <$> slots else [].
Proof.
  unfold of_key. case_decide as He.
  - induction slots as [|s slots IH]; [done|]. cbn [fmap list_fmap]. rewrite filter_cons_True by done. by f_equal.
  - apply filter_none. by intros _ (s & -> & _)%list_elem_of_fmap.
Qed.

Lemma push_slot_of_key k e s m : keys_sorted m ->
  of_key fst k (flat (push_slot e s m)) = of_key fst k (flat m) ++ of_key fst k [(e, s)].
Proof.
  unfold keys_sorted. induction m as [|[e' slots] m IH]; [done|]. cbn [push_slot fmap list_fmap fst].
  intros [Hs Hf]%StronglySorted_inv. destruct (Z.compare_spec e e') as [->|Hlt|Hgt].
  - rewrite !flat_cons, fmap_app, !of_key_app. rewrite !of_key_pairs, of_key_cons. cbn [fst fmap list_fmap].
    case_decide as Hk; [|by rewrite !app_nil_l, app_nil_r]. subst k.
    rewrite (of_key_None fst e' (flat m)); [by rewrite !app_nil_r|].
    apply (flat_keys (fun x => x <> e')), (Forall_impl _ _ _ Hf). intros; lia.
  - rewrite flat_cons, of_key_app. cbn [fmap list_fmap]. rewrite of_key_cons. cbn [fst].
    case_decide as Hk; [|by rewrite !app_nil_r]. subst k. rewrite (of_key_None fst e (flat _)); [done|].
    apply (flat_keys (fun x => x <> e)). cbn [fmap list_fmap fst]. constructor; [lia|].
    apply (Forall_impl _ _ _ Hf). intros; lia.
  - rewrite !flat_cons, !of_key_app, IH by done. by rewrite app_assoc.
Qed.

Definition route_pairs (slot : Z) (routes : list RouteEntry) : list (Z * Z) :=
  zip (re_expert_id <$> routes) (seqZ slot (Zlen routes)).

Lemma route_pairs_cons slot r routes :
  route_pairs slot (r :: routes) = (re_expert_id r, slot) :: route_pairs (slot + 1) routes.
Proof. unfold route_pairs. cbn [length]. by rewrite seqZ_cons, Nat2Z.inj_succ, Z.pred_succ by lia. Qed.

Lemma by_expert_spec slot routes m : keys_sorted m -> keys_sorted (by_expert slot routes m) /\
  forall k, of_key fst k (flat (by_expert slot routes m)) = of_key fst k (flat m ++ route_pairs slot routes).
Proof.
  revert slot m. induction routes as [|r routes IH]; intros slot m Hm.
  - split; [done|]. intros k. by rewrite app_nil_r.
  - cbn [by_expert]. destruct (IH (slot + 1) _ (push_slot_sorted (re_expert_id r) slot m Hm)) as [Hs Hk].
    split; [done|]. intros k. by rewrite Hk, route_pairs_cons, !of_key_app, push_slot_of_key, <-app_assoc, <-of_key_app.
Qed.

Lemma flat_by_key m : keys_sorted m -> by_key fst (flat m).
Proof.
  unfold keys_sorted. induction m as [|[e slots] m IH]; [constructor|]. cbn [fmap list_fmap fst].
  intros [Hs Hf]%StronglySorted_inv. specialize (IH Hs). rewrite flat_cons.
  assert (Forall (fun x => e <= x.1) (flat m)) as Hle.
  { apply (flat_keys (Z.le e)), (Forall_impl _ _ _ Hf). intros; lia. }
  induction slots as [|s slots IHs]; [done|]. constructor; [done|]. apply Forall_app_2; [|done].
  apply Forall_fmap, Forall_forall. cbn. lia.
Qed.

(** The routes grouped by expert are the routes sorted by expert, in the order they came. *)
Definition routed (routes : list RouteEntry) : list (Z * Z) := sort_by (key_cmp fst) (route_pairs 0 routes).

Lemma by_expert_routed routes : flat (by_expert 0 routes []) = routed routes.
Proof.
  destruct (by_expert_spec 0 routes []) as [Hs Hk]; [constructor|]. apply (stable_unique fst).
  - by apply flat_by_key.
  - apply sort_by_key.
  - intros k. unfold routed. by rewrite Hk, sort_of_key.
Qed.

(** * The plan *)

Fixpoint tile_groups (e off : Z) (tiles : list Z) : list Group :=
  match tiles with
  | [] => []
  | tile :: tiles => mkGroup e tile off :: tile_groups e (off + tile) tiles
  end.

Fixpoint plan_groups (off : Z) (m : list (Z * list Z)) : list Group :=
  match m with
  | [] => []
  | (e, slots) :: m => tile_groups e off (tile_m (Zlen slots)) ++ plan_groups (off + padded_size (Zlen slots)) m
  end.

Fixpoint plan_padded (off : Z) (m : list (Z * list Z)) : list Z :=
  match m with
  | [] => []
  | (_, slots) :: m => seqZ off (Zlen slots) ++ plan_padded (off + padded_size (Zlen slots)) m
  end.

Definition plan_size (m : list (Z * list Z)) : Z := foldl Z.add 0 ((fun em : Z * list Z => padded_size (Zlen em.2)) <$> m).

Definition slot_weight (routes : list RouteEntry) (slot : Z) : spec_float :=
  match routes !! Z.to_nat slot with Some r => f32_from_bits (re_gate_weight r) | None => f32_zero end.

Definition plan_of (routes : list RouteEntry) (tokens : Z) : RoutePlan :=
  let m := by_expert 0 routes [] in
  mkRoutePlan (mkGroupedPlan (plan_groups 0 m) 0) ((fun x => x.2 / 8) <$> routed routes)
    ((fun x => slot_weight routes x.2) <$> routed routes) (plan_padded 0 m) tokens.

Lemma plan_size_cons e slots m : plan_size ((e, slots) :: m) = padded_size (Zlen slots) + plan_size m.
Proof. unfold plan_size. cbn [fmap list_fmap foldl snd]. rewrite sum_from. lia. Qed.

Lemma push_tiles e gs off tiles :
  foldl (push_tile e) (gs, off) tiles = (gs ++ tile_groups e off tiles, off + foldl Z.add 0 tiles).
Proof.
  revert gs off. induction tiles as [|t tiles IH]; intros gs off; cbn [foldl tile_groups]; [by rewrite app_nil_r, Z.add_0_r|].
  unfold push_tile at 2. rewrite IH, <-app_assoc, (sum_from (0 + t)). cbn [app]. f_equal. lia.
Qed.

Definition slot_ok (routes : list RouteEntry) (slot : Z) : Prop := 0 <= slot < Zlen routes.

Lemma push_route_one routes start rt rw rp j s : slot_ok routes s ->
  push_route routes start (rt, rw, rp) (j, s) = Ok (rt ++ [s / 8], rw ++ [slot_weight routes s], rp ++ [start + j]).
Proof.
  intros Hs. destruct (lookup_lt_is_Some_2 routes (Z.to_nat s)) as [r Hr]; [unfold slot_ok in Hs; lia|].
  unfold push_route, slot_weight. rewrite (idx_Some routes s r), ok_bind, Hr by (done || apply Hs). done.
Qed.

Lemma push_routes routes start rt rw rp slots j : Forall (slot_ok routes) slots ->
  fold_try (push_route routes start) (rt, rw, rp) (zip (seqZ j (Zlen slots)) slots)
  = Ok (rt ++ ((fun s => s / 8) <$> slots), rw ++ (slot_weight routes <$> slots), rp ++ seqZ (start + j) (Zlen slots)).
Proof.
  revert rt rw rp j. induction slots as [|s slots IH]; intros rt rw rp j Hs; [by rewrite !app_nil_r|].
  apply Forall_cons in Hs as [Hs Hsl]. cbn [length]. rewrite (seqZ_cons j), (seqZ_cons (start + j)), Nat2Z.inj_succ, Z.pred_succ by lia.
  cbn [zip zip_with fold_try]. rewrite push_route_one, ok_bind, IH by done. cbn [fmap list_fmap].
  rewrite <-!app_assoc. cbn [app]. by rewrite Z.add_succ_r.
Qed.

Lemma push_expert_one routes gs rt rw rp off e slots : Forall (slot_ok routes) slots ->
  push_expert routes (gs, rt, rw, rp, off) (e, slots)
  = Ok (gs ++ tile_groups e off (tile_m (Zlen slots)), rt ++ ((fun s => s / 8) <$> slots),
        rw ++ (slot_weight routes <$> slots), rp ++ seqZ off (Zlen slots), off + padded_size (Zlen slots)).
Proof. intros Hs. unfold push_expert. rewrite push_tiles, push_routes, ok_bind, Z.add_0_r by done. done. Qed.

Lemma push_experts routes m gs rt rw rp off : Forall (fun x => slot_ok routes x.2) (flat m) ->
  fold_try (push_expert routes) (gs, rt, rw, rp, off) m
  = Ok (gs ++ plan_groups off m, rt ++ ((fun x => x.2 / 8) <$> flat m), rw ++ ((fun x => slot_weight routes x.2) <$> flat m),
        rp ++ plan_padded off m, off + plan_size m).
Proof.
  revert gs rt rw rp off. induction m as [|[e slots] m IH]; intros gs rt rw rp off Hm.
  { cbn. by rewrite !app_nil_r, Z.add_0_r. }
  rewrite flat_cons in *. apply Forall_app in Hm as [Hs Hm]. apply Forall_fmap in Hs.
  rewrite <-list_fmap_compose, list_fmap_id in Hs. cbn [fold_try]. rewrite push_expert_one, ok_bind, IH by done. cbn [plan_groups plan_padded].
  rewrite plan_size_cons, !fmap_app, <-!list_fmap_compose, <-!app_assoc, Z.add_assoc. done.
Qed.

Lemma check_route_rows_ok slot routes : check_route_rows slot routes = Ok tt <->
  forall i r, routes !! i = Some r -> re_row_index r = (slot + Z.of_nat i) / 8.
Proof.
  revert slot. induction routes as [|r routes IH]; intros slot; cbn [check_route_rows].
  - split; [|done]. intros _ i r. by rewrite lookup_nil.
  - destruct (Z.eqb_spec (re_row_index r) (slot / 8)) as [Hr|Hr]; cbn [negb].
    + rewrite IH. split; intros H i r' Hi.
      * destruct i as [|i]; cbn in Hi; [injection Hi as <-; by rewrite Z.add_0_r|].
        rewrite (H i) by done. f_equal. lia.
      * rewrite (H (S i)) by done. f_equal. lia.
    + split; [done|]. intros H. destruct Hr. by rewrite (H 0%nat), Z.add_0_r.
Qed.

Lemma route_pairs_slots slot routes : Forall (fun x => slot <= x.2 < slot + Zlen routes) (route_pairs slot routes).
Proof.
  apply Forall_lookup. unfold route_pairs. intros i x (e & s & -> & _ & Hs)%lookup_zip_with_Some.
  apply lookup_seqZ in Hs as [-> Hs]. cbn. lia.
Qed.

Lemma routed_slots routes : Forall (fun x => slot_ok routes x.2) (routed routes).
Proof.
  unfold routed. rewrite (sort_permutation fst). apply (Forall_impl _ _ _ (route_pairs_slots 0 routes)).
  intros x. unfold slot_ok. lia.
Qed.

Lemma from_routes_ok routes tokens : 0 <= tokens -> Zlen routes = tokens * 8 -> tokens * 8 < 2 ^ 64 ->
  (forall i r, routes !! i = Some r -> re_row_index r = Z.of_nat i / 8) ->
  from_routes routes tokens = Ok (plan_of routes tokens).
Proof.
  intros Ht Hlen Hmax Hrows. unfold from_routes, usize_mul. rewrite (proj2 (Z.ltb_lt _ _)), ok_bind by done.
  rewrite (proj2 (Z.eqb_eq _ _) Hlen). cbn [negb]. rewrite (proj2 (check_route_rows_ok 0 routes)), ok_bind by done.
  rewrite push_experts by (rewrite by_expert_routed; apply routed_slots). rewrite ok_bind, by_expert_routed. done.
Qed.

(** The tiles of a group: where the padding goes and whose rows they are. *)
Lemma tile_groups_from e off tiles rest : e < EXPERTS_PER_LAYER -> Forall (fun m => m ∈ M_SIZES) tiles ->
  groups_from (off + foldl Z.add 0 tiles) rest -> groups_from off (tile_groups e off tiles ++ rest).
Proof.
  intros He Ht. revert off. induction Ht as [|t tiles Ht _ IH]; intros off; cbn [tile_groups app foldl]; [by rewrite Z.add_0_r|].
  rewrite (sum_from (0 + t)). intros Hr. split; [done|]. split; [done|]. split; [done|]. apply IH.
  by replace (off + t + foldl Z.add 0 tiles) with (off + (0 + t + foldl Z.add 0 tiles)) by lia.
Qed.

Lemma tile_row_experts e off tiles : Forall (fun m => m ∈ M_SIZES) tiles ->
  row_experts (tile_groups e off tiles) = replicate (Z.to_nat (foldl Z.add 0 tiles)) e /\ 0 <= foldl Z.add 0 tiles.
Proof.
  intros Ht. revert off. induction Ht as [|t tiles Ht _ IH]; intros off; [done|]. cbn [tile_groups foldl]. apply m_sizes_pos in Ht.
  destruct (IH (off + t)) as [Hr Hs]. rewrite (sum_from (0 + t)). split; [|lia]. unfold row_experts in *. cbn [fmap list_fmap concat].
  by rewrite Hr, <-replicate_add, Z2Nat.inj_add by lia.
Qed.

Lemma row_experts_app l k : row_experts (l ++ k) = row_experts l ++ row_experts k.
Proof. unfold row_experts. by rewrite fmap_app, concat_app. Qed.

Lemma padded_size_bounds n : 0 <= n -> n <= padded_size n < n + 16.
Proof. intros Hn. by apply tile_m_sound. Qed.

Lemma plan_groups_from off m : Forall (fun e => e < EXPERTS_PER_LAYER) m.*1 -> groups_from off (plan_groups off m).
Proof.
  revert off. induction m as [|[e slots] m IH]; intros off; [done|]. intros [He Hm]%Forall_cons. cbn [plan_groups].
  destruct (tile_m_sound (Zlen slots)) as [Ht _]; [lia|]. apply tile_groups_from; [done|done|]. by apply IH.
Qed.

Lemma plan_row_experts off m : row_experts (plan_groups off m)
  = concat ((fun em : Z * list Z => replicate (Z.to_nat (padded_size (Zlen em.2))) em.1) <$> m).
Proof.
  revert off. induction m as [|[e slots] m IH]; intros off; [done|]. cbn [plan_groups].
  destruct (tile_m_sound (Zlen slots)) as [Ht _]; [lia|]. rewrite row_experts_app, IH.
  by rewrite (proj1 (tile_row_experts e off _ Ht)).
Qed.

Lemma plan_size_length off m : Zlen (row_experts (plan_groups off m)) = plan_size m.
Proof.
  rewrite plan_row_experts. induction m as [|[e slots] m IH]; [done|]. rewrite plan_size_cons. cbn [fmap list_fmap concat fst snd].
  rewrite length_app, length_replicate, Nat2Z.inj_add, IH. pose proof (padded_size_bounds (Zlen slots) ltac:(lia)). lia.
Qed.

Lemma plan_padded_length off m : length (plan_padded off m) = length (flat m).
Proof.
  revert off. induction m as [|[e slots] m IH]; intros off; [done|]. rewrite flat_cons. cbn [plan_padded].
  rewrite !length_app, length_seqZ, length_fmap, IH. lia.
Qed.

(** Less than a tile of 16 is wasted on each expert. *)
Lemma plan_size_bounds m : Zlen (flat m) <= plan_size m <= Zlen (flat m) + 15 * Zlen m.
Proof.
  induction m as [|[e slots] m IH]; [done|]. rewrite plan_size_cons, flat_cons, length_app, length_fmap. cbn [length].
  pose proof (padded_size_bounds (Zlen slots) ltac:(lia)). lia.
Qed.

(** Each routed row has a padded row of its own, in a tile of its expert. *)
Lemma plan_padded_row off m i p : plan_padded off m !! i = Some p ->
  exists x, flat m !! i = Some x /\ off <= p < off + plan_size m /\
    row_experts (plan_groups off m) !! Z.to_nat (p - off) = Some x.1.
Proof.
  rewrite plan_row_experts. revert off i. induction m as [|[e slots] m IH]; intros off i; [done|]. rewrite flat_cons, plan_size_cons.
  cbn [plan_padded fmap list_fmap concat fst snd]. pose proof (padded_size_bounds (Zlen slots) ltac:(lia)) as Hp.
  pose proof (plan_size_bounds m) as Hm. intros [Hi|[Hl Hi]]%lookup_app_Some.
  - pose proof (lookup_lt_Some _ _ _ Hi) as Hlt. apply lookup_seqZ in Hi as [-> Hi]. rewrite length_seqZ in Hlt.
    destruct (lookup_lt_is_Some_2 slots i) as [s Hs]; [lia|]. exists (e, s).
    rewrite lookup_app_l by (rewrite length_fmap; lia). rewrite list_lookup_fmap, Hs. split; [done|]. split; [lia|].
    rewrite lookup_app_l by (rewrite length_replicate; lia). apply lookup_replicate. split; [done|lia].
  - rewrite length_seqZ in Hl, Hi. destruct (IH _ _ Hi) as (x & Hx & Hb & He). exists x.
    rewrite lookup_app_r by (rewrite length_fmap; lia). rewrite length_fmap.
    replace (i - length slots)%nat with (i - Z.to_nat (Zlen slots))%nat by lia. split; [done|]. split; [lia|].
    rewrite lookup_app_r by (rewrite length_replicate; lia). rewrite length_replicate, <-He. f_equal. lia.
Qed.

Lemma plan_padded_NoDup off m : NoDup (plan_padded off m).
Proof.
  revert off. induction m as [|[e slots] m IH]; intros off; [constructor|]. cbn [plan_padded]. apply NoDup_app.
  split; [apply NoDup_seqZ|]. split; [|apply IH]. intros p Hp%elem_of_seqZ [i Hi]%list_elem_of_lookup_1.
  pose proof (padded_size_bounds (Zlen slots) ltac:(lia)). apply plan_padded_row in Hi as (_ & _ & Hb & _). lia.
Qed.

Lemma flat_of_experts (P : Z -> Prop) m : Forall (fun em : Z * list Z => em.2 <> []) m ->
  Forall (fun x => P x.1) (flat m) -> Forall P m.*1.
Proof.
  induction 1 as [|[e slots] m Hs _ IH]; [constructor|]. rewrite flat_cons. intros [He Hm]%Forall_app.
  cbn [fmap list_fmap fst]. constructor; [|by apply IH]. destruct slots as [|s slots]; [done|]. by apply Forall_cons in He as [? _].
Qed.

Lemma by_expert_nonempty slot routes m : Forall (fun em : Z * list Z => em.2 <> []) m ->
  Forall (fun em : Z * list Z => em.2 <> []) (by_expert slot routes m).
Proof.
  revert slot m. induction routes as [|r routes IH]; intros slot m Hm; [done|]. cbn [by_expert]. apply IH.
  generalize (re_expert_id r) as e. intros e. induction Hm as [|[e' slots] m Hs Hm IHm]; cbn [push_slot]; [by repeat constructor|].
  destruct (e ?= e'); repeat constructor; try done. cbn. by destruct slots.
Qed.

(** * A matrix as the concatenation of its rows *)

Section rows.
Context {A : Type} (w : Z).

Definition rows_of (n : Z) (xs : list (list A)) : Prop := Zlen xs = n /\ Forall (fun r => Zlen r = w) xs.

Lemma rows_of_insert n xs i r : rows_of n xs -> Zlen r = w -> rows_of n (<[i := r]> xs).
Proof. intros [Hl Hx] Hr. split; [by rewrite length_insert|]. by apply Forall_insert. Qed.

Lemma rows_of_length n xs : rows_of n xs -> Zlen (concat xs) = n * w.
Proof. intros [<- Hx]. by apply concat_uniform_length. Qed.

Lemma matrix_lookup n xs t : rows_of n xs -> 0 <= t < n -> exists r, xs !! Z.to_nat t = Some r /\ Zlen r = w.
Proof.
  intros [Hl Hx] Ht. destruct (lookup_lt_is_Some_2 xs (Z.to_nat t)) as [r Hr]; [lia|]. exists r.
  split; [done|]. by apply (proj1 (Forall_lookup _ _) Hx _ _ Hr).
Qed.

(** The rows before and after one of them. *)
Lemma rows_split n xs t r : rows_of n xs -> 0 <= t -> xs !! Z.to_nat t = Some r -> exists pre suf,
  Zlen pre = t * w /\ concat xs = pre ++ r ++ suf /\ forall r', concat (<[Z.to_nat t := r']> xs) = pre ++ r' ++ suf.
Proof.
  intros [Hl Hx] Ht Hr. exists (concat (take (Z.to_nat t) xs)), (concat (drop (S (Z.to_nat t)) xs)).
  pose proof (lookup_lt_Some _ _ _ Hr) as Hlt. split.
  - rewrite (concat_uniform_length _ w) by by apply Forall_take. by rewrite length_take_le, Z2Nat.id by lia.
  - split; [|intros r'; rewrite insert_take_drop by done; by rewrite concat_app].
    rewrite <-(take_drop_middle xs (Z.to_nat t) r Hr) at 1. by rewrite concat_app.
Qed.

Lemma rows_splice n xs t r : rows_of n xs -> 0 <= t < n -> Zlen r = w ->
  splice (concat xs) (t * w) r = concat (<[Z.to_nat t := r]> xs).
Proof.
  intros Hx Ht Hr. destruct (matrix_lookup n xs t Hx Ht) as (old & Hold & Hol).
  destruct (rows_split n xs t old Hx ltac:(lia) Hold) as (pre & suf & Hp & -> & ->).
  rewrite splice_app_r, Hp, Z.sub_diag, splice_app_l by lia. f_equal. f_equal.
  unfold splice. change (Z.to_nat 0) with 0%nat. rewrite take_0, drop_ge by lia. cbn [app]. by rewrite app_nil_r.
Qed.

Lemma matrix_range {E} n xs t r : rows_of n xs -> 0 <= t -> xs !! Z.to_nat t = Some r ->
  index_range (E:=E) (concat xs) (t * w) ((t + 1) * w) = Ok r.
Proof.
  intros Hx Ht Hr. pose proof (proj1 (Forall_lookup _ _) (proj2 Hx) _ _ Hr) as Hrl. cbn in Hrl.
  destruct (rows_split n xs t r Hx Ht Hr) as (pre & suf & Hp & -> & _).
  rewrite index_range_Ok by (rewrite ?length_app; nia). f_equal. unfold slice.
  rewrite drop_app_ge by lia. replace (Z.to_nat (t * w) - length pre)%nat with 0%nat by lia.
  rewrite drop_0. apply take_app_length'. nia.
Qed.

Lemma rows_idx {E} n xs t r h : rows_of n xs -> 0 <= t -> xs !! Z.to_nat t = Some r -> 0 <= h < w ->
  idx (E:=E) (concat xs) (t * w + h) = idx r h.
Proof.
  intros Hx Ht Hr Hh. pose proof (proj1 (Forall_lookup _ _) (proj2 Hx) _ _ Hr) as Hrl. cbn in Hrl.
  destruct (rows_split n xs t r Hx Ht Hr) as (pre & suf & Hp & -> & _). assert (0 <= t * w) by nia.
  unfold idx. rewrite !(proj2 (Z.ltb_ge _ _)) by lia. rewrite lookup_app_r, lookup_app_l by lia.
  by replace (Z.to_nat (t * w + h) - length pre)%nat with (Z.to_nat h) by lia.
Qed.

Lemma rows_set {E} n xs t r h x : rows_of n xs -> 0 <= t -> xs !! Z.to_nat t = Some r -> 0 <= h < w ->
  idx_set (E:=E) (concat xs) (t * w + h) x = Ok (concat (<[Z.to_nat t := <[Z.to_nat h := x]> r]> xs)).
Proof.
  intros Hx Ht Hr Hh. pose proof (proj1 (Forall_lookup _ _) (proj2 Hx) _ _ Hr) as Hrl. cbn in Hrl.
  destruct (rows_split n xs t r Hx Ht Hr) as (pre & suf & Hp & -> & ->). assert (0 <= t * w) by nia.
  unfold idx_set. rewrite (proj2 (Z.leb_le _ _)), (proj2 (Z.ltb_lt _ _)) by (rewrite ?length_app; lia). cbn [andb].
  rewrite insert_app_r_alt, insert_app_l by lia. by replace (Z.to_nat (t * w + h) - length pre)%nat with (Z.to_nat h) by lia.
Qed.
End rows.

(** * Rows into the experts *)

Definition row {A} (xs : list (list A)) (t : Z) : list A := default [] (xs !! Z.to_nat t).

Lemma row_lookup {A} (xs : list (list A)) t r : xs !! Z.to_nat t = Some r -> row xs t = r.
Proof. unfold row. by intros ->. Qed.

Definition put_rows {A} (hs : list (list A)) (l : list (Z * Z)) (xs : list (list A)) : list (list A) :=
  foldl (fun xs tp => <[Z.to_nat tp.2 := row hs tp.1]> xs) xs l.

Definition pair_ok (tokens n : Z) (tp : Z * Z) : Prop := 0 <= tp.1 < tokens /\ 0 <= tp.2 < n.

Lemma route_copy_ok tokens n hs xs tp : rows_of HIDDEN tokens hs -> rows_of HIDDEN n xs -> pair_ok tokens n tp ->
  copy_row (concat hs) (concat xs) tp = Ok (concat (<[Z.to_nat tp.2 := row hs tp.1]> xs)) /\ Zlen (row hs tp.1) = HIDDEN.
Proof.
  intros Hh Hx [Ht Hp]. destruct tp as [t p]. cbn [fst snd] in *.
  destruct (matrix_lookup HIDDEN tokens hs t Hh Ht) as (r & Hr & Hrl).
  destruct (matrix_lookup HIDDEN n xs p Hx Hp) as (old & Hold & _). rewrite (row_lookup _ _ _ Hr). split; [|done]. unfold copy_row.
  rewrite (matrix_range HIDDEN tokens hs t r), ok_bind by (done || lia).
  rewrite (matrix_range HIDDEN n xs p old), ok_bind by (done || lia). by rewrite (rows_splice HIDDEN n).
Qed.

Lemma copy_rows_ok tokens n hs l xs :
  rows_of HIDDEN tokens hs -> rows_of HIDDEN n xs -> Forall (pair_ok tokens n) l ->
  fold_try (copy_row (concat hs)) (concat xs) l = Ok (concat (put_rows hs l xs)) /\ rows_of HIDDEN n (put_rows hs l xs).
Proof.
  intros Hh Hx Hl. revert xs Hx. induction Hl as [|tp l Hp _ IH]; intros xs Hx; [done|].
  destruct (route_copy_ok tokens n hs xs tp Hh Hx Hp) as [Hc Hr]. cbn [fold_try]. rewrite Hc, ok_bind. apply IH.
  by apply rows_of_insert.
Qed.

Lemma put_rows_other {A} (hs : list (list A)) l xs (p : nat) : p ∉ (fun tp : Z * Z => Z.to_nat tp.2) <$> l ->
  put_rows hs l xs !! p = xs !! p.
Proof.
  revert xs. induction l as [|tp l IH]; intros xs; [done|]. cbn [fmap list_fmap]. rewrite not_elem_of_cons. intros [Hp Hl].
  unfold put_rows. cbn [foldl]. fold (put_rows hs l (<[Z.to_nat tp.2 := row hs tp.1]> xs)).
  rewrite IH by done. by rewrite list_lookup_insert_ne by congruence.
Qed.

Lemma put_rows_length {A} (hs : list (list A)) l xs : length (put_rows hs l xs) = length xs.
Proof. revert xs. induction l as [|tp l IH]; intros xs; [done|]. unfold put_rows in *. cbn [foldl]. by rewrite IH, length_insert. Qed.

(** Padded rows are used once, so each holds the hidden row of its token. *)
Lemma put_rows_lookup tokens n (hs xs : list (list spec_float)) l i t p : Forall (pair_ok tokens n) l -> NoDup l.*2 ->
  Zlen xs = n -> l !! i = Some (t, p) -> put_rows hs l xs !! Z.to_nat p = Some (row hs t).
Proof.
  intros Hl. revert i xs. induction Hl as [|[t' p'] l [Ht Hp] Hl IH]; intros i xs; [done|]. cbn [fmap list_fmap fst snd] in *.
  intros [Hni Hnd]%NoDup_cons Hx Hi. unfold put_rows. cbn [foldl fst snd].
  fold (put_rows hs l (<[Z.to_nat p' := row hs t']> xs)). destruct i as [|i]; cbn in Hi.
  - injection Hi as -> ->. rewrite put_rows_other; [apply list_lookup_insert_eq; lia|].
    intros ([t0 p0] & Heq & Hin)%list_elem_of_fmap. cbn in Heq. apply Hni. apply list_elem_of_fmap. exists (t0, p0).
    split; [|done]. cbn. destruct (proj1 (Forall_forall _ _) Hl _ Hin) as [_ H0]. cbn in H0. lia.
  - apply (IH i); [done|by rewrite length_insert|done].
Qed.

(** * Rows out of the experts *)

(** [acc + v * w] at every place. *)
Definition madd (acc : list spec_float) (g : spec_float) (v : list spec_float) : list spec_float :=
  zip_with (fun a x => f32_add a (f32_mul x g)) acc v.

Definition add_rows (ys : list (list spec_float)) (l : list (Z * spec_float * Z)) (outs : list (list spec_float)) :=
  foldl (fun outs x => <[Z.to_nat x.1.1 := madd (row outs x.1.1) x.1.2 (row ys x.2)]> outs) outs l.

Lemma madd_length acc g v : length acc = length v -> length (madd acc g v) = length acc.
Proof. intros H. unfold madd. rewrite length_zip_with. lia. Qed.

Lemma add_row_ok w n tokens ys outs t g p : rows_of w n ys -> rows_of w tokens outs -> 0 <= t < tokens -> 0 <= p < n ->
  add_row (concat ys) w (concat outs) (t, g, p)
  = Ok (concat (<[Z.to_nat t := madd (row outs t) g (row ys p)]> outs)) /\
  rows_of w tokens (<[Z.to_nat t := madd (row outs t) g (row ys p)]> outs).
Proof.
  intros Hy Ho Ht Hp. destruct (matrix_lookup w n ys p Hy Hp) as (y & Hyl & Hyw).
  destruct (matrix_lookup w tokens outs t Ho Ht) as (o & Hol & How). rewrite (row_lookup _ _ _ Hyl), (row_lookup _ _ _ Hol).
  pose proof (madd_length o g y ltac:(lia)) as Hm. split; [|apply rows_of_insert; [done|lia]].
  destruct (fold_try_inv (E:=SparkError)
    (fun h out => out = concat (<[Z.to_nat t := take (Z.to_nat h) (madd o g y) ++ drop (Z.to_nat h) o]> outs))
    (fun out h => v ← idx (concat ys) (p * w + h); old ← idx out (t * w + h);
                  idx_set out (t * w + h) (f32_add old (f32_mul v g))) (concat outs) w) as (out & Hf & ->).
  - lia.
  - change (Z.to_nat 0) with 0%nat. rewrite take_0, drop_0. cbn [app]. by rewrite list_insert_id.
  - intros h out Hh ->. rewrite (rows_idx w n ys p y) by (done || lia).
    destruct (lookup_lt_is_Some_2 y (Z.to_nat h)) as [v Hv]; [lia|]. rewrite (idx_Some y h v), ok_bind by (done || lia).
    destruct (lookup_lt_is_Some_2 o (Z.to_nat h)) as [a Ha]; [lia|].
    set (cur := take (Z.to_nat h) (madd o g y) ++ drop (Z.to_nat h) o).
    assert (Zlen cur = w) as Hc by (unfold cur; rewrite length_app, length_take, length_drop; lia).
    assert (rows_of w tokens (<[Z.to_nat t := cur]> outs)) as Hro by by apply rows_of_insert.
    assert (<[Z.to_nat t := cur]> outs !! Z.to_nat t = Some cur) as Hlk.
    { apply list_lookup_insert_eq. destruct Ho as [Ho _]. lia. }
    rewrite (rows_idx w tokens _ t cur) by (done || lia).
    assert (cur !! Z.to_nat h = Some a) as Hca.
    { unfold cur. rewrite lookup_app_r by (rewrite length_take; lia). rewrite length_take_le, Nat.sub_diag, lookup_drop by lia.
      by rewrite Nat.add_0_r. }
    rewrite (idx_Some cur h a), ok_bind by (done || lia). rewrite (rows_set w tokens _ t cur) by (done || lia).
    eexists. split; [done|]. rewrite list_insert_insert_eq. do 2 f_equal. replace (Z.to_nat (h + 1)) with (S (Z.to_nat h)) by lia.
    assert (madd o g y !! Z.to_nat h = Some (f32_add a (f32_mul v g))) as Hmv.
    { unfold madd. rewrite lookup_zip_with, Ha. cbn [mbind option_bind]. rewrite Hv. done. }
    rewrite (take_S_r _ _ _ Hmv). unfold cur. rewrite insert_app_r_alt by (rewrite length_take; lia).
    rewrite length_take_le, Nat.sub_diag, <-app_assoc by lia. f_equal. rewrite (drop_S _ _ _ Ha). done.
  - unfold add_row. rewrite Hf. rewrite take_ge, drop_ge, app_nil_r by lia. done.
Qed.

Definition route_of : Type := Z * spec_float * Z.
Definition triple_ok (tokens n : Z) (x : route_of) : Prop := 0 <= x.1.1 < tokens /\ 0 <= x.2 < n.

Lemma add_rows_ok w n tokens ys outs l : rows_of w n ys -> rows_of w tokens outs -> Forall (triple_ok tokens n) l ->
  fold_try (add_row (concat ys) w) (concat outs) l = Ok (concat (add_rows ys l outs)) /\ rows_of w tokens (add_rows ys l outs).
Proof.
  intros Hy Ho Hl. revert outs Ho. induction Hl as [|[[t g] p] l [Ht Hp] _ IH]; intros outs Ho; [done|].
  destruct (add_row_ok w n tokens ys outs t g p Hy Ho Ht Hp) as [Ha Hr]. cbn [fold_try]. rewrite Ha, ok_bind. by apply IH.
Qed.

(** A token's row depends on its own routes, in their order. *)
Lemma add_rows_lookup ys l outs (t : nat) o : Forall (fun x : route_of => 0 <= x.1.1) l -> outs !! t = Some o ->
  add_rows ys l outs !! t
  = Some (foldl (fun o x => madd o x.1.2 (row ys x.2)) o (filter (fun x : route_of => x.1.1 = Z.of_nat t) l)).
Proof.
  intros Hl. revert outs o. induction Hl as [|[[t' g] p] l Ht _ IH]; intros outs o Ho; [done|]. cbn [fst] in Ht.
  pose proof (lookup_lt_Some _ _ _ Ho) as Hlt. unfold add_rows. cbn [foldl fst snd].
  fold (add_rows ys l (<[Z.to_nat t' := madd (row outs t') g (row ys p)]> outs)).
  rewrite filter_cons. cbn [fst snd]. case_decide as Heq.
  - subst t'. rewrite Nat2Z.id, (row_lookup outs (Z.of_nat t) o) by by rewrite Nat2Z.id. apply IH. by apply list_lookup_insert_eq.
  - apply IH. rewrite list_lookup_insert_ne by lia. done.
Qed.

Lemma add_rows_length ys l outs : length (add_rows ys l outs) = length outs.
Proof. revert outs. induction l as [|x l IH]; intros outs; [done|]. unfold add_rows in *. cbn [foldl]. by rewrite IH, length_insert. Qed.

Definition token_of (x : route_of) : Z := x.1.1.

Lemma add_rows_sorted ys l outs : Forall (fun x : route_of => 0 <= x.1.1) l ->
  add_rows ys (sort_by (key_cmp token_of) l) outs = add_rows ys l outs.
Proof.
  intros Hl. apply list_eq. intros t. destruct (outs !! t) as [o|] eqn:Ho.
  - rewrite (add_rows_lookup ys l outs t o), (add_rows_lookup ys _ outs t o) by (rewrite ?(sort_permutation token_of); done).
    do 2 f_equal. apply (sort_of_key token_of).
  - rewrite !lookup_ge_None_2; [done|rewrite add_rows_length; by apply lookup_ge_None_1..].
Qed.

Lemma sort_by_fmap {A B} (kb : B -> Z) (f : A -> B) l :
  sort_by (key_cmp kb) (f <$> l) = f <$> sort_by (key_cmp (fun x => kb (f x))) l.
Proof.
  assert (forall x l, sort_insert (key_cmp kb) (f x) (f <$> l) = f <$> sort_insert (key_cmp (fun x => kb (f x))) x l) as Hins.
  { clear l. intros x l. induction l as [|y l IH]; [done|]. cbn [fmap list_fmap sort_insert]. unfold key_cmp in *.
    destruct (kb (f x) ?= kb (f y)); [done..|]. cbn [fmap list_fmap]. by f_equal. }
  induction l as [|x l IH]; [done|]. rewrite fmap_cons.
  change (sort_by (key_cmp kb) (f x :: (f <$> l))) with (sort_insert (key_cmp kb) (f x) (sort_by (key_cmp kb) (f <$> l))).
  rewrite IH. apply Hins.
Qed.

Lemma by_expert_keys (P : Z -> Prop) routes : Forall (fun r => P (re_expert_id r)) routes -> Forall P (by_expert 0 routes []).*1.
Proof.
  intros Hr. apply flat_of_experts; [by apply by_expert_nonempty|]. rewrite by_expert_routed. unfold routed.
  rewrite (sort_permutation fst). apply Forall_lookup. intros i x (e & s & -> & He & _)%lookup_zip_with_Some.
  rewrite list_lookup_fmap in He. destruct (routes !! i) as [r|] eqn:Hi; [|done]. injection He as <-.
  by apply (proj1 (Forall_lookup _ _) Hr _ _ Hi).
Qed.

Lemma plan_groups_keys (P : Z -> Prop) off m : Forall P m.*1 -> Forall (fun g => P (g_expert g)) (plan_groups off m).
Proof.
  revert off. induction m as [|[e slots] m IH]; intros off; [constructor|]. intros [He Hm]%Forall_cons. cbn [plan_groups].
  apply Forall_app_2; [|by apply IH]. generalize (tile_m (Zlen slots)) as tiles. intros tiles. revert off.
  induction tiles as [|t tiles IHt]; intros off; [constructor|]. cbn [tile_groups]. constructor; [done|]. apply IHt.
Qed.

Lemma zero_rows w n : 0 <= w -> 0 <= n -> let zs := replicate (Z.to_nat n) (replicate (Z.to_nat w) f32_zero) in
  rows_of w n zs /\ concat zs = replicate (Z.to_nat (n * w)) f32_zero.
Proof.
  intros Hw Hn zs. assert (Forall (fun r => Zlen r = w) zs) as Hf by (apply Forall_replicate; rewrite length_replicate; lia).
  split; [split; [unfold zs; rewrite length_replicate; lia|done]|]. unfold zs.
  rewrite Z2Nat.inj_mul by done. generalize (Z.to_nat n) as k, (Z.to_nat w) as j. clear. intros k j.
  induction k as [|k IH]; [done|]. cbn [replicate concat]. by rewrite IH, <-replicate_add.
Qed.

Lemma route_pairs_snd slot rs : (route_pairs slot rs).*2 = seqZ slot (Zlen rs).
Proof. unfold route_pairs. apply snd_zip. rewrite length_seqZ, length_fmap. lia. Qed.

(** * The whole plan *)

Section plan.
Context (routes : list RouteEntry) (tokens : Z).
Context (Ht : 0 <= tokens) (Hlen : Zlen routes = tokens * 8).
Context (Hids : Forall (fun r => 0 <= re_expert_id r < EXPERTS_PER_LAYER) routes).

#[local] Abbreviation m := (by_expert 0 routes []).
#[local] Abbreviation rp := (plan_of routes tokens).

Definition triples : list route_of := zip (zip (rp_row_token rp) (rp_row_weight rp)) (rp_row_padded rp).

Lemma routed_length : length (routed routes) = length routes.
Proof.
  unfold routed. rewrite (sort_permutation fst). unfold route_pairs. rewrite length_zip_with, length_fmap, length_seqZ. lia.
Qed.

Lemma plan_lengths : Zlen (rp_row_token rp) = tokens * 8 /\ Zlen (rp_row_weight rp) = tokens * 8 /\ Zlen (rp_row_padded rp) = tokens * 8.
Proof. cbn. rewrite !length_fmap, plan_padded_length, by_expert_routed, routed_length. lia. Qed.

Lemma experts_ok : Forall (fun e => 0 <= e < EXPERTS_PER_LAYER) m.*1.
Proof. by apply by_expert_keys. Qed.

Lemma plan_valid : groups_from 0 (gp_groups (rp_plan rp)).
Proof. apply plan_groups_from. eapply Forall_impl; [apply experts_ok|]. cbn. lia. Qed.

Lemma padded_rows_plan : padded_rows rp = plan_size m.
Proof. rewrite <-(plan_size_length 0). symmetry. by apply (row_experts_length 0), plan_valid. Qed.

(** At most 15 rows of padding for each of the layer's experts. *)
Lemma padded_rows_bound : tokens * 8 <= padded_rows rp <= tokens * 8 + 15 * EXPERTS_PER_LAYER.
Proof.
  rewrite padded_rows_plan. pose proof (plan_size_bounds m) as Hb. rewrite by_expert_routed, routed_length, Hlen in Hb.
  assert (Zlen m <= EXPERTS_PER_LAYER); [|lia].
  destruct (by_expert_spec 0 routes []) as [Hs _]; [constructor|].
  assert (NoDup m.*1) as Hnd.
  { unfold keys_sorted in Hs. induction Hs as [|e l _ IH Hf]; constructor; [|done]. intros He.
    pose proof (proj1 (Forall_forall _ _) Hf _ He). lia. }
  rewrite <-(length_fmap fst m). change EXPERTS_PER_LAYER with (Zlen (seqZ 0 256)).
  apply inj_le, submseteq_length, NoDup_submseteq; [done|]. intros e He. apply elem_of_seqZ.
  pose proof (proj1 (Forall_forall _ _) experts_ok _ He) as Hb'. unfold EXPERTS_PER_LAYER in Hb'. cbn in Hb'. lia.
Qed.

Lemma triple_lookup i x : triples !! i = Some x -> exists es, routed routes !! i = Some es /\
  x.1 = (es.2 / 8, slot_weight routes es.2) /\ slot_ok routes es.2 /\ 0 <= x.2 < padded_rows rp /\
  row_experts (gp_groups (rp_plan rp)) !! Z.to_nat x.2 = Some es.1.
Proof.
  unfold triples. intros (tg & p & -> & Htg & Hp)%lookup_zip_with_Some.
  apply lookup_zip_with_Some in Htg as (t & g & -> & Htk & Hg). cbn [rp_row_token rp_row_weight rp_row_padded plan_of] in *.
  apply plan_padded_row in Hp as (es & Hes & Hb & He). rewrite by_expert_routed in Hes. exists es.
  rewrite list_lookup_fmap, Hes in Htk. rewrite list_lookup_fmap, Hes in Hg. injection Htk as <-. injection Hg as <-.
  rewrite Z.sub_0_r in He. rewrite padded_rows_plan. split; [done|]. split; [done|].
  split; [by apply (proj1 (Forall_lookup _ _) (routed_slots routes) _ _ Hes)|]. split; [cbn [snd]; lia|done].
Qed.

Lemma triples_ok : Forall (triple_ok tokens (padded_rows rp)) triples.
Proof.
  apply Forall_lookup. intros i x (es & _ & Hx & Hs & Hp & _)%triple_lookup. split; [|done]. rewrite Hx. cbn.
  unfold slot_ok in Hs. pose proof (Z.div_pos es.2 8 ltac:(lia) ltac:(lia)).
  pose proof (Z.div_lt_upper_bound es.2 8 tokens ltac:(lia) ltac:(lia)). lia.
Qed.

Lemma triples_nonneg : Forall (fun x : route_of => 0 <= x.1.1) triples.
Proof. apply (Forall_impl _ _ _ triples_ok). intros x [H _]. lia. Qed.

(** [reduce] adds the rows of [triples] to zero. *)
Lemma reduce_ok ys : rows_of HIDDEN (padded_rows rp) ys ->
  let zs := replicate (Z.to_nat tokens) (replicate (Z.to_nat HIDDEN) f32_zero) in
  reduce rp (concat ys) = Ok (concat (add_rows ys triples zs)) /\ rows_of HIDDEN tokens (add_rows ys triples zs).
Proof.
  intros Hy zs. unfold reduce. rewrite (rows_of_length HIDDEN _ _ Hy), Z.eqb_refl. cbn [negb].
  destruct (zero_rows HIDDEN tokens) as [Hz Hc]; [done|done|]. cbn [rp_tokens plan_of] in *. rewrite <-Hc.
  apply (add_rows_ok _ (padded_rows rp) tokens); [done|done|apply triples_ok].
Qed.

(** [token_major_routes] lists the rows of [triples] token by token. *)
Definition triple_at (i : Z) : route_of :=
  (default 0 (rp_row_token rp !! Z.to_nat i), default f32_zero (rp_row_weight rp !! Z.to_nat i),
   default 0 (rp_row_padded rp !! Z.to_nat i)).

Definition order : list Z := sort_by (key_cmp (fun i => token_of (triple_at i))) (seqZ 0 (tokens * 8)).

Lemma triples_at : triples = triple_at <$> seqZ 0 (tokens * 8).
Proof.
  destruct plan_lengths as (H1 & H2 & H3). apply list_eq. intros i. rewrite list_lookup_fmap. unfold triples, triple_at.
  destruct (decide (Z.of_nat i < tokens * 8)) as [Hi|Hi].
  - rewrite lookup_seqZ_lt, Z.add_0_l by lia. cbn [fmap option_fmap option_map]. rewrite Nat2Z.id.
    destruct (lookup_lt_is_Some_2 (rp_row_token rp) i) as [a Ha]; [lia|].
    destruct (lookup_lt_is_Some_2 (rp_row_weight rp) i) as [b Hb]; [lia|].
    destruct (lookup_lt_is_Some_2 (rp_row_padded rp) i) as [c Hc]; [lia|].
    rewrite Ha, Hb, Hc. apply lookup_zip_with_Some. eexists _, _. split_and!; [done| |done].
    apply lookup_zip_with_Some. by eexists _, _.
  - rewrite lookup_seqZ_ge by lia. apply lookup_ge_None_2. rewrite !length_zip_with. lia.
Qed.

Lemma order_sorted : triple_at <$> order = sort_by (key_cmp token_of) triples.
Proof. unfold order. by rewrite triples_at, sort_by_fmap. Qed.

Lemma order_range : Forall (fun i => 0 <= i < tokens * 8) order.
Proof. unfold order. rewrite (sort_permutation _). apply Forall_forall. intros i Hi%elem_of_seqZ. lia. Qed.

Lemma seq_div_sorted lo n : StronglySorted Z.le ((fun t => t / 8) <$> seqZ lo (Z.of_nat n)).
Proof.
  revert lo. induction n as [|n IH]; intros lo; [constructor|]. rewrite seqZ_cons, Nat2Z.inj_succ, Z.pred_succ by lia.
  rewrite fmap_cons. constructor; [apply IH|]. apply Forall_fmap, Forall_forall. intros t Htt%elem_of_seqZ. cbn.
  apply Z.div_le_mono; lia.
Qed.

(** Eight consecutive places for each token. *)
Lemma order_tokens : (fun i => token_of (triple_at i)) <$> order = (fun t => t / 8) <$> seqZ 0 (tokens * 8).
Proof.
  apply (StronglySorted_unique Z.le).
  - unfold order. pose proof (sort_by_key (fun i => token_of (triple_at i)) (seqZ 0 (tokens * 8))) as Hs.
    induction Hs as [|x l _ IH Hf]; [constructor|]. rewrite fmap_cons. constructor; [done|]. by apply Forall_fmap.
  - rewrite <-(Z2Nat.id (tokens * 8)) by lia. apply seq_div_sorted.
  - unfold order. rewrite (sort_permutation _). rewrite (list_fmap_compose triple_at token_of), <-triples_at. unfold triples.
    destruct plan_lengths as (H1 & H2 & H3). change token_of with (fst ∘ fst : route_of -> Z). unfold route_of.
    rewrite list_fmap_compose, fst_zip by (rewrite length_zip_with; lia). rewrite fst_zip by lia. cbn [rp_row_token plan_of].
    unfold routed. rewrite (sort_permutation fst). 
    assert ((fun x : Z * Z => x.2 / 8) <$> route_pairs 0 routes = (fun t => t / 8) <$> (route_pairs 0 routes).*2) as ->
      by by rewrite <-list_fmap_compose.
    by rewrite route_pairs_snd, Hlen.
Qed.

Lemma wrap_padded p : 0 <= p < 2 ^ 31 -> i32_as_usize (as_i32 p) = p.
Proof.
  intros Hp. unfold as_i32, i32_as_usize. rewrite (Z.mod_small p) by lia.
  rewrite (proj2 (Z.ltb_lt _ _)) by lia. apply Z.mod_small. lia.
Qed.

Lemma mapM_order {B} (f : Z -> outcome SparkError B) (g : Z -> B) : (forall i, 0 <= i < tokens * 8 -> f i = Ok (g i)) ->
  mapM f order = Ok (g <$> order).
Proof.
  intros Hf. apply mapM_Ok_iff, Forall2_fmap_r, Forall_Forall2_diag. eapply Forall_impl; [apply order_range|]. exact Hf.
Qed.

Lemma token_major_ok : token_major_routes rp
  = Ok ((fun i => as_i32 (triple_at i).2) <$> order, (fun i => (triple_at i).1.2) <$> order).
Proof.
  destruct plan_lengths as (H1 & H2 & H3). unfold token_major_routes. rewrite H1.
  change (sort_by _ (seqZ 0 (tokens * 8))) with order.
  rewrite (mapM_order _ (fun i => as_i32 (triple_at i).2)), ok_bind.
  - rewrite (mapM_order _ (fun i => (triple_at i).1.2)), ok_bind; [done|]. intros i Hi.
    destruct (lookup_lt_is_Some_2 (rp_row_weight rp) (Z.to_nat i)) as [x Hx]; [lia|].
    rewrite (idx_Some _ i x) by (done || lia). cbn [triple_at fst snd]. by rewrite Hx.
  - intros i Hi. destruct (lookup_lt_is_Some_2 (rp_row_padded rp) (Z.to_nat i)) as [x Hx]; [lia|].
    rewrite (idx_Some _ i x), ok_bind by (done || lia). cbn [triple_at fst snd]. by rewrite Hx.
Qed.

Lemma zip_order {A} (f : Z -> Z) (b : Z -> Z) (c : Z -> A) (u : Z -> Z) (a : Z -> Z) (l k : list Z) :
  f <$> k = a <$> l ->
  (fun '(t, (p, w)) => (f t, w, u p)) <$> zip k (zip (b <$> l) (c <$> l)) = (fun i => (a i, c i, u (b i))) <$> l.
Proof.
  revert k. induction l as [|i l IH]; intros [|t k]; cbn; try done. intros [= Hf Hk]. rewrite Hf. f_equal. by apply IH.
Qed.

(** The device's reduction, token by token in BF16, is [reduce] rounded. *)
Lemma cpu_reduce_ok ys padded weight : tokens * 8 + 15 * EXPERTS_PER_LAYER < 2 ^ 31 ->
  rows_of HIDDEN (padded_rows rp) ys -> token_major_routes rp = Ok (padded, weight) ->
  let zs := replicate (Z.to_nat tokens) (replicate (Z.to_nat HIDDEN) f32_zero) in
  cpu_reduce_bf16 (concat ys) padded weight tokens HIDDEN
  = Ok ((fun v => f32_to_bf16_rne (f32_to_bits v)) <$> concat (add_rows ys triples zs)).
Proof.
  intros Hmax Hy. rewrite token_major_ok. intros Hpw zs.
  assert (padded = (fun i => as_i32 (triple_at i).2) <$> order) as -> by congruence.
  assert (weight = (fun i => (triple_at i).1.2) <$> order) as -> by congruence. clear Hpw. unfold cpu_reduce_bf16.
  rewrite length_fmap. assert (Zlen order = tokens * 8) as ->.
  { unfold order. rewrite (sort_permutation _), length_seqZ. lia. }
  rewrite (zip_order (fun t => t / 8) _ _ _ (fun i => token_of (triple_at i))) by (by rewrite order_tokens). cbv beta.
  assert ((fun i => (token_of (triple_at i), (triple_at i).1.2, i32_as_usize (as_i32 (triple_at i).2))) <$> order
    = triple_at <$> order) as ->.
  { apply list_fmap_ext. intros k i Hi. assert (triple_at i ∈ triples) as Hin.
    { rewrite triples_at. apply list_elem_of_fmap. exists i. split; [done|]. apply elem_of_seqZ.
      pose proof (proj1 (Forall_lookup _ _) order_range _ _ Hi) as Hr. cbn in Hr. lia. }
    destruct (proj1 (Forall_forall _ _) triples_ok _ Hin) as [_ Hp]. pose proof padded_rows_bound as Hb.
    rewrite wrap_padded by lia. by destruct (triple_at i) as [[a b] c]. }
  rewrite order_sorted. destruct (zero_rows HIDDEN tokens) as [Hz Hc]; [done|done|]. rewrite <-Hc.
  destruct (add_rows_ok HIDDEN (padded_rows rp) tokens ys _ (sort_by (key_cmp token_of) triples) Hy Hz) as [-> _].
  { rewrite (sort_permutation token_of). apply triples_ok. }
  rewrite ok_bind. by rewrite (add_rows_sorted ys triples) by apply triples_nonneg.
Qed.
End plan.

(** * The routes of one token *)

Definition tagged (lo : Z) (routes : list RouteEntry) : list (RouteEntry * Z) := zip routes (seqZ lo (Zlen routes)).
Definition by_id (rs : RouteEntry * Z) : Z := re_expert_id rs.1.

Lemma tagged_app lo a b : tagged lo (a ++ b) = tagged lo a ++ tagged (lo + Zlen a) b.
Proof.
  unfold tagged. rewrite length_app, Nat2Z.inj_add, seqZ_app by lia. apply zip_with_app. rewrite length_seqZ. lia.
Qed.

Lemma tagged_range lo routes : Forall (fun rs => lo <= rs.2 < lo + Zlen routes) (tagged lo routes).
Proof.
  apply Forall_lookup. intros i rs (r & s & -> & _ & Hs)%lookup_zip_with_Some. apply lookup_seqZ in Hs as [-> Hs]. cbn. lia.
Qed.

Lemma tagged_fst lo routes : (tagged lo routes).*1 = routes.
Proof. unfold tagged. apply fst_zip. rewrite length_seqZ. lia. Qed.

Lemma routed_tagged routes : routed routes = (fun rs => (by_id rs, rs.2)) <$> sort_by (key_cmp by_id) (tagged 0 routes).
Proof.
  unfold routed. rewrite <-(sort_by_fmap fst). f_equal. unfold route_pairs, tagged, by_id. generalize (seqZ 0 (Zlen routes)) as k.
  induction routes as [|r routes IH]; intros [|s k]; cbn; try done. by rewrite IH.
Qed.

(** The eight routes of token [t]. *)
Definition token_routes (routes : list RouteEntry) (t : Z) : list RouteEntry := slice routes (t * 8) (t * 8 + 8).

Lemma tagged_token routes tokens t : Zlen routes = tokens * 8 -> 0 <= t < tokens ->
  (filter (fun rs => rs.2 / 8 = t) (tagged 0 routes)).*1 = token_routes routes t.
Proof.
  intros Hlen Ht. unfold token_routes. pose proof (slice_length routes (t * 8) (t * 8 + 8) ltac:(lia) ltac:(lia) ltac:(lia)) as Hs.
  rewrite <-(take_drop (Z.to_nat (t * 8)) routes) at 1. rewrite <-(take_drop 8 (drop (Z.to_nat (t * 8)) routes)).
  unfold slice in *. replace (Z.to_nat (t * 8 + 8 - t * 8)) with 8%nat in * by lia.
  set (a := take _ routes). set (b := take 8 _) in *. set (c := drop 8 _).
  assert (Zlen a = t * 8) as Ha by (unfold a; rewrite length_take; lia).
  rewrite !tagged_app, Ha, Hs, Z.add_0_l, !filter_app, !fmap_app.
  rewrite (filter_none _ (tagged 0 a)), (filter_none _ (tagged _ c)).
  - rewrite app_nil_r. cbn [fmap list_fmap app]. rewrite filter_all; [apply tagged_fst|].
    intros rs Hrs. pose proof (proj1 (Forall_forall _ _) (tagged_range _ _) _ Hrs) as Hb. cbn in Hb. rewrite Hs in Hb.
    Z.div_mod_to_equations; lia.
  - intros rs Hrs. pose proof (proj1 (Forall_forall _ _) (tagged_range _ _) _ Hrs) as Hb. cbn in Hb.
    Z.div_mod_to_equations; lia.
  - intros rs Hrs. pose proof (proj1 (Forall_forall _ _) (tagged_range _ _) _ Hrs) as Hb. cbn in Hb. rewrite Ha in Hb.
    Z.div_mod_to_equations; lia.
Qed.

(** A fold over what a filter keeps, of two lists that agree. *)
Lemma fold_filter2 {A B C} (f : C -> A -> C) (g : C -> B -> C) (P : A -> Prop) (Q : B -> Prop)
    `{!forall x, Decision (P x)} `{!forall x, Decision (Q x)} l k c :
  Forall2 (fun x y => (P x <-> Q y) /\ (Q y -> forall c, f c x = g c y)) l k ->
  foldl f c (filter P l) = foldl g c (filter Q k).
Proof.
  intros Hlk. revert c. induction Hlk as [|x y l k [Hpq Hfg] _ IH]; intros c; [done|]. rewrite !filter_cons.
  destruct (decide (P x)) as [Hp|Hp], (decide (Q y)) as [Hq|Hq]; try tauto; [|done]. cbn [foldl]. by rewrite Hfg.
Qed.

(** * What the server computes *)

Lemma expert_row_length exp grouped e x : resident grouped e -> Zlen x = HIDDEN -> Zlen (expert_row exp grouped NONE e x) = HIDDEN.
Proof.
  intros He Hx. unfold expert_row. apply (gemm_out_length _ _ Down); [done|]. rewrite length_zip_with.
  pose proof (gemm_out_length grouped NONE Gate e x He Hx). pose proof (gemm_out_length grouped NONE Up e x He Hx).
  change (slice_in_cols Down) with (slice_rows Gate). change (slice_rows Up) with (slice_rows Gate) in *. lia.
Qed.

Section served.
Context (exp : spec_float -> spec_float) (grouped : list Z).
Context (routes : list RouteEntry) (tokens : Z) (hs : list (list spec_float)).
Context (Ht : 0 <= tokens) (Hlen : Zlen routes = tokens * 8).
Context (Hids : Forall (fun r => 0 <= re_expert_id r < EXPERTS_PER_LAYER) routes).
Context (Hres : Forall (fun r => resident grouped (re_expert_id r)) routes).
Context (Hhs : rows_of HIDDEN tokens hs).
Context (Hmax : tokens * 8 + 15 * EXPERTS_PER_LAYER < 2 ^ 31).

#[local] Abbreviation rp := (plan_of routes tokens).
#[local] Abbreviation groups := (gp_groups (rp_plan rp)).

Definition zero_row : list spec_float := replicate (Z.to_nat HIDDEN) f32_zero.

(** A token's row: its eight routes in ascending order of expert, each expert's row of the token
    weighted and added. *)
Definition token_out (h : list spec_float) (rs : list RouteEntry) : list spec_float :=
  foldl (fun acc r => madd acc (f32_from_bits (re_gate_weight r)) (expert_row exp grouped NONE (re_expert_id r) h))
    zero_row (sort_by (key_cmp re_expert_id) rs).

Definition inputs : list (list spec_float) :=
  put_rows hs (zip (rp_row_token rp) (rp_row_padded rp)) (replicate (Z.to_nat (padded_rows rp)) zero_row).

Definition outputs : list (list spec_float) := zip_with (expert_row exp grouped NONE) (row_experts groups) inputs.

Lemma padded_nonneg : 0 <= padded_rows rp.
Proof. pose proof (padded_rows_bound routes tokens Hlen Hids). lia. Qed.

Lemma pairs_lookup i tp : zip (rp_row_token rp) (rp_row_padded rp) !! i = Some tp ->
  exists x, triples routes tokens !! i = Some x /\ tp = (x.1.1, x.2).
Proof.
  destruct (plan_lengths routes tokens Hlen) as (H1 & H2 & H3). intros (t & p & -> & Hti & Hp)%lookup_zip_with_Some.
  destruct (lookup_lt_is_Some_2 (rp_row_weight rp) i) as [g Hg]; [apply lookup_lt_Some in Hti; lia|]. exists (t, g, p).
  split; [|done]. unfold triples. apply lookup_zip_with_Some. eexists _, _. split_and!; [done| |done].
  apply lookup_zip_with_Some. by eexists _, _.
Qed.

Lemma pairs_ok : Forall (pair_ok tokens (padded_rows rp)) (zip (rp_row_token rp) (rp_row_padded rp)).
Proof.
  apply Forall_lookup. intros i tp (x & Hx & ->)%pairs_lookup.
  apply (proj1 (Forall_lookup _ _) (triples_ok routes tokens Hlen Hids) _ _ Hx).
Qed.

Lemma zero_inputs : rows_of HIDDEN (padded_rows rp) (replicate (Z.to_nat (padded_rows rp)) zero_row).
Proof. apply (zero_rows HIDDEN (padded_rows rp)); [done|apply padded_nonneg]. Qed.

Lemma replicate_x_ok : replicate_x rp (concat hs) = Ok (concat inputs) /\ rows_of HIDDEN (padded_rows rp) inputs.
Proof.
  unfold replicate_x. rewrite (rows_of_length HIDDEN _ _ Hhs). cbn [rp_tokens plan_of]. rewrite Z.eqb_refl. cbn [negb].
  destruct (zero_rows HIDDEN (padded_rows rp)) as [_ Hz]; [done|apply padded_nonneg|]. rewrite <-Hz.
  apply (copy_rows_ok tokens); [done|apply zero_inputs|apply pairs_ok].
Qed.

(** Row [p] of the experts' input is the hidden row of the token routed there. *)
Lemma inputs_lookup i x : triples routes tokens !! i = Some x -> inputs !! Z.to_nat x.2 = Some (row hs x.1.1).
Proof.
  intros Hx. apply (put_rows_lookup tokens (padded_rows rp) hs _ _ i); [apply pairs_ok| | |].
  - rewrite snd_zip; [apply plan_padded_NoDup|]. destruct (plan_lengths routes tokens Hlen) as (H1 & _ & H3). lia.
  - rewrite length_replicate. pose proof padded_nonneg. lia.
  - unfold triples in Hx. apply lookup_zip_with_Some in Hx as (tg & p & -> & Htg & Hp).
    apply lookup_zip_with_Some in Htg as (t & g & -> & Htk & _). apply lookup_zip_with_Some. by eexists _, _.
Qed.

Lemma groups_resident : Forall (fun g => resident grouped (g_expert g)) groups.
Proof. by apply plan_groups_keys, by_expert_keys. Qed.

Lemma outputs_rows : rows_of HIDDEN (padded_rows rp) outputs.
Proof.
  destruct replicate_x_ok as [_ [Hl Hx]]. pose proof (plan_valid routes tokens Hids) as Hv.
  pose proof (row_experts_length 0 _ Hv) as Hr. unfold outputs, padded_rows, total_tokens in *. split.
  - rewrite length_zip_with. lia.
  - apply Forall_lookup. intros i r (e & x & -> & He & Hxi)%lookup_zip_with_Some. apply expert_row_length.
    + apply list_elem_of_lookup_2 in He. unfold row_experts in He.
      apply list_elem_of_In, in_concat in He as (l & Hin & He%list_elem_of_In).
      apply list_elem_of_In, list_elem_of_fmap in Hin as (g & -> & Hg). apply elem_of_replicate in He as [-> _].
      by apply (proj1 (Forall_forall _ _) groups_resident).
    + by apply (proj1 (Forall_lookup _ _) Hx _ _ Hxi).
Qed.

Lemma ffn_ok : expert_ffn_self_contained exp grouped (concat inputs) (rp_plan rp) NONE
  = Ok (mkGroupedOutput (concat outputs) HIDDEN).
Proof.
  destruct replicate_x_ok as [_ [Hl Hx]]. apply (expert_ffn_ok exp grouped NONE); [done| |apply groups_resident|done|done].
  by apply plan_valid.
Qed.

Lemma token_fold t : 0 <= t < tokens ->
  foldl (fun o x => madd o x.1.2 (row outputs x.2)) zero_row (filter (fun x : route_of => x.1.1 = t) (triples routes tokens))
  = token_out (row hs t) (token_routes routes t).
Proof.
  intros Htt. unfold token_out. rewrite <-(tagged_token routes tokens t Hlen Htt), sort_by_fmap.
  rewrite <-(sort_filter by_id (fun rs : RouteEntry * Z => rs.2 / 8 = t)).
  rewrite foldl_fmap. apply fold_filter2, Forall2_same_length_lookup_2.
  - destruct (plan_lengths routes tokens Hlen) as (H1 & H2 & H3). unfold triples.
    rewrite !length_zip_with, (sort_permutation by_id). unfold tagged. rewrite length_zip_with, length_seqZ. lia.
  - intros i x [r s] Hx Hrs. pose proof (inputs_lookup _ _ Hx) as Hin.
    apply triple_lookup in Hx as (es & Hes & Hx & Hs & _ & He); [|done].
    rewrite routed_tagged, list_lookup_fmap, Hrs in Hes. injection Hes as <-. cbn [fst snd] in *.
    rewrite Hx in *. cbn [fst snd] in *. split; [done|]. intros Heq c. f_equal.
    + pose proof (sort_permutation by_id (tagged 0 routes)) as Hperm.
      apply list_elem_of_lookup_2 in Hrs. rewrite Hperm in Hrs. apply list_elem_of_lookup_1 in Hrs as [j Hj].
      apply lookup_zip_with_Some in Hj as (r' & s' & [= <- <-] & Hr' & Hs'). apply lookup_seqZ in Hs' as [-> _].
      unfold slot_weight. by rewrite Z.add_0_l, Nat2Z.id, Hr'.
    + apply row_lookup. unfold outputs. rewrite lookup_zip_with, He. cbn [mbind option_bind]. rewrite Hin. cbn [mbind option_bind].
      by rewrite Heq.
Qed.

Definition to_bf16 (v : spec_float) : Z := f32_to_bf16_rne (f32_to_bits v).

Lemma cpu_ffn_ok : cpu_ffn exp grouped (concat hs) rp
  = Ok (to_bf16 <$> concat ((fun t => token_out (row hs t) (token_routes routes t)) <$> seqZ 0 tokens)).
Proof.
  unfold cpu_ffn. rewrite (proj1 replicate_x_ok), ok_bind, ffn_ok. cbn [map_err]. rewrite ok_bind.
  destruct (token_major_routes rp) as [[padded weight]|e|] eqn:Htm;
    [|rewrite (token_major_ok routes tokens Hlen) in Htm; discriminate..].
  rewrite ok_bind. cbn [go_data rp_tokens plan_of].
  rewrite (cpu_reduce_ok routes tokens Ht Hlen Hids outputs padded weight Hmax outputs_rows Htm). do 3 f_equal.
  apply list_eq. intros t. rewrite list_lookup_fmap. destruct (decide (Z.of_nat t < tokens)) as [Hlt|Hge].
  - rewrite lookup_seqZ_lt by lia. cbn [fmap option_fmap option_map]. rewrite Z.add_0_l.
    rewrite (add_rows_lookup _ _ _ t zero_row).
    + f_equal. apply token_fold. lia.
    + by apply (triples_nonneg routes tokens).
    + apply lookup_replicate. split; [done|lia].
  - rewrite lookup_seqZ_ge by lia. apply lookup_ge_None_2. rewrite add_rows_length, length_replicate. lia.
Qed.
End served.

(** * Theorems *)

(** The routes [from_routes] accepts: eight a token, in the order of the tokens. *)
Definition routes_shaped (routes : list RouteEntry) (tokens : Z) : Prop :=
  Zlen routes = tokens * 8 /\ forall i r, routes !! i = Some r -> re_row_index r = Z.of_nat i / 8.

Lemma from_routes_shaped routes tokens rp : from_routes routes tokens = Ok rp ->
  routes_shaped routes tokens /\ rp = plan_of routes tokens.
Proof.
  intros H. pose proof H as Hok. unfold from_routes, usize_mul in H. destruct (Z.ltb_spec (tokens * 8) (2 ^ 64)) as [Hlt|]; [|done].
  rewrite ok_bind in H. destruct (Z.eqb_spec (Zlen routes) (tokens * 8)) as [Hl|]; [|done]. cbn [negb] in H.
  destruct (check_route_rows 0 routes) as [[]|e|] eqn:Hc; [|done..].
  pose proof (proj1 (check_route_rows_ok 0 routes) Hc) as Hr.
  rewrite from_routes_ok in Hok by (done || lia). by injection Hok as <-.
Qed.

Lemma routed_entry routes i es : routed routes !! i = Some es ->
  exists r, routes !! Z.to_nat es.2 = Some r /\ re_expert_id r = es.1 /\ 0 <= es.2.
Proof.
  intros Hi%list_elem_of_lookup_2. unfold routed in Hi. rewrite (sort_permutation fst) in Hi.
  apply list_elem_of_lookup_1 in Hi as [j (e & s & -> & He & Hs)%lookup_zip_with_Some]. apply lookup_seqZ in Hs as [-> _].
  rewrite list_lookup_fmap in He. destruct (routes !! j) as [r|] eqn:Hr; [|done]. injection He as <-. exists r. cbn [fst snd].
  rewrite Z.add_0_l, Nat2Z.id. split_and!; [done|done|lia].
Qed.

Lemma plan_rows routes tokens i slot : routes_shaped routes tokens -> (routed routes).*2 !! i = Some slot -> exists r p,
  routes !! Z.to_nat slot = Some r /\ rp_row_padded (plan_of routes tokens) !! i = Some p /\
  row_experts (gp_groups (rp_plan (plan_of routes tokens))) !! Z.to_nat p = Some (re_expert_id r) /\
  rp_row_token (plan_of routes tokens) !! i = Some (re_row_index r) /\
  rp_row_weight (plan_of routes tokens) !! i = Some (f32_from_bits (re_gate_weight r)).
Proof.
  intros [Hlen Hrows] Hi. rewrite list_lookup_fmap in Hi. destruct (routed routes !! i) as [es|] eqn:Hes; [|done].
  injection Hi as <-. destruct (routed_entry _ _ _ Hes) as (r & Hr & He & Hs).
  destruct (plan_lengths routes tokens Hlen) as (H1 & _ & H3). pose proof (lookup_lt_Some _ _ _ Hes) as Hlt. rewrite (routed_length routes tokens Hlen) in Hlt.
  destruct (lookup_lt_is_Some_2 (rp_row_padded (plan_of routes tokens)) i) as [p Hp]; [lia|]. exists r, p.
  cbn [plan_of rp_row_padded rp_row_token rp_row_weight rp_plan gp_groups] in *. split; [done|]. split; [done|].
  pose proof (plan_padded_row _ _ _ _ Hp) as (x & Hx & _ & Hpe). rewrite by_expert_routed, Hes in Hx. injection Hx as <-.
  rewrite Z.sub_0_r in Hpe. split; [by rewrite He|]. rewrite (list_lookup_fmap (fun x : Z * Z => x.2 / 8)), Hes.
  rewrite (list_lookup_fmap (fun x : Z * Z => slot_weight routes x.2)), Hes. cbn [fmap option_fmap option_map].
  unfold slot_weight. rewrite Hr, (Hrows _ _ Hr), Z2Nat.id by done. done.
Qed.

(** C10: the plan of a request is one the grouped kernels accept.  Its tiles are of the compiled
    sizes, laid end to end; the padded batch is at most 15 rows an expert longer than the routes;
    every route has a padded row of its own, in a tile of its expert, and the row's token and weight
    are the route's. *)
Theorem plan_sound routes tokens rp :
  Forall (fun r => 0 <= re_expert_id r < EXPERTS_PER_LAYER) routes -> from_routes routes tokens = Ok rp ->
  validate (rp_plan rp) = Ok tt /\
  tokens * 8 <= padded_rows rp <= tokens * 8 + 15 * EXPERTS_PER_LAYER /\
  NoDup (rp_row_padded rp) /\
  exists slots, slots ≡ₚ seqZ 0 (tokens * 8) /\ length slots = length (rp_row_padded rp) /\
    forall i slot, slots !! i = Some slot -> exists r p,
      routes !! Z.to_nat slot = Some r /\ rp_row_padded rp !! i = Some p /\
      row_experts (gp_groups (rp_plan rp)) !! Z.to_nat p = Some (re_expert_id r) /\
      rp_row_token rp !! i = Some (re_row_index r) /\
      rp_row_weight rp !! i = Some (f32_from_bits (re_gate_weight r)).
Proof.
  intros Hids ([Hlen Hrows] & ->)%from_routes_shaped. split; [by apply validate_groups_ok, plan_valid|].
  split; [by apply padded_rows_bound|]. split; [apply plan_padded_NoDup|]. exists (routed routes).*2. split; [|split].
  - unfold routed. rewrite (sort_permutation fst), route_pairs_snd. by rewrite Hlen.
  - destruct (plan_lengths routes tokens Hlen) as (_ & _ & H3). rewrite length_fmap, (routed_length routes tokens Hlen). lia.
  - intros i slot. by apply plan_rows.
Qed.

(** A token routed to eight experts and a token routed twice to one. *)
Definition two_tokens : list RouteEntry :=
  ((fun e => mkRouteEntry 0 e 0x3F000000) <$> [7; 3; 5; 1; 2; 6; 4; 0])
  ++ ((fun e => mkRouteEntry 1 e 0x3E000000) <$> [3; 3; 9; 1; 2; 6; 4; 255]).

Lemma plan_sound_witness : exists rp, from_routes two_tokens 2 = Ok rp /\ validate (rp_plan rp) = Ok tt.
Proof.
  destruct (from_routes two_tokens 2) as [rp|e|] eqn:H; [|vm_compute in H; discriminate..].
  exists rp. split; [done|]. apply (plan_sound two_tokens 2 rp); [|done]. by apply (bool_decide_unpack _).
Defined.

(** C11: the reduction in the device's order is the reference reduction.  [token_major_routes] lists
    every row of the plan token by token; adding the experts' rows in that order and rounding to
    BF16 gives, bit for bit, what [reduce] gives in the order of the groups. *)
Theorem device_order_is_reduce routes tokens rp ys : 0 <= tokens -> tokens * 8 + 15 * EXPERTS_PER_LAYER < 2 ^ 31 ->
  Forall (fun r => 0 <= re_expert_id r < EXPERTS_PER_LAYER) routes -> from_routes routes tokens = Ok rp ->
  rows_of HIDDEN (padded_rows rp) ys ->
  exists padded weight out, token_major_routes rp = Ok (padded, weight) /\ reduce rp (concat ys) = Ok out /\
    cpu_reduce_bf16 (concat ys) padded weight tokens HIDDEN = Ok ((fun v => f32_to_bf16_rne (f32_to_bits v)) <$> out).
Proof.
  intros Ht Hmax Hids ([Hlen Hrows] & ->)%from_routes_shaped Hys. eexists _, _, _.
  split; [by apply (token_major_ok routes tokens)|]. split; [by apply reduce_ok|].
  apply cpu_reduce_ok; [done..|]. by apply token_major_ok.
Qed.

Lemma device_order_is_reduce_witness : exists rp padded weight out,
  from_routes two_tokens 2 = Ok rp /\ token_major_routes rp = Ok (padded, weight) /\
  reduce rp (concat (replicate (Z.to_nat (padded_rows rp)) (replicate (Z.to_nat HIDDEN) f32_zero))) = Ok out.
Proof.
  destruct (from_routes two_tokens 2) as [rp|e|] eqn:H; [|vm_compute in H; discriminate..]. exists rp.
  destruct (device_order_is_reduce two_tokens 2 rp (replicate (Z.to_nat (padded_rows rp)) (replicate (Z.to_nat HIDDEN) f32_zero)))
    as (padded & weight & out & H1 & H2 & _); [lia|done|by apply (bool_decide_unpack _)|done| |by exists padded, weight, out].
  apply (zero_rows HIDDEN (padded_rows rp)); [done|].
  pose proof (from_routes_shaped _ _ _ H) as [_ ->]. apply (padded_nonneg two_tokens 2); [done|by apply (bool_decide_unpack _)].
Defined.

