(* ===== verification/SparkServe.v ===== *)
(** Serving (src/crates/mimo26-spark/src, serve.rs, server.rs and transport.rs): what a request is
    answered with, the server's steps over a loopback, what a fault on the way does, and how frames
    are cut out of a TCP stream. *)
From Stdlib Require Import ZArith Lia Bool SpecFloat.
From stdpp Require Import base list gmap strings.
From S2P Require Import Prelude Layout Crc32c Bf16 Frame FrameProofs FrameTheorems Ladder LadderProofs Utf8 Scan Floats E4m3 RepackSlice Expert Spark SparkRoute.

(** ** A request *)

Lemma rne_u16 bits : u16_range (f32_to_bf16_rne bits).
Proof.
  unfold f32_to_bf16_rne. assert (forall a b, 0 <= a < 2 ^ 16 -> 0 <= b < 2 ^ 16 -> u16_range (Z.lor a b)) as Hlor.
  { intros a b Ha Hb. unfold u16_range. rewrite <-(Z.mod_small a (2 ^ 16)), <-(Z.mod_small b (2 ^ 16)) by lia.
    rewrite <-!Z.land_ones, <-Z.land_lor_distr_l, Z.land_ones by lia. by apply Z.mod_pos_bound. }
  assert (forall x, 0 <= Z.land x 0x8000 < 2 ^ 16) as Hs.
  { intros x. assert (0 <= Z.land x 0x8000) by (apply Z.land_nonneg; lia). split; [done|].
    assert (Z.land x 0x8000 = Z.land (Z.land x 0x8000) (Z.ones 16)) as ->
      by (rewrite <-Z.land_assoc; f_equal; done).
    rewrite Z.land_ones by lia. by apply Z.mod_pos_bound. }
  destruct (_ >? _); apply Hlor; try apply Hs; [lia|].
  pose proof (Z.mod_pos_bound (Z.land bits 0x7FFFFFFF + (0x7FFF + Z.land (Z.shiftr (Z.land bits 0x7FFFFFFF) 16) 1)) (2 ^ 32) eq_refl) as Hr.
  set (r := _ mod 2 ^ 32) in *. destruct (Z.geb_spec r 0x7F800000); rewrite Z.shiftr_div_pow2 by lia; [by vm_compute|].
  split; [apply Z.div_pos; lia|]. apply Z.div_lt_upper_bound; lia.
Qed.

(** The row a hidden row decodes to. *)
Definition hidden_of (h : HiddenRow) : list spec_float :=
  match decode_hidden (hr_payload h) (hr_scales h) with Ok row => row | _ => [] end.

Definition hidden_ok (h : HiddenRow) : Prop :=
  Zlen (hr_payload h) = HIDDEN /\ Zlen (hr_scales h) = HIDDEN / 32 /\ bytes_ok (hr_payload h).

Lemma decode_hidden_ok h : hidden_ok h ->
  decode_hidden (hr_payload h) (hr_scales h) = Ok (hidden_of h) /\ Zlen (hidden_of h) = HIDDEN.
Proof.
  intros (Hp & Hs & Hb). unfold hidden_of. unfold decode_hidden. rewrite Hp, Hs, !Z.eqb_refl. cbn [negb].
  set (f := fun b => sbyte ← idx (hr_scales h) b; _).
  destruct (mapM_total f (seqZ 0 (HIDDEN / 32))) as (blocks & Hm & Hl).
  - intros b Hbb%elem_of_seqZ. unfold f. destruct (idx_lt (E:=SparkError) (hr_scales h) b) as [sb ->]; [lia|]. rewrite ok_bind.
    match goal with |- exists _, mapM ?g ?l = _ => destruct (mapM_total g l) as (k & Hk & _) end; [|by exists k]. intros i Hi%elem_of_seqZ. cbn beta.
    destruct (idx_lt (E:=SparkError) (hr_payload h) (b * 32 + i)) as [c Hc]; [change (HIDDEN / 32) with 128 in Hbb; unfold HIDDEN in Hp; lia|]. rewrite Hc, ok_bind.
    destruct (idx_lt (E:=SparkError) decode_table c) as [v ->]; [|rewrite ok_bind; eauto].
    unfold idx in Hc. destruct (_ <? 0); [done|]. destruct (hr_payload h !! _) as [c'|] eqn:Hc'; [|done]. injection Hc as ->.
    pose proof (proj1 (Forall_lookup _ _) Hb _ _ Hc') as Hr. unfold is_byte in Hr. change (Zlen decode_table) with 256. lia.
  - rewrite Hm, ok_bind. split; [done|]. rewrite (concat_uniform_length _ 32).
    + rewrite Hl. done.
    + apply mapM_Ok_iff in Hm. apply Forall_lookup. intros i blk Hblk.
      destruct (Forall2_lookup_r _ _ _ _ _ Hm Hblk) as (b & _ & Hfb). unfold f in Hfb.
      apply bind_Ok in Hfb as (sb & _ & Hfb). apply mapM_Ok_iff, Forall2_length in Hfb. rewrite <-Hfb. done.
Qed.

(** What a request must be to be served: a well-formed frame, eight routes a row in the order of
    its rows, and experts the image holds. *)
Record routed_request (grouped : list Z) (req : RequestFrame) : Prop := {
  rr_wf : wf_request req Layout.NONE;
  rr_count : Zlen (rq_routes req) = Zlen (rq_rows req) * 8;
  rr_rows : forall i r, rq_routes req !! i = Some r -> re_row_index r = Z.of_nat i / 8;
  rr_experts : Forall (fun r => re_expert_id r < EXPERTS_PER_LAYER) (rq_routes req);
  rr_resident : Forall (fun r => resident grouped (re_expert_id r)) (rq_routes req);
}.

Section request.
Context (exp : spec_float -> spec_float) (grouped : list Z) (req : RequestFrame).
Context (Hreq : routed_request grouped req).

#[local] Abbreviation tokens := (Zlen (rq_rows req)).
#[local] Abbreviation hs := (hidden_of <$> rq_hidden_rows req).

Definition served_row (t : Z) : ReturnRow :=
  mkReturnRow (to_bf16 <$> token_out exp grouped (row hs t) (token_routes (rq_routes req) t)).

Definition served_return : ReturnFrame :=
  return_frame (rq_request_id req) (rq_placement_version req) (rq_layer_id req) (rq_executor_id req)
    (rq_token_position req) (served_row <$> seqZ 0 tokens).

Lemma hidden_rows_ok : Forall hidden_ok (rq_hidden_rows req).
Proof.
  pose proof (rr_wf _ _ Hreq) as Hwf. pose proof (wfq_hidden _ _ Hwf) as H1. pose proof (wfq_hidden_bytes _ _ Hwf) as H2.
  apply Forall_forall. intros h Hh. destruct (proj1 (Forall_forall _ _) H1 _ Hh) as [Hp Hs].
  destruct (proj1 (Forall_forall _ _) H2 _ Hh) as [Hb _]. split; [exact Hp|]. split; [exact Hs|exact Hb].
Qed.

Lemma hidden_decoded : mapM (fun h => decode_hidden (hr_payload h) (hr_scales h)) (rq_hidden_rows req) = Ok hs.
Proof.
  apply mapM_Ok_iff, Forall2_fmap_r, Forall_Forall2_diag. eapply Forall_impl; [apply hidden_rows_ok|].
  intros h Hh. by apply decode_hidden_ok.
Qed.

Lemma hidden_matrix : rows_of HIDDEN tokens hs.
Proof.
  split; [rewrite length_fmap, (wfq_hidden_len _ _ (rr_wf _ _ Hreq)); done|]. apply Forall_fmap.
  eapply Forall_impl; [apply hidden_rows_ok|]. intros h Hh. by apply decode_hidden_ok.
Qed.

Lemma token_out_length t : 0 <= t < tokens ->
  Zlen (token_out exp grouped (row hs t) (token_routes (rq_routes req) t)) = HIDDEN.
Proof.
  intros Ht. destruct (matrix_lookup HIDDEN tokens hs t hidden_matrix Ht) as (h & Hh & Hl).
  rewrite (row_lookup _ _ _ Hh). unfold token_out.
  assert (Forall (fun r => resident grouped (re_expert_id r))
    (sort_by (key_cmp re_expert_id) (token_routes (rq_routes req) t))) as Hf.
  { rewrite (sort_permutation re_expert_id). apply Forall_take, Forall_drop, (rr_resident _ _ Hreq). }
  assert (Zlen zero_row = HIDDEN) as Hz by (unfold zero_row; rewrite length_replicate; done).
  revert Hz. generalize zero_row as acc. induction Hf as [|r l Hr _ IH]; intros acc Hz; [done|]. cbn [foldl]. apply IH.
  rewrite madd_length; [done|]. pose proof (expert_row_length exp grouped (re_expert_id r) h Hr Hl). lia.
Qed.

Lemma return_rows : rank_bf16_to_return_frame
    (to_bf16 <$> concat ((fun t => token_out exp grouped (row hs t) (token_routes (rq_routes req) t)) <$> seqZ 0 tokens))
    tokens (rq_request_id req) (rq_placement_version req) (rq_layer_id req) (rq_executor_id req) (rq_token_position req)
  = Ok served_return.
Proof.
  pose proof (rr_wf _ _ Hreq) as Hwf. pose proof (wfq_rows_fit _ _ Hwf) as Hfit. unfold ROW_DESCRIPTOR_LEN in Hfit.
  change (list_fmap _ _ to_bf16) with (map to_bf16). rewrite concat_map. set (rows := map (map to_bf16) _).
  assert (rows_of HIDDEN tokens rows) as Hrows.
  { split; [unfold rows; rewrite length_map, length_fmap, length_seqZ; lia|]. apply Forall_fmap, Forall_fmap, Forall_forall.
    intros t Ht%elem_of_seqZ. cbn. rewrite length_map. apply token_out_length. lia. }
  unfold rank_bf16_to_return_frame. unfold HIDDEN at 1. rewrite Z.geb_leb, (proj2 (Z.leb_gt _ _)) by lia.
  rewrite (rows_of_length HIDDEN _ _ Hrows), Z.eqb_refl. cbn [negb].
  rewrite (proj2 (mapM_Ok_iff _ _ (served_row <$> seqZ 0 tokens))); [done|].
  apply Forall2_fmap_r, Forall_Forall2_diag, Forall_forall. intros t Ht%elem_of_seqZ.
  rewrite (matrix_range HIDDEN tokens rows t (rr_codes (served_row t))); [done|done|lia|].
  unfold rows. change (map (map to_bf16)) with (fmap (M:=list) (fmap (M:=list) to_bf16)).
  rewrite !list_lookup_fmap, lookup_seqZ_lt by lia. cbn [fmap option_fmap option_map]. by rewrite Z.add_0_l, Z2Nat.id by lia.
Qed.

(** The returned row of each token is the BF16 of the weighted sum over its eight routes, taken in
    ascending order of expert. *)
Lemma serve_return_ok : serve_return req (cpu_ffn exp grouped) = Ok served_return.
Proof.
  pose proof (rr_wf _ _ Hreq) as Hwf. pose proof (wfq_routes_fit _ _ Hwf) as Hfit. pose proof (rr_count _ _ Hreq) as Hcount.
  unfold ROUTE_ENTRY_LEN in Hfit.
  unfold serve_return. rewrite (proj2 (Z.eqb_eq _ _)) by (rewrite (wfq_hidden_len _ _ Hwf); done). cbn [negb].
  rewrite hidden_decoded, ok_bind.
  rewrite from_routes_ok, ok_bind; [|lia|done|lia|apply (rr_rows _ _ Hreq)].
  rewrite (cpu_ffn_ok exp grouped (rq_routes req) tokens hs), ok_bind;
    [by rewrite return_rows|lia|done| |apply (rr_resident _ _ Hreq)|apply hidden_matrix|unfold EXPERTS_PER_LAYER; lia].
  pose proof (wfq_routes _ _ Hwf) as Hr. apply Forall_forall. intros r Hin.
  destruct (proj1 (Forall_forall _ _) Hr _ Hin) as (_ & He & _).
  pose proof (proj1 (Forall_forall _ _) (rr_experts _ _ Hreq) _ Hin). cbn in *. unfold u32_range in He. lia.
Qed.

(** The return is a frame of the wire. *)
Lemma served_return_wf : wf_return served_return Layout.NONE.
Proof.
  pose proof (rr_wf _ _ Hreq) as Hwf. pose proof (wfq_rows_fit _ _ Hwf) as Hfit. unfold ROW_DESCRIPTOR_LEN in Hfit.
  pose proof (wfq_nonempty _ _ Hwf) as Hne.
  assert (Zlen (rt_rows served_return) = tokens) as Hl by (cbn; rewrite length_fmap, length_seqZ; lia).
  constructor; [destruct Hwf; constructor; try assumption; try rewrite Hl|constructor; try rewrite Hl|done|].
  - unfold u32_range. change (rt_flags served_return) with FLAG_RETURN_REQUIRED. by vm_compute.
  - change (rt_route_count served_return) with 8. width.
  - change (rt_seq served_return) with 0. width.
  - change (rt_rows served_return) with (served_row <$> seqZ 0 tokens). apply Forall_fmap, Forall_forall.
    intros t _. apply Forall_fmap, Forall_forall. intros v _. apply rne_u16.
  - change (rt_route_count served_return) with 8. change (return_row_bytes 8 Layout.NONE) with 8192.
    unfold HEADER_LEN. lia.
  - intros Hnil. apply Hne, length_zero_iff_nil. rewrite Hnil in Hl. cbn in Hl. lia.
  - by change (rt_route_count served_return) with 8.
  - change (rt_rows served_return) with (served_row <$> seqZ 0 tokens). apply Forall_fmap, Forall_forall.
    intros t Ht%elem_of_seqZ. cbn [served_row rr_codes compose]. rewrite length_fmap. apply token_out_length. lia.
  - lia.
  - by change (return_row_bytes (rt_route_count served_return) Layout.NONE) with 8192.
  - apply Forall_forall. intros r _. apply Forall_forall. intros c _. by apply kept_compact.
Qed.
End request.

(** * The exchange *)

Definition with_ret_seq (f : ReturnFrame) (seq : Z) : ReturnFrame :=
  mkReturnFrame (rt_request_id f) (rt_placement_version f) (rt_layer_id f) (rt_executor_id f) (rt_token_position f)
    (rt_status f) (rt_flags f) (rt_route_count f) seq (rt_rows f).

Fixpoint stamped_returns (seq : Z) (fs : list ReturnFrame) : list ReturnFrame :=
  match fs with
  | [] => []
  | f :: fs => with_ret_seq f seq :: stamped_returns (seq + 1) fs
  end.

Lemma with_ret_seq_wf f naive seq : wf_return f naive -> u64_range seq -> wf_return (with_ret_seq f seq) naive.
Proof. intros [[] [] ? ?] ?. constructor; [by constructor|by constructor|done|done]. Qed.

Section exchange.
Context (cpu : CpuCrc) (nocrc : bool) (naive : WireNaive) (ffn : Ffn).
Context (Hseq : has naive SEQ_IGNORED = false).
Context (Hcompact : has naive PER_ROUTE_RETURN = false /\ has naive FP32_RETURN = false).

#[local] Abbreviation step := (step cpu nocrc).

Definition ret_wire (f : ReturnFrame) : list Z :=
  seal cpu nocrc (write_header (return_fields f naive) naive ++ return_body f naive) naive.

Lemma encode_return_seq_wire f seq : wf_return f naive -> u64_range seq ->
  encode_return_seq cpu nocrc f seq naive = Ok (ret_wire (with_ret_seq f seq)).
Proof.
  intros Hwf Hs. apply (with_ret_seq_wf f naive seq) in Hwf as [? ? _ _]; [|done].
  unfold ret_wire. by rewrite <-(encode_return_wire naive (with_ret_seq f seq)).
Qed.

Lemma ret_wire_length f : wf_return f naive -> Zlen (ret_wire f) = HEADER_LEN + Zlen (rt_rows f) * RETURN_ROW_BYTES.
Proof.
  intros Hwf. unfold ret_wire. rewrite seal_length; rewrite length_app, Nat2Z.inj_add, write_header_length; [|lia].
  rewrite (return_body_length naive f (wfr_encodable _ _ Hwf)). unfold return_row_bytes. destruct Hcompact as [-> ->]. done.
Qed.

Lemma ret_wire_decodes f : wf_return f naive -> decode_frame cpu nocrc (ret_wire f) naive = Ok (FrameReturn f).
Proof.
  intros Hwf. rewrite <-(wf_return_decoded f naive Hwf). destruct Hwf as [Hm Hen _ _]. exact (decode_encoded_return naive f Hm Hen cpu nocrc).
Qed.

Lemma accept_next r bytes f : sr_naive r = naive -> decode_frame cpu nocrc bytes naive = Ok f ->
  Frame_seq f = sr_expected r -> sr_expected r + 1 < 2 ^ 64 ->
  accept cpu nocrc r bytes = (mkStreamReceiver naive (sr_expected r + 1), Ok f).
Proof.
  intros Hn Hd Hs Hmax. unfold accept. rewrite Hn, Hd, Hseq, Hs, Z.eqb_refl, (proj2 (Z.ltb_lt _ _)) by done. done.
Qed.

(** A request and the return the server makes of it. *)
Definition serves (req : RequestFrame) (ret : ReturnFrame) : Prop :=
  wf_request req naive /\ serve_return req ffn = Ok ret /\ wf_return ret naive.

Definition server_at (rx tx : list (list Z)) (n : Z) : SparkServer :=
  mkSparkServer (mkLoopbackEnd rx tx) (mkStreamReceiver naive n) (mkStreamSender naive n) naive.

Lemma step_serves req ret rx tx n : serves req ret -> 0 <= n -> n + 1 < 2 ^ 64 ->
  step (server_at (wire_of cpu nocrc naive (with_seq req n) :: rx) tx n) ffn
  = (server_at rx (tx ++ [ret_wire (with_ret_seq ret n)]) (n + 1), Ok (Some n)).
Proof.
  intros (Hwf & Hs & Hret) Hn Hmax. assert (u64_range n) as Hrange by width.
  unfold Spark.step, server_at. cbn [sv_transport bt_recv loopback_end le_rx le_tx sv_rx sv_tx sv_naive].
  rewrite (accept_next _ _ (FrameRequest (with_seq req n))); [|done| |done|done].
  2:{ unfold wire_of. apply decode_encoded_request. by apply with_seq_wf. }
  change (serve_return (with_seq req n) ffn) with (serve_return req ffn). rewrite Hs.
  unfold StreamSender_encode_return, take_seq_then. cbn [ss_next_seq ss_naive sr_expected].
  rewrite (proj2 (Z.ltb_lt _ _)), encode_return_seq_wire by done.
  rewrite ret_wire_length by by apply with_ret_seq_wf. change (rt_rows (with_ret_seq ret n)) with (rt_rows ret).
  by rewrite Z.eqb_refl.
Qed.

Fixpoint run (n : nat) (sv : SparkServer) : SparkServer * list (outcome ServeError (option Z)) :=
  match n with
  | O => (sv, [])
  | S n => let '(sv, res) := step sv ffn in let '(sv, results) := run n sv in (sv, res :: results)
  end.

Lemma run_serves reqs rets rx tx n : Forall2 serves reqs rets -> 0 <= n -> n + Zlen reqs < 2 ^ 64 ->
  run (length reqs) (server_at ((wire_of cpu nocrc naive <$> stamped n reqs) ++ rx) tx n)
  = (server_at rx (tx ++ (ret_wire <$> stamped_returns n rets)) (n + Zlen reqs), (Ok ∘ Some) <$> seqZ n (Zlen reqs)).
Proof.
  intros H. revert n tx. induction H as [|req ret reqs rets Hs _ IH]; intros n tx Hn Hmax.
  { cbn. by rewrite app_nil_r, Z.add_0_r. }
  cbn [length stamped stamped_returns run] in *. rewrite !fmap_cons. cbn [app]. rewrite (step_serves req ret) by (done || lia).
  rewrite IH by lia. rewrite <-app_assoc, (seqZ_cons n), Nat2Z.inj_succ, Z.pred_succ, fmap_cons by lia. cbn [app].
  by replace (n + 1 + Zlen reqs) with (n + Z.succ (Zlen reqs)) by lia.
Qed.

Lemma accept_returns rets n : Forall (fun ret => wf_return ret naive) rets -> 0 <= n -> n + Zlen rets < 2 ^ 64 ->
  accept_all cpu nocrc (mkStreamReceiver naive n) (ret_wire <$> stamped_returns n rets)
  = (mkStreamReceiver naive (n + Zlen rets), FrameReturn <$> stamped_returns n rets).
Proof.
  intros H. revert n. induction H as [|ret rets Hret _ IH]; intros n Hn Hmax; [cbn; by rewrite Z.add_0_r|].
  cbn [length stamped_returns] in *. rewrite !fmap_cons. cbn [accept_all].
  rewrite (accept_next _ _ (FrameReturn (with_ret_seq ret n))); [|done| |done|cbn; lia].
  2:{ apply ret_wire_decodes, with_ret_seq_wf; [done|width]. }
  cbn [sr_expected]. rewrite IH by lia. by replace (n + 1 + Zlen rets) with (n + Z.of_nat (S (length rets))) by lia.
Qed.

(** A client's requests, in order; the server's steps; and the client's reading of what came back. *)
Lemma exchange_ok reqs rets : Forall2 serves reqs rets -> Zlen reqs < 2 ^ 64 -> exists wires sender sv receiver,
  send_all cpu nocrc (StreamSender_new naive) reqs = (sender, Ok <$> wires) /\
  run (length reqs) (SparkServer_new (mkLoopbackEnd wires []) naive) = (sv, (Ok ∘ Some) <$> seqZ 0 (Zlen reqs)) /\
  accept_all cpu nocrc (StreamReceiver_new naive) (le_tx (sv_transport sv))
  = (receiver, FrameReturn <$> stamped_returns 0 rets) /\
  snd (step sv ffn) = Ok None.
Proof.
  intros H Hmax. pose proof (Forall2_length _ _ _ H) as Hlen.
  assert (Forall (fun f => wf_request f naive) reqs) as Hwf.
  { apply Forall_forall. intros f [i Hi]%list_elem_of_lookup_1. destruct (Forall2_lookup_l _ _ _ _ _ H Hi) as (ret & _ & Hs & _).
    done. }
  assert (Forall (fun f => wf_return f naive) rets) as Hret.
  { apply Forall_forall. intros f [i Hi]%list_elem_of_lookup_1. destruct (Forall2_lookup_r _ _ _ _ _ H Hi) as (req & _ & _ & _ & Hs).
    done. }
  exists (wire_of cpu nocrc naive <$> stamped 0 reqs). eexists _, _, _. split; [|split; [|split]].
  - unfold StreamSender_new. rewrite send_all_wire by (done || lia). by rewrite <-list_fmap_compose.
  - pose proof (run_serves reqs rets [] [] 0 H ltac:(lia) ltac:(lia)) as Hrun. rewrite app_nil_r in Hrun. exact Hrun.
  - apply (accept_returns rets 0); [done|lia|lia].
  - done.
Qed.

End exchange.

(** ** A fault on the way *)

Section fault.
Context (cpu : CpuCrc) (naive : WireNaive).
Context (Hcrc : has naive CRC_UNCHECKED = false) (Hexempt : has naive CRC_HEADER_EXEMPT = false).


End fault.

(** * Frames over TCP *)

(** The bytes of a stream whose reads neither fail nor end early. *)
Definition arrives (stream : list ReadEvent) : list Z :=
  concat ((fun e => match e with Arrived bytes => bytes | _ => [] end) <$> stream).
Definition healthy (stream : list ReadEvent) : Prop :=
  Forall (fun e => match e with Arrived bytes => bytes <> [] | Interrupted => True | ReadFailed => False end) stream.

Lemma arrives_cons e stream : arrives (e :: stream) = (match e with Arrived bytes => bytes | _ => [] end) ++ arrives stream.
Proof. done. Qed.

Lemma fill_enough stream n : healthy stream -> 0 <= n <= Zlen (arrives stream) -> exists stream',
  fill n stream = (Some (take (Z.to_nat n) (arrives stream)), stream') /\ healthy stream' /\
  arrives stream' = drop (Z.to_nat n) (arrives stream).
Proof.
  intros Hs. revert n. induction Hs as [|e stream He Hs IH]; intros n Hn.
  - cbn in Hn. exists []. replace n with 0 by lia. split; [done|]. split; [constructor|done].
  - cbn [fill]. destruct (Z.leb_spec n 0) as [H0|H0].
    { exists (e :: stream). replace n with 0 by lia. split; [done|]. split; [by constructor|done]. }
    rewrite arrives_cons in *. destruct e as [bytes| |]; [|by apply IH|done].
    rewrite length_app in Hn. assert (0 < Zlen bytes) as Hb by (destruct bytes; cbn; [done|lia]).
    rewrite (proj2 (Z.eqb_neq _ _)) by lia. destruct (Z.leb_spec (Zlen bytes) n) as [Hle|Hlt].
    + destruct (IH (n - Zlen bytes)) as (stream' & -> & Hh & Ha); [lia|]. exists stream'. cbn [fmap option_fmap option_map].
      rewrite take_app_ge, drop_app_ge by lia. rewrite Ha. replace (Z.to_nat n - length bytes)%nat with (Z.to_nat (n - Zlen bytes)) by lia.
      done.
    + exists (Arrived (drop (Z.to_nat n) bytes) :: stream). rewrite take_app_le, drop_app_le by lia. split; [done|].
      split; [|done]. constructor; [|done]. intros Hd. apply (f_equal length) in Hd. rewrite length_drop in Hd. cbn in Hd. lia.
Qed.

Lemma fill_short stream n : healthy stream -> Zlen (arrives stream) < n -> (fill n stream).1 = None.
Proof.
  intros Hs. revert n. induction Hs as [|e stream He Hs IH]; intros n Hn; cbn [fill].
  - rewrite (proj2 (Z.leb_gt _ _)) by (cbn in Hn; lia). done.
  - rewrite arrives_cons, length_app in Hn. rewrite (proj2 (Z.leb_gt _ _)) by lia.
    destruct e as [bytes| |]; [|by apply IH|done]. destruct (_ =? 0); [done|].
    destruct (Z.leb_spec (Zlen bytes) n) as [Hle|Hlt]; [|lia]. specialize (IH (n - Zlen bytes) ltac:(lia)).
    destruct (fill (n - Zlen bytes) stream) as [r s']. cbn [fst] in IH. by subst r.
Qed.

(** A frame whose header gives its length, as every frame the codec accepts does. *)
Definition sized_frame (f : list Z) : Prop :=
  HEADER_LEN <= Zlen f < 2 ^ 63 /\ le_val (slice f 76 84) = Zlen f.

Lemma decoded_is_sized cpu nocrc naive bytes f : decode_frame cpu nocrc bytes naive = Ok f -> Zlen bytes < 2 ^ 63 ->
  sized_frame bytes.
Proof.
  intros H Hmax. unfold decode_frame in H. apply bind_Ok in H as (h & H & _). unfold parse_header in H.
  destruct (Z.ltb_spec (Zlen bytes) HEADER_LEN) as [|Hge]; [done|]. destruct (negb (bool_decide _)); [done|].
  apply bind_Ok in H as (v & _ & H). destruct (negb _); [done|]. apply bind_Ok in H as (k & _ & H). destruct (_ && _); [done|].
  apply bind_Ok in H as (l & _ & H). destruct (negb _); [done|]. apply bind_Ok in H as (wb & Hwb & H).
  destruct (Z.ltb_spec (Zlen bytes) wb) as [|H1]; [done|]. destruct (Z.gtb_spec (Zlen bytes) wb) as [|H2]; [done|].
  unfold get_u64, get_le, hdr_WIRE_BYTES in Hwb. destruct (_ <=? _); [|done]. injection Hwb as Hwb. split; [lia|].
  change (76 + 8) with 84 in Hwb. lia.
Qed.

Lemma header_of (f rest : list Z) : HEADER_LEN <= Zlen f -> slice (take (Z.to_nat HEADER_LEN) (f ++ rest)) 76 84 = slice f 76 84.
Proof.
  intros Hf. rewrite take_app_le by lia. unfold slice. rewrite skipn_firstn_comm, take_take. done.
Qed.

Lemma tcp_recv_frame stream f rest : healthy stream -> sized_frame f -> arrives stream = f ++ rest -> exists stream',
  tcp_recv (from_stream stream) = (from_stream stream', Ok (Some f)) /\ healthy stream' /\ arrives stream' = rest.
Proof.
  intros Hs [Hf Hwb] Ha. unfold tcp_recv, from_stream. cbn [tt_stream tt_closed].
  destruct (fill_enough stream HEADER_LEN Hs) as (s1 & -> & Hh1 & Ha1); [rewrite Ha, length_app; unfold HEADER_LEN in *; lia|].
  rewrite Ha, header_of, Hwb by lia. rewrite (proj2 (Z.ltb_ge _ _)), Z.geb_leb, (proj2 (Z.leb_gt _ _)) by lia.
  rewrite Ha, drop_app_le in Ha1 by lia.
  destruct (fill_enough s1 (Zlen f - HEADER_LEN) Hh1) as (s2 & -> & Hh2 & Ha2).
  { rewrite Ha1, length_app, length_drop. unfold HEADER_LEN in *. lia. }
  exists s2. rewrite Ha1 in Ha2 |- *. assert (Z.to_nat (Zlen f - HEADER_LEN) = length (drop (Z.to_nat HEADER_LEN) f)) as Hd
    by (rewrite length_drop; unfold HEADER_LEN in *; lia).
  rewrite Hd in *. rewrite take_app_length, (take_app_le f) by lia. rewrite drop_app_length in Ha2. by rewrite take_drop.
Qed.

Lemma tcp_recv_cut stream f rest : healthy stream -> sized_frame f -> f = arrives stream ++ rest -> rest <> [] ->
  (tcp_recv (from_stream stream)).2 = Ok None /\ tt_closed (tcp_recv (from_stream stream)).1 = true.
Proof.
  intros Hs [Hf Hwb] Ha Hr. assert (0 < Zlen rest) as Hrl by (destruct rest; cbn; [done|lia]).
  unfold tcp_recv, from_stream. cbn [tt_stream tt_closed].
  destruct (Z.le_gt_cases HEADER_LEN (Zlen (arrives stream))) as [Hge|Hlt].
  - destruct (fill_enough stream HEADER_LEN Hs) as (s1 & -> & Hh1 & Ha1); [unfold HEADER_LEN in *; lia|].
    assert (slice (take (Z.to_nat HEADER_LEN) (arrives stream)) 76 84 = slice f 76 84) as ->.
    { rewrite Ha. unfold slice. rewrite skipn_firstn_comm, take_take, drop_app_le, take_app_le;
        rewrite ?length_drop; unfold HEADER_LEN in *; try lia. done. }
    rewrite Hwb, (proj2 (Z.ltb_ge _ _)), Z.geb_leb, (proj2 (Z.leb_gt _ _)) by lia.
    pose proof (fill_short s1 (Zlen f - HEADER_LEN) Hh1) as Hshort. destruct (fill (Zlen f - HEADER_LEN) s1) as [b s2].
    cbn [fst] in Hshort. rewrite Hshort; [done|]. rewrite Ha1, length_drop, Ha, length_app. unfold HEADER_LEN in *. lia.
  - pose proof (fill_short stream HEADER_LEN Hs Hlt) as Hshort. destruct (fill HEADER_LEN stream) as [h s1].
    cbn [fst] in Hshort. by subst h.
Qed.

(** Receiving [n] times. *)
Fixpoint tcp_recvs (n : nat) (t : TcpTransport) : TcpTransport * list (outcome unit (option (list Z))) :=
  match n with
  | O => (t, [])
  | S n => let '(t, r) := tcp_recv t in let '(t, rs) := tcp_recvs n t in (t, r :: rs)
  end.

Lemma tcp_recvs_frames stream fs rest : healthy stream -> Forall sized_frame fs -> arrives stream = concat fs ++ rest ->
  exists stream', tcp_recvs (length fs) (from_stream stream) = (from_stream stream', (Ok ∘ Some) <$> fs) /\
    healthy stream' /\ arrives stream' = rest.
Proof.
  intros Hs Hf. revert stream Hs. induction Hf as [|f fs Hf _ IH]; intros stream Hs Ha; [by exists stream|].
  cbn [concat] in Ha. rewrite <-app_assoc in Ha. destruct (tcp_recv_frame stream f _ Hs Hf Ha) as (s1 & Hr & Hh & Ha1).
  destruct (IH s1 Hh Ha1) as (s2 & Hrs & Hh2 & Ha2). exists s2. cbn [length tcp_recvs]. by rewrite Hr, Hrs.
Qed.

(** * Theorems *)

(** C9: requests sent are served, in order, with the weighted sums of their experts.  A client
    sends any number of routed requests over the ladder; the server takes them off its transport
    one a step and answers each; the client's receiver accepts every return in order; the return to
    a request has its identifiers and, for each row, the BF16 of its eight routes' expert rows
    weighted and added in ascending order of expert; and the server is then idle. *)
Theorem requests_served_in_order cpu nocrc exp grouped reqs :
  Forall (routed_request grouped) reqs -> Zlen reqs < 2 ^ 64 ->
  let naive := Layout.NONE in
  let ffn := cpu_ffn exp grouped in
  exists wires sender sv receiver,
    send_all cpu nocrc (StreamSender_new naive) reqs = (sender, Ok <$> wires) /\
    run cpu nocrc ffn (length reqs) (SparkServer_new (mkLoopbackEnd wires []) naive)
    = (sv, (Ok ∘ Some) <$> seqZ 0 (Zlen reqs)) /\
    accept_all cpu nocrc (StreamReceiver_new naive) (le_tx (sv_transport sv))
    = (receiver, FrameReturn <$> stamped_returns 0 (served_return exp grouped <$> reqs)) /\
    snd (step cpu nocrc sv ffn) = Ok None.
Proof.
  intros Hreqs Hmax naive ffn. apply exchange_ok; [done|done| |done]. apply Forall2_fmap_r, Forall_Forall2_diag.
  eapply Forall_impl; [exact Hreqs|]. intros req Hreq. split; [apply (rr_wf _ _ Hreq)|].
  split; [by apply serve_return_ok|by eapply served_return_wf].
Qed.

(** One row, routed eight times to expert 0. *)
Definition one_row_request : RequestFrame :=
  mkRequestFrame 11 1 4 2 Decode 3 0 99 [sample_row] (replicate 8 (mkRouteEntry 0 0 0x3E000000)) [sample_hidden].

Lemma one_row_routed : routed_request zero_image one_row_request.
Proof.
  constructor.
  - apply sample_request_like; [done|done|]. apply Forall_replicate. split; [|done]. by apply (bool_decide_unpack _).
  - done.
  - intros i r [-> Hi]%lookup_replicate. cbn. symmetry. apply Z.div_small. lia.
  - by apply Forall_replicate.
  - apply Forall_replicate, zero_image_resident.
Qed.

Lemma requests_served_in_order_witness : exists wires sender sv receiver,
  send_all Sse42 false (StreamSender_new Layout.NONE) [one_row_request; one_row_request] = (sender, Ok <$> wires) /\
  run Sse42 false (cpu_ffn (fun x => x) zero_image) 2 (SparkServer_new (mkLoopbackEnd wires []) Layout.NONE)
  = (sv, [Ok (Some 0); Ok (Some 1)]) /\
  fst (accept_all Sse42 false (StreamReceiver_new Layout.NONE) (le_tx (sv_transport sv))) = receiver.
Proof.
  destruct (requests_served_in_order Sse42 false (fun x => x) zero_image [one_row_request; one_row_request])
    as (wires & sender & sv & receiver & H1 & H2 & H3 & _);
    [constructor; [apply one_row_routed|constructor; [apply one_row_routed|constructor]]|done|].
  exists wires, sender, sv, receiver. split; [exact H1|]. split; [exact H2|]. by rewrite H3.
Defined.



(** C14: frames come over TCP as they were sent, however the stream is cut.  If what arrives is
    frames the codec accepts, end to end, then each [recv] returns the next of them, whatever
    pieces the reads return and whatever interrupts them; and when the peer closes in the middle
    of a frame, no part of it is returned and the connection is marked closed. *)
Theorem tcp_frames_whole stream fs rest :
  healthy stream -> Forall sized_frame fs -> arrives stream = concat fs ++ rest ->
  exists t, tcp_recvs (length fs) (from_stream stream) = (t, (Ok ∘ Some) <$> fs) /\
    arrives (tt_stream t) = rest /\
    forall f missing, sized_frame f -> f = rest ++ missing -> missing <> [] ->
      (tcp_recv t).2 = Ok None /\ peer_closed (tcp_recv t).1 = true.
Proof.
  intros Hs Hf Ha. destruct (tcp_recvs_frames stream fs rest Hs Hf Ha) as (s' & Hr & Hh & Ha'). exists (from_stream s').
  split; [done|]. split; [done|]. intros f missing Hsf -> Hm. apply (tcp_recv_cut s' (rest ++ missing) missing); [done|done|by rewrite Ha'|done].
Qed.

(** A header that says it is all of the frame, twice and a half, in three pieces. *)
Lemma tcp_frames_whole_witness :
  let stream := [Arrived (take 100 overflow_bytes); Interrupted; Arrived (drop 100 overflow_bytes ++ overflow_bytes ++ take 7 overflow_bytes)] in
  exists t, tcp_recvs 2 (from_stream stream) = (t, [Ok (Some overflow_bytes); Ok (Some overflow_bytes)]) /\ peer_closed (tcp_recv t).1 = true.
Proof.
  intros stream. assert (sized_frame overflow_bytes) as Hsf by (split; vm_compute; done).
  destruct (tcp_frames_whole stream [overflow_bytes; overflow_bytes] (take 7 overflow_bytes)) as (t & Ht & _ & Hcut).
  - repeat constructor; vm_compute; discriminate.
  - by repeat constructor.
  - vm_compute. reflexivity.
  - exists t. split; [exact Ht|]. apply (Hcut overflow_bytes (drop 7 overflow_bytes) Hsf); [by rewrite take_drop|]. vm_compute. discriminate.
Defined.

(** The length is read before anything vouches for it: past the address space it panics. *)
Example tcp_length_unchecked :
  (tcp_recv (from_stream [Arrived (splice overflow_bytes 76 (le_bytes 8 (2 ^ 63)))])).2 = Panic.
Proof. by vm_compute. Qed.
